(* ===== verification/_CoqProject ===== *)
-Q . S2P
Prelude.v
ListNode.v
Heap.v
Timer.v
Thread.v
ThreadInv.v
Sched.v
Sync.v
Locks.v
Bio.v
Bcache.v
Refs.v
Futex.v
Sem.v
Once.v
PMutex.v
PMutexNormal.v
PMutexOwned.v
PMutexSafe.v
Cond.v
Rwlock.v
ThreadList.v
Tls.v
Pthread.v
PthreadInv.v
PthreadSafe.v
BioReg.v
FsPath.v
Fs.v
LibcString.v
Printf.v
Partition.v
Ptable.v
Cbuf.v
Sparse.v
Crc.v
SparseFormat.v
Backed.v
OutFile.v
OutFileSpec.v
Simg.v
MemFile.v
ImageTrip.v
Img2simg.v
RawImage.v
Sha1.v
Alloc.v
AllocBits.v
AllocInv.v
AllocSafe.v
AllocInit.v
AllocReduce.v
AllocOob.v
Extent.v
ExtentSpec.v
ExtentFile.v
FileTrip.v
ReadBack.v
ImageOk.v
AllocProps.v
Indirect.v
Contents.v
Dir.v
ImageFiles.v
MakeFs.v
TreeRead.v
TreeFrame.v
TreeBuild.v
TreeStart.v
ImageView.v
Tree.v
MakeSuper.v
Ext2simg.v
MakeHeader.v
MakeInodes.v
MakeStage.v
MakeTrip.v
Defaults.v
MakeImage.v
