(* ===== verification/Prelude.v ===== *)
(** * A verification of LK, of the threads of bionic, and of the ext4 image maker

    The repository is a part of an Android tree.  The development is about three parts of
    it.  LK, under [src/bootable/bootloader/lk/lk], is the boot loader: a small
    preemptive kernel with its libraries, and the code that writes downloaded images to
    flash.  Bionic, under [src/bionic/libc], is the C library of the system that is
    booted; what is modelled of it are its threads and the locks they share.  The image
    maker, under [src/system/extras/extras/ext4_utils], runs on the build host: it makes
    a file system of a directory and writes the sparse image that LK takes.
    Paths below are relative to these directories.

    ** The parts of LK and where they are modelled

    - [ListNode]: the intrusive doubly linked lists of [include/list.h], on a memory of
      nodes; the other components use lists as sequences, which [ListNode] justifies.
    - [Heap]: the first-fit allocator [lib/heap/heap.c] and [malloc], [calloc],
      [realloc] of [lib/libc/malloc.c].  State: the free list, in address order, and the
      headers and bytes in memory.
    - [Timer]: the timer queue of [kernel/timer.c] on a wrapping 32-bit clock.
    - [Thread], [ThreadInv], [Sched]: [kernel/thread.c].  [Thread] holds the state (run
      queues, wait queues, the critical section count, the saved continuation of every
      thread) and the operations, [ThreadInv] the invariant and the lemmas on it,
      [Sched] the theorems on scheduling.
    - [Sync], [Locks]: [kernel/mutex.c], [kernel/event.c], [kernel/dpc.c] and the
      interrupt entry of [arch/arm/exceptions.S].  A call that blocks switches to
      another thread and leaves a frame that says what it does when it is resumed.
      [Locks] runs any number of threads that yield, take interrupts, acquire and
      release, as a step relation, and proves mutexes correct on its reachable states.
    - [Bio]: the block devices of [lib/bio]: the checked entry points and the default
      hooks of [bio.c], memory devices ([mem.c]) and subdevices ([subdev.c]).  The
      function pointers of [struct bdev] are the classes [BlockHooks], [ByteHooks] and
      [EraseHook]; what a driver promises is [BlockLaws] and [ByteLaws], which memory
      devices, devices with default hooks and subdevices are shown to satisfy.
    - [BioReg]: the registry of devices and its reference counts, with the generic
      lemmas on counted references of [Refs].
    - [Bcache]: the write-back block cache [lib/bcache/bcache.c] over any device that
      satisfies [ByteLaws].
    - [FsPath], [Fs]: [lib/fs/fs.c].  [FsPath] has the in-place path normaliser, [Fs] the
      mount table and the open files on top of the registry of [BioReg]; the file system
      drivers are a parameter.
    - [Partition], [Ptable]: the MBR reader [lib/partition/partition.c], which publishes
      subdevices in the registry, and the flash partition table [lib/ptable/ptable.c].
    - [LibcString]: the string library [lib/libc/string], [atoi.c], [ctype.c], on a
      memory of bytes.
    - [Printf]: the formatter of [lib/libc/printf.c].
    - [Cbuf]: the circular buffer [lib/cbuf/cbuf.c] and [include/pow2.h].
    - [Sparse]: the sparse image state machine [app/mt_boot/sparse_state_machine.c], fed
      as [app/mt_boot/download_commands.c] feeds it.  The eMMC driver is not in the
      repository: it is the class [Emmc] with the laws [EmmcLaws].

    ** The parts of bionic

    - [Futex]: threads that share one word, with the atomic operations of
      [private/bionic_atomic_arm.h] and the futex system calls.  A component gives its
      program points and the access each makes; the machine interleaves the threads.
    - [Sem]: [bionic/semaphore.c].
    - [Once], [PMutex], [Cond]: [pthread_once], the mutexes of the three types and the
      condition variables of [bionic/pthread.c].  [PMutexNormal] and [PMutexOwned] have
      the invariants of the mutexes without and with an owner, [PMutexSafe] the theorems.
    - [Rwlock]: [bionic/pthread-rwlocks.c], which is built on a mutex and a condition
      variable; there a stretch of code with the mutex held is one step.
    - [ThreadList], [Tls], [Pthread]: the linked list of threads in memory, the bitmap of
      thread-local storage keys, and the life of threads with their storage, from
      [pthread_create] to [pthread_join], in [bionic/pthread.c].  [PthreadInv] has the
      invariant, [PthreadSafe] the theorems.  The cleanup handlers and destructors are
      client code; a destructor may use the keys.

    ** The parts of the image maker

    - [Sha1]: the hash [sha1.c] and the identifiers of [uuid.c].
    - [Alloc]: the block groups with their bitmaps, the linked regions of an allocation
      and the inodes, [allocate.c], with the layout from [ext4_utils.c].  [AllocBits],
      [AllocInv], [AllocSafe], [AllocInit], [AllocReduce] and [AllocOob] have the lemmas,
      an operation each, [AllocProps] the theorems.
    - [Extent]: [extent.c], on a state of inodes and buffers in memory.  [ExtentSpec] has
      the reader of extents, [ExtentFile] what an allocation leaves in the inode.
    - [Indirect]: the block lists of [indirect.c].
    - [Contents], [Dir]: files, links and directories, [contents.c]; [Dir] has the reader
      of directories.
    - [FileTrip], [ReadBack], [ImageOk], [ImageFiles]: the invariant of an image under
      construction, the reader of files from the bytes of an image, and the proof that
      what was put in is read back.
    - [MakeFs]: [make_ext4fs.c] and the rest of [ext4_utils.c]: the parameters, the super
      block and the group descriptors, the journal, the walk over the directory that is
      packed, and [make_ext4fs_internal] as a whole.
    - [TreeRead], [TreeFrame], [TreeBuild], [TreeStart], [Tree]: the reader of a directory
      tree from the bytes of an image, starting from an inode number; what every operation
      of the builder leaves as it was; and the proof, by induction on the host's tree, that
      [build_directory_structure] leaves an image in which the whole tree is read.
    - [ImageView]: a memory, files and an image made for a given state of the builder, so
      that what the theorems on images ask of them is seen to hold by computation.
    - [MakeSuper], [MakeHeader], [MakeInodes], [MakeStage], [MakeTrip]: the super block and
      what a kernel reads from it, the headers of the groups, the journal and the blocks
      kept for resizing, and the whole of [make_ext4fs_internal], which is read by a reader
      that begins with the super block.  [Defaults] has the arithmetic of the parameters
      that are chosen, [MakeImage] the theorems.
    - [Backed]: the queue of blocks to be written, [backed_block.c].
    - [OutFile], [OutFileSpec], [RawImage]: the writer of sparse and of plain images,
      [output_file.c] and [write_ext4_image] of [ext4_utils.c], over a class of files.
    - [Crc], [SparseFormat]: the checksum [sparse_crc32.c] and the headers of
      [sparse_format.h]; [Simg], [MemFile]: the unpacker [simg2img.c] and files in memory.
    - [ImageTrip]: the writer against the unpacker, and against the state machine of LK.
    - [Img2simg]: [img2simg.c], which cuts a raw image into sparse files, against the
      unpacker and against LK, which puts them together again.
    - [Ext2simg]: [ext2simg.c], which makes a sparse image of the blocks in use of an ext4
      image, with [ext4_parse_sb] of [ext4_utils.c].

    ** How code is modelled

    A function of the source is a Definition of the same name that takes the state it
    reads and returns the state it leaves.  Integers are [Z] with the wrap-around of
    their width written out ([u32], [s32], [s8]).  [None] is what a debug build of the
    code does not survive: a failed assertion, a panic, an access to freed memory, a
    broken ring; error codes and NULL are ordinary results.  The models are for the
    32-bit ARM builds, without [PLATFORM_HAS_DYNAMIC_TIMER] and [THREAD_STATS].
    Loops that do not follow a structure take fuel.  The properties say how much is
    enough: the number of nodes of a ring, of due timers, of devices ever made, twice
    the bytes of a packet, the length of a string, four times the longest path; so they
    show that the loops end.  The loops of bionic's locks are points of a step relation
    and need none.  There the numbers of threads stay below [INT_MAX] and their ids
    below 2^16, the width of the owner field, and a condition variable is pulsed fewer
    than 2^31 times, the width of its counter.

    ** What is proved

    - Lists: every operation on a ring is the operation on a sequence; the iteration
      visits it in order and ends.
    - Heap: the heap stays tiled by live and free chunks, free chunks are ordered and
      fully coalesced, allocations are aligned and disjoint, a free undoes an
      allocation, reallocation keeps the data; a request near 2^32 wraps.
    - Timers: insertion keeps the firing order, cancelling removes exactly the timer, a
      tick ends, fires exactly what is due and was not cancelled by then, in order, and sets
      an interval timer again unless its callback has set or cancelled it; callbacks may set
      and cancel any timers.
    - Scheduling: who runs next after a yield, a preemption, a block and a wake-up, on
      every branch, and what the time-out of a wait does.
    - Mutexes: exclusion, no assertion failure, no lost wake-up, on all interleavings of
      acquires without a time-out; and the race of a time-out with a release that strands a mutex.
    - Block devices: byte access through blocks is exact, writes can be read back, a
      subdevice stays in its window, erasing zeroes; counts of references are exact.
    - Block cache: reads see the latest data through any evictions, updates change one
      block, a flush makes the device agree.
    - Strings: [memcpy] and [memmove] with word moves equal a simultaneous copy,
      [strlcpy] is bounded, [strlcat] is not.
    - Formatting: output is cut to the size of the buffer, for every format,
      when the size is at least 2; numbers that were printed are read back.
    - Paths, mounts, partitions: the normaliser computes the normal form by fields; the
      counts of mounts, files and devices are exact together and nothing freed is used
      as long as no mount is unmounted twice;
      exactly the valid entries of a partition table are published.
    - Circular buffers: writes append, reads take from the front; the case that loses
      the whole queue.
    - Sparse images: any cutting of an image of raw and don't-care chunks into packets of at
      least 28 bytes but for the last writes the image; the shorter packet that makes the
      loop run for ever.

    - Semaphores, mutexes, [pthread_once], condition variables, read-write locks of
      bionic: on all interleavings, exclusion and conservation of the resource, the
      truth of the words, and that no wake-up is lost; and the runs in which a time-out
      loses one.

    - Threads of bionic, when waits do not return on their own: no call but the deletion of a
      key uses a descriptor or storage that is gone, a join waits for the exit and gets its
      value, keys that are not allocated read as null, the destructors end; and the runs in
      which deleting a key uses unmapped storage and a spurious return frees a descriptor.

    - Images: the queue is sorted and complete; the sparse image of any queue is unpacked
      to the blocks at their places, by the unpacker of the host and by LK; the plain
      image is the same but for its last byte.  An image that is cut into files is restored,
      on the host and on the device; one that is converted keeps exactly the blocks that
      its bitmaps mark as in use, when its last block is not.  Cutting it into more than 999 files fails.
    - The image maker: the bits of a bitmap are set exactly, allocations are disjoint and
      as long as asked for (one that is refused can lose blocks), inodes are given out once, directories can be read, and a
      file or a directory is read from the image through its inode and its extents.  A
      tree of files, directories and links shorter than 60 characters is packed, unless the
      inodes do not suffice or no single group has room for all of it, and read back with
      every name, mode, link and byte.
    - The image as a whole: what [make_ext4fs_internal] makes of any such directory is
      mounted, from the super block on, as that directory, also when it was shipped as a
      sparse file; and the default parameters give such a layout for every usual length.
      The theorems have the conditions on a layout as a record: at most 339 groups for
      blocks of 4 KB, so that the extents of a file fit in one block, and fuel for a list of
      as many regions as there are groups.
    - The hash is SHA-1 for every cutting of the message into pieces below 2^29 bytes.

    ** What is not modelled

    Output and debug code, the [THREAD_STATS] counters, the assembly variants of the
    string functions, drivers and platform code (register accesses), the boot
    applications apart from the sparse writer, and outside LK and the locks of bionic the
    vendored projects.  Of bionic's threads, [pthread_mutex_destroy], the debug hooks,
    thread attributes, signals and scheduling parameters are left out, and the memory is
    sequentially consistent.  Of the image maker, the extended attributes of SELinux, opening
    and wiping devices, the options of the command lines, and the repair tool [ext4fixup.c]
    are left out.

    This file has what the components share: machine integers, lists and buffers. *)
From stdpp Require Import base gmap list numbers sorting.
From Stdlib Require Import ZArith Lia.
#[local] Open Scope Z_scope.

(** ** Machine integers *)

(** The 32-bit machine of the ARM targets: [u32 z] is the value an
    [unsigned int]/[size_t] holds after the store of [z], [s32] the one a
    [long]/[int] holds. *)
Definition u32 (z : Z) : Z := z mod 2 ^ 32.
Definition s32 (z : Z) : Z := (z + 2 ^ 31) mod 2 ^ 32 - 2 ^ 31.
Definition s8 (z : Z) : Z := (z + 128) mod 256 - 128.

(** [ROUNDUP(a, b)] as the sources write it, [(((a) + ((b)-1)) & ~((b)-1))],
    on 32-bit operands. *)
Definition ROUNDUP (a b : Z) : Z := Z.land (u32 (a + (b - 1))) (Z.lnot (b - 1)).

(** The mathematical rounding [ROUNDUP] computes. *)
Definition round_up_to (a b : Z) : Z := (a + (b - 1)) / b * b.

Lemma u32_small z : 0 <= z < 2 ^ 32 -> u32 z = z.
Proof. apply Z.mod_small. Qed.

Lemma u32_range z : 0 <= u32 z < 2 ^ 32.
Proof. apply Z.mod_pos_bound. lia. Qed.

Lemma s32_small z : - 2 ^ 31 <= z < 2 ^ 31 -> s32 z = z.
Proof. intros H. unfold s32. rewrite Z.mod_small; lia. Qed.

Lemma land_lnot_ones a k :
  0 <= k -> Z.land a (Z.lnot (2 ^ k - 1)) = a / 2 ^ k * 2 ^ k.
Proof.
  intros Hk.
  replace (2 ^ k - 1) with (Z.ones k) by (rewrite Z.ones_equiv; lia).
  rewrite <- Z.ldiff_land, Z.ldiff_ones_r, Z.shiftl_mul_pow2, Z.shiftr_div_pow2 by lia.
  reflexivity.
Qed.

(** Low bits that do not overlap with high ones. *)
Lemma land_low a lo k : 0 <= k -> 0 <= lo < 2 ^ k -> Z.land (a * 2 ^ k) lo = 0.
Proof.
  intros Hk Hlo. apply Z.bits_inj'. intros i Hi. rewrite Z.land_spec, Z.bits_0. destruct (Z_lt_le_dec i k).
  - by rewrite Z.mul_pow2_bits_low by lia.
  - destruct (decide (lo = 0)) as [->|]; [by rewrite Z.bits_0, andb_false_r|].
    rewrite (Z.bits_above_log2 lo i), andb_false_r; [done | lia |].
    assert (Z.log2 lo < k) by (apply Z.log2_lt_pow2; lia). lia.
Qed.
Lemma lxor_low a lo k : 0 <= k -> 0 <= lo < 2 ^ k -> a * 2 ^ k + lo = Z.lxor (a * 2 ^ k) lo.
Proof. intros. apply Z.add_nocarry_lxor. by apply land_low. Qed.
Lemma lor_low a lo k : 0 <= k -> 0 <= lo < 2 ^ k -> Z.lor (a * 2 ^ k) lo = a * 2 ^ k + lo.
Proof. intros. rewrite <- Z.lxor_lor by (by apply land_low). symmetry. by apply lxor_low. Qed.

Lemma ROUNDUP_pow2 a k :
  0 <= k -> 0 <= a -> a + (2 ^ k - 1) < 2 ^ 32 ->
  ROUNDUP a (2 ^ k) = round_up_to a (2 ^ k).
Proof.
  intros Hk Ha Hb. unfold ROUNDUP, round_up_to.
  pose proof (Z.pow_pos_nonneg 2 k). rewrite u32_small by lia.
  by apply land_lnot_ones.
Qed.

Lemma round_up_to_bounds a b : 0 < b -> a <= round_up_to a b < a + b.
Proof.
  intros Hb. unfold round_up_to.
  pose proof (Z.div_mod (a + (b - 1)) b). pose proof (Z.mod_pos_bound (a + (b - 1)) b). nia.
Qed.

Lemma round_up_to_divide a b : (b | round_up_to a b).
Proof. unfold round_up_to. apply Z.divide_factor_r. Qed.

(** ** Lists *)
Lemma cons_eq_snoc {A} (x : A) xs : exists us p, x :: xs = us ++ [p].
Proof.
  destruct (exists_last (l := x :: xs)) as (us & p & E); [done|]. by exists us, p.
Qed.

Lemma snoc_eq_cons {A} xs (x : A) : exists e vs, xs ++ [x] = e :: vs.
Proof. destruct xs as [|e vs]; simpl; eauto. Qed.

Lemma list_filter_all {A} (P : A -> Prop) `{!forall x, Decision (P x)} (l : list A) :
  (forall x, x ∈ l -> P x) -> filter P l = l.
Proof.
  induction l as [|x l IH]; intros HP; [done|].
  rewrite filter_cons, decide_True by (apply HP; set_solver). f_equal.
  apply IH. intros; apply HP; set_solver.
Qed.

Lemma StronglySorted_filter {A} (R : relation A) (P : A -> Prop) `{!forall x, Decision (P x)} (l : list A) :
  StronglySorted R l -> StronglySorted R (filter P l).
Proof.
  induction 1 as [|x l Hs IH Hf]; [constructor|]. rewrite filter_cons. case_decide; [|done].
  constructor; [done|]. rewrite Forall_forall in Hf |- *.
  intros y [_ Hy]%list_elem_of_filter. by apply Hf.
Qed.

Lemma list_filter_ext_in {A} (P Q : A -> Prop) `{!forall x, Decision (P x)} `{!forall x, Decision (Q x)} (l : list A) :
  (forall x, x ∈ l -> P x <-> Q x) -> filter P l = filter Q l.
Proof.
  induction l as [|x l IH]; intros E; [done|]. rewrite !filter_cons.
  rewrite IH by (intros; apply E; set_solver). assert (P x <-> Q x) by (apply E; set_solver).
  repeat case_decide; tauto.
Qed.

(** ** Byte buffers

    [slice o n l] are the [n] bytes of [l] from offset [o]; [overlay o b l] is
    [l] after the bytes [b] were copied to offset [o], as [memcpy] does. *)
Definition slice {A} (o n : Z) (l : list A) : list A := take (Z.to_nat n) (drop (Z.to_nat o) l).
Definition overlay {A} (o : Z) (b l : list A) : list A :=
  take (Z.to_nat o) l ++ b ++ drop (Z.to_nat o + length b) l.

(** The length of a buffer, as an integer. *)
Definition zlen {A} (l : list A) : Z := Z.of_nat (length l).

(** Little-endian loads. *)
Definition byte_at (l : list Z) (i : nat) : Z := default 0 (l !! i).
Definition le16 (l : list Z) : Z := byte_at l 0 + 256 * byte_at l 1.
Definition le32 (l : list Z) : Z := le16 l + 65536 * le16 (drop 2 l).

Section Buffers.
Context {A : Type}.
Implicit Types l b : list A.

Lemma zlen_nonneg l : 0 <= zlen l.
Proof. unfold zlen. lia. Qed.

Lemma zlen_app l b : zlen (l ++ b) = zlen l + zlen b.
Proof. unfold zlen. rewrite length_app. lia. Qed.

Lemma slice_len o n l : 0 <= o -> 0 <= n -> o + n <= zlen l -> zlen (slice o n l) = n.
Proof. unfold zlen, slice. intros. rewrite length_take, length_drop. lia. Qed.

Lemma overlay_len o b l : 0 <= o -> o + zlen b <= zlen l -> zlen (overlay o b l) = zlen l.
Proof. unfold zlen, overlay. intros. rewrite !length_app, length_take, length_drop. lia. Qed.

Lemma slice_lookup o n l i :
  0 <= o -> (i < Z.to_nat n)%nat -> slice o n l !! i = l !! (Z.to_nat o + i)%nat.
Proof. intros. unfold slice. rewrite lookup_take_lt by done. apply lookup_drop. Qed.

Lemma slice_lookup_ge o n l i : (Z.to_nat n <= i)%nat -> slice o n l !! i = None.
Proof. intros. unfold slice. by apply lookup_take_ge. Qed.

Lemma overlay_lookup_in o b l i :
  0 <= o <= zlen l -> o <= Z.of_nat i < o + zlen b -> overlay o b l !! i = b !! (i - Z.to_nat o)%nat.
Proof.
  unfold zlen, overlay. intros Ho Hi. rewrite lookup_app_r by (rewrite length_take; lia).
  rewrite length_take, Nat.min_l by lia. by rewrite lookup_app_l by lia.
Qed.

Lemma overlay_lookup_out o b l i :
  0 <= o <= zlen l -> Z.of_nat i < o \/ o + zlen b <= Z.of_nat i -> overlay o b l !! i = l !! i.
Proof.
  unfold zlen, overlay. intros Ho [Hi|Hi].
  - rewrite lookup_app_l by (rewrite length_take; lia). apply lookup_take_lt. lia.
  - rewrite lookup_app_r by (rewrite length_take; lia). rewrite length_take, Nat.min_l by lia.
    rewrite lookup_app_r by lia. rewrite lookup_drop. f_equal. lia.
Qed.

(** Two buffers of the same length that agree byte by byte. *)
Lemma buffer_eq l l' :
  zlen l = zlen l' -> (forall i, Z.of_nat i < zlen l -> l !! i = l' !! i) -> l = l'.
Proof.
  unfold zlen. intros Hl E. apply list_eq. intros i. destruct (decide (i < length l)%nat); [apply E; lia|].
  by rewrite !lookup_ge_None_2 by lia.
Qed.
End Buffers.

(** Case analysis on where an index falls in an [overlay], and on the lengths. *)
Ltac buf_cases :=
  repeat first
    [ rewrite overlay_lookup_in by (rewrite ?overlay_len, ?slice_len; lia)
    | rewrite overlay_lookup_out by (rewrite ?overlay_len, ?slice_len; lia)
    | rewrite slice_lookup by lia ].

Lemma overlay_app {A} o (b b' l : list A) :
  0 <= o -> o + zlen b + zlen b' <= zlen l ->
  overlay (o + zlen b) b' (overlay o b l) = overlay o (b ++ b') l.
Proof.
  intros Ho Hl. pose proof (zlen_nonneg b). pose proof (zlen_nonneg b').
  apply buffer_eq; [rewrite !overlay_len; rewrite ?overlay_len, ?zlen_app; lia|].
  intros i Hi. destruct (decide (Z.of_nat i < o)).
  { rewrite !overlay_lookup_out; rewrite ?overlay_len, ?zlen_app; try lia; done. }
  destruct (decide (Z.of_nat i < o + zlen b)).
  { rewrite overlay_lookup_out by (rewrite ?overlay_len; lia).
    rewrite !overlay_lookup_in by (rewrite ?zlen_app; lia). rewrite lookup_app_l; [done|]. unfold zlen in *; lia. }
  destruct (decide (Z.of_nat i < o + zlen b + zlen b')).
  { rewrite !overlay_lookup_in by (rewrite ?overlay_len, ?zlen_app; lia).
    rewrite lookup_app_r by (unfold zlen in *; lia). f_equal. unfold zlen in *; lia. }
  rewrite !overlay_lookup_out; rewrite ?overlay_len, ?zlen_app; try lia; done.
Qed.

Lemma slice_app {A} o n n' (l : list A) :
  0 <= o -> 0 <= n -> 0 <= n' -> slice o n l ++ slice (o + n) n' l = slice o (n + n') l.
Proof.
  intros. unfold slice. rewrite (Z2Nat.inj_add n), (Z2Nat.inj_add o) by lia.
  rewrite <- drop_drop. apply take_take_drop.
Qed.

Lemma slice_slice {A} o n o' n' (l : list A) :
  0 <= o -> 0 <= o' -> 0 <= n' -> o' + n' <= n -> slice o' n' (slice o n l) = slice (o + o') n' l.
Proof.
  intros. unfold slice. rewrite skipn_firstn_comm, take_take, drop_drop. f_equal; [lia|]. f_equal. lia.
Qed.

Lemma slice_0 {A} o (l : list A) : slice o 0 l = [].
Proof. done. Qed.

Lemma slice_all {A} (l : list A) : slice 0 (zlen l) l = l.
Proof. unfold slice, zlen. rewrite drop_0, Nat2Z.id. apply firstn_all. Qed.

Lemma slice_overlay_same {A} o (b l : list A) :
  0 <= o -> o + zlen b <= zlen l -> slice o (zlen b) (overlay o b l) = b.
Proof.
  intros Ho Hl. pose proof (zlen_nonneg b).
  apply buffer_eq; [rewrite slice_len; rewrite ?overlay_len; lia|].
  intros i Hi. rewrite slice_len in Hi by (rewrite ?overlay_len; lia).
  rewrite slice_lookup by lia. rewrite overlay_lookup_in by lia. f_equal. lia.
Qed.

Lemma slice_overlay_other {A} o n p (b l : list A) :
  0 <= o -> 0 <= n -> 0 <= p -> p + zlen b <= zlen l -> o + n <= zlen l -> o + n <= p \/ p + zlen b <= o ->
  slice o n (overlay p b l) = slice o n l.
Proof.
  intros Ho Hn Hp Hl Hon Hd. pose proof (zlen_nonneg b). apply buffer_eq; [rewrite !slice_len; rewrite ?overlay_len; lia|].
  intros i Hi. rewrite slice_len in Hi by (rewrite ?overlay_len; lia).
  rewrite !slice_lookup by lia. apply overlay_lookup_out; lia.
Qed.

(** Copying a part of a region over the part: the region is copied from a block. *)
Lemma overlay_overlay_in {A} o p (b c l : list A) :
  0 <= o -> 0 <= p -> o + zlen c <= zlen l -> p + zlen b <= zlen c ->
  overlay o (overlay p b c) l = overlay (o + p) b (overlay o c l).
Proof.
  intros Ho Hp Hl Hb. pose proof (zlen_nonneg b).
  apply buffer_eq; [rewrite !overlay_len; rewrite ?overlay_len; lia|]. intros i Hi.
  destruct (decide (o <= Z.of_nat i < o + zlen c)).
  - rewrite overlay_lookup_in by (rewrite ?overlay_len; lia).
    destruct (decide (o + p <= Z.of_nat i < o + p + zlen b)).
    + rewrite !overlay_lookup_in by (rewrite ?overlay_len; lia). f_equal. lia.
    + rewrite overlay_lookup_out by lia. rewrite overlay_lookup_out by (rewrite ?overlay_len; lia).
      by rewrite overlay_lookup_in by lia.
  - rewrite overlay_lookup_out by (rewrite ?overlay_len; lia).
    rewrite overlay_lookup_out by (rewrite ?overlay_len; lia). by rewrite overlay_lookup_out by lia.
Qed.

Lemma overlay_slice_id {A} o n (l : list A) :
  0 <= o -> 0 <= n -> o + n <= zlen l -> overlay o (slice o n l) l = l.
Proof.
  intros. apply buffer_eq; [rewrite overlay_len; rewrite ?slice_len; lia|]. intros i Hi.
  destruct (decide (o <= Z.of_nat i < o + n)).
  - rewrite overlay_lookup_in by (rewrite ?slice_len; lia). rewrite slice_lookup by lia. f_equal. lia.
  - apply overlay_lookup_out; rewrite ?slice_len; lia.
Qed.
