(* ===== verification/ListNode.v ===== *)
(** * Intrusive doubly linked lists ([include/list.h])

    Every queue of the kernel (run queues, wait queues, the timer queue, the
    heap's free list, the block cache's LRU list) is a ring of [struct
    list_node]s.  This file models the ring operations on a memory of nodes,
    store by store in the order of the source, and proves that on a well-formed
    ring each of them is the corresponding operation on a sequence.  The other
    components use the sequence operations this file justifies. *)
From stdpp Require Import base gmap list.
From Stdlib Require Import ZArith Lia.
From S2P Require Import Prelude.
#[local] Open Scope Z_scope.

(** [struct list_node]; addresses are integers and [0] is NULL. *)
Record list_node := Node { prev : Z; next : Z }.

Definition null : Z := 0.

(** The memory that holds the nodes.  A load or a store at an address with no
    node is undefined behaviour: [None]. *)
Abbreviation memory := (gmap Z list_node).

Definition get_next (p : Z) (m : memory) : option Z := next <$> m !! p.
Definition get_prev (p : Z) (m : memory) : option Z := prev <$> m !! p.
Definition set_next (p v : Z) (m : memory) : option memory :=
  n ← m !! p; Some (<[p := Node (prev n) v]> m).
Definition set_prev (p v : Z) (m : memory) : option memory :=
  n ← m !! p; Some (<[p := Node v (next n)]> m).

Definition list_initialize (list : Z) (m : memory) : memory :=
  <[list := Node list list]> m.

Definition list_clear_node (item : Z) (m : memory) : memory :=
  <[item := Node null null]> m.

Definition list_in_list (item : Z) (m : memory) : option bool :=
  p ← get_prev item m; n ← get_next item m;
  Some (negb ((p =? 0) && (n =? 0))).

Definition list_add_head (list item : Z) (m : memory) : option memory :=
  ln ← get_next list m;
  m ← set_next item ln m;
  m ← set_prev item list m;
  ln ← get_next list m;
  m ← set_prev ln item m;
  set_next list item m.

Definition list_add_tail (list item : Z) (m : memory) : option memory :=
  lp ← get_prev list m;
  m ← set_prev item lp m;
  m ← set_next item list m;
  lp ← get_prev list m;
  m ← set_next lp item m;
  set_prev list item m.

(** [list_add_before] and [list_add_after] are macros for the two above. *)
Definition list_add_after (entry new_entry : Z) := list_add_head entry new_entry.
Definition list_add_before (entry new_entry : Z) := list_add_tail entry new_entry.

Definition list_delete (item : Z) (m : memory) : option memory :=
  n ← get_next item m; p ← get_prev item m;
  m ← set_prev n p m;
  p ← get_prev item m; n ← get_next item m;
  m ← set_next p n m;
  m ← set_next item null m;
  set_prev item null m.

(** The functions that return a node return NULL on the empty list. *)
Definition list_remove_head (list : Z) (m : memory) : option (Z * memory) :=
  item ← get_next list m;
  if negb (item =? list) then m ← list_delete item m; Some (item, m)
  else Some (null, m).

Definition list_remove_tail (list : Z) (m : memory) : option (Z * memory) :=
  item ← get_prev list m;
  if negb (item =? list) then m ← list_delete item m; Some (item, m)
  else Some (null, m).

Definition list_peek_head (list : Z) (m : memory) : option Z :=
  n ← get_next list m; Some (if negb (n =? list) then n else null).

Definition list_peek_tail (list : Z) (m : memory) : option Z :=
  p ← get_prev list m; Some (if negb (p =? list) then p else null).

Definition list_prev (list item : Z) (m : memory) : option Z :=
  p ← get_prev item m; Some (if negb (p =? list) then p else null).

Definition list_next (list item : Z) (m : memory) : option Z :=
  n ← get_next item m; Some (if negb (n =? list) then n else null).

Definition list_prev_wrap (list item : Z) (m : memory) : option Z :=
  p ← get_prev item m;
  if negb (p =? list) then Some p else
  pp ← get_prev p m; Some (if negb (pp =? list) then pp else null).

Definition list_next_wrap (list item : Z) (m : memory) : option Z :=
  n ← get_next item m;
  if negb (n =? list) then Some n else
  nn ← get_next n m; Some (if negb (nn =? list) then nn else null).

Definition list_is_empty (list : Z) (m : memory) : option bool :=
  n ← get_next list m; Some (n =? list).

(** The nodes the loop of [list_for_every] visits, from the cursor [node]; the
    loop of the source has no bound, [fuel] is how many nodes it may visit. *)
Fixpoint list_for_every (fuel : nat) (list node : Z) (m : memory) : option (Datatypes.list Z) :=
  if node =? list then Some [] else
  match fuel with
  | O => None
  | S fuel => n ← get_next node m; rest ← list_for_every fuel list n m; Some (node :: rest)
  end.

(** ** Rings *)

(** [path m ks]: each node of [ks] is linked to the one after it, both ways. *)
Fixpoint path (m : memory) (ks : list Z) : Prop :=
  match ks with
  | a :: ((b :: _) as t) => get_next a m = Some b /\ get_prev b m = Some a /\ path m t
  | _ => True
  end.

(** The ring headed by the node at [l] holds the nodes [xs], in this order. *)
Definition is_list (m : memory) (l : Z) (xs : list Z) : Prop :=
  NoDup (l :: xs) /\ null ∉ l :: xs /\ path m (l :: xs ++ [l]).

Create HintDb list_node.

(** *** Loads after stores *)
Lemma get_set_next p v m m' :
  set_next p v m = Some m' ->
  (forall q, get_next q m' = if decide (q = p) then Some v else get_next q m) /\
  (forall q, get_prev q m' = get_prev q m).
Proof.
  unfold set_next, get_next, get_prev.
  destruct (m !! p) as [n|] eqn:E; simpl; intros [= <-].
  split; intros q; rewrite lookup_insert; repeat case_decide; subst; try done.
  by rewrite E.
Qed.

Lemma get_set_prev p v m m' :
  set_prev p v m = Some m' ->
  (forall q, get_prev q m' = if decide (q = p) then Some v else get_prev q m) /\
  (forall q, get_next q m' = get_next q m).
Proof.
  unfold set_prev, get_next, get_prev.
  destruct (m !! p) as [n|] eqn:E; simpl; intros [= <-].
  split; intros q; rewrite lookup_insert; repeat case_decide; subst; try done.
  by rewrite E.
Qed.

Lemma set_next_defined p v m : is_Some (get_next p m) -> is_Some (set_next p v m).
Proof. unfold get_next, set_next. destruct (m !! p); simpl; intros [? ?]; eauto; done. Qed.

Lemma set_prev_defined p v m : is_Some (get_next p m) -> is_Some (set_prev p v m).
Proof. unfold get_next, set_prev. destruct (m !! p); simpl; intros [? ?]; eauto; done. Qed.

Lemma get_prev_next_defined p m : is_Some (get_prev p m) <-> is_Some (get_next p m).
Proof. unfold get_next, get_prev. destruct (m !! p); simpl; split; intros [? ?]; eauto; done. Qed.

(** Runs one store of a sequence: names the new memory and its loads. *)
Ltac run_store :=
  match goal with
  | |- context [set_next ?p ?v ?m] =>
      let m' := fresh "m" in let E := fresh "E" in
      let N := fresh "N" in let P := fresh "P" in
      destruct (set_next p v m) as [m'|] eqn:E;
      [ destruct (get_set_next p v m m' E) as [N P]; simpl
      | exfalso; apply (is_Some_None (A := memory)); rewrite <- E; apply set_next_defined ]
  | |- context [set_prev ?p ?v ?m] =>
      let m' := fresh "m" in let E := fresh "E" in
      let N := fresh "N" in let P := fresh "P" in
      destruct (set_prev p v m) as [m'|] eqn:E;
      [ destruct (get_set_prev p v m m' E) as [P N]; simpl
      | exfalso; apply (is_Some_None (A := memory)); rewrite <- E; apply set_prev_defined ]
  end.

(** Rewrites loads back to the memory before the stores. *)
Ltac loads :=
  repeat (match goal with
          | N : forall q, get_next q ?m = _ |- context [get_next _ ?m] => rewrite N
          | P : forall q, get_prev q ?m = _ |- context [get_prev _ ?m] => rewrite P
          end || case_decide || simplify_eq); eauto.

(** *** What an insertion and a deletion do to the links *)
Lemma list_add_tail_links e p item m :
  get_prev e m = Some p -> is_Some (get_next p m) -> is_Some (get_next item m) ->
  item <> e -> item <> p ->
  exists m', list_add_tail e item m = Some m' /\
    (forall q, get_next q m' = if decide (q = p) then Some item
                               else if decide (q = item) then Some e else get_next q m) /\
    (forall q, get_prev q m' = if decide (q = e) then Some item
                               else if decide (q = item) then Some p else get_prev q m).
Proof.
  intros Hp Dp Di Hne Hnp. unfold list_add_tail.
  assert (De : is_Some (get_next e m)) by (apply get_prev_next_defined; eauto).
  rewrite Hp; simpl. run_store; [|by loads]. run_store; [|by loads].
  replace (get_prev e m1) with (Some p) by loads. simpl.
  run_store; [|by loads]. run_store; [|by loads].
  eexists; split; [done|]. split; intros q; loads.
Qed.

Lemma list_add_head_links e n item m :
  get_next e m = Some n -> is_Some (get_next n m) -> is_Some (get_next item m) ->
  item <> e -> item <> n ->
  exists m', list_add_head e item m = Some m' /\
    (forall q, get_next q m' = if decide (q = e) then Some item
                               else if decide (q = item) then Some n else get_next q m) /\
    (forall q, get_prev q m' = if decide (q = n) then Some item
                               else if decide (q = item) then Some e else get_prev q m).
Proof.
  intros Hn Dn Di Hne Hnn. unfold list_add_head.
  rewrite Hn; simpl. run_store; [|by loads]. run_store; [|by loads].
  replace (get_next e m1) with (Some n) by loads. simpl.
  run_store; [|by loads]. run_store; [|by loads].
  eexists; split; [done|]. split; intros q; loads.
Qed.

Lemma list_delete_links item p n m :
  get_prev item m = Some p -> get_next item m = Some n ->
  is_Some (get_next p m) -> is_Some (get_next n m) -> item <> p -> item <> n ->
  exists m', list_delete item m = Some m' /\
    (forall q, get_next q m' = if decide (q = item) then Some null
                               else if decide (q = p) then Some n else get_next q m) /\
    (forall q, get_prev q m' = if decide (q = item) then Some null
                               else if decide (q = n) then Some p else get_prev q m).
Proof.
  intros Hp Hn Dp Dn Hnp Hnn. unfold list_delete. rewrite Hn, Hp; simpl.
  run_store; [|by loads].
  replace (get_prev item m0) with (Some p) by loads.
  replace (get_next item m0) with (Some n) by loads. simpl.
  run_store; [|by loads]. run_store; [|by loads]. run_store; [|by loads].
  eexists; split; [done|]. split; intros q; loads.
Qed.

(** *** Paths *)
Lemma path_app m us p vs :
  path m (us ++ p :: vs) <-> path m (us ++ [p]) /\ path m (p :: vs).
Proof.
  induction us as [|a us IH]; simpl; [tauto|].
  destruct us as [|b us]; simpl in *; tauto.
Qed.

Lemma path_link m us p e vs :
  path m (us ++ p :: e :: vs) <->
  path m (us ++ [p]) /\ get_next p m = Some e /\ get_prev e m = Some p /\ path m (e :: vs).
Proof. rewrite path_app. simpl. tauto. Qed.

Lemma path_frame m m' us p :
  path m (us ++ [p]) ->
  (forall q, q ∈ us -> get_next q m' = get_next q m) ->
  (forall q, q ∈ tail (us ++ [p]) -> get_prev q m' = get_prev q m) ->
  path m' (us ++ [p]).
Proof.
  induction us as [|a us IH]; simpl; [done|].
  intros Hpath Hn Hp. destruct us as [|b us]; simpl in *.
  - destruct Hpath as (? & ? & _). rewrite Hn, Hp by set_solver. done.
  - destruct Hpath as (? & ? & Hpath). rewrite Hn, Hp by set_solver. split_and!; try done.
    apply IH; [done|intros; apply Hn; set_solver|intros; apply Hp; set_solver].
Qed.

Lemma path_defined m a us q : path m (a :: us ++ [a]) -> q ∈ a :: us -> is_Some (get_next q m).
Proof.
  intros Hpath (xs & ys & E)%list_elem_of_split.
  replace (a :: us ++ [a]) with ((a :: us) ++ [a]) in Hpath by done.
  rewrite E, <- app_assoc in Hpath. simpl in Hpath.
  destruct (snoc_eq_cons ys a) as (e & vs & E'). rewrite E' in Hpath.
  apply path_link in Hpath as (_ & Hn & _). eauto.
Qed.

(** *** The operations on rings *)

(** The nodes around the place between [xs] and [ys] of a ring: [p] is the last
    node up to [xs], [hd l ys] the next one, which is the head [l] at the end. *)
Lemma ring_split m l xs ys :
  is_list m l (xs ++ ys) ->
  exists us p vs, l :: xs = us ++ [p] /\ ys ++ [l] = hd l ys :: vs /\
    path m (us ++ [p]) /\ get_next p m = Some (hd l ys) /\
    get_prev (hd l ys) m = Some p /\ path m (hd l ys :: vs) /\
    p ∉ us /\ p ∉ ys /\ hd l ys ∉ xs /\ hd l ys ∉ vs.
Proof.
  intros (Hnd & _ & Hpath).
  destruct (cons_eq_snoc l xs) as (us & p & Eu).
  assert (exists vs, ys ++ [l] = hd l ys :: vs) as (vs & Ev) by (destruct ys; simpl; eauto).
  exists us, p, vs.
  rewrite <- app_assoc, Ev, app_comm_cons, Eu, <- app_assoc in Hpath.
  apply path_link in Hpath as (? & ? & ? & ?). split_and!; try done.
  - rewrite app_comm_cons, Eu, <- app_assoc in Hnd. apply NoDup_app in Hnd as (_ & Hs & _).
    intros Hin. by eapply Hs; [exact Hin|set_solver].
  - rewrite app_comm_cons, Eu, <- app_assoc in Hnd. apply NoDup_app in Hnd as (_ & _ & Hnd).
    by apply NoDup_cons in Hnd as [? _].
  - destruct ys as [|y ys]; simpl in *; apply NoDup_cons in Hnd as [Hl Hnd];
      [set_solver|]. apply NoDup_app in Hnd as (_ & Hs & _).
    intros Hin. by eapply Hs; [exact Hin|set_solver].
  - destruct ys as [|y ys]; simpl in *; simplify_eq; [set_solver|].
    apply NoDup_cons in Hnd as [Hl Hnd]. apply NoDup_app in Hnd as (_ & _ & Hnd).
    apply NoDup_cons in Hnd as [? _]. set_solver.
Qed.

(** A path that starts at the head node and one that comes back to it survive
    a change of the links at the place between them. *)
Lemma path_before m m' l xs us p e (item : Z) :
  l :: xs = us ++ [p] -> path m (us ++ [p]) -> p ∉ us -> e ∉ xs -> item ∉ l :: xs ->
  (forall q, q <> p -> q <> item -> get_next q m' = get_next q m) ->
  (forall q, q <> e -> q <> item -> get_prev q m' = get_prev q m) ->
  path m' (us ++ [p]).
Proof.
  intros Eu Hpath Hp He Hi HN HP. apply (path_frame m); [done| |].
  - intros q Hq. apply HN; [by intros ->|]. intros ->.
    apply Hi. rewrite Eu. set_solver.
  - intros q Hq. rewrite <- Eu in Hq. simpl in Hq.
    apply HP; intros ->; set_solver.
Qed.

Lemma path_after m m' l ys vs p (item : Z) :
  ys ++ [l] = hd l ys :: vs -> path m (hd l ys :: vs) -> p ∉ ys -> hd l ys ∉ vs ->
  item ∉ l :: ys ->
  (forall q, q <> p -> q <> item -> get_next q m' = get_next q m) ->
  (forall q, q <> hd l ys -> q <> item -> get_prev q m' = get_prev q m) ->
  path m' (hd l ys :: vs).
Proof.
  intros Ev Hpath Hp He Hi HN HP. rewrite <- Ev in Hpath |- *.
  apply (path_frame m); [done| |].
  - intros q Hq. apply HN; intros ->; set_solver.
  - intros q Hq. rewrite Ev in Hq. simpl in Hq.
    assert (q ∈ ys ++ [l]) by (rewrite Ev; set_solver).
    apply HP; intros ->; [done|set_solver].
Qed.

(** Inserting at the place between [xs] and [ys]: before the first node of [ys],
    or before the list head (that is, at the tail) when [ys] is empty. *)
Lemma is_list_insert m l xs ys item :
  is_list m l (xs ++ ys) -> item ∉ l :: xs ++ ys -> item <> null ->
  is_Some (get_next item m) ->
  exists m', list_add_tail (hd l ys) item m = Some m' /\ is_list m' l (xs ++ item :: ys) /\
    (forall q, q ∉ item :: l :: xs ++ ys ->
        get_next q m' = get_next q m /\ get_prev q m' = get_prev q m).
Proof.
  intros Hl Hfresh Hnz Dit.
  destruct (ring_split m l xs ys Hl) as (us & p & vs & Eu & Ev & Hpre & Hnx & Hpv & Hpost & Hs).
  destruct Hs as (Hp1 & Hp2 & He1 & He2).
  assert (Hein : hd l ys ∈ l :: xs ++ ys) by (destruct ys; set_solver).
  assert (Hpin : p ∈ l :: xs) by (rewrite Eu; set_solver).
  destruct Hl as (Hnd & Hnull & _).
  destruct (list_add_tail_links (hd l ys) p item m) as (m' & Hrun & HN & HP);
    eauto; [set_solver..|].
  exists m'; split; [done|]. split; [split_and!|].
  - rewrite app_comm_cons, <- Permutation_middle. by constructor.
  - set_solver.
  - replace (l :: (xs ++ item :: ys) ++ [l]) with (us ++ p :: item :: hd l ys :: vs)
      by (rewrite <- Ev, <- app_assoc, (app_comm_cons xs), Eu, <- app_assoc; done).
    apply path_link. cbn [path]. split_and!.
    + eapply (path_before m m' l xs us p (hd l ys) item); eauto; [set_solver|..]; intros q ??; [rewrite HN|rewrite HP];
        by repeat case_decide.
    + rewrite HN. by case_decide.
    + rewrite HP. repeat case_decide; set_solver.
    + rewrite HN. repeat case_decide; set_solver.
    + rewrite HP. by case_decide.
    + eapply (path_after m m' l ys vs p item); eauto; [set_solver|..]; intros q ??; [rewrite HN|rewrite HP];
        by repeat case_decide.
  - intros q Hq. rewrite HN, HP. repeat case_decide; subst; set_solver.
Qed.

Lemma is_list_delete m l xs item ys :
  is_list m l (xs ++ item :: ys) ->
  exists m', list_delete item m = Some m' /\ is_list m' l (xs ++ ys) /\
    m' !! item = Some (Node null null) /\
    (forall q, q ∉ l :: xs ++ item :: ys ->
        get_next q m' = get_next q m /\ get_prev q m' = get_prev q m).
Proof.
  intros Hl.
  destruct (ring_split m l xs (item :: ys) Hl)
    as (us & p & vs & Eu & Ev & Hpre & Hnx & Hpv & Hpost & Hp1 & Hp2 & He1 & He2).
  assert (vs = ys ++ [l]) as -> by (simpl in Ev; by simplify_eq).
  assert (exists ws, ys ++ [l] = hd l ys :: ws) as (ws & Ew) by (destruct ys; simpl; eauto).
  rewrite Ew in Hpost. simpl in Hpost, Hnx, Hpv. destruct Hpost as (Hn & Hnp & Hpost).
  destruct Hl as (Hnd & Hnull & Hpath).
  assert (Hnd' : NoDup (item :: l :: xs ++ ys))
    by (rewrite app_comm_cons, <- Permutation_middle in Hnd; done).
  apply NoDup_cons in Hnd' as [Hit Hnd'].
  assert (Hpin : p ∈ l :: xs) by (rewrite Eu; set_solver).
  assert (Hnin : hd l ys ∈ l :: ys) by (destruct ys; set_solver).
  destruct (list_delete_links item p (hd l ys) m) as (m' & Hrun & HN & HP);
    eauto using path_defined; try (eapply path_defined; [done|]); [set_solver..|].
  exists m'; split; [done|].
  assert (Hring : is_list m' l (xs ++ ys)).
  { split_and!; [done|set_solver|].
    replace (l :: (xs ++ ys) ++ [l]) with (us ++ p :: hd l ys :: ws)
      by (rewrite <- Ew, <- app_assoc, (app_comm_cons xs), Eu, <- app_assoc; done).
    apply path_link. split_and!.
    + eapply (path_before m m' l xs us p (hd l ys) item); eauto; [|set_solver|..].
      * destruct ys as [|y ys]; simpl; [by apply NoDup_cons in Hnd' as [? _]; set_solver|].
        apply NoDup_cons in Hnd' as [_ Hnd']. apply NoDup_app in Hnd' as (_ & Hs & _).
        intros Hin. by eapply Hs; [exact Hin|set_solver].
      * intros q ??. rewrite HN. by repeat case_decide.
      * intros q ??. rewrite HP. by repeat case_decide.
    + rewrite HN. repeat case_decide; set_solver.
    + rewrite HP. repeat case_decide; set_solver.
    + eapply (path_after m m' l ys ws p item); eauto; [set_solver| |set_solver|..].
      * destruct ys as [|y ys]; simpl in *; simplify_eq; [set_solver|].
        apply NoDup_cons in Hnd' as [? Hnd']. apply NoDup_app in Hnd' as (_ & _ & Hnd').
        apply NoDup_cons in Hnd' as [? _]. set_solver.
      * intros q ??. rewrite HN. by repeat case_decide.
      * intros q ??. rewrite HP. by repeat case_decide. }
  split_and!; [done| |].
  - specialize (HN item). specialize (HP item). unfold get_next, get_prev in *.
    destruct (m' !! item) as [[]|]; simpl in *; repeat case_decide; congruence.
  - intros q Hq. rewrite HN, HP. repeat case_decide; subst; set_solver.
Qed.

Lemma memory_eq (m1 m2 : memory) :
  (forall q, get_next q m1 = get_next q m2) -> (forall q, get_prev q m1 = get_prev q m2) ->
  m1 = m2.
Proof.
  intros HN HP. apply map_eq. intros q. specialize (HN q). specialize (HP q).
  unfold get_next, get_prev in *.
  destruct (m1 !! q) as [[]|], (m2 !! q) as [[]|]; simpl in *; congruence.
Qed.

(** At the head of the ring the two insertions build the same memory. *)
Lemma list_add_head_is_before m l xs item :
  is_list m l xs -> item ∉ l :: xs -> is_Some (get_next item m) ->
  list_add_head l item m = list_add_tail (hd l xs) item m.
Proof.
  intros Hl Hfresh Dit.
  destruct (ring_split m l [] xs Hl) as (us & p & vs & Eu & _ & _ & Hnx & Hpv & _).
  assert (p = l) as -> by (destruct us as [|? []]; simplify_eq/=; done).
  destruct Hl as (Hnd & Hnull & Hpath).
  assert (Hin : hd l xs ∈ l :: xs) by (destruct xs; set_solver).
  destruct (list_add_tail_links (hd l xs) l item m) as (m1 & -> & HN1 & HP1);
    eauto; [set_solver..|].
  destruct (list_add_head_links l (hd l xs) item m) as (m2 & -> & HN2 & HP2);
    eauto using path_defined; [set_solver..|].
  f_equal. apply memory_eq; intros q; [by rewrite HN1, HN2|by rewrite HP1, HP2].
Qed.

(** ** The operations are the operations on sequences *)

(** [list_add_before(entry, item)] on a ring that holds [xs ++ entry :: ys]
    yields a ring that holds [xs ++ item :: entry :: ys]; with the list head as
    the entry it is [list_add_tail] and appends.  No node outside the ring and
    the new item changes. *)
Theorem list_add_before_refines m l xs ys item :
  is_list m l (xs ++ ys) -> item ∉ l :: xs ++ ys -> item <> null ->
  is_Some (get_next item m) ->
  exists m', list_add_before (hd l ys) item m = Some m' /\ is_list m' l (xs ++ item :: ys) /\
    (forall q, q ∉ item :: l :: xs ++ ys ->
        get_next q m' = get_next q m /\ get_prev q m' = get_prev q m).
Proof. apply is_list_insert. Qed.

(** [list_delete] takes exactly the node out of its ring, clears its links
    (so that [list_in_list] is false of it afterwards) and leaves every node
    outside the ring alone. *)
Theorem list_delete_refines m l xs item ys :
  is_list m l (xs ++ item :: ys) ->
  exists m', list_delete item m = Some m' /\ is_list m' l (xs ++ ys) /\
    list_in_list item m' = Some false /\
    (forall q, q ∉ l :: xs ++ item :: ys ->
        get_next q m' = get_next q m /\ get_prev q m' = get_prev q m).
Proof.
  intros Hl. destruct (is_list_delete m l xs item ys Hl) as (m' & Hrun & Hl' & Hc & Hf).
  exists m'. split_and!; try done.
  unfold list_in_list, get_prev, get_next. by rewrite Hc.
Qed.

(** Every node on a ring reads as being in a list. *)
Lemma is_list_in_list m l xs q : is_list m l xs -> q ∈ xs -> list_in_list q m = Some true.
Proof.
  intros Hl (us & vs & ->)%list_elem_of_split.
  destruct (ring_split m l us (q :: vs) Hl) as (? & p & ? & Eu & Ev & _ & _ & Hpv & Hpost & _).
  simpl in Ev, Hpv, Hpost. simplify_eq.
  unfold list_in_list. rewrite Hpv. simpl.
  destruct Hl as (_ & Hnull & _).
  assert (Hp : p <> 0).
  { intros ->. apply Hnull. rewrite app_comm_cons, Eu. set_solver. }
  destruct (get_next q m) as [n|] eqn:E; simpl.
  - f_equal. destruct (Z.eqb_spec p 0); simpl; [done|]. done.
  - destruct vs; simpl in Hpost; destruct Hpost as [? _]; congruence.
Qed.

Lemma is_list_next_hd m l xs : is_list m l xs -> get_next l m = Some (hd l xs).
Proof. intros (_ & _ & Hpath). destruct xs; simpl in Hpath; by destruct Hpath as [-> _]. Qed.

(** [list_remove_head] is the removal of the first element: NULL and the
    memory unchanged on the empty ring, the first node and the ring of the rest
    otherwise. *)
Theorem list_remove_head_refines m l xs :
  is_list m l xs ->
  match xs with
  | [] => list_remove_head l m = Some (null, m)
  | x :: ys => exists m', list_remove_head l m = Some (x, m') /\ is_list m' l ys /\
                 list_in_list x m' = Some false
  end.
Proof.
  intros Hl. unfold list_remove_head. rewrite (is_list_next_hd m l xs Hl). simpl.
  destruct xs as [|x ys]; simpl; [by rewrite Z.eqb_refl|].
  assert (x <> l) by (destruct Hl as (Hnd & _); apply NoDup_cons in Hnd; set_solver).
  rewrite (proj2 (Z.eqb_neq x l)) by done. simpl.
  destruct (is_list_delete m l [] x ys Hl) as (m' & -> & Hl' & Hc & _). simpl.
  exists m'. split_and!; try done. unfold list_in_list, get_prev, get_next. by rewrite Hc.
Qed.

Lemma list_for_every_suffix m l xs ys :
  is_list m l (xs ++ ys) -> list_for_every (length ys) l (hd l ys) m = Some ys.
Proof.
  revert xs. induction ys as [|y ys IH]; intros xs Hl; cbn [list_for_every hd length].
  - by rewrite Z.eqb_refl.
  - assert (y <> l).
    { destruct Hl as (Hnd & _). apply NoDup_cons in Hnd. set_solver. }
    rewrite (proj2 (Z.eqb_neq y l)) by done.
    destruct (ring_split m l (xs ++ [y]) ys) as (us & p & vs & Eu & _ & _ & Hnx & _).
    { by rewrite <- app_assoc. }
    rewrite app_comm_cons in Eu. apply app_inj_tail in Eu as [_ <-].
    rewrite Hnx. simpl. rewrite (IH (xs ++ [y])) by (rewrite <- app_assoc; exact Hl). done.
Qed.

(** The loop of [list_for_every] terminates on a ring and visits its nodes in
    order: a budget of as many nodes as the ring holds is enough. *)
Theorem list_for_every_visits m l xs fuel :
  is_list m l xs -> (length xs <= fuel)%nat ->
  exists first, get_next l m = Some first /\ list_for_every fuel l first m = Some xs.
Proof.
  intros Hl Hfuel. exists (hd l xs). split; [by apply is_list_next_hd|].
  assert (Hmono : forall f n zs, list_for_every f l n m = Some zs ->
            forall f', (f <= f')%nat -> list_for_every f' l n m = Some zs).
  { induction f as [|f IH]; simpl; intros n zs E f' Hle.
    - destruct f'; simpl; by destruct (n =? l).
    - destruct f' as [|f']; [lia|]. simpl. destruct (n =? l); [done|].
      destruct (get_next n m) as [k|]; simpl in *; [|done].
      destruct (list_for_every f l k m) as [r|] eqn:Er; simpl in *; [|done].
      erewrite IH; [done|exact Er|lia]. }
  eapply Hmono; [|exact Hfuel]. by apply (list_for_every_suffix m l [] xs).
Qed.

(** *** Witnesses: two nodes 8 and 16 on the ring headed by 4 *)
Definition sample : memory :=
  list_to_map [(4, Node 16 8); (8, Node 4 16); (16, Node 8 4); (20, Node 0 0)].

Lemma sample_ring : is_list sample 4 [8; 16].
Proof.
  split_and!; [|set_solver|vm_compute; tauto].
  repeat constructor; set_solver.
Qed.

Lemma list_add_before_refines_witness :
  exists m', list_add_before 16 20 sample = Some m' /\ is_list m' 4 [8; 20; 16] /\
    (forall q, q ∉ [20; 4; 8; 16] ->
        get_next q m' = get_next q sample /\ get_prev q m' = get_prev q sample).
Proof.
  apply (list_add_before_refines sample 4 [8] [16] 20).
  - exact sample_ring.
  - set_solver.
  - done.
  - by eexists.
Defined.

Lemma list_delete_refines_witness :
  exists m', list_delete 8 sample = Some m' /\ is_list m' 4 [16] /\
    list_in_list 8 m' = Some false /\
    (forall q, q ∉ [4; 8; 16] ->
        get_next q m' = get_next q sample /\ get_prev q m' = get_prev q sample).
Proof. apply (list_delete_refines sample 4 [] 8 [16]). exact sample_ring. Defined.

Lemma list_remove_head_refines_witness :
  exists m', list_remove_head 4 sample = Some (8, m') /\ is_list m' 4 [16] /\
    list_in_list 8 m' = Some false.
Proof. apply (list_remove_head_refines sample 4 [8; 16]). exact sample_ring. Defined.

Lemma list_for_every_visits_witness :
  exists first, get_next 4 sample = Some first /\ list_for_every 2 4 first sample = Some [8; 16].
Proof. apply (list_for_every_visits sample 4 [8; 16] 2); [exact sample_ring|simpl; lia]. Defined.
