(* ===== verification/Heap.v ===== *)
(** * The kernel heap ([lib/heap/heap.c], [lib/libc/malloc.c])

    A first-fit allocator: an address-ordered free list whose neighbours are
    merged, and a header in front of every allocation that says which chunk it
    came from.  The state keeps the free list as the sequence of its chunks
    ([ListNode] justifies this), the allocation headers by the pointer they
    precede, and the bytes the C library copies.

    Build configuration: 32-bit ARM, [DEBUG_HEAP 0].  A [DEBUG_ASSERT] that fails
    and a corrupted free list are the result [None]; the theorems show that they
    do not happen. *)
From stdpp Require Import base gmap list sorting.
From Stdlib Require Import ZArith Lia.
From S2P Require Import Prelude.
#[local] Open Scope Z_scope.

(** [struct free_heap_chunk]: the address it is placed at and its [len]. *)
Record chunk := Chunk { base : Z; len : Z }.

(** [struct alloc_struct_begin]. *)
Record alloc_struct_begin := AllocStruct { magic : Z; as_ptr : Z; as_size : Z }.

(** [struct heap], the headers in memory, and the memory's bytes. *)
Record heap := Heap {
  heap_base : Z;
  heap_len : Z;
  free_list : list chunk;
  headers : gmap Z alloc_struct_begin;
  bytes : gmap Z Z
}.

Definition sizeof_ptr : Z := 4.
Definition sizeof_free_heap_chunk : Z := 12.
Definition sizeof_alloc_struct_begin : Z := 12.
Definition HEAP_MAGIC : Z := 0x48454150.

Definition set_free_list (fl : list chunk) (h : heap) : heap :=
  Heap (heap_base h) (heap_len h) fl (headers h) (bytes h).
Definition set_headers (hs : gmap Z alloc_struct_begin) (h : heap) : heap :=
  Heap (heap_base h) (heap_len h) (free_list h) hs (bytes h).
Definition set_bytes (bs : gmap Z Z) (h : heap) : heap :=
  Heap (heap_base h) (heap_len h) (free_list h) (headers h) bs.

(** The headers that survive a store to the bytes [a .. a + n - 1]: the header of
    the pointer [p] occupies [p - 12 .. p - 1]. *)
Definition scribble (a n : Z) (hs : gmap Z alloc_struct_begin) : gmap Z alloc_struct_begin :=
  filter (λ e, ~ (e.1 - sizeof_alloc_struct_begin < a + n /\ a < e.1)) hs.

(** [heap_create_free_chunk]: the chunk structure is written at [ptr]. *)
Definition heap_create_free_chunk (ptr len : Z) (h : heap) : option (chunk * heap) :=
  if negb (len mod sizeof_ptr =? 0) then None else
  Some (Chunk ptr len, set_headers (scribble ptr sizeof_free_heap_chunk (headers h)) h).

(** The loop of [heap_insert_free_chunk]: the chunks the cursor walks over and
    those from the chunk to insert before on. *)
Fixpoint find_insert (c : chunk) (l : list chunk) : list chunk * list chunk :=
  match l with
  | [] => ([], [])
  | next_chunk :: t =>
      if base c <? base next_chunk then ([], l)
      else let '(before, after) := find_insert c t in (next_chunk :: before, after)
  end.

(** [try_merge], first half: extend the previous chunk. *)
Definition merge_prev (before : list chunk) (c : chunk) : list chunk * chunk :=
  match last before with
  | Some last_chunk =>
      if u32 (base last_chunk + len last_chunk) =? base c
      then (removelast before, Chunk (base last_chunk) (u32 (len last_chunk + len c)))
      else (before, c)
  | None => (before, c)
  end.

(** Second half.  When the loop walked off the end, [next_chunk] is not NULL but
    the list head seen as a chunk, at [fl_addr]; merging with it would take the
    head out of its own list. *)
Definition merge_next (fl_addr : Z) (c : chunk) (after : list chunk) : option (chunk * list chunk) :=
  match after with
  | next_chunk :: rest =>
      if u32 (base c + len c) =? base next_chunk
      then Some (Chunk (base c) (u32 (len c + len next_chunk)), rest)
      else Some (c, after)
  | [] => if u32 (base c + len c) =? fl_addr then None else Some (c, [])
  end.

Definition heap_insert_free_chunk (fl_addr : Z) (c : chunk) (h : heap) : option (chunk * heap) :=
  let chunk_end := u32 (base c + len c) in
  let '(before, after) := find_insert c (free_list h) in
  if match after with
     | next_chunk :: _ => base next_chunk <? chunk_end
     | [] => false
     end then None else
  let '(before, c) := merge_prev before c in
  '(c, after) ← merge_next fl_addr c after;
  Some (c, set_free_list (before ++ c :: after) h).

(** The size the allocation loop looks for, and the alignment it uses. *)
Definition alloc_size (size alignment : Z) : Z * Z :=
  let size := u32 (size + sizeof_alloc_struct_begin) in
  let size := if size <? sizeof_free_heap_chunk then sizeof_free_heap_chunk else size in
  let size := ROUNDUP size sizeof_ptr in
  if 0 <? alignment then
    let alignment := if alignment <? 16 then 16 else alignment in
    (u32 (size + alignment), alignment)
  else (size, alignment).

(** The loop over the free list: the chunks passed, the one taken, the rest. *)
Fixpoint find_fit (size : Z) (l : list chunk) : option (option (list chunk * chunk * list chunk)) :=
  match l with
  | [] => Some None
  | c :: t =>
      if negb (len c mod sizeof_ptr =? 0) then None else
      if size <=? len c then Some (Some ([], c, t))
      else r ← find_fit size t;
           Some (match r with
                 | Some (before, c', after) => Some (c :: before, c', after)
                 | None => None
                 end)
  end.

(** Taking the chunk [c] from between [before] and [after]: what is left of it
    becomes a new free chunk when it is large enough.  The first component is the
    length of the chunk that is kept for the allocation. *)
Definition alloc_cut (size : Z) (before : list chunk) (c : chunk) (after : list chunk) (h : heap)
  : option (Z * heap) :=
  if u32 (size + sizeof_free_heap_chunk) <? len c then
    '(newchunk, h) ← heap_create_free_chunk (u32 (base c + size)) (u32 (len c - size)) h;
    Some (u32 (len c - u32 (len c - size)), set_free_list (before ++ newchunk :: after) h)
  else Some (len c, set_free_list (before ++ after) h).

(** [heap_alloc]; the pointer returned is [0] when there is no memory. *)
Definition heap_alloc (size alignment : Z) (h : heap) : option (Z * heap) :=
  if negb (Z.land alignment (u32 (alignment - 1)) =? 0) then Some (0, h) else
  let '(size, alignment) := alloc_size size alignment in
  fit ← find_fit size (free_list h);
  match fit with
  | None => Some (0, h)
  | Some (before, chunk, after) =>
      '(chunk_len, h) ← alloc_cut size before chunk after h;
      if chunk_len <? size then None else
      let size := chunk_len in
      let ptr := u32 (base chunk + sizeof_alloc_struct_begin) in
      let ptr := if 0 <? alignment then ROUNDUP ptr alignment else ptr in
      let hs := scribble (ptr - sizeof_alloc_struct_begin) sizeof_alloc_struct_begin (headers h) in
      Some (ptr, set_headers (<[ptr := AllocStruct HEAP_MAGIC (base chunk) size]> hs) h)
  end.

Definition heap_free (fl_addr ptr : Z) (h : heap) : option heap :=
  if ptr =? 0 then Some h else
  hd ← headers h !! ptr;
  if negb (magic hd =? HEAP_MAGIC) then None else
  '(c, h) ← heap_create_free_chunk (as_ptr hd) (as_size hd) h;
  '(_, h) ← heap_insert_free_chunk fl_addr c h;
  Some h.

(** The copy [memcpy] and the fill [memset], byte by byte and upwards. *)
Fixpoint copy_mem (n : nat) (dest src : Z) (b : gmap Z Z) : gmap Z Z :=
  match n with
  | O => b
  | S n => copy_mem n (dest + 1) (src + 1) (<[dest := default 0 (b !! src)]> b)
  end.

Fixpoint fill_mem (n : nat) (s c : Z) (b : gmap Z Z) : gmap Z Z :=
  match n with
  | O => b
  | S n => fill_mem n (s + 1) c (<[s := c]> b)
  end.

Definition heap_realloc (fl_addr ptr size : Z) (h : heap) : option (Z * heap) :=
  if negb (size =? 0) then
    '(tmp_ptr, h) ← heap_alloc size 0 h;
    if negb (ptr =? 0) && negb (tmp_ptr =? 0) then
      hd ← headers h !! ptr;
      let min_size := if size <? as_size hd then size else as_size hd in
      h ← heap_free fl_addr ptr (set_bytes (copy_mem (Z.to_nat min_size) tmp_ptr ptr (bytes h)) h);
      Some (tmp_ptr, h)
    else Some (tmp_ptr, h)
  else
    h ← (if negb (ptr =? 0) then heap_free fl_addr ptr h else Some h);
    Some (0, h).

(** [heap_init]: [HEAP_START] and [HEAP_LEN] come from the linker script. *)
Definition heap_init (fl_addr HEAP_START HEAP_LEN : Z) : option heap :=
  let h := Heap HEAP_START HEAP_LEN [] ∅ ∅ in
  '(c, h) ← heap_create_free_chunk HEAP_START HEAP_LEN h;
  '(_, h) ← heap_insert_free_chunk fl_addr c h;
  Some h.

(** [lib/libc/malloc.c]. *)
Definition malloc (size : Z) := heap_alloc size 0.
Definition memalign (boundary size : Z) := heap_alloc size boundary.
Definition calloc (count size : Z) (h : heap) : option (Z * heap) :=
  let realsize := u32 (count * size) in
  '(ptr, h) ← heap_alloc realsize 0 h;
  if ptr =? 0 then Some (0, h) else
  Some (ptr, set_bytes (fill_mem (Z.to_nat realsize) ptr 0 (bytes h)) h).
Definition free (fl_addr ptr : Z) := heap_free fl_addr ptr.
Definition realloc (fl_addr ptr size : Z) := heap_realloc fl_addr ptr size.

(** ** The heap invariant *)

(** A live allocation: the pointer given out and the chunk behind it. *)
Record block := Block { bptr : Z; bchunk : chunk }.

(** How many of the chunks cover the address [a]. *)
Definition covers (a : Z) (c : chunk) : Z :=
  if (base c <=? a) && (a <? base c + len c) then 1 else 0.
Fixpoint cover (a : Z) (cs : list chunk) : Z :=
  match cs with [] => 0 | c :: cs => covers a c + cover a cs end.

(** A family of chunks tiles the interval of [l] bytes from [b]: every address of
    it is in exactly one of them, and no other address is. *)
Definition tiles (b l : Z) (cs : list chunk) : Prop :=
  forall a, cover a cs = (if (b <=? a) && (a <? b + l) then 1 else 0).

(** Consecutive free chunks neither overlap nor touch. *)
Definition apart (c1 c2 : chunk) : Prop := base c1 + len c1 < base c2.

Definition chunk_ok (c : chunk) : Prop :=
  sizeof_free_heap_chunk <= len c /\ (sizeof_ptr | base c) /\ (sizeof_ptr | len c).

(** The header of a live block is inside its chunk, in front of the pointer. *)
Definition block_ok (h : heap) (b : block) : Prop :=
  base (bchunk b) + sizeof_alloc_struct_begin <= bptr b <= base (bchunk b) + len (bchunk b) /\
  headers h !! bptr b = Some (AllocStruct HEAP_MAGIC (base (bchunk b)) (len (bchunk b))).

(** The free chunks and the chunks of the live blocks tile the heap, the free
    list is in address order and coalesced, and the headers are intact. *)
Record heap_inv (fl_addr : Z) (h : heap) (live : list block) : Prop := {
  inv_range : 16 <= heap_base h /\ heap_base h + heap_len h < 2 ^ 32 /\ 0 <= heap_len h;
  inv_head : 0 < fl_addr < heap_base h;
  inv_free_ok : Forall chunk_ok (free_list h);
  inv_apart : StronglySorted apart (free_list h);
  inv_live_ok : Forall (λ b, chunk_ok (bchunk b)) live;
  inv_live_hdr : Forall (block_ok h) live;
  inv_tiling : tiles (heap_base h) (heap_len h) (free_list h ++ map bchunk live)
}.

(** ** Counting covers *)
Create HintDb heap.

Ltac unfold_sizes :=
  unfold sizeof_free_heap_chunk, sizeof_alloc_struct_begin, sizeof_ptr in *.

(** Splits the boolean interval tests of [covers] and closes with arithmetic. *)
Ltac count :=
  simpl in *; unfold covers in *; simpl in *;
  repeat match goal with
         | H : context [?x <=? ?y] |- _ => revert H
         | H : context [?x <? ?y] |- _ => revert H
         end;
  repeat match goal with
         | |- context [?x <=? ?y] => destruct (Z.leb_spec x y)
         | |- context [?x <? ?y] => destruct (Z.ltb_spec x y)
         end; simpl in *; lia.

Lemma covers_bound a c : 0 <= covers a c <= 1.
Proof. unfold covers. destruct (_ && _); lia. Qed.

Lemma cover_nonneg a cs : 0 <= cover a cs.
Proof. induction cs as [|c cs IH]; simpl; [done|]. pose proof (covers_bound a c). lia. Qed.

Lemma cover_app a cs ds : cover a (cs ++ ds) = cover a cs + cover a ds.
Proof. induction cs; simpl; lia. Qed.

#[export] Instance cover_proper a : Proper ((≡ₚ) ==> (=)) (cover a).
Proof. intros cs ds E. induction E; simpl; lia. Qed.

#[export] Hint Resolve cover_nonneg covers_bound : heap.

#[export] Instance tiles_proper b l : Proper ((≡ₚ) ==> iff) (tiles b l).
Proof. intros cs ds E. unfold tiles. by setoid_rewrite E. Qed.

Lemma tiles_range b l c cs :
  tiles b l (c :: cs) -> 0 < len c -> b <= base c /\ base c + len c <= b + l.
Proof.
  intros Ht Hl.
  pose proof (Ht (base c)). pose proof (Ht (base c + len c - 1)).
  pose proof (cover_nonneg (base c) cs). pose proof (cover_nonneg (base c + len c - 1) cs).
  count.
Qed.

Lemma tiles_disjoint b l c d cs :
  tiles b l (c :: d :: cs) -> 0 < len c -> 0 < len d ->
  base c + len c <= base d \/ base d + len d <= base c.
Proof.
  intros Ht Hc Hd.
  pose proof (Ht (base c)). pose proof (Ht (base d)).
  pose proof (cover_nonneg (base c) cs). pose proof (cover_nonneg (base d) cs).
  count.
Qed.

(** ** Inserting a free chunk *)
Lemma find_insert_spec c l before after :
  find_insert c l = (before, after) ->
  l = before ++ after /\ Forall (λ d, base d <= base c) before /\
  match after with n :: _ => base c < base n | [] => True end.
Proof.
  revert before after. induction l as [|n l IH]; simpl; intros before after E; simplify_eq; [done|].
  destruct (Z.ltb_spec (base c) (base n)); simplify_eq; [done|].
  destruct (find_insert c l) as [b a] eqn:Ef. simplify_eq.
  destruct (IH _ _ eq_refl) as (-> & Hb & Ha). split_and!; [done|by constructor|done].
Qed.

Definition chunk_end (c : chunk) : Z := base c + len c.

Lemma chunk_ok_len c : chunk_ok c -> 12 <= len c.
Proof. by intros (? & _). Qed.

Lemma chunk_ok_merge c d n :
  chunk_ok c -> chunk_ok d -> n = len c + len d -> chunk_ok (Chunk (base c) n).
Proof.
  unfold chunk_ok. simpl. unfold_sizes. intros (? & ? & ?) (? & ? & ?) ->.
  split_and!; [lia|done|by apply Z.divide_add_r].
Qed.

Lemma merge_prev_spec before c before' c' :
  merge_prev before c = (before', c') ->
  Forall chunk_ok before -> chunk_ok c -> StronglySorted apart before ->
  (forall d, d ∈ before -> 0 <= base d /\ chunk_end d <= base c) -> chunk_end c < 2 ^ 32 ->
  Forall chunk_ok before' /\ chunk_ok c' /\ StronglySorted apart before' /\
  (forall d, d ∈ before' -> apart d c') /\ chunk_end c' = chunk_end c /\ base c' <= base c /\
  (forall a, cover a before' + covers a c' = cover a before + covers a c).
Proof.
  intros E Hok Hc Hs Hle Hend. unfold merge_prev in E.
  destruct before as [|lc b _] using rev_ind.
  { simplify_eq/=. split_and!; eauto with lia. set_solver. }
  rewrite last_snoc, removelast_last in E.
  assert (Hlc : 0 <= base lc /\ chunk_end lc <= base c) by (apply Hle; set_solver).
  apply Forall_app in Hok as [Hok Hlok]. rewrite Forall_singleton in Hlok.
  apply StronglySorted_app in Hs as (Hs & Hsb & _).
  pose proof (chunk_ok_len lc Hlok). pose proof (chunk_ok_len c Hc).
  unfold chunk_end in *. rewrite u32_small in E by lia.
  destruct (Z.eqb_spec (base lc + len lc) (base c)) as [Ea|Ea]; simplify_eq.
  - rewrite u32_small by lia. simpl. split_and!; try lia; try done.
    + by eapply chunk_ok_merge.
    + intros d Hd. specialize (Hs d lc Hd ltac:(set_solver)). unfold apart in *. simpl. lia.
    + intros a. rewrite cover_app. count.
  - split_and!; try lia; try done.
    + by apply Forall_app, conj; [|apply Forall_singleton].
    + apply StronglySorted_app_2; [done|done|repeat constructor].
    + intros d [Hd|Hd]%elem_of_app.
      * specialize (Hs d lc Hd ltac:(set_solver)). unfold apart in *. lia.
      * apply list_elem_of_singleton in Hd as ->. unfold apart. lia.
Qed.

Lemma merge_next_spec fl_addr c after :
  Forall chunk_ok after -> chunk_ok c -> StronglySorted apart after -> 0 <= base c ->
  (forall d, d ∈ after -> chunk_end c <= base d /\ chunk_end d < 2 ^ 32) -> chunk_end c < 2 ^ 32 ->
  fl_addr < chunk_end c ->
  exists c' after', merge_next fl_addr c after = Some (c', after') /\
    Forall chunk_ok (c' :: after') /\ StronglySorted apart (c' :: after') /\ base c' = base c /\
    (forall a, covers a c' + cover a after' = covers a c + cover a after).
Proof.
  intros Hok Hc Hs Hb Hle Hend Hfl. unfold merge_next, chunk_end in *.
  pose proof (chunk_ok_len c Hc).
  destruct after as [|n rest].
  { rewrite u32_small by lia.
    destruct (Z.eqb_spec (base c + len c) fl_addr); [lia|].
    eexists _, _. split; [done|]. split_and!; [by constructor|by repeat constructor|done|done]. }
  destruct (Hle n ltac:(set_solver)) as [Hn Hn'].
  apply Forall_cons in Hok as [Hnok Hok]. apply StronglySorted_inv in Hs as [Hs Hsn].
  pose proof (chunk_ok_len n Hnok).
  rewrite u32_small by lia.
  destruct (Z.eqb_spec (base c + len c) (base n)).
  - rewrite u32_small by lia. eexists _, _. split; [done|]. split_and!; try done.
    + constructor; [by apply (chunk_ok_merge c n)|done].
    + constructor; [done|]. eapply Forall_impl; [exact Hsn|].
      unfold apart. simpl. intros; lia.
    + intros a. count.
  - eexists _, _. split; [done|]. split_and!; try done; [by constructor; [|constructor]|].
    constructor; [by constructor|]. constructor; [unfold apart; lia|].
    eapply Forall_impl; [exact Hsn|]. unfold apart. intros; lia.
Qed.

(** The place the loop finds is between the chunks that end before [c] and those
    that start after it. *)
Lemma insert_neighbours c h rest b l before after :
  tiles b l (c :: free_list h ++ rest) -> b + l < 2 ^ 32 -> 0 <= b ->
  chunk_ok c -> Forall chunk_ok (free_list h) -> StronglySorted apart (free_list h) ->
  find_insert c (free_list h) = (before, after) ->
  b <= base c /\ chunk_end c < 2 ^ 32 /\
  (forall d, d ∈ before -> b <= base d /\ chunk_end d <= base c) /\
  (forall d, d ∈ after -> chunk_end c <= base d /\ chunk_end d < 2 ^ 32).
Proof.
  intros Ht Hbl Hb0 Hc Hok Hs Ef.
  destruct (find_insert_spec _ _ _ _ Ef) as (Efl & Hb & Ha).
  pose proof chunk_ok_len as Hlen.
  rewrite Forall_forall in Hok.
  assert (Hd : forall d, d ∈ free_list h -> b <= base d /\ chunk_end d <= b + l /\
                 (chunk_end c <= base d \/ chunk_end d <= base c)).
  { intros d Hd. pose proof (Hlen d (Hok d Hd)). pose proof (Hlen c Hc).
    apply list_elem_of_split in Hd as (u & v & E).
    assert (Hp : tiles b l (c :: d :: u ++ v ++ rest)).
    { eapply tiles_proper; [|exact Ht]. rewrite E, <- app_assoc. simpl.
      by rewrite Permutation_middle. }
    destruct (tiles_range b l d (c :: u ++ v ++ rest)) as [? ?]; [|lia|].
    { eapply tiles_proper; [|exact Hp]. apply perm_swap. }
    split_and!; [done|done|]. eapply tiles_disjoint; [exact Hp|lia..]. }
  destruct (tiles_range b l _ _ Ht) as [? ?]; [pose proof (Hlen c Hc); lia|].
  unfold chunk_end in *. split_and!; [done|lia|..]; intros d Hin.
  - rewrite Forall_forall in Hb. specialize (Hb d Hin).
    assert (Hin' : d ∈ free_list h) by (rewrite Efl; apply elem_of_app; by left).
    pose proof (Hlen d (Hok d Hin')). pose proof (Hlen c Hc).
    destruct (Hd d Hin') as (? & ? & [?|?]); lia.
  - assert (Hin' : d ∈ free_list h) by (rewrite Efl; apply elem_of_app; by right).
    destruct (Hd d Hin') as (? & ? & Hor). split; [|lia].
    destruct after as [|n after]; [set_solver|].
    assert (base n <= base d).
    { apply elem_of_cons in Hin as [->|Hin]; [lia|]. rewrite Efl in Hs.
      apply StronglySorted_app_1_r, StronglySorted_inv in Hs as [_ Hs].
      rewrite Forall_forall in Hs. specialize (Hs d Hin). unfold apart in Hs.
      assert (Hn : n ∈ free_list h) by (rewrite Efl; apply elem_of_app; right; constructor).
      pose proof (Hlen n (Hok n Hn)). lia. }
    pose proof (Hlen d (Hok d Hin')). lia.
Qed.

(** Inserting a chunk next to chunks it forms a tiling with succeeds, keeps the
    free list ordered and coalesced, and covers what was covered. *)
Lemma heap_insert_free_chunk_spec fl_addr c h rest b l :
  tiles b l (c :: free_list h ++ rest) -> 0 < fl_addr < b -> b + l < 2 ^ 32 ->
  chunk_ok c -> Forall chunk_ok (free_list h) -> StronglySorted apart (free_list h) ->
  exists c' fl, heap_insert_free_chunk fl_addr c h = Some (c', set_free_list fl h) /\
    Forall chunk_ok fl /\ StronglySorted apart fl /\
    (forall a, cover a fl = covers a c + cover a (free_list h)).
Proof.
  intros Ht Hfl Hbl Hc Hok Hs. unfold heap_insert_free_chunk.
  destruct (find_insert c (free_list h)) as [before after] eqn:Ef.
  destruct (insert_neighbours c h rest b l before after) as (Hcb & Hce & Hbef & Haft);
    try done; [lia|].
  destruct (find_insert_spec _ _ _ _ Ef) as (Efl & _).
  rewrite Efl in Hok, Hs. apply Forall_app in Hok as [Hokb Hoka].
  apply StronglySorted_app in Hs as (_ & Hsb & Hsa).
  pose proof (chunk_ok_len c Hc).
  assert (Hassert : match after with n :: _ => base n <? u32 (base c + len c) | [] => false end = false).
  { destruct after as [|n after]; [done|]. unfold chunk_end in *.
    rewrite u32_small by lia. apply Z.ltb_ge. apply (Haft n). set_solver. }
  rewrite Hassert. destruct (merge_prev before c) as [before' c'] eqn:Em.
  destruct (merge_prev_spec before c before' c')
    as (Hokb' & Hc' & Hsb' & Hap & Hend & Hbase & Hcov); try done.
  { intros d Hd. destruct (Hbef d Hd). lia. }
  assert (Hb0 : 0 <= base c').
  { unfold merge_prev in Em. destruct (last before) as [lc|] eqn:El; [|simplify_eq; lia].
    assert (lc ∈ before) by (by apply last_Some_elem_of).
    pose proof (Hbef lc ltac:(done)). case_match; simplify_eq/=; lia. }
  destruct (merge_next_spec fl_addr c' after) as (c'' & after' & -> & Hok' & Hs' & Eb & Hcov');
    try done; try (unfold chunk_end in *; lia); [by rewrite Hend|].
  simpl. eexists _, _. split; [done|]. split_and!; [by apply Forall_app| |].
  - apply StronglySorted_app_2; [|done|done].
    intros x y Hx Hy. specialize (Hap x Hx). unfold apart in *.
    apply elem_of_cons in Hy as [->|Hy]; [lia|].
    apply StronglySorted_inv in Hs' as [_ Hs']. rewrite Forall_forall in Hs', Hok'.
    specialize (Hs' y Hy). destruct (Hok' c'' ltac:(set_solver)) as (? & _).
    unfold apart in *. unfold_sizes. lia.
  - intros a. rewrite Efl, !cover_app. simpl. specialize (Hcov a). specialize (Hcov' a). lia.
Qed.

(** ** Headers *)
Definition apart_or_touch (c d : chunk) : Prop := chunk_end c <= base d \/ chunk_end d <= base c.

Lemma scribble_keeps a n hs p hd :
  hs !! p = Some hd -> p <= a \/ a + n <= p - 12 -> scribble a n hs !! p = Some hd.
Proof.
  intros E Ho. unfold scribble. apply map_lookup_filter_Some. split; [done|]. simpl.
  unfold_sizes. lia.
Qed.

(** The header of a block survives stores to a chunk that is not its own. *)
Lemma block_ok_scribble h b c a n :
  block_ok h b -> apart_or_touch (bchunk b) c -> base c <= a -> a + n <= chunk_end c ->
  block_ok (set_headers (scribble a n (headers h)) h) b.
Proof.
  intros [Hp Hh] Hap Ha Hn. split; [done|]. simpl. apply scribble_keeps; [done|].
  unfold apart_or_touch, chunk_end in *. unfold_sizes. lia.
Qed.

Lemma block_ok_insert h b c p hd :
  block_ok h b -> chunk_ok (bchunk b) -> apart_or_touch (bchunk b) c ->
  base c + 12 <= p <= chunk_end c ->
  block_ok (set_headers (<[p := hd]> (headers h)) h) b.
Proof.
  intros [Hp Hh] Hok Hap Hpc. split; [done|]. simpl.
  rewrite lookup_insert_ne; [done|]. apply chunk_ok_len in Hok.
  unfold apart_or_touch, chunk_end in *. unfold_sizes. lia.
Qed.

Lemma block_ok_headers h h' b : headers h' = headers h -> block_ok h b -> block_ok h' b.
Proof. unfold block_ok. by intros ->. Qed.

(** In a tiled heap the chunk of a block and any other chunk are apart. *)
Lemma inv_block_apart fl_addr h live b c rest :
  heap_inv fl_addr h live -> b ∈ live ->
  free_list h ++ map bchunk live ≡ₚ bchunk b :: c :: rest -> chunk_ok c ->
  apart_or_touch (bchunk b) c.
Proof.
  intros Hi Hb Hp Hc. pose proof (inv_tiling _ _ _ Hi) as Ht. rewrite Hp in Ht.
  pose proof (inv_live_ok _ _ _ Hi) as Hl. rewrite Forall_forall in Hl.
  pose proof (chunk_ok_len _ (Hl b Hb)). pose proof (chunk_ok_len _ Hc).
  eapply tiles_disjoint; [exact Ht|lia..].
Qed.

Lemma divide_mod4 n : (sizeof_ptr | n) -> (n mod sizeof_ptr =? 0) = true.
Proof. intros H. apply Z.eqb_eq. by apply Z.mod_divide. Qed.

(** ** Initialisation and release *)

(** [heap_init] yields a heap whose single free chunk is the whole of it: the
    invariant holds with no live block. *)
Theorem heap_init_inv fl_addr start size :
  16 <= start -> start + size < 2 ^ 32 -> 12 <= size -> (4 | start) -> (4 | size) ->
  0 < fl_addr < start ->
  exists h, heap_init fl_addr start size = Some h /\ heap_inv fl_addr h [] /\
    free_list h = [Chunk start size].
Proof.
  intros. unfold heap_init, heap_create_free_chunk. rewrite divide_mod4 by done. simpl.
  unfold heap_insert_free_chunk. simpl. rewrite u32_small by lia.
  destruct (Z.eqb_spec (start + size) fl_addr); [lia|]. simpl.
  eexists. split; [done|]. split; [|done]. split; simpl; try done; try lia.
  - by repeat constructor.
  - by repeat constructor.
  - intros a. count.
Qed.

Lemma heap_free_correct fl_addr h l1 b l2 :
  heap_inv fl_addr h (l1 ++ b :: l2) ->
  exists h', heap_free fl_addr (bptr b) h = Some h' /\ heap_inv fl_addr h' (l1 ++ l2) /\
    bytes h' = bytes h.
Proof.
  intros Hi. destruct (inv_range _ _ _ Hi) as (Hb & Hbl & Hl).
  pose proof (inv_head _ _ _ Hi) as Hhd.
  pose proof (inv_live_ok _ _ _ Hi) as Hok. pose proof (inv_live_hdr _ _ _ Hi) as Hhdr.
  apply Forall_app in Hok as [Hok1 [Hokb Hok2]%Forall_cons].
  apply Forall_app in Hhdr as [Hh1 [[Hpb Hlk] Hh2]%Forall_cons].
  pose proof (inv_tiling _ _ _ Hi) as Ht.
  assert (Hperm : free_list h ++ map bchunk (l1 ++ b :: l2) ≡ₚ
                  bchunk b :: free_list h ++ map bchunk (l1 ++ l2)).
  { rewrite !map_app. simpl. by rewrite <- !Permutation_middle. }
  rewrite Hperm in Ht. pose proof (tiles_range _ _ _ _ Ht) as Hr.
  pose proof (chunk_ok_len _ Hokb). destruct (bchunk b) as [cb cl] eqn:Ec. simpl in *.
  unfold heap_free. unfold_sizes.
  rewrite (proj2 (Z.eqb_neq (bptr b) 0)) by lia. rewrite Hlk. simpl.
  unfold heap_create_free_chunk. rewrite divide_mod4 by apply Hokb. simpl.
  destruct (heap_insert_free_chunk_spec fl_addr (Chunk cb cl)
    (set_headers (scribble cb sizeof_free_heap_chunk (headers h)) h)
    (map bchunk (l1 ++ l2)) (heap_base h) (heap_len h))
    as (c' & fl & -> & Hokf & Hsf & Hcov); try done; try apply Hi.
  simpl. eexists. split; [done|]. split; [|done]. split; simpl; try apply Hi; try done.
  - by apply Forall_app.
  - apply Forall_forall. intros d Hd.
    assert (Hd' : d ∈ l1 ++ b :: l2) by set_solver.
    apply (block_ok_headers (set_headers (scribble cb sizeof_free_heap_chunk (headers h)) h)); [done|].
    eapply (block_ok_scribble h d (Chunk cb cl)); simpl; [|..|lia|unfold chunk_end; simpl; unfold_sizes; lia].
    + pose proof (inv_live_hdr _ _ _ Hi) as HF. rewrite Forall_forall in HF. by apply HF.
    + apply list_elem_of_split in Hd as (u & v & Euv).
      eapply (inv_block_apart fl_addr h _ d (Chunk cb cl) (free_list h ++ map bchunk (u ++ v)) Hi Hd').
      * rewrite Hperm, Euv, !map_app. simpl. rewrite <- !Permutation_middle. apply perm_swap.
      * done.
  - intros a. simpl in Hcov. rewrite cover_app, Hcov. specialize (Ht a). simpl in Ht.
    rewrite cover_app in Ht. lia.
Qed.

(** ** Allocation *)

(** The alignments a caller may ask for: none, or a power of two. *)
Definition align_ok (al : Z) : Prop := al = 0 \/ exists k, 0 <= k <= 30 /\ al = 2 ^ k.

(** The alignment in use: at least 16 when one is asked for. *)
Definition real_align (al : Z) : Z := if 0 <? al then Z.max 16 al else 0.

(** The request with its header, padding and worst-case alignment. *)
Definition need (size al : Z) : Z := round_up_to (size + 12) 4 + real_align al.

Lemma align_guard al : align_ok al -> Z.land al (u32 (al - 1)) = 0.
Proof.
  intros [->|(k & Hk & ->)]; [done|].
  assert (0 < 2 ^ k < 2 ^ 32).
  { split; [apply Z.pow_pos_nonneg; lia|apply Z.pow_lt_mono_r; lia]. }
  rewrite u32_small by lia.
  replace (2 ^ k - 1) with (Z.ones k) by (rewrite Z.ones_equiv; lia).
  rewrite Z.land_ones by lia. apply Z.mod_same. lia.
Qed.

Lemma real_align_pow2 al :
  align_ok al -> 0 < al -> exists k, 4 <= k <= 30 /\ real_align al = 2 ^ k.
Proof.
  intros [->|(k & Hk & ->)] Hp; [lia|]. unfold real_align.
  rewrite (proj2 (Z.ltb_lt _ _)) by lia.
  destruct (Z.le_gt_cases 4 k).
  - exists k. split; [lia|]. apply Z.max_r. change 16 with (2 ^ 4). apply Z.pow_le_mono_r; lia.
  - exists 4. split; [lia|]. apply Z.max_l. change 16 with (2 ^ 4). apply Z.pow_le_mono_r; lia.
Qed.

Lemma alloc_size_need size al :
  0 <= size -> align_ok al -> size + 15 + real_align al < 2 ^ 32 ->
  alloc_size size al = (need size al, real_align al).
Proof.
  intros Hs Hal Hlt.
  assert (0 <= real_align al) by (unfold real_align; case_match; lia).
  unfold alloc_size, need. unfold_sizes.
  rewrite (u32_small (size + 12)) by lia. rewrite (proj2 (Z.ltb_ge (size + 12) 12)) by lia.
  change 4 with (2 ^ 2). rewrite ROUNDUP_pow2 by lia. change (2 ^ 2) with 4.
  pose proof (round_up_to_bounds (size + 12) 4 ltac:(lia)).
  assert (Er : real_align al = if 0 <? al then Z.max 16 al else 0) by done.
  revert Er. destruct (Z.ltb_spec 0 al); intros Er; rewrite Er in *.
  - assert (E : (if al <? 16 then 16 else al) = Z.max 16 al) by (case_match; lia).
    rewrite E, u32_small by lia. done.
  - destruct Hal as [->|(k & Hk & ->)]; [f_equal; lia|].
    pose proof (Z.pow_pos_nonneg 2 k). lia.
Qed.

Lemma find_fit_spec size l :
  Forall chunk_ok l ->
  (find_fit size l = Some None /\ Forall (λ c, len c < size) l) \/
  (exists b c a, find_fit size l = Some (Some (b, c, a)) /\ l = b ++ c :: a /\ size <= len c).
Proof.
  induction l as [|c l IH]; simpl; [by left|]. intros [Hc Hl]%Forall_cons.
  rewrite divide_mod4 by apply Hc. simpl.
  destruct (Z.leb_spec size (len c)).
  - right. by exists [], c, l.
  - destruct (IH Hl) as [[-> Hf]|(b & d & a & -> & -> & Hd)]; simpl.
    + left. by repeat constructor.
    + right. by exists (c :: b), d, a.
Qed.

(** What the loop body does with the chunk it takes: the free list, the headers
    and the length of the chunk kept for the allocation. *)
Lemma alloc_split_ok size before c after :
  Forall chunk_ok (before ++ c :: after) -> StronglySorted apart (before ++ c :: after) ->
  12 < len c - size -> (4 | size) -> 0 <= size ->
  let d := Chunk (base c + size) (len c - size) in
  chunk_ok d /\ Forall chunk_ok (before ++ d :: after) /\
  StronglySorted apart (before ++ d :: after).
Proof.
  intros Hok Hs Hlt Hdiv Hsz d.
  apply Forall_app in Hok as [Hob [Hoc Hoa]%Forall_cons].
  apply StronglySorted_app in Hs as (Hs1 & Hs2 & [Hs3 Hs4]%StronglySorted_inv).
  assert (chunk_ok d).
  { destruct Hoc as (? & ? & ?). unfold d, chunk_ok in *. simpl. unfold_sizes.
    split_and!; [lia|by apply Z.divide_add_r|by apply Z.divide_sub_r]. }
  split_and!; [done|apply Forall_app; split; [done|by constructor]|].
  apply StronglySorted_app_2; [|done|].
  - intros x y Hx Hy. apply elem_of_cons in Hy as [->|Hy].
    + specialize (Hs1 x c Hx ltac:(set_solver)). unfold apart, d in *. simpl. lia.
    + apply Hs1; [done|set_solver].
  - constructor; [done|]. eapply Forall_impl; [exact Hs4|].
    unfold apart, d. simpl. intros; lia.
Qed.

(** The chunk at [c] taken from the free list is apart from every live block. *)
Lemma inv_free_apart fl_addr h live before c after b :
  heap_inv fl_addr h live -> free_list h = before ++ c :: after -> b ∈ live ->
  apart_or_touch (bchunk b) c.
Proof.
  intros Hi Efl Hb. pose proof (inv_free_ok _ _ _ Hi) as Hok. rewrite Efl in Hok.
  apply Forall_app in Hok as [_ [Hc _]%Forall_cons]. pose proof Hb as Hb'.
  apply list_elem_of_split in Hb' as (u & v & ->).
  eapply (inv_block_apart fl_addr h _ b c (before ++ after ++ map bchunk (u ++ v)) Hi Hb); [|done].
  rewrite Efl, !map_app. simpl. rewrite <- !app_assoc. simpl.
  rewrite <- !Permutation_middle. first [done|apply perm_swap].
Qed.

Lemma alloc_cut_spec fl_addr h live size before c after :
  heap_inv fl_addr h live -> free_list h = before ++ c :: after ->
  12 <= size <= len c -> (4 | size) ->
  exists clen h', alloc_cut size before c after h = Some (clen, h') /\ size <= clen <= len c /\
    heap_base h' = heap_base h /\ heap_len h' = heap_len h /\ bytes h' = bytes h /\
    chunk_ok (Chunk (base c) clen) /\ Forall chunk_ok (free_list h') /\
    StronglySorted apart (free_list h') /\ Forall (block_ok h') live /\
    forall a, cover a (free_list h') + covers a (Chunk (base c) clen) = cover a (free_list h).
Proof.
  intros Hi Efl Hsz Hdiv. destruct (inv_range _ _ _ Hi) as (Hb & Hbl & Hl).
  pose proof (inv_free_ok _ _ _ Hi) as Hok. pose proof (inv_apart _ _ _ Hi) as Hs.
  rewrite Efl in Hok, Hs. pose proof Hok as [_ [Hc _]%Forall_cons]%Forall_app.
  pose proof (inv_tiling _ _ _ Hi) as Ht. rewrite Efl, <- app_assoc in Ht. simpl in Ht.
  rewrite <- Permutation_middle in Ht. apply tiles_range in Ht as [Hcb Hce]; [|lia].
  unfold alloc_cut. unfold_sizes. rewrite u32_small by lia.
  destruct (Z.ltb_spec (size + 12) (len c)) as [Hlt|Hge].
  - rewrite !(u32_small (base c + size)), !(u32_small (len c - size)) by lia.
    replace (len c - (len c - size)) with size by lia. rewrite u32_small by lia.
    destruct (alloc_split_ok size before c after) as (Hd & Hok' & Hs'); try done; try lia.
    unfold heap_create_free_chunk. rewrite divide_mod4 by apply Hd. simpl.
    eexists _, _. split; [done|]. simpl. split_and!; try done; try lia.
    + destruct Hc as (? & ? & ?). unfold chunk_ok. simpl. unfold_sizes. split_and!; [lia|done..].
    + pose proof (inv_live_hdr _ _ _ Hi) as HF. rewrite Forall_forall in HF |- *. intros b Hin.
      eapply block_ok_headers, (block_ok_scribble h b c (base c + size) 12);
        [done|by apply HF|by eapply inv_free_apart|lia|unfold chunk_end; lia].
    + intros a. rewrite Efl, !cover_app. count.
  - eexists _, _. split; [done|]. simpl. split_and!; try done; try lia.
    + apply Forall_app in Hok as [? [_ ?]%Forall_cons]. by apply Forall_app.
    + apply StronglySorted_app in Hs as (Hs1 & Hs2 & [Hs3 _]%StronglySorted_inv).
      apply StronglySorted_app_2; [|done|done]. intros; apply Hs1; set_solver.
    + eapply Forall_impl; [apply (inv_live_hdr _ _ _ Hi)|]. intros b. by apply block_ok_headers.
    + intros a. rewrite Efl, !cover_app. destruct c. simpl. lia.
Qed.

(** Where the pointer given out lies in the chunk. *)
Definition alloc_ptr (b al : Z) : Z := if 0 <? al then ROUNDUP (u32 (b + 12)) al else u32 (b + 12).

Lemma alloc_ptr_spec b al size clen :
  0 <= b -> 0 <= size -> b + clen < 2 ^ 32 -> align_ok al -> need size al <= clen -> (4 | b) ->
  let p := alloc_ptr b (real_align al) in
  b + 12 <= p /\ p + size <= b + clen /\ (4 | p) /\ (0 < al -> (al | p)).
Proof.
  intros Hb Hs Hbl Hal Hn Hdiv p. subst p. unfold need in Hn.
  pose proof (round_up_to_bounds (size + 12) 4 ltac:(lia)).
  destruct (Z.lt_ge_cases 0 al) as [Hp|Hp].
  - destruct (real_align_pow2 al Hal Hp) as (k & Hk & Ek).
    assert (16 <= 2 ^ k). { change 16 with (2 ^ 4). apply Z.pow_le_mono_r; lia. }
    unfold alloc_ptr. rewrite Ek in *. rewrite (proj2 (Z.ltb_lt _ _)) by lia.
    rewrite (u32_small (b + 12)) by lia. rewrite ROUNDUP_pow2 by lia.
    pose proof (round_up_to_bounds (b + 12) (2 ^ k) ltac:(lia)).
    pose proof (round_up_to_divide (b + 12) (2 ^ k)) as Hd.
    split_and!; [lia|lia|..].
    + etrans; [|exact Hd]. exists (2 ^ (k - 2)). change 4 with (2 ^ 2).
      rewrite <- Z.pow_add_r by lia. f_equal. lia.
    + intros _. etrans; [|exact Hd]. destruct Hal as [->|(j & Hj & ->)]; [lia|].
      assert (j <= k).
      { unfold real_align in Ek. rewrite (proj2 (Z.ltb_lt _ _)) in Ek by lia.
        apply (Z.pow_le_mono_r_iff 2); lia. }
      exists (2 ^ (k - j)). rewrite <- Z.pow_add_r by lia. f_equal. lia.
  - assert (Er : real_align al = 0) by (unfold real_align; case_match; lia).
    rewrite Er in *. unfold alloc_ptr. rewrite Z.ltb_irrefl, (u32_small (b + 12)) by lia.
    split_and!; [lia|lia| |lia]. apply Z.divide_add_r; [done|]. by exists 3.
Qed.

Lemma need_ok size al : 0 <= size -> align_ok al -> 12 <= need size al /\ (4 | need size al).
Proof.
  intros Hs Hal. unfold need. pose proof (round_up_to_bounds (size + 12) 4 ltac:(lia)).
  pose proof (round_up_to_divide (size + 12) 4).
  destruct (Z.lt_ge_cases 0 al) as [Hp|Hp].
  - destruct (real_align_pow2 al Hal Hp) as (k & Hk & ->).
    assert (0 < 2 ^ k) by (apply Z.pow_pos_nonneg; lia). split; [lia|].
    apply Z.divide_add_r; [done|]. exists (2 ^ (k - 2)). change 4 with (2 ^ 2).
    rewrite <- Z.pow_add_r by lia. f_equal. lia.
  - assert (Er : real_align al = 0) by (unfold real_align; case_match; lia).
    rewrite Er. split; [lia|]. by rewrite Z.add_0_r.
Qed.

Lemma heap_alloc_correct fl_addr h live size al :
  heap_inv fl_addr h live -> 0 <= size -> align_ok al -> size + 15 + real_align al < 2 ^ 32 ->
  exists p h', heap_alloc size al h = Some (p, h') /\ bytes h' = bytes h /\
    heap_base h' = heap_base h /\ heap_len h' = heap_len h /\
    ((p = 0 /\ h' = h /\ Forall (λ c, len c < need size al) (free_list h)) \/
     (exists c, heap_inv fl_addr h' (Block p c :: live) /\
        base c + 12 <= p /\ p + size <= chunk_end c /\ (4 | p) /\ (0 < al -> (al | p)))).
Proof.
  intros Hi Hsz Hal Hlt. destruct (inv_range _ _ _ Hi) as (Hb & Hbl & Hl).
  unfold heap_alloc. rewrite align_guard by done. rewrite alloc_size_need by done. simpl.
  destruct (need_ok size al Hsz Hal) as [Hn12 Hn4].
  destruct (find_fit_spec (need size al) (free_list h) (inv_free_ok _ _ _ Hi))
    as [[-> Hno]|(before & c & after & -> & Efl & Hfit)]; simpl.
  { exists 0, h. by eauto 10. }
  destruct (alloc_cut_spec fl_addr h live (need size al) before c after)
    as (clen & h' & -> & Hcl & Eb & El & Ebs & Hcok & Hok & Hs & Hlive & Hcov); try done.
  simpl. rewrite (proj2 (Z.ltb_ge _ _)) by lia.
  pose proof (inv_tiling _ _ _ Hi) as Ht.
  assert (Ht' : tiles (heap_base h) (heap_len h) (Chunk (base c) clen :: free_list h' ++ map bchunk live)).
  { intros a. specialize (Ht a). specialize (Hcov a). simpl. rewrite cover_app in Ht |- *. lia. }
  destruct (tiles_range _ _ _ _ Ht') as [Hr1 Hr2]; [simpl; lia|]. simpl in Hr1, Hr2.
  destruct (alloc_ptr_spec (base c) al size clen) as (Hp1 & Hp2 & Hp3 & Hp4); try done; try lia.
  { apply Hcok. }
  set (p := alloc_ptr (base c) (real_align al)) in *.
  change (if 0 <? real_align al then ROUNDUP (u32 (base c + sizeof_alloc_struct_begin)) (real_align al)
          else u32 (base c + sizeof_alloc_struct_begin)) with p.
  eexists p, _. split; [done|]. split_and!; try done. right.
  exists (Chunk (base c) clen). split_and!; try done; try (unfold chunk_end; simpl; lia).
  assert (Hap : forall b, b ∈ live -> apart_or_touch (bchunk b) c)
    by (intros b Hin; by eapply inv_free_apart).
  split; simpl; rewrite ?Eb, ?El; try done; try apply Hi; [by constructor; [|apply Hi]| |].
  - constructor.
    + split; simpl; [unfold_sizes; lia|]. by rewrite lookup_insert_eq.
    + rewrite Forall_forall in Hlive |- *. intros b Hin.
      assert (chunk_ok (bchunk b)) by (pose proof (inv_live_ok _ _ _ Hi) as HF; by rewrite Forall_forall in HF; apply HF).
      eapply block_ok_headers, (block_ok_insert (set_headers (scribble (p - 12) 12 (headers h')) h') b c p);
        [done| |done|by apply Hap|unfold chunk_end; lia].
      eapply (block_ok_scribble h' b c); [by apply Hlive|by apply Hap|lia|unfold chunk_end; lia].
  - intros a. specialize (Ht' a). simpl in Ht'. rewrite !cover_app in *. simpl. lia.
Qed.

(** ** The free list is determined by what is live *)
Lemma cover_before a l : (forall d, d ∈ l -> a < base d) -> cover a l = 0.
Proof.
  induction l as [|d l IH]; simpl; intros H; [done|].
  rewrite IH by (intros; apply H; set_solver).
  pose proof (H d ltac:(set_solver)). count.
Qed.

Lemma sorted_tail_after c l d :
  StronglySorted apart (c :: l) -> chunk_ok c -> d ∈ l -> base c < chunk_end c < base d.
Proof.
  intros [_ Hf]%StronglySorted_inv Hc%chunk_ok_len Hd. rewrite Forall_forall in Hf.
  specialize (Hf d Hd). unfold apart, chunk_end in *. lia.
Qed.

(** A coalesced, ordered list is the only one that covers its addresses. *)
Lemma sorted_cover_unique l1 l2 :
  Forall chunk_ok l1 -> Forall chunk_ok l2 -> StronglySorted apart l1 -> StronglySorted apart l2 ->
  (forall a, cover a l1 = cover a l2) -> l1 = l2.
Proof.
  revert l2. induction l1 as [|c l1 IH]; intros [|d l2] Hok1 Hok2 Hs1 Hs2 Hcov; try done.
  - apply Forall_cons in Hok2 as [Hd%chunk_ok_len _]. specialize (Hcov (base d)). simpl in Hcov.
    pose proof (cover_nonneg (base d) l2). count.
  - apply Forall_cons in Hok1 as [Hc%chunk_ok_len _]. specialize (Hcov (base c)). simpl in Hcov.
    pose proof (cover_nonneg (base c) l1). count.
  - pose proof (sorted_tail_after c l1) as T1. pose proof (sorted_tail_after d l2) as T2.
    pose proof (proj1 (StronglySorted_inv Hs1)). pose proof (proj1 (StronglySorted_inv Hs2)).
    apply Forall_cons in Hok1 as [Hc Hok1]. apply Forall_cons in Hok2 as [Hd Hok2].
    assert (Z1 : forall a, a <= chunk_end c -> cover a l1 = 0).
    { intros a Ha. apply cover_before. intros x Hx. specialize (T1 x Hs1 Hc Hx). lia. }
    assert (Z2 : forall a, a <= chunk_end d -> cover a l2 = 0).
    { intros a Ha. apply cover_before. intros x Hx. specialize (T2 x Hs2 Hd Hx). lia. }
    apply chunk_ok_len in Hc, Hd. unfold chunk_end in *.
    assert (Eb : base c = base d).
    { pose proof (Hcov (base c)) as E1. pose proof (Hcov (base d)) as E2. simpl in E1, E2.
      destruct (Z.lt_trichotomy (base c) (base d)) as [?|[?|?]]; [|done|].
      - rewrite (Z2 (base c)) in E1 by lia. pose proof (cover_nonneg (base c) l1). count.
      - rewrite (Z1 (base d)) in E2 by lia. pose proof (cover_nonneg (base d) l2). count. }
    assert (El : len c = len d).
    { pose proof (Hcov (base c + len c)) as E1. pose proof (Hcov (base d + len d)) as E2.
      simpl in E1, E2. destruct (Z.lt_trichotomy (len c) (len d)) as [?|[?|?]]; [|done|].
      - rewrite (Z1 (base c + len c)) in E1 by lia. pose proof (cover_nonneg (base c + len c) l2). count.
      - rewrite (Z2 (base d + len d)) in E2 by lia. pose proof (cover_nonneg (base d + len d) l1). count. }
    assert (c = d) as -> by (destruct c, d; simpl in *; congruence).
    f_equal. apply IH; try done. intros a. specialize (Hcov a). simpl in Hcov. lia.
Qed.

Lemma free_list_determined fl_addr h h' live live' :
  heap_inv fl_addr h live -> heap_inv fl_addr h' live' ->
  heap_base h' = heap_base h -> heap_len h' = heap_len h ->
  map bchunk live ≡ₚ map bchunk live' -> free_list h = free_list h'.
Proof.
  intros Hi Hi' Eb El Hp. apply sorted_cover_unique; try apply Hi; try apply Hi'.
  intros a. pose proof (inv_tiling _ _ _ Hi a) as T. pose proof (inv_tiling _ _ _ Hi' a) as T'.
  rewrite Eb, El in T'. rewrite cover_app in T, T'. rewrite Hp in T. lia.
Qed.

Lemma heap_inv_frame fl_addr h bs live :
  heap_inv fl_addr h live -> heap_inv fl_addr (set_bytes bs h) live.
Proof. intros []. by split. Qed.

(** ** Copying *)
Lemma memcpy_other n d s b a : a < d \/ d + Z.of_nat n <= a -> copy_mem n d s b !! a = b !! a.
Proof.
  revert d s b. induction n as [|n IH]; simpl; intros d s b Ha; [done|].
  rewrite IH by lia. rewrite lookup_insert_ne by lia. done.
Qed.

Lemma memcpy_lookup n d s b i :
  0 <= i < Z.of_nat n -> (forall j, 0 <= j < Z.of_nat n -> s + i <> d + j) ->
  copy_mem n d s b !! (d + i) = Some (default 0 (b !! (s + i))).
Proof.
  revert d s b i. induction n as [|n IH]; intros d s b i Hi Hdis; [lia|]. cbn [copy_mem].
  destruct (Z.eq_dec i 0) as [->|Hne].
  - rewrite memcpy_other by lia. by rewrite Z.add_0_r, lookup_insert_eq, Z.add_0_r.
  - replace (d + i) with (d + 1 + (i - 1)) by lia. rewrite IH.
    + rewrite lookup_insert_ne by (pose proof (Hdis 0); lia). do 3 f_equal. lia.
    + lia.
    + intros j Hj. pose proof (Hdis (j + 1)). lia.
Qed.

(** ** The contract of the allocator *)

(** C24. [heap_alloc] with a request that does not overflow never fails an
    assertion.  Either no free chunk is large enough and it returns NULL and
    changes nothing, or it returns a pointer, aligned as asked, to [size] bytes
    of a chunk that becomes live: the heap stays tiled, so the bytes belong to no
    other block and to no free chunk. *)
Theorem heap_alloc_inv fl_addr h live size al :
  heap_inv fl_addr h live -> 0 <= size -> align_ok al -> size + 15 + real_align al < 2 ^ 32 ->
  exists p h', heap_alloc size al h = Some (p, h') /\ bytes h' = bytes h /\
    heap_base h' = heap_base h /\ heap_len h' = heap_len h /\
    ((p = 0 /\ h' = h /\ Forall (λ c, len c < need size al) (free_list h)) \/
     (exists c, heap_inv fl_addr h' (Block p c :: live) /\
        base c + 12 <= p /\ p + size <= chunk_end c /\ (4 | p) /\ (0 < al -> (al | p)))).
Proof. apply heap_alloc_correct. Qed.

(** C7. [heap_free] of a live block gives its chunk back: the call succeeds (no
    assertion fails, the list head is never merged), the other blocks stay
    intact, and free and live chunks still tile the heap. *)
Theorem heap_free_inv fl_addr h l1 b l2 :
  heap_inv fl_addr h (l1 ++ b :: l2) ->
  exists h', heap_free fl_addr (bptr b) h = Some h' /\ heap_inv fl_addr h' (l1 ++ l2) /\
    bytes h' = bytes h.
Proof. apply heap_free_correct. Qed.

(** Two states of the same heap with the same live chunks have the same free
    list: whatever the history of allocations and releases, memory that is given
    back is coalesced completely. *)
Theorem free_list_canonical fl_addr h h' live live' :
  heap_inv fl_addr h live -> heap_inv fl_addr h' live' ->
  heap_base h' = heap_base h -> heap_len h' = heap_len h ->
  map bchunk live ≡ₚ map bchunk live' -> free_list h = free_list h'.
Proof. apply free_list_determined. Qed.

(** Releasing what was just allocated restores the free list exactly. *)
Theorem alloc_free_roundtrip fl_addr h live size al p h1 :
  heap_inv fl_addr h live -> 0 <= size -> align_ok al -> size + 15 + real_align al < 2 ^ 32 ->
  heap_alloc size al h = Some (p, h1) -> p <> 0 ->
  exists h2, heap_free fl_addr p h1 = Some h2 /\ free_list h2 = free_list h /\
    heap_inv fl_addr h2 live.
Proof.
  intros Hi Hs Hal Hlt Ha Hp.
  destruct (heap_alloc_correct fl_addr h live size al Hi Hs Hal Hlt)
    as (p' & h' & E & _ & Eb & El & [(-> & _)|(c & Hi1 & _)]); rewrite Ha in E; simplify_eq.
  destruct (heap_free_correct fl_addr h' [] (Block p' c) live Hi1) as (h2 & Hf & Hi2 & _).
  simpl in Hf, Hi2. exists h2. split_and!; try done.
  assert (heap_base h2 = heap_base h' /\ heap_len h2 = heap_len h') as [??].
  { clear -Hf. unfold heap_free, heap_create_free_chunk, heap_insert_free_chunk in Hf.
    repeat (case_match; simplify_option_eq; try done). all: done. }
  symmetry. eapply free_list_determined; [exact Hi|exact Hi2|congruence..|done].
Qed.

Lemma heap_free_geometry fl_addr p h h' :
  heap_free fl_addr p h = Some h' -> heap_base h' = heap_base h /\ heap_len h' = heap_len h.
Proof.
  unfold heap_free, heap_create_free_chunk, heap_insert_free_chunk. intros Hf.
  repeat (case_match; simplify_option_eq; try done). all: done.
Qed.

(** [heap_realloc] of a live block to a non-zero size either has no memory
    and leaves the block as it is, or moves it: the old block is released, the
    new one is large enough, and every byte that fits in both is preserved. *)
Theorem heap_realloc_moves fl_addr h l1 b l2 size :
  heap_inv fl_addr h (l1 ++ b :: l2) -> 0 < size -> size + 15 < 2 ^ 32 ->
  exists p h', heap_realloc fl_addr (bptr b) size h = Some (p, h') /\
    ((p = 0 /\ h' = h) \/
     (exists c, heap_inv fl_addr h' (Block p c :: l1 ++ l2) /\ p + size <= chunk_end c /\
        forall i, 0 <= i < size -> bptr b + i < chunk_end (bchunk b) ->
          bytes h' !! (p + i) = Some (default 0 (bytes h !! (bptr b + i))))).
Proof.
  intros Hi Hs Hlt. unfold heap_realloc. rewrite (proj2 (Z.eqb_neq size 0)) by lia. simpl.
  destruct (heap_alloc_correct fl_addr h _ size 0 Hi) as (p & h1 & -> & Eby & _ & _ & Hcase);
    [lia|by left|unfold real_align; simpl; lia|]. simpl.
  destruct (inv_range _ _ _ Hi) as (Hb & _).
  assert (Hin : b ∈ l1 ++ b :: l2) by set_solver.
  pose proof (inv_live_hdr _ _ _ Hi) as HF. rewrite Forall_forall in HF.
  pose proof (inv_live_ok _ _ _ Hi) as HO. rewrite Forall_forall in HO.
  destruct (HF b Hin) as [Hpb Hlk]. pose proof (chunk_ok_len _ (HO b Hin)) as Hbl.
  pose proof (inv_tiling _ _ _ Hi) as Ht.
  assert (Hp : free_list h ++ map bchunk (l1 ++ b :: l2) ≡ₚ
                bchunk b :: free_list h ++ map bchunk (l1 ++ l2))
    by (rewrite !map_app; simpl; by rewrite <- !Permutation_middle).
  rewrite Hp in Ht. apply tiles_range in Ht as [Hr _]; [|lia]. unfold_sizes.
  rewrite (proj2 (Z.eqb_neq (bptr b) 0)) by lia. simpl.
  destruct Hcase as [(-> & -> & _)|(c & Hi1 & Hc1 & Hc2 & _)].
  { exists 0, h. split; [done|]. by left. }
  pose proof (inv_live_ok _ _ _ Hi1) as HO1. apply Forall_cons in HO1 as [HOc HO1].
  pose proof (chunk_ok_len _ HOc) as Hcl. simpl in Hcl.
  assert (Hcb : heap_base h1 <= base c).
  { pose proof (inv_tiling _ _ _ Hi1) as T. simpl in T. rewrite <- Permutation_middle in T.
    apply tiles_range in T as [? _]; lia. }
  pose proof (proj1 (inv_range _ _ _ Hi1)) as Hb1.
  rewrite (proj2 (Z.eqb_neq p 0)) by lia. simpl.
  pose proof (inv_live_hdr _ _ _ Hi1) as HF1. apply Forall_cons in HF1 as [_ HF1].
  rewrite Forall_forall in HF1. destruct (HF1 b Hin) as [_ ->]. simpl.
  set (n := if size <? len (bchunk b) then size else len (bchunk b)).
  destruct (heap_free_correct fl_addr
    (set_bytes (copy_mem (Z.to_nat n) p (bptr b) (bytes h1)) h1) (Block p c :: l1) b l2)
    as (h2 & -> & Hi2 & Eby2).
  { by apply heap_inv_frame. }
  simpl. exists p, h2. split; [done|]. right. exists c. split_and!; try done.
  intros i Hsz Hib. rewrite Eby2. simpl. rewrite Eby in *.
  assert (Hap : apart_or_touch (bchunk b) c).
  { eapply (inv_block_apart fl_addr h1 _ b c (free_list h1 ++ map bchunk (l1 ++ l2)) Hi1); [set_solver| |done].
    simpl. rewrite !map_app. simpl. rewrite <- !Permutation_middle. first [done|apply perm_swap]. }
  assert (0 <= i < n /\ n <= size) as [? ?]
    by (unfold n, chunk_end in *; destruct (Z.ltb_spec size (len (bchunk b))); lia).
  apply memcpy_lookup; [lia|]. intros j Hj. unfold apart_or_touch, chunk_end in *. lia.
Qed.

(** The size computation wraps: a request within 12 bytes of the end of the
    32-bit range is served as a request for no bytes at all. *)
Theorem heap_alloc_size_wraps size h :
  2 ^ 32 - 12 <= size < 2 ^ 32 -> heap_alloc size 0 h = heap_alloc 0 0 h.
Proof.
  intros Hs. assert (E : alloc_size size 0 = alloc_size 0 0); [|unfold heap_alloc; by rewrite E].
  unfold alloc_size. unfold_sizes.
  replace (u32 (size + 12)) with (size + 12 - 2 ^ 32).
  - rewrite (proj2 (Z.ltb_lt (size + 12 - 2 ^ 32) 12)) by lia. done.
  - unfold u32. apply (Z.mod_unique_pos _ _ 1); lia.
Qed.

(** ** Witnesses: a heap of 1 KiB at 0x1000, the list head at 0x64 *)
Definition heap0 : heap := Heap 0x1000 0x400 [Chunk 0x1000 0x400] ∅ ∅.

(** The same heap after an allocation of 20 bytes. *)
Definition heap1 : heap :=
  Heap 0x1000 0x400 [Chunk 0x1020 0x3e0] {[ 0x100c := AllocStruct HEAP_MAGIC 0x1000 0x20 ]} ∅.

Lemma heap0_inv : heap_inv 0x64 heap0 [].
Proof.
  split; simpl; try lia; try by repeat constructor.
  - repeat constructor; simpl; [unfold_sizes; lia|by exists 0x400|by exists 0x100].
  - intros a. count.
Qed.

Lemma heap1_inv : heap_inv 0x64 heap1 ([] ++ Block 0x100c (Chunk 0x1000 0x20) :: []).
Proof.
  split; simpl; try lia; try by repeat constructor.
  - repeat constructor; simpl; [unfold_sizes; lia|by exists 0x408|by exists 0xf8].
  - repeat constructor; simpl; [unfold_sizes; lia|by exists 0x400|by exists 8].
  - intros a. count.
Qed.

Lemma heap_init_inv_witness :
  exists h, heap_init 0x64 0x1000 0x400 = Some h /\ heap_inv 0x64 h [] /\
    free_list h = [Chunk 0x1000 0x400].
Proof.
  apply (heap_init_inv 0x64 0x1000 0x400); try lia; [by exists 0x400|by exists 0x100].
Defined.

Lemma heap_alloc_inv_witness :
  heap_alloc 20 64 heap0 <> None /\
  exists p h', heap_alloc 20 64 heap0 = Some (p, h') /\ bytes h' = bytes heap0 /\
    heap_base h' = 0x1000 /\ heap_len h' = 0x400 /\
    ((p = 0 /\ h' = heap0 /\ Forall (λ c, len c < need 20 64) (free_list heap0)) \/
     (exists c, heap_inv 0x64 h' [Block p c] /\
        base c + 12 <= p /\ p + 20 <= chunk_end c /\ (4 | p) /\ (0 < 64 -> (64 | p)))).
Proof.
  split; [vm_compute; done|].
  apply (heap_alloc_inv 0x64 heap0 [] 20 64); [exact heap0_inv|lia| |vm_compute; done].
  right. exists 6. split; [lia|done].
Defined.

Lemma heap_free_inv_witness :
  exists h', heap_free 0x64 0x100c heap1 = Some h' /\ heap_inv 0x64 h' [] /\ bytes h' = bytes heap1.
Proof. apply (heap_free_inv 0x64 heap1 [] (Block 0x100c (Chunk 0x1000 0x20)) []). exact heap1_inv. Defined.

Lemma free_list_canonical_witness : free_list heap1 = free_list (set_bytes {[ 7 := 1 ]} heap1).
Proof.
  apply (free_list_canonical 0x64 heap1 (set_bytes {[ 7 := 1 ]} heap1) _ _ heap1_inv
           (heap_inv_frame _ _ _ _ heap1_inv)); done.
Defined.

Lemma alloc_free_roundtrip_witness :
  exists h2, heap_free 0x64 0x100c heap1 = Some h2 /\ free_list h2 = free_list heap0 /\
    heap_inv 0x64 h2 [].
Proof.
  apply (alloc_free_roundtrip 0x64 heap0 [] 20 0 0x100c heap1);
    [exact heap0_inv|lia|by left|vm_compute; done|vm_compute; reflexivity|done].
Defined.

Lemma heap_realloc_moves_witness :
  exists p h', heap_realloc 0x64 0x100c 40 heap1 = Some (p, h') /\
    ((p = 0 /\ h' = heap1) \/
     (exists c, heap_inv 0x64 h' [Block p c] /\ p + 40 <= chunk_end c /\
        forall i, 0 <= i < 40 -> 0x100c + i < chunk_end (Chunk 0x1000 0x20) ->
          bytes h' !! (p + i) = Some (default 0 (bytes heap1 !! (0x100c + i))))).
Proof.
  apply (heap_realloc_moves 0x64 heap1 [] (Block 0x100c (Chunk 0x1000 0x20)) [] 40);
    [exact heap1_inv|lia|lia].
Defined.

Lemma heap_alloc_size_wraps_witness : heap_alloc (2 ^ 32 - 8) 0 heap0 = heap_alloc 0 0 heap0.
Proof. apply (heap_alloc_size_wraps (2 ^ 32 - 8) heap0). lia. Defined.

(** [heap_realloc] takes the whole chunk's length for the payload's: growing a
    20-byte block copies bytes past the end of its chunk, here a byte 0x5a of the
    neighbouring chunk, into the new block. *)
Example heap_realloc_overreads :
  (h ← heap_init 0x64 0x1000 0x400;
   '(p, h) ← heap_alloc 20 0 h;
   '(q, h) ← heap_alloc 20 0 h;
   '(r, h) ← heap_realloc 0x64 p 100 (set_bytes {[ 0x1020 := 0x5a ]} h);
   Some (p, q, r, bytes h !! (r + 20))) = Some (0x100c, 0x102c, 0x104c, Some 0x5a).
Proof. vm_compute. reflexivity. Qed.
