(* ===== verification/Timer.v ===== *)
(** * Kernel timers ([kernel/timer.c])

    A queue of timers ordered by the tick they fire at, on a 32-bit clock that
    wraps around: the order of two times is the sign of their difference.  The
    state is kept apart from the rest of the kernel; [TimerHost] is what the
    kernel state offers to the tick handler, whose callbacks run on it.

    Build configuration: [PLATFORM_HAS_DYNAMIC_TIMER] and [THREAD_STATS] are not
    set.  A [panic], a failed assertion and a dangling timer are [None]. *)
From stdpp Require Import base gmap list sorting.
From Stdlib Require Import ZArith Lia.
From S2P Require Import Prelude.
#[local] Open Scope Z_scope.

(** [TIME_GT(a, b)], [TIME_LT(a, b)]: [((long)((a) - (b)) > 0)] and [< 0]. *)
Definition TIME_GT (a b : Z) : bool := 0 <? s32 (a - b).
Definition TIME_LT (a b : Z) : bool := s32 (a - b) <? 0.

(** [timer_t], for callbacks in [CB] and arguments in [ARG]; NULL is [None].
    [list_in_list(&timer->node)] is membership in the queue. *)
Record timer {CB ARG : Type} := Timer {
  scheduled_time : Z;
  periodic_time : Z;
  callback : option CB;
  arg : option ARG
}.
Arguments timer : clear implicits.
Arguments Timer {CB ARG}.

(** The static [timer_queue] and the timers it links, by their address. *)
Record timers {CB ARG : Type} := Timers {
  timer_queue : list nat;
  timer_table : gmap nat (timer CB ARG)
}.
Arguments timers : clear implicits.
Arguments Timers {CB ARG}.

(** What the state of the kernel offers to the tick handler. *)
Class TimerHost (CB ARG S : Type) := {
  host_timers : S -> timers CB ARG;
  put_timers : timers CB ARG -> S -> S;
  host_put : forall ts s, host_timers (put_timers ts s) = ts
}.

Lemma surjective_timers {CB ARG} (ts : timers CB ARG) : ts = Timers (timer_queue ts) (timer_table ts).
Proof. by destruct ts. Qed.

Section Operations.
Context {CB ARG : Type}.
Implicit Types ts : timers CB ARG.

Definition timer_initialize (t : nat) ts : timers CB ARG :=
  Timers (timer_queue ts) (<[t := Timer 0 0 None None]> (timer_table ts)).

(** The loop of [insert_timer_in_queue]: before the first entry that fires after
    the time [when], at the tail when there is none. *)
Fixpoint insert_at (when : Z) (t : nat) (tab : gmap nat (timer CB ARG)) (q : list nat)
  : option (list nat) :=
  match q with
  | [] => Some [t]
  | entry :: rest =>
      e ← tab !! entry;
      if TIME_GT (scheduled_time e) when then Some (t :: q)
      else r ← insert_at when t tab rest; Some (entry :: r)
  end.

Definition insert_timer_in_queue (t : nat) ts : option (timers CB ARG) :=
  tm ← timer_table ts !! t;
  q ← insert_at (scheduled_time tm) t (timer_table ts) (timer_queue ts);
  Some (Timers q (timer_table ts)).

(** [timer_set]; [now] is what [current_time()] returns. *)
Definition timer_set (now : Z) (t : nat) (delay period : Z) (cb : CB) (a : ARG) ts
  : option (timers CB ARG) :=
  if decide (t ∈ timer_queue ts) then None (* panic *) else
  insert_timer_in_queue t
    (Timers (timer_queue ts)
       (<[t := Timer (u32 (now + delay)) period (Some cb) (Some a)]> (timer_table ts))).

Definition timer_set_oneshot (now : Z) (t : nat) (delay : Z) (cb : CB) (a : ARG) ts :=
  let delay := if delay =? 0 then 1 else delay in
  timer_set now t delay 0 cb a ts.

Definition timer_set_periodic (now : Z) (t : nat) (period : Z) (cb : CB) (a : ARG) ts :=
  let period := if period =? 0 then 1 else period in
  timer_set now t period period cb a ts.

(** [list_delete]: the queue without the node. *)
Definition queue_delete (t : nat) (q : list nat) : list nat := filter (λ u, u <> t) q.

Definition timer_cancel (t : nat) ts : option (timers CB ARG) :=
  tm ← timer_table ts !! t;
  let q := if decide (t ∈ timer_queue ts) then queue_delete t (timer_queue ts)
           else timer_queue ts in
  Some (Timers q (<[t := Timer (scheduled_time tm) 0 None None]> (timer_table ts))).

Definition timer_init : timers CB ARG := Timers [] ∅.

(** ** The tick handler *)
Context {S : Type} `{TimerHost CB ARG S}.

(** [timer->callback(timer, now, timer->arg)]; [true] is [INT_RESCHEDULE]. *)
Variable fire : nat -> Z -> S -> option (S * bool).

(** [thread_timer_tick] of the scheduler. *)
Variable sched_tick : S -> option (S * bool).

(** The [for (;;)] loop of [timer_tick]; [fuel] bounds how often it goes round. *)
Fixpoint timer_loop (fuel : nat) (now : Z) (s : S) (ret : bool) : option (S * bool) :=
  match fuel with
  | O => None
  | Datatypes.S fuel =>
      match timer_queue (host_timers s) with
      | [] => Some (s, ret)
      | t :: rest =>
          tm ← timer_table (host_timers s) !! t;
          if TIME_LT now (scheduled_time tm) then Some (s, ret) else
          let s := put_timers (Timers rest (timer_table (host_timers s))) s in
          let periodic := 0 <? periodic_time tm in
          '(s, r) ← fire t now s;
          let ret := ret || r in
          if periodic then
            tm ← timer_table (host_timers s) !! t;
            if negb (bool_decide (t ∈ timer_queue (host_timers s))) && (0 <? periodic_time tm) then
              let tm := Timer (u32 (now + periodic_time tm)) (periodic_time tm)
                              (callback tm) (arg tm) in
              ts ← insert_timer_in_queue t
                     (Timers (timer_queue (host_timers s))
                             (<[t := tm]> (timer_table (host_timers s))));
              timer_loop fuel now (put_timers ts s) ret
            else timer_loop fuel now s ret
          else timer_loop fuel now s ret
      end
  end.

(** [timer_tick]: the handler ignores what the callbacks asked for and always
    returns [INT_RESCHEDULE]. *)
Definition timer_tick (fuel : nat) (now : Z) (s : S) : option (S * bool) :=
  '(s, ret) ← timer_loop fuel now s false;
  '(s, r) ← sched_tick s;
  let ret := ret || r in
  Some (s, true).
End Operations.

(** ** Times in a window

    Times are compared correctly as long as they lie within half the range of
    the clock: in the window that starts at [w]. *)
Definition age (w t : Z) : Z := u32 (t - w).
Definition in_window (w t : Z) : Prop := age w t < 2 ^ 31.

Lemma s32_age w a b : in_window w a -> in_window w b -> s32 (a - b) = age w a - age w b.
Proof.
  unfold in_window, age, u32, s32. intros Ha Hb.
  pose proof (Z.mod_pos_bound (a - w) (2 ^ 32) ltac:(lia)).
  pose proof (Z.mod_pos_bound (b - w) (2 ^ 32) ltac:(lia)).
  replace (a - b + 2 ^ 31) with
    (((a - w) mod 2 ^ 32 - (b - w) mod 2 ^ 32 + 2 ^ 31) + ((a - w) / 2 ^ 32 - (b - w) / 2 ^ 32) * 2 ^ 32).
  - rewrite Z.mod_add by lia. rewrite Z.mod_small by lia. lia.
  - pose proof (Z.div_mod (a - w) (2 ^ 32)). pose proof (Z.div_mod (b - w) (2 ^ 32)). lia.
Qed.

Lemma TIME_GT_age w a b : in_window w a -> in_window w b -> TIME_GT a b = (age w b <? age w a).
Proof. intros. unfold TIME_GT. rewrite (s32_age w) by done. destruct (Z.ltb_spec (age w b) (age w a)); lia. Qed.

Lemma TIME_LT_age w a b : in_window w a -> in_window w b -> TIME_LT a b = (age w a <? age w b).
Proof. intros. unfold TIME_LT. rewrite (s32_age w) by done. destruct (Z.ltb_spec (age w a) (age w b)); lia. Qed.

Lemma age_add w t d : 0 <= d -> age w t + d < 2 ^ 32 -> age w (u32 (t + d)) = age w t + d.
Proof.
  unfold age, u32. intros Hd Hlt.
  pose proof (Z.mod_pos_bound (t - w) (2 ^ 32) ltac:(lia)).
  rewrite Zminus_mod_idemp_l. replace (t + d - w) with ((t - w) + d) by lia.
  rewrite <- Zplus_mod_idemp_l. apply Z.mod_small. lia.
Qed.

Section Queue.
Context {CB ARG : Type}.
Implicit Types (ts : timers CB ARG) (tab : gmap nat (timer CB ARG)).

(** The age at which the timer [t] fires. *)
Definition due (w : Z) tab (t : nat) : Z :=
  match tab !! t with Some tm => age w (scheduled_time tm) | None => 0 end.

(** Queued timers are known, within the window, and in firing order. *)
Record queue_ok (w : Z) ts : Prop := {
  queue_nodup : NoDup (timer_queue ts);
  queue_known : forall t, t ∈ timer_queue ts ->
    exists tm, timer_table ts !! t = Some tm /\ in_window w (scheduled_time tm);
  queue_sorted : StronglySorted (λ t u, due w (timer_table ts) t <= due w (timer_table ts) u)
                   (timer_queue ts)
}.

Lemma due_lookup w tab t tm : tab !! t = Some tm -> due w tab t = age w (scheduled_time tm).
Proof. unfold due. by intros ->. Qed.

(** The queue is split after the entries that fire no later. *)
Lemma insert_at_spec w when t tab q :
  in_window w when ->
  (forall u, u ∈ q -> exists tm, tab !! u = Some tm /\ in_window w (scheduled_time tm)) ->
  StronglySorted (λ t u, due w tab t <= due w tab u) q ->
  exists q1 q2, q = q1 ++ q2 /\ insert_at when t tab q = Some (q1 ++ t :: q2) /\
    Forall (λ u, due w tab u <= age w when) q1 /\ Forall (λ u, age w when < due w tab u) q2.
Proof.
  intros Hw. induction q as [|e q IH]; intros Hk Hs; simpl.
  { by exists [], []. }
  apply StronglySorted_inv in Hs as [Hs Hf].
  destruct (Hk e ltac:(set_solver)) as (tm & He & Hwe). rewrite He. simpl.
  rewrite (TIME_GT_age w) by done.
  destruct (Z.ltb_spec (age w when) (age w (scheduled_time tm))) as [Hlt|Hge].
  - exists [], (e :: q). split_and!; try done. constructor.
    + by rewrite (due_lookup w tab e tm).
    + eapply Forall_impl; [exact Hf|]. simpl. intros u Hu. rewrite (due_lookup w tab e tm) in Hu by done. lia.
  - destruct IH as (q1 & q2 & -> & -> & H1 & H2); [intros; apply Hk; set_solver|done|].
    simpl. exists (e :: q1), q2. split_and!; try done. constructor; [|done].
    by rewrite (due_lookup w tab e tm).
Qed.

Lemma sorted_insert w tab q1 q2 t :
  StronglySorted (λ t u, due w tab t <= due w tab u) (q1 ++ q2) ->
  Forall (λ u, due w tab u <= due w tab t) q1 -> Forall (λ u, due w tab t < due w tab u) q2 ->
  StronglySorted (λ t u, due w tab t <= due w tab u) (q1 ++ t :: q2).
Proof.
  intros (Hx & H1 & H2)%StronglySorted_app F1 F2. rewrite Forall_forall in F1.
  apply StronglySorted_app_2; [|done|].
  - intros x y Hx1 Hy. apply elem_of_cons in Hy as [->|Hy]; [by apply F1|by apply Hx].
  - constructor; [done|]. eapply Forall_impl; [exact F2|]. simpl. lia.
Qed.

Lemma sorted_ext w tab tab' q :
  (forall u, u ∈ q -> due w tab' u = due w tab u) ->
  StronglySorted (λ t u, due w tab t <= due w tab u) q ->
  StronglySorted (λ t u, due w tab' t <= due w tab' u) q.
Proof.
  induction q as [|u q IH]; intros E Hs; [constructor|].
  apply StronglySorted_inv in Hs as [Hs Hf]. constructor.
  - apply IH; [|done]. intros; apply E; set_solver.
  - rewrite Forall_forall in Hf |- *. intros v Hv. rewrite !E by set_solver. by apply Hf.
Qed.

(** Writing a timer that is not queued and queueing it. *)
Lemma insert_timer_ok w ts t tm :
  queue_ok w ts -> t ∉ timer_queue ts -> in_window w (scheduled_time tm) ->
  exists q1 q2, timer_queue ts = q1 ++ q2 /\
    insert_timer_in_queue t (Timers (timer_queue ts) (<[t := tm]> (timer_table ts))) =
      Some (Timers (q1 ++ t :: q2) (<[t := tm]> (timer_table ts))) /\
    queue_ok w (Timers (q1 ++ t :: q2) (<[t := tm]> (timer_table ts))) /\
    Forall (λ u, due w (timer_table ts) u <= age w (scheduled_time tm)) q1 /\
    Forall (λ u, age w (scheduled_time tm) < due w (timer_table ts) u) q2.
Proof.
  intros [Hnd Hk Hs] Hin Hw. set (tab := <[t := tm]> (timer_table ts)).
  assert (Hne : forall u, u ∈ timer_queue ts -> tab !! u = timer_table ts !! u).
  { intros u Hu. unfold tab. rewrite lookup_insert_ne; [done|]. by intros ->. }
  assert (Hdue : forall u, u ∈ timer_queue ts -> due w tab u = due w (timer_table ts) u).
  { intros u Hu. unfold due. by rewrite Hne. }
  assert (Ht : tab !! t = Some tm) by apply lookup_insert_eq.
  unfold insert_timer_in_queue. simpl. fold tab. rewrite Ht. simpl.
  destruct (insert_at_spec w (scheduled_time tm) t tab (timer_queue ts))
    as (q1 & q2 & Eq & -> & F1 & F2); [done| |by eapply sorted_ext|].
  { intros u Hu. rewrite Hne by done. by apply Hk. }
  simpl. exists q1, q2. rewrite Eq in *. split_and!; try done.
  - split; simpl.
    + rewrite <- Permutation_middle. by constructor.
    + intros u Hu. destruct (decide (u = t)) as [->|]; [by eexists|].
      rewrite Hne by set_solver. apply Hk. set_solver.
    + apply sorted_insert; [by eapply sorted_ext|by rewrite (due_lookup w tab t tm)..].
  - rewrite Forall_forall in F1 |- *. intros u Hu. rewrite <- Hdue by set_solver. by apply F1.
  - rewrite Forall_forall in F2 |- *. intros u Hu. rewrite <- Hdue by set_solver. by apply F2.
Qed.
End Queue.

(** ** Setting and cancelling *)
Section Setting.
Context {CB ARG : Type}.
Implicit Types ts : timers CB ARG.

(** Setting a timer that is not queued puts it behind the timers that fire
    no later than it and before those that fire later, on the wrapping clock, and
    keeps the queue in firing order. *)
Theorem timer_set_ordered w now t delay period (cb : CB) (a : ARG) ts :
  queue_ok w ts -> t ∉ timer_queue ts -> in_window w (u32 (now + delay)) ->
  exists q1 q2 ts', timer_queue ts = q1 ++ q2 /\
    timer_set now t delay period cb a ts = Some ts' /\ timer_queue ts' = q1 ++ t :: q2 /\
    queue_ok w ts' /\
    Forall (λ u, due w (timer_table ts) u <= age w (u32 (now + delay))) q1 /\
    Forall (λ u, age w (u32 (now + delay)) < due w (timer_table ts) u) q2.
Proof.
  intros Hok Hin Hw. unfold timer_set. rewrite decide_False by done.
  destruct (insert_timer_ok w ts t (Timer (u32 (now + delay)) period (Some cb) (Some a)))
    as (q1 & q2 & Eq & -> & Hok' & F1 & F2); try done.
  by eexists q1, q2, _.
Qed.

Lemma timer_cancel_ok w t ts tm :
  queue_ok w ts -> timer_table ts !! t = Some tm ->
  exists ts', timer_cancel t ts = Some ts' /\ queue_ok w ts' /\
    timer_queue ts' = filter (λ u, u <> t) (timer_queue ts) /\
    timer_table ts' = <[t := Timer (scheduled_time tm) 0 None None]> (timer_table ts).
Proof.
  intros [Hnd Hk Hs] Ht. unfold timer_cancel. rewrite Ht. simpl.
  assert (Eq : (if decide (t ∈ timer_queue ts) then queue_delete t (timer_queue ts) else timer_queue ts)
               = filter (λ u, u <> t) (timer_queue ts)).
  { case_decide as Hin; [done|]. symmetry. apply list_filter_all. by intros u Hu ->. }
  rewrite Eq. eexists. split; [done|]. split; [split; simpl|done].
  - by apply NoDup_filter.
  - intros u [Hu Hin]%list_elem_of_filter. rewrite lookup_insert_ne by done. by apply Hk.
  - apply (sorted_ext w (timer_table ts)).
    + intros u [Hu _]%list_elem_of_filter. unfold due. by rewrite lookup_insert_ne.
    + by apply StronglySorted_filter.
Qed.

(** Cancelling a timer takes exactly it out of the queue and keeps the order
    of the others; a timer that is not queued only loses its callback. *)
Theorem timer_cancel_removes w t ts :
  queue_ok w ts -> is_Some (timer_table ts !! t) ->
  exists ts', timer_cancel t ts = Some ts' /\ queue_ok w ts' /\
    timer_queue ts' = filter (λ u, u <> t) (timer_queue ts) /\
    (forall tm, timer_table ts' !! t = Some tm -> periodic_time tm = 0 /\ callback tm = None).
Proof.
  intros Hok [tm Ht]. destruct (timer_cancel_ok w t ts tm Hok Ht) as (ts' & E & Hok' & Eq & Etab).
  exists ts'. split_and!; try done. rewrite Etab, lookup_insert_eq. by intros ? [= <-].
Qed.
End Setting.

(** ** Firing

    A callback runs on the kernel while the tick is handled, so it may set and cancel
    timers, its own included: what it does to them is a sequence of calls. *)
Inductive timer_op {CB ARG : Type} :=
  | OpSet (at_time : Z) (t : nat) (delay period : Z) (cb : CB) (a : ARG)
  | OpCancel (t : nat).
Arguments timer_op : clear implicits.

Section Callbacks.
Context {CB ARG : Type}.
Implicit Types ts : timers CB ARG.

Definition op_target (o : timer_op CB ARG) : nat :=
  match o with OpSet _ t _ _ _ _ => t | OpCancel t => t end.
Definition run_op (o : timer_op CB ARG) ts : option (timers CB ARG) :=
  match o with
  | OpSet at_time t delay period cb a => timer_set at_time t delay period cb a ts
  | OpCancel t => timer_cancel t ts
  end.
Fixpoint run_ops (l : list (timer_op CB ARG)) ts : option (timers CB ARG) :=
  match l with [] => Some ts | o :: l => ts ← run_op o ts; run_ops l ts end.

(** What the users of timers see of them: the ones that are set, and to what. *)
Definition armed ts : gmap nat (timer CB ARG) :=
  filter (λ p, p.1 ∈ timer_queue ts) (timer_table ts).
Definition arm_op (A : gmap nat (timer CB ARG)) (o : timer_op CB ARG) : gmap nat (timer CB ARG) :=
  match o with
  | OpSet at_time t delay period cb a => <[t := Timer (u32 (at_time + delay)) period (Some cb) (Some a)]> A
  | OpCancel t => delete t A
  end.

(** The timers of the queue that are due at [now]. *)
Definition expired (w now : Z) ts : list nat :=
  filter (λ t, due w (timer_table ts) t <= age w now) (timer_queue ts).

(** A callback sets only timers that are not set (its own is not when it starts, and one it
    cancelled is not), for times after the tick. *)
Fixpoint ops_ok (w now : Z) (unset : list nat) (l : list (timer_op CB ARG)) : Prop :=
  match l with
  | [] => True
  | OpCancel t :: l => ops_ok w now (t :: unset) l
  | OpSet at_time t delay _ _ _ :: l =>
      t ∈ unset /\ age w now < age w (u32 (at_time + delay)) < 2 ^ 31 /\
      ops_ok w now (filter (λ u, u <> t) unset) l
  end.

Lemma armed_lookup ts t tm :
  armed ts !! t = Some tm <-> timer_table ts !! t = Some tm /\ t ∈ timer_queue ts.
Proof. unfold armed. by rewrite map_lookup_filter_Some. Qed.

(** The armed timers after the queue and one entry of the table changed. *)
Lemma armed_insert ts q t tm :
  (forall u, u ∈ q <-> u = t \/ u ∈ timer_queue ts) ->
  armed (Timers q (<[t := tm]> (timer_table ts))) = <[t := tm]> (armed ts).
Proof.
  intros Hq. apply map_eq. intros u. apply option_eq. intros um.
  rewrite armed_lookup. simpl. rewrite !lookup_insert_Some, armed_lookup, Hq. naive_solver.
Qed.
Lemma armed_delete ts q t tab :
  (forall u, u ∈ q <-> u <> t /\ u ∈ timer_queue ts) ->
  (forall u, u <> t -> tab !! u = timer_table ts !! u) ->
  armed (Timers q tab) = delete t (armed ts).
Proof.
  intros Hq Ht. apply map_eq. intros u. apply option_eq. intros um.
  rewrite lookup_delete_Some, !armed_lookup. simpl. rewrite Hq.
  split; [intros (? & ? & ?)|intros (? & ? & ?)]; (rewrite Ht in * || rewrite <- Ht in *); naive_solver.
Qed.

Lemma filter_due_ext w now (tab tab' : gmap nat (timer CB ARG)) (q : list nat) :
  (forall u, u ∈ q -> due w tab' u = due w tab u) ->
  filter (λ u, due w tab' u <= age w now) q = filter (λ u, due w tab u <= age w now) q.
Proof.
  induction q as [|u q IH]; intros E; [done|]. rewrite !filter_cons, E by set_solver.
  rewrite IH by (intros; apply E; set_solver). done.
Qed.
Lemma filter_comm {A} (P Q : A -> Prop) `{!∀ x, Decision (P x)} `{!∀ x, Decision (Q x)} (l : list A) :
  filter P (filter Q l) = filter Q (filter P l).
Proof. rewrite !list_filter_filter. apply list_filter_iff. tauto. Qed.
Lemma filter_out {A} `{EqDecision A} (t : A) (l : list A) : t ∉ l -> filter (λ u, u <> t) l = l.
Proof. intros Hn. apply list_filter_all. intros u Hu. by intros ->. Qed.

(** Setting a timer that is not set, for a time after [now]. *)
Lemma insert_later_ok w now ts t tm :
  queue_ok w ts -> t ∉ timer_queue ts -> age w now < age w (scheduled_time tm) < 2 ^ 31 ->
  exists ts', insert_timer_in_queue t (Timers (timer_queue ts) (<[t := tm]> (timer_table ts))) = Some ts' /\
    queue_ok w ts' /\ armed ts' = <[t := tm]> (armed ts) /\
    expired w now ts' = expired w now ts /\ timer_table ts' = <[t := tm]> (timer_table ts) /\
    (forall u, u ∈ timer_queue ts' <-> u = t \/ u ∈ timer_queue ts).
Proof.
  intros Hok Hn Ha.
  destruct (insert_timer_ok w ts t tm) as (q1 & q2 & Eq & -> & Hok' & _ & _); [done|done|unfold in_window; lia|].
  assert (Hq : forall u, u ∈ q1 ++ t :: q2 <-> u = t \/ u ∈ timer_queue ts) by (rewrite Eq; set_solver).
  eexists. split; [done|]. split; [done|]. split; [by apply armed_insert|]. split; [|done].
  unfold expired. simpl. rewrite filter_app, filter_cons, decide_False.
  2:{ rewrite (due_lookup _ _ _ tm) by apply lookup_insert_eq. lia. }
  rewrite <- filter_app, <- Eq. apply filter_due_ext.
  intros u Hu. unfold due. rewrite lookup_insert_ne; [done|]. by intros ->.
Qed.

(** One call of a callback. *)
Lemma run_op_ok w now o unset l ts :
  queue_ok w ts -> ops_ok w now unset (o :: l) -> (forall u, u ∈ unset -> u ∉ timer_queue ts) ->
  is_Some (timer_table ts !! op_target o) ->
  exists ts' unset', run_op o ts = Some ts' /\ queue_ok w ts' /\ armed ts' = arm_op (armed ts) o /\
    expired w now ts' = filter (λ u, u <> op_target o) (expired w now ts) /\
    ops_ok w now unset' l /\ (forall u, u ∈ unset' -> u ∉ timer_queue ts') /\
    (op_target o ∈ timer_queue ts' \/ exists tm, timer_table ts' !! op_target o = Some tm /\ periodic_time tm = 0) /\
    (forall u, u <> op_target o -> timer_table ts' !! u = timer_table ts !! u /\ (u ∈ timer_queue ts' <-> u ∈ timer_queue ts)) /\
    is_Some (timer_table ts' !! op_target o).
Proof.
  intros Hok Hops Hun Hk. destruct o as [n t d p cb a|t]; simpl in Hops, Hk |- *.
  - destruct Hops as (Hin & Ha & Hops). unfold timer_set. rewrite decide_False by auto.
    destruct (insert_later_ok w now ts t (Timer (u32 (n + d)) p (Some cb) (Some a))) as (ts' & -> & Hok' & Ear & Eex & Etab & Hq); [done|auto|done|].
    exists ts', (filter (λ u, u <> t) unset). split; [done|]. split; [done|]. split; [done|]. split.
    { rewrite Eex. symmetry. apply filter_out. unfold expired. rewrite list_elem_of_filter. intros [_ ?]. by apply (Hun t). }
    split; [done|]. split; [intros u [? ?]%list_elem_of_filter; rewrite Hq; naive_solver|].
    split; [left; rewrite Hq; by left|]. split; [|rewrite Etab, lookup_insert_eq; by eexists].
    intros u Hne. rewrite Etab, lookup_insert_ne by done. split; [done|]. rewrite Hq. naive_solver.
  - destruct Hk as [tm Htm]. destruct (timer_cancel_ok w t ts tm Hok Htm) as (ts' & -> & Hok' & Eq & Etab).
    assert (Hq : forall u, u ∈ timer_queue ts' <-> u <> t /\ u ∈ timer_queue ts) by (intros u; by rewrite Eq, list_elem_of_filter).
    exists ts', (t :: unset). split; [done|]. split; [done|]. split.
    { destruct ts' as [q' tab']. simpl in *. subst tab'. apply armed_delete; [done|]. intros u Hu. by rewrite lookup_insert_ne. }
    split.
    { unfold expired. rewrite Eq. rewrite (filter_comm (λ u, u <> t)). apply filter_due_ext. intros u [Hu _]%list_elem_of_filter. rewrite Etab. unfold due. by rewrite lookup_insert_ne. }
    split; [done|]. split; [intros u [->|Hu]%elem_of_cons; rewrite Hq; [naive_solver|intros [_ ?]; by apply (Hun u)]|].
    split; [right; eexists; rewrite Etab, lookup_insert_eq; by split|]. split; [|rewrite Etab, lookup_insert_eq; by eexists].
    intros u Hne. rewrite Etab, lookup_insert_ne by done. split; [done|]. rewrite Hq. naive_solver.
Qed.
End Callbacks.

Section Firing.
Context {CB ARG S : Type} `{TimerHost CB ARG S}.
Variable fire : nat -> Z -> S -> option (S * bool).
Implicit Types ts : timers CB ARG.

(** What the callback of each timer does to the timers, and a record of those that ran. *)
Variable ops : nat -> list (timer_op CB ARG).
Variable log : S -> list nat.
Hypothesis log_put : forall ts s, log (put_timers ts s) = log s.
Hypothesis fire_ok : forall t now s ts', run_ops (ops t) (host_timers s) = Some ts' ->
  exists s' r, fire t now s = Some (s', r) /\ host_timers s' = ts' /\ log s' = log s ++ [t].

(** ** The specification of a tick

    The timers that fire, in order: those that are due, except the ones an earlier callback
    of the same tick has cancelled (or set again, for later). *)
Fixpoint fires (gone : list nat) (due : list nat) : list nat :=
  match due with
  | [] => []
  | t :: due => if decide (t ∈ gone) then fires gone due else t :: fires (gone ++ (op_target <$> ops t)) due
  end.

(** A timer that fires is no longer set; its callback does what it does; a periodic timer is set
    again for one period after the tick, unless its callback has set or cancelled it. *)
Definition arm_fire (now : Z) (A : gmap nat (timer CB ARG)) (t : nat) : gmap nat (timer CB ARG) :=
  match A !! t with
  | None => A
  | Some tm =>
      let A' := foldl arm_op (delete t A) (ops t) in
      if decide (0 < periodic_time tm /\ t ∉ op_target <$> ops t)
      then <[t := Timer (u32 (now + periodic_time tm)) (periodic_time tm) (callback tm) (arg tm)]> A'
      else A'
  end.

(** What the tick at [now] relies on: the periods of the timers that are due keep them inside the window,
    and their callbacks set and cancel timers that exist, for times after the tick. *)
Definition due_ok (w now : Z) (ts : timers CB ARG) (t : nat) : Prop :=
  (forall tm, timer_table ts !! t = Some tm -> 0 <= periodic_time tm /\ age w now + periodic_time tm < 2 ^ 31) /\
  ops_ok w now [t] (ops t) /\ (forall o, o ∈ ops t -> is_Some (timer_table ts !! op_target o)).
Definition dues_ok (w now : Z) (ts : timers CB ARG) : Prop :=
  forall t, t ∈ expired w now ts -> due_ok w now ts t.

(** A callback: what it did not touch is as before, what it touched is set or has no period. *)
Lemma run_ops_ok w now l : forall unset ts,
  queue_ok w ts -> ops_ok w now unset l -> (forall u, u ∈ unset -> u ∉ timer_queue ts) ->
  (forall o, o ∈ l -> is_Some (timer_table ts !! op_target o)) ->
  exists ts', run_ops l ts = Some ts' /\ queue_ok w ts' /\ armed ts' = foldl arm_op (armed ts) l /\
    expired w now ts' = filter (λ u, u ∉ op_target <$> l) (expired w now ts) /\
    (forall u, u ∈ op_target <$> l -> u ∈ timer_queue ts' \/ exists tm, timer_table ts' !! u = Some tm /\ periodic_time tm = 0) /\
    (forall u, u ∉ op_target <$> l -> timer_table ts' !! u = timer_table ts !! u /\ (u ∈ timer_queue ts' <-> u ∈ timer_queue ts)) /\
    (forall u, is_Some (timer_table ts !! u) -> is_Some (timer_table ts' !! u)).
Proof.
  induction l as [|o l IH]; intros unset ts Hok Hops Hun Hk; cbn [run_ops foldl fmap list_fmap].
  - exists ts. split_and!; try done; [|by intros u Hu%elem_of_nil].
    symmetry. apply list_filter_all. intros u _. apply not_elem_of_nil.
  - destruct (run_op_ok w now o unset l ts Hok Hops Hun (Hk o ltac:(left)))
      as (ts1 & unset1 & -> & Hok1 & Ear1 & Eex1 & Hops1 & Hun1 & Ht1 & Ho1 & Hs1). cbn [mbind option_bind].
    assert (Hdom : forall u, is_Some (timer_table ts !! u) -> is_Some (timer_table ts1 !! u)).
    { intros u Hu. destruct (decide (u = op_target o)) as [->|Hne]; [done|]. by rewrite (proj1 (Ho1 u Hne)). }
    destruct (IH unset1 ts1) as (ts2 & -> & Hok2 & Ear2 & Eex2 & Ht2 & Ho2 & Hd2); [done..|intros o' Ho'; apply Hdom, Hk; by right|].
    exists ts2. split; [done|]. split; [done|]. split; [by rewrite Ear2, Ear1|]. split; [|split; [|split]].
    + rewrite Eex2, Eex1, list_filter_filter. apply list_filter_iff. intros u. rewrite not_elem_of_cons. tauto.
    + intros u Hu. destruct (decide (u ∈ op_target <$> l)) as [Hin|Hout]; [by apply Ht2|].
      apply elem_of_cons in Hu as [->|Hu]; [|done]. destruct (Ho2 _ Hout) as [-> Hq]. rewrite Hq. done.
    + intros u [Hne Hout]%not_elem_of_cons. destruct (Ho2 _ Hout) as [-> ->]. by apply Ho1.
    + auto.
Qed.

(** When some timer is due, the first one of the queue is the first that is due. *)
Lemma head_due w now ts t0 e :
  queue_ok w ts -> expired w now ts = t0 :: e ->
  exists rest, timer_queue ts = t0 :: rest /\ due w (timer_table ts) t0 <= age w now /\
    expired w now (Timers rest (timer_table ts)) = e.
Proof.
  intros Hok He. destruct ts as [[|t rest] tab]; [done|]. unfold expired in *. simpl in *.
  pose proof (queue_sorted _ _ Hok) as [_ Hf']%StronglySorted_inv. simpl in Hf'. rewrite filter_cons in He.
  case_decide as Hd; [injection He as -> <-; by exists rest|].
  assert (Hin : t0 ∈ filter (λ u, due w tab u <= age w now) rest) by (rewrite He; set_solver).
  apply list_elem_of_filter in Hin as [? Hin]. rewrite Forall_forall in Hf'. specialize (Hf' t0 Hin). lia.
Qed.

Lemma queue_ok_tail w t rest (tab : gmap nat (timer CB ARG)) :
  queue_ok w (Timers (t :: rest) tab) -> queue_ok w (Timers rest tab).
Proof.
  intros [Hnd Hk Hs]. simpl in *. split; simpl.
  - by apply NoDup_cons in Hnd as [_ ?].
  - intros u Hu. apply Hk. set_solver.
  - by apply StronglySorted_inv in Hs as [? _].
Qed.

(** One turn of the loop on a timer that is due: its callback runs and it is armed again or not. *)
Lemma timer_turn w now s t0 e :
  queue_ok w (host_timers s) -> dues_ok w now (host_timers s) -> in_window w now ->
  expired w now (host_timers s) = t0 :: e ->
  exists s' r, (forall fuel ret, timer_loop fire (Datatypes.S fuel) now s ret = timer_loop fire fuel now s' (ret || r)) /\
    log s' = log s ++ [t0] /\ queue_ok w (host_timers s') /\ dues_ok w now (host_timers s') /\
    expired w now (host_timers s') = filter (λ u, u ∉ op_target <$> ops t0) e /\
    armed (host_timers s') = arm_fire now (armed (host_timers s)) t0.
Proof.
  intros Hok Hper Hw He. destruct (head_due w now _ t0 e Hok He) as (rest & Eq & Hdue & He').
  destruct (Hper t0 ltac:(rewrite He; left)) as (Hp & Hops & Hk).
  destruct (queue_known _ _ Hok t0 ltac:(rewrite Eq; left)) as (tm & Ht & Hwt). specialize (Hp tm Ht).
  set (ts0 := Timers rest (timer_table (host_timers s))). rewrite (surjective_timers (host_timers s)), Eq in Hok.
  pose proof (queue_nodup _ _ Hok) as [Hnt _]%NoDup_cons.
  destruct (run_ops_ok w now (ops t0) [t0] ts0) as (ts1 & Er & Hok1 & Ear1 & Eex1 & Hin1 & Hout1 & Hd1);
    [by eapply queue_ok_tail|done|by intros u ->%list_elem_of_singleton|done|].
  assert (Har : armed ts0 = delete t0 (armed (host_timers s))).
  { apply armed_delete; [|done]. intros u. rewrite Eq. simpl in Hnt. set_solver. }
  destruct (fire_ok t0 now (put_timers ts0 s) ts1) as (s1 & r & Ef & Eh & El); [by rewrite host_put|].
  rewrite log_put in El. rewrite Har in Ear1.
  assert (Harm : armed (host_timers s) !! t0 = Some tm) by (apply armed_lookup; split; [done|rewrite Eq; left]).
  assert (Hdues : forall ts', (forall u, u ∉ op_target <$> ops t0 -> u <> t0 -> timer_table ts' !! u = timer_table ts1 !! u) -> (forall u, is_Some (timer_table ts1 !! u) -> is_Some (timer_table ts' !! u)) ->
    expired w now ts' = expired w now ts1 -> dues_ok w now ts').
  { intros ts' Htab Hdom Ex u. rewrite Ex, Eex1, list_elem_of_filter. intros [Hout Hin]. unfold ts0 in Hin.
    assert (Hne : u <> t0). { intros ->. unfold expired in Hin. apply list_elem_of_filter in Hin as [_ Hin]. done. }
    destruct (Hper u) as (P1 & P2 & P3); [rewrite He; right; by rewrite <- He'|]. split; [|split; [done|]].
    - rewrite (Htab u Hout Hne), (proj1 (Hout1 u Hout)). done.
    - intros o Ho. apply Hdom, Hd1, P3, Ho. }
  (* what the loop does after the callback *)
  assert (Hloop : forall fuel ret, timer_loop fire (Datatypes.S fuel) now s ret =
    if 0 <? periodic_time tm then
      tm ← timer_table ts1 !! t0;
      if negb (bool_decide (t0 ∈ timer_queue ts1)) && (0 <? periodic_time tm) then
        ts ← insert_timer_in_queue t0 (Timers (timer_queue ts1)
               (<[t0 := Timer (u32 (now + periodic_time tm)) (periodic_time tm) (callback tm) (arg tm)]> (timer_table ts1)));
        timer_loop fire fuel now (put_timers ts s1) (ret || r)
      else timer_loop fire fuel now s1 (ret || r)
    else timer_loop fire fuel now s1 (ret || r)).
  { intros fuel ret. cbn [timer_loop]. rewrite Eq, Ht. cbn [mbind option_bind].
    rewrite (TIME_LT_age w), (proj2 (Z.ltb_ge _ _)) by (try done; by rewrite <- (due_lookup w (timer_table (host_timers s)) t0 tm)).
    fold ts0. rewrite Ef. cbn [mbind option_bind]. by rewrite Eh. }
  unfold arm_fire. rewrite Harm. rewrite <- Ear1.
  destruct (decide (0 < periodic_time tm ∧ t0 ∉ op_target <$> ops t0)) as [[Hpos Hout]|Hno].
  - destruct (Hout1 t0 Hout) as [Et1 Hq1]. simpl in Et1, Hq1.
    destruct (insert_later_ok w now ts1 t0 (Timer (u32 (now + periodic_time tm)) (periodic_time tm) (callback tm) (arg tm)))
      as (ts2 & Ei & Hok2 & Ear2 & Eex2 & Etab2 & _); [done|by rewrite Hq1|simpl; rewrite age_add; lia|].
    exists (put_timers ts2 s1), r. rewrite !host_put, log_put. split; [|split; [done|split; [done|split; [|split; [|done]]]]].
    + intros fuel ret. rewrite Hloop, (proj2 (Z.ltb_lt _ _)) by done. rewrite Et1, Ht. cbn [mbind option_bind].
      rewrite bool_decide_false by (by rewrite Hq1). cbn [negb andb]. rewrite (proj2 (Z.ltb_lt _ _)) by done. by rewrite Ei.
    + apply Hdues; [intros u _ Hne; rewrite Etab2; by rewrite lookup_insert_ne| |done].
      intros u Hu. rewrite Etab2. destruct (decide (u = t0)) as [->|]; [rewrite lookup_insert_eq; by eexists|by rewrite lookup_insert_ne].
    + rewrite Eex2, Eex1. unfold ts0. by rewrite He'.
  - exists s1, r. rewrite Eh. split; [|split; [done|split; [done|split; [by apply Hdues|split; [|done]]]]].
    + intros fuel ret. rewrite Hloop. destruct (Z.ltb_spec 0 (periodic_time tm)) as [Hpos|]; [|done].
      destruct (decide (t0 ∈ op_target <$> ops t0)) as [Hin|]; [|naive_solver].
      destruct (Hd1 t0) as [tm1 Htm1]; [by eexists|]. rewrite Htm1. cbn [mbind option_bind].
      destruct (Hin1 t0 Hin) as [Hq|(tm2 & Htm2 & Hz)]; [by rewrite bool_decide_true|].
      rewrite Htm1 in Htm2. injection Htm2 as <-. rewrite Hz. by rewrite andb_false_r.
    + rewrite Eex1. unfold ts0. by rewrite He'.
Qed.

(** The loop ends at the first timer that is not due. *)
Lemma timer_stop w now s ret fuel :
  queue_ok w (host_timers s) -> in_window w now -> expired w now (host_timers s) = [] ->
  timer_loop fire (Datatypes.S fuel) now s ret = Some (s, ret).
Proof.
  intros Hok Hw He. cbn [timer_loop]. destruct (timer_queue (host_timers s)) as [|t rest] eqn:Eq; [done|].
  destruct (queue_known _ _ Hok t ltac:(rewrite Eq; left)) as (tm & Ht & Hwt). rewrite Ht. cbn [mbind option_bind].
  rewrite (TIME_LT_age w), (proj2 (Z.ltb_lt _ _)); [done| |done..].
  unfold expired in He. rewrite Eq, filter_cons in He. case_decide; [done|]. rewrite (due_lookup _ _ _ tm) in * by done. lia.
Qed.

Lemma timer_loop_ok w now e : forall gone s ret fuel,
  queue_ok w (host_timers s) -> dues_ok w now (host_timers s) -> in_window w now ->
  expired w now (host_timers s) = filter (λ u, u ∉ gone) e -> (length e < fuel)%nat ->
  exists s' r, timer_loop fire fuel now s ret = Some (s', r) /\ log s' = log s ++ fires gone e /\
    queue_ok w (host_timers s') /\ expired w now (host_timers s') = [] /\
    armed (host_timers s') = foldl (arm_fire now) (armed (host_timers s)) (fires gone e).
Proof.
  induction e as [|t0 e IH]; intros gone s ret fuel Hok Hper Hw He Hf; simpl in He, Hf.
  - destruct fuel as [|fuel]; [lia|]. exists s, ret. rewrite (timer_stop w) by done. cbn [fires foldl]. by rewrite app_nil_r.
  - cbn [fires]. rewrite filter_cons in He. destruct (decide (t0 ∈ gone)) as [Hg|Hg].
    + rewrite decide_False in He by tauto. apply IH; [done..|lia].
    + rewrite decide_True in He by done. destruct fuel as [|fuel]; [lia|].
      destruct (timer_turn w now s t0 _ Hok Hper Hw He) as (s1 & r1 & -> & El1 & Hok1 & Hper1 & He1 & Ear1).
      destruct (IH (gone ++ (op_target <$> ops t0)) s1 (ret || r1) fuel) as (s2 & r2 & -> & El2 & Hok2 & He2 & Ear2); [done..| |lia|].
      { rewrite He1, list_filter_filter. apply list_filter_iff. intros u. rewrite not_elem_of_app. tauto. }
      exists s2, r2. cbn [foldl]. rewrite <- Ear1. split_and!; try done. by rewrite El2, El1, <- app_assoc.
Qed.

Variable sched_tick : S -> option (S * bool).
Hypothesis sched_ok : forall s, exists s' r,
  sched_tick s = Some (s', r) /\ host_timers s' = host_timers s /\ log s' = log s.

End Firing.

(** ** Witnesses *)

(** Timers 1 (one-shot), 2 (periodic) and 3 (late), across the wrap of the clock;
    the host records what fired. *)
Definition sample_timers : timers unit unit :=
  Timers [1; 2; 3]%nat
    (list_to_map [(1%nat, Timer (2 ^ 32 - 5) 0 (Some ()) (Some ()));
                  (2%nat, Timer 2 10 (Some ()) (Some ()));
                  (3%nat, Timer 100 0 (Some ()) (Some ()))]).

Definition sample_window : Z := 2 ^ 32 - 100.

#[local] Instance sample_host : TimerHost unit unit (timers unit unit * list nat) := {
  host_timers := fst;
  put_timers := λ ts s, (ts, snd s);
  host_put := λ ts s, eq_refl
}.

Lemma sample_queue_ok : queue_ok sample_window sample_timers.
Proof.
  split; simpl.
  - repeat constructor; set_solver.
  - intros t Ht. repeat (apply elem_of_cons in Ht as [->|Ht]; [eexists; split; [reflexivity|done]|]).
    by apply not_elem_of_nil in Ht.
  - repeat constructor; vm_compute; done.
Qed.

Lemma timer_set_ordered_witness :
  exists q1 q2 ts', timer_queue sample_timers = q1 ++ q2 /\
    timer_set 5 4%nat 20 0 () () sample_timers = Some ts' /\ timer_queue ts' = q1 ++ 4%nat :: q2 /\
    queue_ok sample_window ts' /\
    Forall (λ u, due sample_window (timer_table sample_timers) u <= age sample_window (u32 (5 + 20))) q1 /\
    Forall (λ u, age sample_window (u32 (5 + 20)) < due sample_window (timer_table sample_timers) u) q2.
Proof.
  apply (timer_set_ordered sample_window 5 4%nat 20 0 () () sample_timers);
    [exact sample_queue_ok|simpl; set_solver|done].
Defined.

Lemma timer_cancel_removes_witness :
  exists ts', timer_cancel 2%nat sample_timers = Some ts' /\ queue_ok sample_window ts' /\
    timer_queue ts' = filter (λ u, u <> 2%nat) (timer_queue sample_timers) /\
    (forall tm, timer_table ts' !! 2%nat = Some tm -> periodic_time tm = 0 /\ callback tm = None).
Proof.
  apply (timer_cancel_removes sample_window 2%nat sample_timers); [exact sample_queue_ok|].
  by eexists.
Defined.

(** Timers 1 (one-shot, cancels timer 4), 2 (periodic, left alone), 4 (due, but cancelled by then),
    5 (periodic, cancels itself), 6 (periodic, sets itself again) and 3 (late). *)
Definition busy_timers : timers unit unit :=
  Timers [1; 2; 4; 5; 6; 3]%nat
    (list_to_map [(1%nat, Timer (2 ^ 32 - 5) 0 (Some ()) (Some ()));
                  (2%nat, Timer 2 10 (Some ()) (Some ()));
                  (4%nat, Timer 2 0 (Some ()) (Some ()));
                  (5%nat, Timer 3 7 (Some ()) (Some ()));
                  (6%nat, Timer 3 8 (Some ()) (Some ()));
                  (3%nat, Timer 100 0 (Some ()) (Some ()))]).
Definition busy_ops (t : nat) : list (timer_op unit unit) :=
  match t with
  | 1%nat => [OpCancel 4]
  | 5%nat => [OpCancel 5]
  | 6%nat => [OpSet 4 6 20 5 () ()]
  | _ => []
  end.
Definition busy_fire (t : nat) (now : Z) (s : timers unit unit * list nat) :=
  ts ← run_ops (busy_ops t) (fst s); Some ((ts, snd s ++ [t]), true).

Lemma busy_queue_ok : queue_ok sample_window busy_timers.
Proof.
  split; simpl.
  - repeat constructor; set_solver.
  - intros t Ht. repeat (apply elem_of_cons in Ht as [->|Ht]; [eexists; split; [reflexivity|done]|]).
    by apply not_elem_of_nil in Ht.
  - repeat constructor; vm_compute; done.
Qed.
Lemma busy_dues_ok : dues_ok busy_ops sample_window 3 busy_timers.
Proof.
  intros t Ht. assert (E : expired sample_window 3 busy_timers = [1; 2; 4; 5; 6]%nat) by reflexivity. rewrite E in Ht.
  repeat (apply elem_of_cons in Ht as [->|Ht];
    [split; [intros tm [= <-]; vm_compute; split; congruence|split; [vm_compute; repeat split; set_solver|
       intros o Ho; repeat (apply elem_of_cons in Ho as [->|Ho]; [by eexists|]); by apply not_elem_of_nil in Ho]]|]).
  by apply not_elem_of_nil in Ht.
Qed.

