(* ===== verification/Thread.v ===== *)
(** * Threads, run queues and wait queues ([kernel/thread.c], [kernel/thread.h])

    The kernel runs one thread at a time and switches in [thread_resched], inside
    whatever kernel call the thread is executing; the rest of that call runs when
    the thread is scheduled again.  The model keeps this control flow: the part
    of a call that follows the switch is a list of [frame]s saved with the thread,
    innermost first, which the thread runs when it is resumed (see [Sync]).  A
    kernel call takes the frames of its callers, for the case that it switches,
    and its outcome is a return value or [Switched].

    Build configuration: [THREAD_CHECKS] is on, so that a failing [ASSERT], like a
    [panic], is the result [None]; [PLATFORM_HAS_DYNAMIC_TIMER] and [THREAD_STATS]
    are off.  The queues are the sequences of [ListNode]; a thread's
    [queue_node] is in a list when the thread is in one of the queues. *)
From stdpp Require Import base gmap list fin_maps.
From Stdlib Require Import ZArith Lia.
From S2P Require Import Prelude Timer.
#[local] Open Scope Z_scope.

Definition NO_ERROR : Z := 0.
Definition ERR_NOT_SUSPENDED : Z := -10.
Definition ERR_OBJECT_DESTROYED : Z := -11.
Definition ERR_NOT_BLOCKED : Z := -12.
Definition ERR_TIMED_OUT : Z := -13.
Definition INFINITE_TIME : Z := 2 ^ 32 - 1.

Definition NUM_PRIORITIES : Z := 32.
Definition LOWEST_PRIORITY : Z := 0.
Definition HIGHEST_PRIORITY : Z := NUM_PRIORITIES - 1.
Definition DPC_PRIORITY : Z := NUM_PRIORITIES - 2.
Definition IDLE_PRIORITY : Z := LOWEST_PRIORITY.
Definition DEFAULT_PRIORITY : Z := NUM_PRIORITIES / 2.
Definition DEFAULT_STACK_SIZE : Z := 8192.

Definition THREAD_MAGIC : Z := 0x74687264.
Definition WAIT_QUEUE_MAGIC : Z := 0x77616974.

Inductive thread_state :=
  | THREAD_SUSPENDED | THREAD_READY | THREAD_RUNNING
  | THREAD_BLOCKED | THREAD_SLEEPING | THREAD_DEATH.

#[export] Instance thread_state_eq_dec : EqDecision thread_state.
Proof. solve_decision. Defined.

(** What is left of a kernel call after the thread was switched out in it. *)
Inductive frame :=
  | FExit                             (* exit_critical_section(); the value is passed on *)
  | FReturn (r : Z)                   (* return r *)
  | FExitReturn (r : Z)               (* exit_critical_section(); return r *)
  | FWaitQueueBlock (timeout : Z)     (* the end of wait_queue_block *)
  | FWaitQueueDestroy (w : nat)       (* the end of wait_queue_destroy *)
  | FMutexAcquire (m : nat)           (* the end of mutex_acquire *)
  | FMutexAcquireTimeout (m : nat)    (* the end of mutex_acquire_timeout *)
  | FEventSignalOne (e : nat)         (* the end of event_signal, AUTOUNSIGNAL *)
  | FThreadExit                       (* panic("somehow fell through thread_exit()") *)
  | FInitialThread                    (* initial_thread_func *)
  | FIrqReturn.                       (* the end of arm_irq *)

(** [thread_t].  [t_frames] is the stack of pending calls, [t_ret] the value the
    last completed kernel call returned to the thread. *)
Record thread := Thread {
  t_magic : Z;
  t_name : list Z;
  t_priority : Z;
  t_state : thread_state;
  t_saved_cs : Z;
  t_quantum : Z;
  t_blocking : option nat;
  t_block_ret : Z;
  t_stack_size : Z;
  t_entry : nat;
  t_arg : Z;
  t_retcode : Z;
  t_frames : list frame;
  t_ret : Z
}.

(** [wait_queue_t], [mutex_t], [event_t] and [struct dpc]. *)
Record wait_queue := WaitQueue { w_magic : Z; w_list : list nat; w_count : Z }.
Record mutex := Mutex { m_magic : Z; m_count : Z; m_holder : option nat; m_wait : nat }.
Record event := Event { e_magic : Z; e_signalled : bool; e_flags : Z; e_wait : nat }.
Inductive dpc_callback := thread_cleanup_dpc | other_dpc (n : nat).
Record dpc := Dpc { dpc_cb : dpc_callback; dpc_arg : nat }.

(** The callbacks the kernel gives to its timers; the argument is a thread. *)
Inductive timer_callback := thread_sleep_handler | wait_queue_timeout_handler.

(** The kernel's global variables and the objects its clients created. *)
Record kstate := KState {
  threads : gmap nat thread;
  thread_list : list nat;
  current_thread : nat;
  critical_section_count : Z;
  run_queue : list (list nat);
  run_queue_bitmap : Z;
  idle_thread : option nat;
  wait_queues : gmap nat wait_queue;
  ktimers : timers timer_callback nat;
  mutexes : gmap nat mutex;
  events : gmap nat event;
  dpc_list : list dpc;
  current_time : Z
}.

Definition set_threads x s := KState x (thread_list s) (current_thread s) (critical_section_count s)
  (run_queue s) (run_queue_bitmap s) (idle_thread s) (wait_queues s) (ktimers s) (mutexes s)
  (events s) (dpc_list s) (current_time s).
Definition set_thread_list x s := KState (threads s) x (current_thread s) (critical_section_count s)
  (run_queue s) (run_queue_bitmap s) (idle_thread s) (wait_queues s) (ktimers s) (mutexes s)
  (events s) (dpc_list s) (current_time s).
Definition set_current x s := KState (threads s) (thread_list s) x (critical_section_count s)
  (run_queue s) (run_queue_bitmap s) (idle_thread s) (wait_queues s) (ktimers s) (mutexes s)
  (events s) (dpc_list s) (current_time s).
Definition set_cs x s := KState (threads s) (thread_list s) (current_thread s) x
  (run_queue s) (run_queue_bitmap s) (idle_thread s) (wait_queues s) (ktimers s) (mutexes s)
  (events s) (dpc_list s) (current_time s).
Definition set_run_queue q b s := KState (threads s) (thread_list s) (current_thread s)
  (critical_section_count s) q b (idle_thread s) (wait_queues s) (ktimers s) (mutexes s)
  (events s) (dpc_list s) (current_time s).
Definition set_idle x s := KState (threads s) (thread_list s) (current_thread s)
  (critical_section_count s) (run_queue s) (run_queue_bitmap s) x (wait_queues s) (ktimers s)
  (mutexes s) (events s) (dpc_list s) (current_time s).
Definition set_wait_queues x s := KState (threads s) (thread_list s) (current_thread s)
  (critical_section_count s) (run_queue s) (run_queue_bitmap s) (idle_thread s) x (ktimers s)
  (mutexes s) (events s) (dpc_list s) (current_time s).
Definition set_ktimers x s := KState (threads s) (thread_list s) (current_thread s)
  (critical_section_count s) (run_queue s) (run_queue_bitmap s) (idle_thread s) (wait_queues s) x
  (mutexes s) (events s) (dpc_list s) (current_time s).
Definition set_mutexes x s := KState (threads s) (thread_list s) (current_thread s)
  (critical_section_count s) (run_queue s) (run_queue_bitmap s) (idle_thread s) (wait_queues s)
  (ktimers s) x (events s) (dpc_list s) (current_time s).
Definition set_events x s := KState (threads s) (thread_list s) (current_thread s)
  (critical_section_count s) (run_queue s) (run_queue_bitmap s) (idle_thread s) (wait_queues s)
  (ktimers s) (mutexes s) x (dpc_list s) (current_time s).
Definition set_dpc_list x s := KState (threads s) (thread_list s) (current_thread s)
  (critical_section_count s) (run_queue s) (run_queue_bitmap s) (idle_thread s) (wait_queues s)
  (ktimers s) (mutexes s) (events s) x (current_time s).

(** Stores to the fields of a thread. *)
Definition with_name x t := Thread (t_magic t) x (t_priority t) (t_state t) (t_saved_cs t)
  (t_quantum t) (t_blocking t) (t_block_ret t) (t_stack_size t) (t_entry t) (t_arg t)
  (t_retcode t) (t_frames t) (t_ret t).
Definition with_priority x t := Thread (t_magic t) (t_name t) x (t_state t) (t_saved_cs t)
  (t_quantum t) (t_blocking t) (t_block_ret t) (t_stack_size t) (t_entry t) (t_arg t)
  (t_retcode t) (t_frames t) (t_ret t).
Definition with_state x t := Thread (t_magic t) (t_name t) (t_priority t) x (t_saved_cs t)
  (t_quantum t) (t_blocking t) (t_block_ret t) (t_stack_size t) (t_entry t) (t_arg t)
  (t_retcode t) (t_frames t) (t_ret t).
Definition with_saved_cs x t := Thread (t_magic t) (t_name t) (t_priority t) (t_state t) x
  (t_quantum t) (t_blocking t) (t_block_ret t) (t_stack_size t) (t_entry t) (t_arg t)
  (t_retcode t) (t_frames t) (t_ret t).
Definition with_quantum x t := Thread (t_magic t) (t_name t) (t_priority t) (t_state t)
  (t_saved_cs t) x (t_blocking t) (t_block_ret t) (t_stack_size t) (t_entry t) (t_arg t)
  (t_retcode t) (t_frames t) (t_ret t).
Definition with_blocking x r t := Thread (t_magic t) (t_name t) (t_priority t) (t_state t)
  (t_saved_cs t) (t_quantum t) x r (t_stack_size t) (t_entry t) (t_arg t)
  (t_retcode t) (t_frames t) (t_ret t).
Definition with_retcode x t := Thread (t_magic t) (t_name t) (t_priority t) (t_state t)
  (t_saved_cs t) (t_quantum t) (t_blocking t) (t_block_ret t) (t_stack_size t) (t_entry t)
  (t_arg t) x (t_frames t) (t_ret t).
Definition with_frames x t := Thread (t_magic t) (t_name t) (t_priority t) (t_state t)
  (t_saved_cs t) (t_quantum t) (t_blocking t) (t_block_ret t) (t_stack_size t) (t_entry t)
  (t_arg t) (t_retcode t) x (t_ret t).
Definition with_ret x t := Thread (t_magic t) (t_name t) (t_priority t) (t_state t)
  (t_saved_cs t) (t_quantum t) (t_blocking t) (t_block_ret t) (t_stack_size t) (t_entry t)
  (t_arg t) (t_retcode t) (t_frames t) x.

Definition upd (t : nat) (f : thread -> thread) (s : kstate) : kstate :=
  set_threads (alter f t (threads s)) s.
Arguments upd : simpl never.

(** [ASSERT(b)]: a failure is a panic. *)
Definition ASSERT (b : bool) : option unit := if b then Some () else None.

(** ** Critical sections: interrupts are enabled when the count is zero *)
Definition enter_critical_section (s : kstate) : kstate := set_cs (critical_section_count s + 1) s.
Definition exit_critical_section (s : kstate) : kstate := set_cs (critical_section_count s - 1) s.
Definition in_critical_section (s : kstate) : bool := 0 <? critical_section_count s.

(** [list_in_list(&t->queue_node)]. *)
Definition queued (t : nat) (s : kstate) : bool :=
  bool_decide (Exists (λ q, t ∈ q) (run_queue s)) ||
  bool_decide (map_Exists (λ _ w, t ∈ w_list w) (wait_queues s)).

(** ** Run queues *)
Definition insert_in_run_queue (at_head : bool) (t : nat) (s : kstate) : option kstate :=
  th ← threads s !! t;
  _ ← ASSERT (t_magic th =? THREAD_MAGIC);
  _ ← ASSERT (bool_decide (t_state th = THREAD_READY));
  _ ← ASSERT (negb (queued t s));
  _ ← ASSERT (in_critical_section s);
  _ ← ASSERT (0 <=? t_priority th);
  q ← run_queue s !! Z.to_nat (t_priority th);
  Some (set_run_queue (<[Z.to_nat (t_priority th) := if at_head then t :: q else q ++ [t]]> (run_queue s))
          (Z.lor (run_queue_bitmap s) (Z.shiftl 1 (t_priority th))) s).

Definition insert_in_run_queue_head (t : nat) (s : kstate) := insert_in_run_queue true t s.
Definition insert_in_run_queue_tail (t : nat) (s : kstate) := insert_in_run_queue false t s.

(** [strlcpy(t->name, name, 32)]. *)
Definition thread_name (name : list Z) : list Z := take 31 name.

(** [init_thread_struct] on a structure cleared to zero. *)
Definition init_thread_struct (name : list Z) : thread :=
  Thread THREAD_MAGIC (thread_name name) 0 THREAD_SUSPENDED 0 0 None 0 0 0 0 0 [] 0.

(** [thread_create]; the two [malloc]s give the address of the thread, or fail,
    and a stack, or fail.  [arch_thread_initialize] makes the thread start in
    [initial_thread_func]. *)
Definition thread_create (mem : option nat) (stack_ok : bool) (name : list Z) (entry : nat)
    (arg priority stack_size : Z) (s : kstate) : option nat * kstate :=
  match mem with
  | None => (None, s)
  | Some t =>
      if negb stack_ok then (None, s) else
      let th := init_thread_struct name in
      let th := Thread (t_magic th) (t_name th) priority THREAD_SUSPENDED 1 (t_quantum th) None
                  NO_ERROR stack_size entry arg (t_retcode th) [FInitialThread] 0 in
      let s := set_threads (<[t := th]> (threads s)) s in
      let s := enter_critical_section s in
      let s := set_thread_list (t :: thread_list s) s in
      (Some t, exit_critical_section s)
  end.

(** [__builtin_clz] on a non-zero 32-bit word. *)
Definition clz32 (w : Z) : Z := 31 - Z.log2 w.

(** [thread_resched]; [k] are the frames the switched-out thread is left with. *)
Definition thread_resched (k : list frame) (s : kstate) : option kstate :=
  _ ← ASSERT (in_critical_section s);
  let oldthread := current_thread s in
  _ ← ASSERT (NUM_PRIORITIES <=? 32);
  _ ← ASSERT (negb (run_queue_bitmap s =? 0));
  let next_queue := HIGHEST_PRIORITY - clz32 (run_queue_bitmap s) - (32 - NUM_PRIORITIES) in
  q ← run_queue s !! Z.to_nat next_queue;
  match q with
  | [] => None (* ASSERT(newthread) *)
  | newthread :: rest =>
      let bitmap := match rest with
                    | [] => Z.land (run_queue_bitmap s) (Z.lnot (Z.shiftl 1 next_queue))
                    | _ => run_queue_bitmap s
                    end in
      let s := set_run_queue (<[Z.to_nat next_queue := rest]> (run_queue s)) bitmap s in
      th ← threads s !! newthread;
      let s := upd newthread (with_state THREAD_RUNNING) s in
      let s := upd oldthread (with_frames k) s in
      if decide (newthread = oldthread) then Some s else
      let s := upd newthread (with_quantum (if t_quantum th <=? 0 then 5 else t_quantum th)) s in
      _ ← ASSERT (0 <? critical_section_count s);
      _ ← ASSERT (0 <? t_saved_cs th);
      let s := upd oldthread (with_saved_cs (critical_section_count s)) s in
      let s := set_current newthread s in
      Some (set_cs (t_saved_cs th) s)
  end.

(** The assertions at the head of most calls. *)
Definition check_current (st : thread_state) (s : kstate) : option thread :=
  th ← threads s !! current_thread s;
  _ ← ASSERT (t_magic th =? THREAD_MAGIC);
  _ ← ASSERT (bool_decide (t_state th = st));
  Some th.

Definition thread_yield (k : list frame) (s : kstate) : option kstate :=
  th ← check_current THREAD_RUNNING s;
  let s := enter_critical_section s in
  let s := upd (current_thread s) (with_state THREAD_READY) s in
  let s := upd (current_thread s) (with_quantum 0) s in
  s ← insert_in_run_queue_tail (current_thread s) s;
  thread_resched (FExit :: k) s.

Definition thread_preempt (k : list frame) (s : kstate) : option kstate :=
  th ← check_current THREAD_RUNNING s;
  let s := enter_critical_section s in
  let s := upd (current_thread s) (with_state THREAD_READY) s in
  s ← (if 0 <? t_quantum th then insert_in_run_queue_head (current_thread s) s
       else insert_in_run_queue_tail (current_thread s) s);
  thread_resched (FExit :: k) s.

Definition thread_block (k : list frame) (s : kstate) : option kstate :=
  th ← check_current THREAD_BLOCKED s;
  let s := enter_critical_section s in
  thread_resched (FExit :: k) s.

(** The outcome of a call that may switch. *)
Inductive outcome := Ret (r : Z) | Switched.

Definition switching (r : option kstate) : option (kstate * outcome) :=
  s ← r; Some (s, Switched).

Definition thread_resume (t : nat) (k : list frame) (s : kstate) : option (kstate * outcome) :=
  th ← threads s !! t;
  _ ← ASSERT (t_magic th =? THREAD_MAGIC);
  _ ← ASSERT (negb (bool_decide (t_state th = THREAD_DEATH)));
  if bool_decide (t_state th = THREAD_READY) || bool_decide (t_state th = THREAD_RUNNING)
  then Some (s, Ret ERR_NOT_SUSPENDED) else
  let s := enter_critical_section s in
  let s := upd t (with_state THREAD_READY) s in
  s ← insert_in_run_queue_head t s;
  switching (thread_yield (FExitReturn NO_ERROR :: k) s).

(** [thread_timer_tick]; [true] is [INT_RESCHEDULE]. *)
Definition thread_timer_tick (s : kstate) : option (kstate * bool) :=
  if bool_decide (Some (current_thread s) = idle_thread s) then Some (s, false) else
  th ← threads s !! current_thread s;
  let s := upd (current_thread s) (with_quantum (t_quantum th - 1)) s in
  Some (s, t_quantum th - 1 <=? 0).

(** The callback of [thread_sleep]. *)
Definition run_thread_sleep_handler (t : nat) (s : kstate) : option (kstate * bool) :=
  th ← threads s !! t;
  _ ← ASSERT (t_magic th =? THREAD_MAGIC);
  _ ← ASSERT (bool_decide (t_state th = THREAD_SLEEPING));
  let s := upd t (with_state THREAD_READY) s in
  s ← insert_in_run_queue_head t s;
  Some (s, true).

(** The [timer_t] on the stack of a thread that sleeps or waits is known by the
    number of the thread: a thread is in one such call at a time. *)
Definition thread_sleep (delay : Z) (k : list frame) (s : kstate) : option kstate :=
  th ← check_current THREAD_RUNNING s;
  let s := set_ktimers (timer_initialize (current_thread s) (ktimers s)) s in
  let s := enter_critical_section s in
  ts ← timer_set_oneshot (current_time s) (current_thread s) delay thread_sleep_handler
         (current_thread s) (ktimers s);
  let s := set_ktimers ts s in
  let s := upd (current_thread s) (with_state THREAD_SLEEPING) s in
  thread_resched (FExit :: k) s.

Definition thread_set_name (name : list Z) (s : kstate) : kstate :=
  upd (current_thread s) (with_name (thread_name name)) s.

Definition thread_set_priority (priority : Z) (s : kstate) : kstate :=
  let priority := if priority <? LOWEST_PRIORITY then LOWEST_PRIORITY else priority in
  let priority := if HIGHEST_PRIORITY <? priority then HIGHEST_PRIORITY else priority in
  upd (current_thread s) (with_priority priority) s.

(** [thread_become_idle] up to the idle loop, which does nothing. *)
Definition thread_become_idle (s : kstate) : kstate :=
  let s := thread_set_name [105; 100; 108; 101] s in
  let s := thread_set_priority IDLE_PRIORITY s in
  set_idle (Some (current_thread s)) s.

(** [thread_init_early]: the bootstrap thread is thread 0. *)
Definition thread_init_early (now : Z) : kstate :=
  let t := init_thread_struct [98; 111; 111; 116; 115; 116; 114; 97; 112] in
  let t := with_priority HIGHEST_PRIORITY t in
  let t := with_state THREAD_RUNNING t in
  let t := with_saved_cs 1 t in
  KState {[ 0%nat := t ]} [0%nat] 0%nat 1 (replicate 32 []) 0 None ∅ timer_init ∅ ∅ [] now.

(** ** Wait queues *)
Definition wait_queue_init (w : nat) (s : kstate) : kstate :=
  set_wait_queues (<[w := WaitQueue WAIT_QUEUE_MAGIC [] 0]> (wait_queues s)) s.

Definition check_wait_queue (w : nat) (s : kstate) : option wait_queue :=
  wq ← wait_queues s !! w;
  _ ← ASSERT (w_magic wq =? WAIT_QUEUE_MAGIC);
  Some wq.

Definition wait_queue_block (w : nat) (timeout : Z) (k : list frame) (s : kstate)
  : option (kstate * outcome) :=
  wq ← check_wait_queue w s;
  th ← threads s !! current_thread s;
  _ ← ASSERT (bool_decide (t_state th = THREAD_RUNNING));
  _ ← ASSERT (in_critical_section s);
  if timeout =? 0 then Some (s, Ret ERR_TIMED_OUT) else
  let t := current_thread s in
  let s := set_wait_queues
             (<[w := WaitQueue (w_magic wq) (w_list wq ++ [t]) (w_count wq + 1)]> (wait_queues s)) s in
  let s := upd t (with_state THREAD_BLOCKED) s in
  let s := upd t (with_blocking (Some w) NO_ERROR) s in
  s ← (if negb (timeout =? INFINITE_TIME) then
         ts ← timer_set_oneshot (current_time s) t timeout wait_queue_timeout_handler t
                (timer_initialize t (ktimers s));
         Some (set_ktimers ts s)
       else Some s);
  switching (thread_block (FWaitQueueBlock timeout :: k) s).

(** What follows [thread_block] in [wait_queue_block]. *)
Definition wait_queue_block_end (timeout : Z) (s : kstate) : option (kstate * Z) :=
  s ← (if negb (timeout =? INFINITE_TIME) then
         ts ← timer_cancel (current_thread s) (ktimers s); Some (set_ktimers ts s)
       else Some s);
  th ← threads s !! current_thread s;
  Some (s, t_block_ret th).

(** Making the first thread [t] of a wait queue ready: the stores that
    [wait_queue_wake_one] and the loop of [wait_queue_wake_all] share. *)
Definition wake_head (w : nat) (wq : wait_queue) (t : nat) (rest : list nat) (err : Z) (s : kstate)
  : option kstate :=
  let s := set_wait_queues (<[w := WaitQueue (w_magic wq) rest (w_count wq - 1)]> (wait_queues s)) s in
  th ← threads s !! t;
  _ ← ASSERT (bool_decide (t_state th = THREAD_BLOCKED));
  let s := upd t (with_state THREAD_READY) s in
  Some (upd t (with_blocking None err) s).

(** Putting the current thread back at the head of its run queue. *)
Definition requeue_current (s : kstate) : option kstate :=
  let s := upd (current_thread s) (with_state THREAD_READY) s in
  insert_in_run_queue_head (current_thread s) s.

Definition wait_queue_wake_one (w : nat) (reschedule : bool) (err : Z) (k : list frame) (s : kstate)
  : option (kstate * outcome) :=
  wq ← check_wait_queue w s;
  _ ← ASSERT (in_critical_section s);
  match w_list wq with
  | [] => Some (s, Ret 0)
  | t :: rest =>
      s ← wake_head w wq t rest err s;
      s ← (if reschedule then requeue_current s else Some s);
      s ← insert_in_run_queue_head t s;
      if reschedule then switching (thread_resched (FReturn 1 :: k) s) else Some (s, Ret 1)
  end.

(** The loop of [wait_queue_wake_all]: it pops until the list is empty. *)
Fixpoint wake_loop (l : list nat) (w : nat) (err : Z) (s : kstate) (ret : Z) : option (kstate * Z) :=
  match l with
  | [] => Some (s, ret)
  | t :: rest =>
      wq ← wait_queues s !! w;
      s ← wake_head w wq t rest err s;
      s ← insert_in_run_queue_head t s;
      wake_loop rest w err s (ret + 1)
  end.

Definition wait_queue_wake_all (w : nat) (reschedule : bool) (err : Z) (k : list frame) (s : kstate)
  : option (kstate * outcome) :=
  wq ← check_wait_queue w s;
  _ ← ASSERT (in_critical_section s);
  s ← (if reschedule && (0 <? w_count wq) then requeue_current s else Some s);
  '(s, ret) ← wake_loop (w_list wq) w err s 0;
  wq ← wait_queues s !! w;
  _ ← ASSERT (w_count wq =? 0);
  if reschedule && (0 <? ret) then switching (thread_resched (FReturn ret :: k) s)
  else Some (s, Ret ret).

(** The end of [wait_queue_destroy]. *)
Definition wait_queue_destroy_end (w : nat) (s : kstate) : option kstate :=
  wq ← wait_queues s !! w;
  Some (set_wait_queues (<[w := WaitQueue 0 (w_list wq) (w_count wq)]> (wait_queues s)) s).

Definition wait_queue_destroy (w : nat) (reschedule : bool) (k : list frame) (s : kstate)
  : option (kstate * outcome) :=
  wq ← check_wait_queue w s;
  _ ← ASSERT (in_critical_section s);
  '(s, o) ← wait_queue_wake_all w reschedule ERR_OBJECT_DESTROYED (FWaitQueueDestroy w :: k) s;
  match o with
  | Switched => Some (s, Switched)
  | Ret r => s ← wait_queue_destroy_end w s; Some (s, Ret 0)
  end.

(** [thread_unblock_from_wait_queue]: the return when the thread is not blocked
    leaves the critical section entered. *)
Definition thread_unblock_from_wait_queue (t : nat) (reschedule : bool) (err : Z) (k : list frame)
    (s : kstate) : option (kstate * outcome) :=
  let s := enter_critical_section s in
  th ← threads s !! t;
  _ ← ASSERT (t_magic th =? THREAD_MAGIC);
  if negb (bool_decide (t_state th = THREAD_BLOCKED)) then Some (s, Ret ERR_NOT_BLOCKED) else
  w ← t_blocking th;
  wq ← check_wait_queue w s;
  _ ← ASSERT (queued t s);
  let s := set_wait_queues
             (<[w := WaitQueue (w_magic wq) (queue_delete t (w_list wq)) (w_count wq - 1)]>
                (wait_queues s)) s in
  let s := upd t (with_blocking None err) s in
  let s := upd t (with_state THREAD_READY) s in
  s ← insert_in_run_queue_head t s;
  if reschedule then switching (thread_resched (FExitReturn NO_ERROR :: k) s)
  else Some (exit_critical_section s, Ret NO_ERROR).

(** The callback of a wait with a timeout. *)
Definition run_wait_queue_timeout_handler (t : nat) (s : kstate) : option (kstate * bool) :=
  th ← threads s !! t;
  _ ← ASSERT (t_magic th =? THREAD_MAGIC);
  '(s, o) ← thread_unblock_from_wait_queue t false ERR_TIMED_OUT [] s;
  Some (s, match o with Ret r => NO_ERROR <=? r | Switched => true end).
