(* ===== verification/ThreadInv.v ===== *)
(** * The invariant of the scheduler ([kernel/thread.c])

    [qinv] is the queue discipline, [kinv] the invariant between kernel calls; the
    moves of threads between the queues preserve the first, and the lemmas on
    [insert_in_run_queue], [thread_resched] and the wait queues show that the
    calls of [Thread] succeed (no assertion fails) and preserve the second. *)
From stdpp Require Import base gmap list fin_maps.
From Stdlib Require Import ZArith Lia.
From S2P Require Import Prelude Timer Thread.
#[local] Open Scope Z_scope.

(** ** The queue discipline

    What the queues depend on in a thread: *)
Record tview := TV { v_magic : Z; v_prio : Z; v_state : thread_state; v_block : option nat }.
Definition view_thread (th : thread) : tview :=
  TV (t_magic th) (t_priority th) (t_state th) (t_blocking th).
Definition view (s : kstate) : gmap nat tview := view_thread <$> threads s.

Definition v_with_state (x : thread_state) (v : tview) : tview := TV (v_magic v) (v_prio v) x (v_block v).
Definition v_with_block (b : option nat) (v : tview) : tview := TV (v_magic v) (v_prio v) (v_state v) b.

(** Each thread is in exactly the queue its state says: ready threads in the run
    queue of their priority, blocked ones in the wait queue they block on, the
    others in none; the bitmap has the bits of the non-empty run queues. *)
Record qinv (v : gmap nat tview) (rq : list (list nat)) (bm : Z) (wqs : gmap nat wait_queue) : Prop := {
  q_len : length rq = 32%nat;
  q_thread : forall t tv, v !! t = Some tv -> v_magic tv = THREAD_MAGIC /\ 0 <= v_prio tv < 32;
  q_nodup : forall p q, rq !! p = Some q -> NoDup q;
  q_ready : forall p q t, rq !! p = Some q ->
    (t ∈ q <-> exists tv, v !! t = Some tv /\ v_state tv = THREAD_READY /\ v_prio tv = Z.of_nat p);
  q_bits : 0 <= bm < 2 ^ 32;
  q_bitmap : forall p q, rq !! p = Some q -> (Z.testbit bm (Z.of_nat p) = true <-> q <> []);
  q_wait : forall w wq, wqs !! w = Some wq ->
    NoDup (w_list wq) /\ w_count wq = Z.of_nat (length (w_list wq)) /\
    forall t, t ∈ w_list wq <->
      exists tv, v !! t = Some tv /\ v_state tv = THREAD_BLOCKED /\ v_block tv = Some w;
  q_blocked : forall t tv, v !! t = Some tv -> v_state tv = THREAD_BLOCKED ->
    exists w, v_block tv = Some w /\ is_Some (wqs !! w)
}.

Definition idle_state (x : thread_state) : Prop := x <> THREAD_READY /\ x <> THREAD_BLOCKED.

(** *** Bits *)
Lemma testbit_set bm p i :
  0 <= p -> 0 <= i -> Z.testbit (Z.lor bm (Z.shiftl 1 p)) i = Z.testbit bm i || (i =? p).
Proof.
  intros Hp Hi. rewrite Z.lor_spec, Z.shiftl_spec by lia. f_equal.
  destruct (Z.eqb_spec i p) as [->|Hne]; [by rewrite Z.sub_diag|].
  destruct (Z.le_gt_cases p i) as [|Hlt]; [|by rewrite Z.testbit_neg_r by lia].
  destruct (i - p) eqn:E; try lia. by destruct p0.
Qed.

Lemma testbit_clear bm p i :
  0 <= p -> 0 <= i ->
  Z.testbit (Z.land bm (Z.lnot (Z.shiftl 1 p))) i = Z.testbit bm i && negb (i =? p).
Proof.
  intros Hp Hi. rewrite Z.land_spec, Z.lnot_spec by lia. do 2 f_equal.
  pose proof (testbit_set 0 p i Hp Hi) as E. by rewrite Z.lor_0_l, Z.testbit_0_l in E.
Qed.

Lemma bits_bound x n : 0 <= n -> 0 <= x -> (forall i, n <= i -> Z.testbit x i = false) -> x < 2 ^ n.
Proof.
  intros Hn Hx Hb. destruct (Z.eq_dec x 0) as [->|Hne]; [apply Z.pow_pos_nonneg; lia|].
  apply Z.log2_lt_pow2; [lia|].
  destruct (Z.lt_ge_cases (Z.log2 x) n) as [|Hge]; [done|].
  specialize (Hb (Z.log2 x) Hge). rewrite Z.bit_log2 in Hb by lia. done.
Qed.

Lemma testbit_high x n i : 0 <= x < 2 ^ n -> n <= i -> Z.testbit x i = false.
Proof.
  intros Hx Hi. destruct (Z.eq_dec x 0) as [->|Hne]; [apply Z.testbit_0_l|].
  apply Z.bits_above_log2; [lia|]. assert (Z.log2 x < n) by (apply Z.log2_lt_pow2; lia). lia.
Qed.

Lemma bitmap_set_bound bm p : 0 <= bm < 2 ^ 32 -> 0 <= p < 32 -> 0 <= Z.lor bm (Z.shiftl 1 p) < 2 ^ 32.
Proof.
  intros Hb Hp. assert (0 <= Z.lor bm (Z.shiftl 1 p)).
  { apply Z.lor_nonneg. split; [lia|]. apply Z.shiftl_nonneg. lia. }
  split; [done|]. apply bits_bound; [lia|done|]. intros i Hi.
  rewrite testbit_set by lia. rewrite (testbit_high bm 32) by lia.
  by rewrite (proj2 (Z.eqb_neq i p)) by lia.
Qed.

Lemma bitmap_clear_bound bm p : 0 <= bm < 2 ^ 32 -> 0 <= p < 32 ->
  0 <= Z.land bm (Z.lnot (Z.shiftl 1 p)) < 2 ^ 32.
Proof.
  intros Hb Hp. assert (0 <= Z.land bm (Z.lnot (Z.shiftl 1 p))) by (apply Z.land_nonneg; lia).
  split; [done|]. apply bits_bound; [lia|done|]. intros i Hi.
  rewrite testbit_clear by lia. by rewrite (testbit_high bm 32) by lia.
Qed.

(** *** The moves between the queues *)
Section Moves.
Context (v : gmap nat tview) (rq : list (list nat)) (bm : Z) (wqs : gmap nat wait_queue).
Hypothesis Q : qinv v rq bm wqs.

Lemma idle_not_queued t tv :
  v !! t = Some tv -> idle_state (v_state tv) ->
  (forall p q, rq !! p = Some q -> t ∉ q) /\ (forall w wq, wqs !! w = Some wq -> t ∉ w_list wq).
Proof.
  intros Ht [H1 H2]. split.
  - intros p q Hp Hin. apply (q_ready _ _ _ _ Q p q t Hp) in Hin as (? & ? & ? & ?). congruence.
  - intros w wq Hw Hin. apply (q_wait _ _ _ _ Q w wq Hw) in Hin as (? & ? & ? & ?). congruence.
Qed.

Lemma prio_queue t tv : v !! t = Some tv -> exists q, rq !! Z.to_nat (v_prio tv) = Some q.
Proof.
  intros Ht. destruct (q_thread _ _ _ _ Q t tv Ht) as [_ Hp].
  apply lookup_lt_is_Some. rewrite (q_len _ _ _ _ Q). lia.
Qed.

(** A thread outside the queues changes to another state outside them. *)
Lemma move_idle t tv x b :
  v !! t = Some tv -> idle_state (v_state tv) -> idle_state x ->
  qinv (<[t := TV (v_magic tv) (v_prio tv) x b]> v) rq bm wqs.
Proof.
  intros Ht Hi Hx. destruct (idle_not_queued t tv Ht Hi) as [Hr Hw]. destruct Q. split; try done.
  - intros u uv. destruct (decide (u = t)) as [->|].
    + rewrite lookup_insert_eq. intros [= <-]. simpl. by eauto.
    + rewrite lookup_insert_ne by done. by eauto.
  - intros p q u Hp. rewrite (q_ready0 p q u Hp). destruct (decide (u = t)) as [->|].
    + rewrite lookup_insert_eq. split; intros (uv & ? & ? & ?); simplify_eq/=; destruct Hi, Hx; congruence.
    + by rewrite lookup_insert_ne.
  - intros w wq Hq. destruct (q_wait0 w wq Hq) as (? & ? & Hl). split_and!; try done.
    intros u. rewrite Hl. destruct (decide (u = t)) as [->|].
    + rewrite lookup_insert_eq. split; intros (uv & ? & ? & ?); simplify_eq/=; destruct Hi, Hx; congruence.
    + by rewrite lookup_insert_ne.
  - intros u uv. destruct (decide (u = t)) as [->|].
    + rewrite lookup_insert_eq. intros [= <-]. simpl. destruct Hx; congruence.
    + rewrite lookup_insert_ne by done. by eauto.
Qed.

(** A thread outside the queues becomes ready, at either end of its run queue. *)
Lemma move_ready (at_head : bool) t tv q b :
  v !! t = Some tv -> idle_state (v_state tv) -> rq !! Z.to_nat (v_prio tv) = Some q ->
  qinv (<[t := TV (v_magic tv) (v_prio tv) THREAD_READY b]> v)
       (<[Z.to_nat (v_prio tv) := if at_head then t :: q else q ++ [t]]> rq)
       (Z.lor bm (Z.shiftl 1 (v_prio tv))) wqs.
Proof.
  intros Ht Hi Hq. destruct (idle_not_queued t tv Ht Hi) as [Hr Hw].
  destruct (q_thread _ _ _ _ Q t tv Ht) as [Hm Hp].
  assert (Hlt : (Z.to_nat (v_prio tv) < length rq)%nat) by (eapply lookup_lt_Some; done).
  assert (Hin : forall u, u ∈ (if at_head then t :: q else q ++ [t]) <-> u = t \/ u ∈ q)
    by (intros u; destruct at_head; set_solver).
  destruct Q. split.
  - by rewrite length_insert.
  - intros u uv. destruct (decide (u = t)) as [->|].
    + rewrite lookup_insert_eq. intros [= <-]. simpl. by eauto.
    + rewrite lookup_insert_ne by done. by eauto.
  - intros p q' Hp'. apply list_lookup_insert_Some in Hp' as [(<- & <- & _)|[_ ?]]; [|by eauto].
    assert (NoDup (t :: q)) by (constructor; by eauto).
    destruct at_head; [done|]. by rewrite <- Permutation_cons_append.
  - intros p q' u Hp'. apply list_lookup_insert_Some in Hp' as [(<- & <- & _)|[Hne Hp']].
    + rewrite Hin, (q_ready0 _ q u Hq). destruct (decide (u = t)) as [->|].
      * rewrite lookup_insert_eq. split; [|by left]. intros _. eexists. split; [done|]. simpl. split; [done|lia].
      * rewrite lookup_insert_ne by done. naive_solver.
    + rewrite (q_ready0 p q' u Hp'). destruct (decide (u = t)) as [->|].
      * rewrite lookup_insert_eq. split; intros (uv & ? & ? & ?); simplify_eq/=; [destruct Hi; congruence|lia].
      * by rewrite lookup_insert_ne.
  - by apply bitmap_set_bound.
  - intros p q' Hp'. rewrite testbit_set by lia.
    apply list_lookup_insert_Some in Hp' as [(<- & <- & _)|[Hne Hp']].
    + rewrite Z2Nat.id, Z.eqb_refl, orb_true_r by lia. destruct at_head; by destruct q.
    + rewrite (proj2 (Z.eqb_neq _ _)) by lia. rewrite orb_false_r. by eauto.
  - intros w wq Hwq. destruct (q_wait0 w wq Hwq) as (? & ? & Hl). split_and!; try done.
    intros u. rewrite Hl. destruct (decide (u = t)) as [->|].
    + rewrite lookup_insert_eq. split; intros (uv & ? & ? & ?); simplify_eq/=; destruct Hi; congruence.
    + by rewrite lookup_insert_ne.
  - intros u uv. destruct (decide (u = t)) as [->|].
    + rewrite lookup_insert_eq. by intros [= <-].
    + rewrite lookup_insert_ne by done. by eauto.
Qed.

(** The first thread of a run queue is taken out of it. *)
Lemma move_run p t rest tv x :
  rq !! p = Some (t :: rest) -> v !! t = Some tv -> idle_state x ->
  qinv (<[t := v_with_state x tv]> v) (<[p := rest]> rq)
       (match rest with [] => Z.land bm (Z.lnot (Z.shiftl 1 (Z.of_nat p))) | _ => bm end) wqs.
Proof.
  intros Hp Ht Hx.
  assert (Hlt : (p < length rq)%nat) by (eapply lookup_lt_Some; done).
  assert (Hst : v_state tv = THREAD_READY /\ v_prio tv = Z.of_nat p).
  { destruct (proj1 (q_ready _ _ _ _ Q p _ t Hp) ltac:(set_solver)) as (uv & ? & ? & ?). by simplify_eq. }
  pose proof (q_nodup _ _ _ _ Q p _ Hp) as [Hnt Hnd]%NoDup_cons.
  pose proof (q_len _ _ _ _ Q) as Hlen. destruct Q. split.
  - by rewrite length_insert.
  - intros u uv. destruct (decide (u = t)) as [->|].
    + rewrite lookup_insert_eq. intros [= <-]. simpl. by eauto.
    + rewrite lookup_insert_ne by done. by eauto.
  - intros i q' Hp'. apply list_lookup_insert_Some in Hp' as [(<- & <- & _)|[_ ?]]; by eauto.
  - intros i q' u Hp'. apply list_lookup_insert_Some in Hp' as [(<- & <- & _)|[Hne Hp']].
    + destruct (decide (u = t)) as [->|].
      * rewrite lookup_insert_eq. split; [done|]. intros (uv & ? & ? & ?). simplify_eq/=. destruct Hx; congruence.
      * rewrite lookup_insert_ne by done. rewrite <- (q_ready0 p _ u Hp). set_solver.
    + rewrite (q_ready0 i q' u Hp'). destruct (decide (u = t)) as [->|].
      * rewrite lookup_insert_eq. split; intros (uv & ? & ? & ?); simplify_eq/=; [lia|destruct Hx; congruence].
      * by rewrite lookup_insert_ne.
  - destruct rest; [apply bitmap_clear_bound; [done|lia]|done].
  - intros i q' Hp'. apply list_lookup_insert_Some in Hp' as [(<- & <- & _)|[Hne Hp']].
    + destruct rest; [rewrite testbit_clear by lia; by rewrite Z.eqb_refl, andb_false_r|].
      by rewrite (q_bitmap0 p _ Hp).
    + destruct rest; [|by eauto]. rewrite testbit_clear, (proj2 (Z.eqb_neq _ _)), andb_true_r by lia. by eauto.
  - intros w wq Hwq. destruct (q_wait0 w wq Hwq) as (? & ? & Hl). split_and!; try done.
    intros u. rewrite Hl. destruct (decide (u = t)) as [->|].
    + rewrite lookup_insert_eq. destruct Hst, Hx. split; intros (uv & ? & ? & ?); simplify_eq/=; congruence.
    + by rewrite lookup_insert_ne.
  - intros u uv. destruct (decide (u = t)) as [->|].
    + rewrite lookup_insert_eq. intros [= <-]. simpl. destruct Hx; congruence.
    + rewrite lookup_insert_ne by done. by eauto.
Qed.

(** A thread outside the queues blocks at the tail of a wait queue. *)
Lemma move_block t tv w wq mg :
  v !! t = Some tv -> idle_state (v_state tv) -> wqs !! w = Some wq ->
  qinv (<[t := TV (v_magic tv) (v_prio tv) THREAD_BLOCKED (Some w)]> v) rq bm
       (<[w := WaitQueue mg (w_list wq ++ [t]) (w_count wq + 1)]> wqs).
Proof.
  intros Ht Hi Hwq. destruct (idle_not_queued t tv Ht Hi) as [Hr Hw]. destruct Q. split; try done.
  - intros u uv. destruct (decide (u = t)) as [->|].
    + rewrite lookup_insert_eq. intros [= <-]. simpl. by eauto.
    + rewrite lookup_insert_ne by done. by eauto.
  - intros p q u Hp. rewrite (q_ready0 p q u Hp). destruct (decide (u = t)) as [->|].
    + rewrite lookup_insert_eq. split; intros (uv & ? & ? & ?); simplify_eq/=; destruct Hi; congruence.
    + by rewrite lookup_insert_ne.
  - intros w' wq'. destruct (decide (w' = w)) as [->|Hne].
    + rewrite lookup_insert_eq. intros [= <-]. simpl. destruct (q_wait0 w wq Hwq) as (? & Hc & Hl).
      split_and!.
      * rewrite <- Permutation_cons_append. constructor; by eauto.
      * rewrite length_app. simpl. lia.
      * intros u. rewrite elem_of_app, list_elem_of_singleton, Hl. destruct (decide (u = t)) as [->|].
        -- rewrite lookup_insert_eq. split; [by eexists|by right].
        -- rewrite lookup_insert_ne by done. naive_solver.
    + rewrite lookup_insert_ne by done. intros Hq. destruct (q_wait0 w' wq' Hq) as (? & ? & Hl).
      split_and!; try done. intros u. rewrite Hl. destruct (decide (u = t)) as [->|].
      * rewrite lookup_insert_eq. split; intros (uv & ? & ? & ?); simplify_eq/=; destruct Hi; congruence.
      * by rewrite lookup_insert_ne.
  - intros u uv. destruct (decide (u = t)) as [->|].
    + rewrite lookup_insert_eq. intros [= <-] _. simpl. eexists. split; [done|].
      rewrite lookup_insert_eq. by eexists.
    + rewrite lookup_insert_ne by done. intros Hu Hb. destruct (q_blocked0 u uv Hu Hb) as (w' & ? & ?).
      exists w'. split; [done|]. destruct (decide (w = w')) as [->|]; [by rewrite lookup_insert_eq|by rewrite lookup_insert_ne].
Qed.

(** A blocked thread is taken out of its wait queue. *)
Lemma move_unblock t tv w wq l mg x b :
  v !! t = Some tv -> wqs !! w = Some wq -> t ∈ w_list wq -> w_list wq ≡ₚ t :: l -> idle_state x ->
  qinv (<[t := TV (v_magic tv) (v_prio tv) x b]> v) rq bm
       (<[w := WaitQueue mg l (w_count wq - 1)]> wqs).
Proof.
  intros Ht Hwq Hin Hl Hx.
  destruct (q_wait _ _ _ _ Q w wq Hwq) as (Hnd & Hc & Hq).
  pose proof (proj1 (Hq t) Hin) as (tv' & Ht' & Hst & Hbl). rewrite Ht in Ht'. injection Ht' as <-.
  rewrite Hl in Hnd. apply NoDup_cons in Hnd as [Hnt Hnd].
  destruct Q. split; try done.
  - intros u uv. destruct (decide (u = t)) as [->|].
    + rewrite lookup_insert_eq. intros [= <-]. simpl. by eauto.
    + rewrite lookup_insert_ne by done. by eauto.
  - intros p q u Hp. rewrite (q_ready0 p q u Hp). destruct (decide (u = t)) as [->|].
    + rewrite lookup_insert_eq. split; intros (uv & ? & ? & ?); simplify_eq/=; destruct Hx; congruence.
    + by rewrite lookup_insert_ne.
  - intros w' wq'. destruct (decide (w' = w)) as [->|Hne].
    + rewrite lookup_insert_eq. intros [= <-]. simpl. split_and!; [done| |].
      * rewrite Hc, Hl. simpl. lia.
      * intros u. destruct (decide (u = t)) as [->|].
        -- rewrite lookup_insert_eq. split; [done|]. intros (uv & ? & ? & ?). simplify_eq/=. destruct Hx; congruence.
        -- rewrite lookup_insert_ne by done. rewrite <- Hq, Hl. set_solver.
    + rewrite lookup_insert_ne by done. intros Hq'. destruct (q_wait0 w' wq' Hq') as (? & ? & Hl').
      split_and!; try done. intros u. rewrite Hl'. destruct (decide (u = t)) as [->|].
      * rewrite lookup_insert_eq. split; intros (uv & ? & ? & ?); simplify_eq/=; destruct Hx; congruence.
      * by rewrite lookup_insert_ne.
  - intros u uv. destruct (decide (u = t)) as [->|].
    + rewrite lookup_insert_eq. intros [= <-]. simpl. destruct Hx; congruence.
    + rewrite lookup_insert_ne by done. intros Hu Hb. destruct (q_blocked0 u uv Hu Hb) as (w' & ? & ?).
      exists w'. split; [done|]. destruct (decide (w = w')) as [->|]; [by rewrite lookup_insert_eq|by rewrite lookup_insert_ne].
Qed.
End Moves.

(** ** The kernel invariant

    [kgood r s]: the queue discipline; [r] is the thread whose state is
    [THREAD_RUNNING], none inside a call that is about to reschedule; every
    thread that is switched out was inside a critical section; the idle thread
    exists, has the lowest priority and can run. *)
Definition kq (s : kstate) : Prop :=
  qinv (view s) (run_queue s) (run_queue_bitmap s) (wait_queues s).

Record kgood (r : option nat) (s : kstate) : Prop := {
  k_queues : kq s;
  k_current : is_Some (threads s !! current_thread s);
  k_running : forall t th, threads s !! t = Some th -> (t_state th = THREAD_RUNNING <-> r = Some t);
  k_saved : forall t th, threads s !! t = Some th -> t <> current_thread s -> 0 < t_saved_cs th;
  k_idle : exists i th, idle_thread s = Some i /\ threads s !! i = Some th /\
    t_priority th = IDLE_PRIORITY /\ (t_state th = THREAD_READY \/ t_state th = THREAD_RUNNING)
}.

(** Between kernel calls the current thread is the one that runs. *)
Definition kinv (s : kstate) : Prop := kgood (Some (current_thread s)) s.

(** *** Evaluating the fields of an updated state *)
Lemma upd_thread_list t g s : thread_list (upd t g s) = thread_list s. Proof. done. Qed.
Lemma upd_current_thread t g s : current_thread (upd t g s) = current_thread s. Proof. done. Qed.
Lemma upd_critical_section_count t g s : critical_section_count (upd t g s) = critical_section_count s. Proof. done. Qed.
Lemma upd_run_queue t g s : run_queue (upd t g s) = run_queue s. Proof. done. Qed.
Lemma upd_run_queue_bitmap t g s : run_queue_bitmap (upd t g s) = run_queue_bitmap s. Proof. done. Qed.
Lemma upd_idle_thread t g s : idle_thread (upd t g s) = idle_thread s. Proof. done. Qed.
Lemma upd_wait_queues t g s : wait_queues (upd t g s) = wait_queues s. Proof. done. Qed.
Lemma upd_ktimers t g s : ktimers (upd t g s) = ktimers s. Proof. done. Qed.
Lemma upd_mutexes t g s : mutexes (upd t g s) = mutexes s. Proof. done. Qed.
Lemma upd_events t g s : events (upd t g s) = events s. Proof. done. Qed.
Lemma upd_dpc_list t g s : dpc_list (upd t g s) = dpc_list s. Proof. done. Qed.
Lemma upd_current_time t g s : current_time (upd t g s) = current_time s. Proof. done. Qed.
Create HintDb kernel.
#[export] Hint Rewrite upd_thread_list upd_current_thread upd_critical_section_count upd_run_queue upd_run_queue_bitmap upd_idle_thread upd_wait_queues upd_ktimers upd_mutexes upd_events upd_dpc_list upd_current_time : kernel.
Ltac kfields := cbn [threads thread_list current_thread critical_section_count run_queue
  run_queue_bitmap idle_thread wait_queues ktimers mutexes events dpc_list current_time
  set_threads set_thread_list set_current set_cs set_run_queue set_idle set_wait_queues
  set_ktimers set_mutexes set_events set_dpc_list enter_critical_section exit_critical_section].
Ltac kbind := cbn [mbind option_bind ASSERT negb].
Ltac ksimpl := kfields; autorewrite with kernel; kfields.

(** *** How the stores change the view *)
Lemma view_lookup s t th : threads s !! t = Some th -> view s !! t = Some (view_thread th).
Proof. intros H. unfold view. by rewrite lookup_fmap, H. Qed.

Lemma view_lookup_inv s t tv :
  view s !! t = Some tv -> exists th, threads s !! t = Some th /\ tv = view_thread th.
Proof. unfold view. rewrite lookup_fmap. intros (th & ? & ?)%fmap_Some. eauto. Qed.

Lemma view_upd t f s th :
  threads s !! t = Some th -> view (upd t f s) = <[t := view_thread (f th)]> (view s).
Proof.
  intros H. unfold view, upd. simpl. apply map_eq. intros u. rewrite lookup_fmap.
  destruct (decide (u = t)) as [->|].
  - by rewrite lookup_alter_eq, lookup_insert_eq, H.
  - by rewrite lookup_alter_ne, lookup_insert_ne, lookup_fmap by done.
Qed.

Lemma view_upd_neutral t f s :
  (forall th, view_thread (f th) = view_thread th) -> view (upd t f s) = view s.
Proof.
  intros Hf. unfold view, upd. simpl. apply map_eq. intros u. rewrite !lookup_fmap.
  destruct (decide (u = t)) as [->|].
  - rewrite lookup_alter_eq. destruct (threads s !! t); simpl; [by rewrite Hf|done].
  - by rewrite lookup_alter_ne by done.
Qed.

Lemma upd_lookup t f s th : threads s !! t = Some th -> threads (upd t f s) !! t = Some (f th).
Proof. intros H. unfold upd. simpl. by rewrite lookup_alter_eq, H. Qed.

Lemma upd_lookup_ne t u f s : u <> t -> threads (upd t f s) !! u = threads s !! u.
Proof. intros H. unfold upd. simpl. by rewrite lookup_alter_ne. Qed.

(** A store to a thread that changes none of the fields the invariant is about. *)
Lemma kgood_upd r t f s :
  (forall th, view_thread (f th) = view_thread th) ->
  (forall th, t_saved_cs (f th) = t_saved_cs th) -> kgood r s -> kgood r (upd t f s).
Proof.
  intros Hv Hs [Q C R S (i & th & Hi & Ht & Hp & Hst)]. split.
  - unfold kq. by rewrite view_upd_neutral.
  - change (current_thread (upd t f s)) with (current_thread s).
    destruct (decide (current_thread s = t)) as [<-|].
    + destruct C as [th' C]. erewrite upd_lookup by done. by eexists.
    + by rewrite upd_lookup_ne.
  - intros u uth. destruct (decide (u = t)) as [->|]; [|rewrite upd_lookup_ne by done; apply R].
    unfold upd. simpl. rewrite lookup_alter_eq. intros (th' & H' & ->)%fmap_Some.
    specialize (Hv th'). injection Hv as _ _ E _. rewrite E. by apply R.
  - intros u uth. destruct (decide (u = t)) as [->|]; [|rewrite upd_lookup_ne by done; apply S].
    unfold upd. simpl. rewrite lookup_alter_eq. intros (th' & H' & ->)%fmap_Some. rewrite Hs. by apply S.
  - destruct (decide (i = t)) as [->|].
    + exists t, (f th). erewrite upd_lookup by done.
      specialize (Hv th). injection Hv as _ E1 E2 _. by rewrite E1, E2.
    + exists i, th. by rewrite upd_lookup_ne.
Qed.

(** The invariant does not depend on the critical-section count, the timers, the
    mutexes, the events and the deferred calls. *)
Lemma kgood_ext r s s' :
  threads s' = threads s -> current_thread s' = current_thread s -> run_queue s' = run_queue s ->
  run_queue_bitmap s' = run_queue_bitmap s -> idle_thread s' = idle_thread s ->
  wait_queues s' = wait_queues s -> kgood r s -> kgood r s'.
Proof.
  intros E1 E2 E3 E4 E5 E6 [Q C R S I].
  split; unfold kq, view in *; rewrite ?E1, ?E2, ?E3, ?E4, ?E5, ?E6; done.
Qed.

(** *** Stores to threads *)
Lemma upd_upd t f g s : upd t f (upd t g s) = upd t (λ th, f (g th)) s.
Proof. unfold upd, set_threads. simpl. f_equal. apply map_eq. intros u.
  destruct (decide (u = t)) as [->|]; simplify_map_eq; [by destruct (threads s !! t)|done].
Qed.

Lemma upd_comm t u f g s : t <> u -> upd t f (upd u g s) = upd u g (upd t f s).
Proof.
  intros Hne. unfold upd, set_threads. simpl. f_equal. apply map_eq. intros v.
  destruct (decide (v = t)), (decide (v = u)); subst; by simplify_map_eq.
Qed.

(** What a queue insertion reads is the inserted thread alone. *)
Lemma insert_upd_comm b t u f s s' :
  t <> u -> insert_in_run_queue b t s = Some s' ->
  insert_in_run_queue b t (upd u f s) = Some (upd u f s').
Proof.
  intros Hne. unfold insert_in_run_queue. rewrite upd_lookup_ne by done.
  change (queued t (upd u f s)) with (queued t s).
  change (in_critical_section (upd u f s)) with (in_critical_section s).
  change (run_queue (upd u f s)) with (run_queue s).
  destruct (threads s !! t) as [th|]; [|done]. simpl. intros H.
  do 5 (apply bind_Some in H as ([] & E & H); rewrite E; simpl; clear E).
  apply bind_Some in H as (q & E & H). rewrite E. simpl. by simplify_eq.
Qed.

Lemma not_queued s t th :
  kq s -> threads s !! t = Some th -> idle_state (t_state th) -> queued t s = false.
Proof.
  intros Q Ht Hi. destruct (idle_not_queued _ _ _ _ Q t _ (view_lookup _ _ _ Ht) Hi) as [Hr Hw].
  unfold queued. rewrite !bool_decide_false; [done| |].
  - intros (w & wq & Hl & Hin). by eapply Hw.
  - intros (q & Hq & Hin)%Exists_exists. apply list_elem_of_lookup in Hq as [p Hp]. by eapply Hr.
Qed.

(** *** A thread becomes ready *)
Definition readied (b : bool) (t : nat) (th : thread) (q : list nat) (s : kstate) : kstate :=
  set_run_queue (<[Z.to_nat (t_priority th) := if b then t :: q else q ++ [t]]> (run_queue s))
    (Z.lor (run_queue_bitmap s) (Z.shiftl 1 (t_priority th))) (upd t (with_state THREAD_READY) s).

Definition stopped (t : nat) (r : option nat) : option nat := if decide (r = Some t) then None else r.

Lemma stopped_spec t r u : stopped t r = Some u <-> r = Some u /\ u <> t.
Proof. unfold stopped. case_decide; naive_solver. Qed.

(** One thread is stored to and the queues are still in order. *)
Lemma kgood_store r r' t f th s s' :
  kgood r s -> threads s !! t = Some th -> kq s' ->
  threads s' = threads (upd t f s) -> current_thread s' = current_thread s ->
  idle_thread s' = idle_thread s -> t_saved_cs (f th) = t_saved_cs th ->
  (t_state (f th) = THREAD_RUNNING <-> r' = Some t) ->
  (forall u, u <> t -> r' = Some u <-> r = Some u) ->
  (idle_thread s = Some t -> t_priority th = IDLE_PRIORITY -> t_priority (f th) = IDLE_PRIORITY /\
     (t_state (f th) = THREAD_READY \/ t_state (f th) = THREAD_RUNNING)) ->
  kgood r' s'.
Proof.
  intros [Q C R S I] Ht Q' E1 E2 E3 Hsv Hr Hru Hid. split; [done|..]; rewrite ?E1, ?E2, ?E3.
  - destruct (decide (current_thread s = t)) as [->|]; [|by rewrite upd_lookup_ne].
    erewrite upd_lookup by done. by eexists.
  - intros u uth. destruct (decide (u = t)) as [->|].
    + erewrite upd_lookup by done. by intros [= <-].
    + rewrite upd_lookup_ne, Hru by done. apply R.
  - intros u uth. destruct (decide (u = t)) as [->|].
    + erewrite upd_lookup by done. intros [= <-]. rewrite Hsv. exact (S t th Ht).
    + rewrite upd_lookup_ne by done. apply S.
  - destruct I as (i & ith & Hi & Hith & Hip & Hist). destruct (decide (i = t)) as [->|].
    + eexists t, _. erewrite upd_lookup by done. destruct (Hid Hi) as [? ?]; [congruence|]. done.
    + exists i, ith. by rewrite upd_lookup_ne.
Qed.

Lemma ready_ok b r s t th :
  kgood r s -> threads s !! t = Some th -> idle_state (t_state th) -> 0 < critical_section_count s ->
  exists q, run_queue s !! Z.to_nat (t_priority th) = Some q /\
    insert_in_run_queue b t (upd t (with_state THREAD_READY) s) = Some (readied b t th q s) /\
    kgood (stopped t r) (readied b t th q s).
Proof.
  intros K Ht Hi Hcs. pose proof (view_lookup _ _ _ Ht) as Hv. pose proof (k_queues _ _ K) as Q.
  destruct (prio_queue _ _ _ _ Q t _ Hv) as [q Hq]. destruct (q_thread _ _ _ _ Q t _ Hv) as [Hm Hp].
  cbn in Hq, Hm, Hp. exists q. split; [done|]. split.
  - unfold insert_in_run_queue. rewrite (upd_lookup _ _ _ th) by done. cbn -[upd].
    rewrite Hm. cbn -[upd]. change (queued t (upd t (with_state THREAD_READY) s)) with (queued t s).
    rewrite (not_queued s t th) by done. unfold in_critical_section. ksimpl.
    rewrite (proj2 (Z.ltb_lt _ _)), (proj2 (Z.leb_le _ _)) by lia. cbn -[upd].
    by rewrite Hq.
  - eapply (kgood_store r _ t (with_state THREAD_READY) th s); try done.
    + unfold kq, readied. ksimpl. change (view (set_run_queue ?a ?b ?s)) with (view s).
      rewrite (view_upd _ _ _ th) by done.
      by apply (move_ready _ _ _ _ Q b t (view_thread th) q (t_blocking th)).
    + rewrite stopped_spec. cbn. split; [done|by intros [_ ?]].
    + intros u Hu. rewrite stopped_spec. tauto.
    + cbn. auto.
Qed.

(** *** A thread stops running, blocks, or is taken out of a wait queue *)
Lemma stop_ok r s t th x :
  kgood r s -> threads s !! t = Some th -> idle_state (t_state th) -> idle_state x ->
  x <> THREAD_RUNNING -> idle_thread s <> Some t ->
  kgood (stopped t r) (upd t (with_state x) s).
Proof.
  intros K Ht Hi Hx Hr Hid. eapply (kgood_store r _ t (with_state x) th s); try done.
  - unfold kq. ksimpl. rewrite (view_upd _ _ _ th) by done.
    by apply (move_idle _ _ _ _ (k_queues _ _ K) t (view_thread th)); [apply view_lookup|..].
  - rewrite stopped_spec. cbn. split; [done|by intros [_ ?]].
  - intros u Hu. rewrite stopped_spec. tauto.
Qed.

Definition blocked_on (w : nat) (wq : wait_queue) (t : nat) (s : kstate) : kstate :=
  upd t (with_blocking (Some w) NO_ERROR) (upd t (with_state THREAD_BLOCKED)
    (set_wait_queues (<[w := WaitQueue (w_magic wq) (w_list wq ++ [t]) (w_count wq + 1)]> (wait_queues s)) s)).

Lemma blocked_kinv r s t th w wq :
  kgood r s -> threads s !! t = Some th -> idle_state (t_state th) -> wait_queues s !! w = Some wq ->
  idle_thread s <> Some t -> kgood (stopped t r) (blocked_on w wq t s).
Proof.
  intros K Ht Hi Hw Hid. unfold blocked_on. rewrite upd_upd.
  eapply (kgood_store r _ t (λ th, with_blocking (Some w) NO_ERROR (with_state THREAD_BLOCKED th)) th s);
    try done.
  - unfold kq. ksimpl. rewrite (view_upd _ _ _ th) by done.
    by apply (move_block _ _ _ _ (k_queues _ _ K) t (view_thread th)); [apply view_lookup|..].
  - rewrite stopped_spec. cbn. split; [done|by intros [_ ?]].
  - intros u Hu. rewrite stopped_spec. tauto.
Qed.

(** The thread between the wait queue and the run queue: the code has already
    stored its next state; the invariant holds with any state outside the queues. *)
Definition taken_from (w : nat) (mg : Z) (l : list nat) (n : Z) (t : nat) (err : Z) (s : kstate) : kstate :=
  upd t (with_blocking None err) (upd t (with_state THREAD_SUSPENDED)
    (set_wait_queues (<[w := WaitQueue mg l n]> (wait_queues s)) s)).

Lemma take_ok r s t w wq l err :
  kgood r s -> wait_queues s !! w = Some wq -> t ∈ w_list wq -> w_list wq ≡ₚ t :: l ->
  exists th, threads s !! t = Some th /\ t_state th = THREAD_BLOCKED /\ t_magic th = THREAD_MAGIC /\
    t_blocking th = Some w /\ r <> Some t /\
    kgood r (taken_from w (w_magic wq) l (w_count wq - 1) t err s).
Proof.
  intros K Hw Hin Hl. pose proof (k_queues _ _ K) as Q.
  destruct (q_wait _ _ _ _ Q w wq Hw) as (_ & _ & Hq).
  destruct (proj1 (Hq t) Hin) as (tv & (th & Ht & ->)%view_lookup_inv & Hst & Hbl). cbn in Hst, Hbl.
  destruct (q_thread _ _ _ _ Q t _ (view_lookup _ _ _ Ht)) as [Hm _].
  assert (Hr : r <> Some t).
  { intros E. apply (k_running _ _ K t th Ht) in E. congruence. }
  exists th. split_and!; try done.
  unfold taken_from. rewrite upd_upd.
  eapply (kgood_store r _ t (λ th, with_blocking None err (with_state THREAD_SUSPENDED th)) th s); try done.
  - unfold kq. ksimpl. rewrite (view_upd _ _ _ th) by done.
    by apply (move_unblock _ _ _ _ Q t (view_thread th) w wq l); [apply view_lookup|..].
  - intros Hi _. destruct (k_idle _ _ K) as (i & ith & ? & ? & _ & [?|?]); simplify_eq; congruence.
Qed.

(** *** The reschedule *)

(** The thread a reschedule picks: the first of the non-empty run queue of the
    highest priority. *)
Definition next_thread (rq : list (list nat)) (p t : nat) (rest : list nat) : Prop :=
  rq !! p = Some (t :: rest) /\ forall p' q, (p < p')%nat -> rq !! p' = Some q -> q = [].

(** The critical-section count that belongs to a thread: the kernel's own for the
    current thread, the saved one for the others. *)
Definition count_of (s : kstate) (u : nat) : option Z :=
  if decide (u = current_thread s) then Some (critical_section_count s)
  else t_saved_cs <$> threads s !! u.

(** What [thread_resched] changes: the picked thread [t] runs, the old one keeps
    the frames [k] and its critical-section count, everything else is left alone. *)
Record resched_to (k : list frame) (t : nat) (s s' : kstate) : Prop := {
  rs_next : exists p rest, next_thread (run_queue s) p t rest /\ run_queue s' = <[p := rest]> (run_queue s);
  rs_current : current_thread s' = t;
  rs_threads : forall u th, threads s !! u = Some th -> exists th', threads s' !! u = Some th' /\
    view_thread th' = (if decide (u = t) then v_with_state THREAD_RUNNING (view_thread th)
                       else view_thread th) /\
    t_frames th' = (if decide (u = current_thread s) then k else t_frames th) /\
    t_ret th' = t_ret th /\ t_block_ret th' = t_block_ret th;
  rs_dom : forall u, is_Some (threads s' !! u) <-> is_Some (threads s !! u);
  rs_cs : 0 < critical_section_count s';
  rs_count : forall u, is_Some (threads s !! u) -> count_of s' u = count_of s u;
  rs_same : wait_queues s' = wait_queues s /\ idle_thread s' = idle_thread s /\ ktimers s' = ktimers s /\
    mutexes s' = mutexes s /\ events s' = events s /\ dpc_list s' = dpc_list s /\
    thread_list s' = thread_list s /\ current_time s' = current_time s
}.

Lemma top_queue s :
  kgood None s -> exists p t rest, next_thread (run_queue s) p t rest /\
    run_queue_bitmap s <> 0 /\ Z.of_nat p = Z.log2 (run_queue_bitmap s) /\ (p < 32)%nat.
Proof.
  intros K. pose proof (k_queues _ _ K) as Q. destruct (k_idle _ _ K) as (i & ith & _ & Hi & Hp & Hst).
  assert (Hrd : t_state ith = THREAD_READY).
  { destruct Hst as [|Hst]; [done|]. by apply (k_running _ _ K i ith Hi) in Hst. }
  destruct (prio_queue _ _ _ _ Q i _ (view_lookup _ _ _ Hi)) as [q0 Hq0]. cbn in Hq0. rewrite Hp in Hq0.
  assert (Hin : i ∈ q0).
  { apply (q_ready _ _ _ _ Q _ _ i Hq0). eexists. split; [by apply view_lookup|]. done. }
  assert (Hbit : Z.testbit (run_queue_bitmap s) 0 = true).
  { apply (q_bitmap _ _ _ _ Q (Z.to_nat IDLE_PRIORITY) q0 Hq0). by destruct q0; [apply not_elem_of_nil in Hin|]. }
  assert (Hnz : run_queue_bitmap s <> 0). { intros E. by rewrite E in Hbit. }
  pose proof (q_bits _ _ _ _ Q) as Hb. pose proof (q_len _ _ _ _ Q) as Hlen.
  pose proof (Z.log2_nonneg (run_queue_bitmap s)).
  assert (Z.log2 (run_queue_bitmap s) < 32) by (apply Z.log2_lt_pow2; lia).
  destruct (lookup_lt_is_Some_2 (run_queue s) (Z.to_nat (Z.log2 (run_queue_bitmap s)))) as [q Hq]; [lia|].
  assert (Hne : q <> []).
  { apply (q_bitmap _ _ _ _ Q _ q Hq). rewrite Z2Nat.id by lia. apply Z.bit_log2. lia. }
  destruct q as [|t rest]; [done|]. exists (Z.to_nat (Z.log2 (run_queue_bitmap s))), t, rest.
  split; [split; [done|]|split_and!; [done|lia|lia]].
  intros p' q' Hp' Hq'. destruct q' as [|x q']; [done|]. exfalso.
  assert (E : Z.testbit (run_queue_bitmap s) (Z.of_nat p') = true) by (by apply (q_bitmap _ _ _ _ Q _ _ Hq')).
  rewrite Z.bits_above_log2 in E by lia. done.
Qed.

(** The state [thread_resched] reaches. *)
Definition switched (k : list frame) (p t : nat) (rest : list nat) (th : thread) (s : kstate) : kstate :=
  let bitmap := match rest with
                | [] => Z.land (run_queue_bitmap s) (Z.lnot (Z.shiftl 1 (Z.of_nat p)))
                | _ => run_queue_bitmap s
                end in
  let s1 := upd (current_thread s) (with_frames k)
              (upd t (with_state THREAD_RUNNING) (set_run_queue (<[p := rest]> (run_queue s)) bitmap s)) in
  if decide (t = current_thread s) then s1 else
  set_cs (t_saved_cs th) (set_current t (upd (current_thread s) (with_saved_cs (critical_section_count s))
    (upd t (with_quantum (if t_quantum th <=? 0 then 5 else t_quantum th)) s1))).

Lemma thread_resched_eq k p t rest th s :
  run_queue s !! p = Some (t :: rest) -> run_queue_bitmap s <> 0 ->
  Z.of_nat p = Z.log2 (run_queue_bitmap s) -> 0 < critical_section_count s ->
  threads s !! t = Some th -> (t <> current_thread s -> 0 < t_saved_cs th) ->
  thread_resched k s = Some (switched k p t rest th s).
Proof.
  intros Hq Hb Hp Hcs Ht Hsv. unfold thread_resched, in_critical_section.
  change (NUM_PRIORITIES <=? 32) with true.
  rewrite (proj2 (Z.ltb_lt _ _)), (proj2 (Z.eqb_neq _ _)) by done. kbind.
  replace (HIGHEST_PRIORITY - clz32 (run_queue_bitmap s) - (32 - NUM_PRIORITIES)) with (Z.of_nat p)
    by (unfold clz32, HIGHEST_PRIORITY, NUM_PRIORITIES; lia).
  rewrite Nat2Z.id, Hq. kbind. ksimpl. rewrite Ht. kbind. unfold switched.
  destruct (decide (t = current_thread s)) as [->|Hne]; [done|]. ksimpl.
  rewrite !(proj2 (Z.ltb_lt _ _)) by auto. done.
Qed.

Lemma upd_lookup_Some t f s u th :
  threads s !! u = Some th -> threads (upd t f s) !! u = Some (if decide (u = t) then f th else th).
Proof. intros H. case_decide; subst; [by apply upd_lookup|by rewrite upd_lookup_ne]. Qed.

Lemma upd_lookup_is_Some t f s u : is_Some (threads (upd t f s) !! u) <-> is_Some (threads s !! u).
Proof.
  destruct (decide (u = t)) as [->|]; [|by rewrite upd_lookup_ne].
  unfold upd. simpl. rewrite lookup_alter_eq, fmap_is_Some. done.
Qed.

Section Switched.
Context (k : list frame) (p t : nat) (rest : list nat) (th : thread) (s : kstate).
Hypothesis K : kgood None s.
Hypothesis Hn : next_thread (run_queue s) p t rest.
Hypothesis Ht : threads s !! t = Some th.
Hypothesis Hcs : 0 < critical_section_count s.

Lemma switched_threads u uth :
  threads s !! u = Some uth -> exists uth', threads (switched k p t rest th s) !! u = Some uth' /\
    view_thread uth' = (if decide (u = t) then v_with_state THREAD_RUNNING (view_thread uth)
                        else view_thread uth) /\
    t_frames uth' = (if decide (u = current_thread s) then k else t_frames uth) /\
    t_ret uth' = t_ret uth /\ t_block_ret uth' = t_block_ret uth /\
    (u <> t -> 0 < t_saved_cs uth').
Proof.
  intros Hu. pose proof (k_saved _ _ K u uth Hu) as Hsv. unfold switched.
  destruct (decide (t = current_thread s)) as [E|E]; ksimpl.
  - eexists. split; [do 2 apply upd_lookup_Some; exact Hu|].
    repeat case_decide; subst; split_and!; try done; cbn; auto; congruence.
  - eexists. split; [do 4 apply upd_lookup_Some; exact Hu|].
    repeat case_decide; subst; split_and!; try done; cbn; auto; congruence.
Qed.

Lemma switched_dom u : is_Some (threads (switched k p t rest th s) !! u) <-> is_Some (threads s !! u).
Proof. unfold switched. destruct (decide (t = current_thread s)); ksimpl; by rewrite !upd_lookup_is_Some. Qed.

Lemma switched_fields :
  run_queue (switched k p t rest th s) = <[p := rest]> (run_queue s) /\
  current_thread (switched k p t rest th s) = t /\
  run_queue_bitmap (switched k p t rest th s) =
    (match rest with [] => Z.land (run_queue_bitmap s) (Z.lnot (Z.shiftl 1 (Z.of_nat p)))
                   | _ => run_queue_bitmap s end).
Proof. unfold switched. destruct (decide (t = current_thread s)); ksimpl; done. Qed.

Lemma switched_same :
  let s' := switched k p t rest th s in
  wait_queues s' = wait_queues s /\ idle_thread s' = idle_thread s /\ ktimers s' = ktimers s /\
  mutexes s' = mutexes s /\ events s' = events s /\ dpc_list s' = dpc_list s /\
  thread_list s' = thread_list s /\ current_time s' = current_time s.
Proof. cbv zeta. unfold switched. destruct (decide (t = current_thread s)); ksimpl; done. Qed.

Lemma switched_view : view (switched k p t rest th s) = <[t := v_with_state THREAD_RUNNING (view_thread th)]> (view s).
Proof.
  apply map_eq. intros u. unfold view at 1. rewrite lookup_fmap.
  destruct (threads s !! u) as [uth|] eqn:Hu.
  - destruct (switched_threads u uth Hu) as (uth' & -> & Hv & _). simpl. rewrite Hv.
    case_decide as E; [subst; rewrite lookup_insert_eq; congruence|].
    rewrite lookup_insert_ne by done. symmetry. by apply view_lookup.
  - destruct (threads (switched k p t rest th s) !! u) eqn:E.
    + assert (is_Some (threads s !! u)) as [? ?] by (apply switched_dom; by eexists). congruence.
    + simpl. rewrite lookup_insert_ne by congruence. unfold view. by rewrite lookup_fmap, Hu.
Qed.

Lemma switched_count u :
  is_Some (threads s !! u) -> count_of (switched k p t rest th s) u = count_of s u.
Proof.
  intros [uth Hu]. unfold count_of, switched.
  destruct (decide (t = current_thread s)) as [E|E]; ksimpl.
  - case_decide; [done|]. erewrite !upd_lookup_Some by (try apply upd_lookup_Some; exact Hu).
    rewrite Hu. simpl. repeat case_decide; done.
  - destruct (decide (u = t)) as [->|Hne].
    + rewrite decide_False by done. rewrite Ht. done.
    + erewrite upd_lookup_Some by (do 3 apply upd_lookup_Some; exact Hu). rewrite Hu.
      simpl. repeat case_decide; subst; done.
Qed.

Lemma switched_resched : resched_to k t s (switched k p t rest th s).
Proof.
  destruct switched_fields as (E1 & E2 & E3).
  split; [by exists p, rest|done| |apply switched_dom| |apply switched_count|apply switched_same].
  - intros u uth Hu. destruct (switched_threads u uth Hu) as (uth' & ? & ? & ? & ? & ? & _). by exists uth'.
  - unfold switched. destruct (decide (t = current_thread s)); ksimpl; [done|]. by apply (k_saved _ _ K t th Ht).
Qed.

Lemma switched_kinv : kinv (switched k p t rest th s).
Proof.
  destruct switched_fields as (E1 & E2 & E3). unfold kinv. rewrite E2. destruct switched_same as (E4 & E5 & _).
  split.
  - unfold kq. rewrite switched_view, E1, E3, E4.
    apply (move_run _ _ _ _ (k_queues _ _ K) p t rest (view_thread th) THREAD_RUNNING); [apply Hn|by apply view_lookup|done].
  - rewrite E2. apply switched_dom. by eexists.
  - intros u uth' Hu'. destruct (proj1 (switched_dom u)) as [uth Hu]; [by eexists|].
    destruct (switched_threads u uth Hu) as (x & Hx & Hv & _). rewrite Hu' in Hx. injection Hx as <-.
    apply (f_equal v_state) in Hv. cbn in Hv. rewrite Hv. case_decide as E; [by subst|]. cbn.
    rewrite (k_running _ _ K u uth Hu). naive_solver.
  - rewrite E2. intros u uth' Hu' Hne. destruct (proj1 (switched_dom u)) as [uth Hu]; [by eexists|].
    destruct (switched_threads u uth Hu) as (x & Hx & _ & _ & _ & _ & Hs). rewrite Hu' in Hx.
    injection Hx as <-. auto.
  - destruct (k_idle _ _ K) as (i & ith & Hi & Hith & Hp & Hst). rewrite E5.
    destruct (switched_threads i ith Hith) as (x & Hx & Hv & _). exists i, x.
    pose proof (f_equal v_state Hv) as Hvs. apply (f_equal v_prio) in Hv. cbn in Hv, Hvs.
    rewrite Hv, Hvs. case_decide; cbn; auto.
Qed.
End Switched.

Lemma resched_ok k s :
  kgood None s -> 0 < critical_section_count s ->
  exists t s', thread_resched k s = Some s' /\ resched_to k t s s' /\ kinv s'.
Proof.
  intros K Hcs. destruct (top_queue s K) as (p & t & rest & Hn & Hb & Hp & Hlt).
  destruct (proj1 (q_ready _ _ _ _ (k_queues _ _ K) p _ t (proj1 Hn)) ltac:(set_solver))
    as (tv & (th & Ht & ->)%view_lookup_inv & _).
  exists t, (switched k p t rest th s). split_and!.
  - apply thread_resched_eq; try done; [apply Hn|]. by apply (k_saved _ _ K t th Ht).
  - by apply switched_resched.
  - by apply switched_kinv.
Qed.

(** *** The calls *)
Lemma kinv_current s :
  kinv s -> exists th, threads s !! current_thread s = Some th /\ t_magic th = THREAD_MAGIC /\
    t_state th = THREAD_RUNNING /\ idle_state (t_state th).
Proof.
  intros K. destruct (k_current _ _ K) as [th Ht]. exists th.
  destruct (q_thread _ _ _ _ (k_queues _ _ K) _ _ (view_lookup _ _ _ Ht)) as [Hm _].
  assert (E : t_state th = THREAD_RUNNING) by (by apply (k_running _ _ K _ th Ht)).
  split_and!; try done. by rewrite E.
Qed.

Lemma check_current_ok s th :
  threads s !! current_thread s = Some th -> t_magic th = THREAD_MAGIC ->
  check_current (t_state th) s = Some th.
Proof. intros H Hm. unfold check_current. rewrite H. kbind. by rewrite Hm, bool_decide_true. Qed.

Lemma stopped_same t : stopped t (Some t) = None.
Proof. unfold stopped. by rewrite decide_True. Qed.

Lemma kgood_enter r s : kgood r s -> kgood r (enter_critical_section s).
Proof. by apply kgood_ext. Qed.

(** The current thread is queued and the kernel reschedules. *)
Lemma requeue_resched b k s th :
  kinv s -> threads s !! current_thread s = Some th -> 0 < critical_section_count s ->
  exists q t s1 s', run_queue s !! Z.to_nat (t_priority th) = Some q /\
    insert_in_run_queue b (current_thread s) (upd (current_thread s) (with_state THREAD_READY) s) = Some s1 /\
    s1 = readied b (current_thread s) th q s /\
    thread_resched k s1 = Some s' /\ resched_to k t s1 s' /\ kinv s'.
Proof.
  intros K Ht Hcs. destruct (kinv_current s K) as (th' & Ht' & _ & _ & Hi). rewrite Ht in Ht'. injection Ht' as <-.
  destruct (ready_ok b _ s _ th K Ht Hi Hcs) as (q & Hq & Hins & K1). rewrite stopped_same in K1.
  destruct (resched_ok k _ K1) as (t & s' & Hr & Hto & K'); [done|].
  by exists q, t, (readied b (current_thread s) th q s), s'.
Qed.

Lemma thread_yield_ok k s :
  kinv s -> 0 <= critical_section_count s ->
  exists th q t s1 s', threads s !! current_thread s = Some th /\
    run_queue s !! Z.to_nat (t_priority th) = Some q /\
    s1 = readied false (current_thread s) (with_quantum 0 th) q
           (upd (current_thread s) (with_quantum 0) (enter_critical_section s)) /\
    thread_yield k s = Some s' /\ resched_to (FExit :: k) t s1 s' /\ kinv s'.
Proof.
  intros K Hcs. destruct (kinv_current s K) as (th & Ht & Hm & Hst & Hi).
  set (s0 := upd (current_thread s) (with_quantum 0) (enter_critical_section s)).
  assert (K0 : kinv s0) by (apply kgood_upd; [done..|by apply kgood_enter]).
  assert (Ht0 : threads s0 !! current_thread s0 = Some (with_quantum 0 th)) by (apply upd_lookup; exact Ht).
  destruct (requeue_resched false (FExit :: k) s0 _ K0 Ht0) as (q & t & s1 & s' & Hq & Hins & Es1 & Hr & Hto & K');
    [unfold s0; ksimpl; lia|].
  exists th, q, t, s1, s'. split_and!; try done.
  unfold thread_yield. rewrite <- Hst, check_current_ok by done. kbind. ksimpl.
  unfold insert_in_run_queue_tail. rewrite upd_upd.
  change (λ th, with_quantum 0 (with_state THREAD_READY th)) with (λ th, with_state THREAD_READY (with_quantum 0 th)).
  unfold s0 in Hins. rewrite upd_upd in Hins. revert Hins. ksimpl. intros ->. done.
Qed.

Lemma thread_preempt_ok k s :
  kinv s -> 0 <= critical_section_count s ->
  exists th q t s1 s', threads s !! current_thread s = Some th /\
    run_queue s !! Z.to_nat (t_priority th) = Some q /\
    s1 = readied (0 <? t_quantum th) (current_thread s) th q (enter_critical_section s) /\
    thread_preempt k s = Some s' /\ resched_to (FExit :: k) t s1 s' /\ kinv s'.
Proof.
  intros K Hcs. destruct (kinv_current s K) as (th & Ht & Hm & Hst & Hi).
  destruct (requeue_resched (0 <? t_quantum th) (FExit :: k) (enter_critical_section s) th)
    as (q & t & s1 & s' & Hq & Hins & Es1 & Hr & Hto & K'); [by apply kgood_enter|done|ksimpl; lia|].
  exists th, q, t, s1, s'. split_and!; try done.
  unfold thread_preempt. rewrite <- Hst, check_current_ok by done. kbind. ksimpl.
  unfold insert_in_run_queue_head, insert_in_run_queue_tail. revert Hins. ksimpl.
  destruct (0 <? t_quantum th); intros ->; done.
Qed.

Lemma kgood_ktimers r ts s : kgood r s -> kgood r (set_ktimers ts s).
Proof. by apply kgood_ext. Qed.

Lemma kgood_exit r s : kgood r s -> kgood r (exit_critical_section s).
Proof. by apply kgood_ext. Qed.

(** Resuming a suspended thread: it is put at the head of its run queue and the
    current thread yields. *)
Lemma thread_resume_ok t th k s :
  kinv s -> 0 <= critical_section_count s -> threads s !! t = Some th ->
  t_state th = THREAD_SUSPENDED ->
  exists q s1 s', run_queue s !! Z.to_nat (t_priority th) = Some q /\
    s1 = readied true t th q (enter_critical_section s) /\ kinv s1 /\
    thread_yield (FExitReturn NO_ERROR :: k) s1 = Some s' /\
    thread_resume t k s = Some (s', Switched) /\ kinv s'.
Proof.
  intros K Hcs Ht Hst. destruct (kinv_current s K) as (c & Hc & _ & Hcr & _).
  assert (Hne : t <> current_thread s) by congruence.
  destruct (q_thread _ _ _ _ (k_queues _ _ K) _ _ (view_lookup _ _ _ Ht)) as [Hm _]. cbn in Hm.
  destruct (ready_ok true _ (enter_critical_section s) t th (kgood_enter _ _ K) Ht)
    as (q & Hq & Hins & K1); [by rewrite Hst|ksimpl; lia|].
  unfold stopped in K1. rewrite decide_False in K1 by congruence.
  destruct (thread_yield_ok (FExitReturn NO_ERROR :: k) (readied true t th q (enter_critical_section s)) K1) as (th1 & q1 & t1 & s1 & s' & _ & _ & _ & Hy & _ & K');
    [unfold readied; ksimpl; lia|].
  exists q, (readied true t th q (enter_critical_section s)), s'. split_and!; try done.
  unfold thread_resume. rewrite Ht. kbind. rewrite Hm, Hst. cbn -[upd enter_critical_section insert_in_run_queue_head].
  unfold insert_in_run_queue_head. rewrite Hins. cbn -[upd thread_yield]. by rewrite Hy.
Qed.

(** A thread that stops running for another reason than being preempted. *)
Lemma thread_block_ok k s th :
  kgood None s -> threads s !! current_thread s = Some th -> t_state th = THREAD_BLOCKED ->
  0 <= critical_section_count s ->
  exists t s', thread_block k s = Some s' /\
    resched_to (FExit :: k) t (enter_critical_section s) s' /\ kinv s'.
Proof.
  intros K Ht Hst Hcs. destruct (q_thread _ _ _ _ (k_queues _ _ K) _ _ (view_lookup _ _ _ Ht)) as [Hm _].
  destruct (resched_ok (FExit :: k) (enter_critical_section s)) as (t & s' & Hr & Hto & K');
    [by apply kgood_enter|ksimpl; lia|].
  exists t, s'. split_and!; try done. unfold thread_block. rewrite <- Hst, check_current_ok by done. done.
Qed.

(** A wait that does not time out at once. *)
Lemma wait_queue_block_ok w wq timeout k s :
  kinv s -> 0 < critical_section_count s -> wait_queues s !! w = Some wq ->
  w_magic wq = WAIT_QUEUE_MAGIC -> idle_thread s <> Some (current_thread s) -> timeout <> 0 ->
  (timeout <> INFINITE_TIME -> exists ts, timer_set_oneshot (current_time s) (current_thread s) timeout
     wait_queue_timeout_handler (current_thread s) (timer_initialize (current_thread s) (ktimers s)) = Some ts) ->
  exists t ts s', wait_queue_block w timeout k s = Some (s', Switched) /\
    (if timeout =? INFINITE_TIME then Some (ktimers s) else
       timer_set_oneshot (current_time s) (current_thread s) timeout wait_queue_timeout_handler
         (current_thread s) (timer_initialize (current_thread s) (ktimers s))) = Some ts /\
    resched_to (FExit :: FWaitQueueBlock timeout :: k) t
      (enter_critical_section (set_ktimers ts (blocked_on w wq (current_thread s) s))) s' /\ kinv s'.
Proof.
  intros K Hcs Hw Hm Hid Ht0 Htm. destruct (kinv_current s K) as (c & Hc & _ & Hcr & Hci).
  pose proof (blocked_kinv _ s _ c w wq K Hc Hci Hw Hid) as K1. rewrite stopped_same in K1.
  assert (exists ts, (if timeout =? INFINITE_TIME then Some (ktimers s) else
       timer_set_oneshot (current_time s) (current_thread s) timeout wait_queue_timeout_handler
         (current_thread s) (timer_initialize (current_thread s) (ktimers s))) = Some ts) as [ts Hts].
  { destruct (Z.eqb_spec timeout INFINITE_TIME) as [|Hne]; [by eexists|]. by apply Htm. }
  destruct (thread_block_ok (FWaitQueueBlock timeout :: k) (set_ktimers ts (blocked_on w wq (current_thread s) s))
     (with_blocking (Some w) NO_ERROR (with_state THREAD_BLOCKED c))) as (t & s' & Hb & Hto & K');
    [by apply kgood_ktimers| |done|unfold blocked_on; ksimpl; lia|].
  { unfold blocked_on. ksimpl.
    apply (upd_lookup _ _ _ (with_state THREAD_BLOCKED c)), upd_lookup. exact Hc. }
  exists t, ts, s'. split_and!; try done.
  unfold wait_queue_block, check_wait_queue, in_critical_section. rewrite Hw. kbind. rewrite Hm, Hc.
  change (WAIT_QUEUE_MAGIC =? WAIT_QUEUE_MAGIC) with true. kbind.
  rewrite Hcr, (proj2 (Z.ltb_lt _ _)), (proj2 (Z.eqb_neq _ _)) by done. kbind.
  apply (f_equal switching) in Hb. unfold blocked_on in *. revert Hb. ksimpl. intros Hb.
  destruct (timeout =? INFINITE_TIME); [injection Hts as <-|rewrite Hts]; exact Hb.
Qed.

(** *** Waking *)
Lemma check_wait_queue_ok w s wq :
  wait_queues s !! w = Some wq -> w_magic wq = WAIT_QUEUE_MAGIC -> check_wait_queue w s = Some wq.
Proof. intros H Hm. unfold check_wait_queue. rewrite H. kbind. by rewrite Hm. Qed.

(** A thread that has been taken out of its wait queue goes to the head of its
    run queue. *)
Lemma woken_ready r s t w mg l n err th :
  kgood r (taken_from w mg l n t err s) -> threads s !! t = Some th -> r <> Some t ->
  0 < critical_section_count s ->
  exists q, run_queue s !! Z.to_nat (t_priority th) = Some q /\
    insert_in_run_queue true t (upd t (with_state THREAD_READY) (taken_from w mg l n t err s)) =
      Some (readied true t th q (taken_from w mg l n t err s)) /\
    kgood r (readied true t th q (taken_from w mg l n t err s)).
Proof.
  intros K Ht Hr Hcs.
  destruct (ready_ok true r _ t (with_blocking None err (with_state THREAD_SUSPENDED th)) K) as (q & Hq & Hins & K').
  - apply (upd_lookup _ _ _ (with_state THREAD_SUSPENDED th)), upd_lookup. exact Ht.
  - done.
  - exact Hcs.
  - unfold stopped in K'. rewrite decide_False in K' by done. by exists q.
Qed.

Lemma wake_head_eq w wq t rest err s th :
  threads s !! t = Some th -> t_state th = THREAD_BLOCKED ->
  wake_head w wq t rest err s =
    Some (upd t (with_state THREAD_READY) (taken_from w (w_magic wq) rest (w_count wq - 1) t err s)).
Proof.
  intros Ht Hst. unfold wake_head. ksimpl. rewrite Ht. kbind. rewrite Hst. cbn -[upd].
  unfold taken_from. by rewrite !upd_upd.
Qed.

(** [wait_queue_wake_one] without a reschedule: the first waiter, if there is
    one, becomes ready with [err] as the result of its wait. *)
Lemma wake_one_ok w wq err k r s :
  kgood r s -> 0 < critical_section_count s -> wait_queues s !! w = Some wq ->
  w_magic wq = WAIT_QUEUE_MAGIC ->
  (w_list wq = [] /\ wait_queue_wake_one w false err k s = Some (s, Ret 0)) \/
  exists t rest th q, w_list wq = t :: rest /\ threads s !! t = Some th /\
    run_queue s !! Z.to_nat (t_priority th) = Some q /\
    let s' := readied true t th q (taken_from w (w_magic wq) rest (w_count wq - 1) t err s) in
    wait_queue_wake_one w false err k s = Some (s', Ret 1) /\ kgood r s'.
Proof.
  intros K Hcs Hw Hm. unfold wait_queue_wake_one, in_critical_section.
  rewrite (check_wait_queue_ok w s wq), (proj2 (Z.ltb_lt _ _)) by done. kbind.
  destruct (w_list wq) as [|t rest] eqn:El; [by left|right].
  destruct (take_ok r s t w wq rest err K Hw) as (th & Ht & Hst & _ & _ & Hr & K1);
    [rewrite El; set_solver|by rewrite El|].
  destruct (woken_ready r s t w _ _ _ err th K1 Ht Hr Hcs) as (q & Hq & Hins & K2).
  exists t, rest, th, q. cbv zeta. split_and!; try done.
  rewrite (wake_head_eq w wq t rest err s th) by done. kbind.
  unfold insert_in_run_queue_head. by rewrite Hins.
Qed.

(** [wait_queue_wake_one] with a reschedule: the current thread goes to the head
    of its run queue, then the woken thread to the head of its own, and the
    kernel reschedules. *)
Lemma wake_one_resched_ok w wq t rest err k s :
  kinv s -> 0 < critical_section_count s -> wait_queues s !! w = Some wq ->
  w_magic wq = WAIT_QUEUE_MAGIC -> w_list wq = t :: rest ->
  exists c th qc qt s1 u s', threads s !! current_thread s = Some c /\ threads s !! t = Some th /\
    run_queue s !! Z.to_nat (t_priority c) = Some qc /\
    <[Z.to_nat (t_priority c) := current_thread s :: qc]> (run_queue s) !! Z.to_nat (t_priority th) = Some qt /\
    s1 = readied true t th qt (readied true (current_thread s) c qc
           (taken_from w (w_magic wq) rest (w_count wq - 1) t err s)) /\
    wait_queue_wake_one w true err k s = Some (s', Switched) /\
    resched_to (FReturn 1 :: k) u s1 s' /\ kinv s'.
Proof.
  intros K Hcs Hw Hm El.
  destruct (take_ok _ s t w wq rest err K Hw) as (th & Ht & Hst & _ & _ & Hr & K1);
    [rewrite El; set_solver|by rewrite El|].
  destruct (kinv_current s K) as (c & Hc & _ & _ & Hci).
  assert (Hne : current_thread s <> t) by congruence.
  set (v1 := taken_from w (w_magic wq) rest (w_count wq - 1) t err s) in *.
  assert (Hc1 : threads v1 !! current_thread s = Some c).
  { unfold v1, taken_from. rewrite !upd_lookup_ne by done. exact Hc. }
  assert (Ht1 : threads v1 !! t = Some (with_blocking None err (with_state THREAD_SUSPENDED th))).
  { apply (upd_lookup _ _ _ (with_state THREAD_SUSPENDED th)), upd_lookup. exact Ht. }
  destruct (ready_ok true _ v1 _ c K1 Hc1 Hci) as (qc & Hqc & Hins & K2); [exact Hcs|].
  rewrite stopped_same in K2. set (v2 := readied true (current_thread s) c qc v1) in *.
  destruct (ready_ok true _ v2 t (with_blocking None err (with_state THREAD_SUSPENDED th)) K2)
    as (qt & Hqt & Hins2 & K3); [|done|exact Hcs|].
  { unfold v2, readied. ksimpl. by rewrite upd_lookup_ne. }
  destruct (resched_ok (FReturn 1 :: k) _ K3) as (u & s' & Hrs & Hto & K'); [exact Hcs|].
  exists c, th, qc, qt. eexists _, u, s'. split_and!; try done.
  unfold wait_queue_wake_one, in_critical_section.
  rewrite (check_wait_queue_ok w s wq), (proj2 (Z.ltb_lt _ _)) by done. kbind. rewrite El.
  rewrite (wake_head_eq w wq t rest err s th) by done. kbind. fold v1.
  unfold requeue_current. ksimpl. change (current_thread v1) with (current_thread s).
  rewrite upd_comm by done. unfold insert_in_run_queue_head.
  rewrite (insert_upd_comm _ _ _ _ _ v2) by done. kbind. rewrite Hins2. kbind. by rewrite Hrs.
Qed.

(** The order in which [wait_queue_wake_all] leaves the woken threads: at the
    head of their run queues, the last waiter first. *)
Definition woken_at (s : kstate) (p : nat) (l : list nat) : list nat :=
  filter (λ t, (λ th, Z.to_nat (t_priority th)) <$> threads s !! t = Some p) (reverse l).

Record woken_all (w : nat) (err : Z) (l : list nat) (s s' : kstate) : Prop := {
  wa_queue : exists wq', wait_queues s' !! w = Some wq' /\ w_list wq' = [] /\ w_count wq' = 0;
  wa_run : forall p q, run_queue s !! p = Some q -> run_queue s' !! p = Some (woken_at s p l ++ q);
  wa_ready : forall t, t ∈ l -> exists th, threads s' !! t = Some th /\
    t_state th = THREAD_READY /\ t_block_ret th = err;
  wa_others : forall t, t ∉ l -> threads s' !! t = threads s !! t;
  wa_same : current_thread s' = current_thread s /\
    critical_section_count s' = critical_section_count s /\ idle_thread s' = idle_thread s
}.

Lemma woken_lookup t th q v u :
  u <> t -> threads (readied true t th q v) !! u = threads v !! u.
Proof. intros. unfold readied. ksimpl. by rewrite upd_lookup_ne. Qed.

Lemma taken_lookup w mg l n t err s u :
  u <> t -> threads (taken_from w mg l n t err s) !! u = threads s !! u.
Proof. intros. unfold taken_from. by rewrite !upd_lookup_ne. Qed.

Lemma woken_at_cons s s1 t l p th :
  threads s !! t = Some th -> t ∉ l -> (forall u, u <> t -> threads s1 !! u = threads s !! u) ->
  woken_at s p (t :: l) = woken_at s1 p l ++ (if decide (Z.to_nat (t_priority th) = p) then [t] else []).
Proof.
  intros Ht Hn Hs. unfold woken_at. rewrite reverse_cons, filter_app. f_equal.
  - apply list_filter_ext_in. intros u Hu. rewrite Hs; [done|].
    intros ->. apply Hn. by apply elem_of_reverse.
  - rewrite filter_cons, Ht. simpl. repeat case_decide; simplify_eq; done.
Qed.

Lemma wake_loop_ok w err r l : forall s ret wq,
  kgood r s -> 0 < critical_section_count s -> wait_queues s !! w = Some wq -> w_list wq = l ->
  exists s', wake_loop l w err s ret = Some (s', ret + Z.of_nat (length l)) /\ kgood r s' /\
    woken_all w err l s s'.
Proof.
  induction l as [|t rest IH]; intros s ret wq K Hcs Hw El; cbn [wake_loop].
  { exists s. rewrite Z.add_0_r. split_and!; try done. split; try done.
    - exists wq. destruct (q_wait _ _ _ _ (k_queues _ _ K) w wq Hw) as (_ & Hc & _). by rewrite El in Hc.
    - intros t Ht. by apply not_elem_of_nil in Ht. }
  rewrite Hw. kbind.
  destruct (take_ok _ s t w wq rest err K Hw) as (th & Ht & Hst & _ & _ & Hr & K1);
    [rewrite El; set_solver|by rewrite El|].
  destruct (q_wait _ _ _ _ (k_queues _ _ K) w wq Hw) as (Hnd & _ & _).
  rewrite El in Hnd. apply NoDup_cons in Hnd as [Hnt _].
  rewrite (wake_head_eq w wq t rest err s th) by done. kbind.
  destruct (woken_ready r s t w _ _ _ err th K1 Ht Hr Hcs) as (q & Hq & Hins & K2).
  unfold insert_in_run_queue_head. rewrite Hins. kbind.
  set (s1 := readied true t th q (taken_from w (w_magic wq) rest (w_count wq - 1) t err s)) in *.
  destruct (IH s1 (ret + 1) (WaitQueue (w_magic wq) rest (w_count wq - 1)) K2) as (s' & -> & K' & [A B C D E]);
    [exact Hcs|unfold s1, readied, taken_from; ksimpl; by rewrite lookup_insert_eq|done|].
  assert (Hoth : forall u, u <> t -> threads s1 !! u = threads s !! u).
  { intros u Hu. unfold s1. by rewrite woken_lookup, taken_lookup. }
  exists s'. split_and!; [do 2 f_equal; simpl; lia|done|]. split; try done.
  - intros p q' Hp. rewrite (woken_at_cons s s1 t rest p th) by done.
    assert (Hlt : (p < length (run_queue s))%nat) by (by eapply lookup_lt_Some).
    case_decide as Ep; [subst p|].
    + rewrite (B _ (t :: q)); [rewrite Hp in Hq; injection Hq as <-; by rewrite <- app_assoc|].
      unfold s1, readied, taken_from. ksimpl. by apply list_lookup_insert_eq.
    + rewrite (B _ q'), app_nil_r; [done|]. unfold s1, readied, taken_from. ksimpl.
      by rewrite list_lookup_insert_ne.
  - intros u [->|Hu]%elem_of_cons; [|by apply C]. rewrite D by done. unfold s1, readied, taken_from. ksimpl.
    rewrite !upd_upd. eexists. split; [apply upd_lookup; exact Ht|]. done.
  - intros u [Hu Hul]%not_elem_of_cons. by rewrite D, Hoth.
Qed.

Lemma wait_queue_wake_all_ok w wq err k s :
  kinv s -> 0 < critical_section_count s -> wait_queues s !! w = Some wq ->
  w_magic wq = WAIT_QUEUE_MAGIC ->
  exists s', wait_queue_wake_all w false err k s = Some (s', Ret (Z.of_nat (length (w_list wq)))) /\
    kinv s' /\ woken_all w err (w_list wq) s s'.
Proof.
  intros K Hcs Hw Hm. destruct (wake_loop_ok w err _ _ s 0 wq K Hcs Hw eq_refl) as (s' & Hl & K' & Ha).
  exists s'. split_and!; [|unfold kinv; by rewrite (proj1 (wa_same _ _ _ _ _ Ha))|done].
  unfold wait_queue_wake_all, in_critical_section.
  rewrite (check_wait_queue_ok w s wq), (proj2 (Z.ltb_lt _ _)) by done. kbind. cbn [andb]. kbind.
  rewrite Hl. kbind. destruct (wa_queue _ _ _ _ _ Ha) as (wq' & -> & _ & Hc). kbind. by rewrite Hc.
Qed.

Lemma wait_queue_wake_all_resched_ok w wq err k s :
  kinv s -> 0 < critical_section_count s -> wait_queues s !! w = Some wq ->
  w_magic wq = WAIT_QUEUE_MAGIC -> w_list wq <> [] ->
  exists c q s0 s1 t s', threads s !! current_thread s = Some c /\
    run_queue s !! Z.to_nat (t_priority c) = Some q /\ s0 = readied true (current_thread s) c q s /\
    woken_all w err (w_list wq) s0 s1 /\
    wait_queue_wake_all w true err k s = Some (s', Switched) /\
    resched_to (FReturn (Z.of_nat (length (w_list wq))) :: k) t s1 s' /\ kinv s'.
Proof.
  intros K Hcs Hw Hm Hne. destruct (kinv_current s K) as (c & Hc & _ & _ & Hci).
  destruct (ready_ok true _ s _ c K Hc Hci Hcs) as (q & Hq & Hins & K1). rewrite stopped_same in K1.
  destruct (wake_loop_ok w err None (w_list wq) _ 0 wq K1) as (s1 & Hl & K2 & Ha); [exact Hcs|exact Hw|done|].
  destruct (resched_ok (FReturn (Z.of_nat (length (w_list wq))) :: k) s1 K2) as (t & s' & Hrs & Hto & K').
  { by rewrite (proj1 (proj2 (wa_same _ _ _ _ _ Ha))). }
  exists c, q. eexists _, s1, t, s'. split_and!; try done.
  destruct (q_wait _ _ _ _ (k_queues _ _ K) w wq Hw) as (_ & Hcnt & _).
  assert (0 < w_count wq) by (rewrite Hcnt; destruct (w_list wq); [done|simpl; lia]).
  unfold wait_queue_wake_all, in_critical_section, requeue_current.
  rewrite (check_wait_queue_ok w s wq), !(proj2 (Z.ltb_lt _ _)) by done. kbind. cbn [andb]. ksimpl.
  unfold insert_in_run_queue_head. rewrite Hins. kbind. rewrite (proj2 (Z.ltb_lt 0 (w_count wq))) by done. kbind. rewrite Hl. kbind.
  destruct (wa_queue _ _ _ _ _ Ha) as (wq' & -> & _ & Hc0). kbind. rewrite Hc0.
  rewrite (proj2 (Z.ltb_lt _ _)) by lia. cbn [andb]. rewrite Z.add_0_l. kbind.
  cbn [Z.eqb ASSERT option_bind mbind]. by rewrite Hrs.
Qed.

(** Unblocking a thread that waits. *)
Lemma queue_delete_perm t (l : list nat) : NoDup l -> t ∈ l -> l ≡ₚ t :: queue_delete t l.
Proof.
  intros Hnd (l1 & l2 & ->)%list_elem_of_split. unfold queue_delete.
  rewrite filter_app, filter_cons, decide_False by (intros []; done).
  apply NoDup_app in Hnd as (_ & Hn1 & [Hn2 _]%NoDup_cons).
  rewrite !list_filter_all; [by rewrite Permutation_middle|intros x Hx ->..].
  - done.
  - apply (Hn1 t Hx). set_solver.
Qed.

Lemma unblock_ok t th w err k r s :
  kgood r s -> 0 <= critical_section_count s -> threads s !! t = Some th ->
  t_state th = THREAD_BLOCKED -> t_blocking th = Some w ->
  (forall wq, wait_queues s !! w = Some wq -> w_magic wq = WAIT_QUEUE_MAGIC) ->
  exists wq q, wait_queues s !! w = Some wq /\ run_queue s !! Z.to_nat (t_priority th) = Some q /\
    t ∈ w_list wq /\
    let s' := readied true t th q (taken_from w (w_magic wq) (queue_delete t (w_list wq)) (w_count wq - 1) t err
                (enter_critical_section s)) in
    thread_unblock_from_wait_queue t false err k s = Some (exit_critical_section s', Ret NO_ERROR) /\
    kgood r (exit_critical_section s').
Proof.
  intros K Hcs Ht Hst Hbl Hmag. pose proof (k_queues _ _ K) as Q.
  destruct (q_blocked _ _ _ _ Q t _ (view_lookup _ _ _ Ht) Hst) as (w' & Hbl' & wq & Hw).
  cbn in Hbl'. rewrite Hbl in Hbl'. injection Hbl' as <-.
  destruct (q_wait _ _ _ _ Q w wq Hw) as (Hnd & _ & Hq).
  assert (Hin : t ∈ w_list wq) by (apply Hq; eexists; split; [by apply view_lookup|done]).
  destruct (take_ok r (enter_critical_section s) t w wq _ err (kgood_enter _ _ K) Hw Hin (queue_delete_perm _ _ Hnd Hin))
    as (th' & Ht' & _ & Hm & _ & Hr & K1). change (threads s !! t = Some th') in Ht'. rewrite Ht in Ht'. injection Ht' as <-.
  destruct (woken_ready r _ t w _ _ _ err th K1 Ht Hr) as (q & Hqq & Hins & K2); [ksimpl; lia|].
  exists wq, q. cbv zeta. split_and!; [done|done|done| |by apply kgood_exit].
  unfold thread_unblock_from_wait_queue. ksimpl. rewrite Ht. kbind. rewrite Hm, Hst, Hbl.
  change (THREAD_MAGIC =? THREAD_MAGIC) with true. cbn -[upd check_wait_queue queued insert_in_run_queue_head].
  rewrite (check_wait_queue_ok w _ wq); [|done|by apply Hmag]. kbind.
  assert (Hqd : queued t (enter_critical_section s) = true).
  { unfold queued. rewrite (bool_decide_true (map_Exists _ _)); [apply orb_true_r|]. by exists w, wq. }
  rewrite Hqd. kbind. revert Hins. unfold taken_from, insert_in_run_queue_head. rewrite !upd_upd.
  ksimpl. intros Hins.
  change (λ th0, with_state THREAD_READY (with_blocking None err th0))
    with (λ th0, with_state THREAD_READY (with_blocking None err (with_state THREAD_SUSPENDED th0))).
  rewrite Hins. done.
Qed.

(** *** Deciding the invariant of a concrete state *)
Definition in_own_queue (s : kstate) (t : nat) (th : thread) : Prop :=
  match t_state th with
  | THREAD_READY => t ∈ default [] (run_queue s !! Z.to_nat (t_priority th))
  | THREAD_BLOCKED => match t_blocking th with
                      | Some w => match wait_queues s !! w with Some wq => t ∈ w_list wq | None => False end
                      | None => False
                      end
  | _ => True
  end.

#[local] Instance in_own_queue_dec s t th : Decision (in_own_queue s t th).
Proof. unfold in_own_queue. repeat case_match; apply _. Defined.

Definition thread_fine (s : kstate) (t : nat) (th : thread) : Prop :=
  t_magic th = THREAD_MAGIC /\ 0 <= t_priority th < 32 /\ in_own_queue s t th /\
  (t_state th = THREAD_RUNNING <-> t = current_thread s) /\
  (t = current_thread s \/ 0 < t_saved_cs th).

Definition run_queue_fine (s : kstate) (p : nat) (q : list nat) : Prop :=
  NoDup q /\ (Z.testbit (run_queue_bitmap s) (Z.of_nat p) = negb (bool_decide (q = []))) /\
  Forall (λ t, (λ th, (t_state th, t_priority th)) <$> threads s !! t = Some (THREAD_READY, Z.of_nat p)) q.

Definition wait_queue_fine (s : kstate) (w : nat) (wq : wait_queue) : Prop :=
  NoDup (w_list wq) /\ w_count wq = Z.of_nat (length (w_list wq)) /\
  Forall (λ t, (λ th, (t_state th, t_blocking th)) <$> threads s !! t = Some (THREAD_BLOCKED, Some w)) (w_list wq).

Definition state_fine (s : kstate) : Prop :=
  length (run_queue s) = 32%nat /\ 0 <= run_queue_bitmap s < 2 ^ 32 /\
  map_Forall (thread_fine s) (threads s) /\
  Forall (λ p, run_queue_fine s p (default [] (run_queue s !! p))) (seq 0 32) /\
  map_Forall (wait_queue_fine s) (wait_queues s) /\
  is_Some (threads s !! current_thread s) /\
  match idle_thread s with
  | Some i => match threads s !! i with
              | Some th => t_priority th = IDLE_PRIORITY /\
                           (t_state th = THREAD_READY \/ t_state th = THREAD_RUNNING)
              | None => False
              end
  | None => False
  end.

#[export] Instance state_fine_dec s : Decision (state_fine s).
Proof. unfold state_fine, thread_fine, run_queue_fine, wait_queue_fine. repeat case_match; apply _. Defined.

Lemma state_fine_kinv s : state_fine s -> kinv s.
Proof.
  intros (Hlen & Hb & Ht & Hq & Hw & Hc & Hi).
  assert (Hrq : forall p q, run_queue s !! p = Some q -> run_queue_fine s p q).
  { intros p q Hp. rewrite Forall_forall in Hq. pose proof (lookup_lt_Some _ _ _ Hp).
    specialize (Hq p). rewrite Hp in Hq. apply Hq, elem_of_seq. lia. }
  split.
  - split; try done.
    + intros t tv (th & Hth & ->)%view_lookup_inv. destruct (Ht t th Hth) as (? & ? & _). done.
    + intros p q Hp. exact (proj1 (Hrq p q Hp)).
    + intros p q t Hp. destruct (Hrq p q Hp) as (_ & _ & Hf). rewrite Forall_forall in Hf. split.
      * intros Hin. specialize (Hf t Hin). simpl in Hf. apply fmap_Some in Hf as (th & Hth & [= Es Ep]).
        exists (view_thread th). split; [by apply view_lookup|]. done.
      * intros (tv & (th & Hth & ->)%view_lookup_inv & Es & Ep). cbn in Es, Ep.
        destruct (Ht t th Hth) as (_ & _ & Hown & _). unfold in_own_queue in Hown.
        by rewrite Es, Ep, Nat2Z.id, Hp in Hown.
    + intros p q Hp. destruct (Hrq p q Hp) as (_ & -> & _). destruct q; by case_bool_decide.
    + intros w wq Hwq. destruct (Hw w wq Hwq) as (? & ? & Hf). rewrite Forall_forall in Hf.
      split_and!; try done. intros t. split.
      * intros Hin. specialize (Hf t Hin). simpl in Hf. apply fmap_Some in Hf as (th & Hth & [= Es Ep]).
        exists (view_thread th). split; [by apply view_lookup|]. done.
      * intros (tv & (th & Hth & ->)%view_lookup_inv & Es & Ep). cbn in Es, Ep.
        destruct (Ht t th Hth) as (_ & _ & Hown & _). unfold in_own_queue in Hown.
        by rewrite Es, Ep, Hwq in Hown.
    + intros t tv (th & Hth & ->)%view_lookup_inv Es. cbn in Es.
      destruct (Ht t th Hth) as (_ & _ & Hown & _). unfold in_own_queue in Hown. rewrite Es in Hown.
      destruct (t_blocking th) as [w|] eqn:E; [|done]. exists w. cbn. split; [done|].
      destruct (wait_queues s !! w); [by eexists|done].
  - done.
  - intros t th Hth. destruct (Ht t th Hth) as (_ & _ & _ & -> & _). naive_solver.
  - intros t th Hth Hne. destruct (Ht t th Hth) as (_ & _ & _ & _ & [?|?]); done.
  - destruct (idle_thread s) as [i|]; [|done]. destruct (threads s !! i) as [th|] eqn:E; [|done]. by exists i, th.
Qed.
