(* ===== verification/Sched.v ===== *)
(** * Scheduling theorems ([kernel/thread.c])

    What the calls of [Thread] promise in a state that satisfies the invariant
    [kinv]: they return, no assertion fails, the invariant holds again, and the
    thread that runs is the one the priorities and the queues prescribe. *)
From stdpp Require Import base gmap list fin_maps.
From Stdlib Require Import ZArith Lia.
From S2P Require Import Prelude Timer Thread ThreadInv.
#[local] Open Scope Z_scope.

(** The run queues with the current thread queued again. *)
Definition requeued (b : bool) (c : nat) (th : thread) (q : list nat) (rq : list (list nat)) :=
  <[Z.to_nat (t_priority th) := if b then c :: q else q ++ [c]]> rq.

(** The old thread keeps the frames of the call it is in. *)
Definition pending (t : nat) (k : list frame) (s : kstate) : Prop :=
  exists th, threads s !! t = Some th /\ t_frames th = k.

Lemma resched_pending k t s s' :
  is_Some (threads s !! current_thread s) -> resched_to k t s s' -> pending (current_thread s) k s'.
Proof.
  intros [th Ht] R. destruct (rs_threads _ _ _ _ R _ th Ht) as (th' & ? & _ & Hf & _).
  exists th'. split; [done|]. by rewrite decide_True in Hf.
Qed.

Lemma next_ge rq p t rest i q :
  next_thread rq p t rest -> rq !! i = Some q -> q <> [] -> (i <= p)%nat.
Proof. intros [_ H] Hi Hq. destruct (decide (p < i)%nat); [by apply H in Hi|lia]. Qed.

(** A reschedule after the current thread was queued behind others of its
    priority picks another thread. *)
Lemma yields_to_other s th q p t rest :
  kinv s -> threads s !! current_thread s = Some th ->
  run_queue s !! Z.to_nat (t_priority th) = Some q -> q <> [] ->
  next_thread (requeued false (current_thread s) th q (run_queue s)) p t rest -> t <> current_thread s.
Proof.
  intros K Ht Hq Hne Hn ->. destruct (kinv_current s K) as (th' & Ht' & _ & _ & Hi).
  rewrite Ht in Ht'. injection Ht' as <-.
  destruct (idle_not_queued _ _ _ _ (k_queues _ _ K) _ _ (view_lookup _ _ _ Ht) Hi) as [Hr _].
  destruct Hn as [Hn _]. unfold requeued in Hn.
  apply list_lookup_insert_Some in Hn as [(<- & E & _)|[_ Hn]].
  - destruct q as [|x q]; [done|]. injection E as -> _. apply (Hr _ _ Hq). set_solver.
  - apply (Hr _ _ Hn). set_solver.
Qed.

(** [thread_yield] succeeds and keeps the invariant: the current thread goes
    to the tail of the run queue of its priority, and the first thread of the
    highest non-empty priority runs: another one, whenever a thread of the same
    priority is ready.  The rest of the call stays pending in the old thread. *)
Theorem thread_yield_schedules k s th q :
  kinv s -> 0 <= critical_section_count s -> threads s !! current_thread s = Some th ->
  run_queue s !! Z.to_nat (t_priority th) = Some q ->
  exists p t rest s', thread_yield k s = Some s' /\ kinv s' /\ current_thread s' = t /\
    let rq := requeued false (current_thread s) th q (run_queue s) in
    next_thread rq p t rest /\ run_queue s' = <[p := rest]> rq /\
    pending (current_thread s) (FExit :: k) s' /\ (q <> [] -> t <> current_thread s).
Proof.
  intros K Hcs Ht Hq. destruct (thread_yield_ok k s K Hcs) as (th' & q' & t & s1 & s' & Ht' & Hq' & E1 & Hy & R & K').
  rewrite Ht in Ht'. injection Ht' as <-. rewrite Hq in Hq'. injection Hq' as <-.
  destruct (rs_next _ _ _ _ R) as (p & rest & Hn & Hrq). rewrite E1 in Hn, Hrq, R.
  exists p, t, rest, s'. cbv zeta. split_and!; try done; [by apply R| |].
  - apply resched_pending in R; [done|]. unfold readied. ksimpl. rewrite !upd_lookup_is_Some. by eexists.
  - intros Hne. by eapply yields_to_other.
Qed.

(** [thread_preempt] succeeds and keeps the invariant.  A thread with quantum
    left goes back to the head of its run queue, so that it goes on running unless
    a thread of higher priority is ready; one without goes to the tail. *)
Theorem thread_preempt_schedules k s th q :
  kinv s -> 0 <= critical_section_count s -> threads s !! current_thread s = Some th ->
  run_queue s !! Z.to_nat (t_priority th) = Some q ->
  exists p t rest s', thread_preempt k s = Some s' /\ kinv s' /\ current_thread s' = t /\
    let rq := requeued (0 <? t_quantum th) (current_thread s) th q (run_queue s) in
    next_thread rq p t rest /\ run_queue s' = <[p := rest]> rq /\
    pending (current_thread s) (FExit :: k) s' /\
    (0 < t_quantum th -> (forall p' q', (Z.to_nat (t_priority th) < p')%nat -> run_queue s !! p' = Some q' -> q' = []) ->
     t = current_thread s) /\
    (t_quantum th <= 0 -> q <> [] -> t <> current_thread s).
Proof.
  intros K Hcs Ht Hq. destruct (thread_preempt_ok k s K Hcs) as (th' & q' & t & s1 & s' & Ht' & Hq' & E1 & Hy & R & K').
  rewrite Ht in Ht'. injection Ht' as <-. rewrite Hq in Hq'. injection Hq' as <-.
  destruct (rs_next _ _ _ _ R) as (p & rest & Hn & Hrq). rewrite E1 in Hn, Hrq, R.
  assert (Hn' : next_thread (requeued (0 <? t_quantum th) (current_thread s) th q (run_queue s)) p t rest) by exact Hn.
  exists p, t, rest, s'. cbv zeta. split_and!; try done; [by apply R|..].
  - apply resched_pending in R; [done|]. unfold readied. ksimpl. rewrite !upd_lookup_is_Some. by eexists.
  - intros Hqn Hup. rewrite (proj2 (Z.ltb_lt _ _)) in Hn' by done.
    assert (Hlt : (Z.to_nat (t_priority th) < length (run_queue s))%nat) by (by eapply lookup_lt_Some).
    assert (Hge : (Z.to_nat (t_priority th) <= p)%nat).
    { eapply next_ge; [done|by apply list_lookup_insert_eq|done]. }
    destruct Hn' as [Hn' _]. unfold requeued in Hn'.
    apply list_lookup_insert_Some in Hn' as [(<- & E & _)|[Hne Hn']]; [by injection E|].
    apply Hup in Hn'; [done|lia].
  - intros Hqn Hne. rewrite (proj2 (Z.ltb_ge _ _)) in Hn' by done. by eapply yields_to_other.
Qed.

(** ** Waiting *)

(** Every queued timer exists. *)
Definition timers_known {CB ARG} (ts : timers CB ARG) : Prop :=
  forall u, u ∈ timer_queue ts -> is_Some (timer_table ts !! u).

Lemma insert_at_total {CB ARG} when t (tab : gmap nat (timer CB ARG)) q :
  (forall u, u ∈ q -> is_Some (tab !! u)) ->
  exists q', insert_at when t tab q = Some q' /\ q' ≡ₚ t :: q.
Proof.
  induction q as [|e q IH]; intros Hk; cbn; [by eexists|].
  destruct (Hk e) as [te ->]; [set_solver|]. cbn. destruct (TIME_GT _ _); [by eexists|].
  destruct IH as (q' & -> & E); [intros; apply Hk; set_solver|]. eexists. split; [done|].
  rewrite E. constructor.
Qed.

Lemma timer_set_oneshot_total {CB ARG} now t delay (cb : CB) (a : ARG) ts :
  t ∉ timer_queue ts -> timers_known ts ->
  exists ts', timer_set_oneshot now t delay cb a (timer_initialize t ts) = Some ts' /\
    timer_queue ts' ≡ₚ t :: timer_queue ts /\ timers_known ts'.
Proof.
  intros Hn Hk. unfold timer_set_oneshot, timer_set. cbn [timer_initialize timer_queue].
  rewrite decide_False by done. unfold insert_timer_in_queue. cbn [timer_table timer_initialize timer_queue].
  rewrite lookup_insert_eq. cbn. rewrite insert_insert_eq.
  match goal with |- context [insert_at ?w t ?tab ?q] => destruct (insert_at_total w t tab q) as (q' & -> & E) end.
  { intros u Hu. rewrite lookup_insert_ne; [by apply Hk|]. by intros ->. }
  cbn. eexists. split; [done|]. split; [done|]. intros u. cbn. rewrite E. intros [->|Hu]%elem_of_cons.
  - by rewrite lookup_insert_eq.
  - rewrite lookup_insert_ne; [by apply Hk|]. by intros ->.
Qed.

(** [wait_queue_block] with the timeout 0 fails at once; otherwise it
    succeeds and keeps the invariant: the current thread becomes the last of the
    wait queue, with its timer queued if the wait is bounded, and the first thread
    of the highest non-empty priority runs, with the rest of the call pending. *)
Theorem wait_queue_block_blocks w wq timeout k s :
  kinv s -> 0 < critical_section_count s -> wait_queues s !! w = Some wq ->
  w_magic wq = WAIT_QUEUE_MAGIC -> idle_thread s <> Some (current_thread s) ->
  current_thread s ∉ timer_queue (ktimers s) -> timers_known (ktimers s) ->
  if timeout =? 0 then wait_queue_block w timeout k s = Some (s, Ret ERR_TIMED_OUT) else
  exists p t rest s', wait_queue_block w timeout k s = Some (s', Switched) /\ kinv s' /\
    next_thread (run_queue s) p t rest /\ run_queue s' = <[p := rest]> (run_queue s) /\ current_thread s' = t /\
    wait_queues s' = <[w := WaitQueue (w_magic wq) (w_list wq ++ [current_thread s]) (w_count wq + 1)]> (wait_queues s) /\
    (if timeout =? INFINITE_TIME then ktimers s' = ktimers s
     else timer_queue (ktimers s') ≡ₚ current_thread s :: timer_queue (ktimers s)) /\
    pending (current_thread s) (FExit :: FWaitQueueBlock timeout :: k) s'.
Proof.
  intros K Hcs Hw Hm Hid Htq Hk. destruct (Z.eqb_spec timeout 0) as [->|Hne].
  - destruct (kinv_current s K) as (c & Hc & _ & Hcr & _).
    unfold wait_queue_block, in_critical_section.
    rewrite (check_wait_queue_ok w s wq) by done. kbind. rewrite Hc. kbind.
    by rewrite Hcr, (proj2 (Z.ltb_lt _ _)) by done.
  - destruct (timer_set_oneshot_total (current_time s) (current_thread s) timeout wait_queue_timeout_handler
      (current_thread s) (ktimers s) Htq Hk) as (ts & Hts & Ets & _).
    destruct (wait_queue_block_ok w wq timeout k s) as (t & ts' & s' & Hb & Hts' & R & K'); try done.
    { intros _. by eexists. }
    destruct (rs_next _ _ _ _ R) as (p & rest & Hn & Hrq).
    destruct (rs_same _ _ _ _ R) as (Ew & _ & Et & _).
    exists p, t, rest, s'. split_and!; try done; [by apply R| |].
    + rewrite Et. revert Hts'. unfold blocked_on. ksimpl. destruct (timeout =? INFINITE_TIME); [by intros [= <-]|].
      rewrite Hts. by intros [= <-].
    + apply resched_pending in R; [done|]. unfold blocked_on. ksimpl. rewrite !upd_lookup_is_Some. apply K.
Qed.

Lemma readied_block_ret b u th q s t x :
  threads s !! t = Some x -> exists x', threads (readied b u th q s) !! t = Some x' /\
    t_block_ret x' = t_block_ret x.
Proof.
  intros Ht. unfold readied. ksimpl. eexists. split; [by apply upd_lookup_Some|]. by case_decide.
Qed.

Lemma taken_block_ret w mg l n t err s th :
  threads s !! t = Some th -> exists x, threads (taken_from w mg l n t err s) !! t = Some x /\ t_block_ret x = err.
Proof.
  intros Ht. unfold taken_from. rewrite upd_upd. eexists. split; [apply upd_lookup; exact Ht|done].
Qed.

(** The result a thread's pending wait will return. *)
Definition wait_result (t : nat) (r : Z) (s : kstate) : Prop :=
  exists th, threads s !! t = Some th /\ t_block_ret th = r.

(** [wait_queue_wake_one] wakes the waiter that has waited longest, and no
    other, with the given result; it succeeds and keeps the invariant.  Without a
    reschedule the caller goes on and the woken thread is first in the run queue
    of its priority; with one, caller and woken thread are queued at the head of
    their run queues, the woken one in front, and the scheduler picks. *)
Theorem wait_queue_wake_one_fifo w wq t rest err k s :
  kinv s -> 0 < critical_section_count s -> wait_queues s !! w = Some wq ->
  w_magic wq = WAIT_QUEUE_MAGIC -> w_list wq = t :: rest ->
  exists c th qc qt, threads s !! current_thread s = Some c /\ threads s !! t = Some th /\
    run_queue s !! Z.to_nat (t_priority c) = Some qc /\
    requeued true (current_thread s) c qc (run_queue s) !! Z.to_nat (t_priority th) = Some qt /\
    (exists q s', run_queue s !! Z.to_nat (t_priority th) = Some q /\
       wait_queue_wake_one w false err k s = Some (s', Ret 1) /\ kinv s' /\
       current_thread s' = current_thread s /\ run_queue s' = requeued true t th q (run_queue s) /\
       wait_queues s' = <[w := WaitQueue (w_magic wq) rest (w_count wq - 1)]> (wait_queues s) /\
       wait_result t err s') /\
    exists p rest' s', let rq := requeued true t th qt (requeued true (current_thread s) c qc (run_queue s)) in
       wait_queue_wake_one w true err k s = Some (s', Switched) /\ kinv s' /\
       next_thread rq p (current_thread s') rest' /\ run_queue s' = <[p := rest']> rq /\
       wait_queues s' = <[w := WaitQueue (w_magic wq) rest (w_count wq - 1)]> (wait_queues s) /\
       wait_result t err s' /\ pending (current_thread s) (FReturn 1 :: k) s'.
Proof.
  intros K Hcs Hw Hm El.
  destruct (wake_one_resched_ok w wq t rest err k s K Hcs Hw Hm El)
    as (c & th & qc & qt & s1 & u & s' & Hc & Ht & Hqc & Hqt & E1 & Hwk & R & K').
  exists c, th, qc, qt. split_and!; try done.
  - destruct (wake_one_ok w wq err k _ s K Hcs Hw Hm) as [[E _]|(t' & rest2 & th' & q & E & Ht' & Hq & Hwk' & K2)];
      [congruence|]. rewrite El in E. injection E as <- <-. rewrite Ht in Ht'. injection Ht' as <-.
    eexists q, _. split_and!; try done. destruct (taken_block_ret w (w_magic wq) rest (w_count wq - 1) t err s th Ht) as (x & Hx & Er).
    destruct (readied_block_ret true t th q _ t x Hx) as (x' & ? & ?). exists x'. split; [done|congruence].
  - destruct (rs_next _ _ _ _ R) as (p & rest' & Hn & Hrq). rewrite <- (rs_current _ _ _ _ R) in Hn.
    destruct (rs_same _ _ _ _ R) as (Ew & _). subst s1.
    exists p, rest', s'. cbv zeta. split_and!; try done.
    + destruct (taken_block_ret w (w_magic wq) rest (w_count wq - 1) t err s th Ht) as (x & Hx & Er).
      destruct (readied_block_ret true (current_thread s) c qc _ t x Hx) as (x1 & Hx1 & Er1).
      destruct (readied_block_ret true t th qt _ t x1 Hx1) as (x2 & Hx2 & Er2).
      destruct (rs_threads _ _ _ _ R _ _ Hx2) as (x3 & Hx3 & _ & _ & _ & Er3). exists x3. split; [done|congruence].
    + apply resched_pending in R; [done|]. unfold readied, taken_from. repeat (ksimpl; rewrite upd_lookup_is_Some). exact (k_current _ _ K).
Qed.

(** [wait_queue_wake_all] without a reschedule wakes every waiter, with the
    given result, and returns their number: the wait queue is left empty, the
    threads are in front of those already in the run queues of their priorities,
    the last waiter first, and no other thread is touched. *)
Theorem wait_queue_wake_all_wakes w wq err k s :
  kinv s -> 0 < critical_section_count s -> wait_queues s !! w = Some wq ->
  w_magic wq = WAIT_QUEUE_MAGIC ->
  exists s', wait_queue_wake_all w false err k s = Some (s', Ret (w_count wq)) /\
    kinv s' /\ woken_all w err (w_list wq) s s'.
Proof.
  intros K Hcs Hw Hm. destruct (q_wait _ _ _ _ (k_queues _ _ K) w wq Hw) as (_ & -> & _).
  by apply wait_queue_wake_all_ok.
Qed.

(** The timeout of a wait, at a thread that still waits, takes it out of its
    wait queue and makes it ready with the result [ERR_TIMED_OUT], in balance with
    the critical section; but at a thread that was woken already and has not run
    since, its handler returns inside the critical section it entered. *)
Theorem wait_timeout_handled t th s :
  kinv s -> 0 <= critical_section_count s -> threads s !! t = Some th ->
  (forall w wq, wait_queues s !! w = Some wq -> w_magic wq = WAIT_QUEUE_MAGIC) ->
  if bool_decide (t_state th = THREAD_BLOCKED) then
    exists w wq q s', t_blocking th = Some w /\ wait_queues s !! w = Some wq /\ t ∈ w_list wq /\
      run_queue s !! Z.to_nat (t_priority th) = Some q /\
      run_wait_queue_timeout_handler t s = Some (s', true) /\ kinv s' /\
      current_thread s' = current_thread s /\ critical_section_count s' = critical_section_count s /\
      run_queue s' = requeued true t th q (run_queue s) /\
      wait_queues s' = <[w := WaitQueue (w_magic wq) (queue_delete t (w_list wq)) (w_count wq - 1)]> (wait_queues s) /\
      wait_result t ERR_TIMED_OUT s'
  else run_wait_queue_timeout_handler t s = Some (set_cs (critical_section_count s + 1) s, false).
Proof.
  intros K Hcs Ht Hmag. pose proof (k_queues _ _ K) as Q.
  destruct (q_thread _ _ _ _ Q t _ (view_lookup _ _ _ Ht)) as [Hm _]. cbn in Hm.
  unfold run_wait_queue_timeout_handler. rewrite Ht. kbind. rewrite Hm.
  case_bool_decide as Hst.
  - destruct (q_blocked _ _ _ _ Q t _ (view_lookup _ _ _ Ht) Hst) as (w & Hbl & _). cbn in Hbl.
    destruct (unblock_ok t th w ERR_TIMED_OUT [] _ s K Hcs Ht Hst Hbl (Hmag w)) as (wq & q & Hw & Hq & Hin & Hu & K').
    exists w, wq, q, (exit_critical_section (readied true t th q (taken_from w (w_magic wq)
      (queue_delete t (w_list wq)) (w_count wq - 1) t ERR_TIMED_OUT (enter_critical_section s)))).
    split_and!; try done.
    + change (THREAD_MAGIC =? THREAD_MAGIC) with true. kbind. rewrite Hu. reflexivity.
    + unfold readied, taken_from. repeat (ksimpl; autorewrite with kernel). lia.
    + destruct (taken_block_ret w (w_magic wq) (queue_delete t (w_list wq)) (w_count wq - 1) t ERR_TIMED_OUT
        (enter_critical_section s) th Ht) as (x & Hx & Er).
      destruct (readied_block_ret true t th q _ t x Hx) as (x' & ? & ?). exists x'. split; [done|congruence].
  - unfold thread_unblock_from_wait_queue. ksimpl. rewrite Ht. kbind. rewrite Hm, bool_decide_false by done. done.
Qed.

(** ** Witnesses

    The idle thread 0; the current thread 1 and the ready thread 2, both of
    priority 16; the threads 3 and 4 (with a timeout) wait on queue 0. *)
Definition sample_thread (p : Z) (st : thread_state) (bl : option nat) (k : list frame) : thread :=
  Thread THREAD_MAGIC [] p st 1 3 bl 0 DEFAULT_STACK_SIZE 0 0 0 k 0.

Definition sample_state : kstate :=
  KState (list_to_map [(0%nat, sample_thread 0 THREAD_READY None [FExit]);
                       (1%nat, sample_thread 16 THREAD_RUNNING None []);
                       (2%nat, sample_thread 16 THREAD_READY None [FExit]);
                       (3%nat, sample_thread 20 THREAD_BLOCKED (Some 0%nat) [FExit; FWaitQueueBlock INFINITE_TIME]);
                       (4%nat, sample_thread 16 THREAD_BLOCKED (Some 0%nat) [FExit; FWaitQueueBlock 50])])
    [0; 1; 2; 3; 4]%nat 1 1
    (<[0%nat := [0%nat]]> (<[16%nat := [2%nat]]> (replicate 32 []))) (1 + 2 ^ 16) (Some 0%nat)
    {[ 0%nat := WaitQueue WAIT_QUEUE_MAGIC [3; 4]%nat 2 ]}
    (Timers [4%nat] {[ 4%nat := Timer 60 0 (Some wait_queue_timeout_handler) (Some 4%nat) ]})
    ∅ ∅ [] 10.

Lemma sample_kinv : kinv sample_state.
Proof. apply state_fine_kinv, (bool_decide_unpack _). vm_compute. exact I. Qed.

Lemma sample_timers_known : timers_known (ktimers sample_state).
Proof. intros u Hu. apply list_elem_of_singleton in Hu as ->. by eexists. Qed.

Lemma thread_yield_schedules_witness :
  exists p t rest s', thread_yield [] sample_state = Some s' /\ kinv s' /\ current_thread s' = t /\
    let rq := requeued false 1 (sample_thread 16 THREAD_RUNNING None []) [2%nat] (run_queue sample_state) in
    next_thread rq p t rest /\ run_queue s' = <[p := rest]> rq /\
    pending 1 [FExit] s' /\ ([2%nat] <> [] -> t <> 1%nat).
Proof.
  apply (thread_yield_schedules [] sample_state (sample_thread 16 THREAD_RUNNING None []) [2%nat]);
    [exact sample_kinv|done|reflexivity|reflexivity].
Defined.

Lemma thread_preempt_schedules_witness :
  exists p t rest s', thread_preempt [] sample_state = Some s' /\ kinv s' /\ current_thread s' = t /\
    let rq := requeued true 1 (sample_thread 16 THREAD_RUNNING None []) [2%nat] (run_queue sample_state) in
    next_thread rq p t rest /\ run_queue s' = <[p := rest]> rq /\
    pending 1 [FExit] s' /\
    (0 < 3 -> (forall p' q', (16 < p')%nat -> run_queue sample_state !! p' = Some q' -> q' = []) ->
     t = 1%nat) /\
    (3 <= 0 -> [2%nat] <> [] -> t <> 1%nat).
Proof.
  apply (thread_preempt_schedules [] sample_state (sample_thread 16 THREAD_RUNNING None []) [2%nat]);
    [exact sample_kinv|done|reflexivity|reflexivity].
Defined.

Lemma wait_queue_block_blocks_witness :
  exists p t rest s', wait_queue_block 0 100 [] sample_state = Some (s', Switched) /\ kinv s' /\
    next_thread (run_queue sample_state) p t rest /\ run_queue s' = <[p := rest]> (run_queue sample_state) /\
    current_thread s' = t /\
    wait_queues s' = <[0%nat := WaitQueue WAIT_QUEUE_MAGIC [3; 4; 1]%nat 3]> (wait_queues sample_state) /\
    timer_queue (ktimers s') ≡ₚ [1; 4]%nat /\
    pending 1 [FExit; FWaitQueueBlock 100] s'.
Proof.
  apply (wait_queue_block_blocks 0 (WaitQueue WAIT_QUEUE_MAGIC [3; 4]%nat 2) 100 [] sample_state);
    [exact sample_kinv|done|reflexivity|done|done| |exact sample_timers_known].
  by intros ?%list_elem_of_singleton.
Defined.

Lemma wait_queue_wake_one_fifo_witness :
  exists c th qc qt, threads sample_state !! 1%nat = Some c /\ threads sample_state !! 3%nat = Some th /\
    run_queue sample_state !! Z.to_nat (t_priority c) = Some qc /\
    requeued true 1 c qc (run_queue sample_state) !! Z.to_nat (t_priority th) = Some qt /\
    (exists q s', run_queue sample_state !! Z.to_nat (t_priority th) = Some q /\
       wait_queue_wake_one 0 false NO_ERROR [] sample_state = Some (s', Ret 1) /\ kinv s' /\
       current_thread s' = 1%nat /\ run_queue s' = requeued true 3 th q (run_queue sample_state) /\
       wait_queues s' = <[0%nat := WaitQueue WAIT_QUEUE_MAGIC [4%nat] (2 - 1)]> (wait_queues sample_state) /\
       wait_result 3 NO_ERROR s') /\
    exists p rest' s', let rq := requeued true 3 th qt (requeued true 1 c qc (run_queue sample_state)) in
       wait_queue_wake_one 0 true NO_ERROR [] sample_state = Some (s', Switched) /\ kinv s' /\
       next_thread rq p (current_thread s') rest' /\ run_queue s' = <[p := rest']> rq /\
       wait_queues s' = <[0%nat := WaitQueue WAIT_QUEUE_MAGIC [4%nat] (2 - 1)]> (wait_queues sample_state) /\
       wait_result 3 NO_ERROR s' /\ pending 1 [FReturn 1] s'.
Proof.
  apply (wait_queue_wake_one_fifo 0 (WaitQueue WAIT_QUEUE_MAGIC [3; 4]%nat 2) 3 [4%nat] NO_ERROR [] sample_state);
    [exact sample_kinv|done|reflexivity|done|done].
Defined.

Lemma wait_queue_wake_all_wakes_witness :
  exists s', wait_queue_wake_all 0 false NO_ERROR [] sample_state = Some (s', Ret 2) /\
    kinv s' /\ woken_all 0 NO_ERROR [3; 4]%nat sample_state s'.
Proof.
  apply (wait_queue_wake_all_wakes 0 (WaitQueue WAIT_QUEUE_MAGIC [3; 4]%nat 2) NO_ERROR [] sample_state);
    [exact sample_kinv|done|reflexivity|done].
Defined.

(** Both branches: thread 4 waits; thread 2 does not. *)
Lemma wait_timeout_handled_witness :
  (exists w wq q s', Some 0%nat = Some w /\ wait_queues sample_state !! w = Some wq /\ (4%nat ∈ w_list wq) /\
      run_queue sample_state !! 16%nat = Some q /\
      run_wait_queue_timeout_handler 4 sample_state = Some (s', true) /\ kinv s' /\
      current_thread s' = 1%nat /\ critical_section_count s' = 1 /\
      run_queue s' = requeued true 4 (sample_thread 16 THREAD_BLOCKED (Some 0%nat) [FExit; FWaitQueueBlock 50]) q (run_queue sample_state) /\
      wait_queues s' = <[w := WaitQueue (w_magic wq) (queue_delete 4 (w_list wq)) (w_count wq - 1)]> (wait_queues sample_state) /\
      wait_result 4 ERR_TIMED_OUT s') /\
  run_wait_queue_timeout_handler 2 sample_state = Some (set_cs 2 sample_state, false).
Proof.
  assert (Hm : forall w wq, wait_queues sample_state !! w = Some wq -> w_magic wq = WAIT_QUEUE_MAGIC).
  { intros w wq H. unfold sample_state, wait_queues in H. apply lookup_singleton_Some in H as [_ <-]. reflexivity. }
  split.
  - apply (wait_timeout_handled 4 (sample_thread 16 THREAD_BLOCKED (Some 0%nat) [FExit; FWaitQueueBlock 50]) sample_state);
      [exact sample_kinv|done|reflexivity|exact Hm].
  - apply (wait_timeout_handled 2 (sample_thread 16 THREAD_READY None [FExit]) sample_state);
      [exact sample_kinv|done|reflexivity|exact Hm].
Defined.
