(* ===== verification/Sync.v ===== *)
(** * Mutexes, events, deferred calls and the interrupt path
    ([kernel/mutex.c], [kernel/event.c], [kernel/dpc.c], [thread_exit] of
    [kernel/thread.c], [arch/arm/thread.c], [arch/arm/exceptions.S])

    The blocking objects of the kernel on top of [Thread], and how a call that
    switched goes on: [run_frame] says what each pending [frame] does, and
    [finish] completes a call, in the thread that made it if it returned, in the
    thread that was switched to otherwise.  [MUTEX_CHECK] and [EVENT_CHECK] are
    on, as [THREAD_CHECKS] is in [Thread]. *)
From stdpp Require Import base gmap list fin_maps.
From Stdlib Require Import ZArith Lia.
From S2P Require Import Prelude Timer Thread.
#[local] Open Scope Z_scope.

Definition MUTEX_MAGIC : Z := 0x6d757478.
Definition EVENT_MAGIC : Z := 0x65766e74.
Definition EVENT_FLAG_AUTOUNSIGNAL : Z := 1.
Definition DPC_FLAG_NORESCHED : Z := 1.

(** ** Mutexes *)
Definition put_mutex (m : nat) (mx : mutex) (s : kstate) : kstate :=
  set_mutexes (<[m := mx]> (mutexes s)) s.

Definition mutex_init (m w : nat) (s : kstate) : kstate :=
  let s := put_mutex m (Mutex MUTEX_MAGIC 0 None w) s in
  wait_queue_init w s.

Definition mutex_destroy (m : nat) (k : list frame) (s : kstate) : option (kstate * outcome) :=
  let s := enter_critical_section s in
  mx ← mutexes s !! m;
  _ ← ASSERT (m_magic mx =? MUTEX_MAGIC);
  let s := put_mutex m (Mutex 0 0 (m_holder mx) (m_wait mx)) s in
  '(s, o) ← wait_queue_destroy (m_wait mx) true (FExitReturn NO_ERROR :: k) s;
  match o with
  | Switched => Some (s, Switched)
  | Ret _ => Some (exit_critical_section s, Ret NO_ERROR)
  end.

(** [m->holder = current_thread]. *)
Definition set_holder (m : nat) (s : kstate) : option kstate :=
  mx ← mutexes s !! m;
  Some (put_mutex m (Mutex (m_magic mx) (m_count mx) (Some (current_thread s)) (m_wait mx)) s).

(** What follows [wait_queue_block] in [mutex_acquire]. *)
Definition mutex_acquire_end (m : nat) (ret : Z) (s : kstate) : option (kstate * Z) :=
  s ← (if ret <? 0 then Some s else set_holder m s);
  Some (exit_critical_section s, ret).

Definition mutex_acquire (m : nat) (k : list frame) (s : kstate) : option (kstate * outcome) :=
  mx ← mutexes s !! m;
  if decide (m_holder mx = Some (current_thread s)) then None (* panic *) else
  let s := enter_critical_section s in
  _ ← ASSERT (m_magic mx =? MUTEX_MAGIC);
  let s := put_mutex m (Mutex (m_magic mx) (m_count mx + 1) (m_holder mx) (m_wait mx)) s in
  if 1 <? m_count mx + 1 then
    '(s, o) ← wait_queue_block (m_wait mx) INFINITE_TIME (FMutexAcquire m :: k) s;
    match o with
    | Switched => Some (s, Switched)
    | Ret ret => '(s, ret) ← mutex_acquire_end m ret s; Some (s, Ret ret)
    end
  else '(s, ret) ← mutex_acquire_end m NO_ERROR s; Some (s, Ret ret).

(** What follows [wait_queue_block] in [mutex_acquire_timeout]: a time-out gives
    the count back; any other error goes on to the store of the holder. *)
Definition mutex_acquire_timeout_end (m : nat) (ret : Z) (s : kstate) : option (kstate * Z) :=
  s ← (if ret =? ERR_TIMED_OUT then
         mx ← mutexes s !! m;
         Some (put_mutex m (Mutex (m_magic mx) (m_count mx - 1) (m_holder mx) (m_wait mx)) s)
       else set_holder m s);
  Some (exit_critical_section s, ret).

Definition mutex_acquire_timeout (m : nat) (timeout : Z) (k : list frame) (s : kstate)
  : option (kstate * outcome) :=
  mx ← mutexes s !! m;
  if decide (m_holder mx = Some (current_thread s)) then None (* panic *) else
  if timeout =? INFINITE_TIME then mutex_acquire m k s else
  let s := enter_critical_section s in
  _ ← ASSERT (m_magic mx =? MUTEX_MAGIC);
  let s := put_mutex m (Mutex (m_magic mx) (m_count mx + 1) (m_holder mx) (m_wait mx)) s in
  if 1 <? m_count mx + 1 then
    '(s, o) ← wait_queue_block (m_wait mx) timeout (FMutexAcquireTimeout m :: k) s;
    match o with
    | Switched => Some (s, Switched)
    | Ret ret => '(s, ret) ← mutex_acquire_timeout_end m ret s; Some (s, Ret ret)
    end
  else '(s, ret) ← mutex_acquire_timeout_end m NO_ERROR s; Some (s, Ret ret).

Definition mutex_release (m : nat) (k : list frame) (s : kstate) : option (kstate * outcome) :=
  mx ← mutexes s !! m;
  if decide (m_holder mx <> Some (current_thread s)) then None (* panic *) else
  let s := enter_critical_section s in
  _ ← ASSERT (m_magic mx =? MUTEX_MAGIC);
  let s := put_mutex m (Mutex (m_magic mx) (m_count mx - 1) None (m_wait mx)) s in
  if 1 <=? m_count mx - 1 then
    '(s, o) ← wait_queue_wake_one (m_wait mx) true NO_ERROR (FExitReturn NO_ERROR :: k) s;
    match o with
    | Switched => Some (s, Switched)
    | Ret _ => Some (exit_critical_section s, Ret NO_ERROR)
    end
  else Some (exit_critical_section s, Ret NO_ERROR).

(** ** Events *)
Definition put_event (e : nat) (ev : event) (s : kstate) : kstate :=
  set_events (<[e := ev]> (events s)) s.

Definition check_event (e : nat) (s : kstate) : option event :=
  ev ← events s !! e;
  _ ← ASSERT (e_magic ev =? EVENT_MAGIC);
  Some ev.

Definition autounsignal (ev : event) : bool :=
  negb (Z.land (e_flags ev) EVENT_FLAG_AUTOUNSIGNAL =? 0).

Definition with_signalled (b : bool) (ev : event) : event :=
  Event (e_magic ev) b (e_flags ev) (e_wait ev).

Definition event_init (e w : nat) (initial : bool) (flags : Z) (s : kstate) : kstate :=
  let s := put_event e (Event EVENT_MAGIC initial flags w) s in
  wait_queue_init w s.

Definition event_destroy (e : nat) (k : list frame) (s : kstate) : option (kstate * outcome) :=
  let s := enter_critical_section s in
  ev ← check_event e s;
  let s := put_event e (Event 0 false 0 (e_wait ev)) s in
  '(s, o) ← wait_queue_destroy (e_wait ev) true (FExitReturn NO_ERROR :: k) s;
  match o with
  | Switched => Some (s, Switched)
  | Ret _ => Some (exit_critical_section s, Ret NO_ERROR)
  end.

Definition event_wait_timeout (e : nat) (timeout : Z) (k : list frame) (s : kstate)
  : option (kstate * outcome) :=
  let s := enter_critical_section s in
  ev ← check_event e s;
  if e_signalled ev then
    let s := if autounsignal ev then put_event e (with_signalled false ev) s else s in
    Some (exit_critical_section s, Ret NO_ERROR)
  else
    '(s, o) ← wait_queue_block (e_wait ev) timeout (FExit :: k) s;
    match o with
    | Switched => Some (s, Switched)
    | Ret ret => Some (exit_critical_section s, Ret ret)
    end.

Definition event_wait (e : nat) (k : list frame) (s : kstate) :=
  event_wait_timeout e INFINITE_TIME k s.

(** What follows [wait_queue_wake_one] in [event_signal]. *)
Definition event_signal_one_end (e : nat) (woken : Z) (s : kstate) : option (kstate * Z) :=
  s ← (if woken <=? 0 then ev ← events s !! e; Some (put_event e (with_signalled true ev) s)
       else Some s);
  Some (exit_critical_section s, NO_ERROR).

Definition event_signal (e : nat) (reschedule : bool) (k : list frame) (s : kstate)
  : option (kstate * outcome) :=
  let s := enter_critical_section s in
  ev ← check_event e s;
  if e_signalled ev then Some (exit_critical_section s, Ret NO_ERROR) else
  if autounsignal ev then
    '(s, o) ← wait_queue_wake_one (e_wait ev) reschedule NO_ERROR (FEventSignalOne e :: k) s;
    match o with
    | Switched => Some (s, Switched)
    | Ret woken => '(s, ret) ← event_signal_one_end e woken s; Some (s, Ret ret)
    end
  else
    let s := put_event e (with_signalled true ev) s in
    '(s, o) ← wait_queue_wake_all (e_wait ev) reschedule NO_ERROR (FExitReturn NO_ERROR :: k) s;
    match o with
    | Switched => Some (s, Switched)
    | Ret _ => Some (exit_critical_section s, Ret NO_ERROR)
    end.

Definition event_unsignal (e : nat) (s : kstate) : option (kstate * Z) :=
  let s := enter_critical_section s in
  ev ← check_event e s;
  let s := put_event e (with_signalled false ev) s in
  Some (exit_critical_section s, NO_ERROR).

(** ** Deferred procedure calls; the static [dpc_event] is event 0 *)
Definition dpc_event : nat := 0.

(** [dpc_init] up to the creation of its thread. *)
Definition dpc_init (w : nat) (s : kstate) : kstate := event_init dpc_event w false 0 s.

Definition dpc_queue (cb : dpc_callback) (arg : nat) (flags : Z) (k : list frame) (s : kstate)
  : option (kstate * outcome) :=
  let s := enter_critical_section s in
  let s := set_dpc_list (dpc_list s ++ [Dpc cb arg]) s in
  '(s, o) ← event_signal dpc_event (if Z.land flags DPC_FLAG_NORESCHED =? 0 then true else false)
              (FExitReturn NO_ERROR :: k) s;
  match o with
  | Switched => Some (s, Switched)
  | Ret _ => Some (exit_critical_section s, Ret NO_ERROR)
  end.

(** [thread_cleanup_dpc]; [free] ends the life of the thread. *)
Definition run_thread_cleanup_dpc (t : nat) (s : kstate) : option kstate :=
  th ← threads s !! t;
  _ ← ASSERT (bool_decide (t_state th = THREAD_DEATH));
  _ ← ASSERT (bool_decide (t_blocking th = None));
  _ ← ASSERT (negb (queued t s));
  let s := enter_critical_section s in
  let s := set_thread_list (filter (λ u, u <> t) (thread_list s)) s in
  let s := exit_critical_section s in
  Some (set_threads (delete t (threads s)) s).

(** One round of [dpc_thread_routine] after [event_wait]; other callbacks than
    the kernel's own are [other]. *)
Definition dpc_round (other : nat -> nat -> kstate -> option kstate) (s : kstate) : option kstate :=
  let s := enter_critical_section s in
  match dpc_list s with
  | [] => '(s, _) ← event_unsignal dpc_event s; Some (exit_critical_section s)
  | d :: rest =>
      let s := exit_critical_section (set_dpc_list rest s) in
      match dpc_cb d with
      | thread_cleanup_dpc => run_thread_cleanup_dpc (dpc_arg d) s
      | other_dpc n => other n (dpc_arg d) s
      end
  end.

(** [thread_exit]: with [DPC_FLAG_NORESCHED] the queueing does not switch. *)
Definition thread_exit (retcode : Z) (k : list frame) (s : kstate) : option kstate :=
  th ← check_current THREAD_RUNNING s;
  let s := enter_critical_section s in
  let s := upd (current_thread s) (with_state THREAD_DEATH) s in
  let s := upd (current_thread s) (with_retcode retcode) s in
  '(s, o) ← dpc_queue thread_cleanup_dpc (current_thread s) DPC_FLAG_NORESCHED [] s;
  match o with
  | Ret _ => thread_resched (FThreadExit :: k) s
  | Switched => None
  end.

(** ** The rest of a call that switched

    [r] is the value the inner call returned. *)
Definition run_frame (f : frame) (r : Z) (s : kstate) : option (kstate * Z) :=
  match f with
  | FExit => Some (exit_critical_section s, r)
  | FReturn v => Some (s, v)
  | FExitReturn v => Some (exit_critical_section s, v)
  | FWaitQueueBlock timeout => wait_queue_block_end timeout s
  | FWaitQueueDestroy w => s ← wait_queue_destroy_end w s; Some (s, r)
  | FMutexAcquire m => mutex_acquire_end m r s
  | FMutexAcquireTimeout m => mutex_acquire_timeout_end m r s
  | FEventSignalOne e => event_signal_one_end e r s
  | FThreadExit => None
  | FInitialThread => Some (exit_critical_section s, r)
  | FIrqReturn => Some (exit_critical_section s, r)
  end.

Fixpoint run_frames (fs : list frame) (r : Z) (s : kstate) : option (kstate * Z) :=
  match fs with
  | [] => Some (s, r)
  | f :: fs => '(s, r) ← run_frame f r s; run_frames fs r s
  end.

(** The current thread goes on with its pending frames. *)
Definition resume_current (s : kstate) : option kstate :=
  th ← threads s !! current_thread s;
  let s := upd (current_thread s) (with_frames []) s in
  '(s, r) ← run_frames (t_frames th) NO_ERROR s;
  Some (upd (current_thread s) (with_ret r) s).

(** A call made by the current thread, up to the point where a thread is back
    in its own code. *)
Definition finish (res : option (kstate * outcome)) : option kstate :=
  '(s, o) ← res;
  match o with
  | Ret r => Some (upd (current_thread s) (with_ret r) s)
  | Switched => resume_current s
  end.

(** ** The timer interrupt: [arm_irq], with the timer as its only source *)
#[export] Instance kernel_timer_host : TimerHost timer_callback nat kstate := {
  host_timers := ktimers;
  put_timers := set_ktimers;
  host_put := λ ts s, eq_refl
}.

Definition kernel_fire (t : nat) (now : Z) (s : kstate) : option (kstate * bool) :=
  tm ← timer_table (ktimers s) !! t;
  cb ← callback tm;
  a ← arg tm;
  match cb with
  | thread_sleep_handler => run_thread_sleep_handler a s
  | wait_queue_timeout_handler => run_wait_queue_timeout_handler a s
  end.

Definition arm_irq (fuel : nat) (s : kstate) : option kstate :=
  let s := enter_critical_section s in
  '(s, resched) ← timer_tick kernel_fire thread_timer_tick fuel (current_time s) s;
  if resched : bool then s ← thread_preempt [FIrqReturn] s; resume_current s
  else Some (exit_critical_section s).
