(* ===== verification/Locks.v ===== *)
(** * Mutual exclusion ([kernel/mutex.c])

    The kernel as a transition system: threads that yield, are interrupted by the
    timer, acquire and release mutexes.  The invariant [sysinv] says, of every
    mutex, how its count, its holder, its wait queue and the threads that are
    inside [mutex_acquire] hang together; the steps preserve it and never fail an
    assertion. *)
From stdpp Require Import base gmap list fin_maps.
From Stdlib Require Import ZArith Lia.
From S2P Require Import Prelude Timer Thread ThreadInv Sched Sync.
#[local] Open Scope Z_scope.

(** The steps.  The idle thread does not acquire mutexes; a timer interrupt is
    taken only outside critical sections, here with no timer pending. *)
Inductive step : kstate -> kstate -> Prop :=
  | step_yield s s' : finish (switching (thread_yield [] s)) = Some s' -> step s s'
  | step_irq s s' : arm_irq 1 s = Some s' -> step s s'
  | step_acquire m s s' :
      idle_thread s <> Some (current_thread s) -> finish (mutex_acquire m [] s) = Some s' -> step s s'
  | step_release m s s' : finish (mutex_release m [] s) = Some s' -> step s s'.

(** ** The invariant *)

(** The frames of a thread that was switched out, and its critical-section count. *)
Definition acquire_frames (m : nat) : list frame :=
  [FExit; FWaitQueueBlock INFINITE_TIME; FMutexAcquire m].

Inductive shape : list frame -> Z -> Prop :=
  | shape_yield : shape [FExit] 1
  | shape_new : shape [FInitialThread] 1
  | shape_irq : shape [FExit; FIrqReturn] 2
  | shape_release : shape [FReturn 1; FExitReturn NO_ERROR] 1
  | shape_acquire m : shape (acquire_frames m) 2.

Definition acquiring (s : kstate) (m t : nat) : Prop :=
  exists th, threads s !! t = Some th /\ t_frames th = acquire_frames m.

(** A thread that was given the mutex and has not run since. *)
Definition granted (s : kstate) (m : nat) (l : list nat) (t : nat) : Prop := acquiring s m t /\ t ∉ l.

(** A mutex is free; or a thread holds it; or it was passed to a waiter that is
    about to become the holder.  In the last two cases the count is one more than
    the number of waiters. *)
Inductive mutex_state (s : kstate) (m : nat) (l : list nat) : option nat -> Z -> Prop :=
  | mutex_free : l = [] -> (forall t, ~ granted s m l t) -> mutex_state s m l None 0
  | mutex_held h : (forall t, ~ granted s m l t) -> mutex_state s m l (Some h) (1 + Z.of_nat (length l))
  | mutex_passed g : granted s m l g -> (forall t, granted s m l t -> t = g) ->
      mutex_state s m l None (1 + Z.of_nat (length l)).

Record mutexes_ok (s : kstate) : Prop := {
  mo_state : forall m mx, mutexes s !! m = Some mx -> m_magic mx = MUTEX_MAGIC /\
    exists wq, wait_queues s !! m_wait mx = Some wq /\ w_magic wq = WAIT_QUEUE_MAGIC /\
      (forall t, t ∈ w_list wq -> acquiring s m t) /\
      mutex_state s m (w_list wq) (m_holder mx) (m_count mx);
  mo_known : forall m t, acquiring s m t -> is_Some (mutexes s !! m);
  mo_granted : forall m mx wq t th, mutexes s !! m = Some mx -> wait_queues s !! m_wait mx = Some wq ->
    granted s m (w_list wq) t -> threads s !! t = Some th -> t_block_ret th = NO_ERROR;
  mo_inj : forall m m' mx mx', mutexes s !! m = Some mx -> mutexes s !! m' = Some mx' ->
    m_wait mx = m_wait mx' -> m = m';
  mo_only : forall w wq, wait_queues s !! w = Some wq -> w_list wq <> [] ->
    exists m mx, mutexes s !! m = Some mx /\ m_wait mx = w
}.

(** Every thread is inside a call ([p = None]), or every one but the thread [p]. *)
Definition shaped (p : option nat) (s : kstate) : Prop :=
  forall t th, threads s !! t = Some th ->
    if decide (p = Some t) then t_frames th = []
    else exists c, count_of s t = Some c /\ shape (t_frames th) c.

(** Right after a switch, and between calls. *)
Record switching_inv (s : kstate) : Prop := {
  sw_kinv : kinv s;
  sw_shaped : shaped None s;
  sw_timers : timer_queue (ktimers s) = [];
  sw_mutexes : mutexes_ok s
}.

Record sysinv (s : kstate) : Prop := {
  si_kinv : kinv s;
  si_cs : critical_section_count s = 0;
  si_shaped : shaped (Some (current_thread s)) s;
  si_timers : timer_queue (ktimers s) = [];
  si_mutexes : mutexes_ok s
}.

(** ** What the mutex part of the invariant depends on *)
Record same_waits (s s' : kstate) : Prop := {
  sm_mutexes : mutexes s' = mutexes s;
  sm_queues : wait_queues s' = wait_queues s;
  sm_acquiring : forall m t, acquiring s' m t <-> acquiring s m t;
  sm_result : forall m t th th', acquiring s m t -> threads s !! t = Some th ->
    threads s' !! t = Some th' -> t_block_ret th' = t_block_ret th
}.

Lemma mutex_state_ext s s' m l h n :
  (forall t, acquiring s' m t <-> acquiring s m t) -> mutex_state s m l h n -> mutex_state s' m l h n.
Proof.
  intros E. assert (G : forall t, granted s' m l t <-> granted s m l t) by (intros t; unfold granted; by rewrite E).
  intros [Hl Hn|h' Hn|g Hg Hu].
  - constructor; [done|]. intros t. rewrite G. apply Hn.
  - constructor. intros t. rewrite G. apply Hn.
  - apply (mutex_passed _ _ _ g); [by rewrite G|]. intros t. rewrite G. apply Hu.
Qed.

Lemma mutexes_ok_ext s s' : same_waits s s' -> mutexes_ok s -> mutexes_ok s'.
Proof.
  intros [E1 E2 E3 E4] [A B C D F]. split; rewrite ?E1, ?E2.
  - intros m mx Hm. destruct (A m mx Hm) as (? & wq & ? & ? & Hl & Hst).
    split; [done|]. exists wq. split_and!; try done; [|by apply (mutex_state_ext s s')].
    intros t Ht. apply E3. by apply Hl.
  - intros m t Ha. apply E3 in Ha. by eapply B.
  - intros m mx wq t th' Hm Hw [Ha Hn] Ht'. apply E3 in Ha. pose proof Ha as (th & Ht & _).
    rewrite (E4 m t th th') by done. by eapply C.
  - done.
  - done.
Qed.

(** One mutex and its wait queue change. *)
Lemma mutexes_ok_put s s' m mx mx' wq wq' :
  mutexes_ok s -> mutexes s !! m = Some mx -> wait_queues s !! m_wait mx = Some wq ->
  mutexes s' = <[m := mx']> (mutexes s) -> m_wait mx' = m_wait mx -> m_magic mx' = MUTEX_MAGIC ->
  wait_queues s' = <[m_wait mx := wq']> (wait_queues s) -> w_magic wq' = WAIT_QUEUE_MAGIC ->
  (forall m' t, m' <> m -> acquiring s' m' t <-> acquiring s m' t) ->
  (forall m' t th th', m' <> m -> acquiring s m' t -> threads s !! t = Some th ->
     threads s' !! t = Some th' -> t_block_ret th' = t_block_ret th) ->
  (forall t, t ∈ w_list wq' -> acquiring s' m t) ->
  mutex_state s' m (w_list wq') (m_holder mx') (m_count mx') ->
  (forall t th, granted s' m (w_list wq') t -> threads s' !! t = Some th -> t_block_ret th = NO_ERROR) ->
  mutexes_ok s'.
Proof.
  intros [A B C D F] Hm Hw Em Ewt Hmg Ewq Hwm Ha Hr Hl Hst Hg.
  assert (Hne : forall m' x, m' <> m -> mutexes s !! m' = Some x -> m_wait mx <> m_wait x).
  { intros m' x Hne Hx E. apply Hne. symmetry. by apply (D m m' mx x). }
  split; rewrite Em.
  - intros m' x. destruct (decide (m' = m)) as [->|Hn].
    + rewrite lookup_insert_eq. intros [= <-]. split; [done|]. exists wq'.
      rewrite Ewt, Ewq, lookup_insert_eq. done.
    + rewrite lookup_insert_ne by done. intros Hx. destruct (A m' x Hx) as (? & q & ? & ? & Hlq & Hsq).
      split; [done|]. exists q. rewrite Ewq, lookup_insert_ne by eauto. split_and!; try done.
      * intros t Ht. apply Ha; [done|]. by apply Hlq.
      * apply (mutex_state_ext s s'); [|done]. intros t. by apply Ha.
  - intros m' t Hac. destruct (decide (m' = m)) as [->|Hn]; [by rewrite lookup_insert_eq|].
    rewrite lookup_insert_ne by done. apply (B m' t). by apply Ha.
  - intros m' x q t th'. destruct (decide (m' = m)) as [->|Hn].
    + rewrite lookup_insert_eq. intros [= <-]. rewrite Ewt, Ewq, lookup_insert_eq. intros [= <-]. apply Hg.
    + rewrite lookup_insert_ne by done. intros Hx. rewrite Ewq, lookup_insert_ne by eauto.
      intros Hq [Hac Hnin] Ht'. apply Ha in Hac; [|done]. pose proof Hac as (th & Ht & _).
      rewrite (Hr m' t th th') by done. by apply (C m' x q t th).
  - intros m1 m2 x1 x2. destruct (decide (m1 = m)) as [->|H1], (decide (m2 = m)) as [->|H2];
      rewrite ?lookup_insert_eq, ?lookup_insert_ne by done; try done.
    + intros [= <-] Hx2 E. rewrite Ewt in E. by eapply Hne in E.
    + intros Hx1 [= <-] E. rewrite Ewt in E. symmetry in E. by eapply Hne in E.
    + by apply D.
  - rewrite Ewq. intros w q. destruct (decide (w = m_wait mx)) as [->|Hn].
    + intros _ _. exists m, mx'. by rewrite lookup_insert_eq.
    + rewrite lookup_insert_ne by done. intros Hq Hne'. destruct (F w q Hq Hne') as (m1 & x1 & H1 & E1).
      exists m1, x1. rewrite lookup_insert_ne; [done|]. congruence.
Qed.

(** ** Going on after a switch *)
Lemma acquiring_upd s t f m u :
  (forall th, t_frames (f th) = t_frames th) -> acquiring (upd t f s) m u <-> acquiring s m u.
Proof.
  intros Hf. unfold acquiring. split.
  - intros (th & Hu & Hfr). destruct (proj1 (upd_lookup_is_Some t f s u)) as [th0 H0]; [by eexists|].
    rewrite (upd_lookup_Some _ _ _ _ _ H0) in Hu. injection Hu as <-. exists th0. split; [done|].
    case_decide; [by rewrite Hf in Hfr|done].
  - intros (th & Hu & Hfr). eexists. split; [by apply upd_lookup_Some|]. case_decide; [by rewrite Hf|done].
Qed.

(** The state in which the current thread is back in its own code. *)
Definition resumed (r : Z) (s : kstate) : kstate :=
  upd (current_thread s) (with_ret r) (set_cs 0 (upd (current_thread s) (with_frames []) s)).

Lemma resumed_lookup r s t th :
  threads s !! t = Some th -> exists th', threads (resumed r s) !! t = Some th' /\
    t_frames th' = (if decide (t = current_thread s) then [] else t_frames th) /\
    t_block_ret th' = t_block_ret th /\ t_saved_cs th' = t_saved_cs th.
Proof.
  intros Ht. unfold resumed. eexists. split.
  - apply upd_lookup_Some. ksimpl. by apply upd_lookup_Some.
  - ksimpl. repeat case_decide; done.
Qed.

Lemma resumed_dom r s t : is_Some (threads (resumed r s) !! t) <-> is_Some (threads s !! t).
Proof. unfold resumed. rewrite upd_lookup_is_Some. ksimpl. by rewrite upd_lookup_is_Some. Qed.

Lemma resumed_kinv r s : kinv s -> kinv (resumed r s).
Proof.
  intros K. unfold resumed. apply kgood_upd; [done..|]. ksimpl.
  apply (kgood_ext _ (upd (current_thread s) (with_frames []) s)); try done. by apply kgood_upd.
Qed.

Lemma resumed_shaped r s : shaped None s -> shaped (Some (current_thread s)) (resumed r s).
Proof.
  intros Hs t th' Ht'. destruct (proj1 (resumed_dom r s t)) as [th Ht]; [by eexists|].
  destruct (resumed_lookup r s t th Ht) as (x & Hx & Hf & _ & Hsv). rewrite Ht' in Hx. injection Hx as <-.
  destruct (Hs t th Ht) as (c & Hc & Hsh). destruct (decide (t = current_thread s)) as [->|Hne].
  - by rewrite decide_True.
  - rewrite decide_False by congruence. exists c. rewrite Hf. split; [|done].
    unfold count_of in *. change (current_thread (resumed r s)) with (current_thread s).
    rewrite decide_False in * by congruence. rewrite Ht', Ht in *. simpl in *. congruence.
Qed.

(** For the other threads, being in [mutex_acquire] is unchanged. *)
Lemma resumed_acquiring r s m t :
  acquiring (resumed r s) m t <-> acquiring s m t /\ t <> current_thread s.
Proof.
  unfold acquiring. split.
  - intros (th' & Ht' & Hf'). destruct (proj1 (resumed_dom r s t)) as [th Ht]; [by eexists|].
    destruct (resumed_lookup r s t th Ht) as (x & Hx & Hf & _). rewrite Ht' in Hx. injection Hx as <-.
    case_decide; [by rewrite Hf in Hf'|]. split; [|done]. exists th. split; [done|congruence].
  - intros [(th & Ht & Hf0) Hne]. destruct (resumed_lookup r s t th Ht) as (x & Hx & Hf & _).
    exists x. rewrite decide_False in Hf by done. split; [done|congruence].
Qed.

(** Holders are not overwritten. *)
Definition holders_kept (s s' : kstate) : Prop :=
  forall m mx, mutexes s !! m = Some mx -> exists mx', mutexes s' !! m = Some mx' /\
    (m_holder mx = None \/ m_holder mx' = m_holder mx).

Lemma holders_kept_same s s' : mutexes s' = mutexes s -> holders_kept s s'.
Proof. intros E m mx Hm. exists mx. rewrite E. auto. Qed.

(** The thread that runs cannot be in a wait queue. *)
Lemma running_not_waiting s w wq :
  kinv s -> wait_queues s !! w = Some wq -> current_thread s ∉ w_list wq.
Proof.
  intros K Hw. destruct (kinv_current s K) as (th & Ht & _ & _ & Hi).
  destruct (idle_not_queued _ _ _ _ (k_queues _ _ K) _ _ (view_lookup _ _ _ Ht) Hi) as [_ H]. by eapply H.
Qed.

Lemma granted_passed s m l t h n :
  mutex_state s m l h n -> granted s m l t ->
  h = None /\ n = 1 + Z.of_nat (length l) /\ forall u, granted s m l u -> u = t.
Proof.
  intros [_ Hn|h' Hn|g _ Hu] Hg; [by apply Hn in Hg..|]. split_and!; try done.
  intros u Hug. by rewrite (Hu u Hug), (Hu t Hg).
Qed.

(** The thread a mutex was passed to becomes its holder. *)
Lemma resumed_holder r s m mx :
  switching_inv s -> acquiring s m (current_thread s) -> mutexes s !! m = Some mx ->
  m_holder mx = None /\
  sysinv (put_mutex m (Mutex (m_magic mx) (m_count mx) (Some (current_thread s)) (m_wait mx)) (resumed r s)).
Proof.
  intros [K Hsh Htm Hmx] Ha Hm. pose proof Hmx as [A _ _ _ _].
  destruct (A m mx Hm) as (Hmg & wq & Hw & Hwm & Hl & Hst).
  pose proof (running_not_waiting s _ wq K Hw) as Hnw.
  assert (Hg : granted s m (w_list wq) (current_thread s)) by done.
  destruct (granted_passed _ _ _ _ _ _ Hst Hg) as (Eh & Ec & Hu). split; [done|].
  split; [|done|exact (resumed_shaped r s Hsh)|done|].
  { apply (kgood_ext _ (resumed r s)); try done. by apply resumed_kinv. }
  apply (mutexes_ok_put s _ m mx (Mutex (m_magic mx) (m_count mx) (Some (current_thread s)) (m_wait mx)) wq wq);
    try done.
  - symmetry. by apply insert_id.
  - intros m' t Hne. change (acquiring (put_mutex ?a ?b ?x)) with (acquiring x). rewrite resumed_acquiring.
    split; [by intros [? _]|]. intros Ha'. split; [done|]. intros ->.
    destruct Ha as (x & Hx & E1), Ha' as (y & Hy & E2). unfold acquire_frames in *. congruence.
  - intros m' t x x' _ _ Hx Hx'. destruct (resumed_lookup r s t x Hx) as (y & Hy & _ & E & _). cbn in Hx'. congruence.
  - intros t Hin. apply resumed_acquiring. split; [by apply Hl|]. by intros ->.
  - cbn [m_holder m_count]. rewrite Ec. apply mutex_held. intros t [Hat Hnt].
    apply resumed_acquiring in Hat as [Hat Hne]. apply Hne, Hu. done.
  - intros t x [Hat Hnt]. apply resumed_acquiring in Hat as [Hat Hne]. exfalso. apply Hne, Hu. done.
Qed.

Lemma resume_ok s :
  switching_inv s -> exists s', resume_current s = Some s' /\ sysinv s' /\ holders_kept s s'.
Proof.
  intros [K Hsh Htm Hmx]. destruct (kinv_current s K) as (th & Ht & _ & Hrun & Hidle).
  destruct (Hsh _ th Ht) as (c & Hc & Hs). unfold count_of in Hc. rewrite decide_True in Hc by done.
  injection Hc as Hc.
  (* the frames other than those of [mutex_acquire] only leave the critical section *)
  assert (Hplain : forall r, (forall m, t_frames th <> acquire_frames m) -> sysinv (resumed r s)).
  { intros r Hn. split; [by apply resumed_kinv|done|exact (resumed_shaped r s Hsh)|done|].
    apply (mutexes_ok_ext s); [|done]. split; try done.
    - intros m t. rewrite resumed_acquiring. split; [by intros [? _]|]. intros Ha. split; [done|].
      intros ->. destruct Ha as (x & Hx & Hf). rewrite Ht in Hx. injection Hx as <-. by eapply Hn.
    - intros m t x x' _ Hx Hx'. destruct (resumed_lookup r s t x Hx) as (y & Hy & _ & E & _). congruence. }
  unfold resume_current. rewrite Ht. kbind.
  inversion Hs as [Ef Ec|Ef Ec|Ef Ec|Ef Ec|m Ef Ec]; cbn [run_frames run_frame acquire_frames]; kbind.
  1-4: (eexists; split; [reflexivity|]; unfold exit_critical_section; ksimpl; rewrite Hc, <- Ec;
        split; [|by apply holders_kept_same];
        match goal with |- sysinv (upd _ (with_ret ?r) _) => apply (Hplain r) end;
        intros m; by rewrite <- Ef).
  assert (Ha : acquiring s m (current_thread s)) by (by exists th).
  destruct (mo_known _ Hmx m _ Ha) as [mx Hm].
  destruct (mo_state _ Hmx m mx Hm) as (_ & wq & Hw & _).
  assert (Hr : t_block_ret th = NO_ERROR).
  { apply (mo_granted _ Hmx m mx wq (current_thread s) th Hm Hw); [|done]. split; [done|].
    by apply (running_not_waiting s (m_wait mx)). }
  destruct (resumed_holder NO_ERROR s m mx) as [Hnone Hsys]; [by split|done|done|].
  eexists. split.
  - unfold wait_queue_block_end. change (INFINITE_TIME =? INFINITE_TIME) with true. cbn [negb]. kbind. ksimpl.
    rewrite (upd_lookup (current_thread s) _ s th Ht). kbind. cbn [with_frames t_block_ret]. rewrite Hr.
    unfold mutex_acquire_end, set_holder. change (NO_ERROR <? 0) with false. ksimpl. rewrite Hm. kbind.
    unfold put_mutex, exit_critical_section. ksimpl. rewrite <- Ec in Hc. rewrite Hc. reflexivity.
  - split; [exact Hsys|]. intros m' mx' Hm'. ksimpl. destruct (decide (m' = m)) as [->|Hne].
    + rewrite lookup_insert_eq. eexists. split; [done|]. left. congruence.
    + rewrite lookup_insert_ne by done. exists mx'. auto.
Qed.

(** ** The part of a call before the switch

    The stores a call makes to threads before it reschedules: no pending frame
    and no saved count changes, and the result of a wait only for the thread [x]. *)
Record same_frames (x : nat) (s s1 : kstate) : Prop := {
  sf_current : current_thread s1 = current_thread s;
  sf_timers : ktimers s1 = ktimers s;
  sf_dom : forall u, is_Some (threads s1 !! u) <-> is_Some (threads s !! u);
  sf_threads : forall u th, threads s !! u = Some th -> exists th1, threads s1 !! u = Some th1 /\
    t_frames th1 = t_frames th /\ t_saved_cs th1 = t_saved_cs th /\
    (u <> x -> t_block_ret th1 = t_block_ret th)
}.

Lemma same_frames_upd x s s1 t f :
  (forall th, t_frames (f th) = t_frames th) -> (forall th, t_saved_cs (f th) = t_saved_cs th) ->
  (forall th, t <> x -> t_block_ret (f th) = t_block_ret th) ->
  same_frames x s s1 -> same_frames x s (upd t f s1).
Proof.
  intros Hf Hs Hr [A B C D]. split; try done.
  - intros u. by rewrite upd_lookup_is_Some.
  - intros u th Hu. destruct (D u th Hu) as (th1 & H1 & Ef & Es & Er).
    eexists. split; [by apply upd_lookup_Some|]. case_decide as E; [subst u|done].
    split_and!; [by rewrite Hf|by rewrite Hs|]. intros Hne. rewrite Hr by done. auto.
Qed.

Lemma same_frames_refl x s : same_frames x s s.
Proof. split; try done. intros u th Hu. by exists th. Qed.

(** The fields of the state that matter here are those of [s1]. *)
Lemma same_frames_ext x s s1 s2 :
  threads s2 = threads s1 -> current_thread s2 = current_thread s1 -> ktimers s2 = ktimers s1 ->
  same_frames x s s1 -> same_frames x s s2.
Proof. intros E1 E2 E3 [A B C D]. split; rewrite ?E1, ?E2, ?E3; done. Qed.

Lemma same_frames_readied x s s1 b t th q :
  same_frames x s s1 -> same_frames x s (readied b t th q s1).
Proof.
  intros H. apply (same_frames_ext _ _ (upd t (with_state THREAD_READY) s1)); try done.
  by apply same_frames_upd.
Qed.

Lemma same_frames_enter x s s1 : same_frames x s s1 -> same_frames x s (enter_critical_section s1).
Proof. by apply same_frames_ext. Qed.

Section Switch.
Context (x : nat) (k : list frame) (t : nat) (s s1 s' : kstate).
Hypothesis Hsys : sysinv s.
Hypothesis Hsf : same_frames x s s1.
Hypothesis Hto : resched_to k t s1 s'.

Lemma switch_threads u th :
  threads s !! u = Some th -> exists th', threads s' !! u = Some th' /\
    t_frames th' = (if decide (u = current_thread s) then k else t_frames th) /\
    (u <> x -> t_block_ret th' = t_block_ret th).
Proof.
  intros Hu. destruct (sf_threads _ _ _ Hsf u th Hu) as (th1 & H1 & Ef & _ & Er).
  destruct (rs_threads _ _ _ _ Hto u th1 H1) as (th' & H' & _ & Ef' & _ & Er').
  exists th'. rewrite (sf_current _ _ _ Hsf) in Ef'. split_and!; [done| |].
  - rewrite Ef'. by destruct (decide _).
  - intros Hne. rewrite Er'. by apply Er.
Qed.

Lemma switch_dom u : is_Some (threads s' !! u) <-> is_Some (threads s !! u).
Proof. by rewrite (rs_dom _ _ _ _ Hto), (sf_dom _ _ _ Hsf). Qed.

Lemma switch_shaped : shape k (critical_section_count s1) -> shaped None s'.
Proof.
  intros Hk u th' Hu'. rewrite decide_False by done.
  destruct (proj1 (switch_dom u)) as [th Hu]; [by eexists|].
  destruct (switch_threads u th Hu) as (y & Hy & Ef & _). rewrite Hu' in Hy. injection Hy as <-.
  destruct (sf_threads _ _ _ Hsf u th Hu) as (th1 & H1 & _ & Es & _).
  rewrite (rs_count _ _ _ _ Hto) by (by eexists). unfold count_of. rewrite (sf_current _ _ _ Hsf).
  pose proof (si_shaped _ Hsys u th Hu) as Hsh. destruct (decide (u = current_thread s)) as [->|Hne].
  - rewrite Ef. by eexists.
  - rewrite decide_False in Hsh by congruence. destruct Hsh as (c & Hc & Hsh). exists c.
    rewrite Ef. split; [|done]. unfold count_of in Hc. rewrite decide_False in Hc by done.
    rewrite Hu in Hc. rewrite H1. simpl in *. by rewrite Es.
Qed.

Lemma switch_acquiring m u :
  acquiring s' m u <-> acquiring s m u \/ (u = current_thread s /\ k = acquire_frames m).
Proof.
  destruct (k_current _ _ (si_kinv _ Hsys)) as [c Hc].
  pose proof (si_shaped _ Hsys _ c Hc) as Hcf. rewrite decide_True in Hcf by done.
  unfold acquiring. split.
  - intros (th' & Hu' & Hf'). destruct (proj1 (switch_dom u)) as [th Hu]; [by eexists|].
    destruct (switch_threads u th Hu) as (y & Hy & Ef & _). rewrite Hu' in Hy. injection Hy as <-.
    case_decide; [right; split; [done|congruence]|]. left. exists th. split; [done|congruence].
  - intros [(th & Hu & Hf)|[-> Hk]].
    + destruct (switch_threads u th Hu) as (y & Hy & Ef & _). exists y. split; [done|].
      case_decide; [subst u; rewrite Hc in Hu; injection Hu as <-; by rewrite Hcf in Hf|congruence].
    + destruct (switch_threads _ c Hc) as (y & Hy & Ef & _). exists y. rewrite decide_True in Ef by done.
      split; [done|congruence].
Qed.

(** A switch that leaves the mutexes and wait queues alone. *)
Lemma switch_plain :
  mutexes s1 = mutexes s -> wait_queues s1 = wait_queues s -> kinv s' ->
  shape k (critical_section_count s1) -> (forall m, k <> acquire_frames m) ->
  (forall m, ~ acquiring s m x) ->
  switching_inv s' /\ mutexes s' = mutexes s.
Proof.
  intros Em Ew K Hk Hn Hx. destruct (rs_same _ _ _ _ Hto) as (E1 & _ & E3 & E4 & _).
  split; [|congruence]. split; [done|by apply switch_shaped| |].
  - rewrite E3, (sf_timers _ _ _ Hsf). apply Hsys.
  - apply (mutexes_ok_ext s); [|apply Hsys]. split; [congruence..| |].
    + intros m u. rewrite switch_acquiring. naive_solver.
    + intros m u th th' Ha Hu Hu'. destruct (switch_threads u th Hu) as (y & Hy & _ & Er).
      rewrite Hu' in Hy. injection Hy as <-. apply Er. intros ->. by eapply Hx.
Qed.
End Switch.

Lemma current_not_acquiring s m : sysinv s -> ~ acquiring s m (current_thread s).
Proof.
  intros Hs (th & Ht & Hf). pose proof (si_shaped _ Hs _ th Ht) as Hsh.
  rewrite decide_True in Hsh by done. by rewrite Hsh in Hf.
Qed.

Lemma finish_switched r s' : r = Some (s', Switched) -> finish r = resume_current s'.
Proof. by intros ->. Qed.

Lemma holders_kept_trans s1 s2 s3 :
  mutexes s2 = mutexes s1 -> holders_kept s2 s3 -> holders_kept s1 s3.
Proof. intros E H m mx Hm. apply H. by rewrite E. Qed.

Lemma yield_step s :
  sysinv s -> exists s', finish (switching (thread_yield [] s)) = Some s' /\ sysinv s' /\ holders_kept s s'.
Proof.
  intros Hs. pose proof (si_cs _ Hs) as Hcs.
  destruct (thread_yield_ok [] s (si_kinv _ Hs)) as (th & q & t & s1 & s2 & Ht & Hq & E1 & Hy & R & K); [lia|].
  destruct (switch_plain (current_thread s) [FExit] t s s1 s2) as [Hsw Em]; try done.
  - rewrite E1. apply same_frames_readied, same_frames_upd; try done. apply same_frames_enter, same_frames_refl.
  - by rewrite E1.
  - by rewrite E1.
  - rewrite E1. unfold readied. ksimpl. rewrite Hcs. constructor.
  - intros m. by apply current_not_acquiring.
  - rewrite Hy. destruct (resume_ok s2 Hsw) as (s' & Hr & Hs' & Hh). exists s'. split_and!; try done.
    by eapply holders_kept_trans.
Qed.

Lemma irq_step s :
  sysinv s -> exists s', arm_irq 1 s = Some s' /\ sysinv s' /\ holders_kept s s'.
Proof.
  intros Hs. pose proof (si_cs _ Hs) as Hcs. pose proof (si_timers _ Hs) as Htm.
  destruct (kinv_current s (si_kinv _ Hs)) as (c & Hc & _).
  set (s0 := if bool_decide (Some (current_thread s) = idle_thread s) then enter_critical_section s
             else upd (current_thread s) (with_quantum (t_quantum c - 1)) (enter_critical_section s)).
  assert (Hsf0 : same_frames (current_thread s) s s0).
  { unfold s0. case_bool_decide; [|apply same_frames_upd; try done]; apply same_frames_enter, same_frames_refl. }
  assert (K0 : kinv s0).
  { unfold s0. case_bool_decide; [|apply kgood_upd; try done]; by apply (kgood_enter _ s), Hs. }
  assert (Ecs : critical_section_count s0 = 1) by (unfold s0; case_bool_decide; ksimpl; lia).
  assert (Hmq : mutexes s0 = mutexes s /\ wait_queues s0 = wait_queues s) by (unfold s0; by case_bool_decide).
  assert (Htick : timer_tick kernel_fire thread_timer_tick 1 (current_time (enter_critical_section s))
                    (enter_critical_section s) = Some (s0, true)).
  { unfold timer_tick. cbn [timer_loop]. cbn [host_timers kernel_timer_host]. ksimpl. rewrite Htm. kbind.
    unfold thread_timer_tick, s0. ksimpl. case_bool_decide; [done|]. rewrite Hc. done. }
  destruct (thread_preempt_ok [FIrqReturn] s0 K0) as (th & q & t & s1 & s2 & Ht & Hq & E1 & Hy & R & K); [lia|].
  destruct (switch_plain (current_thread s) [FExit; FIrqReturn] t s s1 s2) as [Hsw Em]; try done.
  - rewrite E1. by apply same_frames_readied, same_frames_enter.
  - rewrite E1. apply Hmq.
  - rewrite E1. apply Hmq.
  - rewrite E1. unfold readied. ksimpl. rewrite Ecs. constructor.
  - intros m. by apply current_not_acquiring.
  - destruct (resume_ok s2 Hsw) as (s' & Hr & Hs' & Hh). exists s'. split_and!; try done.
    + unfold arm_irq. rewrite Htick. kbind. by rewrite Hy.
    + by eapply holders_kept_trans.
Qed.

Lemma holders_kept_comp s1 s2 s3 : holders_kept s1 s2 -> holders_kept s2 s3 -> holders_kept s1 s3.
Proof.
  intros H12 H23 m mx Hm. destruct (H12 m mx Hm) as (mx2 & Hm2 & E2).
  destruct (H23 m mx2 Hm2) as (mx3 & Hm3 & E3). exists mx3. split; [done|].
  destruct E2 as [|E2]; [by left|]. rewrite E2 in E3. destruct E3; auto.
Qed.

Lemma holders_kept_put s s' m mx mx' :
  mutexes s !! m = Some mx -> mutexes s' = <[m := mx']> (mutexes s) ->
  m_holder mx = None \/ m_holder mx' = m_holder mx -> holders_kept s s'.
Proof.
  intros Hm E Hh m' x Hx. rewrite E. destruct (decide (m' = m)) as [->|Hne].
  - rewrite lookup_insert_eq. exists mx'. split; [done|]. congruence.
  - rewrite lookup_insert_ne by done. exists x. auto.
Qed.

(** A call that returns at once, after a change to one mutex. *)
Definition returned (r : Z) (m : nat) (mx : mutex) (s : kstate) : kstate :=
  upd (current_thread s) (with_ret r) (set_cs 0 (put_mutex m mx s)).

Lemma returned_same r m mx s : same_frames (current_thread s) s (returned r m mx s).
Proof. apply same_frames_upd; try done. by apply (same_frames_ext _ _ s), same_frames_refl. Qed.

Lemma returned_acquiring r m mx s m' t : acquiring (returned r m mx s) m' t <-> acquiring s m' t.
Proof. unfold returned. by rewrite acquiring_upd. Qed.

Lemma returned_sysinv r m mx mx' wq s :
  sysinv s -> mutexes s !! m = Some mx -> wait_queues s !! m_wait mx = Some wq ->
  m_wait mx' = m_wait mx -> m_magic mx' = MUTEX_MAGIC ->
  mutex_state s m (w_list wq) (m_holder mx') (m_count mx') ->
  sysinv (returned r m mx' s).
Proof.
  intros Hs Hm Hw Ew Hmg Hst. pose proof Hs as [K Hcs Hsh Htm Hmx].
  destruct (mo_state _ Hmx m mx Hm) as (_ & wq' & Hw' & Hwm & Hl & _). rewrite Hw in Hw'. injection Hw' as <-.
  assert (Hres : forall t th th', threads s !! t = Some th -> threads (returned r m mx' s) !! t = Some th' ->
    t_frames th' = t_frames th /\ t_block_ret th' = t_block_ret th /\ t_saved_cs th' = t_saved_cs th).
  { intros t th th' Ht. unfold returned. rewrite (upd_lookup_Some _ _ (set_cs 0 (put_mutex m mx' s)) t th Ht).
    intros [= <-]. by case_decide. }
  split.
  - unfold returned. apply kgood_upd; [done..|]. by apply (kgood_ext _ s).
  - done.
  - intros t th' Ht'. destruct (proj1 (sf_dom _ _ _ (returned_same r m mx' s) t)) as [th Ht]; [by eexists|].
    destruct (Hres t th th' Ht Ht') as (Ef & _ & Es). specialize (Hsh t th Ht).
    change (current_thread (returned r m mx' s)) with (current_thread s). rewrite Ef.
    case_decide; [done|]. destruct Hsh as (c & Hc & Hsh). exists c. split; [|done].
    unfold count_of in *. change (current_thread (returned r m mx' s)) with (current_thread s).
    rewrite decide_False in * by congruence. rewrite Ht', Ht in *. simpl in *. congruence.
  - done.
  - apply (mutexes_ok_put s _ m mx mx' wq wq); try done.
    + symmetry. by apply insert_id.
    + intros m' t _. by rewrite returned_acquiring.
    + intros m' t th th' _ _ Ht Ht'. by apply (Hres t th th').
    + intros t Ht. rewrite returned_acquiring. by apply Hl.
    + apply (mutex_state_ext s); [|done]. intros t. apply returned_acquiring.
    + intros t th' [Ha Hn] Ht'. rewrite returned_acquiring in Ha. pose proof Ha as (th & Ht & _).
      destruct (Hres t th th' Ht Ht') as (_ & -> & _). by apply (mo_granted _ Hmx m mx wq t th).
Qed.

Lemma mutex_state_count s m l h n :
  mutex_state s m l h n -> (h = None /\ n = 0 /\ l = [] /\ forall t, ~ granted s m l t) \/ n = 1 + Z.of_nat (length l).
Proof. intros [Hl Hn|h' Hn|g Hg Hu]; auto. Qed.

(** Joining the waiters does not change who owns the mutex. *)
Lemma mutex_state_join s s' m l h t :
  mutex_state s m l h (1 + Z.of_nat (length l)) -> ~ acquiring s m t ->
  (forall u, acquiring s' m u <-> acquiring s m u \/ u = t) ->
  mutex_state s' m (l ++ [t]) h (1 + Z.of_nat (length l) + 1).
Proof.
  intros Hst Hnt Ha.
  assert (G : forall u, granted s' m (l ++ [t]) u <-> granted s m l u).
  { intros u. unfold granted. rewrite Ha. rewrite elem_of_app, list_elem_of_singleton.
    split; [tauto|]. intros [Hu Hl]. split; [by left|]. intros [Hx | ->]; auto. }
  replace (1 + Z.of_nat (length l) + 1) with (1 + Z.of_nat (length (l ++ [t]))) by (rewrite length_app; simpl; lia).
  inversion Hst as [El Hn Eh Ec|h' Hn Eh Ec|g Hg Hu Eh Ec]; [lia| |].
  - apply mutex_held. intros u. by rewrite G.
  - apply (mutex_passed _ _ _ g); [by apply G|]. intros u. rewrite G. apply Hu.
Qed.

(** ** Acquiring and releasing *)
Lemma acquire_step m mx s :
  sysinv s -> mutexes s !! m = Some mx -> m_holder mx <> Some (current_thread s) ->
  idle_thread s <> Some (current_thread s) ->
  exists s', finish (mutex_acquire m [] s) = Some s' /\ sysinv s' /\ holders_kept s s'.
Proof.
  intros Hs Hm Hh Hid. pose proof Hs as [K Hcs Hsh Htm Hmx].
  destruct (mo_state _ Hmx m mx Hm) as (Hmg & wq & Hw & Hwm & Hl & Hst).
  unfold mutex_acquire. rewrite Hm. kbind. rewrite decide_False, Hmg by done.
  change (MUTEX_MAGIC =? MUTEX_MAGIC) with true. kbind.
  set (mx1 := Mutex MUTEX_MAGIC (m_count mx + 1) (m_holder mx) (m_wait mx)).
  destruct (mutex_state_count _ _ _ _ _ Hst) as [(Eh & Ec & El & Hn)|Ec].
  - rewrite Ec. change (1 <? 0 + 1) with false. cbv iota.
    exists (returned NO_ERROR m (Mutex MUTEX_MAGIC 1 (Some (current_thread s)) (m_wait mx)) s). split_and!.
    + unfold mutex_acquire_end, set_holder. change (NO_ERROR <? 0) with false. cbv iota.
      unfold put_mutex. ksimpl. rewrite lookup_insert_eq. kbind. unfold mx1. rewrite Ec, insert_insert_eq.
      cbn [finish m_magic m_count m_wait]. kbind. ksimpl. unfold finish. kbind. unfold returned, put_mutex, exit_critical_section, enter_critical_section. ksimpl. rewrite Hcs. reflexivity.
    + apply (returned_sysinv _ m mx _ wq); try done. cbn. rewrite El. apply (mutex_held s m []). by rewrite <- El.
    + eapply holders_kept_put; [done|done|by left].
  - rewrite (proj2 (Z.ltb_lt _ _)) by lia.
    set (s0 := put_mutex m mx1 (enter_critical_section s)).
    destruct (wait_queue_block_ok (m_wait mx) wq INFINITE_TIME [FMutexAcquire m] s0) as (t & ts & s2 & Hb & Hts & R & K2);
      try done; [by apply (kgood_ext _ s)|unfold s0; cbn; lia|].
    rewrite Hb. kbind. cbn [finish]. kbind. injection Hts as <-.
    assert (Hsf : same_frames (current_thread s) s
              (enter_critical_section (set_ktimers (ktimers s0) (blocked_on (m_wait mx) wq (current_thread s0) s0)))).
    { apply same_frames_enter, (same_frames_ext _ _ (blocked_on (m_wait mx) wq (current_thread s0) s0)); try done.
      unfold blocked_on. apply same_frames_upd; try done. apply same_frames_upd; try done.
      by apply (same_frames_ext _ _ s), same_frames_refl. }
    pose proof (switch_acquiring _ _ _ _ _ _ Hs Hsf R) as Hacq.
    destruct (rs_same _ _ _ _ R) as (Ew & _ & Et & Em & _).
    assert (Hsw : switching_inv s2).
    { split; [done|apply (switch_shaped _ _ _ _ _ _ Hs Hsf R)| |].
      - change (shape (acquire_frames m) (critical_section_count s + 1 + 1)). rewrite Hcs. constructor.
      - rewrite Et. exact Htm.
      - apply (mutexes_ok_put s s2 m mx mx1 wq (WaitQueue (w_magic wq) (w_list wq ++ [current_thread s]) (w_count wq + 1)));
          try done.
        + intros m' t' Hne. rewrite Hacq. unfold acquire_frames. naive_solver.
        + intros m' t' th th' _ Ha Ht' Ht2. destruct (switch_threads _ _ _ _ _ _ Hsf R t' th Ht') as (y & Hy & _ & Er).
          rewrite Ht2 in Hy. injection Hy as <-. apply Er. intros ->. by apply (current_not_acquiring s m' Hs).
        + intros t'. cbn [w_list]. rewrite elem_of_app, list_elem_of_singleton, Hacq. intros [Hin | ->]; [left; by apply Hl|by right].
        + cbn [w_list m_holder m_count mx1]. unfold mx1. cbn [m_holder m_count]. rewrite Ec.
          apply (mutex_state_join s); [by rewrite <- Ec|by apply current_not_acquiring|].
          intros u. rewrite Hacq. naive_solver.
        + cbn [w_list]. intros t' th' [Ha Hni] Ht2. rewrite Hacq in Ha.
          destruct Ha as [Ha|[-> _]]; [|exfalso; apply Hni; set_solver]. pose proof Ha as (th & Ht' & _).
          destruct (switch_threads _ _ _ _ _ _ Hsf R t' th Ht') as (y & Hy & _ & Er).
          rewrite Ht2 in Hy. injection Hy as <-. rewrite Er by (intros ->; by apply (current_not_acquiring s m Hs)).
          apply (mo_granted _ Hmx m mx wq t' th Hm Hw); [|done]. split; [done|set_solver]. }
    destruct (resume_ok s2 Hsw) as (s' & Hr & Hs' & Hk). exists s'. split_and!; try done.
    eapply holders_kept_comp; [|done]. eapply (holders_kept_put s s2 m mx mx1); [done|done|by right].
Qed.

(** Passing a held mutex to its first waiter. *)
Lemma mutex_state_pass s s' m t rest h n :
  mutex_state s m (t :: rest) (Some h) n -> acquiring s m t -> t ∉ rest ->
  (forall u, acquiring s' m u <-> acquiring s m u) ->
  mutex_state s' m rest None (1 + Z.of_nat (length rest)) /\ forall u, granted s' m rest u -> u = t.
Proof.
  intros Hst Ht Hnt Ha.
  assert (Hn : forall u, ~ granted s m (t :: rest) u) by (by inversion Hst).
  assert (Hu : forall u, granted s' m rest u -> u = t).
  { intros u [Hu Hr]. destruct (decide (u = t)) as [|Hne]; [done|]. exfalso. apply (Hn u).
    split; [by apply Ha|set_solver]. }
  split; [|done]. apply (mutex_passed _ _ _ t); [|done]. split; [by apply Ha|done].
Qed.

(** Everything but the holder of [m] is as [holders_kept] says. *)
Definition holders_kept_but (m : nat) (s s' : kstate) : Prop :=
  is_Some (mutexes s' !! m) /\ forall m' mx, m' <> m -> mutexes s !! m' = Some mx -> exists mx', mutexes s' !! m' = Some mx' /\
    (m_holder mx = None \/ m_holder mx' = m_holder mx).

Lemma holders_kept_but_comp m mx s1 s2 s3 :
  mutexes s2 = <[m := mx]> (mutexes s1) -> holders_kept s2 s3 -> holders_kept_but m s1 s3.
Proof.
  intros E H. split.
  - destruct (H m mx) as (mx' & ? & _); [by rewrite E, lookup_insert_eq|]. by eexists.
  - intros m' mx' Hne Hm'. apply H. by rewrite E, lookup_insert_ne.
Qed.

Lemma release_step m mx s :
  sysinv s -> mutexes s !! m = Some mx -> m_holder mx = Some (current_thread s) ->
  exists s', finish (mutex_release m [] s) = Some s' /\ sysinv s' /\ holders_kept_but m s s'.
Proof.
  intros Hs Hm Hh. pose proof Hs as [K Hcs Hsh Htm Hmx].
  destruct (mo_state _ Hmx m mx Hm) as (Hmg & wq & Hw & Hwm & Hl & Hst). rewrite Hh in Hst.
  destruct (mutex_state_count _ _ _ _ _ Hst) as [[? _]|Ec]; [done|].
  assert (Hn : forall t, ~ granted s m (w_list wq) t) by (by inversion Hst).
  unfold mutex_release. rewrite Hm. kbind. rewrite Hh, decide_False, Hmg by (intros []; done).
  change (MUTEX_MAGIC =? MUTEX_MAGIC) with true. kbind.
  set (mx1 := Mutex MUTEX_MAGIC (m_count mx - 1) None (m_wait mx)).
  destruct (w_list wq) as [|t rest] eqn:El.
  - rewrite (proj2 (Z.leb_gt _ _)) by (rewrite Ec; simpl; lia).
    exists (returned NO_ERROR m mx1 s). split_and!.
    + unfold finish. kbind. unfold returned, put_mutex, exit_critical_section, enter_critical_section. ksimpl.
      rewrite Hcs. reflexivity.
    + apply (returned_sysinv _ m mx _ wq); try done. unfold mx1. cbn [m_holder m_count]. rewrite El, Ec.
      by apply mutex_free.
    + by apply (holders_kept_but_comp m mx1 s (returned NO_ERROR m mx1 s)), holders_kept_same.
  - rewrite (proj2 (Z.leb_le _ _)) by (rewrite Ec; simpl; lia).
    set (s0 := put_mutex m mx1 (enter_critical_section s)).
    destruct (wake_one_resched_ok (m_wait mx) wq t rest NO_ERROR [FExitReturn NO_ERROR] s0)
      as (c & th & qc & qt & s1 & u & s2 & Hc & Ht & Hqc & Hqt & E1 & Hwk & R & K2);
      try done; [by apply (kgood_ext _ s)|unfold s0; cbn; lia|].
    rewrite Hwk. kbind. cbn [finish]. kbind.
    assert (Hsf : same_frames t s s1).
    { rewrite E1. do 2 apply same_frames_readied. unfold taken_from. apply same_frames_upd; try done.
      apply same_frames_upd; try done. by apply (same_frames_ext _ _ s), same_frames_refl. }
    pose proof (switch_acquiring _ _ _ _ _ _ Hs Hsf R) as Hacq.
    assert (Hacq' : forall m' v, acquiring s2 m' v <-> acquiring s m' v).
    { intros m' v. rewrite Hacq. unfold acquire_frames. naive_solver. }
    destruct (rs_same _ _ _ _ R) as (Ew & _ & Et & Em & _).
    destruct (q_wait _ _ _ _ (k_queues _ _ K) _ wq Hw) as (Hnd & _ & _). rewrite El in Hnd.
    apply NoDup_cons in Hnd as [Hnt _].
    assert (Hat : acquiring s m t) by (apply Hl; set_solver).
    destruct (mutex_state_pass s s2 m t rest _ _ Hst Hat Hnt (Hacq' m)) as [Hst2 Hu2].
    assert (Hbr : forall th', threads s2 !! t = Some th' -> t_block_ret th' = NO_ERROR).
    { intros th' Ht'. destruct (taken_block_ret (m_wait mx) (w_magic wq) rest (w_count wq - 1) t NO_ERROR s0 th Ht) as (x & Hx & Er).
      destruct (readied_block_ret true (current_thread s0) c qc _ t x Hx) as (x1 & Hx1 & Er1).
      destruct (readied_block_ret true t th qt _ t x1 Hx1) as (x2 & Hx2 & Er2). rewrite <- E1 in Hx2.
      destruct (rs_threads _ _ _ _ R _ _ Hx2) as (x3 & Hx3 & _ & _ & _ & Er3). congruence. }
    assert (Em2 : mutexes s2 = <[m := mx1]> (mutexes s)) by (rewrite Em, E1; done).
    assert (Hsw : switching_inv s2).
    { split; [done|apply (switch_shaped _ _ _ _ _ _ Hs Hsf R)| |].
      - rewrite E1. change (shape [FReturn 1; FExitReturn NO_ERROR] (critical_section_count s + 1)). rewrite Hcs. constructor.
      - rewrite Et, E1. exact Htm.
      - apply (mutexes_ok_put s s2 m mx mx1 wq (WaitQueue (w_magic wq) rest (w_count wq - 1))); try done.
        + by rewrite Ew, E1.
        + intros m' t' th0 th' Hne Ha Ht' Ht2. destruct (switch_threads _ _ _ _ _ _ Hsf R t' th0 Ht') as (y & Hy & _ & Er).
          rewrite Ht2 in Hy. injection Hy as <-. apply Er. intros ->.
          destruct Hat as (a & Ha1 & Hf1), Ha as (b & Hb1 & Hf2). unfold acquire_frames in *. congruence.
        + intros t' Ht'. apply Hacq', Hl. cbn in Ht'. set_solver.
        + unfold mx1. cbn [m_holder m_count w_list]. rewrite Ec. simpl length.
          replace (1 + Z.of_nat (S (length rest)) - 1) with (1 + Z.of_nat (length rest)) by lia. exact Hst2.
        + cbn [w_list]. intros t' th' Hg Ht2. apply Hu2 in Hg as ->. by apply Hbr. }
    destruct (resume_ok s2 Hsw) as (s' & Hr & Hs' & Hk). exists s'. split_and!; try done.
    by apply (holders_kept_but_comp m mx1 s s2).
Qed.

(** ** Theorems *)
Lemma step_cases s s' :
  sysinv s -> step s s' -> sysinv s' /\
    (holders_kept s s' \/ exists m mx, mutexes s !! m = Some mx /\ m_holder mx = Some (current_thread s) /\
       finish (mutex_release m [] s) = Some s' /\ holders_kept_but m s s').
Proof.
  intros Hs Hst. destruct Hst as [s s' H|s s' H|m s s' Hid H|m s s' H].
  - destruct (yield_step s Hs) as (x & Hx & ? & ?). rewrite H in Hx. injection Hx as <-. auto.
  - destruct (irq_step s Hs) as (x & Hx & ? & ?). rewrite H in Hx. injection Hx as <-. auto.
  - destruct (mutexes s !! m) as [mx|] eqn:Hm; [|unfold mutex_acquire in H; by rewrite Hm in H].
    destruct (decide (m_holder mx = Some (current_thread s))) as [E|Hne].
    + unfold mutex_acquire in H. rewrite Hm in H. revert H. kbind. by rewrite decide_True.
    + destruct (acquire_step m mx s Hs Hm Hne Hid) as (x & Hx & ? & ?). rewrite H in Hx. injection Hx as <-. auto.
  - destruct (mutexes s !! m) as [mx|] eqn:Hm; [|unfold mutex_release in H; by rewrite Hm in H].
    destruct (decide (m_holder mx = Some (current_thread s))) as [E|Hne].
    + destruct (release_step m mx s Hs Hm E) as (x & Hx & ? & ?). rewrite H in Hx. injection Hx as <-.
      split; [done|]. right. by exists m, mx.
    + unfold mutex_release in H. rewrite Hm in H. revert H. kbind. by rewrite decide_True.
Qed.

Lemma steps_sysinv s s' : rtc step s s' -> sysinv s -> sysinv s'.
Proof. induction 1 as [|s1 s2 s3 Hst _ IH]; [done|]. intros Hs. by apply IH, (step_cases s1 s2 Hs Hst). Qed.

(** C5. Mutual exclusion: in every state the kernel reaches, a mutex that a
    thread holds goes on being held by that thread until this thread itself
    releases it. *)
Theorem mutex_exclusion s0 s s' m mx h :
  sysinv s0 -> rtc step s0 s -> step s s' -> mutexes s !! m = Some mx -> m_holder mx = Some h ->
  exists mx', mutexes s' !! m = Some mx' /\
    (m_holder mx' = Some h \/ (h = current_thread s /\ finish (mutex_release m [] s) = Some s')).
Proof.
  intros Hs0 Hr Hst Hm Hh.
  destruct (step_cases s s' (steps_sysinv _ _ Hr Hs0) Hst) as [_ [Hk|(n & nx & Hn & Hnh & Hf & [Hsome Hk])]].
  - destruct (Hk m mx Hm) as (mx' & Hm' & [E|E]); [congruence|]. exists mx'. split; [done|]. left. congruence.
  - destruct (decide (m = n)) as [->|Hne].
    + destruct Hsome as [mx' Hm']. exists mx'. split; [done|]. right. split; [congruence|done].
    + destruct (Hk m mx Hne Hm) as (mx' & Hm' & [E|E]); [congruence|]. exists mx'. split; [done|]. left. congruence.
Qed.

(** C22. The calls do not fail in any state the kernel reaches: no assertion and
    no panic of the scheduler, the wait queues or the mutexes is hit by yielding,
    by the timer interrupt, by acquiring a mutex the thread does not hold, or by
    releasing one it holds. *)
Theorem mutex_calls_succeed s0 s :
  sysinv s0 -> rtc step s0 s ->
  is_Some (finish (switching (thread_yield [] s))) /\ is_Some (arm_irq 1 s) /\
  forall m mx, mutexes s !! m = Some mx ->
    (m_holder mx <> Some (current_thread s) -> idle_thread s <> Some (current_thread s) ->
       is_Some (finish (mutex_acquire m [] s))) /\
    (m_holder mx = Some (current_thread s) -> is_Some (finish (mutex_release m [] s))).
Proof.
  intros Hs0 Hr. pose proof (steps_sysinv _ _ Hr Hs0) as Hs. split_and!.
  - destruct (yield_step s Hs) as (x & Hx & _). by eexists.
  - destruct (irq_step s Hs) as (x & Hx & _). by eexists.
  - intros m mx Hm. split.
    + intros Hh Hid. destruct (acquire_step m mx s Hs Hm Hh Hid) as (x & Hx & _). by eexists.
    + intros Hh. destruct (release_step m mx s Hs Hm Hh) as (x & Hx & _). by eexists.
Qed.

(** C23. No wake-up is lost, among threads that yield, are interrupted with no timer pending, acquire
    mutexes without a time-out and release them: in every state the kernel reaches by these
    steps, a mutex with waiters is held by a thread, or has been passed to one that can run
    and that becomes the holder when it does; and its count is the number of the waiters
    and that thread.  (With [mutex_acquire_timeout] it is not so: see
    [mutex_timeout_strands].) *)
Theorem mutex_no_lost_wakeup s0 s m mx wq :
  sysinv s0 -> rtc step s0 s -> mutexes s !! m = Some mx -> wait_queues s !! m_wait mx = Some wq ->
  w_list wq <> [] ->
  m_count mx = 1 + Z.of_nat (length (w_list wq)) /\
  ((exists h, m_holder mx = Some h) \/
   exists g th, threads s !! g = Some th /\ t_state th <> THREAD_BLOCKED /\
     t_frames th = acquire_frames m /\ t_block_ret th = NO_ERROR).
Proof.
  intros Hs0 Hr Hm Hw Hne. pose proof (steps_sysinv _ _ Hr Hs0) as [K _ _ _ Hmx].
  destruct (mo_state _ Hmx m mx Hm) as (_ & wq' & Hw' & _ & Hl & Hst). rewrite Hw in Hw'. injection Hw' as <-.
  pose proof (mo_granted _ Hmx m mx wq) as Hgr.
  inversion Hst as [El Hn Eh Ec | h Hn Eh Ec | g Hg Hu Eh Ec]; [done|by eauto|]. split; [done|]. right.
  destruct Hg as [(th & Ht & Hf) Hn]. exists g, th. split_and!; try done.
  - intros Hb. destruct (q_blocked _ _ _ _ (k_queues _ _ K) g _ (view_lookup _ _ _ Ht) Hb) as (w & Hbl & wq1 & Hw1).
    assert (Hin : g ∈ w_list wq1).
    { apply (q_wait _ _ _ _ (k_queues _ _ K) _ _ Hw1). eexists. split; [by apply view_lookup|done]. }
    destruct (mo_only _ Hmx w wq1 Hw1) as (m1 & x1 & Hm1 & <-); [by intros E; rewrite E in Hin; apply not_elem_of_nil in Hin|].
    destruct (mo_state _ Hmx m1 x1 Hm1) as (_ & wq2 & Hw2 & _ & Hl2 & _). rewrite Hw1 in Hw2. injection Hw2 as <-.
    destruct (Hl2 g Hin) as (th' & Ht' & Hf'). unfold acquire_frames in *.
    assert (m1 = m) as -> by congruence. assert (x1 = mx) as -> by congruence.
    assert (wq1 = wq) as -> by congruence. by apply Hn.
  - apply (Hgr g th Hm Hw); [|done]. split; [by exists th|done].
Qed.

(** ** Timed waits

    With [mutex_acquire_timeout] the wake-up can be lost.  Thread 1 holds the
    mutex; thread 2 waits for it with a timeout, which expires; before thread 2
    runs again, thread 1 releases the mutex: the count still includes thread 2,
    so that the mutex is left with a count of 1 and no holder, and the next
    acquire waits although no thread holds the mutex or ever will. *)
Definition set_time (now : Z) (s : kstate) : kstate :=
  KState (threads s) (thread_list s) (current_thread s) (critical_section_count s) (run_queue s)
    (run_queue_bitmap s) (idle_thread s) (wait_queues s) (ktimers s) (mutexes s) (events s) (dpc_list s) now.

Definition lock_thread (p : Z) (st : thread_state) (k : list frame) : thread :=
  Thread THREAD_MAGIC [] p st 1 5 None 0 DEFAULT_STACK_SIZE 0 0 0 k 0.

(** The idle thread 0, the current thread 1 and the ready thread 2, both of the
    priority 16, and a free mutex 0 with the wait queue 0. *)
Definition lock_sample : kstate :=
  KState (list_to_map [(0%nat, lock_thread 0 THREAD_READY [FExit]);
                       (1%nat, lock_thread 16 THREAD_RUNNING []);
                       (2%nat, lock_thread 16 THREAD_READY [FExit])])
    [0; 1; 2]%nat 1 0
    (<[0%nat := [0%nat]]> (<[16%nat := [2%nat]]> (replicate 32 []))) (1 + 2 ^ 16) (Some 0%nat)
    {[ 0%nat := WaitQueue WAIT_QUEUE_MAGIC [] 0 ]} timer_init
    {[ 0%nat := Mutex MUTEX_MAGIC 0 None 0 ]} ∅ [] 0.

Definition strand (s : kstate) : option kstate :=
  s ← finish (mutex_acquire 0 [] s);              (* thread 1 *)
  s ← finish (switching (thread_yield [] s));
  s ← finish (mutex_acquire_timeout 0 10 [] s);   (* thread 2 *)
  s ← arm_irq 2 (set_time 20 s);                  (* thread 1 is interrupted *)
  s ← finish (mutex_release 0 [] s);
  s ← finish (mutex_acquire 0 [] s);
  finish (mutex_acquire 0 [] s).                  (* thread 2, after its time-out *)

(** A time-out of [mutex_acquire_timeout] that races with the release loses
    the mutex: all threads but the idle one end up waiting for a mutex that no
    thread holds. *)
Theorem mutex_timeout_strands :
  exists s, strand lock_sample = Some s /\ mutexes s !! 0%nat = Some (Mutex MUTEX_MAGIC 2 None 0) /\
    wait_queues s !! 0%nat = Some (WaitQueue WAIT_QUEUE_MAGIC [1; 2]%nat 2) /\
    current_thread s = 0%nat /\ idle_thread s = Some 0%nat /\ run_queue_bitmap s = 0.
Proof. eexists. split; [vm_compute; reflexivity|]. vm_compute. done. Qed.

(** ** Witnesses *)
Lemma lock_sample_thread t th :
  threads lock_sample !! t = Some th ->
  (t = 0%nat /\ th = lock_thread 0 THREAD_READY [FExit]) \/
  (t = 1%nat /\ th = lock_thread 16 THREAD_RUNNING []) \/ (t = 2%nat /\ th = lock_thread 16 THREAD_READY [FExit]).
Proof.
  intros Ht%elem_of_list_to_map_2.
  repeat (apply elem_of_cons in Ht as [[= -> ->]|Ht]; [by auto|]). by apply not_elem_of_nil in Ht.
Qed.

Lemma lock_sample_sysinv : sysinv lock_sample.
Proof.
  assert (Hna : forall m t, ~ acquiring lock_sample m t).
  { intros m t (th & Ht & Hf). by apply lock_sample_thread in Ht as [[-> ->]|[[-> ->]|[-> ->]]]. }
  split.
  - apply state_fine_kinv, (bool_decide_unpack _). vm_compute. exact I.
  - done.
  - intros t th Ht. apply lock_sample_thread in Ht as [[-> ->]|[[-> ->]|[-> ->]]]; cbn;
      [|done|]; (exists 1; split; [reflexivity|constructor]).
  - done.
  - split.
    + intros m mx Hm. unfold lock_sample, mutexes in Hm. apply lookup_singleton_Some in Hm as [<- <-].
      split; [done|]. eexists. split; [reflexivity|]. split; [done|]. cbn. split.
      * intros t Ht. by apply not_elem_of_nil in Ht.
      * apply mutex_free; [done|]. intros t [Ha _]. by eapply Hna.
    + intros m t Ha. by apply Hna in Ha.
    + intros m mx wq t th _ _ [Ha _]. by apply Hna in Ha.
    + intros m m' mx mx' Hm Hm' _. unfold lock_sample, mutexes in *.
      apply lookup_singleton_Some in Hm as [<- _]. by apply lookup_singleton_Some in Hm' as [<- _].
    + intros w wq Hw Hne. unfold lock_sample, wait_queues in Hw. by apply lookup_singleton_Some in Hw as [<- <-].
Qed.

(** Thread 1 has the mutex; thread 2 runs; thread 2 waits for the mutex. *)
Definition lock_held : kstate := default lock_sample (finish (mutex_acquire 0 [] lock_sample)).
Definition lock_other : kstate := default lock_sample (finish (switching (thread_yield [] lock_held))).
Definition lock_waiting : kstate := default lock_sample (finish (mutex_acquire 0 [] lock_other)).

Lemma lock_step1 : step lock_sample lock_held.
Proof. apply (step_acquire 0); [done|]. vm_compute. reflexivity. Qed.
Lemma lock_step2 : step lock_held lock_other.
Proof. apply step_yield. vm_compute. reflexivity. Qed.
Lemma lock_step3 : step lock_other lock_waiting.
Proof. apply (step_acquire 0); [done|]. vm_compute. reflexivity. Qed.

Lemma mutex_exclusion_witness :
  exists mx', mutexes lock_other !! 0%nat = Some mx' /\
    (m_holder mx' = Some 1%nat \/ (1%nat = current_thread lock_held /\ finish (mutex_release 0 [] lock_held) = Some lock_other)).
Proof.
  apply (mutex_exclusion lock_sample lock_held lock_other 0 (Mutex MUTEX_MAGIC 1 (Some 1%nat) 0) 1);
    [exact lock_sample_sysinv|apply rtc_once, lock_step1|exact lock_step2|vm_compute; reflexivity|reflexivity].
Defined.

Lemma mutex_calls_succeed_witness :
  is_Some (finish (switching (thread_yield [] lock_held))) /\ is_Some (arm_irq 1 lock_held) /\
  forall m mx, mutexes lock_held !! m = Some mx ->
    (m_holder mx <> Some (current_thread lock_held) -> idle_thread lock_held <> Some (current_thread lock_held) ->
       is_Some (finish (mutex_acquire m [] lock_held))) /\
    (m_holder mx = Some (current_thread lock_held) -> is_Some (finish (mutex_release m [] lock_held))).
Proof.
  apply (mutex_calls_succeed lock_sample lock_held); [exact lock_sample_sysinv|apply rtc_once, lock_step1].
Defined.

Lemma mutex_no_lost_wakeup_witness :
  2 = 1 + Z.of_nat (length [2%nat]) /\
  ((exists h, Some 1%nat = Some h) \/
   exists g th, threads lock_waiting !! g = Some th /\ t_state th <> THREAD_BLOCKED /\
     t_frames th = acquire_frames 0 /\ t_block_ret th = NO_ERROR).
Proof.
  apply (mutex_no_lost_wakeup lock_sample lock_waiting 0 (Mutex MUTEX_MAGIC 2 (Some 1%nat) 0)
           (WaitQueue WAIT_QUEUE_MAGIC [2%nat] 1));
    [exact lock_sample_sysinv| |vm_compute; reflexivity|vm_compute; reflexivity|done].
  eapply rtc_l; [exact lock_step1|]. eapply rtc_l; [exact lock_step2|]. apply rtc_once, lock_step3.
Defined.
