(* ===== verification/Bio.v ===== *)
(** * Block devices ([lib/bio/bio.c], [lib/bio/mem.c], [lib/bio/subdev.c])

    A device is a table of hooks ([bdev_t]'s function pointers): the classes
    [BlockHooks] (the block operations a driver provides), [ByteHooks] (the byte
    operations) and [EraseHook].  The range checks of [bio_read], [bio_write], ...
    and the default hooks, which split a byte range into blocks, are functions
    over these classes; memory devices and sub-devices are instances, a
    sub-device over any device.  [BlockLaws] and [ByteLaws] state what the hooks
    promise, in terms of the bytes the device holds; the default hooks give the
    second from the first.

    A read takes the caller's buffer and returns it with the result, so that
    bytes it does not write are seen to be left alone; the buffer a block is read
    into on the stack has arbitrary contents, [garbage]. *)
From stdpp Require Import base gmap list.
From Stdlib Require Import ZArith Lia.
From S2P Require Import Prelude.
#[local] Open Scope Z_scope.

Definition bytes := list Z.

Class BlockHooks (D : Type) := {
  block_size : D -> Z;
  block_count : D -> Z;
  read_block : D -> bytes -> Z -> Z -> Z * bytes;
  write_block : D -> bytes -> Z -> Z -> Z * D
}.

Class ByteHooks (D : Type) := {
  dev_size : D -> Z;
  read : D -> bytes -> Z -> Z -> Z * bytes;
  write : D -> bytes -> Z -> Z -> Z * D
}.

Class EraseHook (D : Type) := { erase : D -> Z -> Z -> Z * D }.

(** ** Range checks *)
Section Checks.
Context {D : Type} `{BlockHooks D} `{ByteHooks D} `{EraseHook D}.

Definition bio_read_block (dev : D) (buf : bytes) (block count : Z) : Z * bytes :=
  if block_count dev <? block then (0, buf) else
  if count =? 0 then (0, buf) else
  let count := if block_count dev <? u32 (block + count) then u32 (block_count dev - block) else count in
  read_block dev buf block count.

Definition bio_write_block (dev : D) (buf : bytes) (block count : Z) : Z * D :=
  if block_count dev <? block then (0, dev) else
  if count =? 0 then (0, dev) else
  let count := if block_count dev <? u32 (block + count) then u32 (block_count dev - block) else count in
  write_block dev buf block count.

Definition bio_read (dev : D) (buf : bytes) (offset len : Z) : Z * bytes :=
  if offset <? 0 then (-1, buf) else
  if dev_size dev <=? offset then (0, buf) else
  if len =? 0 then (0, buf) else
  let len := if dev_size dev <? offset + len then u32 (dev_size dev - offset) else len in
  read dev buf offset len.

Definition bio_write (dev : D) (buf : bytes) (offset len : Z) : Z * D :=
  if offset <? 0 then (-1, dev) else
  if dev_size dev <=? offset then (0, dev) else
  if len =? 0 then (0, dev) else
  let len := if dev_size dev <? offset + len then u32 (dev_size dev - offset) else len in
  write dev buf offset len.

Definition bio_erase (dev : D) (offset len : Z) : Z * D :=
  if offset <? 0 then (-1, dev) else
  if dev_size dev <=? offset then (0, dev) else
  if len =? 0 then (0, dev) else
  let len := if dev_size dev <? offset + len then u32 (dev_size dev - offset) else len in
  erase dev offset len.

(** ** The default hooks *)

(** [bio_default_read]: [out] are the bytes already in the caller's buffer,
    [rest] the buffer from the advanced pointer on; [garbage] is what the buffer
    for a block on the stack holds. *)
Definition default_read_last (garbage : bytes) (dev : D) (out rest : bytes) (block len bytes_read : Z)
  : Z * bytes :=
  if 0 <? len then
    let '(err, temp) := bio_read_block dev garbage block 1 in
    if err <? 0 then (err, out ++ rest) else
    (bytes_read + len, out ++ overlay 0 (slice 0 len temp) rest)
  else (bytes_read, out ++ rest).

Definition default_read_middle (garbage : bytes) (dev : D) (out rest : bytes) (block len bytes_read : Z)
  : Z * bytes :=
  if block_size dev <=? len then
    let count := len / block_size dev in
    let '(err, rest) := bio_read_block dev rest block count in
    if err <? 0 then (err, out ++ rest) else
    let n := count * block_size dev in
    default_read_last garbage dev (out ++ slice 0 n rest) (drop (Z.to_nat n) rest) (u32 (block + count))
      (len - n) (bytes_read + n)
  else default_read_last garbage dev out rest block len bytes_read.

Definition bio_default_read (garbage : bytes) (dev : D) (buf : bytes) (offset len : Z) : Z * bytes :=
  let block := u32 (offset / block_size dev) in
  let block_offset := offset mod block_size dev in
  if negb (block_offset =? 0) then
    let '(err, temp) := bio_read_block dev garbage block 1 in
    if err <? 0 then (err, buf) else
    let tocopy := Z.min (block_size dev - block_offset) len in
    default_read_middle temp dev (slice block_offset tocopy temp) (drop (Z.to_nat tocopy) buf)
      (u32 (block + 1)) (len - tocopy) tocopy
  else default_read_middle garbage dev [] buf block len 0.

(** [bio_default_write]; [buf] is what is left of the caller's buffer. *)
Definition default_write_last (garbage : bytes) (dev : D) (buf : bytes) (block len bytes_written : Z)
  : Z * D :=
  if 0 <? len then
    let '(err, temp) := bio_read_block dev garbage block 1 in
    if err <? 0 then (err, dev) else
    let temp := overlay 0 (slice 0 len buf) temp in
    let '(err, dev) := bio_write_block dev temp block 1 in
    if err <? 0 then (err, dev) else (bytes_written + len, dev)
  else (bytes_written, dev).

Definition default_write_middle (garbage : bytes) (dev : D) (buf : bytes) (block len bytes_written : Z)
  : Z * D :=
  if block_size dev <=? len then
    let count := len / block_size dev in
    let n := count * block_size dev in
    let '(err, dev) := bio_write_block dev buf block count in
    if err <? 0 then (err, dev) else
    default_write_last garbage dev (drop (Z.to_nat n) buf) (u32 (block + count)) (len - n) (bytes_written + n)
  else default_write_last garbage dev buf block len bytes_written.

Definition bio_default_write (garbage : bytes) (dev : D) (buf : bytes) (offset len : Z) : Z * D :=
  let block := u32 (offset / block_size dev) in
  let block_offset := offset mod block_size dev in
  if negb (block_offset =? 0) then
    let '(err, temp) := bio_read_block dev garbage block 1 in
    if err <? 0 then (err, dev) else
    let tocopy := Z.min (block_size dev - block_offset) len in
    let temp := overlay block_offset (slice 0 tocopy buf) temp in
    let '(err, dev) := bio_write_block dev temp block 1 in
    if err <? 0 then (err, dev) else
    default_write_middle temp dev (drop (Z.to_nat tocopy) buf) (u32 (block + 1)) (len - tocopy) tocopy
  else default_write_middle garbage dev buf block len 0.

Definition ERASE_BUF_SIZE : Z := 4096.

(** The loop of [bio_default_erase]; [fuel] bounds how often it goes round. *)
Fixpoint erase_loop (fuel : nat) (dev : D) (pos remaining len : Z) : option (Z * D) :=
  match fuel with
  | O => None
  | S fuel =>
      if 0 <? remaining then
        let towrite := Z.min remaining ERASE_BUF_SIZE in
        let '(written, dev) := bio_write dev (replicate (Z.to_nat ERASE_BUF_SIZE) 0) pos towrite in
        if written <? 0 then Some (s32 pos, dev) else
        let pos := pos + written in
        let remaining := remaining - written in
        if written <? towrite then Some (s32 pos, dev) else erase_loop fuel dev pos remaining len
      else Some (s32 len, dev)
  end.

Definition bio_default_erase (dev : D) (offset len : Z) : Z * D :=
  default (-1, dev) (erase_loop (Z.to_nat (len / ERASE_BUF_SIZE) + 2) dev offset len len).
End Checks.

(** ** What the hooks promise *)
Class BlockLaws (D : Type) `{BlockHooks D} := {
  wf : D -> Prop;
  contents : D -> bytes;
  geometry : forall d, wf d -> 0 < block_size d < 2 ^ 31 /\ 0 <= block_count d < 2 ^ 32 /\
    zlen (contents d) = block_count d * block_size d;
  read_block_ok : forall d buf block count, wf d -> 0 <= block -> 0 < count ->
    block + count <= block_count d -> count * block_size d < 2 ^ 31 ->
    count * block_size d <= zlen buf ->
    read_block d buf block count =
      (count * block_size d, overlay 0 (slice (block * block_size d) (count * block_size d) (contents d)) buf);
  write_block_ok : forall d buf block count, wf d -> 0 <= block -> 0 < count ->
    block + count <= block_count d -> count * block_size d < 2 ^ 31 ->
    count * block_size d <= zlen buf ->
    exists d', write_block d buf block count = (count * block_size d, d') /\ wf d' /\
      block_size d' = block_size d /\ block_count d' = block_count d /\
      contents d' = overlay (block * block_size d) (slice 0 (count * block_size d) buf) (contents d)
}.

Class ByteLaws (D : Type) `{BlockLaws D} `{ByteHooks D} := {
  size_ok : forall d, wf d -> dev_size d = zlen (contents d);
  read_ok : forall d buf offset len, wf d -> 0 <= offset -> 0 < len -> len < 2 ^ 31 ->
    offset + len <= dev_size d -> len <= zlen buf ->
    read d buf offset len = (len, overlay 0 (slice offset len (contents d)) buf);
  write_ok : forall d buf offset len, wf d -> 0 <= offset -> 0 < len -> len < 2 ^ 31 ->
    offset + len <= dev_size d -> len <= zlen buf ->
    exists d', write d buf offset len = (len, d') /\ wf d' /\
      block_size d' = block_size d /\ block_count d' = block_count d /\
      contents d' = overlay offset (slice 0 len buf) (contents d)
}.

(** ** The default byte operations implement the promise *)
Lemma overlay_full {A} (b l : list A) : zlen b = zlen l -> overlay 0 b l = b.
Proof.
  unfold zlen, overlay. intros E. simpl. rewrite drop_ge by lia. apply app_nil_r.
Qed.

Lemma overlay_prefix {A} (b l : list A) : overlay 0 b l = b ++ drop (length b) l.
Proof. done. Qed.

Lemma slice_prefix {A} n (b l : list A) : zlen b = n -> slice 0 n (overlay 0 b l) = b.
Proof.
  intros <-. unfold slice, zlen. rewrite drop_0, Nat2Z.id, overlay_prefix. apply take_app_length.
Qed.

Lemma drop_prefix {A} n (b l : list A) :
  zlen b = n -> drop (Z.to_nat n) (overlay 0 b l) = drop (Z.to_nat n) l.
Proof. intros <-. unfold zlen. rewrite Nat2Z.id, overlay_prefix. apply drop_app_length. Qed.

Section Default.
Context {D : Type} `{BlockLaws D}.
Implicit Types dev : D.

(** In range, the checks pass the call on unchanged. *)
Lemma bio_read_block_ok dev buf block count :
  wf dev -> 0 <= block -> 0 < count -> block + count <= block_count dev ->
  count * block_size dev < 2 ^ 31 -> count * block_size dev <= zlen buf ->
  bio_read_block dev buf block count =
    (count * block_size dev, overlay 0 (slice (block * block_size dev) (count * block_size dev) (contents dev)) buf).
Proof.
  intros W Hb Hc Hr Hs Hl. destruct (geometry dev W) as (_ & ? & _). unfold bio_read_block.
  rewrite (proj2 (Z.ltb_ge _ _)), (proj2 (Z.eqb_neq _ _)) by lia.
  rewrite u32_small, (proj2 (Z.ltb_ge _ _)) by lia. by apply read_block_ok.
Qed.

Lemma bio_write_block_ok dev buf block count :
  wf dev -> 0 <= block -> 0 < count -> block + count <= block_count dev ->
  count * block_size dev < 2 ^ 31 -> count * block_size dev <= zlen buf ->
  exists d', bio_write_block dev buf block count = (count * block_size dev, d') /\ wf d' /\
    block_size d' = block_size dev /\ block_count d' = block_count dev /\
    contents d' = overlay (block * block_size dev) (slice 0 (count * block_size dev) buf) (contents dev).
Proof.
  intros W Hb Hc Hr Hs Hl. destruct (geometry dev W) as (_ & ? & _). unfold bio_write_block.
  rewrite (proj2 (Z.ltb_ge _ _)), (proj2 (Z.eqb_neq _ _)) by lia.
  rewrite u32_small, (proj2 (Z.ltb_ge _ _)) by lia. by apply write_block_ok.
Qed.

(** One block in the buffer on the stack. *)
Lemma read_one dev garbage block :
  wf dev -> 0 <= block < block_count dev -> zlen garbage = block_size dev ->
  bio_read_block dev garbage block 1 =
    (block_size dev, slice (block * block_size dev) (block_size dev) (contents dev)).
Proof.
  intros W Hb Hg. destruct (geometry dev W) as (? & ? & Hl).
  rewrite bio_read_block_ok by (try done; lia). rewrite Z.mul_1_l, overlay_full; [done|].
  rewrite slice_len; [lia|nia..].
Qed.

Lemma default_read_last_ok garbage dev out rest block len n :
  wf dev -> zlen garbage = block_size dev -> 0 <= block -> 0 <= len < block_size dev ->
  block * block_size dev + len <= zlen (contents dev) -> len <= zlen rest ->
  default_read_last garbage dev out rest block len n =
    (n + len, out ++ overlay 0 (slice (block * block_size dev) len (contents dev)) rest).
Proof.
  intros W Hg Hb Hl Hc Hr. destruct (geometry dev W) as (? & ? & Hlc). unfold default_read_last.
  destruct (Z.ltb_spec 0 len) as [Hlt|Hge].
  - rewrite read_one by (try done; nia). rewrite (proj2 (Z.ltb_ge _ _)) by lia.
    rewrite slice_slice by lia. by rewrite Z.add_0_r.
  - replace len with 0 by lia. unfold slice. rewrite Z.add_0_r. by rewrite overlay_prefix, drop_0.
Qed.

Lemma overlay_prefix_app {A} n (b c l : list A) :
  zlen b = n -> b ++ overlay 0 c (drop (Z.to_nat n) l) = overlay 0 (b ++ c) l.
Proof.
  intros <-. unfold zlen. rewrite Nat2Z.id, !overlay_prefix, drop_drop, length_app, <- app_assoc. done.
Qed.

(** The whole blocks in a range of bytes. *)
Lemma whole_blocks bs bc block len :
  0 < bs -> 0 <= block -> bs <= len -> block * bs + len <= bc * bs ->
  0 < len / bs /\ len / bs * bs <= len /\ 0 <= len - len / bs * bs < bs /\ block + len / bs <= bc.
Proof.
  intros Hbs Hb Hl Hc. pose proof (Z.div_mod len bs). pose proof (Z.mod_pos_bound len bs).
  assert (0 < len / bs) by (apply Z.div_str_pos; lia). split_and!; nia.
Qed.

Lemma default_read_middle_ok garbage dev out rest block len n :
  wf dev -> zlen garbage = block_size dev -> 0 <= block -> 0 <= len < 2 ^ 31 ->
  block * block_size dev + len <= zlen (contents dev) -> len <= zlen rest ->
  default_read_middle garbage dev out rest block len n =
    (n + len, out ++ overlay 0 (slice (block * block_size dev) len (contents dev)) rest).
Proof.
  intros W Hg Hb Hl Hc Hr. destruct (geometry dev W) as (? & ? & Hlc). unfold default_read_middle.
  destruct (Z.leb_spec (block_size dev) len) as [Hle|Hgt]; [|by apply default_read_last_ok; try lia].
  destruct (whole_blocks (block_size dev) (block_count dev) block len) as (Hp & Hn & Hm & Hbc); [lia..|].
  rewrite bio_read_block_ok by (try done; nia). rewrite (proj2 (Z.ltb_ge _ _)) by nia.
  set (k := len / block_size dev * block_size dev) in *.
  assert (Hsl : zlen (slice (block * block_size dev) k (contents dev)) = k) by (apply slice_len; nia).
  rewrite (slice_prefix k _ _ Hsl), (drop_prefix k _ _ Hsl), u32_small by nia.
  rewrite default_read_last_ok; [|done|done|nia|lia|unfold k; nia|unfold zlen in *; rewrite length_drop; lia].
  f_equal; [lia|]. rewrite <- app_assoc. f_equal.
  rewrite overlay_prefix_app by done. f_equal.
  replace ((block + len / block_size dev) * block_size dev) with (block * block_size dev + k) by (unfold k; lia).
  rewrite slice_app by nia. f_equal. lia.
Qed.

Lemma bio_default_read_ok garbage dev buf offset len :
  wf dev -> zlen garbage = block_size dev -> 0 <= offset -> 0 < len < 2 ^ 31 ->
  offset + len <= zlen (contents dev) -> len <= zlen buf ->
  bio_default_read garbage dev buf offset len = (len, overlay 0 (slice offset len (contents dev)) buf).
Proof.
  intros W Hg Ho Hl Hc Hr. destruct (geometry dev W) as (Hbs & ? & Hlc). unfold bio_default_read.
  assert (Hdm : offset = block_size dev * (offset / block_size dev) + offset mod block_size dev)
    by (apply Z.div_mod; lia).
  assert (Hmb : 0 <= offset mod block_size dev < block_size dev) by (apply Z.mod_pos_bound; lia).
  assert (0 <= offset / block_size dev) by (apply Z.div_pos; lia).
  set (b := offset / block_size dev) in *. set (r := offset mod block_size dev) in *.
  assert (Hbc : b < block_count dev) by nia.
  rewrite (u32_small b) by lia. destruct (Z.eqb_spec r 0) as [Hr0|Hr0]; cbn [negb].
  - rewrite default_read_middle_ok by (try done; nia). f_equal. simpl.
    replace (b * block_size dev) with offset by lia. done.
  - rewrite read_one by (try done; lia). rewrite (proj2 (Z.ltb_ge _ _)) by lia.
    set (t := Z.min (block_size dev - r) len).
    assert (Hsl : zlen (slice (b * block_size dev) (block_size dev) (contents dev)) = block_size dev)
      by (apply slice_len; nia).
    assert (Eo : b * block_size dev + r = offset) by lia.
    destruct (Z.le_gt_cases len (block_size dev - r)) as [Hshort|Hlong].
    + assert (t = len) as -> by lia. rewrite Z.sub_diag.
      unfold default_read_middle, default_read_last. rewrite (proj2 (Z.leb_gt _ _)) by lia. simpl.
      rewrite slice_slice, Eo by lia. rewrite overlay_prefix. f_equal. f_equal. f_equal.
      pose proof (slice_len offset len (contents dev)). unfold zlen in *. lia.
    + assert (t = block_size dev - r) as Et by lia.
      rewrite u32_small, default_read_middle_ok; try done; try nia; [|unfold zlen in *; rewrite length_drop; lia].
      f_equal; [lia|]. rewrite slice_slice, Eo by lia.
      rewrite overlay_prefix_app by (apply slice_len; lia). f_equal.
      replace ((b + 1) * block_size dev) with (offset + t) by nia.
      rewrite slice_app by lia. f_equal. lia.
Qed.

(** Writing back a block that was patched. *)
Lemma patch_block {A} o r n (b c : list A) :
  0 <= o -> 0 <= r -> r + zlen b <= n -> o + n <= zlen c ->
  overlay o (overlay r b (slice o n c)) c = overlay (o + r) b c.
Proof.
  intros. pose proof (zlen_nonneg b). assert (zlen (slice o n c) = n) by (apply slice_len; lia).
  rewrite overlay_overlay_in by lia. by rewrite overlay_slice_id by lia.
Qed.

Lemma slice_drop {A} k n (l : list A) : 0 <= k -> slice 0 n (drop (Z.to_nat k) l) = slice k n l.
Proof. intros. unfold slice. by rewrite drop_0. Qed.

Lemma zlen_drop {A} k (l : list A) : 0 <= k <= zlen l -> zlen (drop (Z.to_nat k) l) = zlen l - k.
Proof. unfold zlen. intros. rewrite length_drop. lia. Qed.

(** What a write reaches. *)
Definition written (dev : D) (offset : Z) (data : bytes) (d' : D) : Prop :=
  wf d' /\ block_size d' = block_size dev /\ block_count d' = block_count dev /\
  contents d' = overlay offset data (contents dev).

Lemma written_trans dev d1 d2 o (b b' : bytes) :
  written dev o b d1 -> written d1 (o + zlen b) b' d2 -> 0 <= o ->
  o + zlen b + zlen b' <= zlen (contents dev) -> written dev o (b ++ b') d2.
Proof.
  intros (W1 & Es1 & Ec1 & E1) (W2 & Es2 & Ec2 & E2) Ho Hl. split_and!; [done|congruence..|].
  rewrite E2, E1. by apply overlay_app.
Qed.

(** Read, patch and write back one block. *)
Lemma patch_one dev (garbage : bytes) block r (b : bytes) :
  wf dev -> zlen garbage = block_size dev -> 0 <= block < block_count dev -> 0 <= r ->
  r + zlen b <= block_size dev ->
  exists d', bio_write_block dev (overlay r b (slice (block * block_size dev) (block_size dev) (contents dev))) block 1
               = (block_size dev, d') /\ written dev (block * block_size dev + r) b d'.
Proof.
  intros W Hg Hb Hr Hl. destruct (geometry dev W) as (Hbs & ? & Hlc). pose proof (zlen_nonneg b).
  assert (Hsl : zlen (slice (block * block_size dev) (block_size dev) (contents dev)) = block_size dev)
    by (apply slice_len; nia).
  assert (Hov : zlen (overlay r b (slice (block * block_size dev) (block_size dev) (contents dev))) = block_size dev)
    by (rewrite overlay_len; lia).
  destruct (bio_write_block_ok dev (overlay r b (slice (block * block_size dev) (block_size dev) (contents dev))) block 1)
    as (d' & E & W' & Es & Ec & E'); [done|lia..|].
  exists d'. rewrite E, Z.mul_1_l. split; [done|]. split_and!; try done. rewrite E', Z.mul_1_l.
  assert (Eall : forall l : bytes, zlen l = block_size dev -> slice 0 (block_size dev) l = l)
    by (intros l <-; apply slice_all).
  rewrite Eall by done. apply patch_block; nia.
Qed.

Lemma default_write_last_ok garbage dev buf block len n :
  wf dev -> zlen garbage = block_size dev -> 0 <= block -> 0 <= len < block_size dev ->
  block * block_size dev + len <= zlen (contents dev) -> len <= zlen buf ->
  exists d', default_write_last garbage dev buf block len n = (n + len, d') /\
    written dev (block * block_size dev) (slice 0 len buf) d'.
Proof.
  intros W Hg Hb Hl Hc Hr. destruct (geometry dev W) as (? & ? & Hlc). unfold default_write_last.
  destruct (Z.ltb_spec 0 len) as [Hlt|Hge].
  - rewrite read_one by (try done; nia). rewrite (proj2 (Z.ltb_ge _ _)) by lia.
    destruct (patch_one dev garbage block 0 (slice 0 len buf)) as (d' & E & Hw);
      [done|done|nia|lia|rewrite slice_len; lia|].
    rewrite E, (proj2 (Z.ltb_ge _ _)) by lia. rewrite Z.add_0_r in Hw. by exists d'.
  - replace len with 0 by lia. exists dev. rewrite Z.add_0_r. split; [done|]. split_and!; try done.
    unfold slice, overlay. simpl. rewrite Nat.add_0_r, take_drop. done.
Qed.

Lemma default_write_middle_ok garbage dev buf block len n :
  wf dev -> zlen garbage = block_size dev -> 0 <= block -> 0 <= len < 2 ^ 31 ->
  block * block_size dev + len <= zlen (contents dev) -> len <= zlen buf ->
  exists d', default_write_middle garbage dev buf block len n = (n + len, d') /\
    written dev (block * block_size dev) (slice 0 len buf) d'.
Proof.
  intros W Hg Hb Hl Hc Hr. destruct (geometry dev W) as (? & ? & Hlc). unfold default_write_middle.
  destruct (Z.leb_spec (block_size dev) len) as [Hle|Hgt]; [|by apply default_write_last_ok; try lia].
  destruct (whole_blocks (block_size dev) (block_count dev) block len) as (Hp & Hn & Hm & Hbc); [lia..|].
  destruct (bio_write_block_ok dev buf block (len / block_size dev)) as (d1 & E & W1 & Es & Ec & E1); [done|nia..|].
  rewrite E, (proj2 (Z.ltb_ge _ _)) by nia.
  set (k := len / block_size dev * block_size dev) in *.
  assert (Hk : zlen (slice 0 k buf) = k) by (apply slice_len; lia).
  rewrite u32_small by nia.
  assert (Hl1 : zlen (contents d1) = zlen (contents dev)) by (rewrite E1, overlay_len; nia).
  assert (Epos : (block + len / block_size dev) * block_size dev = block * block_size dev + k) by (unfold k; lia).
  destruct (default_write_last_ok garbage d1 (drop (Z.to_nat k) buf) (block + len / block_size dev) (len - k) (n + k))
    as (d2 & E2 & Hw2); rewrite ?Es, ?Epos, ?Hl1, ?zlen_drop; try done; try lia.
  exists d2. rewrite E2. split; [f_equal; lia|].
  rewrite slice_drop in Hw2 by lia. rewrite Es, Epos in Hw2.
  replace (slice 0 len buf) with (slice 0 k buf ++ slice (0 + k) (len - k) buf)
    by (rewrite slice_app by lia; f_equal; lia).
  apply (written_trans dev d1); [by split_and!|by rewrite Hk|nia|].
  rewrite Hk, slice_len; lia.
Qed.

Lemma bio_default_write_ok garbage dev buf offset len :
  wf dev -> zlen garbage = block_size dev -> 0 <= offset -> 0 < len < 2 ^ 31 ->
  offset + len <= zlen (contents dev) -> len <= zlen buf ->
  exists d', bio_default_write garbage dev buf offset len = (len, d') /\
    written dev offset (slice 0 len buf) d'.
Proof.
  intros W Hg Ho Hl Hc Hr. destruct (geometry dev W) as (Hbs & ? & Hlc). unfold bio_default_write.
  assert (Hdm : offset = block_size dev * (offset / block_size dev) + offset mod block_size dev)
    by (apply Z.div_mod; lia).
  assert (Hmb : 0 <= offset mod block_size dev < block_size dev) by (apply Z.mod_pos_bound; lia).
  assert (0 <= offset / block_size dev) by (apply Z.div_pos; lia).
  set (b := offset / block_size dev) in *. set (r := offset mod block_size dev) in *.
  assert (Hbc : b < block_count dev) by nia.
  rewrite (u32_small b) by lia. destruct (Z.eqb_spec r 0) as [Hr0|Hr0]; cbn [negb].
  - destruct (default_write_middle_ok garbage dev buf b len 0) as (d' & E & Hw); [done|done|nia..|].
    exists d'. rewrite E. split; [f_equal; lia|]. replace offset with (b * block_size dev) by lia. done.
  - rewrite read_one by (try done; lia). rewrite (proj2 (Z.ltb_ge _ _)) by lia.
    set (t := Z.min (block_size dev - r) len).
    assert (Ht : zlen (slice 0 t buf) = t) by (apply slice_len; lia).
    destruct (patch_one dev garbage b r (slice 0 t buf)) as (d1 & E1 & Hw1); [done|done|lia|lia|lia|].
    rewrite E1, (proj2 (Z.ltb_ge _ _)), u32_small by lia.
    assert (Eo : b * block_size dev + r = offset) by lia. rewrite Eo in Hw1.
    pose proof Hw1 as (W1 & Es & Ec & Ec1).
    assert (Hl1 : zlen (contents d1) = zlen (contents dev)) by (rewrite Ec1, overlay_len; lia).
    assert (Hsl : zlen (slice (b * block_size dev) (block_size dev) (contents dev)) = block_size dev)
      by (apply slice_len; nia).
    destruct (Z.le_gt_cases len (block_size dev - r)) as [Hshort|Hlong].
    + assert (t = len) as Et by lia. rewrite Et, Z.sub_diag.
      unfold default_write_middle, default_write_last. rewrite (proj2 (Z.leb_gt _ _)) by lia.
      rewrite Et in Hw1. by exists d1.
    + assert (t = block_size dev - r) as Et by lia.
      destruct (default_write_middle_ok (overlay r (slice 0 t buf) (slice (b * block_size dev) (block_size dev) (contents dev)))
        d1 (drop (Z.to_nat t) buf) (b + 1) (len - t) t) as (d2 & E2 & Hw2);
        rewrite ?Es, ?Hl1, ?zlen_drop; try done; try nia.
      { rewrite overlay_len; lia. }
      exists d2. rewrite E2. split; [f_equal; lia|].
      rewrite slice_drop in Hw2 by lia. rewrite Es in Hw2.
      replace ((b + 1) * block_size dev) with (offset + zlen (slice 0 t buf)) in Hw2 by (rewrite Ht; nia).
      replace (slice 0 len buf) with (slice 0 t buf ++ slice (0 + t) (len - t) buf)
        by (rewrite slice_app by lia; f_equal; lia).
      apply (written_trans dev d1); [done|done|lia|]. rewrite Ht, slice_len; lia.
Qed.
End Default.

(** ** Devices *)

(** [bio_initialize_bdev] gives a driver's device the default byte operations:
    [size = (off_t)block_count * block_size]. *)
Record bdev (D : Type) := Bdev { driver : D; stack : bytes }.
Arguments Bdev {D}.
Arguments driver {D}.
Arguments stack {D}.

Definition on_driver {D} (f : Z * D) (b : bdev D) : Z * bdev D := (fst f, Bdev (snd f) (stack b)).

#[export] Instance bdev_blocks {D} `{BlockHooks D} : BlockHooks (bdev D) := {
  block_size := λ b, block_size (driver b);
  block_count := λ b, block_count (driver b);
  read_block := λ b, read_block (driver b);
  write_block := λ b buf n c, on_driver (write_block (driver b) buf n c) b
}.

#[export] Instance bdev_bytes {D} `{BlockHooks D} : ByteHooks (bdev D) := {
  dev_size := λ b, block_count b * block_size b;
  read := λ b, bio_default_read (stack b) b;
  write := λ b, bio_default_write (stack b) b
}.

#[export] Instance bdev_erase {D} `{BlockHooks D} : EraseHook (bdev D) := { erase := bio_default_erase }.

#[export] Program Instance bdev_block_laws {D} `{BlockLaws D} : BlockLaws (bdev D) := {
  wf := λ b, wf (driver b) /\ zlen (stack b) = block_size (driver b);
  contents := λ b, contents (driver b)
}.
Next Obligation. intros D HD HL d [W Hs]. exact (geometry (driver d) W). Qed.
Next Obligation. intros D HD HL d buf block count [W Hs]. simpl. exact (read_block_ok (driver d) buf block count W). Qed.
Next Obligation.
  intros D HD HL d buf block count [W Hs] Hb Hc Hr Hs' Hl. simpl in *.
  destruct (write_block_ok (driver d) buf block count) as (d' & E & W' & Es & Ec & E'); try done.
  exists (Bdev d' (stack d)). rewrite E. simpl. split_and!; try done. congruence.
Qed.

#[export] Program Instance bdev_byte_laws {D} `{BlockLaws D} : ByteLaws (bdev D).
Next Obligation. intros D HD HL d [W Hs]. symmetry. apply (geometry (driver d) W). Qed.
Next Obligation.
  intros D HD HL d buf offset len W Ho Hl Hl' Hs Hb. apply bio_default_read_ok; try done; [apply W|].
  destruct (geometry d W) as (_ & _ & ->). exact Hs.
Qed.
Next Obligation.
  intros D HD HL d buf offset len W Ho Hl Hl' Hs Hb.
  destruct (bio_default_write_ok (stack d) d buf offset len) as (d' & E & W' & Es & Ec & E'); try done; [apply W| |].
  - destruct (geometry d W) as (_ & _ & ->). exact Hs.
  - by exists d'.
Qed.

(** *** Memory devices *)
Definition BLOCKSIZE : Z := 512.

(** [mem_bdev_t]: the number of blocks and the memory at [ptr]. *)
Record mem_bdev := MemBdev { mem_count : Z; mem_ptr : bytes }.

Definition mem_bdev_read (mem : mem_bdev) (buf : bytes) (offset len : Z) : Z * bytes :=
  (s32 len, overlay 0 (slice offset len (mem_ptr mem)) buf).

Definition mem_bdev_read_block (mem : mem_bdev) (buf : bytes) (block count : Z) : Z * bytes :=
  (s32 (count * BLOCKSIZE),
   overlay 0 (slice (u32 (block * BLOCKSIZE)) (u32 (count * BLOCKSIZE)) (mem_ptr mem)) buf).

Definition mem_bdev_write (mem : mem_bdev) (buf : bytes) (offset len : Z) : Z * mem_bdev :=
  (s32 len, MemBdev (mem_count mem) (overlay offset (slice 0 len buf) (mem_ptr mem))).

Definition mem_bdev_write_block (mem : mem_bdev) (buf : bytes) (block count : Z) : Z * mem_bdev :=
  (s32 (count * BLOCKSIZE),
   MemBdev (mem_count mem)
     (overlay (u32 (block * BLOCKSIZE)) (slice 0 (u32 (count * BLOCKSIZE)) buf) (mem_ptr mem))).

(** The device [create_membdev] registers. *)
Definition create_membdev (ptr : bytes) (len : Z) : mem_bdev := MemBdev (len / BLOCKSIZE) ptr.

#[export] Instance mem_blocks : BlockHooks mem_bdev := {
  block_size := λ _, BLOCKSIZE;
  block_count := mem_count;
  read_block := mem_bdev_read_block;
  write_block := mem_bdev_write_block
}.

#[export] Instance mem_bytes : ByteHooks mem_bdev := {
  dev_size := λ m, mem_count m * BLOCKSIZE;
  read := mem_bdev_read;
  write := mem_bdev_write
}.

#[export] Instance mem_erase : EraseHook mem_bdev := { erase := bio_default_erase }.

Lemma slice0_overlay {A} n o (b l : list A) :
  0 <= o -> o + zlen b <= n -> n <= zlen l -> slice 0 n (overlay o b l) = overlay o b (slice 0 n l).
Proof.
  intros Ho Hb Hn. pose proof (zlen_nonneg b).
  assert (Hl : zlen (slice 0 n l) = n) by (apply slice_len; lia).
  apply buffer_eq; [rewrite slice_len, overlay_len; rewrite ?overlay_len; lia|].
  intros i Hi. rewrite slice_len in Hi by (rewrite ?overlay_len; lia). rewrite slice_lookup by lia. simpl.
  destruct (decide (o <= Z.of_nat i < o + zlen b)).
  - by rewrite !overlay_lookup_in by lia.
  - rewrite !overlay_lookup_out by lia. rewrite slice_lookup by lia. done.
Qed.

#[export] Program Instance mem_block_laws : BlockLaws mem_bdev := {
  wf := λ m, 0 <= mem_count m /\ mem_count m * BLOCKSIZE <= zlen (mem_ptr m) < 2 ^ 32;
  contents := λ m, slice 0 (mem_count m * BLOCKSIZE) (mem_ptr m)
}.
Next Obligation.
  intros d (H0 & Hl). simpl. unfold BLOCKSIZE in *. split_and!; try lia. rewrite slice_len; lia.
Qed.
Next Obligation.
  intros d buf block count (H0 & Hl) Hb Hc Hr Hs Hbuf. simpl in *. unfold mem_bdev_read_block, BLOCKSIZE in *.
  rewrite s32_small, !u32_small by lia. rewrite slice_slice by lia. done.
Qed.
Next Obligation.
  intros d buf block count (H0 & Hl) Hb Hc Hr Hs Hbuf. simpl in *. unfold mem_bdev_write_block, BLOCKSIZE in *.
  assert (zlen (slice 0 (count * 512) buf) = count * 512) by (apply slice_len; lia).
  rewrite s32_small, !u32_small by lia. eexists. split; [done|]. simpl. split_and!; try done.
  - rewrite overlay_len; lia.
  - rewrite overlay_len; lia.
  - apply slice0_overlay; lia.
Qed.

#[export] Program Instance mem_byte_laws : ByteLaws mem_bdev.
Next Obligation. intros d (H0 & Hl). simpl. unfold BLOCKSIZE in *. rewrite slice_len; lia. Qed.
Next Obligation.
  intros d buf offset len (H0 & Hl) Ho Hp Hlt Hr Hbuf. simpl in *. unfold mem_bdev_read.
  rewrite s32_small, slice_slice by lia. done.
Qed.
Next Obligation.
  intros d buf offset len (H0 & Hl) Ho Hp Hlt Hr Hbuf. simpl in *. unfold mem_bdev_write.
  assert (zlen (slice 0 len buf) = len) by (apply slice_len; lia).
  rewrite s32_small by lia. eexists. split; [done|]. simpl. split_and!; try done.
  - rewrite overlay_len; lia.
  - rewrite overlay_len; lia.
  - apply slice0_overlay; lia.
Qed.

(** *** Sub-devices of a device *)

(** [subdev_t]: the parent, the block the sub-device starts at, its length. *)
Record subdev (P : Type) := Subdev { parent : P; sub_offset : Z; sub_count : Z }.
Arguments Subdev {P}.
Arguments parent {P}.
Arguments sub_offset {P}.
Arguments sub_count {P}.

Section Subdev.
Context {P : Type} `{BlockHooks P} `{ByteHooks P} `{EraseHook P}.

Definition on_parent (r : Z * P) (s : subdev P) : Z * subdev P :=
  (fst r, Subdev (snd r) (sub_offset s) (sub_count s)).

(** [offset + subdev->offset * subdev->dev.block_size]: the product is unsigned. *)
Definition sub_byte (s : subdev P) (offset : Z) : Z :=
  offset + u32 (sub_offset s * block_size (parent s)).

Definition subdev_read (s : subdev P) (buf : bytes) (offset len : Z) : Z * bytes :=
  bio_read (parent s) buf (sub_byte s offset) len.

Definition subdev_read_block (s : subdev P) (buf : bytes) (block count : Z) : Z * bytes :=
  bio_read_block (parent s) buf (u32 (block + sub_offset s)) count.

Definition subdev_write (s : subdev P) (buf : bytes) (offset len : Z) : Z * subdev P :=
  on_parent (bio_write (parent s) buf (sub_byte s offset) len) s.

Definition subdev_write_block (s : subdev P) (buf : bytes) (block count : Z) : Z * subdev P :=
  on_parent (bio_write_block (parent s) buf (u32 (block + sub_offset s)) count) s.

Definition subdev_erase (s : subdev P) (offset len : Z) : Z * subdev P :=
  on_parent (bio_erase (parent s) (sub_byte s offset) len) s.

(** [bio_publish_subdevice], once the parent has been opened. *)
Definition bio_publish_subdevice (p : P) (startblock len : Z) : option (subdev P) :=
  if block_count p <? u32 (startblock + len) then None else Some (Subdev p startblock len).

#[export] Instance subdev_blocks : BlockHooks (subdev P) := {
  block_size := λ s, block_size (parent s);
  block_count := sub_count;
  read_block := subdev_read_block;
  write_block := subdev_write_block
}.

#[export] Instance subdev_bytes : ByteHooks (subdev P) := {
  dev_size := λ s, sub_count s * block_size (parent s);
  read := subdev_read;
  write := subdev_write
}.

#[export] Instance subdev_erases : EraseHook (subdev P) := { erase := subdev_erase }.
End Subdev.

(** ** The checked operations on a device that keeps its promises *)
Section Checked.
Context {D : Type} `{ByteLaws D}.
Implicit Types dev : D.

Lemma bio_read_in dev buf offset len :
  wf dev -> 0 <= offset -> 0 < len < 2 ^ 31 -> offset + len <= dev_size dev -> len <= zlen buf ->
  bio_read dev buf offset len = (len, overlay 0 (slice offset len (contents dev)) buf).
Proof.
  intros W Ho Hl Hs Hb. unfold bio_read.
  rewrite (proj2 (Z.ltb_ge _ _)), (proj2 (Z.leb_gt _ _)), (proj2 (Z.eqb_neq _ _)) by lia.
  rewrite (proj2 (Z.ltb_ge _ _)) by lia. apply read_ok; lia || done.
Qed.

Lemma bio_write_in dev buf offset len :
  wf dev -> 0 <= offset -> 0 < len < 2 ^ 31 -> offset + len <= dev_size dev -> len <= zlen buf ->
  exists d', bio_write dev buf offset len = (len, d') /\ written dev offset (slice 0 len buf) d'.
Proof.
  intros W Ho Hl Hs Hb. unfold bio_write.
  rewrite (proj2 (Z.ltb_ge _ _)), (proj2 (Z.leb_gt _ _)), (proj2 (Z.eqb_neq _ _)) by lia.
  rewrite (proj2 (Z.ltb_ge _ _)) by lia. by apply write_ok; lia || done.
Qed.

Lemma written_size dev offset data d' :
  wf dev -> written dev offset data d' -> dev_size d' = dev_size dev.
Proof.
  intros W (W' & Es & Ec & _). rewrite !size_ok by done.
  destruct (geometry dev W) as (_ & _ & ->), (geometry d' W') as (_ & _ & ->). congruence.
Qed.

(** Erasing by writing zeros, 4096 bytes at a time. *)
Lemma erase_loop_ok len0 : forall fuel dev pos remaining,
  wf dev -> 0 <= pos -> 0 <= remaining -> pos + remaining <= dev_size dev ->
  remaining <= ERASE_BUF_SIZE * (Z.of_nat fuel - 1) ->
  exists d', erase_loop fuel dev pos remaining len0 = Some (s32 len0, d') /\
    written dev pos (replicate (Z.to_nat remaining) 0) d'.
Proof.
  induction fuel as [|fuel IH]; intros dev pos remaining W Hp Hr Hs Hf; [unfold ERASE_BUF_SIZE in *; lia|]. cbn [erase_loop].
  destruct (Z.ltb_spec 0 remaining) as [Hlt|Hge].
  - set (t := Z.min remaining ERASE_BUF_SIZE). unfold ERASE_BUF_SIZE in *.
    destruct (bio_write_in dev (replicate (Z.to_nat 4096) 0) pos t) as (d1 & E1 & Hw1); try done; [lia|lia| |].
    { unfold zlen. rewrite length_replicate. lia. }
    rewrite E1. rewrite (proj2 (Z.ltb_ge t 0)), Z.ltb_irrefl by lia.
    assert (Hz : slice 0 t (replicate (Z.to_nat 4096) 0) = replicate (Z.to_nat t) 0).
    { unfold slice. rewrite drop_0, take_replicate. f_equal. lia. }
    rewrite Hz in Hw1. pose proof Hw1 as (W1 & _).
    destruct (IH d1 (pos + t) (remaining - t)) as (d2 & E2 & Hw2); try done; try lia.
    { rewrite (written_size dev pos _ d1) by done. lia. }
    exists d2. rewrite E2. split; [done|].
    replace (replicate (Z.to_nat remaining) 0) with (replicate (Z.to_nat t) 0 ++ replicate (Z.to_nat (remaining - t)) 0)
      by (rewrite <- replicate_add; f_equal; lia).
    assert (Ht : zlen (replicate (Z.to_nat t) 0) = t) by (unfold zlen; rewrite length_replicate; lia).
    apply (written_trans dev d1); [done|by rewrite Ht|lia|].
    rewrite Ht. unfold zlen at 1. rewrite length_replicate, <- size_ok by done. lia.
  - replace remaining with 0 by lia. exists dev. split; [done|]. split_and!; try done.
    unfold overlay. simpl. by rewrite Nat.add_0_r, take_drop.
Qed.

Lemma bio_default_erase_ok dev offset len :
  wf dev -> 0 <= offset -> 0 < len < 2 ^ 31 -> offset + len <= dev_size dev ->
  exists d', bio_default_erase dev offset len = (len, d') /\
    written dev offset (replicate (Z.to_nat len) 0) d'.
Proof.
  intros W Ho Hl Hs. unfold bio_default_erase.
  destruct (erase_loop_ok len (Z.to_nat (len / ERASE_BUF_SIZE) + 2) dev offset len) as (d' & E & Hw); try done; [lia| |].
  - unfold ERASE_BUF_SIZE. pose proof (Z.div_mod len 4096). pose proof (Z.mod_pos_bound len 4096).
    pose proof (Z.div_pos len 4096). lia.
  - exists d'. rewrite E, s32_small by lia. done.
Qed.
End Checked.

Lemma sub_contents_overlay {A} o n p (b l : list A) :
  0 <= o -> 0 <= p -> p + zlen b <= n -> o + n <= zlen l ->
  slice o n (overlay (o + p) b l) = overlay p b (slice o n l).
Proof.
  intros Ho Hp Hb Hn. pose proof (zlen_nonneg b).
  assert (Hl : zlen (slice o n l) = n) by (apply slice_len; lia).
  apply buffer_eq; [rewrite slice_len, overlay_len; rewrite ?overlay_len; lia|].
  intros i Hi. rewrite slice_len in Hi by (rewrite ?overlay_len; lia). rewrite slice_lookup by lia.
  destruct (decide (p <= Z.of_nat i < p + zlen b)).
  - rewrite !overlay_lookup_in by lia. f_equal. lia.
  - rewrite !overlay_lookup_out by lia. rewrite slice_lookup by lia. done.
Qed.

(** A sub-device of a device that keeps its promises keeps its own, as long as
    the byte offset of its first block does not wrap around. *)
#[export] Program Instance subdev_block_laws {P} `{BlockLaws P} : BlockLaws (subdev P) := {
  wf := λ s, wf (parent s) /\ 0 <= sub_offset s /\ 0 <= sub_count s /\
    sub_offset s + sub_count s <= block_count (parent s) /\ sub_offset s * block_size (parent s) < 2 ^ 32;
  contents := λ s, slice (sub_offset s * block_size (parent s)) (sub_count s * block_size (parent s)) (contents (parent s))
}.
Next Obligation.
  intros P HB HL s (W & Ho & Hc & Hr & Hw). destruct (geometry (parent s) W) as (Hbs & Hbc & El).
  simpl in *. split_and!; try lia. rewrite slice_len; nia.
Qed.
Next Obligation.
  intros P HB HL s buf block count (W & Ho & Hc & Hr & Hw) Hb Hn Hin Hlt Hbuf.
  destruct (geometry (parent s) W) as (Hbs & Hbc & El). simpl in *. unfold subdev_read_block.
  rewrite u32_small, bio_read_block_ok by (done || lia). rewrite slice_slice by nia. do 3 f_equal. lia.
Qed.
Next Obligation.
  intros P HB HL s buf block count (W & Ho & Hc & Hr & Hw) Hb Hn Hin Hlt Hbuf.
  destruct (geometry (parent s) W) as (Hbs & Hbc & El). simpl in *. unfold subdev_write_block.
  rewrite u32_small by lia.
  destruct (bio_write_block_ok (parent s) buf (block + sub_offset s) count) as (d' & E & W' & Es & Ec & E');
    [done|lia..|]. rewrite E. eexists. split; [done|]. simpl. rewrite Es, Ec. split_and!; try done.
  assert (zlen (slice 0 (count * block_size (parent s)) buf) = count * block_size (parent s)) by (apply slice_len; nia).
  rewrite E'. replace ((block + sub_offset s) * block_size (parent s))
    with (sub_offset s * block_size (parent s) + block * block_size (parent s)) by lia.
  apply sub_contents_overlay; nia.
Qed.

#[export] Program Instance subdev_byte_laws {P} `{ByteLaws P} : ByteLaws (subdev P).
Next Obligation.
  intros P HB HL HBy HLy s (W & Ho & Hc & Hr & Hw). destruct (geometry (parent s) W) as (Hbs & Hbc & El).
  simpl in *. rewrite slice_len; nia.
Qed.
Next Obligation.
  intros P HB HL HBy HLy s buf offset len (W & Ho & Hc & Hr & Hw) Hof Hlp Hlt Hin Hbuf.
  destruct (geometry (parent s) W) as (Hbs & Hbc & El). simpl in *. unfold subdev_read, sub_byte.
  pose proof (size_ok (parent s) W). rewrite u32_small, bio_read_in by (done || nia).
  rewrite slice_slice by nia. do 3 f_equal. lia.
Qed.
Next Obligation.
  intros P HB HL HBy HLy s buf offset len (W & Ho & Hc & Hr & Hw) Hof Hlp Hlt Hin Hbuf.
  destruct (geometry (parent s) W) as (Hbs & Hbc & El). simpl in *. unfold subdev_write, sub_byte.
  pose proof (size_ok (parent s) W). rewrite u32_small by nia.
  destruct (bio_write_in (parent s) buf (offset + sub_offset s * block_size (parent s)) len)
    as (d' & E & W' & Es & Ec & E'); [done|nia..|]. rewrite E. eexists. split; [done|]. simpl. rewrite Es, Ec.
  split_and!; try done. assert (zlen (slice 0 len buf) = len) by (apply slice_len; lia).
  rewrite E', Z.add_comm. apply sub_contents_overlay; nia.
Qed.

(** ** Theorems *)
Section Theorems.
Context {D : Type} `{BlockLaws D}.

(** The default read, which reads whole blocks into the caller's buffer and
    the partial blocks at the two ends through a block on the stack, returns
    exactly the bytes of the range, whatever the stack held, and leaves the rest
    of the buffer alone; for every driver whose block operations work. *)
Theorem bio_default_read_bytes garbage (dev : D) buf offset len :
  wf dev -> zlen garbage = block_size dev -> 0 <= offset -> 0 < len < 2 ^ 31 ->
  offset + len <= zlen (contents dev) -> len <= zlen buf ->
  bio_default_read garbage dev buf offset len = (len, overlay 0 (slice offset len (contents dev)) buf).
Proof. apply bio_default_read_ok. Qed.

(** The default write, which reads, patches and writes back the partial
    blocks at the two ends, replaces exactly the bytes of the range and no
    other byte of the device. *)
Theorem bio_default_write_bytes garbage (dev : D) buf offset len :
  wf dev -> zlen garbage = block_size dev -> 0 <= offset -> 0 < len < 2 ^ 31 ->
  offset + len <= zlen (contents dev) -> len <= zlen buf ->
  exists d', bio_default_write garbage dev buf offset len = (len, d') /\
    wf d' /\ block_size d' = block_size dev /\ block_count d' = block_count dev /\
    contents d' = overlay offset (slice 0 len buf) (contents dev).
Proof. apply bio_default_write_ok. Qed.
End Theorems.

(** On every device that keeps its promises, what [bio_write] writes is what
    [bio_read] reads back: both clip the range at the end of the device, in the
    same way, and return the clipped length; and what is read from another range
    has not changed. *)
Theorem bio_write_read `{ByteLaws D} (dev : D) buf buf' offset len :
  wf dev -> 0 <= offset < dev_size dev -> 0 < len < 2 ^ 31 -> len <= zlen buf -> len <= zlen buf' ->
  let n := Z.min len (dev_size dev - offset) in
  exists d', bio_write dev buf offset len = (n, d') /\ wf d' /\
    bio_read d' buf' offset len = (n, overlay 0 (slice 0 n buf) buf') /\
    forall o l, 0 <= o -> 0 < l < 2 ^ 31 -> o + l <= dev_size dev -> l <= zlen buf' ->
      o + l <= offset \/ offset + n <= o -> bio_read d' buf' o l = bio_read dev buf' o l.
Proof.
  intros W Ho Hl Hb Hb' n.
  assert (Hclip : forall d' b, dev_size d' = dev_size dev ->
    bio_write d' b offset len = bio_write d' b offset n /\ bio_read d' b offset len = bio_read d' b offset n).
  { intros d' b Es. unfold bio_write, bio_read. rewrite Es.
    rewrite (proj2 (Z.ltb_ge _ _)), (proj2 (Z.leb_gt _ _)), !(proj2 (Z.eqb_neq _ _)) by lia.
    rewrite (proj2 (Z.ltb_ge (dev_size dev) (offset + n))) by lia.
    destruct (Z.ltb_spec (dev_size dev) (offset + len)) as [Hlt|Hge].
    - rewrite u32_small by lia. by replace n with (dev_size dev - offset) by lia.
    - by replace n with len by lia. }
  destruct (bio_write_in dev buf offset n) as (d' & E & Hw); [done|lia..|].
  pose proof Hw as (W' & _ & _ & Ec). pose proof (written_size dev offset _ d' W Hw) as Es.
  pose proof (size_ok dev W) as Hs. pose proof (size_ok d' W') as Hs'.
  assert (Hn : zlen (slice 0 n buf) = n) by (apply slice_len; lia).
  exists d'. split_and!; [by rewrite (proj1 (Hclip dev buf eq_refl))|done| |].
  - rewrite (proj2 (Hclip d' buf' Es)), bio_read_in by (done || lia). rewrite Ec. f_equal. f_equal.
    rewrite <- Hn at 1. apply slice_overlay_same; lia.
  - intros o l Ho' Hl' Hin Hlb Hd. rewrite !bio_read_in by (done || lia). f_equal. f_equal.
    rewrite Ec. apply slice_overlay_other; lia.
Qed.

(** A sub-device is confined: a write to it changes the bytes of the parent
    at the translated offset and nothing outside the sub-device, and keeps both
    devices sound. *)
Theorem subdev_confined `{ByteLaws P} (s : subdev P) buf offset len :
  wf s -> 0 <= offset < dev_size s -> 0 < len < 2 ^ 31 -> len <= zlen buf ->
  let n := Z.min len (dev_size s - offset) in
  let first := sub_offset s * block_size (parent s) in
  exists s', bio_write s buf offset len = (n, s') /\ wf s' /\ wf (parent s') /\
    contents (parent s') = overlay (first + offset) (slice 0 n buf) (contents (parent s)) /\
    slice 0 first (contents (parent s')) = slice 0 first (contents (parent s)) /\
    forall o l, first + dev_size s <= o -> 0 <= l -> o + l <= zlen (contents (parent s)) ->
      slice o l (contents (parent s')) = slice o l (contents (parent s)).
Proof.
  intros W Ho Hl Hb n first. pose proof W as (Wp & Hso & Hsc & Hr & Hw).
  destruct (geometry (parent s) Wp) as (Hbs & Hbc & El). pose proof (size_ok (parent s) Wp) as Hsp.
  cbn [dev_size subdev_bytes] in *.
  assert (Hn : zlen (slice 0 n buf) = n) by (apply slice_len; lia).
  destruct (bio_write_in (parent s) buf (offset + first) n) as (p' & E & W' & Es & Ec & E'); [done|nia..|].
  exists (Subdev p' (sub_offset s) (sub_count s)). split_and!.
  - unfold bio_write. cbn [dev_size subdev_bytes write].
    rewrite (proj2 (Z.ltb_ge _ _)), (proj2 (Z.leb_gt _ _)), (proj2 (Z.eqb_neq _ _)) by lia.
    assert (En : (if sub_count s * block_size (parent s) <? offset + len
                  then u32 (sub_count s * block_size (parent s) - offset) else len) = n).
    { destruct (Z.ltb_spec (sub_count s * block_size (parent s)) (offset + len)); [rewrite u32_small|]; lia. }
    rewrite En. unfold subdev_write, sub_byte. rewrite u32_small by nia. fold first. by rewrite E.
  - simpl. rewrite Es, Ec. done.
  - done.
  - cbn [parent]. rewrite E'. f_equal. lia.
  - cbn [parent]. rewrite E'. apply slice_overlay_other; nia.
  - intros o l Hol Hl0 Hin. cbn [parent]. rewrite E'. apply slice_overlay_other; nia.
Qed.

(** Erasing a range of a device with the default erase terminates and writes
    zeros to exactly the range. *)
Theorem bio_erase_zeroes `{ByteLaws D} (dev : D) offset len :
  wf dev -> 0 <= offset -> 0 < len < 2 ^ 31 -> offset + len <= dev_size dev ->
  exists d', bio_default_erase dev offset len = (len, d') /\ wf d' /\
    contents d' = overlay offset (replicate (Z.to_nat len) 0) (contents dev).
Proof.
  intros W Ho Hl Hs. destruct (bio_default_erase_ok dev offset len) as (d' & E & W' & _ & _ & E'); try done. by exists d'.
Qed.

(** ** Witnesses: a memory of four blocks, used as a driver with the default byte
    operations, and a sub-device of its two middle blocks. *)
Definition sample_mem : mem_bdev := create_membdev (replicate 2048 7) 2048.
Definition sample_dev : bdev mem_bdev := Bdev sample_mem (replicate 512 99).
Definition sample_sub : subdev (bdev mem_bdev) := Subdev sample_dev 1 2.
Definition sample_data : bytes := replicate 1000 1.

Lemma sample_mem_wf : wf sample_mem.
Proof. vm_compute. repeat split; congruence. Qed.
Lemma sample_dev_wf : wf sample_dev.
Proof. split; [exact sample_mem_wf|reflexivity]. Qed.
Lemma sample_sub_wf : wf sample_sub.
Proof. split; [exact sample_dev_wf|]. vm_compute. repeat split; congruence. Qed.

(** The published sub-device is the sample, and one past the end is refused. *)
Example publish_sample :
  bio_publish_subdevice sample_dev 1 2 = Some sample_sub /\ bio_publish_subdevice sample_dev 3 2 = None.
Proof. split; reflexivity. Qed.

Lemma bio_default_read_bytes_witness :
  bio_default_read (replicate 512 99) sample_mem sample_data 500 900 =
    (900, overlay 0 (slice 500 900 (contents sample_mem)) sample_data).
Proof.
  apply (bio_default_read_bytes (replicate 512 99) sample_mem sample_data 500 900);
    [exact sample_mem_wf|reflexivity|lia|lia|vm_compute; congruence|vm_compute; congruence].
Defined.

Lemma bio_default_write_bytes_witness :
  exists d', bio_default_write (replicate 512 99) sample_mem sample_data 500 900 = (900, d') /\
    wf d' /\ block_size d' = block_size sample_mem /\ block_count d' = block_count sample_mem /\
    contents d' = overlay 500 (slice 0 900 sample_data) (contents sample_mem).
Proof.
  apply (bio_default_write_bytes (replicate 512 99) sample_mem sample_data 500 900);
    [exact sample_mem_wf|reflexivity|lia|lia|vm_compute; congruence|vm_compute; congruence].
Defined.

Lemma bio_write_read_witness :
  exists d', bio_write sample_sub sample_data 100 1000 = (924, d') /\ wf d' /\
    bio_read d' sample_data 100 1000 = (924, overlay 0 (slice 0 924 sample_data) sample_data) /\
    forall o l, 0 <= o -> 0 < l < 2 ^ 31 -> o + l <= dev_size sample_sub -> l <= zlen sample_data ->
      o + l <= 100 \/ 100 + 924 <= o -> bio_read d' sample_data o l = bio_read sample_sub sample_data o l.
Proof.
  change 924 with (Z.min 1000 (dev_size sample_sub - 100)).
  apply (bio_write_read sample_sub sample_data sample_data 100 1000);
    [exact sample_sub_wf|vm_compute; split; congruence|lia|vm_compute; congruence|vm_compute; congruence].
Defined.

Lemma subdev_confined_witness :
  exists s', bio_write sample_sub sample_data 100 1000 = (924, s') /\ wf s' /\ wf (parent s') /\
    contents (parent s') = overlay (512 + 100) (slice 0 924 sample_data) (contents (parent sample_sub)) /\
    slice 0 512 (contents (parent s')) = slice 0 512 (contents (parent sample_sub)) /\
    forall o l, 512 + dev_size sample_sub <= o -> 0 <= l -> o + l <= zlen (contents (parent sample_sub)) ->
      slice o l (contents (parent s')) = slice o l (contents (parent sample_sub)).
Proof.
  change 924 with (Z.min 1000 (dev_size sample_sub - 100)).
  change 512 with (sub_offset sample_sub * block_size (parent sample_sub)).
  apply (subdev_confined sample_sub sample_data 100 1000);
    [exact sample_sub_wf|vm_compute; split; congruence|lia|vm_compute; congruence].
Defined.

Lemma bio_erase_zeroes_witness :
  exists d', bio_default_erase sample_dev 3 2000 = (2000, d') /\ wf d' /\
    contents d' = overlay 3 (replicate 2000 0) (contents sample_dev).
Proof.
  apply (bio_erase_zeroes sample_dev 3 2000); [exact sample_dev_wf|lia|lia|vm_compute; congruence].
Defined.
