(* ===== verification/Bcache.v ===== *)
(** * The block cache ([lib/bcache/bcache.c])

    A fixed number of blocks, a free list and a list in the order of use, in
    front of any block device of [Bio].  Blocks are known by their index in the
    array; the two lists are sequences of indices.  The pointer [bcache_get_block]
    gives out is the index of the block, which the client writes to with
    [poke_block].  A failed [DEBUG_ASSERT] is [None].

    When the read of a block fails, [find_or_fill_block] adds the block to the
    free list while it is still linked in the LRU list, which breaks both rings:
    the result is [None] as well. *)
From stdpp Require Import base gmap list.
From Stdlib Require Import ZArith Lia.
From S2P Require Import Prelude Bio.
#[local] Open Scope Z_scope.

(** [struct bcache_block]. *)
Record bcache_block := CBlock { blocknum : Z; ref_count : Z; is_dirty : bool; ptr : bytes }.

(** [struct bcache_stats] and [struct bcache]. *)
Record bcache_stats := Stats { hits : Z; depth : Z; misses : Z; reads : Z; writes : Z }.
Record bcache (D : Type) := Bcache {
  dev : D;
  cache_block_size : Z;
  stats : bcache_stats;
  free_list : list nat;
  lru_list : list nat;
  blocks : list bcache_block
}.
Arguments Bcache {D}.
Arguments dev {D}.
Arguments cache_block_size {D}.
Arguments stats {D}.
Arguments free_list {D}.
Arguments lru_list {D}.
Arguments blocks {D}.

Section Cache.
Context {D : Type} `{ByteHooks D}.
Implicit Types c : bcache D.

Definition with_dev (x : D) c : bcache D := Bcache x (cache_block_size c) (stats c) (free_list c) (lru_list c) (blocks c).
Definition with_stats x c : bcache D := Bcache (dev c) (cache_block_size c) x (free_list c) (lru_list c) (blocks c).
Definition with_lists f l c : bcache D := Bcache (dev c) (cache_block_size c) (stats c) f l (blocks c).
Definition with_block (i : nat) (f : bcache_block -> bcache_block) c : bcache D :=
  Bcache (dev c) (cache_block_size c) (stats c) (free_list c) (lru_list c) (alter f i (blocks c)).

Definition set_blocknum x b := CBlock x (ref_count b) (is_dirty b) (ptr b).
Definition set_ref_count x b := CBlock (blocknum b) x (is_dirty b) (ptr b).
Definition set_dirty x b := CBlock (blocknum b) (ref_count b) x (ptr b).
Definition set_ptr x b := CBlock (blocknum b) (ref_count b) (is_dirty b) x.

(** [bcache_create]; [mem] is what [malloc] returned for the blocks. *)
Definition bcache_create (d : D) (bs : Z) (mem : list bytes) : bcache D :=
  Bcache d bs (Stats 0 0 0 0 0) (reverse (seq 0 (length mem))) []
    ((λ p, CBlock 0 0 false p) <$> mem).

(** [flush_block] returns 0 or the error of the device. *)
Definition flush_block (i : nat) c : option (bcache D * Z) :=
  b ← blocks c !! i;
  let '(rc, d) := bio_write (dev c) (ptr b) (blocknum b * cache_block_size c) (cache_block_size c) in
  let c := with_dev d c in
  if rc <? 0 then Some (c, rc) else
  let c := with_block i (set_dirty false) c in
  let st := stats c in
  Some (with_stats (Stats (hits st) (depth st) (misses st) (reads st) (u32 (writes st + 1))) c, 0).

(** The walk of [find_block] over the LRU list: the first block with the number,
    and how many were looked at. *)
Fixpoint lru_find (bl : list bcache_block) (n : Z) (l : list nat) (d : Z) : option (nat * Z) :=
  match l with
  | [] => None
  | i :: l =>
      match bl !! i with
      | Some b => if blocknum b =? n then Some (i, d + 1) else lru_find bl n l (d + 1)
      | None => None
      end
  end.

(** To the tail of the LRU list. *)
Definition touch (i : nat) c : bcache D :=
  with_lists (free_list c) (filter (λ j, j <> i) (lru_list c) ++ [i]) c.

Definition find_block (n : Z) c : bcache D * option nat :=
  let st := stats c in
  match lru_find (blocks c) n (lru_list c) 0 with
  | Some (i, d) =>
      (with_stats (Stats (u32 (hits st + 1)) (u32 (depth st + d)) (misses st) (reads st) (writes st)) (touch i c),
       Some i)
  | None => (with_stats (Stats (hits st) (depth st) (u32 (misses st + 1)) (reads st) (writes st)) c, None)
  end.

(** The walk of [alloc_block]: the first block nobody holds. *)
Fixpoint lru_unused (bl : list bcache_block) (l : list nat) : option nat :=
  match l with
  | [] => None
  | i :: l =>
      match bl !! i with
      | Some b => if ref_count b =? 0 then Some i else lru_unused bl l
      | None => None
      end
  end.

Definition alloc_block c : option (bcache D * option nat) :=
  match free_list c with
  | i :: free =>
      let c := with_block i (set_ref_count 0) (with_lists free (lru_list c ++ [i]) c) in
      Some (c, Some i)
  | [] =>
      match lru_unused (blocks c) (lru_list c) with
      | None => Some (c, None)
      | Some i =>
          b ← blocks c !! i;
          '(c, err) ← (if is_dirty b then flush_block i c else Some (c, 0));
          if err =? 0 then Some (touch i c, Some i) else Some (c, None)
      end
  end.

Definition find_or_fill_block (n : Z) c : option (bcache D * nat) :=
  let '(c, found) := find_block n c in
  match found with
  | Some i => Some (c, i)
  | None =>
      '(c, allocated) ← alloc_block c;
      i ← allocated;                                (* DEBUG_ASSERT(block) *)
      let c := with_block i (set_blocknum n) c in
      b ← blocks c !! i;
      let '(err, data) := bio_read (dev c) (ptr b) (n * cache_block_size c) (cache_block_size c) in
      let c := with_block i (set_ptr data) c in
      if err <? 0 then None else
      let st := stats c in
      Some (with_stats (Stats (hits st) (depth st) (misses st) (u32 (reads st + 1)) (writes st)) c, i)
  end.

Definition bcache_read_block (n : Z) c : option (bcache D * bytes) :=
  '(c, i) ← find_or_fill_block n c;
  b ← blocks c !! i;
  Some (c, slice 0 (cache_block_size c) (ptr b)).

Definition bcache_get_block (n : Z) c : option (bcache D * nat) :=
  '(c, i) ← find_or_fill_block n c;
  Some (with_block i (λ b, set_ref_count (ref_count b + 1) b) c, i).

Definition bcache_put_block (n : Z) c : option (bcache D) :=
  let '(c, found) := find_block n c in
  i ← found;
  b ← blocks c !! i;
  if 0 <? ref_count b then Some (with_block i (λ b, set_ref_count (ref_count b - 1) b) c) else None.

Definition bcache_mark_block_dirty (n : Z) c : bcache D * Z :=
  let '(c, found) := find_block n c in
  match found with
  | None => (c, -1)
  | Some i => (with_block i (set_dirty true) c, 0)
  end.

Definition bcache_zero_block (n : Z) c : option (bcache D * Z) :=
  let '(c, found) := find_block n c in
  '(c, got) ← match found with
              | Some i => Some (c, Some i)
              | None =>
                  '(c, allocated) ← alloc_block c;
                  match allocated with
                  | None => Some (c, None)
                  | Some i => Some (with_block i (set_blocknum n) c, Some i)
                  end
              end;
  match got with
  | None => Some (c, -1)
  | Some i =>
      b ← blocks c !! i;
      let zeros := overlay 0 (replicate (Z.to_nat (cache_block_size c)) 0) (ptr b) in
      let c := with_block i (set_ptr zeros) c in
      Some (with_block i (set_dirty true) c, 0)
  end.

(** The loop of [bcache_flush]. *)
Fixpoint flush_loop (l : list nat) c : option (bcache D * Z) :=
  match l with
  | [] => Some (c, 0)
  | i :: l =>
      b ← blocks c !! i;
      if is_dirty b then
        '(c, err) ← flush_block i c;
        if err =? 0 then flush_loop l c else Some (c, err)
      else flush_loop l c
  end.

Definition bcache_flush c : option (bcache D * Z) := flush_loop (lru_list c) c.

(** [bcache_destroy]: the blocks it warns about, freed with their changes lost. *)
Fixpoint destroy_loop (bl : list bcache_block) : option (list Z) :=
  match bl with
  | [] => Some []
  | b :: bl =>
      if negb (ref_count b =? 0) then None else
      w ← destroy_loop bl;
      Some (if is_dirty b then blocknum b :: w else w)
  end.
Definition bcache_destroy c : option (list Z) := destroy_loop (blocks c).

(** A client's store through the pointer of [bcache_get_block]. *)
Definition poke_block (i : nat) (data : bytes) c : bcache D := with_block i (set_ptr data) c.
End Cache.

(** ** The blocks a cache stands for *)
Section Coherence.
Context {D : Type} `{ByteLaws D}.
Implicit Types c : bcache D.

(** Block [n] on the device, and block [n] as the cache presents it: the cached
    copy, if there is one, otherwise the block on the device. *)
Definition device_block (d : D) (bs n : Z) : bytes := slice (n * bs) bs (contents d).

Definition view_in (l : list nat) c (n : Z) : bytes :=
  match lru_find (blocks c) n l 0 with
  | Some (i, _) => default [] (ptr <$> blocks c !! i)
  | None => device_block (dev c) (cache_block_size c) n
  end.

Definition cache_view c (n : Z) : bytes := view_in (lru_list c) c n.

(** The blocks that lie on the device. *)
Definition in_range c (n : Z) : Prop := 0 <= n /\ (n + 1) * cache_block_size c <= dev_size (dev c).

Definition cached (bl : list bcache_block) (l : list nat) (n : Z) (i : nat) : Prop :=
  i ∈ l /\ exists b, bl !! i = Some b /\ blocknum b = n.

(** What holds of every block, in use or not. *)
Definition cblock_ok (bs : Z) (b : bcache_block) : Prop := zlen (ptr b) = bs /\ 0 <= ref_count b.

(** The invariant, for the blocks [l] that hold data. *)
Record cinv_in (l : list nat) c : Prop := {
  ci_wf : wf (dev c);
  ci_bs : 0 < cache_block_size c < 2 ^ 31;
  ci_valid : forall i, i ∈ l -> is_Some (blocks c !! i);
  ci_ptr : forall i b, blocks c !! i = Some b -> cblock_ok (cache_block_size c) b;
  ci_once : forall n i j, cached (blocks c) l n i -> cached (blocks c) l n j -> i = j;
  ci_range : forall n i, cached (blocks c) l n i -> in_range c n;
  ci_clean : forall i b, i ∈ l -> blocks c !! i = Some b -> is_dirty b = false ->
    ptr b = device_block (dev c) (cache_block_size c) (blocknum b)
}.

(** Blocks are in one of the lists, at most once; the free ones are clean. *)
Record lists_ok c : Prop := {
  lo_nodup : NoDup (lru_list c ++ free_list c);
  lo_free : forall i, i ∈ free_list c -> exists b, blocks c !! i = Some b /\ is_dirty b = false
}.

Definition cinv c : Prop := cinv_in (lru_list c) c /\ lists_ok c.

(** *** The walk over the list *)
Lemma lru_find_Some bl n l : forall d i d',
  lru_find bl n l d = Some (i, d') -> cached bl l n i.
Proof.
  induction l as [|j l IH]; intros d i d'; cbn; [done|].
  destruct (bl !! j) as [b|] eqn:Hj; [|done]. destruct (Z.eqb_spec (blocknum b) n) as [E|E].
  - intros [= <- _]. split; [set_solver|]. by exists b.
  - intros Hf. destruct (IH _ _ _ Hf) as [Hin Hb]. split; [set_solver|done].
Qed.

Lemma lru_find_None bl n l : forall d,
  (forall i, i ∈ l -> is_Some (bl !! i)) -> lru_find bl n l d = None -> forall i, ~ cached bl l n i.
Proof.
  induction l as [|j l IH]; intros d Hv; cbn; [intros _ i [Hin _]; by apply not_elem_of_nil in Hin|].
  destruct (Hv j ltac:(set_solver)) as [b Hj]. rewrite Hj. destruct (Z.eqb_spec (blocknum b) n) as [E|E]; [done|].
  intros Hf i [[->|Hin]%elem_of_cons (b' & Hb' & En)]; [congruence|].
  apply (IH _ ltac:(intros; apply Hv; set_solver) Hf i). split; [done|]. by exists b'.
Qed.

(** The view by where the block is cached. *)
Lemma view_cached l c n i b :
  cinv_in l c -> i ∈ l -> blocks c !! i = Some b -> blocknum b = n -> view_in l c n = ptr b.
Proof.
  intros I Hin Hb En. unfold view_in. destruct (lru_find (blocks c) n l 0) as [[j d]|] eqn:E.
  - apply lru_find_Some in E. assert (j = i) as ->; [|by rewrite Hb].
    apply (ci_once _ _ I n); [done|]. split; [done|]. by exists b.
  - exfalso. apply (lru_find_None _ _ _ _ (ci_valid _ _ I) E i). split; [done|]. by exists b.
Qed.

Lemma view_uncached l c n :
  (forall i, ~ cached (blocks c) l n i) -> view_in l c n = device_block (dev c) (cache_block_size c) n.
Proof.
  intros Hn. unfold view_in. destruct (lru_find (blocks c) n l 0) as [[j d]|] eqn:E; [|done].
  apply lru_find_Some in E. by apply Hn in E.
Qed.

Lemma cached_dec l c n :
  cinv_in l c -> (exists i b, i ∈ l /\ blocks c !! i = Some b /\ blocknum b = n) \/ forall i, ~ cached (blocks c) l n i.
Proof.
  intros I. destruct (lru_find (blocks c) n l 0) as [[j d]|] eqn:E.
  - left. apply lru_find_Some in E as [Hin (b & Hb & En)]. by exists j, b.
  - right. apply (lru_find_None _ _ _ _ (ci_valid _ _ I) E).
Qed.

(** Another order of the list, and other statistics, change nothing. *)
Lemma cinv_in_perm l l' c c' :
  l' ≡ₚ l -> dev c' = dev c -> cache_block_size c' = cache_block_size c -> blocks c' = blocks c ->
  cinv_in l c -> cinv_in l' c'.
Proof.
  intros El Ed Es Eb [A B V P O R K].
  assert (Hc : forall n i, cached (blocks c) l' n i <-> cached (blocks c) l n i).
  { intros n i. unfold cached. by rewrite El. }
  split; unfold in_range in *; rewrite ?Ed, ?Es, ?Eb; try done.
  - intros i Hi. apply V. by rewrite <- El.
  - intros n i j Hi Hj. apply (O n); by apply Hc.
  - intros n i Hi. apply (R n i). by apply Hc.
  - intros i b Hi. apply K. by rewrite <- El.
Qed.

Lemma view_perm l l' c c' n :
  cinv_in l c -> l' ≡ₚ l -> dev c' = dev c -> cache_block_size c' = cache_block_size c -> blocks c' = blocks c ->
  view_in l' c' n = view_in l c n.
Proof.
  intros I El Ed Es Eb. pose proof (cinv_in_perm l l' c c' El Ed Es Eb I) as I'.
  destruct (cached_dec l c n I) as [(i & b & Hin & Hb & En)|Hn].
  - rewrite (view_cached l c n i b) by done. apply (view_cached l' c' n i b); [done|by rewrite El|by rewrite Eb|done].
  - rewrite !view_uncached; [by rewrite Ed, Es|done|]. intros i. unfold cached. rewrite El, Eb. apply Hn.
Qed.

Lemma touch_perm i (l : list nat) : NoDup l -> i ∈ l -> filter (λ j, j <> i) l ++ [i] ≡ₚ l.
Proof.
  intros Hnd (l1 & l2 & ->)%list_elem_of_split.
  rewrite filter_app, filter_cons, decide_False by (intros []; done).
  apply NoDup_app in Hnd as (_ & Hd & [Hn2 _]%NoDup_cons).
  rewrite !list_filter_all; [solve_Permutation|intros x Hx ->..].
  - done.
  - apply (Hd i Hx). set_solver.
Qed.

(** *** Changing one block *)

(** [c'] is [c] but for block [i], which may be any block of the right length. *)
Definition differ_at (i : nat) c c' : Prop :=
  dev c' = dev c /\ cache_block_size c' = cache_block_size c /\
  (forall j, j <> i -> blocks c' !! j = blocks c !! j) /\
  (forall b, blocks c' !! i = Some b -> cblock_ok (cache_block_size c) b).

Lemma cached_other i c c' l n j :
  differ_at i c c' -> i ∉ l -> cached (blocks c') l n j <-> cached (blocks c) l n j.
Proof.
  intros (_ & _ & Hb & _) Hi. unfold cached. split; intros [Hin (b & Hj & En)]; (split; [done|]);
    exists b; (split; [|done]); [rewrite <- Hb|rewrite Hb]; try done; by intros ->.
Qed.

(** A block that is on no list of data may change. *)
Lemma cinv_in_other i l c c' : differ_at i c c' -> i ∉ l -> cinv_in l c -> cinv_in l c'.
Proof.
  intros Hd Hi [A B V P O R K]. pose proof Hd as (Ed & Es & Hb & Hp).
  assert (Hne : forall j, j ∈ l -> j <> i) by (by intros j Hj ->).
  split; unfold in_range in *; rewrite ?Ed, ?Es; try done.
  - intros j Hj. rewrite Hb by auto. by apply V.
  - intros j b Hj. destruct (decide (j = i)) as [->|Hn]; [by apply Hp|]. rewrite Hb in Hj by done. by apply (P j).
  - intros n j k Hj Hk. apply (O n); by apply (cached_other i c c').
  - intros n j Hj. apply (R n j). by apply (cached_other i c c').
  - intros j b Hj. rewrite Hb by auto. by apply K.
Qed.

Lemma view_in_other i l c c' n :
  differ_at i c c' -> i ∉ l -> cinv_in l c -> view_in l c' n = view_in l c n.
Proof.
  intros Hd Hi I. pose proof (cinv_in_other i l c c' Hd Hi I) as I'. pose proof Hd as (Ed & Es & Hb & _).
  destruct (cached_dec l c n I) as [(j & b & Hin & Hj & En)|Hn].
  - rewrite (view_cached l c n j b) by done. apply (view_cached l c' n j b); try done.
    rewrite Hb; [done|]. by intros ->.
  - rewrite !view_uncached; [by rewrite Ed, Es|done|]. intros j. rewrite (cached_other i c c') by done. apply Hn.
Qed.

(** A clean block may be dropped. *)
Lemma cinv_in_drop i l l' c : l ≡ₚ i :: l' -> cinv_in l c -> cinv_in l' c.
Proof.
  intros El [A B V P O R K].
  assert (Hs : forall j, j ∈ l' -> j ∈ l) by (intros j Hj; rewrite El; set_solver).
  assert (Hc : forall n j, cached (blocks c) l' n j -> cached (blocks c) l n j) by (intros n j [? ?]; split; auto).
  split; try done; eauto.
Qed.

Lemma view_in_drop i l l' c b n :
  l ≡ₚ i :: l' -> i ∉ l' -> cinv_in l c -> blocks c !! i = Some b -> is_dirty b = false ->
  view_in l' c n = view_in l c n.
Proof.
  intros El Hi I Hb Hcl. pose proof (cinv_in_drop i l l' c El I) as I'.
  destruct (cached_dec l' c n I') as [(j & b' & Hin & Hj & En)|Hn].
  - rewrite (view_cached l' c n j b') by done. symmetry. apply (view_cached l c n j b'); try done. rewrite El. set_solver.
  - rewrite view_uncached by done. destruct (decide (blocknum b = n)) as [En|Hne].
    + rewrite (view_cached l c n i b); [|done|rewrite El; set_solver|done|done]. subst n. symmetry.
      apply (ci_clean _ _ I i); [rewrite El; set_solver|done|done].
    + symmetry. apply view_uncached. intros j [Hin (b' & Hj & En)]. rewrite El in Hin.
      apply elem_of_cons in Hin as [->|Hin]; [congruence|]. apply (Hn j). split; [done|]. by exists b'.
Qed.

(** A block that holds a number which is not cached yet joins the list. *)
Lemma cinv_in_add i l c b :
  cinv_in l c -> i ∉ l -> blocks c !! i = Some b -> in_range c (blocknum b) ->
  (forall j, ~ cached (blocks c) l (blocknum b) j) ->
  (is_dirty b = false -> ptr b = device_block (dev c) (cache_block_size c) (blocknum b)) ->
  cinv_in (i :: l) c.
Proof.
  intros [A B V P O R K] Hi Hb Hr Hn Hcl.
  assert (Hc : forall n j, cached (blocks c) (i :: l) n j -> (j = i /\ n = blocknum b) \/ cached (blocks c) l n j).
  { intros n j [[->|Hin]%elem_of_cons (b' & Hj & En)]; [left; by simplify_eq|right; split; [done|by exists b']]. }
  split; try done.
  - intros j [->|Hj]%elem_of_cons; [by eexists|by apply V].
  - intros n j k Hj Hk. destruct (Hc _ _ Hj) as [[-> ->]|Hj'], (Hc _ _ Hk) as [[-> E]|Hk']; try done.
    + by apply Hn in Hk'.
    + subst n. by apply Hn in Hj'.
    + by apply (O n).
  - intros n j Hj. destruct (Hc _ _ Hj) as [[_ ->]|Hj']; [done|by apply (R n j)].
  - intros j b' [->|Hj]%elem_of_cons Hb' Hd; [simplify_eq; by apply Hcl|by apply (K j)].
Qed.

Lemma view_in_add i l c b n :
  cinv_in (i :: l) c -> i ∉ l -> blocks c !! i = Some b ->
  view_in (i :: l) c n = if decide (n = blocknum b) then ptr b else view_in l c n.
Proof.
  intros I Hi Hb. assert (I' : cinv_in l c) by (by apply (cinv_in_drop i (i :: l))).
  case_decide as E; [apply (view_cached _ _ _ i); [done|set_solver|done|done]|].
  destruct (cached_dec l c n I') as [(j & b' & Hin & Hj & En)|Hn].
  - rewrite (view_cached l c n j b') by done. apply (view_cached _ _ _ j); [done|set_solver|done|done].
  - rewrite (view_uncached l) by done. apply view_uncached. intros j [[->|Hin]%elem_of_cons (b' & Hj & En)]; [congruence|].
    apply (Hn j). split; [done|]. by exists b'.
Qed.

(** *** Writing a block back *)
Record flushed (i : nat) (b : bcache_block) c c' : Prop := {
  fl_bs : cache_block_size c' = cache_block_size c;
  fl_lru : lru_list c' = lru_list c;
  fl_free : free_list c' = free_list c;
  fl_blocks : blocks c' = alter (set_dirty false) i (blocks c);
  fl_wf : wf (dev c');
  fl_size : dev_size (dev c') = dev_size (dev c);
  fl_block : device_block (dev c') (cache_block_size c) (blocknum b) = ptr b;
  fl_other : forall n, in_range c n -> n <> blocknum b ->
    device_block (dev c') (cache_block_size c) n = device_block (dev c) (cache_block_size c) n
}.

Lemma flush_block_ok i l c b :
  cinv_in l c -> i ∈ l -> blocks c !! i = Some b ->
  exists c', flush_block i c = Some (c', 0) /\ flushed i b c c'.
Proof.
  intros I Hi Hb. pose proof (ci_bs _ _ I) as Hbs. pose proof (ci_ptr _ _ I i b Hb) as [Hp _].
  destruct (ci_range _ _ I (blocknum b) i) as [Hn Hr]; [split; [done|by exists b]|].
  pose proof (size_ok _ (ci_wf _ _ I)) as Hsz.
  destruct (bio_write_in (dev c) (ptr b) (blocknum b * cache_block_size c) (cache_block_size c))
    as (d' & E & Hw); [apply I|nia|lia|lia|lia|].
  pose proof (written_size _ _ _ _ (ci_wf _ _ I) Hw) as Es. destruct Hw as (W' & _ & _ & Ec).
  assert (Eall : slice 0 (cache_block_size c) (ptr b) = ptr b) by (rewrite <- Hp; apply slice_all).
  rewrite Eall in Ec. unfold flush_block. rewrite Hb. cbn [mbind option_bind]. rewrite E.
  rewrite (proj2 (Z.ltb_ge _ _)) by lia. eexists. split; [done|].
  split; try done; cbn [dev with_stats with_block with_dev]; unfold device_block; rewrite ?Ec.
  - rewrite <- Hp. apply slice_overlay_same; nia.
  - intros n [Hn0 Hnr] Hne. rewrite Hp || idtac. apply slice_overlay_other; nia.
Qed.

Lemma flushed_blocks i b c c' j :
  flushed i b c c' -> blocks c !! i = Some b ->
  blocks c' !! j = if decide (j = i) then Some (set_dirty false b) else blocks c !! j.
Proof.
  intros F Hb. rewrite (fl_blocks _ _ _ _ F). case_decide as E.
  - subst j. by rewrite list_lookup_alter_eq, Hb.
  - by rewrite list_lookup_alter_ne by done.
Qed.

Lemma flushed_cached i b c c' l n j :
  flushed i b c c' -> blocks c !! i = Some b -> cached (blocks c') l n j <-> cached (blocks c) l n j.
Proof.
  intros F Hb. unfold cached. rewrite (flushed_blocks i b c c' j F Hb). case_decide as E; [subst j|done].
  split; intros [Hin (x & Hx & En)]; (split; [done|]); simplify_eq; eauto.
Qed.

Lemma flushed_cinv i b l c c' :
  cinv_in l c -> i ∈ l -> blocks c !! i = Some b -> flushed i b c c' -> cinv_in l c'.
Proof.
  intros I Hi Hb F. pose proof (flushed_blocks i b c c') as Hbl. pose proof I as [A B V P O R K].
  split.
  - apply F.
  - by rewrite (fl_bs _ _ _ _ F).
  - intros j Hj. rewrite Hbl by done. case_decide; [done|by apply V].
  - intros j x. rewrite Hbl, (fl_bs _ _ _ _ F) by done. case_decide as E; [|apply P]. intros [= <-]. exact (P i b Hb).
  - intros n j k Hj Hk. apply (O n); by apply (flushed_cached i b c c').
  - intros n j Hj. unfold in_range. rewrite (fl_bs _ _ _ _ F), (fl_size _ _ _ _ F). apply (R n j).
    by apply (flushed_cached i b c c').
  - intros j x Hj. rewrite Hbl, (fl_bs _ _ _ _ F) by done. case_decide as E.
    + subst j. intros [= <-] _. simpl. symmetry. apply F.
    + intros Hx Hcl. rewrite (fl_other _ _ _ _ F); [by apply (K j)|apply (R _ j); split; [done|by exists x]|].
      intros En. apply E. apply (O (blocknum x)); [split; [done|by exists x]|split; [done|by exists b]].
Qed.

Lemma flushed_view i b l c c' n :
  cinv_in l c -> i ∈ l -> blocks c !! i = Some b -> flushed i b c c' -> in_range c n ->
  view_in l c' n = view_in l c n.
Proof.
  intros I Hi Hb F Hr. pose proof (flushed_cinv i b l c c' I Hi Hb F) as I'.
  destruct (cached_dec l c n I) as [(j & x & Hin & Hj & En)|Hn].
  - rewrite (view_cached l c n j x) by done.
    rewrite (view_cached l c' n j (if decide (j = i) then set_dirty false b else x)); try done.
    + case_decide; [subst; by simplify_eq|done].
    + rewrite (flushed_blocks i b c c') by done. by case_decide.
    + case_decide; [subst; by simplify_eq|done].
  - rewrite !view_uncached; [|done|intros j; rewrite (flushed_cached i b c c') by done; apply Hn].
    rewrite (fl_bs _ _ _ _ F). apply (fl_other _ _ _ _ F); [done|]. intros ->. apply (Hn i). split; [done|by exists b].
Qed.

(** *** Finding and allocating *)
Record same_cache c c' : Prop := {
  sc_bs : cache_block_size c' = cache_block_size c;
  sc_size : dev_size (dev c') = dev_size (dev c);
  sc_view : forall n, in_range c n -> cache_view c' n = cache_view c n
}.

Lemma find_block_ok n c :
  cinv c -> let '(c', r) := find_block n c in
  cinv c' /\ same_cache c c' /\ dev c' = dev c /\ blocks c' = blocks c /\ free_list c' = free_list c /\
  lru_list c' ≡ₚ lru_list c /\
  match r with Some i => cached (blocks c) (lru_list c) n i | None => forall i, ~ cached (blocks c) (lru_list c) n i end.
Proof.
  intros [I [Hnd Hfr]]. unfold find_block. destruct (lru_find _ _ _ _) as [[i d]|] eqn:E.
  - apply lru_find_Some in E. pose proof E as [Hin _].
    assert (El : filter (λ j, j <> i) (lru_list c) ++ [i] ≡ₚ lru_list c).
    { apply touch_perm; [|done]. by apply NoDup_app in Hnd as [? _]. }
    split_and!; try done.
    + split; [by apply (cinv_in_perm (lru_list c) _ c)|]. split; simpl; [by rewrite El|done].
    + split; try done. intros m _. by apply (view_perm (lru_list c) _ c).
  - split_and!; try done; [|by apply (lru_find_None _ _ _ _ (ci_valid _ _ I) E)].
    split; [by apply (cinv_in_perm (lru_list c) _ c)|done].
Qed.

Lemma lru_unused_ok bl l :
  (forall i, i ∈ l -> is_Some (bl !! i)) -> (exists i b, i ∈ l /\ bl !! i = Some b /\ ref_count b = 0) ->
  exists i b, lru_unused bl l = Some i /\ i ∈ l /\ bl !! i = Some b /\ ref_count b = 0.
Proof.
  induction l as [|j l IH]; intros Hv (i & b & Hin & Hb & Hr); [by apply not_elem_of_nil in Hin|]. cbn.
  destruct (Hv j ltac:(set_solver)) as [bj Hj]. rewrite Hj. destruct (Z.eqb_spec (ref_count bj) 0) as [E|E].
  - exists j, bj. split_and!; try done. set_solver.
  - destruct IH as (i' & b' & Hu & Hin' & ?); [intros; apply Hv; set_solver| |].
    + exists i, b. apply elem_of_cons in Hin as [->|Hin]; [congruence|done].
    + exists i', b'. split_and!; try tauto. set_solver.
Qed.

(** Some block can be taken: a free one, or one nobody holds. *)
Definition can_alloc c : Prop :=
  free_list c <> [] \/ exists i b, i ∈ lru_list c /\ blocks c !! i = Some b /\ ref_count b = 0.

(** The block [i] was taken, the blocks [l] hold data. *)
Record vacant (i : nat) (l : list nat) c : Prop := {
  va_cinv : cinv_in l c;
  va_lru : lru_list c = l ++ [i];
  va_fresh : i ∉ l;
  va_lists : lists_ok c;
  va_block : exists b, blocks c !! i = Some b /\ is_dirty b = false
}.

Lemma evict_ok i c b :
  cinv c -> i ∈ lru_list c -> blocks c !! i = Some b -> is_dirty b = false ->
  let l := filter (λ j, j <> i) (lru_list c) in
  vacant i l (touch i c) /\ (forall n, view_in l (touch i c) n = cache_view c n) /\
  (forall n j, cached (blocks c) l n j -> cached (blocks c) (lru_list c) n j).
Proof.
  intros [I [Hnd Hfr]] Hin Hb Hcl l.
  assert (Hnl : NoDup (lru_list c)) by (by apply NoDup_app in Hnd as [? _]).
  pose proof (touch_perm i (lru_list c) Hnl Hin) as El. fold l in El.
  assert (Hil : i ∉ l) by (unfold l; rewrite list_elem_of_filter; tauto).
  assert (El' : lru_list c ≡ₚ i :: l) by (rewrite <- El; solve_Permutation).
  split_and!.
  - split; try done.
    + apply (cinv_in_drop i (lru_list c)); [done|]. by apply (cinv_in_perm (lru_list c) _ c).
    + split; [change (NoDup ((l ++ [i]) ++ free_list c)); by rewrite El|done].
    + by exists b.
  - intros n. unfold cache_view. rewrite <- (view_in_drop i (lru_list c) l c b n El' Hil I Hb Hcl).
    by apply (view_perm l l c); [apply (cinv_in_drop i (lru_list c))|..].
  - intros n j [Hj ?]. split; [rewrite El'; set_solver|done].
Qed.

Lemma alloc_block_ok c :
  cinv c -> can_alloc c -> exists c' i l, alloc_block c = Some (c', Some i) /\ vacant i l c' /\
    cache_block_size c' = cache_block_size c /\ dev_size (dev c') = dev_size (dev c) /\
    (forall n, in_range c n -> view_in l c' n = cache_view c n) /\
    (forall n j, cached (blocks c') l n j -> cached (blocks c) (lru_list c) n j).
Proof.
  intros HI Hca. pose proof HI as [I [Hnd Hfr]]. unfold alloc_block. destruct (free_list c) as [|i free] eqn:Ef.
  - destruct Hca as [Hca|Hca]; [done|]. destruct (lru_unused_ok _ _ (ci_valid _ _ I) Hca) as (i & b & -> & Hin & Hb & _).
    rewrite Hb. cbn [mbind option_bind]. destruct (is_dirty b) eqn:Hd.
    + destruct (flush_block_ok i (lru_list c) c b I Hin Hb) as (c1 & E1 & F). rewrite E1. simpl.
      assert (HI1 : cinv c1).
      { split; [rewrite (fl_lru _ _ _ _ F); by apply (flushed_cinv i b _ c)|].
        split; rewrite (fl_lru _ _ _ _ F) || idtac; rewrite (fl_free _ _ _ _ F), Ef; [done|].
        intros j Hj. by apply not_elem_of_nil in Hj. }
      destruct (evict_ok i c1 (set_dirty false b)) as (V & Hv & Hc); [done|by rewrite (fl_lru _ _ _ _ F)| |done|].
      { rewrite (flushed_blocks i b c c1) by done. by rewrite decide_True. }
      eexists _, i, _. split; [done|]. split_and!; [done|apply F|apply F| |].
      * intros n Hr. rewrite Hv. unfold cache_view. rewrite (fl_lru _ _ _ _ F). by apply (flushed_view i b _ c).
      * intros n j Hj. rewrite <- (flushed_cached i b c c1) by done. rewrite <- (fl_lru _ _ _ _ F). by apply Hc.
    + destruct (evict_ok i c b HI Hin Hb Hd) as (V & Hv & Hc). simpl.
      eexists _, i, _. split; [done|]. split_and!; try done.
  - set (c' := with_block i (set_ref_count 0) (with_lists free (lru_list c ++ [i]) c)).
    apply NoDup_app in Hnd as (Hnl & Hdis & [Hif Hnf]%NoDup_cons).
    assert (Hil : i ∉ lru_list c) by (intros Hi; apply (Hdis i Hi); set_solver).
    destruct (Hfr i) as (b & Hb & Hcl); [set_solver|].
    assert (Hdiff : differ_at i c c').
    { split_and!; try done; cbn.
      - intros j Hj. by apply list_lookup_alter_ne.
      - intros x. rewrite list_lookup_alter_eq, Hb. intros [= <-]. split; [by apply (ci_ptr _ _ I i b)|done]. }
    exists c', i, (lru_list c). split; [done|]. split_and!; try done.
    + split; try done.
      * by apply (cinv_in_other i _ c).
      * split; cbn.
        -- rewrite <- app_assoc. apply NoDup_app. split_and!; [done| |by constructor].
           intros x Hx. specialize (Hdis x Hx). set_solver.
        -- intros j Hj. rewrite list_lookup_alter_ne by (intros ->; done). apply Hfr. set_solver.
      * cbn. rewrite list_lookup_alter_eq, Hb. by eexists.
    + intros n _. by apply (view_in_other i _ c).
    + intros n j. by rewrite (cached_other i c c').
Qed.

(** The taken block gets a number that is not cached, and data. *)
Lemma occupy_ok i l c c' b :
  vacant i l c -> differ_at i c c' -> lru_list c' = lru_list c -> free_list c' = free_list c ->
  blocks c' !! i = Some b -> in_range c (blocknum b) ->
  (forall j, ~ cached (blocks c) l (blocknum b) j) ->
  (is_dirty b = false -> ptr b = device_block (dev c) (cache_block_size c) (blocknum b)) ->
  cinv c' /\ forall m, cache_view c' m = if decide (m = blocknum b) then ptr b else view_in l c m.
Proof.
  intros [I El Hil [Hnd Hfr] _] Hd Elru Efree Hb Hr Hn Hcl. pose proof Hd as (Ed & Es & Hbl & _).
  assert (I' : cinv_in (i :: l) c').
  { apply (cinv_in_add i l c' b); try done.
    - by apply (cinv_in_other i l c).
    - unfold in_range in *. by rewrite Ed, Es.
    - intros j. rewrite (cached_other i c c') by done. apply Hn.
    - by rewrite Ed, Es. }
  assert (Ep : lru_list c' ≡ₚ i :: l) by (rewrite Elru, El; solve_Permutation).
  split; [split|].
  - by apply (cinv_in_perm (i :: l) _ c').
  - split; rewrite ?Elru, ?Efree; [done|]. intros j Hj. destruct (Hfr j Hj) as (x & Hx & ?).
    exists x. rewrite Hbl; [done|]. intros ->. apply NoDup_app in Hnd as (_ & Hdis & _).
    apply (Hdis i); [rewrite El; set_solver|done].
  - intros m. unfold cache_view. rewrite (view_perm (i :: l) _ c' c') by done.
    rewrite (view_in_add i l c' b) by done. case_decide; [done|]. by apply (view_in_other i l c).
Qed.

(** Block [n] is in the cache, as block [i]. *)
Definition present c (n : Z) (i : nat) : Prop :=
  i ∈ lru_list c /\ exists b, blocks c !! i = Some b /\ blocknum b = n /\ ptr b = cache_view c n.

Lemma cached_present c n i : cinv c -> cached (blocks c) (lru_list c) n i -> present c n i.
Proof.
  intros [I _] [Hin (b & Hb & En)]. split; [done|]. exists b. split_and!; try done. symmetry. by apply (view_cached _ _ _ i).
Qed.

Lemma in_range_ext c c' n :
  cache_block_size c' = cache_block_size c -> dev_size (dev c') = dev_size (dev c) -> in_range c' n <-> in_range c n.
Proof. unfold in_range. by intros -> ->. Qed.

Lemma same_cache_trans c1 c2 c3 : same_cache c1 c2 -> same_cache c2 c3 -> same_cache c1 c3.
Proof.
  intros [A B C] [A' B' C']. split; [congruence..|]. intros n Hn. rewrite C', C; [done..|]. by apply (in_range_ext c1).
Qed.

Lemma can_alloc_ext c c' :
  blocks c' = blocks c -> free_list c' = free_list c -> lru_list c' ≡ₚ lru_list c -> can_alloc c -> can_alloc c'.
Proof.
  intros Eb Ef El [?|(i & b & Hi & ?)]; [left; by rewrite Ef|right]. exists i, b. by rewrite El, Eb.
Qed.

Lemma find_or_fill_ok n c :
  cinv c -> in_range c n -> can_alloc c ->
  exists c' i, find_or_fill_block n c = Some (c', i) /\ cinv c' /\ same_cache c c' /\ present c' n i.
Proof.
  intros HI Hr Hca. unfold find_or_fill_block. pose proof (find_block_ok n c HI) as Hf.
  destruct (find_block n c) as [c1 [i|]]; destruct Hf as (HI1 & Sc & Ed & Eb & Ef & El & Hres).
  - exists c1, i. split_and!; try done. apply cached_present; [done|]. destruct Hres as [Hin ?]. split; rewrite ?Eb, ?El; done.
  - pose proof (proj2 (in_range_ext c c1 n (sc_bs _ _ Sc) (sc_size _ _ Sc)) Hr) as Hr1.
    destruct (alloc_block_ok c1 HI1) as (c2 & i & l & -> & V & Es2 & Ez2 & Hv2 & Hc2); [by apply (can_alloc_ext c)|].
    cbn [mbind option_bind]. destruct (va_block _ _ _ V) as (b & Hb & Hcl). cbn [blocks with_block].
    rewrite list_lookup_alter_eq, Hb. cbn [fmap option_fmap option_map mbind option_bind ptr set_blocknum dev with_block cache_block_size].
    pose proof (va_cinv _ _ _ V) as I2. pose proof (ci_bs _ _ I2) as Hbs. pose proof (ci_ptr _ _ I2 i b Hb) as [Hp Href].
    destruct (proj2 (in_range_ext c1 c2 n Es2 Ez2) Hr1) as [Hn0 Hn1].
    pose proof (size_ok _ (ci_wf _ _ I2)) as Hsz.
    rewrite bio_read_in; [|apply I2|nia|lia|lia|lia].
    assert (Hsl : zlen (slice (n * cache_block_size c2) (cache_block_size c2) (contents (dev c2))) = cache_block_size c2)
      by (apply slice_len; nia).
    rewrite overlay_full by lia. rewrite (proj2 (Z.ltb_ge _ _)) by lia.
    set (data := slice (n * cache_block_size c2) (cache_block_size c2) (contents (dev c2))) in *.
    match goal with |- exists c' i', Some (?x, _) = _ /\ _ => set (c3 := x) end.
    assert (Hb3 : blocks c3 !! i = Some (CBlock n (ref_count b) (is_dirty b) data)).
    { unfold c3. cbn. rewrite list_lookup_alter_eq, list_lookup_alter_eq, Hb. done. }
    destruct (occupy_ok i l c2 c3 (CBlock n (ref_count b) (is_dirty b) data) V) as [HI3 Hv3]; try done.
    + split_and!; try done.
      * intros j Hj. unfold c3. cbn. by rewrite !list_lookup_alter_ne by done.
      * rewrite Hb3. by intros x [= <-].
    + cbn. intros j Hj. apply Hc2 in Hj as [Hj (x & Hx & ?)]. apply (Hres j). rewrite Eb in Hx. rewrite El in Hj. split; [done|by exists x].
    + exists c3, i. split_and!; try done.
      * apply (same_cache_trans c c1); [done|]. split; [done|done|]. intros m Hm. rewrite Hv3. cbn [blocknum ptr].
        case_decide as E; [subst m|by apply Hv2]. rewrite <- Hv2 by done.
        rewrite view_uncached; [done|]. intros j Hj. apply Hc2 in Hj as [Hj (x & Hx & ?)].
        apply (Hres j). rewrite Eb in Hx. rewrite El in Hj. split; [done|by exists x].
      * apply cached_present; [done|]. split; [|by eexists].
        change (i ∈ lru_list c2). rewrite (va_lru _ _ _ V). set_solver.
Qed.

(** *** Changes to a block that is held *)

(** Only the reference counts differ. *)
Definition same_data (bl bl' : list bcache_block) : Prop :=
  forall j, (λ b, (blocknum b, is_dirty b, ptr b)) <$> bl' !! j = (λ b, (blocknum b, is_dirty b, ptr b)) <$> bl !! j.

Lemma same_data_fwd bl bl' j b :
  same_data bl bl' -> bl !! j = Some b -> exists b', bl' !! j = Some b' /\
    blocknum b' = blocknum b /\ is_dirty b' = is_dirty b /\ ptr b' = ptr b.
Proof.
  intros Hs Hb. specialize (Hs j). rewrite Hb in Hs. destruct (bl' !! j) as [b'|]; [|done].
  injection Hs as ? ? ?. by exists b'.
Qed.

Lemma same_data_sym bl bl' : same_data bl bl' -> same_data bl' bl.
Proof. intros Hs j. symmetry. apply Hs. Qed.

Lemma same_data_cached bl bl' l n j : same_data bl bl' -> cached bl l n j -> cached bl' l n j.
Proof.
  intros Hs [Hin (b & Hb & En)]. destruct (same_data_fwd _ _ _ _ Hs Hb) as (b' & Hb' & ? & _).
  split; [done|]. exists b'. split; [done|congruence].
Qed.

Lemma ref_count_ok i g c :
  cinv c -> (forall b, blocks c !! i = Some b -> 0 <= g b) ->
  let c' := with_block i (λ b, set_ref_count (g b) b) c in
  cinv c' /\ same_cache c c' /\ forall n j, present c n j -> present c' n j.
Proof.
  intros [I [Hnd Hfr]] Hg c'.
  assert (Hs : same_data (blocks c) (blocks c')).
  { intros j. unfold c'. cbn. destruct (decide (j = i)) as [->|].
    - rewrite list_lookup_alter_eq. by destruct (blocks c !! i).
    - by rewrite list_lookup_alter_ne by done. }
  pose proof (same_data_sym _ _ Hs) as Hs'. pose proof I as [A B V P O R K].
  assert (I' : cinv_in (lru_list c') c').
  { split; try done.
    - intros j Hj. destruct (V j Hj) as [b Hb]. destruct (same_data_fwd _ _ _ _ Hs Hb) as (b' & Hb' & _). by exists b'.
    - intros j b' Hb'. destruct (same_data_fwd _ _ _ _ Hs' Hb') as (b & Hb & _ & _ & Ep).
      destruct (P j b Hb) as [Hp Href]. split; [by rewrite <- Ep|]. unfold c' in Hb'. cbn in Hb'.
      rewrite list_lookup_alter in Hb'. case_decide; [subst; rewrite Hb in Hb'; injection Hb' as <-; by apply Hg|].
      rewrite Hb in Hb'. by injection Hb' as <-.
    - intros n j k Hj Hk. apply (O n); by eapply same_data_cached.
    - intros n j Hj. apply (R n j). by eapply same_data_cached.
    - intros j b' Hj Hb' Hcl. destruct (same_data_fwd _ _ _ _ Hs' Hb') as (b & Hb & <- & Ed & <-).
      apply (K j); [done|done|congruence]. }
  assert (Hview : forall n, cache_view c' n = cache_view c n).
  { intros n. destruct (cached_dec _ c n I) as [(j & b & Hin & Hb & En)|Hn].
    - destruct (same_data_fwd _ _ _ _ Hs Hb) as (b' & Hb' & En' & _ & Ep). unfold cache_view.
      rewrite (view_cached _ c n j b), (view_cached _ c' n j b'); try done. congruence.
    - unfold cache_view. rewrite !view_uncached; try done. intros j Hj. apply (Hn j). by eapply same_data_cached. }
  split_and!; [split; [done|split; [done|]]|split; [done..|intros n _; apply Hview]|].
  - intros j Hj. destruct (Hfr j Hj) as (b & Hb & Hcl). destruct (same_data_fwd _ _ _ _ Hs Hb) as (b' & Hb' & _ & Ed & _).
    exists b'. split; [done|congruence].
  - intros n j [Hin (b & Hb & En & Ep)]. destruct (same_data_fwd _ _ _ _ Hs Hb) as (b' & Hb' & En' & _ & Ep').
    split; [done|]. exists b'. rewrite Hview. split_and!; congruence.
Qed.

(** The data of a block is replaced and the block marked dirty. *)
Lemma modify_ok i l c c' b b' :
  cinv_in l c -> NoDup l -> i ∈ l -> differ_at i c c' -> blocks c !! i = Some b -> blocks c' !! i = Some b' ->
  blocknum b' = blocknum b -> is_dirty b' = true ->
  cinv_in l c' /\ forall m, view_in l c' m = if decide (m = blocknum b) then ptr b' else view_in l c m.
Proof.
  intros I Hnd Hin Hd Hb Hb' En Hdirty. pose proof Hd as (Ed & Es & _).
  apply list_elem_of_split in Hin as (l1 & l2 & ->). set (l' := l1 ++ l2).
  assert (El : l1 ++ i :: l2 ≡ₚ i :: l') by (unfold l'; by rewrite Permutation_middle).
  assert (Hi : i ∉ l') by (rewrite El in Hnd; by apply NoDup_cons in Hnd as [? _]).
  pose proof (cinv_in_perm _ (i :: l') c c (symmetry El) eq_refl eq_refl eq_refl I) as I1.
  pose proof (cinv_in_drop i (i :: l') l' c ltac:(done) I1) as I2.
  assert (Hcb : cached (blocks c) (i :: l') (blocknum b) i) by (split; [set_solver|by exists b]).
  assert (I3 : cinv_in (i :: l') c').
  { apply (cinv_in_add i l' c' b'); try done.
    - by apply (cinv_in_other i l' c).
    - rewrite En. unfold in_range. rewrite Ed, Es. by apply (ci_range _ _ I1 _ i).
    - intros j Hj. rewrite En, (cached_other i c c') in Hj by done. destruct Hj as [Hj Hx].
      apply Hi. rewrite (ci_once _ _ I1 (blocknum b) i j); [done|done|]. split; [set_solver|done].
    - congruence. }
  split; [by apply (cinv_in_perm (i :: l') _ c')|]. intros m.
  rewrite (view_perm (i :: l') _ c' c'), (view_perm (i :: l') _ c c) by done.
  rewrite (view_in_add i l' c' b'), (view_in_add i l' c b) by done. rewrite En.
  case_decide; [done|]. by apply (view_in_other i l' c).
Qed.

(** The walk does not look at the data. *)
Lemma lru_find_alter i f bl n l :
  (forall b, blocknum (f b) = blocknum b) -> forall d, lru_find (alter f i bl) n l d = lru_find bl n l d.
Proof.
  intros Hf. induction l as [|j l IH]; intros d; cbn; [done|]. rewrite list_lookup_alter.
  case_decide as E; [subst j|by destruct (bl !! j); rewrite ?IH].
  destruct (bl !! i); simpl; [by rewrite Hf, IH|done].
Qed.

Lemma mark_poked n i data c :
  cinv c -> present c n i -> zlen data = cache_block_size c ->
  exists c', bcache_mark_block_dirty n (poke_block i data c) = (c', 0) /\ cinv c' /\
    cache_block_size c' = cache_block_size c /\ dev_size (dev c') = dev_size (dev c) /\
    (forall m, cache_view c' m = if decide (m = n) then data else cache_view c m) /\
    cached (blocks c') (lru_list c') n i /\
    ref_count <$> blocks c' !! i = ref_count <$> blocks c !! i.
Proof.
  intros [I [Hnd Hfr]] [Hin (b & Hb & En & Ep)] Hdata. subst n.
  assert (Hnl : NoDup (lru_list c)) by (by apply NoDup_app in Hnd as [? _]).
  unfold bcache_mark_block_dirty, find_block, poke_block. cbn [blocks with_block lru_list].
  rewrite lru_find_alter by done.
  destruct (lru_find (blocks c) (blocknum b) (lru_list c) 0) as [[j d]|] eqn:E.
  2:{ exfalso. apply (lru_find_None _ _ _ _ (ci_valid _ _ I) E i). split; [done|by exists b]. }
  apply lru_find_Some in E. assert (j = i) as ->.
  { apply (ci_once _ _ I (blocknum b)); [done|]. split; [done|by exists b]. }
  eexists. split; [done|]. match goal with |- cinv ?x /\ _ => set (c' := x) end.
  assert (Hb' : blocks c' !! i = Some (CBlock (blocknum b) (ref_count b) true data)).
  { unfold c'. cbn. by rewrite !list_lookup_alter_eq, Hb. }
  pose proof (touch_perm i (lru_list c) Hnl Hin) as El.
  assert (Hd : differ_at i c c').
  { split_and!; try done.
    - intros k Hk. unfold c'. cbn. by rewrite !list_lookup_alter_ne by done.
    - rewrite Hb'. intros x [= <-]. split; [done|]. cbn. by apply (ci_ptr _ _ I i b). }
  destruct (modify_ok i (lru_list c) c c' b _ I Hnl Hin Hd Hb Hb' eq_refl eq_refl) as [I' Hv'].
  split_and!; try done.
  - split; [by apply (cinv_in_perm (lru_list c) _ c')|]. split.
    + change (NoDup ((filter (λ k, k <> i) (lru_list c) ++ [i]) ++ free_list c)). by rewrite El.
    + intros k Hk. destruct (Hfr k Hk) as (x & Hx & ?). exists x. destruct Hd as (_ & _ & Hoth & _).
      rewrite Hoth; [done|]. intros ->. apply NoDup_app in Hnd as (_ & Hdis & _). by apply (Hdis i Hin).
  - intros m. unfold cache_view. rewrite (view_perm (lru_list c) _ c' c') by done. by rewrite Hv'.
  - split; [|by eexists]. change (i ∈ filter (λ k, k <> i) (lru_list c) ++ [i]). set_solver.
  - by rewrite Hb', Hb.
Qed.

Lemma flush_loop_ok : forall l2 l1 c,
  cinv c -> lru_list c = l1 ++ l2 ->
  (forall i b, i ∈ l1 -> blocks c !! i = Some b -> is_dirty b = false) ->
  exists c', flush_loop l2 c = Some (c', 0) /\ cinv c' /\ same_cache c c' /\ lru_list c' = lru_list c /\
    forall i b, i ∈ lru_list c' -> blocks c' !! i = Some b -> is_dirty b = false.
Proof.
  induction l2 as [|i l2 IH]; intros l1 c HI El Hcl; cbn [flush_loop].
  - exists c. split_and!; try done. rewrite El, app_nil_r. done.
  - pose proof HI as [I [Hnd Hfr]]. assert (Hin : i ∈ lru_list c) by (rewrite El; set_solver).
    destruct (ci_valid _ _ I i Hin) as [b Hb]. rewrite Hb. cbn [mbind option_bind]. destruct (is_dirty b) eqn:Hd.
    + destruct (flush_block_ok i _ c b I Hin Hb) as (c1 & -> & F). cbn [mbind option_bind]. change (0 =? 0) with true.
      assert (HI1 : cinv c1).
      { split; [rewrite (fl_lru _ _ _ _ F); by apply (flushed_cinv i b _ c)|].
        split; [by rewrite (fl_lru _ _ _ _ F), (fl_free _ _ _ _ F)|]. rewrite (fl_free _ _ _ _ F).
        intros j Hj. rewrite (flushed_blocks i b c c1) by done. case_decide; [by eexists|by apply Hfr]. }
      destruct (IH (l1 ++ [i]) c1 HI1) as (c' & -> & HI' & Sc & El' & Hall).
      * rewrite (fl_lru _ _ _ _ F), El. by rewrite <- app_assoc.
      * intros j x Hj. rewrite (flushed_blocks i b c c1) by done. case_decide as E; [by intros [= <-]|].
        apply Hcl. set_solver.
      * exists c'. split_and!; try done; [|by rewrite El', (fl_lru _ _ _ _ F)].
        apply (same_cache_trans c c1); [|done]. split; [apply F|apply F|]. intros n Hr. unfold cache_view.
        rewrite (fl_lru _ _ _ _ F). by apply (flushed_view i b _ c).
    + destruct (IH (l1 ++ [i]) c HI) as (c' & -> & ?).
      * by rewrite El, <- app_assoc.
      * intros j x Hj. apply elem_of_app in Hj as [Hj | ->%list_elem_of_singleton]; [by apply Hcl|]. congruence.
      * by exists c'.
Qed.

(** ** Theorems *)

(** C8. Reading a block through the cache succeeds whenever a cache block can be
    taken, returns the block as the cache presents it (the latest data, cached or
    not), and changes no block, even when it evicts and writes back another. *)
Theorem bcache_read_coherent n c :
  cinv c -> in_range c n -> can_alloc c ->
  exists c', bcache_read_block n c = Some (c', cache_view c n) /\ cinv c' /\
    forall m, in_range c m -> cache_view c' m = cache_view c m.
Proof.
  intros HI Hr Hca. destruct (find_or_fill_ok n c HI Hr Hca) as (c' & i & E & HI' & Sc & _ & b & Hb & _ & Ep).
  exists c'. unfold bcache_read_block. rewrite E. cbn [mbind option_bind]. rewrite Hb. cbn [mbind option_bind].
  destruct (ci_ptr _ _ (proj1 HI') i b Hb) as [Hp _]. rewrite <- Hp, slice_all, Ep, (sc_view _ _ Sc) by done.
  split_and!; try done. apply Sc.
Qed.

(** C34. A client that gets a block, stores to it through the pointer, marks it
    dirty and puts it back updates exactly this block. *)
Theorem bcache_update_coherent n data c :
  cinv c -> in_range c n -> can_alloc c -> zlen data = cache_block_size c ->
  exists c1 i c2 c3, bcache_get_block n c = Some (c1, i) /\
    bcache_mark_block_dirty n (poke_block i data c1) = (c2, 0) /\
    bcache_put_block n c2 = Some c3 /\ cinv c3 /\
    forall m, in_range c m -> cache_view c3 m = if decide (m = n) then data else cache_view c m.
Proof.
  intros HI Hr Hca Hdata. destruct (find_or_fill_ok n c HI Hr Hca) as (c0 & i & E & HI0 & Sc & Hpr).
  pose proof Hpr as [Hin (b & Hb & _)]. destruct (ci_ptr _ _ (proj1 HI0) i b Hb) as [_ Href].
  destruct (ref_count_ok i (λ b, ref_count b + 1) c0 HI0) as (HI1 & Sc1 & Hpr1); [intros x Hx; simplify_eq; lia|].
  set (c1 := with_block i (λ b, set_ref_count (ref_count b + 1) b) c0) in *.
  destruct (mark_poked n i data c1 HI1 (Hpr1 n i Hpr)) as (c2 & E2 & HI2 & Es2 & Ez2 & Hv2 & Hc2 & Hr2).
  { rewrite (sc_bs _ _ Sc1), (sc_bs _ _ Sc). done. }
  pose proof (find_block_ok n c2 HI2) as Hf. destruct (find_block n c2) as [c2' [j|]] eqn:Ef;
    destruct Hf as (HI2' & Sc2 & Ed & Eb & Efr & El & Hres); [|by apply Hres in Hc2].
  assert (j = i) as -> by (apply (ci_once _ _ (proj1 HI2) n); done).
  assert (Hbi : exists b2, blocks c2' !! i = Some b2 /\ ref_count b2 = ref_count b + 1).
  { rewrite Eb. unfold c1 in Hr2. cbn in Hr2. rewrite list_lookup_alter_eq, Hb in Hr2. cbn in Hr2.
    apply fmap_Some in Hr2 as (b2 & ? & ?). by exists b2. }
  destruct Hbi as (b2 & Hb2 & Er2).
  destruct (ref_count_ok i (λ b, ref_count b - 1) c2' HI2') as (HI3 & Sc3 & _); [intros x Hx; simplify_eq; lia|].
  exists c1, i, c2. eexists. split_and!.
  - unfold bcache_get_block. by rewrite E.
  - done.
  - unfold bcache_put_block. rewrite Ef. cbn [mbind option_bind]. rewrite Hb2. cbn [mbind option_bind].
    rewrite (proj2 (Z.ltb_lt _ _)) by lia. done.
  - done.
  - intros m Hm.
    assert (Hm1 : in_range c1 m) by (apply (in_range_ext c0), (in_range_ext c); (apply Sc || apply Sc1 || done)).
    assert (Hm2 : in_range c2 m) by (by apply (in_range_ext c1)).
    rewrite (sc_view _ _ Sc3) by (apply (in_range_ext c2); (apply Sc2 || done)).
    rewrite (sc_view _ _ Sc2), Hv2 by done. case_decide; [done|].
    rewrite (sc_view _ _ Sc1), (sc_view _ _ Sc); [done|done|]. apply (in_range_ext c); (apply Sc || done).
Qed.

(** C35. Flushing succeeds and makes the device agree with the cache: afterwards
    every block on the device is the block the cache presented before. *)
Theorem bcache_flush_durable c :
  cinv c -> exists c', bcache_flush c = Some (c', 0) /\ cinv c' /\
    forall n, in_range c n -> cache_view c' n = cache_view c n /\
      device_block (dev c') (cache_block_size c') n = cache_view c n.
Proof.
  intros HI. destruct (flush_loop_ok (lru_list c) [] c HI eq_refl) as (c' & E & HI' & Sc & El & Hall).
  { intros i b Hi. by apply not_elem_of_nil in Hi. }
  exists c'. split_and!; try done. intros n Hr. rewrite <- (sc_view _ _ Sc n Hr). split; [done|].
  pose proof (proj1 HI') as I'. destruct (cached_dec _ c' n I') as [(i & b & Hin & Hb & En)|Hn].
  - unfold cache_view. rewrite (view_cached _ _ _ i b) by done. subst n. symmetry.
    apply (ci_clean _ _ I' i); [done|done|]. by apply (Hall i).
  - unfold cache_view. by rewrite view_uncached.
Qed.
End Coherence.

(** A new cache is empty and satisfies the invariant. *)
Lemma bcache_create_ok `{ByteLaws D} (d : D) bs mem :
  wf d -> 0 < bs < 2 ^ 31 -> Forall (λ p, zlen p = bs) mem -> cinv (bcache_create d bs mem).
Proof.
  intros W Hbs Hmem. rewrite Forall_lookup in Hmem. split; [split|split]; unfold bcache_create; cbn [dev cache_block_size lru_list free_list blocks app].
  - done.
  - done.
  - intros i Hi. by apply not_elem_of_nil in Hi.
  - intros i b. rewrite list_lookup_fmap. intros (p & Hp & ->)%fmap_Some. split; [by apply (Hmem i)|done].
  - intros n i j [Hi _]. by apply not_elem_of_nil in Hi.
  - intros n i [Hi _]. by apply not_elem_of_nil in Hi.
  - intros i b Hi. by apply not_elem_of_nil in Hi.
  - rewrite reverse_Permutation. apply NoDup_seq.
  - intros i Hi. apply elem_of_reverse, elem_of_seq in Hi.
    destruct (lookup_lt_is_Some_2 mem i) as [p Hp]; [exact (proj2 Hi)|]. exists (CBlock 0 0 false p). split; [|done]. rewrite list_lookup_fmap. apply fmap_Some. exists p. split; [exact Hp|done].
Qed.

(** ** Witnesses: two cache blocks over a device of four. *)
Definition sample_cache : bcache (bdev mem_bdev) :=
  bcache_create sample_dev 512 [replicate 512 55; replicate 512 66].

Lemma sample_cache_cinv : cinv sample_cache.
Proof. apply bcache_create_ok; [exact sample_dev_wf|lia|]. repeat constructor. Qed.

Lemma sample_can_alloc : can_alloc sample_cache.
Proof. by left. Qed.

Lemma bcache_read_coherent_witness :
  exists c', bcache_read_block 2 sample_cache = Some (c', cache_view sample_cache 2) /\ cinv c' /\
    forall m, in_range sample_cache m -> cache_view c' m = cache_view sample_cache m.
Proof.
  apply (bcache_read_coherent 2 sample_cache); [exact sample_cache_cinv| |exact sample_can_alloc].
  vm_compute. split; congruence.
Defined.

Lemma bcache_update_coherent_witness :
  exists c1 i c2 c3, bcache_get_block 3 sample_cache = Some (c1, i) /\
    bcache_mark_block_dirty 3 (poke_block i (replicate 512 9) c1) = (c2, 0) /\
    bcache_put_block 3 c2 = Some c3 /\ cinv c3 /\
    forall m, in_range sample_cache m ->
      cache_view c3 m = if decide (m = 3) then replicate 512 9 else cache_view sample_cache m.
Proof.
  apply (bcache_update_coherent 3 (replicate 512 9) sample_cache);
    [exact sample_cache_cinv|vm_compute; split; congruence|exact sample_can_alloc|reflexivity].
Defined.

Lemma bcache_flush_durable_witness :
  exists c', bcache_flush sample_cache = Some (c', 0) /\ cinv c' /\
    forall n, in_range sample_cache n -> cache_view c' n = cache_view sample_cache n /\
      device_block (dev c') (cache_block_size c') n = cache_view sample_cache n.
Proof. apply (bcache_flush_durable sample_cache). exact sample_cache_cinv. Defined.

(** Eviction: with one cache block, reading another block writes the dirty one back. *)
Example evict_writes_back :
  let c := bcache_create sample_dev 512 [replicate 512 55] in
  exists c1 c2 d, bcache_zero_block 1 c = Some (c1, 0) /\ bcache_read_block 2 c1 = Some (c2, d) /\
    device_block (dev c2) 512 1 = replicate 512 0 /\ lru_list c2 = [0%nat].
Proof. eexists _, _, _. split; [vm_compute; reflexivity|]. split; [vm_compute; reflexivity|]. by vm_compute. Qed.
