(* ===== verification/Refs.v ===== *)
(** * Reference counts

    Objects in a table [m], each with a count [ref], against the list [refs] of the
    references that exist: [counted] says that the count of an object is the number of
    references to it, that an object without references is not in the table, and that
    there is no reference to an object outside it.  The registry of block devices and
    the mount table are instances.  At the end, sums over the objects of a table, for
    the counts that threads keep together. *)
From stdpp Require Import base gmap list.
From Stdlib Require Import ZArith Lia.
From S2P Require Import Prelude.
#[local] Open Scope Z_scope.

Definition cnt (id : nat) (l : list nat) : Z := Z.of_nat (length (filter (λ x, x = id) l)).

#[export] Instance cnt_proper id : Proper (Permutation ==> eq) (cnt id).
Proof. intros l1 l2 E. unfold cnt. by rewrite E. Qed.

Lemma cnt_cons id x l : cnt id (x :: l) = (if decide (x = id) then 1 else 0) + cnt id l.
Proof. unfold cnt. rewrite filter_cons. case_decide; cbn [length]; lia. Qed.
Lemma cnt_elem id l : id ∈ l <-> 0 < cnt id l.
Proof.
  induction l as [|x l IH]; [split; [by intros ?%not_elem_of_nil | unfold cnt; cbn; lia]|].
  rewrite cnt_cons, elem_of_cons. assert (0 <= cnt id l) by (unfold cnt; lia).
  destruct (decide (x = id)) as [->|Hne]; [split; [lia | by left]|].
  rewrite Z.add_0_l, <- IH. split; [intros [->|?]; done | by right].
Qed.

(** Taking an object out of a list it is in once. *)
Lemma filter_out_perm id (l : list nat) :
  NoDup l -> id ∈ l -> l ≡ₚ id :: filter (λ x, x <> id) l.
Proof.
  induction 1 as [|x l Hx Hnd IH]; [by intros ?%not_elem_of_nil|].
  intros [<-|Hin]%elem_of_cons; rewrite filter_cons.
  - rewrite decide_False by (by intros []). rewrite list_filter_all; [done|]. intros y Hy ->. done.
  - rewrite decide_True by (intros ->; done). rewrite Permutation_swap. by rewrite <- IH.
Qed.

Section Counted.
Context {A : Type} (ref : A -> Z).
Implicit Types m : gmap nat A.

Definition counted m (refs : list nat) : Prop :=
  (∀ id d, m !! id = Some d -> ref d = cnt id refs ∧ 0 < ref d) ∧
  (∀ id, id ∈ refs -> is_Some (m !! id)).

#[export] Instance counted_proper m : Proper (Permutation ==> iff) (counted m).
Proof.
  intros l1 l2 E. unfold counted. split; intros [H1 H2]; split; intros id.
  - intros d Hd. rewrite <- E. by apply H1.
  - rewrite <- E. apply H2.
  - intros d Hd. rewrite E. by apply H1.
  - rewrite E. apply H2.
Qed.

Lemma counted_live m refs id : counted m refs -> is_Some (m !! id) <-> id ∈ refs.
Proof.
  intros [Hc Hl]. split; [|apply Hl]. intros [d Hd]. apply cnt_elem. destruct (Hc _ _ Hd). lia.
Qed.

(** An update that keeps the count. *)
Lemma counted_same m refs id d d' :
  counted m refs -> m !! id = Some d -> ref d' = ref d -> counted (<[id := d']> m) refs.
Proof.
  intros [Hc Hl] Hd Hr. split.
  - intros i x [[-> <-]|[Hne Hx]]%lookup_insert_Some; [rewrite Hr|]; by apply Hc.
  - intros i Hi. destruct (decide (i = id)) as [->|]; [rewrite lookup_insert_eq; eauto|].
    rewrite lookup_insert_ne by done. by apply Hl.
Qed.

(** One more reference. *)
Lemma counted_inc m refs id d d' :
  counted m refs -> m !! id = Some d -> ref d' = ref d + 1 -> counted (<[id := d']> m) (id :: refs).
Proof.
  intros [Hc Hl] Hd Hr. split.
  - intros i x [[-> <-]|[Hne Hx]]%lookup_insert_Some; rewrite cnt_cons.
    + rewrite decide_True by done. destruct (Hc _ _ Hd). lia.
    + rewrite decide_False by done. destruct (Hc _ _ Hx). lia.
  - intros i [->|Hi]%elem_of_cons; [rewrite lookup_insert_eq; eauto|].
    destruct (decide (i = id)) as [->|]; [rewrite lookup_insert_eq; eauto|].
    rewrite lookup_insert_ne by done. by apply Hl.
Qed.

(** A new object with its first reference. *)
Lemma counted_new m refs id d :
  counted m refs -> m !! id = None -> ref d = 1 -> counted (<[id := d]> m) (id :: refs).
Proof.
  intros HC Hn Hr. assert (Hni : id ∉ refs).
  { rewrite <- (counted_live m refs id HC), Hn. by intros []. }
  destruct HC as [Hc Hl]. split.
  - intros i x [[-> <-]|[Hne Hx]]%lookup_insert_Some; rewrite cnt_cons.
    + rewrite decide_True by done. rewrite cnt_elem in Hni. unfold cnt in *. lia.
    + rewrite decide_False by done. by apply Hc.
  - intros i [->|Hi]%elem_of_cons; [rewrite lookup_insert_eq; eauto|].
    rewrite lookup_insert_ne by (intros ->; done). by apply Hl.
Qed.

(** One less, not the last. *)
Lemma counted_dec m refs id d d' :
  counted m (id :: refs) -> m !! id = Some d -> ref d <> 1 -> ref d' = ref d - 1 ->
  counted (<[id := d']> m) refs.
Proof.
  intros [Hc Hl] Hd Hne Hr. pose proof (Hc _ _ Hd) as [Hid Hpos].
  rewrite cnt_cons, decide_True in Hid by done. split.
  - intros i x [[-> <-]|[Hni Hx]]%lookup_insert_Some; [lia|].
    pose proof (Hc _ _ Hx) as Hx'. rewrite cnt_cons, decide_False in Hx' by done. lia.
  - intros i Hi. destruct (decide (i = id)) as [->|]; [rewrite lookup_insert_eq; eauto|].
    rewrite lookup_insert_ne by done. apply Hl. by right.
Qed.

(** The last one: the object goes. *)
Lemma counted_last m refs id d :
  counted m (id :: refs) -> m !! id = Some d -> ref d = 1 -> counted (delete id m) refs ∧ id ∉ refs.
Proof.
  intros [Hc Hl] Hd H1. pose proof (Hc _ _ Hd) as [Hid _]. rewrite cnt_cons, decide_True in Hid by done.
  assert (Hni : id ∉ refs) by (rewrite cnt_elem; lia). split; [|done]. split.
  - intros i x [Hne Hx]%lookup_delete_Some.
    pose proof (Hc _ _ Hx) as Hx'. rewrite cnt_cons, decide_False in Hx' by done. lia.
  - intros i Hi. rewrite lookup_delete_ne by (intros ->; done). apply Hl. by right.
Qed.
End Counted.

(** What the objects of a table refer to. *)
Section Targets.
Context {A : Type} (target : A -> option nat).
Implicit Types m : gmap nat A.

Definition targets m : list nat := omap (λ kd, target kd.2) (map_to_list m).

Lemma targets_insert m id d :
  m !! id = None -> targets (<[id := d]> m) ≡ₚ option_list (target d) ++ targets m.
Proof.
  intros Hn. unfold targets. rewrite map_to_list_insert by done. cbn. by destruct (target d).
Qed.
Lemma targets_delete m id d :
  m !! id = Some d -> targets m ≡ₚ option_list (target d) ++ targets (delete id m).
Proof.
  intros Hd. rewrite <- (insert_delete_id m id d) at 1 by done.
  apply targets_insert. apply lookup_delete_eq.
Qed.
Lemma targets_update m id d d' :
  m !! id = Some d -> target d' = target d -> targets (<[id := d']> m) ≡ₚ targets m.
Proof.
  intros Hd Hp. rewrite (targets_delete m id d Hd), <- Hp.
  rewrite <- insert_delete_eq. apply targets_insert. apply lookup_delete_eq.
Qed.
End Targets.

(** ** Sums over a table *)
Section Sums.
Context {A : Type}.
Implicit Types (f : A -> Z) (T : gmap nat A).

Definition msum f T : Z := map_fold (λ _ x acc, f x + acc) 0 T.

Lemma msum_insert f T t x : T !! t = None -> msum f (<[t := x]> T) = f x + msum f T.
Proof. intros Ht. unfold msum. rewrite map_fold_insert_L; [done | intros; lia | done]. Qed.
Lemma msum_update f T t x x' : T !! t = Some x -> msum f (<[t := x']> T) = msum f T - f x + f x'.
Proof.
  intros Ht. rewrite <- (insert_delete_id T t x) at 2 by done.
  rewrite <- (insert_delete_eq T t x'), !msum_insert by apply lookup_delete_eq. lia.
Qed.
Lemma msum_imap f (g : nat -> A -> A) T :
  (∀ x y, T !! x = Some y -> f (g x y) = f y) -> msum f (map_imap (λ x y, Some (g x y)) T) = msum f T.
Proof.
  induction T as [|t y T Ht _ IH] using map_first_key_ind; intros Hf; [done|].
  rewrite map_imap_insert_Some with (y := g t y) by done.
  rewrite !msum_insert; [| done | by rewrite map_lookup_imap, Ht].
  rewrite Hf by apply lookup_insert_eq. rewrite IH; [done|]. intros x z Hx. apply Hf.
  rewrite lookup_insert_ne; [done | congruence].
Qed.

Lemma msum_fmap f (g : A -> A) T : (∀ y, f (g y) = f y) -> msum f (g <$> T) = msum f T.
Proof.
  intros Hf. induction T as [|t y T Ht _ IH] using map_first_key_ind; [by rewrite fmap_empty|].
  rewrite fmap_insert, !msum_insert; [by rewrite Hf, IH | done | by rewrite lookup_fmap, Ht].
Qed.

(** Sums of what is not negative. *)
Definition nonneg f T : Prop := ∀ t x, T !! t = Some x -> 0 <= f x.

Lemma nonneg_insert f T t x : T !! t = None -> nonneg f (<[t := x]> T) -> 0 <= f x ∧ nonneg f T.
Proof.
  intros Ht Hf. split; [apply (Hf t); apply lookup_insert_eq|]. intros u y Hu. apply (Hf u).
  rewrite lookup_insert_ne; congruence.
Qed.
Lemma msum_nonneg f T : nonneg f T -> 0 <= msum f T.
Proof.
  induction T as [|t x T Ht _ IH] using map_first_key_ind; [done|].
  intros [Hx HT]%nonneg_insert; [|done]. rewrite msum_insert by done. specialize (IH HT). lia.
Qed.
Lemma msum_ge f T t x : nonneg f T -> T !! t = Some x -> f x <= msum f T.
Proof.
  intros Hf Ht. rewrite <- (insert_delete_id T t x) in Hf |- * by done. rewrite msum_insert by apply lookup_delete_eq.
  apply nonneg_insert in Hf as [_ Hf]; [|apply lookup_delete_eq]. pose proof (msum_nonneg f (delete t T) Hf). lia.
Qed.
Lemma msum_pos f T : nonneg f T -> 0 < msum f T -> ∃ t x, T !! t = Some x ∧ 0 < f x.
Proof.
  induction T as [|t x T Ht _ IH] using map_first_key_ind; [done|].
  intros [Hx HT]%nonneg_insert; [|done]. rewrite msum_insert by done. intros Hp. destruct (decide (0 < f x)).
  - exists t, x. by rewrite lookup_insert_eq.
  - destruct IH as (u & y & Hu & Hy); [done | lia|]. exists u, y. rewrite lookup_insert_ne by congruence. done.
Qed.
(** What two entries have is in the sum. *)
Lemma msum_two f T t1 x1 t2 x2 :
  nonneg f T -> T !! t1 = Some x1 -> T !! t2 = Some x2 -> t1 <> t2 -> f x1 + f x2 <= msum f T.
Proof.
  intros Hf H1 H2 Hne. rewrite <- (insert_delete_id T t1 x1) in Hf |- * by done.
  rewrite msum_insert by apply lookup_delete_eq. apply nonneg_insert in Hf as [_ Hf]; [|apply lookup_delete_eq].
  assert (f x2 <= msum f (delete t1 T)); [|lia]. apply (msum_ge f _ t2); [done|]. by rewrite lookup_delete_ne.
Qed.
Lemma msum_const f x (X : gset nat) : f x = 0 -> msum f (gset_to_gmap x X) = 0.
Proof.
  intros Hf. induction X as [|y X Hy IH] using set_ind_L; [by rewrite gset_to_gmap_empty|].
  rewrite gset_to_gmap_union_singleton, msum_insert by (by apply lookup_gset_to_gmap_None). lia.
Qed.
End Sums.
