(* ===== verification/Futex.v ===== *)
(** * Threads around a futex ([libc/private/bionic_atomic_arm.h], [bionic_futex.h])

    The synchronisation objects of bionic are a word of memory that threads read and
    change with atomic operations and sleep on with the futex system calls.  A component
    gives its program points [L], with the local variables at each, and [code], the next
    access a thread at a point makes and how it goes on with the result; what it computes
    between accesses is part of going on.  [Stop] is a point outside the component, and
    [enter] the calls a client makes there.  The machine interleaves the threads, one
    access a step.  Barriers are left out: the memory is sequentially consistent.

    The futex calls are the system calls of the kernel.  A wait returns [-EAGAIN] when
    the word is not the value given, else it sleeps until a wake, a signal or its
    time-out.  A wake wakes sleepers, as many as asked for or all there are; which ones
    is up to the kernel. *)
From stdpp Require Import base gmap list.
From Stdlib Require Import ZArith Lia.
From S2P Require Import Prelude Refs.
#[local] Open Scope Z_scope.

Definition EPERM : Z := 1.
Definition EINTR : Z := 4.
Definition EAGAIN : Z := 11.
Definition EBUSY : Z := 16.
Definition EINVAL : Z := 22.
Definition EDEADLK : Z := 35.
Definition EOVERFLOW : Z := 75.
Definition ETIMEDOUT : Z := 110.
Definition INT_MAX : Z := 2 ^ 31 - 1.

(** [__bionic_cmpxchg] gives 0 when it stored the new value. *)
Inductive instr (L : Type) : Type :=
| Load (k : Z -> L)
| Store (v : Z) (k : L)
| Cmpxchg (old new : Z) (k : Z -> L)
| Swap (v : Z) (k : Z -> L)
| Atomic_dec (k : Z -> L)
| Clock (k : bool -> L)
| Local (k : L)
| Wait (v : Z) (timed : bool) (k : Z -> L)
| Wake (n : Z) (k : L)
| Stop.
Arguments Load {L}.
Arguments Store {L}.
Arguments Cmpxchg {L}.
Arguments Swap {L}.
Arguments Atomic_dec {L}.
Arguments Clock {L}.
Arguments Local {L}.
Arguments Wait {L}.
Arguments Wake {L}.
Arguments Stop {L}.

(** A thread at the program point of a wait may be asleep in it. *)
Inductive thread (L : Type) : Type := Running (l : L) | Sleeping (l : L).
Arguments Running {L}.
Arguments Sleeping {L}.

Section Machine.
Context {L : Type} (code : nat -> L -> instr L) (enter : nat -> L -> L -> Prop).

Definition point (th : thread L) : L := match th with Running l | Sleeping l => l end.

(** The accesses that do not block: the word after it, and where the thread goes. *)
Definition exec (i : instr L) (w : Z) : option (Z * L) :=
  match i with
  | Load k => Some (w, k w)
  | Store v k => Some (v, k)
  | Cmpxchg old new k => Some (if w =? old then (new, k 0) else (w, k 1))
  | Swap v k => Some (v, k w)
  | Atomic_dec k => Some (u32 (w - 1), k w)
  | Local k => Some (w, k)
  | _ => None
  end.

(** Where a sleeper goes with the result of its wait. *)
Definition resume (t : nat) (r : Z) (th : thread L) : thread L :=
  match th with
  | Sleeping l => match code t l with Wait _ _ k => Running (k r) | _ => th end
  | Running _ => th
  end.
Definition asleep (th : thread L) : Prop := match th with Sleeping _ => True | Running _ => False end.

Definition wake_set (ws : gset nat) (T : gmap nat (thread L)) : gmap nat (thread L) :=
  map_imap (λ t th, Some (if decide (t ∈ ws) then resume t 0 th else th)) T.

(** [ws] are sleepers a wake of [n] may wake. *)
Definition may_wake (n : Z) (ws : gset nat) (T : gmap nat (thread L)) : Prop :=
  (∀ x, x ∈ ws -> ∃ l, T !! x = Some (Sleeping l)) ∧ Z.of_nat (size ws) <= n ∧
  (Z.of_nat (size ws) = n ∨ ∀ x l, T !! x = Some (Sleeping l) -> x ∈ ws).

(** What thread [t] can do on its own: from the word [w] to [w']. *)
Inductive move (t : nat) : Z -> thread L -> Z -> thread L -> Prop :=
| move_exec w l w' l' : exec (code t l) w = Some (w', l') -> move t w (Running l) w' (Running l')
| move_clock w l k b : code t l = Clock k -> move t w (Running l) w (Running (k b))
| move_miss w l v timed k :
    code t l = Wait v timed k -> w <> v -> move t w (Running l) w (Running (k (- EAGAIN)))
| move_sleep w l timed k : code t l = Wait w timed k -> move t w (Running l) w (Sleeping l)
| move_signal w l : move t w (Sleeping l) w (resume t (- EINTR) (Sleeping l))
| move_timeout w l v k :
    code t l = Wait v true k -> move t w (Sleeping l) w (resume t (- ETIMEDOUT) (Sleeping l))
| move_enter w l l' : code t l = Stop -> enter t l l' -> move t w (Running l) w (Running l').

Inductive step : Z * gmap nat (thread L) -> Z * gmap nat (thread L) -> Prop :=
| step_move w T t th w' th' : T !! t = Some th -> move t w th w' th' -> step (w, T) (w', <[t := th']> T)
| step_wake w T t l n k ws :
    T !! t = Some (Running l) -> code t l = Wake n k -> may_wake n ws T ->
    step (w, T) (w, <[t := Running k]> (wake_set ws T)).

Lemma wake_set_lookup ws T x :
  wake_set ws T !! x = (λ th, if decide (x ∈ ws) then resume x 0 th else th) <$> T !! x.
Proof. unfold wake_set. rewrite map_lookup_imap. by destruct (T !! x). Qed.

Lemma wake_set_size ws T : size (wake_set ws T) = size T.
Proof.
  rewrite <- !size_dom. f_equal. apply set_eq. intros x. rewrite !elem_of_dom, wake_set_lookup. apply fmap_is_Some.
Qed.

(** A wake for more than there are threads leaves no sleeper. *)
Lemma wake_all_wakes n ws T t l' x l :
  may_wake n ws T -> Z.of_nat (size T) < n ->
  (∀ y ly, T !! y = Some (Sleeping ly) -> ∃ v b k, code y ly = Wait v b k) ->
  <[t := Running l']> (wake_set ws T) !! x = Some (Sleeping l) -> False.
Proof.
  intros (Hsub & _ & Hall) Hn Hw [[? ?]|[_ Hx]]%lookup_insert_Some; [done|]. rewrite wake_set_lookup in Hx.
  destruct (T !! x) as [th|] eqn:HT; [|done]. cbn in Hx. destruct Hall as [Hsz|Hall].
  { assert (ws ⊆ dom T) as Hss.
    { intros y Hy. destruct (Hsub y Hy) as [ly Hly]. by apply elem_of_dom_2 in Hly. }
    apply subseteq_size in Hss. rewrite size_dom in Hss. lia. }
  destruct th as [lt|lt]; [by case_decide|]. rewrite decide_True in Hx by (by apply (Hall x lt)).
  destruct (Hw x lt HT) as (v & b & k & E). cbn in Hx. by rewrite E in Hx.
Qed.

(** A wake for one: if a sleeper is left, another one was woken. *)
Lemma wake_one_wakes ws T t l' x l :
  may_wake 1 ws T -> <[t := Running l']> (wake_set ws T) !! x = Some (Sleeping l) ->
  (∀ y ly, T !! y = Some (Sleeping ly) -> ∃ v b k, code y ly = Wait v b k) ->
  ∃ y ly, T !! y = Some (Sleeping ly) ∧ wake_set ws T !! y = Some (resume y 0 (Sleeping ly)).
Proof.
  intros (Hsub & _ & Hall) [[? ?]|[_ Hx]]%lookup_insert_Some Hw; [done|].
  assert (Hne : ∃ y, y ∈ ws).
  { destruct Hall as [Hsz|Hall].
    - apply set_choose_L. intros ->. rewrite size_empty in Hsz. lia.
    - rewrite wake_set_lookup in Hx. destruct (T !! x) as [th|] eqn:HT; [|done]. cbn in Hx.
      destruct th as [lt|lt]; [by case_decide|]. exists x. by apply (Hall x lt). }
  destruct Hne as [y Hy]. destruct (Hsub y Hy) as [ly Hly]. exists y, ly. split; [done|].
  rewrite wake_set_lookup, Hly. cbn. by rewrite decide_True.
Qed.

(** ** Quantities summed over the threads *)
Definition total (f : L -> Z) (T : gmap nat (thread L)) : Z := msum (λ th, f (point th)) T.

Lemma total_update f T t th th' :
  T !! t = Some th -> total f (<[t := th']> T) = total f T - f (point th) + f (point th').
Proof. intros Ht. by apply (msum_update (λ th, f (point th))). Qed.
Lemma total_wake f ws T :
  (∀ x l, T !! x = Some (Sleeping l) -> f (point (resume x 0 (Sleeping l))) = f l) ->
  total f (wake_set ws T) = total f T.
Proof.
  intros Hf. unfold total, wake_set. rewrite msum_imap; [done|]. intros x [l|l] Hx; [by case_decide|].
  case_decide; [by apply Hf | done].
Qed.
Definition positive (f : L -> Z) (T : gmap nat (thread L)) : Prop := nonneg (λ th, f (point th)) T.
Lemma total_ge f T t th : positive f T -> T !! t = Some th -> f (point th) <= total f T.
Proof. intros Hf Ht. by apply (msum_ge (λ th, f (point th)) T t th). Qed.
Lemma total_pos f T : positive f T -> 0 < total f T -> ∃ t th, T !! t = Some th ∧ 0 < f (point th).
Proof. apply (msum_pos (λ th, f (point th))). Qed.
Lemma total_two f T t1 th1 t2 th2 :
  positive f T -> T !! t1 = Some th1 -> T !! t2 = Some th2 -> t1 <> t2 ->
  f (point th1) + f (point th2) <= total f T.
Proof. apply (msum_two (λ th, f (point th))). Qed.
Lemma total_start f l (X : gset nat) : f l = 0 -> total f (gset_to_gmap (Running l) X) = 0.
Proof. intros Hf. by apply msum_const. Qed.

(** ** Invariants *)
Lemma invariant (I : Z * gmap nat (thread L) -> Prop) a b :
  (∀ x y, I x -> step x y -> I y) -> rtc step a b -> I a -> I b.
Proof. intros Hstep. induction 1; eauto. Qed.

(** What threads know: a property of each thread that depends on the word. *)
Definition each (P : Z -> nat -> thread L -> Prop) (w : Z) (T : gmap nat (thread L)) : Prop :=
  ∀ t th, T !! t = Some th -> P w t th.

Lemma each_insert P w T t th : each P w T -> P w t th -> each P w (<[t := th]> T).
Proof. intros HT Hth x y [[-> <-]|[_ Hx]]%lookup_insert_Some; [done | by apply HT]. Qed.
Lemma each_wake P w ws T :
  each P w T -> (∀ x l, P w x (Sleeping l) -> P w x (resume x 0 (Sleeping l))) -> each P w (wake_set ws T).
Proof.
  intros HT Hr x th. rewrite wake_set_lookup. destruct (T !! x) as [y|] eqn:Hx; [|done]. cbn. intros [= <-].
  case_decide; [|by apply HT]. destruct y as [l|l]; [by apply HT|]. apply Hr. by apply HT.
Qed.
End Machine.

(** Steps of a given thread, for runs with concrete threads. *)
Ltac go t := eapply rtc_l; [eapply (step_move _ _ _ _ t); [reflexivity | eapply move_exec; reflexivity]|].
Ltac calls t e := eapply rtc_l; [eapply (step_move _ _ _ _ t); [reflexivity | eapply move_enter; [reflexivity | eapply e]]|].
Ltac clock t b := eapply rtc_l; [eapply (step_move _ _ _ _ t); [reflexivity | eapply (move_clock _ _ _ _ _ _ b); reflexivity]|].
Ltac wakes t x :=
  eapply rtc_l;
  [eapply (step_wake _ _ _ _ t _ _ _ {[x]});
   [reflexivity | reflexivity
   | split; [intros ? ->%elem_of_singleton; eexists; reflexivity | split; [vm_compute; discriminate | left; reflexivity]]]
  |].
Ltac sleeps t := eapply rtc_l; [eapply (step_move _ _ _ _ t); [reflexivity | eapply move_sleep; reflexivity]|].
