(* ===== verification/Sem.v ===== *)
(** * Semaphores ([libc/bionic/semaphore.c])

    The word of a semaphore has its value, -1 when there may be sleepers, above a bit
    that says whether it is shared between processes.  Every access of [sem_wait],
    [sem_timedwait], [sem_trywait] and [sem_post] to the word is a step of the machine of
    [Futex].  A program point has, next to the place in the code and its local variables,
    how many times the client of that thread took and gave the semaphore.  The result of
    a call is its [errno], or 0.  The tests for a null pointer are left out. *)
From stdpp Require Import base gmap list.
From Stdlib Require Import ZArith Lia.
From S2P Require Import Prelude Refs Futex.
#[local] Open Scope Z_scope.

Definition SEMCOUNT_SHARED_MASK : Z := 0x00000001.
Definition SEMCOUNT_VALUE_MASK : Z := 0xfffffffe.
Definition SEMCOUNT_VALUE_SHIFT : Z := 1.
Definition SEM_MAX_VALUE : Z := 0x3fffffff.
Definition SEMCOUNT_FROM_VALUE (val : Z) : Z := Z.land (u32 (Z.shiftl val SEMCOUNT_VALUE_SHIFT)) SEMCOUNT_VALUE_MASK.
Definition SEMCOUNT_TO_VALUE (sval : Z) : Z := Z.shiftr (s32 sval) SEMCOUNT_VALUE_SHIFT.
Definition SEMCOUNT_ONE : Z := SEMCOUNT_FROM_VALUE 1.
Definition SEMCOUNT_MINUS_ONE : Z := SEMCOUNT_FROM_VALUE (-1).
Definition SEMCOUNT_DECREMENT (sval : Z) : Z :=
  Z.land (u32 (sval - Z.shiftl 1 SEMCOUNT_VALUE_SHIFT)) SEMCOUNT_VALUE_MASK.
Definition SEMCOUNT_INCREMENT (sval : Z) : Z :=
  Z.land (u32 (sval + Z.shiftl 1 SEMCOUNT_VALUE_SHIFT)) SEMCOUNT_VALUE_MASK.
Definition SEM_GET_SHARED (count : Z) : Z := Z.land count SEMCOUNT_SHARED_MASK.

(** The result and the new word. *)
Definition sem_init (pshared value count : Z) : Z * Z :=
  if SEM_MAX_VALUE <? u32 value then (EINVAL, count) else
  let count := SEMCOUNT_FROM_VALUE (u32 value) in
  (0, if negb (pshared =? 0) then Z.lor count SEMCOUNT_SHARED_MASK else count).
Definition sem_destroy (count : Z) : Z * Z :=
  if SEMCOUNT_TO_VALUE count <? 0 then (EBUSY, count) else (0, 0).
Definition sem_getvalue (count : Z) : Z :=
  let val := SEMCOUNT_TO_VALUE count in if val <? 0 then 0 else val.

(** ** Program points *)

(** Who called [__sem_dec], with its [shared], and who called [__sem_trydec]. *)
Inductive dec_caller := ForWait (shared : Z) | ForTimed (shared : Z).
Inductive trydec_caller := ForTrywait | ForTimedwait (timeout_ok : bool).

Inductive spc :=
| Idle (r : Z)
| WaitShared
| DecShared (c : dec_caller) | DecLoad (c : dec_caller) (shared : Z) | DecCas (c : dec_caller) (shared old : Z)
| WaitFutex (c : dec_caller)
| TryShared (c : trydec_caller) | TryLoad (c : trydec_caller) (shared : Z) | TryCas (c : trydec_caller) (shared old : Z)
| TimedShared | TimedClock (shared : Z)
| PostShared | IncShared (sh : Z) | IncLoad (sh shared : Z) | IncCas (sh shared old : Z)
| PostWake (sh : Z).
Record sloc := Sloc { took : Z; gave : Z; pc : spc }.

(** Going on at [p], after taking or giving the semaphore, and with an error. *)
Definition at_ (l : sloc) (p : spc) : sloc := Sloc (took l) (gave l) p.
Definition taken (l : sloc) : sloc := Sloc (took l + 1) (gave l) (Idle 0).
Definition given (l : sloc) : sloc := Sloc (took l) (gave l + 1) (Idle 0).

(** After [__sem_dec] returned [ret], after [__sem_trydec], and after [__sem_inc]. *)
Definition dec_done (l : sloc) (c : dec_caller) (ret : Z) : sloc :=
  if 0 <? ret then taken l else at_ l (WaitFutex c).
Definition trydec_done (l : sloc) (c : trydec_caller) (ret : Z) : sloc :=
  if 0 <? ret then taken l else
  match c with
  | ForTrywait => at_ l (Idle EAGAIN)
  | ForTimedwait timeout_ok => if negb timeout_ok then at_ l (Idle EINVAL) else at_ l TimedShared
  end.
Definition inc_done (l : sloc) (sh ret : Z) : sloc :=
  if ret <? 0 then at_ l (PostWake sh) else
  if ret =? SEM_MAX_VALUE then at_ l (Idle EOVERFLOW) else given l.

Definition sem_dec_code (l : sloc) (c : dec_caller) (p : spc) : instr sloc :=
  match p with
  | DecLoad _ shared =>
      Load (λ w, let old := Z.land w SEMCOUNT_VALUE_MASK in
                 let ret := SEMCOUNT_TO_VALUE old in
                 if ret <? 0 then dec_done l c ret else at_ l (DecCas c shared old))
  | DecCas _ shared old =>
      Cmpxchg (Z.lor old shared) (Z.lor (SEMCOUNT_DECREMENT old) shared)
        (λ r, if negb (r =? 0) then at_ l (DecLoad c shared) else dec_done l c (SEMCOUNT_TO_VALUE old))
  | _ => Load (λ w, at_ l (DecLoad c (Z.land w SEMCOUNT_SHARED_MASK)))
  end.
Definition sem_trydec_code (l : sloc) (c : trydec_caller) (p : spc) : instr sloc :=
  match p with
  | TryLoad _ shared =>
      Load (λ w, let old := Z.land w SEMCOUNT_VALUE_MASK in
                 let ret := SEMCOUNT_TO_VALUE old in
                 if ret <=? 0 then trydec_done l c ret else at_ l (TryCas c shared old))
  | TryCas _ shared old =>
      Cmpxchg (Z.lor old shared) (Z.lor (SEMCOUNT_DECREMENT old) shared)
        (λ r, if negb (r =? 0) then at_ l (TryLoad c shared) else trydec_done l c (SEMCOUNT_TO_VALUE old))
  | _ => Load (λ w, at_ l (TryLoad c (Z.land w SEMCOUNT_SHARED_MASK)))
  end.
Definition sem_inc_code (l : sloc) (sh : Z) (p : spc) : instr sloc :=
  match p with
  | IncLoad _ shared =>
      Load (λ w, let old := Z.land w SEMCOUNT_VALUE_MASK in
                 let ret := SEMCOUNT_TO_VALUE old in
                 if ret =? SEM_MAX_VALUE then inc_done l sh ret else at_ l (IncCas sh shared old))
  | IncCas _ shared old =>
      let new := if SEMCOUNT_TO_VALUE old <? 0 then SEMCOUNT_ONE else SEMCOUNT_INCREMENT old in
      Cmpxchg (Z.lor old shared) (Z.lor new shared)
        (λ r, if negb (r =? 0) then at_ l (IncLoad sh shared) else inc_done l sh (SEMCOUNT_TO_VALUE old))
  | _ => Load (λ w, at_ l (IncLoad sh (Z.land w SEMCOUNT_SHARED_MASK)))
  end.

Definition sem_code (t : nat) (l : sloc) : instr sloc :=
  match pc l with
  | Idle _ => Stop
  | WaitShared => Load (λ w, at_ l (DecShared (ForWait (SEM_GET_SHARED w))))
  | DecShared c | DecLoad c _ | DecCas c _ _ => sem_dec_code l c (pc l)
  | WaitFutex (ForWait shared) =>
      Wait (Z.lor shared SEMCOUNT_MINUS_ONE) false (λ _, at_ l (DecShared (ForWait shared)))
  | WaitFutex (ForTimed shared) =>
      Wait (Z.lor shared SEMCOUNT_MINUS_ONE) true
        (λ ret, if (ret =? - ETIMEDOUT) || (ret =? - EINTR) then at_ l (Idle (- ret)) else at_ l (TimedClock shared))
  | TryShared c | TryLoad c _ | TryCas c _ _ => sem_trydec_code l c (pc l)
  | TimedShared => Load (λ w, at_ l (TimedClock (SEM_GET_SHARED w)))
  | TimedClock shared =>
      Clock (λ expired, if expired : bool then at_ l (Idle ETIMEDOUT) else at_ l (DecShared (ForTimed shared)))
  | PostShared => Load (λ w, at_ l (IncShared (SEM_GET_SHARED w)))
  | IncShared sh | IncLoad sh _ | IncCas sh _ _ => sem_inc_code l sh (pc l)
  | PostWake _ => Wake INT_MAX (given l)
  end.

(** The calls: [sem_wait], [sem_trywait], [sem_timedwait], [sem_post]. *)
Inductive sem_enter (t : nat) : sloc -> sloc -> Prop :=
| enter_wait k g r : sem_enter t (Sloc k g (Idle r)) (Sloc k g WaitShared)
| enter_trywait k g r : sem_enter t (Sloc k g (Idle r)) (Sloc k g (TryShared ForTrywait))
| enter_timedwait k g r ok : sem_enter t (Sloc k g (Idle r)) (Sloc k g (TryShared (ForTimedwait ok)))
| enter_post k g r : sem_enter t (Sloc k g (Idle r)) (Sloc k g PostShared).

Definition semstep := step sem_code sem_enter.
Definition sem_start (w : Z) (threads : gset nat) : Z * gmap nat (thread sloc) :=
  (w, gset_to_gmap (Running (Sloc 0 0 (Idle 0))) threads).

(** ** The word *)

(** The word of a semaphore of value [v]. *)
Definition enc (v : Z) : Z := u32 (2 * v).

Lemma land_value_mask x : 0 <= x < 2 ^ 32 -> Z.land x SEMCOUNT_VALUE_MASK = x / 2 * 2.
Proof.
  intros Hx. change SEMCOUNT_VALUE_MASK with (Z.land (Z.ones 32) (Z.lnot (2 ^ 1 - 1))).
  rewrite Z.land_assoc, Z.land_ones, Z.mod_small by lia. by apply (land_lnot_ones x 1).
Qed.
Lemma land_one x : Z.land x 1 = x mod 2.
Proof. exact (Z.land_ones x 1 ltac:(lia)). Qed.
Lemma lor_flag a sh : 0 <= sh <= 1 -> Z.lor (2 * a) sh = 2 * a + sh.
Proof. intros Hsh. rewrite (Z.mul_comm 2 a). apply (lor_low a sh 1); lia. Qed.

Lemma enc_cases v : -1 <= v <= SEM_MAX_VALUE -> enc v = (if v =? -1 then 2 ^ 32 - 2 else 2 * v).
Proof.
  intros Hv. unfold SEM_MAX_VALUE in Hv. unfold enc. destruct (Z.eqb_spec v (-1)) as [->|]; [done|].
  apply u32_small. lia.
Qed.
Lemma enc_even v : -1 <= v <= SEM_MAX_VALUE -> ∃ h, enc v = 2 * h ∧ 0 <= 2 * h < 2 ^ 32 - 1.
Proof.
  intros Hv. rewrite enc_cases by done. unfold SEM_MAX_VALUE in Hv. case_match; [exists (2 ^ 31 - 1) | exists v]; lia.
Qed.

Section Word.
Variables (v sh : Z).
Hypothesis Hv : -1 <= v <= SEM_MAX_VALUE.
Hypothesis Hsh : 0 <= sh <= 1.

Lemma word_flag : Z.land (enc v + sh) 1 = sh.
Proof.
  destruct (enc_even v Hv) as (h & -> & _). rewrite land_one, Z.add_comm, Z.mul_comm, Z.mod_add by lia.
  apply Z.mod_small. lia.
Qed.
Lemma word_value : Z.land (enc v + sh) SEMCOUNT_VALUE_MASK = enc v.
Proof.
  destruct (enc_even v Hv) as (h & E & Hh). rewrite E, land_value_mask by lia.
  rewrite (Z.mul_comm 2 h), Z.add_comm, Z.div_add, (Z.div_small sh 2) by lia. done.
Qed.
Lemma to_value : SEMCOUNT_TO_VALUE (enc v) = v.
Proof.
  unfold SEMCOUNT_TO_VALUE. rewrite Z.shiftr_div_pow2 by done. change (2 ^ SEMCOUNT_VALUE_SHIFT) with 2.
  rewrite enc_cases by done. unfold SEM_MAX_VALUE in Hv. destruct (Z.eqb_spec v (-1)) as [->|]; [done|].
  rewrite s32_small by lia. rewrite Z.mul_comm. apply Z.div_mul. lia.
Qed.
Lemma word_to_value : SEMCOUNT_TO_VALUE (enc v + sh) = v.
Proof.
  unfold SEMCOUNT_TO_VALUE. rewrite Z.shiftr_div_pow2 by done. change (2 ^ SEMCOUNT_VALUE_SHIFT) with 2.
  rewrite enc_cases by done. unfold SEM_MAX_VALUE in Hv. destruct (Z.eqb_spec v (-1)) as [->|].
  - assert (sh = 0 ∨ sh = 1) as [->| ->] by lia; done.
  - rewrite s32_small by lia. rewrite Z.mul_comm, Z.add_comm, Z.div_add by lia. rewrite Z.div_small; lia.
Qed.
Lemma lor_shared : Z.lor (enc v) sh = enc v + sh.
Proof. destruct (enc_even v Hv) as (h & -> & _). by apply lor_flag. Qed.
Lemma lor_shared_l : Z.lor sh (enc v) = enc v + sh.
Proof. rewrite Z.lor_comm. apply lor_shared. Qed.
Lemma decrement : 0 <= v -> SEMCOUNT_DECREMENT (enc v) = enc (v - 1).
Proof.
  intros H0. unfold SEMCOUNT_DECREMENT. change (Z.shiftl 1 _) with 2.
  assert (E : u32 (enc v - 2) = enc (v - 1)).
  { unfold enc, u32. rewrite Zminus_mod_idemp_l. f_equal. lia. }
  rewrite E. destruct (enc_even (v - 1)) as (h & -> & Hh); [unfold SEM_MAX_VALUE in *; lia|].
  rewrite land_value_mask by lia. rewrite (Z.mul_comm 2 h), Z.div_mul; lia.
Qed.
Lemma increment : 0 <= v < SEM_MAX_VALUE -> SEMCOUNT_INCREMENT (enc v) = enc (v + 1).
Proof.
  intros H0. unfold SEMCOUNT_INCREMENT. change (Z.shiftl 1 _) with 2.
  assert (E : u32 (enc v + 2) = enc (v + 1)).
  { unfold enc, u32. rewrite Zplus_mod_idemp_l. f_equal. lia. }
  rewrite E. destruct (enc_even (v + 1)) as (h & -> & Hh); [lia|].
  rewrite land_value_mask by lia. rewrite (Z.mul_comm 2 h), Z.div_mul; lia.
Qed.
End Word.

Lemma enc_inj v v' : -1 <= v <= SEM_MAX_VALUE -> -1 <= v' <= SEM_MAX_VALUE -> enc v = enc v' -> v = v'.
Proof. intros Hv Hv' E. rewrite <- (to_value v Hv), E. by apply to_value. Qed.
Lemma from_value v : 0 <= v <= SEM_MAX_VALUE -> SEMCOUNT_FROM_VALUE v = enc v.
Proof.
  intros Hv. unfold SEMCOUNT_FROM_VALUE. rewrite Z.shiftl_mul_pow2 by done. change (2 ^ SEMCOUNT_VALUE_SHIFT) with 2.
  rewrite Z.mul_comm. fold (enc v). rewrite <- (Z.add_0_r (enc v)). rewrite word_value by lia. lia.
Qed.

(** ** The invariant *)
Definition caller_ok (sh : Z) (c : dec_caller) : Prop :=
  match c with ForWait s | ForTimed s => s = sh end.

(** What the local variables hold, with the flag [sh]. *)
Definition local_ok (sh : Z) (p : spc) : Prop :=
  match p with
  | Idle _ | WaitShared | TryShared _ | TimedShared | PostShared => True
  | DecShared c | WaitFutex c => caller_ok sh c
  | DecLoad c s => caller_ok sh c ∧ s = sh
  | DecCas c s old => caller_ok sh c ∧ s = sh ∧ ∃ v, 0 <= v <= SEM_MAX_VALUE ∧ old = enc v
  | TryLoad _ s | TimedClock s | IncShared s | PostWake s => s = sh
  | TryCas _ s old => s = sh ∧ ∃ v, 0 < v <= SEM_MAX_VALUE ∧ old = enc v
  | IncLoad s s' => s = sh ∧ s' = sh
  | IncCas s s' old => s = sh ∧ s' = sh ∧ ∃ v, -1 <= v < SEM_MAX_VALUE ∧ old = enc v
  end.
Definition thread_ok (sh : Z) (th : thread sloc) : Prop :=
  local_ok sh (pc (point th)) ∧ (asleep th -> ∃ c, pc (point th) = WaitFutex c).

Definition waking (l : sloc) : Prop := ∃ sh, pc l = PostWake sh.
(** How often the thread gave the semaphore, also when it has still to wake sleepers. *)
Definition gives (l : sloc) : Z := gave l + match pc l with PostWake _ => 1 | _ => 0 end.

Record sem_inv (init sh : Z) (w : Z) (T : gmap nat (thread sloc)) (v : Z) : Prop := SemInv {
  si_word : w = enc v + sh;
  si_range : -1 <= v <= SEM_MAX_VALUE;
  si_each : each (λ _ _, thread_ok sh) w T;
  si_count : Z.max v 0 = init + total gives T - total took T;
  si_woken : ∀ t l, T !! t = Some (Sleeping l) ->
    v = -1 ∨ ∃ t' l', T !! t' = Some (Running l') ∧ waking l'
}.

(** The value after a step of a thread, and the balance of the step. *)
Definition moved (sh v : Z) (th th' : thread sloc) (v' : Z) : Prop :=
  -1 <= v' <= SEM_MAX_VALUE ∧ thread_ok sh th' ∧
  Z.max v' 0 - Z.max v 0 = (gives (point th') - gives (point th)) - (took (point th') - took (point th)) ∧
  (v = -1 -> v' = -1 ∨ waking (point th') ∧ ~ asleep th') ∧ (asleep th' -> v' = -1).

(** A step that leaves the value alone and neither takes nor gives. *)
Lemma moved_same sh v k g p q :
  -1 <= v <= SEM_MAX_VALUE -> local_ok sh q ->
  (∀ s, p <> PostWake s) -> (∀ s, q <> PostWake s) ->
  moved sh v (Running (Sloc k g p)) (Running (Sloc k g q)) v.
Proof.
  intros Hv Hq Hp Hq'. split_and!; [lia | lia | split; [done | by intros []] | | by left | by intros []].
  unfold gives. cbn. destruct p, q; try lia; naive_solver.
Qed.

Section Moves.
Variables (sh v : Z).
Hypothesis Hv : -1 <= v <= SEM_MAX_VALUE.
Hypothesis Hsh : 0 <= sh <= 1.

Ltac same := exists v; split; [done|]; apply moved_same; [done | naive_solver | done | done].
Ltac word := rewrite ?word_flag, ?word_value, ?to_value in * by (done || lia).

Lemma dec_done_fails l c ret p :
  ret <= 0 -> pc l = p -> (∀ s, p <> PostWake s) -> caller_ok sh c ->
  moved sh v (Running l) (Running (dec_done l c ret)) v.
Proof.
  intros Hr Hp Hn Hc. unfold dec_done. rewrite (proj2 (Z.ltb_ge _ _)) by done. destruct l as [k g q]. cbn in Hp. subst.
  by apply moved_same.
Qed.

(** A successful exchange of the word by [__sem_dec] or [__sem_trydec]. *)
Lemma take_moves l x p :
  pc l = p -> (∀ s, p <> PostWake s) -> 0 < x <= SEM_MAX_VALUE ->
  v = x -> moved sh v (Running l) (Running (taken l)) (x - 1).
Proof.
  intros Hp Hn Hx ->. split_and!; [lia | lia | split; [done | by intros []] | | lia | by intros []].
  unfold gives. cbn. rewrite Hp. destruct p; try lia. naive_solver.
Qed.

Lemma dec_moves t l c p w' l' :
  pc l = p -> local_ok sh p -> p = DecShared c ∨ (∃ s, p = DecLoad c s) ∨ (∃ s o, p = DecCas c s o) ->
  exec (sem_code t l) (enc v + sh) = Some (w', l') ->
  ∃ v', w' = enc v' + sh ∧ moved sh v (Running l) (Running l') v'.
Proof.
  intros Hp Hok Hcase. unfold sem_code. rewrite Hp. destruct Hcase as [->|[[s ->]|(s & o & ->)]]; cbn in Hok |- *.
  - intros [= <- <-]. destruct l as [k g q]. cbn in *. subst q. unfold SEMCOUNT_SHARED_MASK. word. same.
  - destruct Hok as [Hc ->]. intros [= <- <-]. word. case_match eqn:E.
    + exists v. split; [done|]. apply (dec_done_fails l c v (DecLoad c sh)); [lia | done | done | done].
    + destruct l as [k g q]. cbn in *. subst q. exists v. split; [done|].
      apply moved_same; [done | | done | done]. split_and!; [done | done | exists v; split; [lia | done]].
  - destruct Hok as (Hc & -> & x & Hx & ->). rewrite lor_shared, decrement by lia.
    destruct (Z.eqb_spec (enc v + sh) (enc x + sh)) as [E|E]; cbn; intros [= <- <-].
    + assert (v = x) as <- by (apply enc_inj; [done | lia | lia]). rewrite to_value by lia.
      exists (v - 1). split; [apply lor_shared; lia|]. unfold dec_done. destruct (Z.ltb_spec 0 v).
      * apply (take_moves l v _ Hp); [done | lia | done].
      * split_and!; [lia | lia | split; [done | by intros []] | | lia | by intros []].
        unfold gives. cbn. rewrite Hp. lia.
    + destruct l as [k g q]. cbn in *. subst q. same.
Qed.

Lemma trydec_moves t l c p w' l' :
  pc l = p -> local_ok sh p -> p = TryShared c ∨ (∃ s, p = TryLoad c s) ∨ (∃ s o, p = TryCas c s o) ->
  exec (sem_code t l) (enc v + sh) = Some (w', l') ->
  ∃ v', w' = enc v' + sh ∧ moved sh v (Running l) (Running l') v'.
Proof.
  intros Hp Hok Hcase. unfold sem_code. rewrite Hp. destruct Hcase as [->|[[s ->]|(s & o & ->)]]; cbn in Hok |- *.
  - intros [= <- <-]. destruct l as [k g q]. cbn in *. subst q. unfold SEMCOUNT_SHARED_MASK. word. same.
  - subst s. intros [= <- <-]. word. case_match eqn:E.
    + destruct l as [k g q]. cbn in *. subst q. unfold trydec_done. rewrite (proj2 (Z.ltb_ge 0 v)) by lia.
      repeat case_match; same.
    + destruct l as [k g q]. cbn in *. subst q. exists v. split; [done|].
      apply moved_same; [done | | done | done]. split; [done|]. exists v. split; [lia | done].
  - destruct Hok as (-> & x & Hx & ->). rewrite lor_shared, decrement by lia.
    destruct (Z.eqb_spec (enc v + sh) (enc x + sh)) as [E|E]; cbn; intros [= <- <-].
    + assert (v = x) as <- by (apply enc_inj; [done | lia | lia]). rewrite to_value by lia.
      exists (v - 1). split; [apply lor_shared; lia|]. unfold trydec_done. rewrite (proj2 (Z.ltb_lt 0 v)) by lia.
      apply (take_moves l v _ Hp); [done | lia | done].
    + destruct l as [k g q]. cbn in *. subst q. same.
Qed.

Lemma inc_moves t l s0 p w' l' :
  pc l = p -> local_ok sh p ->
  p = IncShared s0 ∨ (∃ s, p = IncLoad s0 s) ∨ (∃ s o, p = IncCas s0 s o) ->
  exec (sem_code t l) (enc v + sh) = Some (w', l') ->
  ∃ v', w' = enc v' + sh ∧ moved sh v (Running l) (Running l') v'.
Proof.
  intros Hp Hok Hcase. unfold sem_code. rewrite Hp. destruct Hcase as [->|[[s ->]|(s & o & ->)]]; cbn in Hok |- *.
  - intros [= <- <-]. destruct l as [k g q]. cbn in *. subst q. unfold SEMCOUNT_SHARED_MASK. word. same.
  - destruct Hok as [-> ->]. intros [= <- <-]. word. destruct l as [k g q]. cbn in *. subst q. case_match eqn:E.
    + unfold inc_done. rewrite (proj2 (Z.ltb_ge v 0)), E by (unfold SEM_MAX_VALUE in *; lia). same.
    + exists v. split; [done|]. apply moved_same; [done | | done | done].
      split_and!; [done | done | exists v; split; [lia | done]].
  - destruct Hok as (-> & -> & x & Hx & ->). rewrite lor_shared by lia.
    destruct (Z.eqb_spec (enc v + sh) (enc x + sh)) as [E|E]; cbn; intros [= <- <-].
    2:{ destruct l as [k g q]. cbn in *. subst q. same. }
    assert (v = x) as <- by (apply enc_inj; [done | lia | lia]). rewrite !to_value by lia.
    unfold inc_done. destruct (Z.ltb_spec v 0).
    + exists 1. change SEMCOUNT_ONE with (enc 1). split; [apply lor_shared; done|].
      split_and!; [done | done | split; [done | by intros []] | | | by intros []].
      * unfold gives. cbn. rewrite Hp. lia.
      * intros _. right. split; [by eexists | by intros []].
    + exists (v + 1). rewrite increment by lia. split; [apply lor_shared; lia|].
      rewrite (proj2 (Z.eqb_neq v SEM_MAX_VALUE)) by lia.
      split_and!; [lia | lia | split; [done | by intros []] | | lia | by intros []].
      unfold gives. cbn. rewrite Hp. lia.
Qed.
End Moves.

(** A sleeper that goes on. *)
Lemma resume_moves sh v t r l :
  -1 <= v <= SEM_MAX_VALUE -> thread_ok sh (Sleeping l) ->
  moved sh v (Sleeping l) (resume sem_code t r (Sleeping l)) v.
Proof.
  intros Hv [Hok Hs]. destruct (Hs I) as [c Hc]. cbn in Hok, Hc. rewrite Hc in Hok. unfold resume, sem_code.
  rewrite Hc. destruct l as [k g p]. cbn in *. subst p.
  destruct c as [s|s]; cbn in Hok; subst s; [|case_match]; cbn;
    (split_and!; [lia | lia | split; [done | by intros []] | unfold gives; cbn; lia | by left | by intros []]).
Qed.

Lemma sem_moves sh v t w' th th' :
  -1 <= v <= SEM_MAX_VALUE -> 0 <= sh <= 1 -> thread_ok sh th ->
  move sem_code sem_enter t (enc v + sh) th w' th' ->
  ∃ v', w' = enc v' + sh ∧ moved sh v th th' v' ∧ ~ waking (point th).
Proof.
  intros Hv Hsh Hth Hm. cut (~ waking (point th) ∧ ∃ v', w' = enc v' + sh ∧ moved sh v th th' v'); [naive_solver|].
  inversion Hm as [w l w2 l2 E|w l k b E|w l u timed k E Hne|w l timed k E|w l|w l u k E|w l l2 E He]; subst.
  - split; [intros [s Hs]; unfold sem_code in E; cbn in Hs; by rewrite Hs in E|].
    destruct Hth as [Hok _]. cbn in Hok. destruct (pc l) eqn:Hp.
    all: try (unfold sem_code in E; rewrite Hp in E; discriminate).
    all: try solve [eapply dec_moves; [done | done | exact Hp | done | eauto | exact E]].
    all: try solve [eapply trydec_moves; [done | done | exact Hp | done | eauto | exact E]].
    all: try solve [eapply inc_moves; [done | done | exact Hp | done | eauto | exact E]].
    all: unfold sem_code in E; rewrite Hp in E; try (destruct c; discriminate); cbn in E; injection E as <- <-;
      destruct l as [k g q]; cbn in *; subst q; unfold SEM_GET_SHARED, SEMCOUNT_SHARED_MASK; rewrite word_flag by done;
      exists v; (split; [done|]); by apply moved_same.
  - unfold sem_code in E. destruct (pc l) as [| | | | |[?|?]| | | | | | | | | |] eqn:Hp; try discriminate.
    injection E as <-. split; [intros [? Hs]; cbn in Hs; congruence|]. exists v. split; [done|].
    destruct Hth as [Hok _]. cbn in Hok. rewrite Hp in Hok. destruct l as [k0 g q]. cbn in *. subst q.
    destruct b; by apply moved_same.
  - destruct Hth as [Hok _]. cbn in Hok. unfold sem_code in E.
    destruct (pc l) as [| | | | |[s|s]| | | | | | | | | |] eqn:Hp; try discriminate; cbn in Hok; subst s;
      injection E as <- <- <-; (split; [intros [? Hs]; cbn in Hs; congruence|]); exists v; (split; [done|]);
      destruct l as [k0 g q]; cbn in *; subst q; by apply moved_same.
  - destruct Hth as [Hok _]. cbn in Hok. unfold sem_code in E.
    destruct (pc l) as [| | | | |[s|s]| | | | | | | | | |] eqn:Hp; try discriminate; cbn in Hok; subst s;
      injection E as E <- <-; (split; [intros [? Hs]; cbn in Hs; congruence|]); exists v; (split; [done|]);
      (assert (v = -1); [apply enc_inj; [done | done |]; change SEMCOUNT_MINUS_ONE with (enc (-1)) in E;
         rewrite lor_shared_l in E by done; lia|]);
      (split_and!; [lia | lia | split; [cbn; by rewrite Hp | intros _; cbn; eauto] | cbn; lia | by left | done]).
  - split; [intros [? Hs]; destruct Hth as [_ Ha]; destruct (Ha I); congruence|].
    exists v. split; [done|]. by apply resume_moves.
  - split; [intros [? Hs]; destruct Hth as [_ Ha]; destruct (Ha I); congruence|].
    exists v. split; [done|]. by apply resume_moves.
  - split; [intros [? Hs]; cbn in Hs; unfold sem_code in E; by rewrite Hs in E|].
    exists v. split; [done|]. inversion He; subst; by apply moved_same.
Qed.

Lemma sem_step_inv init sh w T v w' T' :
  0 <= sh <= 1 -> Z.of_nat (size T) < INT_MAX -> sem_inv init sh w T v -> semstep (w, T) (w', T') ->
  ∃ v', sem_inv init sh w' T' v' ∧ size T' = size T.
Proof.
  intros Hsh Hsz [-> Hv He Hc Hk] Hst.
  inversion Hst as [w0 T0 t th w2 th' Ht Hm|w0 T0 t l n k ws Ht Hcode Hmay]; subst.
  - destruct (sem_moves sh v t w' th th' Hv Hsh (He _ _ Ht) Hm) as (v' & -> & (Hv' & Hok & Hbal & Hlow & Hsl) & Hnw).
    exists v'. split; [|apply map_size_insert_Some; eauto]. split; [done | done | | |].
    + apply each_insert; [exact He | exact Hok].
    + rewrite !(total_update _ T t th th' Ht). lia.
    + intros x l [[<- ->]|[Hne Hx]]%lookup_insert_Some; [left; by apply Hsl|].
      destruct (Hk x l Hx) as [Hm1|(t' & l1 & Ht' & Hw1)].
      * destruct (Hlow Hm1) as [?|[Hwk Hna]]; [by left|]. right.
        destruct th' as [l1|l1]; [|by destruct Hna]. exists t, l1. by rewrite lookup_insert_eq.
      * right. exists t', l1. rewrite lookup_insert_ne; [done|]. intros ->. rewrite Ht in Ht'. injection Ht' as ->. done.
  - unfold sem_code in Hcode. destruct (pc l) as [| | | | |[?|?]| | | | | | | | | |sh0] eqn:Hp; try discriminate. injection Hcode as <- <-.
    assert (Hcw : ∀ y ly, T !! y = Some (Sleeping ly) -> ∃ u b k, sem_code y ly = Wait u b k).
    { intros y ly Hy. destruct (He _ _ Hy) as [_ Ha]. destruct (Ha I) as [c Hcc]. cbn in Hcc. unfold sem_code.
      rewrite Hcc. destruct c; eauto. }
    exists v. split; [split; [done | done | | |]|].
    + apply each_insert; [apply each_wake; [exact He|]; intros x lx Hx; by apply (resume_moves sh v)|].
      split; [done | by intros []].
    + assert (Hkeep : ∀ x lx, T !! x = Some (Sleeping lx) ->
        gives (point (resume sem_code x 0 (Sleeping lx))) - gives lx = 0 ∧
        took (point (resume sem_code x 0 (Sleeping lx))) = took lx).
      { intros x lx Hx. destruct (He _ _ Hx) as [_ Ha]. destruct (Ha I) as [c Hcc]. cbn in Hcc.
        unfold resume, sem_code. rewrite Hcc. unfold gives.
        destruct c as [s|s]; [|change ((0 =? - ETIMEDOUT) || (0 =? - EINTR)) with false]; cbn; rewrite ?Hcc; lia. }
      assert (Hwt : wake_set sem_code ws T !! t = Some (Running l)).
      { rewrite wake_set_lookup, Ht. cbn. by case_decide. }
      rewrite !(total_update _ _ t (Running l) _ Hwt), !total_wake.
      * cbn. unfold gives at 2 3. cbn. rewrite Hp. lia.
      * intros x lx Hx. apply (Hkeep x lx Hx).
      * intros x lx Hx. destruct (Hkeep x lx Hx). lia.
    + intros x lx Hx. exfalso. by apply (wake_all_wakes sem_code INT_MAX ws T t (given l) x lx Hmay).
    + rewrite map_size_insert_Some by (rewrite wake_set_lookup, Ht; cbn; eauto). apply wake_set_size.
Qed.

Lemma sem_start_inv pshared init threads :
  0 <= init <= SEM_MAX_VALUE ->
  ∃ sh, 0 <= sh <= 1 ∧ sem_inv init sh (sem_init pshared init 0).2 (sem_start 0 threads).2 init.
Proof.
  intros Hi. exists (if pshared =? 0 then 0 else 1). split; [case_match; lia|]. unfold sem_init.
  assert (u32 init = init) as -> by (apply u32_small; unfold SEM_MAX_VALUE in Hi; lia).
  rewrite (proj2 (Z.ltb_ge _ _)), from_value by lia. cbn. split; [| lia | | |].
  - destruct (pshared =? 0); cbn; [lia|]. apply lor_shared; lia.
  - intros t th [? <-]%lookup_gset_to_gmap_Some. split; [done | by intros []].
  - rewrite !total_start by done. lia.
  - intros t l [_ ?]%lookup_gset_to_gmap_Some. done.
Qed.

Lemma sem_reachable pshared init threads w T :
  0 <= init <= SEM_MAX_VALUE -> Z.of_nat (size threads) < INT_MAX ->
  rtc semstep (sem_start (sem_init pshared init 0).2 threads) (w, T) ->
  ∃ sh v, 0 <= sh <= 1 ∧ sem_inv init sh w T v.
Proof.
  intros Hi Hsz Hr. destruct (sem_start_inv pshared init threads Hi) as (sh & Hsh & HI).
  assert (Hinv : ∃ v, sem_inv init sh w T v ∧ Z.of_nat (size T) < INT_MAX).
  { apply (invariant _ _ (λ s, ∃ v, sem_inv init sh s.1 s.2 v ∧ Z.of_nat (size s.2) < INT_MAX) _ (w, T)) in Hr; [done| |].
    - intros [wa Ta] [wb Tb] (v & Ha & Hz) Hst.
      destruct (sem_step_inv init sh wa Ta v wb Tb Hsh Hz Ha Hst) as (v' & Hb & Es). exists v'. cbn. by rewrite Es.
    - exists init. split; [exact HI|]. cbn. by rewrite <- size_dom, dom_gset_to_gmap. }
  destruct Hinv as (v & Hv & _). by exists sh, v.
Qed.

(** ** Properties *)

(** C9. No token is lost or made up: whatever the threads do, in whatever interleaving,
    what [sem_getvalue] reports is the initial value plus the times [sem_post] gave the
    semaphore less the times a wait took it, so no more waits succeed than there were
    tokens; and the value never leaves the range of 30 bits. *)
Theorem sem_conserves pshared init threads w T :
  0 <= init <= SEM_MAX_VALUE -> Z.of_nat (size threads) < INT_MAX ->
  rtc semstep (sem_start (sem_init pshared init 0).2 threads) (w, T) ->
  sem_getvalue w = init + total gives T - total took T ∧ 0 <= sem_getvalue w <= SEM_MAX_VALUE ∧
  total took T <= init + total gives T.
Proof.
  intros Hi Hsz Hr. destruct (sem_reachable _ _ _ _ _ Hi Hsz Hr) as (sh & v & Hsh & [-> Hv _ Hc _]).
  unfold sem_getvalue. rewrite word_to_value by done. unfold SEM_MAX_VALUE in *.
  destruct (Z.ltb_spec v 0); lia.
Qed.

(** C28. No wake-up is lost: a thread sleeps in [sem_wait] or [sem_timedwait] only while
    the value is -1, so that there is nothing to take, or while some [sem_post] has still
    to make its call that wakes all sleepers. *)
Theorem sem_no_lost_wakeup pshared init threads w T t l :
  0 <= init <= SEM_MAX_VALUE -> Z.of_nat (size threads) < INT_MAX ->
  rtc semstep (sem_start (sem_init pshared init 0).2 threads) (w, T) ->
  T !! t = Some (Sleeping l) ->
  SEMCOUNT_TO_VALUE w = -1 ∧ sem_getvalue w = 0 ∨
  ∃ t' l' k, T !! t' = Some (Running l') ∧ sem_code t' l' = Wake INT_MAX k.
Proof.
  intros Hi Hsz Hr Ht. destruct (sem_reachable _ _ _ _ _ Hi Hsz Hr) as (sh & v & Hsh & [-> Hv _ _ Hk]).
  destruct (Hk t l Ht) as [->|(t' & l' & Ht' & sh0 & Hp)].
  - left. unfold sem_getvalue. by rewrite word_to_value by done.
  - right. exists t', l', (given l'). split; [done|]. unfold sem_code. by rewrite Hp.
Qed.

(** Thread 1 sleeps in [sem_wait] on a semaphore of value 0; thread 2 posts it and has
    still to wake it. *)
Lemma sem_sample :
  ∃ w T, rtc semstep (sem_start (sem_init 0 0 0).2 {[1%nat; 2%nat]}) (w, T) ∧
         (∃ l, T !! 1%nat = Some (Sleeping l)) ∧ sem_getvalue w = 1.
Proof.
  eexists _, _. split.
  - calls 1%nat enter_wait. go 1%nat. go 1%nat. go 1%nat. go 1%nat. sleeps 1%nat.
    calls 2%nat enter_post. go 2%nat. go 2%nat. go 2%nat. go 2%nat. apply rtc_refl.
  - split; [eexists; reflexivity | reflexivity].
Qed.

Lemma sem_conserves_witness :
  ∃ w (T : gmap nat (thread sloc)), sem_getvalue w = 1 ∧ sem_getvalue w = 0 + total gives T - total took T.
Proof.
  destruct sem_sample as (w & T & Hr & _ & Hv). exists w, T. split; [done|].
  apply (sem_conserves 0 0 {[1%nat; 2%nat]} w T); [unfold SEM_MAX_VALUE; lia | vm_compute; done | done].
Defined.

Lemma sem_no_lost_wakeup_witness :
  ∃ w (T : gmap nat (thread sloc)), sem_getvalue w = 1 ∧ ∃ t' l' k, T !! t' = Some (Running l') ∧ sem_code t' l' = Wake INT_MAX k.
Proof.
  destruct sem_sample as (w & T & Hr & [l Hl] & Hv). exists w, T. split; [done|].
  destruct (sem_no_lost_wakeup 0 0 {[1%nat; 2%nat]} w T 1 l) as [[_ H0]|H];
    [unfold SEM_MAX_VALUE; lia | vm_compute; done | done | done | rewrite Hv in H0; discriminate | exact H].
Defined.
