(* ===== verification/Once.v ===== *)
(** * Initialising once ([pthread_once] of [libc/bionic/pthread.c])

    The threads of a program call [pthread_once] on the same control word.  Every access
    to the word is a step of the machine of [Futex], and so is the whole of the client's
    [init_routine].  A program point has, next to the place in the code, how often the
    thread ran the routine. *)
From stdpp Require Import base gmap list.
From Stdlib Require Import ZArith Lia.
From S2P Require Import Prelude Refs Futex.
#[local] Open Scope Z_scope.

Definition ONCE_INITIALIZING : Z := Z.shiftl 1 0.
Definition ONCE_COMPLETED : Z := Z.shiftl 1 1.

Inductive opc :=
| NotCalled | Returned
| FastCheck | LoopLoad | LoopCas (oldval : Z) | LoopWait (oldval : Z)
| RunInit | SetCompleted | WakeWaiters.
Record oloc := Oloc { ran : Z; opoint : opc }.
Definition goes (l : oloc) (p : opc) : oloc := Oloc (ran l) p.

Definition completed (v : Z) : bool := negb (Z.land v ONCE_COMPLETED =? 0).

(** After the inner loop ended with [oldval]. *)
Definition loop_end (l : oloc) (oldval : Z) : oloc :=
  if completed oldval then goes l Returned else
  if Z.land oldval ONCE_INITIALIZING =? 0 then goes l RunInit else goes l (LoopWait oldval).

Definition once_code (t : nat) (l : oloc) : instr oloc :=
  match opoint l with
  | NotCalled | Returned => Stop
  | FastCheck => Load (λ w, if completed w then goes l Returned else goes l LoopLoad)
  | LoopLoad => Load (λ w, if completed w then loop_end l w else goes l (LoopCas w))
  | LoopCas oldval =>
      Cmpxchg oldval (Z.lor oldval ONCE_INITIALIZING)
        (λ r, if negb (r =? 0) then goes l LoopLoad else loop_end l oldval)
  | LoopWait oldval => Wait oldval false (λ _, goes l LoopLoad)
  | RunInit => Local (Oloc (ran l + 1) SetCompleted)
  | SetCompleted => Store ONCE_COMPLETED (goes l WakeWaiters)
  | WakeWaiters => Wake INT_MAX (goes l Returned)
  end.

(** A thread may call it again. *)
Inductive once_enter (t : nat) : oloc -> oloc -> Prop :=
| enter_once n p : p = NotCalled ∨ p = Returned -> once_enter t (Oloc n p) (Oloc n FastCheck).

Definition oncestep := step once_code once_enter.
Definition once_start (threads : gset nat) : Z * gmap nat (thread oloc) :=
  (0, gset_to_gmap (Running (Oloc 0 NotCalled)) threads).

(** ** The invariant *)

(** Who has the initialisation in hand, and how often it was run or is about to be. *)
Definition busy (l : oloc) : Z := match opoint l with RunInit | SetCompleted => 1 | _ => 0 end.
Definition runs (l : oloc) : Z := ran l + match opoint l with RunInit => 1 | _ => 0 end.
Definition is_busy (w : Z) : Z := if w =? ONCE_INITIALIZING then 1 else 0.
Definition is_started (w : Z) : Z := if w =? 0 then 0 else 1.

Definition once_ok (w : Z) (th : thread oloc) : Prop :=
  match opoint (point th) with
  | LoopCas v => v = 0 ∨ v = ONCE_INITIALIZING
  | LoopWait v => v = ONCE_INITIALIZING
  | Returned | WakeWaiters => w = ONCE_COMPLETED
  | _ => True
  end ∧ (asleep th -> opoint (point th) = LoopWait ONCE_INITIALIZING).

Record once_inv (w : Z) (T : gmap nat (thread oloc)) : Prop := OnceInv {
  oi_word : w = 0 ∨ w = ONCE_INITIALIZING ∨ w = ONCE_COMPLETED;
  oi_each : each (λ w _, once_ok w) w T;
  oi_busy : total busy T = is_busy w;
  oi_runs : total runs T = is_started w;
  oi_woken : ∀ t l, T !! t = Some (Sleeping l) ->
    w = ONCE_INITIALIZING ∨ ∃ t' l', T !! t' = Some (Running l') ∧ opoint l' = WakeWaiters
}.

Lemma busy_nonneg l : 0 <= busy l.
Proof. unfold busy. case_match; lia. Qed.

(** What a step of a thread does to the word and to the counts. *)
Definition once_moved (w : Z) (th : thread oloc) (w' : Z) (th' : thread oloc) : Prop :=
  (w' = 0 ∨ w' = ONCE_INITIALIZING ∨ w' = ONCE_COMPLETED) ∧ (w = ONCE_COMPLETED -> w' = ONCE_COMPLETED) ∧
  once_ok w' th' ∧ busy (point th') - busy (point th) = is_busy w' - is_busy w ∧
  runs (point th') - runs (point th) = is_started w' - is_started w ∧
  (w = ONCE_INITIALIZING -> w' = ONCE_INITIALIZING ∨ opoint (point th') = WakeWaiters ∧ ~ asleep th') ∧
  (asleep th' -> w' = ONCE_INITIALIZING) ∧ opoint (point th) <> WakeWaiters.

#[local] Ltac settle :=
  unfold once_moved, once_ok, busy, runs, is_busy, is_started in *; cbn; split_and!;
  first [done | lia | naive_solver lia].

Lemma once_moves t w th w' th' :
  (w = 0 ∨ w = ONCE_INITIALIZING ∨ w = ONCE_COMPLETED) -> (0 < busy (point th) -> w = ONCE_INITIALIZING) ->
  once_ok w th -> move once_code once_enter t w th w' th' -> once_moved w th w' th'.
Proof.
  intros Hw Hb [Hok Hs] Hm.
  inversion Hm as [w0 l w2 l2 E|w0 l k b E|w0 l u timed k E Hne|w0 l timed k E|w0 l|w0 l u k E|w0 l l2 E He]; subst.
  all: destruct l as [n p]; cbn in Hok, Hs, Hb; try (specialize (Hs I)).
  - destruct p as [| | | |v|v| | |]; cbn in E; try discriminate; simplify_eq.
    + destruct Hw as [->|[->| ->]]; settle.
    + destruct Hw as [->|[->| ->]]; settle.
    + destruct Hok as [->| ->]; destruct Hw as [->|[->| ->]]; cbn in E; simplify_eq; settle.
    + specialize (Hb eq_refl). subst. settle.
    + specialize (Hb eq_refl). subst. settle.
  - destruct p; discriminate.
  - destruct p; try discriminate. cbn in E. simplify_eq. settle.
  - destruct p; try discriminate. cbn in E. simplify_eq. settle.
  - subst p. settle.
  - subst p. discriminate.
  - inversion He; subst. settle.
Qed.

Lemma once_ok_mono w w' th : (w = ONCE_COMPLETED -> w' = ONCE_COMPLETED) -> once_ok w th -> once_ok w' th.
Proof. intros Hw [Hok Hs]. split; [|done]. case_match; naive_solver. Qed.

Lemma once_step_inv w T w' T' :
  Z.of_nat (size T) < INT_MAX -> once_inv w T -> oncestep (w, T) (w', T') -> once_inv w' T' ∧ size T' = size T.
Proof.
  intros Hsz [Hw He Hb Hr Hk] Hst.
  inversion Hst as [w0 T0 t th w2 th' Ht Hm|w0 T0 t l n k ws Ht Hcode Hmay]; subst.
  - destruct (once_moves t w th w' th' Hw) as (Hw' & Hmono & Hok & Eb & Er & Hlow & Hsl & Hnw); [|by apply (He _ _ Ht) | done |].
    { intros Hpos. pose proof (total_ge busy T t th (λ _ _ _, busy_nonneg _) Ht). unfold is_busy in Hb.
      destruct (Z.eqb_spec w ONCE_INITIALIZING); [done | lia]. }
    split; [|apply map_size_insert_Some; eauto]. split; [done | | | |].
    + apply each_insert; [|exact Hok]. intros x y Hx. apply (once_ok_mono w); [done|]. by apply (He _ _ Hx).
    + rewrite (total_update _ T t th th' Ht). lia.
    + rewrite (total_update _ T t th th' Ht). lia.
    + intros x l [[<- ->]|[Hne Hx]]%lookup_insert_Some; [left; by apply Hsl|].
      destruct (Hk x l Hx) as [H1|(t' & l1 & Ht' & Hw1)].
      * destruct (Hlow H1) as [?|[Hwk Hna]]; [by left|]. right.
        destruct th' as [l1|l1]; [|by destruct Hna]. exists t, l1. by rewrite lookup_insert_eq.
      * right. exists t', l1. rewrite lookup_insert_ne; [done|]. intros ->. rewrite Ht in Ht'. injection Ht' as ->. done.
  - destruct l as [m p]. destruct p; cbn in Hcode; try discriminate. injection Hcode as <- <-.
    assert (Hcw : ∀ y ly, T !! y = Some (Sleeping ly) -> opoint ly = LoopWait ONCE_INITIALIZING).
    { intros y ly Hy. destruct (He _ _ Hy) as [_ Ha]. by apply Ha. }
    assert (Hkeep : ∀ f, (∀ j, f (Oloc j LoopLoad) = f (Oloc j (LoopWait ONCE_INITIALIZING))) ->
      total f (wake_set once_code ws T) = total f T).
    { intros f Hf. apply total_wake. intros x [j q] Hx. specialize (Hcw _ _ Hx). cbn in Hcw. subst q. cbn. apply Hf. }
    assert (Hwt : wake_set once_code ws T !! t = Some (Running (Oloc m WakeWaiters))).
    { rewrite wake_set_lookup, Ht. cbn. by case_decide. }
    split; [split; [done | | | |]|].
    + apply each_insert; [apply each_wake; [exact He|]|].
      * intros x [j q] [_ Ha]. specialize (Ha I). cbn in Ha. subst q. cbn. by split.
      * destruct (He _ _ Ht) as [Hok _]. cbn in Hok. by split.
    + rewrite (total_update _ _ t _ _ Hwt), Hkeep by done. cbn. lia.
    + rewrite (total_update _ _ t _ _ Hwt), Hkeep by done. unfold runs at 2 3. cbn. lia.
    + intros x lx Hx. exfalso. eapply (wake_all_wakes once_code INT_MAX ws T t); [done | done | | exact Hx].
      intros y ly Hy. unfold once_code. rewrite (Hcw _ _ Hy). eauto.
    + rewrite map_size_insert_Some by (rewrite Hwt; eauto). apply wake_set_size.
Qed.

Lemma once_reachable threads w T :
  Z.of_nat (size threads) < INT_MAX -> rtc oncestep (once_start threads) (w, T) -> once_inv w T.
Proof.
  intros Hsz Hr.
  apply (invariant _ _ (λ s, once_inv s.1 s.2 ∧ Z.of_nat (size s.2) < INT_MAX) _ (w, T)) in Hr; [by destruct Hr| |].
  - intros [wa Ta] [wb Tb] [Ha Hz] Hst. destruct (once_step_inv wa Ta wb Tb Hz Ha Hst) as [Hb Es]. cbn. by rewrite Es.
  - split; cbn; [|by rewrite <- size_dom, dom_gset_to_gmap]. split; [by left | | | |].
    + intros t th [? <-]%lookup_gset_to_gmap_Some. split; [done | by intros []].
    + by apply total_start.
    + by apply total_start.
    + intros t l [_ ?]%lookup_gset_to_gmap_Some. done.
Qed.

(** C31. However the calls of [pthread_once] interleave, the routine is run at most once;
    when a call has returned it has been run, to its end; and a thread sleeps only while
    another one runs the routine or has still to report it, or to wake the sleepers. *)
Theorem once_runs_once threads w T :
  Z.of_nat (size threads) < INT_MAX -> rtc oncestep (once_start threads) (w, T) ->
  0 <= total runs T <= 1 ∧
  (∀ t l, T !! t = Some (Running l) -> opoint l = Returned ->
     total runs T = 1 ∧ ∀ t' th, T !! t' = Some th -> opoint (point th) <> RunInit) ∧
  (∀ t l, T !! t = Some (Sleeping l) ->
     ∃ t' th, T !! t' = Some th ∧
       (opoint (point th) = RunInit ∨ opoint (point th) = SetCompleted ∨ opoint (point th) = WakeWaiters)).
Proof.
  intros Hsz Hr. destruct (once_reachable threads w T Hsz Hr) as [Hw He Hb Hrun Hk]. split_and!.
  - rewrite Hrun. unfold is_started. case_match; lia.
  - rewrite Hrun. unfold is_started. case_match; lia.
  - intros t l Ht Hp. destruct (He _ _ Ht) as [Hok _]. cbn in Hok. rewrite Hp in Hok. subst w.
    split; [by rewrite Hrun|]. intros t' th Ht' Hq. pose proof (total_ge busy T t' th (λ _ _ _, busy_nonneg _) Ht') as Hle.
    rewrite Hb in Hle. change (is_busy ONCE_COMPLETED) with 0 in Hle. unfold busy in Hle. rewrite Hq in Hle. lia.
  - intros t l Ht. destruct (Hk t l Ht) as [->|(t' & l' & Ht' & Hp)].
    + destruct (total_pos busy T (λ _ _ _, busy_nonneg _)) as (t' & th & Ht' & Hp); [by rewrite Hb|].
      exists t', th. split; [done|]. unfold busy in Hp. destruct (opoint (point th)); (lia || naive_solver).
    + exists t', (Running l'). naive_solver.
Qed.

(** Thread 2 sleeps while thread 1 runs the routine. *)
Lemma once_sample :
  ∃ w T, rtc oncestep (once_start {[1%nat; 2%nat]}) (w, T) ∧ (∃ l, T !! 2%nat = Some (Sleeping l)) ∧ w = 1.
Proof.
  eexists _, _. split.
  - calls 1%nat enter_once; [by left|]. go 1%nat. go 1%nat. go 1%nat.
    calls 2%nat enter_once; [by left|]. go 2%nat. go 2%nat. go 2%nat. sleeps 2%nat. apply rtc_refl.
  - split; [eexists; reflexivity | reflexivity].
Qed.
Lemma once_runs_once_witness :
  ∃ T : gmap nat (thread oloc), 0 <= total runs T <= 1 ∧
    ∃ t' th, T !! t' = Some th ∧
       (opoint (point th) = RunInit ∨ opoint (point th) = SetCompleted ∨ opoint (point th) = WakeWaiters).
Proof.
  destruct once_sample as (w & T & Hr & [l Hl] & _). exists T.
  destruct (once_runs_once {[1%nat; 2%nat]} w T) as (H1 & _ & H3); [vm_compute; done | done |].
  split; [exact H1 | exact (H3 2%nat l Hl)].
Defined.
