(* ===== verification/PMutex.v ===== *)
(** * Mutexes of threads ([libc/bionic/pthread.c])

    A mutex is a word with the thread that owns it, its type, a flag for sharing between
    processes, the depth of recursive locking and a state: unlocked, locked, locked with
    perhaps waiters.  Every access of [pthread_mutex_lock], [_trylock], [_unlock] and
    [pthread_mutex_lock_timeout_np] to the word is a step of the machine of [Futex];
    thread [t] has the kernel id [t].  A program point has, next to the place in the code
    and its local variables, how many times the client of the thread holds the mutex.
    Words are unsigned here, so that [int] values compare as their bit patterns.  The
    tests for a null pointer are left out. *)
From stdpp Require Import base gmap list.
From Stdlib Require Import ZArith Lia.
From S2P Require Import Prelude Futex.
#[local] Open Scope Z_scope.

Definition FIELD_MASK (shift bits : Z) : Z := Z.shiftl (Z.shiftl 1 bits - 1) shift.
Definition FIELD_TO_BITS (val shift bits : Z) : Z := Z.shiftl (Z.land val (Z.shiftl 1 bits - 1)) shift.
Definition FIELD_FROM_BITS (val shift bits : Z) : Z := Z.land (Z.shiftr val shift) (Z.shiftl 1 bits - 1).

Definition MUTEX_STATE_SHIFT : Z := 0.
Definition MUTEX_STATE_LEN : Z := 2.
Definition MUTEX_STATE_MASK : Z := FIELD_MASK MUTEX_STATE_SHIFT MUTEX_STATE_LEN.
Definition MUTEX_STATE_TO_BITS (v : Z) : Z := FIELD_TO_BITS v MUTEX_STATE_SHIFT MUTEX_STATE_LEN.
Definition MUTEX_STATE_BITS_UNLOCKED : Z := MUTEX_STATE_TO_BITS 0.
Definition MUTEX_STATE_BITS_LOCKED_UNCONTENDED : Z := MUTEX_STATE_TO_BITS 1.
Definition MUTEX_STATE_BITS_LOCKED_CONTENDED : Z := MUTEX_STATE_TO_BITS 2.
Definition MUTEX_STATE_BITS_IS_LOCKED_UNCONTENDED (v : Z) : bool :=
  Z.land v MUTEX_STATE_MASK =? MUTEX_STATE_BITS_LOCKED_UNCONTENDED.
Definition MUTEX_STATE_BITS_IS_LOCKED_CONTENDED (v : Z) : bool :=
  Z.land v MUTEX_STATE_MASK =? MUTEX_STATE_BITS_LOCKED_CONTENDED.
Definition MUTEX_STATE_BITS_FLIP_CONTENTION (v : Z) : Z :=
  Z.lxor v (Z.lxor MUTEX_STATE_BITS_LOCKED_CONTENDED MUTEX_STATE_BITS_LOCKED_UNCONTENDED).

Definition MUTEX_COUNTER_SHIFT : Z := 2.
Definition MUTEX_COUNTER_LEN : Z := 11.
Definition MUTEX_COUNTER_MASK : Z := FIELD_MASK MUTEX_COUNTER_SHIFT MUTEX_COUNTER_LEN.
Definition MUTEX_COUNTER_BITS_WILL_OVERFLOW (v : Z) : bool := Z.land v MUTEX_COUNTER_MASK =? MUTEX_COUNTER_MASK.
Definition MUTEX_COUNTER_BITS_IS_ZERO (v : Z) : bool := Z.land v MUTEX_COUNTER_MASK =? 0.
Definition MUTEX_COUNTER_BITS_ONE : Z := FIELD_TO_BITS 1 MUTEX_COUNTER_SHIFT MUTEX_COUNTER_LEN.
Definition MUTEX_SHARED_MASK : Z := FIELD_MASK 13 1.
Definition MUTEX_TYPE_MASK : Z := FIELD_MASK 14 2.
Definition MUTEX_TYPE_TO_BITS (t : Z) : Z := FIELD_TO_BITS t 14 2.
Definition MUTEX_TYPE_BITS_NORMAL : Z := MUTEX_TYPE_TO_BITS 0.
Definition MUTEX_TYPE_BITS_RECURSIVE : Z := MUTEX_TYPE_TO_BITS 1.
Definition MUTEX_TYPE_BITS_ERRORCHECK : Z := MUTEX_TYPE_TO_BITS 2.
Definition MUTEX_OWNER_FROM_BITS (v : Z) : Z := FIELD_FROM_BITS v 16 16.
Definition MUTEX_OWNER_TO_BITS (v : Z) : Z := FIELD_TO_BITS v 16 16.

(** ** Attributes *)
Definition MUTEXATTR_TYPE_MASK : Z := 0x000f.
Definition MUTEXATTR_SHARED_MASK : Z := 0x0010.
Definition PTHREAD_MUTEX_NORMAL : Z := 0.
Definition PTHREAD_MUTEX_RECURSIVE : Z := 1.
Definition PTHREAD_MUTEX_ERRORCHECK : Z := 2.
Definition PTHREAD_PROCESS_PRIVATE : Z := 0.
Definition PTHREAD_PROCESS_SHARED : Z := 1.

Definition pthread_mutexattr_init : Z := PTHREAD_MUTEX_NORMAL.
Definition pthread_mutexattr_gettype (attr : Z) : Z + Z :=
  let atype := Z.land attr MUTEXATTR_TYPE_MASK in
  if (PTHREAD_MUTEX_NORMAL <=? atype) && (atype <=? PTHREAD_MUTEX_ERRORCHECK) then inr atype else inl EINVAL.
Definition pthread_mutexattr_settype (attr type : Z) : Z + Z :=
  if (PTHREAD_MUTEX_NORMAL <=? type) && (type <=? PTHREAD_MUTEX_ERRORCHECK)
  then inr (Z.lor (Z.land attr (Z.lnot MUTEXATTR_TYPE_MASK)) type) else inl EINVAL.
Definition pthread_mutexattr_setpshared (attr pshared : Z) : Z + Z :=
  if pshared =? PTHREAD_PROCESS_PRIVATE then inr (Z.land attr (Z.lnot MUTEXATTR_SHARED_MASK)) else
  if pshared =? PTHREAD_PROCESS_SHARED then inr (Z.lor attr MUTEXATTR_SHARED_MASK) else inl EINVAL.
Definition pthread_mutexattr_getpshared (attr : Z) : Z :=
  if negb (Z.land attr MUTEXATTR_SHARED_MASK =? 0) then PTHREAD_PROCESS_SHARED else PTHREAD_PROCESS_PRIVATE.

(** The word of a new mutex, or the error. *)
Definition pthread_mutex_init (attr : option Z) : Z + Z :=
  match attr with
  | None => inr MUTEX_TYPE_BITS_NORMAL
  | Some attr =>
      let value := if negb (Z.land attr MUTEXATTR_SHARED_MASK =? 0) then Z.lor 0 MUTEX_SHARED_MASK else 0 in
      let type := Z.land attr MUTEXATTR_TYPE_MASK in
      if type =? PTHREAD_MUTEX_NORMAL then inr (Z.lor value MUTEX_TYPE_BITS_NORMAL) else
      if type =? PTHREAD_MUTEX_RECURSIVE then inr (Z.lor value MUTEX_TYPE_BITS_RECURSIVE) else
      if type =? PTHREAD_MUTEX_ERRORCHECK then inr (Z.lor value MUTEX_TYPE_BITS_ERRORCHECK) else inl EINVAL
  end.

(** ** Program points *)

(** The calls: lock, lock with a time-out, try to lock. *)
Inductive call := Lock | TimedLock | TryLock.

(** [N] points are those of a normal mutex, [O] points of the types with an owner. *)
Inductive mpc :=
| Idle (r : Z)
| Enter (c : call)
| NCas (c : call) (shared : Z) | NSwap (timed : bool) (shared : Z) | NClock (shared : Z)
| NWait (timed : bool) (shared : Z)
| IncCas (mvalue : Z) | IncLoad
| OQuick (timed : bool) (mtype shared : Z) | OTry (mtype : Z)
| OLoad (timed : bool) (mtype shared : Z) | OTake (timed : bool) (mtype shared : Z)
| OTakeClock (mtype shared : Z)
| OFlip (timed : bool) (mtype shared mvalue : Z) | OFlipLoad (mtype shared : Z)
| OClock (mtype shared mvalue : Z)
| OWait (timed : bool) (mtype shared mvalue : Z)
| UEnter | NDec (shared : Z) | NStore (shared : Z) | NWake (shared : Z)
| DecCas (mvalue : Z) | DecLoad | OSwap (mtype shared : Z) | OWake (shared : Z).
Record mloc := Mloc { held : Z; mpoint : mpc }.

Definition goes (l : mloc) (p : mpc) : mloc := Mloc (held l) p.
Definition returns (l : mloc) (r : Z) : mloc := Mloc (held l) (Idle r).
Definition locked (l : mloc) : mloc := Mloc (held l + 1) (Idle 0).
Definition is_timed (c : call) : bool := match c with TimedLock => true | _ => false end.

(** [_recursive_increment]. *)
Definition recursive_increment (l : mloc) (mvalue mtype : Z) : mloc :=
  if mtype =? MUTEX_TYPE_BITS_ERRORCHECK then returns l EDEADLK else
  if MUTEX_COUNTER_BITS_WILL_OVERFLOW mvalue then returns l EAGAIN else goes l (IncCas mvalue).

(** The head of the loops of [pthread_mutex_lock_impl] and [_lock_timeout_np_impl]. *)
Definition lock_loop (l : mloc) (timed : bool) (mtype shared mvalue : Z) : mloc :=
  if mvalue =? mtype then goes l (OTake timed mtype shared) else
  if MUTEX_STATE_BITS_IS_LOCKED_UNCONTENDED mvalue then goes l (OFlip timed mtype shared mvalue) else
  if timed then goes l (OClock mtype shared mvalue) else goes l (OWait false mtype shared mvalue).

(** From the load at the start of a locking call to its next access. *)
Definition lock_enter (tid : Z) (l : mloc) (c : call) (mvalue : Z) : mloc :=
  let mtype := Z.land mvalue MUTEX_TYPE_MASK in
  let shared := Z.land mvalue MUTEX_SHARED_MASK in
  if mtype =? MUTEX_TYPE_BITS_NORMAL then goes l (NCas c shared) else
  if tid =? MUTEX_OWNER_FROM_BITS mvalue then recursive_increment l mvalue mtype else
  match c with
  | TryLock => goes l (OTry (Z.lor mtype (Z.lor shared MUTEX_STATE_BITS_UNLOCKED)))
  | _ =>
      let timed := is_timed c in
      let mtype := Z.lor mtype shared in
      if mvalue =? mtype then goes l (OQuick timed mtype shared) else lock_loop l timed mtype shared mvalue
  end.

Definition unlock_enter (tid : Z) (l : mloc) (mvalue : Z) : mloc :=
  let mtype := Z.land mvalue MUTEX_TYPE_MASK in
  let shared := Z.land mvalue MUTEX_SHARED_MASK in
  if mtype =? MUTEX_TYPE_BITS_NORMAL then goes l (NDec shared) else
  if negb (tid =? MUTEX_OWNER_FROM_BITS mvalue) then returns l EPERM else
  if negb (MUTEX_COUNTER_BITS_IS_ZERO mvalue) then goes l (DecCas mvalue) else goes l (OSwap mtype shared).

(** The word a thread locks with. *)
Definition owner_word (tid mtype state : Z) : Z := Z.lor (MUTEX_OWNER_TO_BITS tid) (Z.lor mtype state).

(** The points of the normal type, of the types with an owner, and of unlocking. *)
Definition normal_code (l : mloc) (p : mpc) : instr mloc :=
  match p with
  | NCas c shared =>
      Cmpxchg (Z.lor shared MUTEX_STATE_BITS_UNLOCKED) (Z.lor shared MUTEX_STATE_BITS_LOCKED_UNCONTENDED)
        (λ r, if r =? 0 then locked l else
              match c with TryLock => returns l EBUSY | _ => goes l (NSwap (is_timed c) shared) end)
  | NSwap timed shared =>
      Swap (Z.lor shared MUTEX_STATE_BITS_LOCKED_CONTENDED)
        (λ old, if old =? Z.lor shared MUTEX_STATE_BITS_UNLOCKED then locked l else
                if timed then goes l (NClock shared) else goes l (NWait false shared))
  | NClock shared => Clock (λ expired, if expired : bool then returns l EBUSY else goes l (NWait true shared))
  | NWait timed shared =>
      Wait (Z.lor shared MUTEX_STATE_BITS_LOCKED_CONTENDED) timed (λ _, goes l (NSwap timed shared))
  | _ => Stop
  end.
Definition owned_code (tid : Z) (l : mloc) (p : mpc) : instr mloc :=
  match p with
  | IncCas mvalue =>
      Cmpxchg mvalue (u32 (mvalue + MUTEX_COUNTER_BITS_ONE)) (λ r, if r =? 0 then locked l else goes l IncLoad)
  | IncLoad => Load (λ w, goes l (IncCas w))
  | OQuick timed mtype shared =>
      Cmpxchg mtype (owner_word tid mtype MUTEX_STATE_BITS_LOCKED_UNCONTENDED)
        (λ r, if r =? 0 then locked l else goes l (OLoad timed mtype shared))
  | OTry mtype =>
      Cmpxchg mtype (owner_word tid mtype MUTEX_STATE_BITS_LOCKED_UNCONTENDED)
        (λ r, if r =? 0 then locked l else returns l EBUSY)
  | OLoad timed mtype shared => Load (λ w, lock_loop l timed mtype shared w)
  | OTake timed mtype shared =>
      Cmpxchg mtype (owner_word tid mtype MUTEX_STATE_BITS_LOCKED_CONTENDED)
        (λ r, if r =? 0 then locked l else
              if timed then goes l (OTakeClock mtype shared) else goes l (OLoad false mtype shared))
  | OTakeClock mtype shared =>
      Clock (λ expired, if expired : bool then returns l EBUSY else goes l (OLoad true mtype shared))
  | OFlip timed mtype shared mvalue =>
      let newval := MUTEX_STATE_BITS_FLIP_CONTENTION mvalue in
      Cmpxchg mvalue newval
        (λ r, if timed
              then if r =? 0 then goes l (OClock mtype shared newval) else goes l (OFlipLoad mtype shared)
              else if r =? 0 then goes l (OWait false mtype shared newval) else goes l (OLoad false mtype shared))
  | OFlipLoad mtype shared => Load (λ w, goes l (OClock mtype shared w))
  | OClock mtype shared mvalue =>
      Clock (λ expired, if expired : bool then returns l EBUSY else
              if MUTEX_STATE_BITS_IS_LOCKED_CONTENDED mvalue then goes l (OWait true mtype shared mvalue)
              else lock_loop l true mtype shared mvalue)
  | OWait timed mtype shared mvalue =>
      Wait mvalue timed
        (λ ret, if timed && (ret =? ETIMEDOUT) then returns l EBUSY else goes l (OLoad timed mtype shared))
  | _ => Stop
  end.
Definition unlock_code (l : mloc) (p : mpc) : instr mloc :=
  match p with
  | NDec shared =>
      Atomic_dec (λ old, if negb (old =? Z.lor shared MUTEX_STATE_BITS_LOCKED_UNCONTENDED)
                         then goes l (NStore shared) else Mloc (held l - 1) (Idle 0))
  | NStore shared => Store shared (Mloc (held l - 1) (NWake shared))
  | NWake shared => Wake 1 (returns l 0)
  | DecCas mvalue =>
      Cmpxchg mvalue (u32 (mvalue - MUTEX_COUNTER_BITS_ONE))
        (λ r, if r =? 0 then Mloc (held l - 1) (Idle 0) else goes l DecLoad)
  | DecLoad => Load (λ w, goes l (DecCas w))
  | OSwap mtype shared =>
      Swap (Z.lor mtype (Z.lor shared MUTEX_STATE_BITS_UNLOCKED))
        (λ old, let l := Mloc (held l - 1) (Idle 0) in
                if MUTEX_STATE_BITS_IS_LOCKED_CONTENDED old then goes l (OWake shared) else l)
  | OWake shared => Wake 1 (returns l 0)
  | _ => Stop
  end.

Definition mutex_code (t : nat) (l : mloc) : instr mloc :=
  match mpoint l with
  | Idle _ => Stop
  | Enter c => Load (lock_enter (Z.of_nat t) l c)
  | UEnter => Load (unlock_enter (Z.of_nat t) l)
  | NCas _ _ | NSwap _ _ | NClock _ | NWait _ _ => normal_code l (mpoint l)
  | IncCas _ | IncLoad | OQuick _ _ _ | OTry _ | OLoad _ _ _ | OTake _ _ _ | OTakeClock _ _
  | OFlip _ _ _ _ | OFlipLoad _ _ | OClock _ _ _ | OWait _ _ _ _ => owned_code (Z.of_nat t) l (mpoint l)
  | NDec _ | NStore _ | NWake _ | DecCas _ | DecLoad | OSwap _ _ | OWake _ => unlock_code l (mpoint l)
  end.

(** The calls a client makes.  [timed] says whether it uses time-outs; [strict] that it
    unlocks only what it holds. *)
Inductive mutex_enter (timed strict : bool) (t : nat) : mloc -> mloc -> Prop :=
| enter_lock h r c : (c = TimedLock -> timed = true) -> mutex_enter timed strict t (Mloc h (Idle r)) (Mloc h (Enter c))
| enter_unlock h r : (strict = true -> 0 < h) -> mutex_enter timed strict t (Mloc h (Idle r)) (Mloc h UEnter).

Definition mutexstep (timed strict : bool) := step mutex_code (mutex_enter timed strict).
Definition mutex_start (w : Z) (threads : gset nat) : Z * gmap nat (thread mloc) :=
  (w, gset_to_gmap (Running (Mloc 0 (Idle 0))) threads).
