(* ===== verification/PMutexNormal.v ===== *)
(** * Normal mutexes ([_normal_lock], [_normal_unlock] of [libc/bionic/pthread.c])

    The invariant of the machine of [PMutex] for a mutex of the normal type: who holds
    it, and that a sleeper is always going to be woken. *)
From stdpp Require Import base gmap list.
From Stdlib Require Import ZArith Lia.
From S2P Require Import Prelude Refs Futex PMutex.
#[local] Open Scope Z_scope.

(** [S] is the flag for sharing, [st] the state. *)
Definition normal_ok (S : Z) (th : thread mloc) : Prop :=
  let l := point th in
  0 <= held l ∧
  match mpoint l with
  | Idle _ | Enter _ => True
  | UEnter => 0 < held l
  | NCas _ s | NSwap _ s | NClock s | NWait _ s | NWake s => s = S
  | NDec s | NStore s => s = S ∧ 0 < held l
  | _ => False
  end ∧ (asleep th -> ∃ tm, mpoint l = NWait tm S).

(** Points on the way to a wake-up, or to marking the mutex as contended. *)
Definition alert (th : thread mloc) : Prop :=
  ~ asleep th ∧ match mpoint (point th) with NSwap _ _ | NStore _ | NWake _ => True | _ => False end.

Definition holders (st : Z) : Z := if st =? 0 then 0 else 1.

Record normal_inv (S w : Z) (T : gmap nat (thread mloc)) (st : Z) : Prop := NormalInv {
  ni_word : w = S + st;
  ni_state : st = 0 ∨ st = 1 ∨ st = 2;
  ni_each : each (λ _ _, normal_ok S) w T;
  ni_held : total held T = holders st;
  ni_woken : ∀ t l, T !! t = Some (Sleeping l) -> st = 2 ∨ ∃ t' th, T !! t' = Some th ∧ alert th
}.

Definition normal_moved (S st : Z) (th : thread mloc) (st' : Z) (th' : thread mloc) : Prop :=
  (st' = 0 ∨ st' = 1 ∨ st' = 2) ∧ normal_ok S th' ∧
  held (point th') - held (point th) = holders st' - holders st ∧
  (st = 2 -> st' = 2 ∨ alert th') ∧ (asleep th' -> st' = 2) ∧ (alert th -> st' = 2 ∨ alert th').

Section Moves.
Variable S : Z.
Hypothesis HS : S = 0 ∨ S = MUTEX_SHARED_MASK.

Lemma normal_bits :
  Z.lor S MUTEX_STATE_BITS_UNLOCKED = S ∧ Z.lor S MUTEX_STATE_BITS_LOCKED_UNCONTENDED = S + 1 ∧
  Z.lor S MUTEX_STATE_BITS_LOCKED_CONTENDED = S + 2.
Proof. by destruct HS as [->| ->]. Qed.

Lemma normal_enter tid l c st :
  st = 0 ∨ st = 1 ∨ st = 2 ->
  lock_enter tid l c (S + st) = goes l (NCas c S) ∧ unlock_enter tid l (S + st) = goes l (NDec S).
Proof. intros Hst. destruct HS as [->| ->], Hst as [->|[->| ->]]; split; reflexivity. Qed.

#[local] Ltac settle :=
  unfold normal_moved, normal_ok, alert, holders in *; cbn; split_and!;
  first [done | lia | naive_solver lia].

Lemma normal_resume st t r l : (st = 0 ∨ st = 1 ∨ st = 2) -> normal_ok S (Sleeping l) ->
  normal_moved S st (Sleeping l) st (resume mutex_code t r (Sleeping l)).
Proof.
  intros Hst (Hh & _ & Hs). destruct (Hs I) as [tm Hp]. destruct l as [h p]. cbn in Hp, Hh. subst p. cbn. settle.
Qed.

Lemma normal_moves timed t st w' th th' :
  (st = 0 ∨ st = 1 ∨ st = 2) -> (0 < held (point th) -> st <> 0) -> normal_ok S th ->
  move mutex_code (mutex_enter timed true) t (S + st) th w' th' ->
  ∃ st', w' = S + st' ∧ normal_moved S st th st' th'.
Proof.
  intros Hst Hhold Hok Hm. pose proof normal_bits as (E0 & E1 & E2).
  assert (HSb : 0 <= S < 2 ^ 14) by (destruct HS as [->| ->]; [lia | change MUTEX_SHARED_MASK with 8192; lia]).
  inversion Hm as [w0 l w2 l2 E|w0 l k b E|w0 l u tm k E Hne|w0 l tm k E|w0 l|w0 l u k E|w0 l l2 E He]; subst.
  - destruct l as [h p]. destruct Hok as (Hh & Hok & _). cbn in Hh, Hok, Hhold.
    destruct p; cbn in Hok; try done; cbn in E; try discriminate.
    + injection E as <- <-. rewrite (proj1 (normal_enter (Z.of_nat t) _ c st Hst)). exists st. split; [done|]. settle.
    + subst shared. rewrite E0, E1 in E. destruct (Z.eqb_spec (S + st) S); injection E as <- <-.
      * exists 1. split; [done|]. assert (st = 0) as -> by lia. settle.
      * exists st. split; [done|]. destruct c; settle.
    + subst shared. rewrite E0, E2 in E. injection E as <- <-. exists 2. split; [done|].
      destruct (Z.eqb_spec (S + st) S); [assert (st = 0) as -> by lia; settle|].
      assert (holders st = 1) by (unfold holders; destruct (Z.eqb_spec st 0); lia). destruct timed0; settle.
    + injection E as <- <-. rewrite (proj2 (normal_enter (Z.of_nat t) _ Lock st Hst)). exists st. split; [done|]. settle.
    + destruct Hok as [-> Hpos]. specialize (Hhold Hpos). rewrite E1 in E. injection E as <- <-.
      exists (st - 1). split; [unfold u32; rewrite Z.mod_small; lia|].
      destruct (Z.eqb_spec (S + st) (S + 1)); cbn [negb].
      * assert (st = 1) as -> by lia. settle.
      * assert (st = 2) as -> by lia. settle.
    + destruct Hok as [-> Hpos]. specialize (Hhold Hpos). injection E as <- <-. exists 0. split; [lia|].
      assert (holders st = 1) by (unfold holders; destruct (Z.eqb_spec st 0); lia). settle.
  - destruct l as [h p]. destruct Hok as (Hh & Hok & _). cbn in Hh, Hok. destruct p; cbn in Hok; try done;
      cbn in E; try discriminate. injection E as <-. exists st. split; [done|]. subst. destruct b; settle.
  - destruct l as [h p]. destruct Hok as (Hh & Hok & _). cbn in Hh, Hok. destruct p; cbn in Hok; try done;
      cbn in E; try discriminate. injection E as _ _ <-. exists st. split; [done|]. subst. settle.
  - destruct l as [h p]. destruct Hok as (Hh & Hok & _). cbn in Hh, Hok. destruct p; cbn in Hok; try done;
      cbn in E; try discriminate. injection E as E _ _. subst shared. rewrite E2 in E. exists st. split; [done|].
    assert (st = 2) as -> by lia. settle.
  - exists st. split; [done|]. by apply normal_resume.
  - exists st. split; [done|]. by apply normal_resume.
  - exists st. split; [done|]. destruct Hok as (Hh & Hok & _). inversion He; subst; cbn in *; settle.
Qed.
End Moves.

Lemma normal_step_inv S timed w T st w' T' :
  (S = 0 ∨ S = MUTEX_SHARED_MASK) -> normal_inv S w T st -> mutexstep timed true (w, T) (w', T') ->
  ∃ st', normal_inv S w' T' st'.
Proof.
  intros HS [-> Hst He Hh Hk] Hstep.
  assert (Hnn : positive held T) by (intros x y Hx; by destruct (He _ _ Hx)).
  inversion Hstep as [w0 T0 t th w2 th' Ht Hm|w0 T0 t l n k ws Ht Hcode Hmay]; subst.
  - destruct (normal_moves S HS timed t st w' th th' Hst) as (st' & -> & Hst' & Hok & Eh & Hlow & Hsl & Hal);
      [ | by apply (He _ _ Ht) | done |].
    { intros Hpos ->. pose proof (total_ge held T t th Hnn Ht). cbn in *. lia. }
    exists st'. split; [done | done | | |].
    + apply each_insert; [exact He | exact Hok].
    + rewrite (total_update _ T t th th' Ht). lia.
    + intros x l [[<- ->]|[Hne Hx]]%lookup_insert_Some; [left; by apply Hsl|].
      assert (Hcase : st' = 2 ∨ alert th' ∨ ∃ t1 th1, t1 <> t ∧ T !! t1 = Some th1 ∧ alert th1).
      { destruct (Hk x l Hx) as [H2|(t1 & th1 & Ht1 & Ha)]; [naive_solver|].
        destruct (decide (t1 = t)) as [->|]; [rewrite Ht in Ht1; simplify_eq; naive_solver | naive_solver]. }
      destruct Hcase as [?|[?|(t1 & th1 & Hn1 & Ht1 & Ha)]]; [by left | right; exists t, th' | right; exists t1, th1].
      * by rewrite lookup_insert_eq.
      * by rewrite lookup_insert_ne.
  - exists st. destruct l as [h p]. pose proof (He _ _ Ht) as (Hhl & Hokl & _). cbn in Hhl, Hokl.
    destruct p; cbn in Hokl; try done; cbn in Hcode; try discriminate. injection Hcode as <- <-.
    assert (Hcw : ∀ y ly, T !! y = Some (Sleeping ly) -> ∃ tm, mpoint ly = NWait tm S).
    { intros y ly Hy. destruct (He _ _ Hy) as (_ & _ & Ha). by apply Ha. }
    assert (Hwt : wake_set mutex_code ws T !! t = Some (Running (Mloc h (NWake shared)))).
    { rewrite wake_set_lookup, Ht. cbn. by case_decide. }
    split; [done | done | | |].
    + apply each_insert; [apply each_wake; [exact He|]; intros x lx Hx; destruct (normal_resume S 0 x 0 lx) as (_ & ? & _); [by left | done | done]|].
      split_and!; [done | done | by intros []].
    + rewrite (total_update _ _ t _ _ Hwt), total_wake; [cbn; lia|]. intros x [hx px] Hx.
      destruct (Hcw x _ Hx) as [tm Hp]. cbn in Hp. subst px. done.
    + intros x lx Hx. right. destruct (wake_one_wakes mutex_code ws T t _ x lx Hmay Hx) as (y & [hy py] & Hy & Hwy).
      { intros y [hy py] Hy. destruct (Hcw y _ Hy) as [tm Hp]. cbn in Hp. subst py. cbn. eauto. }
      destruct (Hcw y _ Hy) as [tm Hp]. cbn in Hp. subst py. exists y. eexists. rewrite lookup_insert_ne by congruence.
      split; [exact Hwy|]. cbn. split; [by intros [] | done].
Qed.
