(* ===== verification/PMutexOwned.v ===== *)
(** * Recursive and error-checking mutexes ([libc/bionic/pthread.c])

    The invariant of the machine of [PMutex] for the types whose word names the owner:
    the owner and the depth in the word are those of the clients, and without time-outs a
    sleeper is always going to be woken. *)
From stdpp Require Import base gmap list.
From Stdlib Require Import ZArith Lia.
From S2P Require Import Prelude Futex PMutex.
#[local] Open Scope Z_scope.

(** ** Fields of a word *)
Lemma land_field a f lo s b :
  0 <= s -> 0 <= b -> 0 <= lo < 2 ^ s -> 0 <= f < 2 ^ b ->
  Z.land ((a * 2 ^ b + f) * 2 ^ s + lo) (FIELD_MASK s b) = f * 2 ^ s.
Proof.
  intros Hs Hb Hlo Hf. unfold FIELD_MASK. set (x := (a * 2 ^ b + f) * 2 ^ s + lo).
  assert (E : Z.shiftr x s = a * 2 ^ b + f).
  { subst x. rewrite Z.shiftr_div_pow2 by done. rewrite Z.div_add_l, (Z.div_small lo) by lia. lia. }
  assert (Em : Z.land (a * 2 ^ b + f) (Z.shiftl 1 b - 1) = f).
  { replace (Z.shiftl 1 b - 1) with (Z.ones b) by (unfold Z.ones; lia). rewrite Z.land_ones by done.
    rewrite Z.add_comm, Z.mod_add by lia. by apply Z.mod_small. }
  rewrite <- (Z.shiftl_mul_pow2 f s) by done. rewrite <- Em, <- E. apply Z.bits_inj'. intros i Hi.
  rewrite Z.land_spec, !Z.shiftl_spec by done. destruct (Z_lt_le_dec i s) as [Hlt|Hge].
  - rewrite !Z.testbit_neg_r with (n := i - s) by lia. by rewrite andb_false_r.
  - rewrite Z.land_spec, Z.shiftr_spec by lia. by rewrite Z.sub_add.
Qed.
Lemma from_field a f lo s b :
  0 <= s -> 0 <= b -> 0 <= lo < 2 ^ s -> 0 <= f < 2 ^ b ->
  FIELD_FROM_BITS ((a * 2 ^ b + f) * 2 ^ s + lo) s b = f.
Proof.
  intros Hs Hb Hlo Hf. unfold FIELD_FROM_BITS. rewrite Z.shiftr_div_pow2, Z.div_add_l, (Z.div_small lo), Z.add_0_r by lia.
  replace (Z.shiftl 1 b - 1) with (Z.ones b) by (unfold Z.ones; lia). rewrite Z.land_ones by done.
  rewrite Z.add_comm, Z.mod_add by lia. by apply Z.mod_small.
Qed.
(** ** Words *)

(** Owner, depth less one and state of a locked mutex. *)
Record lockst := Lockst { lo_owner : Z; lo_count : Z; lo_state : Z }.

Section Words.
Variables ty sb : Z.
Hypothesis Hty : 1 <= ty <= 2.
Hypothesis Hsb : 0 <= sb <= 1.

Definition typebits : Z := ty * 16384.
Definition shbit : Z := sb * 8192.
Definition base : Z := typebits + shbit.
Definition word (o : option lockst) : Z :=
  match o with None => base | Some k => lo_owner k * 65536 + base + lo_count k * 4 + lo_state k end.
Definition wf (o : option lockst) : Prop :=
  match o with
  | None => True
  | Some k => 1 <= lo_owner k < 65536 ∧ 0 <= lo_count k < 2048 ∧ 1 <= lo_state k <= 2
  end.

Definition owner_of (o : option lockst) : Z := match o with None => 0 | Some k => lo_owner k end.
Definition count_of (o : option lockst) : Z := match o with None => 0 | Some k => lo_count k end.
Definition state_of (o : option lockst) : Z := match o with None => 0 | Some k => lo_state k end.

Lemma word_fields o :
  wf o -> 0 <= owner_of o < 65536 ∧ 0 <= count_of o < 2048 ∧ 0 <= state_of o <= 2 ∧
  word o = owner_of o * 65536 + base + count_of o * 4 + state_of o.
Proof. destruct o as [k|]; cbn; lia. Qed.

Lemma word_type o : wf o -> Z.land (word o) MUTEX_TYPE_MASK = typebits.
Proof.
  intros (Ho & Hc & Hs & ->)%word_fields. unfold base, typebits, shbit.
  replace (owner_of o * 65536 + (ty * 16384 + sb * 8192) + count_of o * 4 + state_of o) with
    ((owner_of o * 2 ^ 2 + ty) * 2 ^ 14 + (sb * 8192 + count_of o * 4 + state_of o)) by lia.
  unfold MUTEX_TYPE_MASK. rewrite land_field by lia. lia.
Qed.
Lemma word_shared o : wf o -> Z.land (word o) MUTEX_SHARED_MASK = shbit.
Proof.
  intros (Ho & Hc & Hs & ->)%word_fields. unfold base, typebits, shbit.
  replace (owner_of o * 65536 + (ty * 16384 + sb * 8192) + count_of o * 4 + state_of o) with
    (((owner_of o * 4 + ty) * 2 ^ 1 + sb) * 2 ^ 13 + (count_of o * 4 + state_of o)) by lia.
  unfold MUTEX_SHARED_MASK. rewrite land_field by lia. lia.
Qed.
Lemma word_owner o : wf o -> MUTEX_OWNER_FROM_BITS (word o) = owner_of o.
Proof.
  intros (Ho & Hc & Hs & ->)%word_fields. unfold base, typebits, shbit.
  replace (owner_of o * 65536 + (ty * 16384 + sb * 8192) + count_of o * 4 + state_of o) with
    ((0 * 2 ^ 16 + owner_of o) * 2 ^ 16 + (ty * 16384 + sb * 8192 + count_of o * 4 + state_of o)) by lia.
  unfold MUTEX_OWNER_FROM_BITS. by rewrite from_field by lia.
Qed.
Lemma word_count o : wf o -> Z.land (word o) MUTEX_COUNTER_MASK = count_of o * 4.
Proof.
  intros (Ho & Hc & Hs & ->)%word_fields. unfold base, typebits, shbit.
  replace (owner_of o * 65536 + (ty * 16384 + sb * 8192) + count_of o * 4 + state_of o) with
    (((owner_of o * 8 + ty * 2 + sb) * 2 ^ 11 + count_of o) * 2 ^ 2 + state_of o) by lia.
  unfold MUTEX_COUNTER_MASK, MUTEX_COUNTER_SHIFT, MUTEX_COUNTER_LEN. rewrite land_field by lia. lia.
Qed.
Lemma word_state o : wf o -> Z.land (word o) MUTEX_STATE_MASK = state_of o.
Proof.
  intros (Ho & Hc & Hs & ->)%word_fields. unfold base, typebits, shbit.
  replace (owner_of o * 65536 + (ty * 16384 + sb * 8192) + count_of o * 4 + state_of o) with
    (((owner_of o * 16384 + ty * 4096 + sb * 2048 + count_of o) * 2 ^ 2 + state_of o) * 2 ^ 0 + 0) by lia.
  unfold MUTEX_STATE_MASK, MUTEX_STATE_SHIFT, MUTEX_STATE_LEN. rewrite land_field by lia. lia.
Qed.

Lemma word_inj o o' : wf o -> wf o' -> word o = word o' -> o = o'.
Proof.
  intros Ho Ho' E. pose proof (word_owner o Ho) as E1. pose proof (word_count o Ho) as E2.
  pose proof (word_state o Ho) as E3. rewrite E, word_owner in E1 by done. rewrite E, word_count in E2 by done.
  rewrite E, word_state in E3 by done.
  destruct o as [[a b c]|], o' as [[a' b' c']|]; cbn in *; try done; [|lia|lia]. f_equal. f_equal; lia.
Qed.
Lemma word_free o : wf o -> (word o =? base) = match o with None => true | Some _ => false end.
Proof. destruct o as [k|]; cbn; intros; [apply Z.eqb_neq; lia | apply Z.eqb_refl]. Qed.

Lemma base_bits : Z.lor typebits shbit = base ∧ Z.lor typebits (Z.lor shbit MUTEX_STATE_BITS_UNLOCKED) = base.
Proof.
  change MUTEX_STATE_BITS_UNLOCKED with 0. rewrite Z.lor_0_r. assert (Z.lor typebits shbit = base); [|done].
  unfold base, typebits, shbit. change 16384 with (2 ^ 14). rewrite lor_low; lia.
Qed.
Lemma owner_word_eq t st :
  1 <= t < 65536 -> 1 <= st <= 2 -> owner_word t base (MUTEX_STATE_TO_BITS st) = word (Some (Lockst t 0 st)).
Proof.
  intros Ht Hst. unfold owner_word.
  assert (MUTEX_STATE_TO_BITS st = st) as -> by (assert (st = 1 ∨ st = 2) as [->| ->] by lia; done).
  assert (MUTEX_OWNER_TO_BITS t = t * 2 ^ 16) as ->.
  { unfold MUTEX_OWNER_TO_BITS, FIELD_TO_BITS. change (Z.shiftl 1 16 - 1) with (Z.ones 16).
    rewrite Z.land_ones, Z.mod_small, Z.shiftl_mul_pow2 by lia. done. }
  assert (Z.lor base st = base + st) as ->.
  { unfold base, typebits, shbit. replace (ty * 16384 + sb * 8192) with ((ty * 2 + sb) * 2 ^ 13) by lia.
    apply lor_low; lia. }
  rewrite lor_low by (unfold base, typebits, shbit; lia). cbn. lia.
Qed.
Lemma flip_word t c :
  wf (Some (Lockst t c 1)) -> MUTEX_STATE_BITS_FLIP_CONTENTION (word (Some (Lockst t c 1))) = word (Some (Lockst t c 2)).
Proof.
  intros Hwf. unfold MUTEX_STATE_BITS_FLIP_CONTENTION. cbn. unfold base, typebits, shbit.
  set (q := t * 16384 + ty * 4096 + sb * 2048 + c).
  replace (t * 65536 + (ty * 16384 + sb * 8192) + c * 4 + 1) with (q * 2 ^ 2 + 1) by (subst q; lia).
  replace (t * 65536 + (ty * 16384 + sb * 8192) + c * 4 + 2) with (q * 2 ^ 2 + 2) by (subst q; lia).
  rewrite !lxor_low, Z.lxor_assoc by lia. reflexivity.
Qed.
Lemma count_up t c st :
  wf (Some (Lockst t c st)) -> c < 2047 -> u32 (word (Some (Lockst t c st)) + MUTEX_COUNTER_BITS_ONE) = word (Some (Lockst t (c + 1) st)).
Proof.
  intros Hwf Hc. change MUTEX_COUNTER_BITS_ONE with 4. cbn in *. unfold base, typebits, shbit. rewrite u32_small; lia.
Qed.
Lemma count_down t c st :
  wf (Some (Lockst t c st)) -> 1 <= c -> u32 (word (Some (Lockst t c st)) - MUTEX_COUNTER_BITS_ONE) = word (Some (Lockst t (c - 1) st)).
Proof.
  intros Hwf Hc. change MUTEX_COUNTER_BITS_ONE with 4. cbn in *. unfold base, typebits, shbit. rewrite u32_small; lia.
Qed.
End Words.

(** ** The invariant *)

(** The depth, less one, at which thread [t] has locked the mutex. *)
Definition depth (o : option lockst) (t : nat) : option Z :=
  match o with
  | Some k => if lo_owner k =? Z.of_nat t then Some (lo_count k) else None
  | None => None
  end.
Definition contended (o : option lockst) : Prop := state_of o = 2.

(** Points on the way to a wake-up, or to marking the mutex as contended. *)
Definition alert (th : thread mloc) : Prop :=
  ~ asleep th ∧ match mpoint (point th) with
                | OLoad _ _ _ | OTake _ _ _ | OFlip _ _ _ _ | OWait _ _ _ _ | OWake _ => True
                | _ => False
                end.

Section Owned.
Variables (ty sb : Z) (allow : bool).
Hypothesis Hty : 1 <= ty <= 2.
Hypothesis Hsb : 0 <= sb <= 1.
Notation W := (word ty sb).

(** What the local variables hold in thread [t], which has locked the mutex to depth [d].
    [allow] says whether clients use time-outs. *)
Definition here (d : option Z) (mt s : Z) (tm : bool) : Prop :=
  d = None ∧ mt = base ty sb ∧ s = shbit sb ∧ (tm = true -> allow = true).
Definition point_ok (d : option Z) (t : nat) (p : mpc) : Prop :=
  match p with
  | Idle _ | UEnter | OWake _ => True
  | Enter c => c = TimedLock -> allow = true
  | IncCas mv => ∃ c st, d = Some c ∧ 0 <= c < 2047 ∧ 1 <= st <= 2 ∧ mv = W (Some (Lockst (Z.of_nat t) c st))
  | IncLoad => ∃ c, d = Some c ∧ c < 2047
  | OQuick tm mt s | OLoad tm mt s | OTake tm mt s => here d mt s tm
  | OTry mt => d = None ∧ mt = base ty sb
  | OTakeClock mt s | OFlipLoad mt s => here d mt s true
  | OFlip tm mt s mv => here d mt s tm ∧ ∃ o c, wf (Some (Lockst o c 1)) ∧ mv = W (Some (Lockst o c 1))
  | OClock mt s mv => here d mt s true ∧ ∃ o, wf o ∧ mv = W o
  | OWait tm mt s mv => here d mt s tm ∧ ∃ o c, wf (Some (Lockst o c 2)) ∧ mv = W (Some (Lockst o c 2))
  | DecCas mv => ∃ c st, d = Some c ∧ 1 <= c < 2048 ∧ 1 <= st <= 2 ∧ mv = W (Some (Lockst (Z.of_nat t) c st))
  | DecLoad => ∃ c, d = Some c ∧ 1 <= c
  | OSwap mt s => d = Some 0 ∧ mt = typebits ty ∧ s = shbit sb
  | _ => False
  end.
Definition owned_ok (d : option Z) (t : nat) (th : thread mloc) : Prop :=
  held (point th) = match d with Some c => c + 1 | None => 0 end ∧ point_ok d t (mpoint (point th)) ∧
  (asleep th -> ∃ tm mt s mv, mpoint (point th) = OWait tm mt s mv).

Definition owned_moved (o : option lockst) (t : nat) (th : thread mloc) (o' : option lockst) (th' : thread mloc) : Prop :=
  wf o' ∧ (∀ u, u <> t -> depth o' u = depth o u) ∧ owned_ok (depth o' t) t th' ∧
  (contended o -> contended o' ∨ alert th') ∧ (asleep th' -> contended o') ∧
  (allow = false -> alert th -> contended o' ∨ alert th').

(** A step that leaves the word alone. *)
Lemma owned_stays o t h p q :
  wf o -> h = match depth o t with Some c => c + 1 | None => 0 end -> point_ok (depth o t) t q ->
  (allow = false -> alert (Running (Mloc h p)) -> contended o ∨ alert (Running (Mloc h q))) ->
  owned_moved o t (Running (Mloc h p)) o (Running (Mloc h q)).
Proof.
  intros Hwf Hh Hq Ha. split_and!; [done | done | split_and!; [done | done | by intros []] | by left | by intros [] | done].
Qed.

Lemma lock_loop_ok d t l tm o :
  wf o -> held l = match d with Some c => c + 1 | None => 0 end -> d = None -> (tm = true -> allow = true) ->
  ∃ p, lock_loop l tm (base ty sb) (shbit sb) (W o) = Mloc (held l) p ∧ point_ok d t p ∧
       (tm = false -> alert (Running (Mloc (held l) p))).
Proof.
  intros Hwf Hh -> Htm. assert (Hhere : here None (base ty sb) (shbit sb) tm) by done. unfold lock_loop.
  rewrite word_free by done. destruct o as [[o c st]|].
  - unfold MUTEX_STATE_BITS_IS_LOCKED_UNCONTENDED. rewrite word_state by done. cbn [state_of lo_state].
    change MUTEX_STATE_BITS_LOCKED_UNCONTENDED with 1. pose proof Hwf as (_ & _ & Hst). cbn in Hst.
    destruct (Z.eqb_spec st 1) as [->|]; [eexists; split_and!; [done | split; [done|]; eauto | by split; [intros []|]]|].
    assert (st = 2) as -> by lia.
    destruct tm; eexists; (split_and!; [done | split; [done|]; eauto | first [done | by split; [intros []|]]]).
  - eexists. split_and!; [done | done | by split; [intros []|]].
Qed.

Lemma depth_word o t :
  depth o t <> None -> ∃ c st, o = Some (Lockst (Z.of_nat t) c st) ∧ depth o t = Some c.
Proof.
  destruct o as [[ow c st]|]; cbn; [|done]. destruct (Z.eqb_spec ow (Z.of_nat t)) as [->|]; [|done]. eauto.
Qed.
Lemma depth_self t c st : depth (Some (Lockst (Z.of_nat t) c st)) t = Some c.
Proof. cbn. by rewrite Z.eqb_refl. Qed.
Lemma depth_other t u c st : u <> t -> depth (Some (Lockst (Z.of_nat t) c st)) u = None.
Proof. intros. cbn. rewrite (proj2 (Z.eqb_neq _ _)) by lia. done. Qed.
Lemma owner_depth o t :
  wf o -> 1 <= Z.of_nat t -> (Z.of_nat t =? owner_of o) = match depth o t with Some _ => true | None => false end.
Proof.
  intros Hwf Ht. destruct o as [[ow c st]|]; cbn; [|apply Z.eqb_neq; lia].
  rewrite Z.eqb_sym. by destruct (ow =? Z.of_nat t).
Qed.

Lemma typebits_owned : (typebits ty =? MUTEX_TYPE_BITS_NORMAL) = false.
Proof. apply Z.eqb_neq. change MUTEX_TYPE_BITS_NORMAL with 0. unfold typebits. lia. Qed.

(** Points without alert go anywhere; from an alert point only to an alert one. *)
#[local] Ltac calm := intros _ [_ []].

Lemma lock_enter_ok o t h c :
  wf o -> 1 <= Z.of_nat t -> h = match depth o t with Some c => c + 1 | None => 0 end ->
  (c = TimedLock -> allow = true) ->
  owned_moved o t (Running (Mloc h (Enter c))) o (Running (lock_enter (Z.of_nat t) (Mloc h (Enter c)) c (W o))).
Proof.
  intros Hwf Ht Hh Hc. unfold lock_enter. rewrite word_type, word_shared, typebits_owned, word_owner by done.
  rewrite owner_depth by done. destruct (depth o t) as [dc|] eqn:Hd.
  - unfold recursive_increment. case_match; [apply owned_stays; [done | by rewrite Hd | done | calm]|].
    unfold MUTEX_COUNTER_BITS_WILL_OVERFLOW. rewrite word_count by done.
    destruct (depth_word o t) as (c0 & st & -> & Hd'); [congruence|]. rewrite Hd in Hd'. simplify_eq.
    destruct Hwf as (Ho & Hcr & Hst). cbn in Ho, Hcr, Hst. cbn [count_of lo_count]. change MUTEX_COUNTER_MASK with 8188.
    destruct (Z.eqb_spec (c0 * 4) 8188); (apply owned_stays; [done | by rewrite Hd | | calm]); [done|].
    exists c0, st. rewrite Hd. split_and!; (done || lia).
  - pose proof (base_bits ty sb Hsb) as [Eb1 Eb2]. rewrite Eb1, Eb2.
    assert (Hloop : ∀ tm, (tm = true -> allow = true) ->
      owned_moved o t (Running (Mloc h (Enter c))) o
        (Running (if W o =? base ty sb then goes (Mloc h (Enter c)) (OQuick tm (base ty sb) (shbit sb))
                  else lock_loop (Mloc h (Enter c)) tm (base ty sb) (shbit sb) (W o)))).
    { intros tm Htm. case_match; [apply owned_stays; [done | by rewrite Hd | by rewrite Hd | calm]|].
      destruct (lock_loop_ok (depth o t) t (Mloc h (Enter c)) tm o) as (p & -> & Hp & _); [done | by rewrite Hd | done | done |].
      apply owned_stays; [done | by rewrite Hd | done | calm]. }
    destruct c; [by apply Hloop | by apply Hloop; intros; apply Hc |].
    apply owned_stays; [done | by rewrite Hd | by rewrite Hd | calm].
Qed.

Lemma unlock_enter_ok o t h :
  wf o -> 1 <= Z.of_nat t -> h = match depth o t with Some c => c + 1 | None => 0 end ->
  owned_moved o t (Running (Mloc h UEnter)) o (Running (unlock_enter (Z.of_nat t) (Mloc h UEnter) (W o))).
Proof.
  intros Hwf Ht Hh. unfold unlock_enter. rewrite word_type, word_shared, typebits_owned, word_owner by done.
  rewrite owner_depth by done. destruct (depth o t) as [dc|] eqn:Hd; cbn [negb];
    [|apply owned_stays; [done | by rewrite Hd | done | calm]].
  unfold MUTEX_COUNTER_BITS_IS_ZERO. rewrite word_count by done.
  destruct (depth_word o t) as (c0 & st & -> & Hd'); [congruence|]. rewrite Hd in Hd'. simplify_eq.
  destruct Hwf as (Ho & Hcr & Hst). cbn in Ho, Hcr, Hst. cbn [count_of lo_count].
  destruct (Z.eqb_spec (c0 * 4) 0); cbn [negb]; (apply owned_stays; [done | by rewrite Hd | | calm]); rewrite Hd.
  - split_and!; [f_equal; lia | done | done].
  - exists c0, st. split_and!; (done || lia).
Qed.

(** A free mutex is taken. *)
Lemma owned_takes t h p st :
  1 <= Z.of_nat t < 65536 -> h = 0 -> 1 <= st <= 2 -> (allow = false -> alert (Running (Mloc h p)) -> st = 2) ->
  owned_moved None t (Running (Mloc h p)) (Some (Lockst (Z.of_nat t) 0 st)) (Running (locked (Mloc h p))).
Proof.
  intros Ht -> Hst Ha. split_and!.
  - cbn. lia.
  - intros u Hu. by rewrite depth_other.
  - rewrite depth_self. split_and!; [done | done | by intros []].
  - intros H. cbn in H. discriminate H.
  - by intros [].
  - intros Hal Hth. left. by apply Ha.
Qed.

(** The owner changes its depth, or another thread marks the mutex as contended. *)
Lemma owned_recounts t h p c c' st :
  1 <= Z.of_nat t < 65536 -> 0 <= c' < 2048 -> 1 <= st <= 2 -> h + (c' - c) = c' + 1 ->
  ~ alert (Running (Mloc h p)) ->
  owned_moved (Some (Lockst (Z.of_nat t) c st)) t (Running (Mloc h p))
    (Some (Lockst (Z.of_nat t) c' st)) (Running (Mloc (h + (c' - c)) (Idle 0))).
Proof.
  intros Ht Hc Hst Hh Ha. split_and!.
  - cbn. lia.
  - intros u Hu. by rewrite !depth_other.
  - rewrite depth_self. split_and!; [done | done | by intros []].
  - by left.
  - by intros [].
  - done.
Qed.

Lemma owned_flips t l ow c q :
  wf (Some (Lockst ow c 1)) -> depth (Some (Lockst ow c 1)) t = None -> held l = 0 ->
  point_ok None t q ->
  owned_moved (Some (Lockst ow c 1)) t (Running l) (Some (Lockst ow c 2)) (Running (goes l q)).
Proof.
  intros Hwf Hd Hh Hq. split_and!.
  - cbn in *. lia.
  - done.
  - change (depth (Some (Lockst ow c 2)) t) with (depth (Some (Lockst ow c 1)) t). rewrite Hd.
    split_and!; [done | done | by intros []].
  - by left.
  - by intros [].
  - by left.
Qed.

(** The owner gives the mutex back. *)
Lemma owned_swaps t o h a b :
  wf o -> depth o t = Some 0 -> h = 0 + 1 ->
  owned_moved o t (Running (Mloc h (OSwap a b))) None
    (Running (if MUTEX_STATE_BITS_IS_LOCKED_CONTENDED (W o) then goes (Mloc (h - 1) (Idle 0)) (OWake b) else Mloc (h - 1) (Idle 0))).
Proof.
  intros Hwf Hd Hh.
  destruct (depth_word o t) as (c0 & st & -> & Hd'); [congruence|]. rewrite Hd in Hd'. simplify_eq.
  unfold MUTEX_STATE_BITS_IS_LOCKED_CONTENDED. rewrite word_state by done. cbn [state_of lo_state].
  change MUTEX_STATE_BITS_LOCKED_CONTENDED with 2. cbn [held].
  split_and!; [done | intros u Hu; by rewrite depth_other | | | | calm].
  + destruct (st =? 2); (split_and!; [cbn; lia | done | by intros []]).
  + intros Hcon. unfold contended in Hcon. cbn in Hcon. subst st. right. split; [by intros [] | done].
  + destruct (st =? 2); by intros [].
Qed.

(** A thread that waits marks the mutex as contended, or finds that it has changed. *)
Lemma owned_flip_cas t o h tm ow c mvalue w' l' :
  wf o -> wf (Some (Lockst ow c 1)) -> mvalue = W (Some (Lockst ow c 1)) -> depth o t = None -> h = 0 -> (tm = true -> allow = true) ->
  let l := Mloc h (OFlip tm (base ty sb) (shbit sb) mvalue) in
  exec (owned_code (Z.of_nat t) l (mpoint l)) (W o) = Some (w', l') ->
  ∃ o', w' = W o' ∧ owned_moved o t (Running l) o' (Running l').
Proof.
  intros Hwf Hwfm Hmv Hd Hh Htm l E. cbn [l mpoint owned_code exec] in E.
  destruct (Z.eqb_spec (W o) mvalue) as [Ew|Ew]; injection E as <- <-; subst mvalue.
  - apply (word_inj ty sb) in Ew as ->; [|done|done|done|done]. rewrite flip_word by done. exists (Some (Lockst ow c 2)). split; [done|].
    assert (Hwf2 : wf (Some (Lockst ow c 2))) by (cbn in Hwf |- *; lia).
    destruct tm; (apply owned_flips; [done | done | done |]); (split; [done|]); eauto.
  - exists o. split; [done|]. destruct tm; (apply owned_stays; [done | by rewrite Hd | by rewrite Hd |]).
    + intros Hal _. specialize (Htm eq_refl). congruence.
    + intros _ _. right. split; [by intros [] | done].
Qed.

Lemma owned_exec t o l w' l' :
  wf o -> 1 <= Z.of_nat t < 65536 -> owned_ok (depth o t) t (Running l) ->
  exec (mutex_code t l) (W o) = Some (w', l') ->
  ∃ o', w' = W o' ∧ owned_moved o t (Running l) o' (Running l').
Proof.
  intros Hwf Ht (Hh & Hok & _) E. destruct l as [h p]. cbn [held point] in Hh. cbn [mpoint point] in Hok.
  unfold mutex_code in E. cbn [mpoint] in E.
  destruct p; cbn [point_ok] in Hok; try done; try discriminate.
  - (* Enter *) injection E as <- <-. exists o. split; [done|]. apply lock_enter_ok; (done || lia).
  - (* IncCas *) destruct Hok as (c & st & Hd & Hc & Hst & ->). rewrite Hd in Hh. cbn [owned_code unlock_code exec] in E.
    destruct (Z.eqb_spec (W o) (W (Some (Lockst (Z.of_nat t) c st)))) as [Ew|Ew]; injection E as <- <-.
    + apply (word_inj ty sb) in Ew as ->; [|done|done|done|cbn; lia].
      exists (Some (Lockst (Z.of_nat t) (c + 1) st)). split; [apply (count_up ty sb Hty Hsb); cbn; lia|].
      replace (locked _) with (Mloc (h + (c + 1 - c)) (Idle 0)) by (unfold locked; cbn; f_equal; lia).
      apply owned_recounts; [lia | lia | lia | lia | intros [_ []]].
    + exists o. split; [done|]. apply owned_stays; [done | by rewrite Hd | rewrite Hd; exists c; split; [done | lia] | calm].
  - (* IncLoad *) destruct Hok as (c & Hd & Hc). injection E as <- <-. exists o. split; [done|].
    destruct (depth_word o t) as (c0 & st & -> & Hd'); [congruence|]. rewrite Hd in Hd'. simplify_eq.
    destruct Hwf as (Ho & Hcr & Hst). cbn in Ho, Hcr, Hst.
    apply owned_stays; [done | by rewrite Hd | | calm]. rewrite Hd. exists c0, st. split_and!; (done || lia).
  - (* OQuick *) destruct Hok as (Hd & -> & -> & Htm). rewrite Hd in Hh. cbn [owned_code unlock_code exec] in E. rewrite word_free in E by done.
    destruct o as [k|]; injection E as <- <-.
    + exists (Some k). split; [done|]. apply owned_stays; [done | by rewrite Hd | by rewrite Hd | calm].
    + exists (Some (Lockst (Z.of_nat t) 0 1)). split; [apply (owner_word_eq ty sb); lia|].
      apply owned_takes; [lia | done | lia | calm].
  - (* OTry *) destruct Hok as (Hd & ->). rewrite Hd in Hh. cbn [owned_code unlock_code exec] in E. rewrite word_free in E by done.
    destruct o as [k|]; injection E as <- <-.
    + exists (Some k). split; [done|]. apply owned_stays; [done | by rewrite Hd | done | calm].
    + exists (Some (Lockst (Z.of_nat t) 0 1)). split; [apply (owner_word_eq ty sb); lia|].
      apply owned_takes; [lia | done | lia | calm].
  - (* OLoad *) destruct Hok as (Hd & -> & -> & Htm). injection E as <- <-. exists o. split; [done|].
    destruct (lock_loop_ok (depth o t) t (Mloc h (OLoad timed (base ty sb) (shbit sb))) timed o) as (p & -> & Hp & Ha);
      [done | done | done | done |].
    apply owned_stays; [done | done | done |]. intros Hal _. right. apply Ha. destruct timed; [|done].
    specialize (Htm eq_refl). congruence.
  - (* OTake *) destruct Hok as (Hd & -> & -> & Htm). rewrite Hd in Hh. cbn [owned_code unlock_code exec] in E. rewrite word_free in E by done.
    destruct o as [k|]; injection E as <- <-.
    + exists (Some k). split; [done|]. destruct timed; (apply owned_stays; [done | by rewrite Hd | by rewrite Hd |]).
      * intros Hal _. specialize (Htm eq_refl). congruence.
      * intros _ _. right. split; [by intros [] | done].
    + exists (Some (Lockst (Z.of_nat t) 0 2)). split; [apply (owner_word_eq ty sb); lia|].
      apply owned_takes; [lia | done | lia | done].
  - (* OFlip *) destruct Hok as ((Hd & -> & -> & Htm) & ow & c & Hwfm & Hmv). rewrite Hd in Hh.
    by apply (owned_flip_cas t o h timed ow c mvalue).
  - (* OFlipLoad *) destruct Hok as (Hd & -> & -> & Htm). injection E as <- <-. exists o. split; [done|].
    apply owned_stays; [done | done | | calm]. split; [done|]. eauto.
  - (* UEnter *) injection E as <- <-. exists o. split; [done|]. apply unlock_enter_ok; (done || lia).
  - (* DecCas *) destruct Hok as (c & st & Hd & Hc & Hst & ->). rewrite Hd in Hh. cbn [owned_code unlock_code exec] in E.
    destruct (Z.eqb_spec (W o) (W (Some (Lockst (Z.of_nat t) c st)))) as [Ew|Ew]; injection E as <- <-.
    + apply (word_inj ty sb) in Ew as ->; [|done|done|done|cbn; lia].
      exists (Some (Lockst (Z.of_nat t) (c - 1) st)). split; [apply (count_down ty sb Hty Hsb); cbn; lia|].
      replace (Mloc (h - 1) (Idle 0)) with (Mloc (h + (c - 1 - c)) (Idle 0)) by (f_equal; lia).
      apply owned_recounts; [lia | lia | lia | lia | intros [_ []]].
    + exists o. split; [done|]. apply owned_stays; [done | by rewrite Hd | rewrite Hd; exists c; split; [done | lia] | calm].
  - (* DecLoad *) destruct Hok as (c & Hd & Hc). injection E as <- <-. exists o. split; [done|].
    destruct (depth_word o t) as (c0 & st & -> & Hd'); [congruence|]. rewrite Hd in Hd'. simplify_eq.
    destruct Hwf as (Ho & Hcr & Hst). cbn in Ho, Hcr, Hst.
    apply owned_stays; [done | by rewrite Hd | | calm]. rewrite Hd. exists c0, st. split_and!; (done || lia).
  - (* OSwap *) destruct Hok as (Hd & -> & ->). rewrite Hd in Hh. cbn [unlock_code exec] in E.
    rewrite (proj2 (base_bits ty sb Hsb)) in E. injection E as <- <-. exists None. split; [done|].
    by apply owned_swaps.
Qed.

Lemma owned_resume o t r l :
  wf o -> owned_ok (depth o t) t (Sleeping l) ->
  owned_moved o t (Sleeping l) o (resume mutex_code t r (Sleeping l)) ∧
  (r = 0 -> alert (resume mutex_code t r (Sleeping l))).
Proof.
  intros Hwf (Hh & Hok & Ha). destruct (Ha I) as (tm & mt & s & mv & Hp). destruct l as [h p]. cbn in Hp, Hh. subst p.
  cbn [point mpoint point_ok] in Hok. destruct Hok as ((Hd & -> & -> & Htm) & _).
  assert (E : resume mutex_code t r (Sleeping (Mloc h (OWait tm (base ty sb) (shbit sb) mv))) =
    Running (if tm && (r =? ETIMEDOUT) then Mloc h (Idle EBUSY) else Mloc h (OLoad tm (base ty sb) (shbit sb)))) by done.
  rewrite E. clear E. split.
  - split_and!; [done | done | | by left | by intros [] | by intros _ [[] _]].
    destruct (tm && (r =? ETIMEDOUT)); (split_and!; [done | try done; by rewrite Hd | by intros []]).
  - intros ->. destruct tm; cbn; (split; [by intros [] | done]).
Qed.

Lemma owned_moves strict t o w' th th' :
  wf o -> 1 <= Z.of_nat t < 65536 -> owned_ok (depth o t) t th ->
  move mutex_code (mutex_enter allow strict) t (W o) th w' th' ->
  ∃ o', w' = W o' ∧ owned_moved o t th o' th'.
Proof.
  intros Hwf Ht Hth Hm.
  inversion Hm as [w0 l w2 l2 E|w0 l k b E|w0 l u tm k E Hne|w0 l tm k E|w0 l|w0 l u k E|w0 l l2 E He]; subst.
  - by apply owned_exec.
  - destruct Hth as (Hh & Hok & _). destruct l as [h p]. cbn [point mpoint held] in *. exists o. split; [done|].
    destruct p; cbn [point_ok] in Hok; try done; unfold mutex_code in E; cbn [mpoint owned_code] in E; try discriminate;
      injection E as <-.
    + destruct Hok as (Hd & -> & -> & Htm). destruct b; (apply owned_stays; [done | done | first [done | by rewrite Hd] | calm]).
    + destruct Hok as ((Hd & -> & -> & Htm) & m & Hwfm & ->). specialize (Htm eq_refl).
      destruct b; [apply owned_stays; [done | done | done | calm]|].
      unfold MUTEX_STATE_BITS_IS_LOCKED_CONTENDED. rewrite word_state by done.
      change MUTEX_STATE_BITS_LOCKED_CONTENDED with 2. destruct (Z.eqb_spec (state_of m) 2) as [Em|Em].
      * apply owned_stays; [done | done | | calm]. rewrite Hd. split; [done|]. destruct m as [[mo mc ms]|]; [|done].
        cbn in Em. subst ms. eauto.
      * destruct (lock_loop_ok (depth o t) t (Mloc h (OClock (base ty sb) (shbit sb) (W m))) true m) as (p & -> & Hp & _);
          [done | done | done | done |]. apply owned_stays; [done | done | done | calm].
  - destruct Hth as (Hh & Hok & _). destruct l as [h p]. cbn [point mpoint held] in *. exists o. split; [done|].
    destruct p; cbn [point_ok] in Hok; try done; unfold mutex_code in E; cbn [mpoint owned_code] in E; try discriminate.
    injection E as _ _ <-. destruct Hok as ((Hd & -> & -> & Htm) & _).
    replace (timed && (- EAGAIN =? ETIMEDOUT)) with false by (by destruct timed).
    apply owned_stays; [done | done | by rewrite Hd |]. intros _ _. right. split; [by intros [] | done].
  - pose proof Hth as (Hh & Hok & _). destruct l as [h p]. cbn [point mpoint held] in *. exists o. split; [done|].
    destruct p; cbn [point_ok] in Hok; try done; unfold mutex_code in E; cbn [mpoint owned_code] in E; try discriminate.
    destruct Hok as (Hhere & ow & c & Hwfm & Hmv). injection E as E _ _. rewrite Hmv in E.
    apply (word_inj ty sb) in E as <-; [|done|done|done|done].
    split_and!; [done | done | | by left | done | by left].
    split_and!; [done | | intros _; cbn; eauto]. cbn [point mpoint point_ok]. eauto.
  - exists o. split; [done|]. by apply owned_resume.
  - exists o. split; [done|]. by apply owned_resume.
  - exists o. split; [done|]. destruct Hth as (Hh & Hok & _). inversion He; subst; cbn [point held] in Hh;
      (apply owned_stays; [done | done | done | calm]).
Qed.

Record owned_inv (w : Z) (T : gmap nat (thread mloc)) (o : option lockst) : Prop := OwnedInv {
  wi_word : w = W o;
  wi_wf : wf o;
  wi_each : ∀ t th, T !! t = Some th -> 1 <= Z.of_nat t < 65536 ∧ owned_ok (depth o t) t th;
  wi_owner : ∀ t, depth o t <> None -> is_Some (T !! t);
  wi_woken : allow = false -> ∀ t l, T !! t = Some (Sleeping l) ->
    contended o ∨ ∃ t' th, T !! t' = Some th ∧ alert th
}.

Lemma owned_step_inv strict w T o w' T' :
  owned_inv w T o -> mutexstep allow strict (w, T) (w', T') -> ∃ o', owned_inv w' T' o'.
Proof.
  intros [-> Hwf He Ho Hk] Hstep.
  inversion Hstep as [w0 T0 t th w2 th' Ht Hm|w0 T0 t l n k ws Ht Hcode Hmay]; subst.
  - destruct (He _ _ Ht) as [Hid Hth].
    destruct (owned_moves strict t o w' th th' Hwf Hid Hth Hm) as (o' & -> & Hwf' & Hdep & Hok & Hlow & Hsl & Hal).
    exists o'. split; [done | done | | |].
    + intros x y [[<- <-]|[Hne Hx]]%lookup_insert_Some; [done|]. rewrite Hdep by done. by apply He.
    + intros x Hx. destruct (decide (x = t)) as [->|]; [rewrite lookup_insert_eq; eauto|].
      rewrite lookup_insert_ne by done. apply Ho. by rewrite <- Hdep.
    + intros Hallow x l [[<- ->]|[Hne Hx]]%lookup_insert_Some; [left; by apply Hsl|].
      assert (Hcase : contended o' ∨ alert th' ∨ ∃ t1 th1, t1 <> t ∧ T !! t1 = Some th1 ∧ alert th1).
      { destruct (Hk Hallow x l Hx) as [H2|(t1 & th1 & Ht1 & Ha)]; [naive_solver|].
        destruct (decide (t1 = t)) as [->|]; [rewrite Ht in Ht1; simplify_eq; naive_solver | naive_solver]. }
      destruct Hcase as [?|[?|(t1 & th1 & Hn1 & Ht1 & Ha)]]; [by left | right; exists t, th' | right; exists t1, th1].
      * by rewrite lookup_insert_eq.
      * by rewrite lookup_insert_ne.
  - exists o. destruct (He _ _ Ht) as [Hid (Hhl & Hokl & _)]. destruct l as [h p]. cbn [point mpoint held] in *.
    destruct p; cbn [point_ok] in Hokl; try done; unfold mutex_code in Hcode; cbn [mpoint owned_code unlock_code] in Hcode;
      try discriminate. injection Hcode as <- <-.
    assert (Hres : ∀ y ly, T !! y = Some (Sleeping ly) ->
      owned_ok (depth o y) y (resume mutex_code y 0 (Sleeping ly)) ∧ alert (resume mutex_code y 0 (Sleeping ly)) ∧
      ∃ v b k, mutex_code y ly = Wait v b k).
    { intros y ly Hy. destruct (He _ _ Hy) as [_ Hly]. destruct (owned_resume o y 0 ly Hwf Hly) as [(_ & _ & Hr & _) Ha].
      split_and!; [done | by apply Ha|]. destruct Hly as (_ & _ & Hs). destruct (Hs I) as (? & ? & ? & ? & Hp).
      cbn in Hp. unfold mutex_code. rewrite Hp. cbn. eauto. }
    split; [done | done | | |].
    + intros x y [[<- <-]|[Hne Hx]]%lookup_insert_Some; [split; [done|]; by split_and!; [| | intros []]|].
      rewrite wake_set_lookup in Hx. destruct (T !! x) as [z|] eqn:Hz; [|done]. cbn in Hx. injection Hx as <-.
      destruct (He _ _ Hz) as [Hidz Hokz]. split; [done|]. case_decide; [|done]. destruct z as [lz|lz]; [done|].
      by apply Hres.
    + intros x Hx. destruct (decide (x = t)) as [->|]; [rewrite lookup_insert_eq; eauto|].
      rewrite lookup_insert_ne, wake_set_lookup by done. destruct (Ho x Hx) as [z ->]. cbn. eauto.
    + intros Hallow x lx Hx. right. destruct (wake_one_wakes mutex_code ws T t _ x lx Hmay Hx) as (y & ly & Hy & Hwy).
      { intros y ly Hy. by apply Hres. }
      exists y, (resume mutex_code y 0 (Sleeping ly)). rewrite lookup_insert_ne by congruence. split; [done|]. by apply Hres.
Qed.
End Owned.
