(* ===== verification/PMutexSafe.v ===== *)
(** * What mutexes guarantee ([libc/bionic/pthread.c])

    The properties of [PMutex] for every type of mutex, from the invariants of
    [PMutexNormal] and [PMutexOwned], and the failure of time-outs. *)
From stdpp Require Import base gmap list.
From Stdlib Require Import ZArith Lia.
From S2P Require Import Prelude Refs Futex PMutex PMutexNormal PMutexOwned.
#[local] Open Scope Z_scope.

(** A mutex of the normal type. *)
Definition is_normal (w : Z) : Prop := Z.land w MUTEX_TYPE_MASK = MUTEX_TYPE_BITS_NORMAL.

(** What [pthread_mutex_init] can make. *)
Lemma mutex_init_cases attr w :
  pthread_mutex_init attr = inr w ->
  (is_normal w ∧ (w = 0 ∨ w = MUTEX_SHARED_MASK)) ∨
  (~ is_normal w ∧ ∃ ty sb, 1 <= ty <= 2 ∧ 0 <= sb <= 1 ∧ w = base ty sb).
Proof.
  destruct attr as [a|]; cbn [pthread_mutex_init]; [|intros [= <-]; left; split; [done | by left]].
  set (sb := if negb (Z.land a MUTEXATTR_SHARED_MASK =? 0) then 1 else 0).
  assert (Hv : (if negb (Z.land a MUTEXATTR_SHARED_MASK =? 0) then Z.lor 0 MUTEX_SHARED_MASK else 0) = shbit sb).
  { subst sb. by case_match. }
  rewrite Hv. assert (Hsb : sb = 0 ∨ sb = 1) by (subst sb; case_match; lia). clearbody sb. clear Hv.
  repeat case_match; intros [= <-].
  - left. destruct Hsb as [->| ->]; split; try done; [by left | by right].
  - right. split; [by destruct Hsb as [->| ->]|]. exists 1, sb. split_and!; try lia. by destruct Hsb as [->| ->].
  - right. split; [by destruct Hsb as [->| ->]|]. exists 2, sb. split_and!; try lia. by destruct Hsb as [->| ->].
Qed.

Lemma depth_owner ow c st : wf (Some (Lockst ow c st)) -> depth (Some (Lockst ow c st)) (Z.to_nat ow) = Some c.
Proof. intros (Ho & _). cbn in Ho. cbn. rewrite (proj2 (Z.eqb_eq _ _)); [done | lia]. Qed.

Section Reachable.
Variables (attr : option Z) (w0 : Z) (threads : gset nat) (timed strict : bool) (w : Z) (T : gmap nat (thread mloc)).
Hypothesis Hinit : pthread_mutex_init attr = inr w0.
Hypothesis Hids : set_Forall (λ t, 1 <= Z.of_nat t < 65536) threads.
Hypothesis Hstrict : strict = true ∨ ~ is_normal w0.
Hypothesis Hreach : rtc (mutexstep timed strict) (mutex_start w0 threads) (w, T).

Lemma mutex_reachable :
  (is_normal w0 ∧ ∃ S st, (S = 0 ∨ S = MUTEX_SHARED_MASK) ∧ normal_inv S w T st) ∨
  (~ is_normal w0 ∧ ∃ ty sb o, 1 <= ty <= 2 ∧ 0 <= sb <= 1 ∧ w0 = base ty sb ∧ owned_inv ty sb timed w T o).
Proof.
  destruct (mutex_init_cases attr w0 Hinit) as [[Hn HS]|[Hn (ty & sb & Hty & Hsb & ->)]]; [left | right]; (split; [done|]).
  - destruct Hstrict as [->|]; [|done]. exists w0.
    cut (∃ st, normal_inv w0 w T st); [naive_solver|].
    apply (invariant _ _ (λ s, ∃ st, normal_inv w0 s.1 s.2 st) _ (w, T)) in Hreach; [done| |].
    + intros [wa Ta] [wb Tb] [st Ha] Hst. by apply (normal_step_inv w0 timed wa Ta st).
    + exists 0. split; cbn; [lia | by left | | by apply total_start |].
      * intros t th [_ <-]%lookup_gset_to_gmap_Some. by split_and!; [| | intros []].
      * intros t l [_ ?]%lookup_gset_to_gmap_Some. done.
  - exists ty, sb. cut (∃ o, owned_inv ty sb timed w T o); [naive_solver|].
    apply (invariant _ _ (λ s, ∃ o, owned_inv ty sb timed s.1 s.2 o) _ (w, T)) in Hreach; [done| |].
    + intros [wa Ta] [wb Tb] [o Ha] Hst. by apply (owned_step_inv ty sb timed Hty Hsb strict wa Ta o).
    + exists None. split; cbn; [done | done | | done |].
      * intros t th [Ht <-]%lookup_gset_to_gmap_Some. split; [by apply Hids|]. by split_and!; [| | intros []].
      * intros _ t l [_ ?]%lookup_gset_to_gmap_Some. done.
Qed.
End Reachable.

(** C6. Mutual exclusion, for every type of mutex and whatever the threads do with the
    lock, the try-lock, the lock with a time-out and the unlock, as long as a normal mutex
    is unlocked only by its holder: at any time at most one thread holds it. *)
Theorem pmutex_exclusion attr w0 threads timed strict w T t1 th1 t2 th2 :
  pthread_mutex_init attr = inr w0 -> set_Forall (λ t, 1 <= Z.of_nat t < 65536) threads ->
  strict = true ∨ ~ is_normal w0 ->
  rtc (mutexstep timed strict) (mutex_start w0 threads) (w, T) ->
  T !! t1 = Some th1 -> T !! t2 = Some th2 -> 0 < held (point th1) -> 0 < held (point th2) -> t1 = t2.
Proof.
  intros Hi Hids Hs Hr H1 H2 Hp1 Hp2.
  destruct (mutex_reachable attr w0 threads timed strict w T Hi Hids Hs Hr)
    as [[_ (S & st & HS & [_ Hst He Hh _])]|[_ (ty & sb & o & Hty & Hsb & _ & [_ Hwf He _ _])]].
  - destruct (decide (t1 = t2)) as [|Hne]; [done|].
    assert (Hnn : positive held T) by (intros t th Ht; by destruct (He _ _ Ht)).
    pose proof (total_two held T t1 th1 t2 th2 Hnn H1 H2 Hne). rewrite Hh in *. unfold holders in *. case_match; lia.
  - destruct (He _ _ H1) as [_ (E1 & _)]. destruct (He _ _ H2) as [_ (E2 & _)].
    destruct (depth_word o t1) as (c1 & st1 & -> & _); [intros E; rewrite E in E1; lia|].
    destruct (decide (t2 = t1)) as [|Hne]; [done|]. rewrite depth_other in E2 by done. lia.
Qed.

(** For a recursive or error-checking mutex the word tells the truth: its owner field
    is the thread that holds the mutex, its counter how often it does, less one, and the
    word is that of an unlocked mutex exactly when no thread holds it. *)
Theorem pmutex_word_truth attr w0 threads timed strict w T :
  pthread_mutex_init attr = inr w0 -> set_Forall (λ t, 1 <= Z.of_nat t < 65536) threads ->
  ~ is_normal w0 -> rtc (mutexstep timed strict) (mutex_start w0 threads) (w, T) ->
  (∀ t th, T !! t = Some th -> 0 < held (point th) ->
     MUTEX_OWNER_FROM_BITS w = Z.of_nat t ∧ Z.land w MUTEX_COUNTER_MASK = (held (point th) - 1) * MUTEX_COUNTER_BITS_ONE) ∧
  (w = w0 <-> ∀ t th, T !! t = Some th -> held (point th) = 0).
Proof.
  intros Hi Hids Hn Hr.
  destruct (mutex_reachable attr w0 threads timed strict w T Hi Hids (or_intror Hn) Hr)
    as [[? _]|[_ (ty & sb & o & Hty & Hsb & -> & [-> Hwf He Hown _])]]; [done|]. split.
  - intros t th Ht Hp. destruct (He _ _ Ht) as [_ (E & _)].
    destruct (depth_word o t) as (c & st & -> & Hd); [intros E'; rewrite E' in E; lia|].
    rewrite word_owner, word_count, E, Hd by done. cbn. change MUTEX_COUNTER_BITS_ONE with 4. lia.
  - change (base ty sb) with (word ty sb None). split.
    + intros E. apply word_inj in E as ->; [|done..]. intros t th Ht. destruct (He _ _ Ht) as [_ (Eh & _)]. exact Eh.
    + intros Hall. destruct o as [[ow c st]|]; [|done]. exfalso.
      pose proof (depth_owner ow c st Hwf) as Hd. destruct Hwf as (Ho & Hc & _). cbn in Ho, Hc.
      destruct (Hown (Z.to_nat ow)) as [th Ht]; [congruence|]. destruct (He _ _ Ht) as [_ (E & _)]. rewrite Hd in E.
      rewrite (Hall _ _ Ht) in E. lia.
Qed.

(** C27. Nobody is orphaned on the wait queue of a mutex: for a normal mutex, and for the
    other types when no time-outs are used, a thread sleeps only while the mutex is marked
    as contended and some thread holds it, so that its unlock will wake a sleeper, or
    while another thread inside a call is about to mark it so, or to wake a sleeper. *)
Theorem pmutex_no_lost_wakeup attr w0 threads timed strict w T t l :
  pthread_mutex_init attr = inr w0 -> set_Forall (λ t, 1 <= Z.of_nat t < 65536) threads ->
  is_normal w0 ∧ strict = true ∨ ~ is_normal w0 ∧ timed = false ->
  rtc (mutexstep timed strict) (mutex_start w0 threads) (w, T) -> T !! t = Some (Sleeping l) ->
  (MUTEX_STATE_BITS_IS_LOCKED_CONTENDED w = true ∧ ∃ t' th, T !! t' = Some th ∧ 0 < held (point th)) ∨
  (∃ t' l', T !! t' = Some (Running l') ∧ mutex_code t' l' <> Stop).
Proof.
  intros Hi Hids Hcase Hr Ht.
  assert (Hs : strict = true ∨ ~ is_normal w0) by naive_solver.
  destruct (mutex_reachable attr w0 threads timed strict w T Hi Hids Hs Hr)
    as [[_ (S & st & HS & [-> Hst He Hh Hk])]|[Hn (ty & sb & o & Hty & Hsb & _ & [-> Hwf He Hown Hk])]].
  - destruct (Hk t l Ht) as [->|(t' & th & Ht' & Ha)]; [left | right].
    + split; [by destruct HS as [->| ->]|]. apply total_pos; [|rewrite Hh; done].
      intros x y Hx. by destruct (He _ _ Hx).
    + destruct Ha as [Ha Hp]. destruct th as [l'|l']; [|by destruct Ha]. exists t', l'. split; [done|].
      unfold mutex_code. cbn in Hp. by destruct (mpoint l').
  - destruct Hcase as [[? _]|[_ ->]]; [done|].
    destruct (Hk eq_refl t l Ht) as [Hc|(t' & th & Ht' & Ha)]; [left | right].
    + unfold contended in Hc. split.
      { unfold MUTEX_STATE_BITS_IS_LOCKED_CONTENDED. rewrite word_state by done. by rewrite Hc. }
      destruct o as [[ow c st]|]; [|done]. pose proof (depth_owner ow c st Hwf) as Hd.
      destruct Hwf as (Ho & Hcr & _). cbn in Ho, Hcr.
      destruct (Hown (Z.to_nat ow)) as [th Ht']; [congruence|]. exists (Z.to_nat ow), th. split; [done|].
      destruct (He _ _ Ht') as [_ (E & _)]. rewrite Hd in E. lia.
    + destruct Ha as [Ha Hp]. destruct th as [l'|l']; [|by destruct Ha]. exists t', l'. split; [done|].
      unfold mutex_code. cbn in Hp. by destruct (mpoint l').
Qed.

(** ** Runs *)

(** The recursive mutex of the initialiser macro. *)
Definition recursive0 : Z := 0x4000.
Lemma recursive0_init : pthread_mutex_init (Some PTHREAD_MUTEX_RECURSIVE) = inr recursive0.
Proof. reflexivity. Qed.
Lemma recursive0_owned : ~ is_normal recursive0.
Proof. discriminate. Qed.
Definition three : gset nat := {[1%nat; 2%nat; 3%nat]}.
Lemma three_ids : set_Forall (λ t, 1 <= Z.of_nat t < 65536) three.
Proof. unfold three. intros x Hx. set_unfold in Hx. lia. Qed.

(** Thread 1 locks the mutex twice and thread 2 sleeps. *)
Lemma mutex_sample :
  ∃ w T, rtc (mutexstep false false) (mutex_start recursive0 three) (w, T) ∧
    (∃ l, T !! 1%nat = Some (Running l) ∧ held l = 2) ∧ ∃ l, T !! 2%nat = Some (Sleeping l).
Proof.
  eexists _, _. split.
  - calls 1%nat (enter_lock false false 1 0 0 Lock); [done|]. go 1%nat. go 1%nat.
    calls 1%nat (enter_lock false false 1 1 0 Lock); [done|]. go 1%nat. go 1%nat.
    calls 2%nat (enter_lock false false 2 0 0 Lock); [done|]. go 2%nat. go 2%nat. sleeps 2%nat. apply rtc_refl.
  - split; eexists; [split|]; reflexivity.
Qed.

Lemma pmutex_exclusion_witness :
  ∃ T : gmap nat (thread mloc), ∀ t th, T !! t = Some th -> 0 < held (point th) -> t = 1%nat.
Proof.
  destruct mutex_sample as (w & T & Hr & (l & Hl & Hh) & _). exists T. intros t th Ht Hp.
  apply (pmutex_exclusion (Some PTHREAD_MUTEX_RECURSIVE) recursive0 three false false w T t th 1 (Running l));
    [reflexivity | exact three_ids | right; exact recursive0_owned | exact Hr | exact Ht | exact Hl | exact Hp |].
  cbn. lia.
Defined.

Lemma pmutex_word_truth_witness :
  ∃ w, MUTEX_OWNER_FROM_BITS w = 1 ∧ Z.land w MUTEX_COUNTER_MASK = MUTEX_COUNTER_BITS_ONE.
Proof.
  destruct mutex_sample as (w & T & Hr & (l & Hl & Hh) & _). exists w.
  destruct (pmutex_word_truth (Some PTHREAD_MUTEX_RECURSIVE) recursive0 three false false w T) as [Ht _];
    [reflexivity | exact three_ids | exact recursive0_owned | exact Hr |].
  destruct (Ht 1%nat (Running l) Hl) as [E1 E2]; [cbn; lia|]. cbn in E2. rewrite Hh in E2. split; [exact E1 | exact E2].
Defined.

Lemma pmutex_no_lost_wakeup_witness :
  ∃ (w : Z) (T : gmap nat (thread mloc)), (∃ l, T !! 2%nat = Some (Sleeping l)) ∧
    ((MUTEX_STATE_BITS_IS_LOCKED_CONTENDED w = true ∧ ∃ t' th, T !! t' = Some th ∧ 0 < held (point th)) ∨
     (∃ t' l', T !! t' = Some (Running l') ∧ mutex_code t' l' <> Stop)).
Proof.
  destruct mutex_sample as (w & T & Hr & _ & l & Hl). exists w, T. split; [eauto|].
  apply (pmutex_no_lost_wakeup (Some PTHREAD_MUTEX_RECURSIVE) recursive0 three false false w T 2 l);
    [reflexivity | exact three_ids | right; split; [exact recursive0_owned | reflexivity] | exact Hr | exact Hl].
Defined.

(** C39. Time-outs lose wake-ups on recursive and error-checking mutexes.  Thread 3 sleeps
    in the lock with a time-out and thread 2 in the plain one; the unlock of thread 1 wakes
    thread 3, which finds the mutex free; thread 1 takes it again first, without marking
    it; thread 3 gives up because its time is over, and the next unlock of thread 1 wakes
    nobody.  Thread 2 sleeps on a free mutex that no thread holds, wants or will unlock. *)
Theorem pmutex_timeout_strands :
  ∃ T, rtc (mutexstep true true) (mutex_start recursive0 three) (recursive0, T) ∧
    (∃ l, T !! 2%nat = Some (Sleeping l)) ∧ T !! 1%nat = Some (Running (Mloc 0 (Idle 0))) ∧
    T !! 3%nat = Some (Running (Mloc 0 (Idle EBUSY))).
Proof.
  eexists. split.
  - calls 1%nat (enter_lock true true 1 0 0 Lock); [done|]. go 1%nat. go 1%nat.
    calls 3%nat (enter_lock true true 3 0 0 TimedLock); [done|]. go 3%nat. go 3%nat. clock 3%nat false. sleeps 3%nat.
    calls 2%nat (enter_lock true true 2 0 0 Lock); [done|]. go 2%nat. sleeps 2%nat.
    calls 1%nat (enter_unlock true true 1 1 0); [done|]. go 1%nat. go 1%nat. wakes 1%nat 3%nat. go 3%nat.
    calls 1%nat (enter_lock true true 1 0 0 Lock); [done|]. go 1%nat. go 1%nat.
    go 3%nat. clock 3%nat true.
    calls 1%nat (enter_unlock true true 1 1 0); [done|]. go 1%nat. go 1%nat. apply rtc_refl.
  - split; [eexists; reflexivity|]. split; reflexivity.
Qed.
