(* ===== verification/Cond.v ===== *)
(** * Condition variables ([libc/bionic/pthread.c])

    The word of a condition variable is a counter above a flag for sharing.  A waiter
    reads it while it holds the mutex of the client, unlocks the mutex and sleeps if the
    word is still the same; [pthread_cond_broadcast] and [_signal] count it down and wake
    sleepers.  Every access to the word is a step of the machine of [Futex]; unlocking and
    locking the mutex are steps without an access.  A program point has, next to the place
    in the code, how often the thread pulsed the variable; a waiter also remembers how
    many pulses there were when it read the word. *)
From stdpp Require Import base gmap list.
From Stdlib Require Import ZArith Lia.
From S2P Require Import Prelude Refs Futex.
#[local] Open Scope Z_scope.

(** ** Attributes *)
Definition pthread_condattr_init : Z := 0.
Definition pthread_condattr_setpshared (attr pshared : Z) : Z + Z :=
  if negb (pshared =? 1) && negb (pshared =? 0) then inl EINVAL else inr pshared.

Definition COND_SHARED_MASK : Z := 0x0001.
Definition COND_COUNTER_INCREMENT : Z := 0x0002.
Definition COND_COUNTER_MASK : Z := Z.lnot COND_SHARED_MASK.

Definition pthread_cond_init (attr : option Z) : Z :=
  let value := 0 in
  match attr with Some a => if a =? 1 then Z.lor value COND_SHARED_MASK else value | None => value end.

Inductive cpc :=
| Out (r : Z)
| WaitLoad | WaitUnlock (oldvalue : Z) | WaitFutex (oldvalue : Z) | WaitLock (status : Z)
| PulseFlags (counter : Z) | PulseLoad (counter flags : Z) | PulseCas (counter flags oldval : Z) | PulseWake (counter : Z).
Record cloc := Cloc { pulsed : Z; cpoint : cpc }.
Definition goes (l : cloc) (p : cpc) : cloc := Cloc (pulsed l) p.

(** [__pthread_cond_timedwait_relative], and [__pthread_cond_pulse]; [timed] is false in
    [pthread_cond_wait]. *)
Definition cond_code (timed : bool) (t : nat) (l : cloc) : instr cloc :=
  match cpoint l with
  | Out _ => Stop
  | WaitLoad => Load (λ w, goes l (WaitUnlock w))
  | WaitUnlock oldvalue => Local (goes l (WaitFutex oldvalue))
  | WaitFutex oldvalue => Wait oldvalue timed (λ status, goes l (WaitLock status))
  | WaitLock status => Local (goes l (Out (if status =? - ETIMEDOUT then ETIMEDOUT else 0)))
  | PulseFlags counter => Load (λ w, goes l (PulseLoad counter (Z.land w (Z.lnot COND_COUNTER_MASK))))
  | PulseLoad counter flags => Load (λ w, goes l (PulseCas counter flags w))
  | PulseCas counter flags oldval =>
      let newval := Z.lor (Z.land (u32 (oldval - COND_COUNTER_INCREMENT)) COND_COUNTER_MASK) flags in
      Cmpxchg oldval newval
        (λ r, if r =? 0 then Cloc (pulsed l + 1) (PulseWake counter) else goes l (PulseLoad counter flags))
  | PulseWake counter => Wake counter (goes l (Out 0))
  end.

(** The calls: a wait, and a broadcast.  *)
Inductive cond_enter (t : nat) : cloc -> cloc -> Prop :=
| enter_wait n r : cond_enter t (Cloc n (Out r)) (Cloc n WaitLoad)
| enter_broadcast n r : cond_enter t (Cloc n (Out r)) (Cloc n (PulseFlags INT_MAX)).

Definition condstep (timed : bool) := step (cond_code timed) cond_enter.
Definition cond_start (w : Z) (threads : gset nat) : Z * gmap nat (thread cloc) :=
  (w, gset_to_gmap (Running (Cloc 0 (Out 0))) threads).

(** ** The word after [n] pulses *)
Definition cword (sh n : Z) : Z := u32 (- 2 * n) + sh.

Lemma cword_even n : ∃ h, u32 (- 2 * n) = 2 * h ∧ 0 <= 2 * h < 2 ^ 32 - 1.
Proof.
  exists ((- n) mod 2 ^ 31). unfold u32. replace (- 2 * n) with (2 * - n) by lia. replace (2 ^ 32) with (2 * 2 ^ 31) by lia.
  rewrite Zmult_mod_distr_l. pose proof (Z.mod_pos_bound (- n) (2 ^ 31)). lia.
Qed.
Lemma land_counter a sh : 0 <= sh <= 1 -> Z.land (2 * a + sh) COND_COUNTER_MASK = 2 * a.
Proof.
  intros Hsh. change COND_COUNTER_MASK with (Z.lnot (2 ^ 1 - 1)). rewrite land_lnot_ones by lia.
  change (2 ^ 1) with 2. rewrite (Z.mul_comm 2 a), Z.div_add_l, (Z.div_small sh) by lia. lia.
Qed.
Lemma land_flag a sh : 0 <= sh <= 1 -> Z.land (2 * a + sh) (Z.lnot COND_COUNTER_MASK) = sh.
Proof.
  intros Hsh. change (Z.lnot COND_COUNTER_MASK) with (Z.ones 1). rewrite Z.land_ones by lia. change (2 ^ 1) with 2.
  rewrite (Z.mul_comm 2 a), Z.add_comm, Z.mod_add by lia. apply Z.mod_small. lia.
Qed.
Lemma lor_even a sh : 0 <= sh <= 1 -> Z.lor (2 * a) sh = 2 * a + sh.
Proof. intros Hsh. rewrite (Z.mul_comm 2 a). apply (lor_low a sh 1); lia. Qed.

Section Word.
Variable sh : Z.
Hypothesis Hsh : 0 <= sh <= 1.

Lemma cword_flag n : Z.land (cword sh n) (Z.lnot COND_COUNTER_MASK) = sh.
Proof. unfold cword. destruct (cword_even n) as (h & -> & _). by apply land_flag. Qed.
Lemma cword_down n :
  Z.lor (Z.land (u32 (cword sh n - COND_COUNTER_INCREMENT)) COND_COUNTER_MASK) sh = cword sh (n + 1).
Proof.
  assert (E : u32 (cword sh n - COND_COUNTER_INCREMENT) = u32 (- 2 * (n + 1)) + sh).
  { unfold cword, COND_COUNTER_INCREMENT. destruct (cword_even (n + 1)) as (h & Eh & Hh).
    rewrite <- (u32_small (u32 (- 2 * (n + 1)) + sh)) by lia. unfold u32. rewrite Zplus_mod_idemp_l.
    replace ((- 2 * n) mod 2 ^ 32 + sh - 2) with ((- 2 * n) mod 2 ^ 32 + (sh - 2)) by lia.
    rewrite Zplus_mod_idemp_l. f_equal. lia. }
  rewrite E. unfold cword. destruct (cword_even (n + 1)) as (h & -> & _). rewrite land_counter by done. by apply lor_even.
Qed.
(** Fewer than 2^31 pulses apart, words differ. *)
Lemma cword_inj n m : n <= m < n + 2 ^ 31 -> cword sh n = cword sh m -> n = m.
Proof.
  intros Hr E. unfold cword, u32 in E. assert (E' : (- 2 * n) mod 2 ^ 32 = (- 2 * m) mod 2 ^ 32) by lia.
  assert (Hd : (2 * (m - n)) mod 2 ^ 32 = 0).
  { replace (2 * (m - n)) with (- 2 * n - - 2 * m) by lia. rewrite Zminus_mod, E', Z.sub_diag. done. }
  rewrite Z.mod_small in Hd; lia.
Qed.
End Word.

(** ** The invariant *)

(** [n] pulses were made. *)
Definition cond_ok (sh n : Z) (th : thread cloc) : Prop :=
  match cpoint (point th) with
  | WaitUnlock v | WaitFutex v => ∃ m, 0 <= m <= n ∧ v = cword sh m
  | PulseFlags c | PulseWake c => c = INT_MAX
  | PulseLoad c f | PulseCas c f _ => c = INT_MAX ∧ f = sh
  | _ => True
  end ∧ (asleep th -> ∃ v, cpoint (point th) = WaitFutex v).
Definition to_wake (th : thread cloc) : Prop := ~ asleep th ∧ cpoint (point th) = PulseWake INT_MAX.

Record cond_inv (sh w : Z) (T : gmap nat (thread cloc)) (n : Z) : Prop := CondInv {
  ci_word : w = cword sh n;
  ci_count : n = total pulsed T;
  ci_nonneg : 0 <= n;
  ci_each : ∀ t th, T !! t = Some th -> cond_ok sh n th;
  ci_woken : ∀ t l, T !! t = Some (Sleeping l) ->
    cpoint l = WaitFutex w ∨ ∃ t' th, T !! t' = Some th ∧ to_wake th
}.

Definition cond_moved (sh n : Z) (th : thread cloc) (n' : Z) (th' : thread cloc) : Prop :=
  n <= n' ∧ n' - n = pulsed (point th') - pulsed (point th) ∧ cond_ok sh n' th' ∧
  (n' <> n -> to_wake th') ∧ (asleep th' -> cpoint (point th') = WaitFutex (cword sh n')) ∧ ~ to_wake th.

Section Moves.
Variable sh : Z.
Hypothesis Hsh : 0 <= sh <= 1.

#[local] Ltac settle :=
  unfold cond_moved, cond_ok, to_wake; cbn; split_and!;
  first [done | lia | (eexists; split; [|reflexivity]; lia) | naive_solver lia].

Lemma cond_moves timed t n w' th th' :
  0 <= n -> cond_ok sh n th -> move (cond_code timed) cond_enter t (cword sh n) th w' th' ->
  ∃ n', w' = cword sh n' ∧ cond_moved sh n th n' th'.
Proof.
  intros Hn [Hok Hs] Hm.
  inversion Hm as [w0 l w2 l2 E|w0 l k b E|w0 l u tm k E Hne|w0 l tm k E|w0 l|w0 l u k E|w0 l l2 E He]; subst.
  all: destruct l as [p q]; cbn in Hok, Hs.
  - destruct q as [r|v|v|v|v|c|c f|c f v|c]; cbn in E; try discriminate; simplify_eq.
    + exists n. split; [done|]. settle.
    + exists n. split; [done|]. settle.
    + exists n. split; [done|]. settle.
    + exists n. split; [done|]. rewrite (cword_flag sh Hsh). settle.
    + exists n. split; [done|]. settle.
    + destruct Hok as [-> ->]. destruct (Z.eqb_spec (cword sh n) v); simplify_eq.
      * exists (n + 1). split; [by apply cword_down|]. settle.
      * exists n. split; [done|]. settle.
  - destruct q; cbn in E; discriminate.
  - destruct q; cbn in E; try discriminate. simplify_eq. exists n. split; [done|]. settle.
  - destruct q; cbn in E; try discriminate. simplify_eq. exists n. split; [done|]. settle.
  - destruct (Hs I) as [v ->]. exists n. split; [done|]. settle.
  - destruct (Hs I) as [v ->]. exists n. split; [done|]. settle.
  - inversion He; subst; exists n; (split; [done|]); settle.
Qed.
End Moves.

Lemma cond_ok_mono sh n n' th : n <= n' -> cond_ok sh n th -> cond_ok sh n' th.
Proof. intros Hn [Hok Hs]. split; [|done]. case_match; naive_solver lia. Qed.

Lemma cond_step_inv timed sh w T n w' T' :
  0 <= sh <= 1 -> Z.of_nat (size T) < INT_MAX -> cond_inv sh w T n -> condstep timed (w, T) (w', T') ->
  ∃ n', cond_inv sh w' T' n' ∧ size T' = size T.
Proof.
  intros Hsh Hsz [-> Hc Hnn He Hk] Hst.
  inversion Hst as [w0 T0 t th w2 th' Ht Hm|w0 T0 t l c k ws Ht Hcode Hmay]; subst w0 T0.
  - destruct (cond_moves sh Hsh timed t n w' th th' Hnn (He _ _ Ht) Hm) as (n' & -> & Hle & Hd & Hok & Hnew & Hsl & Hnw).
    exists n'. subst. split; [|apply map_size_insert_Some; eauto]. split; [done | | lia | |].
    + rewrite (total_update _ T t th th' Ht). lia.
    + intros x y [[<- <-]|[_ Hx]]%lookup_insert_Some; [done|]. apply (cond_ok_mono _ (total pulsed T)); [done|]. by apply (He x).
    + intros x l [[<- ->]|[Hne Hx]]%lookup_insert_Some; [left; by apply Hsl|].
      destruct (decide (n' = total pulsed T)) as [->|Hn']; [|right; exists t, th'; rewrite lookup_insert_eq; by auto].
      destruct (Hk x l Hx) as [?|(t' & th1 & Ht' & Hw1)]; [by left|]. right. exists t', th1.
      rewrite lookup_insert_ne; [done|]. intros ->. rewrite Ht in Ht'. by simplify_eq.
  - subst. exists (total pulsed T). destruct l as [m q]. pose proof (He _ _ Ht) as [Hokl _]. cbn in Hokl.
    destruct q; cbn in Hcode; try discriminate. simplify_eq.
    assert (Hcw : ∀ y ly, T !! y = Some (Sleeping ly) -> ∃ v, cpoint ly = WaitFutex v).
    { intros y ly Hy. destruct (He _ _ Hy) as [_ Ha]. by apply Ha. }
    assert (Hwt : wake_set (cond_code timed) ws T !! t = Some (Running (Cloc m (PulseWake INT_MAX)))).
    { rewrite wake_set_lookup, Ht. cbn. by case_decide. }
    assert (Htot : total pulsed (wake_set (cond_code timed) ws T) = total pulsed T).
    { apply total_wake. intros x [j q] Hx. destruct (Hcw _ _ Hx) as [v Hq]. cbn in Hq. by subst q. }
    split; [split; [done | | done | |]|].
    + rewrite (total_update _ _ t _ _ Hwt), Htot. cbn. lia.
    + intros x y [[<- <-]|[_ Hx]]%lookup_insert_Some; [by split; [|intros []]|].
      rewrite wake_set_lookup in Hx. destruct (T !! x) as [z|] eqn:Hz; [|done]. cbn in Hx. injection Hx as <-.
      case_decide; [|by apply (He x)]. destruct z as [[j q]|[j q]]; [by apply (He x)|].
      destruct (Hcw _ _ Hz) as [v Hq]. cbn in Hq. subst q. by split; [|intros []].
    + intros x lx Hx. exfalso. eapply (wake_all_wakes (cond_code timed) INT_MAX ws T t); [done | done | | exact Hx].
      intros y ly Hy. unfold cond_code. destruct (Hcw _ _ Hy) as [v ->]. eauto.
    + rewrite map_size_insert_Some by (rewrite Hwt; eauto). apply wake_set_size.
Qed.

(** C33. A broadcast reaches every waiter: as long as there were fewer than 2^31 of them, a
    thread that read the word after [m] broadcasts sleeps only while there were no more
    than these, or while a broadcast has still to make its call that wakes all. *)
Theorem cond_broadcast_reaches timed attr threads w T t l :
  Z.of_nat (size threads) < INT_MAX ->
  rtc (condstep timed) (cond_start (pthread_cond_init attr) threads) (w, T) -> total pulsed T < 2 ^ 31 ->
  T !! t = Some (Sleeping l) ->
  ∃ m, 0 <= m <= total pulsed T ∧ cpoint l = WaitFutex (cword (pthread_cond_init attr) m) ∧
    (m = total pulsed T ∨ ∃ t' l' k, T !! t' = Some (Running l') ∧ cond_code timed t' l' = Wake INT_MAX k).
Proof.
  intros Hsz Hr Hlt Ht. set (sh := pthread_cond_init attr).
  assert (Hsh : sh = 0 ∨ sh = 1) by (subst sh; unfold pthread_cond_init; repeat case_match; auto).
  apply (invariant _ _ (λ s, (∃ n, cond_inv sh s.1 s.2 n) ∧ Z.of_nat (size s.2) < INT_MAX) _ (w, T)) in Hr as [[n HI] _].
  - destruct HI as [-> -> Hnn He Hk]. destruct (He _ _ Ht) as [Hok Hs]. destruct (Hs I) as [v Hv]. cbn in Hok, Hv.
    rewrite Hv in Hok. destruct Hok as (m & Hm & ->). exists m. split_and!; [lia | lia | done |].
    destruct (Hk t l Ht) as [E|(t' & th & Ht' & Ha & Hp)].
    + left. rewrite Hv in E. injection E as E. apply (cword_inj sh); [lia | done].
    + right. destruct th as [l'|l']; [|by destruct Ha]. exists t', l'. unfold cond_code. cbn in Hp. rewrite Hp. eauto.
  - intros [wa Ta] [wb Tb] [[n0 Ha] Hz] Hst.
    destruct (cond_step_inv timed sh wa Ta n0 wb Tb ltac:(lia) Hz Ha Hst) as (n' & Hb & Es). cbn. rewrite Es. eauto.
  - split; cbn; [|by rewrite <- size_dom, dom_gset_to_gmap]. exists 0. split; [| by rewrite total_start | done | |].
    + change (cword sh 0) with (0 + sh). done.
    + intros x y [_ <-]%lookup_gset_to_gmap_Some. by split; [|intros []].
    + intros x lx [_ ?]%lookup_gset_to_gmap_Some. done.
Qed.

(** Thread 1 sleeps, thread 2 broadcasts and has still to wake it. *)
Lemma cond_sample :
  ∃ w T, rtc (condstep false) (cond_start (pthread_cond_init None) {[1%nat; 2%nat]}) (w, T) ∧
         (∃ l, T !! 1%nat = Some (Sleeping l) ∧ cpoint l = WaitFutex 0) ∧ total pulsed T = 1.
Proof.
  eexists _, _. split.
  - calls 1%nat enter_wait. go 1%nat. go 1%nat. sleeps 1%nat.
    calls 2%nat enter_broadcast. go 2%nat. go 2%nat. go 2%nat. apply rtc_refl.
  - split; [eexists; split; reflexivity | reflexivity].
Qed.
Lemma cond_broadcast_reaches_witness :
  ∃ T : gmap nat (thread cloc), total pulsed T = 1 ∧
    ∃ t' l' k, T !! t' = Some (Running l') ∧ cond_code false t' l' = Wake INT_MAX k.
Proof.
  destruct cond_sample as (w & T & Hr & (l & Hl & Hp) & Hn). exists T. split; [done|].
  destruct (cond_broadcast_reaches false None {[1%nat; 2%nat]} w T 1 l) as (m & Hm & Hv & [Hc|H]);
    [vm_compute; done | done | lia | done | | exact H].
  rewrite Hp in Hv. injection Hv as Hv. rewrite Hc, Hn in Hv. vm_compute in Hv. discriminate.
Defined.
