(* ===== verification/Rwlock.v ===== *)
(** * Read-write locks ([libc/bionic/pthread-rwlocks.c])

    A read-write lock is a record that is only accessed with its mutex held, and a
    condition variable.  The mutex excludes ([PMutexSafe]) and a broadcast reaches every
    waiter ([Cond]), so one step here is one stretch of code with the mutex held: from
    locking it to unlocking it or to waiting, and from the end of a wait on.  A wait can
    also end without a broadcast.  The state of a thread is how often its Rthread holds the
    lock and whether it waits, awake or asleep, to read or to write; thread [t] has the
    kernel id [t].  The tests for a null pointer are left out and the counters do not
    overflow. *)
From stdpp Require Import base gmap list.
From Stdlib Require Import ZArith Lia.
From S2P Require Import Prelude Refs Futex PMutex Cond.
#[local] Open Scope Z_scope.

Record rwlock := Rwlock { numLocks : Z; pendingReaders : Z; pendingWriters : Z; writerThreadId : Z }.

(** The attributes, and a new lock: the words of its mutex and of its condition variable, and
    the record.  A call whose result the code ignores leaves its attribute alone if it fails. *)
Definition pthread_rwlockattr_init : Z := PTHREAD_PROCESS_PRIVATE.
Definition pthread_rwlockattr_destroy : Z := -1.
Definition pthread_rwlockattr_getpshared (attr : Z) : Z := attr.
Definition pthread_rwlockattr_setpshared (pshared : Z) : Z + Z :=
  if (pshared =? PTHREAD_PROCESS_PRIVATE) || (pshared =? PTHREAD_PROCESS_SHARED) then inr pshared else inl EINVAL.
Definition ignored (attr : Z) (r : Z + Z) : Z := match r with inr v => v | inl _ => attr end.
Definition pthread_rwlock_init (attr : option Z) : Z + (Z * Z * rwlock) :=
  let shared := match attr with Some a => a =? PTHREAD_PROCESS_SHARED | None => false end in
  let lock_attr := if shared
    then Some (ignored pthread_mutexattr_init (pthread_mutexattr_setpshared pthread_mutexattr_init PTHREAD_PROCESS_SHARED))
    else None in
  let cond_attr := if shared
    then Some (ignored pthread_condattr_init (pthread_condattr_setpshared pthread_condattr_init PTHREAD_PROCESS_SHARED))
    else None in
  match pthread_mutex_init lock_attr with
  | inl ret => inl ret
  | inr lock => inr (lock, pthread_cond_init cond_attr, Rwlock 0 0 0 0)
  end.

Definition read_precondition (rw : rwlock) (thread_id : Z) : bool :=
  if 0 <? pendingWriters rw then false else
  (writerThreadId rw =? 0) || (writerThreadId rw =? thread_id).
Definition write_precondition (rw : rwlock) (thread_id : Z) : bool :=
  if numLocks rw =? 0 then true else writerThreadId rw =? thread_id.

(** What is stored when the lock is taken, and the counts of those who wait. *)
Definition take_read (rw : rwlock) : rwlock :=
  Rwlock (numLocks rw + 1) (pendingReaders rw) (pendingWriters rw) (writerThreadId rw).
Definition take_write (thread_id : Z) (rw : rwlock) : rwlock :=
  Rwlock (numLocks rw + 1) (pendingReaders rw) (pendingWriters rw) thread_id.
Definition add_pending (writer : bool) (n : Z) (rw : rwlock) : rwlock :=
  if writer then Rwlock (numLocks rw) (pendingReaders rw) (pendingWriters rw + n) (writerThreadId rw)
  else Rwlock (numLocks rw) (pendingReaders rw + n) (pendingWriters rw) (writerThreadId rw).
Definition precondition (writer : bool) : rwlock -> Z -> bool := if writer then write_precondition else read_precondition.
Definition take (writer : bool) (thread_id : Z) : rwlock -> rwlock := if writer then take_write thread_id else take_read.

(** The record and the result; [None] is a call of [pthread_cond_timedwait]. *)
Definition pthread_rwlock_trylock (writer : bool) (thread_id : Z) (rw : rwlock) : rwlock * Z :=
  if negb (precondition writer rw thread_id) then (rw, EBUSY) else (take writer thread_id rw, 0).
Definition pthread_rwlock_tryrdlock : Z -> rwlock -> rwlock * Z := pthread_rwlock_trylock false.
Definition pthread_rwlock_trywrlock : Z -> rwlock -> rwlock * Z := pthread_rwlock_trylock true.
Definition timedlock_begin (writer : bool) (thread_id : Z) (rw : rwlock) : rwlock * option Z :=
  if negb (precondition writer rw thread_id) then (add_pending writer 1 rw, None)
  else (take writer thread_id rw, Some 0).
(** The code after a wait that returned [ret]. *)
Definition timedlock_again (writer : bool) (thread_id ret : Z) (rw : rwlock) : rwlock * option Z :=
  if (ret =? 0) && negb (precondition writer rw thread_id) then (rw, None) else
  let rw := add_pending writer (-1) rw in
  if negb (ret =? 0) then (rw, Some ret) else (take writer thread_id rw, Some 0).

Definition pthread_rwlock_timedrdlock : (Z -> rwlock -> rwlock * option Z) * (Z -> Z -> rwlock -> rwlock * option Z) :=
  (timedlock_begin false, timedlock_again false).
Definition pthread_rwlock_timedwrlock : (Z -> rwlock -> rwlock * option Z) * (Z -> Z -> rwlock -> rwlock * option Z) :=
  (timedlock_begin true, timedlock_again true).

(** [pthread_rwlock_unlock]: the record, the result, and whether it broadcasts. *)
Definition pulses (rw : rwlock) : bool := (0 <? pendingReaders rw) || (0 <? pendingWriters rw).
Definition pthread_rwlock_unlock (thread_id : Z) (rw : rwlock) : rwlock * Z * bool :=
  if numLocks rw =? 0 then (rw, EPERM, false) else
  let n := numLocks rw - 1 in
  if writerThreadId rw =? 0 then
    let rw := Rwlock n (pendingReaders rw) (pendingWriters rw) (writerThreadId rw) in
    (rw, 0, (n =? 0) && pulses rw)
  else if negb (writerThreadId rw =? thread_id) then (rw, EPERM, false) else
    let rw := Rwlock n (pendingReaders rw) (pendingWriters rw) (if n =? 0 then 0 else writerThreadId rw) in
    (rw, 0, (n =? 0) && pulses rw).
Definition pthread_rwlock_destroy (rw : rwlock) : Z := if 0 <? numLocks rw then EBUSY else 0.

(** ** Threads *)
Inductive rstat := Out (r : Z) | Waits (writer awake : bool).
Record rthread := Rthread { holds : Z; stat : rstat }.

(** Where a thread is after code that ended with [o], with [n] more locks if it returned 0. *)
Definition after (writer : bool) (o : option Z) (th : rthread) : rthread :=
  match o with
  | None => Rthread (holds th) (Waits writer false)
  | Some r => Rthread (if r =? 0 then holds th + 1 else holds th) (Out r)
  end.
Definition wake_up (th : rthread) : rthread :=
  match stat th with Waits writer _ => Rthread (holds th) (Waits writer true) | Out _ => th end.
(** A Rthread that holds the lock and unlocked it. *)
Definition dropped (r : Z) (th : rthread) : rthread := Rthread (if r =? 0 then holds th - 1 else holds th) (Out r).

Inductive rwstep (timed : bool) : rwlock * gmap nat rthread -> rwlock * gmap nat rthread -> Prop :=
| rw_lock rw T t th r writer rw' o :
    T !! t = Some th -> stat th = Out r -> timedlock_begin writer (Z.of_nat t) rw = (rw', o) ->
    rwstep timed (rw, T) (rw', <[t := after writer o th]> T)
| rw_again rw T t th writer rw' o :
    T !! t = Some th -> stat th = Waits writer true -> timedlock_again writer (Z.of_nat t) 0 rw = (rw', o) ->
    rwstep timed (rw, T) (rw', <[t := after writer o th]> T)
| rw_timeout rw T t th writer awake rw' o :
    timed = true -> T !! t = Some th -> stat th = Waits writer awake ->
    timedlock_again writer (Z.of_nat t) ETIMEDOUT rw = (rw', o) ->
    rwstep timed (rw, T) (rw', <[t := after writer o th]> T)
| rw_spurious rw T t th :
    T !! t = Some th -> rwstep timed (rw, T) (rw, <[t := wake_up th]> T)
| rw_try rw T t th r writer rw' r' :
    T !! t = Some th -> stat th = Out r -> pthread_rwlock_trylock writer (Z.of_nat t) rw = (rw', r') ->
    rwstep timed (rw, T) (rw', <[t := after writer (Some r') th]> T)
| rw_unlock rw T t th r rw' r' b :
    T !! t = Some th -> stat th = Out r -> 0 < holds th -> pthread_rwlock_unlock (Z.of_nat t) rw = (rw', r', b) ->
    rwstep timed (rw, T)
      (rw', <[t := dropped r' th]> (if b then wake_up <$> T else T)).

Definition rw_start (threads : gset nat) : rwlock * gmap nat rthread :=
  (Rwlock 0 0 0 0, gset_to_gmap (Rthread 0 (Out 0)) threads).

(** Initialisation cannot fail: the mutex is a normal one that is free, and it and the condition
    variable are shared between processes exactly if the attribute says so. *)
Lemma rwlock_init_ok attr : ∃ lock cond,
  pthread_rwlock_init attr = inr (lock, cond, (rw_start ∅).1) ∧
  let shared := match attr with Some a => a =? PTHREAD_PROCESS_SHARED | None => false end in
  lock = (if shared then MUTEX_SHARED_MASK else 0) ∧ cond = (if shared then COND_SHARED_MASK else 0).
Proof.
  unfold pthread_rwlock_init. destruct (match attr with Some a => a =? PTHREAD_PROCESS_SHARED | None => false end);
    do 2 eexists; (split; [reflexivity | split; reflexivity]).
Qed.

(** ** The invariant *)
Definition waiting (writer : bool) (th : rthread) : Z :=
  match stat th with Waits w _ => if eqb w writer then 1 else 0 | Out _ => 0 end.

Record rw_inv (timed : bool) (rw : rwlock) (T : gmap nat rthread) : Prop := RwInv {
  ri_ids : ∀ t th, T !! t = Some th -> 1 <= Z.of_nat t ∧ 0 <= holds th;
  ri_locks : numLocks rw = msum holds T;
  ri_readers : pendingReaders rw = msum (waiting false) T;
  ri_writers : pendingWriters rw = msum (waiting true) T;
  ri_writer : writerThreadId rw = 0 ∨
    ∃ t th, T !! t = Some th ∧ writerThreadId rw = Z.of_nat t ∧ holds th = numLocks rw ∧ 1 <= numLocks rw;
  ri_asleep : timed = false -> ∀ t th writer,
    T !! t = Some th -> stat th = Waits writer false -> precondition writer rw (Z.of_nat t) = false
}.

Lemma waiting_nonneg writer T : nonneg (waiting writer) T.
Proof. intros t th _. unfold waiting. repeat case_match; lia. Qed.
Lemma write_refused rw u : write_precondition rw u = false -> numLocks rw <> 0 ∧ writerThreadId rw <> u.
Proof. unfold write_precondition. intros H. destruct (Z.eqb_spec (numLocks rw) 0); [done|]. split; [done|]. lia. Qed.

Section Steps.
Variables (timed : bool) (rw : rwlock) (T : gmap nat rthread) (t : nat) (th : rthread).
Hypothesis HI : rw_inv timed rw T.
Hypothesis Ht : T !! t = Some th.

Lemma holds_nonneg : nonneg holds T.
Proof. intros x y Hx. by destruct (ri_ids _ _ _ HI _ _ Hx). Qed.
Lemma pending_nonneg : 0 <= pendingReaders rw ∧ 0 <= pendingWriters rw ∧ 0 <= numLocks rw.
Proof.
  rewrite (ri_readers _ _ _ HI), (ri_writers _ _ _ HI), (ri_locks _ _ _ HI).
  split_and!; apply msum_nonneg; [apply waiting_nonneg | apply waiting_nonneg | apply holds_nonneg].
Qed.
(** The counts after thread [t] changed to [th']. *)
Lemma counts_update th' :
  msum holds (<[t := th']> T) = numLocks rw - holds th + holds th' ∧
  msum (waiting false) (<[t := th']> T) = pendingReaders rw - waiting false th + waiting false th' ∧
  msum (waiting true) (<[t := th']> T) = pendingWriters rw - waiting true th + waiting true th'.
Proof. rewrite !(msum_update _ T t th) by done. destruct HI. lia. Qed.
Lemma ids_update th' : 0 <= holds th' ->
  ∀ x y, <[t := th']> T !! x = Some y -> 1 <= Z.of_nat x ∧ 0 <= holds y.
Proof.
  intros Hh x y [[<- <-]|[_ Hx]]%lookup_insert_Some; [split; [by apply (ri_ids _ _ _ HI _ _ Ht) | done]|].
  by apply (ri_ids _ _ _ HI).
Qed.

(** Taking the lock, from outside or at the end of a wait. *)
Lemma acquire_inv writer :
  (∃ r, stat th = Out r) ∨ (∃ aw, stat th = Waits writer aw) ->
  precondition writer rw (Z.of_nat t) = true ->
  rw_inv timed (take writer (Z.of_nat t) (add_pending writer (- waiting writer th) rw))
    (<[t := Rthread (holds th + 1) (Out 0)]> T).
Proof.
  intros Hstat Hpre. destruct (ri_ids _ _ _ HI _ _ Ht) as [Hid Hh0]. pose proof pending_nonneg as (HR & HW & HN).
  destruct (counts_update (Rthread (holds th + 1) (Out 0))) as (E1 & E2 & E3).
  change (waiting _ (Rthread _ (Out 0))) with 0 in E2, E3. cbn [holds] in E1.
  assert (Hwt : waiting (negb writer) th = 0).
  { destruct Hstat as [[r E]|[aw E]]; unfold waiting; rewrite E; [done | by destruct writer]. }
  assert (Ehold : writer = true ∨ writerThreadId rw <> 0 -> holds th = numLocks rw).
  { intros Hcase. destruct (ri_writer _ _ _ HI) as [E0|(u & thu & Hu & Eu & Eh & Hn1)].
    - destruct Hcase as [->|]; [|done]. cbn in Hpre. unfold write_precondition in Hpre.
      rewrite E0 in Hpre. destruct (Z.eqb_spec (numLocks rw) 0) as [En|]; [|lia].
      pose proof (msum_ge holds T t th holds_nonneg Ht). rewrite <- (ri_locks _ _ _ HI) in *. lia.
    - destruct (decide (u = t)) as [->|Hne]; [by simplify_eq|]. exfalso.
      destruct writer; cbn in Hpre; unfold write_precondition, read_precondition in Hpre.
      + destruct (Z.eqb_spec (numLocks rw) 0); lia.
      + destruct (0 <? pendingWriters rw); [done|]. lia. }
  split.
  - apply ids_update. cbn. lia.
  - rewrite E1. destruct writer; cbn -[waiting]; lia.
  - rewrite E2. destruct writer; cbn -[waiting] in *; lia.
  - rewrite E3. destruct writer; cbn -[waiting] in *; lia.
  - destruct writer; cbn; [right | destruct (decide (writerThreadId rw = 0)); [by left | right]];
      (exists t; eexists; rewrite lookup_insert_eq; split; [done|]).
    + cbn. rewrite Ehold by (by left). lia.
    + cbn. rewrite Ehold by (by right). split_and!; [|lia|lia].
      unfold precondition, read_precondition in Hpre. destruct (0 <? pendingWriters rw); [done|]. lia.
  - intros Htm u y w' [[<- <-]|[Hne Hu]]%lookup_insert_Some Hs; [done|].
    pose proof (ri_asleep _ _ _ HI Htm u y w' Hu Hs) as Hold. destruct (ri_ids _ _ _ HI _ _ Hu) as [Hidu _].
    destruct writer, w'; cbn in Hold |- *.
    + unfold write_precondition. cbn. rewrite (proj2 (Z.eqb_neq _ _)) by lia. lia.
    + unfold read_precondition. cbn. case_match; [done|]. lia.
    + apply write_refused in Hold. unfold write_precondition. cbn. rewrite (proj2 (Z.eqb_neq _ _)) by lia. lia.
    + exact Hold.
Qed.

(** Going to sleep. *)
Lemma wait_inv writer :
  (∃ r, stat th = Out r) ∨ (∃ aw, stat th = Waits writer aw) ->
  precondition writer rw (Z.of_nat t) = false ->
  rw_inv timed (add_pending writer (1 - waiting writer th) rw) (<[t := Rthread (holds th) (Waits writer false)]> T).
Proof.
  intros Hstat Hpre. destruct (ri_ids _ _ _ HI _ _ Ht) as [Hid Hh0]. pose proof pending_nonneg as (HR & HW & HN).
  destruct (counts_update (Rthread (holds th) (Waits writer false))) as (E1 & E2 & E3).
  change (waiting _ (Rthread _ (Waits writer false))) with (if eqb writer false then 1 else 0) in E2.
  change (waiting _ (Rthread _ (Waits writer false))) with (if eqb writer true then 1 else 0) in E3. cbn [holds] in E1.
  assert (Hwt : waiting (negb writer) th = 0).
  { destruct Hstat as [[r E]|[aw E]]; unfold waiting; rewrite E; [done | by destruct writer]. }
  assert (Hwp : waiting writer th <= 1) by (unfold waiting; repeat case_match; lia).
  assert (Hmono : ∀ w' u, precondition w' rw u = false ->
    precondition w' (add_pending writer (1 - waiting writer th) rw) u = false).
  { intros w' u. destruct w', writer; cbn; unfold write_precondition, read_precondition; cbn; [done | done | | done].
    destruct (Z.ltb_spec 0 (pendingWriters rw)); destruct (Z.ltb_spec 0 (pendingWriters rw + (1 - waiting true th))); (done || lia). }
  split.
  - by apply ids_update.
  - rewrite E1. destruct writer; cbn -[waiting]; lia.
  - rewrite E2. destruct writer; cbn -[waiting] in *; lia.
  - rewrite E3. destruct writer; cbn -[waiting] in *; lia.
  - destruct (ri_writer _ _ _ HI) as [E0|(u & thu & Hu & Eu & Eh & Hn)]; [left; by destruct writer|]. right.
    destruct (decide (u = t)) as [->|]; [simplify_eq; exists t; eexists; rewrite lookup_insert_eq |
      exists u, thu; rewrite lookup_insert_ne by done]; (split; [done|]); destruct writer; cbn; lia.
  - intros Htm u y w' [[<- <-]|[Hne Hu]]%lookup_insert_Some Hs; apply Hmono.
    + cbn in Hs. injection Hs as <-. done.
    + by apply (ri_asleep _ _ _ HI Htm u y).
Qed.

(** Giving up, which only happens with time-outs. *)
Lemma leave_inv writer aw r :
  timed = true -> stat th = Waits writer aw -> r <> 0 ->
  rw_inv timed (add_pending writer (-1) rw) (<[t := Rthread (holds th) (Out r)]> T).
Proof.
  intros Htm Hstat Hr. destruct (ri_ids _ _ _ HI _ _ Ht) as [Hid Hh0].
  destruct (counts_update (Rthread (holds th) (Out r))) as (E1 & E2 & E3).
  change (waiting _ (Rthread _ (Out r))) with 0 in E2, E3. cbn [holds] in E1.
  unfold waiting at 2 in E2. unfold waiting at 2 in E3. rewrite Hstat in E2, E3.
  split; [by apply ids_update | | | | | congruence].
  - rewrite E1. destruct writer; cbn; lia.
  - rewrite E2. destruct writer; cbn; lia.
  - rewrite E3. destruct writer; cbn; lia.
  - destruct (ri_writer _ _ _ HI) as [E0|(u & thu & Hu & Eu & Eh & Hn)]; [left; by destruct writer|]. right.
    destruct (decide (u = t)) as [->|]; [simplify_eq; exists t; eexists; rewrite lookup_insert_eq |
      exists u, thu; rewrite lookup_insert_ne by done]; (split; [done|]); destruct writer; cbn; lia.
Qed.

Lemma spurious_inv : rw_inv timed rw (<[t := wake_up th]> T).
Proof.
  assert (Ew : ∀ w, waiting w (wake_up th) = waiting w th).
  { intros w. unfold waiting, wake_up. destruct (stat th) eqn:E; cbn; by rewrite ?E. }
  assert (Eh : holds (wake_up th) = holds th) by (unfold wake_up; by case_match).
  destruct (counts_update (wake_up th)) as (E1 & E2 & E3). rewrite Ew in E2, E3. rewrite Eh in E1.
  destruct (ri_ids _ _ _ HI _ _ Ht) as [Hid Hh0].
  split; [apply ids_update; by rewrite Eh | lia | lia | lia | |].
  - destruct (ri_writer _ _ _ HI) as [E0|(u & thu & Hu & Eu & Ehu & Hn)]; [by left|]. right.
    destruct (decide (u = t)) as [->|]; [simplify_eq; exists t, (wake_up th); rewrite lookup_insert_eq, Eh |
      exists u, thu; rewrite lookup_insert_ne by done]; done.
  - intros Htm u y w' [[<- <-]|[Hne Hu]]%lookup_insert_Some Hs.
    + unfold wake_up in Hs. destruct (stat th) eqn:E; cbn in Hs; congruence.
    + by apply (ri_asleep _ _ _ HI Htm u y).
Qed.
End Steps.

Lemma wake_all_inv timed rw T : rw_inv timed rw T -> rw_inv timed rw (wake_up <$> T) ∧
  ∀ t th writer, (wake_up <$> T) !! t = Some th -> stat th <> Waits writer false.
Proof.
  intros HI. assert (Ew : ∀ w th, waiting w (wake_up th) = waiting w th).
  { intros w th. unfold waiting, wake_up. destruct (stat th) eqn:E; cbn; by rewrite ?E. }
  assert (Eh : ∀ th, holds (wake_up th) = holds th) by (intros th; unfold wake_up; by case_match).
  assert (Hno : ∀ t th writer, (wake_up <$> T) !! t = Some th -> stat th <> Waits writer false).
  { intros t th writer. rewrite lookup_fmap. intros (y & _ & ->)%fmap_Some. unfold wake_up.
    destruct (stat y) eqn:E; cbn; congruence. }
  split; [|done]. destruct HI as [H1 H2 H3 H4 H5 H6]. split.
  - intros t th. rewrite lookup_fmap. intros (y & Hy & ->)%fmap_Some. rewrite Eh. by apply H1.
  - by rewrite msum_fmap.
  - by rewrite msum_fmap.
  - by rewrite msum_fmap.
  - destruct H5 as [?|(u & thu & Hu & ?)]; [by left|]. right. exists u, (wake_up thu).
    rewrite lookup_fmap, Hu, Eh. done.
  - intros _ t th w Ht Hs. by destruct (Hno t th w Ht).
Qed.

(** If there is a writer, then a thread that holds the lock is the writer and holds it alone. *)
Lemma holder_alone timed rw T t th :
  rw_inv timed rw T -> T !! t = Some th -> 0 < holds th ->
  holds th <= numLocks rw ∧ (writerThreadId rw = 0 ∨ writerThreadId rw = Z.of_nat t ∧ holds th = numLocks rw).
Proof.
  intros HI Ht Hh. pose proof (holds_nonneg _ _ _ HI) as Hnn. rewrite (ri_locks _ _ _ HI).
  split; [by apply (msum_ge holds T t th)|].
  destruct (ri_writer _ _ _ HI) as [?|(u & thu & Hu & Eu & Eh & _)]; [by left|]. right. rewrite (ri_locks _ _ _ HI) in Eh.
  destruct (decide (u = t)) as [->|Hne]; [by simplify_eq|]. exfalso.
  pose proof (msum_two holds T t th u thu Hnn Ht Hu (not_eq_sym Hne)). lia.
Qed.

(** Unlocking by a thread that holds the lock. *)
Lemma unlock_inv timed rw T t th r rw' r' b :
  rw_inv timed rw T -> T !! t = Some th -> stat th = Out r -> 0 < holds th ->
  pthread_rwlock_unlock (Z.of_nat t) rw = (rw', r', b) ->
  r' = 0 ∧ rw_inv timed rw' (<[t := dropped r' th]> (if b then wake_up <$> T else T)).
Proof.
  intros HI Ht Hstat Hh E. pose proof (pending_nonneg _ _ _ HI) as (HR & HW & HN).
  destruct (ri_ids _ _ _ HI _ _ Ht) as [Hid _]. destruct (holder_alone timed rw T t th HI Ht Hh) as [Hge Hw].
  set (n := numLocks rw - 1) in *.
  assert (Erun : pthread_rwlock_unlock (Z.of_nat t) rw =
    (Rwlock n (pendingReaders rw) (pendingWriters rw) (if n =? 0 then 0 else writerThreadId rw), 0,
     (n =? 0) && ((0 <? pendingReaders rw) || (0 <? pendingWriters rw)))).
  { unfold pthread_rwlock_unlock. rewrite (proj2 (Z.eqb_neq (numLocks rw) 0)) by lia. fold n.
    destruct Hw as [Ew|[Ew _]]; rewrite Ew.
    - destruct (n =? 0); done.
    - rewrite (proj2 (Z.eqb_neq (Z.of_nat t) 0)), Z.eqb_refl by lia. done. }
  rewrite Erun in E. injection E as <- <- <-. split; [done|].
  set (T1 := if (n =? 0) && _ then wake_up <$> T else T).
  assert (HI1 : rw_inv timed rw T1 ∧ T1 !! t = Some th ∧
                (n = 0 -> ∀ u y w, T1 !! u = Some y -> stat y <> Waits w false)).
  { subst T1. destruct (Z.eqb_spec n 0) as [En|]; cbn; [|done].
    destruct ((0 <? pendingReaders rw) || (0 <? pendingWriters rw)) eqn:Ep.
    - destruct (wake_all_inv timed rw T HI) as [H1 H2]. split_and!; [done | | by intros _].
      rewrite lookup_fmap, Ht. cbn. unfold wake_up. by rewrite Hstat.
    - split_and!; [done | done |]. intros _ u y w Hu Hs.
      pose proof (msum_ge (waiting w) T u y (waiting_nonneg w T) Hu) as Hwt. unfold waiting at 1 in Hwt. rewrite Hs in Hwt.
      destruct w; cbn in Hwt; rewrite <- ?(ri_readers _ _ _ HI), <- ?(ri_writers _ _ _ HI) in Hwt; lia. }
  clearbody T1. destruct HI1 as (HI1 & Ht1 & Hnone).
  destruct (counts_update timed rw T1 t th HI1 Ht1 (dropped 0 th)) as (E1 & E2 & E3).
  unfold waiting at 2 3 in E2. unfold waiting at 2 3 in E3. cbn in E1, E2, E3. rewrite Hstat in E2, E3.
  split; cbn [numLocks pendingReaders pendingWriters writerThreadId].
  - apply (ids_update timed rw T1 t th HI1 Ht1). cbn. lia.
  - rewrite E1. lia.
  - rewrite E2. lia.
  - rewrite E3. lia.
  - destruct (Z.eqb_spec n 0); [by left|]. destruct Hw as [Ew|[Ew Eh]]; [by left|]. right.
    exists t. eexists. rewrite lookup_insert_eq. split_and!; [done | done | cbn; lia | lia].
  - intros Htm u y w [[<- <-]|[Hne Hu]]%lookup_insert_Some Hs; [done|].
    destruct (Z.eqb_spec n 0) as [En|En]; [by destruct (Hnone En u y w Hu)|].
    pose proof (ri_asleep _ _ _ HI1 Htm u y w Hu Hs) as Hold. destruct w; cbn in Hold |- *; [|exact Hold].
    apply write_refused in Hold. unfold write_precondition. cbn. rewrite (proj2 (Z.eqb_neq n 0)) by done. lia.
Qed.

Lemma add_pending_0 writer rw : add_pending writer 0 rw = rw.
Proof. destruct rw, writer; cbn; f_equal; lia. Qed.
(** A call made from outside adds or removes no pending thread of its own before it decides. *)
Lemma acquire_out timed rw T t th r writer :
  rw_inv timed rw T -> T !! t = Some th -> stat th = Out r -> precondition writer rw (Z.of_nat t) = true ->
  rw_inv timed (take writer (Z.of_nat t) rw) (<[t := Rthread (holds th + 1) (Out 0)]> T).
Proof.
  intros HI Ht Hs Hpre. pose proof (acquire_inv timed rw T t th HI Ht writer (or_introl (ex_intro _ r Hs)) Hpre) as H.
  unfold waiting in H. rewrite Hs in H. change (-0) with 0 in H. by rewrite add_pending_0 in H.
Qed.

Lemma refused_inv timed rw T t th r r' :
  rw_inv timed rw T -> T !! t = Some th -> stat th = Out r -> rw_inv timed rw (<[t := Rthread (holds th) (Out r')]> T).
Proof.
  intros HI Ht Hs. destruct (ri_ids _ _ _ HI _ _ Ht) as [Hid Hh0].
  destruct (counts_update _ _ _ _ _ HI Ht (Rthread (holds th) (Out r'))) as (E1 & E2 & E3).
  unfold waiting at 2 3 in E2. unfold waiting at 2 3 in E3. cbn in E1, E2, E3. rewrite Hs in E2, E3.
  split; [by apply (ids_update timed rw T t th) | lia | lia | lia | |].
  - destruct (ri_writer _ _ _ HI) as [E0|(u & thu & Hu & Eu & Ehu & Hn)]; [by left|]. right.
    destruct (decide (u = t)) as [->|]; [simplify_eq; exists t; eexists; rewrite lookup_insert_eq |
      exists u, thu; rewrite lookup_insert_ne by done]; done.
  - intros Htm u y w [[<- <-]|[Hne Hu]]%lookup_insert_Some; [done|]. by apply (ri_asleep _ _ _ HI Htm u y).
Qed.

Lemma rwstep_inv timed s s' : rw_inv timed s.1 s.2 -> rwstep timed s s' -> rw_inv timed s'.1 s'.2.
Proof.
  intros HI Hstep. destruct Hstep as
    [rw T t th r writer rw' o Ht Hs E | rw T t th writer rw' o Ht Hs E | rw T t th writer aw rw' o Htm Ht Hs E
    |rw T t th Ht | rw T t th r writer rw' r' Ht Hs E | rw T t th r rw' r' b Ht Hs Hh E]; cbn [fst snd] in *.
  - unfold timedlock_begin in E. destruct (precondition writer rw (Z.of_nat t)) eqn:Hpre; injection E as <- <-.
    + by apply (acquire_out timed rw T t th r).
    + pose proof (wait_inv timed rw T t th HI Ht writer (or_introl (ex_intro _ r Hs)) Hpre) as H.
      unfold waiting in H. by rewrite Hs in H.
  - unfold timedlock_again in E. cbn [Z.eqb andb] in E. destruct (precondition writer rw (Z.of_nat t)) eqn:Hpre; injection E as <- <-.
    + pose proof (acquire_inv timed rw T t th HI Ht writer (or_intror (ex_intro _ true Hs)) Hpre) as H.
      unfold waiting in H. by rewrite Hs, eqb_reflx in H.
    + pose proof (wait_inv timed rw T t th HI Ht writer (or_intror (ex_intro _ true Hs)) Hpre) as H.
      unfold waiting in H. rewrite Hs, eqb_reflx in H. change (1 - 1) with 0 in H. by rewrite add_pending_0 in H.
  - injection E as <- <-. by apply (leave_inv timed rw T t th HI Ht writer aw ETIMEDOUT).
  - by apply spurious_inv.
  - unfold pthread_rwlock_trylock in E. destruct (precondition writer rw (Z.of_nat t)) eqn:Hpre; injection E as <- <-.
    + by apply (acquire_out timed rw T t th r).
    + by apply (refused_inv timed rw T t th r).
  - by apply (unlock_inv timed rw T t th r rw' r' b).
Qed.

Lemma rwsteps_inv timed s s' : rtc (rwstep timed) s s' -> rw_inv timed s.1 s.2 -> rw_inv timed s'.1 s'.2.
Proof. induction 1; eauto using rwstep_inv. Qed.

Lemma rw_reachable timed threads rw T :
  (∀ t, t ∈ threads -> (1 <= t)%nat) -> rtc (rwstep timed) (rw_start threads) (rw, T) -> rw_inv timed rw T.
Proof.
  intros Hids Hrun. apply (rwsteps_inv timed _ _ Hrun).
  assert (Hall : ∀ t th, gset_to_gmap (Rthread 0 (Out 0)) threads !! t = Some th -> t ∈ threads ∧ th = Rthread 0 (Out 0)).
  { intros t th [? <-]%lookup_gset_to_gmap_Some. done. }
  split; cbn; [| | | | by left |].
  - intros t th [Hin ->]%Hall. apply Hids in Hin. cbn. lia.
  - by rewrite msum_const.
  - by rewrite msum_const.
  - by rewrite msum_const.
  - intros _ t th w [_ ->]%Hall. done.
Qed.

(** What a thread finds while another one holds the lock. *)
Lemma others_refused timed rw T t th u y :
  rw_inv timed rw T -> T !! t = Some th -> 0 < holds th -> T !! u = Some y -> u <> t ->
  write_precondition rw (Z.of_nat u) = false ∧
  (writerThreadId rw <> 0 -> read_precondition rw (Z.of_nat u) = false ∧ holds y = 0).
Proof.
  intros HI Ht Hh Hu Hne. destruct (ri_ids _ _ _ HI _ _ Hu) as [Hid _].
  destruct (holder_alone timed rw T t th HI Ht Hh) as [Hge Hw].
  unfold write_precondition, read_precondition. rewrite (proj2 (Z.eqb_neq (numLocks rw) 0)) by lia.
  destruct Hw as [E0|[Ew Eh]]; [rewrite E0; split; [lia | done]|].
  destruct (ri_ids _ _ _ HI _ _ Ht) as [Hidt _].
  split; [lia | intros _]. split; [case_match; lia|].
  pose proof (msum_two holds T t th u y (holds_nonneg _ _ _ HI) Ht Hu (not_eq_sym Hne)).
  pose proof (holds_nonneg _ _ _ HI u y Hu). pose proof (ri_locks _ _ _ HI). lia.
Qed.

(** ** The properties *)

(** C10. Exclusion: after any calls, time-outs and spurious wake-ups of any threads, the lock
    counts the locks held; while a thread holds it no other thread can get it for writing;
    while it is held for writing the writer is the only thread that holds it and no other
    thread can get it at all; and a thread that holds it can unlock it. *)
Theorem rwlock_exclusion timed threads rw T t th :
  (∀ x, x ∈ threads -> (1 <= x)%nat) -> rtc (rwstep timed) (rw_start threads) (rw, T) ->
  T !! t = Some th -> 0 < holds th ->
  numLocks rw = msum holds T ∧ (pthread_rwlock_unlock (Z.of_nat t) rw).1.2 = 0 ∧
  ∀ u y, T !! u = Some y -> u <> t ->
    pthread_rwlock_trywrlock (Z.of_nat u) rw = (rw, EBUSY) ∧
    (writerThreadId rw <> 0 ->
     writerThreadId rw = Z.of_nat t ∧ holds y = 0 ∧ pthread_rwlock_tryrdlock (Z.of_nat u) rw = (rw, EBUSY)).
Proof.
  intros Hids Hrun Ht Hh. pose proof (rw_reachable timed threads rw T Hids Hrun) as HI.
  destruct (holder_alone timed rw T t th HI Ht Hh) as [Hge Hw].
  split; [by apply (ri_locks _ _ _ HI)|]. split.
  - unfold pthread_rwlock_unlock. rewrite (proj2 (Z.eqb_neq (numLocks rw) 0)) by lia.
    destruct Hw as [->|[-> _]]; [done|]. rewrite Z.eqb_refl. by case_match.
  - intros u y Hu Hne. destruct (others_refused timed rw T t th u y HI Ht Hh Hu Hne) as [Hwr Hrd].
    unfold pthread_rwlock_trywrlock, pthread_rwlock_tryrdlock, pthread_rwlock_trylock, precondition. rewrite Hwr.
    split; [done|]. intros Hnz. destruct (Hrd Hnz) as [-> ->]. destruct Hw as [?|[? _]]; done.
Qed.

(** C32. No wake-up is lost as long as nobody gives up: without time-outs a thread sleeps only
    while it may not have the lock, and when the lock is free and threads sleep, another one
    that waits is awake and takes the lock in its next step. *)
Theorem rwlock_no_lost_wakeup threads rw T t th writer :
  (∀ x, x ∈ threads -> (1 <= x)%nat) -> rtc (rwstep false) (rw_start threads) (rw, T) ->
  T !! t = Some th -> stat th = Waits writer false ->
  precondition writer rw (Z.of_nat t) = false ∧
  (numLocks rw = 0 -> ∃ u y, T !! u = Some y ∧ stat y = Waits true true ∧
    (timedlock_again true (Z.of_nat u) 0 rw).2 = Some 0).
Proof.
  intros Hids Hrun Ht Hs. pose proof (rw_reachable false threads rw T Hids Hrun) as HI.
  pose proof (ri_asleep _ _ _ HI eq_refl t th writer Ht Hs) as Hpre. split; [done|]. intros Hn.
  assert (E0 : writerThreadId rw = 0) by (destruct (ri_writer _ _ _ HI) as [?|(u & y & ? & ? & ? & ?)]; [done | lia]).
  destruct writer; cbn in Hpre; [apply write_refused in Hpre; lia|].
  unfold read_precondition in Hpre. rewrite E0 in Hpre. cbn in Hpre.
  destruct (Z.ltb_spec 0 (pendingWriters rw)) as [Hp|]; [|done]. rewrite (ri_writers _ _ _ HI) in Hp.
  destruct (msum_pos _ T (waiting_nonneg true T) Hp) as (u & y & Hu & Hy). exists u, y. unfold waiting in Hy.
  destruct (stat y) as [|w aw] eqn:Hsy; [lia|]. destruct w; cbn in Hy; [|lia].
  assert (aw = true) as ->.
  { destruct aw; [done|]. pose proof (ri_asleep _ _ _ HI eq_refl u y true Hu Hsy) as Hw. apply write_refused in Hw. lia. }
  split_and!; [done | done |]. unfold timedlock_again, precondition, write_precondition. by rewrite Hn.
Qed.

(** ** Runs with given threads *)
Tactic Notation "rwgo" open_constr(c) := eapply rtc_l; [eapply c; reflexivity|].

(** Thread 1 writes, thread 2 waits to write and thread 3 to read. *)
Definition contended : gmap nat rthread :=
  {[1%nat := Rthread 1 (Out 0); 2%nat := Rthread 0 (Waits true false); 3%nat := Rthread 0 (Waits false false)]}.
Lemma contended_run timed : rtc (rwstep timed) (rw_start {[1%nat; 2%nat; 3%nat]}) (Rwlock 1 1 1 1, contended).
Proof.
  rwgo (rw_lock timed _ _ 1 _ _ true). rwgo (rw_lock timed _ _ 2 _ _ true). rwgo (rw_lock timed _ _ 3 _ _ false).
  match goal with |- rtc _ (_, ?T) _ => replace T with contended by (vm_compute; reflexivity) end. apply rtc_refl.
Qed.
Lemma contended_ids x : x ∈ ({[1%nat; 2%nat; 3%nat]} : gset nat) -> (1 <= x)%nat.
Proof. intros [[->%elem_of_singleton | ->%elem_of_singleton]%elem_of_union | ->%elem_of_singleton]%elem_of_union; lia. Qed.

Lemma rwlock_exclusion_witness :
  pthread_rwlock_trywrlock 2 (Rwlock 1 1 1 1) = (Rwlock 1 1 1 1, EBUSY) ∧
  pthread_rwlock_tryrdlock 2 (Rwlock 1 1 1 1) = (Rwlock 1 1 1 1, EBUSY).
Proof.
  destruct (rwlock_exclusion true {[1%nat; 2%nat; 3%nat]} (Rwlock 1 1 1 1) contended 1 (Rthread 1 (Out 0))
    contended_ids (contended_run true) eq_refl ltac:(reflexivity)) as (_ & _ & H).
  destruct (H 2%nat (Rthread 0 (Waits true false)) eq_refl ltac:(discriminate)) as [H1 H2].
  split; [exact H1 | apply H2; discriminate].
Defined.

Lemma rwlock_no_lost_wakeup_witness :
  precondition false (Rwlock 1 1 1 1) 3 = false.
Proof.
  exact (proj1 (rwlock_no_lost_wakeup {[1%nat; 2%nat; 3%nat]} (Rwlock 1 1 1 1) contended 3 (Rthread 0 (Waits false false)) false
    contended_ids (contended_run false) eq_refl eq_refl)).
Defined.

(** With time-outs a wake-up can be lost: a writer whose wait has timed out still counts as
    pending until it gets the mutex, so a reader that the last unlock woke finds a pending
    writer and goes back to sleep; the writer then gives up and wakes nobody.  The lock is free,
    the reader's precondition holds, and no thread is left to wake it. *)
Lemma rwlock_timeout_strands :
  ∃ rw T, rtc (rwstep true) (rw_start {[1%nat; 2%nat; 3%nat]}) (rw, T) ∧ rw = Rwlock 0 1 0 0 ∧
    stat <$> T !! 1%nat = Some (Out 0) ∧ stat <$> T !! 2%nat = Some (Out ETIMEDOUT) ∧
    stat <$> T !! 3%nat = Some (Waits false false) ∧ read_precondition rw 3 = true.
Proof.
  do 2 eexists. split.
  - etrans; [apply contended_run|].
    rwgo (rw_unlock true _ _ 1). rwgo (rw_again true _ _ 3). rwgo (rw_timeout true _ _ 2). apply rtc_refl.
  - split_and!; reflexivity.
Qed.

(** A thread that reads and locks again for reading while a writer waits sleeps, and neither of
    the two can go on, although a thread may lock several times in the same mode. *)
Lemma rwlock_reread_deadlocks :
  ∃ rw T, rtc (rwstep false) (rw_start {[1%nat; 2%nat]}) (rw, T) ∧
    T !! 1%nat = Some (Rthread 1 (Waits false false)) ∧ T !! 2%nat = Some (Rthread 0 (Waits true false)) ∧
    read_precondition rw 1 = false ∧ write_precondition rw 2 = false.
Proof.
  do 2 eexists. split.
  - rwgo (rw_lock false _ _ 1 _ _ false). rwgo (rw_lock false _ _ 2 _ _ true). rwgo (rw_lock false _ _ 1 _ _ false). apply rtc_refl.
  - split_and!; reflexivity.
Qed.
