(* ===== verification/ThreadList.v ===== *)
(** * The list of threads in memory ([libc/bionic/pthread.c])

    The descriptors of threads are linked by [next], and [pref] points to the word that
    points to the descriptor: the head of the list or the [next] of the one before.  The
    other components use the list as the sequence of its threads, which this file
    justifies: adding puts a thread in front, removing takes it out wherever it is, and
    the search of [pthread_join] finds it; removing the last thread writes through the
    null pointer. *)
From stdpp Require Import base gmap list.
From S2P Require Import Prelude.

Inductive ref := Head | NextOf (u : nat).
Record node := Node { next : option nat; pref : ref }.
Record tlist := Tlist { gThreadList : option nat; nodes : gmap nat node }.

(** [*r] as a value and as a place. *)
Definition load (r : ref) (s : tlist) : option (option nat) :=
  match r with Head => Some (gThreadList s) | NextOf u => next <$> nodes s !! u end.
Definition store (r : ref) (v : option nat) (s : tlist) : option tlist :=
  match r with
  | Head => Some (Tlist v (nodes s))
  | NextOf u => n ← nodes s !! u; Some (Tlist (gThreadList s) (<[u := Node v (pref n)]> (nodes s)))
  end.
Definition set_pref (u : nat) (r : ref) (s : tlist) : option tlist :=
  n ← nodes s !! u; Some (Tlist (gThreadList s) (<[u := Node (next n) r]> (nodes s))).

Definition internal_add (thread : nat) (s : tlist) : option tlist :=
  s ← set_pref thread Head s;
  nxt ← load Head s;
  s ← store (NextOf thread) nxt s;
  s ← match nxt with Some y => set_pref y (NextOf thread) s | None => Some s end;
  store Head (Some thread) s.
Definition internal_remove_locked (thread : nat) (s : tlist) : option tlist :=
  n ← nodes s !! thread;
  match next n with
  | None => None
  | Some y =>
      s ← set_pref y (pref n) s;
      n ← nodes s !! thread;
      store (pref n) (next n) s
  end.
(** The loop that looks for a thread. *)
Fixpoint find_thread (fuel : nat) (thread : option nat) (thid : nat) (s : tlist) : option bool :=
  match thread, fuel with
  | None, _ => Some false
  | _, O => None
  | Some u, S fuel =>
      if decide (u = thid) then Some true else n ← nodes s !! u; find_thread fuel (next n) thid s
  end.

(** ** The sequence a list holds *)
Fixpoint chain (ns : gmap nat node) (r : ref) (p : option nat) (L : list nat) : Prop :=
  match L with
  | [] => p = None
  | x :: L => p = Some x ∧ ∃ n, ns !! x = Some n ∧ pref n = r ∧ chain ns (NextOf x) (next n) L
  end.
Definition rep (s : tlist) (L : list nat) : Prop := NoDup L ∧ chain (nodes s) Head (gThreadList s) L.

Lemma chain_other ns z n r p L : z ∉ L -> chain ns r p L -> chain (<[z := n]> ns) r p L.
Proof.
  revert r p. induction L as [|x L IH]; intros r p Hz; cbn [chain]; [done|].
  intros (-> & m & Hm & Hr & Hc). apply not_elem_of_cons in Hz as [Hzx HzL].
  split; [done|]. exists m. rewrite lookup_insert_ne by done. auto.
Qed.

(** Taking [x] out from between what points to it and [y]. *)
Lemma chain_remove ns r p L1 x y L2 :
  NoDup (L1 ++ x :: y :: L2) -> chain ns r p (L1 ++ x :: y :: L2) ->
  ∃ nx ny, ns !! x = Some nx ∧ ns !! y = Some ny ∧ next nx = Some y ∧ x <> y ∧
    let ns1 := <[y := Node (next ny) (pref nx)]> ns in
    match last L1 with
    | None => p = Some x ∧ pref nx = r ∧ chain ns1 r (Some y) (y :: L2)
    | Some z => pref nx = NextOf z ∧ ∃ nz, ns1 !! z = Some nz ∧
        chain (<[z := Node (Some y) (pref nz)]> ns1) r p (L1 ++ y :: L2)
    end.
Proof.
  revert r p. induction L1 as [|a L1 IH]; intros r p Hnd; cbn [app chain].
  - intros (-> & nx & Hx & Hr & Hy & ny & Hny & Hry & Hc). apply NoDup_cons in Hnd as [Hx2 [Hy2 Hnd]%NoDup_cons].
    apply not_elem_of_cons in Hx2 as [Hxy _]. exists nx, ny. cbn. split_and!; try done.
    eexists. rewrite lookup_insert_eq. split_and!; [done | done | by apply chain_other].
  - intros (-> & na & Ha & Hra & Hc). apply NoDup_cons in Hnd as [Hnin Hnd].
    destruct (IH _ _ Hnd Hc) as (nx & ny & Hx & Hy & Hnx & Hxy & Hl). exists nx, ny. split_and!; try done.
    assert (Hay : a <> y ∧ a ∉ L1 ++ y :: L2) by set_solver. destruct Hay as [Hay HaL].
    rewrite last_cons. destruct (last L1) as [z|] eqn:El; cbn zeta.
    + destruct Hl as (Hp & nz & Hz & Hch). split; [done|]. exists nz. split; [done|]. split; [done|].
      assert (a <> z). { intros ->. apply HaL. apply elem_of_app. left. apply last_Some_elem_of in El. done. }
      exists na. rewrite !lookup_insert_ne by done. auto.
    + apply last_None in El as ->. destruct Hl as (_ & Hp & Hch). split; [done|]. exists na.
      rewrite lookup_insert_ne by done. split; [done|]. split; [done|].
      exists (Node (Some y) (pref na)). rewrite lookup_insert_eq. split_and!; [done | done |]. by apply chain_other.
Qed.

(** ** The operations are those on sequences *)
Lemma internal_add_rep s L x :
  rep s L -> x ∉ L -> is_Some (nodes s !! x) -> ∃ s', internal_add x s = Some s' ∧ rep s' (x :: L).
Proof.
  intros [Hnd Hc] Hx [n Hn]. unfold internal_add, set_pref, load, store. cbn. rewrite Hn. cbn. rewrite lookup_insert_eq. cbn.
  rewrite insert_insert_eq. destruct L as [|y L]; cbn [chain] in Hc.
  - rewrite Hc. cbn. eexists. split; [done|]. split; [apply NoDup_singleton|]. cbn. split; [done|].
    eexists. rewrite lookup_insert_eq. done.
  - destruct Hc as (-> & ny & Hy & Hr & Hc). apply not_elem_of_cons in Hx as [Hxy HxL]. cbn.
    rewrite lookup_insert_ne by done. rewrite Hy. cbn. eexists. split; [done|].
    split; [by apply NoDup_cons; split; [rewrite not_elem_of_cons|]|]. apply NoDup_cons in Hnd as [HyL _].
    cbn. split; [done|]. eexists. rewrite lookup_insert_ne, lookup_insert_eq by done. split_and!; [done | done | done |].
    eexists. rewrite lookup_insert_eq. split_and!; [done | done |].
    by do 2 (apply chain_other; [done|]).
Qed.

Lemma internal_remove_rep s L1 x y L2 :
  rep s (L1 ++ x :: y :: L2) -> ∃ s', internal_remove_locked x s = Some s' ∧ rep s' (L1 ++ y :: L2).
Proof.
  intros [Hnd Hc]. destruct (chain_remove _ _ _ _ _ _ _ Hnd Hc) as (nx & ny & Hx & Hy & Hnx & Hxy & Hl).
  assert (Hnd' : NoDup (L1 ++ y :: L2)).
  { revert Hnd. rewrite !NoDup_app, !NoDup_cons. set_solver. }
  unfold internal_remove_locked, set_pref. rewrite Hx. cbn. rewrite Hnx, Hy. cbn. rewrite lookup_insert_ne, Hx by done. cbn.
  rewrite Hnx. destruct (last L1) as [z|] eqn:El; cbn zeta in Hl.
  - destruct Hl as (-> & nz & Hz & Hch). cbn. rewrite Hz. cbn. eexists. split; [done | split; done].
  - destruct Hl as (_ & -> & Hch). apply last_None in El as ->. cbn. eexists. split; [done | split; done].
Qed.
Lemma chain_end ns r p L x : chain ns r p (L ++ [x]) -> ∃ n, ns !! x = Some n ∧ next n = None.
Proof.
  revert r p. induction L as [|a L IH]; intros r p; cbn [app chain].
  - intros (_ & n & Hn & _ & He). by exists n.
  - intros (_ & n & _ & _ & Hc). by apply IH in Hc.
Qed.
(** The last thread of the list cannot be removed. *)
Lemma internal_remove_last s L x : rep s (L ++ [x]) -> internal_remove_locked x s = None.
Proof.
  intros [_ Hc]. destruct (chain_end _ _ _ _ _ Hc) as (n & Hn & He). unfold internal_remove_locked. rewrite Hn. cbn. by rewrite He.
Qed.
Lemma find_thread_rep s L u : rep s L -> find_thread (length L) (gThreadList s) u s = Some (bool_decide (u ∈ L)).
Proof.
  intros [_ Hc]. revert Hc. generalize Head. generalize (gThreadList s). induction L as [|x L IH]; intros p r; cbn [chain length find_thread].
  - intros ->. rewrite bool_decide_eq_false_2; [done | apply not_elem_of_nil].
  - intros (-> & n & Hn & _ & Hc). destruct (decide (x = u)) as [->|E].
    + f_equal. symmetry. apply bool_decide_eq_true_2. constructor.
    + rewrite Hn. cbn. rewrite (IH _ _ Hc). f_equal. apply bool_decide_ext. set_solver.
Qed.
