(* ===== verification/Tls.v ===== *)
(** * The map of thread-local storage keys ([libc/bionic/pthread.c])

    The global map of the keys that are allocated: a bitmap of two words, filled at its
    first use, and an array of destructors.  A destructor is its address, 0 for none.
    The map is only used with its lock held, so its operations are functions. *)
From stdpp Require Import base list.
From Stdlib Require Import ZArith Lia.
From S2P Require Import Prelude Futex.
#[local] Open Scope Z_scope.

Definition ENOMEM : Z := 12.
Definition ESRCH : Z := 3.

Definition BIONIC_TLS_SLOTS : Z := 64.
Definition TLS_SLOT_SELF : Z := 0.
Definition TLS_SLOT_THREAD_ID : Z := 1.
Definition TLS_SLOT_ERRNO : Z := 2.
Definition TLS_SLOT_MAX_WELL_KNOWN : Z := TLS_SLOT_ERRNO.
Definition TLS_DEFAULT_ALLOC_MAP : Z := 0x0000001F.

Definition TLSMAP_START : Z := TLS_SLOT_MAX_WELL_KNOWN + 1.
Definition TLSMAP_SIZE : Z := BIONIC_TLS_SLOTS.
Definition TLSMAP_BITS : Z := 32.
Definition TLSMAP_WORDS : Z := (TLSMAP_SIZE + TLSMAP_BITS - 1) / TLSMAP_BITS.

Record tlsmap_t := Tlsmap { init : bool; map : list Z; dtors : list Z }.
Definition TLSMAP_WORD (m : tlsmap_t) (k : Z) : Z := map m !!! Z.to_nat (k / TLSMAP_BITS).
Definition set_word (k v : Z) (m : tlsmap_t) : tlsmap_t :=
  Tlsmap (init m) (<[Z.to_nat (k / TLSMAP_BITS) := v]> (map m)) (dtors m).
Definition set_dtor (k dtor : Z) (m : tlsmap_t) : tlsmap_t :=
  Tlsmap (init m) (map m) (<[Z.to_nat k := dtor]> (dtors m)).
Definition TLSMAP_MASK (k : Z) : Z := Z.shiftl 1 (Z.land k (TLSMAP_BITS - 1)).
Definition TLSMAP_VALIDATE_KEY (key : Z) : bool := (TLSMAP_START <=? key) && (key <? TLSMAP_SIZE).

(** The static variable before its first use. *)
Definition tlsmap_zero : tlsmap_t :=
  Tlsmap false (replicate (Z.to_nat TLSMAP_WORDS) 0) (replicate (Z.to_nat TLSMAP_SIZE) 0).

Definition tlsmap_lock (m : tlsmap_t) : tlsmap_t :=
  if negb (init m)
  then let m := set_word 0 TLS_DEFAULT_ALLOC_MAP m in Tlsmap true (map m) (dtors m)
  else m.
Definition tlsmap_test (m : tlsmap_t) (key : Z) : bool :=
  negb (Z.land (TLSMAP_WORD m key) (TLSMAP_MASK key) =? 0).
Definition tlsmap_set (m : tlsmap_t) (key dtor : Z) : tlsmap_t :=
  set_dtor key dtor (set_word key (Z.lor (TLSMAP_WORD m key) (TLSMAP_MASK key)) m).
Definition tlsmap_clear (m : tlsmap_t) (key : Z) : tlsmap_t :=
  set_dtor key 0 (set_word key (Z.land (TLSMAP_WORD m key) (Z.lnot (TLSMAP_MASK key))) m).

(** The loop over the keys from [key] on, [n] of them. *)
Fixpoint alloc_loop (m : tlsmap_t) (dtor key : Z) (n : nat) : tlsmap_t * Z :=
  match n with
  | O => (m, -1)
  | S n => if negb (tlsmap_test m key) then (tlsmap_set m key dtor, key) else alloc_loop m dtor (key + 1) n
  end.
Definition tlsmap_alloc (m : tlsmap_t) (dtor : Z) : tlsmap_t * Z :=
  alloc_loop m dtor TLSMAP_START (Z.to_nat (TLSMAP_SIZE - TLSMAP_START)).

(** The map after the call, and the key or the error. *)
Definition pthread_key_create (destructor_function : Z) (m : tlsmap_t) : tlsmap_t * (Z + Z) :=
  let m := tlsmap_lock m in
  let '(m, k) := tlsmap_alloc m destructor_function in
  if 0 <=? k then (m, inr k) else (m, inl ENOMEM).

(** ** The bitmap is a set of keys *)
Record tls_wf (m : tlsmap_t) : Prop := TlsWf {
  tls_words : length (map m) = 2%nat;
  tls_dtors : length (dtors m) = 64%nat
}.
Definition key_range (k : Z) : Prop := 0 <= k < 64.

Lemma validate_range k : TLSMAP_VALIDATE_KEY k = true -> 3 <= k < 64.
Proof. unfold TLSMAP_VALIDATE_KEY, TLSMAP_START, TLSMAP_SIZE, TLS_SLOT_MAX_WELL_KNOWN, TLS_SLOT_ERRNO, BIONIC_TLS_SLOTS. lia. Qed.
Lemma word_index k : key_range k -> (Z.to_nat (k / TLSMAP_BITS) < 2)%nat.
Proof. intros Hk. unfold key_range, TLSMAP_BITS in *. assert (0 <= k / 32 < 2) by (split; [apply Z.div_pos | apply Z.div_lt_upper_bound]; lia). lia. Qed.
Lemma mask_spec k : TLSMAP_MASK k = 2 ^ (k mod 32).
Proof.
  unfold TLSMAP_MASK, TLSMAP_BITS. change (32 - 1) with (Z.ones 5). rewrite Z.land_ones by lia.
  rewrite Z.shiftl_1_l. done.
Qed.
Lemma land_bit w i : 0 <= i -> negb (Z.land w (2 ^ i) =? 0) = Z.testbit w i.
Proof.
  intros Hi. destruct (Z.testbit w i) eqn:E.
  - apply negb_true_iff, Z.eqb_neq. intros H. apply (f_equal (fun z => Z.testbit z i)) in H.
    by rewrite Z.land_spec, E, Z.pow2_bits_true, Z.bits_0 in H by lia.
  - apply negb_false_iff, Z.eqb_eq. apply Z.bits_inj'. intros n Hn.
    rewrite Z.land_spec, Z.bits_0. destruct (decide (n = i)) as [->|]; [by rewrite E|].
    rewrite Z.pow2_bits_false by lia. apply andb_false_r.
Qed.
Lemma test_bit m k : tlsmap_test m k = Z.testbit (TLSMAP_WORD m k) (k mod 32).
Proof. unfold tlsmap_test. rewrite mask_spec. apply land_bit. apply Z.mod_pos_bound. lia. Qed.

Lemma wf_zero : tls_wf tlsmap_zero.
Proof. by split. Qed.
Lemma wf_lock m : tls_wf m -> tls_wf (tlsmap_lock m).
Proof. intros [? ?]. unfold tlsmap_lock. destruct (init m); split; cbn; by rewrite ?length_insert. Qed.
Lemma wf_set m k d : tls_wf m -> tls_wf (tlsmap_set m k d).
Proof. intros [? ?]. split; cbn; by rewrite length_insert. Qed.
Lemma wf_clear m k : tls_wf m -> tls_wf (tlsmap_clear m k).
Proof. intros [? ?]. split; cbn; by rewrite length_insert. Qed.
#[export] Hint Resolve wf_zero wf_lock wf_set wf_clear : tls.

Lemma lock_lock m : tlsmap_lock (tlsmap_lock m) = tlsmap_lock m.
Proof. unfold tlsmap_lock. by destruct (init m) eqn:E; cbn; rewrite ?E. Qed.
Lemma lock_set m k d : tlsmap_lock (tlsmap_set (tlsmap_lock m) k d) = tlsmap_set (tlsmap_lock m) k d.
Proof. unfold tlsmap_lock. by destruct (init m) eqn:E; cbn; rewrite ?E. Qed.
Lemma lock_clear m k : tlsmap_lock (tlsmap_clear (tlsmap_lock m) k) = tlsmap_clear (tlsmap_lock m) k.
Proof. unfold tlsmap_lock. by destruct (init m) eqn:E; cbn; rewrite ?E. Qed.

(** A key is its word and its bit. *)
Lemma word_set_word m k v j :
  tls_wf m -> key_range k -> key_range j ->
  TLSMAP_WORD (set_word k v m) j = if j / 32 =? k / 32 then v else TLSMAP_WORD m j.
Proof.
  intros [Hw _] Hk Hj. unfold TLSMAP_WORD, set_word. cbn [map]. pose proof (word_index k Hk) as Hi.
  pose proof (Z.div_pos k 32 ltac:(unfold key_range in *; lia) ltac:(lia)).
  pose proof (Z.div_pos j 32 ltac:(unfold key_range in *; lia) ltac:(lia)).
  unfold TLSMAP_BITS in *. destruct (Z.eqb_spec (j / 32) (k / 32)) as [->|Hne].
  - apply list_lookup_total_insert_eq. lia.
  - apply list_lookup_total_insert_ne. lia.
Qed.
Lemma key_split j k : j / 32 = k / 32 -> j mod 32 = k mod 32 -> j = k.
Proof. intros H1 H2. rewrite (Z.div_mod j 32), (Z.div_mod k 32) by lia. lia. Qed.

Lemma test_set m k d j :
  tls_wf m -> key_range k -> key_range j -> tlsmap_test (tlsmap_set m k d) j = (j =? k) || tlsmap_test m j.
Proof.
  intros Hwf Hk Hj. rewrite !test_bit. change (TLSMAP_WORD (tlsmap_set m k d) j) with
    (TLSMAP_WORD (set_word k (Z.lor (TLSMAP_WORD m k) (TLSMAP_MASK k)) m) j). rewrite word_set_word by done.
  pose proof (Z.mod_pos_bound j 32 ltac:(lia)). pose proof (Z.mod_pos_bound k 32 ltac:(lia)).
  destruct (Z.eqb_spec (j / 32) (k / 32)) as [Hd|Hd].
  - rewrite Z.lor_spec, mask_spec, Z.pow2_bits_eqb by lia.
    assert (TLSMAP_WORD m j = TLSMAP_WORD m k) as -> by (unfold TLSMAP_WORD, TLSMAP_BITS; by rewrite Hd).
    rewrite orb_comm. f_equal. destruct (Z.eqb_spec j k) as [->|Hne]; [apply Z.eqb_refl|].
    apply Z.eqb_neq. intros Hm. apply Hne. by apply key_split.
  - destruct (Z.eqb_spec j k) as [->|]; done.
Qed.
Lemma test_clear m k j :
  tls_wf m -> key_range k -> key_range j -> tlsmap_test (tlsmap_clear m k) j = negb (j =? k) && tlsmap_test m j.
Proof.
  intros Hwf Hk Hj. rewrite !test_bit. change (TLSMAP_WORD (tlsmap_clear m k) j) with
    (TLSMAP_WORD (set_word k (Z.land (TLSMAP_WORD m k) (Z.lnot (TLSMAP_MASK k))) m) j). rewrite word_set_word by done.
  pose proof (Z.mod_pos_bound j 32 ltac:(lia)). pose proof (Z.mod_pos_bound k 32 ltac:(lia)).
  destruct (Z.eqb_spec (j / 32) (k / 32)) as [Hd|Hd].
  - rewrite Z.land_spec, Z.lnot_spec, mask_spec, Z.pow2_bits_eqb by lia.
    assert (TLSMAP_WORD m j = TLSMAP_WORD m k) as -> by (unfold TLSMAP_WORD, TLSMAP_BITS; by rewrite Hd).
    rewrite andb_comm. f_equal. f_equal. destruct (Z.eqb_spec j k) as [->|Hne]; [apply Z.eqb_refl|].
    apply Z.eqb_neq. intros Hm. apply Hne. by apply key_split.
  - destruct (Z.eqb_spec j k) as [->|]; done.
Qed.

(** ** Allocation takes the first free key *)
Lemma alloc_loop_spec m d n key m' k :
  0 <= key -> alloc_loop m d key n = (m', k) ->
  (m' = tlsmap_set m k d ∧ key <= k < key + Z.of_nat n ∧ tlsmap_test m k = false ∧
   ∀ j, key <= j < k -> tlsmap_test m j = true) ∨
  (m' = m ∧ k = -1 ∧ ∀ j, key <= j < key + Z.of_nat n -> tlsmap_test m j = true).
Proof.
  revert key. induction n as [|n IH]; intros key Hk; cbn [alloc_loop]; [intros [= <- <-]; right; split_and!; [done.. | lia]|].
  destruct (tlsmap_test m key) eqn:E; cbn [negb].
  - assert (Hcons : ∀ b, (∀ j, key + 1 <= j < b -> tlsmap_test m j = true) -> ∀ j, key <= j < b -> tlsmap_test m j = true).
    { intros b Hall j Hj. destruct (decide (j = key)) as [->|]; [done | apply Hall; lia]. }
    intros [(-> & Hr & Hf & Hall)|(-> & -> & Hall)]%IH; [left | right | lia].
    + split_and!; [done | lia | lia | done | by apply Hcons].
    + split_and!; [done | done |]. apply Hcons. intros j Hj. apply Hall. lia.
  - intros [= <- <-]. left. split_and!; [done | lia | lia | done | lia].
Qed.
Lemma key_create_spec d m m' r :
  pthread_key_create d m = (m', r) ->
  match r with
  | inr k => m' = tlsmap_set (tlsmap_lock m) k d ∧ 3 <= k < 64 ∧ tlsmap_test (tlsmap_lock m) k = false ∧
             ∀ j, 3 <= j < k -> tlsmap_test (tlsmap_lock m) j = true
  | inl e => e = ENOMEM ∧ m' = tlsmap_lock m ∧ ∀ j, 3 <= j < 64 -> tlsmap_test (tlsmap_lock m) j = true
  end.
Proof.
  unfold pthread_key_create. destruct (tlsmap_alloc _ _) as [m1 k] eqn:E.
  apply alloc_loop_spec in E; [|done]. change (TLSMAP_START + Z.of_nat (Z.to_nat (TLSMAP_SIZE - TLSMAP_START))) with 64 in E.
  change TLSMAP_START with 3 in E. destruct E as [(-> & Hr & Hf & Hall)|(-> & -> & Hall)].
  - rewrite (proj2 (Z.leb_le 0 k)) by lia. by intros [= <- <-].
  - by intros [= <- <-].
Qed.
