(* ===== verification/Pthread.v ===== *)
(** * Threads and their storage ([libc/bionic/pthread.c])

    The life of threads: creation, thread-local storage, exit with the destructors of the
    keys, joining and detaching.  The state has the key map, the list of threads, the
    descriptors that are allocated, the storage areas that are mapped, and where each
    thread is in its code.  A thread, its descriptor and its area have the same number,
    which is not used again.  One step is one stretch of code with a lock held, or one
    access outside; [None] is an access to memory that was freed or unmapped, or to the
    null pointer.  The cleanup handlers of [pthread_exit] are client code that runs
    before it, and the area of a thread has the numbers of the thread in the place of
    the addresses in its first two slots. *)
From stdpp Require Import base gmap list.
From Stdlib Require Import ZArith Lia.
From S2P Require Import Prelude Refs Futex Tls.
#[local] Open Scope Z_scope.

Definition PTHREAD_ATTR_FLAG_DETACHED : Z := 0x00000001.
Definition PTHREAD_ATTR_FLAG_USER_STACK : Z := 0x00000002.
Definition PTHREAD_DESTRUCTOR_ITERATIONS : Z := 4.

Record pthread_internal_t := Desc {
  flags : Z; join_count : Z; return_value : Z; intern : bool;
  tls : bool (* not null *)
}.
Definition has_flag (f : Z) (d : pthread_internal_t) : bool := negb (Z.land (flags d) f =? 0).
Definition set_flag (f : Z) (d : pthread_internal_t) : pthread_internal_t :=
  Desc (Z.lor (flags d) f) (join_count d) (return_value d) (intern d) (tls d).
Definition set_join_count (n : Z) (d : pthread_internal_t) : pthread_internal_t :=
  Desc (flags d) n (return_value d) (intern d) (tls d).
Definition set_return_value (v : Z) (d : pthread_internal_t) : pthread_internal_t :=
  Desc (flags d) (join_count d) v (intern d) (tls d).
Definition set_tls (d : pthread_internal_t) : pthread_internal_t :=
  Desc (flags d) (join_count d) (return_value d) (intern d) true.

(** What [pthread_exit] keeps in its local variables, and where a thread is.  A thread in
    client code has the result of its last call, the value it got if it joined a thread. *)
Record exiting := Exiting { retval : Z; user_stack : bool }.
Inductive result := Ret (r : Z) | Joined (u : nat) (v : Z).
Inductive ppc :=
| Created
| Runs (r : result)
| Joins (u : nat) (awake : bool)
| InDtor (x : exiting) (dtor data rounds kk count : Z)
| Cleaned (x : exiting) | ExitDetached (x : exiting) | ExitJoinable (x : exiting)
| Teardown (x : exiting)
| Ended (v : Z).

Record pstate := Pstate {
  tmap : tlsmap_t; gThreadList : list nat; descs : gmap nat pthread_internal_t;
  areas : gmap nat (list Z); pcs : gmap nat ppc
}.
Definition with_map (m : tlsmap_t) (s : pstate) : pstate := Pstate m (gThreadList s) (descs s) (areas s) (pcs s).
Definition with_desc (u : nat) (d : pthread_internal_t) (s : pstate) : pstate :=
  Pstate (tmap s) (gThreadList s) (<[u := d]> (descs s)) (areas s) (pcs s).
Definition with_areas (a : gmap nat (list Z)) (s : pstate) : pstate :=
  Pstate (tmap s) (gThreadList s) (descs s) a (pcs s).
Definition with_pc (t : nat) (p : ppc) (s : pstate) : pstate :=
  Pstate (tmap s) (gThreadList s) (descs s) (areas s) (<[t := p]> (pcs s)).

(** ** The list of threads *)
Definition _pthread_internal_add (u : nat) (s : pstate) : pstate :=
  Pstate (tmap s) (u :: gThreadList s) (descs s) (areas s) (pcs s).
(** The code writes to the thread after [u], which the last one does not have. *)
Definition _pthread_internal_remove_locked (u : nat) (s : pstate) : option pstate :=
  if decide (u ∈ gThreadList s) then
    if decide (last (gThreadList s) = Some u) then None else
    Some (Pstate (tmap s) (filter (.≠ u) (gThreadList s)) (descs s) (areas s) (pcs s))
  else None.
Definition _pthread_internal_free (u : nat) (s : pstate) : option pstate :=
  d ← descs s !! u;
  Some (if intern d then Pstate (tmap s) (gThreadList s) (delete u (descs s)) (areas s) (pcs s) else s).

(** ** Creation *)
Definition _init_thread (attr_flags : Z) : pthread_internal_t := Desc attr_flags 0 0 true false.
(** [calloc_ok], [mkstack_ok] and [clone] are what the system says; [clone] is an error or the
    number of the new thread. *)
Definition pthread_create (t : nat) (attr_flags : Z) (stack_given calloc_ok mkstack_ok : bool) (clone : Z + nat)
    (s : pstate) : pstate :=
  if negb calloc_ok then with_pc t (Runs (Ret ENOMEM)) s else
  if negb stack_given && negb mkstack_ok then with_pc t (Runs (Ret ENOMEM)) s else
  match clone with
  | inl err => with_pc t (Runs (Ret err)) s
  | inr u =>
      let d := _init_thread attr_flags in
      let s := _pthread_internal_add u (with_desc u d s) in
      let s := if stack_given then with_desc u (set_flag PTHREAD_ATTR_FLAG_USER_STACK d) s else s in
      with_pc t (Runs (Ret 0)) (with_pc u Created s)
  end.
Definition new_area (u : nat) : list Z := Z.of_nat u :: Z.of_nat u :: replicate 62 0.
Definition __init_tls (u : nat) (s : pstate) : option pstate :=
  d ← descs s !! u;
  Some (with_areas (<[u := new_area u]> (areas s)) (with_desc u (set_tls d) s)).

(** ** Keys *)

(** The loop of [pthread_key_delete] over the threads. *)
Fixpoint clear_loop (key : Z) (L : list nat) (s : pstate) : option pstate :=
  match L with
  | [] => Some s
  | thr :: L =>
      d ← descs s !! thr;
      if (join_count d <? 0) || negb (tls d) then clear_loop key L s else
      area ← areas s !! thr;
      clear_loop key L (with_areas (<[thr := <[Z.to_nat key := 0]> area]> (areas s)) s)
  end.
Definition pthread_key_delete (key : Z) (s : pstate) : option (pstate * Z) :=
  if negb (TLSMAP_VALIDATE_KEY key) then Some (s, EINVAL) else
  let s := with_map (tlsmap_lock (tmap s)) s in
  if negb (tlsmap_test (tmap s) key) then Some (s, EINVAL) else
  s ← clear_loop key (gThreadList s) s;
  Some (with_map (tlsmap_clear (tmap s) key) s, 0).
Definition pthread_setspecific (t : nat) (key ptr : Z) (s : pstate) : option (pstate * Z) :=
  if TLSMAP_VALIDATE_KEY key then
    let s := with_map (tlsmap_lock (tmap s)) s in
    if tlsmap_test (tmap s) key then
      area ← areas s !! t;
      Some (with_areas (<[t := <[Z.to_nat key := ptr]> area]> (areas s)) s, 0)
    else Some (s, EINVAL)
  else Some (s, EINVAL).
Definition pthread_getspecific (t : nat) (key : Z) (s : pstate) : option Z :=
  if negb (TLSMAP_VALIDATE_KEY key) then Some 0 else
  area ← areas s !! t; area !! Z.to_nat key.

(** ** Exit *)

(** The next key from [kk] on, of [n], that has a value and a destructor. *)
Fixpoint clean_scan (m : tlsmap_t) (area : list Z) (kk : Z) (n : nat) : option Z :=
  match n with
  | O => None
  | S n =>
      if tlsmap_test m kk && negb (area !!! Z.to_nat kk =? 0) && negb (dtors m !!! Z.to_nat kk =? 0)
      then Some kk else clean_scan m area (kk + 1) n
  end.
Definition scan_from (m : tlsmap_t) (area : list Z) (kk : Z) : option Z :=
  clean_scan m area kk (Z.to_nat (TLSMAP_SIZE - kk)).
(** [pthread_key_clean_all] from key [kk] of a round to the next call of a destructor, or to its end. *)
Definition clean_next (t : nat) (x : exiting) (rounds kk count : Z) (s : pstate) : option pstate :=
  let m := tlsmap_lock (tmap s) in
  let s := with_map m s in
  area ← areas s !! t;
  let call k rounds count :=
    Some (with_pc t (InDtor x (dtors m !!! Z.to_nat k) (area !!! Z.to_nat k) rounds (k + 1) (count + 1))
            (with_areas (<[t := <[Z.to_nat k := 0]> area]> (areas s)) s)) in
  match scan_from m area kk with
  | Some k => call k rounds count
  | None =>
      if (count =? 0) || (rounds - 1 <=? 0) then Some (with_pc t (Cleaned x) s) else
      match scan_from m area TLSMAP_START with
      | Some k => call k (rounds - 1) 0
      | None => Some (with_pc t (Cleaned x) s)
      end
  end.
Definition pthread_exit (t : nat) (v : Z) (s : pstate) : option pstate :=
  thread ← descs s !! t;
  clean_next t (Exiting v (has_flag PTHREAD_ATTR_FLAG_USER_STACK thread)) PTHREAD_DESTRUCTOR_ITERATIONS TLSMAP_START 0 s.
Definition exit_check (t : nat) (x : exiting) (s : pstate) : option pstate :=
  thread ← descs s !! t;
  Some (with_pc t (if has_flag PTHREAD_ATTR_FLAG_DETACHED thread then ExitDetached x else ExitJoinable x) s).
Definition exit_detached (t : nat) (x : exiting) (s : pstate) : option pstate :=
  s ← _pthread_internal_remove_locked t s;
  s ← _pthread_internal_free t s;
  Some (with_pc t (Teardown x) s).
(** [pthread_cond_broadcast] on the condition of thread [t]. *)
Definition wake_joiner (t : nat) (p : ppc) : ppc :=
  match p with Joins u aw => if decide (u = t) then Joins u true else p | _ => p end.
Definition wake_joiners (t : nat) (s : pstate) : pstate :=
  Pstate (tmap s) (gThreadList s) (descs s) (areas s) (wake_joiner t <$> pcs s).
Definition exit_joinable (t : nat) (x : exiting) (s : pstate) : option pstate :=
  thread ← descs s !! t;
  let thread := set_return_value (retval x) thread in
  let s := if 0 <? join_count thread then wake_joiners t (with_desc t thread s)
           else with_desc t (set_join_count (-1) thread) s in
  Some (with_pc t (Teardown x) s).
(** [_exit_with_stack_teardown] unmaps the stack, with the area in it. *)
Definition teardown (t : nat) (x : exiting) (s : pstate) : pstate :=
  with_pc t (Ended (retval x)) (if user_stack x then s else with_areas (delete t (areas s)) s).

(** ** Joining and detaching *)
Definition join_end (t u : nat) (count : Z) (s : pstate) : option pstate :=
  thread ← descs s !! u;
  s ← (if count <=? 0 then s ← _pthread_internal_remove_locked u s; _pthread_internal_free u s else Some s);
  Some (with_pc t (Runs (Joined u (return_value thread))) s).
Definition pthread_join (t u : nat) (s : pstate) : option pstate :=
  if decide (u ∈ gThreadList s) then
    thread ← descs s !! u;
    if has_flag PTHREAD_ATTR_FLAG_DETACHED thread then Some (with_pc t (Runs (Ret EINVAL)) s) else
    let count := join_count thread in
    if 0 <=? count then Some (with_pc t (Joins u false) (with_desc u (set_join_count (count + 1) thread) s))
    else join_end t u count s
  else Some (with_pc t (Runs (Ret ESRCH)) s).
(** After [pthread_cond_wait]. *)
Definition join_woken (t u : nat) (s : pstate) : option pstate :=
  thread ← descs s !! u;
  let count := join_count thread - 1 in
  join_end t u count (with_desc u (set_join_count count thread) s).
Definition pthread_detach (t u : nat) (s : pstate) : option pstate :=
  if decide (u ∈ gThreadList s) then
    thread ← descs s !! u;
    if has_flag PTHREAD_ATTR_FLAG_DETACHED thread then Some (with_pc t (Runs (Ret EINVAL)) s) else
    Some (with_pc t (Runs (Ret 0)) (with_desc u (set_flag PTHREAD_ATTR_FLAG_DETACHED thread) s))
  else Some (with_pc t (Runs (Ret ESRCH)) s).

(** ** Steps *)

(** A thread makes calls from its own code and from destructors. *)
Definition in_client (p : ppc) : Prop := match p with Runs _ | InDtor _ _ _ _ _ _ => True | _ => False end.

(** [main] does not exit; [spurious] says whether [pthread_cond_wait] may return on its own. *)
Inductive pstep (main : nat) (spurious : bool) (s : pstate) : option pstate -> Prop :=
| p_create t r attr_flags g c k clone :
    pcs s !! t = Some (Runs r) -> (∀ u, clone = inr u -> pcs s !! u = None) ->
    pstep main spurious s (Some (pthread_create t attr_flags g c k clone s))
| p_start t : pcs s !! t = Some Created -> pstep main spurious s (with_pc t (Runs (Ret 0)) <$> __init_tls t s)
| p_key_create t p d :
    pcs s !! t = Some p -> in_client p -> pstep main spurious s (Some (with_map (pthread_key_create d (tmap s)).1 s))
| p_key_delete t p key :
    pcs s !! t = Some p -> in_client p -> pstep main spurious s (fst <$> pthread_key_delete key s)
| p_setspecific t p key ptr :
    pcs s !! t = Some p -> in_client p -> pstep main spurious s (fst <$> pthread_setspecific t key ptr s)
| p_getspecific t p key :
    pcs s !! t = Some p -> in_client p -> pstep main spurious s ((λ _, s) <$> pthread_getspecific t key s)
| p_exit t r v : pcs s !! t = Some (Runs r) -> t <> main -> pstep main spurious s (pthread_exit t v s)
| p_dtor t x dtor data rounds kk count :
    pcs s !! t = Some (InDtor x dtor data rounds kk count) -> pstep main spurious s (clean_next t x rounds kk count s)
| p_check t x : pcs s !! t = Some (Cleaned x) -> pstep main spurious s (exit_check t x s)
| p_detached t x : pcs s !! t = Some (ExitDetached x) -> pstep main spurious s (exit_detached t x s)
| p_joinable t x : pcs s !! t = Some (ExitJoinable x) -> pstep main spurious s (exit_joinable t x s)
| p_teardown t x : pcs s !! t = Some (Teardown x) -> pstep main spurious s (Some (teardown t x s))
| p_join t r u : pcs s !! t = Some (Runs r) -> pstep main spurious s (pthread_join t u s)
| p_woken t u : pcs s !! t = Some (Joins u true) -> pstep main spurious s (join_woken t u s)
| p_spurious t u :
    spurious = true -> pcs s !! t = Some (Joins u false) -> pstep main spurious s (Some (with_pc t (Joins u true) s))
| p_detach t r u : pcs s !! t = Some (Runs r) -> pstep main spurious s (pthread_detach t u s).
Definition prun (main : nat) (spurious : bool) (s s' : pstate) : Prop := pstep main spurious s (Some s').

(** The main thread, whose descriptor and area are static. *)
Definition pstart (main : nat) : pstate :=
  Pstate tlsmap_zero [main] {[main := Desc 0 0 0 false true]} {[main := new_area main]} {[main := Runs (Ret 0)]}.
