(* ===== verification/PthreadInv.v ===== *)
(** * The invariant of threads and their storage

    The threads of the list are those with a descriptor, the main thread is the last of
    them, the join counts are the numbers of joiners, a joiner that was woken waits for a
    thread that has exited and still has its descriptor, and in the area of a thread
    that has not exited the keys that are not allocated are null.  Every step keeps it,
    and the only step that can fault is the deletion of a key. *)
From stdpp Require Import base gmap list.
From Stdlib Require Import ZArith Lia.
From S2P Require Import Prelude Refs Futex Tls Pthread.
#[local] Open Scope Z_scope.

Definition unalloc (s : pstate) (key : Z) : Prop := tlsmap_test (tlsmap_lock (tmap s)) key = false.
Definition exited_at (s : pstate) (u : nat) (v : Z) : Prop :=
  pcs s !! u = Some (Ended v) ∨ ∃ us, pcs s !! u = Some (Teardown (Exiting v us)).
Definition null_at (s : pstate) (area : list Z) : Prop :=
  length area = 64%nat ∧ ∀ key, 3 <= key < 64 -> unalloc s key -> area !! Z.to_nat key = Some 0.
Definition storage_ok (s : pstate) (t : nat) : Prop := ∃ area, areas s !! t = Some area ∧ null_at s area.
Definition desc_live (s : pstate) (t : nat) (b : bool) : Prop :=
  ∃ d, descs s !! t = Some d ∧ tls d = b ∧ 0 <= join_count d.
Definition live (s : pstate) (t : nat) : Prop := desc_live s t true ∧ storage_ok s t.
Definition gone (s : pstate) (t : nat) (v : Z) : Prop :=
  ∀ d, descs s !! t = Some d -> return_value d = v ∧ join_count d <> 0.
Definition pc_ok (s : pstate) (t : nat) (p : ppc) : Prop :=
  match p with
  | Created => desc_live s t false
  | Runs (Ret _) | Cleaned _ | ExitDetached _ | ExitJoinable _ => live s t
  | InDtor _ _ _ _ kk _ => live s t ∧ 3 <= kk
  | Runs (Joined u v) => live s t ∧ exited_at s u v
  | Joins u aw => live s t ∧ is_Some (pcs s !! u) ∧ (aw = true -> is_Some (descs s !! u) ∧ ∃ v, exited_at s u v)
  | Teardown x => gone s t (retval x) ∧ is_Some (areas s !! t)
  | Ended v => gone s t v
  end.
Definition joins (u : nat) (p : ppc) : Z := match p with Joins w _ => if decide (w = u) then 1 else 0 | _ => 0 end.
Definition stays (p : ppc) : Prop := match p with Runs _ | Joins _ _ => True | _ => False end.

Record pinv (main : nat) (s : pstate) : Prop := Pinv {
  pi_wf : tls_wf (tmap s);
  pi_nodup : NoDup (gThreadList s);
  pi_last : last (gThreadList s) = Some main;
  pi_list : ∀ u, u ∈ gThreadList s <-> is_Some (descs s !! u);
  pi_main : ∃ p, pcs s !! main = Some p ∧ stays p;
  pi_known : ∀ u, is_Some (descs s !! u) -> is_Some (pcs s !! u);
  pi_intern : ∀ u d, descs s !! u = Some d -> u <> main -> intern d = true;
  pi_pc : ∀ t p, pcs s !! t = Some p -> pc_ok s t p;
  pi_count : ∀ u d, descs s !! u = Some d -> -1 <= join_count d ∧ Z.max 0 (join_count d) = msum (joins u) (pcs s)
}.

(** Side conditions on program points. *)
Ltac pc_auto := try solve [done | cbn; tauto | intros; cbn; congruence].

(** ** What steps keep *)
Definition compat (d d' : pthread_internal_t) : Prop :=
  tls d' = tls d ∧ return_value d' = return_value d ∧ intern d' = intern d ∧
  (0 <= join_count d -> 0 <= join_count d') ∧ (join_count d <> 0 -> join_count d' <> 0).
Definition is_gone (p : ppc) : Prop := match p with Teardown _ | Ended _ => True | _ => False end.
Definition owns (p : ppc) : Prop := match p with Created | Teardown _ | Ended _ => False | _ => True end.
Definition frame_desc (p : ppc) (o o' : option pthread_internal_t) : Prop :=
  match o' with Some d' => ∃ d, o = Some d ∧ compat d d' | None => o = None ∨ is_gone p end.

Lemma owns_not_gone p : owns p -> ~ is_gone p.
Proof. destruct p; cbn; tauto. Qed.
Lemma compat_refl d : compat d d.
Proof. by split_and!. Qed.
Lemma frame_desc_refl p o : frame_desc p o o.
Proof. destruct o; cbn; [eauto using compat_refl | by left]. Qed.

Lemma desc_live_frame s s' u b p :
  frame_desc p (descs s !! u) (descs s' !! u) -> ~ is_gone p -> desc_live s u b -> desc_live s' u b.
Proof.
  unfold frame_desc. intros Hf Hp (d & Hd & Htls & Hj). destruct (descs s' !! u) as [d'|] eqn:E.
  - destruct Hf as (d0 & ? & Ht & _ & _ & Hj' & _). simplify_eq. exists d'. rewrite Ht. auto.
  - destruct Hf; [congruence | done].
Qed.
Lemma gone_frame s s' u v p :
  frame_desc p (descs s !! u) (descs s' !! u) -> gone s u v -> gone s' u v.
Proof.
  unfold frame_desc. intros Hf Hg d' Hd'. rewrite Hd' in Hf. destruct Hf as (d & Hd & _ & Hr & _ & _ & Hj).
  destruct (Hg d Hd) as [<- ?]. auto.
Qed.

Lemma pc_ok_frame s s' u p :
  pc_ok s u p -> frame_desc p (descs s !! u) (descs s' !! u) -> (owns p -> storage_ok s u -> storage_ok s' u) ->
  (is_Some (areas s !! u) -> is_Some (areas s' !! u)) -> (∀ w v, exited_at s w v -> exited_at s' w v) ->
  (∀ w, p = Joins w true -> is_Some (descs s !! w) -> is_Some (descs s' !! w)) ->
  (∀ w, is_Some (pcs s !! w) -> is_Some (pcs s' !! w)) -> pc_ok s' u p.
Proof.
  intros Hok Hf Hst Har Hex Hjn Hkn.
  assert (Hlive : owns p -> live s u -> live s' u).
  { intros Hp [Hd Hs]. split; [|auto]. apply (desc_live_frame s s' u true p); [done | by apply owns_not_gone | done]. }
  destruct p as [|[|w v]|w [|]| | | | | |]; cbn in Hok, Hlive |- *; eauto using desc_live_frame, gone_frame.
  - destruct Hok. split; [auto | by apply Hex].
  - destruct Hok as (Hl & Hk & Hw). split_and!; [auto | auto |]. intros _. destruct (Hw eq_refl) as [? [v ?]].
    split; [by apply Hjn | exists v; by apply Hex].
  - destruct Hok as (Hl & Hk & _). split_and!; [auto | auto | done].
  - destruct Hok. split; auto.
  - destruct Hok. split; [by eapply gone_frame | auto].
Qed.

Definition exited_pc (p : ppc) (v : Z) : Prop := p = Ended v ∨ ∃ us, p = Teardown (Exiting v us).
Lemma exited_at_pc s u v : exited_at s u v <-> ∃ p, pcs s !! u = Some p ∧ exited_pc p v.
Proof.
  unfold exited_at, exited_pc. split.
  - intros [H|[us H]]; eexists; (split; [exact H | eauto]).
  - intros (p & Hp & [->|[us ->]]); eauto.
Qed.
Lemma exited_change s s' t p p' w v :
  pcs s !! t = Some p -> pcs s' = <[t := p']> (pcs s) -> (∀ v, exited_pc p v -> exited_pc p' v) ->
  exited_at s w v -> exited_at s' w v.
Proof.
  rewrite !exited_at_pc. intros Ht Es Hex (q & Hq & Hv). rewrite Es. destruct (decide (w = t)) as [->|].
  - rewrite lookup_insert_eq. simplify_eq. eauto.
  - rewrite lookup_insert_ne by done. eauto.
Qed.
Lemma not_exited p v : ~ is_gone p -> exited_pc p v -> False.
Proof. by intros Hp [->|[us ->]]. Qed.

(** What the other threads need after a step that keeps the list. *)
Definition frame (s s' : pstate) (u : nat) (q : ppc) : Prop :=
  frame_desc q (descs s !! u) (descs s' !! u) ∧ (owns q -> storage_ok s u -> storage_ok s' u) ∧
  (is_Some (areas s !! u) -> is_Some (areas s' !! u)).

Lemma frame_same s s' u q :
  descs s' !! u = descs s !! u -> areas s' !! u = areas s !! u -> (∀ k, 3 <= k < 64 -> unalloc s' k -> unalloc s k) -> frame s s' u q.
Proof.
  intros Hd Ha Hk. unfold frame. rewrite Hd, Ha. split_and!; [apply frame_desc_refl | | done].
  intros _ (area & HA & Hl & Hn). exists area. rewrite Ha. split; [done | split; [done|]]. intros key Hr Hu. apply Hn; auto.
Qed.

Section Steps.
Context (main : nat) (s : pstate) (HI : pinv main s).

Lemma inv_move s' t p p' :
  pcs s !! t = Some p -> pcs s' = <[t := p']> (pcs s) -> gThreadList s' = gThreadList s -> tls_wf (tmap s') ->
  (∀ u d, descs s !! u = Some d -> ∃ d', descs s' !! u = Some d' ∧ intern d' = intern d ∧
     -1 <= join_count d' ∧ Z.max 0 (join_count d') = Z.max 0 (join_count d) - joins u p + joins u p') ->
  (∀ u, descs s !! u = None -> descs s' !! u = None) ->
  (t = main -> stays p') -> (∀ v, exited_pc p v -> exited_pc p' v) -> pc_ok s' t p' ->
  (∀ u q, u <> t -> pcs s !! u = Some q -> frame s s' u q) ->
  pinv main s'.
Proof.
  intros Ht Ep EL Hwf Hd Hn Hmain Hex Hok Hfr.
  assert (Hsome : ∀ u, is_Some (descs s' !! u) <-> is_Some (descs s !! u)).
  { intros u. destruct (descs s !! u) as [d|] eqn:E.
    - destruct (Hd u d E) as (d' & -> & _). by split.
    - by rewrite (Hn u E). }
  assert (Hback : ∀ u d', descs s' !! u = Some d' -> ∃ d, descs s !! u = Some d ∧ intern d' = intern d ∧
     -1 <= join_count d' ∧ Z.max 0 (join_count d') = Z.max 0 (join_count d) - joins u p + joins u p').
  { intros u d' E. destruct (descs s !! u) as [d|] eqn:Eu; [|by rewrite (Hn u Eu) in E].
    destruct (Hd u d Eu) as (d1 & ? & ?). simplify_eq. eauto. }
  destruct HI as [_ H2 H3 H4 H5 H6 H7 H8 H9]. split; rewrite ?EL; try done.
  - intros u. rewrite Hsome. apply H4.
  - rewrite Ep. destruct (decide (main = t)) as [->|].
    + exists p'. rewrite lookup_insert_eq. auto.
    + destruct H5 as [q ?]. exists q. by rewrite lookup_insert_ne.
  - intros u Hu. rewrite Ep. destruct (decide (u = t)) as [->|]; [by rewrite lookup_insert_eq|].
    rewrite lookup_insert_ne by done. by apply H6, Hsome.
  - intros u d' Hu Hum. destruct (Hback u d' Hu) as (d & Hdu & -> & _). by eapply H7.
  - rewrite Ep. intros u q [[<- <-]|[Hne Hu]]%lookup_insert_Some; [done|].
    destruct (Hfr u q (not_eq_sym Hne) Hu) as (Hf1 & Hf2 & Hf3).
    apply (pc_ok_frame s); try done; [by apply H8 | intros w v; by apply (exited_change s s' t p p') | intros w _ Hw; by apply Hsome |].
    intros w Hw. rewrite Ep. destruct (decide (w = t)) as [->|]; [by rewrite lookup_insert_eq | by rewrite lookup_insert_ne].
  - intros u d' Hu. destruct (Hback u d' Hu) as (d & Hdu & _ & Hm & E). split; [done|]. rewrite Ep, E.
    rewrite (msum_update _ _ t p) by done. destruct (H9 u d Hdu). lia.
Qed.

(** Steps that keep the descriptors, and those that only move a thread. *)
Lemma inv_keep s' t p p' :
  pcs s !! t = Some p -> pcs s' = <[t := p']> (pcs s) -> gThreadList s' = gThreadList s -> tls_wf (tmap s') ->
  descs s' = descs s -> (∀ u, joins u p' = joins u p) ->
  (t = main -> stays p') -> (∀ v, exited_pc p v -> exited_pc p' v) -> pc_ok s' t p' ->
  (∀ u q, u <> t -> pcs s !! u = Some q -> frame s s' u q) ->
  pinv main s'.
Proof.
  intros Ht Ep EL Hwf Ed Hj Hmain Hex Hok Hfr. apply (inv_move s' t p p'); try done; rewrite ?Ed; [|done].
  intros u d Hd. exists d. rewrite Hj. split_and!; [done | done | by apply (pi_count _ _ HI u d Hd) | lia].
Qed.
Lemma live_of t p : pcs s !! t = Some p -> ~ is_gone p -> p <> Created -> live s t.
Proof. intros Ht Hg Hc. pose proof (pi_pc _ _ HI t p Ht) as H. destruct p as [|[]| | | | | | |]; cbn in *; try done; by destruct H. Qed.
Lemma inv_pc t p p' :
  pcs s !! t = Some p -> (∀ u, joins u p' = joins u p) -> (t = main -> stays p') -> ~ is_gone p ->
  pc_ok (with_pc t p' s) t p' -> pinv main (with_pc t p' s).
Proof.
  intros Ht Hj Hmain Hg Hok. apply (inv_keep _ t p p'); try done; [apply (pi_wf _ _ HI) | |].
  - intros v Hv. by destruct (not_exited p v).
  - intros u q _ _. by apply frame_same.
Qed.
Lemma not_main t p : pcs s !! t = Some p -> ~ stays p -> t <> main.
Proof. intros Ht Hp E. destruct (pi_main _ _ HI) as [q [Hq Hs]]. rewrite <- E in Hq. simplify_eq. done. Qed.

(** A change of the key map, or of the area of one thread. *)
Lemma inv_map m' :
  tls_wf m' -> (∀ k, 3 <= k < 64 -> unalloc (with_map m' s) k -> unalloc s k) -> pinv main (with_map m' s).
Proof.
  intros Hwf Hk. destruct (pi_main _ _ HI) as (p & Hp & Hst).
  apply (inv_keep _ main p p); try done; [symmetry; by apply insert_id | |].
  - apply (pc_ok_frame s); try done; [by apply (pi_pc _ _ HI) | apply frame_desc_refl |].
    by apply (frame_same s (with_map m' s) main p).
  - intros u q _ _. by apply frame_same.
Qed.
Lemma inv_area t area' :
  is_Some (pcs s !! t) -> (∀ area, areas s !! t = Some area -> null_at s area -> null_at s area') ->
  pinv main (with_areas (<[t := area']> (areas s)) s).
Proof.
  intros [p Ht] Ha.
  assert (Hfr : ∀ u q, frame s (with_areas (<[t := area']> (areas s)) s) u q).
  { intros u q. destruct (decide (u = t)) as [->|]; [|by apply frame_same; [| cbn; rewrite lookup_insert_ne |]].
    split_and!; [apply frame_desc_refl | | cbn; by rewrite lookup_insert_eq].
    intros _ (area & Har & Hn). exists area'. split; [cbn; by rewrite lookup_insert_eq | by apply (Ha area)]. }
  destruct (Hfr t p) as (Hf1 & Hf2 & Hf3).
  apply (inv_keep _ t p p); try done; [symmetry; by apply insert_id | apply (pi_wf _ _ HI) | |].
  - intros ->. destruct (pi_main _ _ HI) as (q & ? & ?). by simplify_eq.
  - apply (pc_ok_frame s); try done. by apply (pi_pc _ _ HI).
Qed.
End Steps.

(** ** The key operations *)
Lemma null_insert s area k v :
  null_at s area -> 3 <= k < 64 -> v = 0 ∨ ~ unalloc s k -> null_at s (<[Z.to_nat k := v]> area).
Proof.
  intros [Hl Hn] Hk Hv. split; [by rewrite length_insert|]. intros key Hr Hu.
  destruct (decide (key = k)) as [->|Hne].
  - destruct Hv as [->|Hv]; [|by destruct Hv]. rewrite list_lookup_insert_eq by lia. done.
  - rewrite list_lookup_insert_ne by lia. by apply Hn.
Qed.

Section Keys.
Context (main : nat) (s : pstate) (HI : pinv main s).

Lemma lock_inv : pinv main (with_map (tlsmap_lock (tmap s)) s).
Proof.
  apply inv_map; [done | apply wf_lock, (pi_wf _ _ HI) |].
  intros k _ Hu. unfold unalloc in *. cbn in Hu. by rewrite lock_lock in Hu.
Qed.
Lemma key_create_inv d : pinv main (with_map (pthread_key_create d (tmap s)).1 s).
Proof.
  pose proof (wf_lock _ (pi_wf _ _ HI)) as Hwf.
  destruct (pthread_key_create d (tmap s)) as [m r] eqn:E. apply key_create_spec in E. cbn [fst].
  destruct r as [e|k]; [destruct E as (_ & -> & _); apply lock_inv|]. destruct E as (-> & Hk & Hf & _).
  apply inv_map; [done | by apply wf_set |]. intros j Hj Hu. unfold unalloc in *. cbn in Hu. rewrite lock_set in Hu.
  rewrite test_set in Hu by (unfold key_range; done || lia). by destruct (orb_false_elim _ _ Hu).
Qed.
Lemma setspecific_inv t p key ptr :
  pcs s !! t = Some p -> live s t -> ∃ r, pthread_setspecific t key ptr s = Some r ∧ pinv main r.1.
Proof.
  intros Ht [_ (area & Ha & Hn)]. unfold pthread_setspecific.
  destruct (TLSMAP_VALIDATE_KEY key) eqn:Hv; [|by eexists]. apply validate_range in Hv.
  destruct (tlsmap_test _ _) eqn:Hk; [|eexists; split; [done | apply lock_inv]].
  cbn [areas with_map]. rewrite Ha. eexists. split; [done|].
  apply (inv_area main _ lock_inv t); [by eexists|]. intros a Hla Hna. cbn in Hla. simplify_eq.
  apply null_insert; [done | done |]. right. unfold unalloc. cbn in Hk |- *. rewrite lock_lock. congruence.
Qed.
Lemma getspecific_ok t key : live s t -> is_Some (pthread_getspecific t key s).
Proof.
  intros [_ (area & Ha & Hl & _)]. unfold pthread_getspecific. destruct (TLSMAP_VALIDATE_KEY key) eqn:Hv; [|by eexists].
  apply validate_range in Hv. cbn. rewrite Ha. cbn. apply lookup_lt_is_Some. lia.
Qed.

Lemma scan_spec m area kk n k :
  clean_scan m area kk n = Some k ->
  kk <= k < kk + Z.of_nat n ∧ tlsmap_test m k = true ∧ area !!! Z.to_nat k <> 0 ∧ dtors m !!! Z.to_nat k <> 0.
Proof.
  revert kk. induction n as [|n IH]; intros kk; cbn [clean_scan]; [done|]. case_match eqn:E.
  - intros [= <-]. rewrite !andb_true_iff, !negb_true_iff, !Z.eqb_neq in E. intuition lia.
  - intros ?%IH. intuition lia.
Qed.
Lemma scan_from_range m area kk k : 3 <= kk -> scan_from m area kk = Some k -> kk <= k < 64.
Proof. intros Hk (Hr & _)%scan_spec. change TLSMAP_SIZE with 64 in *. lia. Qed.

(** A destructor is called or the keys are clean. *)
Lemma clean_next_inv t p x rounds kk count :
  pcs s !! t = Some p -> live s t -> ~ is_gone p -> (∀ u, joins u p = 0) -> t <> main -> 3 <= kk ->
  ∃ s', clean_next t x rounds kk count s = Some s' ∧ pinv main s'.
Proof.
  intros Ht [Hd (area & Ha & Hn)] Hg Hj Hm Hkk. unfold clean_next. cbn [areas with_map]. rewrite Ha. cbn.
  set (s1 := with_map (tlsmap_lock (tmap s)) s). pose proof lock_inv as HI1. fold s1 in HI1.
  assert (Hn1 : null_at s1 area) by (destruct Hn; split; [done|]; intros k Hk Hu; unfold unalloc in Hu; cbn in Hu; rewrite lock_lock in Hu; auto).
  assert (Hdone : pinv main (with_pc t (Cleaned x) s1)).
  { apply (inv_pc main s1 HI1 t p); try done. cbn. split; [done | by exists area]. }
  assert (Hcall : ∀ k dtor data r c, 3 <= k < 64 ->
    pinv main (with_pc t (InDtor x dtor data r (k + 1) c) (with_areas (<[t := <[Z.to_nat k := 0]> area]> (areas s)) s1))).
  { intros k dtor data r c Hk. assert (Hnull : null_at s1 (<[Z.to_nat k := 0]> area)) by (apply null_insert; auto).
    eapply (inv_pc main _ (inv_area main s1 HI1 t _ (mk_is_Some _ _ Ht) _) t p); try done.
    split; [|lia]. split; [done|]. exists (<[Z.to_nat k := 0]> area). split; [cbn; by rewrite lookup_insert_eq | done]. Unshelve. done. }
  destruct (scan_from _ _ kk) as [k|] eqn:E.
  - apply scan_from_range in E; [|done]. eexists. split; [done|]. apply Hcall. lia.
  - case_match; [by eexists|]. destruct (scan_from _ _ TLSMAP_START) as [k|] eqn:E2; [|by eexists].
    apply scan_from_range in E2; [|done]. change TLSMAP_START with 3 in E2. eexists. split; [done | by apply Hcall].
Qed.
End Keys.

(** ** [pthread_key_delete] *)
Definition zero_at (key : Z) (a : gmap nat (list Z)) (u : nat) : Prop :=
  ∀ area, a !! u = Some area -> length area = 64%nat -> area !! Z.to_nat key = Some 0.
(** Thread [u] has a storage area in the eyes of the loop. *)
Definition seen (s : pstate) (u : nat) : Prop := ∃ d, descs s !! u = Some d ∧ 0 <= join_count d ∧ tls d = true.

Lemma zero_write key a u area w :
  3 <= key < 64 -> zero_at key a w ∨ w = u -> zero_at key (<[u := <[Z.to_nat key := 0]> area]> a) w.
Proof.
  intros Hk Hw area'. intros [[<- <-]|[Hne Ha]]%lookup_insert_Some; rewrite ?length_insert; intros Hl.
  - apply list_lookup_insert_eq. lia.
  - destruct Hw as [Hw|Hw]; [by apply Hw | congruence].
Qed.

Lemma clear_loop_inv main key L s :
  pinv main s -> 3 <= key < 64 -> (∀ u, u ∈ L -> u ∈ gThreadList s) ->
  match clear_loop key L s with
  | Some s' => pinv main s' ∧ (∃ a, s' = with_areas a s) ∧
      ∀ u, zero_at key (areas s) u ∨ u ∈ L ∧ seen s u -> zero_at key (areas s') u
  | None => ∃ u, seen s u ∧ areas s !! u = None
  end.
Proof.
  intros HI Hk. revert s HI. induction L as [|thr L IH]; intros s HI HL; cbn [clear_loop].
  - split_and!; [done | by exists (areas s); destruct s |]. intros u [?|[[]%elem_of_nil _]]. done.
  - destruct (proj1 (pi_list _ _ HI thr) (HL thr ltac:(constructor))) as [d Hd]. rewrite Hd. cbn.
    assert (HL' : ∀ u, u ∈ L -> u ∈ gThreadList s) by (intros; apply HL; by constructor).
    destruct ((join_count d <? 0) || negb (tls d)) eqn:E.
    + specialize (IH s HI HL'). destruct (clear_loop key L s); [|done]. destruct IH as (H1 & H2 & H3).
      split_and!; [done | done |]. intros u [Hu|[[->|Hu]%elem_of_cons Hs]]; apply H3; auto. left.
      destruct Hs as (d0 & ? & ? & Ht). simplify_eq. rewrite Ht in E. cbn in E. lia.
    + apply orb_false_iff in E as [Ej Et]. assert (Hseen : seen s thr) by (exists d; split_and!; [done | lia | by destruct (tls d)]).
      destruct (areas s !! thr) as [area|] eqn:Ha; cbn; [|by exists thr].
      set (s1 := with_areas _ s).
      assert (HI1 : pinv main s1).
      { apply inv_area; [done | by apply (pi_known _ _ HI); exists d |]. intros a Ha1 Hna. simplify_eq. apply null_insert; auto. }
      specialize (IH s1 HI1 HL'). destruct (clear_loop key L s1) as [s'|].
      * destruct IH as (H1 & [a ->] & H3). split_and!; [done | by exists a|].
        intros u [Hu|[[->|Hu]%elem_of_cons Hs]]; apply H3; [left; apply zero_write; auto.. | by right].
      * destruct IH as (u & Hs & Hn). exists u. split; [done|]. cbn in Hn. apply lookup_insert_None in Hn. by destruct Hn.
Qed.

(** A thread that has exited and whose joiners have not run yet: its area may be unmapped. *)
Definition unmapped_joinable (s : pstate) (u : nat) : Prop :=
  ∃ v d, pcs s !! u = Some (Ended v) ∧ descs s !! u = Some d ∧ 0 < join_count d ∧ areas s !! u = None.

Lemma seen_unmapped main s u : pinv main s -> seen s u -> areas s !! u = None -> unmapped_joinable s u.
Proof.
  intros HI (d & Hd & Hj & Ht) Ha. destruct (pi_known _ _ HI u (mk_is_Some _ _ Hd)) as [p Hp].
  pose proof (pi_pc _ _ HI u p Hp) as Hok.
  assert (Hst : storage_ok s u -> False) by (intros (a & ? & _); congruence).
  destruct p as [|[]| | | | | | |v]; cbn in Hok; unfold live in Hok; try (exfalso; naive_solver).
  - destruct Hok as (d0 & ? & ? & _). simplify_eq. congruence.
  - destruct Hok as [_ [? ?]]. congruence.
  - exists v, d. destruct (Hok d Hd) as [_ Hz]. split_and!; [done | done | lia | done].
Qed.

Lemma key_delete_inv main s key :
  pinv main s ->
  match pthread_key_delete key s with
  | Some (s', r) => pinv main s'
  | None => ∃ u, unmapped_joinable s u
  end.
Proof.
  intros HI. unfold pthread_key_delete. destruct (TLSMAP_VALIDATE_KEY key) eqn:Hv; cbn [negb]; [|done].
  apply validate_range in Hv. pose proof (lock_inv main s HI) as HI1. set (s1 := with_map _ s) in *.
  destruct (tlsmap_test (tmap s1) key) eqn:Hk; cbn [negb]; [|done].
  pose proof (clear_loop_inv main key (gThreadList s1) s1 HI1 Hv ltac:(done)) as Hc.
  destruct (clear_loop key (gThreadList s1) s1) as [s2|] eqn:E; cbn.
  2: { destruct Hc as (u & Hs & Ha). exists u. by apply (seen_unmapped main). }
  destruct Hc as (HI2 & [a ->] & Hz). cbn [tmap with_areas with_map] in *.
  set (s2 := with_areas a s1) in *. change (tlsmap_lock (tmap s)) with (tlsmap_lock (tmap s)).
  assert (Hfr : ∀ u q, pcs s2 !! u = Some q -> frame s2 (with_map (tlsmap_clear (tlsmap_lock (tmap s)) key) s2) u q).
  { intros u q Hq. split_and!; [apply frame_desc_refl | | done]. intros Ho (area & Ha & Hl & Hn). exists area.
    split; [done | split; [done|]]. intros k Hr Hu. destruct (decide (k = key)) as [->|Hne].
    - apply Hz with (u := u); [|done | done]. right.
      destruct (live_of main s1 HI1 u q Hq) as [(d & Hd & Ht & Hj) _]; [by apply owns_not_gone | by intros -> |].
      split; [apply (pi_list _ _ HI1); by exists d | by exists d].
    - apply Hn; [done|]. unfold unalloc in *. cbn in Hu |- *. rewrite lock_clear, test_clear in Hu by
        (try apply wf_lock, (pi_wf _ _ HI); unfold key_range; lia).
      rewrite (proj2 (Z.eqb_neq k key)) in Hu by done. by rewrite lock_lock. }
  destruct (pi_main _ _ HI2) as (p & Hp & Hs). destruct (Hfr main p Hp) as (Hf1 & Hf2 & Hf3).
  apply (inv_keep main s2 HI2 _ main p p); try done; [symmetry; by apply insert_id | apply wf_clear, wf_lock, (pi_wf _ _ HI) | |].
  - apply (pc_ok_frame s2); try done. by apply (pi_pc _ _ HI2).
  - intros u q _ Hq. by apply Hfr.
Qed.

(** ** Creation *)
Lemma fresh_desc main s u : pinv main s -> pcs s !! u = None -> descs s !! u = None.
Proof.
  intros HI Hu. destruct (descs s !! u) as [d|] eqn:E; [|done].
  destruct (pi_known _ _ HI u (mk_is_Some _ _ E)). congruence.
Qed.
Lemma fresh_joins main s u : pinv main s -> pcs s !! u = None -> msum (joins u) (pcs s) = 0.
Proof.
  intros HI Hu. assert (Hnn : nonneg (joins u) (pcs s)) by (intros x p _; destruct p; cbn; try case_decide; lia).
  pose proof (msum_nonneg _ _ Hnn). destruct (decide (0 < msum (joins u) (pcs s))) as [Hp|]; [|lia].
  destruct (msum_pos _ _ Hnn Hp) as (x & p & Hx & Hj). destruct p as [| |w aw| | | | | |]; cbn in Hj; try lia.
  case_decide; [subst w | lia]. destruct (pi_pc _ _ HI x _ Hx) as (_ & [q Hq] & _). congruence.
Qed.

Lemma inv_add main s u d :
  pinv main s -> pcs s !! u = None -> tls d = false -> join_count d = 0 -> intern d = true ->
  pinv main (with_pc u Created (_pthread_internal_add u (with_desc u d s))).
Proof.
  intros HI Hu Htls Hj Hin. pose proof (fresh_desc _ _ _ HI Hu) as Hd.
  set (s' := with_pc u Created _).
  assert (Hex : ∀ w v, exited_at s w v -> exited_at s' w v).
  { intros w v. rewrite !exited_at_pc. intros (p & Hp & Hv). exists p. split; [|done]. cbn. rewrite lookup_insert_ne; [done | congruence]. }
  assert (Hsome : ∀ w, is_Some (descs s' !! w) <-> w = u ∨ is_Some (descs s !! w)).
  { intros w. cbn. rewrite lookup_insert_is_Some. destruct (decide (u = w)); intuition congruence. }
  split.
  - apply (pi_wf _ _ HI).
  - cbn. constructor; [|by apply (pi_nodup _ _ HI)]. rewrite (pi_list _ _ HI), Hd. by intros [].
  - cbn. pose proof (pi_last _ _ HI) as Hl. by destruct (gThreadList s).
  - intros w. rewrite Hsome. cbn. rewrite elem_of_cons, (pi_list _ _ HI). done.
  - destruct (pi_main _ _ HI) as (p & Hp & Hs). exists p. split; [|done]. cbn. rewrite lookup_insert_ne; [done | congruence].
  - intros w [->|Hw]%Hsome; cbn; [by rewrite lookup_insert_eq|]. rewrite lookup_insert_is_Some'. right. by apply (pi_known _ _ HI).
  - intros w d'. cbn. intros [[<- <-]|[_ Hw]]%lookup_insert_Some; [done | by apply (pi_intern _ _ HI)].
  - intros w p. cbn. intros [[<- <-]|[Hne Hw]]%lookup_insert_Some.
    + exists d. cbn. rewrite lookup_insert_eq. split_and!; [done | done | lia].
    + apply (pc_ok_frame s); try done; [by apply (pi_pc _ _ HI) | | |].
      * cbn. rewrite lookup_insert_ne by done. apply frame_desc_refl.
      * intros x _ Hx. apply Hsome. by right.
      * intros x Hx. cbn. rewrite lookup_insert_is_Some'. by right.
  - intros w d'. cbn. rewrite msum_insert by done. cbn [joins]. rewrite Z.add_0_l.
    intros [[<- <-]|[_ Hw]]%lookup_insert_Some; [|by apply (pi_count _ _ HI)].
    rewrite (fresh_joins _ _ _ HI Hu), Hj. lia.
Qed.

Lemma create_inv main s t r fl g c k clone :
  pinv main s -> pcs s !! t = Some (Runs r) -> (∀ u, clone = inr u -> pcs s !! u = None) ->
  pinv main (pthread_create t fl g c k clone s).
Proof.
  intros HI Ht Hu. assert (Hfail : ∀ e, pinv main (with_pc t (Runs (Ret e)) s)).
  { intros e. apply (inv_pc main s HI t (Runs r)); pc_auto. apply (live_of main s HI t (Runs r)); pc_auto. }
  unfold pthread_create. case_match; [done|]. case_match; [done|]. destruct clone as [e|u]; [done|].
  specialize (Hu u eq_refl). assert (Hne : u <> t) by congruence.
  set (d := if g then set_flag PTHREAD_ATTR_FLAG_USER_STACK (_init_thread fl) else _init_thread fl).
  pose proof (inv_add main s u d HI Hu ltac:(by destruct g) ltac:(by destruct g) ltac:(by destruct g)) as HI1.
  assert (E : with_pc u Created (if g then with_desc u (set_flag PTHREAD_ATTR_FLAG_USER_STACK (_init_thread fl))
      (_pthread_internal_add u (with_desc u (_init_thread fl) s)) else _pthread_internal_add u (with_desc u (_init_thread fl) s)) =
    with_pc u Created (_pthread_internal_add u (with_desc u d s))).
  { subst d. destruct g; [|done]. unfold with_pc, with_desc, _pthread_internal_add. cbn. by rewrite insert_insert_eq. }
  rewrite E. assert (Ht1 : pcs (with_pc u Created (_pthread_internal_add u (with_desc u d s))) !! t = Some (Runs r))
    by (cbn; by rewrite lookup_insert_ne).
  apply (inv_pc main _ HI1 t (Runs r)); pc_auto. apply (live_of main _ HI1 t (Runs r)); pc_auto.
Qed.

Lemma new_area_null s u : null_at s (new_area u).
Proof.
  split; [done|]. intros key Hk _. unfold new_area. do 2 (rewrite lookup_cons_ne_0 by lia).
  apply lookup_replicate_2. lia.
Qed.
Lemma start_inv main s t :
  pinv main s -> pcs s !! t = Some Created ->
  ∃ s', with_pc t (Runs (Ret 0)) <$> __init_tls t s = Some s' ∧ pinv main s'.
Proof.
  intros HI Ht. destruct (pi_pc _ _ HI t _ Ht) as (d & Hd & Htls & Hj). unfold __init_tls. rewrite Hd. cbn.
  eexists. split; [done|]. apply (inv_move main s HI _ t Created (Runs (Ret 0))); pc_auto.
  - apply (pi_wf _ _ HI).
  - intros u d0 Hu. cbn. destruct (decide (u = t)) as [->|].
    + rewrite lookup_insert_eq. eexists. simplify_eq. split_and!; [done | done | cbn; lia | cbn; lia].
    + rewrite lookup_insert_ne by done. exists d0. split_and!; [done | done | by apply (pi_count _ _ HI u) | lia].
  - intros u Hu. cbn. rewrite lookup_insert_ne; [done | congruence].
  - intros v Hv. destruct (not_exited Created v); pc_auto.
  - split.
    + exists (set_tls d). cbn. rewrite lookup_insert_eq. done.
    + exists (new_area t). split; [cbn; by rewrite lookup_insert_eq | apply new_area_null].
  - intros u q Hne Hq. apply frame_same; cbn; by rewrite ?lookup_insert_ne.
Qed.

(** ** Removal of a descriptor *)
Definition removed (u : nat) (s : pstate) : pstate :=
  Pstate (tmap s) (filter (.≠ u) (gThreadList s)) (delete u (descs s)) (areas s) (pcs s).
Lemma remove_free s u d main :
  u ∈ gThreadList s -> last (gThreadList s) = Some main -> u <> main -> descs s !! u = Some d -> intern d = true ->
  (s1 ← _pthread_internal_remove_locked u s; _pthread_internal_free u s1) = Some (removed u s).
Proof.
  intros Hin Hl Hne Hd Hi. unfold _pthread_internal_remove_locked. rewrite decide_True by done.
  rewrite decide_False by congruence. cbn. unfold _pthread_internal_free. cbn. by rewrite Hd; cbn; rewrite Hi.
Qed.
Lemma last_filter_ne (L : list nat) u m : last L = Some m -> u <> m -> last (filter (.≠ u) L) = Some m.
Proof.
  intros [L0 ->]%last_Some Hne. rewrite filter_app, filter_cons_True, filter_nil by done. apply last_snoc.
Qed.

Lemma inv_remove main s t p p' u :
  pinv main s -> pcs s !! t = Some p -> is_Some (descs s !! u) -> u <> main ->
  (u <> t -> ∃ q, pcs s !! u = Some q ∧ is_gone q) -> (∀ w, w <> t -> pcs s !! w <> Some (Joins u true)) ->
  (∀ w, w <> u -> joins w p' = joins w p) -> (t = main -> stays p') -> (∀ v, exited_pc p v -> exited_pc p' v) ->
  pc_ok (with_pc t p' (removed u s)) t p' -> pinv main (with_pc t p' (removed u s)).
Proof.
  intros HI Ht Hu Hum Hug Hnj Hj Hmain Hex Hok. split.
  - apply (pi_wf _ _ HI).
  - apply NoDup_filter, (pi_nodup _ _ HI).
  - by apply last_filter_ne; [apply (pi_last _ _ HI) |].
  - intros w. cbn. rewrite list_elem_of_filter, (pi_list _ _ HI), lookup_delete_is_Some. intuition congruence.
  - cbn. destruct (decide (main = t)) as [->|]; [exists p'; rewrite lookup_insert_eq; auto|].
    destruct (pi_main _ _ HI) as (q & ? & ?). exists q. by rewrite lookup_insert_ne.
  - intros w. cbn. rewrite lookup_delete_is_Some, lookup_insert_is_Some'. intros [_ Hw]. right. by apply (pi_known _ _ HI).
  - intros w d. cbn. intros [_ Hw]%lookup_delete_Some. by apply (pi_intern _ _ HI).
  - intros w q. cbn. intros [[<- <-]|[Hne Hw]]%lookup_insert_Some; [done|].
    apply (pc_ok_frame s); try done; [by apply (pi_pc _ _ HI) | | | |].
    + cbn. destruct (decide (w = u)) as [->|]; [|rewrite lookup_delete_ne by done; apply frame_desc_refl].
      rewrite lookup_delete_eq. right. destruct (Hug (not_eq_sym Hne)) as (q' & ? & ?). by simplify_eq.
    + intros x v. by apply (exited_change s _ t p p').
    + intros x -> Hx. cbn. destruct (decide (x = u)) as [->|]; [by destruct (Hnj w) | by rewrite lookup_delete_ne].
    + intros x Hx. cbn. rewrite lookup_insert_is_Some'. by right.
  - intros w d. cbn. intros [Hwu Hw]%lookup_delete_Some. rewrite (msum_update _ _ t p) by done.
    rewrite (Hj w) by done. destruct (pi_count _ _ HI w d Hw). lia.
Qed.

(** ** Exit *)
Lemma check_inv main s t x :
  pinv main s -> pcs s !! t = Some (Cleaned x) -> ∃ s', exit_check t x s = Some s' ∧ pinv main s'.
Proof.
  intros HI Ht. pose proof (not_main main s HI t _ Ht ltac:(cbn; tauto)) as Hm.
  destruct (live_of main s HI t _ Ht) as [(d & Hd & Hr) Hst]; pc_auto.
  unfold exit_check. rewrite Hd. cbn. eexists. split; [done|].
  apply (inv_pc main s HI t (Cleaned x)); pc_auto; case_match; pc_auto; (split; [by exists d | done]).
Qed.
Lemma exit_detached_inv main s t x :
  pinv main s -> pcs s !! t = Some (ExitDetached x) -> ∃ s', exit_detached t x s = Some s' ∧ pinv main s'.
Proof.
  intros HI Ht. pose proof (not_main main s HI t _ Ht ltac:(cbn; tauto)) as Hm.
  destruct (live_of main s HI t _ Ht) as [(d & Hd & Hr) (area & Ha & _)]; pc_auto.
  assert (Hin : t ∈ gThreadList s) by (apply (pi_list _ _ HI); by exists d).
  pose proof (remove_free s t d main Hin (pi_last _ _ HI) Hm Hd (pi_intern _ _ HI t d Hd Hm)) as E.
  unfold exit_detached. destruct (_pthread_internal_remove_locked t s) as [s1|]; [|done]. cbn in E |- *. rewrite E.
  eexists. split; [done|]. apply (inv_remove main s t (ExitDetached x)); pc_auto.
  - intros w Hw Hj. destruct (pi_pc _ _ HI w _ Hj) as (_ & _ & He). destruct (He eq_refl) as (_ & v & [Hv|[us Hv]]); congruence.
  - intros v Hv. by destruct Hv as [|[]].
  - split; [|by exists area]. intros d0. cbn. by rewrite lookup_delete_eq.
Qed.

Lemma wake_joins u t p : joins u (wake_joiner t p) = joins u p.
Proof. destruct p; cbn; try done. by case_decide. Qed.
Lemma wake_exited s t w v : exited_at (wake_joiners t s) w v <-> exited_at s w v.
Proof.
  rewrite !exited_at_pc. cbn. rewrite lookup_fmap. split.
  - intros (p & (q & Hq & ->)%fmap_Some & Hv). exists q. split; [done|]. destruct q; try done. cbn in Hv.
    case_decide; destruct Hv as [|[]]; done.
  - intros (p & Hp & Hv). exists p. rewrite Hp. split; [|done]. by destruct Hv as [->|[us ->]].
Qed.
Lemma wake_inv main s t v : pinv main s -> exited_at s t v -> is_Some (descs s !! t) -> pinv main (wake_joiners t s).
Proof.
  intros HI Hv Hd. destruct HI as [H1 H2 H3 H4 H5 H6 H7 H8 H9]. split; try done.
  - destruct H5 as (p & Hp & Hs). exists (wake_joiner t p). cbn. rewrite lookup_fmap, Hp. split; [done|].
    destruct p; cbn; try done. by case_decide.
  - intros u Hu. cbn. rewrite lookup_fmap, fmap_is_Some. by apply H6.
  - intros w p. cbn. rewrite lookup_fmap. intros (q & Hq & ->)%fmap_Some. pose proof (H8 w q Hq) as Hok.
    assert (Hsame : pc_ok (wake_joiners t s) w q).
    { apply (pc_ok_frame s); try done; [apply frame_desc_refl | intros x y; by rewrite wake_exited |].
      intros x Hx. cbn. by rewrite lookup_fmap, fmap_is_Some. }
    destruct q as [| |u aw| | | | | |]; try done. cbn. case_decide as E; [|done]. subst u.
    destruct Hsame as (Hl & Hk & _). split_and!; [done | done |]. intros _. split; [done|]. exists v. by apply wake_exited.
  - intros u d Hu. cbn. rewrite msum_fmap by (intros; apply wake_joins). by apply H9.
Qed.

(** The descriptor of one thread changes and one thread moves. *)
Lemma inv_desc main s t p p' u d d' :
  pinv main s -> pcs s !! t = Some p -> descs s !! u = Some d ->
  intern d' = intern d -> -1 <= join_count d' ->
  Z.max 0 (join_count d') = Z.max 0 (join_count d) - joins u p + joins u p' ->
  (∀ w, w <> u -> joins w p' = joins w p) -> (t = main -> stays p') -> (∀ v, exited_pc p v -> exited_pc p' v) ->
  (u <> t -> compat d d') -> pc_ok (with_pc t p' (with_desc u d' s)) t p' ->
  pinv main (with_pc t p' (with_desc u d' s)).
Proof.
  intros HI Ht Hd Hin Hj1 Hj Hjw Hmain Hex Hc Hok. apply (inv_move main s HI _ t p p'); try done; [apply (pi_wf _ _ HI) | | |].
  - intros w dw Hw. cbn. destruct (decide (w = u)) as [->|Hne].
    + rewrite lookup_insert_eq. simplify_eq. by exists d'.
    + rewrite lookup_insert_ne by done. exists dw. rewrite (Hjw w Hne). split_and!; [done | done | by apply (pi_count _ _ HI w dw Hw) | lia].
  - intros w Hw. cbn. rewrite lookup_insert_ne; [done | congruence].
  - intros w q Hne Hq. destruct (decide (w = u)) as [->|Hwu].
    + split_and!; [|done | done]. cbn. rewrite lookup_insert_eq. exists d. auto.
    + apply frame_same; cbn; by rewrite ?lookup_insert_ne.
Qed.

Lemma exit_joinable_inv main s t x :
  pinv main s -> pcs s !! t = Some (ExitJoinable x) -> ∃ s', exit_joinable t x s = Some s' ∧ pinv main s'.
Proof.
  intros HI Ht. pose proof (not_main main s HI t _ Ht ltac:(cbn; tauto)) as Hm.
  destruct (live_of main s HI t _ Ht) as [(d & Hd & Htls & Hj) (area & Ha & _)]; pc_auto.
  unfold exit_joinable. rewrite Hd. cbn. eexists. split; [done|].
  assert (Hdo : ∀ d', intern d' = intern d -> -1 <= join_count d' -> join_count d' <> 0 -> return_value d' = retval x ->
    Z.max 0 (join_count d') = Z.max 0 (join_count d) -> pinv main (with_pc t (Teardown x) (with_desc t d' s))).
  { intros d' Hi H1 H2 Hr H3. apply (inv_desc main s t (ExitJoinable x) _ t d); pc_auto; [cbn; lia | |].
    - intros v Hv. by destruct Hv as [|[]].
    - split; [|by exists area]. intros d0. cbn. rewrite lookup_insert_eq. by intros [= <-]. }
  destruct (Z.ltb_spec 0 (join_count d)).
  - assert (HI1 : pinv main (with_pc t (Teardown x) (with_desc t (set_return_value (retval x) d) s)))
      by (apply Hdo; cbn; (done || lia)).
    apply (wake_inv main _ t (retval x)) in HI1; [|right; exists (user_stack x); cbn; rewrite lookup_insert_eq; by destruct x |
      cbn; by rewrite lookup_insert_eq].
    unfold wake_joiners, with_pc, with_desc in HI1 |- *. cbn in HI1 |- *. by rewrite fmap_insert in HI1.
  - apply Hdo; cbn; (done || lia).
Qed.

Lemma teardown_inv main s t x :
  pinv main s -> pcs s !! t = Some (Teardown x) -> pinv main (teardown t x s).
Proof.
  intros HI Ht. pose proof (not_main main s HI t _ Ht ltac:(cbn; tauto)) as Hm.
  destruct (pi_pc _ _ HI t _ Ht) as [Hg _]. unfold teardown.
  apply (inv_keep main s HI _ t (Teardown x) (Ended (retval x))); pc_auto; try (destruct (user_stack x); pc_auto).
  - apply (pi_wf _ _ HI).
  - apply (pi_wf _ _ HI).
  - intros v [|[us E]]; [done|]. simplify_eq. by left.
  - intros v [|[us E]]; [done|]. simplify_eq. by left.
  - intros u q Hne Hq. by apply frame_same.
  - intros u q Hne Hq. apply frame_same; cbn; by rewrite ?lookup_delete_ne.
Qed.

(** ** Joining *)
Lemma joins_nonneg u T : nonneg (joins u) T.
Proof. intros x p _. destruct p; cbn; try case_decide; lia. Qed.
Lemma joiner_counted main s t u aw d :
  pinv main s -> pcs s !! t = Some (Joins u aw) -> descs s !! u = Some d -> 1 <= join_count d ∧
  ∀ w aw', w <> t -> pcs s !! w = Some (Joins u aw') -> 2 <= join_count d.
Proof.
  intros HI Ht Hd. destruct (pi_count _ _ HI u d Hd) as [_ Hc].
  assert (E : ∀ a, joins u (Joins u a) = 1) by (intros; cbn; by rewrite decide_True).
  pose proof (msum_ge _ _ t _ (joins_nonneg u (pcs s)) Ht) as Hge. rewrite E in Hge. split; [lia|].
  intros w aw' Hne Hw. pose proof (msum_two _ _ t _ w _ (joins_nonneg u (pcs s)) Ht Hw (not_eq_sym Hne)) as H2.
  rewrite !E in H2. lia.
Qed.
(** A thread whose join count is negative has exited, and nobody joins it. *)
Lemma zombie_gone main s u d :
  pinv main s -> descs s !! u = Some d -> join_count d < 0 ->
  u <> main ∧ (∀ w aw, pcs s !! w <> Some (Joins u aw)) ∧ exited_at s u (return_value d) ∧
  ∃ q, pcs s !! u = Some q ∧ is_gone q.
Proof.
  intros HI Hd Hj. destruct (pi_known _ _ HI u (mk_is_Some _ _ Hd)) as [p Hp].
  assert (Hg : is_gone p).
  { pose proof (pi_pc _ _ HI u p Hp) as Hok. destruct p as [|[]| | | | | | |]; try done; exfalso; cbn in Hok;
      unfold live, desc_live in Hok; naive_solver lia. }
  split_and!.
  - intros ->. destruct (pi_main _ _ HI) as (q & ? & Hs). simplify_eq. by destruct p.
  - intros w aw Hw. destruct (joiner_counted main s w u aw d HI Hw Hd). lia.
  - pose proof (pi_pc _ _ HI u p Hp) as Hok. destruct p as [| | | | | | |[v us]|v]; try done; cbn in Hok.
    + right. exists us. destruct Hok as [Hok _]. destruct (Hok d Hd) as [<- _]. done.
    + left. destruct (Hok d Hd) as [<- _]. done.
  - by exists p.
Qed.
Lemma awake_gone main s t u :
  pinv main s -> pcs s !! t = Some (Joins u true) ->
  ∃ d, descs s !! u = Some d ∧ u <> main ∧ exited_at s u (return_value d) ∧ ∃ q, pcs s !! u = Some q ∧ is_gone q.
Proof.
  intros HI Ht. destruct (pi_pc _ _ HI t _ Ht) as (_ & _ & He). destruct (He eq_refl) as [[d Hd] [v Hv]].
  exists d. split; [done|]. apply exited_at_pc in Hv as (p & Hp & Hv).
  assert (Hg : is_gone p) by (by destruct Hv as [->|[us ->]]).
  split_and!; [| |by exists p].
  - intros ->. destruct (pi_main _ _ HI) as (q & ? & ?). simplify_eq. by destruct p.
  - apply exited_at_pc. exists p. split; [done|].
    pose proof (pi_pc _ _ HI u p Hp) as Hok. destruct Hv as [->|[us ->]]; cbn in Hok.
    + destruct (Hok d Hd) as [-> _]. by left.
    + destruct Hok as [Hok _]. destruct (Hok d Hd) as [-> _]. right. by exists us.
Qed.

Lemma live_removed main s t p u p' :
  pinv main s -> pcs s !! t = Some p -> owns p -> u <> t -> live (with_pc t p' (removed u s)) t.
Proof.
  intros HI Ht Ho Hne. destruct (live_of main s HI t p Ht) as [(d & Hd & Hr) Hst]; [by apply owns_not_gone | by intros -> |].
  split; [|done]. exists d. cbn. by rewrite lookup_delete_ne.
Qed.
(** The end of a join that removes the thread. *)
Lemma join_remove_inv main s t p u d :
  pinv main s -> pcs s !! t = Some p -> (∃ r, p = Runs r) ∨ p = Joins u true -> descs s !! u = Some d ->
  u <> main -> exited_at s u (return_value d) -> (∃ q, pcs s !! u = Some q ∧ is_gone q) ->
  (∀ w, w <> t -> pcs s !! w <> Some (Joins u true)) ->
  pinv main (with_pc t (Runs (Joined u (return_value d))) (removed u s)).
Proof.
  intros HI Ht Hp Hd Hm Hex (q & Hq & Hg) Hn.
  assert (Ho : owns p ∧ ~ is_gone p) by (destruct Hp as [[r ->] | ->]; cbn; tauto).
  assert (Hne : u <> t) by (intros ->; simplify_eq; by destruct Ho).
  apply (inv_remove main s t p); pc_auto.
  - intros _. by exists q.
  - intros w Hw. destruct Hp as [[r ->] | ->]; cbn; [done|]. by rewrite decide_False.
  - intros v Hv. destruct Ho as [_ Ho]. by destruct (not_exited p v).
  - split; [apply (live_removed main s t p); tauto|]. revert Hex. eapply (exited_change s _ t p); [done | done |].
    intros v Hv. destruct Ho as [_ Ho]. by destruct (not_exited p v).
Qed.

Lemma join_inv main s t r u :
  pinv main s -> pcs s !! t = Some (Runs r) -> ∃ s', pthread_join t u s = Some s' ∧ pinv main s'.
Proof.
  intros HI Ht. destruct (live_of main s HI t _ Ht) as [(dt & Hdt & Hrt) Hst]; pc_auto.
  assert (Hfail : ∀ e, pinv main (with_pc t (Runs (Ret e)) s)).
  { intros e. apply (inv_pc main s HI t (Runs r)); pc_auto. split; [by exists dt | done]. }
  unfold pthread_join. case_decide as Hin; [|by eexists]. apply (pi_list _ _ HI) in Hin as Hd. destruct Hd as [d Hd].
  rewrite Hd. cbn. case_match; [by eexists|].
  destruct (Z.leb_spec 0 (join_count d)) as [Hj|Hj].
  - eexists. split; [done|]. apply (inv_desc main s t (Runs r) (Joins u false) u d); pc_auto.
    + cbn. lia.
    + cbn. rewrite decide_True by done. lia.
    + intros w Hw. cbn. by rewrite decide_False.
    + intros v Hv. by destruct Hv as [|[]].
    + intros _. split_and!; cbn; (done || lia).
    + split_and!; [|cbn; rewrite lookup_insert_is_Some'; right; apply (pi_known _ _ HI); by exists d | done].
      split; [|done]. destruct (decide (u = t)) as [->|].
      * exists (set_join_count (join_count d + 1) d). simplify_eq. cbn. rewrite lookup_insert_eq. intuition lia.
      * exists dt. cbn. by rewrite lookup_insert_ne.
  - destruct (zombie_gone main s u d HI Hd Hj) as (Hm & Hn & Hex & Hg). unfold join_end. rewrite Hd. cbn.
    rewrite (proj2 (Z.leb_le _ _)) by lia.
    rewrite (remove_free s u d main Hin (pi_last _ _ HI) Hm Hd (pi_intern _ _ HI u d Hd Hm)). cbn.
    eexists. split; [done|]. apply (join_remove_inv main s t (Runs r)); eauto.
Qed.

Lemma woken_inv main s t u :
  pinv main s -> pcs s !! t = Some (Joins u true) -> ∃ s', join_woken t u s = Some s' ∧ pinv main s'.
Proof.
  intros HI Ht. destruct (awake_gone main s t u HI Ht) as (d & Hd & Hm & Hex & Hg).
  destruct (joiner_counted main s t u true d HI Ht Hd) as [H1 H2].
  destruct (live_of main s HI t _ Ht) as [(dt & Hdt & Hrt) Hst]; pc_auto.
  assert (Hin : u ∈ gThreadList s) by (apply (pi_list _ _ HI); by exists d).
  unfold join_woken. rewrite Hd. cbn. unfold join_end. cbn. rewrite lookup_insert_eq. cbn.
  destruct (Z.leb_spec (join_count d - 1) 0) as [Hle|Hgt].
  - set (s1 := with_desc _ _ s).
    rewrite (remove_free s1 u (set_join_count (join_count d - 1) d) main Hin (pi_last _ _ HI) Hm ltac:(cbn; by rewrite lookup_insert_eq)
      (pi_intern _ _ HI u d Hd Hm)). cbn. eexists. split; [done|].
    assert (removed u s1 = removed u s) as -> by (unfold removed, s1, with_desc; cbn; by rewrite delete_insert_eq).
    apply (join_remove_inv main s t (Joins u true)); auto. intros w Hw Hj. specialize (H2 w true Hw Hj). lia.
  - eexists. split; [done|].
    assert (Hne : u <> t) by (intros ->; destruct Hg as (q & ? & Hq); simplify_eq; by cbn in Hq).
    apply (inv_desc main s t (Joins u true) _ u d); pc_auto.
    + cbn. lia.
    + cbn. rewrite decide_True by done. lia.
    + intros w Hw. cbn. by rewrite decide_False.
    + intros v Hv. by destruct Hv as [|[]].
    + intros _. split_and!; cbn; (done || lia).
    + split; [split; [|done]; exists dt; cbn; by rewrite lookup_insert_ne|].
      revert Hex. apply (exited_change s _ t (Joins u true) (Runs (Joined u (return_value d)))); [done | done |].
      intros v Hv. by destruct Hv as [|[]].
Qed.

Lemma detach_inv main s t r u :
  pinv main s -> pcs s !! t = Some (Runs r) -> ∃ s', pthread_detach t u s = Some s' ∧ pinv main s'.
Proof.
  intros HI Ht. destruct (live_of main s HI t _ Ht) as [(dt & Hdt & Hrt) Hst]; pc_auto.
  assert (Hfail : ∀ e, pinv main (with_pc t (Runs (Ret e)) s)).
  { intros e. apply (inv_pc main s HI t (Runs r)); pc_auto. split; [by exists dt | done]. }
  unfold pthread_detach. case_decide as Hin; [|by eexists]. apply (pi_list _ _ HI) in Hin as Hd. destruct Hd as [d Hd].
  rewrite Hd. cbn. case_match; [by eexists|]. eexists. split; [done|].
  apply (inv_desc main s t (Runs r) (Runs (Ret 0)) u d); pc_auto.
  - cbn. by apply (pi_count _ _ HI u d Hd).
  - cbn. lia.
  - intros v Hv. by destruct Hv as [|[]].
  - split; [|done]. destruct (decide (u = t)) as [->|].
    + exists (set_flag PTHREAD_ATTR_FLAG_DETACHED d). simplify_eq. cbn. by rewrite lookup_insert_eq.
    + exists dt. cbn. by rewrite lookup_insert_ne.
Qed.

(** ** Reachable states *)
Lemma client_owns p : in_client p -> owns p.
Proof. by destruct p. Qed.
Lemma exit_ok main s t r v :
  pinv main s -> pcs s !! t = Some (Runs r) -> t <> main -> ∃ s', pthread_exit t v s = Some s' ∧ pinv main s'.
Proof.
  intros HI Ht Hm. unfold pthread_exit. destruct (live_of main s HI t _ Ht) as [(d & Hd & Hr) Hst]; pc_auto.
  rewrite Hd. cbn. apply (clean_next_inv main s HI t (Runs r)); pc_auto. split; [by exists d | done].
Qed.
Lemma dtor_ok main s t x dt da rn kk cn :
  pinv main s -> pcs s !! t = Some (InDtor x dt da rn kk cn) -> ∃ s', clean_next t x rn kk cn s = Some s' ∧ pinv main s'.
Proof.
  intros HI Ht. destruct (pi_pc _ _ HI t _ Ht) as [Hl Hk].
  apply (clean_next_inv main s HI t _ x rn kk cn Ht); pc_auto. apply (not_main main s HI t _ Ht). pc_auto.
Qed.
Lemma pstep_inv main s o :
  pinv main s -> pstep main false s o ->
  match o with Some s' => pinv main s' | None => ∃ u, unmapped_joinable s u end.
Proof.
  intros HI Hstep.
  assert (Hsome : ∀ r : option pstate, (∃ s', r = Some s' ∧ pinv main s') ->
    match r with Some s' => pinv main s' | None => ∃ u, unmapped_joinable s u end) by (by intros ? (s' & -> & ?)).
  assert (Hc : ∀ t p, pcs s !! t = Some p -> in_client p -> live s t).
  { intros t p Ht Hp. apply (live_of main s HI t p Ht); [by apply owns_not_gone, client_owns | by intros ->]. }
  destruct Hstep as [t r fl g c k clone Ht Hu|t Ht|t p d Ht Hp|t p key Ht Hp|t p key ptr Ht Hp|t p key Ht Hp|t r v Ht Hm
    |t x dt da rn kk cn Ht|t x Ht|t x Ht|t x Ht|t x Ht|t r u Ht|t u Ht|t u Hs Ht|t r u Ht].
  - by apply (create_inv main s t r).
  - by apply Hsome, start_inv.
  - by apply key_create_inv.
  - pose proof (key_delete_inv main s key HI) as H. by destruct (pthread_key_delete key s) as [[s' r]|].
  - apply Hsome. destruct (setspecific_inv main s HI t p key ptr Ht (Hc t p Ht Hp)) as ([s' r] & -> & H). by exists s'.
  - destruct (getspecific_ok s t key (Hc t p Ht Hp)) as [v ->]. done.
  - apply Hsome. by apply (exit_ok main s t r).
  - apply Hsome. by apply (dtor_ok main s t x dt da).
  - by apply Hsome, check_inv.
  - by apply Hsome, exit_detached_inv.
  - by apply Hsome, exit_joinable_inv.
  - by apply teardown_inv.
  - apply Hsome. by apply (join_inv main s t r).
  - by apply Hsome, woken_inv.
  - done.
  - apply Hsome. by apply (detach_inv main s t r).
Qed.

Lemma pstart_inv main : pinv main (pstart main).
Proof.
  split; cbn; try done.
  - apply NoDup_singleton.
  - intros u. rewrite list_elem_of_singleton, lookup_singleton_is_Some. split; congruence.
  - exists (Runs (Ret 0)). by rewrite lookup_singleton_eq.
  - intros u. by rewrite !lookup_singleton_is_Some.
  - intros u d [<- _]%lookup_singleton_Some. done.
  - intros t p [<- <-]%lookup_singleton_Some. split.
    + exists (Desc 0 0 0 false true). cbn. by rewrite lookup_singleton_eq.
    + exists (new_area main). cbn. rewrite lookup_singleton_eq. split; [done | apply new_area_null].
  - intros u d [<- <-]%lookup_singleton_Some. split; [done|]. cbn. rewrite <- insert_empty, msum_insert by done. done.
Qed.
Lemma preachable main s : rtc (prun main false) (pstart main) s -> pinv main s.
Proof.
  intros Hrun. cut (∀ a, rtc (prun main false) a s -> pinv main a -> pinv main s).
  { intros H. apply (H _ Hrun), pstart_inv. }
  clear. induction 1 as [|a b c Hab _ IH]; [done|]. intros Ha. apply IH. exact (pstep_inv main a (Some b) Ha Hab).
Qed.
