(* ===== verification/PthreadSafe.v ===== *)
(** * What threads can rely on

    The theorems on [Pthread]: joining returns the value of a thread that has exited, no
    memory is used after it was freed or unmapped but by the deletion of a key, keys that
    are not allocated read as null, and the destructors come to an end; and the runs in
    which a spurious wake-up or the deletion of a key goes wrong. *)
From stdpp Require Import base gmap list.
From Stdlib Require Import ZArith Lia.
From S2P Require Import Prelude Refs Futex Tls Pthread PthreadInv.
#[local] Open Scope Z_scope.

(** ** Runs of given actions *)
Inductive action :=
| ACreate (t u : nat) (attr_flags : Z) (stack_given : bool) | AStart (t : nat)
| AKeyCreate (t : nat) (dtor : Z) | AKeyDelete (t : nat) (key : Z) | ASet (t : nat) (key ptr : Z)
| AExit (t : nat) (v : Z) | AGo (t : nat) | AJoin (t u : nat) | ASpurious (t : nat) | ADetach (t u : nat).

(** [AGo] is the next step of a thread that is in a call. *)
Definition act (main : nat) (spurious : bool) (a : action) (s : pstate) : option pstate :=
  match a with
  | ACreate t u fl g =>
      match pcs s !! t, pcs s !! u with
      | Some (Runs _), None => Some (pthread_create t fl g true true (inr u) s)
      | _, _ => None
      end
  | AStart t => match pcs s !! t with Some Created => with_pc t (Runs (Ret 0)) <$> __init_tls t s | _ => None end
  | AKeyCreate t d => match pcs s !! t with Some (Runs _) => Some (with_map (pthread_key_create d (tmap s)).1 s) | _ => None end
  | AKeyDelete t k => match pcs s !! t with Some (Runs _) => fst <$> pthread_key_delete k s | _ => None end
  | ASet t k v => match pcs s !! t with Some (Runs _) => fst <$> pthread_setspecific t k v s | _ => None end
  | AExit t v => match pcs s !! t with Some (Runs _) => if decide (t = main) then None else pthread_exit t v s | _ => None end
  | AGo t =>
      match pcs s !! t with
      | Some (InDtor x _ _ rounds kk count) => clean_next t x rounds kk count s
      | Some (Cleaned x) => exit_check t x s
      | Some (ExitDetached x) => exit_detached t x s
      | Some (ExitJoinable x) => exit_joinable t x s
      | Some (Teardown x) => Some (teardown t x s)
      | Some (Joins u true) => join_woken t u s
      | _ => None
      end
  | AJoin t u => match pcs s !! t with Some (Runs _) => pthread_join t u s | _ => None end
  | ASpurious t =>
      match pcs s !! t with Some (Joins u false) => if spurious then Some (with_pc t (Joins u true) s) else None | _ => None end
  | ADetach t u => match pcs s !! t with Some (Runs _) => pthread_detach t u s | _ => None end
  end.
Definition acts (main : nat) (spurious : bool) (l : list action) (s : pstate) : option pstate :=
  foldl (λ o a, o ≫= act main spurious a) (Some s) l.

Lemma act_sound main spurious a s s' : act main spurious a s = Some s' -> prun main spurious s s'.
Proof.
  unfold prun. destruct a; cbn [act]; intros H; repeat case_match; try discriminate; rewrite <- H; econstructor; try done.
  by intros ? [= <-].
Qed.
Lemma acts_sound main spurious l s s' : acts main spurious l s = Some s' -> rtc (prun main spurious) s s'.
Proof.
  unfold acts. revert s. induction l as [|a l IH]; intros s; cbn [foldl].
  - intros [= ->]. apply rtc_refl.
  - cbn. destruct (act main spurious a s) as [s1|] eqn:E.
    + intros H. eapply rtc_l; [exact (act_sound _ _ a _ _ E) | by apply IH].
    + intros H. exfalso. clear -H. induction l as [|b l IH]; cbn in H; [done | auto].
Qed.

(** ** The properties *)

(** What thread [t], which is at [p], can do next does not fault: it touches only descriptors that are linked and
    areas that are mapped.  From its own code and from destructors it may also use keys; the deletion of a key faults
    only while a thread that has exited still has joiners to run.  ([pthread_create] and the teardown of a stack touch
    nothing that can be gone.) *)
Definition calls_safe (main : nat) (s : pstate) (t : nat) (p : ppc) : Prop :=
  match p with
  | Created => is_Some (__init_tls t s)
  | Runs _ => (∀ v, t <> main -> is_Some (pthread_exit t v s)) ∧ ∀ u, is_Some (pthread_join t u s) ∧ is_Some (pthread_detach t u s)
  | InDtor x _ _ rounds kk count => is_Some (clean_next t x rounds kk count s)
  | Cleaned x => is_Some (exit_check t x s)
  | ExitDetached x => is_Some (exit_detached t x s)
  | ExitJoinable x => is_Some (exit_joinable t x s)
  | Joins u true => is_Some (join_woken t u s)
  | Teardown _ | Joins _ false | Ended _ => True
  end ∧
  (in_client p -> ∀ key ptr, is_Some (pthread_setspecific t key ptr s) ∧ is_Some (pthread_getspecific t key s) ∧
    (pthread_key_delete key s = None -> ∃ u, unmapped_joinable s u)).

(** C29. Threads are safe: no call of any thread uses a descriptor or a storage area that is gone, in
    whatever order threads are created, joined, detached and end, except that the deletion of a key
    ([pthread_key_delete]) can, and only while a thread that has exited still has joiners to run.
    This is for runs in which waits for a condition do not return on their own (spuriously) and the
    main thread does not exit. *)
Theorem pthread_safe main s t p :
  rtc (prun main false) (pstart main) s -> pcs s !! t = Some p -> calls_safe main s t p.
Proof.
  intros HI%preachable Ht. split.
  - destruct p as [|r|u []|x dt da rn kk cn|x|x|x|x|v]; try exact I.
    + destruct (start_inv main s t HI Ht) as (s' & E & _). by destruct (__init_tls t s); [eexists|].
    + split; [intros v Hm|intros u; split].
      * by destruct (exit_ok main s t r v HI Ht Hm) as (s' & -> & _).
      * by destruct (join_inv main s t r u HI Ht) as (s' & -> & _).
      * by destruct (detach_inv main s t r u HI Ht) as (s' & -> & _).
    + by destruct (woken_inv main s t u HI Ht) as (s' & -> & _).
    + by destruct (dtor_ok main s t x dt da rn kk cn HI Ht) as (s' & -> & _).
    + by destruct (check_inv main s t x HI Ht) as (s' & -> & _).
    + by destruct (exit_detached_inv main s t x HI Ht) as (s' & -> & _).
    + by destruct (exit_joinable_inv main s t x HI Ht) as (s' & -> & _).
  - intros Hp key ptr. assert (Hl : live s t) by (apply (live_of main s HI t p Ht); [by apply owns_not_gone, client_owns | by intros ->]). split; [|split].
    + destruct (setspecific_inv main s HI t p key ptr Ht Hl) as ([s' r] & -> & _). by eexists.
    + destruct (getspecific_ok s t key Hl) as [v ->]. by eexists.
    + intros E. pose proof (key_delete_inv main s key HI) as H. by rewrite E in H.
Qed.

(** A join that returned 0 returned after the thread had exited, with the value it had
    given to [pthread_exit]; and the thread is in the list of threads only if another
    joiner still has to see it. *)
Theorem pthread_join_exited main s t u v :
  rtc (prun main false) (pstart main) s -> pcs s !! t = Some (Runs (Joined u v)) ->
  exited_at s u v ∧ ∀ d, descs s !! u = Some d -> return_value d = v ∧ join_count d <> 0.
Proof.
  intros HI%preachable Ht. destruct (pi_pc _ _ HI t _ Ht) as [_ He]. split; [done|]. intros d Hd.
  apply exited_at_pc in He as (p & Hp & Hv). pose proof (pi_pc _ _ HI u p Hp) as Hok.
  destruct Hv as [->|[us ->]]; cbn in Hok; [by apply Hok | by apply Hok].
Qed.

(** C30. Keys that are not allocated read as null in every thread, which is why
    [pthread_getspecific] does not look at the map; so does the key that
    [pthread_key_create] hands out next, whatever it was used for before.  This is for runs in
    which waits for a condition do not return on their own (spuriously) and the main thread does
    not exit. *)
Theorem pthread_key_null main s t p key :
  rtc (prun main false) (pstart main) s -> pcs s !! t = Some p -> in_client p ->
  (unalloc s key -> pthread_getspecific t key s = Some 0) ∧
  ∀ d m, pthread_key_create d (tmap s) = (m, inr key) ->
    tlsmap_test m key = true ∧ pthread_getspecific t key (with_map m s) = Some 0.
Proof.
  intros HI%preachable Ht Hp.
  destruct (live_of main s HI t p Ht) as [_ (area & Ha & Hl & Hn)]; [by apply owns_not_gone, client_owns | by intros -> |].
  assert (Hget : unalloc s key -> pthread_getspecific t key s = Some 0).
  { intros Hu. unfold pthread_getspecific. destruct (TLSMAP_VALIDATE_KEY key) eqn:Hv; [|done].
    apply validate_range in Hv. cbn. rewrite Ha. cbn. by apply Hn. }
  split; [done|]. intros d m E. apply key_create_spec in E as (-> & Hk & Hf & _). split; [|by apply Hget].
  rewrite test_set by (try apply wf_lock, (pi_wf _ _ HI); unfold key_range; lia). by rewrite Z.eqb_refl.
Qed.

(** The destructors come to an end, whatever they do to the keys: each call is for an
    allocated key of the thread with a value and a destructor, after the value was
    cleared, and lowers 64 * rounds - kk, which starts at 4 * 64 - 3; without a call left
    to make the loop ends. *)
Theorem clean_all_ends t x rounds kk count s s' area :
  areas s !! t = Some area -> length area = 64%nat -> 3 <= kk <= 64 -> 1 <= rounds ->
  clean_next t x rounds kk count s = Some s' ->
  pcs s' !! t = Some (Cleaned x) ∨
  ∃ k rounds' count', let m := tlsmap_lock (tmap s) in
    pcs s' !! t = Some (InDtor x (dtors m !!! Z.to_nat k) (area !!! Z.to_nat k) rounds' (k + 1) count') ∧
    tlsmap_test m k = true ∧ dtors m !!! Z.to_nat k <> 0 ∧ area !!! Z.to_nat k <> 0 ∧
    pthread_getspecific t k s' = Some 0 ∧ 3 <= k + 1 <= 64 ∧ 1 <= rounds' ∧
    0 <= 64 * rounds' - (k + 1) < 64 * rounds - kk.
Proof.
  intros Ha Hl Hkk Hr. unfold clean_next. cbn [areas with_map]. rewrite Ha. cbn.
  assert (Hget : ∀ k pc m, 3 <= k < 64 -> pthread_getspecific t k
    (with_pc t pc (with_areas (<[t := <[Z.to_nat k := 0]> area]> (areas s)) (with_map m s))) = Some 0).
  { intros k pc m Hk. unfold pthread_getspecific. case_match; [done|]. cbn. rewrite lookup_insert_eq. cbn.
    apply list_lookup_insert_eq. lia. }
  destruct (scan_from _ _ kk) as [k|] eqn:E.
  - pose proof (scan_from_range _ _ kk k (proj1 Hkk) E). apply scan_spec in E as (_ & H1 & H2 & H3).
    intros [= <-]. right. exists k, rounds, (count + 1). cbn zeta. cbn [pcs with_pc]. rewrite lookup_insert_eq.
    split_and!; auto; try apply Hget; lia.
  - case_match eqn:Ec; [intros [= <-]; left; cbn; by rewrite lookup_insert_eq|].
    destruct (scan_from _ _ TLSMAP_START) as [k|] eqn:E2; [|intros [= <-]; left; cbn; by rewrite lookup_insert_eq].
    pose proof (scan_from_range _ _ TLSMAP_START k ltac:(done) E2) as Hk. change TLSMAP_START with 3 in Hk.
    apply scan_spec in E2 as (_ & H1 & H2 & H3). apply orb_false_iff in Ec as [_ Ec].
    intros [= <-]. right. exists k, (rounds - 1), 1. cbn zeta. cbn [pcs with_pc]. rewrite lookup_insert_eq.
    split_and!; auto; try apply Hget; lia.
Qed.

(** ** Runs with given threads *)
Definition after (spurious : bool) (l : list action) : pstate := default (pstart 0) (acts 0 spurious l (pstart 0)).
Lemma after_run spurious l : is_Some (acts 0 spurious l (pstart 0)) -> rtc (prun 0 spurious) (pstart 0) (after spurious l).
Proof. intros [s Hs]. unfold after. rewrite Hs. by apply (acts_sound 0 spurious l). Qed.
(** A computation that ends. *)
Ltac runs := apply after_run; vm_compute; eexists; reflexivity.

Definition two_threads : list action := [ACreate 0 1 0 false; ACreate 0 2 0 false; AStart 1; AStart 2].
(** Thread 1 exits with 7 while the main thread joins it, up to its end. *)
Definition joined_exit : list action := two_threads ++ [AJoin 0 1; AExit 1 7; AGo 1; AGo 1; AGo 1].

(** Deleting a key can write to memory that is gone: a thread that had joiners when it exited
    keeps a positive join count until they run, and the loop takes it for a living one,
    though its stack with its storage area is unmapped. *)
Theorem key_delete_faults :
  ∃ s, rtc (prun 0 false) (pstart 0) s ∧ pcs s !! 2%nat = Some (Runs (Ret 0)) ∧ pthread_key_delete 3 s = None.
Proof. exists (after false joined_exit). split; [runs | split; vm_compute; reflexivity]. Qed.

(** A wait that ends on its own, as one does when a signal arrives, makes [pthread_join]
    return for a thread that is still running, and free its descriptor; the thread then
    uses it when it exits. *)
Lemma join_spurious_frees :
  ∃ s, rtc (prun 0 true) (pstart 0) s ∧ pcs s !! 0%nat = Some (Runs (Joined 1 0)) ∧
    pcs s !! 1%nat = Some (Runs (Ret 0)) ∧ descs s !! 1%nat = None ∧ ∀ v, pthread_exit 1 v s = None.
Proof.
  exists (after true (two_threads ++ [AJoin 0 1; ASpurious 0; AGo 0])).
  split; [runs | split_and!; [vm_compute; reflexivity.. | intros v; vm_compute; reflexivity]].
Qed.

(** The main thread has not returned from its join of thread 1, which has exited and whose area is unmapped; thread 2
    deletes a key. *)
Lemma pthread_safe_witness :
  (pthread_key_delete 3 (after false joined_exit) = None ∧ ∃ u, unmapped_joinable (after false joined_exit) u) ∧
  is_Some (pthread_setspecific 2 3 8 (after false joined_exit)) ∧ is_Some (pthread_join 2 1 (after false joined_exit)).
Proof.
  destruct (pthread_safe 0 (after false joined_exit) 2 (Runs (Ret 0))) as [[_ H1] H2]; [runs | vm_compute; reflexivity|].
  destruct (H2 I 3 8) as (H3 & _ & H4). split; [|split; [exact H3 | apply H1]].
  assert (E : pthread_key_delete 3 (after false joined_exit) = None) by (vm_compute; reflexivity). split; [exact E | exact (H4 E)].
Defined.
Lemma pthread_join_exited_witness : exited_at (after false (joined_exit ++ [AGo 0])) 1 7.
Proof.
  apply (pthread_join_exited 0 _ 0); [runs | vm_compute; reflexivity].
Defined.
(** Key 5 was used by thread 1 and deleted, and is created again. *)
Definition key_again : list action :=
  two_threads ++ [AKeyCreate 0 0; ASet 1 5 9; AKeyDelete 2 5].
Lemma pthread_key_null_witness :
  pthread_getspecific 1 5 (after false (two_threads ++ [AKeyCreate 0 0; ASet 1 5 9])) = Some 9 ∧
  pthread_getspecific 1 5 (after false key_again) = Some 0.
Proof.
  split; [vm_compute; reflexivity|].
  apply (pthread_key_null 0 _ 1 (Runs (Ret 0)) 5); [runs | vm_compute; reflexivity | exact I | vm_compute; reflexivity].
Defined.
(** Key 5 has the destructor 77 and the value 9 in thread 1. *)
Lemma clean_all_ends_witness :
  ∃ s', clean_next 1 (Exiting 7 false) 4 3 0 (after false (two_threads ++ [AKeyCreate 0 77; ASet 1 5 9])) = Some s' ∧
    (pcs s' !! 1%nat = Some (Cleaned (Exiting 7 false)) ∨ pthread_getspecific 1 5 s' = Some 0).
Proof.
  set (s := after false (two_threads ++ [AKeyCreate 0 77; ASet 1 5 9])).
  assert (Hs : is_Some (clean_next 1 (Exiting 7 false) 4 3 0 s)) by (vm_compute; eexists; reflexivity).
  assert (Ha : is_Some (areas s !! 1%nat)) by (vm_compute; eexists; reflexivity).
  destruct Hs as [s' Hs], Ha as [area Ha]. exists s'. split; [exact Hs|].
  destruct (clean_all_ends 1 (Exiting 7 false) 4 3 0 s s' area Ha) as [H|H]; [| lia | lia | exact Hs | left; exact H | right].
  - assert (E : (length <$> areas s !! 1%nat) = Some 64%nat) by (vm_compute; reflexivity). rewrite Ha in E. by injection E.
  - assert (E : (pthread_getspecific 1 5 <$> clean_next 1 (Exiting 7 false) 4 3 0 s) = Some (Some 0)) by (vm_compute; reflexivity).
    rewrite Hs in E. by injection E.
Defined.

(** A joiner that comes after the exit, while another one was woken but did not run, sleeps for ever. *)
Lemma late_joiner_sleeps :
  ∃ s, rtc (prun 0 false) (pstart 0) s ∧ pcs s !! 1%nat = Some (Ended 7) ∧ pcs s !! 2%nat = Some (Joins 1 false) ∧
    pcs s !! 0%nat = Some (Runs (Joined 1 7)) ∧ is_Some (descs s !! 1%nat).
Proof.
  exists (after false (joined_exit ++ [AJoin 2 1; AGo 0])).
  split; [runs | split_and!; [vm_compute; reflexivity.. | vm_compute; eexists; reflexivity]].
Qed.
(** Detaching a thread that has exited keeps its descriptor for ever: it can no longer be joined. *)
Lemma detach_zombie_leaks :
  ∃ s, rtc (prun 0 false) (pstart 0) s ∧ pcs s !! 1%nat = Some (Ended 7) ∧ is_Some (descs s !! 1%nat) ∧
    pthread_join 0 1 s = Some (with_pc 0 (Runs (Ret EINVAL)) s).
Proof.
  exists (after false (two_threads ++ [AExit 1 7; AGo 1; AGo 1; AGo 1; ADetach 0 1])).
  split; [runs | split_and!; [vm_compute; reflexivity | vm_compute; eexists; reflexivity | vm_compute; reflexivity]].
Qed.
