(* ===== verification/BioReg.v ===== *)
(** * The registry of block devices ([lib/bio/bio.c], [lib/bio/subdev.c], [lib/bio/mem.c])

    The list of registered devices and the reference counts that decide when a
    device is freed.  A device is known by the address [malloc] gave it, an argument
    of the operations that make one.  [None] is an access to a freed device or a
    failed [DEBUG_ASSERT].  A subdevice holds a reference to its parent, dropped by
    its close hook, so dropping the last reference goes up a chain of parents:
    [bdev_dec_ref] takes fuel for it.  The list is guarded by a mutex and the counts
    are atomic, so the operations are single steps. *)
From stdpp Require Import base gmap list sorting.
From Stdlib Require Import ZArith Lia.
From S2P Require Import Prelude Refs.
#[local] Open Scope Z_scope.

(** The fields of [struct bdev] the registry uses, and the parent of a [subdev_t]. *)
Record device := Device { dname : list Z; dref : Z; dblocks : Z; dparent : option nat }.
Record registry := Registry { devices : gmap nat device; bdevs : list nat }.

Definition with_devices (f : gmap nat device -> gmap nat device) (s : registry) : registry :=
  Registry (f (devices s)) (bdevs s).
Definition set_ref (n : Z) (d : device) : device := Device (dname d) n (dblocks d) (dparent d).

Definition bio_init : registry := Registry ∅ [].

Definition bdev_inc_ref (id : nat) (s : registry) : option registry :=
  d ← devices s !! id;
  Some (with_devices (insert id (set_ref (dref d + 1) d)) s).

Fixpoint bdev_dec_ref (fuel : nat) (id : nat) (s : registry) : option registry :=
  match fuel with
  | O => None
  | S fuel =>
      d ← devices s !! id;
      let s := with_devices (insert id (set_ref (dref d - 1) d)) s in
      if dref d =? 1 then
        if bool_decide (id ∈ bdevs s) then None else
        s ← match dparent d with
            | Some p => bdev_dec_ref fuel p s
            | None => Some s
            end;
        Some (with_devices (delete id) s)
      else Some s
  end.

(** The search of [bio_open] over the list. *)
Fixpoint find_named (name : list Z) (l : list nat) (s : registry) : option (option nat) :=
  match l with
  | [] => Some None
  | id :: l =>
      d ← devices s !! id;
      if negb (0 <? dref d) then None else
      if bool_decide (dname d = name) then Some (Some id) else find_named name l s
  end.

Definition bio_open (name : list Z) (s : registry) : option (registry * option nat) :=
  found ← find_named name (bdevs s) s;
  match found with
  | Some id => s ← bdev_inc_ref id s; Some (s, Some id)
  | None => Some (s, None)
  end.

Definition bio_close := bdev_dec_ref.

Definition bio_initialize_bdev (id : nat) (name : list Z) (count : Z) (parent : option nat)
    (s : registry) : registry :=
  with_devices (insert id (Device name 0 count parent)) s.

Definition bio_register_device (id : nat) (s : registry) : option registry :=
  s ← bdev_inc_ref id s;
  Some (Registry (devices s) (id :: bdevs s)).

(** [list_delete] asserts that the node is linked. *)
Definition bio_unregister_device (fuel : nat) (id : nat) (s : registry) : option registry :=
  if bool_decide (id ∈ bdevs s)
  then bdev_dec_ref fuel id (Registry (devices s) (filter (λ x, x <> id) (bdevs s)))
  else None.

Definition register_membdev (id : nat) (name : list Z) (len : Z) (s : registry) : option registry :=
  bio_register_device id (bio_initialize_bdev id name (len / 512) None s).

(** [bio_publish_subdevice]: the status is the integer. *)
Definition publish_subdevice (id : nat) (parent_dev subdev : list Z) (startblock len : Z)
    (s : registry) : option (registry * Z) :=
  '(s, parent) ← bio_open parent_dev s;
  match parent with
  | None => Some (s, -1)
  | Some p =>
      d ← devices s !! p;
      if dblocks d <? u32 (startblock + len) then Some (s, -1) else
      s ← bio_register_device id (bio_initialize_bdev id subdev len (Some p) s);
      Some (s, 0)
  end.

(** ** Who holds references *)

(** A client's calls: [handles] are the references clients hold, one for each
    successful [bio_open] not yet matched by a [bio_close], and one for each failed
    [bio_publish_subdevice] that had found its parent; [n] counts the devices made. *)
Inductive rstep (fuel : nat) : nat * registry * list nat -> nat * registry * list nat -> Prop :=
| step_open n s hs name s' id :
    bio_open name s = Some (s', Some id) -> rstep fuel (n, s, hs) (n, s', id :: hs)
| step_close n s hs1 id hs2 s' :
    bio_close fuel id s = Some s' -> rstep fuel (n, s, hs1 ++ id :: hs2) (n, s', hs1 ++ hs2)
| step_membdev n s hs id name len s' :
    devices s !! id = None -> register_membdev id name len s = Some s' ->
    rstep fuel (n, s, hs) (S n, s', hs)
| step_unregister n s hs id s' :
    id ∈ bdevs s -> bio_unregister_device fuel id s = Some s' -> rstep fuel (n, s, hs) (n, s', hs)
| step_publish n s hs id pn sn start len s' :
    devices s !! id = None -> publish_subdevice id pn sn start len s = Some (s', 0) ->
    rstep fuel (n, s, hs) (S n, s', hs)
| step_publish_fails n s hs id pn sn start len p s1 s' :
    devices s !! id = None -> publish_subdevice id pn sn start len s = Some (s', -1) ->
    bio_open pn s = Some (s1, Some p) -> rstep fuel (n, s, hs) (n, s', p :: hs).

(** The references the subdevices hold. *)
Definition parents (m : gmap nat device) : list nat := targets dparent m.
(** The references in existence: the list's, the clients', the subdevices'. *)
Definition refs_of (s : registry) (hs : list nat) : list nat := bdevs s ++ hs ++ parents (devices s).
(** Subdevices were made after their parents. *)
Definition ranked (n : nat) (rank : nat -> nat) (m : gmap nat device) : Prop :=
  ∀ id d, m !! id = Some d -> (rank id < n)%nat ∧ ∀ p, dparent d = Some p -> (rank p < rank id)%nat.
Definition reg_inv (n : nat) (s : registry) (hs : list nat) : Prop :=
  counted dref (devices s) (refs_of s hs) ∧ NoDup (bdevs s) ∧ ∃ rank, ranked n rank (devices s).

#[export] Instance reg_inv_proper n s : Proper (Permutation ==> iff) (reg_inv n s).
Proof. intros l1 l2 E. unfold reg_inv, refs_of. by rewrite E. Qed.

(** Dropping the last reference to a device does not look at a later one. *)
Lemma dec_ref_delete n rank fuel p s id :
  ranked n rank (devices s) -> (rank p < rank id)%nat ->
  bdev_dec_ref fuel p (with_devices (delete id) s) = with_devices (delete id) <$> bdev_dec_ref fuel p s.
Proof.
  revert p s; induction fuel as [|fuel IH]; intros p s Hr Hlt; [done|].
  assert (Hne : id <> p) by (intros ->; lia). cbn [bdev_dec_ref].
  change (devices (with_devices (delete id) s)) with (delete id (devices s)).
  rewrite lookup_delete_ne by done.
  destruct (devices s !! p) as [d|] eqn:Hd; [|done]. cbn.
  set (s1 := with_devices (insert p (set_ref (dref d - 1) d)) s).
  assert (E : with_devices (insert p (set_ref (dref d - 1) d)) (with_devices (delete id) s) =
              with_devices (delete id) s1).
  { unfold s1, with_devices. cbn. f_equal. by rewrite delete_insert_ne by done. }
  rewrite E. destruct (dref d =? 1); [|done]. cbn. case_bool_decide; [done|].
  assert (Hr1 : ranked n rank (devices s1)).
  { intros i x. cbn. intros [[-> <-]|[? Hx]]%lookup_insert_Some; [|by apply Hr].
    apply (Hr _ _ Hd). }
  assert (Ed : ∀ r, with_devices (delete p) (with_devices (delete id) r) =
                    with_devices (delete id) (with_devices (delete p) r)).
  { intros r. unfold with_devices. cbn. by rewrite delete_delete. }
  destruct (dparent d) as [q|] eqn:Hq; cbn; [|by rewrite Ed].
  rewrite IH; [| done |]. { destruct (bdev_dec_ref fuel q s1); cbn; [by rewrite Ed | done]. }
  destruct (Hr _ _ Hd) as [_ Hpar]. specialize (Hpar _ Hq). lia.
Qed.

Lemma ranked_insert n rank m id d d' :
  ranked n rank m -> m !! id = Some d -> dparent d' = dparent d -> ranked n rank (<[id := d']> m).
Proof.
  intros Hr Hd Hp i x [[-> <-]|[? Hx]]%lookup_insert_Some; [|by apply Hr].
  rewrite Hp. by apply (Hr _ _ Hd).
Qed.
Lemma ranked_delete n rank m id : ranked n rank m -> ranked n rank (delete id m).
Proof. intros Hr i x [_ Hx]%lookup_delete_Some. by apply Hr. Qed.

Lemma dec_ref_counted n rank fuel id s hs :
  ranked n rank (devices s) -> (rank id < fuel)%nat -> counted dref (devices s) (id :: refs_of s hs) ->
  ∃ s', bdev_dec_ref fuel id s = Some s' ∧ bdevs s' = bdevs s ∧
        ranked n rank (devices s') ∧ counted dref (devices s') (refs_of s' hs).
Proof.
  revert id s; induction fuel as [|fuel IH]; intros id s Hr Hf Hc; [lia|].
  destruct (proj2 Hc id) as [d Hd]; [by left|]. cbn [bdev_dec_ref]. rewrite Hd. cbn.
  set (s1 := with_devices (insert id (set_ref (dref d - 1) d)) s).
  assert (Hr1 : ranked n rank (devices s1)) by (by apply (ranked_insert _ _ _ _ d)).
  assert (Hp1 : refs_of s1 hs ≡ₚ refs_of s hs).
  { unfold refs_of. cbn. by rewrite (targets_update dparent _ _ d). }
  destruct (Z.eqb_spec (dref d) 1) as [E|E].
  2:{ exists s1. split_and!; [done.. |]. rewrite Hp1. by apply (counted_dec dref _ _ _ d). }
  destruct (counted_last dref _ _ _ _ Hc Hd E) as [Hc' Hni].
  rewrite bool_decide_false by (intros Hin; apply Hni; unfold refs_of; set_solver).
  set (s2 := with_devices (delete id) s1).
  assert (Es2 : devices s2 = delete id (devices s)) by (cbn; apply delete_insert_eq).
  assert (Hpar : refs_of s hs ≡ₚ option_list (dparent d) ++ refs_of s2 hs).
  { unfold refs_of. rewrite Es2. cbn. rewrite (targets_delete dparent _ _ _ Hd). solve_Permutation. }
  assert (Hr2 : ranked n rank (devices s2)) by (by apply ranked_delete).
  rewrite Hpar, <- Es2 in Hc'. destruct (dparent d) as [p|] eqn:Hp; cbn in Hc'; cbn.
  - assert (Hlt : (rank p < rank id)%nat) by (by apply (Hr _ _ Hd)).
    destruct (IH p s2) as (s' & Hrun & Hb & Hr' & Hcs); [done | lia | done |].
    unfold s2 in Hrun. rewrite (dec_ref_delete n rank) in Hrun by done.
    destruct (bdev_dec_ref fuel p s1) as [s3|]; [|done]. injection Hrun as Hrun. cbn. rewrite Hrun.
    exists s'. split_and!; done.
  - exists s2. split_and!; done.
Qed.

(** ** Every call keeps the counts right *)
Lemma find_named_total m refs name l s :
  devices s = m -> counted dref m refs -> (∀ x, x ∈ l -> x ∈ refs) ->
  ∃ r, find_named name l s = Some r ∧ ∀ id, r = Some id -> id ∈ l.
Proof.
  intros <- [Hc Hl]. induction l as [|x l IH]; intros Hsub; [by exists None|].
  destruct (Hl x) as [d Hd]; [apply Hsub; by left|]. cbn [find_named]. rewrite Hd. cbn.
  destruct (Hc _ _ Hd) as [_ Hpos]. rewrite (proj2 (Z.ltb_lt _ _) Hpos). cbn [negb].
  case_bool_decide; [exists (Some x); split; [done|]; intros ? [= ->]; by left|].
  destruct IH as (r & Hr & Hin); [intros; apply Hsub; by right|]. exists r. split; [done|].
  intros id Hid. right. auto.
Qed.

Lemma open_inv n s hs name :
  reg_inv n s hs ->
  ∃ s' r, bio_open name s = Some (s', r) ∧ bdevs s' = bdevs s ∧
    match r with
    | None => s' = s
    | Some id => reg_inv n s' (id :: hs) ∧ is_Some (devices s !! id) ∧ is_Some (devices s' !! id) ∧
                 dom (devices s') = dom (devices s)
    end.
Proof.
  intros (Hc & Hnd & rank & Hr). unfold bio_open.
  destruct (find_named_total _ _ name (bdevs s) s eq_refl Hc) as (r & -> & Hin).
  { intros x Hx. unfold refs_of. set_solver. }
  cbn. destruct r as [id|]; [|by exists s, None].
  destruct (proj2 Hc id) as [d Hd]; [unfold refs_of; specialize (Hin id eq_refl); set_solver|].
  unfold bdev_inc_ref. rewrite Hd. cbn. eexists _, (Some id). split; [done|]. split; [done|]. cbn.
  rewrite lookup_insert_eq. split_and!; [| by eauto | by eauto |].
  - split; [|split; [done|]].
    + assert (E : refs_of (with_devices (insert id (set_ref (dref d + 1) d)) s) (id :: hs) ≡ₚ
                  id :: refs_of s hs).
      { unfold refs_of. cbn. rewrite (targets_update dparent _ _ d) by done. solve_Permutation. }
      rewrite E. by apply (counted_inc dref _ _ _ d).
    + exists rank. by apply (ranked_insert _ _ _ _ d).
  - rewrite dom_insert_L. apply elem_of_dom_2 in Hd. set_solver.
Qed.

(** A new device, whose reference to its parent, if it has one, was taken before. *)
Lemma register_inv n s hs id name count parent :
  reg_inv n s (option_list parent ++ hs) -> devices s !! id = None ->
  ∃ s', bio_register_device id (bio_initialize_bdev id name count parent s) = Some s' ∧
        reg_inv (S n) s' hs.
Proof.
  intros (Hc & Hnd & rank & Hr) Hfresh. unfold bio_register_device, bdev_inc_ref, bio_initialize_bdev. cbn.
  rewrite lookup_insert_eq. cbn. eexists. split; [done|]. unfold reg_inv, refs_of. cbn.
  rewrite insert_insert_eq. set (d1 := set_ref (0 + 1) _).
  assert (Hni : id ∉ refs_of s (option_list parent ++ hs)).
  { intros Hin. apply Hc in Hin as [? ?]. congruence. }
  assert (Hlive : ∀ q, q ∈ refs_of s (option_list parent ++ hs) -> q <> id) by (intros q Hq ->; done).
  split; [|split].
  - unfold parents. rewrite targets_insert by done. cbn.
    assert (E : id :: bdevs s ++ hs ++ option_list parent ++ targets dparent (devices s) ≡ₚ
                id :: refs_of s (option_list parent ++ hs)) by (unfold refs_of, parents; solve_Permutation).
    rewrite E. by apply counted_new.
  - constructor; [|done]. unfold refs_of in Hni. set_solver.
  - exists (λ x, if decide (x = id) then n else rank x).
    intros i x [[-> <-]|[Hne Hx]]%lookup_insert_Some.
    + rewrite decide_True by done. split; [lia|]. cbn. intros p ->. rewrite decide_False.
      * destruct (proj2 Hc p) as [dp Hdp]; [unfold refs_of; cbn; set_solver|]. by destruct (Hr _ _ Hdp).
      * apply Hlive. unfold refs_of. cbn. set_solver.
    + rewrite decide_False by done. destruct (Hr _ _ Hx) as [Hlt Hpar]. split; [lia|].
      intros p Hp. rewrite decide_False; [by apply Hpar|]. apply Hlive. unfold refs_of.
      unfold parents. rewrite (targets_delete dparent _ _ _ Hx), Hp. cbn. set_solver.
Qed.

Lemma close_inv n fuel s hs1 id hs2 :
  reg_inv n s (hs1 ++ id :: hs2) -> (n <= fuel)%nat ->
  ∃ s', bio_close fuel id s = Some s' ∧ reg_inv n s' (hs1 ++ hs2).
Proof.
  intros (Hc & Hnd & rank & Hr) Hf.
  assert (E : refs_of s (hs1 ++ id :: hs2) ≡ₚ id :: refs_of s (hs1 ++ hs2))
    by (unfold refs_of; solve_Permutation).
  rewrite E in Hc. destruct (proj2 Hc id) as [d Hd]; [by left|].
  destruct (dec_ref_counted n rank fuel id s (hs1 ++ hs2)) as (s' & Hrun & Hb & Hr' & Hc'); [done | | done |].
  { destruct (Hr _ _ Hd). lia. }
  exists s'. split; [done|]. split; [done|]. rewrite Hb. eauto.
Qed.

Lemma unregister_inv n fuel s hs id :
  reg_inv n s hs -> (n <= fuel)%nat -> id ∈ bdevs s ->
  ∃ s', bio_unregister_device fuel id s = Some s' ∧ reg_inv n s' hs.
Proof.
  intros (Hc & Hnd & rank & Hr) Hf Hin. unfold bio_unregister_device. rewrite bool_decide_true by done.
  set (s1 := Registry (devices s) (filter (λ x, x <> id) (bdevs s))).
  assert (E : refs_of s hs ≡ₚ id :: refs_of s1 hs).
  { unfold refs_of. cbn. by rewrite (filter_out_perm id (bdevs s)) at 1 by done. }
  rewrite E in Hc. destruct (proj2 Hc id) as [d Hd]; [by left|].
  destruct (dec_ref_counted n rank fuel id s1 hs) as (s' & Hrun & Hb & Hr' & Hc'); [done | | done |].
  { destruct (Hr _ _ Hd). lia. }
  exists s'. split; [done|]. split; [done|]. split; [|eauto]. rewrite Hb. cbn. by apply NoDup_filter.
Qed.

Lemma publish_inv n s hs id pn sn start len :
  reg_inv n s hs -> devices s !! id = None ->
  ∃ s' r, publish_subdevice id pn sn start len s = Some (s', r) ∧
    ((r = 0 ∧ reg_inv (S n) s' hs) ∨
     (r = -1 ∧ ((∃ s1, bio_open pn s = Some (s1, None)) ∧ s' = s ∨
                ∃ p, bio_open pn s = Some (s', Some p) ∧ reg_inv n s' (p :: hs)))).
Proof.
  intros Hinv Hfresh. unfold publish_subdevice.
  destruct (open_inv n s hs pn Hinv) as (s1 & r & -> & Hb & Hopen). cbn.
  destruct r as [p|]; [|subst s1; exists s, (-1); split; [done|]; right; split; [done|]; left; eauto].
  destruct Hopen as (Hinv1 & _ & [dp Hdp] & Hdom). rewrite Hdp. cbn.
  case_match; [exists s1, (-1); split; [done|]; right; split; [done|]; right; eauto|].
  destruct (register_inv n s1 hs id sn len (Some p)) as (s' & -> & Hinv'); [done | |].
  { apply not_elem_of_dom. rewrite Hdom. by apply not_elem_of_dom. }
  cbn. exists s', 0. split; [done|]. by left.
Qed.

(** ** What the calls leave alone *)

(** [m'] has devices of [m], with other counts. *)
Definition shrinks (m m' : gmap nat device) : Prop :=
  ∀ id d', m' !! id = Some d' -> ∃ d, m !! id = Some d ∧ d' = set_ref (dref d') d.

#[export] Instance shrinks_preorder : PreOrder shrinks.
Proof.
  split; [intros m id [] H; eauto|]. intros m1 m2 m3 H12 H23 id d3 H3.
  destruct (H23 _ _ H3) as (d2 & H2 & E3). destruct (H12 _ _ H2) as (d1 & H1 & E2).
  exists d1. split; [done|]. rewrite E3, E2. done.
Qed.
Lemma shrinks_ref m id d n : m !! id = Some d -> shrinks m (<[id := set_ref n d]> m).
Proof.
  intros Hd i x [[-> <-]|[_ Hx]]%lookup_insert_Some; [eauto|]. exists x. split; [done|]. by destruct x.
Qed.
Lemma shrinks_delete m id : shrinks m (delete id m).
Proof. intros i x [_ Hx]%lookup_delete_Some. exists x. split; [done|]. by destruct x. Qed.

Lemma dec_ref_shrinks fuel id s s' :
  bdev_dec_ref fuel id s = Some s' -> bdevs s' = bdevs s ∧ shrinks (devices s) (devices s').
Proof.
  revert id s s'; induction fuel as [|fuel IH]; intros id s s' H; [done|]. cbn [bdev_dec_ref] in H.
  destruct (devices s !! id) as [d|] eqn:Hd; [|done]. cbn in H.
  pose proof (shrinks_ref _ _ _ (dref d - 1) Hd) as Hs.
  case_match; [|by simplify_eq]. case_match; [done|].
  destruct (dparent d) as [p|]; cbn in H; [|simplify_eq; cbn; split; [done | by etrans; [|apply shrinks_delete]]].
  destruct (bdev_dec_ref fuel p _) as [s2|] eqn:E; [|done]. destruct (IH _ _ _ E) as [Hb Hs2].
  cbn in H. simplify_eq. cbn. split; [done|]. etrans; [exact Hs|]. etrans; [exact Hs2|]. apply shrinks_delete.
Qed.
Lemma inc_ref_shrinks id s s' :
  bdev_inc_ref id s = Some s' -> bdevs s' = bdevs s ∧ shrinks (devices s) (devices s').
Proof.
  unfold bdev_inc_ref. destruct (devices s !! id) as [d|] eqn:Hd; [|done]. intros [= <-].
  split; [done|]. by apply shrinks_ref.
Qed.

(** The device a name stands for: the first of the list that has it. *)
Definition first_named (name : list Z) (l : list nat) (m : gmap nat device) : option nat :=
  head (filter (λ id, dname <$> m !! id = Some name) l).

Lemma find_named_first s refs name l :
  counted dref (devices s) refs -> (∀ x, x ∈ l -> x ∈ refs) ->
  find_named name l s = Some (first_named name l (devices s)).
Proof.
  intros [Hc Hl]. unfold first_named. induction l as [|x l IH]; intros Hsub; [done|]. cbn [find_named].
  destruct (Hl x) as [d Hd]; [apply Hsub; by left|]. rewrite filter_cons, Hd. cbn.
  destruct (Hc _ _ Hd) as [_ Hpos]. rewrite (proj2 (Z.ltb_lt _ _) Hpos). cbn [negb].
  case_bool_decide as E.
  - rewrite decide_True by (by rewrite E). done.
  - rewrite decide_False by (intros [=]; done). apply IH. intros y Hy. apply Hsub. by right.
Qed.
Lemma reg_find n s hs name :
  reg_inv n s hs -> find_named name (bdevs s) s = Some (first_named name (bdevs s) (devices s)).
Proof.
  intros (Hc & _). apply (find_named_first s (refs_of s hs)); [done|]. intros x Hx. unfold refs_of. set_solver.
Qed.

Lemma first_named_ext name l m m' :
  (∀ id, id ∈ l -> dname <$> m' !! id = dname <$> m !! id) -> first_named name l m' = first_named name l m.
Proof.
  intros H. unfold first_named. f_equal. apply list_filter_ext_in. intros id Hi. by rewrite H.
Qed.
Lemma first_named_filter name l m id :
  dname <$> m !! id <> Some name ->
  first_named name (filter (λ x, x <> id) l) m = first_named name l m.
Proof.
  intros Hid. unfold first_named. f_equal. rewrite list_filter_filter. apply list_filter_ext_in.
  intros x _. split; [by intros [? _]|]. intros Hx. split; [done|]. intros ->. done.
Qed.
Lemma first_named_elem name l m id :
  first_named name l m = Some id -> id ∈ l ∧ dname <$> m !! id = Some name.
Proof.
  unfold first_named. intros H%head_Some_elem_of. by apply list_elem_of_filter in H as [? ?].
Qed.

(** Names after a call that only changed counts, for what is still listed. *)
Lemma first_named_shrinks n s' hs m name :
  reg_inv n s' hs -> shrinks m (devices s') ->
  first_named name (bdevs s') (devices s') = first_named name (bdevs s') m.
Proof.
  intros ((_ & Hl) & _) Hs. apply first_named_ext. intros id Hid.
  destruct (Hl id) as [d' Hd']; [unfold refs_of; set_solver|]. destruct (Hs _ _ Hd') as (d & Hd & E).
  rewrite Hd', Hd. cbn. by rewrite E.
Qed.

Lemma rstep_inv fuel a b :
  rstep fuel a b -> reg_inv a.1.1 a.1.2 a.2 -> (b.1.1 <= fuel)%nat ->
  reg_inv b.1.1 b.1.2 b.2 ∧ (a.1.1 <= b.1.1)%nat.
Proof.
  intros Hstep Hinv Hf. destruct Hstep as
    [n s hs name s' id Ho|n s hs1 id hs2 s' Hcl|n s hs id name len s' Hfr Hm|n s hs id s' Hin Hu
    |n s hs id pn sn st len s' Hfr Hp|n s hs id pn sn st len p s1 s' Hfr Hp Ho]; cbn in *.
  - destruct (open_inv n s hs name Hinv) as (? & ? & Ho' & _ & Hi). rewrite Ho' in Ho.
    injection Ho as -> ->. destruct Hi. by split.
  - destruct (close_inv n fuel s hs1 id hs2 Hinv Hf) as (? & Hc' & Hi). rewrite Hc' in Hcl.
    by injection Hcl as ->.
  - destruct (register_inv n s hs id name (len / 512) None Hinv Hfr) as (? & Hm' & Hi).
    unfold register_membdev in Hm. rewrite Hm' in Hm. injection Hm as ->. split; [done | lia].
  - destruct (unregister_inv n fuel s hs id Hinv Hf Hin) as (? & Hu' & Hi). rewrite Hu' in Hu.
    by injection Hu as ->.
  - destruct (publish_inv n s hs id pn sn st len Hinv Hfr) as (? & ? & Hp' & Hi). rewrite Hp' in Hp.
    injection Hp as -> ->. destruct Hi as [[_ Hi]|[? _]]; [|done]. split; [done | lia].
  - destruct (publish_inv n s hs id pn sn st len Hinv Hfr) as (? & ? & Hp' & Hi). rewrite Hp' in Hp.
    injection Hp as -> ->. destruct Hi as [[? _]|[_ [[[? Hn] _]|(q & Hq & Hi)]]]; [done | congruence |].
    rewrite Hq in Ho. injection Ho as -> ->. by split.
Qed.

(** What some clients do is a step also when others hold the references [ms]. *)
Lemma rstep_frame fuel ms n s hs n' s' hs' :
  rstep fuel (n, s, hs) (n', s', hs') ->
  ∃ hs2, rstep fuel (n, s, ms ++ hs) (n', s', hs2) ∧ hs2 ≡ₚ ms ++ hs' ∧ (n <= n')%nat.
Proof.
  inversion 1; subst.
  all: try (eexists; split_and!; [by econstructor | solve_Permutation | lia]).
  exists ((ms ++ hs1) ++ hs2). rewrite (app_assoc ms). split_and!; [by econstructor | by rewrite app_assoc | lia].
Qed.

Lemma reg_inv_init : reg_inv 0 bio_init [].
Proof.
  split; [|split; [constructor | by exists id]]. split; [done|].
  intros x Hx. by apply not_elem_of_nil in Hx.
Qed.

Lemma reachable_inv fuel a b :
  rtc (rstep fuel) a b -> reg_inv a.1.1 a.1.2 a.2 -> (b.1.1 <= fuel)%nat -> reg_inv b.1.1 b.1.2 b.2.
Proof.
  intros Hr Ha. revert b Hr. apply (rtc_ind_r (λ b, (b.1.1 <= fuel)%nat -> reg_inv b.1.1 b.1.2 b.2)); [done|].
  intros b c _ Hstep IH Hf.
  assert (Hle : (b.1.1 <= c.1.1)%nat) by (destruct Hstep; cbn; lia).
  by apply (rstep_inv fuel b c Hstep); [apply IH; lia|].
Qed.

(** ** Properties *)

(** C25. Whatever calls of [bio_open], [bio_close], [bio_register_device],
    [bio_unregister_device] and [bio_publish_subdevice] were made, with closes only of
    what was opened: the count of a device is the number of references to it (the
    list's, the clients', the subdevices'), a device is freed exactly when there are
    none left, and no further such call reaches a freed device or fails an assertion. *)
Theorem registry_safe fuel n s hs :
  rtc (rstep fuel) (O, bio_init, []) (n, s, hs) -> (n <= fuel)%nat ->
  (∀ id, is_Some (devices s !! id) <-> id ∈ refs_of s hs) ∧
  (∀ id d, devices s !! id = Some d -> dref d = cnt id (refs_of s hs)) ∧
  (∀ name, is_Some (bio_open name s)) ∧
  (∀ id, id ∈ hs -> is_Some (bio_close fuel id s)) ∧
  (∀ id, id ∈ bdevs s -> is_Some (bio_unregister_device fuel id s)) ∧
  (∀ id pn sn start len, devices s !! id = None -> is_Some (publish_subdevice id pn sn start len s)).
Proof.
  intros Hrtc Hf. pose proof (reachable_inv fuel _ _ Hrtc reg_inv_init Hf) as Hinv. cbn in Hinv.
  pose proof Hinv as ([Hc Hl] & _). split_and!.
  - intros id. split; [|apply Hl]. intros [d Hd]. apply cnt_elem. destruct (Hc _ _ Hd). lia.
  - intros id d Hd. by apply Hc.
  - intros name. destruct (open_inv n s hs name Hinv) as (? & ? & -> & _). eauto.
  - intros id Hid. apply list_elem_of_split in Hid as (hs1 & hs2 & ->).
    destruct (close_inv n fuel s hs1 id hs2 Hinv Hf) as (? & -> & _). eauto.
  - intros id Hid. destruct (unregister_inv n fuel s hs id Hinv Hf Hid) as (? & -> & _). eauto.
  - intros. destruct (publish_inv n s hs id pn sn start len) as (? & ? & -> & _); eauto.
Qed.

(** A memory device and a subdevice of it, opened; then the parent is unregistered. *)
Definition reg1 : registry := default bio_init (register_membdev 7 [109] 4096 bio_init).
Definition reg2 : registry := fst (default (bio_init, 0) (publish_subdevice 8 [109] [115] 2 4 reg1)).
Definition reg3 : registry := fst (default (bio_init, None) (bio_open [115] reg2)).
Definition reg4 : registry := default bio_init (bio_unregister_device 5 7 reg3).

Lemma registry_safe_witness :
  (∀ id, is_Some (devices reg4 !! id) <-> id ∈ refs_of reg4 [8%nat]) ∧
  (∀ id d, devices reg4 !! id = Some d -> dref d = cnt id (refs_of reg4 [8%nat])) ∧
  (∀ name, is_Some (bio_open name reg4)) ∧
  (∀ id, id ∈ [8%nat] -> is_Some (bio_close 5 id reg4)) ∧
  (∀ id, id ∈ bdevs reg4 -> is_Some (bio_unregister_device 5 id reg4)) ∧
  (∀ id pn sn start len, devices reg4 !! id = None ->
     is_Some (publish_subdevice id pn sn start len reg4)).
Proof.
  apply (registry_safe 5 2 reg4 [8%nat]); [|lia].
  eapply rtc_l; [apply (step_membdev 5 0 bio_init [] 7%nat [109] 4096 reg1); reflexivity|].
  eapply rtc_l; [apply (step_publish 5 1 reg1 [] 8%nat [109] [115] 2 4 reg2); reflexivity|].
  eapply rtc_l; [apply (step_open 5 2 reg2 [] [115] reg3 8%nat); reflexivity|].
  eapply rtc_l; [apply (step_unregister 5 2 reg3 [8%nat] 7%nat reg4);
    [vm_compute; right; left | reflexivity]|].
  apply rtc_refl.
Defined.
