(* ===== verification/FsPath.v ===== *)
(** * Path normalisation ([fs_normalize_path] of [lib/fs/fs.c])

    A state machine that rewrites a path in place: [path] is the buffer, [pos] where it
    reads and [outpos] where it writes.  One step is one turn of the [while] loop; a
    read outside the buffer is [None].  The machine is compared with a definition on
    the fields of the path. *)
From stdpp Require Import base list.
From Stdlib Require Import ZArith Lia.
From S2P Require Import Prelude.
#[local] Open Scope Z_scope.

Inductive nstate := INITIAL | FIELD_START | IN_FIELD | SEP | SEEN_SEP | DOT | SEEN_DOT | DOTDOT | SEEN_DOTDOT.

Record walk := Walk { st : nstate; pos : nat; outpos : nat; path : list Z }.

Definition SLASH : Z := 47.
Definition PERIOD : Z := 46.

(** [path[outpos++] = c]. *)
Definition put_char (c : Z) (w : walk) : walk :=
  Walk (st w) (pos w) (S (outpos w)) (<[outpos w := c]> (path w)).
Definition goto (s : nstate) (w : walk) : walk := Walk s (pos w) (outpos w) (path w).
Definition advance (w : walk) : walk := Walk (st w) (S (pos w)) (outpos w) (path w).

(** [while (outpos > 0) { if (path[outpos - 1] == '/') break; outpos--; }] *)
Fixpoint walk_back (path : list Z) (outpos : nat) : nat :=
  match outpos with
  | O => O
  | S o => if bool_decide (path !! o = Some SLASH) then outpos else walk_back path o
  end.

(** One turn of the loop; the flag is [done]. *)
Definition normalize_step (w : walk) : option (walk * bool) :=
  c ← path w !! pos w;
  Some match st w with
  | INITIAL =>
      if c =? SLASH then (goto SEP w, false) else
      if c =? PERIOD then (goto DOT w, false) else (goto FIELD_START w, false)
  | FIELD_START =>
      if c =? PERIOD then (goto DOT w, false) else
      if c =? 0 then (w, true) else (goto IN_FIELD w, false)
  | IN_FIELD =>
      if c =? SLASH then (goto SEP w, false) else
      if c =? 0 then (w, true) else (advance (put_char c w), false)
  | SEP => (goto SEEN_SEP (put_char SLASH (advance w)), false)
  | SEEN_SEP =>
      if c =? SLASH then (advance w, false) else
      if c =? 0 then (w, true) else (goto FIELD_START w, false)
  | DOT => (goto SEEN_DOT (advance w), false)
  | SEEN_DOT =>
      if c =? PERIOD then (goto DOTDOT w, false) else
      if c =? SLASH then (goto SEEN_SEP (advance w), false) else
      if c =? 0 then (w, true) else (goto IN_FIELD (put_char PERIOD w), false)
  | DOTDOT => (goto SEEN_DOTDOT (advance w), false)
  | SEEN_DOTDOT =>
      if (c =? SLASH) || (c =? 0) then
        let o := match outpos w with O => O | S o => walk_back (path w) o end in
        (Walk SEEN_SEP (S (pos w)) o (path w), c =? 0)
      else (goto IN_FIELD (put_char PERIOD (put_char PERIOD w)), false)
  end.

Fixpoint normalize_loop (fuel : nat) (w : walk) : option walk :=
  match fuel with
  | O => None
  | S fuel =>
      '(w, finished) ← normalize_step w;
      if finished : bool then Some w else normalize_loop fuel w
  end.

(** The buffer after the call. *)
Definition fs_normalize_path (fuel : nat) (buf : list Z) : option (list Z) :=
  w ← normalize_loop fuel (Walk INITIAL 0 0 buf);
  let o := match outpos w with
           | S o => if bool_decide (path w !! o = Some SLASH) then o else S o
           | O => O
           end in
  Some (<[o := 0]> (path w)).

(** ** The machine without the buffer: what was written and what is left to read *)
Record view := View { vst : nstate; out : list Z; rest : list Z }.

(** The output without its last field. *)
Definition drop_field (o : list Z) : list Z :=
  match length o with O => [] | S n => take (walk_back o n) o end.

Definition view_step (v : view) : view * bool :=
  let c := match rest v with [] => 0 | c :: _ => c end in
  let next := match rest v with [] => [] | _ :: r => r end in
  match vst v with
  | INITIAL =>
      if c =? SLASH then (View SEP (out v) (rest v), false) else
      if c =? PERIOD then (View DOT (out v) (rest v), false) else (View FIELD_START (out v) (rest v), false)
  | FIELD_START =>
      if c =? PERIOD then (View DOT (out v) (rest v), false) else
      if c =? 0 then (v, true) else (View IN_FIELD (out v) (rest v), false)
  | IN_FIELD =>
      if c =? SLASH then (View SEP (out v) (rest v), false) else
      if c =? 0 then (v, true) else (View IN_FIELD (out v ++ [c]) next, false)
  | SEP => (View SEEN_SEP (out v ++ [SLASH]) next, false)
  | SEEN_SEP =>
      if c =? SLASH then (View SEEN_SEP (out v) next, false) else
      if c =? 0 then (v, true) else (View FIELD_START (out v) (rest v), false)
  | DOT => (View SEEN_DOT (out v) next, false)
  | SEEN_DOT =>
      if c =? PERIOD then (View DOTDOT (out v) (rest v), false) else
      if c =? SLASH then (View SEEN_SEP (out v) next, false) else
      if c =? 0 then (v, true) else (View IN_FIELD (out v ++ [PERIOD]) (rest v), false)
  | DOTDOT => (View SEEN_DOTDOT (out v) next, false)
  | SEEN_DOTDOT =>
      if (c =? SLASH) || (c =? 0) then (View SEEN_SEP (drop_field (out v)) next, c =? 0)
      else (View IN_FIELD (out v ++ [PERIOD; PERIOD]) (rest v), false)
  end.

Fixpoint view_loop (fuel : nat) (v : view) : option (list Z) :=
  match fuel with
  | O => None
  | S fuel => let '(v, finished) := view_step v in
              if finished : bool then Some (out v) else view_loop fuel v
  end.

(** How far the writing must lag behind the reading. *)
Definition lag (s : nstate) : nat :=
  match s with SEEN_DOT | DOTDOT => 1 | SEEN_DOTDOT => 2 | _ => 0 end.
(** States that consume a character they have already seen. *)
Definition needs (v : view) : Prop :=
  match vst v with
  | SEP | DOT | DOTDOT => rest v <> []
  | _ => True
  end.

(** The buffer [w] holds the view [v], followed by a NUL and [junk]. *)
Definition shows (w : walk) (v : view) (junk : list Z) : Prop :=
  st w = vst v ∧ outpos w = length (out v) ∧ (outpos w + lag (st w) <= pos w)%nat ∧
  take (outpos w) (path w) = out v ∧ drop (pos w) (path w) = rest v ++ 0 :: junk ∧
  Forall (λ c, c <> 0) (rest v) ∧ needs v.

Lemma walk_back_le p n : (walk_back p n <= n)%nat.
Proof. induction n as [|n IH]; cbn [walk_back]; [done|]. case_bool_decide; lia. Qed.

Lemma walk_back_ext p q n :
  (∀ i, (i < n)%nat -> p !! i = q !! i) -> walk_back p n = walk_back q n.
Proof.
  induction n as [|n IH]; intros H; [done|]. cbn [walk_back]. rewrite (H n) by lia.
  rewrite IH by (intros; apply H; lia). done.
Qed.

(** What a write does to the two ends of the buffer. *)
Lemma put_view c w o :
  take (outpos w) (path w) = o -> outpos w = length o -> (outpos w < length (path w))%nat ->
  take (S (outpos w)) (<[outpos w := c]> (path w)) = o ++ [c].
Proof.
  intros <- Hl Hlt. rewrite (take_S_r _ _ c) by (by apply list_lookup_insert_eq).
  by rewrite take_insert_ge.
Qed.

Lemma shows_char w v junk :
  shows w v junk -> path w !! pos w = Some (match rest v with [] => 0 | c :: _ => c end) ∧
  (pos w < length (path w))%nat ∧
  (rest v <> [] -> drop (S (pos w)) (path w) = tail (rest v) ++ 0 :: junk).
Proof.
  intros (_ & _ & _ & _ & Hd & _). split_and!.
  - rewrite <- (Nat.add_0_r (pos w)), <- lookup_drop, Hd. by destruct (rest v).
  - destruct (decide (pos w < length (path w))%nat); [done|].
    rewrite drop_ge in Hd by lia. by destruct (rest v).
  - intros Hne. rewrite <- Nat.add_1_r, <- drop_drop, Hd. by destruct (rest v).
Qed.

Lemma drop_field_view w o :
  take (outpos w) (path w) = o -> outpos w = length o ->
  let k := match outpos w with O => O | S n => walk_back (path w) n end in
  take k (path w) = drop_field o ∧ k = length (drop_field o) ∧ (k <= outpos w)%nat.
Proof.
  intros Ht Hl k. unfold drop_field. rewrite <- Hl. subst k. destruct (outpos w) as [|n] eqn:E; [done|].
  assert (Hw : walk_back (path w) n = walk_back o n).
  { apply walk_back_ext. intros i Hi. rewrite <- Ht. symmetry. apply lookup_take_lt. lia. }
  rewrite Hw. pose proof (walk_back_le o n).
  assert (Hk : take (walk_back o n) o = take (walk_back o n) (path w)).
  { rewrite <- Ht at 2. rewrite take_take, Nat.min_l by lia. done. }
  split_and!; [done | | lia]. rewrite length_take. lia.
Qed.

(** Reading on, with the same output. *)
Lemma shows_next w s o c r junk s' :
  shows w (View s o (c :: r)) junk -> (lag s' <= S (lag s))%nat -> needs (View s' o r) ->
  shows (goto s' (advance w)) (View s' o r) junk.
Proof.
  intros Hs Hl Hn. destruct (shows_char _ _ _ Hs) as (_ & _ & Htl).
  destruct Hs as (Hst & Ho & Hlag & Ht & _ & Hnz & _). cbn in *. rewrite Hst in Hlag.
  split_and!; try done; cbn; [lia | by apply Htl | by apply Forall_cons in Hnz as [_ ?]].
Qed.

(** Another state, nothing read or written. *)
Lemma shows_goto w s o r junk s' :
  shows w (View s o r) junk -> (lag s' <= lag s)%nat -> needs (View s' o r) ->
  shows (goto s' w) (View s' o r) junk.
Proof.
  intros (Hst & Ho & Hlag & Ht & Hd & Hnz & _) Hl Hn. cbn in *. rewrite Hst in Hlag.
  split_and!; try done; cbn. lia.
Qed.

(** A character written behind the reading position. *)
Lemma shows_put w s o r junk s' c :
  shows w (View s o r) junk -> (S (lag s') <= lag s)%nat -> needs (View s' (o ++ [c]) r) ->
  shows (goto s' (put_char c w)) (View s' (o ++ [c]) r) junk.
Proof.
  intros Hs Hl Hn. destruct (shows_char _ _ _ Hs) as (_ & Hlt & _).
  destruct Hs as (Hst & Ho & Hlag & Ht & Hd & Hnz & _). cbn in *. rewrite Hst in Hlag.
  split_and!; try done; cbn.
  - rewrite length_app. cbn. lia.
  - lia.
  - apply put_view; [done | done | lia].
  - by rewrite drop_insert_lt by lia.
Qed.

(** A character written while one is read. *)
Lemma shows_copy w s o c r junk s' x :
  shows w (View s o (c :: r)) junk -> lag s' = O -> needs (View s' (o ++ [x]) r) ->
  shows (goto s' (advance (put_char x w))) (View s' (o ++ [x]) r) junk.
Proof.
  intros Hs Hl Hn. destruct (shows_char _ _ _ Hs) as (_ & Hlt & Htl).
  destruct Hs as (Hst & Ho & Hlag & Ht & Hd & Hnz & _). cbn in *. rewrite Hst in Hlag.
  split_and!; try done; cbn.
  - rewrite length_app. cbn. lia.
  - lia.
  - apply put_view; [done | done | lia].
  - rewrite drop_insert_lt by lia. by apply Htl.
  - by apply Forall_cons in Hnz as [_ ?].
Qed.

(** The output gives up its last field while a separator is read. *)
Lemma shows_back w o c r junk :
  shows w (View SEEN_DOTDOT o (c :: r)) junk ->
  shows (Walk SEEN_SEP (S (pos w)) (match outpos w with O => O | S n => walk_back (path w) n end) (path w))
        (View SEEN_SEP (drop_field o) r) junk.
Proof.
  intros Hs. destruct (shows_char _ _ _ Hs) as (_ & Hlt & Htl).
  destruct Hs as (Hst & Ho & Hlag & Ht & Hd & Hnz & _). cbn in *.
  destruct (drop_field_view w o Ht Ho) as (Hk & Hkl & Hle).
  split_and!; try done; cbn; [lia | by apply Htl | by apply Forall_cons in Hnz as [_ ?]].
Qed.

(** The machine on the buffer follows the one without it. *)
Lemma step_shows w v junk :
  shows w v junk ->
  ∃ w', normalize_step w = Some (w', (view_step v).2) ∧
        outpos w' = length (out (view_step v).1) ∧
        take (outpos w') (path w') = out (view_step v).1 ∧ (outpos w' < length (path w'))%nat ∧
        ((view_step v).2 = false -> shows w' (view_step v).1 junk).
Proof.
  intros Hs. destruct (shows_char w v junk Hs) as (Hc & Hlt & Htl).
  assert (Hw : ∀ w' v', shows w' v' junk -> outpos w' = length (out v') ∧
                take (outpos w') (path w') = out v' ∧ (outpos w' < length (path w'))%nat).
  { intros w' v' Hs'. destruct (shows_char _ _ _ Hs') as (_ & ? & _).
    destruct Hs' as (? & ? & ? & ? & _). split_and!; [done.. | lia]. }
  pose proof Hs as (Hst & Ho & Hlag & Ht & Hd & Hnz & Hn).
  unfold normalize_step. rewrite Hc. cbn. rewrite Hst. clear Hc.
  destruct v as [s o r]. unfold view_step. cbn [vst out rest] in *.
  assert (Hgo : ∀ w' v' b, shows w' v' junk -> ∃ w1, Some (w', b) = Some (w1, (v', b).2) ∧
            outpos w1 = length (out (v', b).1) ∧ take (outpos w1) (path w1) = out (v', b).1 ∧
            (outpos w1 < length (path w1))%nat ∧ ((v', b).2 = false -> shows w1 (v', b).1 junk)).
  { intros w' v' b Hsh. exists w'. destruct (Hw _ _ Hsh) as (? & ? & ?). split_and!; done. }
  destruct s; destruct r as [|c r]; try done;
    repeat match goal with
    | |- context [if ?b then _ else _] => destruct b eqn:?
    end;
    try solve [ destruct (drop_field_view w o Ht Ho) as (? & ? & ?); eexists; split; [reflexivity|]; cbn;
                split_and!; [done.. | lia | done] ];
    apply Hgo;
    try solve [ done
              | apply (shows_goto w _ o _ junk _ Hs); [cbn; lia | done]
              | apply (shows_next w _ o _ _ junk _ Hs); [cbn; lia | done]
              | apply (shows_copy w _ o _ _ junk _ _ Hs); [done | done]
              | apply (shows_back w o _ _ junk Hs) ].
  - replace (advance (put_char c w)) with (goto IN_FIELD (advance (put_char c w)))
      by (unfold goto, advance, put_char; cbn; by rewrite Hst).
    by apply (shows_copy w _ o c r junk _ _ Hs).
  - replace (advance w) with (goto SEEN_SEP (advance w)) by (unfold goto, advance; cbn; by rewrite Hst).
    apply (shows_next w _ o _ _ junk _ Hs); [cbn; lia | done].
  - apply (shows_put w _ o _ junk _ _ Hs); [cbn; lia | done].
  - assert (Hs1 : shows (goto DOTDOT (put_char PERIOD w)) (View DOTDOT (o ++ [PERIOD]) (c :: r)) junk).
    { apply (shows_put w _ o _ junk _ _ Hs); [cbn; lia | done]. }
    apply (shows_put _ _ _ _ junk IN_FIELD PERIOD) in Hs1; [|cbn; lia | done].
    by rewrite <- app_assoc in Hs1.
Qed.

Lemma loop_shows fuel w v junk o :
  shows w v junk -> view_loop fuel v = Some o ->
  ∃ w', normalize_loop fuel w = Some w' ∧ outpos w' = length o ∧ take (outpos w') (path w') = o ∧
        (outpos w' < length (path w'))%nat.
Proof.
  revert w v; induction fuel as [|fuel IH]; intros w v Hs Hv; [done|]. cbn [normalize_loop view_loop] in *.
  destruct (step_shows w v junk Hs) as (w' & -> & Hl & Ht & Hlt & Hn). cbn.
  destruct (view_step v) as [v' b]. cbn in *. destruct b; [|by apply (IH w' v'); [apply Hn|]].
  injection Hv as <-. by exists w'.
Qed.

(** ** The reference: the fields of a path *)

(** The parts between the slashes. *)
Fixpoint fields (s : list Z) : list (list Z) :=
  match s with
  | [] => [[]]
  | c :: s =>
      if c =? SLASH then [] :: fields s else
      match fields s with [] => [[c]] | f :: fs => (c :: f) :: fs end
  end.

(** A normalised path: whether it starts at the root, and its fields, the last one
    first. *)
Definition npath : Type := bool * list (list Z).

Definition add_field (p : npath) (f : list Z) : npath :=
  let '(root, fs) := p in
  if bool_decide (f = [] ∨ f = [PERIOD]) then p else
  if bool_decide (f = [PERIOD; PERIOD]) then
    match fs with [] => (false, []) | _ :: fs => (root, fs) end
  else (root, f :: fs).

(** Every field of [p] with the slash behind it. *)
Definition emitted (p : npath) : list Z :=
  (if p.1 : bool then [SLASH] else []) ++ concat ((λ f, f ++ [SLASH]) <$> rev p.2).

(** The text without a trailing slash. *)
Definition strip (o : list Z) : list Z :=
  match last o with Some c => if c =? SLASH then removelast o else o | None => o end.

Definition normal (s : list Z) : list Z :=
  strip (emitted (foldl add_field (match s with c :: _ => c =? SLASH | [] => false end, []) (fields s))).

(** A field: not empty, without slashes and NULs. *)
Definition field_ok (f : list Z) : Prop := f <> [] ∧ Forall (λ c, c <> SLASH ∧ c <> 0) f.
Definition npath_ok (p : npath) : Prop := Forall field_ok p.2.

Lemma fields_cut f r :
  Forall (λ c, c <> SLASH) f -> fields (f ++ SLASH :: r) = f :: fields r.
Proof.
  induction 1 as [|c f Hc _ IH]; [done|]. cbn [app fields]. rewrite (proj2 (Z.eqb_neq _ _)) by done.
  by rewrite IH.
Qed.
Lemma fields_last f : Forall (λ c, c <> SLASH) f -> fields f = [f].
Proof.
  induction 1 as [|c f Hc _ IH]; [done|]. cbn [fields]. rewrite (proj2 (Z.eqb_neq _ _)) by done.
  by rewrite IH.
Qed.

(** Every text is a field, at the end or before a slash. *)
Lemma first_field s :
  ∃ f, Forall (λ c, c <> SLASH) f ∧ (s = f ∨ ∃ r, s = f ++ SLASH :: r).
Proof.
  induction s as [|c s IH]; [exists []; split; [constructor | by left]|].
  destruct (decide (c = SLASH)) as [->|Hc].
  { exists []. split; [constructor|]. right. by exists s. }
  destruct IH as (f & Hf & [->|[r ->]]); (exists (c :: f); split; [by constructor|]); [by left|].
  right. by exists r.
Qed.

Lemma emitted_cons root f fs : emitted (root, f :: fs) = emitted (root, fs) ++ f ++ [SLASH].
Proof.
  unfold emitted. cbn. rewrite fmap_app, concat_app. cbn. by rewrite app_nil_r, app_assoc.
Qed.

Lemma walk_back_field o f :
  Forall (λ c, c <> SLASH) f -> (o = [] ∨ last o = Some SLASH) ->
  walk_back (o ++ f) (length (o ++ f)) = length o.
Proof.
  intros Hf Ho. induction f as [|c f IH] using rev_ind.
  - rewrite app_nil_r. destruct Ho as [->|Hl]; [done|].
    destruct o as [|x o _] using rev_ind; [done|]. rewrite last_snoc in Hl. injection Hl as ->.
    rewrite length_app, Nat.add_1_r. cbn [walk_back].
    rewrite bool_decide_true; [done|]. by rewrite lookup_app_r, Nat.sub_diag by lia.
  - apply Forall_app in Hf as [Hf Hc]. rewrite app_assoc, length_app, Nat.add_1_r. cbn [walk_back].
    rewrite bool_decide_false.
    + rewrite <- (IH Hf). apply walk_back_ext. intros i Hi. by rewrite lookup_app_l.
    + rewrite lookup_app_r, Nat.sub_diag by lia. cbn. apply Forall_cons in Hc as [Hc _]. congruence.
Qed.

Lemma emitted_ends p : emitted p = [] ∨ last (emitted p) = Some SLASH.
Proof.
  destruct p as [root [|f fs]]; [destruct root; [by right | by left]|].
  right. by rewrite emitted_cons, app_assoc, last_snoc.
Qed.

(** What [..] does to the output is what it does to the fields. *)
Lemma drop_field_emitted p :
  npath_ok p -> drop_field (emitted p) = emitted (add_field p [PERIOD; PERIOD]).
Proof.
  destruct p as [root [|f fs]]; intros Hp; [by destruct root|].
  apply Forall_cons in Hp as [[_ Hf] _]. unfold add_field. rewrite bool_decide_false, bool_decide_true by naive_solver.
  rewrite emitted_cons. unfold drop_field. rewrite app_assoc, length_app, Nat.add_1_r.
  set (o := emitted (root, fs)).
  assert (Hw : walk_back ((o ++ f) ++ [SLASH]) (length (o ++ f)) = length o).
  { rewrite (walk_back_ext _ (o ++ f)) by (intros i Hi; by rewrite lookup_app_l).
    apply walk_back_field; [|apply emitted_ends]. eapply Forall_impl; [exact Hf|]. naive_solver. }
  rewrite Hw, <- app_assoc. apply take_app_length.
Qed.

Lemma strip_field p f : field_ok f -> strip (emitted p ++ f) = strip (emitted (p.1, f :: p.2)).
Proof.
  intros [Hne Hf]. destruct p as [root fs]. cbn [fst snd]. rewrite emitted_cons.
  destruct f as [|c f _] using rev_ind; [done|]. unfold strip.
  apply Forall_app in Hf as [_ Hc]. apply Forall_cons in Hc as [[Hc _] _].
  rewrite !app_assoc, !last_snoc, (proj2 (Z.eqb_neq c SLASH) Hc), Z.eqb_refl. by rewrite removelast_last.
Qed.

(** ** The machine computes the reference *)

(** A field that is copied. *)
Definition regular (f : list Z) : Prop := field_ok f ∧ f <> [PERIOD] ∧ f <> [PERIOD; PERIOD].
(** What can follow a field. *)
Definition field_end (r : list Z) : Prop := r = [] ∨ ∃ r', r = SLASH :: r'.

Lemma copy_run f r o fuel :
  Forall (λ c, c <> SLASH ∧ c <> 0) f ->
  view_loop (length f + fuel) (View IN_FIELD o (f ++ r)) = view_loop fuel (View IN_FIELD (o ++ f) r).
Proof.
  intros Hf. revert o; induction Hf as [|c f [H1 H2] _ IH]; intros o; [by rewrite app_nil_r|].
  cbn [length app view_loop Nat.add]. unfold view_step. cbn [vst rest].
  rewrite !(proj2 (Z.eqb_neq _ _)) by done. cbn [out]. rewrite IH. by rewrite <- app_assoc.
Qed.

(** Unfolds one turn of the machine and decides the tests on known characters. *)
Ltac turn := cbn [view_loop Nat.add app]; unfold view_step at 1; cbn [vst rest out];
  rewrite ?Z.eqb_refl; rewrite ?(proj2 (Z.eqb_neq _ _)) by done; cbn [orb].

(** Copying starts at the first character, or after one or two dots. *)
Lemma regular_run f r o :
  regular f -> field_end r ->
  ∃ k, (k <= length f + 4)%nat ∧
  ∀ fuel, view_loop (k + fuel) (View SEEN_SEP o (f ++ r)) = view_loop fuel (View IN_FIELD (o ++ f) r).
Proof.
  intros [[Hne Hf] [H1 H2]] Hr. destruct f as [|c f]; [done|]. clear Hne.
  apply Forall_cons in Hf as [[Hcs Hc0] Hf].
  destruct (decide (c = PERIOD)) as [->|Hp].
  2:{ exists (S (S (S (length f)))). split; [cbn; lia|]. intros fuel. turn. turn. turn.
      rewrite copy_run by done. by rewrite <- app_assoc. }
  destruct f as [|c2 f]; [done|]. apply Forall_cons in Hf as [[Hcs2 Hc02] Hf].
  destruct (decide (c2 = PERIOD)) as [->|Hp2].
  2:{ exists (5 + length f)%nat. split; [cbn; lia|]. intros fuel. turn. turn. turn. turn. turn.
      rewrite copy_run by done. by rewrite <- !app_assoc. }
  destruct f as [|c3 f]; [done|]. apply Forall_cons in Hf as [[Hcs3 Hc03] Hf].
  exists (7 + length f)%nat. split; [cbn; lia|]. intros fuel.
  turn. turn. turn. turn. turn. turn. turn.
  rewrite copy_run by done. by rewrite <- !app_assoc.
Qed.

Lemma add_regular p f : regular f -> add_field p f = (p.1, f :: p.2).
Proof.
  intros [[Hne _] [H1 H2]]. destruct p as [root fs]. unfold add_field.
  rewrite !bool_decide_false; naive_solver.
Qed.

Lemma add_field_ok p f : npath_ok p -> regular f ∨ f = [] ∨ f = [PERIOD] ∨ f = [PERIOD; PERIOD] ->
  npath_ok (add_field p f).
Proof.
  intros Hp [Hf|[->|[->| ->]]].
  - rewrite add_regular by done. constructor; [apply Hf | done].
  - by destruct p.
  - by destruct p.
  - destruct p as [root [|g fs]]; [constructor|]. unfold npath_ok in *. cbn. by apply Forall_cons in Hp as [_ ?].
Qed.

Lemma field_cases f :
  Forall (λ c, c <> SLASH ∧ c <> 0) f -> f = [] ∨ f = [PERIOD] ∨ f = [PERIOD; PERIOD] ∨ regular f.
Proof.
  intros Hf. destruct (decide (f = [])); [by left|]. destruct (decide (f = [PERIOD])); [by right; left|].
  destruct (decide (f = [PERIOD; PERIOD])); [by right; right; left|]. do 3 right. done.
Qed.

(** The number of turns a field and its slash take. *)
Lemma field_run p f r :
  npath_ok p -> Forall (λ c, c <> SLASH ∧ c <> 0) f ->
  ∃ k, (k <= 4 * S (length f))%nat ∧
  ∀ fuel, view_loop (k + fuel) (View SEEN_SEP (emitted p) (f ++ SLASH :: r)) =
          view_loop fuel (View SEEN_SEP (emitted (add_field p f)) r).
Proof.
  intros Hp Hf. destruct (field_cases f Hf) as [->|[->|[->|Hreg]]].
  - exists 1%nat. split; [cbn; lia|]. intros fuel. turn. by destruct p.
  - exists 4%nat. split; [cbn; lia|]. intros fuel. turn. turn. turn. turn. by destruct p.
  - exists 6%nat. split; [cbn; lia|]. intros fuel. turn. turn. turn. turn. turn. turn.
    by rewrite drop_field_emitted.
  - destruct (regular_run f (SLASH :: r) (emitted p) Hreg) as (k & Hk & Hrun); [right; eauto|].
    exists (k + 2)%nat. split.
    { destruct Hreg as [[Hne _] [H1 _]]. destruct f as [|c [|c2 f]]; cbn in *; [done | | lia].
      assert (k <= 5)%nat by lia. lia. }
    intros fuel. rewrite <- Nat.add_assoc, Hrun. turn. turn. rewrite add_regular by done.
    destruct p as [root fs]. cbn [fst snd]. by rewrite emitted_cons, app_assoc.
Qed.

Lemma last_field_run p f fuel :
  npath_ok p -> Forall (λ c, c <> SLASH ∧ c <> 0) f -> (4 * length f + 6 <= fuel)%nat ->
  ∃ o, view_loop fuel (View SEEN_SEP (emitted p) f) = Some o ∧ strip o = strip (emitted (add_field p f)).
Proof.
  intros Hp Hf Hfuel. destruct (field_cases f Hf) as [->|[->|[->|Hreg]]].
  - replace fuel with (1 + (fuel - 1))%nat by lia. eexists. split; [turn; reflexivity|]. by destruct p.
  - cbn in Hfuel. replace fuel with (4 + (fuel - 4))%nat by lia.
    eexists. split; [turn; turn; turn; turn; reflexivity|]. by destruct p.
  - cbn in Hfuel. replace fuel with (6 + (fuel - 6))%nat by lia.
    eexists. split; [turn; turn; turn; turn; turn; turn; reflexivity|]. cbn. by rewrite drop_field_emitted.
  - destruct (regular_run f [] (emitted p) Hreg) as (k & Hk & Hrun); [by left|]. rewrite app_nil_r in Hrun.
    replace fuel with (k + (1 + (fuel - k - 1)))%nat by lia. rewrite Hrun.
    eexists. split; [turn; reflexivity|]. cbn. rewrite add_regular by done. apply strip_field. apply Hreg.
Qed.

Lemma seen_sep_run n r p fuel :
  (length r <= n)%nat -> npath_ok p -> Forall (λ c, c <> 0) r -> (4 * length r + 6 <= fuel)%nat ->
  ∃ o, view_loop fuel (View SEEN_SEP (emitted p) r) = Some o ∧
       strip o = strip (emitted (foldl add_field p (fields r))).
Proof.
  revert r p fuel; induction n as [|n IH]; intros r p fuel Hn Hp Hnz Hf;
    destruct (first_field r) as (f & Hs & Hr).
  - assert (r = []) as -> by (destruct r; [done | cbn in Hn; lia]).
    by apply (last_field_run p [] fuel).
  - destruct Hr as [->|[r' ->]].
    + rewrite fields_last by done. apply last_field_run; [done | | done]. rewrite Forall_forall in *. naive_solver.
    + apply Forall_app in Hnz as [Hz1 Hz2]. apply Forall_cons in Hz2 as [_ Hz2].
      assert (Hok : Forall (λ c, c <> SLASH ∧ c <> 0) f) by (rewrite Forall_forall in *; naive_solver).
      rewrite length_app in Hn, Hf. cbn in Hn, Hf.
      destruct (field_run p f r' Hp Hok) as (k & Hk & Hrun).
      replace fuel with (k + (fuel - k))%nat by lia. rewrite Hrun, fields_cut by done. cbn [foldl].
      apply IH; [lia | | done | lia]. apply add_field_ok; [done|].
      destruct (field_cases f Hok) as [?|[?|[?|?]]]; tauto.
Qed.

(** From the initial state. *)
Lemma initial_run s fuel :
  Forall (λ c, c <> 0) s -> (4 * length s + 8 <= fuel)%nat ->
  ∃ o, view_loop fuel (View INITIAL [] s) = Some o ∧ strip o = normal s.
Proof.
  intros Hnz Hf. unfold normal. destruct s as [|c s].
  { exists []. split; [|done]. replace fuel with (2 + (fuel - 2))%nat by lia. turn. by turn. }
  pose proof Hnz as Hz. apply Forall_cons in Hz as [Hc Hz]. cbn in Hf.
  destruct (Z.eqb_spec c SLASH) as [->|Hs].
  - replace fuel with (2 + (fuel - 2))%nat by lia. turn. turn.
    destruct (seen_sep_run (length s) s (true, []) (fuel - 2)) as (o & Ho & Hst); [lia | by constructor | done | lia |].
    exists o. by split.
  - assert (Hrun : ∃ f', (4 * S (length s) + 6 <= f')%nat ∧
              view_loop fuel (View INITIAL [] (c :: s)) = view_loop f' (View SEEN_SEP [] (c :: s))).
    { destruct (decide (c = PERIOD)) as [->|Hp].
      - exists (2 + (fuel - 1))%nat. split; [lia|]. replace fuel with (1 + (fuel - 1))%nat at 1 by lia.
        turn. symmetry. turn. by turn.
      - exists (1 + (fuel - 1))%nat. split; [lia|]. replace fuel with (1 + (fuel - 1))%nat at 1 by lia.
        turn. symmetry. by turn. }
    destruct Hrun as (f' & Hf' & ->).
    apply (seen_sep_run (length (c :: s)) (c :: s) (false, []) f'); [done | by constructor | done | cbn; lia].
Qed.

(** ** Properties *)

Lemma strip_cut (o : list Z) :
  strip o = take (match length o with
                  | S n => if bool_decide (o !! n = Some SLASH) then n else S n
                  | O => O end) o.
Proof.
  destruct o as [|c o _] using rev_ind; [done|]. unfold strip. rewrite last_snoc, length_app, Nat.add_1_r.
  assert (Hl : (o ++ [c]) !! length o = Some c) by (by rewrite lookup_app_r, Nat.sub_diag by lia).
  rewrite Hl. destruct (Z.eqb_spec c SLASH) as [->|Hc].
  - rewrite bool_decide_true, removelast_last by done. by rewrite take_app_length.
  - rewrite bool_decide_false by congruence. rewrite take_ge; [done|]. rewrite length_app. cbn. lia.
Qed.

Lemma buffer_cut (p o : list Z) n k :
  take n p = o -> (k <= n)%nat -> (k < length p)%nat -> take (S k) (<[k := 0]> p) = take k o ++ [0].
Proof.
  intros <- Hk Hl. rewrite (take_S_r _ _ 0) by (by apply list_lookup_insert_eq).
  rewrite take_insert_ge by done. by rewrite take_take, Nat.min_l.
Qed.

Lemma normalize_length fuel w w' :
  normalize_loop fuel w = Some w' -> length (path w') = length (path w).
Proof.
  revert w; induction fuel as [|fuel IH]; intros w Hw; [done|]. cbn [normalize_loop] in Hw.
  destruct (normalize_step w) as [[w1 b]|] eqn:E; [|done]. cbn in Hw.
  assert (Hl : length (path w1) = length (path w)).
  { unfold normalize_step in E. destruct (path w !! pos w); [|done]. cbn in E.
    repeat case_match; simplify_eq; cbn; by rewrite ?length_insert. }
  destruct b; [by injection Hw as <- | rewrite <- Hl; by apply IH].
Qed.

Lemma normalize_run fuel s junk :
  Forall (λ c, c <> 0) s -> (4 * length s + 8 <= fuel)%nat ->
  ∃ buf, fs_normalize_path fuel (s ++ 0 :: junk) = Some buf ∧
         take (S (length (normal s))) buf = normal s ++ [0] ∧ length buf = length (s ++ 0 :: junk).
Proof.
  intros Hnz Hf. destruct (initial_run s fuel Hnz Hf) as (o & Ho & Hst).
  assert (Hsh : shows (Walk INITIAL 0 0 (s ++ 0 :: junk)) (View INITIAL [] s) junk) by done.
  destruct (loop_shows fuel _ _ _ _ Hsh Ho) as (w & Hrun & Hl & Ht & Hlt).
  pose proof (normalize_length _ _ _ Hrun) as Hlen. cbn [path] in Hlen.
  unfold fs_normalize_path. rewrite Hrun. cbn. eexists. split; [done|]. rewrite length_insert.
  split; [|done]. rewrite <- Hst, strip_cut, <- Hl. set (k := match outpos w with
            | S n => if bool_decide (path w !! n = Some SLASH) then n else S n
            | O => O end).
  assert (Ek : k = match outpos w with
                   | S n => if bool_decide (o !! n = Some SLASH) then n else S n
                   | O => O end).
  { subst k. destruct (outpos w) as [|n]; [done|]. rewrite <- Ht. by rewrite lookup_take_lt by lia. }
  rewrite <- Ek. assert (k <= outpos w)%nat by (subst k; destruct (outpos w); [|case_bool_decide]; lia).
  assert (length (take k o) = k) as -> by (rewrite length_take; lia).
  apply (buffer_cut _ _ (outpos w)); [done | done | lia].
Qed.

(** The path "/a//./b/../c/". *)
Definition path_sample : list Z := [47; 97; 47; 47; 46; 47; 98; 47; 46; 46; 47; 99; 47].
(** It is "/a/c". *)
Lemma path_sample_normal : normal path_sample = [47; 97; 47; 99].
Proof. reflexivity. Qed.

(** ".." at the root takes the root away: "/../a" becomes the relative path "a", and
    "/" becomes the empty path. *)
Lemma root_parent_relative : normal [47; 46; 46; 47; 97] = [97].
Proof. reflexivity. Qed.
Lemma root_empty : normal [47] = [].
Proof. reflexivity. Qed.

(** *** Normalising twice is normalising once *)
Lemma fields_emitted fs :
  Forall field_ok fs -> fs <> [] ->
  fields (strip (concat ((λ f, f ++ [SLASH]) <$> fs))) = fs.
Proof.
  intros Hfs Hne. destruct fs as [|g fs _] using rev_ind; [done|]. clear Hne.
  apply Forall_app in Hfs as [Hfs Hg]. apply Forall_cons in Hg as [[Hne Hg] _].
  assert (Hgs : Forall (λ c, c <> SLASH) g) by (eapply Forall_impl; [exact Hg|]; naive_solver).
  rewrite fmap_app, concat_app. cbn. rewrite app_nil_r, app_assoc. unfold strip.
  rewrite last_snoc, Z.eqb_refl, removelast_last.
  induction Hfs as [|f fs [_ Hf] _ IH]; cbn; [by rewrite fields_last|].
  rewrite <- !app_assoc. cbn. rewrite fields_cut; [by rewrite IH|].
  eapply Forall_impl; [exact Hf|]. naive_solver.
Qed.

Lemma fields_clean s : Forall (λ c, c <> 0) s -> Forall (Forall (λ c, c <> SLASH ∧ c <> 0)) (fields s).
Proof.
  induction 1 as [|c s Hc _ IH]; [by repeat constructor|]. cbn [fields].
  destruct (Z.eqb_spec c SLASH); [by constructor|].
  destruct (fields s); [by repeat constructor|]. apply Forall_cons in IH as [Hf Hl].
  by repeat constructor.
Qed.

Lemma add_fields_regular fs p :
  Forall (Forall (λ c, c <> SLASH ∧ c <> 0)) fs -> Forall regular p.2 ->
  Forall regular (foldl add_field p fs).2.
Proof.
  intros Hfs. revert p; induction Hfs as [|f fs Hf _ IH]; intros p Hp; [done|]. cbn [foldl]. apply IH.
  destruct (field_cases f Hf) as [->|[->|[->|Hreg]]]; try (by destruct p).
  - destruct p as [root [|g gs]]; [constructor|]. by apply Forall_cons in Hp as [_ ?].
  - rewrite add_regular by done. by constructor.
Qed.

Lemma add_regulars root fs acc :
  Forall regular fs -> foldl add_field (root, acc) fs = (root, rev fs ++ acc).
Proof.
  intros Hfs. revert acc; induction Hfs as [|f fs Hf _ IH]; intros acc; [done|]. cbn [foldl].
  rewrite add_regular by done. cbn [fst snd rev]. by rewrite IH, <- app_assoc.
Qed.

Lemma strip_app_cons a (b : list Z) : b <> [] -> strip (a ++ b) = a ++ strip b.
Proof.
  intros Hb. destruct b as [|c b _] using rev_ind; [done|]. unfold strip.
  rewrite app_assoc, !last_snoc. destruct (c =? SLASH); [|by rewrite app_assoc].
  by rewrite !removelast_last.
Qed.

Lemma normal_idempotent s : Forall (λ c, c <> 0) s -> normal (normal s) = normal s.
Proof.
  intros Hnz. unfold normal at 2 3. set (r0 := match s with [] => false | c :: _ => _ end).
  pose proof (add_fields_regular (fields s) (r0, []) (fields_clean s Hnz) (Forall_nil_2 _)) as Hreg.
  destruct (foldl add_field (r0, []) (fields s)) as [root fs]. cbn in Hreg.
  destruct (decide (fs = [])) as [->|Hne]; [by destruct root|].
  set (X := concat ((λ f, f ++ [SLASH]) <$> rev fs)).
  assert (Hrev : Forall regular (rev fs)) by (by apply Forall_rev).
  assert (Hf : fields (strip X) = rev fs).
  { apply fields_emitted; [eapply Forall_impl; [exact Hrev|]; by intros ? [? _] |].
    intros E. apply Hne. rewrite <- (rev_involutive fs), E. done. }
  assert (HX : ∃ c y, strip X = c :: y ∧ c <> SLASH).
  { destruct (strip X) as [|c y] eqn:E.
    - cbn in Hf. rewrite <- Hf in Hrev. apply Forall_cons in Hrev as [[[? _] _] _]. done.
    - exists c, y. split; [done|]. intros ->. cbn in Hf. rewrite <- Hf in Hrev.
      apply Forall_cons in Hrev as [[[? _] _] _]. done. }
  destruct HX as (c & y & EX & Hc).
  assert (HXne : X <> []) by (intros E; rewrite E in EX; done).
  assert (En : strip (emitted (root, fs)) = (if root then [SLASH] else []) ++ strip X).
  { unfold emitted. by rewrite strip_app_cons. }
  rewrite En. unfold normal.
  assert (Ef : foldl add_field (match (if root then [SLASH] else []) ++ strip X with
                 [] => false | c :: _ => c =? SLASH end, []) (fields ((if root then [SLASH] else []) ++ strip X))
               = (root, fs)).
  { destruct root; cbn [app].
    - cbn [fields]. rewrite Z.eqb_refl, Hf. cbn [foldl].
      change (add_field (true, []) []) with ((true, []) : npath). rewrite add_regulars, rev_involutive, app_nil_r by done.
      done.
    - rewrite Hf, add_regulars, rev_involutive, app_nil_r by done. rewrite EX.
      by rewrite (proj2 (Z.eqb_neq _ _)). }
  rewrite Ef. exact En.
Qed.

(** ** Strings in buffers *)

(** The string a buffer holds. *)
Fixpoint cut (buf : list Z) : list Z :=
  match buf with [] => [] | c :: buf => if c =? 0 then [] else c :: cut buf end.

Lemma cut_clean buf : Forall (λ c, c <> 0) (cut buf).
Proof.
  induction buf as [|c buf IH]; [constructor|]. cbn [cut]. destruct (Z.eqb_spec c 0); by constructor.
Qed.
Lemma cut_app s junk : Forall (λ c, c <> 0) s -> cut (s ++ 0 :: junk) = s.
Proof.
  induction 1 as [|c s Hc _ IH]; [done|]. cbn [cut app]. rewrite (proj2 (Z.eqb_neq _ _) Hc). by rewrite IH.
Qed.
Lemma cut_split buf : ∃ junk, buf ++ [0] = cut buf ++ 0 :: junk.
Proof.
  induction buf as [|c buf [junk IH]]; [by exists []|]. cbn [cut app].
  destruct (Z.eqb_spec c 0) as [->|]; [by exists (buf ++ [0])|]. exists junk. cbn [app]. by rewrite IH.
Qed.
Lemma cut_prefix buf s : take (S (length s)) buf = s ++ [0] -> Forall (λ c, c <> 0) s -> cut buf = s.
Proof.
  intros E Hs. rewrite <- (take_drop (S (length s)) buf), E, <- app_assoc. by apply cut_app.
Qed.

Lemma strip_forall (P : Z -> Prop) o : Forall P o -> Forall P (strip o).
Proof.
  intros Ho. destruct o as [|c o _] using rev_ind; [done|]. unfold strip. rewrite last_snoc.
  destruct (c =? SLASH); [|done]. rewrite removelast_last. by apply Forall_app in Ho as [? _].
Qed.
Lemma normal_clean s : Forall (λ c, c <> 0) s -> Forall (λ c, c <> 0) (normal s).
Proof.
  intros Hs. unfold normal. apply strip_forall. set (r0 := match s with [] => false | c :: _ => _ end).
  pose proof (add_fields_regular (fields s) (r0, []) (fields_clean s Hs) (Forall_nil_2 _)) as Hreg.
  unfold emitted. apply Forall_app. split; [case_match; by repeat constructor|].
  apply Forall_rev in Hreg. induction Hreg as [|f fs [[_ Hf] _] _ IH]; [constructor|]. cbn.
  rewrite !Forall_app. split_and!; [|by repeat constructor|done].
  eapply Forall_impl; [exact Hf|]. naive_solver.
Qed.

(** Any buffer with a NUL is normalised, whatever follows the NUL. *)
Lemma normalize_cut fuel buf :
  (4 * length (cut buf) + 8 <= fuel)%nat ->
  ∃ r, fs_normalize_path fuel (buf ++ [0]) = Some r ∧ cut r = normal (cut buf).
Proof.
  intros Hf. destruct (cut_split buf) as [junk ->]. pose proof (cut_clean buf) as Hc.
  destruct (normalize_run fuel (cut buf) junk Hc Hf) as (r & -> & Ht & _). exists r. split; [done|].
  apply cut_prefix; [done | by apply normal_clean].
Qed.
Lemma length_cut buf : (length (cut buf) <= length buf)%nat.
Proof. induction buf as [|c buf IH]; [done|]. cbn [cut]. destruct (c =? 0); cbn; lia. Qed.

(** C37. [fs_normalize_path] ends within a number of turns linear in the path and leaves
    in the buffer, whose size it keeps to, the path its fields stand for: empty fields and
    "." dropped, ".." taken back with the field before it, one slash between fields, none
    at the end.  Normalising that again leaves it as it is. *)
Theorem normalize_path_fields fuel s junk :
  Forall (λ c, c <> 0) s -> (4 * length s + 8 <= fuel)%nat ->
  ∃ buf, fs_normalize_path fuel (s ++ 0 :: junk) = Some buf ∧
         take (S (length (normal s))) buf = normal s ++ [0] ∧
         length buf = length (s ++ 0 :: junk) ∧ normal (normal s) = normal s.
Proof.
  intros Hnz Hf. destruct (normalize_run fuel s junk Hnz Hf) as (buf & ? & ? & ?).
  exists buf. split_and!; [done.. |]. by apply normal_idempotent.
Qed.

Lemma normalize_path_fields_witness :
  ∃ buf, fs_normalize_path 60 (path_sample ++ 0 :: []) = Some buf ∧
         take (S (length (normal path_sample))) buf = normal path_sample ++ [0] ∧
         length buf = length (path_sample ++ 0 :: []) ∧
         normal (normal path_sample) = normal path_sample.
Proof. apply (normalize_path_fields 60 path_sample []); [repeat constructor; done | cbn; lia]. Defined.
