(* ===== verification/Fs.v ===== *)
(** * The mount table ([lib/fs/fs.c])

    Mounted file systems, the files open on them and the reference counts that decide
    when a mount goes away.  The file system drivers (ext2, fat32) are not part of the
    sources: a [fs_type] is a record of functions on a driver state [F], with [None]
    for a hook that is not there.  Mounts and files are known by the address [malloc]
    gave them.  [None] is an access to a freed mount or file.  A mount holds a reference
    to its device in the registry of [BioReg].  Paths are cut to 511 characters by
    [strlcpy] and normalised ([FsPath]). *)
From stdpp Require Import base gmap list.
From Stdlib Require Import ZArith Lia.
From S2P Require Import Prelude Refs BioReg FsPath.
#[local] Open Scope Z_scope.

Definition ERR_NOT_FOUND : Z := -2.
Definition ERR_ALREADY_MOUNTED : Z := -19.
Definition ERR_BAD_PATH : Z := -18.
Definition ERR_NOT_SUPPORTED : Z := -24.

(** [strlcpy(temppath, path, sizeof(temppath)); fs_normalize_path(temppath);] and the
    string that [temppath] then holds.  What the array holds behind the NUL does not
    matter ([normalize_run]), so it is left out. *)
Definition temppath (path : list Z) : option (list Z) :=
  buf ← fs_normalize_path (4 * 511 + 8) (take 511 path ++ [0]);
  Some (cut buf).

(** It always has one. *)
Lemma temppath_total path : ∃ tp, temppath path = Some tp ∧ tp = normal (cut (take 511 path)).
Proof.
  unfold temppath. destruct (normalize_cut (4 * 511 + 8) (take 511 path)) as (r & -> & E).
  { pose proof (length_cut (take 511 path)). rewrite length_take in *. lia. }
  cbn [mbind option_bind]. eauto.
Qed.

Section Mounts.
(** The state of the drivers, and what they know mounts and files by. *)
Context {F fscookie filecookie : Type}.

Record fs_type := FsType {
  t_name : list Z;
  t_mount : nat -> F -> F * Z * fscookie;
  t_unmount : fscookie -> F -> F;
  t_open : fscookie -> list Z -> F -> F * Z * filecookie;
  t_create : option (fscookie -> list Z -> F -> F * Z * filecookie);
  t_mkdir : option (fscookie -> list Z -> F -> F * Z);
  t_stat : filecookie -> F -> F * Z * Z;
  t_read : filecookie -> Z -> Z -> F -> F * Z * list Z;
  t_write : option (filecookie -> list Z -> Z -> Z -> F -> F * Z);
  t_close : filecookie -> F -> F * Z
}.

Record fs_mount_rec := Mount {
  m_path : list Z; m_dev : nat; m_cookie : fscookie; m_refs : Z; m_type : fs_type }.
Record fs_file := File { f_cookie : filecookie; f_mount : nat }.

(** The list [mounts] in order, the mounts and files allocated, the device registry. *)
Record fs := Fs {
  mounts : list nat; mtab : gmap nat fs_mount_rec; files : gmap nat fs_file;
  reg : registry; drv : F }.

Definition set_drv (d : F) (s : fs) : fs := Fs (mounts s) (mtab s) (files s) (reg s) d.
Definition set_reg (r : registry) (s : fs) : fs := Fs (mounts s) (mtab s) (files s) r (drv s).
Definition set_mtab (t : gmap nat fs_mount_rec) (s : fs) : fs := Fs (mounts s) t (files s) (reg s) (drv s).
Definition set_files (t : gmap nat fs_file) (s : fs) : fs := Fs (mounts s) (mtab s) t (reg s) (drv s).
Definition set_mounts (l : list nat) (s : fs) : fs := Fs l (mtab s) (files s) (reg s) (drv s).
Definition set_refs (n : Z) (m : fs_mount_rec) : fs_mount_rec :=
  Mount (m_path m) (m_dev m) (m_cookie m) n (m_type m).

Definition fs_init (r : registry) (d : F) : fs := Fs [] ∅ ∅ r d.

(** [find_mount]: the first mount whose path the path starts with, and the rest. *)
Fixpoint find_in (path : list Z) (l : list nat) (t : gmap nat fs_mount_rec) : option (option (nat * list Z)) :=
  match l with
  | [] => Some None
  | id :: l =>
      m ← t !! id;
      if (length path <? length (m_path m))%nat then find_in path l t else
      if bool_decide (take (length (m_path m)) path = m_path m)
      then Some (Some (id, drop (length (m_path m)) path))
      else find_in path l t
  end.
Definition find_mount (path : list Z) (s : fs) : option (option (nat * list Z)) :=
  find_in path (mounts s) (mtab s).

(** [mount]; [id] is the address of the new mount structure. *)
Definition mount (fuel id : nat) (path device : list Z) (type : fs_type) (s : fs) : option (fs * Z) :=
  tp ← temppath path;
  if negb (bool_decide (head tp = Some SLASH)) then Some (s, ERR_BAD_PATH) else
  found ← find_mount tp s;
  match found with
  | Some _ => Some (s, ERR_ALREADY_MOUNTED)
  | None =>
      '(r, dev) ← bio_open device (reg s);
      let s := set_reg r s in
      match dev with
      | None => Some (s, ERR_NOT_FOUND)
      | Some d =>
          let '(x, err, cookie) := t_mount type d (drv s) in
          let s := set_drv x s in
          if err <? 0 then r ← bio_close fuel d (reg s); Some (set_reg r s, err) else
          let s := set_mtab (<[id := Mount tp d cookie 1 type]> (mtab s)) s in
          Some (set_mounts (id :: mounts s) s, 0)
      end
  end.

(** [types] is the table of file systems the build has. *)
Definition fs_mount (types : list fs_type) (fuel id : nat) (path device : list Z) (s : fs) : option (fs * Z) :=
  t ← head types; mount fuel id path device t s.
Fixpoint fs_mount_type (types : list fs_type) (fuel id : nat) (path device name : list Z) (s : fs)
  : option (fs * Z) :=
  match types with
  | [] => Some (s, ERR_NOT_FOUND)
  | t :: types => if bool_decide (name = t_name t) then mount fuel id path device t s
                  else fs_mount_type types fuel id path device name s
  end.

Definition put_mount (fuel id : nat) (s : fs) : option fs :=
  m ← mtab s !! id;
  let s := set_mtab (<[id := set_refs (m_refs m - 1) m]> (mtab s)) s in
  if negb (m_refs m - 1 =? 0) then Some s else
  let s := set_mounts (filter (λ x, x <> id) (mounts s)) s in
  let s := set_drv (t_unmount (m_type m) (m_cookie m) (drv s)) s in
  r ← bio_close fuel (m_dev m) (reg s);
  Some (set_mtab (delete id (mtab s)) (set_reg r s)).

Definition fs_unmount (fuel : nat) (path : list Z) (s : fs) : option (fs * Z) :=
  tp ← temppath path;
  found ← find_mount tp s;
  match found with
  | None => Some (s, ERR_NOT_FOUND)
  | Some (id, _) => s ← put_mount fuel id s; Some (s, 0)
  end.

(** The second half of [fs_open_file] and [fs_create_file]: the new file [fid]. *)
Definition new_file (fid id : nat) (m : fs_mount_rec) (cookie : filecookie) (s : fs) : fs :=
  let s := set_files (<[fid := File cookie id]> (files s)) s in
  set_mtab (<[id := set_refs (m_refs m + 1) m]> (mtab s)) s.

Definition fs_open_file (fid : nat) (path : list Z) (s : fs) : option (fs * Z) :=
  tp ← temppath path;
  found ← find_mount tp s;
  match found with
  | None => Some (s, ERR_NOT_FOUND)
  | Some (id, newpath) =>
      m ← mtab s !! id;
      let '(x, err, cookie) := t_open (m_type m) (m_cookie m) newpath (drv s) in
      let s := set_drv x s in
      if err <? 0 then Some (s, err) else Some (new_file fid id m cookie s, 0)
  end.

Definition fs_create_file (fid : nat) (path : list Z) (s : fs) : option (fs * Z) :=
  tp ← temppath path;
  found ← find_mount tp s;
  match found with
  | None => Some (s, ERR_NOT_FOUND)
  | Some (id, newpath) =>
      m ← mtab s !! id;
      match t_create (m_type m) with
      | None => Some (s, ERR_NOT_SUPPORTED)
      | Some create =>
          let '(x, err, cookie) := create (m_cookie m) newpath (drv s) in
          let s := set_drv x s in
          if err <? 0 then Some (s, err) else Some (new_file fid id m cookie s, 0)
      end
  end.

Definition fs_make_dir (path : list Z) (s : fs) : option (fs * Z) :=
  tp ← temppath path;
  found ← find_mount tp s;
  match found with
  | None => Some (s, ERR_NOT_FOUND)
  | Some (id, newpath) =>
      m ← mtab s !! id;
      match t_mkdir (m_type m) with
      | None => Some (s, ERR_NOT_SUPPORTED)
      | Some mkdir => let '(x, err) := mkdir (m_cookie m) newpath (drv s) in Some (set_drv x s, err)
      end
  end.

(** The mount of an open file. *)
Definition file_mount (fid : nat) (s : fs) : option (fs_file * fs_mount_rec) :=
  f ← files s !! fid;
  m ← mtab s !! f_mount f;
  Some (f, m).

Definition fs_read_file (fid : nat) (offset len : Z) (s : fs) : option (fs * Z * list Z) :=
  '(f, m) ← file_mount fid s;
  let '(x, err, data) := t_read (m_type m) (f_cookie f) offset len (drv s) in
  Some (set_drv x s, err, data).

Definition fs_write_file (fid : nat) (data : list Z) (offset len : Z) (s : fs) : option (fs * Z) :=
  '(f, m) ← file_mount fid s;
  match t_write (m_type m) with
  | None => Some (s, ERR_NOT_SUPPORTED)
  | Some write => let '(x, err) := write (f_cookie f) data offset len (drv s) in Some (set_drv x s, err)
  end.

Definition fs_stat_file (fid : nat) (s : fs) : option (fs * Z * Z) :=
  '(f, m) ← file_mount fid s;
  let '(x, err, sz) := t_stat (m_type m) (f_cookie f) (drv s) in
  Some (set_drv x s, err, sz).

Definition fs_close_file (fuel fid : nat) (s : fs) : option (fs * Z) :=
  '(f, m) ← file_mount fid s;
  let '(x, err) := t_close (m_type m) (f_cookie f) (drv s) in
  let s := set_drv x s in
  if err <? 0 then Some (s, err) else
  s ← put_mount fuel (f_mount f) s;
  Some (set_files (delete fid (files s)) s, 0).

Definition fs_load_file (fuel fid : nat) (path : list Z) (maxlen : Z) (s : fs) : option (fs * Z * list Z) :=
  '(s, err) ← fs_open_file fid path s;
  if err <? 0 then Some (s, err, []) else
  '(s, _, sz) ← fs_stat_file fid s;
  '(s, err, data) ← fs_read_file fid 0 (Z.min maxlen sz) s;
  '(s, _) ← fs_close_file fuel fid s;
  Some (s, err, data).

(** ** Who holds references *)

Definition file_mounts (t : gmap nat fs_file) : list nat := targets (λ f, Some (f_mount f)) t.
Definition mount_devs (t : gmap nat fs_mount_rec) : list nat := targets (λ m, Some (m_dev m)) t.

(** [active] are the mounts not yet unmounted by their owner, [hs] the references to
    devices that clients other than the mounts hold. *)
Record fs_inv (n : nat) (s : fs) (active hs : list nat) : Prop := FsInv {
  fi_counted : counted m_refs (mtab s) (active ++ file_mounts (files s));
  fi_listed : ∀ id, id ∈ mounts s <-> is_Some (mtab s !! id);
  fi_devices : reg_inv n (reg s) (mount_devs (mtab s) ++ hs)
}.

Implicit Types s : fs.

Lemma fs_inv_drv n s active hs x : fs_inv n s active hs -> fs_inv n (set_drv x s) active hs.
Proof. intros [? ? ?]. by split. Qed.

Lemma find_in_total path l t :
  (∀ id, id ∈ l -> is_Some (t !! id)) ->
  ∃ r, find_in path l t = Some r ∧ ∀ id tr, r = Some (id, tr) -> id ∈ l.
Proof.
  induction l as [|x l IH]; intros Hl; [by exists None|].
  destruct (Hl x) as [m Hm]; [by left|].
  destruct IH as (r & Hr & Hin); [intros; apply Hl; by right|]. cbn [find_in]. rewrite Hm. cbn [mbind option_bind].
  destruct (length path <? length (m_path m))%nat; [|case_bool_decide].
  - exists r. split; [done|]. intros id tr E. right. by apply (Hin id tr).
  - eexists. split; [done|]. intros ?? E. injection E as -> _. by left.
  - exists r. split; [done|]. intros id tr E. right. by apply (Hin id tr).
Qed.

Lemma find_mount_total n s active hs path :
  fs_inv n s active hs ->
  ∃ r, find_mount path s = Some r ∧ ∀ id tr, r = Some (id, tr) -> is_Some (mtab s !! id).
Proof.
  intros HI. destruct (find_in_total path (mounts s) (mtab s)) as (r & Hr & Hin).
  { intros id. apply (fi_listed _ _ _ _ HI). }
  exists r. split; [done|]. intros id tr E. apply (fi_listed _ _ _ _ HI). by apply (Hin id tr).
Qed.

(** Mounting: on success there is one more active mount, otherwise nothing changed
    but the state of the driver. *)
Lemma mount_inv n fuel id path device type s active hs :
  fs_inv n s active hs -> mtab s !! id = None -> (n <= fuel)%nat ->
  ∃ s' r, mount fuel id path device type s = Some (s', r) ∧
          ((r = 0 ∧ fs_inv n s' (id :: active) hs) ∨ (r <> 0 ∧ fs_inv n s' active hs)).
Proof.
  intros HI Hfresh Hf. unfold mount. destruct (temppath_total path) as (tp & -> & _).
  cbn [mbind option_bind]. case_match; [exists s, ERR_BAD_PATH; split; [done|]; by right|].
  destruct (find_mount_total n s active hs tp HI) as (r & -> & _). cbn.
  destruct r as [[? ?]|]; [exists s, ERR_ALREADY_MOUNTED; split; [done|]; by right|].
  pose proof HI as [HC HL HD].
  destruct (open_inv n (reg s) _ device HD) as (r1 & [d|] & -> & Hb & Hopen); cbn.
  2:{ exists (set_reg r1 s), ERR_NOT_FOUND. split; [done|]. right. subst r1. by split. }
  destruct Hopen as (Hinv & _). destruct (t_mount type d (drv s)) as [[x err] cookie].
  destruct (Z.ltb_spec err 0).
  - destruct (close_inv n fuel r1 [] d (mount_devs (mtab s) ++ hs) Hinv Hf) as (r2 & Hcl & Hinv2).
    cbn. rewrite Hcl. cbn. eexists _, err. split; [done|]. right. split; [lia|]. by split.
  - eexists _, 0. split; [done|]. left. split; [done|]. split; cbn.
    + by apply counted_new.
    + intros i. rewrite elem_of_cons, HL. destruct (decide (i = id)) as [->|].
      * rewrite lookup_insert_eq. split; [eauto | by left].
      * rewrite lookup_insert_ne by done. split; [intros [?|?]; done | by right].
    + unfold mount_devs in *. rewrite targets_insert by done. exact Hinv.
Qed.

(** Giving up one of the references to a mount. *)
Lemma put_mount_inv n fuel id s refs hs :
  counted m_refs (mtab s) (id :: refs) -> (∀ x, x ∈ mounts s <-> is_Some (mtab s !! x)) ->
  reg_inv n (reg s) (mount_devs (mtab s) ++ hs) -> (n <= fuel)%nat ->
  ∃ s', put_mount fuel id s = Some s' ∧ files s' = files s ∧ counted m_refs (mtab s') refs ∧
        (∀ x, x ∈ mounts s' <-> is_Some (mtab s' !! x)) ∧
        reg_inv n (reg s') (mount_devs (mtab s') ++ hs).
Proof.
  intros HC HL HD Hf. destruct (proj2 HC id) as [m Hm]; [by left|]. unfold put_mount. rewrite Hm.
  cbn [mbind option_bind]. destruct (Z.eqb_spec (m_refs m - 1) 0) as [E|E]; cbn [negb].
  - destruct (counted_last m_refs _ _ _ _ HC Hm) as [HC' Hni]; [lia|].
    unfold mount_devs in HD. rewrite (targets_delete _ _ _ _ Hm) in HD. cbn in HD.
    destruct (close_inv n fuel (reg s) [] (m_dev m) _ HD Hf) as (r & Hcl & Hinv). cbn. rewrite Hcl. cbn.
    eexists. split; [done|]. cbn. rewrite delete_insert_eq. split_and!; [done | done | | done].
    intros x. rewrite list_elem_of_filter, HL. destruct (decide (x = id)) as [->|Hne].
    + rewrite lookup_delete_eq. split; [by intros [? _] | by intros []].
    + rewrite lookup_delete_ne by done. tauto.
  - eexists. split; [done|]. cbn. split_and!; [done | | |].
    + apply (counted_dec m_refs _ _ _ m); [done | done | lia | done].
    + intros x. rewrite HL. destruct (decide (x = id)) as [->|].
      * rewrite lookup_insert_eq, Hm. split; eauto.
      * by rewrite lookup_insert_ne.
    + unfold mount_devs. by rewrite (targets_update _ _ _ m).
Qed.

Lemma unmount_inv n fuel path s a1 id a2 tr hs :
  fs_inv n s (a1 ++ id :: a2) hs -> (n <= fuel)%nat ->
  find_mount (normal (cut (take 511 path))) s = Some (Some (id, tr)) ->
  ∃ s', fs_unmount fuel path s = Some (s', 0) ∧ fs_inv n s' (a1 ++ a2) hs.
Proof.
  intros [HC HL HD] Hf Hfind. unfold fs_unmount. destruct (temppath_total path) as (tp & -> & ->).
  cbn [mbind option_bind]. rewrite Hfind. cbn [mbind option_bind].
  destruct (put_mount_inv n fuel id s (a1 ++ a2 ++ file_mounts (files s)) hs) as (s' & -> & Ef & HC' & HL' & HD');
    [| done | done | done |].
  { assert (E : (a1 ++ id :: a2) ++ file_mounts (files s) ≡ₚ id :: a1 ++ a2 ++ file_mounts (files s))
      by solve_Permutation. by rewrite E in HC. }
  cbn. exists s'. split; [done|]. split; [|done|done]. by rewrite Ef, <- app_assoc.
Qed.

(** A new file on a mount. *)
Lemma new_file_inv n fid id m cookie s active hs :
  fs_inv n s active hs -> mtab s !! id = Some m -> files s !! fid = None ->
  fs_inv n (new_file fid id m cookie s) active hs.
Proof.
  intros [HC HL HD] Hm Hfresh. split; cbn.
  - unfold file_mounts. rewrite targets_insert by done. cbn.
    assert (E : active ++ id :: targets (λ f, Some (f_mount f)) (files s) ≡ₚ
                id :: active ++ file_mounts (files s)) by (unfold file_mounts; solve_Permutation).
    rewrite E. by apply (counted_inc m_refs _ _ _ m).
  - intros x. rewrite HL. destruct (decide (x = id)) as [->|].
    + rewrite lookup_insert_eq, Hm. split; eauto.
    + by rewrite lookup_insert_ne.
  - unfold mount_devs. by rewrite (targets_update _ _ _ m).
Qed.

Lemma open_file_inv n fid path s active hs :
  fs_inv n s active hs -> files s !! fid = None ->
  ∃ s' r, fs_open_file fid path s = Some (s', r) ∧ fs_inv n s' active hs ∧
          (r < 0 ∨ is_Some (files s' !! fid)).
Proof.
  intros HI Hfresh. unfold fs_open_file. destruct (temppath_total path) as (tp & -> & _).
  cbn [mbind option_bind]. destruct (find_mount_total n s active hs tp HI) as ([[id tr]|] & -> & Hlive); cbn.
  2:{ exists s, ERR_NOT_FOUND. split_and!; [done | done | by left]. }
  destruct (Hlive id tr eq_refl) as [m Hm]. rewrite Hm. cbn.
  destruct (t_open (m_type m) (m_cookie m) tr (drv s)) as [[x err] cookie].
  destruct (Z.ltb_spec err 0); [exists (set_drv x s), err; split_and!; [done | by apply fs_inv_drv | by left]|].
  eexists _, 0. split; [done|]. split; [by apply new_file_inv; [apply fs_inv_drv | ..]|].
  right. cbn. rewrite lookup_insert_eq. eauto.
Qed.

Lemma create_file_inv n fid path s active hs :
  fs_inv n s active hs -> files s !! fid = None ->
  ∃ s' r, fs_create_file fid path s = Some (s', r) ∧ fs_inv n s' active hs.
Proof.
  intros HI Hfresh. unfold fs_create_file. destruct (temppath_total path) as (tp & -> & _).
  cbn [mbind option_bind]. destruct (find_mount_total n s active hs tp HI) as ([[id tr]|] & -> & Hlive); cbn; [|eauto].
  destruct (Hlive id tr eq_refl) as [m Hm]. rewrite Hm. cbn.
  destruct (t_create (m_type m)) as [create|]; [|eauto].
  destruct (create (m_cookie m) tr (drv s)) as [[x err] cookie].
  destruct (err <? 0); [eexists _, _; split; [done|]; by apply fs_inv_drv|].
  eexists _, 0. split; [done|]. by apply new_file_inv; [apply fs_inv_drv | ..].
Qed.

(** An open file's mount is there. *)
Lemma file_mount_live n s active hs fid f :
  fs_inv n s active hs -> files s !! fid = Some f -> is_Some (mtab s !! f_mount f).
Proof.
  intros [[_ Hl] _ _] Hf. apply Hl. apply elem_of_app. right.
  unfold file_mounts. rewrite (targets_delete _ _ _ _ Hf). cbn. by left.
Qed.

Lemma close_file_inv n fuel fid s active hs :
  fs_inv n s active hs -> (n <= fuel)%nat -> is_Some (files s !! fid) ->
  ∃ s' r, fs_close_file fuel fid s = Some (s', r) ∧ fs_inv n s' active hs.
Proof.
  intros HI Hf [f Hfid]. destruct (file_mount_live _ _ _ _ _ _ HI Hfid) as [m Hm].
  unfold fs_close_file, file_mount. rewrite Hfid. cbn. rewrite Hm. cbn.
  destruct (t_close (m_type m) (f_cookie f) (drv s)) as [x err].
  destruct (err <? 0); [eexists _, _; split; [done|]; by apply fs_inv_drv|].
  pose proof (fs_inv_drv _ _ _ _ x HI) as [HC HL HD].
  unfold file_mounts in HC. rewrite (targets_delete _ _ _ _ Hfid) in HC. cbn [files set_drv option_list] in HC.
  set (rest := targets (λ f, Some (f_mount f)) (delete fid (files s))) in *.
  assert (E : active ++ [f_mount f] ++ rest ≡ₚ f_mount f :: active ++ rest) by solve_Permutation.
  rewrite E in HC.
  destruct (put_mount_inv n fuel (f_mount f) (set_drv x s) (active ++ rest) hs HC HL HD Hf)
    as (s' & -> & Ef & HC' & HL' & HD').
  cbn. eexists _, 0. split; [done|]. split; cbn; [|done|done]. by rewrite Ef.
Qed.

Lemma file_calls_live n s active hs fid :
  fs_inv n s active hs -> is_Some (files s !! fid) ->
  (∀ offset len, ∃ x r data, fs_read_file fid offset len s = Some (set_drv x s, r, data)) ∧
  (∀ data offset len, ∃ x r, fs_write_file fid data offset len s = Some (set_drv x s, r)) ∧
  (∃ x r sz, fs_stat_file fid s = Some (set_drv x s, r, sz)).
Proof.
  intros HI [f Hf]. destruct (file_mount_live _ _ _ _ _ _ HI Hf) as [m Hm].
  unfold fs_read_file, fs_write_file, fs_stat_file, file_mount. rewrite Hf. cbn. rewrite Hm. cbn.
  split_and!; intros; repeat case_match; eauto. exists (drv s). destruct s. eauto.
Qed.

Lemma make_dir_inv n path s active hs :
  fs_inv n s active hs -> ∃ x r, fs_make_dir path s = Some (set_drv x s, r).
Proof.
  intros HI. unfold fs_make_dir. destruct (temppath_total path) as (tp & -> & _). cbn [mbind option_bind].
  destruct (find_mount_total n s active hs tp HI) as ([[id tr]|] & -> & Hlive); cbn.
  2:{ exists (drv s), ERR_NOT_FOUND. by destruct s. }
  destruct (Hlive id tr eq_refl) as [m Hm]. rewrite Hm. cbn. repeat case_match; eauto.
  exists (drv s), ERR_NOT_SUPPORTED. by destruct s.
Qed.

Lemma load_file_inv n fuel fid path maxlen s active hs :
  fs_inv n s active hs -> (n <= fuel)%nat -> files s !! fid = None ->
  ∃ s' r data, fs_load_file fuel fid path maxlen s = Some (s', r, data) ∧ fs_inv n s' active hs.
Proof.
  intros HI Hf Hfresh. unfold fs_load_file.
  destruct (open_file_inv n fid path s active hs HI Hfresh) as (s1 & r & -> & HI1 & Hopen). cbn [mbind option_bind].
  destruct (Z.ltb_spec r 0); [by exists s1, r, []|]. destruct Hopen as [?|Hfid]; [lia|].
  destruct (file_calls_live _ _ _ _ _ HI1 Hfid) as (_ & _ & x & r1 & sz & ->). cbn [mbind option_bind].
  pose proof (fs_inv_drv _ _ _ _ x HI1) as HI2.
  destruct (file_calls_live _ _ _ _ _ HI2 Hfid) as (Hread & _).
  destruct (Hread 0 (Z.min maxlen sz)) as (x2 & r2 & data & ->). cbn [mbind option_bind].
  destruct (close_file_inv n fuel fid (set_drv x2 (set_drv x s1)) active hs) as (s2 & r3 & -> & HI3);
    [by apply fs_inv_drv | done | done |].
  cbn. eauto.
Qed.

Lemma mount_type_inv types n fuel id path device name s active hs :
  fs_inv n s active hs -> mtab s !! id = None -> (n <= fuel)%nat ->
  ∃ s' r, fs_mount_type types fuel id path device name s = Some (s', r) ∧
          ((r = 0 ∧ fs_inv n s' (id :: active) hs) ∨ (r <> 0 ∧ fs_inv n s' active hs)).
Proof.
  intros HI Hfresh Hf. induction types as [|t types IH]; cbn [fs_mount_type]; [by eauto 8|].
  case_bool_decide; [by apply mount_inv | done].
Qed.

(** ** Everything that happens *)

(** The calls of clients of the file system, and those of clients of the block devices.
    [n] devices were made; a mount is unmounted by the one who mounted it, once. *)
Inductive fsstep (types : list fs_type) (fuel : nat)
  : nat * fs * list nat * list nat -> nat * fs * list nat * list nat -> Prop :=
| fs_step_mount n s active hs id path device s' r :
    mtab s !! id = None -> fs_mount types fuel id path device s = Some (s', r) ->
    fsstep types fuel (n, s, active, hs) (n, s', if r =? 0 then id :: active else active, hs)
| fs_step_mount_type n s active hs id path device name s' r :
    mtab s !! id = None -> fs_mount_type types fuel id path device name s = Some (s', r) ->
    fsstep types fuel (n, s, active, hs) (n, s', if r =? 0 then id :: active else active, hs)
| fs_step_unmount n s a1 id a2 hs path tp tr s' r :
    temppath path = Some tp -> find_mount tp s = Some (Some (id, tr)) ->
    fs_unmount fuel path s = Some (s', r) ->
    fsstep types fuel (n, s, a1 ++ id :: a2, hs) (n, s', a1 ++ a2, hs)
| fs_step_open n s active hs fid path s' r :
    files s !! fid = None -> fs_open_file fid path s = Some (s', r) ->
    fsstep types fuel (n, s, active, hs) (n, s', active, hs)
| fs_step_create n s active hs fid path s' r :
    files s !! fid = None -> fs_create_file fid path s = Some (s', r) ->
    fsstep types fuel (n, s, active, hs) (n, s', active, hs)
| fs_step_mkdir n s active hs path s' r :
    fs_make_dir path s = Some (s', r) -> fsstep types fuel (n, s, active, hs) (n, s', active, hs)
| fs_step_read n s active hs fid offset len s' r data :
    is_Some (files s !! fid) -> fs_read_file fid offset len s = Some (s', r, data) ->
    fsstep types fuel (n, s, active, hs) (n, s', active, hs)
| fs_step_write n s active hs fid data offset len s' r :
    is_Some (files s !! fid) -> fs_write_file fid data offset len s = Some (s', r) ->
    fsstep types fuel (n, s, active, hs) (n, s', active, hs)
| fs_step_stat n s active hs fid s' r sz :
    is_Some (files s !! fid) -> fs_stat_file fid s = Some (s', r, sz) ->
    fsstep types fuel (n, s, active, hs) (n, s', active, hs)
| fs_step_close n s active hs fid s' r :
    is_Some (files s !! fid) -> fs_close_file fuel fid s = Some (s', r) ->
    fsstep types fuel (n, s, active, hs) (n, s', active, hs)
| fs_step_load n s active hs fid path maxlen s' r data :
    files s !! fid = None -> fs_load_file fuel fid path maxlen s = Some (s', r, data) ->
    fsstep types fuel (n, s, active, hs) (n, s', active, hs)
| fs_step_devices n s active hs n' r' hs' :
    rstep fuel (n, reg s, hs) (n', r', hs') ->
    fsstep types fuel (n, s, active, hs) (n', set_reg r' s, active, hs').

(** The invariant of a whole state. *)
Definition fs_good (a : nat * fs * list nat * list nat) : Prop := fs_inv a.1.1.1 a.1.1.2 a.1.2 a.2.

Lemma mounted_inv n s' active hs id r :
  (r = 0 ∧ fs_inv n s' (id :: active) hs) ∨ (r <> 0 ∧ fs_inv n s' active hs) ->
  fs_inv n s' (if r =? 0 then id :: active else active) hs.
Proof. intros [[-> ?]|[? ?]]; [done|]. by rewrite (proj2 (Z.eqb_neq _ _)). Qed.

Lemma fsstep_mono types fuel a b : fsstep types fuel a b -> (a.1.1.1 <= b.1.1.1)%nat.
Proof. destruct 1 as [| | | | | | | | | | |? ? ? ? ? ? ? H]; cbn; [lia.. |]. by destruct (rstep_frame _ [] _ _ _ _ _ _ H) as (? & _ & _ & ?). Qed.

Lemma fsstep_inv types fuel a b : fsstep types fuel a b -> fs_good a -> (b.1.1.1 <= fuel)%nat -> fs_good b.
Proof.
  unfold fs_good. intros Hstep HI Hf. destruct Hstep as
    [n s active hs id path device s' r Hfr H|n s active hs id path device name s' r Hfr H
    |n s a1 id a2 hs path tp tr s' r Ht Hfind H|n s active hs fid path s' r Hfr H|n s active hs fid path s' r Hfr H
    |n s active hs path s' r H|n s active hs fid offset len s' r data Hl H|n s active hs fid data offset len s' r Hl H
    |n s active hs fid s' r sz Hl H|n s active hs fid s' r Hl H|n s active hs fid path maxlen s' r data Hfr H
    |n s active hs n' r' hs' H]; cbn [fst snd] in *.
  - unfold fs_mount in H. destruct (head types) as [t|]; [|done]. cbn [mbind option_bind] in H.
    destruct (mount_inv n fuel id path device t s active hs HI Hfr Hf) as (? & ? & E & Hi).
    rewrite E in H. simplify_eq. by apply mounted_inv.
  - destruct (mount_type_inv types n fuel id path device name s active hs HI Hfr Hf) as (? & ? & E & Hi).
    rewrite E in H. simplify_eq. by apply mounted_inv.
  - destruct (temppath_total path) as (? & E & ->). rewrite E in Ht. simplify_eq.
    destruct (unmount_inv n fuel path s a1 id a2 tr hs HI Hf Hfind) as (? & E' & Hi). by rewrite E' in H; simplify_eq.
  - destruct (open_file_inv n fid path s active hs HI Hfr) as (? & ? & E & Hi & _). by rewrite E in H; simplify_eq.
  - destruct (create_file_inv n fid path s active hs HI Hfr) as (? & ? & E & Hi). by rewrite E in H; simplify_eq.
  - destruct (make_dir_inv n path s active hs HI) as (? & ? & E). rewrite E in H. simplify_eq. by apply fs_inv_drv.
  - destruct (file_calls_live _ _ _ _ _ HI Hl) as (Hr & _ & _). destruct (Hr offset len) as (? & ? & ? & E).
    rewrite E in H. simplify_eq. by apply fs_inv_drv.
  - destruct (file_calls_live _ _ _ _ _ HI Hl) as (_ & Hw & _). destruct (Hw data offset len) as (? & ? & E).
    rewrite E in H. simplify_eq. by apply fs_inv_drv.
  - destruct (file_calls_live _ _ _ _ _ HI Hl) as (_ & _ & ? & ? & ? & E).
    rewrite E in H. simplify_eq. by apply fs_inv_drv.
  - destruct (close_file_inv n fuel fid s active hs HI Hf Hl) as (? & ? & E & Hi). by rewrite E in H; simplify_eq.
  - destruct (load_file_inv n fuel fid path maxlen s active hs HI Hf Hfr) as (? & ? & ? & E & Hi).
    by rewrite E in H; simplify_eq.
  - destruct HI as [HC HL HD]. destruct (rstep_frame _ (mount_devs (mtab s)) _ _ _ _ _ _ H) as (hs2 & Hst & Ep & Hle).
    destruct (rstep_inv fuel _ _ Hst HD Hf) as [Hinv _]. cbn in Hinv. rewrite Ep in Hinv. by split.
Qed.

Lemma fs_good_init d : fs_good (O, fs_init bio_init d, [], []).
Proof.
  split; cbn; [|intros id; rewrite elem_of_nil, lookup_empty; by split; [|intros []] | exact reg_inv_init].
  split; [by intros ? ? ?%lookup_empty_Some|]. intros id Hid. by apply not_elem_of_nil in Hid.
Qed.

Lemma fs_reachable types fuel a b :
  rtc (fsstep types fuel) a b -> fs_good a -> (b.1.1.1 <= fuel)%nat -> fs_good b.
Proof.
  intros Hr Ha. revert b Hr. apply (rtc_ind_r (λ b, (b.1.1.1 <= fuel)%nat -> fs_good b)); [done|].
  intros b c _ Hstep IH Hf. pose proof (fsstep_mono _ _ _ _ Hstep).
  apply (fsstep_inv types fuel b c Hstep); [apply IH; lia | done].
Qed.

(** C26. Mounts, files and block devices together.  Whatever calls the clients of the
    file system and of the block devices made, in any order, as long as each mount is
    unmounted at most once (a mount that is unmounted again while a file is open on it is
    freed under the file, see [fs_double_unmount]): a mount exists exactly while it is mounted
    or a file is open on it, its count is the number of these, its device exists, and no
    further call on an open file, on a path, or of the owner of a mount reaches freed
    memory. *)
Theorem fs_safe types fuel d n s active hs :
  rtc (fsstep types fuel) (O, fs_init bio_init d, [], []) (n, s, active, hs) -> (n <= fuel)%nat ->
  (∀ id, is_Some (mtab s !! id) <-> id ∈ active ++ file_mounts (files s)) ∧
  (∀ id m, mtab s !! id = Some m ->
     m_refs m = cnt id (active ++ file_mounts (files s)) ∧ is_Some (devices (reg s) !! m_dev m)) ∧
  (∀ fid, is_Some (files s !! fid) ->
     is_Some (fs_close_file fuel fid s) ∧ is_Some (fs_stat_file fid s) ∧
     (∀ offset len, is_Some (fs_read_file fid offset len s)) ∧
     (∀ data offset len, is_Some (fs_write_file fid data offset len s))) ∧
  (∀ fid path maxlen, files s !! fid = None ->
     is_Some (fs_open_file fid path s) ∧ is_Some (fs_create_file fid path s) ∧
     is_Some (fs_make_dir path s) ∧ is_Some (fs_load_file fuel fid path maxlen s)) ∧
  (∀ id path device name, mtab s !! id = None ->
     is_Some (fs_mount_type types fuel id path device name s)) ∧
  (∀ path tp id tr, temppath path = Some tp -> find_mount tp s = Some (Some (id, tr)) -> id ∈ active ->
     is_Some (fs_unmount fuel path s)).
Proof.
  intros Hrtc Hf. pose proof (fs_reachable _ _ _ _ Hrtc (fs_good_init d) Hf) as HI. unfold fs_good in HI. cbn in HI.
  pose proof HI as [HC HL HD]. split_and!.
  - intros id. by apply (counted_live m_refs).
  - intros id m Hm. split; [by apply HC|]. apply HD. unfold refs_of, mount_devs.
    rewrite (targets_delete _ _ _ _ Hm). cbn. set_solver.
  - intros fid Hfid. destruct (close_file_inv n fuel fid s active hs HI Hf Hfid) as (? & ? & -> & _).
    destruct (file_calls_live _ _ _ _ _ HI Hfid) as (Hr & Hw & ? & ? & ? & ->).
    split_and!; [eauto | eauto | |]; intros.
    + destruct (Hr offset len) as (? & ? & ? & ->). eauto.
    + destruct (Hw data offset len) as (? & ? & ->). eauto.
  - intros fid path maxlen Hfr. destruct (open_file_inv n fid path s active hs HI Hfr) as (? & ? & -> & _).
    destruct (create_file_inv n fid path s active hs HI Hfr) as (? & ? & -> & _).
    destruct (make_dir_inv n path s active hs HI) as (? & ? & ->).
    destruct (load_file_inv n fuel fid path maxlen s active hs HI Hf Hfr) as (? & ? & ? & -> & _). eauto.
  - intros id path device name Hfr.
    destruct (mount_type_inv types n fuel id path device name s active hs HI Hfr Hf) as (? & ? & -> & _). eauto.
  - intros path tp id tr Ht Hfind (a1 & a2 & ->)%list_elem_of_split.
    destruct (temppath_total path) as (? & E & ->). rewrite E in Ht. simplify_eq.
    destruct (unmount_inv n fuel path s a1 id a2 tr hs HI Hf Hfind) as (? & -> & _). eauto.
Qed.
End Mounts.

(** ** A driver, and a run *)

(** It knows a file by its path and counts the files it has open. *)
Definition demo_type : @fs_type Z nat (list Z) :=
  FsType [100] (λ d x, (x, 0, d)) (λ _ x, x) (λ _ p x, (x + 1, 0, p)) None None
    (λ f x, (x, 0, zlen f)) (λ f _ len x, (x, len, f)) None (λ _ x, (x - 1, 0)).
Definition demo_fs : Type := @fs Z nat (list Z).

(** "/a" is mounted from a memory device "m", "/a/b" opened and "/a" unmounted. *)
Definition fs1 : demo_fs := set_reg reg1 (fs_init bio_init 0).
Definition fs2 : demo_fs := fst (default (fs1, 0) (fs_mount [demo_type] 5 1 [47; 97] [109] fs1)).
Definition fs3 : demo_fs := fst (default (fs1, 0) (fs_open_file 2 [47; 97; 47; 98] fs2)).
Definition fs4 : demo_fs := fst (default (fs1, 0) (fs_unmount 5 [47; 97; 47] fs3)).

Lemma fs_safe_witness :
  ∃ f, files fs4 !! 2%nat = Some f ∧ is_Some (fs_close_file 5 2 fs4) ∧
       is_Some (mtab fs4 !! 1%nat) ∧ is_Some (devices (reg fs4) !! 7%nat).
Proof.
  assert (Hrun : rtc (fsstep [demo_type] 5) (O, fs_init bio_init 0, [], []) (1%nat, fs4, [], [])).
  { eapply rtc_l.
    { apply (fs_step_devices _ 5 0 (fs_init bio_init 0) [] [] 1 reg1 []).
      apply (step_membdev 5 0 bio_init [] 7%nat [109] 4096 reg1); reflexivity. }
    eapply rtc_l; [apply (fs_step_mount _ 5 1 fs1 [] [] 1 [47; 97] [109] fs2 0); vm_compute; reflexivity|].
    eapply rtc_l; [apply (fs_step_open _ 5 1 fs2 [1%nat] [] 2 [47; 97; 47; 98] fs3 0); vm_compute; reflexivity|].
    eapply rtc_l; [apply (fs_step_unmount _ 5 1 fs3 [] 1 [] [] [47; 97; 47] [47; 97] [] fs4 0);
      vm_compute; reflexivity|].
    apply rtc_refl. }
  destruct (fs_safe [demo_type] 5 0 1 fs4 [] [] Hrun ltac:(lia)) as (Hlive & Hdev & Hfile & _).
  assert (E : ∃ f, files fs4 !! 2%nat = Some f ∧ f_mount f = 1%nat)
    by (eexists; split; vm_compute; reflexivity).
  destruct E as (f & Hf & Hm). exists f. destruct (Hfile 2%nat) as (Hclose & _); [eauto|].
  assert (Em : ∃ m, mtab fs4 !! 1%nat = Some m ∧ m_dev m = 7%nat)
    by (eexists; split; vm_compute; reflexivity).
  destruct Em as (m & Hm1 & Hd). split_and!; [done | done | eauto |].
  rewrite <- Hd. by apply (Hdev 1%nat).
Defined.

(** Nothing records that a mount was unmounted: while a file keeps it alive a second
    [fs_unmount] of the path takes away the reference of the file.  The mount is freed
    and [fs_close_file] of the open file then uses it. *)
Theorem fs_double_unmount :
  ∃ s, fs_unmount 5 [47; 97] fs4 = Some (s, 0) ∧ mtab s !! 1%nat = None ∧
       is_Some (files s !! 2%nat) ∧ fs_close_file 5 2 s = None.
Proof. eexists. split; [vm_compute; reflexivity|]. split_and!; vm_compute; [done | eauto | done]. Qed.

(** The mount at "/a" also answers for "/ab": [find_mount] compares characters, not
    fields, so "/ab" is refused as already mounted and "/ab" opened is "b" on "/a". *)
Lemma mount_prefix_matches :
  fs_mount [demo_type] 5 3 [47; 97; 98] [109] fs2 = Some (fs2, ERR_ALREADY_MOUNTED) ∧
  find_mount [47; 97; 98] fs2 = Some (Some (1%nat, [98])).
Proof. split; vm_compute; reflexivity. Qed.
