(* ===== verification/LibcString.v ===== *)
(** * The C string library ([lib/libc/string], [lib/libc/atoi.c], [lib/libc/ctype.c])

    Memory is a function from addresses to bytes; [char] is unsigned, as on ARM.
    These are the portable C routines; [memcpy], [memmove] and [memset] move aligned
    words, little-endian, and the model of a routine is [None] when it would access
    a word at an unaligned address.  Loops over a string take [fuel], a bound on the characters looked at, and are
    [None] when it runs out; loops that count down recurse on the count. *)
From stdpp Require Import base list.
From Stdlib Require Import ZArith Lia.
From S2P Require Import Prelude.
#[local] Open Scope Z_scope.

Definition mem := Z -> Z.
Definition store (m : mem) (a v : Z) : mem := λ x, if x =? a then Z.land v 255 else m x.

(** A word of four bytes. *)
Definition load_word (m : mem) (a : Z) : Z * Z * Z * Z := (m a, m (a + 1), m (a + 2), m (a + 3)).
Definition store_word (m : mem) (a : Z) (w : Z * Z * Z * Z) : mem :=
  let '(b0, b1, b2, b3) := w in
  λ x, if x =? a then b0 else if x =? a + 1 then b1 else if x =? a + 2 then b2
       else if x =? a + 3 then b3 else m x.

Definition lsize : Z := 4.
Definition lmask : Z := lsize - 1.
Definition aligned (a : Z) : bool := a mod lsize =? 0.

(** ** Copying *)

(** The byte and word loops, ascending and descending. *)
Fixpoint copy_up (len : nat) (m : mem) (d s : Z) : mem :=
  match len with
  | O => m
  | S len => copy_up len (λ x, if x =? d then m s else m x) (d + 1) (s + 1)
  end.

Fixpoint copy_words_up (len : nat) (m : mem) (d s : Z) : option mem :=
  match len with
  | O => Some m
  | S len => if aligned d && aligned s
             then copy_words_up len (store_word m d (load_word m s)) (d + lsize) (s + lsize)
             else None
  end.

Fixpoint copy_down (len : nat) (m : mem) (d s : Z) : mem :=
  match len with
  | O => m
  | S len => copy_down len (λ x, if x =? d - 1 then m (s - 1) else m x) (d - 1) (s - 1)
  end.

Fixpoint copy_words_down (len : nat) (m : mem) (d s : Z) : option mem :=
  match len with
  | O => Some m
  | S len => if aligned (d - lsize) && aligned (s - lsize)
             then copy_words_down len (store_word m (d - lsize) (load_word m (s - lsize)))
                    (d - lsize) (s - lsize)
             else None
  end.

(** The three loops that [memcpy] and the ascending half of [memmove] share: the
    bytes up to a word boundary, or all of them, then words, then the rest. *)
Definition copy_ascending (m : mem) (d s count : Z) : option mem :=
  let len := if negb (Z.land (Z.lor d s) lmask =? 0) then
               if negb (Z.land (Z.lxor d s) lmask =? 0) || (count <? lsize) then s32 count
               else lsize - Z.land d lmask
             else 0 in
  let n := Z.max 0 len in
  let m := copy_up (Z.to_nat len) m d s in
  let count := u32 (count - len) in
  let words := s32 (count / lsize) in
  m ← copy_words_up (Z.to_nat words) m (d + n) (s + n);
  let k := n + lsize * Z.max 0 words in
  Some (copy_up (Z.to_nat (Z.land count lmask)) m (d + k) (s + k)).

Definition memcpy (m : mem) (dest src count : Z) : option mem :=
  if (count =? 0) || (dest =? src) then Some m else copy_ascending m dest src count.

Definition memmove (m : mem) (dest src count : Z) : option mem :=
  if (count =? 0) || (dest =? src) then Some m else
  if s32 dest <? s32 src then copy_ascending m dest src count else
  let d := dest + count in
  let s := src + count in
  let len := if negb (Z.land (Z.lor d s) lmask =? 0) then
               if negb (Z.land (Z.lxor d s) lmask =? 0) || (count <=? lsize) then s32 count
               else Z.land d lmask
             else 0 in
  let n := Z.max 0 len in
  let m := copy_down (Z.to_nat len) m d s in
  let count := u32 (count - len) in
  let words := s32 (count / lsize) in
  m ← copy_words_down (Z.to_nat words) m (d - n) (s - n);
  let k := n + lsize * Z.max 0 words in
  Some (copy_down (Z.to_nat (Z.land count lmask)) m (d - k) (s - k)).

Definition bcopy (m : mem) (src dest count : Z) : option mem := memcpy m dest src count.

(** ** Filling *)
Fixpoint fill_bytes (len : nat) (m : mem) (xs c : Z) : mem :=
  match len with
  | O => m
  | S len => fill_bytes len (store m xs c) (xs + 1) c
  end.

Definition word_bytes (w : Z) : Z * Z * Z * Z :=
  (Z.land w 255, Z.land (Z.shiftr w 8) 255, Z.land (Z.shiftr w 16) 255, Z.land (Z.shiftr w 24) 255).

Fixpoint fill_words (len : nat) (m : mem) (xs cc : Z) : option mem :=
  match len with
  | O => Some m
  | S len => if aligned xs then fill_words len (store_word m xs (word_bytes cc)) (xs + lsize) cc
             else None
  end.

Definition memset (m : mem) (s c count : Z) : option mem :=
  let len := Z.land (u32 (- s)) lmask in
  let cc := Z.land c 255 in
  if len <? count then
    let count := count - len in
    let cc := Z.lor cc (Z.shiftl cc 8) in
    let cc := Z.lor cc (Z.shiftl cc 16) in
    let m := fill_bytes (Z.to_nat len) m s c in
    let words := count / lsize in
    m ← fill_words (Z.to_nat words) m (s + len) cc;
    Some (fill_bytes (Z.to_nat (Z.land count lmask)) m (s + len + lsize * words) c)
  else Some (fill_bytes (Z.to_nat count) m s c).

Definition bzero (m : mem) (dst count : Z) : option mem := memset m dst 0 count.

(** ** Lengths and searches *)
Fixpoint strlen_loop (fuel : nat) (m : mem) (s i : Z) : option Z :=
  match fuel with
  | O => None
  | S fuel => if m (s + i) =? 0 then Some i else strlen_loop fuel m s (i + 1)
  end.
Definition strlen (fuel : nat) (m : mem) (s : Z) : option Z := strlen_loop fuel m s 0.

Fixpoint strnlen_loop (count : nat) (m : mem) (sc : Z) : Z :=
  match count with
  | O => sc
  | S count => if m sc =? 0 then sc else strnlen_loop count m (sc + 1)
  end.
Definition strnlen (m : mem) (s count : Z) : Z := strnlen_loop (Z.to_nat count) m s - s.

(** [strchr]: [None] is the pointer NULL, outer [None] is out of fuel. *)
Fixpoint strchr (fuel : nat) (m : mem) (s c : Z) : option (option Z) :=
  match fuel with
  | O => None
  | S fuel => if m s =? Z.land c 255 then Some (Some s) else
              if m s =? 0 then Some None else strchr fuel m (s + 1) c
  end.

Fixpoint strrchr_loop (fuel : nat) (m : mem) (s c : Z) (last : option Z) : option (option Z) :=
  match fuel with
  | O => None
  | S fuel => if m s =? 0 then Some last
              else strrchr_loop fuel m (s + 1) c (if m s =? c then Some s else last)
  end.
Definition strrchr (fuel : nat) (m : mem) (s c : Z) : option (option Z) :=
  strrchr_loop fuel m s c (if c =? 0 then Some s else None).

Fixpoint memchr_loop (n : nat) (m : mem) (b x : Z) : option Z :=
  match n with
  | O => None
  | S n => if m b =? x then Some b else memchr_loop n m (b + 1) x
  end.
Definition memchr (m : mem) (buf c len : Z) : option Z := memchr_loop (Z.to_nat len) m buf (Z.land c 255).

(** [memscan] returns the end of the area when nothing is found. *)
Fixpoint memscan_loop (size : nat) (m : mem) (p c : Z) : Z :=
  match size with
  | O => p
  | S size => if m p =? c then p else memscan_loop size m (p + 1) c
  end.
Definition memscan (m : mem) (addr c size : Z) : Z := memscan_loop (Z.to_nat size) m addr c.

(** ** Comparisons: the difference is kept in a [signed char] *)
Fixpoint strcmp (fuel : nat) (m : mem) (cs ct : Z) : option Z :=
  match fuel with
  | O => None
  | S fuel =>
      let res := s8 (m cs - m ct) in
      if negb (res =? 0) || (m cs =? 0) then Some res else strcmp fuel m (cs + 1) (ct + 1)
  end.

Fixpoint strncmp_loop (count : nat) (m : mem) (cs ct res : Z) : Z :=
  match count with
  | O => res
  | S count =>
      let res := s8 (m cs - m ct) in
      if negb (res =? 0) || (m cs =? 0) then res else strncmp_loop count m (cs + 1) (ct + 1) res
  end.
Definition strncmp (m : mem) (cs ct count : Z) : Z := strncmp_loop (Z.to_nat count) m cs ct 0.

Fixpoint memcmp_loop (count : nat) (m : mem) (su1 su2 res : Z) : Z :=
  match count with
  | O => res
  | S count =>
      let res := s8 (m su1 - m su2) in
      if negb (res =? 0) then res else memcmp_loop count m (su1 + 1) (su2 + 1) res
  end.
Definition memcmp (m : mem) (cs ct count : Z) : Z := memcmp_loop (Z.to_nat count) m cs ct 0.

Definition strcoll (fuel : nat) (m : mem) (s1 s2 : Z) : option Z := strcmp fuel m s1 s2.

(** ** Copying strings *)
Fixpoint strcpy_loop (fuel : nat) (m : mem) (dest src : Z) : option mem :=
  match fuel with
  | O => None
  | S fuel =>
      let c := m src in
      let m := store m dest c in
      if c =? 0 then Some m else strcpy_loop fuel m (dest + 1) (src + 1)
  end.
Definition strcpy := strcpy_loop.

Fixpoint strncpy_loop (count : nat) (m : mem) (dest src : Z) : mem :=
  match count with
  | O => m
  | S count =>
      let c := m src in
      let m := store m dest c in
      if c =? 0 then m else strncpy_loop count m (dest + 1) (src + 1)
  end.
Definition strncpy (m : mem) (dest src count : Z) : mem := strncpy_loop (Z.to_nat count) m dest src.

(** The loop of [strlcpy] and [strlcat]: [for(i= 0; ((i< s-1) && src[i]); i++)
    dst[i]= src[i];], with [n] for the iterations [s-1 - i] left. *)
Fixpoint bounded_copy (n : nat) (m : mem) (dst src i : Z) : mem * Z :=
  match n with
  | O => (m, i)
  | S n => if m (src + i) =? 0 then (m, i)
           else bounded_copy n (store m (dst + i) (m (src + i))) dst src (i + 1)
  end.

Definition strlcpy (fuel : nat) (m : mem) (dst src s : Z) : option (mem * Z) :=
  if s =? 0 then l ← strlen fuel m src; Some (m, l) else
  let '(m, i) := bounded_copy (Z.to_nat (s - 1)) m dst src 0 in
  let m := store m (dst + i) 0 in
  l ← strlen fuel m (src + i);
  Some (m, i + l).

Definition strlcat (fuel : nat) (m : mem) (dst src s : Z) : option (mem * Z) :=
  let j := strnlen m dst s in
  if s =? 0 then l ← strlen fuel m src; Some (m, j + l) else
  let dst := dst + j in
  let '(m, i) := bounded_copy (Z.to_nat (s - 1)) m dst src 0 in
  let m := store m (dst + i) 0 in
  l ← strlen fuel m (src + i);
  Some (m, j + i + l).

Definition strcat (fuel : nat) (m : mem) (dest src : Z) : option mem :=
  l ← strlen fuel m dest;
  strcpy_loop fuel m (dest + l) src.

Fixpoint strncat_loop (count : nat) (m : mem) (dest src : Z) : mem :=
  match count with
  | O => m
  | S count =>
      let c := m src in
      let m := store m dest c in
      if c =? 0 then m else
      match count with
      | O => store m (dest + 1) 0
      | _ => strncat_loop count m (dest + 1) (src + 1)
      end
  end.
Definition strncat (fuel : nat) (m : mem) (dest src count : Z) : option mem :=
  if 0 <? count then
    l ← strlen fuel m dest;
    Some (strncat_loop (Z.to_nat count) m (dest + l) src)
  else Some m.

Definition strxfrm (fuel : nat) (m : mem) (dest src n : Z) : option (mem * Z) :=
  len ← strlen fuel m src;
  if n =? 0 then Some (m, len) else
  let copy_len := if len <? n then len else n - 1 in
  m ← memcpy m dest src copy_len;
  Some (store m (dest + copy_len) 0, len).

(** [strdup]: [malloc] is the allocator, [None] for NULL. *)
Definition strdup (malloc : Z -> option Z) (fuel : nat) (m : mem) (str : Z) : option (mem * option Z) :=
  l ← strlen fuel m str;
  match malloc (l + 1) with
  | None => Some (m, None)
  | Some copy => m ← memcpy m copy str (l + 1); Some (m, Some copy)
  end.

(** ** Sets of characters *)
(** The inner loop over a set of characters: whether the string at
    [a] has the character. *)
Fixpoint in_set (fuel : nat) (m : mem) (c a : Z) : option bool :=
  match fuel with
  | O => None
  | S fuel => if m a =? 0 then Some false else if c =? m a then Some true else in_set fuel m c (a + 1)
  end.

Fixpoint strspn_loop (fuel : nat) (m : mem) (p accept count : Z) : option Z :=
  match fuel with
  | O => None
  | S fuel' =>
      if m p =? 0 then Some count else
      b ← in_set fuel m (m p) accept;
      if b : bool then strspn_loop fuel' m (p + 1) accept (count + 1) else Some count
  end.
Definition strspn (fuel : nat) (m : mem) (s accept : Z) : option Z := strspn_loop fuel m s accept 0.

Fixpoint strpbrk (fuel : nat) (m : mem) (cs ct : Z) : option (option Z) :=
  match fuel with
  | O => None
  | S fuel' =>
      if m cs =? 0 then Some None else
      b ← in_set fuel m (m cs) ct;
      if b : bool then Some (Some cs) else strpbrk fuel' m (cs + 1) ct
  end.

Fixpoint strstr_loop (n : nat) (m : mem) (s1 s2 l2 : Z) : option Z :=
  match n with
  | O => None
  | S n => if memcmp m s1 s2 l2 =? 0 then Some s1 else strstr_loop n m (s1 + 1) s2 l2
  end.
Definition strstr (fuel : nat) (m : mem) (s1 s2 : Z) : option (option Z) :=
  l2 ← strlen fuel m s2;
  let l2 := s32 l2 in
  if l2 =? 0 then Some (Some s1) else
  l1 ← strlen fuel m s1;
  let l1 := s32 l1 in
  Some (strstr_loop (Z.to_nat (l1 - l2 + 1)) m s1 s2 (u32 l2)).

(** [strtok]: [saved] is the static [___strtok]; the result is the token, the
    memory and the new [___strtok]. *)
Definition strtok (fuel : nat) (m : mem) (s saved : option Z) (ct : Z)
  : option (option Z * mem * option Z) :=
  match (match s with Some _ => s | None => saved end) with
  | None => Some (None, m, saved)
  | Some sbegin =>
      n ← strspn fuel m sbegin ct;
      let sbegin := sbegin + n in
      if m sbegin =? 0 then Some (None, m, None) else
      send ← strpbrk fuel m sbegin ct;
      match send with
      | Some e => if m e =? 0 then Some (Some sbegin, m, Some e)
                  else Some (Some sbegin, store m e 0, Some (e + 1))
      | None => Some (Some sbegin, m, None)
      end
  end.

(** ** Characters and numbers *)
Definition isblank (c : Z) : bool := (c =? 32) || (c =? 9).
Definition isspace (c : Z) : bool :=
  (c =? 32) || (c =? 12) || (c =? 10) || (c =? 13) || (c =? 9) || (c =? 11).
Definition islower (c : Z) : bool := (97 <=? c) && (c <=? 122).
Definition isupper (c : Z) : bool := (65 <=? c) && (c <=? 90).
Definition isdigit (c : Z) : bool := (48 <=? c) && (c <=? 57).
Definition isalpha (c : Z) : bool := isupper c || islower c.
Definition isalnum (c : Z) : bool := isalpha c || isdigit c.
Definition isxdigit (c : Z) : bool :=
  isdigit c || ((97 <=? c) && (c <=? 102)) || ((65 <=? c) && (c <=? 70)).
Definition tolower (c : Z) : Z := if (65 <=? c) && (c <=? 90) then c + 32 else c.
Definition toupper (c : Z) : Z := if (97 <=? c) && (c <=? 122) then c - 32 else c.

Fixpoint strnicmp_loop (len : nat) (m : mem) (s1 s2 c1 c2 : Z) : Z :=
  match len with
  | O => c1 - c2
  | S len =>
      let c1 := m s1 in
      let c2 := m s2 in
      if (c1 =? 0) || (c2 =? 0) then c1 - c2 else
      if c1 =? c2 then strnicmp_loop len m (s1 + 1) (s2 + 1) c1 c2 else
      let c1 := tolower c1 in
      let c2 := tolower c2 in
      if negb (c1 =? c2) then c1 - c2 else strnicmp_loop len m (s1 + 1) (s2 + 1) c1 c2
  end.
Definition strnicmp (m : mem) (s1 s2 len : Z) : Z := strnicmp_loop (Z.to_nat len) m s1 s2 0 0.

Definition hexval (c : Z) : Z :=
  if (48 <=? c) && (c <=? 57) then c - 48 else
  if (97 <=? c) && (c <=? 102) then c - 97 + 10 else
  if (65 <=? c) && (c <=? 70) then c - 65 + 10 else 0.

(** The digit loops; [wrap] is the range of [value]. *)
Fixpoint hex_loop (wrap : Z -> Z) (fuel : nat) (m : mem) (num value : Z) : option Z :=
  match fuel with
  | O => None
  | S fuel => if negb (m num =? 0) && isxdigit (m num)
              then hex_loop wrap fuel m (num + 1) (wrap (value * 16 + hexval (m num)))
              else Some value
  end.

Fixpoint dec_loop (wrap : Z -> Z) (fuel : nat) (m : mem) (num value : Z) : option Z :=
  match fuel with
  | O => None
  | S fuel => if negb (m num =? 0) && isdigit (m num)
              then dec_loop wrap fuel m (num + 1) (wrap (value * 10 + m num - 48))
              else Some value
  end.

Definition atol (fuel : nat) (m : mem) (num : Z) : option Z :=
  if (m num =? 48) && (m (num + 1) =? 120) then hex_loop s32 fuel m (num + 2) 0
  else if m num =? 45 then v ← dec_loop s32 fuel m (num + 1) 0; Some (s32 (- v))
  else dec_loop s32 fuel m num 0.

Definition atoul (fuel : nat) (m : mem) (num : Z) : option Z :=
  if (m num =? 48) && (m (num + 1) =? 120) then hex_loop u32 fuel m (num + 2) 0
  else dec_loop u32 fuel m num 0.

Definition atoi := atol.
Definition atoui := atoul.

(** ** The memory routines, against a simultaneous assignment *)

(** [blit d s n m]: all [n] bytes at [d] take the values of those at [s] in [m]. *)
Definition blit (d s n : Z) (m : mem) : mem :=
  λ x, if (d <=? x) && (x <? d + n) then m (s + (x - d)) else m x.
(** [filled s n v m]: the [n] bytes at [s] are [v]. *)
Definition filled (s n v : Z) (m : mem) : mem :=
  λ x, if (s <=? x) && (x <? s + n) then v else m x.
(** Memories with the same bytes. *)
Definition meq (m1 m2 : mem) : Prop := ∀ x, m1 x = m2 x.
Definition disjoint_ranges (d s n : Z) : Prop := d + n <= s ∨ s + n <= d.

#[export] Instance meq_equiv : Equivalence meq.
Proof. split; [intros m x; done | intros m1 m2 H x; by rewrite (H x) | intros m1 m2 m3 H1 H2 x; by rewrite (H1 x)]. Qed.
#[export] Instance blit_proper d s n : Proper (meq ==> meq) (blit d s n).
Proof. intros m1 m2 H x. unfold blit. case_match; apply H. Qed.
#[export] Instance filled_proper d n v : Proper (meq ==> meq) (filled d n v).
Proof. intros m1 m2 H x. unfold filled. case_match; [done | apply H]. Qed.

(** Case analysis on the tests of a memory update. *)
Ltac mem_cases :=
  repeat match goal with
  | |- context [?a =? ?b] => destruct (Z.eqb_spec a b)
  | |- context [?a <=? ?b] => destruct (Z.leb_spec a b)
  | |- context [?a <? ?b] => destruct (Z.ltb_spec a b)
  end; simpl; try lia; try congruence; try (f_equal; lia).

Lemma blit_0 d s m : meq (blit d s 0 m) m.
Proof. intros x. unfold blit. mem_cases. Qed.
Lemma blit_1 d s m : meq (λ x, if x =? d then m s else m x) (blit d s 1 m).
Proof. intros x. unfold blit. mem_cases. Qed.
Lemma blit_word d s m : meq (store_word m d (load_word m s)) (blit d s 4 m).
Proof. intros x. unfold blit, store_word, load_word. mem_cases. Qed.

Lemma blit_blit_up d s a b m :
  0 <= a -> 0 <= b -> d <= s ∨ s + (a + b) <= d ->
  meq (blit (d + a) (s + a) b (blit d s a m)) (blit d s (a + b) m).
Proof. intros Ha Hb Hd x. unfold blit. mem_cases. Qed.
Lemma blit_blit_down d s a b m :
  0 <= a -> 0 <= b -> s <= d ∨ d <= s - (a + b) ->
  meq (blit (d - a - b) (s - a - b) b (blit (d - a) (s - a) a m))
      (blit (d - (a + b)) (s - (a + b)) (a + b) m).
Proof. intros Ha Hb Hd x. unfold blit. mem_cases. Qed.

Lemma copy_up_blit n m d s :
  d <= s ∨ s + Z.of_nat n <= d -> meq (copy_up n m d s) (blit d s (Z.of_nat n) m).
Proof.
  revert m d s; induction n as [|n IH]; intros m d s H; [by rewrite blit_0|]. cbn [copy_up].
  rewrite IH by lia. rewrite (blit_1 d s m), blit_blit_up by lia.
  by replace (1 + Z.of_nat n) with (Z.of_nat (S n)) by lia.
Qed.

Lemma copy_down_blit n m d s :
  s <= d ∨ d <= s - Z.of_nat n ->
  meq (copy_down n m d s) (blit (d - Z.of_nat n) (s - Z.of_nat n) (Z.of_nat n) m).
Proof.
  revert m d s; induction n as [|n IH]; intros m d s H; [by rewrite blit_0|]. cbn [copy_down].
  rewrite IH by lia. rewrite (blit_1 (d - 1) (s - 1) m), blit_blit_down by lia.
  by replace (1 + Z.of_nat n) with (Z.of_nat (S n)) by lia.
Qed.

Lemma aligned_true a : a mod 4 = 0 -> aligned a = true.
Proof. intros H. by apply Z.eqb_eq. Qed.

Lemma mod4_shift a b : a mod 4 = 0 -> b mod 4 = 0 -> (a + b) mod 4 = 0 ∧ (a - b) mod 4 = 0.
Proof. intros Ha Hb. rewrite Zplus_mod, Zminus_mod, Ha, Hb. done. Qed.

Lemma copy_words_up_blit n m d s :
  (n = O ∨ d mod 4 = 0 ∧ s mod 4 = 0) -> d <= s ∨ s + 4 * Z.of_nat n <= d ->
  ∃ m', copy_words_up n m d s = Some m' ∧ meq m' (blit d s (4 * Z.of_nat n) m).
Proof.
  revert m d s; induction n as [|n IH]; intros m d s Ha H.
  { exists m. by rewrite blit_0. }
  destruct Ha as [|[Hd Hs]]; [done|]. cbn [copy_words_up]. rewrite !aligned_true by done.
  destruct (IH (store_word m d (load_word m s)) (d + lsize) (s + lsize)) as (m' & -> & Hm').
  { right. by destruct (mod4_shift d 4), (mod4_shift s 4). } { unfold lsize. lia. }
  exists m'. split; [done|]. rewrite Hm', blit_word. unfold lsize. rewrite blit_blit_up by lia.
  by replace (4 + 4 * Z.of_nat n) with (4 * Z.of_nat (S n)) by lia.
Qed.

Lemma copy_words_down_blit n m d s :
  (n = O ∨ d mod 4 = 0 ∧ s mod 4 = 0) -> s <= d ∨ d <= s - 4 * Z.of_nat n ->
  ∃ m', copy_words_down n m d s = Some m' ∧
        meq m' (blit (d - 4 * Z.of_nat n) (s - 4 * Z.of_nat n) (4 * Z.of_nat n) m).
Proof.
  revert m d s; induction n as [|n IH]; intros m d s Ha H.
  { exists m. by rewrite blit_0. }
  destruct Ha as [|[Hd Hs]]; [done|]. cbn [copy_words_down]. unfold lsize.
  destruct (mod4_shift d 4) as [_ Hd4], (mod4_shift s 4) as [_ Hs4]; [done..|].
  rewrite !aligned_true by done.
  destruct (IH (store_word m (d - 4) (load_word m (s - 4))) (d - 4) (s - 4)) as (m' & -> & Hm').
  { by right. } { lia. }
  exists m'. split; [done|]. rewrite Hm', blit_word, blit_blit_down by lia.
  by replace (4 + 4 * Z.of_nat n) with (4 * Z.of_nat (S n)) by lia.
Qed.

(** *** The alignment tests *)
Lemma land_lmask a : Z.land a lmask = a mod 4.
Proof. apply (Z.land_ones a 2). lia. Qed.

Lemma lor_lmask a b : Z.land (Z.lor a b) lmask = 0 -> a mod 4 = 0 ∧ b mod 4 = 0.
Proof. rewrite Z.land_lor_distr_l, Z.lor_eq_0_iff, !land_lmask. done. Qed.

Lemma lxor_lmask a b : Z.land (Z.lxor a b) lmask = 0 -> a mod 4 = b mod 4.
Proof.
  intros H. rewrite <- !land_lmask. apply Z.lxor_eq.
  rewrite <- H. apply Z.bits_inj'. intros i _. rewrite !Z.lxor_spec, !Z.land_spec, Z.lxor_spec.
  by destruct (Z.testbit a i), (Z.testbit b i), (Z.testbit lmask i).
Qed.

Lemma blit_3 d s a b c m m1 m2 m3 :
  0 <= a -> 0 <= b -> 0 <= c -> d <= s ∨ s + (a + b + c) <= d ->
  meq m1 (blit d s a m) -> meq m2 (blit (d + a) (s + a) b m1) ->
  meq m3 (blit (d + (a + b)) (s + (a + b)) c m2) -> meq m3 (blit d s (a + b + c) m).
Proof.
  intros ??? H H1 H2 H3. rewrite H3, H2, H1, blit_blit_up, blit_blit_up by lia. done.
Qed.

Lemma blit_3_down d s a b c m m1 m2 m3 :
  0 <= a -> 0 <= b -> 0 <= c -> s <= d ∨ d <= s - (a + b + c) ->
  meq m1 (blit (d - a) (s - a) a m) -> meq m2 (blit (d - a - b) (s - a - b) b m1) ->
  meq m3 (blit (d - (a + b) - c) (s - (a + b) - c) c m2) ->
  meq m3 (blit (d - (a + b + c)) (s - (a + b + c)) (a + b + c) m).
Proof.
  intros ??? H H1 H2 H3. rewrite H3, H2, H1, blit_blit_down, blit_blit_down by lia. done.
Qed.

(** What the alignment code of both directions computes: a number [len] of leading
    bytes that leaves the word loop aligned addresses, or nothing to do. *)
Lemma split_count count len :
  0 <= len <= count -> count < 2 ^ 31 ->
  let count' := u32 (count - len) in
  let words := s32 (count' / lsize) in
  0 <= words ∧ count = len + 4 * words + Z.land count' lmask ∧ 0 <= Z.land count' lmask < 4
  ∧ (words = 0 ∨ len < count).
Proof.
  intros Hl Hc. cbn zeta. rewrite u32_small by lia. unfold lsize. rewrite land_lmask.
  pose proof (Z.div_mod (count - len) 4). pose proof (Z.mod_pos_bound (count - len) 4).
  rewrite s32_small by lia. lia.
Qed.

Definition lead_up (d s count : Z) : Z :=
  if negb (Z.land (Z.lor d s) lmask =? 0) then
    if negb (Z.land (Z.lxor d s) lmask =? 0) || (count <? lsize) then s32 count
    else lsize - Z.land d lmask
  else 0.
Definition lead_down (d s count : Z) : Z :=
  if negb (Z.land (Z.lor d s) lmask =? 0) then
    if negb (Z.land (Z.lxor d s) lmask =? 0) || (count <=? lsize) then s32 count
    else Z.land d lmask
  else 0.

Lemma lead_up_spec d s count :
  0 < count < 2 ^ 31 ->
  0 <= lead_up d s count <= count ∧
  (lead_up d s count < count ->
   (d + lead_up d s count) mod 4 = 0 ∧ (s + lead_up d s count) mod 4 = 0).
Proof.
  intros Hc. unfold lead_up, lsize. rewrite s32_small by lia.
  destruct (Z.eqb_spec (Z.land (Z.lor d s) lmask) 0) as [E|_]; cbn [negb].
  { apply lor_lmask in E. rewrite !Z.add_0_r. lia. }
  destruct (Z.eqb_spec (Z.land (Z.lxor d s) lmask) 0) as [E|_]; cbn [negb orb]; [|lia].
  destruct (Z.ltb_spec count 4); [lia|]. apply lxor_lmask in E. rewrite land_lmask.
  pose proof (Z.mod_pos_bound d 4). split; [lia|]. intros _.
  split; [|rewrite E]; rewrite Z.add_sub_assoc, Zminus_mod_idemp_r;
    match goal with |- (?a + 4 - ?a) mod 4 = 0 => by replace (a + 4 - a) with 4 by lia end.
Qed.

Lemma lead_down_spec d s count :
  0 < count < 2 ^ 31 ->
  0 <= lead_down d s count <= count ∧
  (lead_down d s count < count ->
   (d - lead_down d s count) mod 4 = 0 ∧ (s - lead_down d s count) mod 4 = 0).
Proof.
  intros Hc. unfold lead_down, lsize. rewrite s32_small by lia.
  destruct (Z.eqb_spec (Z.land (Z.lor d s) lmask) 0) as [E|_]; cbn [negb].
  { apply lor_lmask in E. rewrite !Z.sub_0_r. lia. }
  destruct (Z.eqb_spec (Z.land (Z.lxor d s) lmask) 0) as [E|_]; cbn [negb orb]; [|lia].
  destruct (Z.leb_spec count 4); [lia|]. apply lxor_lmask in E. rewrite land_lmask.
  pose proof (Z.mod_pos_bound d 4). split; [lia|]. intros _.
  split; [|rewrite E]; rewrite Zminus_mod_idemp_r, Z.sub_diag; done.
Qed.

Lemma copy_ascending_blit m d s count :
  0 < count < 2 ^ 31 -> d <= s ∨ s + count <= d ->
  ∃ m', copy_ascending m d s count = Some m' ∧ meq m' (blit d s count m).
Proof.
  intros Hc Hd. unfold copy_ascending. fold (lead_up d s count).
  destruct (lead_up_spec d s count Hc) as [Hlen Hal].
  set (len := lead_up d s count) in *. cbn zeta.
  destruct (split_count count len) as (Hw & Hsum & Hr & Hz); [lia..|].
  set (w := s32 (u32 (count - len) / lsize)) in *. set (r := Z.land (u32 (count - len)) lmask) in *.
  rewrite !Z.max_r by lia.
  destruct (copy_words_up_blit (Z.to_nat w) (copy_up (Z.to_nat len) m d s) (d + len) (s + len))
    as (m2 & -> & Hm2).
  { destruct Hz as [->|Hz]; [by left|]. right. by apply Hal. } { lia. }
  cbn. eexists. split; [done|]. rewrite Hsum.
  apply (blit_3 d s len (4 * w) r m (copy_up (Z.to_nat len) m d s) m2); try lia.
  - rewrite copy_up_blit by lia. by rewrite Z2Nat.id by lia.
  - rewrite Hm2. by rewrite Z2Nat.id by lia.
  - unfold lsize. rewrite copy_up_blit by lia. by rewrite Z2Nat.id by lia.
Qed.

Lemma copy_descending_blit m dest src count :
  0 < count < 2 ^ 31 -> src <= dest ∨ dest + count <= src -> s32 src <= s32 dest -> dest <> src ->
  ∃ m', memmove m dest src count = Some m' ∧ meq m' (blit dest src count m).
Proof.
  intros Hc Hd Hs Hne. unfold memmove.
  rewrite (proj2 (Z.eqb_neq count 0)), (proj2 (Z.eqb_neq dest src)), (proj2 (Z.ltb_ge _ _)) by lia.
  cbn [orb]. fold (lead_down (dest + count) (src + count) count).
  destruct (lead_down_spec (dest + count) (src + count) count Hc) as [Hlen Hal].
  set (d := dest + count) in *. set (s := src + count) in *.
  set (len := lead_down d s count) in *. cbn zeta.
  destruct (split_count count len) as (Hw & Hsum & Hr & Hz); [lia..|].
  set (w := s32 (u32 (count - len) / lsize)) in *. set (r := Z.land (u32 (count - len)) lmask) in *.
  rewrite !Z.max_r by lia.
  destruct (copy_words_down_blit (Z.to_nat w) (copy_down (Z.to_nat len) m d s) (d - len) (s - len))
    as (m2 & -> & Hm2).
  { destruct Hz as [->|Hz]; [by left|]. right. by apply Hal. } { lia. }
  cbn. eexists. split; [done|].
  replace dest with (d - (len + 4 * w + r)) by lia. replace src with (s - (len + 4 * w + r)) by lia.
  rewrite Hsum at 1.
  apply (blit_3_down d s len (4 * w) r m (copy_down (Z.to_nat len) m d s) m2); try lia.
  - rewrite copy_down_blit by lia. by rewrite Z2Nat.id by lia.
  - rewrite Hm2. by rewrite Z2Nat.id by lia.
  - unfold lsize. rewrite copy_down_blit by lia. by rewrite Z2Nat.id by lia.
Qed.

Lemma s32_order a b :
  0 <= a < 2 ^ 32 -> 0 <= b < 2 ^ 32 -> (a <? 2 ^ 31) = (b <? 2 ^ 31) -> s32 a < s32 b <-> a < b.
Proof.
  intros Ha Hb Hs. unfold s32.
  destruct (Z.ltb_spec a (2 ^ 31)), (Z.ltb_spec b (2 ^ 31)); try done.
  - rewrite !Z.mod_small by lia. lia.
  - replace (a + 2 ^ 31) with (a - 2 ^ 31 + 1 * 2 ^ 32) by lia.
    replace (b + 2 ^ 31) with (b - 2 ^ 31 + 1 * 2 ^ 32) by lia.
    rewrite !Z_mod_plus_full, !Z.mod_small by lia. lia.
Qed.

Lemma blit_same d n m : meq (blit d d n m) m.
Proof. intros x. unfold blit. mem_cases. Qed.

Lemma blit_guard m dest src count m' :
  (count =? 0) || (dest =? src) = true -> Some m = Some m' -> meq m' (blit dest src count m).
Proof.
  intros [H%Z.eqb_eq | H%Z.eqb_eq]%orb_prop [= ->]; subst; [by rewrite blit_0 | by rewrite blit_same].
Qed.

(** *** [memset] *)
Lemma filled_0 s v m : meq (filled s 0 v m) m.
Proof. intros x. unfold filled. mem_cases. Qed.
Lemma filled_filled s a b v m :
  0 <= a -> 0 <= b -> meq (filled (s + a) b v (filled s a v m)) (filled s (a + b) v m).
Proof. intros Ha Hb x. unfold filled. mem_cases. Qed.
Lemma store_filled m s c : meq (store m s c) (filled s 1 (Z.land c 255) m).
Proof. intros x. unfold store, filled. mem_cases. Qed.

Lemma fill_bytes_filled n m s c :
  meq (fill_bytes n m s c) (filled s (Z.of_nat n) (Z.land c 255) m).
Proof.
  revert m s; induction n as [|n IH]; intros m s; [by rewrite filled_0|]. cbn [fill_bytes].
  rewrite IH, store_filled, filled_filled by lia.
  by replace (1 + Z.of_nat n) with (Z.of_nat (S n)) by lia.
Qed.

(** The word [memset] writes has the byte four times: checked for the 256 bytes. *)
Lemma memset_word_bytes c :
  let b := Z.land c 255 in
  let cc := Z.lor b (Z.shiftl b 8) in
  word_bytes (Z.lor cc (Z.shiftl cc 16)) = (b, b, b, b).
Proof.
  cbn zeta. set (b := Z.land c 255).
  assert (Hb : b ∈ seqZ 0 256).
  { apply elem_of_seqZ. subst b. change 255 with (Z.ones 8). rewrite Z.land_ones by lia.
    pose proof (Z.mod_pos_bound c (2 ^ 8)). lia. }
  clearbody b. revert b Hb. apply Forall_forall. vm_compute. repeat constructor.
Qed.

Lemma fill_words_filled n m s cc b :
  (n = O ∨ s mod 4 = 0) -> word_bytes cc = (b, b, b, b) ->
  ∃ m', fill_words n m s cc = Some m' ∧ meq m' (filled s (4 * Z.of_nat n) b m).
Proof.
  intros Ha Hw. revert m s Ha; induction n as [|n IH]; intros m s Ha.
  { exists m. by rewrite filled_0. }
  destruct Ha as [|Ha]; [done|]. cbn [fill_words]. rewrite aligned_true by done. rewrite Hw.
  destruct (IH (store_word m s (b, b, b, b)) (s + lsize)) as (m' & -> & Hm').
  { right. by destruct (mod4_shift s 4). }
  exists m'. split; [done|]. rewrite Hm'. unfold lsize.
  assert (Hs : meq (store_word m s (b, b, b, b)) (filled s 4 b m)).
  { intros x. unfold store_word, filled. mem_cases. }
  rewrite Hs, filled_filled by lia. by replace (4 + 4 * Z.of_nat n) with (4 * Z.of_nat (S n)) by lia.
Qed.

Lemma memset_lead s : let len := Z.land (u32 (- s)) lmask in 0 <= len < 4 ∧ (s + len) mod 4 = 0.
Proof.
  cbn zeta. rewrite land_lmask. unfold u32. rewrite Z.mod_mod_divide by (by exists (2 ^ 30)).
  split; [apply Z.mod_pos_bound; lia|]. rewrite Zplus_mod_idemp_r. by rewrite Z.add_opp_diag_r.
Qed.

Lemma memset_filled m s c count :
  0 <= count ->
  ∃ m', memset m s c count = Some m' ∧ meq m' (filled s count (Z.land c 255) m).
Proof.
  intros Hc. unfold memset. destruct (memset_lead s) as [Hl Ha].
  set (len := Z.land (u32 (- s)) lmask) in *.
  destruct (Z.ltb_spec len count) as [Hlt|_].
  2:{ eexists. split; [done|]. rewrite fill_bytes_filled. by rewrite Z2Nat.id by lia. }
  cbn zeta. rewrite land_lmask. unfold lsize.
  pose proof (Z.div_mod (count - len) 4). pose proof (Z.mod_pos_bound (count - len) 4).
  set (w := (count - len) / 4) in *. set (r := (count - len) mod 4) in *.
  destruct (fill_words_filled (Z.to_nat w) (fill_bytes (Z.to_nat len) m s c) (s + len)
    _ _ (or_intror Ha) (memset_word_bytes c)) as (m2 & -> & Hm2).
  cbn. eexists. split; [done|].
  rewrite fill_bytes_filled, Hm2, fill_bytes_filled, !Z2Nat.id by lia.
  rewrite !filled_filled by lia. by replace (len + (4 * w + r)) with count by lia.
Qed.

(** *** Strings *)

(** A NUL-terminated string of [l] characters at [s]. *)
Definition cstring (m : mem) (s l : Z) : Prop :=
  0 <= l ∧ (∀ i, 0 <= i < l -> m (s + i) <> 0) ∧ m (s + l) = 0.
(** The memory holds bytes. *)
Definition bytes_mem (m : mem) : Prop := ∀ x, 0 <= m x < 256.

Lemma strlen_loop_cstring fuel m s l i :
  cstring m s l -> 0 <= i <= l -> l - i < Z.of_nat fuel -> strlen_loop fuel m s i = Some l.
Proof.
  intros (Hl & Hnz & Hz). revert i; induction fuel as [|fuel IH]; intros i Hi Hf; [lia|].
  cbn [strlen_loop]. destruct (Z.eqb_spec (m (s + i)) 0) as [E|E].
  - destruct (decide (i = l)) as [->|]; [done|]. by destruct (Hnz i ltac:(lia)).
  - destruct (decide (i = l)) as [->|]; [done|]. apply IH; lia.
Qed.

Lemma strlen_cstring fuel m s l :
  cstring m s l -> l < Z.of_nat fuel -> strlen fuel m s = Some l.
Proof. intros Hs Hf. apply strlen_loop_cstring; [done | destruct Hs; lia | lia]. Qed.

Lemma cstring_tail m s l i : cstring m s l -> 0 <= i <= l -> cstring m (s + i) (l - i).
Proof.
  intros (Hl & Hnz & Hz) Hi. split; [lia|]. split.
  - intros j Hj. rewrite <- Z.add_assoc. apply Hnz. lia.
  - by replace (s + i + (l - i)) with (s + l) by lia.
Qed.

Lemma cstring_ext m m' s l :
  cstring m s l -> (∀ i, 0 <= i <= l -> m' (s + i) = m (s + i)) -> cstring m' s l.
Proof.
  intros (Hl & Hnz & Hz) He. split; [done|]. split.
  - intros i Hi. rewrite He by lia. by apply Hnz.
  - by rewrite He by lia.
Qed.

Lemma strnlen_loop_spec count m s l :
  cstring m s l -> strnlen_loop count m s = s + Z.min l (Z.of_nat count).
Proof.
  revert s l; induction count as [|count IH]; intros s l H.
  { destruct H. cbn. lia. }
  cbn [strnlen_loop]. destruct (Z.eqb_spec (m s) 0) as [E|E].
  - destruct H as (Hl & Hnz & _). destruct (decide (l = 0)); [lia|].
    destruct (Hnz 0); [lia | by rewrite Z.add_0_r].
  - destruct (decide (l = 0)) as [->|].
    { destruct H as (_ & _ & Hz). by rewrite Z.add_0_r in Hz. }
    destruct (H) as [Hl _]. rewrite (IH (s + 1) (l - 1)); [lia|]. apply cstring_tail; [done | lia].
Qed.

Lemma strnlen_spec m s l count :
  cstring m s l -> 0 <= count -> strnlen m s count = Z.min l count.
Proof. intros H Hc. unfold strnlen. rewrite (strnlen_loop_spec _ _ _ l) by done. lia. Qed.

Lemma store_bytes m a v : bytes_mem m -> bytes_mem (store m a v).
Proof.
  intros H x. unfold store. case_match; [|apply H]. change 255 with (Z.ones 8).
  rewrite Z.land_ones by lia. apply Z.mod_pos_bound. lia.
Qed.

(** The copying loop of [strlcpy] and [strlcat] moves [min(l, n)] characters. *)
Lemma bounded_copy_spec n m dst src l i :
  bytes_mem m -> cstring m src l -> 0 <= i <= l ->
  let k := Z.min (l - i) (Z.of_nat n) in
  (dst + i + k <= src ∨ src + l < dst + i) ->
  ∃ m', bounded_copy n m dst src i = (m', i + k) ∧ meq m' (blit (dst + i) (src + i) k m).
Proof.
  revert m i; induction n as [|n IH]; intros m i Hb Hs Hi k Hd.
  { exists m. subst k. rewrite Z.min_r, Z.add_0_r by lia. by rewrite blit_0. }
  cbn [bounded_copy]. pose proof Hs as (Hl & Hnz & Hz).
  destruct (Z.eqb_spec (m (src + i)) 0) as [E|E].
  { destruct (decide (i = l)) as [->|]; [|destruct (Hnz i); [lia | done]].
    exists m. subst k. rewrite Z.min_l, Z.sub_diag, Z.add_0_r by lia. by rewrite blit_0. }
  destruct (decide (i = l)) as [->|]; [done|].
  set (m1 := store m (dst + i) (m (src + i))).
  assert (Hm1 : meq m1 (blit (dst + i) (src + i) 1 m)).
  { intros x. subst m1. unfold store, blit. pose proof (Hb (src + i)).
    change 255 with (Z.ones 8). rewrite Z.land_ones, Z.mod_small by lia. mem_cases. }
  destruct (IH m1 (i + 1)) as (m' & -> & Hm'); [by apply store_bytes | | lia | lia |].
  { apply (cstring_ext m); [done|]. intros j Hj. rewrite Hm1. unfold blit. mem_cases. }
  exists m'. split; [f_equal; lia|]. rewrite Hm', Hm1, !Z.add_assoc, blit_blit_up by lia.
  replace (1 + Z.min (l - (i + 1)) (Z.of_nat n)) with k by lia. done.
Qed.

Lemma bounded_copy_nul n m dst src l :
  bytes_mem m -> cstring m src l ->
  let k := Z.min l (Z.of_nat n) in
  dst + k < src ∨ src + l < dst ->
  ∃ m1, bounded_copy n m dst src 0 = (m1, k) ∧
        meq (store m1 (dst + k) 0) (store (blit dst src k m) (dst + k) 0) ∧
        cstring (store m1 (dst + k) 0) src l.
Proof.
  intros Hb Hs k Hd. pose proof Hs as (Hl & _).
  destruct (bounded_copy_spec n m dst src l 0) as (m1 & Hc & Hm); [done..| lia | lia |].
  rewrite Z.sub_0_r in Hc, Hm. fold k in Hc, Hm. rewrite !Z.add_0_r in Hm.
  exists m1. split; [done|]. split.
  - intros x. unfold store. by rewrite (Hm x).
  - apply (cstring_ext m); [done|]. intros i Hi. unfold store. rewrite (Hm (src + i)).
    unfold blit. mem_cases.
Qed.

(** ** Properties *)

(** [memcpy], with its word moves, copies exactly [count] bytes and touches
    nothing else, never accessing an unaligned word, when the areas are disjoint or
    the destination is the lower one. *)
Theorem memcpy_copies m dest src count :
  0 <= count < 2 ^ 31 -> dest <= src ∨ disjoint_ranges dest src count ->
  ∃ m', memcpy m dest src count = Some m' ∧ ∀ x, m' x = blit dest src count m x.
Proof.
  intros Hc Hd. unfold memcpy.
  destruct (_ || _) eqn:E; [exists m; split; [done|]; by eapply blit_guard|].
  apply orb_false_iff in E as [?%Z.eqb_neq ?%Z.eqb_neq].
  apply copy_ascending_blit; [lia|]. unfold disjoint_ranges in Hd. lia.
Qed.

Lemma memcpy_copies_witness :
  ∃ m', memcpy (λ x, x mod 256) 101 205 10 = Some m' ∧
        ∀ x, m' x = blit 101 205 10 (λ x, x mod 256) x.
Proof. apply (memcpy_copies (λ x, x mod 256) 101 205 10); [lia | left; lia]. Defined.

(** [memmove] copies the bytes the source held, overlapping or not, when both
    areas lie on the same side of the address 2^31, where the comparison of the
    addresses as [long] agrees with their order, or are disjoint. *)
Theorem memmove_copies m dest src count :
  0 <= count < 2 ^ 31 -> 0 <= dest < 2 ^ 32 -> 0 <= src < 2 ^ 32 ->
  (dest <? 2 ^ 31) = (src <? 2 ^ 31) ∨ disjoint_ranges dest src count ->
  ∃ m', memmove m dest src count = Some m' ∧ ∀ x, m' x = blit dest src count m x.
Proof.
  intros Hc Hd Hs Hside.
  destruct ((count =? 0) || (dest =? src)) eqn:E.
  { exists m. unfold memmove. rewrite E. split; [done|]. by eapply blit_guard. }
  pose proof E as [Hc0%Z.eqb_neq Hne%Z.eqb_neq]%orb_false_iff.
  pose proof (s32_order dest src Hd Hs) as Hord. pose proof (s32_order src dest Hs Hd) as Hord'.
  unfold disjoint_ranges in Hside. destruct (decide (s32 dest < s32 src)) as [Hlt|Hge].
  - unfold memmove. rewrite E, (proj2 (Z.ltb_lt _ _) Hlt). apply copy_ascending_blit; [lia|].
    destruct Hside as [Hsame|]; [|lia]. left. apply Hord in Hlt; [lia | done].
  - apply copy_descending_blit; [lia | | lia | done].
    destruct Hside as [Hsame|]; [|lia]. left. specialize (Hord Hsame). lia.
Qed.

Lemma memmove_copies_witness :
  ∃ m', memmove (λ x, x mod 256) 107 102 21 = Some m' ∧
        ∀ x, m' x = blit 107 102 21 (λ x, x mod 256) x.
Proof. apply (memmove_copies (λ x, x mod 256) 107 102 21); [lia.. | by left]. Defined.

(** [strlcpy] copies at most [s - 1] characters of the source and a NUL into the
    [s] bytes of the destination, changes nothing else, and returns the length of the
    source; with [s = 0] it only returns the length. *)
Theorem strlcpy_bounded fuel m dst src s l :
  bytes_mem m -> cstring m src l -> l < Z.of_nat fuel -> 0 <= s ->
  dst + s <= src ∨ src + l < dst ->
  ∃ m', strlcpy fuel m dst src s = Some (m', l) ∧
        (s = 0 -> m' = m) ∧
        (0 < s -> let k := Z.min l (s - 1) in
                  (∀ i, 0 <= i < k -> m' (dst + i) = m (src + i)) ∧ m' (dst + k) = 0) ∧
        (∀ x, x < dst ∨ dst + s <= x -> m' x = m x).
Proof.
  intros Hb Hs Hf Hs0 Hd. pose proof Hs as (Hl & _). unfold strlcpy.
  destruct (Z.eqb_spec s 0) as [->|Hne].
  { rewrite (strlen_cstring _ _ _ l) by done. exists m. repeat split; lia || done. }
  destruct (bounded_copy_nul (Z.to_nat (s - 1)) m dst src l) as (m1 & -> & Hm & Hc); [done..| lia |].
  rewrite Z2Nat.id in * by lia. set (k := Z.min l (s - 1)) in *. cbn.
  rewrite (strlen_cstring _ _ _ (l - k)); [| apply cstring_tail; [done | lia] | lia].
  cbn. eexists. split; [do 3 f_equal; lia|]. split; [lia|].
  split; [intros _; split; [intros i Hi|]| intros x Hx]; rewrite Hm; unfold store, blit; mem_cases.
Qed.

(** A memory with the string "abcdef" at 100. *)
Definition mem_abcdef : mem := λ x, if (100 <=? x) && (x <? 106) then x - 3 else 0.
Lemma mem_abcdef_string : bytes_mem mem_abcdef ∧ cstring mem_abcdef 100 6.
Proof.
  unfold bytes_mem, cstring, mem_abcdef. split; [intros x; mem_cases|].
  split; [lia|]. split; [intros i Hi; mem_cases | done].
Qed.

Lemma strlcpy_bounded_witness :
  ∃ m', strlcpy 20 mem_abcdef 200 100 4 = Some (m', 6) ∧ (4 = 0 -> m' = mem_abcdef) ∧
        (0 < 4 -> let k := Z.min 6 (4 - 1) in
                  (∀ i, 0 <= i < k -> m' (200 + i) = mem_abcdef (100 + i)) ∧ m' (200 + k) = 0) ∧
        (∀ x, x < 200 ∨ 200 + 4 <= x -> m' x = mem_abcdef x).
Proof. apply (strlcpy_bounded 20 mem_abcdef 200 100 4 6); try apply mem_abcdef_string; lia. Defined.

(** [strlcat] bounds the characters it appends by [s - 1], not by what is left
    after the [j] characters already there: with a source of at least [s - 1]
    characters it writes the NUL at [dst + j + s - 1], outside the [s] bytes of the
    destination as soon as that held one character. *)
Theorem strlcat_overruns fuel m dst src s j l :
  bytes_mem m -> cstring m dst j -> cstring m src l -> l < Z.of_nat fuel ->
  0 < j < s -> s - 1 <= l -> dst + j + s <= src ∨ src + l < dst + j ->
  ∃ m', strlcat fuel m dst src s = Some (m', j + l) ∧
        dst + s <= dst + j + (s - 1) ∧ m' (dst + j + (s - 1)) = 0 ∧
        (∀ i, 0 <= i < s - 1 -> m' (dst + j + i) = m (src + i)).
Proof.
  intros Hb Hj Hs Hf Hjs Hsl Hd. unfold strlcat. rewrite (strnlen_spec _ _ j) by (done || lia).
  rewrite Z.min_l by lia. destruct (Z.eqb_spec s 0); [lia|].
  destruct (bounded_copy_nul (Z.to_nat (s - 1)) m (dst + j) src l) as (m1 & -> & Hm & Hc);
    [done..| lia |].
  rewrite Z2Nat.id in * by lia. rewrite Z.min_r in * by lia. cbn.
  rewrite (strlen_cstring _ _ _ (l - (s - 1))); [| apply cstring_tail; [done | lia] | lia].
  cbn. eexists. split; [do 2 f_equal; lia|]. split; [lia|].
  split; [|intros i Hi]; rewrite Hm; unfold store, blit; mem_cases.
Qed.

(** The same memory with "xy" at 200. *)
Definition mem_xy : mem := λ x, if x =? 200 then 120 else if x =? 201 then 121 else mem_abcdef x.

Lemma strlcat_overruns_witness :
  ∃ m', strlcat 20 mem_xy 200 100 4 = Some (m', 2 + 6) ∧
        200 + 4 <= 200 + 2 + (4 - 1) ∧ m' (200 + 2 + (4 - 1)) = 0 ∧
        (∀ i, 0 <= i < 4 - 1 -> m' (200 + 2 + i) = mem_xy (100 + i)).
Proof.
  apply (strlcat_overruns 20 mem_xy 200 100 4 2 6); try lia;
    unfold bytes_mem, cstring, mem_xy, mem_abcdef; repeat split; try intros; mem_cases; lia.
Defined.
