(* ===== verification/Printf.v ===== *)
(** * Formatted output ([lib/libc/printf.c])

    The format string is the list of its characters before the NUL.  The variable
    arguments are a sequence of words, read at the width each conversion asks for; the
    string at a pointer is given by [str_at].  The characters stored from [str] on are
    a list, [chars_written] is its length, and [OUTPUT_CHAR] either goes on or jumps to
    [done].  [%n] stores to memory are collected in a list of pointer, width and value.
    The recursion follows the format string, so the model is total. *)
From stdpp Require Import base list.
From Stdlib Require Import ZArith Lia.
From S2P Require Import Prelude LibcString.
#[local] Open Scope Z_scope.

Definition LONGFLAG : Z := 0x1.
Definition LONGLONGFLAG : Z := 0x2.
Definition HALFFLAG : Z := 0x4.
Definition HALFHALFFLAG : Z := 0x8.
Definition SIZETFLAG : Z := 0x10.
Definition ALTFLAG : Z := 0x20.
Definition CAPSFLAG : Z := 0x40.
Definition SHOWSIGNFLAG : Z := 0x80.
Definition SIGNEDFLAG : Z := 0x100.
Definition LEFTFORMATFLAG : Z := 0x200.
Definition LEADZEROFLAG : Z := 0x400.

(** [flags & F]. *)
Definition has (flags F : Z) : bool := negb (Z.land flags F =? 0).

Definition as_u64 (z : Z) : Z := z mod 2 ^ 64.
Definition as_s64 (z : Z) : Z := (z + 2 ^ 63) mod 2 ^ 64 - 2 ^ 63.
Definition as_s16 (z : Z) : Z := (z + 2 ^ 15) mod 2 ^ 16 - 2 ^ 15.

(** ** Numbers *)

(** The characters are put into [num_buffer] from its end: [acc] is what is there. *)
Fixpoint dec_digits (fuel : nat) (n : Z) (acc : list Z) : list Z :=
  match fuel with
  | O => acc
  | S fuel => if 10 <=? n then dec_digits fuel (n / 10) (n mod 10 + 48 :: acc) else n + 48 :: acc
  end.

Definition longlong_to_string (n flag : Z) : list Z :=
  let negative := has flag SIGNEDFLAG && (as_s64 n <? 0) in
  let n := if negative then as_u64 (- n) else n in
  let s := dec_digits 20 n [] in
  if negative then 45 :: s else if has flag SHOWSIGNFLAG then 43 :: s else s.

Definition hextable : list Z := [48; 49; 50; 51; 52; 53; 54; 55; 56; 57; 97; 98; 99; 100; 101; 102].
Definition hextable_caps : list Z := [48; 49; 50; 51; 52; 53; 54; 55; 56; 57; 65; 66; 67; 68; 69; 70].

Fixpoint hex_digits (fuel : nat) (table : list Z) (u : Z) (acc : list Z) : list Z :=
  match fuel with
  | O => acc
  | S fuel =>
      let acc := default 0 (table !! Z.to_nat (u mod 16)) :: acc in
      let u := u / 16 in
      if negb (u =? 0) then hex_digits fuel table u acc else acc
  end.
Definition longlong_to_hexstring (u flag : Z) : list Z :=
  hex_digits 16 (if has flag CAPSFLAG then hextable_caps else hextable) u [].

(** ** Output *)

(** [OUTPUT_CHAR] for each character: [true] is the jump to [done]. *)
Fixpoint output (len : Z) (cs : list Z) (out : list Z) : list Z * bool :=
  match cs with
  | [] => (out, false)
  | c :: cs =>
      let out := out ++ [c] in
      if u32 (zlen out + 1) =? len then (out, true) else output len cs out
  end.

(** The code at [_output_string]. *)
Definition output_string (len flags format_num : Z) (s out : list Z) : list Z * bool :=
  let pad c := replicate (Z.to_nat (format_num - zlen s)) c in
  if has flags LEFTFORMATFLAG then output len (s ++ pad 32) out
  else output len (pad (if has flags LEADZEROFLAG then 48 else 32) ++ s) out.

(** The values of the conversions [d], and [u], [x], as [unsigned long long]. *)
Definition signed_arg (flags a : Z) : Z :=
  as_u64 (if has flags LONGLONGFLAG then as_s64 a else
          if has flags LONGFLAG then s32 a else
          if has flags HALFHALFFLAG then s8 (s32 a) else
          if has flags HALFFLAG then as_s16 (s32 a) else s32 a).
Definition unsigned_arg (flags a : Z) : Z :=
  if has flags LONGLONGFLAG then as_u64 a else
  if has flags LONGFLAG then u32 a else
  if has flags HALFHALFFLAG then u32 a mod 2 ^ 8 else
  if has flags HALFFLAG then u32 a mod 2 ^ 16 else u32 a.
(** The width [%n] stores at. *)
Definition n_width (flags : Z) : Z :=
  if has flags LONGLONGFLAG then 8 else if has flags LONGFLAG then 4 else
  if has flags HALFHALFFLAG then 1 else if has flags HALFFLAG then 2 else 4.

Definition null_text : list Z := [60; 110; 117; 108; 108; 62].

Section Format.
Variable args : nat -> Z.
Variable str_at : Z -> list Z.
Variable len : Z.

(** What a call has done so far. *)
Record progress := Progress { out : list Z; taken : nat; stores : list (Z * Z * Z) }.

(** What a conversion character does: go on reading the format, or a complete field
    with the jump flag. *)
Inductive action :=
| Next (flags format_num : Z)
| Field (p : progress) (jump : bool).

Definition emit (cs : list Z) (p : progress) : action :=
  let '(o, j) := output len cs (out p) in Field (Progress o (taken p) (stores p)) j.
Definition emit_string (flags format_num : Z) (s : list Z) (p : progress) : action :=
  let '(o, j) := output_string len flags format_num s (out p) in
  Field (Progress o (taken p) (stores p)) j.
(** [va_arg]. *)
Definition take_arg (p : progress) : Z * progress :=
  (args (taken p), Progress (out p) (S (taken p)) (stores p)).

Definition conv_signed (flags format_num : Z) (p : progress) : action :=
  let '(a, p) := take_arg p in
  let n := signed_arg flags a in
  let flags := Z.lor flags SIGNEDFLAG in
  emit_string flags format_num (longlong_to_string n flags) p.
Definition conv_unsigned (flags format_num : Z) (p : progress) : action :=
  let '(a, p) := take_arg p in
  emit_string flags format_num (longlong_to_string (unsigned_arg flags a) flags) p.
Definition conv_hex (flags format_num : Z) (p : progress) : action :=
  let '(a, p) := take_arg p in
  let s := longlong_to_hexstring (unsigned_arg flags a) flags in
  if has flags ALTFLAG then
    let '(o, j) := output len [48; if has flags CAPSFLAG then 88 else 120] (out p) in
    let p := Progress o (taken p) (stores p) in
    if j : bool then Field p true else emit_string flags format_num s p
  else emit_string flags format_num s p.

(** The [switch] on the format character [c]. *)
Definition conversion (c flags format_num : Z) (p : progress) : action :=
  if (48 <=? c) && (c <=? 57) then
    let flags := if (c =? 48) && (format_num =? 0) then Z.lor flags LEADZEROFLAG else flags in
    Next flags (u32 (u32 (format_num * 10) + (c - 48)))
  else if c =? 46 then Next flags format_num
  else if c =? 37 then emit [37] p
  else if c =? 99 then let '(a, p) := take_arg p in emit [u32 a mod 2 ^ 8] p
  else if c =? 115 then
    let '(a, p) := take_arg p in
    emit_string flags format_num (if u32 a =? 0 then null_text else str_at (u32 a)) p
  else if c =? 45 then Next (Z.lor flags LEFTFORMATFLAG) format_num
  else if c =? 43 then Next (Z.lor flags SHOWSIGNFLAG) format_num
  else if c =? 35 then Next (Z.lor flags ALTFLAG) format_num
  else if c =? 108 then
    let flags := if has flags LONGFLAG then Z.lor flags LONGLONGFLAG else flags in
    Next (Z.lor flags LONGFLAG) format_num
  else if c =? 104 then
    let flags := if has flags HALFFLAG then Z.lor flags HALFHALFFLAG else flags in
    Next (Z.lor flags HALFFLAG) format_num
  else if c =? 122 then Next (Z.lor flags SIZETFLAG) format_num
  else if c =? 68 then conv_signed (Z.lor flags LONGFLAG) format_num p
  else if (c =? 105) || (c =? 100) then conv_signed flags format_num p
  else if c =? 85 then conv_unsigned (Z.lor flags LONGFLAG) format_num p
  else if c =? 117 then conv_unsigned flags format_num p
  else if c =? 112 then conv_hex (Z.lor flags (Z.lor LONGFLAG ALTFLAG)) format_num p
  else if c =? 88 then conv_hex (Z.lor flags CAPSFLAG) format_num p
  else if c =? 120 then conv_hex flags format_num p
  else if c =? 110 then
    let '(a, p) := take_arg p in
    Field (Progress (out p) (taken p) (stores p ++ [(u32 a, n_width flags, zlen (out p))])) false
  else emit [37; c] p.

(** The loop over the format: [state] is [None] between fields, and the flags and the
    width inside one. *)
Fixpoint format_loop (fmt : list Z) (state : option (Z * Z)) (p : progress) : progress :=
  match fmt with
  | [] => p
  | c :: fmt =>
      match state with
      | None =>
          if c =? 37 then format_loop fmt (Some (0, 0)) p else
          let '(o, j) := output len [c] (out p) in
          let p := Progress o (taken p) (stores p) in
          if j : bool then p else format_loop fmt None p
      | Some (flags, format_num) =>
          match conversion c flags format_num p with
          | Next flags format_num => format_loop fmt (Some (flags, format_num)) p
          | Field p j => if j : bool then p else format_loop fmt None p
          end
      end
  end.

(** [vsnprintf]: the characters stored, with the NUL, the result and the [%n] stores. *)
Definition vsnprintf (fmt : list Z) : list Z * Z * list (Z * Z * Z) :=
  let p := format_loop fmt None (Progress [] 0 []) in
  (out p ++ [0], zlen (out p), stores p).
End Format.

Definition vsprintf (args : nat -> Z) (str_at : Z -> list Z) (fmt : list Z) :=
  vsnprintf args str_at (2 ^ 31 - 1) fmt.

(** ** The reference: output without a limit

    No count of characters is [-1], so with that length nothing is ever cut off. *)
Definition nolimit : Z := -1.

Lemma u32_nolimit z : (u32 z =? nolimit) = false.
Proof. apply Z.eqb_neq. pose proof (u32_range z). unfold nolimit. lia. Qed.

Lemma output_nolimit cs o : output nolimit cs o = (o ++ cs, false).
Proof.
  revert o; induction cs as [|c cs IH]; intros o; cbn [output]; [by rewrite app_nil_r|].
  rewrite u32_nolimit, IH. by rewrite <- app_assoc.
Qed.

(** With room for at least one more character, the output is cut at [len - 1]. *)
Lemma output_cut len cs o :
  len < 2 ^ 32 -> zlen o + 1 < len ->
  output len cs o = if zlen (o ++ cs) + 1 <? len then (o ++ cs, false)
                    else (take (Z.to_nat (len - 1)) (o ++ cs), true).
Proof.
  intros Hlen. revert o; induction cs as [|c cs IH]; intros o Ho; cbn [output].
  { rewrite app_nil_r. by rewrite (proj2 (Z.ltb_lt _ _)). }
  assert (Hz : zlen (o ++ [c]) = zlen o + 1) by (rewrite zlen_app; done).
  pose proof (zlen_nonneg o). rewrite u32_small by lia. rewrite Hz.
  destruct (Z.eqb_spec (zlen o + 1 + 1) len) as [E|E].
  - rewrite (proj2 (Z.ltb_ge _ _)) by (rewrite zlen_app; unfold zlen in *; cbn [length]; lia).
    f_equal. replace (o ++ c :: cs) with ((o ++ [c]) ++ cs) by (by rewrite <- app_assoc).
    rewrite take_app_length'; [done|]. unfold zlen in *. lia.
  - rewrite IH by lia. by rewrite <- app_assoc.
Qed.

(** With a length of 0 or 1 the limit is never met. *)
Lemma output_unlimited len cs o :
  0 <= len <= 1 -> zlen (o ++ cs) + 1 < 2 ^ 32 -> output len cs o = (o ++ cs, false).
Proof.
  intros Hlen. revert o; induction cs as [|c cs IH]; intros o Hz; cbn [output]; [by rewrite app_nil_r|].
  replace (o ++ c :: cs) with ((o ++ [c]) ++ cs) in * by (by rewrite <- app_assoc).
  pose proof (zlen_nonneg o). pose proof (zlen_nonneg cs).
  assert (zlen (o ++ [c]) = zlen o + 1) by (rewrite zlen_app; done).
  rewrite zlen_app in Hz. rewrite u32_small, (proj2 (Z.eqb_neq _ _)) by lia.
  apply IH. by rewrite zlen_app.
Qed.

Lemma take_long {A} (n : Z) (l l' : list A) :
  n <= zlen l -> take (Z.to_nat n) (l ++ l') = take (Z.to_nat n) l.
Proof. intros H. apply take_app_le. unfold zlen in H. lia. Qed.

Section Limits.
Variable args : nat -> Z.
Variable str_at : Z -> list Z.
Variable len : Z.

(** The limited action [b] against the unlimited one [a]: the same while there is
    room, and otherwise the end, with the characters cut. *)
Definition cut (a b : action) : Prop :=
  match a with
  | Next _ _ => b = a
  | Field q j => j = false ∧
      (zlen (out q) + 1 < len -> b = Field q false) ∧
      (len <= zlen (out q) + 1 -> ∃ p, b = Field p true ∧ out p = take (Z.to_nat (len - 1)) (out q))
  end.

Lemma emit_cut cs p :
  len < 2 ^ 32 -> zlen (out p) + 1 < len -> cut (emit nolimit cs p) (emit len cs p).
Proof.
  intros Hlen Ho. unfold emit. rewrite output_nolimit, output_cut by done. split; [done|]. cbn.
  destruct (Z.ltb_spec (zlen (out p ++ cs) + 1) len); split; intros; try lia; [done|].
  eexists. by split.
Qed.

Lemma emit_string_eq l flags num s p :
  ∃ cs, emit_string l flags num s p = emit l cs p ∧
        emit_string nolimit flags num s p = emit nolimit cs p.
Proof. unfold emit_string, output_string, emit. destruct (has flags LEFTFORMATFLAG); eexists; split; reflexivity. Qed.

Lemma emit_string_cut flags num s p :
  len < 2 ^ 32 -> zlen (out p) + 1 < len ->
  cut (emit_string nolimit flags num s p) (emit_string len flags num s p).
Proof.
  intros. destruct (emit_string_eq len flags num s p) as (cs & -> & ->). by apply emit_cut.
Qed.

Lemma conv_hex_cut flags num p :
  len < 2 ^ 32 -> zlen (out p) + 1 < len -> cut (conv_hex args nolimit flags num p) (conv_hex args len flags num p).
Proof.
  intros Hlen Ho. unfold conv_hex. cbn [take_arg].
  destruct (has flags ALTFLAG); [|by apply emit_string_cut].
  set (s := longlong_to_hexstring _ _). set (pre := [_; _]). cbn [out taken stores].
  rewrite output_nolimit, output_cut by done. cbn iota.
  destruct (Z.ltb_spec (zlen (out p ++ pre) + 1) len); cbn iota; [by apply emit_string_cut|].
  destruct (emit_string_eq nolimit flags num s (Progress (out p ++ pre) (S (taken p)) (stores p)))
    as (cs & -> & _).
  unfold emit. rewrite output_nolimit. cbn. split; [done|]. pose proof (zlen_nonneg cs).
  rewrite !zlen_app in *. split; [lia|]. intros _. eexists. split; [done|]. cbn.
  rewrite (take_long _ (out p ++ pre) cs); [done|]. rewrite zlen_app. lia.
Qed.

Lemma conversion_cut c flags num p :
  len < 2 ^ 32 -> zlen (out p) + 1 < len ->
  cut (conversion args str_at nolimit c flags num p) (conversion args str_at len c flags num p).
Proof.
  intros Hlen Ho. unfold conversion, conv_signed, conv_unsigned. cbn [take_arg].
  repeat match goal with
  | |- cut (Next _ _) _ => done
  | |- cut (emit _ _ _) _ => by apply emit_cut
  | |- cut (emit_string _ _ _ _ _) _ => by apply emit_string_cut
  | |- cut (conv_hex _ _ _ _ _) _ => by apply conv_hex_cut
  | |- cut (Field _ _) _ => split; [done|]; cbn; split; [done | lia]
  | |- cut (if ?b then _ else _) _ => destruct b
  end.
Qed.

(** The unlimited output only grows. *)
Lemma conversion_grows c flags num p q j :
  conversion args str_at nolimit c flags num p = Field q j -> ∃ ext, out q = out p ++ ext.
Proof.
  unfold conversion, conv_signed, conv_unsigned, conv_hex, emit_string, output_string, emit. cbn [take_arg].
  rewrite ?output_nolimit. intros H.
  repeat match type of H with
  | context [if ?b then _ else _] => destruct b
  | context [output nolimit _ _] => rewrite output_nolimit in H
  | Next _ _ = _ => discriminate
  | Field _ _ = _ => injection H as <- _; cbn
  end; rewrite <- ?app_assoc; eauto. exists []. by rewrite app_nil_r.
Qed.

Lemma format_loop_grows fmt st p :
  ∃ ext, out (format_loop args str_at nolimit fmt st p) = out p ++ ext.
Proof.
  revert st p; induction fmt as [|c fmt IH]; intros st p; cbn [format_loop].
  { exists []. by rewrite app_nil_r. }
  destruct st as [[flags num]|].
  - destruct (conversion args str_at nolimit c flags num p) as [f' n'|q j] eqn:E; [apply IH|].
    apply conversion_grows in E as [ext E]. destruct j; [by exists ext|].
    destruct (IH None q) as [ext' ->]. rewrite E, <- app_assoc. eauto.
  - destruct (c =? 37); [apply IH|]. rewrite output_nolimit.
    destruct (IH None (Progress (out p ++ [c]) (taken p) (stores p))) as [ext ->]. cbn.
    rewrite <- app_assoc. eauto.
Qed.

Lemma format_loop_cut fmt st p :
  len < 2 ^ 32 -> zlen (out p) + 1 < len ->
  out (format_loop args str_at len fmt st p) =
  take (Z.to_nat (len - 1)) (out (format_loop args str_at nolimit fmt st p)).
Proof.
  intros Hlen. revert st p; induction fmt as [|c fmt IH]; intros st p Ho; cbn [format_loop].
  { rewrite take_ge; [done|]. unfold zlen in Ho. lia. }
  destruct st as [[flags num]|].
  - pose proof (conversion_cut c flags num p Hlen Ho) as Hcut.
    destruct (conversion args str_at nolimit c flags num p) as [f' n'|q j] eqn:E.
    { rewrite Hcut. by apply IH. }
    destruct Hcut as (-> & Hin & Hout).
    destruct (decide (zlen (out q) + 1 < len)) as [Hlt|Hge]; [rewrite Hin by done; by apply IH|].
    destruct Hout as (p' & -> & Hp'); [lia|]. rewrite Hp'.
    destruct (format_loop_grows fmt None q) as [ext ->]. rewrite take_long; [done | lia].
  - destruct (c =? 37); [by apply IH|]. rewrite output_nolimit, output_cut by done.
    destruct (Z.ltb_spec (zlen (out p ++ [c]) + 1) len); [by apply IH|].
    destruct (format_loop_grows fmt None (Progress (out p ++ [c]) (taken p) (stores p))) as [ext ->].
    cbn [out]. rewrite (take_long _ (out p ++ [c]) ext); [done | lia].
Qed.
End Limits.

Section Unlimited.
Variable args : nat -> Z.
Variable str_at : Z -> list Z.
Variable len : Z.
Hypothesis Hlen : 0 <= len <= 1.

(** The same action, unless the output has 2^32 characters. *)
Definition agrees (a b : action) : Prop :=
  match a with Next _ _ => b = a | Field q _ => zlen (out q) + 1 < 2 ^ 32 -> b = a end.

Lemma emit_agrees cs p : agrees (emit nolimit cs p) (emit len cs p).
Proof.
  unfold emit. rewrite output_nolimit. intros Hz. cbn in Hz. by rewrite output_unlimited.
Qed.
Lemma emit_string_agrees flags num s p :
  agrees (emit_string nolimit flags num s p) (emit_string len flags num s p).
Proof. destruct (emit_string_eq len flags num s p) as (cs & -> & ->). apply emit_agrees. Qed.

Lemma conv_hex_agrees flags num p :
  agrees (conv_hex args nolimit flags num p) (conv_hex args len flags num p).
Proof.
  unfold conv_hex. cbn [take_arg]. destruct (has flags ALTFLAG); [|apply emit_string_agrees].
  set (s := longlong_to_hexstring _ _). set (pre := [_; _]). cbn [out taken stores].
  rewrite output_nolimit. cbn iota. set (p1 := Progress (out p ++ pre) _ _).
  destruct (emit_string_eq len flags num s p1) as (cs & E1 & E2). rewrite E2.
  pose proof (emit_agrees cs p1) as Ha. unfold emit in Ha at 1 |- *. rewrite output_nolimit in Ha |- *.
  intros Hz. cbn in Hz. rewrite <- app_assoc in Hz.
  rewrite output_unlimited; [| done |].
  { cbn iota beta. fold p1. rewrite E1. apply Ha. unfold p1. cbn. by rewrite <- app_assoc. }
  pose proof (zlen_nonneg cs). rewrite !zlen_app in *. lia.
Qed.

Lemma conversion_agrees c flags num p :
  agrees (conversion args str_at nolimit c flags num p) (conversion args str_at len c flags num p).
Proof.
  unfold conversion, conv_signed, conv_unsigned. cbn [take_arg].
  repeat match goal with
  | |- agrees (Next _ _) _ => done
  | |- agrees (emit _ _ _) _ => apply emit_agrees
  | |- agrees (emit_string _ _ _ _ _) _ => apply emit_string_agrees
  | |- agrees (conv_hex _ _ _ _ _) _ => apply conv_hex_agrees
  | |- agrees (Field _ _) _ => done
  | |- agrees (if ?b then _ else _) _ => destruct b
  end.
Qed.

Lemma format_loop_agrees fmt st p :
  zlen (out (format_loop args str_at nolimit fmt st p)) + 1 < 2 ^ 32 ->
  format_loop args str_at len fmt st p = format_loop args str_at nolimit fmt st p.
Proof.
  revert st p; induction fmt as [|c fmt IH]; intros st p; cbn [format_loop]; [done|].
  destruct st as [[flags num]|].
  - pose proof (conversion_agrees c flags num p) as Ha.
    destruct (conversion args str_at nolimit c flags num p) as [f' n'|q j] eqn:E.
    { rewrite Ha. apply IH. }
    intros Hz. rewrite Ha; [destruct j; [done | by apply IH]|].
    destruct j; [done|]. destruct (format_loop_grows args str_at fmt None q) as [ext Eq].
    rewrite Eq, zlen_app in Hz. pose proof (zlen_nonneg ext). lia.
  - destruct (c =? 37); [apply IH|]. rewrite output_nolimit. intros Hz.
    rewrite output_unlimited; [by apply IH | done |].
    destruct (format_loop_grows args str_at fmt None (Progress (out p ++ [c]) (taken p) (stores p)))
      as [ext Eq]. rewrite Eq, zlen_app in Hz. cbn [out] in Hz. pose proof (zlen_nonneg ext). lia.
Qed.
End Unlimited.

(** ** Numbers read back *)

(** The string [l] is in memory at [a]. *)
Definition holds (m : mem) (a : Z) (l : list Z) : Prop :=
  ∀ i c, l !! i = Some c -> m (a + Z.of_nat i) = c.

Lemma holds_cons m a c l : holds m a (c :: l) -> m a = c ∧ holds m (a + 1) l.
Proof.
  intros H. split; [rewrite <- (Z.add_0_r a); by apply (H O)|].
  intros i x Hi. rewrite <- (H (S i) x Hi). f_equal. lia.
Qed.

Definition digit (c : Z) : Prop := 48 <= c <= 57.
Definition parse (v : Z) (ds : list Z) : Z := foldl (λ v c, v * 10 + c - 48) v ds.

Lemma dec_digits_parse fuel n acc :
  0 <= n < 10 ^ Z.of_nat fuel -> fuel <> O ->
  ∃ ds, dec_digits fuel n acc = ds ++ acc ∧ Forall digit ds ∧ ds <> [] ∧ (length ds <= fuel)%nat ∧
        parse 0 ds = n.
Proof.
  revert n acc; induction fuel as [|fuel IH]; intros n acc Hn H0; [done|]. cbn [dec_digits].
  destruct (Z.leb_spec 10 n) as [Hge|Hlt].
  2:{ exists [n + 48]. split_and!; try done; [by repeat constructor; lia | cbn; lia | cbn; lia]. }
  assert (Hf : fuel <> O) by (intros ->; change (10 ^ Z.of_nat 1) with 10 in Hn; lia).
  rewrite Nat2Z.inj_succ, Z.pow_succ_r in Hn by lia.
  pose proof (Z.div_mod n 10). pose proof (Z.mod_pos_bound n 10).
  destruct (IH (n / 10) (n mod 10 + 48 :: acc)) as (ds & -> & Hd & Hne & Hl & Hp); [lia | done |].
  exists (ds ++ [n mod 10 + 48]). rewrite <- app_assoc. split; [done|].
  split; [apply Forall_app; split; [done|]; repeat constructor; lia|].
  split; [by intros [? _]%app_nil|]. split; [rewrite length_app; cbn; lia|].
  unfold parse in *. rewrite foldl_app, Hp. cbn. lia.
Qed.

Lemma dec_loop_parse (wrap : Z -> Z) fuel m a ds rest v :
  (∀ x y c, wrap x = wrap y -> wrap (x * 10 + c - 48) = wrap (y * 10 + c - 48)) ->
  (∀ x, wrap (wrap x) = wrap x) ->
  Forall digit ds -> holds m a (ds ++ 0 :: rest) -> (length ds < fuel)%nat ->
  dec_loop wrap fuel m a (wrap v) = Some (wrap (parse v ds)).
Proof.
  intros Hw Hww Hd. revert a v fuel; induction Hd as [|c ds Hc Hd IH]; intros a v fuel Hm Hf;
    (destruct fuel as [|fuel]; [cbn in Hf; lia|]); cbn [dec_loop]; cbn [app] in Hm;
    apply holds_cons in Hm as [Hma Hm]; rewrite Hma.
  - done.
  - unfold digit in Hc. rewrite (proj2 (Z.eqb_neq _ _)) by lia.
    unfold isdigit. rewrite !(proj2 (Z.leb_le _ _)) by lia. cbn [negb andb].
    rewrite (Hw (wrap v) v) by apply Hww. rewrite (IH (a + 1) (v * 10 + c - 48) fuel Hm); [done|].
    cbn in Hf. lia.
Qed.

Lemma u32_step x y c : u32 x = u32 y -> u32 (x * 10 + c - 48) = u32 (y * 10 + c - 48).
Proof.
  unfold u32. intros E. rewrite <- !Z.add_sub_assoc, (Z.add_mod (x * 10)), (Z.add_mod (y * 10)) by lia.
  by rewrite (Z.mul_mod x), (Z.mul_mod y), E by lia.
Qed.
Lemma s32_u32 x y : s32 x = s32 y <-> u32 x = u32 y.
Proof.
  unfold s32, u32. split; intros E.
  - assert (E' : (x + 2 ^ 31) mod 2 ^ 32 = (y + 2 ^ 31) mod 2 ^ 32) by lia.
    replace x with (x + 2 ^ 31 - 2 ^ 31) by lia. replace y with (y + 2 ^ 31 - 2 ^ 31) by lia.
    by rewrite (Zminus_mod (x + 2 ^ 31)), (Zminus_mod (y + 2 ^ 31)), E'.
  - by rewrite (Zplus_mod x), (Zplus_mod y), E.
Qed.
Lemma s32_step x y c : s32 x = s32 y -> s32 (x * 10 + c - 48) = s32 (y * 10 + c - 48).
Proof. rewrite !s32_u32. apply u32_step. Qed.
Lemma u32_idem x : u32 (u32 x) = u32 x.
Proof. apply Z.mod_mod. lia. Qed.
Lemma s32_idem x : s32 (s32 x) = s32 x.
Proof. apply s32_small. unfold s32. pose proof (Z.mod_pos_bound (x + 2 ^ 31) (2 ^ 32)). lia. Qed.

(** ** Properties *)

(** The characters the format asks for. *)
Definition full_output (args : nat -> Z) (str_at : Z -> list Z) (fmt : list Z) : list Z :=
  out (format_loop args str_at nolimit fmt None (Progress [] 0 [])).

(** C38. With a length of at least 2, [vsnprintf] stores exactly the first [len - 1]
    characters of the output the format asks for, or all of it, and a NUL: at most
    [len] bytes; the result is the number of characters stored before the NUL. *)
Theorem vsnprintf_truncates args str_at len fmt :
  2 <= len < 2 ^ 32 ->
  let s := take (Z.to_nat (len - 1)) (full_output args str_at fmt) in
  ∃ st, vsnprintf args str_at len fmt = (s ++ [0], zlen s, st) ∧ zlen (s ++ [0]) <= len.
Proof.
  intros Hlen s. unfold vsnprintf. eexists.
  rewrite format_loop_cut by (cbn; change (zlen (@nil Z)) with 0; lia).
  split; [done|]. rewrite zlen_app. subst s. unfold zlen. rewrite length_take. cbn. lia.
Qed.

(** The format "%d=%s". *)
Definition fmt_ds : list Z := [37; 100; 61; 37; 115].
Lemma vsnprintf_truncates_witness :
  let s := take (Z.to_nat (6 - 1)) (full_output (λ _, 123) (λ _, [97; 98; 99]) fmt_ds) in
  ∃ st, vsnprintf (λ _, 123) (λ _, [97; 98; 99]) 6 fmt_ds = (s ++ [0], zlen s, st) ∧
        zlen (s ++ [0]) <= 6.
Proof. apply (vsnprintf_truncates (λ _, 123) (λ _, [97; 98; 99]) 6 fmt_ds). lia. Defined.

(** With a length of 0 or 1 the test of [OUTPUT_CHAR] never stops the output: all of it
    is stored, and a NUL, however long it is. *)
Theorem vsnprintf_tiny_overruns args str_at len fmt :
  0 <= len <= 1 -> zlen (full_output args str_at fmt) + 1 < 2 ^ 32 ->
  ∃ st, vsnprintf args str_at len fmt =
        (full_output args str_at fmt ++ [0], zlen (full_output args str_at fmt), st).
Proof.
  intros Hlen Hz. unfold vsnprintf. eexists. rewrite format_loop_agrees by done. done.
Qed.

Lemma parse_number m a ds fuel :
  Forall digit ds -> ds <> [] -> holds m a (ds ++ [0]) -> (length ds < fuel)%nat ->
  atoul fuel m a = Some (u32 (parse 0 ds)) ∧
  (m a <> 45 ∧ atol fuel m a = dec_loop s32 fuel m a 0).
Proof.
  intros Hd Hne Hm Hf. destruct ds as [|c ds]; [done|]. pose proof Hd as Hd'.
  apply Forall_cons in Hd' as [Hc Hds].
  pose proof Hm as Hm'. cbn [app] in Hm'. apply holds_cons in Hm' as [Hma Hm1]. unfold digit in Hc.
  assert (Hx : m (a + 1) <> 120).
  { destruct ds as [|c1 ds]; cbn [app] in Hm1; apply holds_cons in Hm1 as [-> _]; [done|].
    apply Forall_cons in Hds as [Hc1 _]. unfold digit in Hc1. lia. }
  unfold atoul, atol. rewrite (proj2 (Z.eqb_neq (m (a + 1)) 120) Hx), andb_false_r.
  rewrite (proj2 (Z.eqb_neq (m a) 45)) by lia. split; [|split; [lia | done]].
  apply (dec_loop_parse u32 fuel m a (c :: ds) [] 0 u32_step u32_idem); done.
Qed.

(** Printing and reading numbers are inverse: the decimal string of an unsigned
    number reads back with [atoul], that of a signed one with [atol]. *)
Theorem print_parse_roundtrip m a fuel :
  (21 < fuel)%nat ->
  (∀ n, 0 <= n < 2 ^ 32 -> holds m a (longlong_to_string n 0 ++ [0]) -> atoul fuel m a = Some n) ∧
  (∀ z, - 2 ^ 31 < z < 2 ^ 31 -> holds m a (longlong_to_string (as_u64 z) SIGNEDFLAG ++ [0]) ->
        atol fuel m a = Some z).
Proof.
  intros Hf. split; [intros n Hn Hm | intros z Hz Hm].
  - destruct (dec_digits_parse 20 n []) as (ds & E & Hd & Hne & Hl & Hp); [lia | done |].
    unfold longlong_to_string in Hm. cbn in Hm. fold (dec_digits 20 n []) in Hm.
    change (holds m a (dec_digits 20 n [] ++ [0])) in Hm. rewrite E, app_nil_r in Hm.
    destruct (parse_number m a ds fuel) as [-> _]; [done | done | done | lia |].
    by rewrite Hp, u32_small by lia.
  - assert (Hs : as_s64 (as_u64 z) = z).
    { unfold as_s64, as_u64. rewrite Zplus_mod_idemp_l, Z.mod_small; lia. }
    unfold longlong_to_string in Hm. rewrite Hs in Hm. change (has SIGNEDFLAG SIGNEDFLAG) with true in Hm.
    change (has SIGNEDFLAG SHOWSIGNFLAG) with false in Hm. cbn [andb] in Hm.
    destruct (Z.ltb_spec z 0) as [Hneg|Hpos].
    + assert (Ha : as_u64 (- as_u64 z) = - z).
      { unfold as_u64. rewrite <- Z.sub_0_l, Zminus_mod_idemp_r, Z.sub_0_l. apply Z.mod_small. lia. }
      rewrite Ha in Hm. destruct (dec_digits_parse 20 (- z) []) as (ds & E & Hd & Hne & Hl & Hp); [lia | done |].
      rewrite E, app_nil_r in Hm. cbn [app] in Hm. apply holds_cons in Hm as [Hma Hm].
      unfold atol. rewrite Hma. cbn [Z.eqb Pos.eqb andb].
      pose proof (dec_loop_parse s32 fuel m (a + 1) ds [] 0 s32_step s32_idem Hd Hm) as Hdec.
      change (s32 0) with 0 in Hdec. rewrite Hdec by lia.
      cbn. rewrite Hp, (s32_small (- z)) by lia. f_equal. rewrite Z.opp_involutive. apply s32_small. lia.
    + assert (Ha : as_u64 z = z) by (apply Z.mod_small; lia). rewrite Ha in Hm.
      destruct (dec_digits_parse 20 z []) as (ds & E & Hd & Hne & Hl & Hp); [lia | done |].
      rewrite E, app_nil_r in Hm.
      destruct (parse_number m a ds fuel) as [_ [_ ->]]; [done | done | done | lia |].
      pose proof (dec_loop_parse s32 fuel m a ds [] 0 s32_step s32_idem Hd Hm) as Hdec.
      change (s32 0) with 0 in Hdec. rewrite Hdec by lia.
      by rewrite Hp, s32_small by lia.
Qed.

(** The string "-42" at 500. *)
Definition mem_m42 : mem := λ x, default 0 ([45; 52; 50; 0] !! Z.to_nat (x - 500)).

Lemma print_parse_roundtrip_witness : atol 30 mem_m42 500 = Some (- 42).
Proof.
  apply (print_parse_roundtrip mem_m42 500 30); [lia | lia |].
  intros i c Hi. unfold mem_m42. replace (Z.to_nat (500 + Z.of_nat i - 500)) with i by lia.
  change (longlong_to_string (as_u64 (-42)) SIGNEDFLAG ++ [0]) with [45; 52; 50; 0] in Hi. by rewrite Hi.
Defined.

(** "%05d" of -5 is "000-5": the padding goes in front of the sign. *)
Lemma lead_zero_sign :
  full_output (λ _, -5) (λ _, []) [37; 48; 53; 100] = [48; 48; 48; 45; 53].
Proof. reflexivity. Qed.

(** "%#6x" of 255 is "0x    ff": the padding goes behind the prefix. *)
Lemma alt_prefix_pad :
  full_output (λ _, 255) (λ _, []) [37; 35; 54; 120] = [48; 120; 32; 32; 32; 32; 102; 102].
Proof. reflexivity. Qed.
