(* ===== verification/Partition.v ===== *)
(** * MBR partitions ([lib/partition/partition.c])

    The reader of a partition table, which publishes a subdevice for each entry that
    makes sense, and its reverse.  The registry of devices is [BioReg]'s, the names are
    printed by [Printf], and the table is read with [bio_read] of [Bio] from the data
    side of the device, [data].  The stack buffer it is read into has the contents
    [stack]; [ids] are the addresses of the new subdevices.  [None] is a store past a
    name buffer, a read past the block buffer, or a failure in the registry. *)
From stdpp Require Import base gmap list.
From Stdlib Require Import ZArith Lia.
From S2P Require Import Prelude Bio Refs BioReg LibcString Printf.
#[local] Open Scope Z_scope.

Record chs := Chs { chs_c : Z; chs_h : Z; chs_s : Z }.
Record mbr_part := MbrPart {
  status : Z; start : chs; type : Z; end_ : chs; lba_start : Z; lba_length : Z }.

(** The packed structure at [o] in a buffer. *)
Definition mbr_part_at (buf : list Z) (o : nat) : mbr_part :=
  let e := drop o buf in
  MbrPart (byte_at e 0) (Chs (byte_at e 1) (byte_at e 2) (byte_at e 3)) (byte_at e 4)
    (Chs (byte_at e 5) (byte_at e 6) (byte_at e 7)) (le32 (drop 8 e)) (le32 (drop 12 e)).
Definition mbr_table (buf : list Z) : list mbr_part :=
  (λ i, mbr_part_at buf (446 + 16 * i)%nat) <$> seq 0 4.

Definition validate_mbr_partition (block_count : Z) (part : mbr_part) : Z :=
  if type part =? 0 then -1 else
  if negb (status part =? 0x80) && negb (status part =? 0) then -1 else
  if block_count <=? lba_start part then -1 else
  if block_count <? u32 (lba_start part + lba_length part) then -1 else 0.

(** [sprintf(name, "%sp%d", device, i)] into an array of [size] bytes. *)
Definition part_name (size : Z) (device : list Z) (i : nat) : option (list Z) :=
  let args k := match k with O => 1 | _ => Z.of_nat i end in
  let '(stored, _, _) := vsprintf args (λ _, device) [37; 115; 112; 37; 100] in
  if zlen stored <=? size then Some (removelast stored) else None.

(** The loop of [partition_unpublish], over the numbers [nums]. *)
Fixpoint unpublish_loop (fuel : nat) (device : list Z) (nums : list nat) (count : Z) (r : registry)
  : option (registry * Z) :=
  match nums with
  | [] => Some (r, count)
  | i :: nums =>
      devname ← part_name 512 device i;
      '(r, dev) ← bio_open devname r;
      match dev with
      | None => unpublish_loop fuel device nums count r
      | Some d =>
          r ← bio_unregister_device fuel d r;
          r ← bio_close fuel d r;
          unpublish_loop fuel device nums (count + 1) r
      end
  end.
Definition partition_unpublish (fuel : nat) (device : list Z) (r : registry) : option (registry * Z) :=
  unpublish_loop fuel device (seq 0 16) 0 r.

(** The loop of [partition_publish] over the entries, from number [i] on. *)
Fixpoint publish_loop (ids : nat -> nat) (device : list Z) (d : nat) (parts : list mbr_part) (i : nat)
    (err count : Z) (r : registry) : option (registry * Z * Z) :=
  match parts with
  | [] => Some (r, err, count)
  | part :: parts =>
      dev ← devices r !! d;
      if 0 <=? validate_mbr_partition (dblocks dev) part then
        subdevice ← part_name 128 device i;
        '(r, err) ← publish_subdevice (ids i) device subdevice (lba_start part) (lba_length part) r;
        publish_loop ids device d parts (S i) err (if err <? 0 then count else count + 1) r
      else publish_loop ids device d parts (S i) err count r
  end.

Section Publish.
Context {D : Type} `{!BlockHooks D} `{!ByteHooks D}.
Variable data : nat -> D.

Definition partition_publish (fuel : nat) (ids : nat -> nat) (stack : list Z) (device : list Z) (offset : Z)
    (r : registry) : option (registry * Z) :=
  '(r, _) ← partition_unpublish fuel device r;
  '(r, dev) ← bio_open device r;
  match dev with
  | None => Some (r, -1)
  | Some d =>
      let '(err, buf) := bio_read (data d) stack offset 512 in
      if err <? 0 then Some (r, err) else
      tag0 ← buf !! 510%nat;
      tag1 ← buf !! 511%nat;
      '(r, err, count) ←
        (if negb (tag0 =? 0x55) || negb (tag1 =? 0xaa) then Some (r, err, 0)
         else publish_loop ids device d (mbr_table buf) 0 err 0 r);
      r ← bio_close fuel d r;
      Some (r, if err <? 0 then err else count)
  end.
End Publish.

(** ** Names *)

(** The suffix of partition [i]. *)
Definition suffix (i : nat) : list Z := 112 :: dec_digits 20 (Z.of_nat i) [].

Lemma suffix_ok i : (i < 16)%nat -> (0 < length (suffix i) <= 3)%nat.
Proof.
  intros Hi. do 16 (destruct i as [|i]; [vm_compute; split; lia|]). lia.
Qed.
Lemma suffix_inj i j : (i < 4)%nat -> (j < 4)%nat -> suffix i = suffix j -> i = j.
Proof.
  intros Hi Hj. do 4 (destruct i as [|i]; [do 4 (destruct j as [|j]; [by vm_compute|]); lia|]). lia.
Qed.

Lemma output_room cs o : zlen (o ++ cs) + 1 < 2 ^ 31 - 1 -> output (2 ^ 31 - 1) cs o = (o ++ cs, false).
Proof.
  intros Hz. pose proof (zlen_nonneg cs). rewrite zlen_app in Hz.
  rewrite output_cut by lia. by rewrite (proj2 (Z.ltb_lt _ _)) by (rewrite zlen_app; lia).
Qed.

Section Loop.
Variables (args : nat -> Z) (str_at : Z -> list Z).
Let loop := format_loop args str_at (2 ^ 31 - 1).

Lemma loop_char ch fmt p :
  ch <> 37 -> zlen (out p) + 2 < 2 ^ 31 - 1 ->
  loop (ch :: fmt) None p = loop fmt None (Progress (out p ++ [ch]) (taken p) (stores p)).
Proof.
  intros Hc Hz. unfold loop. cbn [format_loop]. rewrite (proj2 (Z.eqb_neq _ _) Hc).
  rewrite output_room; [done|]. rewrite zlen_app. unfold zlen at 2. cbn [length]. lia.
Qed.
Lemma loop_conversion ch fmt p q :
  conversion args str_at (2 ^ 31 - 1) ch 0 0 p = Field q false ->
  loop (37 :: ch :: fmt) None p = loop fmt None q.
Proof. intros E. unfold loop. cbn [format_loop]. change (37 =? 37) with true. cbv iota. by rewrite E. Qed.
Lemma emit_plain flags s p :
  has flags LEFTFORMATFLAG = false -> zlen (out p ++ s) + 1 < 2 ^ 31 - 1 ->
  emit_string (2 ^ 31 - 1) flags 0 s p = Field (Progress (out p ++ s) (taken p) (stores p)) false.
Proof.
  intros Hf Hz. unfold emit_string, output_string. rewrite Hf. pose proof (zlen_nonneg s).
  replace (Z.to_nat (0 - zlen s)) with O by lia. cbn [replicate app]. by rewrite output_room.
Qed.
End Loop.

Lemma part_name_eq size device i :
  (i < 16)%nat -> zlen device + 4 <= size -> size <= 512 -> part_name size device i = Some (device ++ suffix i).
Proof.
  intros Hi Hd Hs. pose proof (zlen_nonneg device). pose proof (suffix_ok i Hi) as Hl. unfold part_name.
  set (args := λ k, match k with O => 1 | _ => Z.of_nat i end). unfold vsprintf, vsnprintf.
  set (ds := dec_digits 20 (Z.of_nat i) []). assert (Hz : zlen ([112] ++ ds) <= 3) by (unfold zlen; cbn in *; lia).
  rewrite zlen_app in Hz. change (zlen [112]) with 1 in Hz. pose proof (zlen_nonneg ds).
  erewrite loop_conversion; [|apply (emit_plain 0 device (Progress [] 1 [])); [done|]; cbn [out app]; lia].
  cbn [out app taken stores]. rewrite loop_char by (cbn [out]; lia || done). cbn [out taken stores].
  erewrite loop_conversion.
  2:{ assert (El : longlong_to_string (signed_arg 0 (args 1%nat)) (Z.lor 0 SIGNEDFLAG) = ds).
      { clear -Hi. subst ds args. do 16 (destruct i as [|i]; [reflexivity|]). lia. }
      change (conversion args _ _ 100 0 0 _) with
        (emit_string (2 ^ 31 - 1) (Z.lor 0 SIGNEDFLAG)
           0 (longlong_to_string (signed_arg 0 (args 1%nat)) (Z.lor 0 SIGNEDFLAG)) (Progress (device ++ [112]) 2 [])).
      rewrite El. apply emit_plain; [done|]. cbn [out]. rewrite !zlen_app. change (zlen [112]) with 1. lia. }
  cbn [format_loop out]. rewrite removelast_last, !zlen_app. change (zlen [112]) with 1. change (zlen [0]) with 1.
  rewrite (proj2 (Z.leb_le _ _)) by lia. by rewrite <- app_assoc.
Qed.

Lemma name_not_device device i : device ++ suffix i <> device.
Proof. intros E%(f_equal length). rewrite length_app in E. unfold suffix in E. cbn in E. lia. Qed.

(** ** Names and what they stand for *)

(** [name] stands for the device [id], of [len] blocks, a subdevice of [par] if it is one. *)
Definition listed (r : registry) (name : list Z) (id : nat) (len : Z) (par : option nat) : Prop :=
  first_named name (bdevs r) (devices r) = Some id ∧
  ∃ e, devices r !! id = Some e ∧ dblocks e = len ∧ dparent e = par.

Lemma listed_keep n r r' hs name id len par :
  reg_inv n r' hs -> shrinks (devices r) (devices r') ->
  first_named name (bdevs r') (devices r') = first_named name (bdevs r) (devices r) ->
  listed r name id len par -> listed r' name id len par.
Proof.
  intros ((_ & Hl) & _) Hs E (Hf & e & He & Hlen & Hpar). split; [by rewrite E|].
  rewrite <- E in Hf. apply first_named_elem in Hf as [Hin _].
  destruct (Hl id) as [e' He']; [unfold refs_of; set_solver|].
  destruct (Hs _ _ He') as (e0 & He0 & Es). simplify_eq. exists e'. split; [done|]. by rewrite Es.
Qed.

(** Opening finds what a name stands for. *)
Lemma listed_open n r hs name id len par :
  reg_inv n r hs -> listed r name id len par -> ∃ r', bio_open name r = Some (r', Some id).
Proof.
  intros HI [Hf (e & He & _)]. unfold bio_open. rewrite (reg_find n r hs) by done. cbn. rewrite Hf.
  unfold bdev_inc_ref. rewrite He. cbn. eauto.
Qed.

Lemma unpublish_one n fuel r hs nm :
  reg_inv n r hs -> (n <= fuel)%nat ->
  ∃ r1 o, bio_open nm r = Some (r1, o) ∧
    match o with
    | None => r1 = r
    | Some x => ∃ r2 r3, bio_unregister_device fuel x r1 = Some r2 ∧ bio_close fuel x r2 = Some r3 ∧
        reg_inv n r3 hs ∧ shrinks (devices r) (devices r3) ∧
        ∀ name, name <> nm -> first_named name (bdevs r3) (devices r3) = first_named name (bdevs r) (devices r)
    end.
Proof.
  intros HI Hf. destruct (open_inv n r hs nm HI) as (r1 & o & Hop & Hb1 & Ho). exists r1, o. split; [done|].
  destruct o as [x|]; [|done]. destruct Ho as (HI1 & _).
  unfold bio_open in Hop. rewrite (reg_find n r hs) in Hop by done. cbn in Hop.
  destruct (first_named nm (bdevs r) (devices r)) as [y|] eqn:Hfirst; [|done].
  apply first_named_elem in Hfirst as [Hin Hname].
  destruct (bdev_inc_ref y r) as [r1'|] eqn:Hinc; [|done]. cbn in Hop. simplify_eq.
  apply inc_ref_shrinks in Hinc as [_ Hs1].
  destruct (unregister_inv n fuel r1 (x :: hs) x HI1 Hf) as (r2 & Hun & HI2); [by rewrite Hb1|].
  destruct (close_inv n fuel r2 [] x hs HI2 Hf) as (r3 & Hcl & HI3). exists r2, r3.
  split_and!; [done | done | done | |]; unfold bio_unregister_device in Hun; rewrite bool_decide_true in Hun
    by (by rewrite Hb1); apply dec_ref_shrinks in Hun as [Hb2 Hs2]; apply dec_ref_shrinks in Hcl as [Hb3 Hs3];
    cbn in Hb2, Hs2; assert (Hs : shrinks (devices r) (devices r3)) by (by repeat (etrans; [done|])); [done|].
  intros name Hne. rewrite (first_named_shrinks n r3 hs (devices r)) by done.
  rewrite Hb3, Hb2, Hb1. apply first_named_filter. rewrite Hname. congruence.
Qed.

Lemma unpublish_loop_ok n fuel device nums count r hs :
  reg_inv n r hs -> (n <= fuel)%nat -> zlen device + 4 <= 512 -> (∀ i, i ∈ nums -> (i < 16)%nat) ->
  ∃ r' k, unpublish_loop fuel device nums count r = Some (r', k) ∧ reg_inv n r' hs ∧
    shrinks (devices r) (devices r') ∧
    ∀ name, (∀ i, i ∈ nums -> name <> device ++ suffix i) ->
      first_named name (bdevs r') (devices r') = first_named name (bdevs r) (devices r).
Proof.
  intros HI Hf Hd. revert r count HI; induction nums as [|i nums IH]; intros r count HI Hi; cbn [unpublish_loop].
  { exists r, count. split_and!; done. }
  rewrite part_name_eq by (done || lia || (apply Hi; by left)). cbn [mbind option_bind].
  destruct (unpublish_one n fuel r hs (device ++ suffix i) HI Hf) as (r1 & o & -> & Ho).
  cbn [mbind option_bind]. destruct o as [x|].
  - destruct Ho as (r2 & r3 & -> & Hcl & HI3 & Hs3 & Hn3). cbn [mbind option_bind]. rewrite Hcl. cbn [mbind option_bind].
    destruct (IH r3 (count + 1) HI3) as (r' & k & -> & HI' & Hs' & Hn'); [intros; apply Hi; by right|].
    exists r', k. split_and!; [done | done | by etrans |]. intros name Hne.
    rewrite Hn', Hn3; [done | apply Hne; by left | intros; apply Hne; by right].
  - subst r1. destruct (IH r count HI) as (r' & k & -> & HI' & Hs' & Hn'); [intros; apply Hi; by right|].
    exists r', k. split_and!; [done.. |]. intros name Hne. apply Hn'. intros; apply Hne; by right.
Qed.

(** ** Publishing *)

(** A subdevice whose range fits on its parent is published. *)
Lemma publish_eq n r hs id device sub st len d e :
  reg_inv n r hs -> first_named device (bdevs r) (devices r) = Some d -> devices r !! d = Some e ->
  u32 (st + len) <= dblocks e ->
  publish_subdevice id device sub st len r =
    Some (Registry (<[id := Device sub 1 len (Some d)]> (<[d := set_ref (dref e + 1) e]> (devices r))) (id :: bdevs r), 0).
Proof.
  intros HI Hf He Hfits. unfold publish_subdevice, bio_open. rewrite (reg_find n r hs), Hf by done. cbn.
  unfold bdev_inc_ref at 1. rewrite He. cbn. rewrite lookup_insert_eq. cbn.
  rewrite (proj2 (Z.ltb_ge _ _)) by lia. unfold bio_register_device, bdev_inc_ref, bio_initialize_bdev. cbn.
  rewrite lookup_insert_eq. cbn. by rewrite insert_insert_eq.
Qed.

Lemma publish_fits n r hs id device sub st len d b par :
  reg_inv n r hs -> devices r !! id = None -> listed r device d b par -> u32 (st + len) <= b -> sub <> device ->
  ∃ r', publish_subdevice id device sub st len r = Some (r', 0) ∧ reg_inv (S n) r' hs ∧
    listed r' sub id len (Some d) ∧
    (∀ x, devices r !! x = None -> x <> id -> devices r' !! x = None) ∧
    (∀ name x l p, name <> sub -> listed r name x l p -> listed r' name x l p).
Proof.
  intros HI Hfr [Hf (e & He & Hb & Hp)] Hfits Hne. subst b.
  destruct (publish_inv n r hs id device sub st len HI Hfr) as (r' & rc & Hpub & Hr).
  rewrite (publish_eq n r hs id device sub st len d e) in * by done. injection Hpub as <- <-.
  eexists. split; [done|].
  destruct Hr as [[_ HI']|[? _]]; [|done]. split; [exact HI'|]. cbn in HI'.
  assert (Hbid : ∀ x, x ∈ bdevs r -> x <> id).
  { intros x Hx ->. destruct HI as ((_ & Hl) & _). destruct (Hl id) as [? ?]; [unfold refs_of; set_solver|]. congruence. }
  split_and!.
  - split; [|eexists; cbn; rewrite lookup_insert_eq; eauto]. cbn. unfold first_named. rewrite filter_cons.
    rewrite lookup_insert_eq. by rewrite decide_True.
  - intros x Hx Hxid. cbn. rewrite !lookup_insert_ne by (congruence || intros ->; congruence). done.
  - intros name x l p Hnn [Hfx (ex & Hex & Hlx & Hpx)]. split.
    + cbn. unfold first_named. rewrite filter_cons, lookup_insert_eq, decide_False by (cbn; congruence).
      change (first_named name (bdevs r) (<[id := Device sub 1 len (Some d)]>
        (<[d := set_ref (dref e + 1) e]> (devices r))) = Some x). rewrite <- Hfx. apply first_named_ext.
      intros y Hy. rewrite lookup_insert_ne by (intros ->; by apply (Hbid y)).
      destruct (decide (y = d)) as [->|]; [by rewrite lookup_insert_eq, He | by rewrite lookup_insert_ne].
    + cbn. apply first_named_elem in Hfx as [Hx _]. rewrite lookup_insert_ne by (intros ->; by apply (Hbid x)).
      destruct (decide (x = d)) as [->|]; [rewrite lookup_insert_eq | rewrite lookup_insert_ne by done; eauto].
      simplify_eq. eexists. split; [done|]. done.
Qed.

Definition valid (b : Z) (part : mbr_part) : Prop := validate_mbr_partition b part = 0.
#[export] Instance valid_dec b part : Decision (valid b part) := decide (validate_mbr_partition b part = 0).

Lemma validate_cases b part :
  (valid b part ∧ u32 (lba_start part + lba_length part) <= b) ∨ validate_mbr_partition b part = -1.
Proof.
  unfold valid, validate_mbr_partition. repeat (case_match; [by right|]).
  destruct (Z.ltb_spec b (u32 (lba_start part + lba_length part))); [by right | by left].
Qed.

Lemma publish_loop_ok ids device d b par hs parts :
  zlen device + 4 <= 128 -> (∀ i j, (i < 4)%nat -> (j < 4)%nat -> ids i = ids j -> i = j) ->
  ∀ i n r err count,
  reg_inv n r hs -> listed r device d b par -> (i + length parts <= 4)%nat -> 0 <= err ->
  (∀ j, (i <= j < 4)%nat -> devices r !! ids j = None) ->
  ∃ r' err', publish_loop ids device d parts i err count r =
      Some (r', err', count + zlen (filter (valid b) parts)) ∧ 0 <= err' ∧
    reg_inv (n + length (filter (valid b) parts)) r' hs ∧
    (∀ j p, parts !! j = Some p -> valid b p ->
       listed r' (device ++ suffix (i + j)) (ids (i + j)%nat) (lba_length p) (Some d)) ∧
    (∀ name x l q, (∀ j, (i <= j < 4)%nat -> name <> device ++ suffix j) ->
       listed r name x l q -> listed r' name x l q).
Proof.
  intros Hdev Hinj. induction parts as [|part parts IH]; intros i n r err count HI Hl Hlen He Hfr; cbn [publish_loop].
  { exists r, err. rewrite Z.add_0_r, Nat.add_0_r. split_and!; done. }
  cbn [length] in Hlen. pose proof Hl as [_ (e & Hde & Hb & _)]. rewrite Hde. cbn [mbind option_bind]. rewrite Hb.
  rewrite filter_cons. destruct (validate_cases b part) as [[Hv Hfits]|Hinv].
  - rewrite decide_True by done. unfold valid in Hv. rewrite Hv. change (0 <=? 0) with true. cbv iota.
    rewrite part_name_eq by lia. cbn [mbind option_bind].
    destruct (publish_fits n r hs (ids i) device (device ++ suffix i) (lba_start part) (lba_length part) d b par)
      as (r1 & -> & HI1 & Hnew & Hfr1 & Hkeep); [done | apply Hfr; lia | done | done | apply name_not_device |].
    cbn [mbind option_bind]. change (0 <? 0) with false. cbv iota.
    assert (Hsuf : ∀ j, (i < j < 4)%nat -> device ++ suffix i <> device ++ suffix j).
    { intros j Hj E. apply app_inv_head in E. apply suffix_inj in E; lia. }
    destruct (IH (S i) (S n) r1 0 (count + 1)) as (r' & err' & -> & He' & HI' & Hall & Hk'); [done | | lia | lia | |].
    { apply Hkeep; [|done]. intros E. by apply (name_not_device device i). }
    { intros j Hj. apply Hfr1; [apply Hfr; lia|]. intros E. apply Hinj in E; lia. }
    exists r', err'. cbn [length]. rewrite Nat.add_succ_r.
    split_and!; [do 2 f_equal; unfold zlen; cbn [length]; lia | done | done | |].
    + intros [|j] p Hj Hvp; cbn in Hj; simplify_eq.
      * rewrite Nat.add_0_r. apply Hk'; [|done]. intros j Hj. apply Hsuf. lia.
      * replace (i + S j)%nat with (S i + j)%nat by lia. by apply Hall.
    + intros name x l q Hn Hx. apply Hk'; [intros; apply Hn; lia|]. apply Hkeep; [apply Hn; lia | done].
  - rewrite decide_False by (unfold valid; lia). rewrite Hinv. change (0 <=? -1) with false. cbv iota.
    destruct (IH (S i) n r err count) as (r' & err' & -> & He' & HI' & Hall & Hk'); [done | done | lia | done | |].
    { intros j Hj. apply Hfr. lia. }
    exists r', err'. split_and!; [done | done | done | |].
    + intros [|j] p Hj Hvp; cbn in Hj; simplify_eq; [unfold valid in Hvp; lia|].
      replace (i + S j)%nat with (S i + j)%nat by lia. by apply Hall.
    + intros name x l q Hn Hx. apply Hk'; [intros; apply Hn; lia | done].
Qed.

(** The valid entries of the table in a buffer, none without the tag. *)
Definition tagged (buf : list Z) : bool :=
  bool_decide (buf !! 510%nat = Some 0x55) && bool_decide (buf !! 511%nat = Some 0xaa).
Definition entries (buf : list Z) : list mbr_part := if tagged buf then mbr_table buf else [].

Lemma entries_length buf : (length (entries buf) <= 4)%nat.
Proof. unfold entries. case_match; cbn; lia. Qed.

Section PublishOk.
Context {D : Type} `{!BlockHooks D} `{!ByteHooks D}.
Variable data : nat -> D.

(** What [partition_publish] starts with: the old partitions go, the device stays and is opened. *)
Lemma publish_starts n fuel device r hs d b par :
  reg_inv n r hs -> (n <= fuel)%nat -> zlen device + 4 <= 512 -> listed r device d b par ->
  ∃ r1 k r2, partition_unpublish fuel device r = Some (r1, k) ∧ bio_open device r1 = Some (r2, Some d) ∧
    reg_inv n r2 (d :: hs) ∧ listed r2 device d b par ∧ shrinks (devices r) (devices r2).
Proof.
  intros HI Hf Hd Hl.
  destruct (unpublish_loop_ok n fuel device (seq 0 16) 0 r hs HI Hf Hd) as (r1 & k & Hun & HI1 & Hs1 & Hn1).
  { intros i Hi%elem_of_seq. lia. }
  assert (Hl1 : listed r1 device d b par).
  { apply (listed_keep n r r1 hs); [done | done | | done]. apply Hn1. intros i _ E. by apply (name_not_device device i). }
  destruct (listed_open _ _ _ _ _ _ _ HI1 Hl1) as [r2 Hop].
  destruct (open_inv n r1 hs device HI1) as (r2' & o & Hop' & Hb & Ho). rewrite Hop in Hop'. simplify_eq.
  destruct Ho as (HI2 & _). assert (Hs2 : shrinks (devices r1) (devices r2')).
  { unfold bio_open in Hop. rewrite (reg_find n r1 hs) in Hop by done. cbn in Hop. case_match; [|done].
    destruct (bdev_inc_ref _ r1) eqn:Hi; [|done]. cbn in Hop. simplify_eq. by apply inc_ref_shrinks in Hi as [_ ?]. }
  exists r1, k, r2'. split_and!; [done | done | done | | by etrans].
  apply (listed_keep n r1 r2' (d :: hs)); [done | done | | done].
  rewrite (first_named_shrinks n r2' (d :: hs) (devices r1)) by done. by rewrite Hb.
Qed.

Lemma shrinks_fresh m m' x : shrinks m m' -> m !! x = None -> m' !! x = None.
Proof. intros Hs Hx. destruct (m' !! x) as [d|] eqn:E; [|done]. destruct (Hs _ _ E) as (? & ? & _). congruence. Qed.

(** [partition_publish] on a device whose first block could be read: the entries of
    the table that validate, and only these, are published under the names "<device>p0"
    to "<device>p3", as many as the result says, each opening to a subdevice of the
    device with the length of its entry; no assertion fails, no device is lost, and
    every reference taken on the way is given back. *)
Theorem partition_publish_ok n fuel ids stack device offset r hs d b par err buf :
  reg_inv n r hs -> (n + 4 <= fuel)%nat -> zlen device + 4 <= 128 -> listed r device d b par ->
  (∀ i j, (i < 4)%nat -> (j < 4)%nat -> ids i = ids j -> i = j) ->
  (∀ i, (i < 4)%nat -> devices r !! ids i = None) ->
  bio_read (data d) stack offset 512 = (err, buf) -> 0 <= err -> 512 <= zlen buf ->
  ∃ r', partition_publish data fuel ids stack device offset r = Some (r', zlen (filter (valid b) (entries buf))) ∧
    reg_inv (n + length (filter (valid b) (entries buf))) r' hs ∧ listed r' device d b par ∧
    ∀ i p, entries buf !! i = Some p -> valid b p ->
      listed r' (device ++ suffix i) (ids i) (lba_length p) (Some d) ∧
      ∃ r2, bio_open (device ++ suffix i) r' = Some (r2, Some (ids i)).
Proof.
  intros HI Hf Hd Hl Hinj Hfr Hread Herr Hbuf. unfold partition_publish.
  destruct (publish_starts n fuel device r hs d b par HI) as (r1 & k & r2 & -> & Hop & HI2 & Hl2 & Hs2); [lia | lia | done |].
  cbn [mbind option_bind]. rewrite Hop. cbn [mbind option_bind]. rewrite Hread. cbv beta iota.
  rewrite (proj2 (Z.ltb_ge err 0)) by done.
  destruct (lookup_lt_is_Some_2 buf 510) as [t0 Ht0]; [unfold zlen in Hbuf; lia|].
  destruct (lookup_lt_is_Some_2 buf 511) as [t1 Ht1]; [unfold zlen in Hbuf; lia|].
  unfold bytes. rewrite Ht0, Ht1. cbn [mbind option_bind].
  destruct (publish_loop_ok ids device d b par (d :: hs) (entries buf) Hd Hinj 0 n r2 err 0)
    as (r3 & err3 & Hloop & He3 & HI3 & Hall & Hk3); [done | done | | done | |].
  { pose proof (entries_length buf). lia. }
  { intros j Hj. apply (shrinks_fresh _ _ _ Hs2). apply Hfr. lia. }
  assert (Erun : (if negb (t0 =? 0x55) || negb (t1 =? 0xaa) then Some (r2, err, 0)
                  else publish_loop ids device d (mbr_table buf) 0 err 0 r2) =
                 Some (r3, err3, zlen (filter (valid b) (entries buf)))).
  { rewrite Z.add_0_l in Hloop. rewrite <- Hloop. unfold entries, tagged. rewrite Ht0, Ht1.
    destruct (Z.eqb_spec t0 0x55), (Z.eqb_spec t1 0xaa); subst; cbn [negb orb].
    all: repeat first [rewrite (bool_decide_true (Some _ = Some _)) by congruence
                      |rewrite (bool_decide_false (Some _ = Some _)) by congruence]; done. }
  rewrite Erun. cbn [mbind option_bind].
  set (cn := length (filter (valid b) (entries buf))) in *.
  assert (Hcn : (cn <= 4)%nat).
  { pose proof (length_filter (valid b) (entries buf)). pose proof (entries_length buf). subst cn. lia. }
  destruct (close_inv (n + cn) fuel r3 [] d hs HI3) as (r4 & Hcl & HI4); [lia|]. rewrite Hcl. cbn [mbind option_bind].
  rewrite (proj2 (Z.ltb_ge _ _)) by done. exists r4. split; [done|]. split; [done|].
  apply dec_ref_shrinks in Hcl as [Hb4 Hs4].
  assert (Hkeep : ∀ name x l q, listed r3 name x l q -> listed r4 name x l q).
  { intros name x l q. apply (listed_keep (n + cn) r3 r4 hs); [done | done |].
    rewrite (first_named_shrinks (n + cn) r4 hs (devices r3)) by done. by rewrite Hb4. }
  split; [apply Hkeep, Hk3; [|done]; intros j _ E; by apply (name_not_device device j)|].
  intros i p Hi Hv. assert (Hp := Hkeep _ _ _ _ (Hall i p Hi Hv)). split; [done|].
  by apply (listed_open (n + cn) r4 hs _ _ _ _ HI4 Hp).
Qed.

(** When the read fails the device stays open: its reference is not given back. *)
Theorem partition_publish_leaks n fuel ids stack device offset r hs d b par err buf :
  reg_inv n r hs -> (n <= fuel)%nat -> zlen device + 4 <= 512 -> listed r device d b par ->
  bio_read (data d) stack offset 512 = (err, buf) -> err < 0 ->
  ∃ r', partition_publish data fuel ids stack device offset r = Some (r', err) ∧ reg_inv n r' (d :: hs).
Proof.
  intros HI Hf Hd Hl Hread Herr. unfold partition_publish.
  destruct (publish_starts n fuel device r hs d b par HI) as (r1 & k & r2 & -> & Hop & HI2 & _); [lia | lia | done |].
  cbn [mbind option_bind]. rewrite Hop. cbn [mbind option_bind]. rewrite Hread. cbv beta iota.
  rewrite (proj2 (Z.ltb_lt err 0)) by done.
  eauto.
Qed.
End PublishOk.

(** The end of a range is computed in 32 bits, so an entry that runs far past the
    device validates. *)
Lemma validate_wraps s e :
  validate_mbr_partition 100 (MbrPart 0 s 0x83 e 50 (2 ^ 32 - 1)) = 0.
Proof. reflexivity. Qed.

(** A memory device of 8 blocks with a table of one valid entry: 4 blocks from block 1. *)
Definition disk : list Z :=
  replicate 446 0 ++ [0x80; 0; 0; 0; 0x83; 0; 0; 0; 1; 0; 0; 0; 4; 0; 0; 0] ++ replicate 48 0 ++ [0x55; 0xaa] ++
  replicate 3584 0.
Definition disk_data (_ : nat) : mem_bdev := MemBdev 8 disk.

Lemma partition_publish_ok_witness :
  ∃ r', partition_publish disk_data 6 (λ i, (20 + i)%nat) (replicate 512 0) [109] 0 reg1 = Some (r', 1) ∧
    reg_inv 2 r' [] ∧ listed r' [109; 112; 48] 20 4 (Some 7%nat).
Proof.
  assert (HI : reg_inv 1 reg1 []).
  { apply (rstep_inv 5 (O, bio_init, []) (1%nat, reg1, [])
      (step_membdev 5 0 bio_init [] 7%nat [109] 4096 reg1 eq_refl eq_refl) reg_inv_init). cbn. lia. }
  destruct (partition_publish_ok disk_data 1 6 (λ i, (20 + i)%nat) (replicate 512 0) [109] 0 reg1 [] 7 8 None
    512 (take 512 disk) HI) as (r' & Hrun & HI' & _ & Hall).
  - lia.
  - vm_compute. done.
  - split; [vm_compute; reflexivity|]. eexists. split; [vm_compute; reflexivity|]. done.
  - intros; lia.
  - intros i Hi. do 4 (destruct i as [|i]; [reflexivity|]). lia.
  - vm_compute. reflexivity.
  - lia.
  - vm_compute. done.
  - assert (Ec : length (filter (valid 8) (entries (take 512 disk))) = 1%nat) by (vm_compute; reflexivity).
    unfold zlen in Hrun. rewrite Ec in Hrun, HI'. exists r'. split; [exact Hrun|]. split; [exact HI'|].
    apply (Hall O (mbr_part_at (take 512 disk) 446)); [vm_compute; reflexivity | vm_compute; reflexivity].
Defined.
