(* ===== verification/Ptable.v ===== *)
(** * The flash partition table ([lib/ptable/ptable.c], [include/lib/ptable.h])

    An array of 32 entries filled from the front.  A name is kept in 16 bytes; the model
    has the string these hold, which [strlcpy] cuts to 15 characters.  [None] is a failed
    [ASSERT]; the entry a call returns is given by its index in the array. *)
From stdpp Require Import base list.
From Stdlib Require Import ZArith Lia.
From S2P Require Import Prelude.
#[local] Open Scope Z_scope.

Definition MAX_PTENTRY_NAME : Z := 16.
Definition MAX_PTABLE_PARTS : Z := 32.

Record ptentry := Ptentry {
  pt_name : list Z; pt_start : Z; pt_length : Z; pt_flags : Z; pt_type : Z; pt_perm : Z }.
Record ptable := Ptable { parts : list ptentry; count : Z }.

Definition zero_entry : ptentry := Ptentry [] 0 0 0 0 0.
Definition ptable_init : ptable := Ptable (replicate (Z.to_nat MAX_PTABLE_PARTS) zero_entry) 0.

(** [strlcpy(ptn->name, name, MAX_PTENTRY_NAME)]. *)
Definition entry_name (name : list Z) : list Z := take (Z.to_nat (MAX_PTENTRY_NAME - 1)) name.

Definition ptable_add (name : list Z) (start len flags type perm : Z) (t : ptable) : option ptable :=
  if negb (count t <? MAX_PTABLE_PARTS) then None else
  Some (Ptable (<[Z.to_nat (count t) := Ptentry (entry_name name) (u32 start) (u32 len) (u32 flags) type perm]>
                  (parts t)) (count t + 1)).

(** The loop of [ptable_find], [n] entries from index [i] on. *)
Fixpoint find_loop (n : nat) (i : nat) (name : list Z) (l : list ptentry) : option nat :=
  match n with
  | O => None
  | S n => match l !! i with
           | Some e => if bool_decide (pt_name e = name) then Some i else find_loop n (S i) name l
           | None => None
           end
  end.
Definition ptable_find (name : list Z) (t : ptable) : option nat :=
  find_loop (Z.to_nat (count t)) 0 name (parts t).

(** The index of the entry pointed to, which is not checked against 0. *)
Definition ptable_get (n : Z) (t : ptable) : option Z := if count t <=? n then None else Some n.
Definition ptable_size (t : ptable) : Z := count t.

(** ** The table as a list *)
Definition ptable_ok (t : ptable) : Prop :=
  0 <= count t <= MAX_PTABLE_PARTS ∧ zlen (parts t) = MAX_PTABLE_PARTS.
Definition added (t : ptable) : list ptentry := take (Z.to_nat (count t)) (parts t).

Lemma ptable_init_ok : ptable_ok ptable_init ∧ added ptable_init = [].
Proof. split; [|done]. split; [done|]. reflexivity. Qed.

Lemma ptable_add_ok name start len flags type perm t :
  ptable_ok t ->
  ptable_add name start len flags type perm t = None ∧ count t = MAX_PTABLE_PARTS ∨
  ∃ t', ptable_add name start len flags type perm t = Some t' ∧ ptable_ok t' ∧ count t' = count t + 1 ∧
    added t' = added t ++ [Ptentry (entry_name name) (u32 start) (u32 len) (u32 flags) type perm].
Proof.
  intros [Hc Hl]. unfold ptable_add. destruct (Z.ltb_spec (count t) MAX_PTABLE_PARTS); cbn [negb]; [|left; split; [done | lia]].
  right. eexists. split; [done|]. unfold ptable_ok, added, zlen in *. cbn. rewrite length_insert.
  split_and!; [lia | lia | done | done |].
  replace (Z.to_nat (count t + 1)) with (S (Z.to_nat (count t))) by lia.
  erewrite take_S_r; [|apply list_lookup_insert_eq; lia]. f_equal. apply take_insert_ge. lia.
Qed.

Lemma find_loop_list n i name l :
  (i + n <= length l)%nat ->
  find_loop n i name l = (λ p, (i + p.1)%nat) <$> list_find (λ e, pt_name e = name) (take n (drop i l)).
Proof.
  revert i; induction n as [|n IH]; intros i Hn; [done|]. cbn [find_loop].
  destruct (lookup_lt_is_Some_2 l i) as [e He]; [lia|]. rewrite He, (drop_S _ _ _ He). cbn [take list_find].
  case_bool_decide as E; [rewrite decide_True by done; cbn; f_equal; lia|]. rewrite decide_False by done.
  rewrite IH by lia. destruct (list_find _ (take n (drop (S i) l))) as [[k x]|]; cbn; [f_equal; lia | done].
Qed.

(** The table is a list of at most 32 entries.  [ptable_add] appends to it, and
    asserts when it is full; [ptable_find] gives the first entry with the name, or none
    when there is none; [ptable_get] gives the entry at an index below the size.  Names
    are cut to 15 characters when they are added, and only then. *)
Theorem ptable_is_list t :
  ptable_ok t ->
  (∀ name start len flags type perm,
     ptable_add name start len flags type perm t = None ∧ ptable_size t = MAX_PTABLE_PARTS ∨
     ∃ t', ptable_add name start len flags type perm t = Some t' ∧ ptable_ok t' ∧
       added t' = added t ++ [Ptentry (take 15 name) (u32 start) (u32 len) (u32 flags) type perm]) ∧
  (∀ name, ptable_find name t = fst <$> list_find (λ e, pt_name e = name) (added t)) ∧
  (∀ n, 0 <= n -> match ptable_get n t with
                  | Some i => i = n ∧ parts t !! Z.to_nat i = added t !! Z.to_nat n ∧ is_Some (added t !! Z.to_nat n)
                  | None => added t !! Z.to_nat n = None
                  end) ∧
  ptable_size t = zlen (added t).
Proof.
  intros Hok. pose proof Hok as [Hc Hl]. assert (Hlen : zlen (added t) = count t).
  { unfold added, zlen in *. rewrite length_take. lia. }
  split_and!.
  - intros. destruct (ptable_add_ok name start len flags type perm t Hok) as [?|(t' & ? & ? & _ & ?)]; [by left|].
    right. by exists t'.
  - intros name. unfold ptable_find. rewrite find_loop_list by (unfold zlen in *; lia). rewrite drop_0.
    unfold added. by destruct (list_find _ _) as [[? ?]|].
  - intros n Hn. unfold ptable_get. unfold zlen in Hlen. destruct (Z.leb_spec (count t) n).
    + apply lookup_ge_None. lia.
    + split; [done|]. unfold added at 1. rewrite lookup_take_lt by lia. split; [done|].
      apply lookup_lt_is_Some. lia.
  - done.
Qed.

Definition pt1 : ptable := default ptable_init (ptable_add [98; 111; 111; 116] 10 20 0 0 1 ptable_init).
Lemma ptable_is_list_witness :
  ptable_find [98; 111; 111; 116] pt1 = fst <$> list_find (λ e, pt_name e = [98; 111; 111; 116]) (added pt1) ∧
  ptable_find [98; 111; 111; 116] pt1 = Some O.
Proof.
  destruct (ptable_is_list pt1) as (_ & Hfind & _); [split; [vm_compute; done | reflexivity]|].
  split; [apply Hfind | reflexivity].
Defined.

(** A name of 16 characters is not found under that name, and a negative index is not refused. *)
Lemma long_name_lost :
  ∃ t, ptable_add (replicate 16 97) 0 1 0 0 0 ptable_init = Some t ∧ ptable_find (replicate 16 97) t = None.
Proof. eexists. split; reflexivity. Qed.
Lemma ptable_get_negative : ptable_get (-1) pt1 = Some (-1).
Proof. reflexivity. Qed.
