(* ===== verification/Cbuf.v ===== *)
(** * Circular buffers ([lib/cbuf/cbuf.c], [include/pow2.h])

    A buffer of [2 ^ len_pow2] bytes with two positions, guarded by a critical
    section, and an event that is signalled while there is something to read.
    The event is its [signaled] flag: a blocking read of a buffer whose event is
    not signalled waits ([Waits]), and a failed [DEBUG_ASSERT] is [Asserts].  The
    area [malloc] gives is an argument of [cbuf_initialize].  The loops take fuel
    and are shown to end. *)
From stdpp Require Import base list.
From Stdlib Require Import ZArith Lia.
From S2P Require Import Prelude.
#[local] Open Scope Z_scope.

(** ** Powers of two *)
Definition ispow2 (val : Z) : bool := Z.land (u32 (val - 1)) val =? 0.

(** [__builtin_ctz]: the zero bits below the lowest one. *)
Fixpoint ctz (fuel : nat) (val : Z) : Z :=
  match fuel with
  | O => 0
  | S fuel => if Z.testbit val 0 then 0 else 1 + ctz fuel (Z.shiftr val 1)
  end.
Definition log2 (val : Z) : Z := if negb (ispow2 val) then 0 else ctz 32 val.
Definition valpow2 (valp2 : Z) : Z := u32 (Z.shiftl 1 valp2).
Definition modpow2 (val modp2 : Z) : Z := Z.land val (u32 (u32 (Z.shiftl 1 modp2) - 1)).

(** ** The buffer *)
Record cbuf := Cbuf { head : Z; tail : Z; len_pow2 : Z; buf : list Z; signaled : bool }.

Definition INC_POINTER (c : cbuf) (ptr inc : Z) : Z := modpow2 (u32 (ptr + inc)) (len_pow2 c).

Definition cbuf_initialize (len : Z) (area : list Z) : option cbuf :=
  if negb (0 <? len) then None else
  if negb (ispow2 len) then None else
  Some (Cbuf 0 0 (log2 len) area false).

Definition cbuf_space_avail (c : cbuf) : Z := u32 (head c + valpow2 (len_pow2 c) - tail c - 1).

(** The loop of [cbuf_write]: [pos] bytes of [data] are written. *)
Fixpoint write_loop (fuel : nat) (c : cbuf) (data : list Z) (pos : Z) : option (cbuf * Z) :=
  match fuel with
  | O => None
  | S fuel =>
      let len := zlen data in
      if (pos <? len) && (0 <? cbuf_space_avail c) then
        let write_len :=
          if tail c <=? head c then Z.min (u32 (valpow2 (len_pow2 c) - head c)) (len - pos)
          else Z.min (u32 (tail c - head c - 1)) (len - pos) in
        if write_len =? 0 then Some (c, pos) else
        let b := overlay (head c) (slice pos write_len data) (buf c) in
        write_loop fuel
          (Cbuf (INC_POINTER c (head c) write_len) (tail c) (len_pow2 c) b (signaled c))
          data (pos + write_len)
      else Some (c, pos)
  end.

(** [cbuf_write]: outer [None] is a failed assertion or no fuel. *)
Definition cbuf_write (fuel : nat) (c : cbuf) (data : list Z) : option (cbuf * Z) :=
  if negb (zlen data <? valpow2 (len_pow2 c)) then None else
  '(c, pos) ← write_loop fuel c data 0;
  let s := if negb (head c =? tail c) then true else signaled c in
  Some (Cbuf (head c) (tail c) (len_pow2 c) (buf c) s, pos).

(** The loop of [cbuf_read]; [out] is what was copied so far, [pos] bytes. *)
Fixpoint read_loop (fuel : nat) (c : cbuf) (buflen : Z) (out : list Z) : option (cbuf * list Z) :=
  match fuel with
  | O => None
  | S fuel =>
      let pos := zlen out in
      if (pos <? buflen) && negb (tail c =? head c) then
        let read_len :=
          if tail c <? head c then Z.min (u32 (head c - tail c)) (buflen - pos)
          else Z.min (u32 (valpow2 (len_pow2 c) - tail c)) (buflen - pos) in
        read_loop fuel
          (Cbuf (head c) (INC_POINTER c (tail c) read_len) (len_pow2 c) (buf c) (signaled c))
          buflen (out ++ slice (tail c) read_len (buf c))
      else Some (c, out)
  end.

Inductive read_result :=
| Waits
| Asserts
| Reads (c : cbuf) (out : list Z).

Definition cbuf_read (fuel : nat) (c : cbuf) (buflen : Z) (block : bool) : option read_result :=
  if block && negb (signaled c) then Some Waits else
  if negb (tail c =? head c) then
    '(c, out) ← read_loop fuel c buflen [];
    let s := if tail c =? head c then false else signaled c in
    Some (Reads (Cbuf (head c) (tail c) (len_pow2 c) (buf c) s) out)
  else if block then Some Asserts else Some (Reads c []).

(** ** The queue a buffer stands for *)
Definition csize (c : cbuf) : Z := 2 ^ len_pow2 c.
Definition cwf (c : cbuf) : Prop :=
  0 <= len_pow2 c <= 30 ∧ 0 <= head c < csize c ∧ 0 <= tail c < csize c ∧ zlen (buf c) = csize c.
(** The bytes between the positions, from [tail], around the end. *)
Definition contents (c : cbuf) : list Z :=
  if tail c <=? head c then slice (tail c) (head c - tail c) (buf c)
  else slice (tail c) (csize c - tail c) (buf c) ++ slice 0 (head c) (buf c).
(** The bytes that still fit: one place is kept free. *)
Definition room (c : cbuf) : Z := csize c - 1 - zlen (contents c).
(** The event tells whether there is something to read. *)
Definition event_ok (c : cbuf) : Prop := signaled c = true <-> head c <> tail c.

Lemma csize_bounds c : cwf c -> 1 <= csize c <= 2 ^ 30.
Proof.
  intros (Hk & _). unfold csize. split; [|apply Z.pow_le_mono_r; lia].
  pose proof (Z.pow_pos_nonneg 2 (len_pow2 c)). lia.
Qed.

Lemma valpow2_csize c : cwf c -> valpow2 (len_pow2 c) = csize c.
Proof.
  intros Hwf. pose proof (csize_bounds c Hwf). destruct Hwf as (Hk & _).
  unfold valpow2. rewrite Z.shiftl_1_l. apply u32_small. unfold csize in *. lia.
Qed.

Lemma INC_POINTER_mod c p n :
  cwf c -> 0 <= p -> 0 <= n -> p + n <= csize c ->
  INC_POINTER c p n = if p + n =? csize c then 0 else p + n.
Proof.
  intros Hwf Hp Hn Hs. pose proof (csize_bounds c Hwf). pose proof Hwf as (Hk & _).
  unfold INC_POINTER, modpow2. fold (valpow2 (len_pow2 c)). rewrite valpow2_csize, !u32_small by (done || lia).
  unfold csize in *. replace (2 ^ len_pow2 c - 1) with (Z.ones (len_pow2 c)) by (rewrite Z.ones_equiv; lia).
  rewrite Z.land_ones by lia. destruct (Z.eqb_spec (p + n) (2 ^ len_pow2 c)) as [->|].
  - apply Z_mod_same_full.
  - apply Z.mod_small. lia.
Qed.

Lemma contents_len c :
  cwf c -> zlen (contents c) = if tail c <=? head c then head c - tail c
                               else csize c - tail c + head c.
Proof.
  intros (_ & Hh & Ht & Hb). unfold contents. destruct (Z.leb_spec (tail c) (head c)).
  - rewrite slice_len; lia.
  - rewrite zlen_app, !slice_len; lia.
Qed.

Lemma contents_nil c : cwf c -> head c = tail c <-> contents c = [].
Proof.
  intros Hwf. pose proof (contents_len c Hwf) as Hl. pose proof Hwf as (_ & Hh & Ht & _). split; intros E.
  - apply nil_length_inv. unfold zlen in Hl. rewrite (proj2 (Z.leb_le _ _)) in Hl by lia. lia.
  - rewrite E in Hl. unfold zlen in Hl. cbn in Hl. destruct (Z.leb_spec (tail c) (head c)); lia.
Qed.

(** ** One pass of each loop *)
Definition put (c : cbuf) (chunk : list Z) : cbuf :=
  Cbuf (INC_POINTER c (head c) (zlen chunk)) (tail c) (len_pow2 c)
       (overlay (head c) chunk (buf c)) (signaled c).
Definition skip (c : cbuf) (n : Z) : cbuf :=
  Cbuf (head c) (INC_POINTER c (tail c) n) (len_pow2 c) (buf c) (signaled c).

Lemma put_contents c chunk :
  cwf c -> head c + zlen chunk <= csize c -> zlen chunk <= room c ->
  cwf (put c chunk) ∧ contents (put c chunk) = contents c ++ chunk.
Proof.
  intros Hwf Hs Hr. pose proof (zlen_nonneg chunk). pose proof (csize_bounds c Hwf).
  unfold room in Hr. rewrite contents_len in Hr by done.
  pose proof Hwf as (Hk & Hh & Ht & Hb).
  unfold cwf, contents, put, csize. cbn. rewrite INC_POINTER_mod by (done || lia). fold (csize c).
  rewrite overlay_len by lia.
  destruct (Z.eqb_spec (head c + zlen chunk) (csize c)) as [E|E];
    destruct (Z.leb_spec (tail c) (head c)); (split; [lia|]).
  - rewrite (proj2 (Z.leb_gt _ _)) by lia. rewrite slice_0, app_nil_r.
    replace (csize c - tail c) with (head c - tail c + zlen chunk) by lia.
    rewrite <- slice_app by lia. rewrite Z.add_sub_assoc, Z.add_simpl_l.
    rewrite slice_overlay_other, slice_overlay_same by lia. done.
  - lia.
  - rewrite (proj2 (Z.leb_le _ _)) by lia.
    replace (head c + zlen chunk - tail c) with (head c - tail c + zlen chunk) by lia.
    rewrite <- slice_app by lia. rewrite Z.add_sub_assoc, Z.add_simpl_l.
    rewrite slice_overlay_other, slice_overlay_same by lia. done.
  - rewrite (proj2 (Z.leb_gt _ _)) by lia. rewrite <- (slice_app 0 (head c)) by lia. rewrite Z.add_0_l.
    rewrite !slice_overlay_other, slice_overlay_same by lia. by rewrite app_assoc.
Qed.

Lemma skip_contents c n :
  cwf c -> 0 <= n -> tail c + n <= csize c -> n <= zlen (contents c) ->
  cwf (skip c n) ∧ contents c = slice (tail c) n (buf c) ++ contents (skip c n).
Proof.
  intros Hwf Hn Hs Hr. pose proof (csize_bounds c Hwf). rewrite contents_len in Hr by done.
  pose proof Hwf as (Hk & Hh & Ht & Hb).
  unfold cwf, contents, skip, csize. cbn. rewrite INC_POINTER_mod by (done || lia). fold (csize c).
  destruct (Z.eqb_spec (tail c + n) (csize c)) as [E|E];
    destruct (Z.leb_spec (tail c) (head c)); (split; [lia|]).
  - lia.
  - rewrite (proj2 (Z.leb_le _ _)) by lia. rewrite Z.sub_0_r. by replace (csize c - tail c) with n by lia.
  - rewrite (proj2 (Z.leb_le _ _)) by lia. rewrite slice_app by lia. f_equal. lia.
  - rewrite (proj2 (Z.leb_gt _ _)) by lia. rewrite app_assoc, slice_app by lia. do 2 f_equal. lia.
Qed.

(** The pass of [write_loop] writes what fits up to the end of the area or to [tail]. *)
Definition pass_len (c : cbuf) (len : Z) : Z :=
  if tail c <=? head c then Z.min (csize c - head c) len else Z.min (tail c - head c - 1) len.

Lemma write_loop_step fuel c data pos :
  cwf c -> 0 <= pos < zlen data -> ¬ (head c = 0 ∧ tail c = csize c - 1) ->
  let w := pass_len c (zlen data - pos) in
  write_loop (S fuel) c data pos =
    if w =? 0 then Some (c, pos) else write_loop fuel (put c (slice pos w data)) data (pos + w).
Proof.
  intros Hwf Hpos Hfull. pose proof (csize_bounds c Hwf). pose proof Hwf as (Hk & Hh & Ht & Hb).
  cbn [write_loop]. unfold cbuf_space_avail. rewrite valpow2_csize by done.
  rewrite u32_small by lia. rewrite (proj2 (Z.ltb_lt _ _)) by lia. rewrite (proj2 (Z.ltb_lt _ _)) by lia.
  cbn [andb]. cbn zeta. unfold pass_len.
  destruct (Z.leb_spec (tail c) (head c)); rewrite u32_small by lia; case_match; try done;
    unfold put; rewrite slice_len by lia; done.
Qed.

Lemma write_loop_stop fuel c data pos :
  cwf c -> zlen data <= pos ∨ head c = 0 ∧ tail c = csize c - 1 ->
  write_loop (S fuel) c data pos = Some (c, pos).
Proof.
  intros Hwf Hstop. pose proof (csize_bounds c Hwf). pose proof Hwf as (Hk & Hh & Ht & Hb).
  cbn [write_loop]. unfold cbuf_space_avail. rewrite valpow2_csize by done. rewrite u32_small by lia.
  destruct (Z.ltb_spec pos (zlen data)); [|done]. rewrite (proj2 (Z.ltb_ge _ _)) by lia. done.
Qed.

Lemma pass_len_room c len :
  cwf c -> 0 < len -> tail c <> 0 ∨ len <= room c ->
  0 <= pass_len c len <= len ∧ head c + pass_len c len <= csize c ∧ pass_len c len <= room c ∧
  (pass_len c len = 0 -> room c = 0).
Proof.
  intros Hwf Hl Hr. unfold pass_len, room in *. rewrite contents_len in * by done.
  pose proof Hwf as (Hk & Hh & Ht & Hb). destruct (Z.leb_spec (tail c) (head c)); lia.
Qed.

Lemma room_nonneg c : cwf c -> 0 <= room c.
Proof.
  intros Hwf. unfold room. rewrite contents_len by done. pose proof Hwf as (Hk & Hh & Ht & Hb).
  destruct (Z.leb_spec (tail c) (head c)); lia.
Qed.

(** What a run of [write_loop] does to the queue. *)
Record wrote (c c' : cbuf) (data : list Z) (pos k : Z) : Prop := Wrote {
  wrote_wf : cwf c';
  wrote_same : tail c' = tail c ∧ len_pow2 c' = len_pow2 c ∧ signaled c' = signaled c;
  wrote_range : 0 <= k <= Z.min (zlen data - pos) (room c);
  wrote_contents : contents c' = contents c ++ slice pos k data;
  wrote_all : tail c <> csize c - 1 -> k = Z.min (zlen data - pos) (room c)
}.

Lemma wrote_nothing c data pos :
  cwf c -> 0 <= pos <= zlen data ->
  (tail c <> csize c - 1 -> zlen data = pos ∨ room c = 0) -> wrote c c data pos 0.
Proof.
  intros Hwf Hpos Hall. pose proof (room_nonneg c Hwf).
  split; [done | done | lia | by rewrite slice_0, app_nil_r | lia].
Qed.

Lemma write_loop_wrote fuel c data pos :
  cwf c -> 0 <= pos <= zlen data -> zlen data - pos < Z.of_nat fuel ->
  tail c <> 0 ∨ zlen data - pos <= room c ->
  ∃ c' k, write_loop fuel c data pos = Some (c', pos + k) ∧ wrote c c' data pos k.
Proof.
  revert c pos; induction fuel as [|fuel IH]; intros c pos Hwf Hpos Hf Hr; [lia|].
  destruct (decide (pos = zlen data)) as [E|].
  { rewrite write_loop_stop by (done || lia). exists c, 0. rewrite Z.add_0_r.
    split; [done|]. apply wrote_nothing; [done | lia | by left]. }
  destruct (decide (head c = 0 ∧ tail c = csize c - 1)) as [Hfull|Hfull].
  { rewrite write_loop_stop by (done || lia). exists c, 0. rewrite Z.add_0_r.
    split; [done|]. apply wrote_nothing; [done | lia | lia]. }
  rewrite write_loop_step by (done || lia).
  destruct (pass_len_room c (zlen data - pos) Hwf) as (Hw & Hend & Hroom & Hzero); [lia..|].
  set (w := pass_len c (zlen data - pos)) in *. cbn zeta.
  destruct (Z.eqb_spec w 0) as [E|Hne].
  { exists c, 0. rewrite Z.add_0_r. split; [done|]. apply wrote_nothing; [done | lia |]. intros _. right. auto. }
  assert (Hsl : zlen (slice pos w data) = w) by (apply slice_len; lia).
  destruct (put_contents c (slice pos w data)) as [Hwf' Hc']; [done | lia | lia |].
  set (c1 := put c (slice pos w data)) in *.
  assert (Hroom1 : room c1 = room c - w) by (unfold room; rewrite Hc', zlen_app, Hsl; unfold csize; cbn; lia).
  destruct (IH c1 (pos + w)) as (c' & k & Hrun & [Hwfk (Ht & Hp & Hsg) Hk Hck Hall]); [done | lia | lia | |].
  { cbn. lia. }
  exists c', (w + k). rewrite Hrun. split; [do 2 f_equal; lia|].
  split; [done | by cbn in * | lia | | ].
  - rewrite Hck, Hc', <- app_assoc, slice_app by lia. done.
  - intros Htl. cbn in Hall. unfold csize in *. cbn in Hall. specialize (Hall Htl). lia.
Qed.

(** What a run of [read_loop] does. *)
Lemma read_loop_reads fuel c buflen out :
  cwf c -> zlen out <= buflen -> buflen - zlen out < Z.of_nat fuel ->
  ∃ c' n, read_loop fuel c buflen out = Some (c', out ++ n) ∧ cwf c' ∧
          contents c = n ++ contents c' ∧ zlen n = Z.min (buflen - zlen out) (zlen (contents c)) ∧
          signaled c' = signaled c ∧ head c' = head c ∧ len_pow2 c' = len_pow2 c.
Proof.
  revert c out; induction fuel as [|fuel IH]; intros c out Hwf Hout Hf; [lia|].
  pose proof (csize_bounds c Hwf) as Hcs. pose proof Hwf as (Hk & Hh & Ht & Hb).
  pose proof (contents_len c Hwf) as Hlen. pose proof (zlen_nonneg out) as Ho.
  cbn [read_loop]. rewrite valpow2_csize by done.
  destruct (Z.ltb_spec (zlen out) buflen) as [Hlt|Hge]; cbn [andb].
  2:{ exists c, []. rewrite app_nil_r. pose proof (zlen_nonneg (contents c)).
      split_and!; try done. change (zlen (@nil Z)) with 0. lia. }
  destruct (Z.eqb_spec (tail c) (head c)) as [E|E]; cbn [negb].
  { exists c, []. rewrite app_nil_r. rewrite (proj2 (Z.leb_le _ _)) in Hlen by lia.
    split_and!; try done. change (zlen (@nil Z)) with 0. lia. }
  set (r := if tail c <? head c then _ else _).
  assert (Hr : 0 < r ∧ r <= buflen - zlen out ∧ r <= zlen (contents c) ∧ tail c + r <= csize c ∧
               (r < buflen - zlen out -> r < zlen (contents c) -> head c < tail c)).
  { subst r. rewrite Hlen. destruct (Z.ltb_spec (tail c) (head c)), (Z.leb_spec (tail c) (head c));
      rewrite u32_small; lia. }
  clearbody r. destruct (skip_contents c r) as [Hwf' Hc']; [done | lia.. |].
  assert (Hsl : zlen (slice (tail c) r (buf c)) = r) by (apply slice_len; lia).
  fold (skip c r).
  destruct (IH (skip c r) (out ++ slice (tail c) r (buf c))) as (c' & n & Hrun & Hwfn & Hcn & Hzn & Hrest);
    [done | rewrite zlen_app; lia.. |].
  exists c', (slice (tail c) r (buf c) ++ n). rewrite Hrun, app_assoc. split; [done|]. split; [done|].
  split; [by rewrite Hc', Hcn, app_assoc|]. split; [|exact Hrest].
  assert (Htot : zlen (contents c) = r + zlen (contents (skip c r))) by (rewrite Hc', zlen_app, Hsl; done).
  rewrite zlen_app in *. lia.
Qed.

(** ** Properties *)

Lemma ispow2_log2 v : 0 < v < 2 ^ 32 -> ispow2 v = true -> v = 2 ^ Z.log2 v.
Proof.
  intros Hv Hp. apply Z.eqb_eq in Hp. rewrite u32_small in Hp by lia.
  pose proof (Z.log2_spec v) as Hs. pose proof (Z.log2_nonneg v) as Hk. set (k := Z.log2 v) in *.
  destruct (decide (v = 2 ^ k)) as [|Hne]; [done|]. exfalso.
  assert (Hl : Z.log2 (v - 1) = k) by (apply Z.log2_unique; lia).
  assert (Z.testbit (Z.land (v - 1) v) k = true) as Hbit; [|by rewrite Hp, Z.bits_0 in Hbit].
  rewrite Z.land_spec. rewrite <- Hl at 1. rewrite Z.bit_log2 by lia. subst k. rewrite Z.bit_log2 by lia. done.
Qed.

Lemma ctz_pow2 n k : 0 <= k < Z.of_nat n -> ctz n (2 ^ k) = k.
Proof.
  revert k; induction n as [|n IH]; intros k Hk; [lia|]. cbn [ctz].
  destruct (decide (k = 0)) as [->|]; [done|].
  rewrite Z.pow2_bits_false by lia. rewrite Z.shiftr_div_pow2, <- Z.pow_sub_r by lia. rewrite IH; lia.
Qed.

Lemma log2_spec v : 0 < v < 2 ^ 32 -> ispow2 v = true -> 2 ^ log2 v = v ∧ 0 <= log2 v.
Proof.
  intros Hv Hp. unfold log2. rewrite Hp. cbn [negb]. pose proof (ispow2_log2 v Hv Hp) as E.
  pose proof (Z.log2_nonneg v). assert (Z.log2 v < 32) by (apply Z.log2_lt_pow2; lia).
  assert (ctz 32 v = Z.log2 v) as -> by (rewrite E at 1; apply ctz_pow2; lia). by rewrite <- E.
Qed.

(** A buffer made by [cbuf_initialize] is an empty queue. *)
Lemma cbuf_initialize_wf len area c :
  cbuf_initialize len area = Some c -> len <= 2 ^ 30 -> zlen area = len ->
  cwf c ∧ contents c = [] ∧ csize c = len ∧ event_ok c.
Proof.
  intros Hi Hl Ha. unfold cbuf_initialize in Hi.
  destruct (Z.ltb_spec 0 len); [|done]. destruct (ispow2 len) eqn:Hp; [|done]. injection Hi as <-.
  destruct (log2_spec len) as [Hlog Hpos]; [lia | done |].
  assert (log2 len <= 30) by (apply (Z.pow_le_mono_r_iff 2); lia).
  unfold cwf, csize, event_ok, contents. cbn. rewrite Hlog.
  split_and!; try lia; try done.
Qed.

(** [cbuf_write] appends to the queue: it ends, the bytes it says it took are a
    prefix of the data that goes to the end of the queue, and it takes all that fits
    (one place is kept free) unless [tail] is the last place, provided the data fits or
    [tail] is not at the start of the area; the event tells that there is data. *)
Theorem cbuf_write_fifo fuel c data :
  cwf c -> event_ok c -> zlen data < csize c -> zlen data < Z.of_nat fuel ->
  tail c <> 0 ∨ zlen data <= room c ->
  ∃ c' k, cbuf_write fuel c data = Some (c', k) ∧ cwf c' ∧ event_ok c' ∧
          contents c' = contents c ++ slice 0 k data ∧
          0 <= k <= Z.min (zlen data) (room c) ∧
          (tail c <> csize c - 1 -> k = Z.min (zlen data) (room c)).
Proof.
  intros Hwf Hev Hlen Hf Hr. pose proof (zlen_nonneg data). unfold cbuf_write.
  rewrite valpow2_csize, (proj2 (Z.ltb_lt _ _)) by done. cbn [negb].
  destruct (write_loop_wrote fuel c data 0) as (c1 & k & -> & [Hwf1 (Ht & Hp & Hs) Hk Hc1 Hall]);
    [done | lia.. |].
  cbn. rewrite Z.sub_0_r in *. eexists _, k. split; [done|]. split; [done|].
  split; [|by split_and!; [| lia.. |]].
  unfold event_ok in *. cbn. destruct (Z.eqb_spec (head c1) (tail c1)) as [E|E]; cbn [negb]; [|by split].
  rewrite Hs, Hev. pose proof E as E0. apply contents_nil in E0; [|done]. rewrite Hc1 in E0.
  apply app_nil in E0 as [E0 _]. apply contents_nil in E0; [|done]. split; congruence.
Qed.

(** A well-formed 8-byte buffer with [tail] [t] and [head] [h]. *)
Definition cbuf8 (t h : Z) : cbuf := Cbuf h t 3 [10; 11; 12; 13; 14; 15; 16; 17] (negb (h =? t)).

Lemma cbuf_write_fifo_witness :
  ∃ c' k, cbuf_write 9 (cbuf8 5 1) [1; 2; 3; 4] = Some (c', k) ∧ cwf c' ∧ event_ok c' ∧
          contents c' = [15; 16; 17; 10] ++ slice 0 k [1; 2; 3; 4] ∧ 0 <= k <= Z.min 4 3 ∧
          (5 <> 8 - 1 -> k = Z.min 4 3).
Proof.
  apply (cbuf_write_fifo 9 (cbuf8 5 1) [1; 2; 3; 4]).
  - by unfold cwf.
  - by unfold event_ok.
  - done.
  - done.
  - by left.
Defined.

(** [cbuf_read] takes from the front of the queue: without waiting it ends and
    gives the first [buflen] bytes, or all there are, and leaves the rest; a blocking
    read waits when the queue is empty and its assertion never fails. *)
Theorem cbuf_read_fifo fuel c buflen block :
  cwf c -> event_ok c -> 0 <= buflen < Z.of_nat fuel ->
  (contents c = [] ∧ block = true ∧ cbuf_read fuel c buflen block = Some Waits) ∨
  (∃ c' out, cbuf_read fuel c buflen block = Some (Reads c' out) ∧ cwf c' ∧ event_ok c' ∧
             contents c = out ++ contents c' ∧ zlen out = Z.min buflen (zlen (contents c))).
Proof.
  intros Hwf Hev Hf. pose proof (contents_nil c Hwf) as Hnil. unfold cbuf_read.
  destruct (Z.eqb_spec (tail c) (head c)) as [E|E]; cbn [negb].
  - symmetry in E. assert (Hs : signaled c = false).
    { destruct (signaled c) eqn:Hs; [|done]. destruct Hev as [Hev _]. by destruct (Hev Hs). }
    pose proof (proj1 Hnil E) as Hc. rewrite Hs. destruct block; [by left|]. right.
    exists c, []. rewrite Hc. split_and!; try done. change (zlen (@nil Z)) with 0. lia.
  - assert (Hs : signaled c = true) by (apply Hev; congruence).
    rewrite Hs, andb_false_r. right.
    destruct (read_loop_reads fuel c buflen []) as (c' & n & -> & Hwf' & Hc & Hz & Hsg & _);
      [done | change (zlen (@nil Z)) with 0; lia.. |].
    cbn. change (zlen (@nil Z)) with 0 in Hz. rewrite Z.sub_0_r in Hz.
    eexists _, n. split; [done|]. split; [done|]. split; [|done].
    unfold event_ok. cbn. rewrite Hsg, Hs. destruct (Z.eqb_spec (tail c') (head c')); split; congruence.
Qed.

Lemma cbuf_read_fifo_witness :
  (contents (cbuf8 5 1) = [] ∧ true = true ∧ cbuf_read 9 (cbuf8 5 1) 3 true = Some Waits) ∨
  (∃ c' out, cbuf_read 9 (cbuf8 5 1) 3 true = Some (Reads c' out) ∧ cwf c' ∧ event_ok c' ∧
             contents (cbuf8 5 1) = out ++ contents c' ∧
             zlen out = Z.min 3 (zlen (contents (cbuf8 5 1)))).
Proof. apply (cbuf_read_fifo 9 (cbuf8 5 1) 3 true); [by unfold cwf | by unfold event_ok | lia]. Defined.

(** With [tail] at the start of the area, a write of more than fits fills the area
    to its end, wraps [head] onto [tail] and goes on from the start: all that was queued
    and the part of the data up to the end are lost, though the write reports everything
    as taken.  When the data just reaches the end, the event stays signalled and the next
    blocking read fails its assertion. *)
Theorem cbuf_write_loses fuel c data :
  cwf c -> event_ok c -> tail c = 0 -> room c < zlen data < csize c -> zlen data < Z.of_nat fuel ->
  let lost := csize c - head c in
  ∃ c', cbuf_write fuel c data = Some (c', zlen data) ∧ contents c <> [] ∧
        contents c' = slice lost (zlen data - lost) data ∧
        (zlen data = lost -> ∀ fuel' buflen, cbuf_read fuel' c' buflen true = Some Asserts).
Proof.
  intros Hwf Hev Ht Hlen Hf lost. pose proof (zlen_nonneg data).
  pose proof (csize_bounds c Hwf) as Hcs. pose proof Hwf as (Hk & Hhr & _ & Hb).
  unfold room in Hlen. rewrite contents_len, (proj2 (Z.leb_le _ _)) in Hlen by (done || lia).
  assert (Hne : head c <> tail c) by lia.
  destruct fuel as [|fuel]; [lia|].
  unfold cbuf_write. rewrite valpow2_csize, (proj2 (Z.ltb_lt _ _)) by (done || lia). cbn [negb].
  rewrite write_loop_step by (done || lia). cbn zeta.
  replace (pass_len c (zlen data - 0)) with lost
    by (unfold pass_len; rewrite (proj2 (Z.leb_le _ _)) by lia; lia).
  rewrite (proj2 (Z.eqb_neq _ _)) by lia.
  assert (Hsl : zlen (slice 0 lost data) = lost) by (apply slice_len; lia).
  set (c1 := put c (slice 0 lost data)).
  assert (Hh1 : head c1 = 0).
  { cbn. rewrite Hsl, INC_POINTER_mod by (done || lia). by rewrite (proj2 (Z.eqb_eq _ _)) by lia. }
  assert (Hwf1 : cwf c1).
  { unfold cwf, csize. rewrite Hh1. cbn. fold (csize c). rewrite overlay_len; lia. }
  assert (Hc1 : contents c1 = []) by (apply contents_nil; [done | cbn in *; lia]).
  assert (Hr1 : room c1 = csize c - 1) by (unfold room; rewrite Hc1; change (zlen (@nil Z)) with 0; unfold csize; cbn; lia).
  destruct (write_loop_wrote fuel c1 data (0 + lost)) as (c2 & k & -> & [Hwf2 (Ht2 & Hp2 & Hs2) Hk2 Hc2 Hall]);
    [done | lia.. |].
  cbn in Ht2, Hs2, Hall. unfold csize in Hall at 1. cbn in Hall. fold (csize c) in Hall.
  assert (Hkk : k = zlen data - lost) by lia. rewrite Hc1 in Hc2. cbn [app] in Hc2.
  cbn. eexists. split; [do 2 f_equal; lia|]. split; [by rewrite <- contents_nil|].
  split; [etrans; [exact Hc2|]; f_equal; lia|].
  intros E fuel' buflen. assert (k = 0) as -> by lia. rewrite slice_0 in Hc2.
  apply contents_nil in Hc2; [|done]. unfold cbuf_read. cbn. rewrite Hc2, Z.eqb_refl. cbn.
  rewrite Hs2. by rewrite (proj2 Hev).
Qed.

Lemma cbuf_write_loses_witness :
  ∃ c', cbuf_write 9 (cbuf8 0 5) [1; 2; 3] = Some (c', 3) ∧ contents (cbuf8 0 5) <> [] ∧
        contents c' = slice 3 (3 - 3) [1; 2; 3] ∧
        (3 = 3 -> ∀ fuel' buflen, cbuf_read fuel' c' buflen true = Some Asserts).
Proof.
  apply (cbuf_write_loses 9 (cbuf8 0 5) [1; 2; 3]); [by unfold cwf | by unfold event_ok | done..].
Defined.
