(* ===== verification/Sparse.v ===== *)
(** * The sparse image writer ([app/mt_boot/sparse_state_machine.c])

    A state machine that takes an Android sparse image in packets and writes it to
    the eMMC.  [emmc_write] and [emmc_read] belong to the platform's storage driver,
    which is not part of the sources: they are the operations of the class [Emmc],
    and the properties state the laws they rely on.  The bytes at a [u8] pointer are a
    list; the two headers are kept as the bytes they are copied from, with accessors
    for the fields; [u32] and [u64] fields wrap.  The packets come from the download
    code ([download_commands.c]), which puts the bytes a call leaves over in front of
    the next packet ([feed]). *)
From stdpp Require Import base gmap list.
From Stdlib Require Import ZArith Lia.
From S2P Require Import Prelude.
#[local] Open Scope Z_scope.

Definition u64 (z : Z) : Z := z mod 2 ^ 64.

(** ** The image format ([sparse_format.h]) *)
Definition sizeof_sparse_header : Z := 28.
Definition sizeof_chunk_header : Z := 12.
Definition CHUNK_TYPE_RAW : Z := 0xCAC1.
Definition CHUNK_TYPE_DONT_CARE : Z := 0xCAC3.

(** Fields of [sparse_header_t] and [chunk_header_t]. *)
Definition blk_sz (sparse_hdr : list Z) : Z := le32 (slice 12 4 sparse_hdr).
Definition chunk_type (chunk_hdr : list Z) : Z := le16 (slice 0 2 chunk_hdr).
Definition chunk_sz (chunk_hdr : list Z) : Z := le32 (slice 4 4 chunk_hdr).

(** ** The state *)
Inductive STATUS_E :=
| S_DONE
| S_DA_SDMMC_WRITE_FAILED
| S_DA_SDMMC_READ_FAILED
| S_DA_SDMMC_SPARSE_INCOMPLETE
| S_DA_SDMMC_CHECKSUM_ERR.
#[export] Instance STATUS_E_eq_dec : EqDecision STATUS_E.
Proof. solve_decision. Defined.

Inductive unsparse_phase :=
| UNSPARSE_WAIT_SPARSE_HEADER
| UNSPARSE_WAIT_CHUNK_HEADER
| UNSPARSE_WAIT_CHUNK_DATA.

Record unsparse_status := Status {
  handle_status : STATUS_E; wait_phase : unsparse_phase; image_base_addr : Z;
  size : Z; buf : list Z; checksum_enabled : bool }.

Record unsparse_data := Data {
  sparse_hdr : list Z; chunk_hdr : list Z; chunk_remain_data_size : Z;
  image_address_offset : Z; unhandle_buf_size : Z; unhandle_buf : list Z }.

Definition SDMMC_BLK_SIZE : Z := 512.

(** The storage driver. *)
Class Emmc (D : Type) := {
  emmc_write : D -> Z -> list Z -> D * Z;
  emmc_read : D -> Z -> Z -> list Z * Z
}.

(** [calc_checksum]: words, then the bytes that are left. *)
Fixpoint sum_words (n : nat) (data : list Z) (chksum : Z) : Z :=
  match n with
  | O => chksum
  | S n => sum_words n (drop 4 data) (u32 (chksum + le32 data))
  end.
Fixpoint sum_bytes (n : nat) (data : list Z) (chksum : Z) : Z :=
  match n with
  | O => chksum
  | S n => sum_bytes n (drop 1 data) (u32 (chksum + byte_at data 0))
  end.
Definition calc_checksum (data : list Z) (length : Z) : Z :=
  let i := Z.land length (Z.lnot 3) in
  let chksum := sum_words (Z.to_nat (i / 4)) data 0 in
  if i <? length then sum_bytes (Z.to_nat (Z.land length 3)) (drop (Z.to_nat i) data) chksum
  else chksum.

Definition mmc_set_unsparse_status (st : unsparse_status) (h : STATUS_E) (ph : unsparse_phase)
    (sz : Z) (b : list Z) : unsparse_status :=
  Status h ph (image_base_addr st) sz b (checksum_enabled st).

Definition mmc_init_unsparse_status (st : unsparse_status) (base : Z) (enable_chk : bool)
  : unsparse_status :=
  let st := mmc_set_unsparse_status st S_DONE UNSPARSE_WAIT_SPARSE_HEADER 0 [] in
  Status (handle_status st) (wait_phase st) base (size st) (buf st) enable_chk.

Section Machine.
Context {D : Type} `{Emmc D}.

(** The caller's status, the engine's data [m_unsparse_data] and the device. *)
Record engine := Engine { status : unsparse_status; udata : unsparse_data; dev : D }.

(** The write of [n] bytes at [b] with its checks, the same for a whole chunk and
    for a part of one: with the checksum enabled the bytes are read back in place. *)
Definition write_and_verify (d : D) (addr : Z) (b : list Z) (n : Z) (chk : bool)
  : STATUS_E * D * list Z :=
  let '(d, size_wrote) := emmc_write d addr (slice 0 n b) in
  if negb (size_wrote =? n) then (S_DA_SDMMC_WRITE_FAILED, d, b) else
  if chk then
    let pre_chksum := calc_checksum b (u32 n) in
    let '(data, got) := emmc_read d addr n in
    let b := overlay 0 data b in
    if negb (n =? got) then (S_DA_SDMMC_READ_FAILED, d, b) else
    let post_chksum := calc_checksum b (u32 n) in
    if negb (post_chksum =? pre_chksum) then (S_DA_SDMMC_CHECKSUM_ERR, d, b) else (S_DONE, d, b)
  else (S_DONE, d, b).

(** [status->handle_status = h; return;], with the memory at [buf] and the device
    as they are by then. *)
Definition fail_with (e : engine) (h : STATUS_E) (u : unsparse_data) (d : D) (b : list Z) : engine :=
  let st := status e in
  Engine (Status h (wait_phase st) (image_base_addr st) (size st) b (checksum_enabled st)) u d.

Definition set_data_pos (u : unsparse_data) (remain off : Z) : unsparse_data :=
  Data (sparse_hdr u) (chunk_hdr u) remain off (unhandle_buf_size u) (unhandle_buf u).

(** [case UNSPARSE_WAIT_SPARSE_HEADER]. *)
Definition wait_sparse_header (e : engine) : engine :=
  let st := status e in
  if sizeof_sparse_header <=? size st then
    let u := Data (slice 0 sizeof_sparse_header (buf st)) (replicate 12 0) 0 0 0 (replicate 12 0) in
    Engine (mmc_set_unsparse_status st S_DONE UNSPARSE_WAIT_CHUNK_HEADER
              (size st - sizeof_sparse_header) (drop 28 (buf st))) u (dev e)
  else e.

(** [case UNSPARSE_WAIT_CHUNK_HEADER]. *)
Definition wait_chunk_header (e : engine) : engine :=
  let st := status e in
  let u := udata e in
  let n := unhandle_buf_size u in
  if sizeof_chunk_header <=? u32 (n + size st) then
    let '(hdr, used) :=
      if 0 <? n then
        let used := u32 (sizeof_chunk_header - n) in
        (overlay n (slice 0 used (buf st)) (overlay 0 (slice 0 n (unhandle_buf u)) (chunk_hdr u)), used)
      else (slice 0 sizeof_chunk_header (buf st), sizeof_chunk_header) in
    let sz := u32 (size st - used) in
    let b := drop (Z.to_nat used) (buf st) in
    let remain := u64 (chunk_sz hdr * blk_sz (sparse_hdr u)) in
    let u := Data (sparse_hdr u) hdr remain (image_address_offset u) 0 (unhandle_buf u) in
    if chunk_type hdr =? CHUNK_TYPE_RAW then
      Engine (mmc_set_unsparse_status st S_DONE UNSPARSE_WAIT_CHUNK_DATA sz b) u (dev e)
    else if chunk_type hdr =? CHUNK_TYPE_DONT_CARE then
      Engine (mmc_set_unsparse_status st S_DONE UNSPARSE_WAIT_CHUNK_HEADER sz b)
        (set_data_pos u 0 (u64 (image_address_offset u + remain))) (dev e)
    else fail_with e S_DA_SDMMC_WRITE_FAILED u (dev e) (buf st)
  else
    let u := Data (sparse_hdr u) (chunk_hdr u) (chunk_remain_data_size u) (image_address_offset u)
                  (size st) (overlay 0 (slice 0 (size st) (buf st)) (unhandle_buf u)) in
    Engine (mmc_set_unsparse_status st S_DONE UNSPARSE_WAIT_CHUNK_HEADER 0 (buf st)) u (dev e).

(** [case UNSPARSE_WAIT_CHUNK_DATA]. *)
Definition wait_chunk_data (e : engine) : engine :=
  let st := status e in
  let u := udata e in
  let remain := chunk_remain_data_size u in
  let addr := u64 (image_base_addr st + image_address_offset u) in
  if remain <=? size st then
    let '(r, d, b) := write_and_verify (dev e) addr (buf st) remain (checksum_enabled st) in
    if decide (r = S_DONE) then
      Engine (mmc_set_unsparse_status st S_DONE UNSPARSE_WAIT_CHUNK_HEADER
                (u32 (size st - remain)) (drop (Z.to_nat remain) b))
             (set_data_pos u 0 (u64 (image_address_offset u + remain))) d
    else fail_with e r u d b
  else
    let unaligned := negb (Z.land (size st) (SDMMC_BLK_SIZE - 1) =? 0) in
    if unaligned && (size st <? SDMMC_BLK_SIZE) then
      Engine (mmc_set_unsparse_status st S_DA_SDMMC_SPARSE_INCOMPLETE UNSPARSE_WAIT_CHUNK_DATA
                (size st) (buf st)) u (dev e)
    else
      let sz := if unaligned then Z.land (size st) (Z.lnot (SDMMC_BLK_SIZE - 1)) else size st in
      let '(r, d, b) := write_and_verify (dev e) addr (buf st) sz (checksum_enabled st) in
      if decide (r = S_DONE) then
        Engine (mmc_set_unsparse_status st S_DONE UNSPARSE_WAIT_CHUNK_DATA
                  (Z.land (size st) (SDMMC_BLK_SIZE - 1)) (drop (Z.to_nat sz) b))
               (set_data_pos u (u64 (remain - sz)) (u64 (image_address_offset u + sz))) d
      else fail_with e r u d b.

Definition mmc_write_sparse_data_internal (e : engine) : engine :=
  if size (status e) =? 0 then e else
  match wait_phase (status e) with
  | UNSPARSE_WAIT_SPARSE_HEADER => wait_sparse_header e
  | UNSPARSE_WAIT_CHUNK_HEADER => wait_chunk_header e
  | UNSPARSE_WAIT_CHUNK_DATA => wait_chunk_data e
  end.

(** The [do ... while] loop; [None] is out of fuel. *)
Fixpoint mmc_write_sparse_data (fuel : nat) (e : engine) : option engine :=
  match fuel with
  | O => None
  | S fuel =>
      let e := mmc_write_sparse_data_internal e in
      if negb (bool_decide (handle_status (status e) = S_DONE)) then Some e else
      if 0 <? size (status e) then mmc_write_sparse_data fuel e else Some e
  end.

(** The sparse branch of [write_to_emmc] for one packet, with what the storage thread
    puts in front of it: the result is the engine and the bytes left over, or an error. *)
Definition feed (fuel : nat) (e : engine) (padding packet : list Z) : option (engine * list Z) :=
  let data := padding ++ packet in
  if zlen data =? 0 then Some (e, padding) else
  let st := status e in
  let e := Engine (Status (handle_status st) (wait_phase st) (image_base_addr st) (zlen data) data
                          (checksum_enabled st)) (udata e) (dev e) in
  e ← mmc_write_sparse_data fuel e;
  match handle_status (status e) with
  | S_DA_SDMMC_SPARSE_INCOMPLETE => Some (e, slice 0 (size (status e)) (buf (status e)))
  | S_DONE => Some (e, [])
  | _ => None
  end.

Fixpoint feed_all (fuel : nat) (e : engine) (padding : list Z) (packets : list (list Z))
  : option (engine * list Z) :=
  match packets with
  | [] => Some (e, padding)
  | p :: packets => '(e, padding) ← feed fuel e padding p; feed_all fuel e padding packets
  end.
End Machine.
Arguments engine : clear implicits.

(** ** What an image means *)

(** What the writer relies on of the storage driver: complete writes, a write that can
    be cut at a multiple of the block size, and reads that give what was written. *)
Class EmmcLaws (D : Type) `{Emmc D} := {
  emmc_write_len d a b : (emmc_write d a b).2 = zlen b;
  emmc_write_nil d a : (emmc_write d a []).1 = d;
  emmc_write_app d a b1 b2 :
    (SDMMC_BLK_SIZE | zlen b1) ->
    (emmc_write d a (b1 ++ b2)).1 = (emmc_write (emmc_write d a b1).1 (a + zlen b1) b2).1;
  emmc_read_back d a b : emmc_read (emmc_write d a b).1 a (zlen b) = (b, zlen b)
}.

(** The chunks of an image, with the bytes of their headers. *)
Inductive image_chunk := Raw (hdr data : list Z) | DontCare (hdr : list Z).
Definition encode_chunk (c : image_chunk) : list Z :=
  match c with Raw hdr data => hdr ++ data | DontCare hdr => hdr end.
Definition encode (cs : list image_chunk) : list Z := concat (encode_chunk <$> cs).
(** The bytes of the output a chunk stands for, with blocks of [blk] bytes. *)
Definition span (blk : Z) (c : image_chunk) : Z :=
  match c with Raw hdr _ => chunk_sz hdr * blk | DontCare hdr => chunk_sz hdr * blk end.
Definition chunk_wf (blk : Z) (c : image_chunk) : Prop :=
  0 <= span blk c ∧
  match c with
  | Raw hdr data => zlen hdr = 12 ∧ chunk_type hdr = CHUNK_TYPE_RAW ∧ zlen data = span blk c
  | DontCare hdr => zlen hdr = 12 ∧ chunk_type hdr = CHUNK_TYPE_DONT_CARE
  end.
Fixpoint total (blk : Z) (cs : list image_chunk) : Z :=
  match cs with [] => 0 | c :: cs => span blk c + total blk cs end.

Section Correct.
Context {D : Type} `{Emmc D} `{!EmmcLaws D}.
Implicit Types e : engine D.

(** The contents the image asks for, from address [addr]. *)
Fixpoint flash (blk : Z) (d : D) (addr : Z) (cs : list image_chunk) : D :=
  match cs with
  | [] => d
  | Raw hdr data :: cs => flash blk (emmc_write d addr data).1 (addr + zlen data) cs
  | DontCare hdr :: cs => flash blk d (addr + chunk_sz hdr * blk) cs
  end.

Lemma total_nonneg blk cs : Forall (chunk_wf blk) cs -> 0 <= total blk cs.
Proof. induction 1 as [|c cs [Hc _] _ IH]; cbn; lia. Qed.

Lemma encode_cons c cs : encode (c :: cs) = encode_chunk c ++ encode cs.
Proof. done. Qed.

(** A stream of well-formed chunks is empty or starts with a header. *)
Lemma encode_split blk cs :
  Forall (chunk_wf blk) cs -> cs = [] ∨ 12 <= zlen (encode cs).
Proof.
  intros [|c cs' Hc Hcs]; [by left|]. right. rewrite encode_cons, zlen_app.
  pose proof (zlen_nonneg (encode cs')). destruct c as [hdr data|hdr]; cbn; rewrite ?zlen_app.
  - pose proof (zlen_nonneg data). destruct Hc as (_ & Hl & _). lia.
  - destruct Hc as (_ & Hl & _). lia.
Qed.

(** The engine at base address [base], offset [off], and the bytes [stream] still to
    come, will leave the device as [fin]. *)
Definition expects (e : engine D) (stream : list Z) (fin : D) : Prop :=
  let st := status e in
  let u := udata e in
  let blk := blk_sz (sparse_hdr u) in
  let addr := image_base_addr st + image_address_offset u in
  match wait_phase st with
  | UNSPARSE_WAIT_SPARSE_HEADER =>
      ∃ hdr cs, stream = hdr ++ encode cs ∧ zlen hdr = 28 ∧ Forall (chunk_wf (blk_sz hdr)) cs ∧
                image_base_addr st + total (blk_sz hdr) cs < 2 ^ 64 ∧
                flash (blk_sz hdr) (dev e) (image_base_addr st) cs = fin
  | UNSPARSE_WAIT_CHUNK_HEADER =>
      0 <= unhandle_buf_size u < 12 ∧ zlen (unhandle_buf u) = 12 ∧ zlen (chunk_hdr u) = 12 ∧
      ∃ cs, slice 0 (unhandle_buf_size u) (unhandle_buf u) ++ stream = encode cs ∧
            Forall (chunk_wf blk) cs ∧ 0 <= image_address_offset u ∧
            addr + total blk cs < 2 ^ 64 ∧ flash blk (dev e) addr cs = fin
  | UNSPARSE_WAIT_CHUNK_DATA =>
      unhandle_buf_size u = 0 ∧ zlen (unhandle_buf u) = 12 ∧ zlen (chunk_hdr u) = 12 ∧
      ∃ data cs, stream = data ++ encode cs ∧ zlen data = chunk_remain_data_size u ∧
            Forall (chunk_wf blk) cs ∧ 0 <= image_address_offset u ∧
            addr + zlen data + total blk cs < 2 ^ 64 ∧
            flash blk (emmc_write (dev e) addr data).1 (addr + zlen data) cs = fin
  end ∧ 0 <= image_base_addr st.

(** The work left in a call. *)
Definition work (e : engine D) : Z :=
  2 * size (status e) +
  match wait_phase (status e) with UNSPARSE_WAIT_CHUNK_DATA => 1 | _ => 0 end.

(** The engine holds a packet whose bytes are all to be taken. *)
Definition ready (e : engine D) : Prop :=
  size (status e) = zlen (buf (status e)) ∧ size (status e) < 2 ^ 31.

(** What is asked of a packet: a whole image header, or the rest of a chunk header. *)
Definition enough (e : engine D) : Prop :=
  match wait_phase (status e) with
  | UNSPARSE_WAIT_SPARSE_HEADER => 28 <= size (status e)
  | UNSPARSE_WAIT_CHUNK_HEADER =>
      unhandle_buf_size (udata e) = 0 ∨ 12 <= unhandle_buf_size (udata e) + size (status e)
  | UNSPARSE_WAIT_CHUNK_DATA => True
  end.

(** The state after one step on a packet, with [rest] still to come. *)
Definition stepped (e e' : engine D) (rest : list Z) (fin : D) : Prop :=
  (handle_status (status e') = S_DONE ∧ ready e' ∧ enough e' ∧ work e' < work e ∧
     expects e' (buf (status e') ++ rest) fin) ∨
  (handle_status (status e') = S_DONE ∧ size (status e') = 0 ∧ expects e' rest fin) ∨
  (handle_status (status e') = S_DA_SDMMC_SPARSE_INCOMPLETE ∧ ready e' ∧
     wait_phase (status e') = UNSPARSE_WAIT_CHUNK_DATA ∧ size (status e') < SDMMC_BLK_SIZE ∧
     size (status e') < chunk_remain_data_size (udata e') ∧
     expects e' (buf (status e') ++ rest) fin).

Lemma app_split {A} (a b c d : list A) :
  a ++ b = c ++ d -> zlen c <= zlen a -> a = c ++ drop (length c) a ∧ drop (length c) a ++ b = d.
Proof.
  unfold zlen. intros E Hl. assert (Hc : c = take (length c) a).
  { rewrite <- (take_app_length c d) at 1. rewrite <- E. rewrite take_app_le by lia. done. }
  assert (Ha : a = c ++ drop (length c) a) by (rewrite Hc at 1; by rewrite take_drop).
  split; [done|]. rewrite Ha in E at 1. rewrite <- app_assoc in E. by apply app_inv_head in E.
Qed.

Lemma slice_0_app {A} (a b : list A) : slice 0 (zlen a) (a ++ b) = a.
Proof. unfold slice, zlen. rewrite Nat2Z.id, drop_0. apply take_app_length. Qed.
Lemma drop_zlen_app {A} (a b : list A) : drop (Z.to_nat (zlen a)) (a ++ b) = b.
Proof. unfold zlen. rewrite Nat2Z.id. apply drop_app_length. Qed.

Lemma step_sparse_header e rest fin :
  wait_phase (status e) = UNSPARSE_WAIT_SPARSE_HEADER -> ready e -> enough e ->
  expects e (buf (status e) ++ rest) fin -> stepped e (wait_sparse_header e) rest fin.
Proof.
  intros Hp [Hs Hb] Hen [Hpend Hbase]. unfold enough in Hen. rewrite Hp in Hpend, Hen.
  destruct Hpend as (hdr & cs & Hst & Hh & Hcs & Htot & Hfin). left.
  destruct (app_split _ _ _ _ Hst) as [Hbuf Hrest]; [lia|].
  set (tl := drop (length hdr) (buf (status e))) in *.
  assert (E28 : drop 28 (buf (status e)) = tl) by (unfold tl; f_equal; unfold zlen in Hh; lia).
  assert (Esl : slice 0 28 (buf (status e)) = hdr) by (rewrite Hbuf, <- Hh; apply slice_0_app).
  assert (Hz : size (status e) = 28 + zlen tl) by (rewrite Hs, Hbuf, zlen_app; lia).
  unfold wait_sparse_header, sizeof_sparse_header. rewrite (proj2 (Z.leb_le _ _)) by lia.
  rewrite E28, Esl. split_and!; [done | split; cbn; lia | by left | unfold work; cbn; rewrite Hp; lia |].
  split; [|done]. cbn. split; [lia|]. split; [done|]. split; [done|].
  exists cs. rewrite Z.add_0_r. split_and!; done.
Qed.

Lemma overlay_join n (U b l : list Z) :
  zlen U = n -> zlen l = n + zlen b -> overlay n b (overlay 0 U l) = U ++ b.
Proof.
  intros <- Hl. rewrite <- (Z.add_0_l (zlen U)) at 1. rewrite overlay_app by lia.
  unfold overlay. cbn [Z.to_nat take app]. rewrite drop_ge; [by rewrite app_nil_r|].
  unfold zlen in Hl. rewrite Nat.add_0_l, length_app. lia.
Qed.

(** The chunk header assembled from the saved bytes and the packet. *)
Lemma header_bytes e (h dat more : list Z) :
  let st := status e in
  let u := udata e in
  let n := unhandle_buf_size u in
  let U := slice 0 n (unhandle_buf u) in
  0 <= n < 12 -> zlen (unhandle_buf u) = 12 -> zlen (chunk_hdr u) = 12 ->
  12 <= n + zlen (buf st) -> zlen h = 12 -> U ++ buf st ++ more = h ++ dat ->
  (if 0 <? n then
     let used := u32 (sizeof_chunk_header - n) in
     (overlay n (slice 0 used (buf st)) (overlay 0 U (chunk_hdr u)), used)
   else (slice 0 sizeof_chunk_header (buf st), sizeof_chunk_header)) = (h, 12 - n) ∧
  drop (Z.to_nat (12 - n)) (buf st) ++ more = dat ∧
  zlen (drop (Z.to_nat (12 - n)) (buf st)) = zlen (buf st) - (12 - n).
Proof.
  intros st u n U Hn Hub Hch Hen Hh E.
  assert (HU : zlen U = n) by (apply slice_len; lia).
  assert (Hb : zlen (slice 0 (12 - n) (buf st)) = 12 - n) by (apply slice_len; lia).
  assert (Esp : buf st = slice 0 (12 - n) (buf st) ++ drop (Z.to_nat (12 - n)) (buf st)).
  { unfold slice. rewrite drop_0. by rewrite take_drop. }
  rewrite Esp in E at 1. rewrite <- !app_assoc, app_assoc in E.
  assert (Hz : zlen (U ++ slice 0 (12 - n) (buf st)) = zlen h) by (rewrite zlen_app; lia).
  apply app_inj_1 in E as [Eh Ed]; [|by apply Nat2Z.inj].
  split; [|split; [done|]].
  - unfold sizeof_chunk_header. destruct (Z.ltb_spec 0 n).
    + cbn zeta. rewrite u32_small by lia. rewrite overlay_join by lia. by rewrite Eh.
    + assert (E0 : n = 0) by lia. assert (EU : U = []) by (unfold U; rewrite E0; apply slice_0).
      rewrite <- Eh, EU, E0. done.
  - unfold zlen. rewrite length_drop. unfold zlen in Hen. lia.
Qed.

Lemma step_chunk_header e rest fin :
  wait_phase (status e) = UNSPARSE_WAIT_CHUNK_HEADER -> 0 < size (status e) -> ready e -> enough e ->
  expects e (buf (status e) ++ rest) fin -> stepped e (wait_chunk_header e) rest fin.
Proof.
  intros Hp Hpos [Hs Hb] Hen [Hpend Hbase]. unfold enough in Hen. rewrite Hp in Hpend, Hen.
  destruct Hpend as (Hn & Hub & Hch & cs & Hst & Hcs & Hoff & Htot & Hfin).
  unfold wait_chunk_header, sizeof_chunk_header at 1. rewrite u32_small by lia.
  destruct (Z.leb_spec 12 (unhandle_buf_size (udata e) + size (status e))) as [Hle|Hgt].
  2:{ destruct Hen as [Hn0|]; [|lia]. right. left. split; [done|]. split; [done|]. split; [|done].
      rewrite Hn0, slice_0 in Hst. cbn [app] in Hst. cbn.
      rewrite Hs, slice_all. rewrite overlay_len by lia. split; [lia|]. split; [done|]. split; [done|].
      exists cs. rewrite slice_overlay_same by lia. split_and!; done. }
  left. destruct cs as [|c cs].
  { apply (f_equal zlen) in Hst. rewrite !zlen_app, slice_len in Hst by lia.
    pose proof (zlen_nonneg rest). change (zlen (encode [])) with 0 in Hst. lia. }
  apply Forall_cons in Hcs as [[Hspan Hc] Hcs]. pose proof (total_nonneg _ _ Hcs).
  cbn [total flash] in Htot, Hfin. rewrite encode_cons in Hst.
  destruct c as [h data|h]; cbn [encode_chunk] in Hst.
  - destruct Hc as (Hh & Hty & Hd). rewrite <- app_assoc in Hst. cbn [span] in *.
    destruct (header_bytes e h (data ++ encode cs) rest) as (Ehd & Hrest & Hlen); [done..| lia | done | done |].
    cbn zeta in Ehd |- *. rewrite Ehd.
    rewrite Hty. cbn. rewrite u32_small by lia.
    split_and!; [done | split; cbn; lia | done | unfold work; cbn; rewrite Hp; lia |].
    split; [|done]. cbn. split; [done|]. split; [done|]. split; [done|].
    exists data, cs. unfold u64. rewrite Z.mod_small by lia. split_and!; try done. lia.
  - destruct Hc as (Hh & Hty). cbn [span] in *.
    destruct (header_bytes e h (encode cs) rest) as (Ehd & Hrest & Hlen); [done..| lia | done | done |].
    cbn zeta in Ehd |- *. rewrite Ehd.
    rewrite Hty. cbn. rewrite u32_small by lia.
    split_and!; [done | split; cbn; lia | by left | unfold work; cbn; rewrite Hp; lia |].
    split; [|done]. cbn. split; [lia|]. split; [done|]. split; [done|].
    exists cs. unfold u64. rewrite !(Z.mod_small (chunk_sz h * _)) by lia. rewrite Z.mod_small by lia.
    rewrite Z.add_assoc. split_and!; try done; lia.
Qed.

Lemma write_and_verify_ok (d : D) a b n chk :
  0 <= n <= zlen b -> write_and_verify d a b n chk = (S_DONE, (emmc_write d a (slice 0 n b)).1, b).
Proof.
  intros Hn. assert (Hl : zlen (slice 0 n b) = n) by (apply slice_len; lia).
  pose proof (emmc_write_len d a (slice 0 n b)) as Hw. pose proof (emmc_read_back d a (slice 0 n b)) as Hr.
  unfold write_and_verify. destruct (emmc_write d a (slice 0 n b)) as [d' w]. cbn in Hw, Hr |- *.
  rewrite Hl in Hw, Hr. subst w. rewrite Z.eqb_refl. destruct chk; [|done].
  rewrite Hr. cbn. rewrite Z.eqb_refl, overlay_slice_id, Z.eqb_refl by lia. done.
Qed.

Lemma blk_mask s : Z.land s (SDMMC_BLK_SIZE - 1) = s mod 512.
Proof. apply (Z.land_ones s 9). lia. Qed.
Lemma blk_mask_not s : Z.land s (Z.lnot (SDMMC_BLK_SIZE - 1)) = s / 512 * 512.
Proof. apply (land_lnot_ones s 9). lia. Qed.

(** The part of an unfinished chunk that is written: whole blocks. *)
Lemma part_size s :
  let unaligned := negb (Z.land s (SDMMC_BLK_SIZE - 1) =? 0) in
  0 < s -> unaligned && (s <? SDMMC_BLK_SIZE) = false ->
  let sz := if unaligned then Z.land s (Z.lnot (SDMMC_BLK_SIZE - 1)) else s in
  0 < sz <= s ∧ (SDMMC_BLK_SIZE | sz) ∧ Z.land s (SDMMC_BLK_SIZE - 1) = s - sz.
Proof.
  cbn zeta. rewrite blk_mask, blk_mask_not. intros Hs Hu.
  pose proof (Z.div_mod s 512). pose proof (Z.mod_pos_bound s 512).
  destruct (Z.eqb_spec (s mod 512) 0) as [E|E]; cbn [negb andb] in *.
  - split; [lia|]. split; [exists (s / 512); unfold SDMMC_BLK_SIZE; lia | lia].
  - apply Z.ltb_ge in Hu. unfold SDMMC_BLK_SIZE in *.
    split; [lia|]. split; [by exists (s / 512) | lia].
Qed.

Lemma slice_common {A} (a b c d : list A) n :
  a ++ b = c ++ d -> 0 <= n <= zlen a -> n <= zlen c -> slice 0 n a = slice 0 n c.
Proof.
  unfold slice, zlen. intros E Ha Hc. rewrite !drop_0.
  rewrite <- (take_app_le a b), <- (take_app_le c d) by lia. by rewrite E.
Qed.

(** Opens the hypotheses on an engine that waits for the data of a chunk. *)
Ltac open_data e :=
  let Hpend := fresh "Hpend" in
  intros Hp Hpos [Hs Hb] [Hpend Hbase]; rewrite Hp in Hpend;
  destruct Hpend as (Hn & Hub & Hch & data & cs & Hst & Hrem & Hcs & Hoff & Htot & Hfin);
  pose proof (total_nonneg _ _ Hcs) as Htn; pose proof (zlen_nonneg data) as Hdn;
  unfold wait_chunk_data; cbn zeta; set (st := status e) in *; set (u := udata e) in *;
  assert (Ha : u64 (image_base_addr st + image_address_offset u) =
               image_base_addr st + image_address_offset u) by (apply Z.mod_small; lia);
  rewrite Ha; clear Ha; set (addr := image_base_addr st + image_address_offset u) in *.

Lemma step_whole_chunk e rest fin :
  wait_phase (status e) = UNSPARSE_WAIT_CHUNK_DATA -> 0 < size (status e) -> ready e ->
  expects e (buf (status e) ++ rest) fin ->
  chunk_remain_data_size (udata e) <= size (status e) -> stepped e (wait_chunk_data e) rest fin.
Proof.
  open_data e. intros Hle. rewrite (proj2 (Z.leb_le _ _) Hle).
  destruct (app_split _ _ _ _ Hst) as [Hbuf Hrest]; [lia|].
  set (tl := drop (length data) (buf st)) in *.
  rewrite write_and_verify_ok by lia. rewrite decide_True by done.
  rewrite <- Hrem. rewrite Hbuf, slice_0_app, drop_zlen_app.
  assert (Hz : zlen (buf st) = zlen data + zlen tl) by (rewrite Hbuf, zlen_app; lia).
  left. rewrite u32_small by lia.
  split_and!; [done | split; cbn; lia | by left | unfold work; cbn; fold st; rewrite Hp; lia |].
  split; [|done]. cbn. fold st u. split; [lia|]. split; [done|]. split; [done|].
  exists cs. unfold u64. rewrite Z.mod_small by lia.
  rewrite Hn, slice_0, Z.add_assoc. fold addr. split_and!; try done; lia.
Qed.

Lemma step_part_chunk e rest fin :
  wait_phase (status e) = UNSPARSE_WAIT_CHUNK_DATA -> 0 < size (status e) -> ready e ->
  expects e (buf (status e) ++ rest) fin ->
  size (status e) < chunk_remain_data_size (udata e) -> stepped e (wait_chunk_data e) rest fin.
Proof.
  open_data e. intros Hgt. rewrite (proj2 (Z.leb_gt _ _) Hgt).
  destruct (negb _ && _) eqn:Hinc.
  { right. right. apply andb_true_iff in Hinc as [_ Hlt%Z.ltb_lt].
    split_and!; try done; try (split; cbn; lia). split; [|done]. cbn. fold st u.
    split; [done|]. split; [done|]. split; [done|]. exists data, cs. split_and!; done. }
  destruct (part_size (size st)) as (Hsz & Hdiv & Hrst); [done | done |].
  set (sz := if negb _ then _ else _) in *. clearbody sz. rewrite Hrst.
  rewrite write_and_verify_ok by lia. rewrite decide_True by done.
  rewrite (slice_common _ _ _ _ sz Hst) by lia.
  assert (Hsl : zlen (slice 0 sz data) = sz) by (apply slice_len; lia).
  assert (Ed : data = slice 0 sz data ++ drop (Z.to_nat sz) data).
  { unfold slice. rewrite drop_0. by rewrite take_drop. }
  assert (Hzd : zlen (drop (Z.to_nat sz) data) = zlen data - sz)
    by (unfold zlen in *; rewrite length_drop; lia).
  left. split_and!.
  - done.
  - split; cbn; fold st; [|lia]. unfold zlen in *. rewrite length_drop. lia.
  - done.
  - unfold work. cbn. fold st. rewrite Hp. lia.
  - split; [|done]. cbn. fold st u. split; [done|]. split; [done|]. split; [done|].
    exists (drop (Z.to_nat sz) data), cs. unfold u64. rewrite !Z.mod_small by lia.
    rewrite Z.add_assoc. fold addr. rewrite Hzd.
    replace (addr + sz + (zlen data - sz)) with (addr + zlen data) by lia.
    rewrite Ed in Hfin at 1. rewrite emmc_write_app, Hsl in Hfin by (by rewrite Hsl).
    split_and!; try done; try lia.
    apply (f_equal (drop (Z.to_nat sz))) in Hst.
    rewrite !drop_app_le in Hst by (unfold zlen in *; lia). done.
Qed.

Lemma internal_stepped e rest fin :
  0 < size (status e) -> ready e -> enough e -> expects e (buf (status e) ++ rest) fin ->
  stepped e (mmc_write_sparse_data_internal e) rest fin.
Proof.
  intros Hpos Hr Hen Hpd. unfold mmc_write_sparse_data_internal.
  rewrite (proj2 (Z.eqb_neq _ _)) by lia. destruct (wait_phase (status e)) eqn:Hp.
  - by apply step_sparse_header.
  - by apply step_chunk_header.
  - destruct (decide (chunk_remain_data_size (udata e) <= size (status e))).
    + by apply step_whole_chunk.
    + apply step_part_chunk; done || lia.
Qed.

(** What a call of [mmc_write_sparse_data] leaves. *)
Definition called (e' : engine D) (rest : list Z) (fin : D) : Prop :=
  (handle_status (status e') = S_DONE ∧ expects e' rest fin) ∨
  (handle_status (status e') = S_DA_SDMMC_SPARSE_INCOMPLETE ∧
     wait_phase (status e') = UNSPARSE_WAIT_CHUNK_DATA ∧
     size (status e') = zlen (buf (status e')) ∧ size (status e') < SDMMC_BLK_SIZE ∧
     size (status e') < chunk_remain_data_size (udata e') ∧
     expects e' (buf (status e') ++ rest) fin).

Lemma write_sparse_called fuel e rest fin :
  0 < size (status e) -> ready e -> enough e -> work e < Z.of_nat fuel ->
  expects e (buf (status e) ++ rest) fin ->
  ∃ e', mmc_write_sparse_data fuel e = Some e' ∧ called e' rest fin.
Proof.
  revert e; induction fuel as [|fuel IH]; intros e Hpos Hr Hen Hw Hpd.
  { exfalso. unfold work in Hw. destruct (wait_phase (status e)); lia. }
  cbn [mmc_write_sparse_data].
  destruct (internal_stepped e rest fin) as [(Hd & Hr' & Hen' & Hw' & Hpd')|[(Hd & Hz & Hpd')|
    (Hi & [Hr1 Hr2] & Hp & Hs & Hrem & Hpd')]]; [done..| | |].
  - rewrite bool_decide_true by done. cbn [negb].
    destruct (Z.ltb_spec 0 (size (status (mmc_write_sparse_data_internal e)))) as [Hlt|Hge].
    + apply IH; try done. lia.
    + eexists. split; [done|]. left. split; [done|]. destruct Hr' as [Hsz _].
      assert (Hnil : buf (status (mmc_write_sparse_data_internal e)) = []).
      { apply nil_length_inv. unfold zlen in Hsz. lia. }
      by rewrite Hnil in Hpd'.
  - rewrite bool_decide_true by done. cbn [negb]. rewrite Hz. eexists. split; [done|]. by left.
  - rewrite bool_decide_false by (by rewrite Hi). eexists. split; [done|]. right. split_and!; done.
Qed.

(** Between two packets: the bytes left over belong to the data of a chunk. *)
Definition parked (e : engine D) (padding stream : list Z) (fin : D) : Prop :=
  expects e (padding ++ stream) fin ∧ zlen padding < SDMMC_BLK_SIZE ∧
  (padding = [] ∨ wait_phase (status e) = UNSPARSE_WAIT_CHUNK_DATA ∧
                  zlen padding < chunk_remain_data_size (udata e)).

(** A packet of 28 bytes is enough, and so is the last one of a well-formed image. *)
Lemma enough_packet e stream rest fin :
  expects e (stream ++ rest) fin -> size (status e) = zlen stream -> 0 < zlen stream ->
  28 <= zlen stream ∨ rest = [] -> enough e.
Proof.
  intros [Hpd _] Hsz Hpos Hlen. unfold enough. destruct (wait_phase (status e)) eqn:Hp; [| |done].
  - destruct Hlen as [|Hr]; [lia|]. subst rest. destruct Hpd as (hdr & cs & E & Hh & _).
    apply (f_equal zlen) in E. rewrite app_nil_r, zlen_app in E. pose proof (zlen_nonneg (encode cs)). lia.
  - destruct Hpd as (Hn & Hub & _ & cs & E & Hcs & _). destruct Hlen as [|Hr]; [right; lia|]. subst rest.
    right. apply (f_equal zlen) in E. rewrite app_nil_r, zlen_app, slice_len in E by lia.
    destruct (encode_split _ _ Hcs) as [Hc|]; [|lia]. subst cs. change (zlen (encode [])) with 0 in E. lia.
Qed.

Lemma feed_parked fuel e padding packet rest fin :
  parked e padding (packet ++ rest) fin -> 28 <= zlen packet ∨ rest = [] ->
  zlen packet < 2 ^ 30 -> 2 * (zlen packet + 512) + 1 < Z.of_nat fuel ->
  ∃ e' padding', feed fuel e padding packet = Some (e', padding') ∧ parked e' padding' rest fin.
Proof.
  intros (Hpd & Hpad & Hleft) Hlen Hbig Hf. unfold feed, SDMMC_BLK_SIZE in *.
  pose proof (zlen_nonneg padding). pose proof (zlen_nonneg packet).
  destruct (Z.eqb_spec (zlen (padding ++ packet)) 0) as [E|E]; rewrite zlen_app in E.
  { assert (padding = []) as -> by (apply nil_length_inv; unfold zlen in *; lia).
    assert (packet = []) as -> by (apply nil_length_inv; unfold zlen in *; lia).
    exists e, []. split; [done|]. split_and!; [done | done | by left]. }
  set (e1 := Engine _ _ _). rewrite app_assoc in Hpd.
  assert (Hpd1 : expects e1 (buf (status e1) ++ rest) fin) by exact Hpd.
  destruct (write_sparse_called fuel e1 rest fin) as (e' & Hrun & Hcalled).
  - cbn. rewrite zlen_app. lia.
  - split; cbn; rewrite ?zlen_app; lia.
  - eapply (enough_packet e1 (padding ++ packet)); [exact Hpd1 | done | rewrite zlen_app; lia |].
    rewrite zlen_app. destruct Hlen; [left; lia | by right].
  - unfold work. cbn. rewrite zlen_app. destruct (wait_phase (status e)); lia.
  - exact Hpd1.
  - rewrite Hrun. cbn [mbind option_bind].
    destruct Hcalled as [(Hd & Hp')|(Hi & Hph & Hsz & Hblk & Hrem & Hp')].
    + rewrite Hd. exists e', []. split; [done|]. split_and!; [done | done | by left].
    + rewrite Hi, Hsz, slice_all. eexists e', _. split; [done|]. split_and!; [done | |]; rewrite <- Hsz;
        [done | by right].
Qed.

Lemma parked_done e padding fin : parked e padding [] fin -> padding = [] ∧ dev e = fin.
Proof.
  intros ([Hpd _] & _ & Hleft). rewrite app_nil_r in Hpd.
  assert (Hnil : padding = []).
  { destruct Hleft as [|[Hp Hrem]]; [done|]. exfalso. rewrite Hp in Hpd.
    destruct Hpd as (_ & _ & _ & data & cs & E & Hd & _). apply (f_equal zlen) in E.
    rewrite zlen_app in E. pose proof (zlen_nonneg (encode cs)). lia. }
  split; [done|]. subst padding. destruct (wait_phase (status e)).
  - destruct Hpd as (hdr & cs & E & Hh & _). symmetry in E. apply app_nil in E as [-> _]. done.
  - destruct Hpd as (Hn & Hub & _ & cs & E & Hcs & _ & _ & Hfin). rewrite app_nil_r in E.
    destruct (encode_split _ _ Hcs) as [->|Hl]; [done|].
    rewrite <- E, slice_len in Hl by lia. lia.
  - destruct Hpd as (_ & _ & _ & data & cs & E & _ & Hcs & _ & _ & Hfin).
    symmetry in E. apply app_nil in E as [-> E].
    destruct (encode_split _ _ Hcs) as [->|Hl]; [|rewrite E in Hl; by cbn in Hl].
    by rewrite <- Hfin, emmc_write_nil.
Qed.

(** Packets of an image: all but the last have 28 bytes, none is larger than 1 GB. *)
Fixpoint packets_ok (fuel : nat) (packets : list (list Z)) : Prop :=
  match packets with
  | [] => True
  | p :: ps => (28 <= zlen p ∨ ps = []) ∧ zlen p < 2 ^ 30 ∧
               2 * (zlen p + 512) + 1 < Z.of_nat fuel ∧ packets_ok fuel ps
  end.

Lemma feed_all_parked fuel packets e padding fin :
  packets_ok fuel packets -> parked e padding (concat packets) fin ->
  ∃ e', feed_all fuel e padding packets = Some (e', []) ∧ dev e' = fin.
Proof.
  revert e padding; induction packets as [|p ps IH]; intros e padding Hok Hpk; cbn [feed_all].
  { apply parked_done in Hpk as [-> Hd]. by exists e. }
  destruct Hok as (Hlen & Hbig & Hf & Hok).
  destruct (feed_parked fuel e padding p (concat ps) fin) as (e' & pad' & -> & Hpk'); try done.
  { destruct Hlen as [H1|H1]; [by left | right; by rewrite H1]. }
  by apply IH.
Qed.
End Correct.

(** ** A device for the examples: a map from addresses to bytes *)
Fixpoint put_bytes (d : gmap Z Z) (a : Z) (b : list Z) : gmap Z Z :=
  match b with [] => d | x :: b => put_bytes (<[a := x]> d) (a + 1) b end.
Fixpoint get_bytes (d : gmap Z Z) (a : Z) (n : nat) : list Z :=
  match n with O => [] | S n => default 0 (d !! a) :: get_bytes d (a + 1) n end.
#[export] Instance map_emmc : Emmc (gmap Z Z) := {
  emmc_write d a b := (put_bytes d a b, zlen b);
  emmc_read d a n := (get_bytes d a (Z.to_nat n), n)
}.

Lemma put_bytes_app d a b1 b2 :
  put_bytes d a (b1 ++ b2) = put_bytes (put_bytes d a b1) (a + zlen b1) b2.
Proof.
  revert d a; induction b1 as [|x b1 IH]; intros d a; cbn [put_bytes app].
  - by rewrite Z.add_0_r.
  - rewrite IH. f_equal. unfold zlen. cbn [length]. lia.
Qed.

Lemma put_bytes_other d a b x : x < a -> put_bytes d a b !! x = d !! x.
Proof.
  revert d a; induction b as [|y b IH]; intros d a Hx; [done|]. cbn [put_bytes].
  rewrite IH by lia. rewrite lookup_insert_ne; [done | lia].
Qed.

Lemma get_put_bytes d a b : get_bytes (put_bytes d a b) a (length b) = b.
Proof.
  revert d a; induction b as [|y b IH]; intros d a; [done|]. cbn [put_bytes length get_bytes].
  rewrite put_bytes_other, lookup_insert_eq, IH by lia. done.
Qed.

#[export] Instance map_emmc_laws : EmmcLaws (gmap Z Z).
Proof.
  split; cbn; try done.
  - intros d a b1 b2 _. apply put_bytes_app.
  - intros d a b. unfold zlen. by rewrite Nat2Z.id, get_put_bytes.
Qed.

(** ** Properties *)

(** C11. A well-formed sparse image of raw and don't-care chunks (chunks that fill and checksums
    are not covered: the machine rejects them) that ends below address 2^64, cut into packets in any way that leaves at
    least 28 bytes in all but the last and less than 1 GB in each, ends up on the device as the
    chunks say: every call ends and succeeds, the bytes
    a call leaves over are taken up by the next, and nothing is left over at the end. *)
Theorem sparse_image_written {D} `{EmmcLaws D} fuel (e : engine D) hdr cs packets :
  wait_phase (status e) = UNSPARSE_WAIT_SPARSE_HEADER -> 0 <= image_base_addr (status e) ->
  zlen hdr = sizeof_sparse_header -> Forall (chunk_wf (blk_sz hdr)) cs ->
  image_base_addr (status e) + total (blk_sz hdr) cs < 2 ^ 64 ->
  concat packets = hdr ++ encode cs -> packets_ok fuel packets ->
  ∃ e', feed_all fuel e [] packets = Some (e', []) ∧
        dev e' = flash (blk_sz hdr) (dev e) (image_base_addr (status e)) cs.
Proof.
  intros Hp Hbase Hh Hcs Htot Hcat Hok. apply feed_all_parked; [done|].
  split_and!; [|done | by left]. rewrite Hcat. split; [|done]. rewrite Hp. exists hdr, cs. split_and!; done.
Qed.

(** An image of three chunks with blocks of 4 bytes, in three packets. *)
Definition hdr4 : list Z := replicate 12 0 ++ [4; 0; 0; 0] ++ replicate 12 0.
Definition raw_hdr (n : Z) : list Z := [0xC1; 0xCA; 0; 0; n; 0; 0; 0; 0; 0; 0; 0].
Definition dc_hdr (n : Z) : list Z := [0xC3; 0xCA; 0; 0; n; 0; 0; 0; 0; 0; 0; 0].
Definition image3 : list image_chunk :=
  [Raw (raw_hdr 2) [1; 2; 3; 4; 5; 6; 7; 8]; DontCare (dc_hdr 1); Raw (raw_hdr 1) [9; 9; 9; 9]].
Definition engine0 (chk : bool) : engine (gmap Z Z) :=
  Engine (mmc_init_unsparse_status (Status S_DONE UNSPARSE_WAIT_SPARSE_HEADER 0 0 [] false) 1000 chk)
         (Data [] [] 0 0 0 []) ∅.
Definition packets3 : list (list Z) :=
  [slice 0 42 (hdr4 ++ encode image3); slice 42 30 (hdr4 ++ encode image3);
   slice 72 4 (hdr4 ++ encode image3)].

Lemma sparse_image_written_witness :
  ∃ e', feed_all 2000 (engine0 true) [] packets3 = Some (e', []) ∧
        dev e' = flash (blk_sz hdr4) ∅ 1000 image3.
Proof.
  apply (sparse_image_written 2000 (engine0 true) hdr4 image3 packets3).
  - done.
  - done.
  - done.
  - repeat constructor; done.
  - done.
  - vm_compute. reflexivity.
  - repeat split; try done; (left; done) || (right; done).
Defined.

(** A first packet shorter than the image header is never left: the state machine
    neither takes it nor reports it, and the loop of [mmc_write_sparse_data] runs for
    ever. *)
Theorem sparse_short_header_hangs {D} `{Emmc D} fuel (e : engine D) :
  wait_phase (status e) = UNSPARSE_WAIT_SPARSE_HEADER -> handle_status (status e) = S_DONE ->
  0 < size (status e) < sizeof_sparse_header -> mmc_write_sparse_data fuel e = None.
Proof.
  intros Hp Hd Hs. assert (Hfix : mmc_write_sparse_data_internal e = e).
  { unfold mmc_write_sparse_data_internal, wait_sparse_header.
    rewrite (proj2 (Z.eqb_neq _ _)), Hp, (proj2 (Z.leb_gt _ _)) by lia. done. }
  induction fuel as [|fuel IH]; [done|]. cbn [mmc_write_sparse_data]. rewrite Hfix.
  rewrite bool_decide_true, (proj2 (Z.ltb_lt _ _)) by (done || lia). exact IH.
Qed.

Lemma sparse_short_header_hangs_witness :
  mmc_write_sparse_data 50
    (Engine (Status S_DONE UNSPARSE_WAIT_SPARSE_HEADER 1000 20 (replicate 20 7) false)
            (Data [] [] 0 0 0 []) (∅ : gmap Z Z)) = None.
Proof. apply sparse_short_header_hangs; [done | done | cbn; unfold sizeof_sparse_header; lia]. Defined.
