(* ===== verification/Crc.v ===== *)
(** * The checksum of sparse images ([ext4_utils/sparse_crc32.c])

    The CRC-32 of a sparse image is computed a byte at a time with a table of 256 words.
    The reference is the definition by bits: the polynomial division, one shift for
    every bit of the data, the lowest bit of a byte first. *)
From stdpp Require Import base list.
From Stdlib Require Import ZArith Lia.
From S2P Require Import Prelude.
#[local] Open Scope Z_scope.

Definition crc32_tab : list Z :=
  [0x00000000; 0x77073096; 0xee0e612c; 0x990951ba; 0x076dc419; 0x706af48f;
   0xe963a535; 0x9e6495a3; 0x0edb8832; 0x79dcb8a4; 0xe0d5e91e; 0x97d2d988;
   0x09b64c2b; 0x7eb17cbd; 0xe7b82d07; 0x90bf1d91; 0x1db71064; 0x6ab020f2;
   0xf3b97148; 0x84be41de; 0x1adad47d; 0x6ddde4eb; 0xf4d4b551; 0x83d385c7;
   0x136c9856; 0x646ba8c0; 0xfd62f97a; 0x8a65c9ec; 0x14015c4f; 0x63066cd9;
   0xfa0f3d63; 0x8d080df5; 0x3b6e20c8; 0x4c69105e; 0xd56041e4; 0xa2677172;
   0x3c03e4d1; 0x4b04d447; 0xd20d85fd; 0xa50ab56b; 0x35b5a8fa; 0x42b2986c;
   0xdbbbc9d6; 0xacbcf940; 0x32d86ce3; 0x45df5c75; 0xdcd60dcf; 0xabd13d59;
   0x26d930ac; 0x51de003a; 0xc8d75180; 0xbfd06116; 0x21b4f4b5; 0x56b3c423;
   0xcfba9599; 0xb8bda50f; 0x2802b89e; 0x5f058808; 0xc60cd9b2; 0xb10be924;
   0x2f6f7c87; 0x58684c11; 0xc1611dab; 0xb6662d3d; 0x76dc4190; 0x01db7106;
   0x98d220bc; 0xefd5102a; 0x71b18589; 0x06b6b51f; 0x9fbfe4a5; 0xe8b8d433;
   0x7807c9a2; 0x0f00f934; 0x9609a88e; 0xe10e9818; 0x7f6a0dbb; 0x086d3d2d;
   0x91646c97; 0xe6635c01; 0x6b6b51f4; 0x1c6c6162; 0x856530d8; 0xf262004e;
   0x6c0695ed; 0x1b01a57b; 0x8208f4c1; 0xf50fc457; 0x65b0d9c6; 0x12b7e950;
   0x8bbeb8ea; 0xfcb9887c; 0x62dd1ddf; 0x15da2d49; 0x8cd37cf3; 0xfbd44c65;
   0x4db26158; 0x3ab551ce; 0xa3bc0074; 0xd4bb30e2; 0x4adfa541; 0x3dd895d7;
   0xa4d1c46d; 0xd3d6f4fb; 0x4369e96a; 0x346ed9fc; 0xad678846; 0xda60b8d0;
   0x44042d73; 0x33031de5; 0xaa0a4c5f; 0xdd0d7cc9; 0x5005713c; 0x270241aa;
   0xbe0b1010; 0xc90c2086; 0x5768b525; 0x206f85b3; 0xb966d409; 0xce61e49f;
   0x5edef90e; 0x29d9c998; 0xb0d09822; 0xc7d7a8b4; 0x59b33d17; 0x2eb40d81;
   0xb7bd5c3b; 0xc0ba6cad; 0xedb88320; 0x9abfb3b6; 0x03b6e20c; 0x74b1d29a;
   0xead54739; 0x9dd277af; 0x04db2615; 0x73dc1683; 0xe3630b12; 0x94643b84;
   0x0d6d6a3e; 0x7a6a5aa8; 0xe40ecf0b; 0x9309ff9d; 0x0a00ae27; 0x7d079eb1;
   0xf00f9344; 0x8708a3d2; 0x1e01f268; 0x6906c2fe; 0xf762575d; 0x806567cb;
   0x196c3671; 0x6e6b06e7; 0xfed41b76; 0x89d32be0; 0x10da7a5a; 0x67dd4acc;
   0xf9b9df6f; 0x8ebeeff9; 0x17b7be43; 0x60b08ed5; 0xd6d6a3e8; 0xa1d1937e;
   0x38d8c2c4; 0x4fdff252; 0xd1bb67f1; 0xa6bc5767; 0x3fb506dd; 0x48b2364b;
   0xd80d2bda; 0xaf0a1b4c; 0x36034af6; 0x41047a60; 0xdf60efc3; 0xa867df55;
   0x316e8eef; 0x4669be79; 0xcb61b38c; 0xbc66831a; 0x256fd2a0; 0x5268e236;
   0xcc0c7795; 0xbb0b4703; 0x220216b9; 0x5505262f; 0xc5ba3bbe; 0xb2bd0b28;
   0x2bb45a92; 0x5cb36a04; 0xc2d7ffa7; 0xb5d0cf31; 0x2cd99e8b; 0x5bdeae1d;
   0x9b64c2b0; 0xec63f226; 0x756aa39c; 0x026d930a; 0x9c0906a9; 0xeb0e363f;
   0x72076785; 0x05005713; 0x95bf4a82; 0xe2b87a14; 0x7bb12bae; 0x0cb61b38;
   0x92d28e9b; 0xe5d5be0d; 0x7cdcefb7; 0x0bdbdf21; 0x86d3d2d4; 0xf1d4e242;
   0x68ddb3f8; 0x1fda836e; 0x81be16cd; 0xf6b9265b; 0x6fb077e1; 0x18b74777;
   0x88085ae6; 0xff0f6a70; 0x66063bca; 0x11010b5c; 0x8f659eff; 0xf862ae69;
   0x616bffd3; 0x166ccf45; 0xa00ae278; 0xd70dd2ee; 0x4e048354; 0x3903b3c2;
   0xa7672661; 0xd06016f7; 0x4969474d; 0x3e6e77db; 0xaed16a4a; 0xd9d65adc;
   0x40df0b66; 0x37d83bf0; 0xa9bcae53; 0xdebb9ec5; 0x47b2cf7f; 0x30b5ffe9;
   0xbdbdf21c; 0xcabac28a; 0x53b39330; 0x24b4a3a6; 0xbad03605; 0xcdd70693;
   0x54de5729; 0x23d967bf; 0xb3667a2e; 0xc4614ab8; 0x5d681b02; 0x2a6f2b94;
   0xb40bbe37; 0xc30c8ea1; 0x5a05df1b; 0x2d02ef8d].

(** [~0U] *)
Definition all_ones : Z := 0xffffffff.

Fixpoint crc_loop (crc : Z) (buf : list Z) : Z :=
  match buf with
  | [] => crc
  | p :: buf => crc_loop (Z.lxor (crc32_tab !!! Z.to_nat (Z.land (Z.lxor crc p) 0xff)) (Z.shiftr crc 8)) buf
  end.
Definition sparse_crc32 (crc_in : Z) (buf : list Z) : Z :=
  Z.lxor (crc_loop (Z.lxor crc_in all_ones) buf) all_ones.

(** ** The definition by bits *)
Definition POLY : Z := 0xedb88320.
Definition crc_bit (c : Z) : Z := if Z.odd c then Z.lxor (Z.shiftr c 1) POLY else Z.shiftr c 1.
Definition crc_byte (c p : Z) : Z := Nat.iter 8 crc_bit (Z.lxor c p).
Definition crc_spec (crc_in : Z) (buf : list Z) : Z :=
  Z.lxor (foldl crc_byte (Z.lxor crc_in all_ones) buf) all_ones.

(** A shift of the register is linear, and shifts a word without low bits. *)
Lemma crc_bit_lxor a b : crc_bit (Z.lxor a b) = Z.lxor (crc_bit a) (crc_bit b).
Proof.
  unfold crc_bit. rewrite <- !Z.bit0_odd, Z.lxor_spec, Z.shiftr_lxor.
  destruct (Z.testbit a 0), (Z.testbit b 0); cbn [xorb]; apply Z.bits_inj'; intros n _; rewrite !Z.lxor_spec;
    destruct (Z.testbit (Z.shiftr a 1) n), (Z.testbit (Z.shiftr b 1) n), (Z.testbit POLY n); done.
Qed.
Lemma crc_bits_lxor n a b : Nat.iter n crc_bit (Z.lxor a b) = Z.lxor (Nat.iter n crc_bit a) (Nat.iter n crc_bit b).
Proof. induction n as [|n IH]; [done|]. rewrite !Nat.iter_succ, IH. apply crc_bit_lxor. Qed.
Lemma crc_bits_shift n h : Nat.iter n crc_bit (Z.shiftl h (Z.of_nat n)) = h.
Proof.
  revert h. induction n as [|n IH]; intros h; [apply Z.shiftl_0_r|].
  rewrite Nat.iter_succ_r. rewrite Nat2Z.inj_succ. unfold crc_bit at 2.
  replace (Z.odd _) with false by (rewrite <- Z.bit0_odd, Z.shiftl_spec_low; [done | lia]).
  rewrite Z.shiftr_shiftl_l by lia. replace (Z.succ (Z.of_nat n) - 1) with (Z.of_nat n) by lia. apply IH.
Qed.

Lemma low_high x : 0 <= x -> x = Z.lxor (Z.land x 0xff) (Z.shiftl (Z.shiftr x 8) (Z.of_nat 8)).
Proof.
  intros Hx. apply Z.bits_inj'. intros n Hn. change 0xff with (Z.ones 8).
  rewrite Z.lxor_spec, Z.land_spec. destruct (decide (n < 8)).
  - rewrite Z.ones_spec_low, Z.shiftl_spec_low by lia. by rewrite andb_true_r, xorb_false_r.
  - rewrite Z.ones_spec_high, Z.shiftl_spec_high, Z.shiftr_spec by lia. rewrite andb_false_r, xorb_false_l. f_equal. lia.
Qed.
(** The table holds the eight shifts of every byte. *)
Lemma table_entries : forallb (fun i => crc32_tab !!! i =? Nat.iter 8 crc_bit (Z.of_nat i)) (seq 0 256) = true.
Proof. vm_compute. reflexivity. Qed.
Lemma table_entry i : 0 <= i < 256 -> crc32_tab !!! Z.to_nat i = Nat.iter 8 crc_bit i.
Proof.
  intros Hi. pose proof (proj1 (forallb_forall _ _) table_entries (Z.to_nat i)) as H. cbv beta in H.
  rewrite Z2Nat.id in H by lia. apply Z.eqb_eq, H. apply in_seq. lia.
Qed.
Lemma crc_byte_table c p : 0 <= c -> 0 <= p < 256 ->
  Z.lxor (crc32_tab !!! Z.to_nat (Z.land (Z.lxor c p) 0xff)) (Z.shiftr c 8) = crc_byte c p.
Proof.
  intros Hc Hp. unfold crc_byte. assert (Hx : 0 <= Z.lxor c p) by (apply Z.lxor_nonneg; lia).
  rewrite (low_high (Z.lxor c p)) at 2 by done. rewrite crc_bits_lxor, crc_bits_shift.
  rewrite table_entry by (change 0xff with (Z.ones 8); rewrite Z.land_ones by lia; apply Z.mod_pos_bound; lia).
  f_equal. rewrite Z.shiftr_lxor. rewrite (Z.shiftr_div_pow2 p), Z.div_small by lia. by rewrite Z.lxor_0_r.
Qed.
Lemma crc_byte_nonneg c p : 0 <= c -> 0 <= p -> 0 <= crc_byte c p.
Proof.
  intros Hc Hp. unfold crc_byte. assert (Hx : 0 <= Z.lxor c p) by (apply Z.lxor_nonneg; lia). revert Hx.
  generalize (Z.lxor c p), 8%nat. intros x n. revert x. induction n as [|n IH]; intros x Hx; [done|]. rewrite Nat.iter_succ_r. apply IH.
  unfold crc_bit. pose proof (proj2 (Z.shiftr_nonneg x 1) Hx). case_match; [apply Z.lxor_nonneg; unfold POLY; lia | done].
Qed.

Definition bytes (b : list Z) : Prop := Forall (fun p => 0 <= p < 256) b.
Lemma crc_loop_spec c b : 0 <= c -> bytes b -> crc_loop c b = foldl crc_byte c b.
Proof.
  intros Hc Hb. revert c Hc. induction Hb as [|p b Hp Hb IH]; intros c Hc; [done|]. cbn [crc_loop foldl].
  rewrite crc_byte_table by done. apply IH. apply crc_byte_nonneg; lia.
Qed.
Lemma all_ones_twice c : Z.lxor (Z.lxor c all_ones) all_ones = c.
Proof. by rewrite Z.lxor_assoc, Z.lxor_nilpotent, Z.lxor_0_r. Qed.
Lemma crc_loop_app c a b : crc_loop c (a ++ b) = crc_loop (crc_loop c a) b.
Proof. revert c. induction a as [|p a IH]; intros c; [done | apply IH]. Qed.
(** Checksums of parts chain. *)
Lemma sparse_crc32_app c a b : sparse_crc32 (sparse_crc32 c a) b = sparse_crc32 c (a ++ b).
Proof. unfold sparse_crc32. by rewrite all_ones_twice, crc_loop_app. Qed.

Lemma crc_nil c : sparse_crc32 c [] = c.
Proof. unfold sparse_crc32. cbn. apply all_ones_twice. Qed.
(** A checksum is a word. *)
Lemma lxor_word a b : 0 <= a < 2 ^ 32 -> 0 <= b < 2 ^ 32 -> 0 <= Z.lxor a b < 2 ^ 32.
Proof.
  intros Ha Hb. assert (H0 : 0 <= Z.lxor a b) by (apply Z.lxor_nonneg; lia). split; [done|].
  destruct (decide (Z.lxor a b = 0)) as [->|Hne]; [done|]. apply Z.log2_lt_pow2; [lia|].
  pose proof (Z.log2_lxor a b ltac:(lia) ltac:(lia)).
  assert (∀ x, 0 <= x < 2 ^ 32 -> Z.log2 x < 32).
  { intros x Hx. destruct (decide (x = 0)) as [->|]; [done|]. apply Z.log2_lt_pow2; lia. }
  pose proof (H1 a Ha). pose proof (H1 b Hb). lia.
Qed.
Lemma table_words : forallb (fun i => (0 <=? crc32_tab !!! i) && (crc32_tab !!! i <? 2 ^ 32)) (seq 0 256) = true.
Proof. vm_compute. reflexivity. Qed.
Lemma table_word i : 0 <= i < 256 -> 0 <= crc32_tab !!! Z.to_nat i < 2 ^ 32.
Proof.
  intros Hi. pose proof (proj1 (forallb_forall _ _) table_words (Z.to_nat i)) as H. cbv beta in H.
  assert (Hin : In (Z.to_nat i) (seq 0 256)) by (apply in_seq; lia). apply H in Hin. apply andb_prop in Hin as [H1%Z.leb_le H2%Z.ltb_lt]. lia.
Qed.
Lemma crc_loop_range c b : 0 <= c < 2 ^ 32 -> 0 <= crc_loop c b < 2 ^ 32.
Proof.
  revert c. induction b as [|p b IH]; intros c Hc; [done|]. cbn [crc_loop]. apply IH, lxor_word.
  - apply table_word. change 0xff with (Z.ones 8). rewrite Z.land_ones by lia. by apply Z.mod_pos_bound.
  - rewrite Z.shiftr_div_pow2 by lia. split; [apply Z.div_pos; lia | apply Z.div_lt_upper_bound; lia].
Qed.
Lemma sparse_crc32_range c b : 0 <= c < 2 ^ 32 -> 0 <= sparse_crc32 c b < 2 ^ 32.
Proof. intros Hc. unfold sparse_crc32. apply lxor_word; [|done]. apply crc_loop_range. by apply lxor_word. Qed.

(** C40. The table-driven checksum is the polynomial division: for every data it is the checksum by
    bits. *)
Theorem sparse_crc32_bits c b : 0 <= c -> bytes b -> sparse_crc32 c b = crc_spec c b.
Proof.
  intros Hc Hb. unfold sparse_crc32, crc_spec. rewrite crc_loop_spec; [done | apply Z.lxor_nonneg; unfold all_ones; lia | done].
Qed.
(** The check value of CRC-32: the digits 1 to 9. *)
Lemma sparse_crc32_bits_witness :
  sparse_crc32 0 [49; 50; 51; 52; 53; 54; 55; 56; 57] = 0xcbf43926 ∧ crc_spec 0 [49; 50; 51; 52; 53; 54; 55; 56; 57] = 0xcbf43926.
Proof.
  split; [vm_compute; reflexivity|]. rewrite <- (sparse_crc32_bits 0); [vm_compute; reflexivity | lia |].
  unfold bytes. repeat (constructor; [lia|]). constructor.
Defined.
