(* ===== verification/SparseFormat.v ===== *)
(** * The sparse image format ([ext4_utils/sparse_format.h])

    The two headers as bytes, little-endian, and the chunks of an image with the bytes
    each has in the sparse file and in the image it stands for. *)
From stdpp Require Import base list.
From Stdlib Require Import ZArith Lia.
From S2P Require Import Prelude.
#[local] Open Scope Z_scope.

Definition u64 (z : Z) : Z := z mod 2 ^ 64.
Definition bytes16 (v : Z) : list Z := [v mod 256; v / 256 mod 256].
Definition bytes32 (v : Z) : list Z := bytes16 v ++ bytes16 (v / 65536).

Definition SPARSE_HEADER_MAGIC : Z := 0xed26ff3a.
Definition CHUNK_TYPE_RAW : Z := 0xCAC1.
Definition CHUNK_TYPE_FILL : Z := 0xCAC2.
Definition CHUNK_TYPE_DONT_CARE : Z := 0xCAC3.
Definition CHUNK_TYPE_CRC32 : Z := 0xCAC4.
Definition SPARSE_HEADER_LEN : Z := 28.
Definition CHUNK_HEADER_LEN : Z := 12.

Record sparse_header_t := SparseHeader {
  magic : Z; major_version : Z; minor_version : Z; file_hdr_sz : Z; chunk_hdr_sz : Z;
  blk_sz : Z; total_blks : Z; total_chunks : Z; image_checksum : Z
}.
Record chunk_header_t := ChunkHeader { chunk_type : Z; reserved1 : Z; chunk_sz : Z; total_sz : Z }.

(** The bytes of the structures. *)
Definition sparse_header_bytes (h : sparse_header_t) : list Z :=
  bytes32 (magic h) ++ bytes16 (major_version h) ++ bytes16 (minor_version h) ++ bytes16 (file_hdr_sz h) ++
  bytes16 (chunk_hdr_sz h) ++ bytes32 (blk_sz h) ++ bytes32 (total_blks h) ++ bytes32 (total_chunks h) ++ bytes32 (image_checksum h).
Definition chunk_header_bytes (h : chunk_header_t) : list Z :=
  bytes16 (chunk_type h) ++ bytes16 (reserved1 h) ++ bytes32 (chunk_sz h) ++ bytes32 (total_sz h).
Definition sparse_header_of (b : list Z) : sparse_header_t :=
  SparseHeader (le32 b) (le16 (drop 4 b)) (le16 (drop 6 b)) (le16 (drop 8 b)) (le16 (drop 10 b))
    (le32 (drop 12 b)) (le32 (drop 16 b)) (le32 (drop 20 b)) (le32 (drop 24 b)).
Definition chunk_header_of (b : list Z) : chunk_header_t :=
  ChunkHeader (le16 b) (le16 (drop 2 b)) (le32 (drop 4 b)) (le32 (drop 8 b)).

(** ** Chunks *)
Inductive schunk := CRaw (data : list Z) | CFill (v blocks : Z) | CSkip (blocks : Z) | CCrc (crc : Z).
Definition header_of (bs : Z) (c : schunk) : chunk_header_t :=
  match c with
  | CRaw data => ChunkHeader CHUNK_TYPE_RAW 0 (zlen data / bs) (CHUNK_HEADER_LEN + zlen data)
  | CFill _ n => ChunkHeader CHUNK_TYPE_FILL 0 n (CHUNK_HEADER_LEN + 4)
  | CSkip n => ChunkHeader CHUNK_TYPE_DONT_CARE 0 n CHUNK_HEADER_LEN
  | CCrc _ => ChunkHeader CHUNK_TYPE_CRC32 0 0 (CHUNK_HEADER_LEN + 4)
  end.
Definition body_of (c : schunk) : list Z :=
  match c with CRaw data => data | CFill v _ => bytes32 v | CSkip _ => [] | CCrc crc => bytes32 crc end.
Definition chunk_bytes (bs : Z) (c : schunk) : list Z := chunk_header_bytes (header_of bs c) ++ body_of c.
Definition stream (bs : Z) (cs : list schunk) : list Z := concat (chunk_bytes bs <$> cs).
(** A word over and over. *)
Definition fill_bytes (v n : Z) : list Z := concat (replicate (Z.to_nat (n / 4)) (bytes32 v)).
(** The part of the image a chunk stands for. *)
Definition expand (bs : Z) (c : schunk) : list Z :=
  match c with
  | CRaw data => data
  | CFill v n => fill_bytes v (n * bs)
  | CSkip n => replicate (Z.to_nat (n * bs)) 0
  | CCrc _ => []
  end.
(** What a checksum covers: all but what is skipped. *)
Definition payload (bs : Z) (c : schunk) : list Z := match c with CSkip _ => [] | _ => expand bs c end.
Definition image (bs : Z) (cs : list schunk) : list Z := concat (expand bs <$> cs).

(** ** Files
    The bytes of a file after [b] was written at [p]: a gap in front of it is zeros. *)
Definition zeros (n : Z) : list Z := replicate (Z.to_nat n) 0.
Definition write_at (p : Z) (b l : list Z) : list Z :=
  take (Z.to_nat p) (l ++ replicate (Z.to_nat (p - zlen l)) 0) ++ b ++ drop (Z.to_nat p + length b) l.

(** ** Reading back what was written *)
Lemma le16_bytes16 v r : 0 <= v < 2 ^ 16 -> le16 (bytes16 v ++ r) = v.
Proof.
  intros Hv. unfold le16, byte_at, bytes16. cbn. assert (v / 256 < 256) by (apply Z.div_lt_upper_bound; lia).
  pose proof (Z.div_pos v 256). rewrite (Z.mod_small (v / 256)) by lia. pose proof (Z.div_mod v 256). lia.
Qed.
Lemma le32_bytes32 v r : 0 <= v < 2 ^ 32 -> le32 (bytes32 v ++ r) = v.
Proof.
  intros Hv. unfold le32, bytes32. rewrite <- app_assoc.
  assert (Hd : ∀ a b : list Z, length a = 2%nat -> drop 2 (a ++ b) = b) by (intros a b Ha; rewrite <- Ha; apply drop_app_length).
  rewrite Hd by done. assert (v / 65536 < 2 ^ 16) by (apply Z.div_lt_upper_bound; lia). pose proof (Z.div_pos v 65536).
  rewrite (le16_bytes16 (v / 65536)) by lia.
  assert (E : le16 (bytes16 v ++ bytes16 (v / 65536) ++ r) = v mod 65536).
  { unfold le16, byte_at, bytes16. cbn. change 65536 with (256 * 256). rewrite (Z.rem_mul_r v 256 256) by lia. lia. }
  rewrite E. pose proof (Z.div_mod v 65536). lia.
Qed.
Lemma bytes16_len v : length (bytes16 v) = 2%nat.
Proof. done. Qed.
Lemma bytes32_len v : length (bytes32 v) = 4%nat.
Proof. done. Qed.
Lemma bytes32_zlen v : zlen (bytes32 v) = 4.
Proof. done. Qed.

Definition chunk_header_ok (h : chunk_header_t) : Prop :=
  0 <= chunk_type h < 2 ^ 16 ∧ 0 <= reserved1 h < 2 ^ 16 ∧ 0 <= chunk_sz h < 2 ^ 32 ∧ 0 <= total_sz h < 2 ^ 32.
Lemma chunk_header_zlen h : zlen (chunk_header_bytes h) = 12.
Proof. done. Qed.
Lemma sparse_header_zlen h : zlen (sparse_header_bytes h) = 28.
Proof. done. Qed.
Lemma chunk_header_read h r : chunk_header_ok h -> chunk_header_of (chunk_header_bytes h ++ r) = h.
Proof.
  intros (H1 & H2 & H3 & H4). destruct h as [t rs sz tot]. cbn [chunk_type reserved1 chunk_sz total_sz] in *.
  transitivity (ChunkHeader (le16 (bytes16 t ++ [])) (le16 (bytes16 rs ++ [])) (le32 (bytes32 sz ++ [])) (le32 (bytes32 tot ++ []))); [reflexivity|].
  by rewrite !le16_bytes16, !le32_bytes32.
Qed.
Definition sparse_header_ok (h : sparse_header_t) : Prop :=
  0 <= magic h < 2 ^ 32 ∧ 0 <= major_version h < 2 ^ 16 ∧ 0 <= minor_version h < 2 ^ 16 ∧ 0 <= file_hdr_sz h < 2 ^ 16 ∧
  0 <= chunk_hdr_sz h < 2 ^ 16 ∧ 0 <= blk_sz h < 2 ^ 32 ∧ 0 <= total_blks h < 2 ^ 32 ∧ 0 <= total_chunks h < 2 ^ 32 ∧
  0 <= image_checksum h < 2 ^ 32.
Lemma sparse_header_read h r : sparse_header_ok h -> sparse_header_of (sparse_header_bytes h ++ r) = h.
Proof.
  intros (H1 & H2 & H3 & H4 & H5 & H6 & H7 & H8 & H9). destruct h as [m maj min fh ch bs tb tc ck].
  cbn [magic major_version minor_version file_hdr_sz chunk_hdr_sz blk_sz total_blks total_chunks image_checksum] in *.
  transitivity (SparseHeader (le32 (bytes32 m ++ [])) (le16 (bytes16 maj ++ [])) (le16 (bytes16 min ++ [])) (le16 (bytes16 fh ++ []))
    (le16 (bytes16 ch ++ [])) (le32 (bytes32 bs ++ [])) (le32 (bytes32 tb ++ [])) (le32 (bytes32 tc ++ [])) (le32 (bytes32 ck ++ [])));
    [reflexivity|].
  by rewrite !le16_bytes16, !le32_bytes32.
Qed.
