(* ===== verification/Backed.v ===== *)
(** * The queue of blocks of an image ([ext4_utils/backed_block.c])

    What an image will hold is collected in a linked list of data blocks in the order of
    their block numbers: bytes in memory, parts of files, or a value to fill with.  The
    search for the place of a new block starts at the block queued last when it can.  The
    nodes are a store with [next] pointers, the two static variables are kept, and the
    sequence of the list is shown to be a sorted one with every block that was queued.
    [error] leaves the program ([force] is 0). *)
From stdpp Require Import base gmap list sorting.
From Stdlib Require Import ZArith Lia.
From S2P Require Import Prelude.
#[local] Open Scope Z_scope.

(** [data] is the address of the bytes; a file is a number. *)
Record data_block := DataBlock {
  block : Z; len : Z; data : Z; filename : option nat; offset : Z; fill_val : Z; fill : bool; next : option nat
}.
Record queue := Queue { data_blocks : option nat; last_used : option nat; nodes : gmap nat data_block }.

Definition set_next (n : option nat) (d : data_block) : data_block :=
  DataBlock (block d) (len d) (data d) (filename d) (offset d) (fill_val d) (fill d) n.
Definition store_next (x : nat) (n : option nat) (ns : gmap nat data_block) : option (gmap nat data_block) :=
  d ← ns !! x; Some (<[x := set_next n d]> ns).

(** The loop that looks for the node to insert after. *)
Fixpoint find_place (fuel : nat) (ns : gmap nat data_block) (db : nat) (b : Z) : option nat :=
  match fuel with
  | O => None
  | S fuel =>
      d ← ns !! db;
      match next d with
      | None => Some db
      | Some n => dn ← ns !! n; if block dn <? b then find_place fuel ns n b else Some db
      end
  end.

Definition queue_db (fuel : nat) (new_db : nat) (q : queue) : option queue :=
  new ← nodes q !! new_db;
  match data_blocks q with
  | None => Some (Queue (Some new_db) (last_used q) (nodes q))
  | Some h =>
      dh ← nodes q !! h;
      if block new <? block dh then
        ns ← store_next new_db (Some h) (nodes q);
        Some (Queue (Some new_db) (last_used q) ns)
      else
        db ← (match last_used q with
              | Some l => dl ← nodes q !! l; Some (if block dl <? block new then l else h)
              | None => Some h
              end);
        db ← find_place fuel (nodes q) db (block new);
        d ← nodes q !! db;
        ns ← (match next d with
              | None => store_next db (Some new_db) (nodes q)
              | Some n => ns ← store_next new_db (Some n) (nodes q); store_next db (Some new_db) ns
              end);
        Some (Queue (Some h) (Some new_db) ns)
  end.

(** [malloc] gives the node [x]; the three calls fill it in. *)
Definition push (fuel x : nat) (d : data_block) (q : queue) : option queue :=
  queue_db fuel x (Queue (data_blocks q) (last_used q) (<[x := d]> (nodes q))).
Definition queue_fill_block (fuel x : nat) (fill_val len block : Z) : queue -> option queue :=
  push fuel x (DataBlock block len 0 None 0 fill_val true None).
Definition queue_data_block (fuel x : nat) (data len block : Z) : queue -> option queue :=
  push fuel x (DataBlock block len data None 0 0 false None).
Definition queue_data_file (fuel x : nat) (filename : nat) (offset len block : Z) : queue -> option queue :=
  push fuel x (DataBlock block len 0 (Some filename) offset 0 false None).

Fixpoint free_loop (fuel : nat) (db : option nat) (ns : gmap nat data_block) : option (gmap nat data_block) :=
  match db, fuel with
  | None, _ => Some ns
  | _, O => None
  | Some x, S fuel => d ← ns !! x; free_loop fuel (next d) (delete x ns)
  end.
Definition free_data_blocks (fuel : nat) (q : queue) : option queue :=
  match data_blocks q with
  | None => Some q
  | Some _ => ns ← free_loop fuel (data_blocks q) (nodes q); Some (Queue None None ns)
  end.

(** ** Iteration *)
Definition DIV_ROUND_UP (x y : Z) : Z := u32 (x + y - 1) / y.

(** What a callback gets: the offset in the image, the source, and the length. *)
Inductive source := Data (addr : Z) | File (f : nat) (off : Z) | Fill (v : Z).
Record call := Call { c_off : Z; c_src : source; c_len : Z }.
Definition call_of (block_size : Z) (d : data_block) : call :=
  Call (block d * block_size)
    (match filename d with Some f => File f (offset d) | None => if fill d then Fill (fill_val d) else Data (data d) end)
    (len d).

(** The callbacks change a state [S] or leave the program; so does a block out of order. *)
Fixpoint for_each_loop {S} (fuel : nat) (f : call -> S -> option S) (block_size : Z) (ns : gmap nat data_block)
    (db : option nat) (last_block : Z) (s : S) : option S :=
  match db, fuel with
  | None, _ => Some s
  | _, O => None
  | Some x, Datatypes.S fuel =>
      d ← ns !! x;
      if block d <? last_block then None else
      s ← f (call_of block_size d) s;
      for_each_loop fuel f block_size ns (next d) (u32 (block d + DIV_ROUND_UP (len d) block_size - 1)) s
  end.
Definition for_each_data_block {S} (fuel : nat) (f : call -> S -> option S) (block_size : Z) (q : queue) (s : S) : option S :=
  for_each_loop fuel f block_size (nodes q) (data_blocks q) 0 s.

(** ** The sequence of the list *)
Fixpoint chain (ns : gmap nat data_block) (p : option nat) (L : list (nat * data_block)) : Prop :=
  match L with
  | [] => p = None
  | (x, d) :: L => p = Some x ∧ ns !! x = Some d ∧ chain ns (next d) L
  end.

(** A block without its link. *)
Definition content (d : data_block) : data_block := set_next None d.
Definition contents (L : list (nat * data_block)) : list data_block := content ∘ snd <$> L.
Definition le_block (d e : data_block) : Prop := block d <= block e.

Record queue_ok (q : queue) (L : list (nat * data_block)) : Prop := QueueOk {
  qo_chain : chain (nodes q) (data_blocks q) L;
  qo_nodup : NoDup L.*1;
  qo_sorted : StronglySorted le_block (contents L);
  qo_last : ∀ l, last_used q = Some l -> l ∈ L.*1
}.

Lemma chain_frame ns x d p L : x ∉ L.*1 -> chain ns p L -> chain (<[x := d]> ns) p L.
Proof.
  revert p. induction L as [|[y e] L IH]; intros p Hx; cbn [chain]; [done|]. intros (-> & Hy & Hc).
  cbn in Hx. apply not_elem_of_cons in Hx as [Hxy Hx]. rewrite lookup_insert_ne by done. auto.
Qed.
Lemma chain_app ns p L1 x d L2 :
  chain ns p (L1 ++ (x, d) :: L2) -> ns !! x = Some d ∧ chain ns (next d) L2.
Proof.
  revert p. induction L1 as [|[y e] L1 IH]; intros p; cbn [app chain]; [by intros (_ & ? & ?)|].
  intros (_ & _ & Hc). by apply IH in Hc.
Qed.

(** ** Where a block goes: the reference *)
Fixpoint ins (d : data_block) (L : list data_block) : list data_block :=
  match L with [] => [d] | e :: L' => if block e <? block d then e :: ins d L' else d :: L end.
Definition insert_block (d : data_block) (L : list data_block) : list data_block :=
  match L with [] => [d] | e :: L' => if block d <? block e then d :: L else e :: ins d L' end.

Lemma insert_block_front d e L : block d < block e -> insert_block d (e :: L) = d :: e :: L.
Proof. intros H. cbn. by rewrite (proj2 (Z.ltb_lt _ _)). Qed.
Lemma insert_block_back d e L : block e <= block d -> insert_block d (e :: L) = e :: ins d L.
Proof. intros H. cbn. by rewrite (proj2 (Z.ltb_ge _ _)). Qed.
Lemma ins_perm d L : ins d L ≡ₚ d :: L.
Proof. induction L as [|e L IH]; cbn; [done|]. case_match; [|done]. rewrite IH. constructor. Qed.
Lemma insert_block_perm d L : insert_block d L ≡ₚ d :: L.
Proof. destruct L as [|e L]; cbn; [done|]. case_match; [done|]. rewrite ins_perm. constructor. Qed.
Lemma ins_sorted d L : StronglySorted le_block L -> StronglySorted le_block (ins d L).
Proof.
  induction 1 as [|e L HL IH He]; cbn; [repeat constructor|]. destruct (Z.ltb_spec (block e) (block d)) as [Hlt|Hge].
  - constructor; [done|]. rewrite (ins_perm d L). constructor; [unfold le_block; lia | done].
  - constructor; [by constructor|]. constructor; [done|].
    eapply Forall_impl; [exact He|]. unfold le_block. intros f Hf. lia.
Qed.
Lemma insert_block_sorted d L : StronglySorted le_block L -> StronglySorted le_block (insert_block d L).
Proof.
  destruct 1 as [|e L HL He]; cbn; [repeat constructor|]. destruct (Z.ltb_spec (block d) (block e)) as [Hlt|Hge].
  - constructor; [by constructor|]. constructor; [unfold le_block; lia|].
    eapply Forall_impl; [exact He|]. unfold le_block. intros f Hf. lia.
  - constructor; [by apply ins_sorted|]. rewrite (ins_perm d L). constructor; [unfold le_block; lia | done].
Qed.
Lemma ins_app d L1 L2 : Forall (fun e => block e < block d) L1 -> ins d (L1 ++ L2) = L1 ++ ins d L2.
Proof. induction 1 as [|e L1 He _ IH]; [done|]. cbn. rewrite (proj2 (Z.ltb_lt _ _)) by lia. by rewrite IH. Qed.
Definition starts_at (b : Z) (L : list data_block) : Prop := match L with [] => True | e :: _ => b <= block e end.
Lemma ins_here d L : starts_at (block d) L -> ins d L = d :: L.
Proof. destruct L as [|e L]; [done|]. cbn. intros H. by rewrite (proj2 (Z.ltb_ge _ _)) by lia. Qed.

(** ** The search *)
Definition below (b : Z) (c : nat * data_block) : Prop := block (snd c) < b.
Lemma find_place_spec fuel ns p b P y e L2 :
  chain ns p (P ++ (y, e) :: L2) -> (length L2 < fuel)%nat ->
  ∃ A B, L2 = A ++ B ∧ Forall (below b) A ∧ starts_at b (contents B) ∧
    ∃ C z f, (y, e) :: A = C ++ [(z, f)] ∧ find_place fuel ns y b = Some z ∧ ns !! z = Some f ∧ chain ns (next f) B.
Proof.
  revert P y e L2. induction fuel as [|fuel IH]; intros P y e L2 Hc Hf; [lia|].
  destruct (chain_app _ _ _ _ _ _ Hc) as [Hy Hn]. cbn [find_place]. rewrite Hy. cbn.
  destruct L2 as [|[n dn] L2].
  - cbn in Hn. rewrite Hn. exists [], []. do 3 (split; [done|]). exists [], y, e. by rewrite Hn.
  - cbn in Hn. destruct Hn as (Hn & Hdn & Hn2). rewrite Hn. cbn. rewrite Hdn. cbn. destruct (Z.ltb_spec (block dn) b) as [Hlt|Hge].
    + assert (Hc' : chain ns p ((P ++ [(y, e)]) ++ (n, dn) :: L2)) by (by rewrite <- app_assoc).
      destruct (IH _ _ _ _ Hc') as (A & B & -> & HA & HB & C & z & f & E & Hz & Hz2); [cbn in Hf; lia|].
      exists ((n, dn) :: A), B. split; [done|]. split; [by constructor|]. split; [done|].
      exists ((y, e) :: C), z, f. by rewrite E.
    + exists [], ((n, dn) :: L2). do 2 (split; [done|]). split; [cbn; lia|]. exists [], y, e. rewrite Hn. by split_and!.
Qed.

(** Linking [x] in after [z]. *)
Lemma chain_insert ns p L1 z f B x d :
  chain ns p (L1 ++ (z, f) :: B) -> NoDup (L1 ++ (z, f) :: B).*1 -> x ∉ (L1 ++ (z, f) :: B).*1 ->
  chain (<[z := set_next (Some x) f]> (<[x := set_next (next f) d]> ns)) p
    (L1 ++ (z, set_next (Some x) f) :: (x, set_next (next f) d) :: B).
Proof.
  revert p. induction L1 as [|[y e] L1 IH]; intros p; cbn [app chain fmap list_fmap].
  - intros (-> & Hz & Hc) Hnd Hx. cbn in Hnd, Hx. apply NoDup_cons in Hnd as [Hzn Hnd].
    apply not_elem_of_cons in Hx as [Hxz Hx]. rewrite lookup_insert_eq. do 3 (split; [done|]).
    rewrite lookup_insert_ne, lookup_insert_eq by done. split; [done|]. cbn. by do 2 (apply chain_frame; [done|]).
  - intros (-> & Hy & Hc) Hnd Hx. cbn in Hnd, Hx. apply NoDup_cons in Hnd as [Hyn Hnd].
    apply not_elem_of_cons in Hx as [Hxy Hx]. split; [done|]. split.
    + rewrite !lookup_insert_ne; [done | done |]. intros ->. apply Hyn. rewrite fmap_app, elem_of_app. right. left.
    + by apply IH.
Qed.

Lemma contents_cons x d L : contents ((x, d) :: L) = content d :: contents L.
Proof. done. Qed.
Lemma contents_app L1 L2 : contents (L1 ++ L2) = contents L1 ++ contents L2.
Proof. apply fmap_app. Qed.
Lemma sorted_before L1 y e L2 b :
  StronglySorted le_block (contents (L1 ++ (y, e) :: L2)) -> block e < b -> Forall (below b) (L1 ++ [(y, e)]).
Proof.
  intros Hs Hb. apply Forall_app. split; [|by repeat constructor].
  induction L1 as [|[z f] L1 IH]; [constructor|]. inversion Hs as [|? ? Hs' Hall]; subst. constructor; [|by apply IH].
  rewrite Forall_forall in Hall. unfold below. cbn.
  assert (le_block (content f) (content e)) as H; [|unfold le_block in H; cbn in H; lia].
  apply Hall. fold contents. change (contents (L1 ++ (y, e) :: L2)) with (contents (L1 ++ (y, e) :: L2)).
  rewrite contents_app. apply elem_of_app. right. left.
Qed.
Lemma below_contents b L : Forall (below b) L -> Forall (fun e => block e < b) (contents L).
Proof. intros H. apply Forall_fmap. eapply Forall_impl; [exact H|]. by intros [z f]. Qed.

(** The search from the head or from the block queued last ends after all smaller blocks. *)
Lemma search_ok fuel q h dh L d :
  queue_ok q ((h, dh) :: L) -> (length L < fuel)%nat -> block dh <= block d ->
  ∃ start C z f B, (match last_used q with
      | Some l => dl ← nodes q !! l; Some (if block dl <? block d then l else h)
      | None => Some h
      end) = Some start ∧ find_place fuel (nodes q) start (block d) = Some z ∧ nodes q !! z = Some f ∧
    (h, dh) :: L = C ++ (z, f) :: B ∧ insert_block d (contents ((h, dh) :: L)) = contents (C ++ [(z, f)]) ++ d :: contents B.
Proof.
  intros [Hc Hnd Hs Hl] Hfuel Hb.
  assert (Hhead : ∃ C z f B, find_place fuel (nodes q) h (block d) = Some z ∧ nodes q !! z = Some f ∧
    (h, dh) :: L = C ++ (z, f) :: B ∧ insert_block d (contents ((h, dh) :: L)) = contents (C ++ [(z, f)]) ++ d :: contents B).
  { destruct (find_place_spec fuel (nodes q) _ (block d) [] h dh L Hc Hfuel) as (A & B & -> & HA & HB & C & z & f & E & Hz & Hf & _).
    exists C, z, f, B. split_and!; [done | done | by rewrite app_comm_cons, E, <- app_assoc |].
    rewrite <- E, !contents_cons, insert_block_back by done. cbn [app]. f_equal. rewrite contents_app, ins_app by (by apply below_contents). by rewrite ins_here. }
  destruct (last_used q) as [l|] eqn:El; [|by destruct Hhead as (C & z & f & B & Hr); exists h, C, z, f, B]. specialize (Hl l eq_refl).
  apply list_elem_of_fmap in Hl as ([l' dl] & -> & Hin). apply list_elem_of_split in Hin as (P & L2 & E0).
  cbn [fst]. rewrite E0 in Hc, Hs. destruct (chain_app _ _ _ _ _ _ Hc) as [Hdl _]. rewrite Hdl. cbn.
  destruct (Z.ltb_spec (block dl) (block d)) as [Hlt|]; [|by destruct Hhead as (C & z & f & B & Hr); exists h, C, z, f, B].
  destruct (find_place_spec fuel (nodes q) _ (block d) P l' dl L2 Hc) as (A & B & -> & HA & HB & C & z & f & E & Hz & Hf & _).
  { apply (f_equal length) in E0. rewrite length_app in E0. cbn in E0. lia. }
  assert (Hall : (h, dh) :: L = ((P ++ [(l', dl)]) ++ A) ++ B) by (rewrite E0, <- !app_assoc; done).
  exists l', (P ++ C), z, f, B. split_and!; [done | done | done | |].
  - rewrite E0, app_comm_cons, E, <- !app_assoc. done.
  - change (insert_block d (contents ((h, dh) :: L)) = contents ((P ++ C) ++ [(z, f)]) ++ d :: contents B).
    replace ((P ++ C) ++ [(z, f)]) with ((P ++ [(l', dl)]) ++ A) by (rewrite <- !app_assoc, <- E; done).
    pose proof (sorted_before _ _ _ _ _ Hs Hlt) as HP. set (PA := (P ++ [(l', dl)]) ++ A) in *.
    assert (HPA : Forall (below (block d)) PA) by (by apply Forall_app).
    assert (Hne : PA <> []) by (subst PA; destruct P; discriminate). clearbody PA.
    destruct PA as [|[h' dh'] PA]; [done|]. rewrite Hall. assert (dh' = dh) as -> by (cbn in Hall; congruence).
    rewrite <- app_comm_cons, !contents_cons, insert_block_back by done.
    cbn [app]. f_equal. rewrite contents_app, ins_app by (apply below_contents; by inversion HPA). by rewrite ins_here.
Qed.

Lemma queue_db_ok fuel x d q L :
  queue_ok q L -> nodes q !! x = Some d -> x ∉ L.*1 -> next d = None -> (length L <= fuel)%nat ->
  ∃ q' L', queue_db fuel x q = Some q' ∧ (∀ y, nodes q !! y = None -> nodes q' !! y = None) ∧
    queue_ok q' L' ∧ contents L' = insert_block (content d) (contents L).
Proof.
  intros Hq Hx HxL Hn Hfuel. pose proof Hq as [Hc Hnd Hs Hl]. unfold queue_db. rewrite Hx. cbn.
  assert (Hcd : ∀ n, content (set_next n d) = content d) by done.
  assert (Hself : set_next None d = d) by (destruct d; cbn in *; by subst).
  destruct L as [|[h dh] L]; cbn [chain] in Hc.
  - rewrite Hc. eexists _, [(x, d)]. do 2 (split; [done|]). split; [|done]. split; cbn; try done.
    + apply NoDup_singleton.
    + repeat constructor.
    + intros l E. specialize (Hl l E). by apply elem_of_nil in Hl.
  - destruct Hc as (Eh & Hh & Hc). rewrite Eh. cbn. rewrite Hh. cbn.
    cbn in HxL. apply not_elem_of_cons in HxL as [Hxh HxL]. destruct (Z.ltb_spec (block d) (block dh)) as [Hlt|Hge].
    + unfold store_next. rewrite Hx. cbn. eexists _, ((x, set_next (Some h) d) :: (h, dh) :: L). split; [done|].
      split; [intros y Hy; cbn; rewrite lookup_insert_ne; [done | congruence]|].
      pose proof (insert_block_front (content d) (content dh) (contents L) Hlt) as Ef.
      split; [|done]. split; cbn.
      * rewrite lookup_insert_eq, lookup_insert_ne by done. split_and!; try done. by apply chain_frame.
      * constructor; [|done]. by apply not_elem_of_cons.
      * pose proof (insert_block_sorted (content d) (contents ((h, dh) :: L)) Hs) as H. exact (eq_rect _ _ H _ Ef).
      * intros l E. specialize (Hl l E). by right.
    + destruct (search_ok fuel q h dh L (content d) Hq) as (start & C & z & f & B & Est & Ez & Hf & EL & Eins);
        [cbn in Hfuel; lia | done |]. cbn [block content set_next] in Est, Ez. rewrite Est. cbn. rewrite Ez. cbn. rewrite Hf. cbn.
      assert (Hxz : x ∉ (C ++ (z, f) :: B).*1) by (rewrite <- EL; cbn; by apply not_elem_of_cons).
      rewrite EL in Hnd. pose proof (chain_insert (nodes q) (Some h) C z f B x d) as Hch.
      rewrite <- EL in Hch at 1. specialize (Hch ltac:(cbn; done) Hnd Hxz).
      assert (Hne : z <> x) by (intros ->; apply Hxz; rewrite fmap_app, elem_of_app; right; left).
      assert (Ens : (match next f with
          | None => store_next z (Some x) (nodes q)
          | Some n => ns ← store_next x (Some n) (nodes q); store_next z (Some x) ns
          end) = Some (<[z := set_next (Some x) f]> (<[x := set_next (next f) d]> (nodes q)))).
      { unfold store_next. destruct (next f) as [n|] eqn:En.
        - rewrite Hx. cbn. by rewrite lookup_insert_ne, Hf by done.
        - rewrite Hf. cbn. rewrite Hself. by rewrite (insert_id (nodes q) x d). }
      rewrite Ens. cbn. eexists _, _. split; [done|].
      split; [intros y Hy; cbn; rewrite !lookup_insert_ne; [done | congruence | congruence]|].
      assert (Econt : contents (C ++ (z, set_next (Some x) f) :: (x, set_next (next f) d) :: B) =
        insert_block (content d) (contents ((h, dh) :: L))).
      { rewrite Eins, !contents_app. by rewrite <- app_assoc. }
      split; [|by rewrite Econt; exact (insert_block_back (content d) (content dh) (contents L) Hge)]. split; cbn [nodes data_blocks last_used].
      * exact Hch.
      * rewrite fmap_app in Hnd |- *. cbn. apply NoDup_app in Hnd as (H1 & H2 & H3). cbn in H2, H3.
        rewrite fmap_app in Hxz. cbn in Hxz. apply NoDup_app. rewrite !NoDup_cons in *. set_solver.
      * rewrite Econt. by apply insert_block_sorted.
      * intros l [= <-]. rewrite fmap_app, elem_of_app. right. cbn. set_solver.
Qed.

Lemma push_ok fuel x d q L :
  queue_ok q L -> nodes q !! x = None -> next d = None -> (length L <= fuel)%nat ->
  ∃ q' L', push fuel x d q = Some q' ∧ (∀ y, y <> x -> nodes q !! y = None -> nodes q' !! y = None) ∧
    queue_ok q' L' ∧ contents L' = insert_block d (contents L).
Proof.
  intros [Hc Hnd Hs Hl] Hx Hn Hf.
  assert (HxL : x ∉ L.*1).
  { intros ([y e] & -> & Hin)%list_elem_of_fmap. apply list_elem_of_split in Hin as (A & B & ->).
    apply chain_app in Hc as [Hy _]. cbn in Hx. congruence. }
  destruct (queue_db_ok fuel x d (Queue (data_blocks q) (last_used q) (<[x := d]> (nodes q))) L) as (q' & L' & E & Hdom & Hq & Hcont);
    [split; cbn; [by apply chain_frame | done..] | cbn; apply lookup_insert_eq | done | done | done |].
  exists q', L'. split; [done|]. split; [intros y Hy Hny; apply Hdom; cbn; by rewrite lookup_insert_ne|]. split; [done|].
  replace d with (content d) by (destruct d; cbn in *; by subst). done.
Qed.

(** ** Iterating and freeing *)
Fixpoint each_block {S} (f : call -> S -> option S) (block_size : Z) (L : list data_block) (last_block : Z) (s : S) : option S :=
  match L with
  | [] => Some s
  | d :: L =>
      if block d <? last_block then None else
      s ← f (call_of block_size d) s;
      each_block f block_size L (u32 (block d + DIV_ROUND_UP (len d) block_size - 1)) s
  end.
Lemma for_each_contents {S} fuel (f : call -> S -> option S) bs ns p L last s :
  chain ns p L -> (length L <= fuel)%nat ->
  for_each_loop fuel f bs ns p last s = each_block f bs (contents L) last s.
Proof.
  revert fuel p last s. induction L as [|[x d] L IH]; intros fuel p last s; cbn [chain].
  - intros -> _. by destruct fuel.
  - intros (-> & Hx & Hc) Hf. destruct fuel as [|fuel]; [cbn in Hf; lia|]. cbn [for_each_loop]. rewrite Hx. cbn.
    destruct (block d <? last); [done|]. change (call_of bs (content d)) with (call_of bs d).
    destruct (f (call_of bs d) s) as [s'|]; [|done]. cbn. apply IH; [done | cbn in Hf; lia].
Qed.
Lemma free_loop_ok fuel p L ns :
  chain ns p L -> NoDup L.*1 -> (length L <= fuel)%nat ->
  ∃ ns', free_loop fuel p ns = Some ns' ∧ ∀ x, ns' !! x = if decide (x ∈ L.*1) then None else ns !! x.
Proof.
  revert fuel p ns. induction L as [|[x d] L IH]; intros fuel p ns; cbn [chain].
  - intros -> _ _. exists ns. split; [by destruct fuel|]. intros x. by rewrite decide_False by apply not_elem_of_nil.
  - intros (-> & Hx & Hc) Hnd Hf. destruct fuel as [|fuel]; [cbn in Hf; lia|]. cbn [free_loop]. rewrite Hx. cbn.
    apply NoDup_cons in Hnd as [HxL Hnd].
    assert (Hc' : chain (delete x ns) (next d) L).
    { clear IH Hf Hnd. revert Hc HxL. generalize (next d). induction L as [|[y e] L IH]; intros p; cbn [chain]; [done|].
      intros (-> & Hy & Hc) HxL. cbn in HxL. apply not_elem_of_cons in HxL as [Hxy HxL].
      rewrite lookup_delete_ne by done. auto. }
    destruct (IH fuel (next d) (delete x ns) Hc' Hnd) as (ns' & E & Hns); [cbn in Hf; lia|]. exists ns'. split; [done|].
    intros y. rewrite Hns. cbn [fmap list_fmap fst]. destruct (decide (y ∈ x :: L.*1)) as [Hin|Hin].
    + case_decide; [done|]. apply elem_of_cons in Hin as [->|]; [apply lookup_delete_eq | done].
    + apply not_elem_of_cons in Hin as [Hyx Hin]. rewrite decide_False by done. by rewrite lookup_delete_ne.
Qed.

Fixpoint push_all (fuel : nat) (ds : list (nat * data_block)) (q : queue) : option queue :=
  match ds with [] => Some q | (x, d) :: ds => q ← push fuel x d q; push_all fuel ds q end.
Definition empty_queue : queue := Queue None None ∅.
Lemma empty_queue_ok : queue_ok empty_queue [].
Proof. split; try done; constructor. Qed.

Lemma push_all_ok fuel ds q L :
  queue_ok q L -> NoDup ds.*1 -> (∀ x d, (x, d) ∈ ds -> nodes q !! x = None ∧ next d = None) ->
  (length L + length ds <= fuel)%nat ->
  ∃ q' L', push_all fuel ds q = Some q' ∧ queue_ok q' L' ∧ length L' = (length L + length ds)%nat ∧
    contents L' = foldl (fun L d => insert_block d L) (contents L) ds.*2.
Proof.
  revert q L. induction ds as [|[x d] ds IH]; intros q L Hq Hnd Hfresh Hf; cbn [push_all].
  - exists q, L. split_and!; [done | done | cbn; lia | done].
  - destruct (Hfresh x d) as [Hx Hn]; [left|]. cbn in Hnd, Hf. apply NoDup_cons in Hnd as [Hxn Hnd].
    destruct (push_ok fuel x d q L Hq Hx Hn) as (q1 & L1 & E & Hdom & Hq1 & Hc1); [lia|]. rewrite E. cbn.
    assert (Hlen : length L1 = S (length L)).
    { pose proof (insert_block_perm d (contents L)) as Hp. rewrite <- Hc1 in Hp. apply Permutation_length in Hp.
      unfold contents in Hp. cbn in Hp. by rewrite !length_fmap in Hp. }
    destruct (IH q1 L1 Hq1 Hnd) as (q' & L' & E' & Hq' & Hl' & Hc'); [|lia|].
    + intros y e Hy. destruct (Hfresh y e) as [Hyn Hen]; [by right|]. split; [|done]. apply Hdom; [|done].
      intros ->. apply Hxn. apply list_elem_of_fmap. by exists (x, e).
    + exists q', L'. split_and!; [done | done | cbn; lia |]. by rewrite Hc', Hc1.
Qed.

(** C20. Blocks come out in order: whatever blocks are queued, in whatever order, the list holds exactly
    them, sorted by block number; the short cut from the last block changes nothing, as the
    sequence is that of the insertions from the head; and the iteration makes one call for
    each, in this order, until one is out of order. *)
Theorem backed_blocks_sorted fuel ds :
  NoDup ds.*1 -> (∀ x d, (x, d) ∈ ds -> next d = None) -> (length ds <= fuel)%nat ->
  ∃ q L, push_all fuel ds empty_queue = Some q ∧ L = foldl (fun L d => insert_block d L) [] ds.*2 ∧
    L ≡ₚ ds.*2 ∧ StronglySorted le_block L ∧
    ∀ (S : Type) (f : call -> S -> option S) bs s, for_each_data_block fuel f bs q s = each_block f bs L 0 s.
Proof.
  intros Hnd Hn Hf. destruct (push_all_ok fuel ds empty_queue [] empty_queue_ok Hnd) as (q & L & E & Hq & Hl & Hc);
    [intros x d Hx; split; [apply lookup_empty | by apply (Hn x)] | done |].
  exists q, (contents L). split_and!; [done | by rewrite Hc | | apply (qo_sorted _ _ Hq) |].
  - rewrite Hc. change (contents []) with (@nil data_block). generalize ds.*2. clear. intros ds.
    cut (∀ acc, foldl (fun L d => insert_block d L) acc ds ≡ₚ acc ++ ds); [intros H; exact (H [])|].
    induction ds as [|d ds IH]; intros acc; cbn; [by rewrite app_nil_r|]. rewrite IH, insert_block_perm.
    by rewrite <- Permutation_middle.
  - intros S f bs s. apply for_each_contents; [apply (qo_chain _ _ Hq) | cbn in Hl; lia].
Qed.

Lemma backed_blocks_sorted_witness :
  let b n := DataBlock n 4 0 None 0 0 false None in
  ∃ q L, push_all 4 [(1%nat, b 5); (2%nat, b 2); (3%nat, b 9); (4%nat, b 7)] empty_queue = Some q ∧
    L = [b 2; b 5; b 7; b 9] ∧ L ≡ₚ [b 5; b 2; b 9; b 7] ∧ StronglySorted le_block L ∧
    ∀ (S : Type) (f : call -> S -> option S) bs s, for_each_data_block 4 f bs q s = each_block f bs L 0 s.
Proof.
  intros b. apply (backed_blocks_sorted 4 [(1%nat, b 5); (2%nat, b 2); (3%nat, b 9); (4%nat, b 7)]).
  - by apply (bool_decide_unpack _).
  - intros x d Hx. repeat (apply elem_of_cons in Hx as [[= -> ->]|Hx]; [done|]). by apply elem_of_nil in Hx.
  - cbn. lia.
Defined.
