(* ===== verification/OutFile.v ===== *)
(** * Writing an image ([ext4_utils/output_file.c], and [write_ext4_image] of [ext4_utils.c])

    The queued blocks go to a file either as they are, each at its offset, or as a sparse
    image: a header, and for every block a chunk of data or of a value to fill with, with
    a chunk to skip in front of it where there is a gap.  The number of chunks is in the
    header, so a first pass over the queue counts them.  [error] leaves the program
    ([force] is 0): [None].

    A file is reached through a structure of operations.  The system calls, the calls of
    zlib, the bytes at an address and the mapping of a file are parameters. *)
From stdpp Require Import base gmap list.
From Stdlib Require Import ZArith Lia.
From S2P Require Import Prelude Crc SparseFormat Backed.
#[local] Open Scope Z_scope.

(** ** The operations on a file *)
Record output_file_ops (F : Type) := OutputFileOps {
  op_seek : F -> Z -> option F;
  op_write : F -> list Z -> option F
}.
Arguments OutputFileOps {F}.
Arguments op_seek {F}.
Arguments op_write {F}.

Section Ops.
Context {F : Type} (lseek64 : F -> Z -> F * Z) (write : F -> list Z -> F * Z).
Definition file_seek (f : F) (off : Z) : option F :=
  let '(f, ret) := lseek64 f off in
  if ret <? 0 then None else Some f.
Definition file_write (f : F) (data : list Z) : option F :=
  let '(f, ret) := write f data in
  if ret <? 0 then None else
  if ret <? zlen data then None else Some f.
Definition file_ops : output_file_ops F := OutputFileOps file_seek file_write.
End Ops.

Section GzOps.
Context {F : Type} (gzseek : F -> Z -> F * Z) (gzwrite : F -> list Z -> F * Z).
Definition gz_file_seek (f : F) (off : Z) : option F :=
  let '(f, ret) := gzseek f off in
  if ret <? 0 then None else Some f.
Definition gz_file_write (f : F) (data : list Z) : option F :=
  let '(f, ret) := gzwrite f data in
  if ret <? 0 then None else
  if ret <? zlen data then None else Some f.
Definition gz_file_ops : output_file_ops F := OutputFileOps gz_file_seek gz_file_write.
End GzOps.

(** The parts of [info] that are used, and of [struct output_file]; [hdr] is the static
    [sparse_header]. *)
Record fs_info := FsInfo { info_len : Z; block_size : Z }.
Record output_file (F : Type) := OutputFile {
  fd : F; sparse : bool; cur_out_ptr : Z; chunk_cnt : Z; crc32 : Z; use_crc : bool; hdr : sparse_header_t
}.
Arguments OutputFile {F}.
Arguments fd {F}.
Arguments sparse {F}.
Arguments cur_out_ptr {F}.
Arguments chunk_cnt {F}.
Arguments crc32 {F}.
Arguments use_crc {F}.
Arguments hdr {F}.

Definition MAX_BLOCK : Z := 4096.

(** [(len + (info.block_size - 1)) & (~(info.block_size -1))], and [ALIGN]. *)
Definition rnd_up (len bs : Z) : Z := s32 (ROUNDUP len bs).
Definition ALIGN (x y : Z) : Z := u32 (y * DIV_ROUND_UP x y).

Section Write.
Context {F : Type} (ops : output_file_ops F).
(** The bytes at an address; the bytes of a mapping of a file. *)
Context (load : Z -> Z -> option (list Z)) (mmap64 : nat -> Z -> Z -> option (list Z)).
Context (info : fs_info).
Implicit Types out : output_file F.

Definition put (b : list Z) (out : output_file F) : option (output_file F) :=
  f ← op_write ops (fd out) b;
  Some (OutputFile f (sparse out) (cur_out_ptr out) (chunk_cnt out) (crc32 out) (use_crc out) (hdr out)).
Definition seek (off : Z) (out : output_file F) : option (output_file F) :=
  f ← op_seek ops (fd out) off;
  Some (OutputFile f (sparse out) (cur_out_ptr out) (chunk_cnt out) (crc32 out) (use_crc out) (hdr out)).
(** [out->cur_out_ptr += n; out->chunk_cnt++], with the checksum so far. *)
Definition advance_out (n crc : Z) (out : output_file F) : output_file F :=
  OutputFile (fd out) (sparse out) (u64 (cur_out_ptr out + n)) (u32 (chunk_cnt out + 1)) crc (use_crc out) (hdr out).

Definition emit_skip_chunk (skip_len : Z) (out : output_file F) : option (output_file F) :=
  if negb (skip_len mod block_size info =? 0) then None else
  out ← put (chunk_header_bytes
               (ChunkHeader CHUNK_TYPE_DONT_CARE 0 (u32 (skip_len / block_size info)) CHUNK_HEADER_LEN)) out;
  Some (advance_out skip_len (crc32 out) out).

(** What [write_chunk_fill] and [write_chunk_raw] begin with. *)
Definition chunk_start (off : Z) (out : output_file F) : option (output_file F) :=
  if off <? cur_out_ptr out then None else
  out ← (if cur_out_ptr out <? off then emit_skip_chunk (u64 (off - cur_out_ptr out)) out else Some out);
  if negb (off mod block_size info =? 0) then None else
  if negb (off =? cur_out_ptr out) then None else Some out.

(** The checksum of [count] blocks; [fill_buf] has room for 4096 bytes. *)
Fixpoint crc_fill (count : nat) (fill_buf : list Z) (crc : Z) : Z :=
  match count with O => crc | S count => crc_fill count fill_buf (sparse_crc32 crc fill_buf) end.
Definition fill_block (fill_val : Z) : option (list Z) :=
  if (MAX_BLOCK <? block_size info) || negb (block_size info mod 4 =? 0) then None
  else Some (fill_bytes fill_val (block_size info)).

Definition write_chunk_fill (off fill_val len : Z) (out : output_file F) : option (output_file F) :=
  out ← chunk_start off out;
  let rnd_up_len := rnd_up len (block_size info) in
  let chunk_sz := u32 rnd_up_len / block_size info in
  out ← put (chunk_header_bytes (ChunkHeader CHUNK_TYPE_FILL 0 chunk_sz (CHUNK_HEADER_LEN + 4))) out;
  out ← put (bytes32 fill_val) out;
  crc ← (if use_crc out then fill_buf ← fill_block fill_val; Some (crc_fill (Z.to_nat chunk_sz) fill_buf (crc32 out))
         else Some (crc32 out));
  Some (advance_out rnd_up_len crc out).

(** [data] are the [len] bytes at the pointer. *)
Definition write_chunk_raw (off : Z) (data : list Z) (len : Z) (out : output_file F) : option (output_file F) :=
  out ← chunk_start off out;
  let rnd_up_len := rnd_up len (block_size info) in
  let zero_len := rnd_up_len - len in
  let zero_buf := replicate (Z.to_nat zero_len) 0 in
  out ← put (chunk_header_bytes (ChunkHeader CHUNK_TYPE_RAW 0 (u32 rnd_up_len / block_size info)
                                   (u32 (CHUNK_HEADER_LEN + rnd_up_len)))) out;
  out ← put data out;
  out ← (if negb (zero_len =? 0) then put zero_buf out else Some out);
  let crc := if use_crc out then
      let crc := sparse_crc32 (crc32 out) data in
      if negb (zero_len =? 0) then sparse_crc32 crc zero_buf else crc
    else crc32 out in
  Some (advance_out rnd_up_len crc out).

Definition close_output_file (out : output_file F) : option (output_file F) :=
  if sparse out then
    out ← (if use_crc out then
             out ← put (chunk_header_bytes (ChunkHeader CHUNK_TYPE_CRC32 0 0 (CHUNK_HEADER_LEN + 4))) out;
             out ← put (bytes32 (crc32 out)) out;
             Some (OutputFile (fd out) (sparse out) (cur_out_ptr out) (u32 (chunk_cnt out + 1)) (crc32 out) (use_crc out) (hdr out))
           else Some out);
    if negb (chunk_cnt out =? total_chunks (hdr out)) then None else Some out
  else Some out.

Definition static_header : sparse_header_t :=
  SparseHeader SPARSE_HEADER_MAGIC 1 0 SPARSE_HEADER_LEN CHUNK_HEADER_LEN 0 0 0 0.
Definition set_header (chunks : Z) (crc : bool) (h : sparse_header_t) : sparse_header_t :=
  SparseHeader (magic h) (major_version h) (minor_version h) (file_hdr_sz h) (chunk_hdr_sz h)
    (block_size info) (u32 (info_len info / block_size info))
    (if crc then u32 (chunks + 1) else chunks) (image_checksum h).
Definition open_output_fd (f : F) (sparse : bool) (chunks : Z) (crc : bool) : option (output_file F) :=
  let out := OutputFile f sparse 0 0 0 crc static_header in
  if sparse then
    let h := set_header chunks crc static_header in
    put (sparse_header_bytes h) (OutputFile f sparse 0 0 0 crc h)
  else Some out.

Definition pad_output_file (len : Z) (out : output_file F) : option (output_file F) :=
  if info_len info <? len then None else
  if sparse out then
    if len <? cur_out_ptr out then None else
    if cur_out_ptr out <? len then emit_skip_chunk (u64 (len - cur_out_ptr out)) out else Some out
  else
    out ← seek (len - 1) out;
    put [0] out.

(** The offset after [len] bytes, a signed number. *)
Definition end_off (off len : Z) : Z := u64 (off + len).

Definition write_data_block (off data len : Z) (out : output_file F) : option (output_file F) :=
  if info_len info <? end_off off len then None else
  b ← load data len;
  if sparse out then write_chunk_raw off b len out
  else out ← seek off out; put b out.

Fixpoint write_fill_loop (fuel : nat) (fill_buf : list Z) (len : Z) (out : output_file F) : option (output_file F) :=
  if len =? 0 then Some out else
  match fuel with
  | O => None
  | S fuel =>
      let write_len := if zlen fill_buf <? len then zlen fill_buf else len in
      if write_len <? 0 then None else
      out ← put (take (Z.to_nat write_len) fill_buf) out;
      write_fill_loop fuel fill_buf (len - write_len) out
  end.
Definition write_fill_block (off fill_val len : Z) (out : output_file F) : option (output_file F) :=
  if info_len info <? end_off off len then None else
  if sparse out then write_chunk_fill off fill_val len out
  else
    let fill_buf := fill_bytes fill_val MAX_BLOCK in
    out ← seek off out;
    write_fill_loop (Z.to_nat (len / MAX_BLOCK + 1)) fill_buf len out.

Definition write_data_file (off : Z) (file : nat) (offset len : Z) (out : output_file F) : option (output_file F) :=
  if info_len info <=? end_off off len then None else
  let aligned_offset := Z.land offset (Z.lnot (4096 - 1)) in
  let aligned_diff := offset - aligned_offset in
  let buffer_size := s32 (len + aligned_diff) in
  data ← mmap64 file aligned_offset buffer_size;
  let b := drop (Z.to_nat aligned_diff) data in
  if sparse out then write_chunk_raw off b len out
  else out ← seek off out; put b out.

(** ** The passes over the queue *)

(** The callbacks of [write_ext4_image]; their [len] is an [int]. *)
Definition ext4_write (c : call) (out : output_file F) : option (output_file F) :=
  match c_src c with
  | Data addr => write_data_block (c_off c) addr (s32 (c_len c)) out
  | File f offset => write_data_file (c_off c) f offset (s32 (c_len c)) out
  | Fill v => write_fill_block (c_off c) v (s32 (c_len c)) out
  end.

(** [count_data_block], [count_fill_block] and [count_file_block] are the same. *)
Record count_chunks := CountChunks { chunks : Z; cur_ptr : Z }.
Definition count_block (c : call) (cc : count_chunks) : option count_chunks :=
  let n := if cur_ptr cc <? c_off c then u32 (chunks cc + 1) else chunks cc in
  Some (CountChunks (u32 (n + 1)) (u64 (c_off c + ALIGN (s32 (c_len c)) (block_size info)))).
Definition count_sparse_chunks (fuel : nat) (q : queue) : option Z :=
  cc ← for_each_data_block fuel count_block (block_size info) q (CountChunks 0 0);
  Some (if negb (cur_ptr cc =? info_len info) then u32 (chunks cc + 1) else chunks cc).

Definition write_ext4_image (fuel : nat) (f : F) (sparse crc : bool) (q : queue) : option (output_file F) :=
  n ← count_sparse_chunks fuel q;
  out ← open_output_fd f sparse n crc;
  out ← for_each_data_block fuel ext4_write (block_size info) q out;
  out ← pad_output_file (info_len info) out;
  close_output_file out.
End Write.
