(* ===== verification/OutFileSpec.v ===== *)
(** * The image a sparse file stands for

    What [write_ext4_image] is to write, as a list of chunks and as the bytes of the image,
    and that it does, for any queue of blocks that do not overlap.  The operations on the
    file are an interface: all that is asked of them is that what is written is appended. *)
From stdpp Require Import base gmap list sorting.
From Stdlib Require Import ZArith Lia.
From S2P Require Import Prelude Crc SparseFormat Backed OutFile.
#[local] Open Scope Z_scope.

(** A file that is written from front to back. *)
Class Appends {F : Type} (ops : output_file_ops F) := {
  holds : F -> list Z -> Prop;
  holds_write f s b : holds f s -> ∃ f', op_write ops f b = Some f' ∧ holds f' (s ++ b)
}.

(** A file that can be written anywhere: what it holds and the position. *)
Class Seeks {F : Type} (ops : output_file_ops F) := {
  view : F -> list Z -> Z -> Prop;
  view_seek f s p off : view f s p -> 0 <= off -> ∃ f', op_seek ops f off = Some f' ∧ view f' s off;
  view_write f s p b : view f s p -> ∃ f', op_write ops f b = Some f' ∧ view f' (write_at p b s) (p + zlen b)
}.

(** Block sizes and lengths [make_ext4fs] accepts. *)
Record geometry (info : fs_info) : Prop := Geometry {
  g_pow : ∃ k, 2 <= k <= 12 ∧ block_size info = 2 ^ k;
  g_len : (block_size info | info_len info);
  g_blocks : 0 <= info_len info / block_size info < 2 ^ 32 - 1
}.

Section Layout.
Context (load : Z -> Z -> option (list Z)) (mmap64 : nat -> Z -> Z -> option (list Z)) (info : fs_info).
Notation bs := (block_size info).

(** The bytes a source gives, and when it gives them. *)
Definition file_bytes (f : nat) (offset n : Z) : option (list Z) :=
  let aligned := Z.land offset (Z.lnot (4096 - 1)) in
  data ← mmap64 f aligned (n + (offset - aligned));
  Some (drop (Z.to_nat (offset - aligned)) data).
Definition data_bytes (s : source) (n : Z) : option (list Z) :=
  match s with
  | Data addr => load addr n
  | File f offset => file_bytes f offset n
  | Fill v => Some (take (Z.to_nat n) (fill_bytes v (round_up_to n bs)))
  end.
Definition is_file (s : source) : bool := match s with File _ _ => true | _ => false end.
Definition readable (s : source) (n : Z) : Prop :=
  (∃ b, data_bytes s n = Some b ∧ zlen b = n) ∧
  match s with Fill v => 0 <= v < 2 ^ 32 | File _ offset => 0 <= offset ∧ n + 4096 < 2 ^ 31 | Data _ => True end.

Definition start (d : data_block) : Z := block d * bs.
Definition span_of (d : data_block) : Z := round_up_to (len d) bs.
Definition src_of (d : data_block) : source := c_src (call_of bs d).
(** The blocks of [L] come one after the other, from [ptr] on, within the file system. *)
Fixpoint placed (ptr : Z) (L : list data_block) : Prop :=
  match L with
  | [] => True
  | d :: L =>
      ptr <= start d ∧ 0 < len d ∧ len d + bs < 2 ^ 31 ∧ readable (src_of d) (len d) ∧
      (if is_file (src_of d) then start d + len d < info_len info else start d + len d <= info_len info) ∧
      placed (start d + span_of d) L
  end.

(** The chunks: the blocks padded to the block size, and the gaps. *)
Definition padded (d : data_block) : list Z :=
  default [] (data_bytes (src_of d) (len d)) ++ replicate (Z.to_nat (span_of d - len d)) 0.
Definition chunk_of (d : data_block) : schunk :=
  match src_of d with Fill v => CFill v (span_of d / bs) | _ => CRaw (padded d) end.
Definition gap (a b : Z) : list schunk := if a <? b then [CSkip ((b - a) / bs)] else [].
Fixpoint body (ptr : Z) (L : list data_block) : list schunk :=
  match L with [] => [] | d :: L => gap ptr (start d) ++ chunk_of d :: body (start d + span_of d) L end.
Fixpoint end_ptr (ptr : Z) (L : list data_block) : Z :=
  match L with [] => ptr | d :: L => end_ptr (start d + span_of d) L end.
Definition layout (L : list data_block) : list schunk := body 0 L ++ gap (end_ptr 0 L) (info_len info).

(** The checksum is that of the data, without what is skipped. *)
Definition checksum (cs : list schunk) (crc : Z) : Z := sparse_crc32 crc (concat (payload bs <$> cs)).
Definition with_crc (crc : bool) (cs : list schunk) : list schunk :=
  if crc then cs ++ [CCrc (checksum cs 0)] else cs.
Definition image_header (cs : list schunk) : sparse_header_t :=
  SparseHeader SPARSE_HEADER_MAGIC 1 0 28 12 bs (info_len info / bs) (zlen cs) 0.
End Layout.

Section Correct.
Context {F : Type} (ops : output_file_ops F) `{!Appends ops}.
Context (load : Z -> Z -> option (list Z)) (mmap64 : nat -> Z -> Z -> option (list Z)).
Context (info : fs_info) (Hg : geometry info).
Notation bs := (block_size info).
Notation placed := (placed load mmap64 info).
Notation body := (body load mmap64 info).
Notation end_ptr := (end_ptr info).
Notation layout := (layout load mmap64 info).
Notation chunk_of := (chunk_of load mmap64 info).
Notation span_of := (span_of info).
Notation start := (start info).
Notation src_of := (src_of info).
Implicit Types out : output_file F.

Lemma bs_pos : 0 < bs.
Proof. destruct Hg as [(k & Hk & ->) _ _]. apply Z.pow_pos_nonneg; lia. Qed.
Lemma bs_le : bs <= 4096.
Proof. destruct Hg as [(k & Hk & ->) _ _]. change 4096 with (2 ^ 12). apply Z.pow_le_mono_r; lia. Qed.
Lemma bs_words : bs mod 4 = 0.
Proof.
  destruct Hg as [(k & Hk & ->) _ _]. replace k with (2 + (k - 2)) by lia. rewrite Z.pow_add_r by lia. change (2 ^ 2) with 4.
  rewrite Z.mul_comm. apply Z.mod_mul. lia.
Qed.
Lemma info_len_eq : info_len info = info_len info / bs * bs.
Proof. destruct Hg as [_ [c ->] _]. pose proof bs_pos. by rewrite Z.div_mul by lia. Qed.
Lemma info_len_range : 0 <= info_len info < 2 ^ 45.
Proof. destruct Hg as [_ _ H]. rewrite info_len_eq. pose proof bs_pos. pose proof bs_le. nia. Qed.

(** ** Rounding *)
Lemma round_up_eq n : 0 < n -> n + bs < 2 ^ 31 ->
  rnd_up n bs = round_up_to n bs ∧ ALIGN n bs = round_up_to n bs ∧
  DIV_ROUND_UP n bs = round_up_to n bs / bs.
Proof.
  intros Hn Hb. pose proof bs_pos. pose proof (round_up_to_bounds n bs). pose proof (Z.div_pos (n + (bs - 1)) bs).
  assert (E : DIV_ROUND_UP n bs = round_up_to n bs / bs).
  { unfold DIV_ROUND_UP, round_up_to. rewrite u32_small, Z.div_mul by lia. f_equal. lia. }
  split_and!; [| |done].
  - unfold rnd_up. destruct Hg as [(k & Hk & Ek) _ _]. rewrite Ek in *. rewrite ROUNDUP_pow2 by lia. rewrite s32_small; lia.
  - unfold ALIGN. rewrite E. unfold round_up_to in *. rewrite Z.div_mul by lia. rewrite Z.mul_comm. apply u32_small. lia.
Qed.
Lemma span_div d : span_of d / bs * bs = span_of d.
Proof. unfold OutFileSpec.span_of, round_up_to. pose proof bs_pos. by rewrite Z.div_mul by lia. Qed.
Lemma span_bounds d : 0 < len d -> len d <= span_of d < len d + bs.
Proof. intros _. apply round_up_to_bounds, bs_pos. Qed.

(** ** Steps of the writer *)

(** [out'] is [out], whose file held [s], after the chunks [cs] for [n] bytes of the image. *)
Record wrote (s : list Z) (out out' : output_file F) (cs : list schunk) (n : Z) : Prop := Wrote {
  w_holds : holds (fd out') (s ++ stream bs cs);
  w_sparse : sparse out' = sparse out;
  w_use_crc : use_crc out' = use_crc out;
  w_hdr : hdr out' = hdr out;
  w_ptr : cur_out_ptr out' = cur_out_ptr out + n;
  w_cnt : chunk_cnt out' = u32 (chunk_cnt out + zlen cs);
  w_crc : crc32 out' = if use_crc out then checksum info cs (crc32 out) else crc32 out
}.

Lemma u32_add_l a b : u32 (u32 a + b) = u32 (a + b).
Proof. unfold u32. by rewrite Z.add_mod_idemp_l by lia. Qed.
Lemma stream_app cs cs' : stream bs (cs ++ cs') = stream bs cs ++ stream bs cs'.
Proof. unfold stream. by rewrite fmap_app, concat_app. Qed.
Lemma stream_one c : stream bs [c] = chunk_bytes bs c.
Proof. apply app_nil_r. Qed.
Lemma checksum_one c crc : checksum info [c] crc = sparse_crc32 crc (payload bs c).
Proof. unfold checksum. cbn [fmap list_fmap concat]. by rewrite app_nil_r. Qed.
Lemma checksum_app cs cs' c : checksum info (cs ++ cs') c = checksum info cs' (checksum info cs c).
Proof. unfold checksum. by rewrite fmap_app, concat_app, sparse_crc32_app. Qed.

Lemma wrote_refl s out : holds (fd out) s -> 0 <= chunk_cnt out < 2 ^ 32 -> wrote s out out [] 0.
Proof.
  intros Hs Hc. split; try done; cbn; rewrite ?app_nil_r, ?Z.add_0_r; try done; [by rewrite u32_small|].
  unfold checksum. cbn. rewrite crc_nil. by destruct (use_crc out).
Qed.
Lemma wrote_trans s out1 out2 out3 cs cs' n n' :
  wrote s out1 out2 cs n -> wrote (s ++ stream bs cs) out2 out3 cs' n' -> wrote s out1 out3 (cs ++ cs') (n + n').
Proof.
  intros [H1 H2 H3 H4 H5 H6 H7] [K1 K2 K3 K4 K5 K6 K7]. split; try congruence.
  - by rewrite stream_app, app_assoc.
  - lia.
  - rewrite K6, H6, u32_add_l, zlen_app. f_equal. lia.
  - rewrite K7, H3, H7. destruct (use_crc out1); [by rewrite checksum_app | done].
Qed.

Lemma put_holds b out s : holds (fd out) s -> ∃ f, put ops b out =
  Some (OutputFile f (sparse out) (cur_out_ptr out) (chunk_cnt out) (crc32 out) (use_crc out) (hdr out)) ∧ holds f (s ++ b).
Proof. intros Hs. destruct (holds_write (fd out) s b Hs) as (f & E & Hf). exists f. unfold put. by rewrite E. Qed.

Lemma emit_skip_ok n out s :
  holds (fd out) s -> (bs | n) -> 0 < n -> n < 2 ^ 32 * bs -> 0 <= cur_out_ptr out -> cur_out_ptr out + n < 2 ^ 64 ->
  ∃ out', emit_skip_chunk ops info n out = Some out' ∧ wrote s out out' [CSkip (n / bs)] n.
Proof.
  intros Hs [q ->] Hn Hq Hc Hb. pose proof bs_pos. unfold emit_skip_chunk. rewrite Z.mod_mul, Z.eqb_refl by lia. cbn [negb].
  rewrite Z.div_mul by lia. rewrite u32_small by nia.
  destruct (put_holds (chunk_header_bytes (ChunkHeader CHUNK_TYPE_DONT_CARE 0 q CHUNK_HEADER_LEN)) out s Hs) as (f & E & Hf).
  rewrite E. cbn [mbind option_bind]. eexists. split; [done|]. split; cbn [advance_out fd sparse use_crc hdr cur_out_ptr chunk_cnt crc32]; try done.
  - unfold u64. rewrite Z.mod_small; lia.
  - unfold checksum. cbn. rewrite crc_nil. by destruct (use_crc out).
Qed.

Lemma gap_ok off out s :
  holds (fd out) s -> 0 <= chunk_cnt out < 2 ^ 32 -> (bs | off) -> (bs | cur_out_ptr out) -> 0 <= cur_out_ptr out <= off ->
  off <= info_len info ->
  ∃ out', (if cur_out_ptr out <? off then emit_skip_chunk ops info (u64 (off - cur_out_ptr out)) out else Some out) = Some out' ∧
    wrote s out out' (gap info (cur_out_ptr out) off) (off - cur_out_ptr out).
Proof.
  intros Hs Hcnt Hoff Hptr Hle Hlen. pose proof info_len_range. unfold gap. destruct (Z.ltb_spec (cur_out_ptr out) off) as [Hlt|Hge].
  - unfold u64. rewrite Z.mod_small by lia. apply emit_skip_ok; [done | by apply Z.divide_sub_r | lia | | lia | lia].
    destruct Hg as [_ _ Hb]. pose proof bs_pos. pose proof info_len_eq. nia.
  - exists out. split; [done|]. replace (off - cur_out_ptr out) with 0 by lia. by apply wrote_refl.
Qed.

Lemma chunk_start_ok off out s :
  holds (fd out) s -> 0 <= chunk_cnt out < 2 ^ 32 -> (bs | off) -> (bs | cur_out_ptr out) -> 0 <= cur_out_ptr out <= off ->
  off <= info_len info ->
  ∃ out', chunk_start ops info off out = Some out' ∧ wrote s out out' (gap info (cur_out_ptr out) off) (off - cur_out_ptr out).
Proof.
  intros Hs Hcnt Hoff Hptr Hle Hlen. destruct (gap_ok off out s) as (out' & E & Hw); try done.
  exists out'. split; [|done]. unfold chunk_start. rewrite (proj2 (Z.ltb_ge _ _)) by lia. rewrite E. cbn.
  pose proof bs_pos. rewrite (proj2 (Z.mod_divide off bs ltac:(lia)) Hoff). cbn.
  rewrite (proj2 (Z.eqb_eq _ _)); [done|]. rewrite (w_ptr _ _ _ _ _ Hw). lia.
Qed.

Lemma wrote_range s out out' cs n : wrote s out out' cs n -> 0 <= chunk_cnt out' < 2 ^ 32.
Proof. intros H. rewrite (w_cnt _ _ _ _ _ H). apply u32_range. Qed.

(** A block of data. *)
Lemma raw_chunk_ok off b out s :
  let n := zlen b in
  let m := round_up_to n bs in
  holds (fd out) s -> 0 <= chunk_cnt out < 2 ^ 32 -> (bs | off) -> (bs | cur_out_ptr out) -> 0 <= cur_out_ptr out <= off ->
  off + n <= info_len info -> 0 < n -> n + bs < 2 ^ 31 ->
  ∃ out', write_chunk_raw ops info off b n out = Some out' ∧
    wrote s out out' (gap info (cur_out_ptr out) off ++ [CRaw (b ++ replicate (Z.to_nat (m - n)) 0)]) (off + m - cur_out_ptr out).
Proof.
  intros n m Hs Hcnt Hoff Hptr Hle Hlen Hn Hb. pose proof bs_pos. pose proof info_len_range. pose proof bs_le.
  pose proof (round_up_to_bounds n bs bs_pos) as Hm. fold m in Hm.
  destruct (chunk_start_ok off out s) as (o1 & E1 & W1); try done; [lia|].
  destruct (round_up_eq n Hn Hb) as (Er & _ & _). fold m in Er.
  unfold write_chunk_raw. rewrite E1. cbn [mbind option_bind]. rewrite Er.
  rewrite !u32_small by (unfold CHUNK_HEADER_LEN; lia). set (z := replicate (Z.to_nat (m - n)) 0).
  assert (Hz : zlen z = m - n) by (unfold z, zlen; rewrite length_replicate; lia).
  set (h := chunk_header_bytes _). pose proof (w_holds _ _ _ _ _ W1) as Hs1.
  destruct (put_holds h o1 _ Hs1) as (f2 & E2 & H2). rewrite E2. cbn [mbind option_bind].
  set (o2 := OutputFile f2 _ _ _ _ _ _). destruct (put_holds b o2 _ H2) as (f3 & E3 & H3). rewrite E3. cbn [mbind option_bind].
  set (o3 := OutputFile f3 _ _ _ _ _ _).
  assert (Hpad : ∃ f4, (if negb (m - n =? 0) then put ops z o3 else Some o3) =
      Some (OutputFile f4 (sparse o1) (cur_out_ptr o1) (chunk_cnt o1) (crc32 o1) (use_crc o1) (hdr o1)) ∧
    holds f4 ((((s ++ stream bs (gap info (cur_out_ptr out) off)) ++ h) ++ b) ++ z)).
  { destruct (Z.eqb_spec (m - n) 0) as [E0|]; cbn [negb]; [|exact (put_holds z o3 _ H3)].
    exists f3. split; [done|]. unfold z. rewrite E0. cbn [Z.to_nat replicate]. by rewrite app_nil_r. }
  destruct Hpad as (f4 & E4 & H4). rewrite E4. cbn [mbind option_bind]. eexists. split; [done|].
  replace (off + m - cur_out_ptr out) with ((off - cur_out_ptr out) + m) by lia.
  eapply wrote_trans; [exact W1|]. split; cbn [advance_out fd sparse use_crc hdr cur_out_ptr chunk_cnt crc32]; try done.
  - rewrite stream_one. unfold chunk_bytes, header_of, body_of. rewrite zlen_app, Hz.
    replace (zlen b + (m - n)) with m by lia. rewrite <- !app_assoc in H4. rewrite <- !app_assoc. exact H4.
  - rewrite (w_ptr _ _ _ _ _ W1). unfold u64. rewrite Z.mod_small; lia.
  - rewrite checksum_one. cbn [payload expand]. destruct (use_crc o1); [|done].
    destruct (Z.eqb_spec (m - n) 0) as [E0|]; cbn [negb]; [|by rewrite sparse_crc32_app].
    unfold z. rewrite E0. cbn [Z.to_nat replicate]. by rewrite app_nil_r.
Qed.

Lemma crc_fill_concat k b c : crc_fill k b c = sparse_crc32 c (concat (replicate k b)).
Proof. revert c. induction k as [|k IH]; intros c; cbn; [by rewrite crc_nil | by rewrite IH, sparse_crc32_app]. Qed.
Lemma concat_replicate {A} i j (w : list A) : concat (replicate i (concat (replicate j w))) = concat (replicate (i * j) w).
Proof. induction i as [|i IH]; [done|]. cbn. by rewrite IH, replicate_add, concat_app. Qed.
Lemma fill_bytes_blocks v k : 0 <= k -> concat (replicate (Z.to_nat k) (fill_bytes v bs)) = fill_bytes v (k * bs).
Proof.
  intros Hk. unfold fill_bytes. rewrite concat_replicate. f_equal. f_equal. pose proof bs_pos.
  pose proof (Z.div_mod bs 4 ltac:(lia)) as E. rewrite bs_words in E.
  assert (0 <= bs / 4) by (apply Z.div_pos; lia).
  rewrite E at 2. replace (k * (4 * (bs / 4) + 0)) with (k * (bs / 4) * 4) by lia. rewrite Z.div_mul by lia. rewrite Z2Nat.inj_mul; lia.
Qed.

(** A value to fill with. *)
Lemma fill_chunk_ok off v n out s :
  let m := round_up_to n bs in
  holds (fd out) s -> 0 <= chunk_cnt out < 2 ^ 32 -> (bs | off) -> (bs | cur_out_ptr out) -> 0 <= cur_out_ptr out <= off ->
  off + n <= info_len info -> 0 < n -> n + bs < 2 ^ 31 ->
  ∃ out', write_chunk_fill ops info off v n out = Some out' ∧
    wrote s out out' (gap info (cur_out_ptr out) off ++ [CFill v (m / bs)]) (off + m - cur_out_ptr out).
Proof.
  intros m Hs Hcnt Hoff Hptr Hle Hlen Hn Hb. pose proof bs_pos. pose proof info_len_range. pose proof bs_le.
  pose proof (round_up_to_bounds n bs bs_pos) as Hm. fold m in Hm.
  destruct (chunk_start_ok off out s) as (o1 & E1 & W1); try done; [lia|].
  destruct (round_up_eq n Hn Hb) as (Er & _ & _). fold m in Er.
  unfold write_chunk_fill. rewrite E1. cbn [mbind option_bind]. rewrite Er. rewrite !u32_small by lia.
  set (h := chunk_header_bytes _). pose proof (w_holds _ _ _ _ _ W1) as Hs1.
  destruct (put_holds h o1 _ Hs1) as (f2 & E2 & H2). rewrite E2. cbn [mbind option_bind].
  set (o2 := OutputFile f2 _ _ _ _ _ _). destruct (put_holds (bytes32 v) o2 _ H2) as (f3 & E3 & H3). rewrite E3. cbn [mbind option_bind].
  cbn [use_crc crc32 o2].
  assert (Ec : (if use_crc o1 then fill_buf ← fill_block info v; Some (crc_fill (Z.to_nat (m / bs)) fill_buf (crc32 o1)) else Some (crc32 o1)) =
    Some (if use_crc o1 then checksum info [CFill v (m / bs)] (crc32 o1) else crc32 o1)).
  { destruct (use_crc o1); [|done]. unfold fill_block, MAX_BLOCK. rewrite (proj2 (Z.ltb_ge _ _)) by lia. rewrite bs_words. cbn [orb negb Z.eqb mbind option_bind].
    rewrite crc_fill_concat, checksum_one. cbn [payload expand]. rewrite fill_bytes_blocks; [done|]. apply Z.div_pos; lia. }
  rewrite Ec. cbn [mbind option_bind]. eexists. split; [done|].
  replace (off + m - cur_out_ptr out) with ((off - cur_out_ptr out) + m) by lia.
  eapply wrote_trans; [exact W1|]. split; cbn [advance_out fd sparse use_crc hdr cur_out_ptr chunk_cnt crc32]; try done.
  - rewrite stream_one. unfold chunk_bytes, header_of, body_of. rewrite <- !app_assoc in H3. rewrite <- !app_assoc. done.
  - change (cur_out_ptr o2) with (cur_out_ptr o1). rewrite (w_ptr _ _ _ _ _ W1). unfold u64. rewrite Z.mod_small; lia.
Qed.

(** ** The passes *)
Lemma call_len d : 0 < len d -> len d + bs < 2 ^ 31 -> s32 (c_len (call_of bs d)) = len d.
Proof. intros Hn Hb. pose proof bs_pos. cbn. apply s32_small. lia. Qed.
Lemma end_off_small off n : 0 <= off -> 0 <= n -> off + n <= info_len info -> end_off off n = off + n.
Proof. intros. pose proof info_len_range. unfold end_off, u64. apply Z.mod_small. lia. Qed.
Lemma land_page off : 0 <= off -> Z.land off (Z.lnot (4096 - 1)) = off / 4096 * 4096.
Proof. intros. change 4096 with (2 ^ 12). apply land_lnot_ones. lia. Qed.

(** One block of the queue. *)
Definition block_fits (ptr : Z) (d : data_block) : Prop :=
  ptr <= start d ∧ 0 < len d ∧ len d + bs < 2 ^ 31 ∧ readable load mmap64 info (src_of d) (len d) ∧
  (if is_file (src_of d) then start d + len d < info_len info else start d + len d <= info_len info).
Lemma placed_cons ptr d L : placed ptr (d :: L) <-> block_fits ptr d ∧ placed (start d + span_of d) L.
Proof. cbn. unfold block_fits. tauto. Qed.
Lemma fits_le ptr d : block_fits ptr d -> ptr <= start d ∧ start d + len d <= info_len info ∧ start d + span_of d <= info_len info.
Proof.
  intros (Hp & Hn & Hb & _ & Hi). assert (Hl : start d + len d <= info_len info) by (destruct (is_file _); lia).
  split; [done|]. split; [done|]. pose proof (span_bounds d Hn). pose proof bs_pos.
  rewrite info_len_eq in Hl |- *. unfold OutFileSpec.start in *. rewrite <- (span_div d) in *. revert H Hl.
  generalize (span_of d / bs), (info_len info / bs). intros q N Hq Hl.
  assert ((block d + q - N) * bs < 1 * bs) as Hlt%Z.mul_lt_mono_pos_r by lia; [nia | done].
Qed.

Lemma ext4_write_ok d out s :
  holds (fd out) s -> sparse out = true -> 0 <= chunk_cnt out < 2 ^ 32 -> (bs | cur_out_ptr out) -> 0 <= cur_out_ptr out ->
  block_fits (cur_out_ptr out) d ->
  ∃ out', ext4_write ops load mmap64 info (call_of bs d) out = Some out' ∧
    wrote s out out' (gap info (cur_out_ptr out) (start d) ++ [chunk_of d]) (start d + span_of d - cur_out_ptr out).
Proof.
  intros Hs Hsp Hcnt Hptr Hpos Hfit. destruct (fits_le _ _ Hfit) as (_ & Hle & _).
  destruct Hfit as (Hp & Hn & Hb & ((b & Eb & Hlb) & Hsrc) & Hin).
  assert (Hoff : (bs | start d)) by apply Z.divide_factor_r.
  unfold ext4_write. rewrite call_len by done. change (c_off (call_of bs d)) with (start d). change (c_src (call_of bs d)) with (src_of d).
  unfold OutFileSpec.chunk_of, padded, OutFileSpec.span_of. pose proof info_len_range.
  pose proof (end_off_small (start d) (len d) ltac:(lia) ltac:(lia) Hle) as He.
  destruct (src_of d) as [addr|f off|v]; cbn [data_bytes is_file] in *.
  - unfold write_data_block. rewrite He, (proj2 (Z.ltb_ge _ _)), Eb, Hsp by lia. cbn [mbind option_bind default].
    rewrite <- Hlb. apply raw_chunk_ok; try done; lia.
  - unfold file_bytes in Eb. unfold write_data_file. rewrite He, (proj2 (Z.leb_gt _ _)) by lia.
    destruct Hsrc as [Ho Hmax]. rewrite land_page in Eb |- * by done.
    pose proof (Z.div_mod off 4096). pose proof (Z.mod_pos_bound off 4096).
    rewrite s32_small by lia. unfold file_bytes. rewrite land_page by done.
    destruct (mmap64 f _ _) as [m|]; [|done]. cbn [mbind option_bind default] in *. injection Eb as ->.
    rewrite Hsp, <- Hlb. apply raw_chunk_ok; try done; lia.
  - unfold write_fill_block. rewrite He, (proj2 (Z.ltb_ge _ _)), Hsp by lia. apply fill_chunk_ok; try done; lia.
Qed.

Lemma next_ptr_div d : (bs | start d + span_of d).
Proof. apply Z.divide_add_r; [apply Z.divide_factor_r | apply round_up_to_divide]. Qed.
(** The block that was written last, as the order check sees it. *)
Lemma last_block_ok ptr d : 0 <= ptr -> block_fits ptr d ->
  u32 (block d + DIV_ROUND_UP (len d) bs - 1) * bs <= start d + span_of d.
Proof.
  intros Hp0 Hfit. destruct (fits_le _ _ Hfit) as (_ & _ & Hi). destruct Hfit as (Hp & Hn & Hb & _).
  destruct (round_up_eq (len d) Hn Hb) as (_ & _ & ->). fold (span_of d). pose proof bs_pos. pose proof (span_bounds d Hn).
  destruct Hg as [_ _ Hmax]. rewrite info_len_eq in Hi. unfold OutFileSpec.start in *. rewrite <- (span_div d) in *.
  rewrite Z.div_mul by lia. generalize dependent (span_of d / bs). generalize dependent (info_len info / bs). intros N HN q Hi Hq.
  assert (0 <= block d) by nia. assert (0 < q) by nia. assert (block d + q <= N) by nia.
  rewrite u32_small by lia. nia.
Qed.

Lemma write_pass L last out s :
  holds (fd out) s -> sparse out = true -> 0 <= chunk_cnt out < 2 ^ 32 -> (bs | cur_out_ptr out) -> 0 <= cur_out_ptr out ->
  placed (cur_out_ptr out) L -> last * bs <= cur_out_ptr out ->
  ∃ out', each_block (ext4_write ops load mmap64 info) bs L last out = Some out' ∧
    wrote s out out' (body (cur_out_ptr out) L) (end_ptr (cur_out_ptr out) L - cur_out_ptr out).
Proof.
  revert last out s. induction L as [|d L IH]; intros last out s Hs Hsp Hcnt Hptr Hpos Hpl Hlast.
  - exists out. split; [done|]. cbn. rewrite Z.sub_diag. by apply wrote_refl.
  - apply placed_cons in Hpl as [Hfit Hpl]. cbn [each_block]. pose proof bs_pos.
    rewrite (proj2 (Z.ltb_ge _ _)) by (destruct Hfit as [Hp _]; unfold OutFileSpec.start in Hp; nia).
    destruct (ext4_write_ok d out s) as (o1 & E1 & W1); try done. rewrite E1. cbn [mbind option_bind].
    pose proof (w_ptr _ _ _ _ _ W1) as Ep. replace (cur_out_ptr out + _) with (start d + span_of d) in Ep by lia.
    destruct (IH (u32 (block d + DIV_ROUND_UP (len d) bs - 1)) o1 _ (w_holds _ _ _ _ _ W1)) as (o2 & E2 & W2).
    + by rewrite (w_sparse _ _ _ _ _ W1).
    + by apply wrote_range in W1.
    + rewrite Ep. apply next_ptr_div.
    + destruct (fits_le _ _ Hfit) as (? & _ & _). destruct Hfit as (_ & Hn & _). pose proof (span_bounds d Hn). lia.
    + by rewrite Ep.
    + rewrite Ep. by apply (last_block_ok (cur_out_ptr out)).
    + exists o2. split; [done|]. rewrite Ep in W2. cbn [OutFileSpec.body OutFileSpec.end_ptr].
      rewrite cons_middle, app_assoc. replace (end_ptr _ L - _) with
        ((start d + span_of d - cur_out_ptr out) + (end_ptr (start d + span_of d) L - (start d + span_of d))) by lia.
      by apply (wrote_trans _ _ o1).
Qed.

Lemma count_pass L last cc :
  (bs | cur_ptr cc) -> 0 <= cur_ptr cc -> placed (cur_ptr cc) L -> last * bs <= cur_ptr cc -> 0 <= chunks cc < 2 ^ 32 ->
  each_block (count_block info) bs L last cc =
    Some (CountChunks (u32 (chunks cc + zlen (body (cur_ptr cc) L))) (end_ptr (cur_ptr cc) L)).
Proof.
  revert last cc. induction L as [|d L IH]; intros last cc Hptr Hpos Hpl Hlast Hc.
  - cbn. rewrite Z.add_0_r, u32_small by done. by destruct cc.
  - apply placed_cons in Hpl as [Hfit Hpl]. cbn [each_block]. pose proof bs_pos.
    rewrite (proj2 (Z.ltb_ge _ _)) by (destruct Hfit as [Hp _]; unfold OutFileSpec.start in Hp; nia).
    pose proof (last_block_ok _ _ Hpos Hfit) as Hl. destruct (fits_le _ _ Hfit) as (Hp & _ & Hi). pose proof info_len_range.
    destruct Hfit as (_ & Hn & Hb & _). destruct (round_up_eq (len d) Hn Hb) as (_ & Ea & _). pose proof (span_bounds d Hn).
    assert (Ec : count_block info (call_of bs d) cc = Some (CountChunks
      (u32 ((if cur_ptr cc <? start d then u32 (chunks cc + 1) else chunks cc) + 1)) (start d + span_of d))).
    { unfold count_block. rewrite (call_len d Hn Hb), Ea. fold (span_of d). change (c_off (call_of bs d)) with (start d).
      unfold u64. by rewrite Z.mod_small by lia. }
    rewrite Ec. cbn [mbind option_bind].
    rewrite IH; cbn [cur_ptr chunks]; [|apply next_ptr_div | lia | done | done | apply u32_range].
    cbn [OutFileSpec.body OutFileSpec.end_ptr]. f_equal. f_equal. rewrite u32_add_l, zlen_app.
    unfold gap. destruct (cur_ptr cc <? start d); [rewrite <- Z.add_assoc, u32_add_l|]; f_equal; unfold zlen; cbn [length]; lia.
Qed.

(** ** The whole run *)
Lemma end_ptr_ok L ptr : (bs | ptr) -> 0 <= ptr <= info_len info -> placed ptr L ->
  ptr <= end_ptr ptr L <= info_len info ∧ (bs | end_ptr ptr L).
Proof.
  revert ptr. induction L as [|d L IH]; intros ptr Hd Hp Hpl; [split; [cbn; lia | done]|]. apply placed_cons in Hpl as [Hfit Hpl].
  destruct (fits_le _ _ Hfit) as (? & _ & ?). destruct Hfit as (_ & Hn & _). pose proof (span_bounds d Hn).
  destruct (IH (start d + span_of d)) as [? ?]; [apply next_ptr_div | lia | done |]. split; [|done].
  change (end_ptr ptr (d :: L)) with (end_ptr (start d + span_of d) L). lia.
Qed.
(** Every chunk of the layout has a block of the image. *)
Lemma gap_count a b : (bs | a) -> (bs | b) -> a <= b -> zlen (gap info a b) * bs <= b - a.
Proof.
  intros [i ->] [j ->] Hle. pose proof bs_pos. unfold gap, zlen. destruct (Z.ltb_spec (i * bs) (j * bs)) as [Hlt|]; cbn [length]; [|lia].
  apply Z.mul_lt_mono_pos_r in Hlt; [nia | done].
Qed.
Lemma body_count L ptr : (bs | ptr) -> 0 <= ptr <= info_len info -> placed ptr L -> zlen (body ptr L) * bs <= end_ptr ptr L - ptr.
Proof.
  revert ptr. induction L as [|d L IH]; intros ptr Hd Hp Hpl; [change (0 * bs <= ptr - ptr); lia|]. apply placed_cons in Hpl as [Hfit Hpl].
  destruct (fits_le _ _ Hfit) as (? & _ & ?). destruct Hfit as (_ & Hn & _). pose proof (span_bounds d Hn).
  cbn [OutFileSpec.body OutFileSpec.end_ptr]. rewrite zlen_app. specialize (IH (start d + span_of d) (next_ptr_div d) ltac:(lia) Hpl).
  pose proof (gap_count ptr (start d) Hd (Z.divide_factor_r _ _) ltac:(lia)). pose proof bs_pos.
  assert (bs <= span_of d) by (apply Z.divide_pos_le; [lia | apply round_up_to_divide]).
  change (zlen (chunk_of d :: ?l)) with (Z.of_nat (S (length l))). unfold zlen in *. lia.
Qed.
Lemma layout_count L : placed 0 L -> 0 <= zlen (layout L) <= info_len info / bs.
Proof.
  intros Hpl. pose proof info_len_range. pose proof bs_pos. split; [apply zlen_nonneg|].
  destruct (end_ptr_ok L 0 (Z.divide_0_r _) ltac:(lia) Hpl) as [He Hd].
  pose proof (body_count L 0 (Z.divide_0_r _) ltac:(lia) Hpl) as Hb.
  pose proof (gap_count (end_ptr 0 L) (info_len info) Hd (g_len _ Hg) ltac:(lia)).
  apply Z.div_le_lower_bound; [done|]. unfold OutFileSpec.layout. rewrite zlen_app. lia.
Qed.

Lemma write_image_ok fuel q Lq f crc :
  queue_ok q Lq -> (length Lq <= fuel)%nat -> placed 0 (contents Lq) -> holds f [] ->
  let cs := with_crc info crc (layout (contents Lq)) in
  ∃ out, write_ext4_image ops load mmap64 info fuel f true crc q = Some out ∧
    holds (fd out) (sparse_header_bytes (image_header info cs) ++ stream bs cs).
Proof.
  intros Hq Hfuel Hpl Hf cs. set (L := contents Lq) in *. pose proof bs_pos. pose proof info_len_range.
  assert (Hit : ∀ S g (s : S), for_each_data_block fuel g bs q s = each_block g bs L 0 s).
  { intros S g s. apply for_each_contents; [apply (qo_chain _ _ Hq) | done]. }
  pose proof (layout_count L Hpl) as Hcount. destruct Hg as [_ Hdiv Hmax].
  destruct (end_ptr_ok L 0 (Z.divide_0_r _) ltac:(lia) Hpl) as [He Hed].
  assert (Ec : count_sparse_chunks info fuel q = Some (zlen (layout L))).
  { unfold count_sparse_chunks. rewrite Hit, count_pass; cbn [cur_ptr chunks]; [|apply Z.divide_0_r | done | done | lia | lia].
    cbn [mbind option_bind cur_ptr chunks]. f_equal. rewrite Z.add_0_l. unfold OutFileSpec.layout in *. rewrite zlen_app in *. unfold gap in *.
    pose proof (zlen_nonneg (body 0 L)).
    destruct (Z.eqb_spec (end_ptr 0 L) (info_len info)) as [E|]; cbn [negb];
      [rewrite (proj2 (Z.ltb_ge _ _)) in * by lia | rewrite (proj2 (Z.ltb_lt _ _)) in * by lia];
      rewrite ?u32_add_l; unfold zlen in *; cbn [length] in *; rewrite u32_small; lia. }
  unfold write_ext4_image. rewrite Ec. cbn [mbind option_bind]. unfold open_output_fd.
  assert (Eh : set_header info (zlen (layout L)) crc static_header = image_header info cs).
  { unfold set_header, image_header, cs, with_crc. cbn. rewrite u32_small by lia. f_equal.
    destruct crc; [|done]. rewrite zlen_app, u32_small by lia. done. }
  rewrite Eh. set (h := image_header info cs). set (o0 := OutputFile f true 0 0 0 crc h).
  destruct (put_holds (sparse_header_bytes h) o0 _ Hf) as (f1 & E1 & Hf1). rewrite E1. cbn [mbind option_bind].
  set (o1 := OutputFile f1 _ _ _ _ _ _). rewrite Hit. cbn [app] in Hf1.
  destruct (write_pass L 0 o1 _ Hf1) as (o2 & E2 & W2); cbn [o1 o0 cur_out_ptr chunk_cnt sparse]; try done; [apply Z.divide_0_r|].
  rewrite E2. cbn [mbind option_bind]. cbn [cur_out_ptr o1 o0] in W2. unfold pad_output_file.
  pose proof (w_ptr _ _ _ _ _ W2) as Ep. change (cur_out_ptr o1) with 0 in Ep. replace (0 + _) with (end_ptr 0 L) in Ep by lia.
  rewrite Z.ltb_irrefl, (w_sparse _ _ _ _ _ W2). cbn [o1 o0 sparse]. rewrite (proj2 (Z.ltb_ge _ _)) by lia.
  destruct (gap_ok (info_len info) o2 _ (w_holds _ _ _ _ _ W2)) as (o3 & E3 & W3);
    [by apply wrote_range in W2 | done | by rewrite Ep | lia | lia |]. rewrite E3. cbn [mbind option_bind].
  pose proof (wrote_trans _ _ _ _ _ _ _ _ W2 W3) as W. rewrite Ep in W. fold (layout L) in W.
  destruct W as [Wh Ws Wu Whd _ Wn Wc]. unfold close_output_file. rewrite Ws, Wu. cbn [o1 o0 sparse use_crc chunk_cnt crc32] in *.
  rewrite Z.add_0_l in Wn. unfold cs, with_crc in h |- *. destruct crc.
  - destruct (put_holds (chunk_header_bytes (ChunkHeader CHUNK_TYPE_CRC32 0 0 (CHUNK_HEADER_LEN + 4))) o3 _ Wh) as (f4 & E4 & H4).
    rewrite E4. cbn [mbind option_bind]. set (o4 := OutputFile f4 _ _ _ _ _ _).
    destruct (put_holds (bytes32 (crc32 o3)) o4 _ H4) as (f5 & E5 & H5). cbn [crc32 o4]. rewrite E5. cbn [mbind option_bind chunk_cnt hdr o4].
    rewrite Wn, u32_add_l, Whd. cbn [hdr o1 o0]. rewrite u32_small by lia. unfold h at 1. cbn [image_header total_chunks].
    rewrite zlen_app. change (zlen [?c]) with 1. rewrite Z.eqb_refl. cbn [negb]. eexists. split; [done|]. cbn [fd].
    rewrite Wc in H5. rewrite stream_app, stream_one. unfold chunk_bytes. by rewrite <- !app_assoc in *.
  - cbn [mbind option_bind]. rewrite Wn, Whd. cbn [hdr o1 o0]. rewrite u32_small by lia. unfold h at 1. cbn [image_header total_chunks].
    rewrite Z.eqb_refl. cbn [negb]. by exists o3.
Qed.
End Correct.
