(* ===== verification/Simg.v ===== *)
(** * Unpacking a sparse image ([ext4_utils/simg2img.c])

    The tool reads the header of the image and its chunks and writes what they stand for.
    The system calls are an interface with the laws of files: a read gives a part of what
    is left, a write takes a part of what it is given, a seek moves the position past the
    end.  [exit(-1)] is [None]. *)
From stdpp Require Import base list.
From Stdlib Require Import ZArith Lia.
From S2P Require Import Prelude Crc SparseFormat.
#[local] Open Scope Z_scope.

(** The calls on the input [FI] and on the output [FO]; [None] is a negative result. *)
Class Io (FI FO : Type) := {
  sys_read : FI -> Z -> option (list Z * FI);
  sys_skip : FI -> Z -> FI;
  sys_write : FO -> list Z -> option (Z * FO);
  sys_seek_cur : FO -> Z -> FO;
  ftruncate64 : FO -> Z -> option FO
}.

Definition COPY_BUF_SIZE : Z := 1024 * 1024.

Section Simg.
Context {FI FO : Type} `{Io FI FO}.

(** The loop of [read_all]: the bytes read so far are in [buf]. *)
Fixpoint read_all_loop (fuel : nat) (i : FI) (len : Z) (buf : list Z) : option (list Z * FI) :=
  if zlen buf <? len then
    match fuel with
    | O => None
    | S fuel =>
        '(b, i) ← sys_read i (len - zlen buf);
        if zlen b =? 0 then Some (buf, i) else read_all_loop fuel i len (buf ++ b)
    end
  else Some (buf, i).
Definition read_all (i : FI) (len : Z) : option (list Z * FI) := read_all_loop (Z.to_nat len) i len [].

Fixpoint write_all_loop (fuel : nat) (o : FO) (b : list Z) (total : Z) : option (Z * FO) :=
  if total <? zlen b then
    match fuel with
    | O => None
    | S fuel =>
        '(ret, o) ← sys_write o (drop (Z.to_nat total) b);
        if ret =? 0 then Some (total, o) else write_all_loop fuel o b (total + ret)
    end
  else Some (total, o).
Definition write_all (o : FO) (b : list Z) : option (Z * FO) := write_all_loop (length b) o b 0.

(** The files and the checksum so far. *)
Record state := State { inp : FI; outp : FO; crc32 : Z }.

Definition read_exactly (i : FI) (len : Z) : option (list Z * FI) :=
  '(b, i) ← read_all i len;
  if negb (zlen b =? len) then None else Some (b, i).
Definition write_exactly (o : FO) (b : list Z) : option FO :=
  '(ret, o) ← write_all o b;
  if negb (ret =? zlen b) then None else Some o.

Fixpoint raw_loop (fuel : nat) (len : Z) (s : state) : option state :=
  if len =? 0 then Some s else
  match fuel with
  | O => None
  | S fuel =>
      let chunk := if COPY_BUF_SIZE <? len then COPY_BUF_SIZE else len in
      '(copybuf, i) ← read_exactly (inp s) chunk;
      o ← write_exactly (outp s) copybuf;
      raw_loop fuel (len - chunk) (State i o (sparse_crc32 (crc32 s) copybuf))
  end.
Definition loop_count (len : Z) : nat := Z.to_nat (len / COPY_BUF_SIZE + 1).
Definition process_raw_chunk (blocks blk_sz : Z) (s : state) : option state :=
  let len := u64 (blocks * blk_sz) in
  raw_loop (loop_count len) len s.

Fixpoint fill_copy_loop (fuel : nat) (copybuf : list Z) (len : Z) (s : state) : option state :=
  if len =? 0 then Some s else
  match fuel with
  | O => None
  | S fuel =>
      let chunk := if COPY_BUF_SIZE <? len then COPY_BUF_SIZE else len in
      let b := take (Z.to_nat chunk) copybuf in
      o ← write_exactly (outp s) b;
      fill_copy_loop fuel copybuf (len - chunk) (State (inp s) o (sparse_crc32 (crc32 s) b))
  end.
(** The result of the read is not looked at: without the four bytes the value would be
    indeterminate. *)
Definition process_fill_chunk (blocks blk_sz : Z) (s : state) : option state :=
  let len := u64 (blocks * blk_sz) in
  '(b, i) ← read_exactly (inp s) 4;
  fill_copy_loop (loop_count len) (fill_bytes (le32 b) COPY_BUF_SIZE) len (State i (outp s) (crc32 s)).

Definition process_skip_chunk (blocks blk_sz : Z) (s : state) : state :=
  State (inp s) (sys_seek_cur (outp s) (u64 (blocks * blk_sz))) (crc32 s).

Definition process_crc32_chunk (s : state) : option state :=
  '(b, i) ← read_exactly (inp s) 4;
  if negb (le32 b =? crc32 s) then None else Some (State i (outp s) (crc32 s)).

(** One turn of the loop of [main]: the state and [total_blocks]. *)
Definition process_chunk (h : sparse_header_t) (s : state) (total_blocks : Z) : option (state * Z) :=
  '(b, i) ← read_exactly (inp s) CHUNK_HEADER_LEN;
  let c := chunk_header_of b in
  let i := if CHUNK_HEADER_LEN <? chunk_hdr_sz h then sys_skip i (chunk_hdr_sz h - CHUNK_HEADER_LEN) else i in
  let s := State i (outp s) (crc32 s) in
  let total := u32 (total_blocks + chunk_sz c) in
  if chunk_type c =? CHUNK_TYPE_RAW then
    if negb (total_sz c =? u32 (chunk_hdr_sz h + u32 (chunk_sz c * blk_sz h))) then None else
    s ← process_raw_chunk (chunk_sz c) (blk_sz h) s; Some (s, total)
  else if chunk_type c =? CHUNK_TYPE_FILL then
    if negb (total_sz c =? chunk_hdr_sz h + 4) then None else
    s ← process_fill_chunk (chunk_sz c) (blk_sz h) s; Some (s, total)
  else if chunk_type c =? CHUNK_TYPE_DONT_CARE then
    if negb (total_sz c =? chunk_hdr_sz h) then None else
    Some (process_skip_chunk (chunk_sz c) (blk_sz h) s, total)
  else if chunk_type c =? CHUNK_TYPE_CRC32 then
    s ← process_crc32_chunk s; Some (s, total_blocks)
  else Some (s, total_blocks).
Fixpoint process_chunks (n : nat) (h : sparse_header_t) (s : state) (total_blocks : Z) : option (state * Z) :=
  match n with
  | O => Some (s, total_blocks)
  | S n => '(s, total) ← process_chunk h s total_blocks; process_chunks n h s total
  end.

Definition simg2img (i : FI) (o : FO) : option FO :=
  '(b, i) ← read_exactly i SPARSE_HEADER_LEN;
  let h := sparse_header_of b in
  if negb (magic h =? SPARSE_HEADER_MAGIC) then None else
  if negb (major_version h =? 1) then None else
  let i := if SPARSE_HEADER_LEN <? file_hdr_sz h then sys_skip i (file_hdr_sz h - SPARSE_HEADER_LEN) else i in
  '(s, total_blocks) ← process_chunks (Z.to_nat (total_chunks h)) h (State i o 0) 0;
  o ← ftruncate64 (outp s) (u64 (total_blocks * blk_sz h));
  if negb (total_blks h =? total_blocks) then None else Some o.
End Simg.
Arguments state : clear implicits.

(** ** The laws of files *)
Definition resize (n : Z) (l : list Z) : list Z :=
  take (Z.to_nat n) l ++ replicate (Z.to_nat (n - zlen l)) 0.
Class IoLaws (FI FO : Type) `{Io FI FO} := {
  rest : FI -> list Z;
  file_contents : FO -> list Z;
  pos : FO -> Z;
  read_law i n : 0 < n -> ∃ k i', sys_read i n = Some (take k (rest i), i') ∧ rest i' = drop k (rest i) ∧
    Z.of_nat k <= n ∧ (k <= length (rest i))%nat ∧ (rest i <> [] -> (0 < k)%nat);
  write_law o b : b <> [] -> ∃ k o', sys_write o b = Some (Z.of_nat k, o') ∧ (0 < k <= length b)%nat ∧
    file_contents o' = write_at (pos o) (take k b) (file_contents o) ∧ pos o' = pos o + Z.of_nat k;
  seek_law o n : file_contents (sys_seek_cur o n) = file_contents o ∧ pos (sys_seek_cur o n) = pos o + n;
  truncate_law o n : 0 <= n -> ∃ o', ftruncate64 o n = Some o' ∧ file_contents o' = resize n (file_contents o)
}.

(** ** The chunks of an image that can be unpacked *)
Definition blocks_of (bs : Z) (c : schunk) : Z :=
  match c with CRaw data => zlen data / bs | CFill _ n => n | CSkip n => n | CCrc _ => 0 end.
Definition chunk_ok (bs : Z) (c : schunk) : Prop :=
  match c with
  | CRaw data => (bs | zlen data) ∧ 12 + zlen data < 2 ^ 32
  | CFill v n => 0 <= v < 2 ^ 32 ∧ 0 <= n < 2 ^ 32 ∧ (4 | bs)
  | CSkip n => 0 <= n < 2 ^ 32
  | CCrc v => True
  end.
(** A checksum is that of the data in front of it. *)
Fixpoint crcs_ok (bs crc : Z) (cs : list schunk) : Prop :=
  match cs with
  | [] => True
  | CCrc v :: cs => v = crc ∧ crcs_ok bs crc cs
  | c :: cs => crcs_ok bs (sparse_crc32 crc (payload bs c)) cs
  end.
Fixpoint total_of (bs : Z) (cs : list schunk) : Z := match cs with [] => 0 | c :: cs => blocks_of bs c + total_of bs cs end.

Lemma zeros_add m n : 0 <= m -> 0 <= n -> zeros (m + n) = zeros m ++ zeros n.
Proof. intros. unfold zeros. rewrite Z2Nat.inj_add by lia. apply replicate_add. Qed.
Lemma zeros_zlen n : 0 <= n -> zlen (zeros n) = n.
Proof. intros. unfold zeros, zlen. rewrite length_replicate. lia. Qed.

Section Correct.
Context {FI FO : Type} `{IoLaws FI FO}.

(** ** Whole reads and writes *)
Lemma read_all_loop_ok fuel i len buf a r :
  rest i = a ++ r -> zlen buf + zlen a = len -> (length a <= fuel)%nat ->
  ∃ i', read_all_loop fuel i len buf = Some (buf ++ a, i') ∧ rest i' = r.
Proof.
  revert i buf a. induction fuel as [|fuel IH]; intros i buf a Hi Hl Hf.
  - destruct a; [|cbn in Hf; lia]. exists i. cbn. unfold zlen in Hl |- *. cbn in Hl. rewrite (proj2 (Z.ltb_ge _ _)) by lia.
    by rewrite app_nil_r.
  - cbn [read_all_loop]. destruct (Z.ltb_spec (zlen buf) len) as [Hlt|Hge].
    + destruct (read_law i (len - zlen buf)) as (k & i' & E & Hr & Hk & Hkl & Hk0); [lia|]. rewrite E. cbn.
      assert (Ha : a <> []) by (intros ->; unfold zlen in *; cbn in *; lia).
      assert (0 < k)%nat by (apply Hk0; rewrite Hi; by destruct a).
      assert (Hka : (k <= length a)%nat) by (unfold zlen in *; lia).
      assert (Et : take k (rest i) = take k a) by (rewrite Hi; by apply take_app_le). rewrite Et.
      assert (Hz : zlen (take k a) = Z.of_nat k) by (unfold zlen; rewrite length_take; lia).
      rewrite Hz. rewrite (proj2 (Z.eqb_neq _ _)) by lia.
      destruct (IH i' (buf ++ take k a) (drop k a)) as (i2 & E2 & Hr2).
      * rewrite Hr, Hi. by rewrite drop_app_le.
      * rewrite zlen_app, Hz. unfold zlen in *. rewrite length_drop. lia.
      * rewrite length_drop. lia.
      * exists i2. by rewrite E2, <- app_assoc, take_drop.
    + assert (a = []) as -> by (destruct a; [done | unfold zlen in *; cbn in *; lia]).
      exists i. by rewrite app_nil_r.
Qed.
Lemma read_exactly_ok i len a r : rest i = a ++ r -> zlen a = len -> ∃ i', read_exactly i len = Some (a, i') ∧ rest i' = r.
Proof.
  intros Hi Hl. destruct (read_all_loop_ok (Z.to_nat len) i len [] a r Hi) as (i' & E & Hr); [done | unfold zlen in Hl; lia|].
  exists i'. split; [|done]. unfold read_exactly, read_all. rewrite E. cbn. by rewrite Hl, Z.eqb_refl.
Qed.

(** The output shows [img]: what was skipped at its end need not be there yet. *)
Definition shows (o : FO) (img : list Z) : Prop :=
  zlen (file_contents o) <= pos o ∧ file_contents o ++ zeros (pos o - zlen (file_contents o)) = img.
Lemma shows_len o img : shows o img -> zlen img = pos o.
Proof. intros [Hl <-]. rewrite zlen_app, zeros_zlen; lia. Qed.
Lemma write_at_end p b l : zlen l <= p -> write_at p b l = (l ++ zeros (p - zlen l)) ++ b.
Proof.
  intros Hl. unfold write_at. fold (zeros (p - zlen l)). pose proof (zlen_nonneg l).
  assert (E : zlen (l ++ zeros (p - zlen l)) = p) by (rewrite zlen_app, zeros_zlen; lia).
  rewrite take_ge by (unfold zlen in *; lia). rewrite (drop_ge l) by (unfold zlen in *; lia). by rewrite app_nil_r.
Qed.
Lemma shows_app o o' img b :
  shows o img -> file_contents o' = write_at (pos o) b (file_contents o) -> pos o' = pos o + zlen b -> shows o' (img ++ b).
Proof.
  intros [Hl <-] Hc Hp. unfold shows. rewrite Hc, write_at_end by done.
  assert (E : zlen ((file_contents o ++ zeros (pos o - zlen (file_contents o))) ++ b) = pos o').
  { rewrite !zlen_app, zeros_zlen by lia. lia. }
  split; [lia|]. rewrite E, Z.sub_diag. apply app_nil_r.
Qed.
Lemma write_all_loop_ok fuel o b total img :
  shows o (img ++ take (Z.to_nat total) b) -> 0 <= total <= zlen b -> (length b - Z.to_nat total <= fuel)%nat ->
  ∃ o', write_all_loop fuel o b total = Some (zlen b, o') ∧ shows o' (img ++ b).
Proof.
  revert o total. induction fuel as [|fuel IH]; intros o total Ho Ht Hf.
  - assert (total = zlen b) as -> by (unfold zlen in *; lia). exists o. cbn. rewrite Z.ltb_irrefl. split; [done|].
    unfold zlen in Ho. by rewrite Nat2Z.id, firstn_all in Ho.
  - cbn [write_all_loop]. destruct (Z.ltb_spec total (zlen b)) as [Hlt|Hge].
    + destruct (write_law o (drop (Z.to_nat total) b)) as (k & o' & E & Hk & Hc & Hp).
      { intros E0. apply (f_equal length) in E0. rewrite length_drop in E0. unfold zlen in *. cbn in E0. lia. }
      rewrite E. cbn. rewrite (proj2 (Z.eqb_neq _ _)) by lia. rewrite length_drop in Hk.
      apply IH; [|unfold zlen in *; lia | unfold zlen in *; lia].
      replace (Z.to_nat (total + Z.of_nat k)) with (Z.to_nat total + k)%nat by lia.
      rewrite <- take_take_drop, app_assoc. apply (shows_app o); [done | done|]. rewrite Hp. unfold zlen. rewrite length_take, length_drop. lia.
    + assert (total = zlen b) as -> by lia. exists o. split; [done|].
      unfold zlen in Ho. by rewrite Nat2Z.id, firstn_all in Ho.
Qed.
Lemma write_exactly_ok o b img : shows o img -> ∃ o', write_exactly o b = Some o' ∧ shows o' (img ++ b).
Proof.
  intros Ho. destruct (write_all_loop_ok (length b) o b 0 img) as (o' & E & Ho'); [by rewrite app_nil_r | unfold zlen; lia | lia|].
  exists o'. split; [|done]. unfold write_exactly, write_all. rewrite E. cbn. by rewrite Z.eqb_refl.
Qed.

(** ** Chunks *)
Record at_state (s : state FI FO) (r img : list Z) (crc : Z) : Prop := At {
  at_rest : rest (inp s) = r; at_shows : shows (outp s) img; at_crc : crc32 s = crc
}.
Lemma loop_count_ok len : 0 <= len -> len <= Z.of_nat (loop_count len) * COPY_BUF_SIZE.
Proof.
  intros Hl. unfold loop_count. assert (0 < COPY_BUF_SIZE) by done. pose proof (Z.div_pos len COPY_BUF_SIZE).
  rewrite Z2Nat.id by lia. pose proof (Z.div_mod len COPY_BUF_SIZE). pose proof (Z.mod_pos_bound len COPY_BUF_SIZE). lia.
Qed.

Lemma raw_loop_ok fuel s data r img crc :
  at_state s (data ++ r) img crc -> zlen data <= Z.of_nat fuel * COPY_BUF_SIZE ->
  ∃ s', raw_loop fuel (zlen data) s = Some s' ∧ at_state s' r (img ++ data) (sparse_crc32 crc data).
Proof.
  revert s data img crc. induction fuel as [|fuel IH]; intros s data img crc Hs Hf; assert (0 < COPY_BUF_SIZE) by done.
  - assert (data = []) as -> by (destruct data; [done | unfold zlen in Hf; cbn [length] in Hf; lia]). exists s. split; [done|].
    by rewrite app_nil_r, crc_nil.
  - cbn [raw_loop]. destruct (Z.eqb_spec (zlen data) 0) as [E0|Hne].
    { assert (data = []) as -> by (destruct data; [done | unfold zlen in E0; cbn [length] in E0; lia]). exists s. split; [done|].
      by rewrite app_nil_r, crc_nil. }
    pose proof (zlen_nonneg data).
    set (chunk := if COPY_BUF_SIZE <? zlen data then COPY_BUF_SIZE else zlen data).
    assert (Hc : 0 < chunk <= zlen data ∧ zlen data - chunk <= Z.of_nat fuel * COPY_BUF_SIZE).
    { unfold chunk. destruct (Z.ltb_spec COPY_BUF_SIZE (zlen data)); lia. }
    destruct Hc as [Hc Hf']. clearbody chunk. set (a := take (Z.to_nat chunk) data). set (d := drop (Z.to_nat chunk) data).
    assert (Ed : data = a ++ d) by (unfold a, d; by rewrite take_drop).
    assert (Ha : zlen a = chunk) by (unfold a, zlen in *; rewrite length_take; lia).
    assert (Hd : zlen d = zlen data - chunk) by (unfold d, zlen in *; rewrite length_drop; lia).
    destruct Hs as [Hr Hsh Hcrc]. rewrite Ed, <- app_assoc in Hr.
    destruct (read_exactly_ok (inp s) chunk a (d ++ r) Hr Ha) as (i' & E1 & Hi'). rewrite E1. cbn.
    destruct (write_exactly_ok (outp s) a img Hsh) as (o' & E2 & Ho'). rewrite E2. cbn. rewrite <- Hd.
    destruct (IH (State i' o' (sparse_crc32 (crc32 s) a)) d (img ++ a) (sparse_crc32 crc a)) as (s' & E3 & Hs');
      [by split; cbn; rewrite ?Hcrc | lia|].
    exists s'. split; [done|]. by rewrite <- app_assoc, sparse_crc32_app, <- Ed in Hs'.
Qed.

Lemma fill_bytes_app v m n : 0 <= m -> 0 <= n -> (4 | m) -> fill_bytes v (m + n) = fill_bytes v m ++ fill_bytes v n.
Proof.
  intros Hm Hn [q ->]. unfold fill_bytes. rewrite Z.add_comm, Z.div_add, Z.div_mul by lia.
  pose proof (Z.div_pos n 4). rewrite Z.add_comm, Z2Nat.inj_add, replicate_add, concat_app by lia. done.
Qed.
Lemma fill_bytes_zlen v n : 0 <= n -> (4 | n) -> zlen (fill_bytes v n) = n.
Proof.
  intros Hn [q ->]. unfold fill_bytes. rewrite Z.div_mul by lia. unfold zlen.
  assert (E : ∀ k, length (concat (replicate k (bytes32 v))) = (4 * k)%nat) by (induction k as [|k IH]; [done|]; cbn [replicate concat]; rewrite length_app, IH, bytes32_len; lia).
  rewrite E. lia.
Qed.
Lemma fill_take v m n : 0 <= m <= n -> (4 | m) -> take (Z.to_nat m) (fill_bytes v n) = fill_bytes v m.
Proof.
  intros Hm Hd. replace n with (m + (n - m)) by lia. rewrite fill_bytes_app by (done || lia).
  pose proof (fill_bytes_zlen v m ltac:(lia) Hd) as Hl. rewrite take_app_le by (unfold zlen in Hl; lia).
  apply take_ge. unfold zlen in Hl. lia.
Qed.

Lemma fill_copy_loop_ok fuel s v len r img crc :
  at_state s r img crc -> 0 <= len <= Z.of_nat fuel * COPY_BUF_SIZE -> (4 | len) ->
  ∃ s', fill_copy_loop fuel (fill_bytes v COPY_BUF_SIZE) len s = Some s' ∧
    at_state s' r (img ++ fill_bytes v len) (sparse_crc32 crc (fill_bytes v len)).
Proof.
  revert s len img crc. induction fuel as [|fuel IH]; intros s len img crc Hs Hf Hd; assert (0 < COPY_BUF_SIZE) by done.
  - assert (len = 0) as -> by lia. exists s. split; [done|]. change (fill_bytes v 0) with (@nil Z). by rewrite app_nil_r, crc_nil.
  - cbn [fill_copy_loop]. destruct (Z.eqb_spec len 0) as [->|Hne].
    { exists s. split; [done|]. change (fill_bytes v 0) with (@nil Z). by rewrite app_nil_r, crc_nil. }
    set (chunk := if COPY_BUF_SIZE <? len then COPY_BUF_SIZE else len).
    assert (Hc : 0 < chunk <= len ∧ len - chunk <= Z.of_nat fuel * COPY_BUF_SIZE ∧ chunk <= COPY_BUF_SIZE ∧ (4 | chunk)).
    { unfold chunk. destruct (Z.ltb_spec COPY_BUF_SIZE len); split_and!; try lia; [by exists 262144 | done]. }
    destruct Hc as (Hc & Hf' & Hcb & Hcd). clearbody chunk. cbv zeta. rewrite fill_take by (done || lia).
    destruct Hs as [Hr Hsh Hcrc]. destruct (write_exactly_ok (outp s) (fill_bytes v chunk) img Hsh) as (o' & E2 & Ho'). rewrite E2. cbn.
    destruct (IH (State (inp s) o' (sparse_crc32 (crc32 s) (fill_bytes v chunk))) (len - chunk)
      (img ++ fill_bytes v chunk) (sparse_crc32 crc (fill_bytes v chunk))) as (s' & E3 & Hs');
      [by split; cbn; rewrite ?Hcrc | lia | by apply Z.divide_sub_r |].
    exists s'. split; [done|]. rewrite <- app_assoc, sparse_crc32_app, <- fill_bytes_app in Hs' by (done || lia).
    by replace (chunk + (len - chunk)) with len in Hs' by lia.
Qed.

Definition crc_after (bs crc : Z) (c : schunk) : Z := sparse_crc32 crc (payload bs c).
Lemma process_chunk_ok h bs s c r img crc total :
  chunk_hdr_sz h = 12 -> blk_sz h = bs -> 0 < bs < 2 ^ 32 -> chunk_ok bs c ->
  match c with CCrc v => v = crc | _ => True end -> 0 <= crc < 2 ^ 32 -> 0 <= total < 2 ^ 32 ->
  at_state s (chunk_bytes bs c ++ r) img crc ->
  ∃ s', process_chunk h s total = Some (s', u32 (total + blocks_of bs c)) ∧
    at_state s' r (img ++ expand bs c) (crc_after bs crc c).
Proof.
  intros Hch Hbs Hb Hc Hv Hcrc Ht [Hr Hsh Hs]. unfold chunk_bytes in Hr. rewrite <- app_assoc in Hr.
  destruct (read_exactly_ok (inp s) 12 (chunk_header_bytes (header_of bs c)) (body_of c ++ r) Hr) as (i & E & Hi); [done|].
  unfold process_chunk, CHUNK_HEADER_LEN. rewrite E. cbn [mbind option_bind]. rewrite Hch, Z.ltb_irrefl, Hbs.
  assert (Hdr : chunk_header_of (chunk_header_bytes (header_of bs c)) = header_of bs c).
  { rewrite <- (app_nil_r (chunk_header_bytes _)). apply chunk_header_read.
    unfold chunk_header_ok, header_of, CHUNK_HEADER_LEN, CHUNK_TYPE_RAW, CHUNK_TYPE_FILL, CHUNK_TYPE_DONT_CARE, CHUNK_TYPE_CRC32.
    destruct c as [data|v n|n|v]; cbn [chunk_ok chunk_type reserved1 chunk_sz total_sz] in *; try lia.
    destruct Hc as (_ & Hl). pose proof (zlen_nonneg data). pose proof (Z.div_pos (zlen data) bs).
    assert (zlen data / bs <= zlen data) by (apply Z.div_le_upper_bound; nia). lia. }
  assert (Hmul : ∀ n, 0 <= n < 2 ^ 32 -> 0 <= n * bs < 2 ^ 64) by (intros n Hn; nia).
  rewrite Hdr. unfold crc_after. set (s1 := State i (outp s) (crc32 s)).
  assert (Hs1 : ∀ a, rest i = a -> at_state s1 a img crc) by (intros a Ha; by split).
  destruct c as [data|v n|n|v]; cbn [header_of chunk_type chunk_sz total_sz body_of payload expand blocks_of app] in *.
  - destruct Hc as ([q Eq] & Hl). rewrite Z.eqb_refl. pose proof (zlen_nonneg data).
    assert (Hm : zlen data / bs * bs = zlen data) by (rewrite Eq, Z.div_mul by lia; done).
    rewrite Hm. rewrite !u32_small by (rewrite ?u32_small by lia; lia). unfold CHUNK_HEADER_LEN. rewrite Z.eqb_refl. cbn [negb].
    unfold process_raw_chunk. rewrite Hm. unfold u64. rewrite Z.mod_small by lia.
    destruct (raw_loop_ok (loop_count (zlen data)) s1 data r img crc (Hs1 _ Hi)) as (s' & E2 & Hs'); [by apply loop_count_ok|].
    rewrite E2. by exists s'.
  - destruct Hc as (Hv' & Hn & Hd). change (CHUNK_TYPE_FILL =? CHUNK_TYPE_RAW) with false. rewrite Z.eqb_refl. cbn [negb Z.eqb].
    change (CHUNK_HEADER_LEN + 4 =? 12 + 4) with true. cbn [negb]. unfold process_fill_chunk, u64. rewrite Z.mod_small by auto.
    destruct (read_exactly_ok (inp s1) 4 (bytes32 v) r Hi) as (i2 & E2 & Hi2); [done|]. rewrite E2. cbn [mbind option_bind].
    assert (Ev : le32 (bytes32 v) = v) by (rewrite <- (app_nil_r (bytes32 v)); by apply le32_bytes32). rewrite Ev.
    destruct (fill_copy_loop_ok (loop_count (n * bs)) (State i2 (outp s1) (crc32 s1)) v (n * bs) r img crc) as (s' & E3 & Hs').
    + by split.
    + split; [nia|]. apply loop_count_ok. nia.
    + by apply Z.divide_mul_r.
    + rewrite E3. by exists s'.
  - change (CHUNK_TYPE_DONT_CARE =? CHUNK_TYPE_RAW) with false. change (CHUNK_TYPE_DONT_CARE =? CHUNK_TYPE_FILL) with false.
    rewrite Z.eqb_refl. change (CHUNK_HEADER_LEN =? 12) with true. cbn [negb]. eexists. split; [done|].
    unfold process_skip_chunk, u64. rewrite Z.mod_small by auto. destruct (seek_law (outp s1) (n * bs)) as [Ec Ep]. specialize (Hmul n Hc).
    destruct Hsh as [Hl Himg]. split; cbn [inp outp crc32]; [done | | by rewrite crc_nil].
    unfold shows. rewrite Ec, Ep. cbn [outp s1]. split; [lia|]. fold (zeros (n * bs)).
    replace (pos (outp s) + n * bs - zlen (file_contents (outp s))) with ((pos (outp s) - zlen (file_contents (outp s))) + n * bs) by lia.
    rewrite zeros_add by lia. by rewrite app_assoc, Himg.
  - change (CHUNK_TYPE_CRC32 =? CHUNK_TYPE_RAW) with false. change (CHUNK_TYPE_CRC32 =? CHUNK_TYPE_FILL) with false.
    change (CHUNK_TYPE_CRC32 =? CHUNK_TYPE_DONT_CARE) with false. rewrite Z.eqb_refl. unfold process_crc32_chunk.
    destruct (read_exactly_ok (inp s1) 4 (bytes32 v) r Hi) as (i2 & E2 & Hi2); [done|]. rewrite E2. cbn [mbind option_bind].
    assert (Ev : le32 (bytes32 v) = v) by (rewrite <- (app_nil_r (bytes32 v)); apply le32_bytes32; lia).
    rewrite Ev. cbn [crc32 s1]. rewrite Hs, Hv, !Z.eqb_refl. cbn [negb mbind option_bind]. rewrite Z.add_0_r, u32_small by done.
    eexists. split; [done|]. rewrite app_nil_r, crc_nil. by split.
Qed.

Lemma process_chunks_ok h bs cs s img crc total :
  chunk_hdr_sz h = 12 -> blk_sz h = bs -> 0 < bs < 2 ^ 32 -> Forall (chunk_ok bs) cs -> crcs_ok bs crc cs ->
  0 <= crc < 2 ^ 32 -> 0 <= total < 2 ^ 32 -> at_state s (stream bs cs) img crc ->
  ∃ s', process_chunks (length cs) h s total = Some (s', u32 (total + total_of bs cs)) ∧
    shows (outp s') (img ++ image bs cs).
Proof.
  intros Hch Hbs Hb. revert s img crc total. induction cs as [|c cs IH]; intros s img crc total Hok Hcrcs Hcrc Ht Hs.
  - exists s. cbn [length process_chunks total_of]. rewrite Z.add_0_r, u32_small by done. split; [done|].
    change (image bs []) with (@nil Z). rewrite app_nil_r. by apply at_shows in Hs.
  - apply Forall_cons in Hok as [Hc Hok]. cbn [length process_chunks].
    change (stream bs (c :: cs)) with (chunk_bytes bs c ++ stream bs cs) in Hs.
    destruct (process_chunk_ok h bs s c (stream bs cs) img crc total Hch Hbs Hb Hc) as (s1 & E1 & Hs1); try done.
    { destruct c; try done. by destruct Hcrcs. }
    rewrite E1. cbn [mbind option_bind].
    destruct (IH s1 (img ++ expand bs c) (crc_after bs crc c) (u32 (total + blocks_of bs c)) Hok) as (s2 & E2 & Hs2).
    + unfold crc_after. destruct c; cbn [crcs_ok payload] in *; try done. rewrite crc_nil. by destruct Hcrcs.
    + by apply sparse_crc32_range.
    + apply u32_range.
    + done.
    + exists s2. rewrite E2. split; [|by rewrite <- app_assoc in Hs2]. f_equal. f_equal.
      unfold u32. rewrite Z.add_mod_idemp_l by lia. cbn [total_of]. f_equal. lia.
Qed.

Lemma image_zlen bs cs : 0 < bs -> Forall (chunk_ok bs) cs -> zlen (image bs cs) = total_of bs cs * bs ∧ 0 <= total_of bs cs.
Proof.
  intros Hb. induction 1 as [|c cs Hc _ [IH IH0]]; [done|]. change (image bs (c :: cs)) with (expand bs c ++ image bs cs).
  rewrite zlen_app, IH. cbn [total_of]. enough (zlen (expand bs c) = blocks_of bs c * bs ∧ 0 <= blocks_of bs c) by lia.
  destruct c as [data|v n|n|v]; cbn [expand blocks_of chunk_ok] in *.
  - destruct Hc as ([q Eq] & _). rewrite Eq, Z.div_mul by lia. pose proof (zlen_nonneg data). nia.
  - destruct Hc as (_ & Hn & Hd). rewrite fill_bytes_zlen; [lia | nia | by apply Z.divide_mul_r].
  - split; [|lia]. apply zeros_zlen. nia.
  - split; [reflexivity | lia].
Qed.

(** What [simg2img] does with an image of well-formed chunks. *)
Lemma simg2img_ok h cs i o :
  sparse_header_ok h -> magic h = SPARSE_HEADER_MAGIC -> major_version h = 1 -> file_hdr_sz h = 28 -> chunk_hdr_sz h = 12 ->
  0 < blk_sz h -> total_chunks h = zlen cs -> total_blks h = total_of (blk_sz h) cs ->
  Forall (chunk_ok (blk_sz h)) cs -> crcs_ok (blk_sz h) 0 cs ->
  rest i = sparse_header_bytes h ++ stream (blk_sz h) cs -> file_contents o = [] -> pos o = 0 ->
  ∃ o', simg2img i o = Some o' ∧ file_contents o' = image (blk_sz h) cs.
Proof.
  intros Hok Hm Hmaj Hfh Hch Hb Htc Htb Hcs Hcrc Hi Hc Hp. set (bs := blk_sz h) in *.
  assert (Hb2 : bs < 2 ^ 32) by (unfold bs; apply Hok). assert (Htb2 : 0 <= total_blks h < 2 ^ 32) by apply Hok.
  destruct (read_exactly_ok i 28 (sparse_header_bytes h) (stream bs cs) Hi) as (i1 & E & Hi1); [done|].
  unfold simg2img, SPARSE_HEADER_LEN. rewrite E. cbn [mbind option_bind].
  assert (Eh : sparse_header_of (sparse_header_bytes h) = h) by (rewrite <- (app_nil_r (sparse_header_bytes h)); by apply sparse_header_read).
  rewrite Eh, Hm, Hmaj, Hfh, Htc, !Z.eqb_refl, Z.ltb_irrefl. cbn [negb]. unfold zlen at 1. rewrite Nat2Z.id.
  destruct (process_chunks_ok h bs cs (State i1 o 0) [] 0 0 Hch eq_refl) as (s & E2 & Hs); try done.
  { split; cbn; try done. unfold shows. rewrite Hc, Hp. done. }
  rewrite E2. cbn [mbind option_bind]. rewrite Z.add_0_l. rewrite <- Htb, u32_small by done. fold bs.
  unfold u64. rewrite Z.mod_small by nia.
  destruct (truncate_law (outp s) (total_blks h * bs)) as (o' & E3 & Ho'); [nia|]. rewrite E3. cbn [mbind option_bind].
  rewrite Z.eqb_refl. cbn [negb]. exists o'. split; [done|]. rewrite Ho'. cbn [app] in Hs.
  destruct (image_zlen bs cs Hb Hcs) as [El _]. rewrite <- Htb in El. pose proof (shows_len _ _ Hs) as Hpos. destruct Hs as [Hle Himg].
  unfold resize. rewrite take_ge by (unfold zlen in *; lia). rewrite <- El, Hpos. done.
Qed.
End Correct.
