(* ===== verification/MemFile.v ===== *)
(** * A file in memory

    The interfaces of the image tools have implementations: a file of bytes with a
    position, whose writes the operations of [output_file.c] complete, and for [simg2img]
    an input that gives at most three bytes at a time and an output that takes at most
    five. *)
From stdpp Require Import base list.
From Stdlib Require Import ZArith Lia.
From S2P Require Import Prelude SparseFormat OutFile OutFileSpec Simg.
#[local] Open Scope Z_scope.

Record mfile := MFile { m_bytes : list Z; m_pos : Z }.
Definition m_lseek (f : mfile) (off : Z) : mfile * Z := if off <? 0 then (f, -1) else (MFile (m_bytes f) off, off).
Definition m_write (f : mfile) (b : list Z) : mfile * Z :=
  (MFile (write_at (m_pos f) b (m_bytes f)) (m_pos f + zlen b), zlen b).
Definition m_ops : output_file_ops mfile := file_ops m_lseek m_write.

Lemma m_write_ok f b : op_write m_ops f b = Some (MFile (write_at (m_pos f) b (m_bytes f)) (m_pos f + zlen b)).
Proof.
  cbn. unfold file_write, m_write. pose proof (zlen_nonneg b). rewrite (proj2 (Z.ltb_ge _ _)) by lia. by rewrite Z.ltb_irrefl.
Qed.
#[export, refine] Instance m_appends : Appends m_ops :=
  { holds f s := m_bytes f = s ∧ m_pos f = zlen s }.
Proof.
  intros f s b [<- Hp]. rewrite m_write_ok. eexists. split; [done|]. cbn. rewrite Hp.
  unfold write_at. rewrite Z.sub_diag. cbn [Z.to_nat replicate]. rewrite app_nil_r.
  rewrite take_ge by (unfold zlen; lia). rewrite drop_ge by (unfold zlen; lia). rewrite app_nil_r. by rewrite zlen_app.
Defined.
#[export, refine] Instance m_seeks : Seeks m_ops := { view f s p := m_bytes f = s ∧ m_pos f = p }.
Proof.
  - intros f s p off [<- <-] Ho. exists (MFile (m_bytes f) off). split; [|done]. cbn. unfold file_seek, m_lseek.
    rewrite (proj2 (Z.ltb_ge _ _)) by lia. by rewrite (proj2 (Z.ltb_ge _ _)) by lia.
  - intros f s p b [<- <-]. rewrite m_write_ok. by eexists.
Defined.

Definition m_take (n : Z) (l : list Z) : nat := Nat.min (Z.to_nat n) (length l).
#[export] Instance m_io : Io (list Z) mfile := {
  sys_read i n := let k := m_take (Z.min n 3) i in Some (take k i, drop k i);
  sys_skip i n := drop (Z.to_nat n) i;
  sys_write o b := let k := m_take 5 b in Some (Z.of_nat k, (m_write o (take k b)).1);
  sys_seek_cur o n := MFile (m_bytes o) (m_pos o + n);
  ftruncate64 o n := Some (MFile (resize n (m_bytes o)) (m_pos o))
}.
#[export, refine] Instance m_io_laws : IoLaws (list Z) mfile := {
  rest i := i; file_contents := m_bytes; pos := m_pos
}.
Proof.
  - intros i n Hn. exists (m_take (Z.min n 3) i), (drop (m_take (Z.min n 3) i) i). unfold m_take. split_and!; try done; try lia.
    intros Hi. destruct i; [done|]. cbn [length]. lia.
  - intros o b Hb. exists (m_take 5 b). eexists. split; [done|]. cbn. unfold m_take.
    destruct b as [|x b]; [done|]. cbn [length]. split; [lia|]. split; [done|].
    unfold zlen. rewrite length_take. cbn [length]. f_equal. lia.
  - done.
  - intros o n _. by eexists.
Defined.
