(* ===== verification/ImageTrip.v ===== *)
(** * From the queue of blocks to the image, and to the device

    The blocks that were queued determine the image byte by byte.  Here the parts meet: the
    queue ([Backed]), the writer ([OutFile]) in both its modes, the tool that unpacks a
    sparse image ([Simg]), and the bootloader that writes one to the device as it arrives
    ([Sparse]). *)
From stdpp Require Import base gmap list sorting.
From Stdlib Require Import ZArith Lia.
From S2P Require Sparse.
From S2P Require Import Prelude Crc SparseFormat Backed OutFile OutFileSpec Simg MemFile.
#[local] Open Scope Z_scope.

(** [malloc] gives the nodes of the queue. *)
Definition with_nodes (l : list data_block) : list (nat * data_block) := imap (fun k d => (k, d)) l.

Lemma with_nodes_snd l : (with_nodes l).*2 = l.
Proof. unfold with_nodes. rewrite fmap_imap. induction l as [|d l IH]; [done|]. cbn. f_equal. exact IH. Qed.
Lemma with_nodes_nodup l : NoDup (with_nodes l).*1.
Proof.
  unfold with_nodes. rewrite fmap_imap. apply NoDup_alt. intros i j x Hi Hj.
  rewrite !list_lookup_imap in Hi, Hj. destruct (l !! i), (l !! j); cbn in *; congruence.
Qed.
Lemma with_nodes_in l x d : (x, d) ∈ with_nodes l -> d ∈ l.
Proof. intros Hx. rewrite <- (with_nodes_snd l). apply list_elem_of_fmap. by exists (x, d). Qed.
Lemma with_nodes_length l : length (with_nodes l) = length l.
Proof. apply length_imap. Qed.

Section Trip.
Context (load : Z -> Z -> option (list Z)) (mmap64 : nat -> Z -> Z -> option (list Z)).
Context (info : fs_info) (Hg : geometry info).
Notation bs := (block_size info).
Notation placed := (placed load mmap64 info).
Notation body := (body load mmap64 info).
Notation layout := (layout load mmap64 info).
Notation chunk_of := (chunk_of load mmap64 info).
Notation padded := (padded load mmap64 info).
Notation fits := (block_fits load mmap64 info).
Notation span_of := (span_of info).
Notation start := (start info).
Notation src_of := (src_of info).
Notation end_ptr := (end_ptr info).

(** ** The image, byte by byte *)

(** The bytes a block has in the image: a value fills all of its blocks. *)
Definition block_bytes (d : data_block) : list Z :=
  match src_of d with Fill v => fill_bytes v (span_of d) | _ => padded d end.
(** Zeros, and every block at its place. *)
Definition flat (L : list data_block) : list Z :=
  foldl (fun img d => overlay (start d) (block_bytes d) img) (zeros (info_len info)) L.

Lemma words_div n : (bs | n) -> (4 | n).
Proof.
  intros Hd. etrans; [|exact Hd]. apply Z.mod_divide; [lia|]. by apply bs_words.
Qed.
Lemma span_divide d : (bs | span_of d).
Proof. apply round_up_to_divide. Qed.
Lemma expand_chunk_of ptr d : fits ptr d -> expand bs (chunk_of d) = block_bytes d.
Proof.
  intros _. unfold OutFileSpec.chunk_of, block_bytes. destruct (src_of d); cbn [expand]; try done.
  by rewrite span_div.
Qed.
Lemma block_bytes_zlen ptr d : fits ptr d -> zlen (block_bytes d) = span_of d.
Proof.
  intros (Hp & Hn & Hb & ((b & Eb & Hlb) & _) & _). pose proof (span_bounds info Hg d Hn). unfold block_bytes, OutFileSpec.padded.
  rewrite Eb. cbn [default from_option id]. destruct (src_of d); try (rewrite zlen_app; fold (zeros (span_of d - len d)); rewrite zeros_zlen by lia; lia).
  apply fill_bytes_zlen; [lia|]. apply words_div, span_divide.
Qed.

Lemma image_app cs cs' : image bs (cs ++ cs') = image bs cs ++ image bs cs'.
Proof. unfold image. by rewrite fmap_app, concat_app. Qed.
Lemma image_gap a b : (bs | a) -> (bs | b) -> a <= b -> image bs (gap info a b) = zeros (b - a).
Proof.
  intros [i ->] [j ->] Hle. pose proof (bs_pos info Hg). unfold gap. destruct (Z.ltb_spec (i * bs) (j * bs)).
  - unfold image. cbn [fmap list_fmap concat expand]. rewrite app_nil_r. unfold zeros. f_equal. f_equal.
    replace (j * bs - i * bs) with ((j - i) * bs) by lia. by rewrite Z.div_mul by lia.
  - by replace (j * bs - i * bs) with 0 by lia.
Qed.

Lemma zeros_drop m n : 0 <= m <= n -> drop (Z.to_nat m) (zeros n) = zeros (n - m).
Proof. intros. unfold zeros. rewrite drop_replicate. f_equal. lia. Qed.
Lemma flat_layout L ptr img :
  (bs | ptr) -> 0 <= ptr <= info_len info -> placed ptr L -> zlen img = info_len info ->
  drop (Z.to_nat ptr) img = zeros (info_len info - ptr) ->
  foldl (fun img d => overlay (start d) (block_bytes d) img) img L =
    take (Z.to_nat ptr) img ++ image bs (body ptr L ++ gap info (end_ptr ptr L) (info_len info)).
Proof.
  revert ptr img. induction L as [|d L IH]; intros ptr img Hd Hp Hpl Hl Hz.
  - cbn [foldl OutFileSpec.body OutFileSpec.end_ptr app]. rewrite image_gap by (done || apply Hg || lia).
    by rewrite <- Hz, take_drop.
  - apply placed_cons in Hpl as [Hfit Hpl]. destruct (fits_le _ _ _ Hg _ _ Hfit) as (H1 & _ & H2).
    pose proof (block_bytes_zlen _ _ Hfit) as Hbl. pose proof (zlen_nonneg (block_bytes d)).
    cbn [foldl]. set (img' := overlay (start d) (block_bytes d) img).
    assert (Hl' : zlen img' = info_len info) by (unfold img'; rewrite overlay_len; lia).
    assert (Etake : take (Z.to_nat (start d + span_of d)) img' = take (Z.to_nat ptr) img ++ zeros (start d - ptr) ++ block_bytes d).
    { unfold img', overlay. rewrite app_assoc. rewrite take_app_le by (rewrite length_app, length_take; unfold zlen in *; lia).
      rewrite take_ge by (rewrite length_app, length_take; unfold zlen in *; lia). rewrite app_assoc. f_equal.
      replace (Z.to_nat (start d)) with (Z.to_nat ptr + Z.to_nat (start d - ptr))%nat by lia. rewrite <- take_take_drop. f_equal.
      rewrite Hz. unfold zeros. rewrite take_replicate. f_equal. lia. }
    rewrite (IH (start d + span_of d) img'); [|by apply next_ptr_div | lia | done | done |].
    + rewrite Etake. cbn [OutFileSpec.body OutFileSpec.end_ptr]. rewrite <- !app_assoc. f_equal.
      rewrite <- app_comm_cons, cons_middle, app_assoc, !image_app, (image_gap ptr (start d) Hd (Z.divide_factor_r _ _) H1).
      unfold image at 3. cbn [fmap list_fmap concat]. rewrite app_nil_r, (expand_chunk_of _ _ Hfit). by rewrite <- !app_assoc.
    + assert (Ed : drop (Z.to_nat (start d + span_of d)) img' = drop (Z.to_nat (start d + span_of d)) img).
      { unfold img', overlay. rewrite app_assoc, drop_app_ge by (rewrite length_app, length_take; unfold zlen in *; lia).
        rewrite length_app, length_take, drop_drop. f_equal. unfold zlen in *. lia. }
      rewrite Ed. replace (Z.to_nat (start d + span_of d)) with (Z.to_nat ptr + Z.to_nat (start d + span_of d - ptr))%nat by lia.
      rewrite <- drop_drop, Hz, zeros_drop by lia. f_equal. lia.
Qed.
(** The layout stands for the image. *)
Lemma layout_image L : placed 0 L -> image bs (layout L) = flat L.
Proof.
  intros Hpl. pose proof (info_len_range info Hg). unfold flat. rewrite (flat_layout L 0); try done.
  - apply Z.divide_0_r.
  - lia.
  - apply zeros_zlen. lia.
  - rewrite Z.sub_0_r. done.
Qed.

(** ** The chunks can be unpacked *)
Lemma gap_chunk_ok a b : a <= b -> 0 <= a -> b <= info_len info -> Forall (chunk_ok bs) (gap info a b).
Proof.
  intros Hle Ha Hb. unfold gap. destruct (Z.ltb_spec a b); [|constructor]. constructor; [|constructor]. cbn. pose proof (bs_pos info Hg).
  split; [apply Z.div_pos; lia|]. destruct Hg as [_ _ Hmax].
  enough ((b - a) / bs <= info_len info / bs) by lia. apply Z.div_le_mono; lia.
Qed.
Lemma chunk_of_ok ptr d : 0 <= ptr -> fits ptr d -> chunk_ok bs (chunk_of d).
Proof.
  intros Hp0 Hfit. pose proof (block_bytes_zlen _ _ Hfit) as Hl. destruct (fits_le _ _ _ Hg _ _ Hfit) as (_ & _ & Hi).
  unfold block_bytes in Hl. unfold OutFileSpec.chunk_of.
  destruct Hfit as (Hp & Hn & Hb & (_ & Hsrc) & _). pose proof (span_bounds info Hg d Hn). pose proof (bs_pos info Hg). pose proof (bs_le info Hg).
  destruct (src_of d); cbn [chunk_ok]; try (rewrite Hl; split; [apply span_divide | lia]).
  split; [done|]. split; [|apply words_div, Z.divide_refl]. split; [apply Z.div_pos; lia|].
  apply Z.div_lt_upper_bound; nia.
Qed.
Lemma body_ok L ptr : (bs | ptr) -> 0 <= ptr <= info_len info -> placed ptr L -> Forall (chunk_ok bs) (body ptr L).
Proof.
  revert ptr. induction L as [|d L IH]; intros ptr Hd Hp Hpl; [constructor|]. apply placed_cons in Hpl as [Hfit Hpl].
  destruct (fits_le _ _ _ Hg _ _ Hfit) as (H1 & _ & H2). pose proof (chunk_of_ok ptr d ltac:(lia) Hfit) as Hc.
  destruct Hfit as (_ & Hn & _). pose proof (span_bounds info Hg d Hn). cbn [OutFileSpec.body].
  apply Forall_app. split; [apply gap_chunk_ok; lia|]. constructor; [done|]. apply IH; [by apply next_ptr_div | lia | done].
Qed.
Lemma layout_ok L : placed 0 L -> Forall (chunk_ok bs) (layout L).
Proof.
  intros Hpl. pose proof (info_len_range info Hg). pose proof (bs_pos info Hg).
  destruct (end_ptr_ok _ _ info Hg L 0 (Z.divide_0_r _) ltac:(lia) Hpl) as [He _].
  apply Forall_app. split; [apply body_ok; [apply Z.divide_0_r | lia | done] | apply gap_chunk_ok; lia].
Qed.
Definition no_crc (c : schunk) : Prop := match c with CCrc _ => False | _ => True end.
Lemma body_no_crc L ptr : Forall no_crc (body ptr L ++ gap info (end_ptr ptr L) (info_len info)).
Proof.
  assert (Hgap : ∀ a b, Forall no_crc (gap info a b)) by (intros a b; unfold gap; case_match; by repeat constructor).
  revert ptr. induction L as [|d L IH]; intros ptr; cbn [OutFileSpec.body OutFileSpec.end_ptr]; [apply Hgap|].
  rewrite <- app_assoc. apply Forall_app. split; [apply Hgap|]. constructor; [|apply IH]. unfold OutFileSpec.chunk_of. by destruct (src_of d).
Qed.
Lemma crcs_ok_layout (crc : bool) cs c0 : Forall no_crc cs -> crcs_ok bs c0 (cs ++ if crc then [CCrc (checksum info cs c0)] else []).
Proof.
  intros Hn. revert c0. induction Hn as [|c cs Hc Hn IH]; intros c0.
  - destruct crc; [|done]. cbn. unfold checksum. cbn. by rewrite crc_nil.
  - assert (E : checksum info (c :: cs) c0 = checksum info cs (sparse_crc32 c0 (payload bs c))).
    { unfold checksum. cbn [fmap list_fmap concat]. by rewrite sparse_crc32_app. }
    rewrite E. destruct c; cbn [app crcs_ok]; done || apply IH.
Qed.
Lemma with_crc_app (crc : bool) cs : with_crc info crc cs = cs ++ if crc then [CCrc (checksum info cs 0)] else [].
Proof. destruct crc; [done | by rewrite app_nil_r]. Qed.
Lemma image_with_crc crc cs : image bs (with_crc info crc cs) = image bs cs.
Proof. rewrite with_crc_app, image_app. destruct crc; cbn; by rewrite app_nil_r. Qed.
Lemma flat_zlen L : placed 0 L -> zlen (flat L) = info_len info.
Proof.
  intros Hpl. pose proof (info_len_range info Hg).
  assert (Hf : ∀ ptr img, 0 <= ptr -> placed ptr L -> zlen img = info_len info ->
    zlen (foldl (fun img d => overlay (start d) (block_bytes d) img) img L) = info_len info).
  { clear Hpl. induction L as [|d L IH]; intros ptr img Hp Hpl Hl; [done|]. apply placed_cons in Hpl as [Hfit Hpl].
    destruct (fits_le _ _ _ Hg _ _ Hfit) as (H1 & _ & H2). pose proof (block_bytes_zlen _ _ Hfit). pose proof (zlen_nonneg (block_bytes d)).
    cbn [foldl]. apply (IH (start d + span_of d)); [lia | done|]. rewrite overlay_len; lia. }
  apply (Hf 0); [lia | done | apply zeros_zlen; lia].
Qed.

(** Unpacking what [write_ext4_image] wrote. *)
Lemma unpack_ok {FI FO} `{IoLaws FI FO} L crc (i : FI) (o : FO) :
  placed 0 L -> file_contents o = [] -> pos o = 0 ->
  (let cs := with_crc info crc (layout L) in rest i = sparse_header_bytes (image_header info cs) ++ stream bs cs) ->
  ∃ o', simg2img i o = Some o' ∧ file_contents o' = flat L.
Proof.
  intros Hpl Hc Hp Hi. set (cs := with_crc info crc (layout L)) in *. cbv zeta in Hi.
  pose proof (info_len_range info Hg). pose proof (bs_pos info Hg). pose proof (bs_le info Hg).
  pose proof (layout_count _ _ info Hg L Hpl) as Hcount. destruct Hg as [_ _ Hmax].
  assert (Hok : Forall (chunk_ok bs) cs).
  { unfold cs. rewrite with_crc_app. apply Forall_app. split; [by apply layout_ok|]. destruct crc; by repeat constructor. }
  assert (Himg : image bs cs = flat L) by (unfold cs; rewrite image_with_crc; by apply layout_image).
  assert (Hcz : 0 <= zlen cs < 2 ^ 32).
  { unfold cs. rewrite with_crc_app, zlen_app. destruct crc; unfold zlen in *; cbn [length]; lia. }
  destruct (image_zlen bs cs ltac:(lia) Hok) as [Hz _]. rewrite Himg, flat_zlen, (info_len_eq info Hg) in Hz by done.
  destruct (simg2img_ok (image_header info cs) cs i o) as (o' & E & Ho'); cbn [image_header magic major_version file_hdr_sz chunk_hdr_sz blk_sz total_chunks total_blks]; try done.
  - unfold sparse_header_ok, image_header, SPARSE_HEADER_MAGIC.
    cbn [magic major_version minor_version file_hdr_sz chunk_hdr_sz blk_sz total_blks total_chunks image_checksum]. lia.
  - apply Z.mul_cancel_r in Hz; lia.
  - unfold cs. rewrite with_crc_app. apply crcs_ok_layout, body_no_crc.
  - exists o'. split; [done|]. by rewrite Ho'.
Qed.

(** ** The bootloader *)
Definition to_lk (c : schunk) : Sparse.image_chunk :=
  match c with
  | CRaw data => Sparse.Raw (chunk_header_bytes (header_of bs c)) data
  | _ => Sparse.DontCare (chunk_header_bytes (header_of bs c))
  end.
Definition lk_ok (c : schunk) : Prop := match c with CRaw _ | CSkip _ => True | _ => False end.
Lemma header_sz h : 0 <= chunk_sz h < 2 ^ 32 -> Sparse.chunk_sz (chunk_header_bytes h) = chunk_sz h.
Proof.
  intros Hh. unfold Sparse.chunk_sz. transitivity (le32 (bytes32 (chunk_sz h) ++ [])); [reflexivity|]. by apply le32_bytes32.
Qed.
Lemma raw_blocks (data : list Z) : (bs | zlen data) -> 12 + zlen data < 2 ^ 32 -> 0 <= zlen data / bs < 2 ^ 32 ∧ zlen data / bs * bs = zlen data.
Proof.
  intros [q Eq] Hl. pose proof (bs_pos info Hg). pose proof (zlen_nonneg data). rewrite Eq, Z.div_mul by lia. nia.
Qed.
Lemma to_lk_wf c : chunk_ok bs c -> lk_ok c ->
  Sparse.chunk_wf bs (to_lk c) ∧ Sparse.span bs (to_lk c) = blocks_of bs c * bs ∧ Sparse.encode_chunk (to_lk c) = chunk_bytes bs c.
Proof.
  intros Hc Hk. pose proof (bs_pos info Hg). unfold Sparse.chunk_wf, Sparse.span.
  destruct c as [data|v n|n|v]; try done; cbn [to_lk Sparse.encode_chunk blocks_of].
  - destruct Hc as [Hd Hl]. destruct (raw_blocks data Hd Hl) as [Hr Hm]. rewrite header_sz by done. cbn [header_of chunk_sz]. rewrite Hm.
    pose proof (zlen_nonneg data). by split_and!.
  - cbn in Hc. rewrite header_sz by done. cbn [header_of chunk_sz]. unfold chunk_bytes. cbn [body_of]. rewrite app_nil_r.
    split_and!; try done. nia.
Qed.
Lemma to_lk_all cs : Forall (chunk_ok bs) cs -> Forall lk_ok cs ->
  Forall (Sparse.chunk_wf bs) (to_lk <$> cs) ∧ Sparse.total bs (to_lk <$> cs) = total_of bs cs * bs ∧
  Sparse.encode (to_lk <$> cs) = stream bs cs.
Proof.
  intros Hok Hk. induction Hok as [|c cs Hc Hok IH]; [done|]. apply Forall_cons in Hk as [Hk1 Hk].
  destruct (IH Hk) as (H1 & H2 & H3). destruct (to_lk_wf c Hc Hk1) as (H4 & H5 & H6). rewrite fmap_cons. cbn [Sparse.total total_of].
  split_and!; [by constructor | rewrite H5, H2; lia |].
  unfold Sparse.encode, stream in *. rewrite !fmap_cons. cbn [concat]. by rewrite H6, H3.
Qed.

Section Flash.
Context {D : Type} `{Sparse.EmmcLaws D}.
(** Every block written at its place. *)
Definition write_blocks (base : Z) (L : list data_block) (dev : D) : D :=
  foldl (fun dev d => (Sparse.emmc_write dev (base + start d) (padded d)).1) dev L.
Lemma flash_gap dev addr a b cs : (bs | a) -> (bs | b) -> a <= b -> b - a < 2 ^ 32 * bs ->
  Sparse.flash bs dev addr (to_lk <$> gap info a b ++ cs) = Sparse.flash bs dev (addr + (b - a)) (to_lk <$> cs).
Proof.
  intros [i ->] [j ->] Hle Hlt. pose proof (bs_pos info Hg). unfold gap. destruct (Z.ltb_spec (i * bs) (j * bs)).
  - cbn [app fmap list_fmap to_lk Sparse.flash]. replace (j * bs - i * bs) with ((j - i) * bs) in * by lia. rewrite Z.div_mul by lia.
    rewrite header_sz; cbn [header_of chunk_sz]; [done | nia].
  - cbn [app]. f_equal. lia.
Qed.
Definition not_fill (d : data_block) : Prop := match src_of d with Fill _ => False | _ => True end.
Lemma flash_layout L ptr dev base :
  (bs | ptr) -> 0 <= ptr <= info_len info -> placed ptr L -> Forall not_fill L ->
  Sparse.flash bs dev (base + ptr) (to_lk <$> body ptr L ++ gap info (end_ptr ptr L) (info_len info)) = write_blocks base L dev.
Proof.
  revert ptr dev. assert (Hmax : info_len info < 2 ^ 32 * bs).
  { destruct Hg as [_ _ Hm]. pose proof (bs_pos info Hg). rewrite (info_len_eq info Hg). nia. }
  induction L as [|d L IH]; intros ptr dev Hd Hp Hpl Hnf.
  - cbn [OutFileSpec.body OutFileSpec.end_ptr app]. rewrite <- (app_nil_r (gap _ _ _)). rewrite flash_gap; [done | done | apply Hg | lia | lia].
  - apply placed_cons in Hpl as [Hfit Hpl]. destruct (fits_le _ _ _ Hg _ _ Hfit) as (H1 & _ & H2). apply Forall_cons in Hnf as [Hn Hnf].
    pose proof (chunk_of_ok ptr d ltac:(lia) Hfit) as Hok. pose proof (block_bytes_zlen _ _ Hfit) as Hl.
    destruct Hfit as (_ & Hlen & _). pose proof (span_bounds info Hg d Hlen).
    cbn [OutFileSpec.body OutFileSpec.end_ptr]. rewrite <- app_assoc, flash_gap; [|done | apply Z.divide_factor_r | lia | lia].
    unfold OutFileSpec.chunk_of, block_bytes in *. unfold not_fill in Hn.
    destruct (src_of d); [| |done]; cbn [app fmap list_fmap to_lk Sparse.flash] in *; rewrite Hl;
      (replace (base + ptr + (start d - ptr)) with (base + start d) by lia); rewrite <- Z.add_assoc;
      (rewrite IH; [done | by apply next_ptr_div | lia | done | done]).
Qed.
Lemma body_lk L ptr : Forall not_fill L -> Forall lk_ok (body ptr L ++ gap info (end_ptr ptr L) (info_len info)).
Proof.
  assert (Hgap : ∀ a b, Forall lk_ok (gap info a b)) by (intros a b; unfold gap; case_match; by repeat constructor).
  intros Hnf. revert ptr. induction Hnf as [|d L Hn Hnf IH]; intros ptr; cbn [OutFileSpec.body OutFileSpec.end_ptr]; [apply Hgap|].
  rewrite <- app_assoc. apply Forall_app. split; [apply Hgap|]. constructor; [|apply IH].
  unfold OutFileSpec.chunk_of, not_fill in *. by destruct (src_of d).
Qed.

Lemma flash_ok fuel (e : Sparse.engine D) L packets :
  placed 0 L -> Forall not_fill L ->
  Sparse.wait_phase (Sparse.status e) = Sparse.UNSPARSE_WAIT_SPARSE_HEADER -> 0 <= Sparse.image_base_addr (Sparse.status e) ->
  Sparse.image_base_addr (Sparse.status e) + info_len info < 2 ^ 64 ->
  concat packets = sparse_header_bytes (image_header info (layout L)) ++ stream bs (layout L) -> Sparse.packets_ok fuel packets ->
  ∃ e', Sparse.feed_all fuel e [] packets = Some (e', []) ∧
    Sparse.dev e' = write_blocks (Sparse.image_base_addr (Sparse.status e)) L (Sparse.dev e).
Proof.
  intros Hpl Hnf Hph Hbase Htot Hcat Hpk. pose proof (info_len_range info Hg). pose proof (bs_pos info Hg). pose proof (bs_le info Hg).
  pose proof (layout_ok L Hpl) as Hok. destruct (to_lk_all (layout L) Hok) as (Hwf & Hsum & Henc); [by apply body_lk|].
  destruct (image_zlen bs (layout L) ltac:(lia) Hok) as [Hz _]. rewrite layout_image, flat_zlen in Hz by done.
  set (hd := sparse_header_bytes (image_header info (layout L))) in *.
  assert (Hblk : Sparse.blk_sz hd = bs).
  { transitivity (le32 (bytes32 bs ++ [])); [reflexivity|]. apply le32_bytes32. lia. }
  apply Sparse.feed_all_parked; [done|]. split_and!; [|done | by left]. rewrite Hcat. split; [|done]. rewrite Hph.
  exists hd, (to_lk <$> layout L). rewrite Hblk, Henc, Hsum, <- Hz. split_and!; try done.
  unfold OutFileSpec.layout. rewrite <- (Z.add_0_r (Sparse.image_base_addr _)) at 1. apply flash_layout; try done; [apply Z.divide_0_r | lia].
Qed.
End Flash.
End Trip.

(** The queue that [ds] are put in, one after the other. *)
Definition queued (ds : list (nat * data_block)) : list data_block := foldl (fun L d => insert_block d L) [] ds.*2.
Lemma queued_ok fuel ds :
  NoDup ds.*1 -> (∀ x d, (x, d) ∈ ds -> next d = None) -> (length ds <= fuel)%nat ->
  ∃ q Lq, push_all fuel ds empty_queue = Some q ∧ queue_ok q Lq ∧ (length Lq <= fuel)%nat ∧ contents Lq = queued ds.
Proof.
  intros Hnd Hn Hf. destruct (push_all_ok fuel ds empty_queue [] empty_queue_ok Hnd) as (q & L & E & Hq & Hl & Hc);
    [intros x d Hx; split; [apply lookup_empty | by apply (Hn x)] | done |].
  exists q, L. split_and!; [done | done | cbn in Hl; lia | done].
Qed.

Section Theorems.
Context {F : Type} (ops : output_file_ops F) `{!Appends ops}.
Context (load : Z -> Z -> option (list Z)) (mmap64 : nat -> Z -> Z -> option (list Z)).
Context (info : fs_info) (Hg : geometry info) (fuel : nat) (ds : list (nat * data_block)).
Context (Hnd : NoDup ds.*1) (Hnext : ∀ x d, (x, d) ∈ ds -> next d = None) (Hfuel : (length ds <= fuel)%nat).
Context (Hpl : placed load mmap64 info 0 (queued ds)).

(** C12. A sparse image is unpacked to the image.  Whatever blocks are queued, in whatever order,
    when they do not overlap and lie in the file system: the writer succeeds, its count of
    chunks agrees with the first pass, and [simg2img] on the file it wrote, with any cutting
    of the reads and writes, ends with success, the checksum included, and leaves the image
    that has every block at its place and zeros elsewhere. *)
Theorem sparse_image_roundtrip {FI FO} `{IoLaws FI FO} (crc : bool) (f : F) :
  holds f [] ->
  ∃ q out s, push_all fuel ds empty_queue = Some q ∧ write_ext4_image ops load mmap64 info fuel f true crc q = Some out ∧
    holds (fd out) s ∧
    ∀ (i : FI) (o : FO), rest i = s -> file_contents o = [] -> pos o = 0 ->
      ∃ o', simg2img i o = Some o' ∧ file_contents o' = flat load mmap64 info (queued ds).
Proof.
  intros Hf. destruct (queued_ok fuel ds Hnd Hnext Hfuel) as (q & Lq & Eq & Hq & Hl & Hc).
  destruct (write_image_ok ops load mmap64 info Hg fuel q Lq f crc Hq Hl) as (out & E & Hout); [by rewrite Hc | done |].
  eexists q, out, _. do 2 (split; [done|]). split; [exact Hout|]. intros i o Hi Ho Hp.
  rewrite Hc in Hi. by apply (unpack_ok load mmap64 info Hg (queued ds) crc).
Qed.

(** C13. The bootloader writes the image the host made.  When the queued blocks can be read
    and do not overlap, none is filled with a value, which the bootloader does not take, no
    checksum is written and the image ends below address 2^64: the sparse file of
    the queued blocks, sent in packets of at least 28 bytes but for the last one, and all of
    less than 1 GB, is taken completely, and the device is as after writing every block,
    padded with zeros to whole blocks, at its place. *)
Theorem image_flashed {D} `{Sparse.EmmcLaws D} (f : F) (e : Sparse.engine D) :
  holds f [] -> Forall (not_fill info) (queued ds) ->
  Sparse.wait_phase (Sparse.status e) = Sparse.UNSPARSE_WAIT_SPARSE_HEADER -> 0 <= Sparse.image_base_addr (Sparse.status e) ->
  Sparse.image_base_addr (Sparse.status e) + info_len info < 2 ^ 64 ->
  ∃ q out s, push_all fuel ds empty_queue = Some q ∧ write_ext4_image ops load mmap64 info fuel f true false q = Some out ∧
    holds (fd out) s ∧
    ∀ fuel packets, concat packets = s -> Sparse.packets_ok fuel packets ->
      ∃ e', Sparse.feed_all fuel e [] packets = Some (e', []) ∧
        Sparse.dev e' = write_blocks load mmap64 info (Sparse.image_base_addr (Sparse.status e)) (queued ds) (Sparse.dev e).
Proof.
  intros Hf Hnf Hph Hbase Htot. destruct (queued_ok fuel ds Hnd Hnext Hfuel) as (q & Lq & Eq & Hq & Hl & Hc).
  destruct (write_image_ok ops load mmap64 info Hg fuel q Lq f false Hq Hl) as (out & E & Hout); [by rewrite Hc | done |].
  eexists q, out, _. do 2 (split; [done|]). split; [exact Hout|]. intros fuel' packets Hcat Hpk. rewrite Hc in Hcat.
  by apply (flash_ok load mmap64 info Hg).
Qed.
End Theorems.

(** Blocks of four bytes, queued out of order: data with a part of a block, a part of a
    file, and a value. *)
Definition load_ex (a n : Z) : option (list Z) := if n <? 0 then None else Some (replicate (Z.to_nat n) (a mod 256)).
Definition mmap_ex (f : nat) (a n : Z) : option (list Z) := if n <? 0 then None else Some (replicate (Z.to_nat n) (Z.of_nat f)).
Definition info_ex : fs_info := FsInfo 32 4.
Definition mem_ex (b a n : Z) : data_block := DataBlock b n a None 0 0 false None.
Definition file_ex (b n : Z) : data_block := DataBlock b n 0 (Some 9%nat) 4 0 false None.
Definition fill_ex (b v n : Z) : data_block := DataBlock b n 0 None 0 v true None.
Definition ds_ex : list (nat * data_block) := [(1%nat, mem_ex 4 77 4); (2%nat, file_ex 5 6); (3%nat, mem_ex 1 33 3)].
Definition ds_fill_ex : list (nat * data_block) := ds_ex ++ [(4%nat, fill_ex 0 0x01020304 4)].
Lemma geometry_ex : geometry info_ex.
Proof. split; [by exists 2 | by exists 8 | done]. Qed.

Lemma sparse_image_roundtrip_witness :
  ∃ q out s, push_all 4 ds_fill_ex empty_queue = Some q ∧
    write_ext4_image m_ops load_ex mmap_ex info_ex 4 (MFile [] 0) true true q = Some out ∧ holds (fd out) s ∧
    ∀ (i : list Z) (o : mfile), rest i = s -> file_contents o = [] -> pos o = 0 ->
      ∃ o', simg2img i o = Some o' ∧ file_contents o' =
        [4; 3; 2; 1; 33; 33; 33; 0; 0; 0; 0; 0; 0; 0; 0; 0; 77; 77; 77; 77; 9; 9; 9; 9; 9; 9; 0; 0; 0; 0; 0; 0].
Proof.
  apply (sparse_image_roundtrip m_ops load_ex mmap_ex info_ex geometry_ex 4 ds_fill_ex).
  - by apply (bool_decide_unpack _).
  - intros x d Hx. cbn in Hx. repeat (apply elem_of_cons in Hx as [[= -> ->]|Hx]; [done|]). by apply elem_of_nil in Hx.
  - cbn. lia.
  - cbn. unfold start, span_of, round_up_to, readable. cbn. split_and!; try done; by eexists.
  - done.
Defined.
#[local] Existing Instance Sparse.map_emmc.
Lemma image_flashed_witness :
  let e := Sparse.engine0 true in
  ∃ q out s, push_all 4 ds_ex empty_queue = Some q ∧
    write_ext4_image m_ops load_ex mmap_ex info_ex 4 (MFile [] 0) true false q = Some out ∧ holds (fd out) s ∧
    ∀ fuel packets, concat packets = s -> Sparse.packets_ok fuel packets ->
      ∃ e', Sparse.feed_all fuel e [] packets = Some (e', []) ∧
        Sparse.dev e' = write_blocks load_ex mmap_ex info_ex 1000 (queued ds_ex) ∅.
Proof.
  apply (image_flashed m_ops load_ex mmap_ex info_ex geometry_ex 4 ds_ex).
  - by apply (bool_decide_unpack _).
  - intros x d Hx. cbn in Hx. repeat (apply elem_of_cons in Hx as [[= -> ->]|Hx]; [done|]). by apply elem_of_nil in Hx.
  - cbn. lia.
  - cbn. unfold start, span_of, round_up_to, readable. cbn. split_and!; try done; by eexists.
  - exact Sparse.map_emmc_laws.
  - done.
  - repeat constructor.
  - done.
  - done.
  - done.
Defined.
