(* ===== verification/Img2simg.v ===== *)
(** * Splitting a raw image into sparse files ([ext4_utils/img2simg.c])

    A raw image is cut into pieces; each becomes a sparse file of its own, with a chunk to
    skip up to the place of the piece and a chunk with its data.  The system calls are the
    interface [Io] of [Simg], with [creat] added; the files that were made are a map from
    paths.  The suffix of the names is the default one.  [error_exit], [usage] and undefined
    behaviour (a division by 0, a write past the end of [out_path]) are [None]. *)
From stdpp Require Import base gmap list.
From Stdlib Require Import ZArith Lia.
From S2P Require Printf Sparse.
From S2P Require Import Prelude Crc SparseFormat Simg MemFile.
#[local] Open Scope Z_scope.

(** [SIZE_MAX] of the host; [off_t] has 64 bits. *)
Class SizeT (SIZE_MAX : Z) : Prop := size_t_cases : SIZE_MAX = 2 ^ 32 - 1 ∨ SIZE_MAX = 2 ^ 64 - 1.
Lemma size_t_32 : SizeT (2 ^ 32 - 1).
Proof. by left. Qed.
#[export] Instance size_t_64 : SizeT (2 ^ 64 - 1).
Proof. by right. Qed.
Definition off_t (z : Z) : Z := (z + 2 ^ 63) mod 2 ^ 64 - 2 ^ 63.

(** ** Sizes on the command line *)

Definition c_isspace (c : Z) : bool := (c =? 32) || (9 <=? c) && (c <=? 13).
Definition c_isdigit (c : Z) : bool := (48 <=? c) && (c <=? 57).
Fixpoint skip_space (s : list Z) : list Z :=
  match s with c :: r => if c_isspace c then skip_space r else s | [] => [] end.
Fixpoint digits_of (s : list Z) : list Z * list Z :=
  match s with
  | c :: r => if c_isdigit c then let '(ds, e) := digits_of r in (c :: ds, e) else ([], s)
  | [] => ([], [])
  end.
(** [strtoull(s, &end, 10)] of C: the value, whether [errno] is [ERANGE], and [end].
    [None] when nothing is converted and [end] is [s]. *)
Definition strtoull (s : list Z) : option (Z * bool * list Z) :=
  let t := skip_space s in
  let '(negative, t) := match t with
    | 45 :: r => (true, r) | 43 :: r => (false, r) | _ => (false, t) end in
  match digits_of t with
  | ([], _) => None
  | (ds, e) =>
      let v := Printf.parse 0 ds in
      if 2 ^ 64 <=? v then Some (2 ^ 64 - 1, true, e)
      else Some (if negative then u64 (- v) else v, false, e)
  end.

(** The letters of the suffixes, and what they stand for. *)
Definition suffixes : list (list Z * Z) :=
  [([99], 1); ([119], 2); ([98], 512); ([107; 66], 1000); ([75], 1024); ([77; 66], 1000 * 1000);
   ([77], 1024 * 1024); ([71; 66], 1000 * 1000 * 1000); ([71], 1024 * 1024 * 1024)].
Fixpoint find_suffix (e : list Z) (l : list (list Z * Z)) : option Z :=
  match l with
  | [] => None
  | (s, mult) :: l => if bool_decide (e = s) then Some mult else find_suffix e l
  end.

Definition parse_size (MAX_SIZE_T : Z) (size_str : list Z) : option Z :=
  '(value, erange, e) ← strtoull size_str;
  if erange || (MAX_SIZE_T <? value) then None else
  if bool_decide (e = []) then Some value else
  mult ← find_suffix e suffixes;
  if MAX_SIZE_T / mult <? value then None else
  Some ((value * mult) mod (MAX_SIZE_T + 1)).

(** ** The names of the files *)

(** [sprintf] of [%03d], whose argument is converted to [int]. *)
Definition format_03d (v : Z) : list Z :=
  let v := s32 v in
  let sign := if v <? 0 then [45] else [] in
  let ds := Printf.dec_digits 20 (Z.abs v) [] in
  sign ++ replicate (3 - length sign - length ds) 48 ++ ds.
Definition out_name (in_path : list Z) (n : Z) : list Z := in_path ++ format_03d n.
Definition UINT_MAX : Z := 2 ^ 32 - 1.

(** ** The loop of [main] *)

Class Creat (FO : Type) := creat : list Z -> option FO.

Section Img2simg.
Context {FI FO : Type} `{Io FI FO} `{Creat FO}.

(** [cpy_len] keeps what the last read gave. *)
Fixpoint cpy_loop (fuel : nat) (o : FO) (i : FI) (len cpy_len : Z) : option (FI * FO) :=
  if len =? 0 then Some (i, o) else
  match fuel with
  | O => None
  | S fuel =>
      let cpy_len := if len <? COPY_BUF_SIZE then len else cpy_len in
      '(copy_buf, i) ← sys_read i cpy_len;
      if zlen copy_buf =? 0 then None else
      let cpy_len := zlen copy_buf in
      '(s, o) ← sys_write o copy_buf;
      if negb (s =? cpy_len) then None else
      cpy_loop fuel o i (len - cpy_len) cpy_len
  end.
Definition cpy_file (o : FO) (i : FI) (len : Z) : option (FI * FO) := cpy_loop (Z.to_nat len) o i len COPY_BUF_SIZE.

(** [file_hdr]: the three headers one after the other. *)
Definition file_hdr (block_size total_blks : Z) (dont_care_sz : Z) (raw_hdr : chunk_header_t) : list Z :=
  sparse_header_bytes (SparseHeader SPARSE_HEADER_MAGIC 1 0 SPARSE_HEADER_LEN CHUNK_HEADER_LEN
                         (u32 block_size) total_blks 2 0) ++
  chunk_header_bytes (ChunkHeader CHUNK_TYPE_DONT_CARE 0 dont_care_sz CHUNK_HEADER_LEN) ++
  chunk_header_bytes raw_hdr.
Definition raw_hdr_of (block_size n : Z) : chunk_header_t :=
  ChunkHeader CHUNK_TYPE_RAW 0 (u32 (n / block_size)) (u32 (n + CHUNK_HEADER_LEN)).

(** [file_hdr], [to_write] and [file_count] are kept from turn to turn; [room] is the size of
    [out_path].  The arithmetic of [s] has the width of [size_t], of which the low 32 bits
    are used. *)
Fixpoint split_loop (fuel : nat) (in_path : list Z) (room block_size chunk_size : Z) (left_to_write to_write : Z)
    (raw_hdr : chunk_header_t) (file_count : Z) (i : FI) (files : gmap (list Z) FO) : option (gmap (list Z) FO) :=
  if left_to_write =? 0 then Some files else
  match fuel with
  | O => None
  | S fuel =>
      let '(to_write, raw_hdr) :=
        if left_to_write <? off_t chunk_size then (left_to_write, raw_hdr_of block_size left_to_write)
        else (to_write, raw_hdr) in
      let out_path := out_name in_path file_count in
      if room <? zlen out_path + 1 then None else
      o ← creat out_path;
      let s := u32 (file_count - 1) * (chunk_size / block_size) in
      let hdr := file_hdr block_size (u32 (s + to_write / block_size)) (u32 s) raw_hdr in
      '(n, o) ← sys_write o hdr;
      if negb (n =? zlen hdr) then None else
      '(i, o) ← cpy_file o i to_write;
      split_loop fuel in_path room block_size chunk_size (off_t (left_to_write - to_write)) to_write raw_hdr
        (u32 (file_count + 1)) i (<[out_path := o]> files)
  end.

(** [main], on the path of the input, its size and the strings of the options; the files are
    those that are there before. *)
Definition img2simg (SIZE_MAX : Z) (fuel : nat) (in_path block_size_str chunk_size_str : list Z) (st_size : Z)
    (i : FI) (files : gmap (list Z) FO) : option (gmap (list Z) FO) :=
  block_size ← parse_size SIZE_MAX block_size_str;
  if negb (block_size mod 4096 =? 0) then None else
  chunk_size ← parse_size SIZE_MAX chunk_size_str;
  if block_size =? 0 then None else
  if negb (chunk_size mod block_size =? 0) then None else
  if negb (st_size mod block_size =? 0) then None else
  let n := zlen (out_name in_path UINT_MAX) in
  if COPY_BUF_SIZE <=? n then None else
  split_loop fuel in_path (n + 1) block_size chunk_size st_size chunk_size (raw_hdr_of block_size chunk_size) 1 i files.
End Img2simg.

Definition DEFAULT_BLOCK_SIZE : list Z := [52; 75].
Definition DEFAULT_CHUNK_SIZE : list Z := [54; 52; 77].

(** ** Sizes that are read *)
Lemma digits_of_all ds e :
  Forall Printf.digit ds -> match e with c :: _ => c_isdigit c = false | [] => True end -> digits_of (ds ++ e) = (ds, e).
Proof.
  intros Hd He. induction Hd as [|c ds Hc _ IH]; cbn [app digits_of].
  - destruct e as [|c e]; [done|]. cbn. by rewrite He.
  - unfold c_isdigit, Printf.digit in *. rewrite !(proj2 (Z.leb_le _ _)) by lia. cbn [andb]. by rewrite IH.
Qed.
(** A number that was printed is converted back. *)
Lemma strtoull_number n e :
  0 <= n < 10 ^ 20 -> match e with c :: _ => c_isdigit c = false | [] => True end ->
  strtoull (Printf.dec_digits 20 n [] ++ e) = Some (if 2 ^ 64 <=? n then 2 ^ 64 - 1 else n, 2 ^ 64 <=? n, e).
Proof.
  intros Hn He. destruct (Printf.dec_digits_parse 20 n [] ltac:(lia) ltac:(done)) as (ds & -> & Hd & Hne & _ & Hp).
  rewrite app_nil_r. unfold strtoull. destruct ds as [|c ds]; [done|].
  assert (Hc : Printf.digit c) by (by inversion Hd). unfold Printf.digit in Hc.
  assert (Hs : skip_space ((c :: ds) ++ e) = (c :: ds) ++ e).
  { cbn [app skip_space]. unfold c_isspace. rewrite (proj2 (Z.eqb_neq c 32)), (proj2 (Z.leb_gt c 13)) by lia.
    by rewrite andb_false_r. }
  rewrite Hs. assert (Hsign : ∀ {A} (x y z : A), match (c :: ds) ++ e with 45 :: _ => x | 43 :: _ => y | _ => z end = z).
  { intros A x y z. cbn [app]. assert (c = 48 ∨ c = 49 ∨ c = 50 ∨ c = 51 ∨ c = 52 ∨ c = 53 ∨ c = 54 ∨ c = 55 ∨ c = 56 ∨ c = 57) as Hcs by lia.
    by destruct Hcs as [->|[->|[->|[->|[->|[->|[->|[->|[->| ->]]]]]]]]]. }
  assert (E : (match (c :: ds) ++ e with 45 :: r => (true, r) | 43 :: r => (false, r) | _ => (false, (c :: ds) ++ e) end)
              = (false, (c :: ds) ++ e)).
  { cbn [app]. assert (c = 48 ∨ c = 49 ∨ c = 50 ∨ c = 51 ∨ c = 52 ∨ c = 53 ∨ c = 54 ∨ c = 55 ∨ c = 56 ∨ c = 57) as Hcs by lia.
    by destruct Hcs as [->|[->|[->|[->|[->|[->|[->|[->|[->| ->]]]]]]]]]. }
  rewrite E, digits_of_all by done. rewrite Hp. by destruct (2 ^ 64 <=? n).
Qed.
Lemma find_suffix_elem s m : (s, m) ∈ suffixes -> find_suffix s suffixes = Some m ∧ 0 < m <= 2 ^ 30 ∧ s <> [] ∧
  match s with c :: _ => c_isdigit c = false | [] => True end.
Proof.
  intros Hs. repeat (apply elem_of_cons in Hs as [[= -> ->]|Hs]; [by vm_compute|]). by apply elem_of_nil in Hs.
Qed.

(** ** Names *)
Lemma format_03d_ok v : 0 <= v < 1000 -> length (format_03d v) = 3%nat ∧ Printf.parse 0 (format_03d v) = v.
Proof.
  intros Hv. unfold format_03d. rewrite s32_small by lia. rewrite (proj2 (Z.ltb_ge _ _)), Z.abs_eq by lia.
  cbn [app length Nat.sub]. cbn [Printf.dec_digits].
  pose proof (Z.div_mod v 10). pose proof (Z.mod_pos_bound v 10). pose proof (Z.div_mod (v / 10) 10). pose proof (Z.mod_pos_bound (v / 10) 10).
  repeat match goal with |- context [10 <=? ?x] => destruct (Z.leb_spec 10 x); [try lia|] end;
    cbn; (split; [done|]); lia.
Qed.
Lemma out_name_inj in_path a b : 0 <= a < 1000 -> 0 <= b < 1000 -> out_name in_path a = out_name in_path b -> a = b.
Proof.
  intros Ha Hb E. unfold out_name in E. apply app_inv_head in E.
  destruct (format_03d_ok a Ha) as [_ <-]. destruct (format_03d_ok b Hb) as [_ <-]. by rewrite E.
Qed.
Lemma out_name_len in_path a : 0 <= a < 1000 -> zlen (out_name in_path a) = zlen in_path + 3.
Proof. intros Ha. unfold out_name. rewrite zlen_app. destruct (format_03d_ok a Ha) as [E _]. unfold zlen at 2. rewrite E. lia. Qed.
(** The room is measured with a number that is printed as [-01]. *)
Lemma out_name_room in_path : zlen (out_name in_path UINT_MAX) = zlen in_path + 3.
Proof. unfold out_name. rewrite zlen_app. done. Qed.
Lemma out_name_1000 in_path : zlen (out_name in_path 1000) = zlen in_path + 4.
Proof. unfold out_name. rewrite zlen_app. done. Qed.

(** ** The pieces of an image *)
Fixpoint pieces (n : nat) (sz : Z) (l : list Z) : list (list Z) :=
  match n with O => [] | S n => take (Z.to_nat sz) l :: pieces n sz (drop (Z.to_nat sz) l) end.
(** How many there are. *)
Definition piece_count (sz len : Z) : nat := Z.to_nat ((len + sz - 1) / sz).

(** The file a piece becomes, when [before] bytes are in front of it. *)
Definition piece_chunks (bs before : Z) (data : list Z) : list schunk := [CSkip (before / bs); CRaw data].
Definition piece_header (bs before : Z) (data : list Z) : sparse_header_t :=
  SparseHeader SPARSE_HEADER_MAGIC 1 0 SPARSE_HEADER_LEN CHUNK_HEADER_LEN bs ((before + zlen data) / bs) 2 0.
Definition piece_file (bs before : Z) (data : list Z) : list Z :=
  sparse_header_bytes (piece_header bs before data) ++ stream bs (piece_chunks bs before data).

(** What is relied on besides the laws of files: a new file is empty, and a write to a file
    is complete. *)
Class SplitLaws (FI FO : Type) `{IoLaws FI FO} `{Creat FO} := {
  write_full o b : b <> [] -> ∃ o', sys_write o b = Some (zlen b, o');
  creat_law p : ∃ o, creat p = Some o ∧ file_contents o = [] ∧ pos o = 0
}.

Lemma round_up_step len sz : 0 < sz -> (len - sz + sz - 1) / sz = (len + sz - 1) / sz - 1.
Proof. intros Hs. replace (len - sz + sz - 1) with (len + sz - 1 + -1 * sz) by lia. rewrite Z.div_add by lia. lia. Qed.
Lemma piece_count_full sz len : 0 < sz <= len -> piece_count sz len = S (piece_count sz (len - sz)).
Proof.
  intros Hs. unfold piece_count. rewrite round_up_step by lia.
  assert (1 <= (len + sz - 1) / sz) by (apply Z.div_le_lower_bound; lia). lia.
Qed.
Lemma piece_count_last sz len : 0 < len < sz -> piece_count sz len = 1%nat.
Proof.
  intros Hs. unfold piece_count. replace ((len + sz - 1) / sz) with 1; [done|].
  apply (Z.div_unique_pos _ _ _ (len - 1)); lia.
Qed.
Lemma pieces_length n sz l : length (pieces n sz l) = n.
Proof. revert l. induction n as [|n IH]; intros l; [done|]. cbn. by rewrite IH. Qed.
Lemma piece_count_step chunk (data : list Z) :
  0 < chunk -> data <> [] -> piece_count chunk (zlen data) = S (piece_count chunk (zlen (drop (Z.to_nat chunk) data))).
Proof.
  intros Hc Hd. assert (0 < zlen data) by (destruct data; [done | unfold zlen; cbn [length]; lia]).
  destruct (Z.le_gt_cases chunk (zlen data)).
  - rewrite piece_count_full by lia. do 2 f_equal. unfold zlen in *. rewrite length_drop. lia.
  - rewrite piece_count_last by lia. rewrite drop_ge by (unfold zlen in *; lia). unfold piece_count.
    change (zlen (@nil Z)) with 0. by rewrite Z.div_small by lia.
Qed.

Section Split.
Context {FI FO : Type} `{SplitLaws FI FO}.

(** Bytes were written to [o] from its beginning. *)
Definition filled (o : FO) (s : list Z) : Prop := file_contents o = s ∧ pos o = zlen s.
Lemma write_filled o b s : filled o s -> b <> [] -> ∃ o', sys_write o b = Some (zlen b, o') ∧ filled o' (s ++ b).
Proof.
  intros [Hc Hp] Hb. destruct (write_full o b Hb) as (o' & E). destruct (write_law o b Hb) as (k & o2 & E2 & Hk & Hc2 & Hp2).
  rewrite E in E2. injection E2 as Ek <-. exists o'. split; [done|].
  assert (k = length b) as -> by (unfold zlen in Ek; lia). rewrite firstn_all in Hc2.
  assert (Hle : zlen (file_contents o) <= pos o) by (rewrite Hc, Hp; lia).
  destruct (shows_app o o' s b) as [Hl Hi].
  - split; [done|]. by rewrite Hc, Hp, Z.sub_diag, app_nil_r.
  - done.
  - done.
  - split; [|rewrite Hp2, zlen_app; unfold zlen in *; lia]. rewrite <- Hi.
    assert (E0 : zlen (file_contents o') = pos o').
    { rewrite Hc2, write_at_end, Hp2, !zlen_app, zeros_zlen by lia. unfold zlen in *. lia. }
    by rewrite E0, Z.sub_diag, app_nil_r.
Qed.
Lemma cpy_loop_ok fuel o i data r s c :
  rest i = data ++ r -> filled o s -> (length data <= fuel)%nat -> 0 < c <= COPY_BUF_SIZE ->
  ∃ i' o', cpy_loop fuel o i (zlen data) c = Some (i', o') ∧ rest i' = r ∧ filled o' (s ++ data).
Proof.
  revert o i data s c. induction fuel as [|fuel IH]; intros o i data s c Hi Ho Hf Hc.
  - assert (data = []) as -> by (by destruct data; [|cbn in Hf; lia]). exists i, o. by rewrite app_nil_r.
  - cbn [cpy_loop]. destruct (Z.eqb_spec (zlen data) 0) as [E0|Hne].
    { assert (data = []) as -> by (by destruct data; [|unfold zlen in E0; cbn [length] in E0; lia]). exists i, o. by rewrite app_nil_r. }
    pose proof (zlen_nonneg data). cbv zeta. set (n := if zlen data <? COPY_BUF_SIZE then zlen data else c).
    assert (Hn : 0 < n <= zlen data ∧ n <= COPY_BUF_SIZE) by (unfold n; destruct (Z.ltb_spec (zlen data) COPY_BUF_SIZE); lia).
    clearbody n. destruct (read_law i n) as (k & i' & E & Hr & Hk & Hkl & Hk0); [lia|]. rewrite E. cbn [mbind option_bind].
    assert (Hdata : data <> []) by (intros ->; by unfold zlen in Hne).
    assert (Hpos : (0 < k)%nat) by (apply Hk0; rewrite Hi; by destruct data).
    assert (Hkd : (k <= length data)%nat) by (unfold zlen in *; lia).
    rewrite Hi, take_app_le by done. set (a := take k data).
    assert (Ha : zlen a = Z.of_nat k) by (unfold a, zlen; rewrite length_take; lia).
    rewrite (proj2 (Z.eqb_neq (zlen a) 0)) by lia.
    destruct (write_filled o a s Ho) as (o' & E2 & Ho'); [intros Ea; rewrite Ea in Ha; unfold zlen in Ha; cbn in Ha; lia|].
    rewrite E2. cbn [mbind option_bind]. rewrite Z.eqb_refl. cbn [negb].
    assert (Hd : zlen data - zlen a = zlen (drop k data)) by (rewrite Ha; unfold zlen; rewrite length_drop; lia). rewrite Hd.
    destruct (IH o' i' (drop k data) (s ++ a) (zlen a)) as (i2 & o2 & E3 & Hr3 & Ho3); [by rewrite Hr, Hi, drop_app_le | done | rewrite length_drop; lia | lia |].
    exists i2, o2. split; [done|]. split; [done|]. unfold a in Ho3. by rewrite <- app_assoc, take_drop in Ho3.
Qed.
Lemma cpy_file_ok o i data r s :
  rest i = data ++ r -> filled o s -> ∃ i' o', cpy_file o i (zlen data) = Some (i', o') ∧ rest i' = r ∧ filled o' (s ++ data).
Proof. intros Hi Ho. apply cpy_loop_ok; try done. unfold zlen. lia. Qed.

(** ** The files that are made *)
Context (in_path : list Z) (bs chunk : Z).
Context (Hbs : 0 < bs) (Hchunk : (bs | chunk)) (Hpos : 0 < chunk < 2 ^ 32 - 12).

(** The files [n + 1], [n + 2], ... hold the pieces, and no others were touched. *)
Definition made (n : Z) (ps : list (list Z)) (files files' : gmap (list Z) FO) : Prop :=
  (∀ j p, ps !! j = Some p -> ∃ o, files' !! out_name in_path (n + Z.of_nat j + 1) = Some o ∧
     file_contents o = piece_file bs ((n + Z.of_nat j) * chunk) p) ∧
  (∀ path, (∀ j, (j < length ps)%nat -> path <> out_name in_path (n + Z.of_nat j + 1)) -> files' !! path = files !! path).

Lemma hdr_piece n data :
  0 <= n -> (bs | zlen data) -> 0 < zlen data <= chunk -> n * chunk + zlen data < 2 ^ 32 * bs ->
  file_hdr bs (u32 (n * (chunk / bs) + zlen data / bs)) (u32 (n * (chunk / bs))) (raw_hdr_of bs (zlen data)) ++ data =
  piece_file bs (n * chunk) data.
Proof.
  intros Hn [q Eq] Hd Hlim. destruct Hchunk as [c Ec]. rewrite Eq in Hd, Hlim |- *. rewrite Ec in Hd, Hlim |- *.
  unfold piece_file, piece_header, piece_chunks, file_hdr, raw_hdr_of, stream.
  assert (Hcq : 0 < q ∧ q <= c) by nia. assert (Hnc : 0 <= n * c) by nia. assert (n * c + q < 2 ^ 32) by nia.
  assert (q * bs < 2 ^ 32 - 12) by nia. assert (bs < 2 ^ 32) by nia.
  assert (q < 2 ^ 32) by nia.
  unfold fmap, list_fmap, chunk_bytes. cbn [concat header_of body_of]. rewrite Eq.
  replace (n * (c * bs) + q * bs) with ((n * c + q) * bs) by lia. replace (n * (c * bs)) with (n * c * bs) by lia.
  rewrite !Z.div_mul by lia. rewrite !u32_small by (unfold CHUNK_HEADER_LEN; lia).
  rewrite (Z.add_comm (q * bs)). by rewrite !app_nil_r, <- !app_assoc.
Qed.
Lemma made_cons n a ps o files files' :
  0 <= n -> n + Z.of_nat (length (a :: ps)) < 1000 -> file_contents o = piece_file bs (n * chunk) a ->
  made (n + 1) ps (<[out_name in_path (n + 1) := o]> files) files' -> made n (a :: ps) files files'.
Proof.
  intros Hn Hlt Ho [Hps Hout]. cbn [length] in Hlt. split.
  - intros [|j] p Hj; cbn [lookup list_lookup] in Hj.
    + injection Hj as <-. exists o. replace (n + Z.of_nat 0) with n by lia. split; [|done].
      rewrite Hout; [apply lookup_insert_eq|]. intros j Hj E. apply out_name_inj in E; lia.
    + destruct (Hps j p Hj) as (o' & E & Ho'). exists o'.
      by replace (n + Z.of_nat (S j)) with (n + 1 + Z.of_nat j) by lia.
  - intros path Hp. rewrite Hout.
    + apply lookup_insert_ne. intros <-. apply (Hp O); [cbn; lia|]. f_equal. lia.
    + intros j Hj. replace (n + 1 + Z.of_nat j) with (n + Z.of_nat (S j)) by lia. apply Hp. cbn. lia.
Qed.
Lemma split_loop_ok fuel room n to_write raw i files data :
  rest i = data -> (bs | zlen data) -> zlen data < 2 ^ 63 -> 0 <= n -> (data <> [] -> n * chunk + zlen data < 2 ^ 32 * bs) ->
  n + Z.of_nat (piece_count chunk (zlen data)) < 1000 -> (piece_count chunk (zlen data) <= fuel)%nat -> room = zlen in_path + 4 ->
  (chunk <= zlen data -> to_write = chunk ∧ raw = raw_hdr_of bs chunk) ->
  ∃ files', split_loop fuel in_path room bs chunk (zlen data) to_write raw (n + 1) i files = Some files' ∧
    made n (pieces (piece_count chunk (zlen data)) chunk data) files files'.
Proof.
  revert n to_write raw i files data. induction fuel as [|fuel IH]; intros n to_write raw i files data Hi Hd Hmax Hn Hlim Hcount Hf Hroom Hfull.
  all: destruct (decide (data = [])) as [->|Hne].
  1, 3: exists files; split; [done|]; change (zlen (@nil Z)) with 0; unfold piece_count; rewrite Z.div_small by lia; by split.
  all: pose proof (piece_count_step chunk data (proj1 Hpos) Hne) as Estep.
  { lia. }
  rewrite Estep in Hf, Hcount |- *. cbn [pieces].
  assert (Hdl : 0 < zlen data) by (destruct data; [done | unfold zlen; cbn [length]; lia]).
  set (a := take (Z.to_nat chunk) data). set (d := drop (Z.to_nat chunk) data) in *.
  assert (Ea : zlen a = Z.min chunk (zlen data)) by (unfold a, zlen; rewrite length_take; lia).
  assert (Ed : zlen data = zlen a + zlen d) by (unfold a, d; by rewrite <- zlen_app, take_drop).
  pose proof (zlen_nonneg d). assert (0 < zlen a <= chunk) by lia.
  assert (Hda : (bs | zlen a)) by (rewrite Ea; by destruct (Z.min_spec chunk (zlen data)) as [[_ ->]|[_ ->]]).
  cbn [split_loop]. rewrite (proj2 (Z.eqb_neq _ _)) by lia.
  replace (off_t chunk) with chunk by (unfold off_t; rewrite Z.mod_small; lia).
  assert (Epair : (if zlen data <? chunk then (zlen data, raw_hdr_of bs (zlen data)) else (to_write, raw)) = (zlen a, raw_hdr_of bs (zlen a))).
  { destruct (Z.ltb_spec (zlen data) chunk); [by replace (zlen a) with (zlen data) by lia|]. destruct Hfull as [-> ->]; [lia|].
    by replace (zlen a) with chunk by lia. }
  rewrite Epair. cbv zeta. rewrite out_name_len, (proj2 (Z.ltb_ge _ _)) by lia.
  destruct (creat_law (out_name in_path (n + 1))) as (o & Eo & Ho & Hpo). rewrite Eo. cbn [mbind option_bind].
  replace (n + 1 - 1) with n by lia. rewrite (u32_small n) by lia. set (hdr := file_hdr _ _ _ _).
  destruct (write_filled o hdr []) as (o1 & E1 & Ho1); [done | done|]. rewrite E1. cbn [mbind option_bind]. rewrite Z.eqb_refl. cbn [negb].
  destruct (cpy_file_ok o1 i a d ([] ++ hdr)) as (i2 & o2 & E2 & Hi2 & Ho2); [by rewrite Hi; unfold a, d; rewrite take_drop | done|].
  rewrite E2. cbn [mbind option_bind].
  replace (off_t (zlen data - zlen a)) with (zlen d) by (unfold off_t; rewrite Z.mod_small; lia).
  replace (u32 (n + 1 + 1)) with (n + 1 + 1) by (rewrite u32_small; lia).
  destruct (IH (n + 1) (zlen a) (raw_hdr_of bs (zlen a)) i2 (<[out_name in_path (n + 1) := o2]> files) d) as (files' & E3 & Hm); try done; try lia.
  - rewrite Ed in Hd. by apply (Z.divide_add_cancel_r _ (zlen a)).
  - intros Hdn. specialize (Hlim Hne). assert (0 < zlen d) by (destruct d; [done | unfold zlen; cbn [length]; lia]).
    assert (zlen a = chunk) by lia. lia.
  - intros Hc. assert (zlen a = chunk) as -> by lia. done.
  - exists files'. split; [done|]. apply (made_cons n a _ o2); [done | | | done].
    + cbn [length]. rewrite pieces_length. lia.
    + destruct Ho2 as [-> _]. cbn [app]. apply hdr_piece; [done | done | done | specialize (Hlim Hne); lia].
Qed.
End Split.

(** ** What the files are good for *)
Lemma piece_ok bs before data :
  0 < bs < 2 ^ 32 -> (bs | before) -> (bs | zlen data) -> 0 <= before -> 12 + zlen data < 2 ^ 32 -> before + zlen data < 2 ^ 32 * bs ->
  Forall (chunk_ok bs) (piece_chunks bs before data) ∧ 0 <= before / bs < 2 ^ 32 ∧ before / bs * bs = before ∧
  (before + zlen data) / bs = total_of bs (piece_chunks bs before data) ∧ 0 <= (before + zlen data) / bs < 2 ^ 32.
Proof.
  intros Hbs [b ->] [q Eq] Hb Hd Hlim. pose proof (zlen_nonneg data). assert (0 <= b ∧ 0 <= q ∧ b + q < 2 ^ 32) by nia.
  unfold piece_chunks. cbn [total_of blocks_of]. rewrite Eq, <- Z.mul_add_distr_r, !Z.div_mul by lia. split; [|lia].
  repeat constructor; cbn [chunk_ok]; try lia. by exists q.
Qed.
Lemma piece_unpacked {FI FO} `{IoLaws FI FO} bs before data (i : FI) (o : FO) :
  0 < bs < 2 ^ 32 -> (bs | before) -> (bs | zlen data) -> 0 <= before -> 12 + zlen data < 2 ^ 32 -> before + zlen data < 2 ^ 32 * bs ->
  rest i = piece_file bs before data -> file_contents o = [] -> pos o = 0 ->
  ∃ o', simg2img i o = Some o' ∧ file_contents o' = zeros before ++ data.
Proof.
  intros Hbs Hdb Hdd Hb Hd Hlim Hi Ho Hp. destruct (piece_ok bs before data) as (Hok & Hsk & Hm & Htot & Hr); try done.
  destruct (simg2img_ok (piece_header bs before data) (piece_chunks bs before data) i o) as (o' & E & Hc);
    cbn [piece_header magic major_version file_hdr_sz chunk_hdr_sz blk_sz total_chunks total_blks]; try done; try lia.
  - unfold sparse_header_ok, piece_header, SPARSE_HEADER_MAGIC, SPARSE_HEADER_LEN, CHUNK_HEADER_LEN.
    cbn [magic major_version minor_version file_hdr_sz chunk_hdr_sz blk_sz total_blks total_chunks image_checksum]. lia.
  - exists o'. split; [done|]. rewrite Hc. unfold image, piece_chunks. cbn [piece_header blk_sz fmap list_fmap concat expand].
    rewrite Hm, app_nil_r. done.
Qed.

(** A file as LK takes it. *)
Definition lk_piece (bs before : Z) (data : list Z) : list Sparse.image_chunk :=
  [Sparse.DontCare (chunk_header_bytes (header_of bs (CSkip (before / bs)))); Sparse.Raw (chunk_header_bytes (header_of bs (CRaw data))) data].
Lemma chunk_sz_bytes h : 0 <= chunk_sz h < 2 ^ 32 -> Sparse.chunk_sz (chunk_header_bytes h) = chunk_sz h.
Proof. intros Hh. transitivity (le32 (bytes32 (chunk_sz h) ++ [])); [reflexivity|]. by apply le32_bytes32. Qed.
Lemma lk_piece_ok bs before data :
  0 < bs < 2 ^ 32 -> (bs | before) -> (bs | zlen data) -> 0 <= before -> 12 + zlen data < 2 ^ 32 -> before + zlen data < 2 ^ 32 * bs ->
  Forall (Sparse.chunk_wf bs) (lk_piece bs before data) ∧ Sparse.total bs (lk_piece bs before data) = before + zlen data ∧
  Sparse.encode (lk_piece bs before data) = stream bs (piece_chunks bs before data) ∧
  ∀ {D} `{Sparse.Emmc D} (d : D) addr, Sparse.flash bs d addr (lk_piece bs before data) = (Sparse.emmc_write d (addr + before) data).1.
Proof.
  intros Hbs Hdb Hdd Hb Hd Hlim. destruct (piece_ok bs before data) as (Hok & Hsk & Hm & Htot & Hr); try done.
  pose proof (zlen_nonneg data). destruct Hdd as [q Eq]. assert (Hq : 0 <= zlen data / bs < 2 ^ 32 ∧ zlen data / bs * bs = zlen data).
  { rewrite Eq, Z.div_mul by lia. nia. }
  unfold lk_piece, Sparse.chunk_wf, Sparse.total, Sparse.span. cbn [Sparse.flash]. unfold Sparse.span.
  rewrite !chunk_sz_bytes by (cbn [header_of chunk_sz]; lia). cbn [header_of chunk_sz].
  split_and!.
  - repeat constructor; unfold Sparse.span; rewrite ?chunk_sz_bytes by (cbn [chunk_sz]; lia); cbn [chunk_sz]; try lia; done.
  - lia.
  - unfold Sparse.encode, stream, piece_chunks, chunk_bytes. cbn [fmap list_fmap concat Sparse.encode_chunk header_of body_of]. by rewrite app_nil_r.
  - intros D HD d addr. by rewrite Hm.
Qed.

(** The files are downloaded one after the other: for each one the state machine is set up
    again, as [init_sto_info] does. *)
Section Flash.
Context {D : Type} `{Sparse.EmmcLaws D}.
Fixpoint flash_files (fuel : nat) (base : Z) (enable_chk : bool) (e : Sparse.engine D) (sent : list (list (list Z))) : option (Sparse.engine D) :=
  match sent with
  | [] => Some e
  | packets :: sent =>
      let st := Sparse.mmc_init_unsparse_status (Sparse.status e) base enable_chk in
      '(e, _) ← Sparse.feed_all fuel (Sparse.Engine st (Sparse.udata e) (Sparse.dev e)) [] packets;
      flash_files fuel base enable_chk e sent
  end.
Lemma flash_piece fuel (e : Sparse.engine D) bs before data packets :
  0 < bs < 2 ^ 32 -> (bs | before) -> (bs | zlen data) -> 0 <= before -> 12 + zlen data < 2 ^ 32 -> before + zlen data < 2 ^ 32 * bs ->
  Sparse.wait_phase (Sparse.status e) = Sparse.UNSPARSE_WAIT_SPARSE_HEADER -> 0 <= Sparse.image_base_addr (Sparse.status e) ->
  Sparse.image_base_addr (Sparse.status e) + (before + zlen data) < 2 ^ 64 ->
  concat packets = piece_file bs before data -> Sparse.packets_ok fuel packets ->
  ∃ e', Sparse.feed_all fuel e [] packets = Some (e', []) ∧
    Sparse.dev e' = (Sparse.emmc_write (Sparse.dev e) (Sparse.image_base_addr (Sparse.status e) + before) data).1.
Proof.
  intros Hbs Hdb Hdd Hb Hd Hlim Hph Hbase Htot Hcat Hpk.
  destruct (lk_piece_ok bs before data) as (Hwf & Hsum & Henc & Hfl); try done.
  apply Sparse.feed_all_parked; [done|]. split_and!; [|done | by left]. rewrite Hcat. split; [|done]. rewrite Hph.
  exists (sparse_header_bytes (piece_header bs before data)), (lk_piece bs before data).
  assert (Hblk : Sparse.blk_sz (sparse_header_bytes (piece_header bs before data)) = bs).
  { transitivity (le32 (bytes32 bs ++ [])); [reflexivity|]. apply le32_bytes32. lia. }
  rewrite Hblk, Henc, Hsum, Hfl. by split_and!.
Qed.
Lemma flash_files_ok fuel base chk bs chunk sz n ps sent (e : Sparse.engine D) :
  0 < bs < 2 ^ 32 -> (bs | chunk) -> (512 | chunk) -> 0 < chunk < 2 ^ 32 - 12 -> 0 <= base -> base + sz < 2 ^ 64 -> sz < 2 ^ 32 * bs ->
  0 <= n -> (ps <> [] -> n * chunk + zlen (concat ps) <= sz) -> Forall (fun p => (bs | zlen p) ∧ zlen p <= chunk) ps ->
  (∀ j p, ps !! j = Some p -> (S j < length ps)%nat -> zlen p = chunk) ->
  length ps = length sent ->
  (∀ j p packets, ps !! j = Some p -> sent !! j = Some packets ->
     concat packets = piece_file bs ((n + Z.of_nat j) * chunk) p ∧ Sparse.packets_ok fuel packets) ->
  ∃ e', flash_files fuel base chk e sent = Some e' ∧
    Sparse.dev e' = (Sparse.emmc_write (Sparse.dev e) (base + n * chunk) (concat ps)).1.
Proof.
  intros Hbs Hdc Hd5 Hc Hbase Htot Hlim. revert n sent e. induction ps as [|p ps IH]; intros n sent e Hn Hsz Hps Hfull Hlen Hsent.
  - destruct sent; [|done]. exists e. split; [done|]. cbn. by rewrite Sparse.emmc_write_nil.
  - destruct sent as [|packets sent]; [done|]. injection Hlen as Hlen. apply Forall_cons in Hps as [[Hpd Hpl] Hps].
    destruct (Hsent O p packets) as [Hcat Hpk]; [done | done|]. replace (n + Z.of_nat 0) with n in Hcat by lia.
    specialize (Hsz ltac:(done)). cbn [concat] in Hsz |- *. rewrite zlen_app in Hsz. pose proof (zlen_nonneg (concat ps)). pose proof (zlen_nonneg p).
    cbn [flash_files]. cbv zeta. set (e1 := Sparse.Engine _ _ _).
    assert (0 <= n * chunk) by (apply Z.mul_nonneg_nonneg; lia). assert (Hb1 : Sparse.image_base_addr (Sparse.status e1) = base) by done.
    destruct (flash_piece fuel e1 bs (n * chunk) p packets) as (e2 & E2 & Hdev); rewrite ?Hb1; try done; try lia.
    { by apply Z.divide_mul_r. }
    rewrite E2. cbn [mbind option_bind]. rewrite Hb1 in Hdev. change (Sparse.dev e1) with (Sparse.dev e) in Hdev.
    destruct (IH (n + 1) sent e2) as (e3 & E3 & Hdev3); [lia | | done | | done | |].
    + intros Hne. assert (zlen p = chunk) by (apply (Hfull O); [done | destruct ps; [done | cbn; lia]]). lia.
    + intros j p' Hj Hl. apply (Hfull (S j)); [done | cbn; lia].
    + intros j p' pk Hj Hj2. destruct (Hsent (S j) p' pk) as [Hf1 Hf2]; [done | done|]. split; [|done]. rewrite Hf1. f_equal. lia.
    + exists e3. split; [done|]. rewrite Hdev3, Hdev. destruct ps as [|p2 ps].
      * cbn [concat]. by rewrite app_nil_r, Sparse.emmc_write_nil.
      * assert (zlen p = chunk) as Ep by (apply (Hfull O); [done | cbn; lia]).
        rewrite Sparse.emmc_write_app by (unfold Sparse.SDMMC_BLK_SIZE; by rewrite Ep). rewrite Ep. do 2 f_equal; lia.
Qed.
End Flash.

Lemma pieces_ok (bs chunk : Z) l :
  (bs | chunk) -> 0 < chunk -> (bs | zlen l) ->
  let ps := pieces (piece_count chunk (zlen l)) chunk l in
  concat ps = l ∧ Forall (fun p => (bs | zlen p) ∧ zlen p <= chunk) ps ∧
  (∀ j p, ps !! j = Some p -> (S j < length ps)%nat -> zlen p = chunk) ∧
  (∀ j p, ps !! j = Some p -> Z.of_nat j * chunk + zlen p <= zlen l).
Proof.
  intros Hd Hc Hl. cbv zeta. set (k := piece_count chunk (zlen l)). assert (Ek : k = piece_count chunk (zlen l)) by done. clearbody k.
  revert l Hl Ek. induction k as [|k IH]; intros l Hl Ek.
  - destruct (decide (l = [])) as [->|Hne]; [|by rewrite (piece_count_step chunk l Hc Hne) in Ek]. by split_and!.
  - destruct (decide (l = [])) as [->|Hne].
    { change (zlen (@nil Z)) with 0 in Ek. unfold piece_count in Ek. rewrite Z.div_small in Ek by lia. done. }
    rewrite (piece_count_step chunk l Hc Hne) in Ek. injection Ek as Ek. cbn [pieces concat].
    assert (Et : zlen (take (Z.to_nat chunk) l) = Z.min chunk (zlen l)) by (unfold zlen; rewrite length_take; lia).
    assert (Edr : zlen (drop (Z.to_nat chunk) l) = zlen l - Z.min chunk (zlen l)) by (unfold zlen; rewrite length_drop; lia).
    assert (Hdm : (bs | Z.min chunk (zlen l))) by (by destruct (Z.min_spec chunk (zlen l)) as [[_ ->]|[_ ->]]).
    pose proof (zlen_nonneg (drop (Z.to_nat chunk) l)).
    destruct (IH (drop (Z.to_nat chunk) l)) as (H1 & H2 & H3 & H4); [rewrite Edr; by apply Z.divide_sub_r | done |].
    split_and!.
    + by rewrite H1, take_drop.
    + constructor; [|done]. rewrite Et. split; [done | lia].
    + intros [|j] p Hj Hlt.
      * injection Hj as <-. rewrite Et. destruct (Z.le_gt_cases chunk (zlen l)); [lia|]. exfalso.
        destruct k; [cbn in Hlt; lia|]. rewrite drop_ge in Ek by (unfold zlen in *; lia).
        change (zlen (@nil Z)) with 0 in Ek. unfold piece_count in Ek. by rewrite Z.div_small in Ek by lia.
      * apply (H3 j p); [done|]. cbn [length] in Hlt. lia.
    + intros [|j] p Hj.
      * injection Hj as <-. rewrite Et. lia.
      * specialize (H4 j p Hj). rewrite Edr in H4.
        destruct (Z.le_gt_cases chunk (zlen l)); [lia|]. exfalso. rewrite drop_ge in Ek by (unfold zlen in *; lia).
        change (zlen (@nil Z)) with 0 in Ek. unfold piece_count in Ek. rewrite Z.div_small in Ek by lia. by subst k.
Qed.

(** ** Properties *)

(** What the arguments have to be. *)
Record split_args (SIZE_MAX bs chunk : Z) (in_path block_size_str chunk_size_str img : list Z) : Prop := SplitArgs {
  sa_block : parse_size SIZE_MAX block_size_str = Some bs;
  sa_chunk : parse_size SIZE_MAX chunk_size_str = Some chunk;
  sa_pos : 0 < bs ∧ 0 < chunk < 2 ^ 32 - 12;
  sa_4096 : (4096 | bs);
  sa_div : (bs | chunk) ∧ (bs | zlen img);
  sa_len : zlen img < 2 ^ 63 ∧ zlen img < 2 ^ 32 * bs;
  sa_files : (piece_count chunk (zlen img) < 999)%nat;
  sa_path : zlen in_path + 3 < COPY_BUF_SIZE
}.
Lemma img2simg_ok {FI FO} `{SplitLaws FI FO} (SIZE_MAX : Z) (fuel : nat) (bs chunk : Z) (in_path bstr cstr img : list Z) (i : FI) (files : gmap (list Z) FO) :
  split_args SIZE_MAX bs chunk in_path bstr cstr img -> rest i = img -> (piece_count chunk (zlen img) <= fuel)%nat ->
  ∃ files', img2simg SIZE_MAX fuel in_path bstr cstr (zlen img) i files = Some files' ∧
    made in_path bs chunk 0 (pieces (piece_count chunk (zlen img)) chunk img) files files'.
Proof.
  intros [Hb Hc [Hbs Hch] Halign [Hd1 Hd2] [Hl1 Hl2] Hn Hp] Hi Hf. unfold img2simg. rewrite Hb. cbn [mbind option_bind].
  rewrite (proj2 (Z.mod_divide bs 4096 ltac:(lia)) Halign). cbn [negb Z.eqb]. rewrite Hc. cbn [mbind option_bind].
  rewrite (proj2 (Z.eqb_neq bs 0)) by lia. rewrite (proj2 (Z.mod_divide chunk bs ltac:(lia)) Hd1), (proj2 (Z.mod_divide (zlen img) bs ltac:(lia)) Hd2).
  cbn [negb Z.eqb]. cbv zeta. rewrite out_name_room, (proj2 (Z.leb_gt _ _)) by lia.
  apply (split_loop_ok in_path bs chunk Hbs Hd1 Hch fuel (zlen in_path + 3 + 1) 0); try done; lia.
Qed.

(** C14. The sparse files of an image hold the image.  For an image whose size is a multiple of
    the block size, that fills fewer than 999 chunks, the program succeeds, with any cutting of
    the reads: the pieces in the files it makes, in the order of their numbers, are the image,
    none is larger than a chunk, and every file is unpacked by [simg2img], with any cutting of
    reads and writes, to its piece at its place behind zeros.  No other file is touched. *)
Theorem split_image_restored {FI FO FI2 FO2} `{SplitLaws FI FO} `{IoLaws FI2 FO2} (SIZE_MAX : Z) (fuel : nat) (bs chunk : Z) (in_path bstr cstr img : list Z)
    (i : FI) (files : gmap (list Z) FO) :
  split_args SIZE_MAX bs chunk in_path bstr cstr img -> rest i = img -> (piece_count chunk (zlen img) <= fuel)%nat ->
  ∃ ps files', img2simg SIZE_MAX fuel in_path bstr cstr (zlen img) i files = Some files' ∧
    concat ps = img ∧ Forall (fun p => zlen p <= chunk) ps ∧
    (∀ j p, ps !! j = Some p -> ∃ o, files' !! out_name in_path (Z.of_nat j + 1) = Some o ∧
       ∀ (i2 : FI2) (o2 : FO2), rest i2 = file_contents o -> file_contents o2 = [] -> pos o2 = 0 ->
         ∃ o2', simg2img i2 o2 = Some o2' ∧ file_contents o2' = zeros (Z.of_nat j * chunk) ++ p) ∧
    (∀ path, (∀ j, (j < length ps)%nat -> path <> out_name in_path (Z.of_nat j + 1)) -> files' !! path = files !! path).
Proof.
  intros Ha Hi Hf. destruct (img2simg_ok SIZE_MAX fuel bs chunk in_path bstr cstr img i files Ha Hi Hf) as (files' & E & Hmade & Hothers).
  destruct Ha as [_ _ [Hbs Hch] _ [Hd1 Hd2] [Hl1 Hl2] _ _]. destruct (pieces_ok bs chunk img Hd1 ltac:(lia) Hd2) as (Hcat & Hps & _ & Hin).
  set (ps := pieces _ _ _) in *. exists ps, files'. split_and!; [done | done | | | done].
  - by eapply Forall_impl; [exact Hps | intros p [_ Hp]].
  - intros j p Hj. destruct (Hmade j p Hj) as (o & Eo & Ho). exists o. split; [done|]. intros i2 o2 Hi2 Ho2 Hp2.
    pose proof (proj1 (Forall_lookup _ _) Hps j p Hj) as [Hpd Hpl]. specialize (Hin j p Hj). pose proof (Z.divide_pos_le bs chunk ltac:(lia) Hd1).
    apply (piece_unpacked bs); try done; try lia; [by apply Z.divide_mul_r|]. by rewrite Hi2, Ho.
Qed.

(** C4. The bootloader joins what was split.  For sizes that can be read, a chunk size below
    2^32 - 12 and a block size that is a multiple of 4096 and divides the chunk size and the
    length of the image, fewer than 999 pieces, and a path that fits the buffer
    ([split_args]), and an end below address 2^64: the files are made, and when they are downloaded one after the other,
    each in packets of at least 28 bytes but for its last one, and all of less than 1 GB, LK
    takes every one of them and the device is as after one write of the whole image. *)
Theorem split_image_flashed {FI FO D} `{SplitLaws FI FO} `{Sparse.EmmcLaws D} (SIZE_MAX : Z) (fuel : nat) (bs chunk : Z) (in_path bstr cstr img : list Z)
    (i : FI) (files : gmap (list Z) FO) base enable_chk (e : Sparse.engine D) :
  split_args SIZE_MAX bs chunk in_path bstr cstr img -> rest i = img -> (piece_count chunk (zlen img) <= fuel)%nat ->
  0 <= base -> base + zlen img < 2 ^ 64 ->
  ∃ files', img2simg SIZE_MAX fuel in_path bstr cstr (zlen img) i files = Some files' ∧
    ∀ n sent, length sent = piece_count chunk (zlen img) ->
      (∀ j packets, sent !! j = Some packets -> ∃ o, files' !! out_name in_path (Z.of_nat j + 1) = Some o ∧
         concat packets = file_contents o ∧ Sparse.packets_ok n packets) ->
      ∃ e', flash_files n base enable_chk e sent = Some e' ∧ Sparse.dev e' = (Sparse.emmc_write (Sparse.dev e) base img).1.
Proof.
  intros Ha Hi Hf Hbase Hsz. destruct (img2simg_ok SIZE_MAX fuel bs chunk in_path bstr cstr img i files Ha Hi Hf) as (files' & E & Hmade & _).
  exists files'. split; [done|]. intros n sent Hlen Hsent.
  destruct Ha as [_ _ [Hbs Hch] Halign [Hd1 Hd2] [Hl1 Hl2] _ _]. destruct (pieces_ok bs chunk img Hd1 ltac:(lia) Hd2) as (Hcat & Hps & Hfull & Hin).
  pose proof (Z.divide_pos_le bs chunk ltac:(lia) Hd1). set (ps := pieces _ _ _) in *.
  assert (Hpl : length ps = piece_count chunk (zlen img)) by apply pieces_length.
  destruct (flash_files_ok n base enable_chk bs chunk (zlen img) 0 ps sent e) as (e' & E' & Hdev); try done; try lia.
  - etrans; [|exact Hd1]. etrans; [|exact Halign]. by exists 8.
  - intros _. rewrite Hcat. lia.
  - intros j p packets Hj Hj2. destruct (Hsent j packets Hj2) as (o & Eo & Hc & Hk). split; [|done].
    destruct (Hmade j p Hj) as (o' & Eo' & Ho'). assert (o = o') as <- by (apply (inj Some); by rewrite <- Eo, <- Eo'). by rewrite Hc, Ho'.
  - exists e'. split; [done|]. rewrite Hdev, Hcat. do 2 f_equal; lia.
Qed.

(** A size on the command line means what the usage says: a decimal number that was printed,
    with any of the suffixes or none, is the number of units times the unit, and is refused
    exactly when that is not a [size_t]. *)
Theorem parse_size_reads SIZE_MAX `{!SizeT SIZE_MAX} n e mult :
  0 <= n < 10 ^ 20 -> (e, mult) ∈ ([], 1) :: suffixes ->
  parse_size SIZE_MAX (Printf.dec_digits 20 n [] ++ e) = if n * mult <=? SIZE_MAX then Some (n * mult) else None.
Proof.
  intros Hn He. assert (Hmax : 2 ^ 32 <= SIZE_MAX + 1 <= 2 ^ 64) by (destruct size_t_cases as [->| ->]; lia).
  apply elem_of_cons in He as [[= -> ->]|He]; unfold parse_size.
  - rewrite strtoull_number by done. cbn [mbind option_bind]. rewrite Z.mul_1_r.
    destruct (Z.leb_spec (2 ^ 64) n); cbn [orb]; [by rewrite (proj2 (Z.leb_gt _ _)) by lia|].
    destruct (Z.ltb_spec SIZE_MAX n); [by rewrite (proj2 (Z.leb_gt _ _)) by lia|]. by rewrite (proj2 (Z.leb_le _ _)) by lia.
  - destruct (find_suffix_elem e mult He) as (Hfind & Hm & Hne & Hd). rewrite strtoull_number by done. cbn [mbind option_bind].
    assert (n <= n * mult) by nia.
    destruct (Z.leb_spec (2 ^ 64) n); cbn [orb]; [by rewrite (proj2 (Z.leb_gt _ _)) by lia|].
    destruct (Z.ltb_spec SIZE_MAX n); [by rewrite (proj2 (Z.leb_gt _ _)) by lia|].
    rewrite bool_decide_false by done. rewrite Hfind. cbn [mbind option_bind].
    pose proof (Z.div_mod SIZE_MAX mult). pose proof (Z.mod_pos_bound SIZE_MAX mult).
    destruct (Z.ltb_spec (SIZE_MAX / mult) n).
    + rewrite (proj2 (Z.leb_gt _ _)); [done|]. nia.
    + assert (n * mult <= SIZE_MAX) by nia. rewrite (proj2 (Z.leb_le _ _)) by done. by rewrite Z.mod_small by lia.
Qed.

(** The program does not survive an image of more than 999 chunks: the buffer for the names
    is measured with a number that is printed as [-01], and file 1000 has a longer one. *)
Theorem split_name_overflow {FI FO} `{Io FI FO} `{Creat FO} (fuel : nat) (in_path : list Z) (bs chunk left : Z) (raw : chunk_header_t) (n : Z) (i : FI) (files : gmap (list Z) FO) :
  0 < chunk < 2 ^ 63 -> 1 <= n <= 1000 -> (1000 - n) * chunk < left < 2 ^ 63 ->
  split_loop fuel in_path (zlen (out_name in_path UINT_MAX) + 1) bs chunk left chunk raw n i files = None.
Proof.
  intros Hc. rewrite out_name_room. revert left raw n i files. induction fuel as [|fuel IH]; intros left raw n i files Hn Hl;
    assert (0 <= (1000 - n) * chunk) by (apply Z.mul_nonneg_nonneg; lia).
  { cbn [split_loop]. by rewrite (proj2 (Z.eqb_neq left 0)) by lia. }
  cbn [split_loop]. rewrite (proj2 (Z.eqb_neq left 0)) by lia. replace (off_t chunk) with chunk by (unfold off_t; rewrite Z.mod_small; lia).
  destruct (decide (n = 1000)) as [->|Hne].
  { destruct (left <? chunk); cbv zeta; by rewrite out_name_1000, (proj2 (Z.ltb_lt _ _)) by lia. }
  assert ((1000 - n) * chunk = (1000 - (n + 1)) * chunk + chunk) by ring.
  assert (0 <= (1000 - (n + 1)) * chunk) by (apply Z.mul_nonneg_nonneg; lia). rewrite (proj2 (Z.ltb_ge left chunk)) by lia. cbv zeta. rewrite out_name_len, (proj2 (Z.ltb_ge (_ + 1) _)) by lia.
  destruct (creat _); [|done]. cbn [mbind option_bind]. destruct (sys_write _ _) as [[k o]|]; [|done]. cbn [mbind option_bind].
  destruct (negb _); [done|]. destruct (cpy_file _ _ _) as [[i' o']|]; [|done]. cbn [mbind option_bind].
  replace (off_t (left - chunk)) with (left - chunk) by (unfold off_t; rewrite Z.mod_small; lia). rewrite u32_small by lia.
  apply IH; lia.
Qed.
(** With chunks of no size, which [main] lets pass, the loop never ends. *)
Theorem split_zero_chunk_endless {FI FO} `{Io FI FO} `{Creat FO} (fuel : nat) (in_path : list Z) (room bs left : Z) (raw : chunk_header_t) (n : Z) (i : FI) (files : gmap (list Z) FO) :
  0 < left < 2 ^ 63 -> split_loop fuel in_path room bs 0 left 0 raw n i files = None.
Proof.
  intros Hl. revert raw n i files. induction fuel as [|fuel IH]; intros raw n i files; cbn [split_loop]; rewrite (proj2 (Z.eqb_neq left 0)) by lia; [done|].
  change (off_t 0) with 0. rewrite (proj2 (Z.ltb_ge left 0)) by lia. cbv zeta. destruct (room <? _); [done|].
  destruct (creat _); [|done]. cbn [mbind option_bind]. destruct (sys_write _ _) as [[k o]|]; [|done]. cbn [mbind option_bind].
  destruct (negb _); [done|]. destruct (cpy_file _ _ _) as [[i' o']|]; [|done]. cbn [mbind option_bind].
  replace (off_t (left - 0)) with left by (unfold off_t; rewrite Z.sub_0_r, Z.mod_small; lia). apply IH.
Qed.

(** An image of three blocks, in chunks of two; reads give at most three bytes. *)
#[local] Instance full_io : Io (list Z) mfile := {
  sys_read i n := let k := m_take (Z.min n 3) i in Some (take k i, drop k i);
  sys_skip i n := drop (Z.to_nat n) i;
  sys_write o b := Some (zlen b, (m_write o b).1);
  sys_seek_cur o n := MFile (m_bytes o) (m_pos o + n);
  ftruncate64 o n := Some (MFile (resize n (m_bytes o)) (m_pos o))
}.
#[local, refine] Instance full_io_laws : IoLaws (list Z) mfile (H := full_io) := {
  rest i := i; file_contents := m_bytes; pos := m_pos
}.
Proof.
  - apply (read_law (IoLaws := m_io_laws)).
  - intros o b Hb. exists (length b). eexists. split; [done|]. cbn. rewrite firstn_all. split; [destruct b; [done | cbn; lia]|].
    by split.
  - done.
  - intros o n _. by eexists.
Defined.
#[local] Instance m_creat : Creat mfile := fun _ => Some (MFile [] 0).
#[local, refine] Instance m_split_laws : SplitLaws (list Z) mfile := {}.
Proof.
  - intros o b _. by eexists.
  - intros p. by exists (MFile [] 0).
Defined.

Definition path_ex : list Z := [105; 109; 103].
Definition img_ex : list Z := replicate (Z.to_nat 12288) 7.
Lemma split_args_ex : split_args (2 ^ 64 - 1) 4096 8192 path_ex DEFAULT_BLOCK_SIZE [56; 75] img_ex.
Proof.
  assert (El : zlen img_ex = 12288) by (unfold img_ex, zlen; rewrite length_replicate; done).
  split; rewrite ?El.
  - vm_compute. reflexivity.
  - vm_compute. reflexivity.
  - lia.
  - by exists 1.
  - split; [by exists 2 | by exists 3].
  - lia.
  - change (piece_count 8192 12288) with 2%nat. lia.
  - change (zlen path_ex) with 3. unfold COPY_BUF_SIZE. lia.
Qed.
Lemma img_ex_count : piece_count 8192 (zlen img_ex) = 2%nat.
Proof. unfold img_ex, zlen. by rewrite length_replicate. Qed.
Lemma split_image_restored_witness :
  ∃ ps files', img2simg (2 ^ 64 - 1) 2 path_ex DEFAULT_BLOCK_SIZE [56; 75] (zlen img_ex) img_ex ∅ = Some files' ∧
    concat ps = img_ex ∧ Forall (fun p => zlen p <= 8192) ps ∧
    (∀ j p, ps !! j = Some p -> ∃ o, files' !! out_name path_ex (Z.of_nat j + 1) = Some o ∧
       ∀ (i2 : list Z) (o2 : mfile), rest (IoLaws := m_io_laws) i2 = file_contents o ->
         file_contents (IoLaws := m_io_laws) o2 = [] -> pos (IoLaws := m_io_laws) o2 = 0 ->
         ∃ o2', simg2img (H := m_io) i2 o2 = Some o2' ∧ file_contents (IoLaws := m_io_laws) o2' = zeros (Z.of_nat j * 8192) ++ p) ∧
    (∀ path, (∀ j, (j < length ps)%nat -> path <> out_name path_ex (Z.of_nat j + 1)) -> files' !! path = (∅ : gmap (list Z) mfile) !! path).
Proof.
  apply (split_image_restored (H3 := m_io) (H4 := m_io_laws) (2 ^ 64 - 1) 2 4096 8192 path_ex DEFAULT_BLOCK_SIZE [56; 75] img_ex).
  - apply split_args_ex.
  - reflexivity.
  - rewrite img_ex_count. lia.
Defined.
#[local] Existing Instances Sparse.map_emmc Sparse.map_emmc_laws.
Lemma split_image_flashed_witness :
  ∃ files', img2simg (2 ^ 64 - 1) 2 path_ex DEFAULT_BLOCK_SIZE [56; 75] (zlen img_ex) img_ex (∅ : gmap (list Z) mfile) = Some files' ∧
    ∀ n sent, length sent = piece_count 8192 (zlen img_ex) ->
      (∀ j packets, sent !! j = Some packets -> ∃ o, files' !! out_name path_ex (Z.of_nat j + 1) = Some o ∧
         concat packets = file_contents o ∧ Sparse.packets_ok n packets) ->
      ∃ e', flash_files n 1000 true (Sparse.engine0 false) sent = Some e' ∧ Sparse.dev e' = (Sparse.emmc_write ∅ 1000 img_ex).1.
Proof.
  apply (split_image_flashed (2 ^ 64 - 1) 2 4096 8192 path_ex DEFAULT_BLOCK_SIZE [56; 75] img_ex img_ex ∅ 1000 true (Sparse.engine0 false)).
  - apply split_args_ex.
  - reflexivity.
  - rewrite img_ex_count. lia.
  - done.
  - unfold img_ex, zlen. by rewrite length_replicate.
Defined.
Lemma parse_size_reads_witness :
  parse_size (2 ^ 64 - 1) ([54; 52] ++ [77]) = Some (64 * (1024 * 1024)) ∧ parse_size (2 ^ 32 - 1) ([52] ++ [71]) = None.
Proof.
  split.
  - apply (parse_size_reads (2 ^ 64 - 1) 64 [77] (1024 * 1024)); [lia|]. by repeat constructor.
  - apply (parse_size_reads (2 ^ 32 - 1) (SizeT0 := size_t_32) 4 [71] (1024 * 1024 * 1024)); [lia|]. by repeat constructor.
Defined.
