(* ===== verification/RawImage.v ===== *)
(** * Writing an image as it is

    Without the sparse format [write_ext4_image] seeks to the place of every block and
    writes it.  The image is the same as the one a sparse file stands for, but for its
    last byte: [pad_output_file] makes the file as long as the file system by writing a
    zero there, whatever was there. *)
From stdpp Require Import base gmap list sorting.
From Stdlib Require Import ZArith Lia.
From S2P Require Import Prelude Crc SparseFormat Backed OutFile OutFileSpec Simg MemFile ImageTrip.
#[local] Open Scope Z_scope.

(** A file filled up with zeros to [n] bytes. *)
Definition fill_up (n : Z) (s : list Z) : list Z := s ++ zeros (n - zlen s).
Lemma fill_up_zlen n s : zlen s <= n -> zlen (fill_up n s) = n.
Proof. intros H. unfold fill_up. rewrite zlen_app, zeros_zlen by lia. lia. Qed.
Lemma take_fill n p s : 0 <= p <= n -> zlen s <= n ->
  take (Z.to_nat p) (s ++ replicate (Z.to_nat (p - zlen s)) 0) = take (Z.to_nat p) (fill_up n s).
Proof.
  intros Hp Hs. unfold fill_up. fold (zeros (p - zlen s)). pose proof (zlen_nonneg s). destruct (Z.le_gt_cases p (zlen s)).
  - rewrite !take_app_le by (unfold zlen in *; lia). done.
  - replace (n - zlen s) with ((p - zlen s) + (n - p)) by lia. rewrite zeros_add by lia. rewrite app_assoc.
    rewrite (take_app_le (s ++ _)); [done|]. pose proof (zlen_app s (zeros (p - zlen s))) as E. rewrite zeros_zlen in E by lia. unfold zlen in *. lia.
Qed.
Lemma write_at_zlen p b s : 0 <= p -> zlen (write_at p b s) = Z.max (zlen s) (p + zlen b).
Proof.
  intros Hp. unfold write_at, zlen. rewrite !length_app, length_take, length_app, length_replicate, length_drop. lia.
Qed.
Lemma write_at_fill n p b s : 0 <= p -> p + zlen b <= n -> zlen s <= n -> fill_up n (write_at p b s) = overlay p b (fill_up n s).
Proof.
  intros Hp Hb Hs. pose proof (zlen_nonneg b). pose proof (zlen_nonneg s). unfold fill_up at 1. rewrite write_at_zlen by done.
  unfold write_at, overlay. rewrite (take_fill n) by lia. rewrite <- !app_assoc. do 2 f_equal. unfold fill_up.
  destruct (Z.le_gt_cases (p + zlen b) (zlen s)).
  - rewrite drop_app_le by (unfold zlen in *; lia). do 2 f_equal. lia.
  - rewrite (drop_ge s) by (unfold zlen in *; lia). rewrite drop_app_ge by (unfold zlen in *; lia). cbn [app].
    replace (Z.to_nat p + length b - length s)%nat with (Z.to_nat (p + zlen b - zlen s)) by (unfold zlen; lia).
    rewrite zeros_drop by lia. f_equal. lia.
Qed.

Lemma overlay_nil {A} o (l : list A) : overlay o [] l = l.
Proof. unfold overlay. cbn [length app]. rewrite Nat.add_0_r. apply take_drop. Qed.

Section Raw.
Context {F : Type} (ops : output_file_ops F) `{!Seeks ops}.
Context (load : Z -> Z -> option (list Z)) (mmap64 : nat -> Z -> Z -> option (list Z)).
Context (info : fs_info) (Hg : geometry info).
Notation bs := (block_size info).
Notation placed := (placed load mmap64 info).
Notation block_bytes := (block_bytes load mmap64 info).
Notation fits := (block_fits load mmap64 info).
Notation span_of := (span_of info).
Notation start := (start info).
Notation src_of := (src_of info).
Implicit Types out : output_file F.

(** The file of [out] is [img] when it is filled up, and is at position [p]. *)
Definition file_at out (img : list Z) (p : Z) : Prop :=
  sparse out = false ∧ ∃ s, view (fd out) s p ∧ zlen s <= info_len info ∧ fill_up (info_len info) s = img.

Lemma seek_at off out img p : file_at out img p -> 0 <= off -> ∃ out', seek ops off out = Some out' ∧ file_at out' img off.
Proof.
  intros (Hsp & s & Hv & Hl & Hs) Ho. destruct (view_seek (fd out) s p off Hv Ho) as (f & E & Hf).
  unfold seek. rewrite E. eexists. split; [done|]. split; [done|]. by exists s.
Qed.
Lemma put_at b out img p : file_at out img p -> 0 <= p -> p + zlen b <= info_len info ->
  ∃ out', put ops b out = Some out' ∧ file_at out' (overlay p b img) (p + zlen b).
Proof.
  intros (Hsp & s & Hv & Hl & Hs) Hp Hb. destruct (view_write (fd out) s p b Hv) as (f & E & Hf).
  unfold put. rewrite E. eexists. split; [done|]. split; [done|]. exists (write_at p b s). split; [done|].
  rewrite write_at_zlen by done. split; [lia|]. rewrite write_at_fill by done. by rewrite Hs.
Qed.
Lemma file_at_zlen out img p : file_at out img p -> zlen img = info_len info.
Proof. intros (_ & s & _ & Hl & <-). by apply fill_up_zlen. Qed.

Lemma fill_loop_at fuel v n out img p :
  file_at out img p -> 0 <= p -> 0 <= n -> (4 | n) -> p + n <= info_len info -> n <= Z.of_nat fuel * MAX_BLOCK ->
  ∃ out', write_fill_loop ops fuel (fill_bytes v MAX_BLOCK) n out = Some out' ∧ file_at out' (overlay p (fill_bytes v n) img) (p + n).
Proof.
  assert (Hmb : 0 < MAX_BLOCK) by done.
  revert n out img p. induction fuel as [|fuel IH]; intros n out img p Hf Hp Hn Hd Hi Hfuel.
  - assert (n = 0) as -> by lia. exists out. split; [done|]. rewrite Z.add_0_r. change (fill_bytes v 0) with (@nil Z).
    rewrite overlay_nil. done.
  - cbn [write_fill_loop]. destruct (Z.eqb_spec n 0) as [->|Hne].
    { exists out. split; [done|]. rewrite Z.add_0_r. change (fill_bytes v 0) with (@nil Z).
      rewrite overlay_nil. done. }
    rewrite fill_bytes_zlen by (done || by exists 1024).
    set (w := if MAX_BLOCK <? n then MAX_BLOCK else n).
    assert (Hw : 0 < w <= n ∧ n - w <= Z.of_nat fuel * MAX_BLOCK ∧ w <= MAX_BLOCK ∧ (4 | w)).
    { unfold w. destruct (Z.ltb_spec MAX_BLOCK n); split_and!; try lia; [by exists 1024 | done]. }
    destruct Hw as (Hw & Hf' & Hwb & Hwd). clearbody w. cbv zeta. rewrite (proj2 (Z.ltb_ge _ _)) by lia.
    rewrite fill_take by (done || lia). assert (Hz : zlen (fill_bytes v w) = w) by (apply fill_bytes_zlen; [lia | done]).
    destruct (put_at (fill_bytes v w) out img p Hf) as (o1 & E1 & H1); [done | lia|]. rewrite E1. cbn [mbind option_bind].
    rewrite Hz in H1. destruct (IH (n - w) o1 _ _ H1) as (o2 & E2 & H2); [lia | lia | by apply Z.divide_sub_r | lia | lia |].
    exists o2. split; [done|]. replace (p + w + (n - w)) with (p + n) in H2 by lia. rewrite <- Hz in H2 at 1.
    rewrite overlay_app in H2; [|lia|].
    + rewrite <- fill_bytes_app in H2 by (done || lia). by replace (w + (n - w)) with n in H2 by lia.
    + rewrite Hz, fill_bytes_zlen, (file_at_zlen _ _ _ Hf); [lia | lia | by apply Z.divide_sub_r].
Qed.

(** ** One block *)
Definition fill_aligned (d : data_block) : Prop := match src_of d with Fill _ => (bs | len d) | _ => True end.
Definition block_data (d : data_block) : list Z := default [] (data_bytes load mmap64 info (src_of d) (len d)).

Lemma round_up_aligned n : (bs | n) -> round_up_to n bs = n.
Proof.
  intros [q ->]. pose proof (bs_pos info Hg). unfold round_up_to. rewrite (Z.add_comm (q * bs)), Z.div_add, Z.div_small; lia.
Qed.
Lemma block_data_fill ptr d v : fits ptr d -> fill_aligned d -> src_of d = Fill v -> block_data d = fill_bytes v (len d) ∧ span_of d = len d.
Proof.
  intros (_ & Hn & _) Ha E. unfold fill_aligned, block_data, OutFileSpec.span_of in *. rewrite E in *. cbn [data_bytes default from_option id].
  rewrite (round_up_aligned _ Ha). split; [|done]. apply fill_take; [lia|]. by apply (words_div info).
Qed.
(** What is added to fill up the last block of data is zeros on zeros. *)
Lemma overlay_zeros (o n : Z) (img : list Z) : 0 <= o -> 0 <= n -> o + n <= zlen img -> slice o n img = zeros n -> overlay o (zeros n) img = img.
Proof. intros Ho Hn Hl <-. by apply overlay_slice_id. Qed.
Lemma block_overlay ptr d img :
  0 <= ptr -> fits ptr d -> fill_aligned d -> zlen img = info_len info -> drop (Z.to_nat ptr) img = zeros (info_len info - ptr) ->
  overlay (start d) (block_data d) img = overlay (start d) (block_bytes d) img.
Proof.
  intros Hp0 Hfit Ha Hl Hz. destruct (fits_le _ _ _ Hg _ _ Hfit) as (H1 & _ & H2). pose proof Hfit as (_ & Hn & _ & ((b & Eb & Hlb) & _) & _).
  pose proof (span_bounds info Hg d Hn). unfold ImageTrip.block_bytes. destruct (src_of d) as [addr|f off|v] eqn:E.
  3:{ by destruct (block_data_fill _ _ v Hfit Ha E) as [-> ->]. }
  all: unfold OutFileSpec.padded, block_data; rewrite E, Eb; cbn [default from_option id]; fold (zeros (span_of d - len d));
    rewrite <- overlay_app by (rewrite ?zeros_zlen by lia; lia); rewrite Hlb; symmetry; apply overlay_zeros;
    [lia | lia | rewrite overlay_len; lia |];
    (rewrite slice_overlay_other; [|lia..]);
    unfold slice; (replace (Z.to_nat (start d + len d)) with (Z.to_nat ptr + Z.to_nat (start d + len d - ptr))%nat by lia);
    rewrite <- drop_drop, Hz, zeros_drop by lia; unfold zeros; rewrite take_replicate; f_equal; lia.
Qed.

Lemma ext4_write_raw ptr d out img p :
  file_at out img p -> 0 <= ptr -> fits ptr d -> fill_aligned d ->
  ∃ out', ext4_write ops load mmap64 info (call_of bs d) out = Some out' ∧ file_at out' (overlay (start d) (block_data d) img) (start d + len d).
Proof.
  intros Hf Hp0 Hfit Ha. destruct (fits_le _ _ _ Hg _ _ Hfit) as (H1 & Hle & _). pose proof Hfit as (Hp & Hn & Hb & ((b & Eb & Hlb) & Hsrc) & Hin).
  unfold ext4_write. rewrite (call_len info Hg) by done. change (c_off (call_of bs d)) with (start d). change (c_src (call_of bs d)) with (src_of d).
  pose proof (end_off_small info Hg (start d) (len d) ltac:(lia) ltac:(lia) Hle) as He.
  destruct (seek_at (start d) out img p Hf) as (o1 & E1 & Hf1); [lia|].
  destruct (src_of d) as [addr|f off|v] eqn:E.
  1: pose proof (put_at b o1 img (start d) Hf1 ltac:(lia) ltac:(lia)) as (o2 & E2 & Hf2).
  2: pose proof (put_at b o1 img (start d) Hf1 ltac:(lia) ltac:(lia)) as (o2 & E2 & Hf2).
  - unfold block_data. rewrite E. cbn [data_bytes is_file] in *. rewrite Eb, <- Hlb. cbn [default from_option id].
    unfold write_data_block. rewrite Hlb, He, (proj2 (Z.ltb_ge _ _)), Eb, (proj1 Hf) by lia. cbn [mbind option_bind].
    rewrite E1. cbn [mbind option_bind]. exists o2. by rewrite <- Hlb.
  - unfold block_data. rewrite E. cbn [data_bytes is_file] in *. rewrite Eb. cbn [default from_option id].
    unfold file_bytes in Eb. unfold write_data_file. rewrite He, (proj2 (Z.leb_gt _ _)) by lia.
    destruct Hsrc as [Ho Hmax]. rewrite land_page in Eb |- * by done.
    pose proof (Z.div_mod off 4096). pose proof (Z.mod_pos_bound off 4096).
    rewrite s32_small by lia. destruct (mmap64 f _ _) as [m|]; [|done]. cbn [mbind option_bind] in *. injection Eb as ->.
    rewrite (proj1 Hf), E1. cbn [mbind option_bind]. exists o2. by rewrite <- Hlb.
  - destruct (block_data_fill _ _ v Hfit Ha E) as [-> _]. unfold fill_aligned in Ha. rewrite E in Ha. cbn [is_file] in Hin.
    unfold write_fill_block. rewrite He, (proj2 (Z.ltb_ge _ _)), (proj1 Hf), E1 by lia. cbn [mbind option_bind].
    apply fill_loop_at; [done | lia | lia | by apply (words_div info) | lia |]. unfold MAX_BLOCK.
    pose proof (Z.div_mod (len d) 4096). pose proof (Z.mod_pos_bound (len d) 4096). pose proof (Z.div_pos (len d) 4096).
    rewrite Z2Nat.id; lia.
Qed.

Lemma raw_pass L ptr last out img p :
  file_at out img p -> (bs | ptr) -> 0 <= ptr <= info_len info -> placed ptr L -> Forall fill_aligned L -> last * bs <= ptr ->
  drop (Z.to_nat ptr) img = zeros (info_len info - ptr) ->
  ∃ out' p', each_block (ext4_write ops load mmap64 info) bs L last out = Some out' ∧
    file_at out' (foldl (fun img d => overlay (start d) (block_bytes d) img) img L) p'.
Proof.
  revert ptr last out img p. induction L as [|d L IH]; intros ptr last out img p Hf Hd Hp Hpl Ha Hlast Hz; [by exists out, p|].
  apply placed_cons in Hpl as [Hfit Hpl]. apply Forall_cons in Ha as [Had Ha]. cbn [each_block foldl]. pose proof (bs_pos info Hg).
  rewrite (proj2 (Z.ltb_ge _ _)) by (destruct Hfit as [H1 _]; unfold OutFileSpec.start in H1; nia).
  pose proof (file_at_zlen _ _ _ Hf) as Hl. destruct (fits_le _ _ _ Hg _ _ Hfit) as (H1 & _ & H2).
  destruct (ext4_write_raw ptr d out img p Hf) as (o1 & E1 & Hf1); [lia | done | done |]. rewrite E1. cbn [mbind option_bind].
  rewrite (block_overlay ptr) in Hf1 by (done || lia). pose proof (block_bytes_zlen _ _ _ Hg _ _ Hfit) as Hbl.
  pose proof (last_block_ok _ _ _ Hg ptr d ltac:(lia) Hfit). pose proof (zlen_nonneg (block_bytes d)).
  apply (IH (start d + span_of d) _ _ _ _ Hf1); [by apply next_ptr_div | lia | done | done | done |].
  replace (Z.to_nat (start d + span_of d)) with (Z.to_nat (start d) + length (block_bytes d))%nat by (unfold zlen in *; lia).
  unfold overlay. rewrite app_assoc, drop_app_ge by (rewrite length_app, length_take; lia).
  rewrite length_app, length_take, drop_drop.
  replace (Z.to_nat (start d) + length (block_bytes d) + _)%nat with (Z.to_nat ptr + Z.to_nat (start d + span_of d - ptr))%nat by (unfold zlen in *; lia).
  rewrite <- drop_drop, Hz, zeros_drop by lia. f_equal. lia.
Qed.

Lemma raw_ok fuel q Lq (f : F) crc :
  let L := contents Lq in
  queue_ok q Lq -> (length Lq <= fuel)%nat -> placed 0 L -> Forall fill_aligned L -> 0 < info_len info -> view f [] 0 ->
  ∃ out p, write_ext4_image ops load mmap64 info fuel f false crc q = Some out ∧
    view (fd out) (slice 0 (info_len info - 1) (flat load mmap64 info L) ++ [0]) p.
Proof.
  intros L Hq Hfuel Hpl Ha Hpos Hf. pose proof (bs_pos info Hg).
  assert (Hit : ∀ S g (s : S), for_each_data_block fuel g bs q s = each_block g bs L 0 s).
  { intros S g s. apply for_each_contents; [apply (qo_chain _ _ Hq) | done]. }
  unfold write_ext4_image, count_sparse_chunks. rewrite Hit.
  rewrite (count_pass load mmap64 info Hg); cbn [cur_ptr chunks]; [|apply Z.divide_0_r | done | done | lia | lia].
  cbn [mbind option_bind]. unfold open_output_fd. cbn [mbind option_bind]. rewrite Hit.
  set (o0 := OutputFile f false 0 0 0 crc static_header).
  assert (H0 : file_at o0 (zeros (info_len info)) 0).
  { split; [done|]. exists []. split; [done|]. split; [unfold zlen; cbn; lia|]. unfold fill_up. cbn [app]. f_equal. unfold zlen. cbn. lia. }
  destruct (raw_pass L 0 0 o0 _ 0 H0) as (o1 & p1 & E1 & H1); [apply Z.divide_0_r | lia | done | done | lia | by rewrite zeros_drop by lia |].
  rewrite E1. cbn [mbind option_bind]. fold (flat load mmap64 info L) in H1. unfold pad_output_file.
  rewrite Z.ltb_irrefl, (proj1 H1). destruct (seek_at (info_len info - 1) o1 _ _ H1) as (o2 & E2 & (Hsp & s & Hv & Hl & Hs)); [lia|].
  rewrite E2. cbn [mbind option_bind]. destruct (view_write (fd o2) s _ [0] Hv) as (f3 & E3 & Hv3).
  unfold put. rewrite E3. cbn [mbind option_bind]. unfold close_output_file. cbn [sparse]. rewrite Hsp. eexists _, _. split; [done|]. cbn [fd].
  enough (write_at (info_len info - 1) [0] s = slice 0 (info_len info - 1) (flat load mmap64 info L) ++ [0]) as <- by done.
  unfold write_at, slice. rewrite (take_fill (info_len info)), Hs, drop_0 by lia. f_equal.
  rewrite drop_ge; [done | unfold zlen in *; cbn; lia].
Qed.
End Raw.

(** C21. Both modes write the same image but for its last byte: for any blocks that do not overlap,
    the values to fill with given for whole blocks, the plain file is the image, with a zero in
    place of its last byte. *)
Theorem raw_image_written {F} (ops : output_file_ops F) `{!Seeks ops} load mmap64 info fuel ds (crc : bool) (f : F) :
  geometry info -> NoDup ds.*1 -> (∀ x d, (x, d) ∈ ds -> next d = None) -> (length ds <= fuel)%nat ->
  placed load mmap64 info 0 (queued ds) -> Forall (fill_aligned info) (queued ds) -> 0 < info_len info -> view f [] 0 ->
  ∃ q out p, push_all fuel ds empty_queue = Some q ∧ write_ext4_image ops load mmap64 info fuel f false crc q = Some out ∧
    view (fd out) (slice 0 (info_len info - 1) (flat load mmap64 info (queued ds)) ++ [0]) p.
Proof.
  intros Hg Hnd Hnext Hfuel Hpl Ha Hpos Hf. destruct (queued_ok fuel ds Hnd Hnext Hfuel) as (q & Lq & Eq & Hq & Hl & Hc).
  destruct (raw_ok ops load mmap64 info Hg fuel q Lq f crc Hq Hl) as (out & p & E & Hv); rewrite ?Hc; try done.
  rewrite Hc in Hv. by exists q, out, p.
Qed.
(** The last block is full, and its last byte is lost. *)
Definition ds_full_ex : list (nat * data_block) := ds_fill_ex ++ [(5%nat, mem_ex 7 88 4)].
Lemma raw_image_written_witness :
  ∃ q out p, push_all 5 ds_full_ex empty_queue = Some q ∧
    write_ext4_image m_ops load_ex mmap_ex info_ex 5 (MFile [] 0) false false q = Some out ∧
    view (fd out) [4; 3; 2; 1; 33; 33; 33; 0; 0; 0; 0; 0; 0; 0; 0; 0; 77; 77; 77; 77; 9; 9; 9; 9; 9; 9; 0; 0; 88; 88; 88; 0] p.
Proof.
  apply (raw_image_written m_ops load_ex mmap_ex info_ex 5 ds_full_ex).
  - exact geometry_ex.
  - by apply (bool_decide_unpack _).
  - intros x d Hx. cbn in Hx. repeat (apply elem_of_cons in Hx as [[= -> ->]|Hx]; [done|]). by apply elem_of_nil in Hx.
  - cbn. lia.
  - cbn. unfold start, span_of, round_up_to, readable. cbn. split_and!; try done; by eexists.
  - repeat constructor. by exists 1.
  - done.
  - done.
Defined.
