(* ===== verification/Sha1.v ===== *)
(** * SHA-1 and the identifiers made with it ([ext4_utils/sha1.c], [uuid.c])

    The hash as the code computes it: a window of 16 words that is overwritten while the
    rounds run, five variables whose roles go round instead of their values, and a context
    that takes the message in pieces.  It is the function of FIPS 180: a schedule of 80
    words, and a padded message cut into blocks. *)
From stdpp Require Import base list list_numbers.
From Stdlib Require Import ZArith Lia.
From S2P Require Import Prelude Crc SparseFormat.
#[local] Open Scope Z_scope.

(** ** The rounds *)
Definition rol (value bits : Z) : Z := Z.lor (u32 (Z.shiftl value bits)) (Z.shiftr value (32 - bits)).

(** The window, and the variables [a] to [e]. *)
Record round_state := RoundState { window : list Z; vars : list Z }.
Definition word (l : list Z) (i : nat) : Z := nth i l 0.
(** [blk0(i)] puts the word in order, [blk(i)] replaces it by the one of 16 rounds later. *)
Definition blk0 (i : nat) (l : list Z) : list Z :=
  <[i := Z.lor (Z.land (rol (word l i) 24) 0xFF00FF00) (Z.land (rol (word l i) 8) 0x00FF00FF)]> l.
Definition blk (i : nat) (l : list Z) : list Z :=
  let at_ (k : nat) := word l (Nat.land (i + k) 15) in
  <[Nat.land i 15 := rol (Z.lxor (Z.lxor (Z.lxor (at_ 13%nat) (at_ 8%nat)) (at_ 2%nat)) (at_ 0%nat)) 1]> l.
(** [z += f(w, x, y) + block + k + rol(v, 5); w = rol(w, 30);] *)
Definition R (expand : nat -> list Z -> list Z) (j : nat -> nat) (f : Z -> Z -> Z -> Z) (k : Z) (v w x y z i : nat) (s : round_state) : round_state :=
  let l := expand i (window s) in
  let at_ n := word (vars s) n in
  let z' := u32 (at_ z + (f (at_ w) (at_ x) (at_ y) + word l (j i) + k + rol (at_ v) 5)) in
  RoundState l (<[w := rol (at_ w) 30]> (<[z := z']> (vars s))).
Definition mod16 (i : nat) : nat := Nat.land i 15.
Definition f_ch (w x y : Z) : Z := Z.lxor (Z.land w (Z.lxor x y)) y.
Definition f_xor (w x y : Z) : Z := Z.lxor (Z.lxor w x) y.
Definition f_maj (w x y : Z) : Z := Z.lor (Z.land (Z.lor w x) y) (Z.land w x).
Definition R0 := R blk0 (fun i => i) f_ch 0x5A827999.
Definition R1 := R blk mod16 f_ch 0x5A827999.
Definition R2 := R blk mod16 f_xor 0x6ED9EBA1.
Definition R3 := R blk mod16 f_maj 0x8F1BBCDC.
Definition R4 := R blk mod16 f_xor 0xCA62C1D6.

(** The 80 calls of [SHA1Transform], in order. *)
Definition rounds : list (round_state -> round_state) :=
  let '(a, b, c, d, e) := (0, 1, 2, 3, 4)%nat in
  [R0 a b c d e 0; R0 e a b c d 1; R0 d e a b c 2; R0 c d e a b 3;
   R0 b c d e a 4; R0 a b c d e 5; R0 e a b c d 6; R0 d e a b c 7;
   R0 c d e a b 8; R0 b c d e a 9; R0 a b c d e 10; R0 e a b c d 11;
   R0 d e a b c 12; R0 c d e a b 13; R0 b c d e a 14; R0 a b c d e 15;
   R1 e a b c d 16; R1 d e a b c 17; R1 c d e a b 18; R1 b c d e a 19;
   R2 a b c d e 20; R2 e a b c d 21; R2 d e a b c 22; R2 c d e a b 23;
   R2 b c d e a 24; R2 a b c d e 25; R2 e a b c d 26; R2 d e a b c 27;
   R2 c d e a b 28; R2 b c d e a 29; R2 a b c d e 30; R2 e a b c d 31;
   R2 d e a b c 32; R2 c d e a b 33; R2 b c d e a 34; R2 a b c d e 35;
   R2 e a b c d 36; R2 d e a b c 37; R2 c d e a b 38; R2 b c d e a 39;
   R3 a b c d e 40; R3 e a b c d 41; R3 d e a b c 42; R3 c d e a b 43;
   R3 b c d e a 44; R3 a b c d e 45; R3 e a b c d 46; R3 d e a b c 47;
   R3 c d e a b 48; R3 b c d e a 49; R3 a b c d e 50; R3 e a b c d 51;
   R3 d e a b c 52; R3 c d e a b 53; R3 b c d e a 54; R3 a b c d e 55;
   R3 e a b c d 56; R3 d e a b c 57; R3 c d e a b 58; R3 b c d e a 59;
   R4 a b c d e 60; R4 e a b c d 61; R4 d e a b c 62; R4 c d e a b 63;
   R4 b c d e a 64; R4 a b c d e 65; R4 e a b c d 66; R4 d e a b c 67;
   R4 c d e a b 68; R4 b c d e a 69; R4 a b c d e 70; R4 e a b c d 71;
   R4 d e a b c 72; R4 c d e a b 73; R4 b c d e a 74; R4 a b c d e 75;
   R4 e a b c d 76; R4 d e a b c 77; R4 c d e a b 78; R4 b c d e a 79]%nat.
(** The union of the 64 bytes and 16 words, on a little-endian machine. *)
Fixpoint words (n : nat) (b : list Z) : list Z :=
  match n with O => [] | S n => le32 b :: words n (drop 4 b) end.
Definition SHA1Transform (state : list Z) (buffer : list Z) : list Z :=
  let s := foldl (fun s r => r s) (RoundState (words 16 buffer) state) rounds in
  zip_with (fun x y => u32 (x + y)) state (vars s).

(** ** The context *)
Record SHA1_CTX := Ctx { state : list Z; count0 : Z; count1 : Z; buffer : list Z }.
Definition SHA1Init (buf : list Z) : SHA1_CTX := Ctx [0x67452301; 0xEFCDAB89; 0x98BADCFE; 0x10325476; 0xC3D2E1F0] 0 0 buf.

(** [for ( ; i + 63 < len; i += 64)] *)
Fixpoint update_loop (fuel : nat) (data : list Z) (i len : Z) (st : list Z) : option (Z * list Z) :=
  if i + 63 <? len then
    match fuel with
    | O => None
    | S fuel => update_loop fuel data (i + 64) len (SHA1Transform st (slice i 64 data))
    end
  else Some (i, st).
Definition SHA1Update (fuel : nat) (data : list Z) (c : SHA1_CTX) : option SHA1_CTX :=
  let len := zlen data in
  let j := count0 c in
  let c0 := u32 (count0 c + u32 (Z.shiftl len 3)) in
  let c1 := if c0 <? j then u32 (count1 c + (Z.shiftr len 29 + 1)) else count1 c in
  let j := Z.land (Z.shiftr j 3) 63 in
  '(i, j, st, buf) ← (if 63 <? j + len then
      let buf := overlay j (slice 0 (64 - j) data) (buffer c) in
      '(i, st) ← update_loop fuel data (64 - j) len (SHA1Transform (state c) buf);
      Some (i, 0, st, buf)
    else Some (0, j, state c, buffer c));
  Some (Ctx st c0 c1 (overlay j (slice i (len - i) data) buf)).

(** The bytes of a word, the highest first. *)
Definition be_bytes (w : Z) : list Z := (fun k => Z.land (Z.shiftr w ((3 - k) * 8)) 255) <$> [0; 1; 2; 3].
Fixpoint pad_loop (fuel : nat) (c : SHA1_CTX) : option SHA1_CTX :=
  if negb (Z.land (count0 c) 504 =? 448) then
    match fuel with O => None | S fuel => c ← SHA1Update 1 [0] c; pad_loop fuel c end
  else Some c.
Definition SHA1Final (c : SHA1_CTX) : option (list Z) :=
  let finalcount := be_bytes (count1 c) ++ be_bytes (count0 c) in
  c ← SHA1Update 1 [128] c;
  c ← pad_loop 64 c;
  c ← SHA1Update 8 finalcount c;
  Some (concat (be_bytes <$> state c)).

(** ** Identifiers ([uuid.c]) *)
Definition sha1_hash (namespace name : list Z) : option (list Z) :=
  c ← SHA1Update (length namespace) namespace (SHA1Init (zeros 64));
  c ← SHA1Update (length name) name c;
  SHA1Final c.
Definition ntohs (b : list Z) : Z := le16 (rev b).
Definition ntohl (b : list Z) : Z := le32 (rev b).
Definition generate_uuid (namespace name : list Z) : option (list Z) :=
  sha1 ← sha1_hash namespace name;
  let time_low := ntohl (slice 0 4 sha1) in
  let time_mid := ntohs (slice 4 2 sha1) in
  let time_hi_and_version := Z.lor (Z.land (ntohs (slice 6 2 sha1)) 0x0FFF) (Z.shiftl 5 12) in
  let clk_seq_hi_res := Z.lor (Z.land (byte_at sha1 8) (Z.lnot (Z.shiftl 1 6))) (Z.shiftl 1 7) in
  Some (bytes32 time_low ++ bytes16 time_mid ++ bytes16 time_hi_and_version ++ [clk_seq_hi_res] ++ slice 9 7 sha1).

(** "abc", in two pieces. *)
Definition hex_bytes (n : nat) (v : Z) : list Z := rev ((fun k => Z.shiftr v (8 * Z.of_nat k) mod 256) <$> seq 0 n).
Example sha1_abc : sha1_hash [97] [98; 99] = Some (hex_bytes 20 0xa9993e364706816aba3e25717850c26c9cd0d89d).
Proof. vm_compute. reflexivity. Qed.

(** ** The function of FIPS 180 *)
Definition ROTL (n x : Z) : Z := (x * 2 ^ n) mod 2 ^ 32 + x / 2 ^ (32 - n).
Definition f_t (t : nat) (b c d : Z) : Z :=
  if decide (t < 20)%nat then Z.lxor (Z.land b c) (Z.land (Z.lnot b) d)
  else if decide (40 <= t < 60)%nat then Z.lxor (Z.lxor (Z.land b c) (Z.land b d)) (Z.land c d)
  else Z.lxor (Z.lxor b c) d.
Definition K_t (t : nat) : Z :=
  if decide (t < 20)%nat then 0x5A827999 else if decide (t < 40)%nat then 0x6ED9EBA1 else if decide (t < 60)%nat then 0x8F1BBCDC else 0xCA62C1D6.
Definition be32 (b : list Z) : Z := byte_at b 0 * 2 ^ 24 + byte_at b 1 * 2 ^ 16 + byte_at b 2 * 2 ^ 8 + byte_at b 3.
(** The schedule: the words of the block, and then each from four before it. *)
Definition next_word (W : list Z) : Z :=
  let t := length W in
  ROTL 1 (Z.lxor (Z.lxor (Z.lxor (word W (t - 3)) (word W (t - 8))) (word W (t - 14))) (word W (t - 16))).
Fixpoint schedule (n : nat) (W : list Z) : list Z := match n with O => W | S n => schedule n (W ++ [next_word W]) end.
Fixpoint be_words (n : nat) (b : list Z) : list Z := match n with O => [] | S n => be32 b :: be_words n (drop 4 b) end.
Definition hash : Type := Z * Z * Z * Z * Z.
Definition step (W : list Z) (h : hash) (t : nat) : hash :=
  let '(a, b, c, d, e) := h in ((ROTL 5 a + f_t t b c d + e + K_t t + word W t) mod 2 ^ 32, a, ROTL 30 b, c, d).
Definition hash_add (h h' : hash) : hash :=
  let '(a, b, c, d, e) := h in let '(a', b', c', d', e') := h' in
  ((a + a') mod 2 ^ 32, (b + b') mod 2 ^ 32, (c + c') mod 2 ^ 32, (d + d') mod 2 ^ 32, (e + e') mod 2 ^ 32).
Definition compress (h : hash) (block : list Z) : hash :=
  hash_add h (foldl (step (schedule 64 (be_words 16 block))) h (seq 0 80)).
Fixpoint blocks (n : nat) (b : list Z) : list (list Z) := match n with O => [] | S n => slice 0 64 b :: blocks n (drop 64 b) end.
Definition be64 (v : Z) : list Z := (fun k => v / 2 ^ (8 * (7 - k)) mod 256) <$> seqZ 0 8.
Definition pad (msg : list Z) : list Z := msg ++ [128] ++ zeros ((55 - zlen msg) mod 64) ++ be64 (8 * zlen msg).
Definition H0 : hash := (0x67452301, 0xEFCDAB89, 0x98BADCFE, 0x10325476, 0xC3D2E1F0).
Definition hash_list (h : hash) : list Z := let '(a, b, c, d, e) := h in [a; b; c; d; e].
Definition sha1 (msg : list Z) : list Z :=
  let h := foldl compress H0 (blocks (length (pad msg) / 64) (pad msg)) in
  concat ((fun w => (fun k => w / 2 ^ (8 * (3 - k)) mod 256) <$> [0; 1; 2; 3]) <$> hash_list h).

Definition w32 (x : Z) : Prop := 0 <= x < 2 ^ 32.
Lemma rol_ROTL x n : w32 x -> 0 < n < 32 -> rol x n = ROTL n x.
Proof.
  intros Hx Hn. unfold rol, ROTL, u32. rewrite Z.shiftl_mul_pow2, Z.shiftr_div_pow2 by lia.
  assert (E : (x * 2 ^ n) mod 2 ^ 32 = (x mod 2 ^ (32 - n)) * 2 ^ n).
  { replace (2 ^ 32) with (2 ^ (32 - n) * 2 ^ n) by (rewrite <- Z.pow_add_r by lia; f_equal; lia). apply Z.mul_mod_distr_r; [|]; (pose proof (Z.pow_pos_nonneg 2 (32 - n)); pose proof (Z.pow_pos_nonneg 2 n); lia). }
  rewrite E. apply lor_low; [lia|]. split; [apply Z.div_pos; [apply Hx | apply Z.pow_pos_nonneg; lia]|]. apply Z.div_lt_upper_bound; [apply Z.pow_pos_nonneg; lia|].
  rewrite <- Z.pow_add_r by lia. replace (32 - n + n) with 32 by lia. apply Hx.
Qed.
Lemma ROTL_w32 n x : w32 x -> 0 < n < 32 -> w32 (ROTL n x).
Proof.
  intros Hx Hn. unfold ROTL. assert (E : (x * 2 ^ n) mod 2 ^ 32 = (x mod 2 ^ (32 - n)) * 2 ^ n).
  { replace (2 ^ 32) with (2 ^ (32 - n) * 2 ^ n) by (rewrite <- Z.pow_add_r by lia; f_equal; lia). apply Z.mul_mod_distr_r; [|]; (pose proof (Z.pow_pos_nonneg 2 (32 - n)); pose proof (Z.pow_pos_nonneg 2 n); lia). }
  rewrite E. pose proof (Z.mod_pos_bound x (2 ^ (32 - n)) ltac:(apply Z.pow_pos_nonneg; lia)).
  assert (0 <= x / 2 ^ (32 - n) < 2 ^ n). { split; [apply Z.div_pos; [apply Hx | apply Z.pow_pos_nonneg; lia]|]. apply Z.div_lt_upper_bound; [apply Z.pow_pos_nonneg; lia|].
    rewrite <- Z.pow_add_r by lia. replace (32 - n + n) with 32 by lia. apply Hx. }
  assert (2 ^ 32 = 2 ^ (32 - n) * 2 ^ n) by (rewrite <- Z.pow_add_r by lia; f_equal; lia). unfold w32. nia.
Qed.
(** The functions of the rounds, bit by bit. *)
#[local] Ltac bitwise :=
  apply Z.bits_inj'; intros ? ?;
  repeat first [rewrite Z.lxor_spec | rewrite Z.land_spec | rewrite Z.lor_spec | rewrite Z.lnot_spec by done];
  repeat match goal with |- context [Z.testbit ?a ?b] => destruct (Z.testbit a b) end; done.
Lemma f_ch_spec w x y : f_ch w x y = Z.lxor (Z.land w x) (Z.land (Z.lnot w) y).
Proof. unfold f_ch. bitwise. Qed.
Lemma f_maj_spec w x y : f_maj w x y = Z.lxor (Z.lxor (Z.land w x) (Z.land w y)) (Z.land x y).
Proof. unfold f_maj. bitwise. Qed.

(** The order of the bytes. *)
Lemma bit_split a lo k i : 0 <= k -> 0 <= lo < 2 ^ k -> 0 <= i -> Z.testbit (a * 2 ^ k + lo) i = if i <? k then Z.testbit lo i else Z.testbit a (i - k).
Proof.
  intros Hk Hlo Hi. rewrite lxor_low, Z.lxor_spec by done. destruct (Z.ltb_spec i k).
  - by rewrite Z.mul_pow2_bits_low by lia.
  - rewrite Z.mul_pow2_bits by lia. rewrite <- (Z.mod_small lo (2 ^ k)), Z.mod_pow2_bits_high by lia. apply xorb_false_r.
Qed.
Lemma land_split a lo m ml k : 0 <= k -> 0 <= lo < 2 ^ k -> 0 <= ml < 2 ^ k -> Z.land (a * 2 ^ k + lo) (m * 2 ^ k + ml) = Z.land a m * 2 ^ k + Z.land lo ml.
Proof.
  intros Hk Hlo Hml. assert (0 <= Z.land lo ml < 2 ^ k).
  { assert (E : Z.land lo ml = Z.land lo ml mod 2 ^ k); [|rewrite E; apply Z.mod_pos_bound; lia].
    rewrite <- Z.land_ones, <- Z.land_assoc, (Z.land_comm ml), Z.land_assoc, Z.land_ones by done. by rewrite (Z.mod_small lo). }
  apply Z.bits_inj'. intros i Hi. rewrite Z.land_spec, !bit_split, !Z.land_spec by done. by destruct (i <? k).
Qed.
Lemma land_byte b : 0 <= b < 256 -> Z.land b 255 = b.
Proof. intros Hb. change 255 with (Z.ones 8). rewrite Z.land_ones by done. by apply Z.mod_small. Qed.
Definition word_of (b3 b2 b1 b0 : Z) : Z := ((b3 * 2 ^ 8 + b2) * 2 ^ 8 + b1) * 2 ^ 8 + b0.
Lemma word_land b3 b2 b1 b0 m3 m2 m1 m0 : 0 <= b2 < 256 -> 0 <= b1 < 256 -> 0 <= b0 < 256 -> 0 <= m2 < 256 -> 0 <= m1 < 256 -> 0 <= m0 < 256 ->
  Z.land (word_of b3 b2 b1 b0) (word_of m3 m2 m1 m0) = word_of (Z.land b3 m3) (Z.land b2 m2) (Z.land b1 m1) (Z.land b0 m0).
Proof. intros. unfold word_of. by rewrite !land_split by lia. Qed.
Lemma swap_word b0 b1 b2 b3 : 0 <= b0 < 256 -> 0 <= b1 < 256 -> 0 <= b2 < 256 -> 0 <= b3 < 256 ->
  let x := word_of b3 b2 b1 b0 in Z.lor (Z.land (rol x 24) 0xFF00FF00) (Z.land (rol x 8) 0x00FF00FF) = word_of b0 b1 b2 b3.
Proof.
  intros H0 H1 H2 H3 x. assert (Hx : w32 x) by (unfold x, word_of, w32; lia). rewrite !rol_ROTL by (done || lia).
  assert (E1 : ROTL 24 x = word_of b0 b3 b2 b1).
  { unfold ROTL. change (32 - 24) with 8. assert (x / 2 ^ 8 = word_of 0 b3 b2 b1) as -> by (symmetry; apply (Z.div_unique _ _ _ b0); unfold x, word_of; lia).
    assert ((x * 2 ^ 24) mod 2 ^ 32 = b0 * 2 ^ 24) as ->; [|unfold word_of; lia]. symmetry. apply (Z.mod_unique _ _ (word_of 0 b3 b2 b1)); unfold x, word_of; lia. }
  assert (E2 : ROTL 8 x = word_of b2 b1 b0 b3).
  { unfold ROTL. change (32 - 8) with 24. assert (x / 2 ^ 24 = b3) as -> by (symmetry; apply (Z.div_unique _ _ _ (word_of 0 b2 b1 b0)); unfold x, word_of; lia).
    assert ((x * 2 ^ 8) mod 2 ^ 32 = word_of b2 b1 b0 0) as ->; [|unfold word_of; lia]. symmetry. apply (Z.mod_unique _ _ b3); unfold x, word_of; lia. }
  rewrite E1, E2. change 0xFF00FF00 with (word_of 255 0 255 0). change 0x00FF00FF with (word_of 0 255 0 255).
  rewrite !word_land, !Z.land_0_r, !land_byte by lia. assert (Hd : Z.land (word_of b0 0 b2 0) (word_of 0 b1 0 b3) = 0) by (rewrite word_land, !Z.land_0_r, !Z.land_0_l by lia; done).
  rewrite <- Z.lxor_lor, <- Z.add_nocarry_lxor by done. unfold word_of. lia.
Qed.

(** ** One block *)
Lemma word_insert l k j v : (k < length l)%nat -> word (<[k := v]> l) j = if decide (k = j) then v else word l j.
Proof.
  intros Hk. unfold word. rewrite !nth_lookup. case_decide as Hd.
  - subst. by rewrite list_lookup_insert_eq.
  - by rewrite list_lookup_insert_ne.
Qed.
Lemma word_app_l l l' t : (t < length l)%nat -> word (l ++ l') t = word l t.
Proof. intros Ht. unfold word. by rewrite app_nth1. Qed.
Lemma word_end l x : word (l ++ [x]) (length l) = x.
Proof. unfold word. by rewrite app_nth2, Nat.sub_diag by lia. Qed.

Lemma schedule_length n W : length (schedule n W) = (length W + n)%nat.
Proof. revert W. induction n as [|n IH]; intros W; cbn [schedule]; [lia|]. rewrite IH, length_app. cbn. lia. Qed.
Lemma schedule_prefix n W t : (t < length W)%nat -> word (schedule n W) t = word W t.
Proof. revert W. induction n as [|n IH]; intros W Ht; cbn [schedule]; [done|]. rewrite IH by (rewrite length_app; lia). by apply word_app_l. Qed.
Lemma schedule_rec n W t : (16 <= length W)%nat -> (length W <= t < length W + n)%nat ->
  word (schedule n W) t = ROTL 1 (Z.lxor (Z.lxor (Z.lxor (word (schedule n W) (t - 3)) (word (schedule n W) (t - 8))) (word (schedule n W) (t - 14))) (word (schedule n W) (t - 16))).
Proof.
  revert W. induction n as [|n IH]; intros W Hl Ht; [lia|]. cbn [schedule]. destruct (decide (t = length W)) as [->|Hne].
  - rewrite !schedule_prefix by (rewrite length_app; cbn; lia). rewrite word_end, !word_app_l by lia. done.
  - apply IH; rewrite length_app; cbn; lia.
Qed.
Lemma lxor_w32 x y : w32 x -> w32 y -> w32 (Z.lxor x y).
Proof.
  intros [Hx1 Hx2] [Hy1 Hy2]. split; [by apply Z.lxor_nonneg|]. destruct (decide (Z.lxor x y = 0)) as [->|Hne]; [done|].
  apply Z.log2_lt_pow2; [pose proof (Z.lxor_nonneg x y); lia|]. eapply Z.le_lt_trans; [by apply Z.log2_lxor|].
  apply Z.max_lub_lt; (destruct (decide (x = 0)) as [->|]; [|]); try (destruct (decide (y = 0)) as [->|]); try done; apply Z.log2_lt_pow2; lia.
Qed.
Lemma word_w32 vs j : Forall w32 vs -> w32 (word vs j).
Proof. intros Hv. unfold word. rewrite nth_lookup. destruct (vs !! j) as [x|] eqn:E; [|done]. by apply (Forall_lookup_1 _ _ _ _ Hv E). Qed.
Lemma schedule_w32 n W : Forall w32 W -> (16 <= length W)%nat -> Forall w32 (schedule n W).
Proof.
  revert W. induction n as [|n IH]; intros W HW Hl; cbn [schedule]; [done|]. assert (Hat : ∀ t, w32 (word W t)) by (intros t; by apply word_w32).
  apply IH; [|rewrite length_app; lia]. apply Forall_app. split; [done|]. constructor; [|constructor]. unfold next_word. apply ROTL_w32; [|lia]. by repeat apply lxor_w32.
Qed.

Lemma be_words_length n b : length (be_words n b) = n.
Proof. revert b. induction n as [|n IH]; intros b; cbn; [done | by rewrite IH]. Qed.
Lemma words_length n b : length (words n b) = n.
Proof. revert b. induction n as [|n IH]; intros b; cbn; [done | by rewrite IH]. Qed.
Lemma byte_at_range b i : bytes b -> 0 <= byte_at b i < 256.
Proof. intros Hb. unfold byte_at. destruct (b !! i) as [x|] eqn:E; [|done]. apply (Forall_lookup_1 _ _ _ _ Hb E). Qed.
Lemma bytes_drop n b : bytes b -> bytes (drop n b).
Proof. apply Forall_drop. Qed.
Lemma word_swap b : bytes b -> let x := le32 b in Z.lor (Z.land (rol x 24) 0xFF00FF00) (Z.land (rol x 8) 0x00FF00FF) = be32 b.
Proof.
  intros Hb x. assert (Hr := byte_at_range b). assert (x = word_of (byte_at b 3) (byte_at b 2) (byte_at b 1) (byte_at b 0)) as ->.
  { unfold x, le32, le16, word_of. assert (∀ i, byte_at (drop 2 b) i = byte_at b (2 + i)) as Hd by (intros i; unfold byte_at; by rewrite lookup_drop). rewrite !Hd. cbn [Nat.add]. lia. }
  rewrite swap_word by (by apply Hr). unfold word_of, be32. lia.
Qed.
Lemma words_at n b t : bytes b -> (t < n)%nat ->
  Z.lor (Z.land (rol (word (words n b) t) 24) 0xFF00FF00) (Z.land (rol (word (words n b) t) 8) 0x00FF00FF) = word (be_words n b) t.
Proof.
  revert b t. induction n as [|n IH]; intros b t Hb Ht; [lia|]. destruct t as [|t]; [by apply word_swap|]. apply (IH (drop 4 b) t); [by apply bytes_drop | lia].
Qed.
Lemma be_words_w32 n b : bytes b -> Forall w32 (be_words n b).
Proof.
  revert b. induction n as [|n IH]; intros b Hb; cbn; constructor; [|by apply IH, bytes_drop].
  pose proof (byte_at_range b 0 Hb). pose proof (byte_at_range b 1 Hb). pose proof (byte_at_range b 2 Hb). pose proof (byte_at_range b 3 Hb). unfold w32, be32. lia.
Qed.

(** Round [i] as it is written: which variable has which role, and which words. *)
Definition role (i r : nat) : nat := Nat.modulo (r + 4 * i) 5.
Definition round_at (i : nat) : round_state -> round_state :=
  let round := if (i <? 16)%nat then R0 else if (i <? 20)%nat then R1 else if (i <? 40)%nat then R2 else if (i <? 60)%nat then R3 else R4 in
  round (role i 0) (role i 1) (role i 2) (role i 3) (role i 4) i.
Lemma rounds_at : rounds = round_at <$> seq 0 80.
Proof. reflexivity. Qed.
Lemma role_lt i r : (role i r < 5)%nat.
Proof. apply Nat.mod_upper_bound. lia. Qed.
Lemma role_inj i r r' : (r < 5)%nat -> (r' < 5)%nat -> role i r = role i r' -> r = r'.
Proof. unfold role. intros Hr Hr' E. pose proof (Nat.div_mod_eq (r + 4 * i) 5). pose proof (Nat.div_mod_eq (r' + 4 * i) 5). lia. Qed.
Lemma role_next i r : (r < 4)%nat -> role (S i) (S r) = role i r.
Proof. intros Hr. unfold role. replace (S r + 4 * S i)%nat with (r + 4 * i + 1 * 5)%nat by lia. by rewrite Nat.Div0.mod_add. Qed.
Lemma role_first i : role (S i) 0 = role i 4.
Proof. unfold role. f_equal. lia. Qed.

(** What the rounds need of the schedule. *)
Record is_schedule (b W : list Z) : Prop := IsSchedule {
  W_w32 : ∀ t, w32 (word W t);
  W_first : ∀ t, (t < 16)%nat -> word W t = word (be_words 16 b) t;
  W_rec : ∀ t, (16 <= t < 80)%nat -> word W t = ROTL 1 (Z.lxor (Z.lxor (Z.lxor (word W (t - 3)) (word W (t - 8))) (word W (t - 14))) (word W (t - 16)))
}.
Lemma schedule_is b : bytes b -> is_schedule b (schedule 64 (be_words 16 b)).
Proof.
  intros Hb. split.
  - intros t. apply word_w32, schedule_w32; [by apply be_words_w32 | by rewrite be_words_length].
  - intros t Ht. apply schedule_prefix. by rewrite be_words_length.
  - intros t Ht. apply schedule_rec; rewrite be_words_length; lia.
Qed.

Section Block.
Context (b : list Z) (Hb : bytes b) (W : list Z) (HW : is_schedule b W).

(** The window before round [i]: the last 16 words of the schedule, and those to come as they were loaded. *)
Definition win_ok (i : nat) (l : list Z) : Prop :=
  length l = 16%nat ∧ (∀ t, (i <= t + 16 -> t < i -> word l (t mod 16) = word W t)%nat) ∧ (∀ j, (i <= j < 16)%nat -> word l j = word (words 16 b) j).
Lemma win_start : win_ok 0 (words 16 b).
Proof. split; [apply words_length|]. split; [lia | done]. Qed.
Lemma land_15 i : Nat.land i 15 = (i mod 16)%nat.
Proof. change 15%nat with (Nat.ones 4). by rewrite Nat.land_ones. Qed.
Lemma mod16_inj t i : (t < i)%nat -> (i < t + 16)%nat -> (t mod 16 <> i mod 16)%nat.
Proof. intros H1 H2 E. pose proof (Nat.div_mod_eq t 16). pose proof (Nat.div_mod_eq i 16). lia. Qed.
Lemma blk0_ok i l : (i < 16)%nat -> win_ok i l -> win_ok (S i) (blk0 i l) ∧ word (blk0 i l) i = word W i.
Proof.
  intros Hi (Hl & Hw & Hr). unfold blk0. rewrite (Hr i) by lia. rewrite (words_at 16 b i Hb Hi).
  rewrite <- (W_first b W HW) by done.
  split; [split_and!|].
  - by rewrite length_insert.
  - intros t H1 H2. rewrite word_insert by lia. rewrite (Nat.mod_small t) by lia. case_decide as Hd; [by subst|]. specialize (Hw t). rewrite Nat.mod_small in Hw by lia. apply Hw; lia.
  - intros j Hj. rewrite word_insert, decide_False by lia. apply Hr. lia.
  - by rewrite word_insert, decide_True by lia.
Qed.
Lemma blk_ok i l : (16 <= i < 80)%nat -> win_ok i l -> win_ok (S i) (blk i l) ∧ word (blk i l) (mod16 i) = word W i.
Proof.
  intros Hi (Hl & Hw & _). unfold blk, mod16. rewrite !land_15. pose proof (Nat.mod_upper_bound i 16 ltac:(lia)).
  assert (Hold : ∀ k d, (k + d = 16)%nat -> (0 < d)%nat -> word l ((i + k) mod 16) = word W (i - d)).
  { intros k d Hk Hd. rewrite <- Hw by lia. f_equal. replace (i + k)%nat with (i - d + 1 * 16)%nat by lia. by rewrite Nat.Div0.mod_add. }
  rewrite (Hold 13%nat 3%nat), (Hold 8%nat 8%nat), (Hold 2%nat 14%nat), (Hold 0%nat 16%nat) by lia.
  rewrite rol_ROTL; [|by repeat apply lxor_w32; apply (W_w32 b W HW)|lia]. rewrite <- (W_rec b W HW) by done.
  split; [split_and!|].
  - by rewrite length_insert.
  - intros t H1 H2. rewrite word_insert by lia. case_decide as Hd.
    + f_equal. destruct (decide (t = i)) as [->|]; [done|]. destruct (mod16_inj t i); [lia | lia | done].
    + apply Hw; [|destruct (decide (t = i)) as [->|]; [done | lia]]. lia.
  - intros j Hj. lia.
  - by rewrite word_insert, decide_True by lia.
Qed.

(** The variables in their roles. *)
Definition roles (i : nat) (vs : list Z) : hash :=
  (word vs (role i 0), word vs (role i 1), word vs (role i 2), word vs (role i 3), word vs (role i 4)).
Definition vars_ok (vs : list Z) : Prop := length vs = 5%nat ∧ Forall w32 vs.
Lemma R_ok expand j f k i s : vars_ok (vars s) -> win_ok (S i) (expand i (window s)) -> word (expand i (window s)) (j i) = word W i ->
  (∀ x y z, f x y z = f_t i x y z) -> k = K_t i ->
  let s' := R expand j f k (role i 0) (role i 1) (role i 2) (role i 3) (role i 4) i s in
  vars_ok (vars s') ∧ win_ok (S i) (window s') ∧ roles (S i) (vars s') = step W (roles i (vars s)) i.
Proof.
  intros [Hl Hv] Hwin Hw Hf -> s'. unfold s', R. cbn [vars window]. rewrite Hw, Hf. assert (Hlt := role_lt i). assert (Hinj := role_inj i).
  assert (Hvw := word_w32 (vars s)). set (z' := u32 _).
  assert (Hz' : z' = (ROTL 5 (word (vars s) (role i 0)) + f_t i (word (vars s) (role i 1)) (word (vars s) (role i 2)) (word (vars s) (role i 3)) + word (vars s) (role i 4) + K_t i + word W i) mod 2 ^ 32).
  { unfold z', u32. rewrite rol_ROTL by (auto || lia). f_equal. lia. }
  split; [split|split; [done|]].
  - by rewrite !length_insert.
  - apply Forall_insert; [apply Forall_insert; [done|]|]; [apply u32_range|]. rewrite rol_ROTL by (auto || lia). apply ROTL_w32; [auto | lia].
  - unfold roles, step. rewrite role_first, !role_next by lia. rewrite !word_insert by (rewrite ?length_insert, Hl; done).
    rewrite rol_ROTL by (auto || lia).
    assert (Hne : ∀ r r', (r < 5)%nat -> (r' < 5)%nat -> r <> r' -> role i r <> role i r') by (intros r r' Hr Hr' Hd E; by apply Hd, Hinj).
    rewrite (decide_True (P := role i 1 = role i 1)), (decide_True (P := role i 4 = role i 4)) by done. rewrite !decide_False by (apply Hne; lia). by rewrite Hz'.
Qed.
Lemma round_ok i s : (i < 80)%nat -> vars_ok (vars s) -> win_ok i (window s) ->
  let s' := round_at i s in vars_ok (vars s') ∧ win_ok (S i) (window s') ∧ roles (S i) (vars s') = step W (roles i (vars s)) i.
Proof.
  intros Hi Hv Hwin. unfold round_at. destruct (Nat.ltb_spec i 16) as [H16|H16].
  - destruct (blk0_ok i _ H16 Hwin) as [H1 H2]. apply (R_ok blk0 (fun i => i) f_ch); try done; intros; unfold f_t, K_t; rewrite decide_True by lia; [apply f_ch_spec | done].
  - destruct (blk_ok i _ ltac:(lia) Hwin) as [H1 H2].
    destruct (Nat.ltb_spec i 20); [|destruct (Nat.ltb_spec i 40); [|destruct (Nat.ltb_spec i 60)]]; apply (R_ok blk mod16); try done; intros; unfold f_t, K_t, f_xor;
      repeat first [rewrite decide_True by lia | rewrite decide_False by lia]; done || apply f_ch_spec || apply f_maj_spec.
Qed.
Lemma rounds_ok n s : (n <= 80)%nat -> vars_ok (vars s) -> win_ok 0 (window s) ->
  let s' := foldl (fun s r => r s) s (round_at <$> seq 0 n) in
  vars_ok (vars s') ∧ win_ok n (window s') ∧ roles n (vars s') = foldl (step W) (roles 0 (vars s)) (seq 0 n).
Proof.
  intros Hn Hv Hw. induction n as [|n IH]; [done|]. destruct (IH ltac:(lia)) as (H1 & H2 & H3). cbv zeta in *.
  rewrite seq_S, fmap_app, !foldl_app. cbn [Nat.add fmap list_fmap foldl]. rewrite <- H3. apply round_ok; [lia | done | done].
Qed.
End Block.
Lemma transform_ok b h : bytes b -> Forall w32 (hash_list h) -> SHA1Transform (hash_list h) b = hash_list (compress h b) ∧ Forall w32 (hash_list (compress h b)).
Proof.
  intros Hb Hh. unfold SHA1Transform, compress. rewrite rounds_at. destruct h as [[[[x0 x1] x2] x3] x4].
  pose proof (schedule_is b Hb) as HW. set (W := schedule 64 (be_words 16 b)) in *. clearbody W.
  destruct (rounds_ok b Hb W HW 80 (RoundState (words 16 b) (hash_list (x0, x1, x2, x3, x4))) ltac:(lia)) as ([Hl Hv] & _ & E); [done | apply win_start |].
  cbv zeta in *. change (roles 0 (vars (RoundState (words 16 b) (hash_list (x0, x1, x2, x3, x4))))) with (x0, x1, x2, x3, x4) in E. rewrite <- E.
  set (s := foldl _ _ _) in *. clearbody s. clear E. destruct (vars s) as [|y0 [|y1 [|y2 [|y3 [|y4 [|]]]]]]; try done. cbn. split; [done|]. repeat constructor; try apply Z.mod_pos_bound; lia.
Qed.

(** ** The message in pieces *)
Lemma blocks_add a b M : blocks (a + b) M = blocks a M ++ blocks b (drop (64 * a) M).
Proof.
  revert M. induction a as [|a IH]; intros M; cbn [blocks Nat.add app]; [by rewrite Nat.mul_0_r, drop_0|]. rewrite IH, drop_drop. do 4 f_equal. lia.
Qed.
Lemma blocks_prefix a M X : (64 * a <= length M)%nat -> blocks a (M ++ X) = blocks a M.
Proof.
  revert M. induction a as [|a IH]; intros M Hl; cbn [blocks]; [done|]. rewrite drop_app_le by lia. rewrite IH by (rewrite length_drop; lia). f_equal.
  unfold slice. cbn [Z.to_nat]. rewrite !drop_0. apply take_app_le. lia.
Qed.
Lemma blocks_one M : blocks 1 M = [take 64 M].
Proof. done. Qed.
Definition whole (M : list Z) : hash := foldl compress H0 (blocks (length M / 64) M).

(** What the context knows of the message so far. *)
Record ctx_ok (M : list Z) (c : SHA1_CTX) : Prop := CtxOk {
  cx_bytes : bytes M;
  cx_buffer : length (buffer c) = 64%nat ∧ bytes (buffer c);
  cx_state : state c = hash_list (whole M) ∧ Forall w32 (state c);
  cx_rest : take (length M mod 64) (buffer c) = drop (64 * (length M / 64)) M;
  cx_count : count0 c = u32 (8 * zlen M) ∧ count1 c = u32 (8 * zlen M / 2 ^ 32)
}.
Lemma init_ok buf : length buf = 64%nat -> bytes buf -> ctx_ok [] (SHA1Init buf).
Proof. intros Hl Hb. split; try done. - by constructor. - split; [done|]. cbn. repeat constructor; lia. Qed.

Lemma loop_ok k fuel data i h : bytes data -> 0 <= i -> i + 64 * Z.of_nat k <= zlen data < i + 64 * Z.of_nat k + 64 -> (k <= fuel)%nat -> Forall w32 (hash_list h) ->
  update_loop fuel data i (zlen data) (hash_list h) = Some (i + 64 * Z.of_nat k, hash_list (foldl compress h (blocks k (drop (Z.to_nat i) data)))) ∧
  Forall w32 (hash_list (foldl compress h (blocks k (drop (Z.to_nat i) data)))).
Proof.
  intros Hd. revert fuel i h. induction k as [|k IH]; intros fuel i h Hi Hl Hf Hh.
  - assert (update_loop fuel data i (zlen data) (hash_list h) = Some (i, hash_list h)) as ->; [|by rewrite Z.add_0_r].
    destruct fuel; cbn [update_loop]; by rewrite (proj2 (Z.ltb_ge _ _)) by lia.
  - destruct fuel as [|fuel]; [lia|]. cbn [update_loop blocks foldl]. rewrite (proj2 (Z.ltb_lt _ _)) by lia.
    assert (Hs : slice i 64 data = slice 0 64 (drop (Z.to_nat i) data)) by done.
    destruct (transform_ok (slice i 64 data) h) as [-> H2]; [by apply Forall_take, Forall_drop | done |].
    destruct (IH fuel (i + 64) (compress h (slice i 64 data))) as [-> H4]; [lia | lia | lia | done |].
    rewrite <- Hs, drop_drop. replace (Z.to_nat i + 64)%nat with (Z.to_nat (i + 64)) by lia. split; [|done]. do 2 f_equal. lia.
Qed.
Lemma count_ok n len : 0 <= n -> 0 <= len < 2 ^ 29 ->
  u32 (u32 (8 * n) + u32 (Z.shiftl len 3)) = u32 (8 * (n + len)) ∧
  (if u32 (u32 (8 * n) + u32 (Z.shiftl len 3)) <? u32 (8 * n) then u32 (u32 (8 * n / 2 ^ 32) + (Z.shiftr len 29 + 1)) else u32 (8 * n / 2 ^ 32)) = u32 (8 * (n + len) / 2 ^ 32) ∧
  Z.land (Z.shiftr (u32 (8 * n)) 3) 63 = n mod 64.
Proof.
  intros Hn Hl. rewrite Z.shiftl_mul_pow2, Z.shiftr_div_pow2, (Z.div_small len) by lia. change (2 ^ 3) with 8. rewrite (u32_small (len * 8)) by lia. unfold u32.
  pose proof (Z.div_mod (8 * n) (2 ^ 32) ltac:(lia)) as Hdm. pose proof (Z.mod_pos_bound (8 * n) (2 ^ 32) ltac:(lia)). set (q := 8 * n / 2 ^ 32) in *. set (r := (8 * n) mod 2 ^ 32) in *.
  split; [|split].
  - unfold r. rewrite Zplus_mod_idemp_l. f_equal. lia.
  - destruct (Z.lt_ge_cases (r + len * 8) (2 ^ 32)) as [Hlt|Hge].
    + rewrite (Z.mod_small (r + _)) by lia. rewrite (proj2 (Z.ltb_ge _ _)) by lia. f_equal. apply (Z.div_unique _ _ q (r + len * 8)); lia.
    + assert ((r + len * 8) mod 2 ^ 32 = r + len * 8 - 2 ^ 32) as -> by (symmetry; apply (Z.mod_unique _ _ 1); lia).
      rewrite (proj2 (Z.ltb_lt _ _)) by lia. rewrite Zplus_mod_idemp_l. f_equal. apply (Z.div_unique _ _ (q + 1) (r + len * 8 - 2 ^ 32)); lia.
  - rewrite Z.shiftr_div_pow2 by lia. change 63 with (Z.ones 6). rewrite Z.land_ones by lia. change (2 ^ 6) with 64.
    pose proof (Z.div_mod r (2 ^ 3) ltac:(lia)). pose proof (Z.mod_pos_bound r (2 ^ 3) ltac:(lia)). assert (r mod 2 ^ 3 = 0) by (assert (r = 8 * (n - q * 2 ^ 29)) as -> by lia; change (2 ^ 3) with 8; rewrite Z.mul_comm; apply Z.mod_mul; lia).
    assert (r / 2 ^ 3 = n + (- q * 2 ^ 23) * 64) as -> by lia. apply Z.mod_add. lia.
Qed.
Lemma bytes_overlay o (d l : list Z) : bytes d -> bytes l -> bytes (overlay o d l).
Proof. intros Hd Hl. unfold overlay. apply Forall_app. split; [by apply Forall_take|]. apply Forall_app. split; [done | by apply Forall_drop]. Qed.
Lemma overlay_front j (d l : list Z) : (Z.to_nat j <= length l)%nat -> take (Z.to_nat j + length d) (overlay j d l) = take (Z.to_nat j) l ++ d.
Proof.
  intros Hj. unfold overlay. rewrite app_assoc. rewrite take_app_le by (rewrite length_app, length_take; lia). apply take_ge. rewrite length_app, length_take. lia.
Qed.
(** [M] has [q] whole blocks and [j] bytes more. *)
Section Update.
Context (M : list Z) (c : SHA1_CTX) (data : list Z) (q j : nat).
Context (Hc : ctx_ok M c) (Hd : bytes data) (Hjq : length M = (64 * q + j)%nat) (Hj : (j < 64)%nat).

Lemma split_here : (length M / 64)%nat = q ∧ (length M mod 64)%nat = j.
Proof. split; symmetry; [apply (Nat.div_unique _ _ _ j) | apply (Nat.mod_unique _ _ q)]; lia. Qed.
Lemma rest_here : take j (buffer c) = drop (64 * q) M.
Proof. destruct split_here as [E1 E2]. pose proof (cx_rest _ _ Hc) as Hr. by rewrite E1, E2 in Hr. Qed.
(** The data goes behind the rest. *)
Lemma overlay_rest d : bytes d -> (j + length d <= 64)%nat ->
  let buf := overlay (Z.of_nat j) d (buffer c) in
  length buf = 64%nat ∧ bytes buf ∧ take (j + length d) buf = drop (64 * q) (M ++ d).
Proof.
  intros Hdb Hl buf. destruct (cx_buffer _ _ Hc) as [Hbl Hbb]. split; [|split; [by apply bytes_overlay|]].
  - apply Nat2Z.inj. change (zlen buf = 64). unfold buf. rewrite overlay_len; unfold zlen; lia.
  - rewrite drop_app_le by lia. rewrite <- rest_here. pose proof (overlay_front (Z.of_nat j) d (buffer c)) as E. rewrite Nat2Z.id in E. apply E. lia.
Qed.
(** Nothing but the buffer changes. *)
Lemma update_small fuel : (j + length data < 64)%nat -> zlen data < 2 ^ 29 -> ∃ c', SHA1Update fuel data c = Some c' ∧ ctx_ok (M ++ data) c'.
Proof.
  intros Hsmall Hlen. destruct Hc as [HM [Hbl Hbb] [Hst Hw] Hr [Hc0 Hc1]]. destruct split_here as [Eq Ej].
  destruct (count_ok (zlen M) (zlen data)) as (E0 & E1 & E2); [apply zlen_nonneg | pose proof (zlen_nonneg data); lia |].
  assert (Hmod : zlen M mod 64 = Z.of_nat j) by (unfold zlen; by rewrite <- (Nat2Z.inj_mod _ 64), Ej).
  unfold SHA1Update. cbv zeta. rewrite Hc0, Hc1, E1, E0, E2, Hmod. rewrite (proj2 (Z.ltb_ge _ _)) by (unfold zlen; lia). cbn [mbind option_bind]. rewrite Z.sub_0_r, slice_all.
  destruct (overlay_rest data Hd) as (B1 & B2 & B3); [lia|].
  assert (HqM : (length (M ++ data) / 64 = q)%nat) by (symmetry; apply (Nat.div_unique _ _ _ (j + length data)); rewrite ?length_app; lia).
  eexists. split; [done|]. split; cbn [state buffer count0 count1]; [by apply Forall_app | done | | | by rewrite zlen_app].
  - unfold whole. rewrite HqM, blocks_prefix by lia. rewrite <- Eq. exact (conj Hst Hw).
  - rewrite HqM, <- B3. f_equal. symmetry. apply (Nat.mod_unique _ _ q); rewrite ?length_app; lia.
Qed.
(** The rest is filled up with [a] bytes, and [k] blocks follow. *)
Lemma whole_big a k : (j + a = 64)%nat -> (a + 64 * k <= length data < a + 64 * k + 64)%nat ->
  (length (M ++ data) / 64 = q + (1 + k))%nat ∧ (length (M ++ data) mod 64 = length data - (a + 64 * k))%nat ∧
  whole (M ++ data) = foldl compress (compress (whole M) (drop (64 * q) (M ++ take a data))) (blocks k (drop a data)).
Proof.
  intros Ha Hk. assert (HqM : (length (M ++ data) / 64 = q + (1 + k))%nat) by (symmetry; apply (Nat.div_unique _ _ _ (length data - (a + 64 * k))); rewrite ?length_app; lia).
  split; [done|]. split; [symmetry; apply (Nat.mod_unique _ _ (q + (1 + k))); rewrite ?length_app; lia|].
  unfold whole. destruct split_here as [-> _]. rewrite HqM, blocks_add, blocks_prefix, foldl_app by lia. rewrite blocks_add, foldl_app, blocks_one, drop_drop. cbn [foldl]. f_equal; [f_equal|f_equal].
  - rewrite !drop_app_le by lia. rewrite take_app_ge by (rewrite length_drop; lia). do 2 f_equal. rewrite length_drop. lia.
  - rewrite drop_app_ge by lia. f_equal. lia.
Qed.
Lemma update_big fuel : (64 <= j + length data)%nat -> zlen data < 2 ^ 29 -> (length data <= fuel)%nat -> ∃ c', SHA1Update fuel data c = Some c' ∧ ctx_ok (M ++ data) c'.
Proof.
  intros Hbig Hlen Hf. destruct Hc as [HM [Hbl Hbb] [Hst Hw] Hr [Hc0 Hc1]]. destruct split_here as [Eq Ej].
  destruct (count_ok (zlen M) (zlen data)) as (E0 & E1 & E2); [apply zlen_nonneg | pose proof (zlen_nonneg data); lia |].
  assert (Hmod : zlen M mod 64 = Z.of_nat j) by (unfold zlen; by rewrite <- (Nat2Z.inj_mod _ 64), Ej).
  unfold SHA1Update. cbv zeta. rewrite Hc0, Hc1, E1, E0, E2, Hmod, Hst. rewrite (proj2 (Z.ltb_lt _ _)) by (unfold zlen; lia).
  set (a := (64 - j)%nat). assert (64 - Z.of_nat j = Z.of_nat a) as -> by lia. assert (slice 0 (Z.of_nat a) data = take a data) as -> by (unfold slice; cbn [Z.to_nat]; by rewrite drop_0, Nat2Z.id).
  set (k := ((length data - a) / 64)%nat). pose proof (Nat.div_mod_eq (length data - a) 64) as Hk. pose proof (Nat.mod_upper_bound (length data - a) 64 ltac:(lia)). fold k in Hk.
  destruct (overlay_rest (take a data)) as (B1 & B2 & B3); [by apply Forall_take | rewrite length_take; lia |]. set (buf := overlay _ _ (buffer c)) in *.
  rewrite take_ge in B3 by (rewrite length_take; lia). assert (Hw1 : Forall w32 (hash_list (whole M))) by by rewrite <- Hst.
  destruct (transform_ok buf (whole M) B2 Hw1) as [-> Hw2]. destruct (whole_big a k) as (HqM & HjM & Hwhole); [lia | lia |].
  destruct (loop_ok k fuel data (Z.of_nat a) (compress (whole M) buf) Hd) as [-> Hw3]; [lia | unfold zlen in *; lia | lia | done |]. cbn [mbind option_bind]. rewrite Nat2Z.id in *.
  set (rest := slice _ _ data). assert (Hrest : rest = drop (a + 64 * k) data).
  { unfold rest, slice. replace (Z.to_nat (Z.of_nat a + 64 * Z.of_nat k)) with (a + 64 * k)%nat by lia. apply take_ge. rewrite length_drop. unfold zlen. lia. }
  assert (Hrl : length rest = (length data - (a + 64 * k))%nat) by (by rewrite Hrest, length_drop).
  eexists. split; [done|]. split; cbn [state buffer count0 count1]; [by apply Forall_app | | | | by rewrite zlen_app].
  - split; [|apply bytes_overlay; [rewrite Hrest; by apply Forall_drop | done]]. apply Nat2Z.inj. change (zlen (overlay 0 rest buf) = 64). rewrite overlay_len; unfold zlen; lia.
  - rewrite Hwhole, <- B3. done.
  - rewrite HqM, HjM. rewrite drop_app_ge by lia. replace (64 * (q + (1 + k)) - length M)%nat with (a + 64 * k)%nat by lia. rewrite <- Hrest, <- Hrl.
    exact (overlay_front 0 rest buf ltac:(lia)).
Qed.
End Update.
Lemma update_ok M c data fuel : ctx_ok M c -> bytes data -> zlen data < 2 ^ 29 -> (length data <= fuel)%nat ->
  ∃ c', SHA1Update fuel data c = Some c' ∧ ctx_ok (M ++ data) c'.
Proof.
  intros Hc Hd Hlen Hf. pose proof (Nat.div_mod_eq (length M) 64) as Hdm. pose proof (Nat.mod_upper_bound (length M) 64 ltac:(lia)) as Hj.
  destruct (Nat.le_gt_cases 64 (length M mod 64 + length data)); [by eapply update_big | by eapply update_small].
Qed.

(** ** The end of the message *)
Lemma count_bits n : 0 <= n -> Z.land (u32 (8 * n)) 504 = 8 * (n mod 64).
Proof.
  intros Hn. assert (E : u32 (8 * n) = (n mod 2 ^ 29) * 2 ^ 3 + 0).
  { unfold u32. pose proof (Z.div_mod n (2 ^ 29) ltac:(lia)). pose proof (Z.mod_pos_bound n (2 ^ 29) ltac:(lia)). symmetry. apply (Z.mod_unique _ _ (n / 2 ^ 29)); lia. }
  rewrite E. change 504 with (63 * 2 ^ 3 + 0). rewrite land_split by lia. change 63 with (Z.ones 6). rewrite Z.land_ones by lia.
  assert ((n mod 2 ^ 29) mod 2 ^ 6 = n mod 64) as ->; [|rewrite Z.land_0_l; lia]. pose proof (Z.div_mod n (2 ^ 29) ltac:(lia)).
  replace (n mod 2 ^ 29) with (n + (- (n / 2 ^ 29) * 2 ^ 23) * 2 ^ 6) by lia. apply Z.mod_add. lia.
Qed.
Lemma pad_ok k M c fuel : ctx_ok M c -> (k < 64)%nat -> ((length M + k) mod 64 = 56)%nat -> (k <= fuel)%nat ->
  ∃ c', pad_loop fuel c = Some c' ∧ ctx_ok (M ++ replicate k 0) c'.
Proof.
  revert M c fuel. induction k as [|k IH]; intros M c fuel Hc Hk Hm Hf.
  - exists c. cbn [replicate]. rewrite app_nil_r. split; [|done]. rewrite Nat.add_0_r in Hm.
    assert (E : (Z.land (count0 c) 504 =? 448) = true); [|destruct fuel; cbn [pad_loop]; by rewrite E].
    apply Z.eqb_eq. rewrite (proj1 (cx_count _ _ Hc)), count_bits by apply zlen_nonneg. unfold zlen. rewrite <- (Nat2Z.inj_mod _ 64), Hm. done.
  - destruct fuel as [|fuel]; [lia|]. cbn [pad_loop]. rewrite (proj1 (cx_count _ _ Hc)), count_bits by apply zlen_nonneg. unfold zlen. rewrite <- (Nat2Z.inj_mod _ 64).
    rewrite (proj2 (Z.eqb_neq _ _)).
    + cbn [negb]. destruct (update_ok M c [0] 1 Hc) as (c1 & -> & H1); [by repeat constructor | done | cbn; lia |]. cbn [mbind option_bind].
      destruct (IH (M ++ [0]) c1 fuel H1) as (c2 & E & H2); [lia | rewrite length_app; cbn; by rewrite <- Nat.add_assoc | lia |].
      exists c2. split; [done|]. by rewrite <- app_assoc in H2.
    + intros E. assert (length M mod 64 = 56)%nat by lia. pose proof (Nat.div_mod_eq (length M) 64). pose proof (Nat.div_mod_eq (length M + S k) 64). lia.
Qed.
Lemma mod_byte x a : 0 <= a <= 24 -> (x mod 2 ^ 32) / 2 ^ a mod 256 = x / 2 ^ a mod 256.
Proof.
  intros Ha. assert (Hp : 2 ^ 32 = 2 ^ (24 - a) * 2 ^ 8 * 2 ^ a) by (rewrite <- !Z.pow_add_r by lia; f_equal; lia).
  assert (E : x = x mod 2 ^ 32 + (x / 2 ^ 32 * 2 ^ (24 - a) * 2 ^ 8) * 2 ^ a) by (replace (x / 2 ^ 32 * 2 ^ (24 - a) * 2 ^ 8 * 2 ^ a) with (x / 2 ^ 32 * (2 ^ (24 - a) * 2 ^ 8 * 2 ^ a)) by ring; rewrite <- Hp; pose proof (Z.div_mod x (2 ^ 32) ltac:(lia)); lia).
  rewrite E at 2. rewrite Z.div_add by (apply Z.pow_nonzero; lia). change 256 with (2 ^ 8). by rewrite Z.mod_add.
Qed.
Lemma be_bytes_div w : be_bytes w = (fun k => w / 2 ^ (8 * (3 - k)) mod 256) <$> [0; 1; 2; 3].
Proof. unfold be_bytes. cbn [fmap list_fmap]. change 255 with (Z.ones 8). rewrite !Z.land_ones by lia. by rewrite !Z.shiftr_div_pow2 by lia. Qed.
Lemma be_bytes_bytes w : bytes (be_bytes w).
Proof. rewrite be_bytes_div. unfold bytes. cbn [fmap list_fmap]. repeat (apply Forall_cons_2; [apply Z.mod_pos_bound; lia|]). apply Forall_nil_2. Qed.
Lemma count_be64 v : 0 <= v -> be_bytes (u32 (v / 2 ^ 32)) ++ be_bytes (u32 v) = be64 v.
Proof.
  intros Hv. rewrite !be_bytes_div. unfold be64, u32. change (seqZ 0 8) with [0; 1; 2; 3; 4; 5; 6; 7]. cbn [fmap list_fmap app]. rewrite !mod_byte by lia.
  rewrite !Z.div_div by lia. done.
Qed.

Lemma final_ok M c : ctx_ok M c -> SHA1Final c = Some (sha1 M).
Proof.
  intros Hc. unfold SHA1Final. destruct (cx_count _ _ Hc) as [-> ->]. pose proof (zlen_nonneg M) as HM. rewrite count_be64 by lia.
  assert (Hb64 : bytes (be64 (8 * zlen M))) by (rewrite <- count_be64 by lia; apply Forall_app; split; apply be_bytes_bytes).
  destruct (update_ok M c [128] 1 Hc) as (c1 & -> & H1); [by repeat constructor | done | cbn; lia |]. cbn [mbind option_bind].
  set (k := Z.to_nat ((55 - zlen M) mod 64)). pose proof (Z.mod_pos_bound (55 - zlen M) 64 ltac:(lia)) as Hkr.
  assert (Hk : ((length (M ++ [128%Z]) + k) mod 64 = 56)%nat).
  { apply Nat2Z.inj. rewrite Nat2Z.inj_mod, length_app. unfold k. cbn [length]. pose proof (Z.div_mod (55 - zlen M) 64 ltac:(lia)). unfold zlen in *. symmetry. apply (Z.mod_unique _ _ (- ((55 - Z.of_nat (length M)) / 64))); lia. }
  destruct (pad_ok k (M ++ [128]) c1 64 H1) as (c2 & -> & Hc2); [lia | done | lia |]. cbn [mbind option_bind].
  destruct (update_ok _ c2 (be64 (8 * zlen M)) 8 Hc2 Hb64) as (c3 & -> & Hc3); [done | done |]. cbn [mbind option_bind].
  replace ((M ++ [128]) ++ replicate k 0) with (M ++ [128] ++ zeros ((55 - zlen M) mod 64)) in Hc3 by (by rewrite <- app_assoc). rewrite <- !app_assoc in Hc3. fold (pad M) in Hc3.
  rewrite (proj1 (cx_state _ _ Hc3)). unfold sha1, whole. do 2 f_equal. apply list_fmap_ext. intros i w _. apply be_bytes_div.
Qed.
Fixpoint update_all (ds : list (list Z)) (c : SHA1_CTX) : option SHA1_CTX :=
  match ds with [] => Some c | d :: ds => c ← SHA1Update (length d) d c; update_all ds c end.

(** C16. The hash is SHA-1.  However a message is cut into pieces, each of less than 2^29 bytes,
    and whatever the buffer of the context held before, [SHA1Init], one [SHA1Update] for
    each piece and [SHA1Final] give the hash of FIPS 180 of the whole message: the 80
    unrolled rounds on a window of 16 words are the 80 steps on a schedule of 80 words. *)
Theorem sha1_reference buf ds : length buf = 64%nat -> bytes buf -> Forall (fun d => bytes d ∧ zlen d < 2 ^ 29) ds ->
  (c ← update_all ds (SHA1Init buf); SHA1Final c) = Some (sha1 (concat ds)).
Proof.
  intros Hl Hb Hds. change (concat ds) with ([] ++ concat ds). pose proof (init_ok buf Hl Hb) as Hc. revert Hc. generalize (SHA1Init buf) as c. generalize (@nil Z) as M.
  induction Hds as [|d ds [Hd Hlen] Hds IH]; intros M c Hc; cbn [update_all concat].
  - rewrite app_nil_r. by apply final_ok.
  - destruct (update_ok M c d (length d) Hc Hd Hlen ltac:(lia)) as (c1 & -> & H1). cbn [mbind option_bind]. rewrite app_assoc. by apply IH.
Qed.
Lemma sha1_reference_witness : (c ← update_all [[97]; [98; 99]] (SHA1Init (replicate 64 7)); SHA1Final c) = Some (sha1 [97; 98; 99]).
Proof. apply (sha1_reference (replicate 64 7) [[97]; [98; 99]]); [done | by apply Forall_replicate | by repeat (constructor; try done)]. Defined.
