(* ===== verification/Alloc.v ===== *)
(** * Block and inode allocation of the image maker ([ext4_utils/allocate.c])

    A file system is a row of block groups, each with a bitmap of its blocks and one of its
    inodes.  Blocks are taken from the front of a group; an allocation is a linked list of
    regions, one for each group it takes blocks from, with a position for going through it.
    The regions are a store with [next] and [prev] pointers; what the allocator queues to be
    written is kept in the order it is queued.  [error] leaves the program ([force] is 0):
    [None], as is a use of a null pointer, of a freed region, or of memory outside a bitmap. *)
From stdpp Require Import base gmap list.
From Stdlib Require Import ZArith Lia.
From S2P Require Import Prelude Backed.
#[local] Open Scope Z_scope.

(** ** The parameters ([info] and [aux_info]) *)
Record geom := Geom {
  blk_size : Z; blocks_per_group : Z; inodes_per_group : Z; inode_size : Z; bg_desc_reserve_blocks : Z; sparse_super : bool;
  first_data_block : Z; len_blocks : Z; inode_table_blocks : Z; groups : Z; bg_desc_blocks : Z
}.

(** [while (a > b)] of [is_power_of]. *)
Fixpoint power_loop (fuel : nat) (a b : Z) : option bool :=
  if b <? a then
    match fuel with
    | O => None
    | S fuel => if negb (a mod b =? 0) then Some false else power_loop fuel (a / b) b
    end
  else Some (a =? b).
Definition is_power_of (a b : Z) : option bool := power_loop (Z.to_nat a) a b.
Definition ext4_bg_has_super_block (g : geom) (bg : Z) : option bool :=
  if negb (sparse_super g) then Some true else
  if (bg =? 0) || (bg =? 1) then Some true else
  p3 ← is_power_of bg 3; p5 ← is_power_of bg 5; p7 ← is_power_of bg 7;
  Some (p3 || p5 || p7).

(** What [ext4_create_fs_aux_info] computes from the rest. *)
Definition create_fs_aux_info (bs bpg ipg isize reserve len : Z) (sparse : bool) : option geom :=
  let first := if 1024 <? bs then 0 else 1 in
  let len_blocks := len / bs in
  let itable := DIV_ROUND_UP (u32 (ipg * isize)) bs in
  let groups := u32 ((len_blocks - first + bpg - 1) / bpg) in
  let desc := u32 ((groups * 32 + bs - 1) / bs) in
  let g := Geom bs bpg ipg isize reserve sparse first len_blocks itable groups desc in
  let last_group_size := u32 (len_blocks mod bpg) in
  sup ← ext4_bg_has_super_block g (s32 (u32 (groups - 1)));
  let last_header_size := u32 (2 + itable + if (sup : bool) then 1 + desc + reserve else 0) in
  if (0 <? last_group_size) && (last_group_size <? last_header_size) then
    Some (Geom bs bpg ipg isize reserve sparse first (len_blocks - last_group_size) itable (u32 (groups - 1)) desc)
  else Some g.

(** ** The state *)
Record block_group_info := BlockGroup {
  first_block : Z; header_blocks : Z; data_blocks_used : Z; has_superblock : bool;
  block_bitmap : list Z; inode_bitmap : list Z; inode_table : option Z;
  free_blocks : Z; first_free_block : Z; free_inodes : Z; first_free_inode : Z; used_dirs : Z
}.
Record region := Region { r_block : Z; r_len : Z; r_bg : Z; r_next : option nat; r_prev : option nat }.
(** [queued_ds] is what was queued, [brk] the end of the memory handed out. *)
Record fsys := Fsys { bgs : list block_group_info; regs : gmap nat region; fresh : nat; queued_ds : list data_block; brk : Z }.

Definition set_bgs (l : list block_group_info) (s : fsys) : fsys := Fsys l (regs s) (fresh s) (queued_ds s) (brk s).
Definition set_regs (r : gmap nat region) (s : fsys) : fsys := Fsys (bgs s) r (fresh s) (queued_ds s) (brk s).
Definition bg_at (s : fsys) (i : Z) : option block_group_info := if i <? 0 then None else bgs s !! Z.to_nat i.
Definition put_bg (i : Z) (bg : block_group_info) (s : fsys) : fsys := set_bgs (<[Z.to_nat i := bg]> (bgs s)) s.
Definition queue_block (d : data_block) (s : fsys) : fsys := Fsys (bgs s) (regs s) (fresh s) (queued_ds s ++ [d]) (brk s).
Definition q_data (data len block : Z) : fsys -> fsys := queue_block (DataBlock block len data None 0 0 false None).
Definition q_fill (v len block : Z) : fsys -> fsys := queue_block (DataBlock block len 0 None 0 v true None).
Definition q_file (f : nat) (offset len block : Z) : fsys -> fsys := queue_block (DataBlock block len 0 (Some f) offset 0 false None).
Definition calloc (n : Z) (s : fsys) : Z * fsys := (brk s, Fsys (bgs s) (regs s) (fresh s) (queued_ds s) (brk s + n)).
Definition new_region (r : region) (s : fsys) : nat * fsys :=
  (fresh s, Fsys (bgs s) (<[fresh s := r]> (regs s)) (S (fresh s)) (queued_ds s) (brk s)).

Definition EXT4_ALLOCATE_FAILED : Z := 2 ^ 32 - 1.

(** ** Bitmaps *)
Definition bitmap_set_bit (bitmap : list Z) (bit : Z) : option (list Z * bool) :=
  b ← bitmap !! Z.to_nat (bit / 8);
  if Z.testbit b (bit mod 8) then Some (bitmap, true)
  else Some (<[Z.to_nat (bit / 8) := Z.lor b (Z.shiftl 1 (bit mod 8))]> bitmap, false).
Definition bitmap_set_8_bits (bitmap : list Z) (bit : Z) : option (list Z * Z) :=
  b ← bitmap !! Z.to_nat (bit / 8);
  Some (<[Z.to_nat (bit / 8) := 0xFF]> bitmap, b).

(** The three loops of [reserve_blocks]. *)
Fixpoint lead_loop (fuel : nat) (bm : list Z) (i num block : Z) : option (list Z * Z * Z) :=
  if (i <? num) && negb (block mod 8 =? 0) then
    match fuel with
    | O => None
    | S fuel =>
        '(bm, was) ← bitmap_set_bit bm block;
        if was : bool then None else lead_loop fuel bm (i + 1) num (u32 (block + 1))
    end
  else Some (bm, i, block).
Fixpoint byte_loop (fuel : nat) (bm : list Z) (i num block : Z) : option (list Z * Z * Z) :=
  if u32 (i + 8) <=? Z.land num (Z.lnot 7) then
    match fuel with
    | O => None
    | S fuel =>
        '(bm, was) ← bitmap_set_8_bits bm block;
        if negb (was =? 0) then None else byte_loop fuel bm (u32 (i + 8)) num (u32 (block + 8))
    end
  else Some (bm, i, block).
Fixpoint tail_loop (fuel : nat) (bm : list Z) (i num block : Z) : option (list Z) :=
  if i <? num then
    match fuel with
    | O => None
    | S fuel =>
        '(bm, was) ← bitmap_set_bit bm block;
        if was : bool then None else tail_loop fuel bm (i + 1) num (u32 (block + 1))
    end
  else Some bm.
Definition set_blocks (bm : list Z) (start num : Z) : option (list Z) :=
  let fuel := Z.to_nat num in
  '(bm, i, block) ← lead_loop fuel bm 0 num start;
  '(bm, i, block) ← byte_loop fuel bm i num block;
  tail_loop fuel bm i num block.

Definition with_blocks (bm : list Z) (free first : Z) (bg : block_group_info) : block_group_info :=
  BlockGroup (first_block bg) (header_blocks bg) (data_blocks_used bg) (has_superblock bg) bm (inode_bitmap bg)
    (inode_table bg) free first (free_inodes bg) (first_free_inode bg) (used_dirs bg).
(** The result is 0 or -1. *)
Definition reserve_blocks (bg : block_group_info) (start num : Z) : option (Z * block_group_info) :=
  if free_blocks bg <? num then Some (-1, bg) else
  bm ← set_blocks (block_bitmap bg) start num;
  Some (0, with_blocks bm (u32 (free_blocks bg - num))
             (if start =? first_free_block bg then u32 (start + num) else first_free_block bg) bg).

Fixpoint clear_bits (n : nat) (bm : list Z) (block : Z) : option (list Z) :=
  match n with
  | O => Some bm
  | S n =>
      b ← bm !! Z.to_nat (block / 8);
      clear_bits n (<[Z.to_nat (block / 8) := Z.land b (Z.lnot (Z.shiftl 1 (block mod 8)))]> bm) (u32 (block - 1))
  end.
(** [free_blocks] of the source. *)
Definition free_last_blocks (bg : block_group_info) (num_blocks : Z) : option block_group_info :=
  bm ← clear_bits (Z.to_nat num_blocks) (block_bitmap bg) (u32 (first_free_block bg - 1));
  Some (with_blocks bm (u32 (free_blocks bg + num_blocks)) (u32 (first_free_block bg - num_blocks)) bg).

(** ** Block groups *)
Section Groups.
Context (g : geom).

(** What the super block and the descriptors take in a group that has them. *)
Definition super_blocks : Z := u32 (1 + bg_desc_blocks g + bg_desc_reserve_blocks g).

Definition allocate_bg_inode_table (i : Z) (s : fsys) : option fsys :=
  bg ← bg_at s i;
  match inode_table bg with
  | Some _ => Some s
  | None =>
      let block := u32 (first_block bg + 2) in
      let block := if has_superblock bg then u32 (block + bg_desc_blocks g + bg_desc_reserve_blocks g + 1) else block in
      let '(p, s) := calloc (inode_table_blocks g * blk_size g) s in
      let bg := BlockGroup (first_block bg) (header_blocks bg) (data_blocks_used bg) (has_superblock bg) (block_bitmap bg)
                  (inode_bitmap bg) (Some p) (free_blocks bg) (first_free_block bg) (free_inodes bg) (first_free_inode bg) (used_dirs bg) in
      Some (q_data p (u32 (inode_table_blocks g * blk_size g)) block (put_bg i bg s))
  end.

(** The body of the loop of [init_unused_inode_tables], for the groups from [i] on. *)
Fixpoint init_unused_from (n : nat) (i : Z) (s : fsys) : option fsys :=
  match n with
  | O => Some s
  | S n =>
      bg ← bg_at s i;
      let s :=
        match inode_table bg with
        | Some _ => s
        | None =>
            let block := u32 (first_block bg + 2) in
            let block := if has_superblock bg then u32 (block + bg_desc_blocks g + bg_desc_reserve_blocks g + 1) else block in
            q_fill 0 (u32 (inode_table_blocks g * blk_size g)) block s
        end in
      init_unused_from n (i + 1) s
  end.
Definition init_unused_inode_tables (s : fsys) : option fsys := init_unused_from (Z.to_nat (groups g)) 0 s.

Definition init_bg (i : Z) (s : fsys) : option fsys :=
  sup ← ext4_bg_has_super_block g i;
  let header_blocks := 2 + inode_table_blocks g + if (sup : bool) then super_blocks else 0 in
  let '(bitmaps, s) := calloc (2 * blk_size g) s in
  let zeros := replicate (Z.to_nat (blk_size g)) 0 in
  let first := u32 (first_data_block g + i * blocks_per_group g) in
  let s := q_data bitmaps (u32 (2 * blk_size g)) (if sup : bool then u32 (first + super_blocks) else first) s in
  let bg := BlockGroup first header_blocks 0 sup zeros zeros None (blocks_per_group g) 0 (inodes_per_group g) 1 0 in
  '(ret, bg) ← reserve_blocks bg (first_free_block bg) (u32 header_blocks);
  if ret <? 0 then None else
  let overrun := u32 (u32 (first + blocks_per_group g) - len_blocks g) in
  '(_, bg) ← (if 0 <? overrun then reserve_blocks bg (u32 (blocks_per_group g - overrun)) overrun else Some (0, bg));
  Some (set_bgs (bgs s ++ [bg]) s).
Fixpoint init_from (n : nat) (i : Z) (s : fsys) : option fsys :=
  match n with O => Some s | S n => s ← init_bg i s; init_from n (i + 1) s end.
Definition block_allocator_init (s : fsys) : option fsys := init_from (Z.to_nat (groups g)) 0 s.

(** ** Allocation *)
Definition get_free_blocks (s : fsys) (i : Z) : option Z := bg ← bg_at s i; Some (free_blocks bg).
Definition set_used (n : Z) (bg : block_group_info) : block_group_info :=
  BlockGroup (first_block bg) (header_blocks bg) n (has_superblock bg) (block_bitmap bg) (inode_bitmap bg) (inode_table bg)
    (free_blocks bg) (first_free_block bg) (free_inodes bg) (first_free_inode bg) (used_dirs bg).
Definition ext4_allocate_blocks_from_block_group (len i : Z) (s : fsys) : option (Z * fsys) :=
  bg ← bg_at s i;
  if free_blocks bg <? len then Some (EXT4_ALLOCATE_FAILED, s) else
  let block := first_free_block bg in
  '(ret, bg) ← reserve_blocks bg (first_free_block bg) len;
  if ret <? 0 then None else
  Some (u32 (first_block bg + block), put_bg i (set_used (s32 (data_blocks_used bg + len)) bg) s).

(** The search through the groups from [i] on. *)
Fixpoint contiguous_from (n : nat) (i len : Z) (s : fsys) : option (option nat * fsys) :=
  match n with
  | O => Some (None, s)
  | S n =>
      '(block, s) ← ext4_allocate_blocks_from_block_group len i s;
      if negb (block =? EXT4_ALLOCATE_FAILED) then
        let '(reg, s) := new_region (Region block len i None None) s in Some (Some reg, s)
      else contiguous_from n (i + 1) len s
  end.
Definition ext4_allocate_contiguous_blocks (len : Z) (s : fsys) : option (option nat * fsys) :=
  contiguous_from (Z.to_nat (groups g)) 0 len s.

Fixpoint block_from (n : nat) (i : Z) (s : fsys) : option (Z * fsys) :=
  match n with
  | O => Some (EXT4_ALLOCATE_FAILED, s)
  | S n =>
      '(block, s) ← ext4_allocate_blocks_from_block_group 1 i s;
      if negb (block =? EXT4_ALLOCATE_FAILED) then Some (block, s) else block_from n (i + 1) s
  end.
Definition allocate_block (s : fsys) : option (Z * fsys) := block_from (Z.to_nat (groups g)) 0 s.

Fixpoint partial_from (n : nat) (i len : Z) (s : fsys) : option (option nat * fsys) :=
  match n with
  | O => Some (None, s)
  | S n =>
      bg ← bg_at s i;
      if data_blocks_used bg =? 0 then
        let bg_len := free_blocks bg in
        if len <=? bg_len then ext4_allocate_contiguous_blocks len s
        else
          '(block, s) ← ext4_allocate_blocks_from_block_group bg_len i s;
          if block =? EXT4_ALLOCATE_FAILED then None else
          let '(reg, s) := new_region (Region block bg_len i None None) s in Some (Some reg, s)
      else partial_from n (i + 1) len s
  end.
Definition ext4_allocate_partial (len : Z) (s : fsys) : option (option nat * fsys) :=
  partial_from (Z.to_nat (groups g)) 0 len s.

Definition set_next (n : option nat) (r : region) : region := Region (r_block r) (r_len r) (r_bg r) n (r_prev r).
Definition set_prev (p : option nat) (r : region) : region := Region (r_block r) (r_len r) (r_bg r) (r_next r) p.
Definition set_len (n : Z) (r : region) : region := Region (r_block r) n (r_bg r) (r_next r) (r_prev r).
(** A store through a pointer. *)
Definition upd_region (f : region -> region) (x : nat) (s : fsys) : option fsys :=
  r ← regs s !! x; Some (set_regs (<[x := f r]> (regs s)) s).

Fixpoint multiple_loop (fuel : nat) (first prev : option nat) (len : Z) (s : fsys) : option (option nat * fsys) :=
  if 0 <? len then
    match fuel with
    | O => None
    | S fuel =>
        '(reg, s) ← ext4_allocate_partial len s;
        match reg with
        | None => Some (None, s)
        | Some reg =>
            let first := match first with None => Some reg | Some _ => first end in
            s ← (match prev with
                 | None => Some s
                 | Some p => s ← upd_region (set_next (Some reg)) p s; upd_region (set_prev (Some p)) reg s
                 end);
            r ← regs s !! reg;
            multiple_loop fuel first (Some reg) (u32 (len - r_len r)) s
        end
    end
  else Some (first, s).
Definition ext4_allocate_multiple_contiguous_blocks (fuel : nat) (len : Z) (s : fsys) : option (option nat * fsys) :=
  multiple_loop fuel None None len s.

Definition do_allocate (fuel : nat) (len : Z) (s : fsys) : option (option nat * fsys) :=
  '(reg, s) ← ext4_allocate_contiguous_blocks len s;
  match reg with
  | None => ext4_allocate_multiple_contiguous_blocks fuel len s
  | Some _ => Some (reg, s)
  end.
End Groups.

(** ** Lists of regions *)
Record region_list := RegionList { rl_first : option nat; rl_last : option nat; rl_iter : option nat; rl_partial : Z }.
Record block_allocation := BlockAllocation { a_list : region_list; a_oob : region_list }.
Definition no_regions : region_list := RegionList None None None 0.
Definition create_allocation : block_allocation := BlockAllocation no_regions no_regions.

(** [NULL] for no blocks. *)
Definition allocate_blocks (g : geom) (fuel : nat) (len : Z) (s : fsys) : option (option block_allocation * fsys) :=
  '(reg, s) ← do_allocate g fuel len s;
  match reg with
  | None => Some (None, s)
  | Some _ => Some (Some (BlockAllocation (RegionList reg reg reg 0) no_regions), s)
  end.

Definition region_list_remove (l : region_list) (x : nat) (s : fsys) : option (region_list * fsys) :=
  r ← regs s !! x;
  s ← (match r_prev r with Some p => upd_region (set_next (r_next r)) p s | None => Some s end);
  s ← (match r_next r with Some n => upd_region (set_prev (r_prev r)) n s | None => Some s end);
  let l := RegionList (if bool_decide (rl_first l = Some x) then r_next r else rl_first l)
                      (if bool_decide (rl_last l = Some x) then r_prev r else rl_last l) (rl_iter l) (rl_partial l) in
  s ← upd_region (set_next None) x s;
  s ← upd_region (set_prev None) x s;
  Some (l, s).
Definition region_list_append (l : region_list) (x : nat) (s : fsys) : option (region_list * fsys) :=
  '(l, s) ← (match rl_first l with
             | None => s ← upd_region (set_prev None) x s; Some (RegionList (Some x) (Some x) (Some x) 0, s)
             | Some _ =>
                 last ← rl_last l;
                 s ← upd_region (set_next (Some x)) last s;
                 s ← upd_region (set_prev (Some last)) x s;
                 Some (RegionList (rl_first l) (Some x) (rl_iter l) (rl_partial l), s)
             end);
  s ← upd_region (set_next None) x s;
  Some (l, s).
(** [prev] of a new region is not set by the source, but by the append. *)
Definition append_region (a : block_allocation) (block len bg_num : Z) (s : fsys) : option (block_allocation * fsys) :=
  let '(x, s) := new_region (Region block len bg_num None None) s in
  '(l, s) ← region_list_append (a_list a) x s;
  Some (BlockAllocation l (a_oob a), s).

Definition free_region (x : nat) (s : fsys) : fsys := set_regs (delete x (regs s)) s.
Fixpoint reduce_allocation (fuel : nat) (l : region_list) (len : Z) (s : fsys) : option (region_list * fsys) :=
  if len =? 0 then Some (l, s) else
  match fuel with
  | O => None
  | S fuel =>
      x ← rl_last l;
      r ← regs s !! x;
      bg ← bg_at s (r_bg r);
      if len <? r_len r then
        bg ← free_last_blocks bg len;
        s ← upd_region (set_len (u32 (r_len r - len))) x (put_bg (r_bg r) bg s);
        Some (l, s)
      else
        bg ← free_last_blocks bg (r_len r);
        let s := put_bg (r_bg r) bg s in
        '(l, s) ← (match r_prev r with
                   | Some p => s ← upd_region (set_next None) p s; Some (l, s)
                   | None => Some (no_regions, s)
                   end);
        reduce_allocation fuel l (u32 (len - r_len r)) (free_region x s)
  end.

Fixpoint num_regions (fuel : nat) (reg : option nat) (s : fsys) : option Z :=
  match reg, fuel with
  | None, _ => Some 0
  | _, O => None
  | Some x, S fuel => r ← regs s !! x; n ← num_regions fuel (r_next r) s; Some (n + 1)
  end.
Definition block_allocation_num_regions (fuel : nat) (a : block_allocation) (s : fsys) : option Z := num_regions fuel (rl_first (a_list a)) s.
Fixpoint regions_len (fuel : nat) (reg : option nat) (s : fsys) : option Z :=
  match reg, fuel with
  | None, _ => Some 0
  | _, O => None
  | Some x, S fuel => r ← regs s !! x; n ← regions_len fuel (r_next r) s; Some (u32 (n + r_len r))
  end.
Definition block_allocation_len (fuel : nat) (a : block_allocation) (s : fsys) : option Z := regions_len fuel (rl_first (a_list a)) s.

Fixpoint nth_block (fuel : nat) (reg : option nat) (block : Z) (s : fsys) : option Z :=
  match reg, fuel with
  | None, _ => Some EXT4_ALLOCATE_FAILED
  | _, O => None
  | Some x, S fuel =>
      r ← regs s !! x;
      if block <? r_len r then Some (u32 (r_block r + block)) else nth_block fuel (r_next r) (u32 (block - r_len r)) s
  end.
Definition list_block (fuel : nat) (l : region_list) (block : Z) (s : fsys) : option Z :=
  nth_block fuel (rl_iter l) (u32 (block + rl_partial l)) s.
Definition get_block (fuel : nat) (a : block_allocation) : Z -> fsys -> option Z := list_block fuel (a_list a).
Definition get_oob_block (fuel : nat) (a : block_allocation) : Z -> fsys -> option Z := list_block fuel (a_oob a).

Definition get_region (a : block_allocation) (s : fsys) : option (Z * Z) :=
  x ← rl_iter (a_list a); r ← regs s !! x; Some (r_block r, u32 (r_len r - rl_partial (a_list a))).
Definition set_iter (i : option nat) (l : region_list) : region_list := RegionList (rl_first l) (rl_last l) i 0.
Definition get_next_region (a : block_allocation) (s : fsys) : option block_allocation :=
  x ← rl_iter (a_list a); r ← regs s !! x; Some (BlockAllocation (set_iter (r_next r) (a_list a)) (a_oob a)).
Definition last_region (a : block_allocation) : bool := bool_decide (rl_iter (a_list a) = None).
Definition rewind_alloc (a : block_allocation) : block_allocation := BlockAllocation (set_iter (rl_first (a_list a)) (a_list a)) (a_oob a).

(** The loop of [do_split_allocation]: the region where [len] blocks end, and the rest. *)
Fixpoint split_find (fuel : nat) (reg : option nat) (len : Z) (s : fsys) : option (option nat * Z) :=
  match reg, fuel with
  | None, _ => Some (None, len)
  | _, O => None
  | Some x, S fuel =>
      r ← regs s !! x;
      if r_len r <=? len then split_find fuel (r_next r) (u32 (len - r_len r)) s else Some (reg, len)
  end.
Definition do_split_allocation (fuel : nat) (l : region_list) (len : Z) (s : fsys) : option (option nat * region_list * fsys) :=
  '(reg, len) ← split_find fuel (rl_iter l) len s;
  match reg with
  | None => Some (None, l, s)
  | Some x =>
      if 0 <? len then
        r ← regs s !! x;
        let '(new, s) := new_region (Region (u32 (r_block r + len)) (u32 (r_len r - len)) (r_bg r) (r_next r) (Some x)) s in
        s ← upd_region (set_next (Some new)) x s;
        s ← upd_region (set_len len) x s;
        Some (rl_iter l, RegionList (rl_first l) (rl_last l) (Some new) (rl_partial l), s)
      else Some (reg, l, s)
  end.
Definition split_allocation (fuel : nat) (l : region_list) (len : Z) (s : fsys) : option (option nat * region_list * fsys) :=
  '(_, l, s) ← do_split_allocation fuel l (rl_partial l) s;
  '(middle, l, s) ← do_split_allocation fuel l len s;
  Some (middle, RegionList (rl_first l) (rl_last l) (rl_iter l) 0, s).

Fixpoint oob_loop (fuel : nat) (a : block_allocation) (oob : option nat) (s : fsys) : option (block_allocation * fsys) :=
  match oob with
  | None => Some (a, s)
  | Some x =>
      if bool_decide (rl_iter (a_list a) = Some x) then Some (a, s) else
      match fuel with
      | O => None
      | S fuel =>
          r ← regs s !! x;
          '(l, s) ← region_list_remove (a_list a) x s;
          '(o, s) ← region_list_append (a_oob a) x s;
          oob_loop fuel (BlockAllocation l o) (r_next r) s
      end
  end.
(** The result is 0 or -1. *)
Definition reserve_oob_blocks (fuel : nat) (a : block_allocation) (blocks : Z) (s : fsys) : option (Z * block_allocation * fsys) :=
  '(oob, l, s) ← split_allocation fuel (a_list a) (u32 blocks) s;
  let a := BlockAllocation l (a_oob a) in
  match oob with
  | None => Some (-1, a, s)
  | Some _ => '(a, s) ← oob_loop fuel a oob s; Some (0, a, s)
  end.

Fixpoint advance_loop (fuel : nat) (reg : option nat) (partial blocks : Z) (s : fsys) : option (Z * Z) :=
  match reg with
  | None => Some (if 0 <? blocks then -1 else 0, partial)
  | Some x =>
      if 0 <? blocks then
        match fuel with
        | O => None
        | S fuel =>
            r ← regs s !! x;
            if u32 (partial + blocks) <? r_len r then Some (0, u32 (partial + blocks))
            else advance_loop fuel (r_next r) 0 (s32 (blocks - u32 (r_len r - partial))) s
        end
      else Some (0, partial)
  end.
(** The result, and the list with its new [partial_iter]; [iter] stays where it is. *)
Definition advance_list_ptr (fuel : nat) (l : region_list) (blocks : Z) (s : fsys) : option (Z * region_list) :=
  '(ret, p) ← advance_loop fuel (rl_iter l) (rl_partial l) blocks s;
  Some (ret, RegionList (rl_first l) (rl_last l) (rl_iter l) p).
Definition advance_blocks (fuel : nat) (a : block_allocation) (blocks : Z) (s : fsys) : option (Z * block_allocation) :=
  '(ret, l) ← advance_list_ptr fuel (a_list a) blocks s; Some (ret, BlockAllocation l (a_oob a)).
Definition advance_oob_blocks (fuel : nat) (a : block_allocation) (blocks : Z) (s : fsys) : option (Z * block_allocation) :=
  '(ret, l) ← advance_list_ptr fuel (a_oob a) blocks s; Some (ret, BlockAllocation (a_list a) l).

Fixpoint append_all (fuel : nat) (l : region_list) (reg : option nat) (s : fsys) : option (region_list * fsys) :=
  match reg, fuel with
  | None, _ => Some (l, s)
  | _, O => None
  | Some x, S fuel =>
      '(l, s) ← region_list_append l x s;
      r ← regs s !! x;
      append_all fuel l (r_next r) s
  end.
Definition append_oob_allocation (g : geom) (fuel : nat) (a : block_allocation) (len : Z) (s : fsys) : option (block_allocation * fsys) :=
  '(reg, s) ← do_allocate g fuel len s;
  match reg with
  | None => None
  | Some _ => '(l, s) ← append_all fuel (a_oob a) reg s; Some (BlockAllocation (a_list a) l, s)
  end.

Fixpoint free_list (fuel : nat) (reg : option nat) (s : fsys) : option fsys :=
  match reg, fuel with
  | None, _ => Some s
  | _, O => None
  | Some x, S fuel => r ← regs s !! x; free_list fuel (r_next r) (free_region x s)
  end.
Definition free_alloc (fuel : nat) (a : block_allocation) (s : fsys) : option fsys :=
  s ← free_list fuel (rl_first (a_list a)) s; free_list fuel (rl_first (a_oob a)) s.

(** ** Inodes *)
Section Inodes.
Context (g : geom).
Definition with_inodes (bm : list Z) (free first : Z) (bg : block_group_info) : block_group_info :=
  BlockGroup (first_block bg) (header_blocks bg) (data_blocks_used bg) (has_superblock bg) (block_bitmap bg) bm
    (inode_table bg) (free_blocks bg) (first_free_block bg) free first (used_dirs bg).

(** The address of an inode. *)
Definition get_inode (inode : Z) (s : fsys) : option (Z * fsys) :=
  let inode := u32 (inode - 1) in
  let i := inode / inodes_per_group g in
  let inode := inode mod inodes_per_group g in
  s ← allocate_bg_inode_table g i s;
  bg ← bg_at s i;
  p ← inode_table bg;
  Some (p + u32 (inode * inode_size g), s).

Definition get_free_inodes (s : fsys) (i : Z) : option Z := bg ← bg_at s i; Some (free_inodes bg).
Fixpoint inode_bits (n : nat) (inode : Z) (bm : list Z) : option (list Z) :=
  match n with
  | O => Some bm
  | S n =>
      b ← bm !! Z.to_nat (inode / 8);
      inode_bits n (u32 (inode + 1)) (<[Z.to_nat (inode / 8) := Z.lor b (Z.shiftl 1 (inode mod 8))]> bm)
  end.
Definition reserve_inodes (i num : Z) (s : fsys) : option (Z * fsys) :=
  bg ← bg_at s i;
  if free_inodes bg <? num then Some (EXT4_ALLOCATE_FAILED, s) else
  bm ← inode_bits (Z.to_nat num) (u32 (first_free_inode bg - 1)) (inode_bitmap bg);
  Some (first_free_inode bg, put_bg i (with_inodes bm (u32 (free_inodes bg - num)) (u32 (first_free_inode bg + num)) bg) s).
Fixpoint inode_from (n : nat) (i : Z) (s : fsys) : option (Z * fsys) :=
  match n with
  | O => Some (EXT4_ALLOCATE_FAILED, s)
  | S n =>
      '(inode, s) ← reserve_inodes i 1 s;
      if negb (inode =? EXT4_ALLOCATE_FAILED) then Some (u32 (i * inodes_per_group g + inode), s) else inode_from n (i + 1) s
  end.
Definition allocate_inode (s : fsys) : option (Z * fsys) := inode_from (Z.to_nat (groups g)) 0 s.

Definition set_dirs (n : Z) (bg : block_group_info) : block_group_info :=
  BlockGroup (first_block bg) (header_blocks bg) (data_blocks_used bg) (has_superblock bg) (block_bitmap bg) (inode_bitmap bg)
    (inode_table bg) (free_blocks bg) (first_free_block bg) (free_inodes bg) (first_free_inode bg) n.
Definition add_directory (inode : Z) (s : fsys) : option fsys :=
  let i := u32 (inode - 1) / inodes_per_group g in
  bg ← bg_at s i;
  Some (put_bg i (set_dirs ((used_dirs bg + 1) mod 2 ^ 16) bg) s).
Definition get_directories (s : fsys) (i : Z) : option Z := bg ← bg_at s i; Some (used_dirs bg).
End Inodes.
