(* ===== verification/AllocBits.v ===== *)
(** * The bitmaps of the allocator

    [reserve_blocks] sets a range of bits with whole bytes in the middle.  It is shown to be
    the same as setting the bits one by one, on the bitmap as a set of numbers, and to stop
    the program exactly when one of them was set. *)
From stdpp Require Import base gmap list.
From Stdlib Require Import ZArith Lia.
From S2P Require Import Prelude Crc Alloc.
#[local] Open Scope Z_scope.

Definition bit_at (bm : list Z) (i : Z) : bool :=
  match bm !! Z.to_nat (i / 8) with Some b => Z.testbit b (i mod 8) | None => false end.
Definition in_range (a n i : Z) : bool := (a <=? i) && (i <? a + n).
Definition range_clear (bm : list Z) (a n : Z) : Prop := ∀ i, a <= i < a + n -> bit_at bm i = false.
Definition range_set (bm bm' : list Z) (a n : Z) : Prop :=
  bytes bm' ∧ zlen bm' = zlen bm ∧ ∀ i, 0 <= i -> bit_at bm' i = bit_at bm i || in_range a n i.

Lemma in_range_true a n i : in_range a n i = true <-> a <= i < a + n.
Proof. unfold in_range. rewrite andb_true_iff, Z.leb_le, Z.ltb_lt. lia. Qed.
Lemma in_range_false a n i : ¬ (a <= i < a + n) -> in_range a n i = false.
Proof. intros H. apply not_true_is_false. by rewrite in_range_true. Qed.

Lemma byte_bits b : 0 <= b < 256 -> ∀ j, 8 <= j -> Z.testbit b j = false.
Proof.
  intros Hb j Hj. destruct (decide (b = 0)) as [->|Hne]; [apply Z.bits_0|]. apply Z.bits_above_log2; [lia|].
  assert (Z.log2 b < 8) by (apply Z.log2_lt_pow2; lia). lia.
Qed.
Lemma lor_byte b j : 0 <= b < 256 -> 0 <= j < 8 -> 0 <= Z.lor b (Z.shiftl 1 j) < 256.
Proof.
  intros Hb Hj. assert (Hs : 0 <= Z.shiftl 1 j) by (apply Z.shiftl_nonneg; lia).
  assert (H0 : 0 <= Z.lor b (Z.shiftl 1 j)) by (apply Z.lor_nonneg; lia). split; [done|].
  destruct (decide (Z.lor b (Z.shiftl 1 j) = 0)) as [->|Hne]; [done|]. apply (Z.log2_lt_pow2 _ 8); [lia|].
  rewrite Z.log2_lor by lia. rewrite Z.shiftl_1_l, Z.log2_pow2 by lia.
  assert (Z.log2 b < 8); [|lia]. destruct (decide (b = 0)) as [->|]; [done | apply Z.log2_lt_pow2; lia].
Qed.
Lemma byte_index (bm : list Z) i : 0 <= i < 8 * zlen bm -> ∃ b, bm !! Z.to_nat (i / 8) = Some b.
Proof.
  intros Hi. apply lookup_lt_is_Some_2. pose proof (Z.div_mod i 8). pose proof (Z.mod_pos_bound i 8). unfold zlen in Hi. lia.
Qed.
Lemma same_byte i j : 0 <= i -> 0 <= j -> Z.to_nat (i / 8) = Z.to_nat (j / 8) -> i / 8 = j / 8.
Proof. intros Hi Hj H. pose proof (Z.div_pos i 8). pose proof (Z.div_pos j 8). lia. Qed.
Lemma bit_at_insert (bm : list Z) i j b : 0 <= i < 8 * zlen bm -> 0 <= j ->
  bit_at (<[Z.to_nat (i / 8) := b]> bm) j = if j / 8 =? i / 8 then Z.testbit b (j mod 8) else bit_at bm j.
Proof.
  intros Hi Hj. unfold bit_at. destruct (byte_index bm i Hi) as [b0 E]. destruct (Z.eqb_spec (j / 8) (i / 8)) as [->|Hne].
  - by rewrite list_lookup_insert_eq by (by apply lookup_lt_Some in E).
  - rewrite list_lookup_insert_ne; [done|]. intros H. by apply same_byte in H; [congruence | lia | lia].
Qed.
Lemma index_split i j : 0 <= i -> 0 <= j -> i = j <-> i / 8 = j / 8 ∧ i mod 8 = j mod 8.
Proof. intros. pose proof (Z.div_mod i 8). pose proof (Z.div_mod j 8). split; [by intros -> | lia]. Qed.

Lemma set_bit_ok bm i : bytes bm -> 0 <= i < 8 * zlen bm -> bit_at bm i = false ->
  ∃ bm', bitmap_set_bit bm i = Some (bm', false) ∧ range_set bm bm' i 1.
Proof.
  intros Hb Hi Hc. destruct (byte_index bm i Hi) as [b E]. unfold bitmap_set_bit. rewrite E. cbn.
  unfold bit_at in Hc. rewrite E in Hc. rewrite Hc. eexists. split; [done|].
  assert (Hbb : 0 <= b < 256) by (eapply Forall_lookup_1 in E; [exact E | done]). pose proof (Z.mod_pos_bound i 8).
  split; [|split].
  - apply Forall_insert; [done|]. by apply lor_byte; [|lia].
  - unfold zlen. by rewrite length_insert.
  - intros j Hj. rewrite bit_at_insert by done. destruct (Z.eqb_spec (j / 8) (i / 8)) as [Ed|Ed].
    + rewrite Z.lor_spec, Z.shiftl_1_l, Z.pow2_bits_eqb by lia. unfold bit_at. rewrite Ed, E. f_equal.
      destruct (Z.eqb_spec (i mod 8) (j mod 8)) as [Em|Em]; symmetry.
      * apply in_range_true. assert (i = j) by (apply index_split; lia). lia.
      * apply in_range_false. intros Hr. assert (i = j) as -> by lia. done.
    + rewrite in_range_false; [by rewrite orb_false_r|]. intros Hr. assert (j = i) as -> by lia. done.
Qed.
Lemma set_bit_fails bm i : 0 <= i < 8 * zlen bm -> bit_at bm i = true -> bitmap_set_bit bm i = Some (bm, true).
Proof.
  intros Hi Hc. destruct (byte_index bm i Hi) as [b E]. unfold bitmap_set_bit. rewrite E. cbn. unfold bit_at in Hc. rewrite E in Hc. by rewrite Hc.
Qed.

Lemma byte_zero b : 0 <= b < 256 -> (∀ j, 0 <= j < 8 -> Z.testbit b j = false) -> b = 0.
Proof.
  intros Hb H. apply Z.bits_inj'. intros j Hj. rewrite Z.bits_0. destruct (Z.lt_ge_cases j 8); [apply H; lia | by apply byte_bits].
Qed.
Lemma in_byte i j : i mod 8 = 0 -> j / 8 = i / 8 <-> i <= j < i + 8.
Proof.
  intros Hm. pose proof (Z.div_mod i 8). pose proof (Z.div_mod j 8). pose proof (Z.mod_pos_bound j 8). split; [lia|]. intros Hr.
  symmetry. apply Z.div_unique with (j - i); lia.
Qed.
Lemma set_8_ok bm i : bytes bm -> 0 <= i -> i + 8 <= 8 * zlen bm -> i mod 8 = 0 -> range_clear bm i 8 ->
  ∃ bm', bitmap_set_8_bits bm i = Some (bm', 0) ∧ range_set bm bm' i 8.
Proof.
  intros Hb Hi Hle Hm Hc. destruct (byte_index bm i ltac:(lia)) as [b E]. unfold bitmap_set_8_bits. rewrite E. cbn.
  assert (Hbb : 0 <= b < 256) by (eapply Forall_lookup_1 in E; [exact E | done]).
  assert (b = 0) as ->.
  { apply byte_zero; [done|]. intros j Hj. specialize (Hc (i + j) ltac:(lia)). unfold bit_at in Hc.
    assert (Ed : (i + j) / 8 = i / 8) by (apply in_byte; lia). rewrite Ed, E in Hc.
    pose proof (Z.div_mod i 8). pose proof (Z.div_mod (i + j) 8). replace ((i + j) mod 8) with j in Hc by lia. done. }
  eexists. split; [done|]. split; [|split].
  - by apply Forall_insert.
  - unfold zlen. by rewrite length_insert.
  - intros j Hj. rewrite bit_at_insert by lia. destruct (Z.eqb_spec (j / 8) (i / 8)) as [Ed|Ed].
    + pose proof (Z.mod_pos_bound j 8). change 255 with (Z.ones 8). rewrite Z.ones_spec_low by lia.
      rewrite (proj2 (in_range_true i 8 j)) by (by apply in_byte). by rewrite orb_true_r.
    + rewrite in_range_false by (by rewrite <- in_byte). by rewrite orb_false_r.
Qed.
Lemma set_8_fails bm i j : 0 <= i -> i + 8 <= 8 * zlen bm -> i mod 8 = 0 -> i <= j < i + 8 -> bit_at bm j = true ->
  ∃ bm' b, bitmap_set_8_bits bm i = Some (bm', b) ∧ b <> 0.
Proof.
  intros Hi Hle Hm Hj Hc. destruct (byte_index bm i ltac:(lia)) as [b E]. unfold bitmap_set_8_bits. rewrite E. cbn.
  eexists _, b. split; [done|]. intros ->. unfold bit_at in Hc. rewrite (proj2 (in_byte i j Hm) Hj), E in Hc. by rewrite Z.bits_0 in Hc.
Qed.

(** ** Ranges *)
Lemma range_set_nil bm a : bytes bm -> range_set bm bm a 0.
Proof. intros H. split; [done|]. split; [done|]. intros i _. rewrite in_range_false by lia. by rewrite orb_false_r. Qed.
Lemma range_set_app bm bm1 bm2 a m n : 0 <= m -> 0 <= n -> range_set bm bm1 a m -> range_set bm1 bm2 (a + m) n -> range_set bm bm2 a (m + n).
Proof.
  intros Hm Hn (_ & L1 & H1) (B2 & L2 & H2). split; [done|]. split; [congruence|]. intros i Hi. rewrite H2, H1, <- orb_assoc by done. f_equal.
  apply eq_iff_eq_true. rewrite orb_true_iff, !in_range_true. lia.
Qed.
Lemma range_clear_after bm bm1 a m n b : 0 <= a -> 0 <= m -> range_set bm bm1 a m -> range_clear bm b n -> a + m <= b -> range_clear bm1 b n.
Proof. intros Ha Hm (_ & _ & H) Hc Hb i Hi. rewrite H, (Hc i Hi) by lia. apply in_range_false. lia. Qed.
Lemma bit_after bm bm1 a m i : 0 <= i -> range_set bm bm1 a m -> bit_at bm i = true -> bit_at bm1 i = true.
Proof. intros Hi (_ & _ & H) Hb. by rewrite H, Hb by done. Qed.

(** ** The loops *)
Lemma lead_loop_ok fuel bm i num block :
  bytes bm -> 0 <= i -> 0 <= block -> num < 2 ^ 32 -> block + (num - i) <= 8 * zlen bm -> 8 * zlen bm < 2 ^ 32 -> num - i <= Z.of_nat fuel ->
  range_clear bm block (num - i) ->
  ∃ n bm', lead_loop fuel bm i num block = Some (bm', i + n, block + n) ∧ range_set bm bm' block n ∧ 0 <= n ∧ n <= Z.max 0 (num - i) ∧
    (num <= i + n ∨ (block + n) mod 8 = 0).
Proof.
  revert bm i block. induction fuel as [|fuel IH]; intros bm i block Hb Hi Hbl Hnum Hle Hmax Hf Hc; cbn [lead_loop].
  - rewrite (proj2 (Z.ltb_ge _ _)) by lia. cbn [andb]. exists 0, bm. rewrite !Z.add_0_r. split; [done|]. split; [by apply range_set_nil | lia].
  - destruct (Z.ltb_spec i num) as [Hlt|Hge]; cbn [andb].
    2:{ exists 0, bm. rewrite !Z.add_0_r. split; [done|]. split; [by apply range_set_nil | lia]. }
    destruct (Z.eqb_spec (block mod 8) 0) as [Hm|Hm]; cbn [negb].
    { exists 0, bm. rewrite !Z.add_0_r. split; [done|]. split; [by apply range_set_nil | lia]. }
    destruct (set_bit_ok bm block Hb ltac:(lia)) as (bm1 & E & H1); [apply Hc; lia|]. rewrite E. cbn. rewrite u32_small by lia.
    pose proof H1 as (B1 & L1 & _).
    destruct (IH bm1 (i + 1) (block + 1)) as (n & bm2 & E2 & H2 & Hn0 & Hn & Hend); try lia; [done | |].
    { apply (range_clear_after bm bm1 block 1); [done | lia | done | | lia]. intros j Hj. apply Hc. lia. }
    exists (1 + n), bm2. rewrite !Z.add_assoc. split; [done|]. split; [apply (range_set_app bm bm1); [lia | lia | done | done]|]. lia.
Qed.
Lemma tail_loop_ok fuel bm i num block :
  bytes bm -> 0 <= i -> 0 <= block -> num < 2 ^ 32 -> block + (num - i) <= 8 * zlen bm -> 8 * zlen bm < 2 ^ 32 -> num - i <= Z.of_nat fuel -> i <= num ->
  range_clear bm block (num - i) ->
  ∃ bm', tail_loop fuel bm i num block = Some bm' ∧ range_set bm bm' block (num - i).
Proof.
  revert bm i block. induction fuel as [|fuel IH]; intros bm i block Hb Hi Hbl Hnum Hle Hmax Hf Hin Hc; cbn [tail_loop].
  - rewrite (proj2 (Z.ltb_ge _ _)) by lia. exists bm. split; [done|]. replace (num - i) with 0 by lia. by apply range_set_nil.
  - destruct (Z.ltb_spec i num) as [Hlt|Hge].
    2:{ exists bm. split; [done|]. replace (num - i) with 0 by lia. by apply range_set_nil. }
    destruct (set_bit_ok bm block Hb ltac:(lia)) as (bm1 & E & H1); [apply Hc; lia|]. rewrite E. cbn. rewrite u32_small by lia.
    pose proof H1 as (B1 & L1 & _).
    destruct (IH bm1 (i + 1) (block + 1)) as (bm2 & E2 & H2); try lia; [done | |].
    { apply (range_clear_after bm bm1 block 1); [done | lia | done | | lia]. intros j Hj. apply Hc. lia. }
    exists bm2. split; [done|]. replace (num - i) with (1 + (num - (i + 1))) by lia. apply (range_set_app bm bm1); [lia | lia | done | done].
Qed.
Lemma byte_loop_ok fuel bm i num block :
  bytes bm -> 0 <= i <= num -> 0 <= block -> num + 8 < 2 ^ 32 -> block + (num - i) <= 8 * zlen bm -> 8 * zlen bm + 8 < 2 ^ 32 -> num - i <= Z.of_nat fuel ->
  num <= i ∨ block mod 8 = 0 -> range_clear bm block (num - i) ->
  ∃ n bm', byte_loop fuel bm i num block = Some (bm', i + n, block + n) ∧ range_set bm bm' block n ∧ 0 <= n <= num - i.
Proof.
  intros Hb Hi Hbl Hnum Hle Hmax Hf Hal Hc.
  assert (Hland : Z.land num (Z.lnot 7) = num / 8 * 8) by (apply (land_lnot_ones num 3); lia).
  pose proof (Z.div_mod num 8). pose proof (Z.mod_pos_bound num 8).
  revert bm i block Hb Hi Hbl Hle Hmax Hf Hal Hc.
  induction fuel as [|fuel IH]; intros bm i block Hb Hi Hbl Hle Hmax Hf Hal Hc; cbn [byte_loop]; rewrite u32_small, Hland by lia.
  - rewrite (proj2 (Z.leb_gt _ _)) by lia. exists 0, bm. rewrite !Z.add_0_r. split; [done|]. split; [by apply range_set_nil | lia].
  - destruct (Z.leb_spec (i + 8) (num / 8 * 8)) as [Hlt|Hge].
    2:{ exists 0, bm. rewrite !Z.add_0_r. split; [done|]. split; [by apply range_set_nil | lia]. }
    destruct (set_8_ok bm block Hb Hbl) as (bm1 & E & H1); [lia | lia | intros j Hj; apply Hc; lia|]. rewrite E. cbn [mbind option_bind].
    rewrite Z.eqb_refl. cbn [negb]. rewrite !u32_small by lia. pose proof H1 as (B1 & L1 & _).
    destruct (IH bm1 (i + 8) (block + 8)) as (n & bm2 & E2 & H2 & Hn); try lia; [done | | |].
    { right. destruct Hal as [|Hal]; [lia|]. rewrite <- Hal. apply (Z.mod_add block 1 8). lia. }
    { apply (range_clear_after bm bm1 block 8); [done | lia | done | | lia]. intros j Hj. apply Hc. lia. }
    exists (8 + n), bm2. rewrite !Z.add_assoc. split; [done|]. split; [apply (range_set_app bm bm1); [lia | lia | done | done]|]. lia.
Qed.

Lemma set_blocks_ok bm a n :
  bytes bm -> 0 <= a -> 0 <= n -> a + n <= 8 * zlen bm -> 8 * zlen bm + 8 < 2 ^ 32 -> range_clear bm a n ->
  ∃ bm', set_blocks bm a n = Some bm' ∧ range_set bm bm' a n.
Proof.
  intros Hb Ha Hn Hle Hmax Hc. unfold set_blocks.
  destruct (lead_loop_ok (Z.to_nat n) bm 0 n a) as (n1 & bm1 & E1 & H1 & Hn1 & Hn1' & Hend); try lia; [done | by rewrite Z.sub_0_r |].
  rewrite E1. cbn [mbind option_bind]. pose proof H1 as (B1 & L1 & _). rewrite Z.add_0_l in *.
  destruct (byte_loop_ok (Z.to_nat n) bm1 n1 n (a + n1)) as (n2 & bm2 & E2 & H2 & Hn2); try lia; [done | |].
  { apply (range_clear_after bm bm1 a n1); [done | lia | done | | lia]. intros j Hj. apply Hc. lia. }
  rewrite E2. cbn [mbind option_bind]. pose proof H2 as (B2 & L2 & _).
  destruct (tail_loop_ok (Z.to_nat n) bm2 (n1 + n2) n (a + n1 + n2)) as (bm3 & E3 & H3); try lia; [done | |].
  { apply (range_clear_after bm1 bm2 (a + n1) n2); [lia | lia | done | | lia].
    apply (range_clear_after bm bm1 a n1); [done | lia | done | | lia]. intros j Hj. apply Hc. lia. }
  exists bm3. split; [done|]. replace n with (n1 + (n2 + (n - (n1 + n2)))) by lia.
  apply (range_set_app bm bm1); [lia | lia | done |]. apply (range_set_app bm1 bm2); [lia | lia | done |]. by rewrite <- Z.add_assoc in H3 |- *.
Qed.

(** ** A bit that is set already *)
Lemma lead_loop_hit fuel bm i num block j :
  bytes bm -> 0 <= i -> 0 <= block -> block + (num - i) <= 8 * zlen bm -> 8 * zlen bm < 2 ^ 32 -> block <= j < block + (num - i) ->
  bit_at bm j = true ->
  lead_loop fuel bm i num block = None ∨
  ∃ n bm', lead_loop fuel bm i num block = Some (bm', i + n, block + n) ∧ range_set bm bm' block n ∧ 0 <= n ∧ block + n <= j ∧ (block + n) mod 8 = 0.
Proof.
  revert bm i block. induction fuel as [|fuel IH]; intros bm i block Hb Hi Hbl Hle Hmax Hj Hbit; cbn [lead_loop]; rewrite (proj2 (Z.ltb_lt _ _)) by lia;
    destruct (Z.eqb_spec (block mod 8) 0) as [Hm|Hm]; cbn [negb andb].
  1, 3: right; exists 0, bm; rewrite !Z.add_0_r; split; [done|]; split; [by apply range_set_nil | lia].
  - by left.
  - destruct (bit_at bm block) eqn:Eb; [rewrite set_bit_fails by (done || lia); by left|].
    destruct (set_bit_ok bm block Hb ltac:(lia) Eb) as (bm1 & E & H1). rewrite E. cbn. rewrite u32_small by lia. pose proof H1 as (B1 & L1 & _).
    assert (j <> block) by congruence.
    destruct (IH bm1 (i + 1) (block + 1)) as [E2|(n & bm2 & E2 & H2 & Hn & Hnj & Hm2)]; try lia; [done | by apply (bit_after bm bm1 block 1); [lia|..] | by left |].
    right. exists (1 + n), bm2. rewrite !Z.add_assoc. split; [done|]. split; [apply (range_set_app bm bm1); [lia | lia | done | done]|]. lia.
Qed.
Lemma byte_loop_hit fuel bm i num block j :
  bytes bm -> 0 <= i -> 0 <= block -> num + 8 < 2 ^ 32 -> block + (num - i) <= 8 * zlen bm -> 8 * zlen bm + 8 < 2 ^ 32 -> block <= j < block + (num - i) ->
  block mod 8 = 0 -> bit_at bm j = true ->
  byte_loop fuel bm i num block = None ∨
  ∃ n bm', byte_loop fuel bm i num block = Some (bm', i + n, block + n) ∧ range_set bm bm' block n ∧ 0 <= n ∧ block + n <= j.
Proof.
  intros Hb Hi Hbl Hnum Hle Hmax Hj Hal Hbit.
  assert (Hland : Z.land num (Z.lnot 7) = num / 8 * 8) by (apply (land_lnot_ones num 3); lia).
  pose proof (Z.div_mod num 8). pose proof (Z.mod_pos_bound num 8).
  revert bm i block Hb Hi Hbl Hle Hmax Hj Hal Hbit.
  induction fuel as [|fuel IH]; intros bm i block Hb Hi Hbl Hle Hmax Hj Hal Hbit; cbn [byte_loop]; rewrite u32_small, Hland by lia;
    (destruct (Z.leb_spec (i + 8) (num / 8 * 8)) as [Hlt|Hge];
     [|right; exists 0, bm; rewrite !Z.add_0_r; split; [done|]; split; [by apply range_set_nil | lia]]).
  - by left.
  - destruct (decide (j < block + 8)) as [Hin|Hout].
    { destruct (set_8_fails bm block j) as (bm1 & b & E & Hne); try lia; [done|]. rewrite E. cbn [mbind option_bind].
      rewrite (proj2 (Z.eqb_neq _ _)) by done. by left. }
    destruct (bitmap_set_8_bits bm block) as [[bm1 was]|] eqn:E; [|by left]. cbn [mbind option_bind].
    destruct (Z.eqb_spec was 0) as [->|]; cbn [negb]; [|by left].
    assert (Hc : range_clear bm block 8).
    { intros k Hk. destruct (bit_at bm k) eqn:Ek; [|done]. destruct (set_8_fails bm block k) as (? & b & E' & Hne); try lia; [done|]. congruence. }
    destruct (set_8_ok bm block Hb Hbl) as (bm1' & E' & H1); [lia | lia | done |]. assert (bm1' = bm1) as -> by congruence.
    rewrite !u32_small by lia. pose proof H1 as (B1 & L1 & _).
    destruct (IH bm1 (i + 8) (block + 8)) as [E2|(n & bm2 & E2 & H2 & Hn & Hnj)]; try lia; [done | | by apply (bit_after bm bm1 block 8); [lia|..] | by left |].
    { rewrite <- Hal. apply (Z.mod_add block 1 8). lia. }
    right. exists (8 + n), bm2. rewrite !Z.add_assoc. split; [done|]. split; [apply (range_set_app bm bm1); [lia | lia | done | done]|]. lia.
Qed.
Lemma tail_loop_hit fuel bm i num block j :
  bytes bm -> 0 <= i -> 0 <= block -> block + (num - i) <= 8 * zlen bm -> 8 * zlen bm < 2 ^ 32 -> block <= j < block + (num - i) -> bit_at bm j = true ->
  tail_loop fuel bm i num block = None.
Proof.
  revert bm i block. induction fuel as [|fuel IH]; intros bm i block Hb Hi Hbl Hle Hmax Hj Hbit; cbn [tail_loop]; rewrite (proj2 (Z.ltb_lt _ _)) by lia; [done|].
  destruct (bit_at bm block) eqn:Eb; [by rewrite set_bit_fails by (done || lia)|].
  destruct (set_bit_ok bm block Hb ltac:(lia) Eb) as (bm1 & E & H1). rewrite E. cbn. rewrite u32_small by lia. pose proof H1 as (B1 & L1 & _).
  assert (j <> block) by congruence. apply IH; try lia; [done | by apply (bit_after bm bm1 block 1); [lia|..]].
Qed.
Lemma set_blocks_hit bm a n j :
  bytes bm -> 0 <= a -> a + n <= 8 * zlen bm -> 8 * zlen bm + 8 < 2 ^ 32 -> a <= j < a + n -> bit_at bm j = true -> set_blocks bm a n = None.
Proof.
  intros Hb Ha Hle Hmax Hj Hbit. unfold set_blocks.
  destruct (lead_loop_hit (Z.to_nat n) bm 0 n a j) as [E1|(n1 & bm1 & E1 & H1 & Hn1 & Hj1 & Hm)]; try lia; try done; rewrite E1; [done|].
  cbn [mbind option_bind]. pose proof H1 as (B1 & L1 & _). rewrite Z.add_0_l.
  pose proof (bit_after bm bm1 a n1 j ltac:(lia) H1 Hbit) as Hbit1.
  destruct (byte_loop_hit (Z.to_nat n) bm1 n1 n (a + n1) j) as [E2|(n2 & bm2 & E2 & H2 & Hn2 & Hj2)]; try lia; try done; rewrite E2; [done|].
  cbn [mbind option_bind]. pose proof H2 as (B2 & L2 & _).
  pose proof (bit_after bm1 bm2 (a + n1) n2 j ltac:(lia) H2 Hbit1) as Hbit2.
  apply (tail_loop_hit _ _ _ _ _ j); try lia; done.
Qed.

(** ** Giving blocks back *)
Lemma land_lnot_byte b j : 0 <= b < 256 -> 0 <= Z.land b (Z.lnot j) < 256.
Proof.
  intros Hb. assert (H0 : 0 <= Z.land b (Z.lnot j)) by (apply Z.land_nonneg; lia). split; [done|].
  destruct (decide (Z.land b (Z.lnot j) = 0)) as [->|Hne]; [done|].
  assert (E : Z.land b (Z.lnot j) = Z.land b (Z.lnot j) mod 2 ^ 8); [|pose proof (Z.mod_pos_bound (Z.land b (Z.lnot j)) (2 ^ 8)); lia].
  apply Z.bits_inj'. intros i Hi. destruct (Z.lt_ge_cases i 8).
  - by rewrite Z.mod_pow2_bits_low by lia.
  - rewrite Z.mod_pow2_bits_high by lia. rewrite Z.land_spec, byte_bits by done. done.
Qed.
Definition range_freed (bm bm' : list Z) (a n : Z) : Prop :=
  bytes bm' ∧ zlen bm' = zlen bm ∧ ∀ i, 0 <= i -> bit_at bm' i = bit_at bm i && negb (in_range a n i).
Lemma clear_bits_ok n bm block :
  bytes bm -> Z.of_nat n <= block + 1 -> block < 8 * zlen bm -> 8 * zlen bm < 2 ^ 32 -> 
  ∃ bm', clear_bits n bm block = Some bm' ∧ range_freed bm bm' (block + 1 - Z.of_nat n) (Z.of_nat n).
Proof.
  revert bm block. induction n as [|n IH]; intros bm block Hb Hn Hbl Hmax; cbn [clear_bits].
  - exists bm. split; [done|]. split; [done|]. split; [done|]. intros i _. rewrite in_range_false by lia. by rewrite andb_true_r.
  - destruct (byte_index bm block ltac:(lia)) as [b E]. rewrite E. cbn [mbind option_bind].
    assert (Hbb : 0 <= b < 256) by (eapply Forall_lookup_1 in E; [exact E | done]).
    set (bm1 := <[Z.to_nat (block / 8) := Z.land b (Z.lnot (Z.shiftl 1 (block mod 8)))]> bm).
    assert (H1 : range_freed bm bm1 block 1).
    { split; [apply Forall_insert; [done | by apply land_lnot_byte]|]. split; [unfold zlen, bm1; by rewrite length_insert|].
      intros j Hj. unfold bm1. rewrite bit_at_insert by lia. pose proof (Z.mod_pos_bound block 8). destruct (Z.eqb_spec (j / 8) (block / 8)) as [Ed|Ed].
      - pose proof (Z.mod_pos_bound j 8). rewrite Z.land_spec, Z.lnot_spec, Z.shiftl_1_l, Z.pow2_bits_eqb by lia. unfold bit_at. rewrite Ed, E. do 2 f_equal.
        destruct (Z.eqb_spec (block mod 8) (j mod 8)) as [Em|Em]; symmetry.
        + apply in_range_true. assert (block = j) by (apply index_split; lia). lia.
        + apply in_range_false. intros Hr. assert (block = j) as -> by lia. done.
      - rewrite in_range_false; [by rewrite andb_true_r|]. intros Hr. assert (j = block) as -> by lia. done. }
    destruct H1 as (B1 & L1 & H1). destruct n as [|n].
    { exists bm1. split; [done|]. split; [done|]. split; [done|]. intros i Hi. rewrite H1 by done. do 3 f_equal. lia. }
    rewrite u32_small by lia. destruct (IH bm1 (block - 1)) as (bm2 & E2 & B2 & L2 & H2); [done | lia | lia | lia |].
    exists bm2. split; [done|]. split; [done|]. split; [congruence|]. intros i Hi. rewrite H2, H1 by done. rewrite <- andb_assoc. f_equal.
    rewrite <- negb_orb. f_equal. apply eq_iff_eq_true. rewrite orb_true_iff, !in_range_true. lia.
Qed.
