(* ===== verification/AllocInv.v ===== *)
(** * What the allocator keeps true

    Every group's bitmap says which of its blocks are free: those between the first free
    block and the end of the group.  An allocation takes blocks from the front of this
    range, so that two allocations never share a block. *)
From stdpp Require Import base gmap list.
From Stdlib Require Import ZArith Lia.
From S2P Require Import Prelude Crc Backed Alloc AllocBits.
#[local] Open Scope Z_scope.

(** ** The layout of the groups *)
Section Geometry.
Context (g : geom).
Definition gfirst (i : Z) : Z := first_data_block g + i * blocks_per_group g.
Definition gsize (i : Z) : Z := Z.min (blocks_per_group g) (len_blocks g - gfirst i).
(** Where the bitmaps of a group start, where its inode table does, and where its data. *)
Definition gmaps (sup : bool) : Z := if sup then 1 + bg_desc_blocks g + bg_desc_reserve_blocks g else 0.
Definition gtable (sup : bool) : Z := gmaps sup + 2.
Definition gdata (sup : bool) : Z := gtable sup + inode_table_blocks g.

Record geom_ok : Prop := GeomOk {
  go_blk : ∃ k, 10 <= k <= 12 ∧ blk_size g = 2 ^ k;
  go_bpg : 8 <= blocks_per_group g <= 8 * blk_size g;
  go_first : 0 <= first_data_block g <= 1;
  go_groups : 0 < groups g;
  go_len : gfirst (groups g - 1) < len_blocks g <= gfirst (groups g);
  go_max : len_blocks g + blocks_per_group g < 2 ^ 32;
  go_counts : 0 < inode_table_blocks g ∧ 0 < bg_desc_blocks g ∧ 0 <= bg_desc_reserve_blocks g;
  go_room : ∀ i sup, 0 <= i < groups g -> ext4_bg_has_super_block g i = Some sup -> gdata sup + 2 <= gsize i
}.
End Geometry.

Section Inv.
Context (g : geom) (Hg : geom_ok g).

Lemma blk_range : 1024 <= blk_size g <= 4096.
Proof.
  destruct (go_blk g Hg) as (k & Hk & ->). change 1024 with (2 ^ 10). change 4096 with (2 ^ 12). split; apply Z.pow_le_mono_r; lia.
Qed.
Lemma bpg_range : 8 <= blocks_per_group g <= 32768.
Proof. pose proof (go_bpg g Hg). pose proof blk_range. lia. Qed.
Lemma gfirst_lt i j : 0 <= i -> i < j -> gfirst g i + blocks_per_group g <= gfirst g j.
Proof. intros Hi Hij. pose proof bpg_range. unfold gfirst. nia. Qed.
Lemma gfirst_range i : 0 <= i < groups g -> 0 <= gfirst g i < len_blocks g ∧ gfirst g i + gsize g i <= len_blocks g ∧ 0 < gsize g i <= blocks_per_group g.
Proof.
  intros Hi. pose proof (go_len g Hg). pose proof bpg_range. pose proof (go_first g Hg).
  assert (gfirst g i <= gfirst g (groups g - 1)) by (unfold gfirst; nia). unfold gsize. split; [unfold gfirst in *; nia|]. lia.
Qed.
Lemma gsize_inner i : 0 <= i -> i + 1 < groups g -> gsize g i = blocks_per_group g.
Proof. intros Hi Hn. pose proof (gfirst_lt i (groups g - 1) Hi ltac:(lia)). pose proof (go_len g Hg). unfold gsize. lia. Qed.
(** A block is in one group only. *)
Lemma same_group i j b : 0 <= i -> 0 <= j -> gfirst g i <= b < gfirst g i + blocks_per_group g -> gfirst g j <= b < gfirst g j + blocks_per_group g -> i = j.
Proof.
  intros Hi Hj H1 H2. destruct (Z.lt_total i j) as [H|[H|H]]; [|done|].
  - pose proof (gfirst_lt i j Hi H). lia.
  - pose proof (gfirst_lt j i Hj H). lia.
Qed.

(** ** Groups *)
Record bg_ok (i : Z) (bg : block_group_info) : Prop := BgOk {
  b_first : first_block bg = gfirst g i;
  b_super : ext4_bg_has_super_block g i = Some (has_superblock bg);
  b_header : header_blocks bg = gdata g (has_superblock bg);
  b_bytes : bytes (block_bitmap bg);
  b_zlen : zlen (block_bitmap bg) = blk_size g;
  b_bits : ∀ j, 0 <= j < blocks_per_group g -> bit_at (block_bitmap bg) j = negb (in_range (first_free_block bg) (free_blocks bg) j);
  b_free : gdata g (has_superblock bg) <= first_free_block bg ∧ 0 <= free_blocks bg ∧ first_free_block bg + free_blocks bg = gsize g i;
  b_used : first_free_block bg - gdata g (has_superblock bg) <= data_blocks_used bg <= 2 * (first_free_block bg - gdata g (has_superblock bg))
}.
Definition groups_ok (l : list block_group_info) : Prop :=
  zlen l = groups g ∧ ∀ i bg, l !! i = Some bg -> bg_ok (Z.of_nat i) bg.

Lemma gdata_pos sup : 0 < gdata g sup.
Proof. pose proof (go_counts g Hg). unfold gdata, gtable, gmaps. destruct sup; lia. Qed.

Lemma bg_at_ok s i bg : groups_ok (bgs s) -> bg_at s i = Some bg -> 0 <= i < groups g ∧ bg_ok i bg.
Proof.
  intros [Hl Hok] E. unfold bg_at in E. destruct (Z.ltb_spec i 0); [done|]. pose proof (lookup_lt_Some _ _ _ E). unfold zlen in Hl.
  split; [lia|]. specialize (Hok _ _ E). by rewrite Z2Nat.id in Hok by lia.
Qed.
Lemma bg_at_is_Some s i : groups_ok (bgs s) -> 0 <= i < groups g -> ∃ bg, bg_at s i = Some bg.
Proof.
  intros [Hl _] Hi. unfold bg_at. rewrite (proj2 (Z.ltb_ge _ _)) by lia. apply lookup_lt_is_Some_2. unfold zlen in Hl. lia.
Qed.
Lemma bg_at_put s i j bg : groups_ok (bgs s) -> 0 <= i < groups g ->
  bg_at (put_bg i bg s) j = if decide (i = j) then Some bg else bg_at s j.
Proof.
  intros [Hl _] Hi. unfold bg_at, put_bg, set_bgs. cbn [bgs]. unfold zlen in Hl. case_decide as Hd.
  - subst. rewrite (proj2 (Z.ltb_ge _ _)) by lia. apply list_lookup_insert_eq. lia.
  - destruct (Z.ltb_spec j 0); [done|]. apply list_lookup_insert_ne. lia.
Qed.
Lemma groups_ok_put s i bg : groups_ok (bgs s) -> 0 <= i < groups g -> bg_ok i bg -> groups_ok (bgs (put_bg i bg s)).
Proof.
  intros [Hl Hok] Hi Hbg. cbn. split; [unfold zlen in *; by rewrite length_insert|]. intros j b Hj.
  destruct (decide (j = Z.to_nat i)) as [->|Hne].
  - rewrite list_lookup_insert_eq in Hj by (unfold zlen in Hl; lia). injection Hj as <-. by rewrite Z2Nat.id by lia.
  - rewrite list_lookup_insert_ne in Hj by done. by apply Hok.
Qed.

(** The facts on a group that arithmetic needs. *)
Lemma bg_bounds i bg : 0 <= i < groups g -> bg_ok i bg ->
  0 < gdata g (has_superblock bg) ∧ gdata g (has_superblock bg) <= first_free_block bg ∧ 0 <= free_blocks bg ∧
  first_free_block bg + free_blocks bg = gsize g i ∧ gsize g i <= blocks_per_group g ∧ blocks_per_group g <= 32768 ∧
  0 <= gfirst g i ∧ gfirst g i + gsize g i <= len_blocks g ∧ len_blocks g < 2 ^ 32 - 8.
Proof.
  intros Hi Hb. pose proof (gdata_pos (has_superblock bg)). destruct (b_free _ _ Hb) as (? & ? & ?). pose proof (gfirst_range i Hi).
  pose proof bpg_range. pose proof (go_max g Hg). lia.
Qed.

(** Taking [n] blocks from the front. *)
Definition taken (n : Z) (bg bg' : block_group_info) : Prop :=
  ∃ bm, bg' = set_used (data_blocks_used bg + n) (with_blocks bm (free_blocks bg - n) (first_free_block bg + n) bg).
Lemma reserve_front i bg n : 0 <= i < groups g -> bg_ok i bg -> 0 <= n <= free_blocks bg ->
  ∃ bm, reserve_blocks bg (first_free_block bg) n = Some (0, with_blocks bm (free_blocks bg - n) (first_free_block bg + n) bg) ∧
    range_set (block_bitmap bg) bm (first_free_block bg) n.
Proof.
  intros Hi Hb Hn. pose proof (bg_bounds i bg Hi Hb). pose proof blk_range. pose proof (go_bpg g Hg).
  destruct (set_blocks_ok (block_bitmap bg) (first_free_block bg) n) as (bm & E & Hbm).
  - apply (b_bytes _ _ Hb).
  - lia.
  - lia.
  - rewrite (b_zlen _ _ Hb). lia.
  - rewrite (b_zlen _ _ Hb). lia.
  - intros j Hj. rewrite (b_bits _ _ Hb) by lia. apply negb_false_iff, in_range_true. lia.
  - exists bm. split; [|done]. unfold reserve_blocks. rewrite (proj2 (Z.ltb_ge _ _)) by lia. rewrite E. cbn [mbind option_bind].
    rewrite Z.eqb_refl, !u32_small by lia. done.
Qed.
Lemma taken_ok i bg n bm : 0 <= i < groups g -> bg_ok i bg -> 0 <= n <= free_blocks bg ->
  range_set (block_bitmap bg) bm (first_free_block bg) n ->
  bg_ok i (set_used (data_blocks_used bg + n) (with_blocks bm (free_blocks bg - n) (first_free_block bg + n) bg)).
Proof.
  intros Hi Hb Hn (B & L & H). pose proof (bg_bounds i bg Hi Hb). destruct Hb as [H1 H2 H3 H4 H5 H6 H7 H8].
  split; cbn [set_used with_blocks first_block has_superblock header_blocks block_bitmap first_free_block free_blocks data_blocks_used]; try done; try lia.
  intros j Hj. rewrite H, H6 by lia. apply eq_iff_eq_true. rewrite orb_true_iff, !negb_true_iff. rewrite <- !not_true_iff_false, !in_range_true. lia.
Qed.

Lemma from_group_ok len i s : groups_ok (bgs s) -> 0 <= i < groups g -> 0 <= len < 2 ^ 32 ->
  ∃ bg, bg_at s i = Some bg ∧ bg_ok i bg ∧
  ((free_blocks bg < len ∧ ext4_allocate_blocks_from_block_group len i s = Some (EXT4_ALLOCATE_FAILED, s)) ∨
   (len <= free_blocks bg ∧ ∃ bg', taken len bg bg' ∧ bg_ok i bg' ∧
    ext4_allocate_blocks_from_block_group len i s = Some (gfirst g i + first_free_block bg, put_bg i bg' s) ∧
    gfirst g i + first_free_block bg <> EXT4_ALLOCATE_FAILED)).
Proof.
  intros Hl Hi Hlen. destruct (bg_at_is_Some s i Hl Hi) as [bg E]. destruct (bg_at_ok s i bg Hl E) as [_ Hb].
  exists bg. split; [done|]. split; [done|]. unfold ext4_allocate_blocks_from_block_group. rewrite E. cbn [mbind option_bind].
  pose proof (bg_bounds i bg Hi Hb). destruct (Z.ltb_spec (free_blocks bg) len) as [Hlt|Hge]; [by left|]. right. split; [done|].
  destruct (reserve_front i bg len Hi Hb) as (bm & -> & Hbm); [lia|]. cbn [mbind option_bind]. rewrite (proj2 (Z.ltb_ge 0 0)) by lia.
  eexists. split; [by exists bm|]. split; [by apply (taken_ok i bg len bm); [..|lia|]|].
  destruct (b_used _ _ Hb). cbn [data_blocks_used first_block with_blocks].
  rewrite (b_first _ _ Hb), u32_small, s32_small by lia. split; [done|]. unfold EXT4_ALLOCATE_FAILED. lia.
Qed.
End Inv.
