(* ===== verification/AllocSafe.v ===== *)
(** * Allocations do not overlap

    What the calls of the allocator do to the free blocks, and the chain of regions they
    return: it covers as many blocks as were asked for, all free before and none after. *)
From stdpp Require Import base gmap list.
From Stdlib Require Import ZArith Lia.
From S2P Require Import Prelude Crc Backed Alloc AllocBits AllocInv.
#[local] Open Scope Z_scope.

(** ** Chains of regions *)
Fixpoint rchain (rs : gmap nat region) (p : option nat) (L : list (nat * region)) : Prop :=
  match L with
  | [] => p = None
  | (x, r) :: L => p = Some x ∧ rs !! x = Some r ∧ rchain rs (r_next r) L
  end.
Definition covers (L : list (nat * region)) (b : Z) : Prop := ∃ x r, (x, r) ∈ L ∧ r_block r <= b < r_block r + r_len r.
Fixpoint total_len (L : list (nat * region)) : Z := match L with [] => 0 | (_, r) :: L => r_len r + total_len L end.
Fixpoint apart (L : list (nat * region)) : Prop :=
  match L with
  | [] => True
  | (_, r) :: L => (∀ b, r_block r <= b < r_block r + r_len r -> ¬ covers L b) ∧ apart L
  end.

Lemma covers_nil b : ¬ covers [] b.
Proof. intros (x & r & H & _). by apply elem_of_nil in H. Qed.
Lemma covers_cons x r L b : covers ((x, r) :: L) b <-> r_block r <= b < r_block r + r_len r ∨ covers L b.
Proof.
  split.
  - intros (y & r' & H & Hb). apply elem_of_cons in H as [[= -> ->]|H]; [by left | right; by exists y, r'].
  - intros [Hb|(y & r' & H & Hb)]; [exists x, r; split; [left | done] | exists y, r'; split; [by right | done]].
Qed.
Lemma covers_app L L' b : covers (L ++ L') b <-> covers L b ∨ covers L' b.
Proof.
  induction L as [|[x r] L IH]; cbn [app]; [split; [by right | by intros [H%covers_nil|]]|]. rewrite !covers_cons, IH. tauto.
Qed.
(** Regions with the same blocks. *)
Definition same_blocks (c c' : nat * region) : Prop := r_block c.2 = r_block c'.2 ∧ r_len c.2 = r_len c'.2.
Lemma covers_same L L' b : Forall2 same_blocks L L' -> covers L b <-> covers L' b.
Proof.
  induction 1 as [|[x r] [x' r'] L L' [H1 H2] _ IH]; [done|]. rewrite !covers_cons, IH. cbn in *. by rewrite H1, H2.
Qed.
Lemma total_len_same L L' : Forall2 same_blocks L L' -> total_len L = total_len L'.
Proof. induction 1 as [|[x r] [x' r'] L L' [H1 H2] _ IH]; [done|]. cbn in *. lia. Qed.
Lemma apart_same L L' : Forall2 same_blocks L L' -> apart L -> apart L'.
Proof.
  induction 1 as [|[x r] [x' r'] L L' [H1 H2] HF IH]; [done|]. cbn in *. intros [Hr Ha]. split; [|by apply IH].
  intros b Hb. rewrite <- (covers_same L L' b HF). apply Hr. lia.
Qed.
Lemma total_len_app L L' : total_len (L ++ L') = total_len L + total_len L'.
Proof. induction L as [|[x r] L IH]; cbn; lia. Qed.
Lemma apart_snoc L x r : apart L -> (∀ b, covers L b -> r_block r <= b < r_block r + r_len r -> False) -> apart (L ++ [(x, r)]).
Proof.
  induction L as [|[y r'] L IH]; cbn [app apart]; [intros _ _; split; [intros b _; apply covers_nil | done]|].
  intros [Hr Ha] Hx. split; [|apply IH; [done|]; intros b Hb; apply Hx; rewrite covers_cons; by right].
  intros b Hb. rewrite covers_app, covers_cons. intros [Hc|[Hc|Hc]].
  - by apply (Hr b).
  - apply (Hx b); [|done]. rewrite covers_cons. by left.
  - by apply covers_nil in Hc.
Qed.
Lemma rchain_frame rs rs' p L : (∀ x, x ∈ L.*1 -> rs' !! x = rs !! x) -> rchain rs p L -> rchain rs' p L.
Proof.
  revert p. induction L as [|[x r] L IH]; intros p Hf; cbn [rchain]; [done|]. intros (-> & Hx & Hc).
  split; [done|]. split; [rewrite Hf; [done | left]|]. apply IH; [|done]. intros y Hy. apply Hf. by right.
Qed.
Lemma rchain_lookup rs p L x r : rchain rs p L -> (x, r) ∈ L -> rs !! x = Some r.
Proof.
  revert p. induction L as [|[y r'] L IH]; intros p; cbn [rchain]; [intros _ H; by apply elem_of_nil in H|].
  intros (-> & Hy & Hc) [[= -> ->]|H]%elem_of_cons; [done | by apply (IH (r_next r'))].
Qed.
(** A region linked in at the end. *)
Lemma rchain_snoc rs p L y ry x r :
  rchain rs p (L ++ [(y, ry)]) -> x ∉ (L ++ [(y, ry)]).*1 -> y ∉ L.*1 -> r_next r = None ->
  rchain (<[x := r]> (<[y := set_next (Some x) ry]> rs)) p (L ++ [(y, set_next (Some x) ry); (x, r)]).
Proof.
  revert p. induction L as [|[z rz] L IH]; intros p; cbn [app rchain fmap list_fmap fst].
  - intros (-> & Hy & Hn) Hx _ Hr. apply not_elem_of_cons in Hx as [Hxy _].
    rewrite lookup_insert_ne, !lookup_insert_eq by done. by split_and!.
  - intros (-> & Hz & Hc) Hx Hy Hr. apply not_elem_of_cons in Hx as [Hxz Hx]. apply not_elem_of_cons in Hy as [Hyz Hy].
    rewrite !lookup_insert_ne by done. split; [done|]. split; [done|]. by apply IH.
Qed.

Section Safe.
Context (g : geom) (Hg : geom_ok g).

(** The blocks of data that are free. *)
Definition free_data (s : fsys) (b : Z) : Prop :=
  ∃ i bg, bg_at s i = Some bg ∧ gfirst g i + first_free_block bg <= b < gfirst g i + first_free_block bg + free_blocks bg.
(** What an allocation leaves alone in a group. *)
Definition same_rest (bg bg' : block_group_info) : Prop :=
  ∃ bm used free first, bg' = set_used used (with_blocks bm free first bg).
Definition groups_rest (s s' : fsys) : Prop :=
  ∀ i, match bg_at s i, bg_at s' i with Some bg, Some bg' => same_rest bg bg' | None, None => True | _, _ => False end.

(** [r] is at the end of the used blocks of its group. *)
Definition at_tail (s : fsys) (r : region) : Prop :=
  ∃ bg, bg_at s (r_bg r) = Some bg ∧ r_block r + r_len r = gfirst g (r_bg r) + first_free_block bg ∧
    gfirst g (r_bg r) + gdata g (has_superblock bg) <= r_block r ∧
    data_blocks_used bg <= 2 * (r_block r - gfirst g (r_bg r) - gdata g (has_superblock bg)) + r_len r.

(** The state [s'] is [s] after the regions [L] were allocated. *)
Record allocated (s s' : fsys) (L : list (nat * region)) : Prop := Allocated {
  al_groups : groups_ok g (bgs s');
  al_rest : groups_rest s s';
  al_queued : queued_ds s' = queued_ds s;
  al_brk : brk s' = brk s;
  al_free : ∀ b, free_data s' b <-> free_data s b ∧ ¬ covers L b;
  al_in : ∀ b, covers L b -> free_data s b;
  al_apart : apart L;
  al_pos : Forall (fun c => 0 < r_len c.2) L;
  al_frame : ∀ x, (x < fresh s)%nat -> regs s' !! x = regs s !! x;
  al_fresh : (fresh s <= fresh s')%nat;
  al_keys : Forall (fun c => fresh s <= c.1 < fresh s')%nat L;
  al_dom : ∀ x, (fresh s' <= x)%nat -> regs s' !! x = None;
  al_other : ∀ i, (∀ x r, (x, r) ∈ L -> r_bg r <> i) -> bg_at s' i = bg_at s i
}.

Lemma same_rest_refl bg : same_rest bg bg.
Proof. exists (block_bitmap bg), (data_blocks_used bg), (free_blocks bg), (first_free_block bg). by destruct bg. Qed.
Lemma same_rest_trans bg1 bg2 bg3 : same_rest bg1 bg2 -> same_rest bg2 bg3 -> same_rest bg1 bg3.
Proof. intros (bm & u & f & n & ->) (bm' & u' & f' & n' & ->). by exists bm', u', f', n'. Qed.
Lemma groups_rest_refl s : groups_rest s s.
Proof. intros i. destruct (bg_at s i); [apply same_rest_refl | done]. Qed.
Lemma groups_rest_trans s1 s2 s3 : groups_rest s1 s2 -> groups_rest s2 s3 -> groups_rest s1 s3.
Proof.
  intros H1 H2 i. specialize (H1 i). specialize (H2 i). destruct (bg_at s1 i), (bg_at s2 i), (bg_at s3 i); try done. by eapply same_rest_trans.
Qed.

Definition regs_fresh (s : fsys) : Prop := ∀ x, (fresh s <= x)%nat -> regs s !! x = None.
Lemma allocated_nil s : groups_ok g (bgs s) -> regs_fresh s -> allocated s s [].
Proof.
  intros Hs Hf. split; try done.
  - apply groups_rest_refl.
  - intros b. split; [intros H; split; [done | apply covers_nil] | by intros [H _]].
  - intros b H. by apply covers_nil in H.
Qed.

(** Blocks taken from the front of a group. *)
Lemma free_data_put s i bg bg' n b : groups_ok g (bgs s) -> bg_at s i = Some bg -> taken n bg bg' -> 0 <= n <= free_blocks bg ->
  free_data (put_bg i bg' s) b <-> free_data s b ∧ ¬ (gfirst g i + first_free_block bg <= b < gfirst g i + first_free_block bg + n).
Proof.
  intros Hs E (bm & Hbg') Hn. destruct (bg_at_ok g s i bg Hs E) as [Hi Hb]. pose proof (bg_bounds g Hg i bg Hi Hb). split.
  - intros (j & bgj & Ej & Hj). rewrite (bg_at_put g s i j bg' Hs Hi) in Ej. case_decide as Hd.
    + subst j. injection Ej as <-. rewrite Hbg' in Hj. cbn in Hj. split; [exists i, bg; split; [done | lia] | lia].
    + split; [by exists j, bgj|]. intros Hbn. destruct (bg_at_ok g s j bgj Hs Ej) as [Hj' Hbj]. pose proof (bg_bounds g Hg j bgj Hj' Hbj).
      apply Hd. apply (same_group g Hg i j b); lia.
  - intros [(j & bgj & Ej & Hj) Hnb]. destruct (decide (i = j)) as [<-|Hd].
    + assert (bgj = bg) as -> by congruence. exists i, bg'. rewrite (bg_at_put g s i i bg' Hs Hi), decide_True by done. split; [done|].
      rewrite Hbg'. cbn. lia.
    + exists j, bgj. by rewrite (bg_at_put g s i j bg' Hs Hi), decide_False.
Qed.

(** One region allocated in group [i]. *)
Definition grab (i n : Z) (bg' : block_group_info) (b : Z) (s : fsys) : fsys :=
  (new_region (Region b n i None None) (put_bg i bg' s)).2.
Lemma grab_allocated s i bg bg' n : groups_ok g (bgs s) -> regs_fresh s -> bg_at s i = Some bg -> taken n bg bg' -> bg_ok g i bg' ->
  0 < n <= free_blocks bg ->
  let r := Region (gfirst g i + first_free_block bg) n i None None in
  allocated s (grab i n bg' (r_block r) s) [(fresh s, r)] ∧ at_tail (grab i n bg' (r_block r) s) r.
Proof.
  intros Hs Hf E Ht Hbg' Hn r. destruct (bg_at_ok g s i bg Hs E) as [Hi Hb]. pose proof (bg_bounds g Hg i bg Hi Hb).
  assert (Hcov : ∀ b, covers [(fresh s, r)] b <-> gfirst g i + first_free_block bg <= b < gfirst g i + first_free_block bg + n).
  { intros b. rewrite covers_cons. split; [intros [H1|H1%covers_nil]; [exact H1 | done] | by left]. }
  assert (Hat : ∀ j, bg_at (grab i n bg' (r_block r) s) j = bg_at (put_bg i bg' s) j) by done.
  split; [split; try done|].
  - by apply groups_ok_put.
  - intros j. rewrite Hat, (bg_at_put g s i j bg' Hs Hi). case_decide as Hd.
    + subst j. rewrite E. destruct Ht as (bm & ->). by eexists _, _, _, _.
    + destruct (bg_at s j); [apply same_rest_refl | done].
  - intros b. rewrite Hcov. apply (free_data_put s i bg bg' n b Hs E Ht). lia.
  - intros b Hc%Hcov. exists i, bg. split; [done | lia].
  - cbn. split; [|done]. intros b _ Hc. by apply covers_nil in Hc.
  - repeat constructor. cbn. lia.
  - intros x Hx. cbn. by rewrite lookup_insert_ne by lia.
  - cbn. lia.
  - repeat constructor; cbn; lia.
  - intros x Hx. cbn in *. rewrite lookup_insert_ne by lia. apply Hf. lia.
  - intros j Hj. rewrite Hat, (bg_at_put g s i j bg' Hs Hi), decide_False; [done|]. intros <-. by apply (Hj (fresh s) r); [left|].
  - exists bg'. change (r_bg r) with i. rewrite Hat, (bg_at_put g s i i bg' Hs Hi), decide_True by done. split; [done|]. destruct Ht as (bm & ->).
    cbn [r_block r_len r_bg r first_free_block has_superblock data_blocks_used set_used with_blocks]. pose proof (b_used _ _ _ Hb). lia.
Qed.

(** ** The searches *)
Lemma contiguous_from_ok n i len s : groups_ok g (bgs s) -> regs_fresh s -> 0 < len < 2 ^ 32 -> 0 <= i -> i + Z.of_nat n <= groups g ->
  (contiguous_from n i len s = Some (None, s) ∧ ∀ j bg, i <= j < i + Z.of_nat n -> bg_at s j = Some bg -> free_blocks bg < len) ∨
  ∃ j bg bg', bg_at s j = Some bg ∧ taken len bg bg' ∧ bg_ok g j bg' ∧ len <= free_blocks bg ∧
    contiguous_from n i len s = Some (Some (fresh s), grab j len bg' (gfirst g j + first_free_block bg) s).
Proof.
  intros Hs Hf Hlen. revert i. induction n as [|n IH]; intros i Hi Hn; cbn [contiguous_from].
  - left. split; [done | lia].
  - destruct (from_group_ok g Hg len i s Hs) as (bg & E & Hb & [(Hlt & ->)|(Hle & bg' & Ht & Hb' & -> & Hne)]); [lia | lia | |]; cbn [mbind option_bind].
    + rewrite Z.eqb_refl. cbn [negb]. destruct (IH (i + 1)) as [[E2 H2]|H2]; [lia | lia | left | by right].
      split; [done|]. intros j bgj Hj Ej. destruct (decide (j = i)) as [->|]; [by assert (bgj = bg) as -> by congruence|]. apply (H2 j); [lia | done].
    + rewrite (proj2 (Z.eqb_neq _ _)) by done. cbn [negb]. right. by exists i, bg, bg'.
Qed.
Definition no_room (len : Z) (s : fsys) : Prop := ∀ j bg, bg_at s j = Some bg -> free_blocks bg < len.
Lemma contiguous_ok len s : groups_ok g (bgs s) -> regs_fresh s -> 0 < len < 2 ^ 32 ->
  (ext4_allocate_contiguous_blocks g len s = Some (None, s) ∧ no_room len s) ∨
  ∃ r s', ext4_allocate_contiguous_blocks g len s = Some (Some (fresh s), s') ∧ r_len r = len ∧ r_next r = None ∧ r_prev r = None ∧
    regs s' !! fresh s = Some r ∧ fresh s' = S (fresh s) ∧ allocated s s' [(fresh s, r)] ∧ at_tail s' r ∧
    ∃ bg, bg_at s (r_bg r) = Some bg ∧ len <= free_blocks bg.
Proof.
  intros Hs Hf Hlen. pose proof (go_groups g Hg).
  destruct (contiguous_from_ok (Z.to_nat (groups g)) 0 len s Hs Hf Hlen) as [[E H1]|(j & bg & bg' & E & Ht & Hb & Hle & E2)]; [lia | lia | left | right].
  - split; [done|]. intros j bg Ej. destruct (bg_at_ok g s j bg Hs Ej). apply (H1 j); [lia | done].
  - destruct (grab_allocated s j bg bg' len Hs Hf E Ht Hb) as [Ha Htail]; [lia|]. exists (Region (gfirst g j + first_free_block bg) len j None None).
    eexists. split; [exact E2|]. do 3 (split; [done|]). split; [cbn; by rewrite lookup_insert_eq|]. split; [done|]. split; [done|]. split; [done|]. by exists bg.
Qed.
(** No group is without data. *)
Definition empties (s : fsys) : nat := length (filter (fun bg => data_blocks_used bg = 0) (bgs s)).
Lemma empties_le s : (empties s <= length (bgs s))%nat.
Proof. apply length_filter. Qed.
Definition no_empty (s : fsys) : Prop := ∀ j bg, bg_at s j = Some bg -> data_blocks_used bg <> 0.
Lemma empties_put s i bg bg' : bg_at s i = Some bg -> data_blocks_used bg = 0 -> data_blocks_used bg' <> 0 ->
  (empties (put_bg i bg' s) < empties s)%nat.
Proof.
  unfold bg_at, empties, put_bg, set_bgs. cbn [bgs]. case_match; [done|]. intros E H0 H1. generalize dependent (Z.to_nat i). intros k E.
  rewrite <- (take_drop_middle _ _ _ E) at 2. rewrite insert_take_drop by (by eapply lookup_lt_Some). rewrite !filter_app, !length_app.
  rewrite !filter_cons, decide_False, decide_True by done. cbn [length]. lia.
Qed.
Lemma partial_from_ok n i len s : groups_ok g (bgs s) -> regs_fresh s -> 0 < len < 2 ^ 32 -> 0 <= i -> i + Z.of_nat n <= groups g ->
  (partial_from g n i len s = Some (None, s) ∧ ∀ j bg, i <= j < i + Z.of_nat n -> bg_at s j = Some bg -> data_blocks_used bg <> 0) ∨
  ∃ r s', partial_from g n i len s = Some (Some (fresh s), s') ∧ r_next r = None ∧ r_prev r = None ∧
    regs s' !! fresh s = Some r ∧ fresh s' = S (fresh s) ∧ allocated s s' [(fresh s, r)] ∧ at_tail s' r ∧
    (∃ bg, bg_at s (r_bg r) = Some bg ∧ 0 < free_blocks bg) ∧ r_len r <= len ∧
    (r_len r < len -> 2 <= r_len r ∧ (empties s' < empties s)%nat ∧ ∃ bg', bg_at s' (r_bg r) = Some bg' ∧ free_blocks bg' = 0).
Proof.
  intros Hs Hf Hlen. revert i. induction n as [|n IH]; intros i Hi Hn; cbn [partial_from].
  - left. split; [done | lia].
  - destruct (bg_at_is_Some g s i Hs) as [bg E]; [lia|]. destruct (bg_at_ok g s i bg Hs E) as [_ Hb]. rewrite E. cbn [mbind option_bind].
    destruct (Z.eqb_spec (data_blocks_used bg) 0) as [H0|H0].
    + destruct (Z.leb_spec len (free_blocks bg)) as [Hle|Hgt].
      * destruct (contiguous_ok len s Hs Hf Hlen) as [[_ Hno]|(r & s' & E2 & Hl & Hn1 & Hp & Hx & Hf' & Ha & Ht & bgr & Er & Hr)];
          [specialize (Hno i bg E); lia|].
        right. exists r, s'. do 7 (split; [done|]). split; [exists bgr; split; [done | lia]|]. split; lia.
      * assert (2 <= free_blocks bg) as Hroom.
        { pose proof (go_room g Hg i (has_superblock bg) ltac:(lia) (b_super _ _ _ Hb)). pose proof (b_used _ _ _ Hb). destruct (b_free _ _ _ Hb) as (? & ? & ?). lia. }
        destruct (from_group_ok g Hg (free_blocks bg) i s Hs) as (bg2 & E2 & _ & [(Hlt & _)|(Hle & bg' & Ht & Hb' & -> & Hne)]);
          [lia | lia | assert (bg2 = bg) as -> by congruence; lia |]. assert (bg2 = bg) as -> by congruence. cbn [mbind option_bind].
        rewrite (proj2 (Z.eqb_neq _ _)) by done. right.
        destruct (grab_allocated s i bg bg' (free_blocks bg) Hs Hf E Ht Hb') as [Ha Htail]; [lia|].
        exists (Region (gfirst g i + first_free_block bg) (free_blocks bg) i None None). eexists.
        split; [done|]. do 2 (split; [done|]). split; [cbn; by rewrite lookup_insert_eq|].
        split; [done|]. split; [exact Ha|]. split; [exact Htail|]. cbn [r_len r_bg]. split; [exists bg; split; [done | lia]|]. split; [lia|]. intros _. split; [done|].
        destruct Ht as (bm & Ebg'). split.
        -- change (empties (put_bg i bg' s) < empties s)%nat. apply (empties_put s i bg bg' E H0). rewrite Ebg'. cbn. lia.
        -- exists bg'. change (bg_at (put_bg i bg' s) i = Some bg' ∧ free_blocks bg' = 0).
           rewrite (bg_at_put g s i i bg' Hs) by lia. rewrite decide_True by done. split; [done|]. rewrite Ebg'. cbn. lia.
    + destruct (IH (i + 1)) as [[E2 H2]|H2]; [lia | lia | left | by right].
      split; [done|]. intros j bgj Hj Ej. destruct (decide (j = i)) as [->|]; [by assert (bgj = bg) as -> by congruence|]. apply (H2 j); [lia | done].
Qed.

(** ** Several regions *)
Lemma allocated_snoc s0 s s1 L x r : allocated s0 s L -> allocated s s1 [(x, r)] -> allocated s0 s1 (L ++ [(x, r)]).
Proof.
  intros [A1 A2 A3 A4 A5 A6 A7 A8 A9 A10 A11 A12 A13] [B1 B2 B3 B4 B5 B6 B7 B8 B9 B10 B11 B12 B13].
  split; try done; try congruence; try lia.
  - by apply (groups_rest_trans s0 s s1).
  - intros b. rewrite B5, A5, covers_app. tauto.
  - intros b [Hb|Hb]%covers_app; [by apply A6 | by apply B6, A5 in Hb as [? _]].
  - apply apart_snoc; [done|]. intros b Hb Hr. assert (free_data s b) as Hf by (apply B6; rewrite covers_cons; by left). by apply A5 in Hf as [_ Hn].
  - by apply Forall_app.
  - intros y Hy. rewrite B9 by lia. by apply A9.
  - apply Forall_app. split; (eapply Forall_impl; [eassumption|]); intros c Hc; cbn in *; lia.
  - intros j Hj. rewrite B13, A13; [done | |]; intros y r' Hin; eapply Hj, elem_of_app; eauto.
Qed.
Definition same_region (c c' : nat * region) : Prop := c.1 = c'.1 ∧ same_blocks c c' ∧ r_bg c.2 = r_bg c'.2.
Lemma same_region_blocks L L' : Forall2 same_region L L' -> Forall2 same_blocks L L'.
Proof. intros H. eapply Forall2_impl; [exact H|]. by intros c c' (_ & ? & _). Qed.
Lemma same_region_refl L : Forall2 same_region L L.
Proof. induction L; constructor; [done | done]. Qed.
Lemma allocated_relink s0 s1 s2 L L' : allocated s0 s1 L -> Forall2 same_region L L' ->
  bgs s2 = bgs s1 -> queued_ds s2 = queued_ds s1 -> brk s2 = brk s1 -> fresh s2 = fresh s1 ->
  (∀ x, (x < fresh s0)%nat ∨ (fresh s1 <= x)%nat -> regs s2 !! x = regs s1 !! x) -> allocated s0 s2 L'.
Proof.
  intros [A1 A2 A3 A4 A5 A6 A7 A8 A9 A10 A11 A12 A13] HL Eb Eq Ek Ef Er. pose proof (same_region_blocks _ _ HL) as HB.
  assert (Hat : ∀ i, bg_at s2 i = bg_at s1 i) by (intros i; unfold bg_at; by rewrite Eb).
  split; [by rewrite Eb | | congruence | congruence | ..].
  - intros i. rewrite Hat. apply A2.
  - intros b. rewrite <- (covers_same _ _ _ HB), <- A5. split; intros (i & bg & E & Hi); exists i, bg; by rewrite Hat in *.
  - intros b Hb. apply A6. by rewrite (covers_same _ _ _ HB).
  - by eapply apart_same.
  - clear -HL A8. induction HL as [|c c' L L' (_ & [_ El] & _) _ IH]; [done|]. apply Forall_cons in A8 as [? ?]. constructor; [lia | auto].
  - intros x Hx. rewrite Er by (by left). by apply A9.
  - lia.
  - clear -HL A11 Ef. induction HL as [|c c' L L' (E & _ & _) _ IH]; [done|]. apply Forall_cons in A11 as [? ?]. constructor; [lia | auto].
  - intros x Hx. rewrite Er by (right; lia). apply A12. lia.
  - intros i Hi. rewrite Hat. apply A13. intros x r Hin. apply list_elem_of_lookup in Hin as [k Hk].
    destruct (Forall2_lookup_l _ _ _ _ _ HL Hk) as ([x' r'] & Hk' & _ & _ & Eg). cbn in Eg. rewrite Eg. apply (Hi x'). by eapply list_elem_of_lookup_2.
Qed.

(** The chain an allocation returns, from its first region. *)
Definition good_chain (s : fsys) (first : option nat) (L : list (nat * region)) : Prop :=
  ∃ x0 r0 L1, L = (x0, r0) :: L1 ∧ first = Some x0 ∧ rchain (regs s) first L ∧ NoDup L.*1 ∧ r_prev r0 = None ∧ at_tail s r0 ∧ (L1 = [] ∨ 2 <= r_len r0).
Definition full_first (s : fsys) (L : list (nat * region)) : Prop :=
  match L with [] => True | (_, r0) :: _ => 2 <= r_len r0 ∧ ∃ bg, bg_at s (r_bg r0) = Some bg ∧ free_blocks bg = 0 end.
Lemma at_tail_ext s s' r r' : bg_at s' (r_bg r) = bg_at s (r_bg r) -> r_block r' = r_block r -> r_len r' = r_len r -> r_bg r' = r_bg r ->
  at_tail s r -> at_tail s' r'.
Proof. intros E E1 E2 E3 (bg & Eb & H). exists bg. rewrite E1, E2, E3. split; [congruence | done]. Qed.

Lemma multiple_first len s : groups_ok g (bgs s) -> regs_fresh s -> 0 < len < 2 ^ 32 ->
  (ext4_allocate_partial g len s = Some (None, s) ∧ no_empty s) ∨
  ∃ r s', ext4_allocate_partial g len s = Some (Some (fresh s), s') ∧ allocated s s' [(fresh s, r)] ∧ regs s' !! fresh s = Some r ∧
    good_chain s' (Some (fresh s)) [(fresh s, r)] ∧ r_len r <= len ∧
    (r_len r < len -> (empties s' < empties s)%nat ∧ full_first s' [(fresh s, r)]).
Proof.
  intros Hs Hf Hlen. pose proof (go_groups g Hg).
  destruct (partial_from_ok (Z.to_nat (groups g)) 0 len s Hs Hf) as [[E H1]|(r & s' & E & Hn & Hp & Hx & Hf' & Ha & Ht & _ & Hle & Hlt)]; [lia | lia | lia | left | right].
  - split; [done|]. intros j bg Ej. destruct (bg_at_ok g s j bg Hs Ej). apply (H1 j); [lia | done].
  - exists r, s'. split; [done|]. split; [done|]. split; [done|]. split.
    + exists (fresh s), r, []. do 2 (split; [done|]). split; [by cbn; rewrite Hn|]. split; [apply NoDup_singleton|]. do 2 (split; [done|]). by left.
    + split; [done|]. intros H2. destruct (Hlt H2) as (H3 & He & bg' & Eb & H0). split; [done|]. split; [done|]. by exists bg'.
Qed.

(** Another region, linked in behind [y]. *)
Lemma multiple_next len s0 s L y ry : regs_fresh s -> 0 < len < 2 ^ 32 -> allocated s0 s (L ++ [(y, ry)]) ->
  good_chain s (fst <$> head (L ++ [(y, ry)])) (L ++ [(y, ry)]) -> full_first s (L ++ [(y, ry)]) ->
  (ext4_allocate_partial g len s = Some (None, s) ∧ no_empty s) ∨
  ∃ r s1 s2 L' y' ry', ext4_allocate_partial g len s = Some (Some (fresh s), s1) ∧
    (s' ← upd_region (set_next (Some (fresh s))) y s1; upd_region (set_prev (Some y)) (fresh s) s') = Some s2 ∧
    regs s2 !! fresh s = Some (set_prev (Some y) r) ∧ allocated s0 s2 (L' ++ [(y', ry')]) ∧ y' = fresh s ∧
    good_chain s2 (fst <$> head (L ++ [(y, ry)])) (L' ++ [(y', ry')]) ∧ length (L' ++ [(y', ry')]) = S (length (L ++ [(y, ry)])) ∧ (fst <$> head (L' ++ [(y', ry')])) = fst <$> head (L ++ [(y, ry)]) ∧
    total_len (L' ++ [(y', ry')]) = total_len (L ++ [(y, ry)]) + r_len r ∧ 0 < r_len r <= len ∧
    (r_len r < len -> (empties s2 < empties s)%nat ∧ full_first s2 (L' ++ [(y', ry')])).
Proof.
  intros Hf Hlen Hal Hgc Hff. pose proof (go_groups g Hg). pose proof (al_groups _ _ _ Hal) as Hs.
  destruct (partial_from_ok (Z.to_nat (groups g)) 0 len s Hs Hf) as [[E H1]|(r & s1 & E & Hn & Hp & Hx & Hf' & Ha & Ht & (bgr & Ebr & Hbr) & Hle & Hlt)];
    [lia | lia | lia | left | right].
  { split; [done|]. intros j bg Ej. destruct (bg_at_ok g s j bg Hs Ej). apply (H1 j); [lia | done]. }
  destruct Hgc as (x0 & r0 & L1 & EL & Efirst & Hc & Hnd & Hp0 & Htail & H2).
  pose proof (allocated_snoc _ _ _ _ _ _ Hal Ha) as Hal1. rewrite <- app_assoc in Hal1. cbn [app] in Hal1.
  assert (Hkeys : Forall (fun c => c.1 < fresh s)%nat (L ++ [(y, ry)])).
  { eapply Forall_impl; [apply (al_keys _ _ _ Hal)|]. cbn. lia. }
  assert (Hxn : fresh s ∉ (L ++ [(y, ry)]).*1).
  { intros ([z rz] & Ez & Hin)%list_elem_of_fmap. rewrite Forall_forall in Hkeys. specialize (Hkeys _ Hin). cbn in *. lia. }
  assert (Hc1 : rchain (regs s1) (fst <$> head (L ++ [(y, ry)])) (L ++ [(y, ry)])).
  { eapply rchain_frame; [|exact Hc]. intros z Hz. apply (al_frame _ _ _ Ha). rewrite Forall_forall in Hkeys.
    apply list_elem_of_fmap in Hz as (c & -> & Hin). by apply Hkeys. }
  assert (Hy1 : regs s1 !! y = Some ry) by (eapply rchain_lookup; [exact Hc1|]; apply elem_of_app; right; left).
  assert (HyL : y ∉ L.*1).
  { rewrite fmap_app in Hnd. apply NoDup_app in Hnd as (_ & Hd & _). intros Hin. apply (Hd y Hin). cbn. left. }
  assert (Hyx : y <> fresh s) by (intros ->; apply Hxn; rewrite fmap_app, elem_of_app; right; left).
  pose proof (rchain_snoc (regs s1) _ L y ry (fresh s) (set_prev (Some y) r) Hc1 Hxn HyL Hn) as Hc2.
  set (s2 := set_regs (<[fresh s := set_prev (Some y) r]> (<[y := set_next (Some (fresh s)) ry]> (regs s1))) s1).
  set (L' := L ++ [(y, set_next (Some (fresh s)) ry)]).
  assert (Hsame : Forall2 same_region (L ++ [(y, ry); (fresh s, r)]) (L' ++ [(fresh s, set_prev (Some y) r)])).
  { unfold L'. rewrite <- app_assoc. apply Forall2_app; [apply same_region_refl|]. by repeat constructor. }
  exists r, s1, s2, L', (fresh s), (set_prev (Some y) r). split; [done|]. split.
  { unfold upd_region. rewrite Hy1. cbn. rewrite lookup_insert_ne, Hx by done. done. }
  split; [cbn; by rewrite lookup_insert_eq|]. split.
  { apply (allocated_relink s0 s1 s2 _ _ Hal1 Hsame); try done. intros z Hz. cbn. pose proof (al_keys _ _ _ Hal) as Hk. rewrite Forall_forall in Hk.
    specialize (Hk (y, ry) ltac:(apply elem_of_app; right; left)). pose proof (al_fresh _ _ _ Hal). cbn in Hk.
    rewrite !lookup_insert_ne; [done | lia | lia]. }
  split; [done|].
  assert (Hhead : ∃ r0', head (L' ++ [(fresh s, set_prev (Some y) r)]) = Some (x0, r0') ∧ r_block r0' = r_block r0 ∧ r_len r0' = r_len r0 ∧ r_bg r0' = r_bg r0 ∧ r_prev r0' = r_prev r0).
  { unfold L'. rewrite <- app_assoc. destruct L as [|c L0]; cbn in EL |- *; injection EL as ??; subst; eauto 10. }
  destruct Hhead as (r0' & Eh & E1 & E2 & E3 & E4).
  assert (Hother : bg_at s2 (r_bg r0) = bg_at s (r_bg r0)).
  { change (bg_at s1 (r_bg r0) = bg_at s (r_bg r0)). apply (al_other _ _ _ Ha). intros z rz Hin. apply list_elem_of_singleton in Hin as [= -> ->].
    intros Eg. rewrite EL in Hff. destruct Hff as (_ & bg0 & Eb0 & H00). rewrite Eg in Ebr. assert (bg0 = bgr) as -> by congruence. lia. }
  split; [|split; [unfold L'; rewrite !length_app; cbn; lia|]; split; [rewrite Eh, EL; done|]; split; [|split]].
  - exists x0, r0', (tail (L' ++ [(fresh s, set_prev (Some y) r)])).
    split; [destruct (L' ++ [(fresh s, set_prev (Some y) r)]); cbn in Eh |- *; congruence|]. split; [by rewrite EL|].
    split; [unfold L'; rewrite <- app_assoc; exact Hc2|]. split.
    + unfold L'. rewrite <- app_assoc, fmap_app. cbn. rewrite fmap_app in Hnd, Hxn. cbn in Hnd, Hxn.
      replace (L.*1 ++ [y; fresh s]) with ((L.*1 ++ [y]) ++ [fresh s]) by (by rewrite <- app_assoc). apply NoDup_app. split; [done|].
      split; [intros z Hz Hz2; apply list_elem_of_singleton in Hz2 as ->; done | apply NoDup_singleton].
    + split; [congruence|]. split; [by apply (at_tail_ext s s2 r0 r0')|]. right. rewrite EL in Hff. destruct Hff. lia.
  - rewrite <- (total_len_same _ _ (same_region_blocks _ _ Hsame)). rewrite !total_len_app. cbn. lia.
  - pose proof (al_pos _ _ _ Ha) as Hpos. apply Forall_cons in Hpos as [Hpos _]. cbn in Hpos. lia.
  - intros Hl. destruct (Hlt Hl) as (_ & He & _). split; [exact He|].
    destruct (L' ++ [(fresh s, set_prev (Some y) r)]) as [|[z rz] L2]; [done|]. cbn in Eh. injection Eh as -> ->. cbn. rewrite E2, E3, Hother.
    rewrite EL in Hff. exact Hff.
Qed.


Lemma allocated_dom s s' L : allocated s s' L -> regs_fresh s'.
Proof. intros H x Hx. by apply (al_dom _ _ _ H). Qed.
(** The loop ends: every region but the last takes the last blocks of a group that had no data. *)
Lemma multiple_loop_ok fuel s0 : ∀ len s L y ry, 0 <= len < 2 ^ 32 -> allocated s0 s (L ++ [(y, ry)]) ->
  good_chain s (fst <$> head (L ++ [(y, ry)])) (L ++ [(y, ry)]) -> (0 < len -> (empties s < fuel)%nat ∧ full_first s (L ++ [(y, ry)])) ->
  ∃ res s' L', multiple_loop g fuel (fst <$> head (L ++ [(y, ry)])) (Some y) len s = Some (res, s') ∧ allocated s0 s' L' ∧
    (res = None ∧ no_empty s' ∨ good_chain s' res L' ∧ total_len L' = total_len (L ++ [(y, ry)]) + len) ∧
    (length L' <= length (L ++ [(y, ry)]) + if (0 <? len)%Z then S (empties s) else 0)%nat.
Proof.
  induction fuel as [|fuel IH]; intros len s L y ry Hlen Hal Hgc Hff; cbn [multiple_loop];
    (destruct (Z.ltb_spec 0 len) as [Hpos|H0]; [destruct (Hff Hpos) as [He Hfull] |
      exists (fst <$> head (L ++ [(y, ry)])), s, (L ++ [(y, ry)]); split; [done|]; split; [done|]; split; [right; split; [done | lia] | lia]]); [lia|].
  destruct (multiple_next len s0 s L y ry (allocated_dom _ _ _ Hal) ltac:(lia) Hal Hgc Hfull)
    as [[E Hno]|(r & s1 & s2 & L' & y' & ry' & E & Eu & Hx & Hal' & -> & Hgc' & Hlen' & Eh & Htot & Hle & Hlt)]; rewrite E; cbn [mbind option_bind].
  - exists None, s, (L ++ [(y, ry)]). split; [done|]. split; [done|]. split; [by left | lia].
  - destruct Hgc as (x0 & r0 & L1 & EL & Ef & _). rewrite Ef in *. cbn [mbind option_bind] in Eu |- *. rewrite Eu. cbn [mbind option_bind]. rewrite Hx. cbn [mbind option_bind r_len set_prev].
    rewrite u32_small by lia. rewrite <- Eh in *.
    destruct (IH (len - r_len r) s2 L' (fresh s) ry') as (res & s' & L2 & E2 & Hal2 & H2 & HL2); [lia | done | done | |].
    { intros Hp. destruct (Hlt ltac:(lia)). split; [lia | done]. }
    exists res, s', L2. split; [done|]. split; [done|]. split; [destruct H2 as [H2|[H2 H3]]; [by left | right; split; [done | lia]]|].
    rewrite Hlen' in HL2. destruct (Z.ltb_spec 0 (len - r_len r)) as [Hp|Hp]; [destruct (Hlt ltac:(lia)); lia | lia].
Qed.
(** What an allocation returns. *)
Definition chain_of (s : fsys) (first : option nat) (L : list (nat * region)) (len : Z) : Prop :=
  good_chain s first L ∧ total_len L = len.
Lemma do_allocate_ok fuel len s : groups_ok g (bgs s) -> regs_fresh s -> 0 < len < 2 ^ 32 -> (empties s < fuel)%nat ->
  ∃ res s' L, do_allocate g fuel len s = Some (res, s') ∧ allocated s s' L ∧
    (res = None ∧ no_room len s ∧ no_empty s' ∨ chain_of s' res L len) ∧ (length L <= S (empties s))%nat.
Proof.
  intros Hs Hf Hlen Hfuel. unfold do_allocate. destruct (contiguous_ok len s Hs Hf Hlen)
    as [[-> Hno]|(r & s' & -> & Hl & Hn & Hp & Hx & _ & Ha & Ht & _)]; cbn [mbind option_bind].
  2:{ exists (Some (fresh s)), s', [(fresh s, r)]. split; [done|]. split; [done|]. split; [|cbn; lia]. right. split; [|cbn; lia].
      exists (fresh s), r, []. do 2 (split; [done|]). split; [by cbn; rewrite Hn|]. split; [apply NoDup_singleton|]. do 2 (split; [done|]). by left. }
  unfold ext4_allocate_multiple_contiguous_blocks. destruct fuel as [|fuel]; [lia|]. cbn [multiple_loop]. rewrite (proj2 (Z.ltb_lt _ _)) by lia.
  destruct (multiple_first len s Hs Hf Hlen) as [[-> Hne]|(r & s1 & -> & Ha & Hx & Hgc & Hle & Hlt)]; cbn [mbind option_bind].
  { exists None, s, []. split; [done|]. split; [by apply allocated_nil|]. split; [by left | cbn; lia]. }
  rewrite Hx. cbn [mbind option_bind]. pose proof (al_pos _ _ _ Ha) as Hpos. apply Forall_cons in Hpos as [Hpos _]. cbn in Hpos.
  rewrite u32_small by lia.
  destruct (multiple_loop_ok fuel s (len - r_len r) s1 [] (fresh s) r) as (res & s' & L & E & Hal & H2 & HL); [lia | done | done | |].
  { intros H3. destruct (Hlt ltac:(lia)). split; [lia | done]. }
  cbn [app fmap option_fmap option_map head fst total_len] in E, H2. exists res, s', L. split; [exact E|]. split; [done|].
  split; [destruct H2 as [[-> H2]|[H2 H3]]; [by left | right; split; [done | lia]]|].
  cbn [app length] in HL. destruct (Z.ltb_spec 0 (len - r_len r)) as [Hp|Hp]; [destruct (Hlt ltac:(lia)); lia | lia].
Qed.
End Safe.
