(* ===== verification/AllocInit.v ===== *)
(** * Where the groups are, and what they hold at the start

    Which groups have a copy of the super block, and the groups [block_allocator_init] makes:
    they have the invariant of the allocator, with all the blocks behind the headers free. *)
From stdpp Require Import base gmap list.
From Stdlib Require Import ZArith Lia.
From S2P Require Import Prelude Crc Backed Alloc AllocBits AllocInv AllocSafe.
#[local] Open Scope Z_scope.

(** ** Powers *)
Definition power_of (a b : Z) : Prop := ∃ k, 0 <= k ∧ a = b ^ k.
Lemma power_loop_ok fuel a b : 2 <= b -> 0 <= a -> a <= Z.of_nat fuel ->
  ∃ r, power_loop fuel a b = Some r ∧ (a <> 1 -> r = true <-> power_of a b).
Proof.
  intros Hb. revert a. induction fuel as [|fuel IH]; intros a Ha Hf; cbn [power_loop]; destruct (Z.ltb_spec b a) as [Hlt|Hge]; try lia.
  - eexists. split; [done|]. intros _. rewrite Z.eqb_eq. split; [lia|]. intros (k & Hk & Ek). assert (0 < b ^ k) by (apply Z.pow_pos_nonneg; lia). lia.
  - destruct (Z.eqb_spec (a mod b) 0) as [Hm|Hm]; cbn [negb].
    + assert (Hd : a = b * (a / b)) by (pose proof (Z.div_mod a b); lia).
      assert (Hd1 : 0 <= a / b) by (apply Z.div_pos; lia). assert (Hdl : a / b < a) by (apply Z.div_lt; lia).
      destruct (IH (a / b)) as (r & E & Hr); [done | lia |]. exists r. split; [done|]. intros _. rewrite Hr by nia. split.
      * intros (k & Hk & Ek). exists (k + 1). split; [lia|]. rewrite Z.pow_add_r, <- Ek by lia. lia.
      * intros (k & Hk & Ek). destruct (decide (k = 0)) as [->|Hk0]; [rewrite Z.pow_0_r in Ek; lia|]. exists (k - 1). split; [lia|].
        rewrite Ek. replace k with (1 + (k - 1)) at 1 by lia. rewrite Z.pow_add_r, Z.pow_1_r, Z.mul_comm, Z.div_mul by lia. done.
    + exists false. split; [done|]. intros _. split; [done|]. intros (k & Hk & Ek). destruct (decide (k = 0)) as [->|Hk0]; [rewrite Z.pow_0_r in Ek; lia|].
      destruct Hm. rewrite Ek. replace k with (1 + (k - 1)) by lia. rewrite Z.pow_add_r, Z.pow_1_r, Z.mul_comm by lia. apply Z.mod_mul. lia.
  - eexists. split; [done|]. intros H1. rewrite Z.eqb_eq. split; [intros ->; exists 1; split; [lia | by rewrite Z.pow_1_r]|].
    intros (k & Hk & Ek). destruct (decide (k = 0)) as [->|Hk0]; [rewrite Z.pow_0_r in Ek; lia|].
    assert (b ^ 1 <= b ^ k) by (apply Z.pow_le_mono_r; lia). rewrite Z.pow_1_r in *. lia.
Qed.
Lemma has_super_ok g i : 0 <= i -> ∃ sup, ext4_bg_has_super_block g i = Some sup ∧
  (sup = true <-> sparse_super g = false ∨ i = 0 ∨ power_of i 3 ∨ power_of i 5 ∨ power_of i 7).
Proof.
  intros Hi. unfold ext4_bg_has_super_block. destruct (sparse_super g); cbn [negb]; [|by exists true; split; [|split; [left|]]].
  destruct (Z.eqb_spec i 0) as [->|H0]; cbn [orb]; [exists true; split; [done|]; split; [by right; left | done]|].
  destruct (Z.eqb_spec i 1) as [->|H1]; cbn [orb].
  { exists true. split; [done|]. split; [|done]. intros _. right. right. left. by exists 0. }
  unfold is_power_of. destruct (power_loop_ok (Z.to_nat i) i 3) as (r3 & -> & H3); [lia | lia | lia |].
  destruct (power_loop_ok (Z.to_nat i) i 5) as (r5 & -> & H5); [lia | lia | lia |].
  destruct (power_loop_ok (Z.to_nat i) i 7) as (r7 & -> & H7); [lia | lia | lia |]. cbn [mbind option_bind].
  eexists. split; [done|]. rewrite !orb_true_iff, H3, H5, H7 by done. split; [tauto|]. intros [?|[?|?]]; [done | done | tauto].
Qed.

(** ** The groups at the start *)
Section Init.
Context (g : geom) (Hg : geom_ok g).

Lemma zero_bits n j : bit_at (replicate n 0) j = false.
Proof.
  unfold bit_at. destruct (replicate n 0 !! Z.to_nat (j / 8)) as [b|] eqn:E; [|done]. apply lookup_replicate in E as [-> _]. apply Z.bits_0.
Qed.
Lemma zeros_bytes n : bytes (replicate n 0).
Proof. apply Forall_replicate. lia. Qed.

(** What the initialisation of group [i] queues. *)
Definition bitmap_block (i p : Z) (sup : bool) : data_block :=
  DataBlock (gfirst g i + gmaps g sup) (2 * blk_size g) p None 0 0 false None.
Definition fresh_group (i : Z) (sup : bool) (bg : block_group_info) : Prop :=
  bg_ok g i bg ∧ has_superblock bg = sup ∧ first_free_block bg = gdata g sup ∧ free_blocks bg = gsize g i - gdata g sup ∧ data_blocks_used bg = 0 ∧
  inode_table bg = None ∧ free_inodes bg = inodes_per_group g ∧ first_free_inode bg = 1 ∧ inode_bitmap bg = replicate (Z.to_nat (blk_size g)) 0.

Lemma init_bg_ok i s : 0 <= i < groups g ->
  ∃ sup bg, ext4_bg_has_super_block g i = Some sup ∧ fresh_group i sup bg ∧
    init_bg g i s = Some (Fsys (bgs s ++ [bg]) (regs s) (fresh s) (queued_ds s ++ [bitmap_block i (brk s) sup]) (brk s + 2 * blk_size g)).
Proof.
  intros Hi. destruct (has_super_ok g i) as (sup & Esup & _); [lia|]. pose proof (go_room g Hg i sup Hi Esup) as Hroom.
  pose proof (gfirst_range g Hg i Hi) as (Hf1 & Hf2 & Hf3). pose proof (blk_range g Hg) as Hblk. pose proof (bpg_range g Hg) as Hbpg.
  pose proof (go_bpg g Hg) as Hbpg2. pose proof (go_max g Hg) as Hmax. pose proof (go_counts g Hg) as Hc. pose proof (gdata_pos g Hg sup) as Hd.
  pose proof (go_first g Hg) as Hfd. set (z := replicate (Z.to_nat (blk_size g)) 0).
  assert (Hz : zlen z = blk_size g) by (unfold zlen, z; rewrite length_replicate; lia).
  assert (Hzb : bytes z) by apply zeros_bytes.
  assert (Hzero : ∀ j, bit_at z j = false) by apply zero_bits.
  destruct (set_blocks_ok z 0 (gdata g sup)) as (bm & E1 & Hbm); [done | lia | lia | lia | lia | intros j _; apply zero_bits |].
  assert (Hmaps : gmaps g sup + 2 + inode_table_blocks g = gdata g sup) by (unfold gdata, gtable; lia).
  assert (Hhead : 2 + inode_table_blocks g + (if sup then super_blocks g else 0) = gdata g sup ∧ (if sup then u32 (gfirst g i + super_blocks g) else gfirst g i) = gfirst g i + gmaps g sup).
  { unfold gmaps in *. unfold super_blocks. destruct sup; [rewrite (u32_small (1 + _ + _)), (u32_small (_ + _)) by lia | ]; lia. }
  destruct Hhead as [Hhead Hwhere].
  pose proof Hbm as (B1 & L1 & H1).
  set (bg0 := BlockGroup (gfirst g i) (gdata g sup) 0 sup z z None (blocks_per_group g) 0 (inodes_per_group g) 1 0).
  assert (Er : reserve_blocks bg0 0 (gdata g sup) = Some (0, with_blocks bm (blocks_per_group g - gdata g sup) (gdata g sup) bg0)).
  { unfold reserve_blocks. cbn [free_blocks bg0 block_bitmap first_free_block]. rewrite (proj2 (Z.ltb_ge _ _)) by lia. rewrite E1. cbn [mbind option_bind].
    rewrite Z.eqb_refl, !u32_small by lia. done. }
  assert (Ei : ∀ ret bg, (if 0 <? u32 (u32 (gfirst g i + blocks_per_group g) - len_blocks g)
      then reserve_blocks (with_blocks bm (blocks_per_group g - gdata g sup) (gdata g sup) bg0)
        (u32 (blocks_per_group g - u32 (u32 (gfirst g i + blocks_per_group g) - len_blocks g))) (u32 (u32 (gfirst g i + blocks_per_group g) - len_blocks g))
      else Some (0, with_blocks bm (blocks_per_group g - gdata g sup) (gdata g sup) bg0)) = Some (ret, bg) ->
      init_bg g i s = Some (Fsys (bgs s ++ [bg]) (regs s) (fresh s) (queued_ds s ++ [bitmap_block i (brk s) sup]) (brk s + 2 * blk_size g))).
  { intros ret bg E. unfold init_bg. rewrite Esup. cbn [mbind option_bind]. cbn [calloc]. rewrite (u32_small (first_data_block g + _)) by (unfold gfirst in *; lia).
    change (first_data_block g + i * blocks_per_group g) with (gfirst g i). rewrite Hhead, Hwhere, (u32_small (gdata g sup)) by lia.
    cbn [first_free_block]. fold z. change (BlockGroup (gfirst g i) (gdata g sup) 0 sup z z None (blocks_per_group g) 0 (inodes_per_group g) 1 0) with bg0.
    rewrite Er. cbn [mbind option_bind]. rewrite (proj2 (Z.ltb_ge 0 0)) by lia. rewrite E. cbn [mbind option_bind].
    rewrite (u32_small (2 * blk_size g)) by lia. done. }
  assert (Hok : ∀ bm' free, zlen bm' = blk_size g -> bytes bm' -> free = gsize g i - gdata g sup ->
      (∀ j, 0 <= j < blocks_per_group g -> bit_at bm' j = negb (in_range (gdata g sup) free j)) -> fresh_group i sup (with_blocks bm' free (gdata g sup) bg0)).
  { intros bm' free Hl Hb Hfree Hbits. split; [|by split_and!]. split; cbn; try done; lia. }
  exists sup. rewrite (u32_small (gfirst g i + blocks_per_group g)) in Ei by lia.
  destruct (decide (blocks_per_group g = gsize g i)) as [Hfull|Hlast].
  - (* a full group: either nothing is left out, or the count wraps and the call is refused *)
    exists (with_blocks bm (blocks_per_group g - gdata g sup) (gdata g sup) bg0). split; [done|]. split.
    + apply Hok; [lia | done | lia |]. intros j Hj. rewrite H1, Hzero by lia. cbn [orb]. apply eq_iff_eq_true. rewrite negb_true_iff, <- not_true_iff_false, !in_range_true. lia.
    + destruct (decide (gfirst g i + blocks_per_group g = len_blocks g)) as [He|Hne].
      * apply (Ei 0). rewrite He, Z.sub_diag. done.
      * apply (Ei (-1)). assert (Hlt : gfirst g i + blocks_per_group g < len_blocks g) by (unfold gsize in Hfull; lia).
        assert (Eo : u32 (gfirst g i + blocks_per_group g - len_blocks g) = gfirst g i + blocks_per_group g - len_blocks g + 2 ^ 32).
        { unfold u32. rewrite <- (Z.mod_add _ 1) by lia. apply Z.mod_small. lia. }
        rewrite Eo, (proj2 (Z.ltb_lt _ _)) by lia. unfold reserve_blocks. cbn [free_blocks with_blocks]. by rewrite (proj2 (Z.ltb_lt _ _)) by lia.
  - assert (Hov : gfirst g i + blocks_per_group g - len_blocks g = blocks_per_group g - gsize g i) by (unfold gsize in *; lia).
    rewrite Hov, (u32_small (blocks_per_group g - gsize g i)) in Ei by lia.
    replace (blocks_per_group g - (blocks_per_group g - gsize g i)) with (gsize g i) in Ei by lia. rewrite (u32_small (gsize g i)) in Ei by lia.
    destruct (set_blocks_ok bm (gsize g i) (blocks_per_group g - gsize g i)) as (bm2 & E2 & B2 & L2 & H2); [done | lia | lia | lia | lia | |].
    { intros j Hj. rewrite H1, Hzero by lia. cbn [orb]. apply in_range_false. lia. }
    exists (with_blocks bm2 (gsize g i - gdata g sup) (gdata g sup) bg0). split; [done|]. split.
    + apply Hok; [lia | done | lia |]. intros j Hj. rewrite H2, H1, Hzero by lia. cbn [orb]. apply eq_iff_eq_true.
      rewrite orb_true_iff, negb_true_iff, <- not_true_iff_false, !in_range_true. lia.
    + apply (Ei 0). rewrite (proj2 (Z.ltb_lt _ _)) by lia. unfold reserve_blocks. cbn [free_blocks with_blocks block_bitmap first_free_block].
      rewrite (proj2 (Z.ltb_ge _ _)) by lia. rewrite E2. cbn [mbind option_bind]. rewrite (proj2 (Z.eqb_neq _ _)) by lia.
      rewrite u32_small by lia. do 2 f_equal. unfold with_blocks. cbn. f_equal. lia.
Qed.

(** The bitmaps that are queued, and the groups made so far. *)
Fixpoint bitmap_blocks (n : nat) (i p : Z) : list data_block :=
  match n with
  | O => []
  | S n => match ext4_bg_has_super_block g i with Some sup => [bitmap_block i p sup] | None => [] end ++ bitmap_blocks n (i + 1) (p + 2 * blk_size g)
  end.
Lemma init_from_ok n i s : 0 <= i -> i + Z.of_nat n = groups g ->
  zlen (bgs s) = i -> (∀ j bg, bgs s !! j = Some bg -> ∃ sup, fresh_group (Z.of_nat j) sup bg) ->
  ∃ l, init_from g n i s = Some (Fsys l (regs s) (fresh s) (queued_ds s ++ bitmap_blocks n i (brk s)) (brk s + Z.of_nat n * (2 * blk_size g))) ∧
    zlen l = groups g ∧ ∀ j bg, l !! j = Some bg -> ∃ sup, fresh_group (Z.of_nat j) sup bg.
Proof.
  revert i s. induction n as [|n IH]; intros i s Hi Hn Hl Hok; cbn [init_from bitmap_blocks].
  - exists (bgs s). rewrite app_nil_r, Z.add_0_r. destruct s. split; [done|]. split; [lia | done].
  - destruct (init_bg_ok i s) as (sup & bg & Esup & Hf & ->); [lia|]. rewrite Esup. cbn [mbind option_bind].
    destruct (IH (i + 1) (Fsys (bgs s ++ [bg]) (regs s) (fresh s) (queued_ds s ++ [bitmap_block i (brk s) sup]) (brk s + 2 * blk_size g))) as (l & E & Hl' & Hok'); [lia | lia | | |].
    + cbn. unfold zlen in *. rewrite length_app. cbn. lia.
    + cbn [bgs]. intros j bgj Hj. apply lookup_app_Some in Hj as [Hj|[Hge Hj]]; [by apply Hok|].
      apply list_lookup_singleton_Some in Hj as [Hj <-]. exists sup. unfold zlen in Hl. by replace (Z.of_nat j) with i by lia.
    + exists l. rewrite E. cbn [bgs regs fresh queued_ds brk]. split; [|done]. rewrite <- app_assoc. do 2 f_equal. lia.
Qed.
Lemma block_allocator_init_ok s : bgs s = [] ->
  ∃ l, block_allocator_init g s = Some (Fsys l (regs s) (fresh s) (queued_ds s ++ bitmap_blocks (Z.to_nat (groups g)) 0 (brk s)) (brk s + groups g * (2 * blk_size g))) ∧
    zlen l = groups g ∧ ∀ j bg, l !! j = Some bg -> ∃ sup, fresh_group (Z.of_nat j) sup bg.
Proof.
  intros Hs. pose proof (go_groups g Hg). destruct (init_from_ok (Z.to_nat (groups g)) 0 s) as (l & E & H2); [lia | lia | by rewrite Hs | by intros j bg; rewrite Hs |].
  exists l. split; [|done]. unfold block_allocator_init. rewrite E. by rewrite Z2Nat.id by lia.
Qed.
Lemma fresh_groups_ok l : zlen l = groups g -> (∀ j bg, l !! j = Some bg -> ∃ sup, fresh_group (Z.of_nat j) sup bg) -> groups_ok g l.
Proof. intros Hl H. split; [done|]. intros i bg E. destruct (H i bg E) as (sup & Hf & _). exact Hf. Qed.
(** What is free then: everything behind the headers. *)
Definition data_area (b : Z) : Prop :=
  ∃ i sup, 0 <= i < groups g ∧ ext4_bg_has_super_block g i = Some sup ∧ gfirst g i + gdata g sup <= b < gfirst g i + gsize g i.
Lemma fresh_free s b : zlen (bgs s) = groups g -> (∀ j bg, bgs s !! j = Some bg -> ∃ sup, fresh_group (Z.of_nat j) sup bg) ->
  free_data g s b <-> data_area b.
Proof.
  intros Hl H. pose proof (fresh_groups_ok _ Hl H) as Hok. split.
  - intros (i & bg & E & Hb). destruct (bg_at_ok g s i bg Hok E) as [Hi Hbg]. unfold bg_at in E. rewrite (proj2 (Z.ltb_ge _ _)) in E by lia.
    destruct (H _ _ E) as (sup & _ & Hs & Hf & Hn & _). rewrite Z2Nat.id in * by lia. exists i, sup.
    split; [done|]. split; [by rewrite <- Hs; apply (b_super _ _ _ Hbg)|]. lia.
  - intros (i & sup & Hi & Es & Hb). destruct (bg_at_is_Some g s i Hok Hi) as [bg E]. exists i, bg. split; [done|].
    unfold bg_at in E. rewrite (proj2 (Z.ltb_ge _ _)) in E by lia. destruct (H _ _ E) as (sup' & Hbg & Hs & Hf & Hn & _). rewrite Z2Nat.id in * by lia.
    pose proof (b_super _ _ _ Hbg) as Es'. rewrite Hs in Es'. assert (sup' = sup) as -> by congruence. lia.
Qed.
End Init.
