(* ===== verification/AllocReduce.v ===== *)
(** * Giving the last block back

    An allocation for the data of a file asks for one block more than the data has, for a
    block of extents, and gives it back when it is not needed.  [reduce_allocation] takes it
    from the end of the first region, which [allocate_blocks] makes the last one too. *)
From stdpp Require Import base gmap list.
From Stdlib Require Import ZArith Lia.
From S2P Require Import Prelude Crc Backed Alloc AllocBits AllocInv AllocSafe.
#[local] Open Scope Z_scope.

Section Reduce.
Context (g : geom) (Hg : geom_ok g).

(** One block is given back at the end of the used part of a group. *)
Lemma free_last_ok i bg : 0 <= i < groups g -> bg_ok g i bg -> gdata g (has_superblock bg) < first_free_block bg ->
  data_blocks_used bg <= 2 * (first_free_block bg - 1 - gdata g (has_superblock bg)) ->
  ∃ bm, free_last_blocks bg 1 = Some (with_blocks bm (free_blocks bg + 1) (first_free_block bg - 1) bg) ∧
    bg_ok g i (with_blocks bm (free_blocks bg + 1) (first_free_block bg - 1) bg).
Proof.
  intros Hi Hb Hlt Hused. pose proof (bg_bounds g Hg i bg Hi Hb). pose proof (go_bpg g Hg). pose proof (b_zlen _ _ _ Hb). pose proof (blk_range g Hg).
  destruct (clear_bits_ok 1 (block_bitmap bg) (first_free_block bg - 1)) as (bm & E & B & Hl & Hbits); [apply (b_bytes _ _ _ Hb) | lia | lia | lia |].
  exists bm. unfold free_last_blocks. rewrite u32_small, !u32_small by lia. change (Z.to_nat 1) with 1%nat. rewrite E. split; [done|].
  destruct Hb as [? ? ? ? ? Hold ? ?]. split; cbn [set_used with_blocks first_block has_superblock header_blocks block_bitmap first_free_block free_blocks data_blocks_used]; try done; try lia.
  intros j Hj. rewrite Hbits, Hold by lia. apply eq_iff_eq_true. rewrite andb_true_iff, !negb_true_iff. rewrite <- !not_true_iff_false, !in_range_true. lia.
Qed.
Lemma free_data_back s i bg bm b : groups_ok g (bgs s) -> bg_at s i = Some bg -> gdata g (has_superblock bg) < first_free_block bg ->
  free_data g (put_bg i (with_blocks bm (free_blocks bg + 1) (first_free_block bg - 1) bg) s) b <->
  free_data g s b ∨ b = gfirst g i + first_free_block bg - 1.
Proof.
  intros Hs E Hd. destruct (bg_at_ok g s i bg Hs E) as [Hi Hb]. pose proof (bg_bounds g Hg i bg Hi Hb). split.
  - intros (j & bgj & Ej & Hj). rewrite (bg_at_put g s i j _ Hs Hi) in Ej. case_decide as Hij.
    + subst j. injection Ej as <-. cbn in Hj. destruct (decide (b = gfirst g i + first_free_block bg - 1)); [by right|]. left. exists i, bg. split; [done | lia].
    + left. by exists j, bgj.
  - assert (Hput := bg_at_put g s i).
    intros [(j & bgj & Ej & Hj)|Eb].
    + destruct (decide (i = j)) as [<-|Hij].
      * assert (bgj = bg) as -> by congruence. eexists i, _. rewrite (Hput i _ Hs Hi), decide_True by done. split; [done|]. cbn. lia.
      * exists j, bgj. by rewrite (Hput j _ Hs Hi), decide_False.
    + eexists i, _. rewrite (Hput i _ Hs Hi), decide_True by done. split; [done|]. cbn. lia.
Qed.

Definition shorten (r : region) : region := set_len (r_len r - 1) r.
Lemma covers_shorten x r L b : apart ((x, r) :: L) -> 0 < r_len r ->
  covers ((x, shorten r) :: L) b <-> covers ((x, r) :: L) b ∧ b <> r_block r + r_len r - 1.
Proof.
  intros [Ha _] Hr. rewrite !covers_cons. cbn. split.
  - intros [H|H]; [split; [left; lia | lia]|]. split; [by right|]. intros ->. by apply (Ha (r_block r + r_len r - 1)); [lia|].
  - intros [[H|H] Hne]; [left; lia | by right].
Qed.

Lemma reduce_one fuel s s' first L len : allocated g s s' L -> chain_of g s' first L len -> 2 <= len ->
  let l := RegionList first first first 0 in
  ∃ s2 x r L1, L = (x, r) :: L1 ∧ reduce_allocation (S fuel) l 1 s' = Some (l, s2) ∧
    allocated g s s2 ((x, shorten r) :: L1) ∧ rchain (regs s2) first ((x, shorten r) :: L1) ∧ total_len ((x, shorten r) :: L1) = len - 1.
Proof.
  intros Hal [(x & r & L1 & -> & -> & Hc & Hnd & _ & (bg & Ebg & Htail & Hlow & Hused) & Hr2) Htot] Hlen l.
  assert (Hr : 2 <= r_len r). { destruct Hr2 as [->|]; [cbn in Htot; lia | done]. }
  pose proof (al_groups _ _ _ _ Hal) as Hs. destruct (bg_at_ok g s' (r_bg r) bg Hs Ebg) as [Hi Hb]. pose proof (bg_bounds g Hg _ bg Hi Hb).
  destruct (free_last_ok (r_bg r) bg Hi Hb) as (bm & Efree & Hb'); [lia | lia |]. set (bg' := with_blocks bm (free_blocks bg + 1) (first_free_block bg - 1) bg) in *.
  destruct Hc as (_ & Hx & Hc). cbn [fmap list_fmap fst] in Hnd. apply NoDup_cons in Hnd as [Hxn Hnd].
  set (s2 := set_regs (<[x := shorten r]> (regs s')) (put_bg (r_bg r) bg' s')). exists s2, x, r, L1. split; [done|].
  assert (Hchain : rchain (regs s2) (Some x) ((x, shorten r) :: L1)).
  { cbn. split; [done|]. split; [by rewrite lookup_insert_eq|]. eapply rchain_frame; [|exact Hc]. intros y Hy. apply lookup_insert_ne. by intros ->. }
  split; [|split; [|split; [done|cbn in *; lia]]].
  { cbn [reduce_allocation]. change (1 =? 0) with false. cbn [l rl_last mbind option_bind]. rewrite Hx. cbn [mbind option_bind]. rewrite Ebg. cbn [mbind option_bind].
    rewrite (proj2 (Z.ltb_lt _ _)) by lia. rewrite Efree. cbn [mbind option_bind]. fold bg'. unfold upd_region. cbn [put_bg set_bgs regs]. rewrite Hx. cbn [mbind option_bind].
    rewrite u32_small by lia. done. }
  assert (Hat : ∀ j, bg_at s2 j = if decide (r_bg r = j) then Some bg' else bg_at s' j) by (intros j; apply (bg_at_put g s' (r_bg r) j bg' Hs Hi)).
  destruct Hal as [A1 A2 A3 A4 A5 A6 A7 A8 A9 A10 A11 A12 A13]. pose proof (covers_shorten x r L1) as Hcov.
  assert (Hend : r_block r + r_len r - 1 = gfirst g (r_bg r) + first_free_block bg - 1) by lia.
  split; try done.
  - by apply (groups_ok_put g s' (r_bg r) bg').
  - eapply groups_rest_trans; [exact A2|]. intros j. rewrite Hat. case_decide as Hd; [|destruct (bg_at s' j); [apply same_rest_refl | done]].
    subst j. rewrite Ebg. exists bm, (data_blocks_used bg), (free_blocks bg + 1), (first_free_block bg - 1). by destruct bg.
  - intros b. rewrite Hcov by (done || lia). change (free_data g s2 b) with (free_data g (put_bg (r_bg r) bg' s') b). unfold bg'. rewrite free_data_back by (done || lia).
    rewrite A5, <- Hend. split.
    + intros [[? ?]| ->]; [tauto|]. split; [apply A6; apply covers_cons; left; lia | tauto].
    + intros [? H1]. destruct (decide (b = r_block r + r_len r - 1)); [by right | left; tauto].
  - intros b. rewrite Hcov by (done || lia). intros [? _]. by apply A6.
  - destruct A7 as [A7 A7']. cbn. split; [|done]. intros b Hb1. apply A7. lia.
  - apply Forall_cons in A8 as [? ?]. constructor; [cbn in *; lia | done].
  - intros y Hy. apply Forall_cons in A11 as [Hk _]. cbn in Hk |- *. rewrite lookup_insert_ne by lia. by apply A9.
  - apply Forall_cons in A11 as [Hk ?]. by constructor.
  - intros y Hy. apply Forall_cons in A11 as [Hk _]. cbn in Hk, Hy |- *. rewrite lookup_insert_ne by lia. by apply A12.
  - intros j Hj. rewrite Hat, decide_False by (intros <-; apply (Hj x (shorten r)); [left | done]). apply A13. intros y ry Hin.
    apply elem_of_cons in Hin as [[= -> ->]|Hin]; [apply (Hj x (shorten r)); left | apply (Hj y ry); by right].
Qed.
End Reduce.
