(* ===== verification/AllocOob.v ===== *)
(** * The block beside the data

    When the data of a file is in many regions, the first block of the allocation is kept
    for the extents: it is split off the first region and moved to the list of the blocks
    that do not hold data.  Going through the regions, counting and freeing them. *)
From stdpp Require Import base gmap list.
From Stdlib Require Import ZArith Lia.
From S2P Require Import Prelude Crc Backed Alloc AllocBits AllocInv AllocSafe AllocReduce.
#[local] Open Scope Z_scope.

(** ** Walks along a chain *)
Lemma num_regions_ok fuel s p L : rchain (regs s) p L -> (length L <= fuel)%nat -> num_regions fuel p s = Some (zlen L).
Proof.
  revert fuel p. induction L as [|[x r] L IH]; intros fuel p.
  - intros -> _. by destruct fuel.
  - intros (-> & Hx & Hc) Hf. destruct fuel as [|fuel]; [cbn in Hf; lia|]. cbn [num_regions]. rewrite Hx. cbn [mbind option_bind].
    rewrite (IH fuel (r_next r) Hc) by (cbn in Hf; lia). cbn [mbind option_bind]. f_equal. unfold zlen. cbn. lia.
Qed.
Definition same_but_regs (s s' : fsys) : Prop :=
  bgs s' = bgs s ∧ fresh s' = fresh s ∧ queued_ds s' = queued_ds s ∧ brk s' = brk s.
Lemma free_list_ok fuel s p L : rchain (regs s) p L -> NoDup L.*1 -> (length L <= fuel)%nat ->
  ∃ s', free_list fuel p s = Some s' ∧ same_but_regs s s' ∧ ∀ x, regs s' !! x = if decide (x ∈ L.*1) then None else regs s !! x.
Proof.
  revert fuel p s. induction L as [|[x r] L IH]; intros fuel p s.
  - intros -> _ _. exists s. split; [by destruct fuel|]. split; [done|]. intros x. by rewrite decide_False by apply not_elem_of_nil.
  - intros (-> & Hx & Hc) Hnd Hf. destruct fuel as [|fuel]; [cbn in Hf; lia|]. cbn [free_list]. rewrite Hx. cbn [mbind option_bind].
    cbn [fmap list_fmap fst] in *. apply NoDup_cons in Hnd as [Hxn Hnd].
    destruct (IH fuel (r_next r) (free_region x s)) as (s' & E & (E1 & E2 & E3 & E4) & H); [|done | cbn in Hf; lia|].
    { eapply rchain_frame; [|exact Hc]. intros y Hy. cbn. apply lookup_delete_ne. by intros ->. }
    exists s'. split; [done|]. split; [done|]. intros y. rewrite H. cbn. destruct (decide (y ∈ L.*1)) as [Hy|Hy].
    + by rewrite decide_True by (by right).
    + destruct (decide (y = x)) as [->|Hne]; [rewrite decide_True by left; apply lookup_delete_eq|].
      rewrite decide_False by (by rewrite elem_of_cons; intros [|]). by apply lookup_delete_ne.
Qed.

Section Oob.
Context (g : geom) (Hg : geom_ok g).

Definition oob_region (r : region) : region := Region (r_block r) 1 (r_bg r) None None.
Definition data_region (r : region) : region := Region (r_block r + 1) (r_len r - 1) (r_bg r) (r_next r) None.
Lemma covers_split x y r L b : 1 < r_len r -> covers ((x, oob_region r) :: (y, data_region r) :: L) b <-> covers ((x, r) :: L) b.
Proof. intros Hr. rewrite !covers_cons. cbn. split; [intros [H|[H|H]]; [left; lia | left; lia | by right]|]. intros [H|H]; [|tauto]. destruct (decide (b = r_block r)); [left; lia | right; left; lia]. Qed.
(** Stores through pointers. *)
Lemma upd_region_eq f x s r : regs s !! x = Some r -> upd_region f x s = Some (set_regs (<[x := f r]> (regs s)) s).
Proof. intros H. unfold upd_region. by rewrite H. Qed.
Lemma set_regs_twice m m' s : set_regs m (set_regs m' s) = set_regs m s.
Proof. done. Qed.
Lemma remove_first l x y s r ry : regs s !! x = Some r -> r_prev r = None -> r_next r = Some y -> regs s !! y = Some ry -> x <> y ->
  rl_first l = Some x -> rl_last l = Some x ->
  region_list_remove l x s = Some (RegionList (Some y) None (rl_iter l) (rl_partial l),
    set_regs (<[x := set_prev None (set_next None r)]> (<[y := set_prev None ry]> (regs s))) s).
Proof.
  intros Hx Hp Hn Hy Hxy Hfirst Hlast. unfold region_list_remove. rewrite Hx. cbn [mbind option_bind]. rewrite Hp, Hn. cbn [mbind option_bind].
  rewrite (upd_region_eq _ _ _ _ Hy). cbn [mbind option_bind]. erewrite upd_region_eq by (cbn; by rewrite lookup_insert_ne). cbn [mbind option_bind].
  erewrite upd_region_eq by (cbn; by rewrite lookup_insert_eq). cbn [mbind option_bind]. rewrite Hfirst, Hlast, !bool_decide_eq_true_2 by done.
  rewrite !set_regs_twice. cbn [regs set_regs]. by rewrite insert_insert_eq.
Qed.
Lemma append_empty x s r : regs s !! x = Some r ->
  region_list_append no_regions x s = Some (RegionList (Some x) (Some x) (Some x) 0, set_regs (<[x := set_next None (set_prev None r)]> (regs s)) s).
Proof.
  intros Hx. unfold region_list_append. cbn [no_regions rl_first]. rewrite (upd_region_eq _ _ _ _ Hx). cbn [mbind option_bind].
  erewrite upd_region_eq by (cbn; by rewrite lookup_insert_eq). cbn [mbind option_bind]. rewrite set_regs_twice. cbn [regs set_regs]. by rewrite insert_insert_eq.
Qed.
(** A split where the position is. *)
Lemma do_split_none fuel l x r s : rl_iter l = Some x -> regs s !! x = Some r -> 0 < r_len r -> do_split_allocation (S fuel) l 0 s = Some (Some x, l, s).
Proof. intros Hi Hx Hr. unfold do_split_allocation. rewrite Hi. cbn [split_find]. rewrite Hx. cbn [mbind option_bind]. by rewrite (proj2 (Z.leb_gt _ _)). Qed.
Lemma do_split_some fuel l x r s n : rl_iter l = Some x -> regs s !! x = Some r -> 0 < n < r_len r -> x <> fresh s ->
  do_split_allocation (S fuel) l n s =
    Some (Some x, RegionList (rl_first l) (rl_last l) (Some (fresh s)) (rl_partial l),
      set_regs (<[x := Region (r_block r) n (r_bg r) (Some (fresh s)) (r_prev r)]> (<[fresh s := Region (u32 (r_block r + n)) (u32 (r_len r - n)) (r_bg r) (r_next r) (Some x)]> (regs s)))
        (Fsys (bgs s) (regs s) (S (fresh s)) (queued_ds s) (brk s))).
Proof.
  intros Hi Hx Hn Hf. unfold do_split_allocation. rewrite Hi. cbn [split_find]. rewrite Hx. cbn [mbind option_bind]. rewrite (proj2 (Z.leb_gt _ _)) by lia.
  cbn [mbind option_bind]. rewrite (proj2 (Z.ltb_lt _ _)) by lia. rewrite Hx. cbn [mbind option_bind new_region]. unfold upd_region. cbn [regs].
  rewrite lookup_insert_ne, Hx by done. cbn [mbind option_bind regs set_regs]. rewrite lookup_insert_eq. cbn [mbind option_bind]. unfold set_regs at 1. cbn [regs set_regs]. by rewrite insert_insert_eq.
Qed.
Lemma reserve_oob_one fuel s s' first L len : allocated g s s' L -> chain_of g s' first L len -> 2 <= len -> len < 2 ^ 32 -> (1 <= fuel)%nat ->
  let a := BlockAllocation (RegionList first first first 0) no_regions in
  ∃ s2 x y r L1, L = (x, r) :: L1 ∧
    reserve_oob_blocks fuel a 1 s' = Some (0, BlockAllocation (RegionList (Some y) None (Some y) 0) (RegionList (Some x) (Some x) (Some x) 0), s2) ∧
    allocated g s s2 ((x, oob_region r) :: (y, data_region r) :: L1) ∧ NoDup (x :: y :: L1.*1) ∧
    rchain (regs s2) (Some x) [(x, oob_region r)] ∧ rchain (regs s2) (Some y) ((y, data_region r) :: L1) ∧
    total_len ((y, data_region r) :: L1) = len - 1.
Proof.
  intros Hal [(x & r & L1 & -> & -> & (_ & Hx & Hc) & Hnd & Hp & Htail & Hr2) Htot] Hlen Hmax Hf a.
  assert (Hr : 2 <= r_len r). { destruct Hr2 as [->|]; [cbn in Htot; lia | done]. }
  pose proof (al_pos _ _ _ _ Hal) as Hpos. pose proof (al_keys _ _ _ _ Hal) as Hk. set (y := fresh s') in *.
  assert (Hrl : r_len r < 2 ^ 32 ∧ 0 <= r_block r ∧ r_block r + r_len r < 2 ^ 32).
  { destruct Htail as (bg & Ebg & H1 & H2 & _). destruct (bg_at_ok g s' _ bg (al_groups _ _ _ _ Hal) Ebg) as [Hi Hb]. pose proof (bg_bounds g Hg _ bg Hi Hb). lia. }
  apply Forall_cons in Hk as [Hkx HkL]. cbn in Hkx. assert (Hxy : x <> y) by (unfold y; lia). cbn [fmap list_fmap fst] in Hnd. apply NoDup_cons in Hnd as [HxL Hnd].
  assert (HyL : y ∉ L1.*1).
  { intros ([z rz] & Ez & Hin)%list_elem_of_fmap. rewrite Forall_forall in HkL. specialize (HkL _ Hin). cbn in *. unfold y in *. lia. }
  destruct fuel as [|fuel]; [lia|].
  set (s2 := Fsys (bgs s') (<[x := oob_region r]> (<[y := data_region r]> (regs s'))) (S y) (queued_ds s') (brk s')).
  exists s2, x, y, r, L1. split; [done|].
  assert (Hchain : rchain (regs s2) (Some y) ((y, data_region r) :: L1)).
  { cbn. split; [done|]. split; [by rewrite lookup_insert_ne, lookup_insert_eq|]. eapply rchain_frame; [|exact Hc].
    intros z Hz. rewrite !lookup_insert_ne; [done | by intros -> | by intros ->]. }
  split; [|split; [|split; [|split; [|split; [done|cbn in *; lia]]]]].
  - unfold reserve_oob_blocks, split_allocation. cbn [a a_list rl_partial]. rewrite (do_split_none _ _ x r s') by (done || lia). cbn [mbind option_bind].
    change (u32 1) with 1. rewrite (do_split_some _ _ x r s' 1) by (done || lia). cbn [mbind option_bind rl_first rl_last rl_iter rl_partial].
    rewrite !u32_small by lia. fold y. cbn [oob_loop a_list rl_iter]. rewrite bool_decide_eq_false_2 by congruence. cbn [set_regs regs]. rewrite lookup_insert_eq. cbn [mbind option_bind r_next].
    erewrite (remove_first _ x y); [|cbn; by rewrite lookup_insert_eq | done | done | cbn; by rewrite lookup_insert_ne, lookup_insert_eq | done..].
    cbn [mbind option_bind a_oob]. erewrite append_empty by (cbn; by rewrite lookup_insert_eq). cbn [mbind option_bind].
    destruct fuel as [|fuel]; cbn [oob_loop a_list rl_iter]; rewrite bool_decide_eq_true_2 by done; cbn [mbind option_bind]; do 2 f_equal;
      unfold s2, set_regs; cbn; f_equal; apply map_eq; intros z; destruct (decide (z = x)) as [->|]; simplify_map_eq; try done;
      destruct (decide (z = y)) as [->|]; by simplify_map_eq.
  - destruct Hal as [A1 A2 A3 A4 A5 A6 A7 A8 A9 A10 A11 A12 A13].
    assert (Hcov : ∀ b, covers ((x, oob_region r) :: (y, data_region r) :: L1) b <-> covers ((x, r) :: L1) b) by (intros b; apply covers_split; lia).
    split; try done.
    + intros b. rewrite Hcov. apply A5.
    + intros b. rewrite Hcov. apply A6.
    + destruct A7 as [A7 A7']. cbn [apart]. split; [|split; [|done]].
      * intros b Hb. cbn in Hb. rewrite covers_cons. cbn. intros [H|H]; [lia|]. apply (A7 b); [lia | done].
      * intros b Hb. cbn in Hb. apply A7. lia.
    + apply Forall_cons in Hpos as [_ Hpos]. repeat constructor; [cbn; lia | done].
    + intros z Hz. cbn. unfold y. rewrite !lookup_insert_ne by lia. by apply A9.
    + cbn. unfold y. lia.
    + constructor; [cbn; lia|]. constructor; [cbn; unfold y; lia|]. eapply Forall_impl; [exact HkL|]. cbn. unfold y. lia.
    + intros z Hz. cbn in Hz |- *. rewrite !lookup_insert_ne by (unfold y in *; lia). apply A12. unfold y in *. lia.
    + intros j Hj. apply A13. intros z rz Hin. apply elem_of_cons in Hin as [[= -> ->]|Hin]; [apply (Hj x (oob_region r)); left | apply (Hj z rz); by right; right].
  - apply NoDup_cons. split; [by rewrite elem_of_cons; intros [|]|]. by apply NoDup_cons.
  - cbn. split; [done|]. by rewrite lookup_insert_eq.
Qed.
End Oob.
