(* ===== verification/Extent.v ===== *)
(** * Files as extents ([ext4_utils/extent.c])

    A file gets its blocks from the allocator; the inode gets one extent for each region,
    in its own 60 bytes when there are at most three, in a block of its own otherwise.  The
    contents are queued region by region, from a buffer in memory or from a file.

    Buffers from [calloc] are byte lists under their addresses, inodes are records under
    theirs.  A store outside a buffer is [None]. *)
From stdpp Require Import base gmap list.
From Stdlib Require Import ZArith Lia.
From S2P Require Import Prelude SparseFormat Backed Alloc.
#[local] Open Scope Z_scope.

(** ** Memory *)
(** The fields that are set, with [i_block] as bytes. *)
Record ext4_inode := Inode {
  i_mode : Z; i_uid : Z; i_size_lo : Z; i_atime : Z; i_ctime : Z; i_mtime : Z; i_gid : Z; i_links_count : Z;
  i_blocks_lo : Z; i_flags : Z; i_block : list Z; i_size_high : Z; l_i_blocks_high : Z
}.
Definition zero_inode : ext4_inode := Inode 0 0 0 0 0 0 0 0 0 0 (zeros 60) 0 0.
Record image_state := ImageState { fs : fsys; inodes : gmap Z ext4_inode; bufs : gmap Z (list Z) }.
Definition set_fs (s : fsys) (m : image_state) : image_state := ImageState s (inodes m) (bufs m).
Definition inode_at (m : image_state) (p : Z) : ext4_inode := default zero_inode (inodes m !! p).
Definition put_inode (p : Z) (i : ext4_inode) (m : image_state) : image_state := ImageState (fs m) (<[p := i]> (inodes m)) (bufs m).
(** [calloc] of a buffer that is written to. *)
Definition calloc_buf (n : Z) (m : image_state) : Z * image_state :=
  let '(p, s) := calloc n (fs m) in (p, ImageState s (inodes m) (<[p := zeros n]> (bufs m))).
Definition put_buf (p : Z) (b : list Z) (m : image_state) : image_state := ImageState (fs m) (inodes m) (<[p := b]> (bufs m)).
(** A store of bytes into a buffer, and a load. *)
Definition store (o : Z) (b buf : list Z) : option (list Z) :=
  if (0 <=? o) && (o + zlen b <=? zlen buf) then Some (overlay o b buf) else None.

(** ** The extents *)
Definition EXT4_EXT_MAGIC : Z := 0xf30a.
Definition EXT4_EXTENTS_FL : Z := 0x80000.
Record ext4_extent_header := ExtentHeader { eh_entries : Z; eh_max : Z; eh_depth : Z }.
Record ext4_extent := Extent { ee_block : Z; ee_len : Z; ee_start_lo : Z }.
Definition extent_header_bytes (h : ext4_extent_header) : list Z :=
  bytes16 EXT4_EXT_MAGIC ++ bytes16 (eh_entries h) ++ bytes16 (eh_max h) ++ bytes16 (eh_depth h) ++ bytes32 0.
Definition extent_bytes (e : ext4_extent) : list Z := bytes32 (ee_block e) ++ bytes16 (ee_len e) ++ bytes16 0 ++ bytes32 (ee_start_lo e).
(** The index entry: [ei_block] is 0, and so is the upper half of the block number. *)
Definition extent_idx_bytes (leaf : Z) : list Z := bytes32 0 ++ bytes32 leaf ++ bytes16 0 ++ bytes16 0.

Section Extents.
Context (g : geom) (fuel : nat).

(** The loop over the regions; [o] is where the next extent goes in [buf]. *)
Fixpoint extents_loop (fuel : nat) (a : block_allocation) (buf : list Z) (o file_block : Z) (s : fsys) : option (list Z * block_allocation) :=
  if last_region a then Some (buf, a) else
  match fuel with
  | O => None
  | S fuel =>
      '(region_block, region_len) ← get_region a s;
      buf ← store o (extent_bytes (Extent file_block (region_len mod 2 ^ 16) region_block)) buf;
      a ← get_next_region a s;
      extents_loop fuel a buf (o + 12) (u32 (file_block + region_len)) s
  end.

Definition set_data (len blocks : Z) (i : ext4_inode) : ext4_inode :=
  Inode (i_mode i) (i_uid i) (u32 len) (i_atime i) (i_ctime i) (i_mtime i) (i_gid i) (i_links_count i)
    (u32 blocks) (Z.lor (i_flags i) EXT4_EXTENTS_FL) (i_block i) (u32 (len / 2 ^ 32)) (blocks / 2 ^ 32 mod 2 ^ 16).
Definition set_i_block (b : list Z) (i : ext4_inode) : ext4_inode :=
  Inode (i_mode i) (i_uid i) (i_size_lo i) (i_atime i) (i_ctime i) (i_mtime i) (i_gid i) (i_links_count i)
    (i_blocks_lo i) (i_flags i) b (i_size_high i) (l_i_blocks_high i).

(** The header in the inode, and where the extents go: the inode when [None]. *)
Definition place_extents (extent_block allocation_len : Z) (inode : Z) (m : image_state) : option (option Z * image_state) :=
  let i := inode_at m inode in
  if extent_block =? 0 then
    b ← store 0 (extent_header_bytes (ExtentHeader (allocation_len mod 2 ^ 16) 3 0)) (i_block i);
    Some (None, put_inode inode (set_i_block b i) m)
  else
    b ← store 0 (extent_header_bytes (ExtentHeader 1 3 1) ++ extent_idx_bytes extent_block) (i_block i);
    let m := put_inode inode (set_i_block b i) m in
    let '(data, m) := calloc_buf (blk_size g) m in
    let m := set_fs (q_data data (blk_size g) extent_block (fs m)) m in
    if s32 (blk_size g - 12 / 12) <? allocation_len then None else
    h ← store 0 (extent_header_bytes (ExtentHeader (allocation_len mod 2 ^ 16) ((blk_size g - 12) / 12 mod 2 ^ 16) 0)) (zeros (blk_size g));
    Some (Some data, put_buf data h m).
(** The extents themselves. *)
Definition fill_extents (a : block_allocation) (inode : Z) (leaf_data : option Z) (m : image_state) : option (block_allocation * image_state) :=
  match leaf_data with
  | None =>
      '(b, a) ← extents_loop fuel a (i_block (inode_at m inode)) 12 0 (fs m);
      Some (a, put_inode inode (set_i_block b (inode_at m inode)) m)
  | Some data =>
      buf ← bufs m !! data;
      '(b, a) ← extents_loop fuel a buf 12 0 (fs m);
      Some (a, put_buf data b m)
  end.

Definition do_inode_allocate_extents (inode len : Z) (m : image_state) : option (block_allocation * image_state) :=
  let block_len := u32 ((len + blk_size g - 1) / blk_size g) in
  '(alloc, s) ← allocate_blocks g fuel (u32 (block_len + 1)) (fs m);
  a ← alloc;
  n ← block_allocation_num_regions fuel a s;
  '(extent_block, a, s) ← (if n <=? 3 then '(l, s) ← reduce_allocation fuel (a_list a) 1 s; Some (0, BlockAllocation l (a_oob a), s)
                           else '(_, a, s) ← reserve_oob_blocks fuel a 1 s; b ← get_oob_block fuel a 0 s; Some (b, a, s));
  '(leaf_data, m) ← place_extents extent_block n inode (set_fs s m);
  '(a, m) ← fill_extents a inode leaf_data m;
  let block_len := if extent_block =? 0 then block_len else u32 (block_len + 1) in
  let blocks := block_len * blk_size g / 512 in
  Some (rewind_alloc a, put_inode inode (set_data len blocks (inode_at m inode)) m).

(** ** The contents *)
Fixpoint backing_loop (fuel : nat) (a : block_allocation) (backing_len : Z) (queue : Z -> Z -> Z -> fsys -> fsys) (pos : Z) (s : fsys) : option fsys :=
  if 0 <? backing_len then
    match fuel with
    | O => None
    | S fuel =>
        '(region_block, region_len) ← get_region a s;
        let len := Z.min (u32 (region_len * blk_size g)) backing_len in
        let s := queue pos len region_block s in
        a ← get_next_region a s;
        backing_loop fuel a (backing_len - len) queue (pos + len) s
    end
  else Some s.
Definition extent_create_backing (a : block_allocation) (backing_len : Z) (m : image_state) : option (Z * image_state) :=
  let '(data, m) := calloc_buf backing_len m in
  s ← backing_loop fuel a backing_len (fun pos len block => q_data (data + pos) len block) 0 (fs m);
  Some (data, set_fs s m).
Definition extent_create_backing_file (a : block_allocation) (backing_len : Z) (filename : nat) (m : image_state) : option image_state :=
  s ← backing_loop fuel a backing_len (fun pos len block => q_file filename pos len block) 0 (fs m);
  Some (set_fs s m).

(** [NULL] when nothing is to be backed. *)
Definition inode_allocate_data_extents (inode len backing_len : Z) (m : image_state) : option (option Z * image_state) :=
  '(a, m) ← do_inode_allocate_extents inode len m;
  '(data, m) ← (if negb (backing_len =? 0) then '(data, m) ← extent_create_backing a backing_len m; Some (Some data, m) else Some (None, m));
  s ← free_alloc fuel a (fs m);
  Some (data, set_fs s m).
Definition inode_allocate_file_extents (inode len : Z) (filename : nat) (m : image_state) : option image_state :=
  '(a, m) ← do_inode_allocate_extents inode len m;
  m ← extent_create_backing_file a len filename m;
  s ← free_alloc fuel a (fs m);
  Some (set_fs s m).
Definition inode_allocate_extents (inode len : Z) (m : image_state) : option image_state :=
  '(a, m) ← do_inode_allocate_extents inode len m;
  s ← free_alloc fuel a (fs m);
  Some (set_fs s m).
End Extents.
