(* ===== verification/ExtentSpec.v ===== *)
(** * What the extents of a file say

    A reader of extents, as a kernel that mounts the image has one, and that it gets from
    the inode, and the block of extents if there is one, the regions the file was given. *)
From stdpp Require Import base gmap list.
From Stdlib Require Import ZArith Lia.
From S2P Require Import Prelude Crc SparseFormat Backed Alloc AllocBits AllocInv AllocSafe AllocReduce AllocOob Extent.
#[local] Open Scope Z_scope.

(** ** The reader *)
Definition extent_of (b : list Z) : ext4_extent := Extent (le32 b) (le16 (drop 4 b)) (le32 (drop 8 b)).
Fixpoint extents_of (n : nat) (b : list Z) : list ext4_extent :=
  match n with O => [] | S n => extent_of b :: extents_of n (drop 12 b) end.
(** A node: its depth and its entries as bytes. *)
Definition node_of (b : list Z) : option (Z * nat * list Z) :=
  if le16 b =? EXT4_EXT_MAGIC then Some (le16 (drop 6 b), Z.to_nat (le16 (drop 2 b)), drop 12 b) else None.
Definition leaf_of (b : list Z) : option (list ext4_extent) :=
  '(depth, n, entries) ← node_of b; if depth =? 0 then Some (extents_of n entries) else None.
(** [block] is the contents of a block of the image. *)
Definition read_tree (block : Z -> list Z) (i_block : list Z) : option (list ext4_extent) :=
  '(depth, n, entries) ← node_of i_block;
  if depth =? 0 then Some (extents_of n entries) else leaf_of (block (le32 (drop 4 entries))).
(** The block of the image that has block [k] of the file. *)
Fixpoint find_block (es : list ext4_extent) (k : Z) : option Z :=
  match es with
  | [] => None
  | e :: es => if (ee_block e <=? k) && (k <? ee_block e + ee_len e) then Some (ee_start_lo e + (k - ee_block e)) else find_block es k
  end.

(** The extents of a chain of regions. *)
Fixpoint chain_extents (file_block : Z) (L : list (nat * region)) : list ext4_extent :=
  match L with [] => [] | (_, r) :: L => Extent file_block (r_len r) (r_block r) :: chain_extents (file_block + r_len r) L end.
Definition extents_bytes (es : list ext4_extent) : list Z := concat (extent_bytes <$> es).
Definition region_fits (c : nat * region) : Prop := 0 < r_len c.2 <= 32768 ∧ 0 <= r_block c.2 ∧ r_block c.2 + r_len c.2 < 2 ^ 32.

Lemma total_len_nonneg L : Forall region_fits L -> 0 <= total_len L.
Proof. induction 1 as [|[y q] L (? & _) _ IH]; cbn in *; lia. Qed.
Lemma extent_bytes_len e : length (extent_bytes e) = 12%nat.
Proof. done. Qed.
Lemma extents_bytes_zlen es : zlen (extents_bytes es) = 12 * zlen es.
Proof. induction es as [|e es IH]; [done|]. unfold extents_bytes in *. cbn [fmap list_fmap concat]. rewrite zlen_app, IH. unfold zlen at 1. rewrite extent_bytes_len. unfold zlen. cbn. lia. Qed.
Lemma chain_extents_zlen fb L : zlen (chain_extents fb L) = zlen L.
Proof. revert fb. induction L as [|[x r] L IH]; intros fb; [done|]. specialize (IH (fb + r_len r)). unfold zlen in *. cbn. lia. Qed.

Lemma extent_read e r : 0 <= ee_block e < 2 ^ 32 -> 0 <= ee_len e < 2 ^ 16 -> 0 <= ee_start_lo e < 2 ^ 32 -> extent_of (extent_bytes e ++ r) = e.
Proof.
  intros H1 H2 H3. destruct e as [fb n st]. cbn [ee_block ee_len ee_start_lo] in *. unfold extent_of, extent_bytes. cbn [ee_block ee_len ee_start_lo].
  rewrite <- !app_assoc. rewrite le32_bytes32 by done.
  change (drop 4 (bytes32 fb ++ ?t)) with t. rewrite le16_bytes16 by done.
  change (drop 8 (bytes32 fb ++ bytes16 n ++ bytes16 0 ++ ?t)) with t. by rewrite le32_bytes32.
Qed.
Definition extent_fits (e : ext4_extent) : Prop := 0 <= ee_block e < 2 ^ 32 ∧ 0 <= ee_len e < 2 ^ 16 ∧ 0 <= ee_start_lo e < 2 ^ 32.
Lemma extents_read es r : Forall extent_fits es -> extents_of (length es) (extents_bytes es ++ r) = es.
Proof.
  induction 1 as [|e es (H1 & H2 & H3) _ IH]; [done|]. unfold extents_bytes. cbn [length extents_of fmap list_fmap concat]. rewrite <- app_assoc.
  rewrite extent_read by done. f_equal. rewrite <- (extent_bytes_len e), drop_app_length. exact IH.
Qed.
Lemma chain_extents_fit fb L : 0 <= fb -> fb + total_len L < 2 ^ 32 -> Forall region_fits L -> Forall extent_fits (chain_extents fb L).
Proof.
  revert fb. induction L as [|[x r] L IH]; intros fb Hfb Ht HL; [constructor|]. apply Forall_cons in HL as [(H1 & H2 & H3) HL]. cbn in *.
  pose proof (total_len_nonneg L HL).
  constructor; [split_and!; cbn; lia|]. apply IH; [lia | lia | done].
Qed.

Lemma header_len h : length (extent_header_bytes h) = 12%nat.
Proof. done. Qed.
Definition header_fits (h : ext4_extent_header) : Prop := 0 <= eh_entries h < 2 ^ 16 ∧ 0 <= eh_max h < 2 ^ 16 ∧ 0 <= eh_depth h < 2 ^ 16.
Lemma node_read h r : header_fits h -> node_of (extent_header_bytes h ++ r) = Some (eh_depth h, Z.to_nat (eh_entries h), r).
Proof.
  intros (H1 & H2 & H3). unfold node_of, extent_header_bytes. rewrite <- !app_assoc. rewrite le16_bytes16 by done. rewrite Z.eqb_refl.
  change (drop 6 (bytes16 ?a ++ bytes16 ?b ++ bytes16 ?c ++ ?t)) with t. rewrite le16_bytes16 by done.
  change (drop 2 (bytes16 ?a ++ ?t)) with t. by rewrite le16_bytes16.
Qed.
Lemma overlay_0 {A} (b l : list A) : overlay 0 b l = b ++ drop (length b) l.
Proof. done. Qed.
(** A node with its extents, in a buffer. *)
Definition node_bytes (h : ext4_extent_header) (entries : list Z) (old : list Z) : list Z := overlay 0 (extent_header_bytes h ++ entries) old.
Lemma leaf_read n mx es old : zlen es = n -> n < 2 ^ 16 -> 0 <= mx < 2 ^ 16 -> Forall extent_fits es ->
  leaf_of (node_bytes (ExtentHeader n mx 0) (extents_bytes es) old) = Some es ∧
  ∀ block, read_tree block (node_bytes (ExtentHeader n mx 0) (extents_bytes es) old) = Some es.
Proof.
  intros Hn Hn2 Hm Hes. pose proof (zlen_nonneg es). unfold leaf_of, read_tree, node_bytes. rewrite overlay_0, <- app_assoc, node_read by (split_and!; cbn; lia).
  cbn [mbind option_bind eh_depth eh_entries]. change (0 =? 0) with true.
  replace (Z.to_nat n) with (length es) by (unfold zlen in Hn; lia). by rewrite extents_read.
Qed.
Lemma root_read block leaf old : 0 <= leaf < 2 ^ 32 ->
  read_tree block (node_bytes (ExtentHeader 1 3 1) (extent_idx_bytes leaf) old) = leaf_of (block leaf).
Proof.
  intros Hl. unfold read_tree, node_bytes. rewrite overlay_0, <- app_assoc, node_read by (split_and!; cbn; lia). cbn [mbind option_bind eh_depth].
  change (1 =? 0) with false. unfold extent_idx_bytes. rewrite <- !app_assoc. change (drop 4 (bytes32 0 ++ ?t)) with t. by rewrite le32_bytes32.
Qed.

(** The block that is found: the regions one after the other. *)
Fixpoint chain_block (L : list (nat * region)) (k : Z) : option Z :=
  match L with [] => None | (_, r) :: L => if k <? r_len r then Some (r_block r + k) else chain_block L (k - r_len r) end.
Lemma find_chain fb L k : fb <= k -> find_block (chain_extents fb L) k = chain_block L (k - fb).
Proof.
  revert fb. induction L as [|[x r] L IH]; intros fb Hk; [done|]. cbn. rewrite (proj2 (Z.leb_le _ _)) by lia. cbn [andb].
  destruct (Z.ltb_spec k (fb + r_len r)), (Z.ltb_spec (k - fb) (r_len r)); try lia; [done|]. rewrite IH by lia. f_equal. lia.
Qed.

(** ** The loops *)
Section Loops.
Context (g : geom) (Hg : geom_ok g).

Lemma store_ok o b buf : 0 <= o -> o + zlen b <= zlen buf -> store o b buf = Some (overlay o b buf).
Proof. intros Ho Hb. unfold store. by rewrite (proj2 (Z.leb_le 0 o)), (proj2 (Z.leb_le _ _)). Qed.
Definition at_end (a : block_allocation) : block_allocation := BlockAllocation (set_iter None (a_list a)) (a_oob a).
Lemma at_end_next a i : at_end (BlockAllocation (set_iter i (a_list a)) (a_oob a)) = at_end a.
Proof. done. Qed.
Lemma get_region_ok a s x r : rl_iter (a_list a) = Some x -> rl_partial (a_list a) = 0 -> regs s !! x = Some r -> 0 <= r_len r < 2 ^ 32 ->
  get_region a s = Some (r_block r, r_len r) ∧ get_next_region a s = Some (BlockAllocation (set_iter (r_next r) (a_list a)) (a_oob a)).
Proof.
  intros Hi Hp Hx Hr. unfold get_region, get_next_region. rewrite Hi. cbn [mbind option_bind]. rewrite Hx. cbn [mbind option_bind]. by rewrite Hp, Z.sub_0_r, u32_small.
Qed.
Lemma extents_loop_ok fuel s p L a buf o fb :
  rchain (regs s) p L -> Forall region_fits L -> rl_iter (a_list a) = p -> rl_partial (a_list a) = 0 -> (length L <= fuel)%nat ->
  0 <= fb -> fb + total_len L < 2 ^ 32 -> 0 <= o -> o + 12 * zlen L <= zlen buf ->
  extents_loop fuel a buf o fb s = Some (overlay o (extents_bytes (chain_extents fb L)) buf, at_end a).
Proof.
  revert fuel p a buf o fb. induction L as [|[x r] L IH]; intros fuel p a buf o fb.
  - intros -> _ Hi Hp _ _ _ Ho Hl. assert (E : extents_loop fuel a buf o fb s = Some (buf, a)).
    { destruct fuel; cbn [extents_loop]; unfold last_region; by rewrite bool_decide_eq_true_2. }
    rewrite E. unfold extents_bytes, at_end, set_iter. destruct a as [[f l i q] oo]. cbn in *. subst. do 2 f_equal. unfold overlay. cbn. rewrite Nat.add_0_r. by rewrite take_drop.
  - intros (-> & Hx & Hc) HL Hi Hp Hf Hfb Ht Ho Hl. apply Forall_cons in HL as [(H1 & H2 & H3) HL]. cbn [snd] in *. cbn [total_len] in Ht.
    pose proof (total_len_nonneg L HL).
    destruct fuel as [|fuel]; [cbn in Hf; lia|]. cbn [extents_loop]. unfold last_region. rewrite Hi, bool_decide_eq_false_2 by done.
    destruct (get_region_ok a s x r Hi Hp Hx) as [-> ->]; [lia|]. cbn [mbind option_bind]. rewrite (Z.mod_small (r_len r)) by lia.
    assert (El : zlen ((x, r) :: L) = 1 + zlen L) by (unfold zlen; cbn; lia). pose proof (zlen_nonneg L).
    rewrite store_ok; [|lia|]; [|change (zlen (extent_bytes _)) with 12; lia]. cbn [mbind option_bind]. rewrite u32_small by lia.
    rewrite (IH fuel (r_next r)); [|done|done|done|done|cbn in Hf; lia|lia|lia|lia|].
    + rewrite at_end_next. do 2 f_equal. cbn [chain_extents]. unfold extents_bytes. cbn [fmap list_fmap concat].
      change (o + 12) with (o + zlen (extent_bytes (Extent fb (r_len r) (r_block r)))). apply overlay_app; [done|].
      pose proof (extents_bytes_zlen (chain_extents (fb + r_len r) L)) as E. unfold extents_bytes in E. rewrite E, chain_extents_zlen. change (zlen (extent_bytes _)) with 12. lia.
    + rewrite overlay_len; [lia | lia |]. change (zlen (extent_bytes _)) with 12. lia.
Qed.

(** The blocks that are queued for the first [n] bytes of a chain. *)
Fixpoint backing (mk : Z -> Z -> Z -> data_block) (L : list (nat * region)) (n pos : Z) : list data_block :=
  match L with
  | [] => []
  | (_, r) :: L =>
      if 0 <? n then
        let len := Z.min (r_len r * blk_size g) n in
        mk pos len (r_block r) :: backing mk L (n - len) (pos + len)
      else []
  end.
Definition queue_all (l : list data_block) (s : fsys) : fsys := Fsys (bgs s) (regs s) (fresh s) (queued_ds s ++ l) (brk s).
Lemma queue_all_nil s : queue_all [] s = s.
Proof. unfold queue_all. rewrite app_nil_r. by destruct s. Qed.
Lemma queue_all_cons d l s : queue_all l (queue_block d s) = queue_all (d :: l) s.
Proof. unfold queue_all, queue_block. cbn. by rewrite <- app_assoc. Qed.
Lemma backing_loop_ok fuel s p L a n queue mk pos :
  (∀ pos len block s, queue pos len block s = queue_block (mk pos len block) s) ->
  rchain (regs s) p L -> Forall region_fits L -> rl_iter (a_list a) = p -> rl_partial (a_list a) = 0 -> (length L <= fuel)%nat ->
  n <= total_len L * blk_size g ->
  backing_loop g fuel a n queue pos s = Some (queue_all (backing mk L n pos) s).
Proof.
  intros Hq. revert fuel p a n pos s. induction L as [|[x r] L IH]; intros fuel p a n pos s.
  - intros -> _ Hi Hp _ Hn. cbn in Hn |- *. rewrite queue_all_nil. destruct fuel; cbn [backing_loop]; by rewrite (proj2 (Z.ltb_ge _ _)).
  - intros (-> & Hx & Hc) HL Hi Hp Hf Hn. apply Forall_cons in HL as [(H1 & H2 & H3) HL]. cbn [snd] in *. cbn [total_len] in Hn.
    rewrite Z.mul_add_distr_r in Hn. pose proof (total_len_nonneg L HL).
    pose proof (blk_range g Hg). destruct fuel as [|fuel]; [cbn in Hf; lia|]. cbn [backing_loop backing].
    destruct (Z.ltb_spec 0 n) as [Hpos|Hneg]; [|by rewrite queue_all_nil].
    destruct (get_region_ok a s x r Hi Hp Hx) as [-> E]; [lia|]. cbn [mbind option_bind]. rewrite (u32_small (r_len r * blk_size g)) by nia. rewrite Hq.
    change (get_next_region a (queue_block ?d s)) with (get_next_region a s). rewrite E. cbn [mbind option_bind].
    rewrite (IH fuel (r_next r)); [|done|done|done|done|cbn in Hf; lia|nia]. by rewrite queue_all_cons.
Qed.
End Loops.
