(* ===== verification/ExtentFile.v ===== *)
(** * Files get blocks of their own, and extents that name them

    [do_inode_allocate_extents] on an image in order: it fails when there is no room, and
    otherwise takes exactly the blocks the file needs, with one more for the extents when
    there are more than three, and leaves in the inode a tree of extents for them. *)
From stdpp Require Import base gmap list.
From Stdlib Require Import ZArith Lia.
From S2P Require Import Prelude Crc SparseFormat Backed Alloc AllocBits AllocInv AllocSafe AllocReduce AllocOob Extent ExtentSpec.
#[local] Open Scope Z_scope.

Section File.
Context (g : geom) (Hg : geom_ok g) (fuel : nat).

(** ** Regions lie in a group *)
Lemma free_block s b : groups_ok g (bgs s) -> free_data g s b -> 0 < b < len_blocks g ∧ ∃ i, 0 <= i < groups g ∧ gfirst g i < b < gfirst g i + blocks_per_group g.
Proof.
  intros Hs (i & bg & E & Hb). destruct (bg_at_ok g s i bg Hs E) as [Hi Hbg]. pose proof (bg_bounds g Hg i bg Hi Hbg). split; [lia|]. exists i. lia.
Qed.
Lemma free_run s b n : groups_ok g (bgs s) -> 0 < n -> (∀ c, b <= c < b + n -> free_data g s c) -> n <= 32768 ∧ 0 < b ∧ b + n <= len_blocks g.
Proof.
  intros Hs Hn Hf. destruct (free_block s b Hs (Hf b ltac:(lia))) as (Hb & i & Hi & Hbi). pose proof (bpg_range g Hg).
  destruct (free_block s (b + n - 1) Hs (Hf (b + n - 1) ltac:(lia))) as (He & _). split; [|lia].
  destruct (Z.le_gt_cases n (gfirst g i + blocks_per_group g - b)) as [|Hgt]; [lia|]. exfalso.
  destruct (free_block s (gfirst g i + blocks_per_group g) Hs (Hf (gfirst g i + blocks_per_group g) ltac:(lia))) as (_ & j & Hj & Hbj).
  assert (gfirst g i + blocks_per_group g = gfirst g (i + 1)) as E by (unfold gfirst; lia).
  assert (i + 1 = j); [|subst j; lia]. apply (same_group g Hg (i + 1) j (gfirst g (i + 1))); lia.
Qed.
Lemma allocated_fits s s' L : groups_ok g (bgs s) -> allocated g s s' L -> Forall region_fits L ∧ Forall (fun c => 0 < r_block c.2 ∧ r_block c.2 + r_len c.2 <= len_blocks g) L.
Proof.
  intros Hs Hal. pose proof (go_max g Hg). pose proof (bpg_range g Hg). apply Forall_and. rewrite Forall_forall. intros [x r] Hin. pose proof (al_pos _ _ _ _ Hal) as Hp. rewrite Forall_forall in Hp. specialize (Hp _ Hin). cbn in Hp.
  destruct (free_run s (r_block r) (r_len r) Hs Hp) as (H1 & H2 & H3); [|split; [split_and!|split]; cbn; lia].
  intros c Hc. apply (al_in _ _ _ _ Hal). by exists x, r.
Qed.
Lemma length_total L : Forall region_fits L -> zlen L <= total_len L.
Proof. induction 1 as [|[x r] L (H & _) _ IH]; unfold zlen in *; cbn in *; lia. Qed.

(** ** What a file takes *)
Definition inodes_sized (m : image_state) : Prop := ∀ p i, inodes m !! p = Some i -> zlen (i_block i) = 60.
Lemma inode_sized m p : inodes_sized m -> zlen (i_block (inode_at m p)) = 60.
Proof. intros H. unfold inode_at. destruct (inodes m !! p) as [i|] eqn:E; [by apply (H p) | done]. Qed.
Definition file_blocks (len : Z) : Z := (len + blk_size g - 1) / blk_size g.
Definition extents_block (b p : Z) : data_block := DataBlock b (blk_size g) p None 0 0 false None.

(** [oob] is the block of extents, if there is one; [L] the regions of the data. *)
Record stored (m m1 : image_state) (p len : Z) (a : block_allocation) (oob L : list (nat * region)) : Prop := Stored {
  st_alloc : ∃ s1, allocated g (fs m) s1 (oob ++ L) ∧ bgs (fs m1) = bgs s1 ∧ regs (fs m1) = regs s1 ∧ fresh (fs m1) = fresh s1;
  st_nodup : NoDup (oob ++ L).*1;
  st_chain : rchain (regs (fs m1)) (rl_first (a_list a)) L;
  st_oob : rchain (regs (fs m1)) (rl_first (a_oob a)) oob;
  st_iter : rl_iter (a_list a) = rl_first (a_list a) ∧ rl_partial (a_list a) = 0;
  st_len : total_len L = file_blocks len;
  st_count : zlen L <= groups g + 1;
  st_inode : (∀ q, q <> p -> inodes m1 !! q = inodes m !! q) ∧ inodes_sized m1 ∧
    i_size_lo (inode_at m1 p) = u32 len ∧ i_size_high (inode_at m1 p) = u32 (len / 2 ^ 32) ∧ i_mode (inode_at m1 p) = i_mode (inode_at m p) ∧
    i_links_count (inode_at m1 p) = i_links_count (inode_at m p);
  st_tree : match oob with
    | [] => queued_ds (fs m1) = queued_ds (fs m) ∧ brk (fs m1) = brk (fs m) ∧ bufs m1 = bufs m ∧
        ∀ block, read_tree block (i_block (inode_at m1 p)) = Some (chain_extents 0 L)
    | [(x, r)] => r_len r = 1 ∧ queued_ds (fs m1) = queued_ds (fs m) ++ [extents_block (r_block r) (brk (fs m))] ∧
        brk (fs m1) = brk (fs m) + blk_size g ∧
        ∃ buf, bufs m1 = <[brk (fs m) := buf]> (bufs m) ∧ zlen buf = blk_size g ∧ leaf_of buf = Some (chain_extents 0 L) ∧
          ∀ block, read_tree block (i_block (inode_at m1 p)) = leaf_of (block (r_block r))
    | _ => False
    end
}.

(** The extents in the inode. *)
Lemma inode_at_put p i m : inode_at (put_inode p i m) p = i.
Proof. unfold inode_at, put_inode. cbn. by rewrite lookup_insert_eq. Qed.
Lemma inode_at_put_ne p q i m : q <> p -> inode_at (put_inode p i m) q = inode_at m q.
Proof. intros H. unfold inode_at, put_inode. cbn. by rewrite lookup_insert_ne. Qed.
Lemma sized_put p i m : inodes_sized m -> zlen (i_block i) = 60 -> inodes_sized (put_inode p i m).
Proof. intros H Hi q j. unfold put_inode. cbn. rewrite lookup_insert_Some. intros [[_ <-]|[_ E]]; [done | by apply (H q)]. Qed.
Lemma node_overlay h es old : 12 + 12 * zlen es <= zlen old ->
  overlay 12 (extents_bytes es) (overlay 0 (extent_header_bytes h) old) = node_bytes h (extents_bytes es) old.
Proof.
  intros Hl. unfold node_bytes. change 12 with (0 + zlen (extent_header_bytes h)) at 1. apply overlay_app; [done|].
  rewrite extents_bytes_zlen. change (zlen (extent_header_bytes h)) with 12. lia.
Qed.

Lemma extents_in_inode m a p n L first :
  inodes_sized m -> rchain (regs (fs m)) first L -> Forall region_fits L -> rl_iter (a_list a) = first -> rl_partial (a_list a) = 0 ->
  (length L <= fuel)%nat -> total_len L < 2 ^ 32 -> zlen L <= 3 -> n = zlen L ->
  ∃ m1 b, (place_extents g 0 n p m ≫= fun '(leaf_data, m) => fill_extents fuel a p leaf_data m) = Some (at_end a, m1) ∧
    m1 = put_inode p (set_i_block b (inode_at m p)) (put_inode p (set_i_block (overlay 0 (extent_header_bytes (ExtentHeader n 3 0)) (i_block (inode_at m p))) (inode_at m p)) m) ∧
    zlen b = 60 ∧ ∀ block, read_tree block b = Some (chain_extents 0 L).
Proof.
  intros Hsz Hc HL Hi Hp Hf Ht H3 ->. pose proof (inode_sized m p Hsz) as H60. pose proof (zlen_nonneg L).
  unfold place_extents. change (0 =? 0) with true. rewrite (Z.mod_small (zlen L)) by lia.
  rewrite store_ok; [|done|rewrite H60; done]. cbn [mbind option_bind]. unfold fill_extents. rewrite inode_at_put. cbn [i_block set_i_block].
  rewrite (extents_loop_ok fuel _ first L); [|done|done|done|done|done|lia|lia|lia|].
  2:{ rewrite overlay_len; [rewrite H60; lia | lia |]. rewrite H60. done. }
  cbn [mbind option_bind]. rewrite node_overlay by (rewrite chain_extents_zlen, H60; lia). eexists _, _. split; [done|]. split; [done|]. split.
  - unfold node_bytes. rewrite overlay_len; [done | done |]. rewrite zlen_app, extents_bytes_zlen, chain_extents_zlen, H60. change (zlen (extent_header_bytes _)) with 12. lia.
  - eapply leaf_read; [apply chain_extents_zlen | lia | lia |]. apply chain_extents_fit; [lia | lia | done].
Qed.
Lemma extents_in_block m a p n L first b0 :
  inodes_sized m -> rchain (regs (fs m)) first L -> Forall region_fits L -> rl_iter (a_list a) = first -> rl_partial (a_list a) = 0 ->
  (length L <= fuel)%nat -> total_len L < 2 ^ 32 -> 12 + 12 * zlen L <= blk_size g -> n = zlen L -> 0 < b0 < 2 ^ 32 ->
  let i_blk := overlay 0 (extent_header_bytes (ExtentHeader 1 3 1) ++ extent_idx_bytes b0) (i_block (inode_at m p)) in
  ∃ buf h, (place_extents g b0 n p m ≫= fun '(leaf_data, m) => fill_extents fuel a p leaf_data m) =
      Some (at_end a, ImageState (Fsys (bgs (fs m)) (regs (fs m)) (fresh (fs m)) (queued_ds (fs m) ++ [extents_block b0 (brk (fs m))]) (brk (fs m) + blk_size g))
        (<[p := set_i_block i_blk (inode_at m p)]> (inodes m)) (<[brk (fs m) := buf]> (<[brk (fs m) := h]> (<[brk (fs m) := zeros (blk_size g)]> (bufs m))))) ∧
    zlen buf = blk_size g ∧ leaf_of buf = Some (chain_extents 0 L) ∧ zlen i_blk = 60 ∧ ∀ block, read_tree block i_blk = leaf_of (block b0).
Proof.
  intros Hsz Hc HL Hi Hp Hf Ht Hcap -> Hb0 i_blk. pose proof (inode_sized m p Hsz) as H60. pose proof (zlen_nonneg L). pose proof (blk_range g Hg).
  assert (Hz : zlen (zeros (blk_size g)) = blk_size g) by (unfold zlen, zeros; rewrite length_replicate; lia).
  assert (Hmax : 0 <= (blk_size g - 12) / 12 < 2 ^ 16). { split; [apply Z.div_pos; lia|]. apply Z.div_lt_upper_bound; lia. }
  unfold place_extents. cbv zeta. rewrite (proj2 (Z.eqb_neq _ _)) by lia. rewrite (Z.mod_small (zlen L)) by lia.
  rewrite (store_ok 0 (_ ++ _) (i_block _)); [|done|rewrite H60; done]. cbn [mbind option_bind]. unfold calloc_buf, calloc. cbn [fs put_inode mbind option_bind].
  change (12 / 12) with 1. rewrite s32_small, (proj2 (Z.ltb_ge _ _)) by lia.
  rewrite store_ok; [|done|rewrite Hz; change (zlen (extent_header_bytes _)) with 12; lia]. cbn [mbind option_bind]. unfold fill_extents. cbn [put_buf set_fs bufs].
  rewrite lookup_insert_eq. cbn [mbind option_bind].
  rewrite (extents_loop_ok fuel _ first L); [|done|done|done|done|done|lia|lia|lia|].
  2:{ rewrite overlay_len; [rewrite Hz; lia | lia |]. rewrite Hz. change (zlen (extent_header_bytes _)) with 12. lia. }
  cbn [mbind option_bind]. rewrite node_overlay by (rewrite chain_extents_zlen, Hz; lia). eexists _, _. split; [done|]. split; [|split; [|split]].
  - unfold node_bytes. rewrite overlay_len; [lia | lia |]. rewrite zlen_app, extents_bytes_zlen, chain_extents_zlen, Hz. change (zlen (extent_header_bytes _)) with 12. lia.
  - rewrite (Z.mod_small ((blk_size g - 12) / 12)) by lia. refine (proj1 (leaf_read _ _ _ _ _ _ _ _)); [apply chain_extents_zlen | lia | lia |]. apply chain_extents_fit; [lia | lia | done].
  - unfold i_blk. rewrite overlay_len; [done | done |]. by rewrite H60.
  - intros block. apply root_read. lia.
Qed.

Lemma u32_zero : u32 0 = 0.
Proof. done. Qed.
Lemma inode_at_set_fs s m p : inode_at (set_fs s m) p = inode_at m p.
Proof. done. Qed.
(** The fields set at the end. *)
Lemma set_data_fields len blocks i : i_block (set_data len blocks i) = i_block i ∧ i_size_lo (set_data len blocks i) = u32 len ∧
  i_size_high (set_data len blocks i) = u32 (len / 2 ^ 32) ∧ i_mode (set_data len blocks i) = i_mode i ∧ i_links_count (set_data len blocks i) = i_links_count i.
Proof. done. Qed.

Context (m : image_state) (p len : Z).
Context (Hs : groups_ok g (bgs (fs m))) (Hf : regs_fresh (fs m)) (Hsz : inodes_sized m).
Context (Hlen : 0 < len) (Hmax : file_blocks len + 1 < 2 ^ 32) (Hfuel : groups g + 1 < Z.of_nat fuel) (Hcap : 12 * (groups g + 2) <= blk_size g).

Lemma file_blocks_pos : 0 < file_blocks len.
Proof. pose proof (blk_range g Hg). unfold file_blocks. apply Z.div_str_pos. lia. Qed.
(** With at most three regions. *)
Lemma few_regions first s1 L0 : allocated g (fs m) s1 L0 -> chain_of g s1 first L0 (file_blocks len + 1) -> zlen L0 <= 3 -> zlen L0 <= groups g + 1 ->
  ∃ a m1 L, ('(l, s) ← reduce_allocation fuel (RegionList first first first 0) 1 s1;
      '(leaf_data, m') ← place_extents g 0 (zlen L0) p (set_fs s m);
      '(a, m') ← fill_extents fuel (BlockAllocation l no_regions) p leaf_data m';
      Some (rewind_alloc a, put_inode p (set_data len (file_blocks len * blk_size g / 512) (inode_at m' p)) m')) = Some (a, m1) ∧ stored m m1 p len a [] L.
Proof.
  intros Hal Hch H3 Hcount. pose proof file_blocks_pos as Hpos. pose proof (go_groups g Hg). assert (∃ fuel', fuel = S fuel') as [fuel' Efuel] by (exists (pred fuel); lia).
  destruct (reduce_one g Hg fuel' _ _ _ _ _ Hal Hch ltac:(lia)) as (s2 & x & r & L1 & -> & E & Hal2 & Hc2 & Ht2). rewrite <- Efuel in E. rewrite E. cbn [mbind option_bind].
  set (L := (x, shorten r) :: L1) in *. destruct (allocated_fits _ _ _ Hs Hal2) as [HL _].
  assert (Hzl : zlen L = zlen ((x, r) :: L1)) by done. pose proof (inode_sized m p Hsz) as H60.
  destruct (extents_in_inode (set_fs s2 m) (BlockAllocation (RegionList first first first 0) no_regions) p (zlen L) L first)
    as (m2 & b & E2 & Em2 & Hb & Htree); [done | done | done | done | done | unfold zlen in *; lia | lia | lia | done |].
  rewrite <- Hzl. destruct (place_extents g 0 (zlen L) p (set_fs s2 m)) as [[ld m3]|]; [|done]. cbn [mbind option_bind] in E2 |- *.
  rewrite E2. cbn [mbind option_bind]. eexists _, _, L. split; [done|]. rewrite Em2. set (hdr := overlay 0 _ _).
  split; cbn [rewind_alloc at_end a_list a_oob set_iter rl_first rl_last rl_iter rl_partial app put_inode set_fs fs].
  - by exists s2.
  - destruct Hch as [(x' & r' & L' & EL & _ & _ & Hnd & _) _]. injection EL as -> -> ->. exact Hnd.
  - exact Hc2.
  - done.
  - done.
  - lia.
  - lia.
  - rewrite !inode_at_put. cbn [set_data set_i_block i_size_lo i_size_high i_mode i_links_count i_block]. split; [|split; [|done]].
    + intros q Hq. cbn. by rewrite !lookup_insert_ne.
    + repeat apply sized_put; try done. cbn. unfold hdr. rewrite overlay_len; rewrite ?inode_at_set_fs, ?H60; done.
  - rewrite inode_at_put. split; [exact (al_queued _ _ _ _ Hal2)|]. split; [exact (al_brk _ _ _ _ Hal2)|]. split; [done|]. rewrite inode_at_put. exact Htree.
Qed.
(** With more. *)
Lemma many_regions first s1 L0 : allocated g (fs m) s1 L0 -> chain_of g s1 first L0 (file_blocks len + 1) -> zlen L0 <= groups g + 1 ->
  ∃ a m1 oob L b0, ('(_, a, s) ← reserve_oob_blocks fuel (BlockAllocation (RegionList first first first 0) no_regions) 1 s1;
      b ← get_oob_block fuel a 0 s;
      '(leaf_data, m') ← place_extents g b (zlen L0) p (set_fs s m);
      '(a, m') ← fill_extents fuel a p leaf_data m';
      Some (b, (rewind_alloc a, put_inode p (set_data len ((file_blocks len + 1) * blk_size g / 512) (inode_at m' p)) m'))) = Some (b0, (a, m1)) ∧
    b0 <> 0 ∧ stored m m1 p len a oob L.
Proof.
  intros Hal Hch Hcount. pose proof file_blocks_pos as Hpos. pose proof (go_groups g Hg). pose proof (blk_range g Hg).
  destruct (reserve_oob_one g Hg fuel _ _ _ _ _ Hal Hch ltac:(lia) Hmax ltac:(lia)) as (s2 & x & y & r & L1 & -> & -> & Hal2 & Hnd & Hco & Hcd & Ht2). cbn [mbind option_bind].
  set (L := (y, data_region r) :: L1) in *. destruct (allocated_fits _ _ _ Hs Hal2) as [HL Hpl]. apply Forall_cons in HL as [Hox HL]. apply Forall_cons in Hpl as [[Hb0 Hb1] _].
  cbn [snd oob_region r_block r_len] in *. pose proof (go_max g Hg). pose proof (bpg_range g Hg).
  assert (Hzl : zlen L = zlen ((x, r) :: L1)) by done. pose proof (inode_sized m p Hsz) as H60.
  assert (E : get_oob_block fuel (BlockAllocation (RegionList (Some y) None (Some y) 0) (RegionList (Some x) (Some x) (Some x) 0)) 0 s2 = Some (r_block r)).
  { unfold get_oob_block, list_block. cbn [a_oob rl_iter rl_partial]. destruct Hco as (_ & Hx & _). destruct fuel as [|f']; [lia|]. cbn [nth_block]. rewrite Hx.
    cbn [mbind option_bind oob_region r_len r_block]. change (u32 (0 + 0)) with 0. change (0 <? 1) with true. rewrite Z.add_0_r, u32_small; [done | lia]. }
  rewrite E. cbn [mbind option_bind].
  destruct (extents_in_block (set_fs s2 m) (BlockAllocation (RegionList (Some y) None (Some y) 0) (RegionList (Some x) (Some x) (Some x) 0)) p (zlen L) L (Some y) (r_block r))
    as (buf & h & E2 & Hbuf & Hleaf & H60' & Htree); [done | done | done | done | done | unfold zlen in *; lia | lia | lia | done | lia |].
  rewrite <- Hzl. destruct (place_extents g (r_block r) (zlen L) p (set_fs s2 m)) as [[ld m3]|]; [|done]. cbn [mbind option_bind] in E2 |- *.
  rewrite E2. cbn [mbind option_bind]. eexists _, _, [(x, oob_region r)], L, _. split; [done|]. split; [lia|]. pose proof (al_brk _ _ _ _ Hal2) as Hbrk. pose proof (al_queued _ _ _ _ Hal2) as Hq.
  split; cbn [rewind_alloc at_end a_list a_oob set_iter rl_first rl_last rl_iter rl_partial app put_inode set_fs fs bgs regs fresh queued_ds brk].
  - by exists s2.
  - exact Hnd.
  - exact Hcd.
  - exact Hco.
  - done.
  - lia.
  - lia.
  - rewrite !inode_at_put. cbn [set_data i_size_lo i_size_high i_mode i_links_count]. unfold inode_at. cbn [inodes]. rewrite lookup_insert_eq. cbn [default from_option id set_i_block i_mode i_links_count].
    split; [|split; [|done]].
    + intros q Hq'. cbn. by rewrite !lookup_insert_ne.
    + apply sized_put; [|exact H60']. intros q j. cbn [inodes]. rewrite lookup_insert_Some. intros [[_ <-]|[_ Ej]]; [exact H60' | by apply (Hsz q)].
  - rewrite inode_at_put. unfold inode_at. cbn [inodes]. rewrite lookup_insert_eq. split; [done|]. rewrite <- Hbrk, <- Hq. split; [done|]. split; [done|]. cbn [bufs].
    exists buf. rewrite !insert_insert_eq. split; [done|]. split; [done|]. split; [done|]. exact Htree.
Qed.

Lemma do_extents_ok :
  (do_inode_allocate_extents g fuel p len m = None ∧ no_room (file_blocks len + 1) (fs m)) ∨
  ∃ a m1 oob L, do_inode_allocate_extents g fuel p len m = Some (a, m1) ∧ stored m m1 p len a oob L.
Proof.
  pose proof file_blocks_pos as Hpos. pose proof (go_groups g Hg). pose proof (empties_le (fs m)) as He. destruct Hs as [Hgl _]. unfold zlen in Hgl.
  unfold do_inode_allocate_extents. change ((len + blk_size g - 1) / blk_size g) with (file_blocks len). rewrite (u32_small (file_blocks len)) by lia. rewrite (u32_small (file_blocks len + 1)) by lia.
  unfold allocate_blocks. destruct (do_allocate_ok g Hg fuel (file_blocks len + 1) (fs m) Hs Hf) as (first & s1 & L0 & -> & Hal & Hres & Hcount); [lia | lia |].
  cbn [mbind option_bind]. destruct Hres as [(-> & Hno & _)|Hch]; [left; split; [done | exact Hno]|]. right.
  assert (Hc3 : zlen L0 <= groups g + 1) by (unfold zlen; lia).
  destruct first as [x|]; [|destruct Hch as [(? & ? & ? & _ & [=] & _) _]]. cbn [mbind option_bind].
  unfold block_allocation_num_regions. cbn [a_list rl_first]. rewrite (num_regions_ok fuel s1 (Some x) L0); [|by destruct Hch as [(? & ? & ? & _ & _ & Hc & _) _] | unfold zlen in Hc3; lia].
  cbn [mbind option_bind]. destruct (Z.leb_spec (zlen L0) 3) as [H3|H3].
  - destruct (few_regions (Some x) s1 L0 Hal Hch H3 Hc3) as (a & m1 & L & E & Hst). exists a, m1, [], L. split; [|exact Hst].
    destruct (reduce_allocation fuel (RegionList (Some x) (Some x) (Some x) 0) 1 s1) as [[l s2]|]; [|done]. exact E.
  - destruct (many_regions (Some x) s1 L0 Hal Hch Hc3) as (a & m1 & oob & L & b0 & E & Hb0 & Hst). exists a, m1, oob, L. split; [|exact Hst].
    destruct (reserve_oob_blocks fuel _ 1 s1) as [[[ret a'] s2]|]; [|done]. cbn [mbind option_bind] in E |- *.
    destruct (get_oob_block fuel a' 0 s2) as [b|]; [|done]. cbn [mbind option_bind] in E |- *.
    destruct (place_extents g b (zlen L0) p (set_fs s2 m)) as [[ld m3]|]; [|done]. cbn [mbind option_bind] in E |- *.
    destruct (fill_extents fuel a' p ld m3) as [[a2 m4]|]; [|done]. cbn [mbind option_bind] in E |- *. assert (b0 = b) as -> by congruence. rewrite (proj2 (Z.eqb_neq b 0)) by done. congruence.
Qed.
End File.
