(* ===== verification/FileTrip.v ===== *)
(** * What is read from the image of a file system

    The blocks that are queued do not overlap, whatever files and directories are made:
    each has blocks of its own.  So a file is read back from the image, through the extents
    of its inode, as it was when the image was written. *)
From stdpp Require Import base gmap list list_numbers.
From Stdlib Require Import ZArith Lia.
From S2P Require Import Prelude Crc SparseFormat Backed OutFile OutFileSpec ImageTrip.
From S2P Require Import Alloc AllocBits AllocInv AllocSafe AllocReduce AllocOob Extent ExtentSpec ExtentFile.
#[local] Open Scope Z_scope.

Section Trip.
Context (g : geom) (Hg : geom_ok g).
Notation bs := (blk_size g).

(** ** Blocks of the image *)
Definition nblocks (d : data_block) : Z := (len d + bs - 1) / bs.
Definition occupies (d : data_block) (b : Z) : Prop := block d <= b < block d + nblocks d.
Fixpoint q_apart (l : list data_block) : Prop :=
  match l with [] => True | d :: l => (∀ e b, e ∈ l -> occupies d b -> ¬ occupies e b) ∧ q_apart l end.
Lemma q_apart_app l l' : q_apart (l ++ l') <-> q_apart l ∧ q_apart l' ∧ ∀ d e b, d ∈ l -> e ∈ l' -> occupies d b -> ¬ occupies e b.
Proof.
  induction l as [|d l IH]; cbn [app q_apart].
  - split; [intros H; split_and!; [done | done | by intros d e b ?%elem_of_nil] | by intros (_ & H & _)].
  - rewrite IH. split.
    + intros (H1 & H2 & H3 & H4). split_and!; [intros e b He; apply H1, elem_of_app; by left | done | done |].
      intros d' e b [->|Hd]%elem_of_cons He; [apply H1, elem_of_app; by right | by apply H4].
    + intros ((H1 & H2) & H3 & H4). split_and!; [|done | done | intros d' e b Hd; apply H4; by right].
      intros e b [He|He]%elem_of_app; [by apply H1 | apply H4; [left | done]].
Qed.
Lemma q_apart_perm l l' : l ≡ₚ l' -> q_apart l -> q_apart l'.
Proof.
  induction 1 as [|d l l' Hp IH|d e l|l1 l2 l3 _ IH1 _ IH2]; cbn [q_apart].
  - done.
  - intros [H1 H2]. split; [|by apply IH]. intros e b He. apply H1. by rewrite Hp.
  - intros (H1 & H2 & H3). split_and!; [|intros f b Hf; apply H1; by right | done].
    intros f b [->|Hf]%elem_of_cons; [intros Hd He; by apply (H1 d b); [left|..] | by apply H2].
  - auto.
Qed.

(** Nothing is queued where the inode table of a group will be. *)
Definition table_area (i : Z) (bg : block_group_info) (b : Z) : Prop :=
  gfirst g i + gtable g (has_superblock bg) <= b < gfirst g i + gdata g (has_superblock bg).
Definition no_tables (s : fsys) (q : list data_block) : Prop :=
  ∀ i bg d b, bg_at s i = Some bg -> inode_table bg = None -> d ∈ q -> table_area i bg b -> ¬ occupies d b.
Lemma table_not_free s i bg b : groups_ok g (bgs s) -> bg_at s i = Some bg -> table_area i bg b -> ¬ free_data g s b.
Proof.
  intros Hs E [Hb1 Hb2] (j & bgj & Ej & Hj). destruct (bg_at_ok g s i bg Hs E) as [Hi Hbg]. destruct (bg_at_ok g s j bgj Hs Ej) as [Hj' Hbgj].
  pose proof (bg_bounds g Hg i bg Hi Hbg). pose proof (bg_bounds g Hg j bgj Hj' Hbgj). pose proof (go_counts g Hg).
  assert (0 <= gtable g (has_superblock bg)) by (unfold gtable, gmaps; destruct (has_superblock bg); lia).
  assert (i = j) as <- by (apply (same_group g Hg i j b); lia). assert (bgj = bg) as -> by congruence. lia.
Qed.

(** The inodes of a group: those below the first free one are taken. *)
Definition inodes_in (bg : block_group_info) : Prop :=
  1 <= first_free_inode bg ∧ 0 <= free_inodes bg ∧ first_free_inode bg + free_inodes bg = inodes_per_group g + 1 ∧
  bytes (inode_bitmap bg) ∧ zlen (inode_bitmap bg) = bs ∧
  ∀ j, 0 <= j < inodes_per_group g -> bit_at (inode_bitmap bg) j = (j <? first_free_inode bg - 1).

(** An image under construction. *)
Record image_ok (m : image_state) : Prop := ImageOk {
  io_groups : groups_ok g (bgs (fs m));
  io_fresh : regs_fresh (fs m);
  io_sized : inodes_sized m;
  io_in : Forall (fun d => 0 < len d ∧ 0 <= block d ∧ block d + nblocks d <= len_blocks g) (queued_ds (fs m));
  io_used : ∀ d b, d ∈ queued_ds (fs m) -> occupies d b -> ¬ free_data g (fs m) b;
  io_apart : q_apart (queued_ds (fs m));
  io_tables : no_tables (fs m) (queued_ds (fs m));
  io_inodes : ∀ i bg, bg_at (fs m) i = Some bg -> inodes_in bg
}.

(** Blocks are queued where there was nothing. *)
Lemma image_ok_step m m' s1 R D : image_ok m -> allocated g (fs m) s1 R -> bgs (fs m') = bgs s1 -> regs_fresh (fs m') -> inodes_sized m' ->
  queued_ds (fs m') = queued_ds (fs m) ++ D -> (∀ d b, d ∈ D -> occupies d b -> covers R b) -> q_apart D ->
  Forall (fun d => 0 < len d ∧ 0 <= block d ∧ block d + nblocks d <= len_blocks g) D -> image_ok m'.
Proof.
  intros [I1 I2 I3 I4 I5 I6 I7 I8] Hal Eb Hf Hs Eq HD Ha Hin. assert (Hfree : ∀ b, free_data g (fs m') b <-> free_data g s1 b).
  { intros b. split; intros (i & bg & E & Hi); exists i, bg; unfold bg_at in *; by rewrite Eb in *. }
  split; try done.
  - rewrite Eb. apply (al_groups _ _ _ _ Hal).
  - rewrite Eq. by apply Forall_app.
  - rewrite Eq. intros d b [Hd|Hd]%elem_of_app Ho; rewrite Hfree, (al_free _ _ _ _ Hal b); [intros [? _]; by apply (I5 d b) | intros [_ Hn]; by apply Hn, (HD d)].
  - rewrite Eq, q_apart_app. split_and!; [done | done |]. intros d e b Hd He Hb Hb'. apply (I5 d b Hd Hb). apply (al_in _ _ _ _ Hal). by apply (HD e).
  - rewrite Eq. intros i bg d b E Ht Hd Hb Ho. unfold bg_at in E. rewrite Eb in E. fold (bg_at s1 i) in E. pose proof (al_rest _ _ _ _ Hal i) as Hr. rewrite E in Hr.
    destruct (bg_at (fs m) i) as [bg0|] eqn:E0; [|done]. destruct Hr as (bm & u & f & n & ->). apply elem_of_app in Hd as [Hd|Hd].
    + by apply (I7 i bg0 d b E0).
    + apply (table_not_free (fs m) i bg0 b I1 E0 Hb). apply (al_in _ _ _ _ Hal). by apply (HD d).
  - intros i bg E. unfold bg_at in E. rewrite Eb in E. fold (bg_at s1 i) in E. pose proof (al_rest _ _ _ _ Hal i) as Hr. rewrite E in Hr.
    destruct (bg_at (fs m) i) as [bg0|] eqn:E0; [|done]. destruct Hr as (bm & u & f & n & ->). exact (I8 i bg0 E0).
Qed.

(** The blocks of a region. *)
Lemma nblocks_le n r : 0 < n <= r * bs -> 0 < (n + bs - 1) / bs <= r.
Proof.
  intros Hn. pose proof (blk_range g Hg). split; [apply Z.div_str_pos; lia|]. apply Z.lt_succ_r. apply Z.div_lt_upper_bound; [lia|]. unfold Z.succ. rewrite Z.mul_add_distr_l. lia.
Qed.
Definition mk_ok (mk : Z -> Z -> Z -> data_block) : Prop := ∀ pos n b, block (mk pos n b) = b ∧ len (mk pos n b) = n.
Lemma backing_in mk L n pos d : mk_ok mk -> Forall region_fits L -> d ∈ backing g mk L n pos ->
  ∃ x r, (x, r) ∈ L ∧ block d = r_block r ∧ 0 < len d ∧ 0 < nblocks d <= r_len r.
Proof.
  intros Hmk HL. revert n pos. induction HL as [|[x r] L (H1 & _) HL IH]; intros n pos; cbn [backing]; [by intros ?%elem_of_nil|].
  destruct (Z.ltb_spec 0 n) as [Hn|]; [|by intros ?%elem_of_nil]. cbn in H1. destruct (Hmk pos (Z.min (r_len r * bs) n) (r_block r)) as [E1 E2]. pose proof (blk_range g Hg).
  intros [->|Hd]%elem_of_cons.
  - exists x, r. split; [left|]. split; [done|]. assert (0 < Z.min (r_len r * bs) n <= r_len r * bs) by nia. unfold nblocks. rewrite E2. split; [lia|]. by apply nblocks_le.
  - destruct (IH _ _ Hd) as (y & q & Hin & Hrest). exists y, q. split; [by right | done].
Qed.
Lemma backing_covers mk L n pos d b : mk_ok mk -> Forall region_fits L -> d ∈ backing g mk L n pos -> occupies d b -> covers L b.
Proof. intros Hmk HL Hd Hb. destruct (backing_in mk L n pos d Hmk HL Hd) as (x & r & Hin & E & _ & Hn). exists x, r. split; [done|]. unfold occupies in Hb. lia. Qed.
Lemma backing_apart mk L n pos : mk_ok mk -> Forall region_fits L -> apart L -> q_apart (backing g mk L n pos).
Proof.
  intros Hmk HL. revert n pos. induction HL as [|[x r] L (H1 & H2) HL IH]; intros n pos; cbn [backing apart]; [done|]. intros [Ha Ha'].
  destruct (Z.ltb_spec 0 n) as [Hn|]; [|done]. cbn [snd] in *. cbn [q_apart]. split; [|by apply IH]. intros e b He Hb Hb'.
  apply (Ha b); [|by apply (backing_covers mk L _ _ e b Hmk HL He)]. destruct (Hmk pos (Z.min (r_len r * bs) n) (r_block r)) as [E1 E2]. unfold occupies, nblocks in Hb. rewrite E1, E2 in Hb.
  pose proof (blk_range g Hg). pose proof (nblocks_le (Z.min (r_len r * bs) n) (r_len r) ltac:(nia)). lia.
Qed.
Lemma backing_range mk L n pos : mk_ok mk -> Forall region_fits L -> Forall (fun c => 0 < r_block c.2 ∧ r_block c.2 + r_len c.2 <= len_blocks g) L ->
  Forall (fun d => 0 < len d ∧ 0 <= block d ∧ block d + nblocks d <= len_blocks g) (backing g mk L n pos).
Proof.
  intros Hmk HL Hr. apply Forall_forall. intros d Hd. destruct (backing_in mk L n pos d Hmk HL Hd) as (x & r & Hin & E & Hlen & Hn).
  rewrite Forall_forall in Hr. specialize (Hr _ Hin). cbn in Hr. lia.
Qed.

Lemma blocks_enough n : n <= file_blocks g n * bs.
Proof. pose proof (blk_range g Hg). unfold file_blocks. pose proof (Z.div_mod (n + bs - 1) bs). pose proof (Z.mod_pos_bound (n + bs - 1) bs). lia. Qed.

(** ** The operations *)
Context (fuel : nat) (Hfuel : groups g + 1 < Z.of_nat fuel).

Definition oob_blocks (m : image_state) (oob : list (nat * region)) : list data_block :=
  (fun c => extents_block g (r_block c.2) (brk (fs m))) <$> oob.
Lemma stored_fits m m1 p len a oob L : image_ok m -> stored g m m1 p len a oob L ->
  Forall region_fits L ∧ Forall (fun c => 0 < r_block c.2 ∧ r_block c.2 + r_len c.2 <= len_blocks g) (oob ++ L) ∧ apart L.
Proof.
  intros Hm Hst. destruct (st_alloc _ _ _ _ _ _ _ _ Hst) as (s1 & Hal & _). destruct (allocated_fits g Hg _ _ _ (io_groups _ Hm) Hal) as [H1 H2].
  apply Forall_app in H1 as [_ H1]. split; [done|]. split; [done|]. pose proof (al_apart _ _ _ _ Hal) as Ha. clear -Ha. induction oob as [|[x r] oob IH]; [done|]. by apply IH, Ha.
Qed.
Lemma stored_queued m m1 p len a oob L : stored g m m1 p len a oob L ->
  queued_ds (fs m1) = queued_ds (fs m) ++ oob_blocks m oob ∧ brk (fs m) <= brk (fs m1) ∧ (oob = [] ∨ ∃ x r, oob = [(x, r)] ∧ r_len r = 1).
Proof.
  intros Hst. pose proof (st_tree _ _ _ _ _ _ _ _ Hst) as Ht. pose proof (blk_range g Hg). destruct oob as [|[x r] [|]]; [| |done].
  - destruct Ht as (E & Eb & _). rewrite app_nil_r. split; [done|]. split; [lia|]. by left.
  - destruct Ht as (H1 & E & Eb & _). split; [done|]. split; [lia|]. right. by exists x, r.
Qed.
(** The data is queued, and the regions are given up. *)
Lemma finish_ok m m1 m3 p len n a oob L mk : image_ok m -> stored g m m1 p len a oob L -> mk_ok mk ->
  bgs (fs m3) = bgs (fs m1) -> regs_fresh (fs m3) -> inodes m3 = inodes m1 -> queued_ds (fs m3) = queued_ds (fs m1) ++ backing g mk L n 0 -> image_ok m3.
Proof.
  intros Hm Hst Hmk Eb Hf Ei Eq. destruct (stored_fits _ _ _ _ _ _ _ Hm Hst) as (HL & Hr & Ha). destruct (stored_queued _ _ _ _ _ _ _ Hst) as (Eq1 & _ & Hoob).
  pose proof (backing_covers mk L n 0) as Hbc. pose proof (backing_range mk L n 0 Hmk HL) as Hbr. pose proof (backing_apart mk L n 0 Hmk HL Ha) as Hba.
  destruct (st_alloc _ _ _ _ _ _ _ _ Hst) as (s1 & Hal & Eb1 & _). pose proof (blk_range g Hg). apply Forall_app in Hr as [Hro Hr].
  assert (Hob : ∀ d b, d ∈ oob_blocks m oob -> occupies d b -> covers oob b).
  { destruct Hoob as [->|(x & r & -> & H1)]; [by intros d b ?%elem_of_nil|]. intros d b ->%list_elem_of_singleton Ho. exists x, r. split; [left|].
    unfold occupies, nblocks in Ho. cbn in Ho. replace ((bs + bs - 1) / bs) with 1 in Ho; [lia|]. apply (Z.div_unique _ _ 1 (bs - 1)); lia. }
  apply (image_ok_step m m3 s1 (oob ++ L) (oob_blocks m oob ++ backing g mk L n 0)); try done.
  - congruence.
  - intros q i. rewrite Ei. destruct (st_inode _ _ _ _ _ _ _ _ Hst) as (_ & H2 & _). apply H2.
  - by rewrite Eq, Eq1, app_assoc.
  - intros d b [Hd|Hd]%elem_of_app Ho; rewrite covers_app; [left; by apply (Hob d) | right; by apply (Hbc d b)].
  - rewrite q_apart_app. split_and!; [|done|].
    + destruct Hoob as [->|(x & r & -> & _)]; cbn; [done|]. split; [|done]. by intros e b ?%elem_of_nil.
    + intros d e b Hd He Hb Hb'. pose proof (Hob d b Hd Hb) as Hc1. pose proof (Hbc e b Hmk HL He Hb') as Hc2. pose proof (al_apart _ _ _ _ Hal) as Hap.
      destruct Hoob as [->|(x & r & -> & _)]; [by apply covers_nil in Hc1|]. destruct Hap as [Hap _]. apply covers_cons in Hc1 as [Hc1|Hc1%covers_nil]; [by apply (Hap b) | done].
  - apply Forall_app. split; [|by apply Hbr]. destruct Hoob as [->|(x & r & -> & H1)]; [constructor|]. apply Forall_cons in Hro as [Hro _]. cbn in Hro. constructor; [|constructor].
    unfold nblocks. cbn. replace ((bs + bs - 1) / bs) with 1; [lia|]. apply (Z.div_unique _ _ 1 (bs - 1)); lia.
Qed.
Lemma free_alloc_ok m m1 p len a oob L s : stored g m m1 p len a oob L -> regs s = regs (fs m1) -> fresh s = fresh (fs m1) -> regs_fresh s ->
  ∃ s', free_alloc fuel a s = Some s' ∧ same_but_regs s s' ∧ regs_fresh s'.
Proof.
  intros Hst Er Ef Hf. pose proof (st_nodup _ _ _ _ _ _ _ _ Hst) as Hnd. rewrite fmap_app, NoDup_app in Hnd. destruct Hnd as (Hno & Hd & HnL).
  destruct (stored_queued _ _ _ _ _ _ _ Hst) as (_ & _ & Hoob). pose proof (st_count _ _ _ _ _ _ _ _ Hst) as Hc. unfold zlen in Hc. pose proof (go_groups g Hg).
  unfold free_alloc. destruct (free_list_ok fuel s (rl_first (a_list a)) L) as (s1 & -> & (E1 & E2 & E3 & E4) & H1); [rewrite Er; apply (st_chain _ _ _ _ _ _ _ _ Hst) | done | lia |].
  cbn [mbind option_bind]. destruct (free_list_ok fuel s1 (rl_first (a_oob a)) oob) as (s2 & -> & (E5 & E6 & E7 & E8) & H2).
  - eapply rchain_frame; [|apply (st_oob _ _ _ _ _ _ _ _ Hst)]. intros x Hx. rewrite H1, Er, decide_False; [done|]. by apply Hd.
  - done.
  - destruct Hoob as [->|(x & r & -> & _)]; cbn; lia.
  - exists s2. split; [done|]. split; [unfold same_but_regs; split_and!; congruence|]. intros x Hx. rewrite H2, H1. repeat case_decide; try done. apply Hf. rewrite E6, E2 in Hx. lia.
Qed.

(** What is left of a file in the image: its inode with its extents, its blocks, and the
    block of extents in memory. *)
Record filed (m m3 : image_state) (p len : Z) (oob L : list (nat * region)) (D : list data_block) : Prop := Filed {
  fi_alloc : ∃ s1, allocated g (fs m) s1 (oob ++ L) ∧ bgs (fs m3) = bgs s1;
  fi_ok : image_ok m3;
  fi_queued : queued_ds (fs m3) = queued_ds (fs m) ++ oob_blocks m oob ++ D;
  fi_brk : brk (fs m) <= brk (fs m3);
  fi_fits : Forall region_fits L ∧ Forall (fun c => 0 < r_block c.2 ∧ r_block c.2 + r_len c.2 <= len_blocks g) L;
  fi_len : total_len L = file_blocks g len ∧ total_len oob <= 1;
  fi_inode : (∀ q, q <> p -> inodes m3 !! q = inodes m !! q) ∧
    i_size_lo (inode_at m3 p) = u32 len ∧ i_size_high (inode_at m3 p) = u32 (len / 2 ^ 32) ∧ i_mode (inode_at m3 p) = i_mode (inode_at m p) ∧
    i_links_count (inode_at m3 p) = i_links_count (inode_at m p);
  fi_tree : match oob with
    | [] => ∀ block, read_tree block (i_block (inode_at m3 p)) = Some (chain_extents 0 L)
    | (x, r) :: _ => brk (fs m) + bs <= brk (fs m3) ∧
        ∃ buf, bufs m3 !! brk (fs m) = Some buf ∧ zlen buf = bs ∧ leaf_of buf = Some (chain_extents 0 L) ∧
          ∀ block, read_tree block (i_block (inode_at m3 p)) = leaf_of (block (r_block r))
    end
}.
Section Op.
Context (m : image_state) (Hm : image_ok m) (p n : Z) (Hlen : 0 < n) (Hmax : file_blocks g n + 1 < 2 ^ 32) (Hcap : 12 * (groups g + 2) <= bs).

Lemma stored_fresh m1 a oob L : stored g m m1 p n a oob L -> regs_fresh (fs m1).
Proof. intros Hst. destruct (st_alloc _ _ _ _ _ _ _ _ Hst) as (s1 & Hal & _ & Er & Ef). intros x Hx. rewrite Er. rewrite Ef in Hx. by apply (al_dom _ _ _ _ Hal). Qed.

Definition file_mk (f : nat) (pos len block : Z) : data_block := DataBlock block len 0 (Some f) pos 0 false None.
Lemma file_op_ok f :
  (inode_allocate_file_extents g fuel p n f m = None ∧ no_room (file_blocks g n + 1) (fs m)) ∨
  ∃ m3 oob L, inode_allocate_file_extents g fuel p n f m = Some m3 ∧ filed m m3 p n oob L (backing g (file_mk f) L n 0) ∧ (∀ a, a < brk (fs m) -> bufs m3 !! a = bufs m !! a).
Proof.
  unfold inode_allocate_file_extents. destruct Hm as [I1 I2 I3 _ _ _ _ _].
  destruct (do_extents_ok g Hg fuel m p n I1 I2 I3 Hlen Hmax Hfuel Hcap) as [[-> Hno]|(a & m1 & oob & L & -> & Hst)]; [by left|]. right. cbn [mbind option_bind].
  destruct (stored_fits _ _ _ _ _ _ _ Hm Hst) as (HL & Hr & Ha). pose proof (stored_fresh _ _ _ _ Hst) as Hf1. pose proof (blocks_enough n) as Hen. pose proof (st_count _ _ _ _ _ _ _ _ Hst) as Hc. unfold zlen in Hc.
  unfold extent_create_backing_file. destruct (st_iter _ _ _ _ _ _ _ _ Hst) as [Hi Hp0].
  rewrite (backing_loop_ok g Hg fuel (fs m1) (rl_first (a_list a)) L a n _ (file_mk f)); [|done|apply (st_chain _ _ _ _ _ _ _ _ Hst)|done|done|done|lia|rewrite (st_len _ _ _ _ _ _ _ _ Hst); lia].
  cbn [mbind option_bind set_fs fs]. destruct (free_alloc_ok m m1 p n a oob L (queue_all (backing g (file_mk f) L n 0) (fs m1)) Hst) as (s' & -> & (E1 & E2 & E3 & E4) & Hf'); [done..|].
  cbn [mbind option_bind]. destruct (stored_queued _ _ _ _ _ _ _ Hst) as (Eq1 & Hbrk & Hoob). apply Forall_app in Hr as [Hro Hr]. eexists _, oob, L. split; [done|].
  assert (Hbufs : ∀ q, q < brk (fs m) -> bufs m1 !! q = bufs m !! q).
  { pose proof (st_tree _ _ _ _ _ _ _ _ Hst) as Ht. intros q Hq. destruct oob as [|[x r] [|]]; [by destruct Ht as (_ & _ & -> & _) | | done]. destruct Ht as (_ & _ & _ & buf & -> & _). apply lookup_insert_ne. lia. }
  split; [|done]. destruct (st_inode _ _ _ _ _ _ _ _ Hst) as (J1 & _ & J3). split; cbn [set_fs fs inodes bufs].
  - destruct (st_alloc _ _ _ _ _ _ _ _ Hst) as (s1 & Hal & Eb & _). exists s1. split; [done|]. by rewrite E1.
  - apply (finish_ok m m1 _ p n n a oob L (file_mk f) Hm Hst); try done.
  - rewrite E3. cbn. by rewrite Eq1, app_assoc.
  - rewrite E4. done.
  - done.
  - split; [apply (st_len _ _ _ _ _ _ _ _ Hst)|]. destruct Hoob as [->|(x & r & -> & Er)]; cbn; lia.
  - done.
  - pose proof (st_tree _ _ _ _ _ _ _ _ Hst) as Ht. destruct oob as [|[x r] [|]]; [apply Ht| |done].
    destruct Ht as (_ & _ & Hb & buf & E & Hz & Hleaf & Ht). rewrite E4. cbn. split; [lia|]. exists buf. rewrite E, lookup_insert_eq. done.
Qed.

Definition data_mk (data pos len block : Z) : data_block := DataBlock block len (data + pos) None 0 0 false None.
Lemma data_op_ok :
  (inode_allocate_data_extents g fuel p n n m = None ∧ no_room (file_blocks g n + 1) (fs m)) ∨
  ∃ m3 oob L data, inode_allocate_data_extents g fuel p n n m = Some (Some data, m3) ∧ filed m m3 p n oob L (backing g (data_mk data) L n 0) ∧
    (∀ a, a < brk (fs m) -> bufs m3 !! a = bufs m !! a) ∧ bufs m3 !! data = Some (zeros n) ∧ brk (fs m) <= data ∧ brk (fs m3) = data + n ∧
    (oob <> [] -> data <> brk (fs m)).
Proof.
  unfold inode_allocate_data_extents. destruct Hm as [I1 I2 I3 _ _ _ _ _]. pose proof (blk_range g Hg).
  destruct (do_extents_ok g Hg fuel m p n I1 I2 I3 Hlen Hmax Hfuel Hcap) as [[-> Hno]|(a & m1 & oob & L & -> & Hst)]; [by left|]. right. cbn [mbind option_bind].
  destruct (stored_fits _ _ _ _ _ _ _ Hm Hst) as (HL & Hr & Ha). pose proof (stored_fresh _ _ _ _ Hst) as Hf1. pose proof (blocks_enough n) as Hen. pose proof (st_count _ _ _ _ _ _ _ _ Hst) as Hc. unfold zlen in Hc.
  rewrite (proj2 (Z.eqb_neq n 0)) by lia. cbn [negb]. unfold extent_create_backing, calloc_buf, calloc. cbn [fs]. destruct (st_iter _ _ _ _ _ _ _ _ Hst) as [Hi Hp0]. set (data := brk (fs m1)).
  rewrite (backing_loop_ok g Hg fuel _ (rl_first (a_list a)) L a n _ (data_mk data)); [|done|apply (st_chain _ _ _ _ _ _ _ _ Hst)|done|done|done|lia|rewrite (st_len _ _ _ _ _ _ _ _ Hst); lia].
  cbn [mbind option_bind set_fs fs inodes bufs].
  destruct (free_alloc_ok m m1 p n a oob L (queue_all (backing g (data_mk data) L n 0) (Fsys (bgs (fs m1)) (regs (fs m1)) (fresh (fs m1)) (queued_ds (fs m1)) (data + n))) Hst) as (s' & -> & (E1 & E2 & E3 & E4) & Hf'); [done..|].
  cbn [mbind option_bind]. destruct (stored_queued _ _ _ _ _ _ _ Hst) as (Eq1 & Hbrk & Hoob). apply Forall_app in Hr as [Hro Hr]. eexists _, oob, L, data. split; [done|].
  pose proof (st_tree _ _ _ _ _ _ _ _ Hst) as Ht. cbn in E4.
  split; [|split; [|split; [|split; [done|split; [done|]]]]]; cbn [set_fs fs inodes bufs].
  2:{ intros q Hq. rewrite lookup_insert_ne by (unfold data; lia). destruct oob as [|[x r] [|]]; [by destruct Ht as (_ & _ & -> & _) | | done]. destruct Ht as (_ & _ & _ & buf & -> & _). apply lookup_insert_ne. lia. }
  2:{ by rewrite lookup_insert_eq. }
  2:{ intros Hne. unfold data. destruct oob as [|[x r] [|]]; [done| |done]. destruct Ht as (_ & _ & -> & _). lia. }
  destruct (st_inode _ _ _ _ _ _ _ _ Hst) as (J1 & _ & J3). split; cbn [set_fs fs inodes bufs].
  - destruct (st_alloc _ _ _ _ _ _ _ _ Hst) as (s1 & Hal & Eb & _). exists s1. split; [done|]. by rewrite E1.
  - apply (finish_ok m m1 _ p n n a oob L (data_mk data) Hm Hst); try done.
  - rewrite E3. cbn. by rewrite Eq1, app_assoc.
  - rewrite E4. unfold data. lia.
  - done.
  - split; [apply (st_len _ _ _ _ _ _ _ _ Hst)|]. destruct Hoob as [->|(x & r & -> & Er)]; cbn; lia.
  - done.
  - destruct oob as [|[x r] [|]]; [apply Ht| |done].
    destruct Ht as (_ & _ & Hb & buf & E & Hz & Hleaf & Ht). rewrite E4. split; [unfold data; lia|]. exists buf. unfold data. rewrite lookup_insert_ne by lia. by rewrite E, lookup_insert_eq.
Qed.
End Op.
End Trip.
