(* ===== verification/ReadBack.v ===== *)
(** * Reading files from an image

    What a kernel does to read a file: it goes from the inode through the extents to the
    blocks.  A file that was put into an image under construction is read back from any
    image that holds the queued blocks; the image that is written does. *)
From stdpp Require Import base gmap list list_numbers sorting.
From Stdlib Require Import ZArith Lia.
From S2P Require Import Prelude Crc SparseFormat Backed OutFile OutFileSpec ImageTrip.
From S2P Require Import Alloc AllocBits AllocInv AllocSafe AllocReduce AllocOob Extent ExtentSpec ExtentFile FileTrip.
#[local] Open Scope Z_scope.

Section Read.
Context (g : geom) (Hg : geom_ok g).
Notation bs := (blk_size g).
Definition info_of : fs_info := FsInfo (len_blocks g * bs) bs.

(** ** The reader *)
Definition read_block (img : list Z) (b : Z) : list Z := slice (b * bs) bs img.
Definition read_extents (img : list Z) (es : list ext4_extent) (size : Z) : list Z :=
  slice 0 size (concat ((fun k => match find_block es k with Some b => read_block img b | None => zeros bs end) <$> seqZ 0 (file_blocks g size))).
Definition read_inode (img : list Z) (i : ext4_inode) : option (list Z) :=
  es ← read_tree (read_block img) (i_block i);
  Some (read_extents img es (i_size_lo i + 2 ^ 32 * i_size_high i)).

(** The bytes of a chain of regions, one region after the other. *)
Definition region_bytes (img : list Z) (L : list (nat * region)) : list Z :=
  concat ((fun c => slice (r_block c.2 * bs) (r_len c.2 * bs) img) <$> L).
Lemma blocks_slice img b n : 0 <= b -> concat ((fun k => read_block img (b + k)) <$> seqZ 0 (Z.of_nat n)) = slice (b * bs) (Z.of_nat n * bs) img.
Proof.
  intros Hb. pose proof (blk_range g Hg). induction n as [|n IH]; [done|].
  rewrite Nat2Z.inj_succ. unfold Z.succ. rewrite seqZ_app by lia. rewrite fmap_app, concat_app, IH.
  assert (seqZ (0 + Z.of_nat n) 1 = [Z.of_nat n]) as -> by (cbn; f_equal; lia). cbn [fmap list_fmap concat]. rewrite app_nil_r. unfold read_block.
  rewrite !Z.mul_add_distr_r, Z.mul_1_l. rewrite slice_app; [done | lia | lia | lia].
Qed.
Lemma chain_bytes img L : Forall region_fits L ->
  concat ((fun k => match chain_block L k with Some b => read_block img b | None => zeros bs end) <$> seqZ 0 (total_len L)) = region_bytes img L.
Proof.
  induction 1 as [|[x r] L (H1 & H2 & _) HL IH]; [done|]. cbn [snd] in *. pose proof (total_len_nonneg L HL). unfold region_bytes. cbn [total_len fmap list_fmap concat snd].
  rewrite seqZ_app by lia. rewrite fmap_app, concat_app. f_equal.
  - rewrite <- (Z2Nat.id (r_len r)) by lia. rewrite <- blocks_slice by done. f_equal. apply list_fmap_ext. intros i k Hk. apply lookup_seqZ in Hk as [-> Hk]. cbn [chain_block].
    rewrite Z2Nat.id in * by lia. by rewrite (proj2 (Z.ltb_lt _ _)) by lia.
  - unfold region_bytes in IH. rewrite <- IH. rewrite Z.add_0_l. replace (r_len r) with (r_len r + 0) at 1 by lia. rewrite <- fmap_add_seqZ, <- list_fmap_compose. f_equal.
    apply list_fmap_ext. intros i k Hk. apply lookup_seqZ in Hk as [-> Hk]. cbn [chain_block compose]. rewrite (proj2 (Z.ltb_ge _ _)) by lia. by replace (r_len r + (0 + Z.of_nat i) - r_len r) with (0 + Z.of_nat i) by lia.
Qed.

Lemma slice_front {A} n (a b : list A) : n <= zlen a -> slice 0 n (a ++ b) = slice 0 n a.
Proof. intros Hn. unfold slice. cbn [Z.to_nat]. rewrite !drop_0. apply take_app_le. unfold zlen in Hn. lia. Qed.
Lemma slice_beyond {A} n (a b : list A) : zlen a <= n -> slice 0 n (a ++ b) = a ++ slice 0 (n - zlen a) b.
Proof. intros Hn. unfold slice. cbn [Z.to_nat]. rewrite !drop_0. unfold zlen in *. rewrite take_app_ge by lia. do 2 f_equal. lia. Qed.
(** The regions hold [file]. *)
Fixpoint backed (img file : list Z) (L : list (nat * region)) (n pos : Z) : Prop :=
  match L with
  | [] => True
  | (_, r) :: L =>
      0 < n -> let len := Z.min (r_len r * bs) n in
        slice (r_block r * bs) len img = slice pos len file ∧ backed img file L (n - len) (pos + len)
  end.
Lemma backed_bytes img file L n pos : Forall region_fits L -> Forall (fun c => 0 < r_block c.2 ∧ r_block c.2 + r_len c.2 <= len_blocks g) L ->
  zlen img = len_blocks g * bs -> 0 <= pos -> 0 <= n <= total_len L * bs -> backed img file L n pos -> slice 0 n (region_bytes img L) = slice pos n file.
Proof.
  intros HL Hr Himg. pose proof (blk_range g Hg). revert n pos. induction HL as [|[x r] L (H1 & H2 & _) HL IH]; intros n pos Hpos Hn Hb.
  - cbn in Hn. replace n with 0 by lia. done.
  - apply Forall_cons in Hr as [[Hr1 Hr2] Hr]. cbn [snd total_len backed] in *. unfold region_bytes. cbn [fmap list_fmap concat snd].
    destruct (decide (n = 0)) as [->|]; [done|]. destruct Hb as [E Hb]; [lia|]. rewrite Z.mul_add_distr_r in Hn. pose proof (total_len_nonneg L HL).
    assert (Hl : zlen (slice (r_block r * bs) (r_len r * bs) img) = r_len r * bs) by (apply slice_len; nia).
    destruct (Z.le_gt_cases n (r_len r * bs)) as [Hle|Hgt].
    + rewrite Z.min_r in E by lia. rewrite <- E, slice_front by lia. rewrite slice_slice by lia. f_equal. lia.
    + rewrite Z.min_l in E, Hb by lia. specialize (IH Hr (n - r_len r * bs) (pos + r_len r * bs) ltac:(lia) ltac:(lia) Hb). fold (region_bytes img L).
      replace n with (r_len r * bs + (n - r_len r * bs)) at 2 by lia. rewrite <- slice_app by lia. rewrite <- E, <- IH, slice_beyond by lia. by rewrite Hl.
Qed.

(** The inode leads to the file. *)
Lemma chain_read img file L : Forall region_fits L -> Forall (fun c => 0 < r_block c.2 ∧ r_block c.2 + r_len c.2 <= len_blocks g) L ->
  zlen img = len_blocks g * bs -> total_len L = file_blocks g (zlen file) -> backed img file L (zlen file) 0 ->
  read_extents img (chain_extents 0 L) (zlen file) = file.
Proof.
  intros HL Hr Himg Ht Hb. unfold read_extents. rewrite <- Ht.
  assert (E : (fun k => match find_block (chain_extents 0 L) k with Some b => read_block img b | None => zeros bs end) <$> seqZ 0 (total_len L) =
      (fun k => match chain_block L k with Some b => read_block img b | None => zeros bs end) <$> seqZ 0 (total_len L)).
  { apply list_fmap_ext. intros i k Hk. apply lookup_seqZ in Hk as [-> Hk]. by rewrite find_chain, Z.sub_0_r by lia. }
  rewrite E, chain_bytes by done. pose proof (zlen_nonneg file). rewrite (backed_bytes img file L (zlen file) 0); [apply slice_all | done | done | done | lia | | done].
  rewrite Ht. split; [lia | by apply blocks_enough].
Qed.

(** ** Files that were put in *)
Context (load : Z -> Z -> option (list Z)) (mmap64 : nat -> Z -> Z -> option (list Z)).
Notation data_bytes := (data_bytes load mmap64 info_of).
(** Every queued block is in the image. *)
Definition in_place (img : list Z) (q : list data_block) : Prop :=
  zlen img = len_blocks g * bs ∧ ∀ d b, d ∈ q -> data_bytes (src_of info_of d) (len d) = Some b -> slice (block d * bs) (len d) img = b.
(** The memory is that of the program, and the file can be mapped. *)
Definition loads (m : image_state) : Prop :=
  ∀ a buf o n, bufs m !! a = Some buf -> 0 <= o -> 0 <= n -> o + n <= zlen buf -> load (a + o) n = Some (slice o n buf).
Definition maps (f : nat) (file : list Z) : Prop :=
  ∀ o n, 0 <= o -> 0 <= n -> o + n <= zlen file -> mmap64 f o n = Some (slice o n file).
(** What a file needs from a later state. *)
Definition keeps (m m3 m4 : image_state) (p : Z) : Prop :=
  (∃ more, queued_ds (fs m4) = queued_ds (fs m3) ++ more) ∧
  i_block (inode_at m4 p) = i_block (inode_at m3 p) ∧ i_size_lo (inode_at m4 p) = i_size_lo (inode_at m3 p) ∧ i_size_high (inode_at m4 p) = i_size_high (inode_at m3 p) ∧
  ∀ a b, brk (fs m) <= a < brk (fs m3) -> bufs m3 !! a = Some b -> bufs m4 !! a = Some b.

Lemma file_bytes_maps f file o n : maps f file -> 0 <= o -> 0 <= n -> o + n <= zlen file -> file_bytes mmap64 f o n = Some (slice o n file).
Proof.
  intros Hm Ho Hn Hl. unfold file_bytes. change (4096 - 1) with (2 ^ 12 - 1). rewrite (land_lnot_ones o 12) by lia. change (2 ^ 12) with 4096.
  pose proof (Z.div_mod o 4096). pose proof (Z.mod_pos_bound o 4096). pose proof (Z.div_pos o 4096). rewrite Hm by lia. cbn [mbind option_bind]. f_equal.
  unfold slice. rewrite skipn_firstn_comm, drop_drop. f_equal; [lia|]. f_equal. lia.
Qed.
Lemma backing_backed img q mk file L n pos : in_place img q -> backing g mk L n pos ⊆ q -> mk_ok mk ->
  (∀ pos n b, 0 <= pos -> 0 <= n -> pos + n <= zlen file -> data_bytes (src_of info_of (mk pos n b)) n = Some (slice pos n file)) ->
  Forall region_fits L -> 0 <= pos -> pos + n <= zlen file -> backed img file L n pos.
Proof.
  intros [_ Hin] Hsub Hmk Hsrc HL. pose proof (blk_range g Hg). revert n pos Hsub. induction HL as [|[x r] L (H1 & _) HL IH]; intros n pos Hsub Hpos Hle; [done|]. cbn [snd] in *.
  cbn [backed backing] in *. intros Hn. rewrite (proj2 (Z.ltb_lt 0 n)) in Hsub by done. set (l := Z.min (r_len r * bs) n) in *. destruct (Hmk pos l (r_block r)) as [E1 E2].
  assert (0 < l <= n) by (unfold l; nia). split.
  - specialize (Hin (mk pos l (r_block r)) (slice pos l file)). rewrite E1, E2 in Hin. apply Hin; [apply Hsub; left|]. apply Hsrc; lia.
  - apply IH; [intros d Hd; apply Hsub; by right | lia | lia].
Qed.
Lemma size_split n : 0 <= n < 2 ^ 64 -> u32 n + 2 ^ 32 * u32 (n / 2 ^ 32) = n.
Proof.
  intros Hn. assert (0 <= n / 2 ^ 32 < 2 ^ 32). { split; [apply Z.div_pos; lia|]. apply Z.div_lt_upper_bound; lia. }
  rewrite (u32_small (n / 2 ^ 32)) by done. unfold u32. pose proof (Z.div_mod n (2 ^ 32)). lia.
Qed.
(** A file or a directory that was put in is read from the image. *)
Lemma filed_read m m3 m4 p oob L mk img file : image_ok g m -> filed g m m3 p (zlen file) oob L (backing g mk L (zlen file) 0) ->
  file_blocks g (zlen file) < 2 ^ 32 -> mk_ok mk ->
  (∀ pos n b, 0 <= pos -> 0 <= n -> pos + n <= zlen file -> data_bytes (src_of info_of (mk pos n b)) n = Some (slice pos n file)) ->
  (∃ more, queued_ds (fs m4) = queued_ds (fs m3) ++ more) ->
  i_block (inode_at m4 p) = i_block (inode_at m3 p) -> i_size_lo (inode_at m4 p) = i_size_lo (inode_at m3 p) -> i_size_high (inode_at m4 p) = i_size_high (inode_at m3 p) ->
  (oob <> [] -> ∀ b, bufs m3 !! brk (fs m) = Some b -> bufs m4 !! brk (fs m) = Some b) ->
  loads m4 -> in_place img (queued_ds (fs m4)) -> read_inode img (inode_at m4 p) = Some file.
Proof.
  intros Hm Hfi Hn Hmk Hsrc (more & Eq) Eb El Eh Hbuf Hload Hin. pose proof (blk_range g Hg). pose proof (zlen_nonneg file). pose proof (blocks_enough g Hg (zlen file)) as Hen.
  destruct Hfi as [_ _ Fq _ [FL Fr] [Fl _] (_ & Fs1 & Fs2 & _) Ft]. rewrite Fq in Eq.
  assert (Htree : read_tree (read_block img) (i_block (inode_at m4 p)) = Some (chain_extents 0 L)).
  { rewrite Eb. destruct oob as [|[x r] oob]; [apply Ft|]. destruct Ft as (_ & buf & E & Hz & Hleaf & ->). rewrite <- Hleaf. f_equal.
    specialize (Hbuf ltac:(done) _ E). unfold read_block. destruct Hin as [_ Hin].
    apply (Hin (extents_block g (r_block r) (brk (fs m)))); [rewrite Eq; cbn [oob_blocks fmap list_fmap snd]; rewrite !elem_of_app; left; right; left; left|].
    cbn. rewrite <- (Z.add_0_r (brk (fs m))). rewrite (Hload _ _ 0 _ Hbuf); [|lia|lia|lia]. by rewrite <- Hz, slice_all. }
  unfold read_inode. rewrite Htree. cbn [mbind option_bind]. rewrite El, Eh, Fs1, Fs2, size_split by nia. f_equal. apply chain_read; try done; [apply Hin|].
  apply (backing_backed img (queued_ds (fs m4)) mk); try done. intros d Hd. rewrite Eq, !elem_of_app. tauto.
Qed.

(** ** The image that is written *)
Lemma queued_perm ds : queued ds ≡ₚ ds.*2.
Proof.
  unfold queued. rewrite <- (app_nil_r ds.*2) at 2. generalize (@nil data_block) as L. induction (ds.*2) as [|d l IH]; intros L; cbn [foldl app]; [done|].
  rewrite IH, insert_block_perm. by rewrite Permutation_middle.
Qed.
Lemma queued_sorted ds : StronglySorted le_block (queued ds).
Proof.
  unfold queued. assert (H : StronglySorted le_block []) by constructor. revert H. generalize (@nil data_block) as L. induction (ds.*2) as [|d l IH]; intros L HL; cbn [foldl]; [done|].
  by apply IH, insert_block_sorted.
Qed.
Definition writable (d : data_block) : Prop :=
  len d + bs < 2 ^ 31 ∧ readable load mmap64 info_of (src_of info_of d) (len d) ∧
  (is_file (src_of info_of d) = true -> block d * bs + len d < len_blocks g * bs).
Lemma geometry_of : geometry info_of.
Proof.
  pose proof (blk_range g Hg). pose proof (go_max g Hg). pose proof (bpg_range g Hg). pose proof (gfirst_range g Hg 0 ltac:(pose proof (go_groups g Hg); lia)). split; cbn [info_of block_size info_len].
  - destruct (go_blk g Hg) as (k & Hk & ->). exists k. split; [lia | done].
  - apply Z.divide_factor_r.
  - rewrite Z.div_mul by lia. lia.
Qed.
Lemma span_nblocks d : span_of info_of d = nblocks g d * bs.
Proof. unfold span_of, round_up_to, nblocks. cbn. do 2 f_equal. lia. Qed.
Definition within (d : data_block) : Prop := 0 < len d ∧ 0 <= block d ∧ block d + nblocks g d <= len_blocks g.
Lemma len_le_span d : 0 < len d -> len d <= nblocks g d * bs ∧ 0 < nblocks g d.
Proof. intros Hd. pose proof (blocks_enough g Hg (len d)). split; [done|]. apply Z.div_str_pos. pose proof (blk_range g Hg). lia. Qed.

Lemma sorted_placed l ptr : StronglySorted le_block l -> q_apart g l -> Forall within l -> Forall writable l -> Forall (fun d => ptr <= block d * bs) l ->
  placed load mmap64 info_of ptr l.
Proof.
  pose proof (blk_range g Hg). revert ptr. induction l as [|d l IH]; intros ptr Hs Ha Hw Hwr Hp; [done|].
  apply StronglySorted_inv in Hs as [Hs Hle]. destruct Ha as [Ha Ha']. apply Forall_cons in Hw as [(W1 & W2 & W3) Hw]. apply Forall_cons in Hwr as [(R1 & R2 & R3) Hwr]. apply Forall_cons in Hp as [Hp _].
  destruct (len_le_span d W1) as [Hl Hn]. cbn [placed]. do 4 (split; [done|]). split.
  - unfold start. cbn. destruct (is_file _); [by apply R3 | nia].
  - apply IH; try done. rewrite Forall_forall in Hle, Hw |- *. intros e He. unfold start. rewrite span_nblocks. cbn. specialize (Hle e He). specialize (Hw e He) as (V1 & V2 & V3). unfold le_block in Hle.
    destruct (len_le_span e V1) as [_ Hne]. specialize (Ha e (block e) He). unfold occupies in Ha. nia.
Qed.
Lemma bytes_span d : within d -> writable d -> zlen (block_bytes load mmap64 info_of d) = span_of info_of d.
Proof.
  intros (W1 & W2 & W3) (R1 & R2 & R3). destruct (len_le_span d W1) as [Hl Hn]. pose proof (blk_range g Hg). apply (block_bytes_zlen load mmap64 info_of geometry_of (start info_of d) d).
  unfold block_fits. do 4 (split; [done|]). unfold start. cbn. destruct (is_file _); [by apply R3 | nia].
Qed.

(** Every block is in the image, whatever the order they are laid down in. *)
Notation bytes_of := (block_bytes load mmap64 info_of).
Definition lay (img : list Z) (d : data_block) : list Z := overlay (start info_of d) (bytes_of d) img.
Definition laid (d : data_block) : Prop := within d ∧ zlen (bytes_of d) = nblocks g d * bs.
Lemma lay_other img d o n : laid d -> zlen img = len_blocks g * bs -> 0 <= o -> 0 <= n -> (o + n) * bs <= zlen img ->
  o + n <= block d ∨ block d + nblocks g d <= o -> slice (o * bs) (n * bs) (lay img d) = slice (o * bs) (n * bs) img ∧ zlen (lay img d) = zlen img.
Proof.
  intros [(W1 & W2 & W3) Hl] Hi Ho Hn Hon Hd. pose proof (blk_range g Hg). destruct (len_le_span d W1) as [_ Hnb]. unfold lay, start. cbn [block_size info_of call_of c_off].
  split; [apply slice_overlay_other; rewrite ?Hl; nia | apply overlay_len; rewrite ?Hl; nia].
Qed.
Lemma lay_same img d : laid d -> zlen img = len_blocks g * bs -> slice (block d * bs) (nblocks g d * bs) (lay img d) = bytes_of d ∧ zlen (lay img d) = zlen img.
Proof.
  intros [(W1 & W2 & W3) Hl] Hi. pose proof (blk_range g Hg). destruct (len_le_span d W1) as [_ Hnb]. unfold lay, start. cbn [block_size info_of call_of c_off].
  split; [rewrite <- Hl; apply slice_overlay_same | apply overlay_len]; rewrite ?Hl; nia.
Qed.
Lemma apart_sides d e : within d -> within e -> (∀ b, occupies g d b -> ¬ occupies g e b) -> block d + nblocks g d <= block e ∨ block e + nblocks g e <= block d.
Proof.
  intros (D1 & D2 & D3) (E1 & E2 & E3) H. destruct (len_le_span d D1) as [_ Hd], (len_le_span e E1) as [_ He].
  pose proof (H (block e)) as H1. pose proof (H (block d)) as H2. unfold occupies in *. lia.
Qed.
Lemma flat_keeps l img d : Forall laid l -> zlen img = len_blocks g * bs -> within d -> (∀ e b, e ∈ l -> occupies g d b -> ¬ occupies g e b) ->
  slice (block d * bs) (nblocks g d * bs) (foldl lay img l) = slice (block d * bs) (nblocks g d * bs) img ∧ zlen (foldl lay img l) = zlen img.
Proof.
  intros Hl. revert img. induction Hl as [|e l He Hl IH]; intros img Hi Hd Ha; [done|]. cbn [foldl].
  pose proof (apart_sides d e Hd (proj1 He) (fun b => Ha e b ltac:(left))) as Hside. destruct Hd as (D1 & D2 & D3). destruct (len_le_span d D1) as [_ Hn]. pose proof (blk_range g Hg).
  destruct (lay_other img e (block d) (nblocks g d) He Hi) as [E1 E2]; [lia | lia | nia | done |].
  destruct (IH (lay img e)) as [E3 E4]; [lia | done | intros f b Hf; apply Ha; by right |]. split; congruence.
Qed.
Lemma flat_slices l img d : Forall laid l -> q_apart g l -> zlen img = len_blocks g * bs -> d ∈ l ->
  slice (block d * bs) (nblocks g d * bs) (foldl lay img l) = bytes_of d ∧ zlen (foldl lay img l) = len_blocks g * bs.
Proof.
  intros Hl. revert img. induction Hl as [|e l He Hl IH]; intros img; [by intros _ _ ?%elem_of_nil|]. cbn [q_apart foldl]. intros [Ha Ha'] Hi Hd.
  destruct (lay_same img e He Hi) as [E1 E2]. apply elem_of_cons in Hd as [->|Hd].
  - destruct (flat_keeps l (lay img e) e Hl) as [E3 E4]; [lia | apply He | done |]. rewrite E3, E4, E2. done.
  - apply IH; [done | lia | done].
Qed.
Lemma flat_in_place q : Forall within q -> Forall writable q -> q_apart g q -> in_place (flat load mmap64 info_of q) q.
Proof.
  intros Hw Hwr Ha. pose proof (blk_range g Hg). assert (Hlb : 0 <= len_blocks g) by (pose proof (gfirst_range g Hg 0 ltac:(pose proof (go_groups g Hg); lia)); lia).
  assert (Hz : zlen (zeros (len_blocks g * bs)) = len_blocks g * bs) by (unfold zlen, zeros; rewrite length_replicate; nia).
  assert (Hl : Forall laid q).
  { apply Forall_forall. intros d Hd. rewrite Forall_forall in Hw, Hwr. split; [by apply Hw|]. rewrite bytes_span by auto. apply span_nblocks. }
  change (flat load mmap64 info_of q) with (foldl lay (zeros (len_blocks g * bs)) q). split.
  - destruct q as [|d q]; [exact Hz|]. apply (flat_slices _ _ d Hl Ha Hz). left.
  - intros d b Hd Eb. destruct (flat_slices q _ d Hl Ha Hz Hd) as [E El]. rewrite Forall_forall in Hw. destruct (Hw d Hd) as (W1 & W2 & W3). destruct (len_le_span d W1) as [Hle _].
    rewrite Forall_forall in Hwr. destruct (Hwr d Hd) as (_ & Hr & _). destruct Hr as [(b' & Eb' & Hb') _]. assert (b' = b) as -> by congruence.
    assert (Hs : slice (block d * bs) (len d) (foldl lay (zeros (len_blocks g * bs)) q) = slice 0 (len d) (bytes_of d)).
    { rewrite <- E. rewrite slice_slice by nia. f_equal. lia. }
    rewrite Hs. unfold block_bytes. destruct (src_of info_of d) eqn:Es; try (unfold padded; rewrite Es, Eb; cbn [default from_option id]; rewrite slice_front, <- Hb' by lia; apply slice_all).
    cbn in Eb. injection Eb as <-. unfold slice. cbn. rewrite drop_0. f_equal.
Qed.
End Read.
