(* ===== verification/ImageOk.v ===== *)
(** * An image under construction stays in order

    The groups as they are made, the inode tables as they come into use, and the inodes:
    what is queued never overlaps, and no inode is given out twice. *)
From stdpp Require Import base gmap list.
From Stdlib Require Import ZArith Lia.
From S2P Require Import Prelude Crc SparseFormat Backed Alloc AllocBits AllocInv AllocSafe AllocInit Extent ExtentFile FileTrip.
#[local] Open Scope Z_scope.

Section Order.
Context (g : geom) (Hg : geom_ok g) (Hig : 0 < inodes_per_group g <= 8 * blk_size g).
Notation bs := (blk_size g).

Lemma nblocks_mul d n : len d = n * bs -> nblocks g d = n.
Proof. intros E. unfold nblocks. rewrite E. pose proof (blk_range g Hg). symmetry. apply (Z.div_unique _ _ n (bs - 1)); lia. Qed.

(** ** At the start *)
Lemma bitmap_blocks_in n i p d : 0 <= i -> d ∈ bitmap_blocks g n i p ->
  ∃ j sup, i <= j < i + Z.of_nat n ∧ ext4_bg_has_super_block g j = Some sup ∧ block d = gfirst g j + gmaps g sup ∧ len d = 2 * bs.
Proof.
  revert i p. induction n as [|n IH]; intros i p Hi; cbn [bitmap_blocks]; [by intros ?%elem_of_nil|]. intros [Hd|Hd]%elem_of_app.
  - destruct (ext4_bg_has_super_block g i) as [sup|] eqn:E; [|by apply elem_of_nil in Hd]. apply list_elem_of_singleton in Hd as ->. exists i, sup. split; [lia | done].
  - destruct (IH (i + 1) _ ltac:(lia) Hd) as (j & sup & Hj & H). exists j, sup. split; [lia | done].
Qed.
(** The bitmaps of a group lie in front of its inode table. *)
Lemma bitmap_place j sup b : 0 <= j < groups g -> ext4_bg_has_super_block g j = Some sup -> gfirst g j + gmaps g sup <= b < gfirst g j + gmaps g sup + 2 ->
  gfirst g j <= b < gfirst g j + gtable g sup ∧ gtable g sup < gdata g sup ∧ gdata g sup <= blocks_per_group g ∧ 0 <= b < len_blocks g.
Proof.
  intros Hj E Hb. pose proof (go_room g Hg j sup Hj E). pose proof (gfirst_range g Hg j Hj). pose proof (go_counts g Hg). unfold gdata, gtable, gmaps in *. destruct sup; lia.
Qed.
Lemma bitmap_blocks_apart n i p : 0 <= i -> i + Z.of_nat n <= groups g -> q_apart g (bitmap_blocks g n i p).
Proof.
  revert i p. induction n as [|n IH]; intros i p Hi Hn; cbn [bitmap_blocks]; [done|]. rewrite q_apart_app. split_and!.
  - destruct (ext4_bg_has_super_block g i); [|done]. split; [by intros ? ? ?%elem_of_nil | done].
  - apply IH; lia.
  - intros d e b Hd He Hb Hb'. destruct (ext4_bg_has_super_block g i) as [sup|] eqn:E; [|by apply elem_of_nil in Hd]. apply list_elem_of_singleton in Hd as ->.
    destruct (bitmap_blocks_in n (i + 1) _ e ltac:(lia) He) as (j & sup' & Hj & E' & Eb & El). unfold occupies in *. rewrite (nblocks_mul e 2 El), Eb in Hb'. rewrite (nblocks_mul (bitmap_block g i p sup) 2) in Hb by done. cbn in Hb.
    destruct (bitmap_place i sup b ltac:(lia) E Hb) as (H1 & _). destruct (bitmap_place j sup' b ltac:(lia) E' Hb') as (H2 & H3 & H4 & _).
    destruct (bitmap_place i sup b ltac:(lia) E Hb) as (_ & H5 & H6 & _).
    assert (i = j); [|lia]. apply (same_group g Hg i j b); lia.
Qed.
Lemma image_ok_init s l : bgs s = [] -> queued_ds s = [] -> regs s = ∅ -> block_allocator_init g s = Some l -> image_ok g (ImageState l ∅ ∅).
Proof.
  intros Hb Hq Hr E. destruct (block_allocator_init_ok g Hg s Hb) as (gs & E' & Hl & Hgs). rewrite E in E'. injection E' as ->. pose proof (go_groups g Hg).
  set (s' := Fsys gs _ _ _ _) in *. assert (Hok : groups_ok g (bgs s')) by (by apply fresh_groups_ok).
  assert (Hin : ∀ d, d ∈ queued_ds s' -> ∃ j sup, 0 <= j < groups g ∧ ext4_bg_has_super_block g j = Some sup ∧ block d = gfirst g j + gmaps g sup ∧ len d = 2 * bs).
  { intros d Hd. cbn in Hd. rewrite Hq in Hd. destruct (bitmap_blocks_in _ 0 _ d ltac:(lia) Hd) as (j & sup & Hj & H1). exists j, sup. split; [lia | done]. }
  split; cbn [fs inodes].
  - done.
  - intros x _. cbn. by rewrite Hr.
  - intros q i. cbn [inodes]. by rewrite lookup_empty.
  - apply Forall_forall. intros d Hd. destruct (Hin d Hd) as (j & sup & Hj & Es & Eb & El). rewrite (nblocks_mul d 2 El), El, Eb. pose proof (blk_range g Hg).
    pose proof (bitmap_place j sup (gfirst g j + gmaps g sup) Hj Es ltac:(lia)). pose proof (bitmap_place j sup (gfirst g j + gmaps g sup + 1) Hj Es ltac:(lia)). lia.
  - intros d b Hd Ho Hfree. destruct (Hin d Hd) as (j & sup & Hj & Es & Eb & El). unfold occupies in Ho. rewrite (nblocks_mul d 2 El), Eb in Ho. destruct (bitmap_place j sup b Hj Es Ho) as (H1 & H2 & H3 & _).
    rewrite (fresh_free g s' b Hl Hgs) in Hfree. destruct Hfree as (k & sup' & Hk & Es' & Hb'). pose proof (gfirst_range g Hg k Hk). pose proof (gdata_pos g Hg sup').
    assert (j = k) as <- by (apply (same_group g Hg j k b); lia). assert (sup' = sup) as -> by congruence. lia.
  - cbn. rewrite Hq. apply bitmap_blocks_apart; lia.
  - intros i bg d b Ebg _ Hd Ht Ho. destruct (Hin d Hd) as (j & sup & Hj & Es & Eb & El). unfold occupies in Ho. rewrite (nblocks_mul d 2 El), Eb in Ho. destruct (bitmap_place j sup b Hj Es Ho) as (H1 & H2 & H3 & _).
    destruct (bg_at_ok g s' i bg Hok Ebg) as [Hi Hbg]. pose proof (b_super _ _ _ Hbg) as Es'. unfold table_area in Ht. pose proof (bg_bounds g Hg i bg Hi Hbg). pose proof (go_counts g Hg).
    assert (0 <= gtable g (has_superblock bg)) by (unfold gtable, gmaps; destruct (has_superblock bg); lia).
    assert (i = j) as -> by (apply (same_group g Hg i j b); lia). assert (sup = has_superblock bg) as -> by congruence. lia.
  - intros i bg Ebg. destruct (bg_at_ok g s' i bg Hok Ebg) as [Hi _]. unfold bg_at in Ebg. rewrite (proj2 (Z.ltb_ge _ _)) in Ebg by lia.
    destruct (Hgs _ _ Ebg) as (sup & _ & _ & _ & _ & _ & _ & Hfi & Hff & Hbm). pose proof (blk_range g Hg). unfold inodes_in. rewrite Hfi, Hff, Hbm. split_and!; try lia.
    + apply zeros_bytes.
    + unfold zlen. rewrite length_replicate. lia.
    + intros k Hk. rewrite zero_bits. symmetry. apply Z.ltb_ge. lia.
Qed.

(** ** Inode tables *)
Definition with_table (t : option Z) (bg : block_group_info) : block_group_info :=
  BlockGroup (first_block bg) (header_blocks bg) (data_blocks_used bg) (has_superblock bg) (block_bitmap bg) (inode_bitmap bg) t
    (free_blocks bg) (first_free_block bg) (free_inodes bg) (first_free_inode bg) (used_dirs bg).
Definition table_block (i p : Z) (sup : bool) : data_block := DataBlock (gfirst g i + gtable g sup) (inode_table_blocks g * bs) p None 0 0 false None.
(** A group is replaced by one with the same blocks. *)
Definition same_data (bg bg' : block_group_info) : Prop :=
  has_superblock bg' = has_superblock bg ∧ first_free_block bg' = first_free_block bg ∧ free_blocks bg' = free_blocks bg.
Lemma free_data_same s i bg bg' b : groups_ok g (bgs s) -> bg_at s i = Some bg -> same_data bg bg' -> free_data g (put_bg i bg' s) b <-> free_data g s b.
Proof.
  intros Hs E (H1 & H2 & H3). destruct (bg_at_ok g s i bg Hs E) as [Hi _]. assert (Hput := bg_at_put g s i). split; intros (j & bgj & Ej & Hj).
  - rewrite (Hput j _ Hs Hi) in Ej. case_decide as Hd; [|by exists j, bgj]. subst j. injection Ej as <-. exists i, bg. split; [done | lia].
  - destruct (decide (i = j)) as [<-|Hd]; [|exists j, bgj; by rewrite (Hput j _ Hs Hi), decide_False]. assert (bgj = bg) as -> by congruence.
    exists i, bg'. rewrite (Hput i _ Hs Hi), decide_True by done. split; [done | lia].
Qed.
Lemma bg_ok_table i bg t : bg_ok g i bg -> bg_ok g i (with_table t bg).
Proof. intros [? ? ? ? ? ? ? ?]. by split. Qed.
Lemma free_data_queue s s' b : bgs s' = bgs s -> free_data g s' b <-> free_data g s b.
Proof. intros E. split; intros (i & bg & H & Hb); exists i, bg; unfold bg_at in *; by rewrite E in *. Qed.

Lemma no_room_put n s i bg bg' : groups_ok g (bgs s) -> bg_at s i = Some bg -> free_blocks bg' = free_blocks bg -> no_room n (put_bg i bg' s) -> no_room n s.
Proof.
  intros Hs E Hf Hno j bgj Ej. destruct (bg_at_ok g s i bg Hs E) as [Hi _]. specialize (Hno j). rewrite (bg_at_put g s i j bg' Hs Hi) in Hno. case_decide as Hd; [|by apply Hno].
  subst j. assert (bgj = bg) as -> by congruence. rewrite <- Hf. by apply Hno.
Qed.

(** What getting at an inode does. *)
Definition add_table (i : Z) (bg : block_group_info) (s : fsys) : fsys :=
  q_data (brk s) (inode_table_blocks g * bs) (gfirst g i + gtable g (has_superblock bg))
    (put_bg i (with_table (Some (brk s)) bg) (Fsys (bgs s) (regs s) (fresh s) (queued_ds s) (brk s + inode_table_blocks g * bs))).
Lemma bg_table_eq s i bg : groups_ok g (bgs s) -> bg_at s i = Some bg ->
  allocate_bg_inode_table g i s = Some (match inode_table bg with Some _ => s | None => add_table i bg s end).
Proof.
  intros Hs E. destruct (bg_at_ok g s i bg Hs E) as [Hi Hbg]. unfold allocate_bg_inode_table. rewrite E. cbn [mbind option_bind]. destruct (inode_table bg) as [p|]; [done|].
  pose proof (bg_bounds g Hg i bg Hi Hbg) as Hbb. pose proof (go_counts g Hg). pose proof (blk_range g Hg). unfold add_table.
  set (sup := has_superblock bg) in *. assert (Hdata : gdata g sup = gtable g sup + inode_table_blocks g) by done.
  assert (Hwhere : (if sup then u32 (u32 (first_block bg + 2) + bg_desc_blocks g + bg_desc_reserve_blocks g + 1) else u32 (first_block bg + 2)) = gfirst g i + gtable g sup).
  { rewrite (b_first _ _ _ Hbg). unfold gtable, gmaps in *. destruct sup; rewrite !u32_small by (rewrite ?u32_small by lia; lia); lia. }
  assert (Hpos : 0 <= gtable g sup) by (unfold gtable, gmaps; destruct sup; lia).
  cbn [calloc]. rewrite Hwhere. rewrite (u32_small (inode_table_blocks g * bs)) by nia. done.
Qed.
Lemma bg_table_ok m i : image_ok g m -> 0 <= i < groups g ->
  ∃ s' p bg, allocate_bg_inode_table g i (fs m) = Some s' ∧ bg_at s' i = Some bg ∧ inode_table bg = Some p ∧ image_ok g (set_fs s' m) ∧
    (∃ more, queued_ds s' = queued_ds (fs m) ++ more) ∧ (∀ n, no_room n s' -> no_room n (fs m)) ∧ brk (fs m) <= brk s'.
Proof.
  intros [I1 I2 I3 I4 I5 I6 I7 I8] Hi. destruct (bg_at_is_Some g (fs m) i I1 Hi) as [bg E]. destruct (bg_at_ok g (fs m) i bg I1 E) as [_ Hbg].
  rewrite (bg_table_eq (fs m) i bg I1 E). destruct (inode_table bg) as [p|] eqn:Et.
  { exists (fs m), p, bg. split; [done|]. split; [done|]. split; [done|]. split; [by destruct m|]. split; [exists []; by rewrite app_nil_r|]. split; [done | lia]. }
  pose proof (bg_bounds g Hg i bg Hi Hbg) as Hbb. pose proof (go_counts g Hg). pose proof (blk_range g Hg). unfold add_table.
  set (sup := has_superblock bg) in *. assert (Hdata : gdata g sup = gtable g sup + inode_table_blocks g) by done.
  assert (Hpos : 0 <= gtable g sup) by (unfold gtable, gmaps; destruct sup; lia). set (p := brk (fs m)).
  set (s1 := Fsys (bgs (fs m)) (regs (fs m)) (fresh (fs m)) (queued_ds (fs m)) (p + inode_table_blocks g * bs)).
  set (s' := q_data p (inode_table_blocks g * bs) (gfirst g i + gtable g sup) (put_bg i (with_table (Some p) bg) s1)).
  assert (Hat : ∀ j, bg_at s' j = if decide (i = j) then Some (with_table (Some p) bg) else bg_at (fs m) j) by (intros j; apply (bg_at_put g s1 i j (with_table (Some p) bg) I1 Hi)).
  assert (Hfree : ∀ b, free_data g s' b <-> free_data g (fs m) b).
  { intros b. rewrite <- (free_data_queue (fs m) s1 b) by done. rewrite <- (free_data_same s1 i bg (with_table (Some p) bg) b I1 E) by done. by apply free_data_queue. }
  assert (Hocc : ∀ b, occupies g (table_block i p sup) b <-> table_area g i bg b).
  { intros b. unfold occupies, table_area. rewrite (nblocks_mul (table_block i p sup) (inode_table_blocks g)) by done. cbn. fold sup. rewrite Hdata. lia. }
  exists s', p, (with_table (Some p) bg). split; [done|]. split; [by rewrite Hat, decide_True|]. split; [done|].
  split; [|split; [by exists [table_block i p sup]|]; split; [|cbn; unfold p; nia]].
  2:{ intros n Hno. apply (no_room_put n s1 i bg (with_table (Some p) bg) I1 E); done. }
  split; cbn [set_fs fs inodes].
  - apply (groups_ok_put g s1 i _ I1 Hi). by apply bg_ok_table.
  - exact I2.
  - exact I3.
  - change (queued_ds s') with (queued_ds (fs m) ++ [table_block i p sup]). apply Forall_app. split; [done|]. constructor; [|constructor].
    rewrite (nblocks_mul (table_block i p sup) (inode_table_blocks g)) by done. cbn. nia.
  - intros d b Hd Ho. rewrite Hfree. change (queued_ds s') with (queued_ds (fs m) ++ [table_block i p sup]) in Hd. apply elem_of_app in Hd as [Hd|Hd]; [by apply (I5 d)|].
    apply list_elem_of_singleton in Hd as ->. apply Hocc in Ho. by apply (table_not_free g Hg (fs m) i bg b I1 E).
  - change (queued_ds s') with (queued_ds (fs m) ++ [table_block i p sup]). rewrite q_apart_app. split_and!; [done | split; [by intros ? ? ?%elem_of_nil | done] |].
    intros d e b Hd ->%list_elem_of_singleton Ho Ho'. apply Hocc in Ho'. by apply (I7 i bg d b E Et Hd Ho').
  - intros j bgj d b Ej Htj Hd Ha Ho. rewrite Hat in Ej. case_decide as Hij; [by injection Ej as <-|].
    change (queued_ds s') with (queued_ds (fs m) ++ [table_block i p sup]) in Hd. apply elem_of_app in Hd as [Hd|Hd]; [by apply (I7 j bgj d b)|].
    apply list_elem_of_singleton in Hd as ->. apply Hocc in Ho. destruct (bg_at_ok g (fs m) j bgj I1 Ej) as [Hj Hbgj]. pose proof (bg_bounds g Hg j bgj Hj Hbgj). unfold table_area in *. fold sup in Ho.
    assert (0 <= gtable g (has_superblock bgj)) by (unfold gtable, gmaps; destruct (has_superblock bgj); lia).
    apply Hij. apply (same_group g Hg i j b); lia.
  - intros j bgj Ej. rewrite Hat in Ej. case_decide as Hij; [|by apply (I8 j)]. injection Ej as <-. exact (I8 i bg E).
Qed.
Lemma get_inode_ok m n : image_ok g m -> 1 <= n <= groups g * inodes_per_group g -> groups g * inodes_per_group g < 2 ^ 32 ->
  ∃ s' p, get_inode g n (fs m) = Some (p, s') ∧ image_ok g (set_fs s' m) ∧
    (∃ more, queued_ds s' = queued_ds (fs m) ++ more) ∧ (∀ n, no_room n s' -> no_room n (fs m)) ∧ brk (fs m) <= brk s'.
Proof.
  intros Hm Hn Hmax. unfold get_inode. rewrite (u32_small (n - 1)) by lia. assert (Hi : 0 <= (n - 1) / inodes_per_group g < groups g).
  { split; [apply Z.div_pos; lia|]. apply Z.div_lt_upper_bound; nia. }
  destruct (bg_table_ok m _ Hm Hi) as (s' & p & bg & -> & Eb & Et & H1). cbn [mbind option_bind]. rewrite Eb. cbn [mbind option_bind]. rewrite Et. cbn [mbind option_bind].
  eexists s', _. split; [done|]. exact H1.
Qed.

(** ** Inodes *)
Lemma inode_bits_one bm j : bytes bm -> 0 <= j < 8 * zlen bm -> bit_at bm j = false -> ∃ bm', inode_bits 1 j bm = Some bm' ∧ range_set bm bm' j 1.
Proof.
  intros Hb Hj Hc. destruct (set_bit_ok bm j Hb Hj Hc) as (bm' & E & H). exists bm'. split; [|done]. unfold bitmap_set_bit in E. cbn [inode_bits].
  destruct (bm !! Z.to_nat (j / 8)); [|done]. cbn [mbind option_bind] in *. case_match; congruence.
Qed.
Definition inode_taken (s : fsys) (n : Z) : Prop :=
  ∃ bg, bg_at s ((n - 1) / inodes_per_group g) = Some bg ∧ bit_at (inode_bitmap bg) ((n - 1) mod inodes_per_group g) = true.
(** Only the inodes of group [i] change. *)
Lemma image_ok_inodes m i bg bg' : image_ok g m -> bg_at (fs m) i = Some bg -> same_data bg bg' -> bg_ok g i bg' -> inode_table bg' = inode_table bg -> inodes_in g bg' ->
  image_ok g (set_fs (put_bg i bg' (fs m)) m).
Proof.
  intros [I1 I2 I3 I4 I5 I6 I7 I8] E Hsame Hbg' Et Hin'. destruct (bg_at_ok g (fs m) i bg I1 E) as [Hi Hbg]. assert (Hat := bg_at_put g (fs m) i). split; cbn [set_fs fs inodes]; try done.
  - by apply groups_ok_put.
  - intros d b Hd Ho. rewrite (free_data_same (fs m) i bg bg' b I1 E Hsame). by apply (I5 d).
  - intros j bgj d b Ej Htj Hd Ha. rewrite (Hat j bg' I1 Hi) in Ej. case_decide as Hij; [|by apply (I7 j bgj)]. injection Ej as <-. subst j.
    apply (I7 i bg d b E ltac:(congruence) Hd). unfold table_area in *. destruct Hsame as (<- & _). exact Ha.
  - intros j bgj Ej. rewrite (Hat j bg' I1 Hi) in Ej. case_decide as Hij; [by injection Ej as <- | by apply (I8 j)].
Qed.
Lemma reserve_one m i : image_ok g m -> 0 <= i < groups g ->
  ∃ bg, bg_at (fs m) i = Some bg ∧
  ((free_inodes bg = 0 ∧ reserve_inodes i 1 (fs m) = Some (EXT4_ALLOCATE_FAILED, fs m)) ∨
   (1 <= first_free_inode bg <= inodes_per_group g ∧ ∃ bm, range_set (inode_bitmap bg) bm (first_free_inode bg - 1) 1 ∧
     bit_at (inode_bitmap bg) (first_free_inode bg - 1) = false ∧
     reserve_inodes i 1 (fs m) = Some (first_free_inode bg, put_bg i (with_inodes bm (free_inodes bg - 1) (first_free_inode bg + 1) bg) (fs m)) ∧
     image_ok g (set_fs (put_bg i (with_inodes bm (free_inodes bg - 1) (first_free_inode bg + 1) bg) (fs m)) m))).
Proof.
  intros Hm Hi. destruct (bg_at_is_Some g (fs m) i (io_groups _ _ Hm) Hi) as [bg E]. destruct (bg_at_ok g (fs m) i bg (io_groups _ _ Hm) E) as [_ Hbg].
  exists bg. split; [done|]. destruct (io_inodes _ _ Hm i bg E) as (N1 & N2 & N3 & N4 & N5 & N6). pose proof (blk_range g Hg).
  unfold reserve_inodes. rewrite E. cbn [mbind option_bind]. destruct (Z.ltb_spec (free_inodes bg) 1) as [H0|H1]; [left; split; [lia | done]|]. right. split; [lia|].
  assert (Hc : bit_at (inode_bitmap bg) (first_free_inode bg - 1) = false) by (rewrite N6 by lia; apply Z.ltb_ge; lia).
  destruct (inode_bits_one (inode_bitmap bg) (first_free_inode bg - 1) N4 ltac:(lia) Hc) as (bm & Ebm & Hbm). exists bm. split; [done|]. split; [done|].
  change (Z.to_nat 1) with 1%nat. rewrite !u32_small by lia. rewrite Ebm. cbn [mbind option_bind]. split; [done|].
  apply (image_ok_inodes m i bg); try done; [by destruct Hbg; split|]. destruct Hbm as (B & Hl & Hbit). unfold inodes_in. cbn [with_inodes first_free_inode free_inodes inode_bitmap].
  split_and!; try lia; [done|]. intros j Hj. rewrite Hbit, N6 by lia. apply eq_iff_eq_true. rewrite orb_true_iff, in_range_true, !Z.ltb_lt. lia.
Qed.
Lemma inode_from_ok m n i : image_ok g m -> 0 <= i -> i + Z.of_nat n <= groups g -> groups g * inodes_per_group g < 2 ^ 32 - 1 ->
  (inode_from g n i (fs m) = Some (EXT4_ALLOCATE_FAILED, fs m) ∧ ∀ j bg, i <= j < i + Z.of_nat n -> bg_at (fs m) j = Some bg -> free_inodes bg = 0) ∨
  ∃ k s', inode_from g n i (fs m) = Some (k, s') ∧ image_ok g (set_fs s' m) ∧ 1 <= k <= groups g * inodes_per_group g ∧
    ¬ inode_taken (fs m) k ∧ (∀ j, 1 <= j -> inode_taken s' j <-> inode_taken (fs m) j ∨ j = k) ∧
    queued_ds s' = queued_ds (fs m) ∧ brk s' = brk (fs m) ∧ (∀ l, no_room l s' -> no_room l (fs m)).
Proof.
  intros Hm Hi Hn Hmax. revert i Hi Hn. induction n as [|n IH]; intros i Hi Hn; cbn [inode_from]; [left; split; [done | lia]|].
  destruct (reserve_one m i Hm ltac:(lia)) as (bg & E & [(H0 & ->)|(H1 & bm & Hbm & Hc & -> & Hm')]); cbn [mbind option_bind].
  - rewrite Z.eqb_refl. cbn [negb]. destruct (IH (i + 1) ltac:(lia) ltac:(lia)) as [[E2 H2]|H2]; [left; split; [done|] | by right].
    intros j bgj Hj Ej. destruct (decide (j = i)) as [->|]; [by assert (bgj = bg) as -> by congruence|]. apply (H2 j); [lia | done].
  - assert (Hin : i * inodes_per_group g + first_free_inode bg <= groups g * inodes_per_group g) by nia. assert (0 <= i * inodes_per_group g) by nia.
    rewrite (proj2 (Z.eqb_neq _ _)) by (unfold EXT4_ALLOCATE_FAILED; nia). cbn [negb]. right. set (k := i * inodes_per_group g + first_free_inode bg) in *. set (bg' := with_inodes _ _ _ _) in *.
    exists k, (put_bg i bg' (fs m)). rewrite (u32_small k) by lia. split; [done|]. split; [exact Hm'|]. split; [lia|].
    assert (Hd : (k - 1) / inodes_per_group g = i ∧ (k - 1) mod inodes_per_group g = first_free_inode bg - 1).
    { split; [symmetry; apply (Z.div_unique _ _ i (first_free_inode bg - 1)); unfold k; lia | symmetry; apply (Z.mod_unique _ _ i (first_free_inode bg - 1)); unfold k; lia]. }
    destruct Hd as [Hd Hr]. assert (Hat := bg_at_put g (fs m) i). pose proof (io_groups _ _ Hm) as Hgs.
    split; [|split; [|split; [done|split; [done | intros l Hno; by apply (no_room_put l (fs m) i bg bg' Hgs E)]]]].
    + intros (bg2 & E2 & Hb). rewrite Hd, E in E2. injection E2 as <-. rewrite Hr in Hb. congruence.
    + intros j Hj. pose proof (Z.div_mod (j - 1) (inodes_per_group g)) as Hdm. pose proof (Z.mod_pos_bound (j - 1) (inodes_per_group g)) as Hmb. destruct Hbm as (_ & _ & Hbit).
      assert (Hjk : j = k <-> (j - 1) / inodes_per_group g = i ∧ (j - 1) mod inodes_per_group g = first_free_inode bg - 1).
      { split; [intros ->; done|]. intros [E1 E2]. rewrite E1, E2 in Hdm. unfold k. lia. }
      rewrite Hjk. unfold inode_taken. rewrite (Hat _ bg' Hgs ltac:(lia)). destruct (decide (i = (j - 1) / inodes_per_group g)) as [Hij|Hij].
      * rewrite <- Hij, E. split.
        -- intros (bg2 & [= <-] & Hb). cbn in Hb. rewrite Hbit, orb_true_iff, in_range_true in Hb by lia. destruct Hb as [Hb|Hb]; [left; by exists bg | right; split; [done | lia]].
        -- intros H2. exists bg'. split; [done|]. cbn. rewrite Hbit, orb_true_iff, in_range_true by lia. destruct H2 as [(bg2 & [= <-] & Hb)|[_ ->]]; [by left | right; lia].
      * split; [by left | intros [H2|[H2 _]]; [done | congruence]].
Qed.

Lemma allocate_inode_ok m : image_ok g m -> groups g * inodes_per_group g < 2 ^ 32 - 1 ->
  (allocate_inode g (fs m) = Some (EXT4_ALLOCATE_FAILED, fs m) ∧ ∀ j bg, bg_at (fs m) j = Some bg -> free_inodes bg = 0) ∨
  ∃ k s', allocate_inode g (fs m) = Some (k, s') ∧ image_ok g (set_fs s' m) ∧ 1 <= k <= groups g * inodes_per_group g ∧
    ¬ inode_taken (fs m) k ∧ (∀ j, 1 <= j -> inode_taken s' j <-> inode_taken (fs m) j ∨ j = k) ∧
    queued_ds s' = queued_ds (fs m) ∧ brk s' = brk (fs m) ∧ (∀ l, no_room l s' -> no_room l (fs m)).
Proof.
  intros Hm Hmax. pose proof (go_groups g Hg). destruct (inode_from_ok m (Z.to_nat (groups g)) 0 Hm) as [[E H1]|H1]; [lia | lia | done | left | by right].
  split; [exact E|]. intros j bg Ej. destruct (bg_at_ok g (fs m) j bg (io_groups _ _ Hm) Ej). apply (H1 j); [lia | done].
Qed.
Lemma add_directory_ok m n : image_ok g m -> 1 <= n <= groups g * inodes_per_group g -> groups g * inodes_per_group g < 2 ^ 32 ->
  ∃ s', add_directory g n (fs m) = Some s' ∧ image_ok g (set_fs s' m) ∧ queued_ds s' = queued_ds (fs m) ∧ brk s' = brk (fs m) ∧ (∀ l, no_room l s' -> no_room l (fs m)).
Proof.
  intros Hm Hn Hmax. unfold add_directory. rewrite (u32_small (n - 1)) by lia. assert (Hi : 0 <= (n - 1) / inodes_per_group g < groups g).
  { split; [apply Z.div_pos; lia|]. apply Z.div_lt_upper_bound; nia. }
  destruct (bg_at_is_Some g (fs m) _ (io_groups _ _ Hm) Hi) as [bg E]. rewrite E. cbn [mbind option_bind]. eexists. split; [done|].
  destruct (bg_at_ok g (fs m) _ bg (io_groups _ _ Hm) E) as [_ Hbg]. split; [|split; [done|split; [done|]]].
  - apply (image_ok_inodes m _ bg); try done; [by destruct Hbg; split | exact (io_inodes _ _ Hm _ bg E)].
  - intros l. by apply (no_room_put l (fs m) _ bg _ (io_groups _ _ Hm) E).
Qed.
Lemma image_ok_inode m p i : image_ok g m -> zlen (i_block i) = 60 -> image_ok g (put_inode p i m).
Proof. intros [I1 I2 I3 I4 I5 I6 I7 I8] Hi. split; try done. by apply sized_put. Qed.
Lemma image_ok_buf m p b : image_ok g m -> image_ok g (put_buf p b m).
Proof. intros [I1 I2 I3 I4 I5 I6 I7 I8]. by split. Qed.
End Order.
