(* ===== verification/AllocProps.v ===== *)
(** * The promises of the allocator

    Setting blocks aside in a bitmap, the groups at the start, allocations that do not
    overlap, and inodes that are given out once. *)
From stdpp Require Import base gmap list list_numbers.
From Stdlib Require Import ZArith Lia.
From S2P Require Import Prelude Crc Backed Alloc AllocBits AllocInv AllocSafe AllocInit Extent ExtentFile FileTrip ImageOk.
#[local] Open Scope Z_scope.

(** One group of 64 blocks of 1 KB, with eight inodes. *)
Definition geom_small : geom := Geom 1024 64 8 128 0 true 1 65 1 1 1.
Lemma geom_small_ok : geom_ok geom_small.
Proof.
  split; unfold gfirst; cbn; try lia; [by exists 10|]. intros i sup Hi. assert (i = 0) as -> by lia. intros [= <-]. done.
Qed.
Definition empty_fs : fsys := Fsys [] ∅ 0 [] 4096.
Definition start_small : image_state := ImageState (default empty_fs (block_allocator_init geom_small empty_fs)) ∅ ∅.
Lemma start_small_init : block_allocator_init geom_small empty_fs = Some (fs start_small).
Proof. vm_compute. reflexivity. Qed.
Lemma start_small_ok : image_ok geom_small start_small.
Proof. by apply (image_ok_init geom_small geom_small_ok ltac:(cbn; lia) empty_fs _ eq_refl eq_refl eq_refl start_small_init). Qed.

(** Blocks are set aside exactly, or the program stops.  [reserve_blocks] with whole bytes in
    the middle does what setting the bits one by one would: it refuses when there are not
    enough free blocks, stops the program when one of the blocks is taken, and otherwise
    sets the bits of the range and no others, and moves the first free block when the range
    starts there. *)
Theorem reserve_blocks_exact bg start num :
  bytes (block_bitmap bg) -> 0 <= start -> 0 <= num -> start + num <= 8 * zlen (block_bitmap bg) -> 8 * zlen (block_bitmap bg) + 8 < 2 ^ 32 ->
  0 <= free_blocks bg < 2 ^ 32 ->
  (free_blocks bg < num ∧ reserve_blocks bg start num = Some (-1, bg)) ∨
  (num <= free_blocks bg ∧ (∃ j, start <= j < start + num ∧ bit_at (block_bitmap bg) j = true) ∧ reserve_blocks bg start num = None) ∨
  (num <= free_blocks bg ∧ range_clear (block_bitmap bg) start num ∧ ∃ bm, range_set (block_bitmap bg) bm start num ∧
    reserve_blocks bg start num = Some (0, with_blocks bm (free_blocks bg - num) (if start =? first_free_block bg then start + num else first_free_block bg) bg)).
Proof.
  intros Hb Hs Hn Hle Hmax Hf. unfold reserve_blocks. destruct (Z.ltb_spec (free_blocks bg) num) as [Hlt|Hge]; [by left|]. right.
  destruct (decide (Exists (fun j => bit_at (block_bitmap bg) j = true) (seqZ start num))) as [Hx|Hx].
  - left. apply Exists_exists in Hx as (j & Hj & Hbit). apply elem_of_seqZ in Hj. split; [done|]. split; [exists j; split; [lia | done]|].
    by rewrite (set_blocks_hit _ start num j) by (done || lia).
  - right. assert (Hc : range_clear (block_bitmap bg) start num).
    { intros j Hj. destruct (bit_at (block_bitmap bg) j) eqn:E; [|done]. exfalso. apply Hx, Exists_exists. exists j. split; [apply elem_of_seqZ; lia | done]. }
    split; [done|]. split; [done|]. destruct (set_blocks_ok _ start num Hb Hs Hn Hle ltac:(lia) Hc) as (bm & -> & Hbm). exists bm. split; [done|].
    cbn [mbind option_bind]. by rewrite !u32_small by lia.
Qed.
Definition bg_ex : block_group_info := BlockGroup 1 3 0 false [0x0f; 0; 0; 0x80] [] None 27 4 0 1 0.
Lemma reserve_blocks_exact_witness : ∃ bm, range_set [0x0f; 0; 0; 0x80] bm 4 20 ∧ reserve_blocks bg_ex 4 20 = Some (0, with_blocks bm 7 24 bg_ex).
Proof.
  destruct (reserve_blocks_exact bg_ex 4 20) as [[H _]|[(_ & _ & E)|(_ & _ & bm & Hbm & E)]]; try (unfold zlen; cbn; lia);
    [repeat (apply Forall_cons_2; [lia|]); apply Forall_nil_2 | | |].
  - done.
  - vm_compute in E. discriminate.
  - by exists bm.
Defined.

(** The groups at the start.  [block_allocator_init] succeeds for every layout that has room
    for the headers: the bitmap of each group has the header, and what the last group does
    not have, taken, and the rest is free; the groups with a copy of the super block are
    those the format says; the bitmaps are queued where no two of them meet, and what is
    free are the blocks behind the headers. *)
Theorem block_groups_initialised g s :
  geom_ok g -> 0 < inodes_per_group g <= 8 * blk_size g -> bgs s = [] -> queued_ds s = [] -> regs s = ∅ ->
  ∃ s', block_allocator_init g s = Some s' ∧ image_ok g (ImageState s' ∅ ∅) ∧
    (∀ b, free_data g s' b <-> data_area g b) ∧
    ∀ i, 0 <= i < groups g -> ∃ bg, bg_at s' i = Some bg ∧ fresh_group g i (has_superblock bg) bg ∧
      (has_superblock bg = true <-> sparse_super g = false ∨ i = 0 ∨ power_of i 3 ∨ power_of i 5 ∨ power_of i 7).
Proof.
  intros Hg Hig Hb Hq Hr. destruct (block_allocator_init_ok g Hg s Hb) as (l & E & Hl & Hfresh). set (s' := Fsys l _ _ _ _) in E. exists s'. split; [exact E|].
  split; [by apply (image_ok_init g Hg Hig s)|]. split; [by intros b; apply fresh_free|]. intros i Hi.
  assert (Hok : groups_ok g l) by (by apply fresh_groups_ok). destruct (bg_at_is_Some g s' i Hok Hi) as [bg Ebg]. exists bg. split; [exact Ebg|].
  unfold bg_at in Ebg. rewrite (proj2 (Z.ltb_ge _ _)) in Ebg by lia. destruct (Hfresh _ _ Ebg) as (sup & Hf). rewrite Z2Nat.id in Hf by lia.
  pose proof Hf as (Hbg & Es & _). subst sup. split; [done|]. destruct (has_super_ok g i ltac:(lia)) as (sup & Esup & Hsup). pose proof (b_super _ _ _ Hbg). by assert (has_superblock bg = sup) as -> by congruence.
Qed.
Lemma block_groups_initialised_witness : ∃ s', block_allocator_init geom_small empty_fs = Some s' ∧ image_ok geom_small (ImageState s' ∅ ∅).
Proof.
  destruct (block_groups_initialised geom_small empty_fs) as (s' & E & H & _); [apply geom_small_ok | done | done | done | done |]. by exists s'.
Defined.

(** C17. Allocations do not overlap.  Unless [allocate_blocks] returns null, it gives a chain of
    regions with as many blocks as were asked for, all free before, none of them in two
    regions, and none of them free after, while every other free block stays free.  It returns
    null only when no single group has room for all of the blocks and, at the end, every group
    has data; the free blocks of all groups together may be enough then, and the groups it has
    filled by then stay taken ([allocate_blocks_gives_up]). *)
Theorem allocate_blocks_disjoint g fuel len s :
  geom_ok g -> groups_ok g (bgs s) -> regs_fresh s -> 0 < len < 2 ^ 32 -> groups g < Z.of_nat fuel ->
  ∃ res s' L, allocate_blocks g fuel len s = Some (res, s') ∧ allocated g s s' L ∧
    match res with
    | None => no_room len s ∧ no_empty s'
    | Some a => rchain (regs s') (rl_first (a_list a)) L ∧ NoDup L.*1 ∧ total_len L = len ∧
        (∀ b, free_data g s' b <-> free_data g s b ∧ ¬ covers L b) ∧ (∀ b, covers L b -> free_data g s b) ∧ apart L
    end.
Proof.
  intros Hg Hs Hf Hlen Hfuel. pose proof (empties_le s) as He. pose proof Hs as [Hgl _]. unfold zlen in Hgl.
  destruct (do_allocate_ok g Hg fuel len s Hs Hf Hlen) as (first & s' & L & E & Hal & Hres & _); [lia|]. unfold allocate_blocks. rewrite E. cbn [mbind option_bind].
  destruct Hres as [(-> & Hno & Hne)|[(x & r & L1 & EL & -> & Hc & Hnd & _) Ht]].
  - exists None, s', L. by split_and!.
  - eexists (Some _), s', L. split; [done|]. split; [done|]. cbn [a_list rl_first]. split; [done|]. split; [done|]. split; [done|].
    split; [apply (al_free _ _ _ _ Hal)|]. split; [apply (al_in _ _ _ _ Hal) | apply (al_apart _ _ _ _ Hal)].
Qed.
Lemma allocate_blocks_disjoint_witness : ∃ a s' L, allocate_blocks geom_small 2 10 (fs start_small) = Some (Some a, s') ∧ total_len L = 10 ∧ apart L ∧
  ∀ b, covers L b -> free_data geom_small (fs start_small) b ∧ ¬ free_data geom_small s' b.
Proof.
  destruct (allocate_blocks_disjoint geom_small 2 10 (fs start_small)) as (res & s' & L & E & Hal & Hres); [apply geom_small_ok | apply start_small_ok | apply start_small_ok | lia | cbn; lia |].
  destruct res as [a|].
  - destruct Hres as (_ & _ & Ht & Hf & Hin & Ha). exists a, s', L. split; [exact E|]. split; [done|]. split; [done|]. intros b Hb. split; [by apply Hin | rewrite Hf; tauto].
  - exfalso. vm_compute in E. discriminate.
Defined.

(** Two groups with 58 and 59 free blocks cannot give 70: the second one, which has no data yet, is
    taken completely, and as no group without data is left for the other 11 blocks, null is
    returned, though the first has room for them; the 59 blocks stay taken, and nothing refers to
    them. *)
Definition geom_two : geom := Geom 1024 64 8 128 0 true 1 129 1 2 1.
Example allocate_blocks_gives_up :
  (s0 ← block_allocator_init geom_two empty_fs; '(_, s1) ← allocate_blocks geom_two 3 1 s0;
   '(res, s2) ← allocate_blocks geom_two 3 70 s1; Some (free_blocks <$> bgs s1, res, free_blocks <$> bgs s2)) =
  Some ([58; 59], None, [58; 0]).
Proof. vm_compute. reflexivity. Qed.

(** An inode is given out once.  [allocate_inode] fails only when every group is out of
    inodes, and otherwise gives an inode that was not taken, within the inodes of the file
    system; the inodes taken after are those taken before and this one. *)
Theorem allocate_inode_fresh g m :
  geom_ok g -> 0 < inodes_per_group g <= 8 * blk_size g -> groups g * inodes_per_group g < 2 ^ 32 - 1 -> image_ok g m ->
  (allocate_inode g (fs m) = Some (EXT4_ALLOCATE_FAILED, fs m) ∧ ∀ i bg, bg_at (fs m) i = Some bg -> free_inodes bg = 0) ∨
  ∃ n s', allocate_inode g (fs m) = Some (n, s') ∧ image_ok g (set_fs s' m) ∧ 1 <= n <= groups g * inodes_per_group g ∧
    ¬ inode_taken g (fs m) n ∧ ∀ k, 1 <= k -> inode_taken g s' k <-> inode_taken g (fs m) k ∨ k = n.
Proof.
  intros Hg Hig Hmax Hm. destruct (allocate_inode_ok g Hg Hig m Hm Hmax) as [H|(n & s' & E & H1 & H2 & H3 & H4 & _)]; [by left|]. right. by exists n, s'.
Qed.
Lemma allocate_inode_fresh_witness : ∃ n s', allocate_inode geom_small (fs start_small) = Some (n, s') ∧ ¬ inode_taken geom_small (fs start_small) n ∧ inode_taken geom_small s' n.
Proof.
  destruct (allocate_inode_fresh geom_small start_small) as [[E _]|(n & s' & E & _ & Hn & H1 & H2)]; [apply geom_small_ok | done | done | apply start_small_ok | |].
  - exfalso. vm_compute in E. discriminate.
  - exists n, s'. split; [done|]. split; [done|]. apply H2; [lia | by right].
Defined.
