(* ===== verification/Indirect.v ===== *)
(** * Files as lists of blocks ([ext4_utils/indirect.c])

    The block numbers of a file in the inode, in a block of numbers, in blocks of those and
    so on.  [error] and [critical_error] leave the program, and so does a division by zero:
    [None].  A block of numbers is a buffer of bytes; a store outside it is [None]. *)
From stdpp Require Import base gmap list.
From Stdlib Require Import ZArith Lia.
From S2P Require Import Prelude SparseFormat Backed Alloc Extent.
#[local] Open Scope Z_scope.

Definition EXT4_NDIR_BLOCKS : Z := 12.
Definition EXT4_IND_BLOCK : Z := 12.
Definition EXT4_DIND_BLOCK : Z := 13.
Definition EXT4_TIND_BLOCK : Z := 14.

Section Indirect.
Context (g : geom) (fuel : nat).

(** From [ext4_create_fs_aux_info]; the last two are products in 32 bits. *)
Definition blocks_per_ind : Z := blk_size g / 4.
Definition blocks_per_dind : Z := u32 (blocks_per_ind * blocks_per_ind).
Definition blocks_per_tind : Z := u32 (blocks_per_dind * blocks_per_dind).

(** [p[i] = v] for an array of block numbers, and for the numbers in an inode. *)
Definition store_block (p i v : Z) (m : image_state) : option image_state :=
  buf ← bufs m !! p; buf ← store (4 * i) (bytes32 v) buf; Some (put_buf p buf m).
Definition store_i_block (inode i v : Z) (m : image_state) : option image_state :=
  b ← store (4 * i) (bytes32 v) (i_block (inode_at m inode)); Some (put_inode inode (set_i_block b (inode_at m inode)) m).

Definition create_backing (a : block_allocation) (backing_len : Z) (m : image_state) : option (Z * image_state) :=
  if EXT4_NDIR_BLOCKS <? (backing_len + blk_size g - 1) / blk_size g then None else
  let '(data, m) := calloc_buf backing_len m in
  s ← backing_loop g fuel a backing_len (fun pos len block => q_data (data + pos) len block) 0 (fs m);
  Some (data, set_fs s m).

(** ** Setting blocks aside *)
Definition reserve_oob (a : block_allocation) (s : fsys) : option (block_allocation * fsys) :=
  '(ret, a, s) ← reserve_oob_blocks fuel a 1 s; if negb (ret =? 0) then None else Some (a, s).
Definition reserve_indirect_block (a : block_allocation) (len : Z) (s : fsys) : option (block_allocation * fsys) :=
  '(a, s) ← reserve_oob a s;
  '(ret, a) ← advance_blocks fuel a len s;
  if negb (ret =? 0) then None else Some (a, s).
(** [while (len > 0)] in pieces of [n] blocks. *)
Fixpoint reserve_loop (k : nat) (piece : block_allocation -> Z -> fsys -> option (block_allocation * fsys)) (n : Z)
    (a : block_allocation) (len : Z) (s : fsys) : option (block_allocation * fsys) :=
  if 0 <? len then
    match k with
    | O => None
    | S k => let l := Z.min (s32 n) len in '(a, s) ← piece a l s; reserve_loop k piece n a (len - l) s
    end
  else Some (a, s).
Definition reserve_dindirect_block (a : block_allocation) (len : Z) (s : fsys) : option (block_allocation * fsys) :=
  '(a, s) ← reserve_oob a s; reserve_loop fuel reserve_indirect_block blocks_per_ind a len s.
Definition reserve_tindirect_block (a : block_allocation) (len : Z) (s : fsys) : option (block_allocation * fsys) :=
  '(a, s) ← reserve_oob a s; reserve_loop fuel reserve_dindirect_block blocks_per_dind a len s.
Definition reserve_all_indirect_blocks (a : block_allocation) (len : Z) (s : fsys) : option (block_allocation * fsys) :=
  if len <=? EXT4_NDIR_BLOCKS then Some (a, s) else
  let len := len - EXT4_NDIR_BLOCKS in
  '(_, a) ← advance_blocks fuel a EXT4_NDIR_BLOCKS s;
  let l := Z.min blocks_per_ind len in
  '(a, s) ← reserve_indirect_block a l s;
  let len := len - l in
  if len =? 0 then Some (a, s) else
  let l := Z.min blocks_per_dind len in
  '(a, s) ← reserve_dindirect_block a (s32 l) s;
  let len := len - l in
  if len =? 0 then Some (a, s) else
  let l := Z.min blocks_per_tind len in
  '(a, s) ← reserve_tindirect_block a (s32 l) s;
  let len := len - l in
  if len =? 0 then Some (a, s) else None.

Definition div_up (x y : Z) : option Z := if y =? 0 then None else Some (u32 (u32 (x + y) - 1) / y).
Definition indirect_blocks_needed (len : Z) : option Z :=
  if len <=? EXT4_NDIR_BLOCKS then Some 0 else
  let len := len - EXT4_NDIR_BLOCKS in
  ind ← div_up len blocks_per_ind;
  if len <=? blocks_per_ind then Some ind else
  let len := len - blocks_per_ind in
  d ← div_up len blocks_per_dind;
  let ind := u32 (ind + d) in
  if len <=? blocks_per_dind then Some ind else
  let len := len - blocks_per_dind in
  t ← div_up len blocks_per_tind;
  let ind := u32 (ind + t) in
  if len <=? blocks_per_tind then Some ind else None.

(** ** Writing the numbers *)
(** The numbers of the next [n] blocks, from [p[i]] on. *)
Fixpoint fill_from (n : nat) (i : Z) (put : Z -> Z -> image_state -> option image_state) (a : block_allocation) (m : image_state) : option image_state :=
  match n with
  | O => Some m
  | S n => b ← get_block fuel a (u32 i) (fs m); m ← put i b m; fill_from n (i + 1) put a m
  end.
Definition fill_indirect_block (p len : Z) (a : block_allocation) (m : image_state) : option image_state :=
  fill_from (Z.to_nat len) 0 (store_block p) a m.
(** The next block kept for numbers, with a buffer. *)
Definition next_oob (a : block_allocation) (m : image_state) : option (Z * block_allocation) :=
  b ← get_oob_block fuel a 0 (fs m);
  '(ret, a) ← advance_oob_blocks fuel a 1 (fs m);
  if negb (ret =? 0) then None else Some (b, a).
Definition numbers_block (b : Z) (m : image_state) : Z * image_state :=
  let '(p, m) := calloc_buf (blk_size g) m in (p, set_fs (q_data p (blk_size g) b (fs m)) m).

Fixpoint dind_loop (k : nat) (p i len : Z) (a : block_allocation) (m : image_state) : option (block_allocation * image_state) :=
  if 0 <? len then
    match k with
    | O => None
    | S k =>
        '(ind_block, a) ← next_oob a m;
        m ← store_block p i ind_block m;
        let '(data, m) := numbers_block ind_block m in
        let l := Z.min (s32 blocks_per_ind) len in
        m ← fill_indirect_block data l a m;
        '(ret, a) ← advance_blocks fuel a l (fs m);
        if negb (ret =? 0) then None else dind_loop k p (i + 1) (len - l) a m
    end
  else Some (a, m).
Definition fill_dindirect_block (p len : Z) (a : block_allocation) (m : image_state) : option (block_allocation * image_state) :=
  dind_loop fuel p 0 len a m.
Fixpoint tind_loop (k : nat) (p i len : Z) (a : block_allocation) (m : image_state) : option (block_allocation * image_state) :=
  if 0 <? len then
    match k with
    | O => None
    | S k =>
        '(dind_block, a) ← next_oob a m;
        m ← store_block p i dind_block m;
        let '(data, m) := numbers_block dind_block m in
        let l := Z.min (s32 blocks_per_dind) len in
        '(a, m) ← fill_dindirect_block data l a m;
        tind_loop k p (i + 1) (len - l) a m
    end
  else Some (a, m).
Definition fill_tindirect_block (p len : Z) (a : block_allocation) (m : image_state) : option (block_allocation * image_state) :=
  tind_loop fuel p 0 len a m.

(** ** Attaching blocks to an inode; the result has the number of blocks left *)
Definition advance_or_fail (a : block_allocation) (len : Z) (m : image_state) : option block_allocation :=
  '(ret, a) ← advance_blocks fuel a len (fs m); if negb (ret =? 0) then None else Some a.
Definition inode_attach_direct_blocks (inode : Z) (a : block_allocation) (block_len : Z) (m : image_state) : option (block_allocation * Z * image_state) :=
  let len := Z.min block_len EXT4_NDIR_BLOCKS in
  m ← fill_from (Z.to_nat len) 0 (store_i_block inode) a m;
  a ← advance_or_fail a len m;
  Some (a, block_len - len, m).
Definition inode_attach_indirect_blocks (inode : Z) (a : block_allocation) (block_len : Z) (m : image_state) : option (block_allocation * Z * image_state) :=
  let len := s32 (Z.min block_len blocks_per_ind) in
  b ← get_oob_block fuel a 0 (fs m);
  m ← store_i_block inode EXT4_IND_BLOCK b m;
  '(ret, a) ← advance_oob_blocks fuel a 1 (fs m);
  if negb (ret =? 0) then None else
  let '(data, m) := numbers_block b m in
  m ← fill_indirect_block data len a m;
  a ← advance_or_fail a len m;
  Some (a, u32 (block_len - len), m).
Definition inode_attach_dindirect_blocks (inode : Z) (a : block_allocation) (block_len : Z) (m : image_state) : option (block_allocation * Z * image_state) :=
  let len := s32 (Z.min block_len blocks_per_dind) in
  b ← get_oob_block fuel a 0 (fs m);
  m ← store_i_block inode EXT4_DIND_BLOCK b m;
  '(ret, a) ← advance_oob_blocks fuel a 1 (fs m);
  if negb (ret =? 0) then None else
  let '(data, m) := numbers_block b m in
  '(a, m) ← fill_dindirect_block data len a m;
  a ← advance_or_fail a len m;
  Some (a, u32 (block_len - len), m).
Definition inode_attach_tindirect_blocks (inode : Z) (a : block_allocation) (block_len : Z) (m : image_state) : option (block_allocation * Z * image_state) :=
  let len := s32 (Z.min block_len blocks_per_tind) in
  b ← get_oob_block fuel a 0 (fs m);
  m ← store_i_block inode EXT4_TIND_BLOCK b m;
  '(ret, a) ← advance_oob_blocks fuel a 1 (fs m);
  if negb (ret =? 0) then None else
  let '(data, m) := numbers_block b m in
  '(a, m) ← fill_tindirect_block data len a m;
  a ← advance_or_fail a len m;
  Some (a, u32 (block_len - len), m).

Definition do_inode_attach_indirect (inode : Z) (a : block_allocation) (block_len : Z) (m : image_state) : option (block_allocation * image_state) :=
  '(a, count, m) ← inode_attach_direct_blocks inode a block_len m;
  '(a, count, m) ← (if 0 <? count then inode_attach_indirect_blocks inode a count m else Some (a, count, m));
  '(a, count, m) ← (if 0 <? count then inode_attach_dindirect_blocks inode a count m else Some (a, count, m));
  '(a, count, m) ← (if 0 <? count then inode_attach_tindirect_blocks inode a count m else Some (a, count, m));
  if negb (count =? 0) then None else Some (rewind_alloc a, m).

(** The inode is not used. *)
Definition do_inode_allocate_indirect (block_len : Z) (m : image_state) : option (block_allocation * image_state) :=
  indirect_len ← indirect_blocks_needed block_len;
  '(alloc, s) ← allocate_blocks g fuel (u32 (block_len + indirect_len)) (fs m);
  a ← alloc;
  Some (a, set_fs s m).
Definition set_sizes (flags blocks_lo blocks_hi size_lo size_hi : Z) (i : ext4_inode) : ext4_inode :=
  Inode (i_mode i) (i_uid i) size_lo (i_atime i) (i_ctime i) (i_mtime i) (i_gid i) (i_links_count i) blocks_lo flags (i_block i) size_hi blocks_hi.
Definition inode_allocate_indirect (inode len : Z) (m : image_state) : option image_state :=
  let block_len := u32 ((len + blk_size g - 1) / blk_size g) in
  indirect_len ← indirect_blocks_needed block_len;
  '(a, m) ← do_inode_allocate_indirect block_len m;
  '(a, s) ← reserve_all_indirect_blocks a block_len (fs m);
  '(a, m) ← do_inode_attach_indirect inode (rewind_alloc a) block_len (set_fs s m);
  let i := inode_at m inode in
  let m := put_inode inode (set_sizes 0 (u32 (u32 (block_len + indirect_len) * blk_size g) / 512) (l_i_blocks_high i) (u32 len) (i_size_high i) i) m in
  s ← free_alloc fuel a (fs m);
  Some (set_fs s m).
(** The number of blocks is [len], as the callers' number of bytes is passed on. *)
Definition inode_allocate_data_indirect (len backing_len : Z) (m : image_state) : option (option Z * image_state) :=
  '(a, m) ← do_inode_allocate_indirect (u32 len) m;
  '(data, m) ← (if negb (backing_len =? 0) then '(data, m) ← create_backing a backing_len m; Some (Some data, m) else Some (None, m));
  s ← free_alloc fuel a (fs m);
  Some (data, set_fs s m).

(** ** The inode with the blocks kept for resizing *)
Fixpoint resize_copies (n : nat) (j : Z) (ind r : Z) (a : block_allocation) (m : image_state) : option image_state :=
  match n with
  | O => Some m
  | S n =>
      b ← get_block fuel a (u32 (j * bg_desc_reserve_blocks g + r)) (fs m);
      m ← store_block ind (r * blocks_per_ind + j - 1) b m;
      resize_copies n (j + 1) ind r a m
  end.
Fixpoint resize_loop (n : nat) (i : Z) (dind ind superblocks : Z) (a : block_allocation) (m : image_state) : option image_state :=
  match n with
  | O => Some m
  | S n =>
      let r := s32 (u32 (i - bg_desc_blocks g) mod bg_desc_reserve_blocks g) in
      let r := if r <? 0 then s32 (u32 (r + bg_desc_reserve_blocks g)) else r in
      b ← get_block fuel a (u32 r) (fs m);
      m ← store_block dind i b m;
      m ← resize_copies (Z.to_nat (superblocks - 1)) 1 ind r a m;
      resize_loop n (i + 1) dind ind superblocks a m
  end.
Definition inode_attach_resize (inode : Z) (a : block_allocation) (m : image_state) : option (block_allocation * image_state) :=
  let reserve := bg_desc_reserve_blocks g in
  block_len ← block_allocation_len fuel a (fs m);
  if reserve =? 0 then None else
  let superblocks := block_len / reserve in
  if negb (block_len mod reserve =? 0) then None else
  '(a, s) ← append_oob_allocation g fuel a 1 (fs m);
  let m := set_fs s m in
  dind_block ← get_oob_block fuel a 0 s;
  let '(dind, m) := numbers_block dind_block m in
  let '(ind, m) := calloc_buf (blk_size g * reserve) m in
  b0 ← get_block fuel a 0 (fs m);
  let m := set_fs (q_data ind (u32 (blk_size g * reserve)) b0 (fs m)) m in
  m ← resize_loop (Z.to_nat reserve) 0 dind ind superblocks a m;
  let last_block := u32 (EXT4_NDIR_BLOCKS + blocks_per_ind + blocks_per_ind * (reserve - 1) + superblocks - 2) in
  let blocks := (block_len + 1) * blk_size g / 512 in
  let size := last_block * blk_size g in
  m ← store_i_block inode EXT4_DIND_BLOCK dind_block m;
  Some (a, put_inode inode (set_sizes 0 (u32 blocks) (blocks / 2 ^ 32 mod 2 ^ 16) (u32 size) (u32 (size / 2 ^ 32)) (inode_at m inode)) m).
End Indirect.
