(* ===== verification/Contents.v ===== *)
(** * Files, links and directories ([ext4_utils/contents.c])

    A directory is a file of entries that do not cross a block: the entry before the gap is
    made longer.  Its size is computed first, then the entries are written one by one; the
    addresses of their inode numbers are kept, to be filled in when the inodes exist. *)
From stdpp Require Import base gmap list.
From Stdlib Require Import ZArith Lia.
From S2P Require Import Prelude SparseFormat Backed Alloc Extent Indirect.
#[local] Open Scope Z_scope.

(** The name without its terminator; [d_inode] is the buffer and the offset in it. *)
Record dentry := Dentry { d_filename : list Z; d_file_type : Z; d_inode : option (Z * Z) }.
Definition EXT4_ROOT_INO : Z := 2.
Definition EXT4_FT_UNKNOWN : Z := 0.
Definition EXT4_FT_DIR : Z := 2.
Definition S_IFDIR : Z := 0x4000.
Definition S_IFREG : Z := 0x8000.
Definition S_IFLNK : Z := 0xA000.
Definition EXT4_NOATIME_FL : Z := 0x80.
Definition REC_LEN_FOR_END : Z := 8.
Definition align4 (n : Z) : Z := 4 * ((n + 4 - 1) / 4).

(** ** Directories *)
(** [struct ext4_dir_entry_2] up to the name. *)
Definition dir_entry_bytes (inode rec_len name_len file_type : Z) : list Z :=
  bytes32 inode ++ bytes16 rec_len ++ [name_len mod 256; file_type mod 256].

Section Contents.
Context (g : geom) (fuel : nat).
Notation bs := (blk_size g).

(** The steps of [dentry_size]. *)
Definition round_block (len n : Z) : Z := if bs <? len mod bs + n then u32 (len + (bs - len mod bs)) else len.
Definition dentry_size_from (len : Z) (ds : list dentry) : Z :=
  foldl (fun len d => let n := 8 + align4 (zlen (d_filename d)) in u32 (round_block len n + n)) len ds.
Definition dentry_size (ds : list dentry) : Z :=
  let len := dentry_size_from 24 ds in
  u32 (round_block len 8 + 8).

(** [prev->rec_len += n], for the entry at [prev]. *)
Definition grow_entry (prev n : Z) (data : list Z) : option (list Z) :=
  let rec_len := le16 (slice (prev + 4) 2 data) in
  store (prev + 4) (bytes16 ((rec_len + n) mod 2 ^ 16)) data.
(** The result is the buffer, the offset behind the entry, and where the entry is. *)
Definition add_dentry (data : list Z) (offset : Z) (prev : option Z) (inode : Z) (name : list Z) (file_type : Z) : option (list Z * Z * Z) :=
  let name_len := zlen name mod 256 in
  let rec_len := (8 + align4 name_len) mod 2 ^ 16 in
  let start_block := offset / bs in
  let end_block := u32 (offset + rec_len - 1) / bs in
  '(data, offset) ← (if negb (start_block =? end_block) then
      prev ← prev;
      data ← grow_entry prev (end_block * bs - offset) data;
      Some (data, u32 (end_block * bs))
    else Some (data, offset));
  data ← store offset (dir_entry_bytes inode rec_len name_len file_type) data;
  data ← store (offset + 8) (take (Z.to_nat name_len) name) data;
  Some (data, u32 (offset + rec_len), offset).

(** The entries of the directory: the buffer at [p], and the dentries with their places. *)
Fixpoint add_dentries (ds : list dentry) (p len : Z) (data : list Z) (offset prev : Z) : option (list Z * Z * Z * list dentry) :=
  match ds with
  | [] => Some (data, offset, prev, [])
  | d :: ds' =>
      '(data, offset, this) ← add_dentry data offset (Some prev) 0 (d_filename d) (d_file_type d);
      if (len <? offset) || ((offset =? len) && negb (bool_decide (ds' = []))) then None else
      '(data, offset, prev, ds') ← add_dentries ds' p len data offset this;
      Some (data, offset, prev, Dentry (d_filename d) (d_file_type d) (Some (p, this)) :: ds')
  end.
(** The entry at the end, which takes what is left of the last block. *)
Definition end_dentry (data : list Z) (offset prev len : Z) : option (list Z) :=
  let start_block := offset / bs in
  let end_block := u32 (offset + REC_LEN_FOR_END - 1) / bs in
  '(data, offset) ← (if negb (start_block =? end_block) then
      data ← grow_entry prev (end_block * bs - offset) data; Some (data, u32 (end_block * bs))
    else Some (data, offset));
  store offset (dir_entry_bytes 0 ((len - offset) mod 2 ^ 16) 0 EXT4_FT_UNKNOWN) data.
Definition fill_directory (p len inode_num dir_inode_num : Z) (ds : list dentry) (data : list Z) : option (list Z * list dentry) :=
  '(data, offset, prev) ← add_dentry data 0 None inode_num [46] EXT4_FT_DIR;
  '(data, offset, prev) ← add_dentry data offset (Some prev) dir_inode_num [46; 46] EXT4_FT_DIR;
  '(data, offset, prev, ds) ← add_dentries ds p len data offset prev;
  data ← end_dentry data offset prev len;
  Some (data, ds).

Definition set_mode (mode links flags : Z) (i : ext4_inode) : ext4_inode :=
  Inode mode (i_uid i) (i_size_lo i) (i_atime i) (i_ctime i) (i_mtime i) (i_gid i) links (i_blocks_lo i)
    (Z.lor (i_flags i) flags) (i_block i) (i_size_high i) (l_i_blocks_high i).
(** The inode number, and the dentries with the places of their inode numbers. *)
Definition make_directory (dir_inode_num : Z) (ds : list dentry) (dirs : Z) (m : image_state) : option (Z * list dentry * image_state) :=
  let blocks := u32 (dentry_size ds + bs - 1) / bs in
  let len := u32 (blocks * bs) in
  '(inode_num, dir_inode_num, s) ← (if negb (dir_inode_num =? 0) then '(n, s) ← allocate_inode g (fs m); Some (n, dir_inode_num, s)
                                    else Some (EXT4_ROOT_INO, EXT4_ROOT_INO, fs m));
  if inode_num =? EXT4_ALLOCATE_FAILED then None else
  s ← add_directory g inode_num s;
  '(inode, s) ← get_inode g inode_num s;
  '(data, m) ← inode_allocate_data_extents g fuel inode len len (set_fs s m);
  p ← data;
  let m := put_inode inode (set_mode S_IFDIR ((dirs + 2) mod 2 ^ 16) EXT4_NOATIME_FL (inode_at m inode)) m in
  buf ← bufs m !! p;
  '(buf, ds) ← fill_directory p len inode_num dir_inode_num ds buf;
  Some (inode_num, ds, put_buf p buf m).
(** [*dentries[i].inode = n]. *)
Definition set_entry_inode (d : dentry) (n : Z) (m : image_state) : option image_state :=
  '(p, o) ← d_inode d; buf ← bufs m !! p; buf ← store o (bytes32 n) buf; Some (put_buf p buf m).

(** ** Files and links *)
Definition make_file (filename : nat) (len : Z) (m : image_state) : option (Z * image_state) :=
  '(inode_num, s) ← allocate_inode g (fs m);
  if inode_num =? EXT4_ALLOCATE_FAILED then None else
  '(inode, s) ← get_inode g inode_num s;
  m ← (if 0 <? len then inode_allocate_file_extents g fuel inode len filename (set_fs s m) else Some (set_fs s m));
  Some (inode_num, put_inode inode (set_mode S_IFREG 1 EXT4_NOATIME_FL (inode_at m inode)) m).
Definition set_size_lo (n : Z) (i : ext4_inode) : ext4_inode :=
  Inode (i_mode i) (i_uid i) n (i_atime i) (i_ctime i) (i_mtime i) (i_gid i) (i_links_count i) (i_blocks_lo i) (i_flags i) (i_block i) (i_size_high i) (l_i_blocks_high i).
Definition set_blocks_lo (n : Z) (i : ext4_inode) : ext4_inode :=
  Inode (i_mode i) (i_uid i) (i_size_lo i) (i_atime i) (i_ctime i) (i_mtime i) (i_gid i) (i_links_count i) n (i_flags i) (i_block i) (i_size_high i) (l_i_blocks_high i).
Definition make_link (link : list Z) (m : image_state) : option (Z * image_state) :=
  let len := zlen link in
  '(inode_num, s) ← allocate_inode g (fs m);
  if inode_num =? EXT4_ALLOCATE_FAILED then None else
  '(inode, s) ← get_inode g inode_num s;
  let m := set_fs s m in
  let m := put_inode inode (set_size_lo (u32 len) (set_mode S_IFLNK 1 EXT4_NOATIME_FL (inode_at m inode))) m in
  if len + 1 <=? 60 then
    b ← store 0 link (i_block (inode_at m inode));
    Some (inode_num, put_inode inode (set_i_block b (inode_at m inode)) m)
  else
    '(data, m) ← inode_allocate_data_indirect g fuel bs bs m;
    p ← data;
    buf ← bufs m !! p;
    buf ← store 0 link buf;
    let m := put_buf p buf m in
    Some (inode_num, put_inode inode (set_blocks_lo (bs / 512) (inode_at m inode)) m).

Definition inode_set_permissions (inode_num mode uid gid mtime : Z) (m : image_state) : option image_state :=
  '(inode, s) ← get_inode g inode_num (fs m);
  let m := set_fs s m in
  let i := inode_at m inode in
  Some (put_inode inode (Inode (Z.lor (i_mode i) mode) uid (i_size_lo i) mtime mtime mtime gid (i_links_count i) (i_blocks_lo i)
    (i_flags i) (i_block i) (i_size_high i) (l_i_blocks_high i)) m).
End Contents.
