(* ===== verification/Dir.v ===== *)
(** * A directory is read as it was written

    A reader of directories, as a kernel has one: it goes from entry to entry by their
    lengths, and an entry that crosses a block is an error.  What [make_directory] writes
    is read by it as the entries, and the size it computed first is exactly used up. *)
From stdpp Require Import base gmap list.
From Stdlib Require Import ZArith Lia.
From S2P Require Import Prelude Crc SparseFormat Backed Alloc AllocInv Extent ExtentSpec Contents.
#[local] Open Scope Z_scope.

(** ** Buffers piece by piece *)
Lemma overlay_mid {A} o (a b c r : list A) : o = zlen a -> length b = length c -> overlay o b (a ++ c ++ r) = a ++ b ++ r.
Proof.
  intros -> Hl. unfold overlay, zlen. rewrite Nat2Z.id, take_app_length, Hl. f_equal. f_equal.
  by rewrite app_assoc, <- length_app, drop_app_length.
Qed.
Lemma store_mid o (a b c r : list Z) : o = zlen a -> length b = length c -> store o b (a ++ c ++ r) = Some (a ++ b ++ r).
Proof.
  intros Ho Hl. pose proof (zlen_nonneg a). rewrite store_ok; [by rewrite (overlay_mid o a b c r) | lia |]. rewrite Ho, !zlen_app. unfold zlen. rewrite Hl. lia.
Qed.
Lemma slice_mid {A} o n (a c r : list A) : o = zlen a -> n = zlen c -> slice o n (a ++ c ++ r) = c.
Proof. intros -> ->. unfold slice, zlen. by rewrite !Nat2Z.id, drop_app_length, take_app_length. Qed.
Lemma zeros_split a b : 0 <= a -> 0 <= b -> zeros (a + b) = zeros a ++ zeros b.
Proof. intros Ha Hb. unfold zeros. rewrite Z2Nat.inj_add by lia. apply replicate_add. Qed.
Lemma zlen_zeros n : 0 <= n -> zlen (zeros n) = n.
Proof. intros Hn. unfold zlen, zeros. rewrite length_replicate. lia. Qed.

(** ** Entries *)
Record entry := Entry { n_inode : Z; n_type : Z; n_name : list Z; n_rec : Z }.
Definition entry_bytes (e : entry) : list Z :=
  dir_entry_bytes (n_inode e) (n_rec e) (zlen (n_name e)) (n_type e) ++ n_name e ++ zeros (n_rec e - 8 - zlen (n_name e)).
Definition entries_bytes (es : list entry) : list Z := concat (entry_bytes <$> es).
Definition entry_ok (e : entry) : Prop :=
  0 <= n_inode e < 2 ^ 32 ∧ 0 <= n_type e < 256 ∧ zlen (n_name e) < 256 ∧ 8 + zlen (n_name e) <= n_rec e < 2 ^ 16.
Lemma entry_zlen e : entry_ok e -> zlen (entry_bytes e) = n_rec e.
Proof.
  intros (_ & _ & _ & H). unfold entry_bytes. rewrite !zlen_app, zlen_zeros by lia. change (zlen (dir_entry_bytes _ _ _ _)) with 8. lia.
Qed.
Lemma entries_app es es' : entries_bytes (es ++ es') = entries_bytes es ++ entries_bytes es'.
Proof. unfold entries_bytes. by rewrite fmap_app, concat_app. Qed.
Lemma entries_one e : entries_bytes [e] = entry_bytes e.
Proof. apply app_nil_r. Qed.

(** The reader: inode, type and name. *)
Definition entry_at (data : list Z) (o : Z) : Z * Z * list Z * Z :=
  let name_len := byte_at (slice (o + 6) 1 data) 0 in
  (le32 (slice o 4 data), byte_at (slice (o + 7) 1 data) 0, slice (o + 8) name_len data, le16 (slice (o + 4) 2 data)).
Fixpoint read_dir (n : nat) (bs : Z) (data : list Z) (o : Z) : option (list (Z * Z * list Z)) :=
  if o =? zlen data then Some [] else
  match n with
  | O => None
  | S n =>
      let '(inode, type, name, rec_len) := entry_at data o in
      if (rec_len <? 8 + zlen name) || (zlen data <? o + rec_len) || negb (o / bs =? (o + rec_len - 1) / bs) then None else
      es ← read_dir n bs data (o + rec_len); Some ((inode, type, name) :: es)
  end.
Definition shown (e : entry) : Z * Z * list Z := (n_inode e, n_type e, n_name e).

Lemma entry_read a e r : entry_ok e -> entry_at (a ++ entry_bytes e ++ r) (zlen a) = (shown e, n_rec e).
Proof.
  intros (H1 & H2 & H3 & H4). pose proof (zlen_nonneg (n_name e)). destruct e as [i t nm rl]. cbn [n_inode n_type n_name n_rec] in *.
  set (pad := zeros (rl - 8 - zlen nm) ++ r).
  assert (E : a ++ entry_bytes (Entry i t nm rl) ++ r = a ++ bytes32 i ++ bytes16 rl ++ [zlen nm mod 256] ++ [t mod 256] ++ nm ++ pad).
  { unfold entry_bytes, dir_entry_bytes, pad. cbn [n_inode n_type n_name n_rec]. rewrite <- !app_assoc. done. }
  rewrite E. unfold entry_at, shown. cbn [n_inode n_type n_name].
  assert (E4 : slice (zlen a) 4 (a ++ bytes32 i ++ bytes16 rl ++ [zlen nm mod 256] ++ [t mod 256] ++ nm ++ pad) = bytes32 i) by (by apply slice_mid).
  assert (E2 : slice (zlen a + 4) 2 (a ++ bytes32 i ++ bytes16 rl ++ [zlen nm mod 256] ++ [t mod 256] ++ nm ++ pad) = bytes16 rl).
  { rewrite (app_assoc a). apply slice_mid; [rewrite zlen_app | ]; done. }
  assert (E1 : slice (zlen a + 6) 1 (a ++ bytes32 i ++ bytes16 rl ++ [zlen nm mod 256] ++ [t mod 256] ++ nm ++ pad) = [zlen nm mod 256]).
  { rewrite (app_assoc a), (app_assoc (a ++ _)). apply slice_mid; [rewrite !zlen_app; change (zlen (bytes32 i)) with 4; change (zlen (bytes16 rl)) with 2; lia | done]. }
  assert (E0 : slice (zlen a + 7) 1 (a ++ bytes32 i ++ bytes16 rl ++ [zlen nm mod 256] ++ [t mod 256] ++ nm ++ pad) = [t mod 256]).
  { rewrite (app_assoc a), (app_assoc (a ++ _)), (app_assoc ((a ++ _) ++ _)). apply slice_mid; [|done]. rewrite !zlen_app. change (zlen (bytes32 i)) with 4. change (zlen (bytes16 rl)) with 2. change (zlen [_]) with 1. lia. }
  assert (E8 : slice (zlen a + 8) (zlen nm) (a ++ bytes32 i ++ bytes16 rl ++ [zlen nm mod 256] ++ [t mod 256] ++ nm ++ pad) = nm).
  { replace (a ++ bytes32 i ++ bytes16 rl ++ [zlen nm mod 256] ++ [t mod 256] ++ nm ++ pad) with ((a ++ bytes32 i ++ bytes16 rl ++ [zlen nm mod 256] ++ [t mod 256]) ++ nm ++ pad) by (by rewrite <- !app_assoc).
    apply slice_mid; [|done]. by rewrite zlen_app. }
  rewrite E4, E2, E1, E0. change (byte_at [?x] 0) with x. rewrite (Z.mod_small (zlen nm)), (Z.mod_small t) in * by lia. rewrite E8.
  replace (bytes32 i) with (bytes32 i ++ []) by apply app_nil_r. replace (bytes16 rl) with (bytes16 rl ++ []) by apply app_nil_r. by rewrite le32_bytes32, le16_bytes16 by lia.
Qed.
(** The entries do not cross a block. *)
Fixpoint in_blocks (bs o : Z) (es : list entry) : Prop :=
  match es with [] => True | e :: es => o mod bs + n_rec e <= bs ∧ in_blocks bs (o + n_rec e) es end.
Lemma in_blocks_app bs o es es' : Forall entry_ok es -> in_blocks bs o (es ++ es') <-> in_blocks bs o es ∧ in_blocks bs (o + zlen (entries_bytes es)) es'.
Proof.
  intros H. revert o. induction H as [|e es He _ IH]; intros o.
  - cbn. change (zlen (entries_bytes [])) with 0. rewrite Z.add_0_r. tauto.
  - cbn [app in_blocks]. rewrite IH. change (entries_bytes (e :: es)) with (entry_bytes e ++ entries_bytes es). rewrite zlen_app, (entry_zlen e He), Z.add_assoc. tauto.
Qed.
Lemma same_block bs o n : 0 < bs -> 0 <= o -> 0 < n -> o mod bs + n <= bs <-> o / bs = (o + n - 1) / bs.
Proof.
  intros Hb Ho Hn. pose proof (Z.div_mod o bs). pose proof (Z.mod_pos_bound o bs). pose proof (Z.div_mod (o + n - 1) bs). pose proof (Z.mod_pos_bound (o + n - 1) bs). split.
  - intros Hle. apply (Z.div_unique _ _ _ (o mod bs + n - 1)); lia.
  - intros E. rewrite <- E in *. lia.
Qed.
Lemma read_entries n bs a es : 0 < bs -> Forall entry_ok es -> in_blocks bs (zlen a) es -> (length es <= n)%nat ->
  read_dir n bs (a ++ entries_bytes es) (zlen a) = Some (shown <$> es).
Proof.
  intros Hbs Hok. revert n a. induction Hok as [|e es He Hok IH]; intros n a Hin Hn.
  - unfold entries_bytes. cbn. rewrite app_nil_r. destruct n; cbn; by rewrite Z.eqb_refl.
  - destruct n as [|n]; [cbn in Hn; lia|]. destruct Hin as [Hin1 Hin2]. change (e :: es) with ([e] ++ es). rewrite entries_app, entries_one. pose proof (entry_zlen e He) as Hl. pose proof (zlen_nonneg a).
    pose proof (zlen_nonneg (entries_bytes es)). pose proof He as (_ & _ & _ & Hrec). pose proof (zlen_nonneg (n_name e)). cbn [read_dir].
    rewrite (proj2 (Z.eqb_neq _ _)) by (rewrite !zlen_app; lia). rewrite entry_read by done. cbn [shown].
    rewrite (proj2 (Z.ltb_ge _ _)) by lia. rewrite (proj2 (Z.ltb_ge (zlen _) _)) by (rewrite !zlen_app; lia). cbn [orb].
    rewrite (proj1 (same_block bs (zlen a) (n_rec e) Hbs ltac:(lia) ltac:(lia)) Hin1), Z.eqb_refl. cbn [negb]. rewrite app_assoc.
    replace (zlen a + n_rec e) with (zlen (a ++ entry_bytes e)) by (rewrite zlen_app; lia). rewrite IH; [done | rewrite zlen_app, Hl; done | cbn in Hn; lia].
Qed.

(** ** Writing *)
Section Write.
Context (g : geom) (Hbs : 1024 <= blk_size g <= 4096).
Notation bs := (blk_size g).

(** What is left out in front of an entry of [n] bytes, and where it ends. *)
Definition entry_gap (o n : Z) : Z := if bs <? o mod bs + n then bs - o mod bs else 0.
Definition entry_end (o n : Z) : Z := o + entry_gap o n + n.
Definition rec_of (name : list Z) : Z := 8 + align4 (zlen name).
Definition grow (n : Z) (e : entry) : entry := Entry (n_inode e) (n_type e) (n_name e) (n_rec e + n).
(** The buffer: the entries, the last of them apart, and zeros. *)
Definition dir_data (body : list entry) (fin : entry) (k : Z) : list Z := entries_bytes body ++ entry_bytes fin ++ zeros k.

Lemma gap_range o n : 0 <= entry_gap o n <= bs.
Proof. unfold entry_gap. pose proof (Z.mod_pos_bound o bs). case_match; lia. Qed.
Lemma rec_range name : zlen name < 256 -> 8 + zlen name <= rec_of name <= 264.
Proof. intros Hn. pose proof (zlen_nonneg name). unfold rec_of, align4. pose proof (Z.div_mod (zlen name + 4 - 1) 4). pose proof (Z.mod_pos_bound (zlen name + 4 - 1) 4). lia. Qed.
Lemma gap_spec o n : 0 <= o -> 0 < n <= bs ->
  negb (o / bs =? (o + n - 1) / bs) = (bs <? o mod bs + n) ∧ ((bs <? o mod bs + n) = true -> (o + n - 1) / bs * bs = o + entry_gap o n) ∧
  (o + entry_gap o n) mod bs + n <= bs ∧ (0 < entry_gap o n -> 0 < o mod bs ∧ (bs <? o mod bs + n) = true).
Proof.
  intros Ho Hn. pose proof (same_block bs o n ltac:(lia) Ho ltac:(lia)) as Hsb. pose proof (Z.div_mod o bs). pose proof (Z.mod_pos_bound o bs). unfold entry_gap.
  destruct (Z.ltb_spec bs (o mod bs + n)) as [Hlt|Hge].
  - assert (E : (o + n - 1) / bs = o / bs + 1) by (symmetry; apply (Z.div_unique _ _ _ (o mod bs + n - 1 - bs)); lia). rewrite E. split_and!.
    + apply negb_true_iff, Z.eqb_neq. lia.
    + intros _. lia.
    + replace (o + (bs - o mod bs)) with ((o / bs + 1) * bs) by lia. rewrite Z.mod_mul by lia. lia.
    + intros _. split; [lia | done].
  - rewrite <- (proj1 Hsb ltac:(lia)), Z.eqb_refl. split_and!; [done | done | rewrite Z.add_0_r; lia | lia].
Qed.

Lemma grow_entry_ok body fin k n : entry_ok fin -> 0 <= n <= k -> n_rec fin + n < 2 ^ 16 ->
  grow_entry (zlen (entries_bytes body)) n (dir_data body fin k) = Some (dir_data body (grow n fin) (k - n)) ∧ entry_ok (grow n fin).
Proof.
  intros (H1 & H2 & H3 & H4) Hn Hr. pose proof (zlen_nonneg (n_name fin)). split; [|split_and!; cbn; try done; lia].
  set (A := entries_bytes body ++ bytes32 (n_inode fin)). set (R := [zlen (n_name fin) mod 256; n_type fin mod 256] ++ n_name fin ++ zeros (n_rec fin - 8 - zlen (n_name fin) + k)).
  assert (E : ∀ rl j, 8 + zlen (n_name fin) <= rl -> 0 <= j -> rl + j = n_rec fin + k -> dir_data body (Entry (n_inode fin) (n_type fin) (n_name fin) rl) j = A ++ bytes16 rl ++ R).
  { intros rl j Hrl Hj Ej. unfold dir_data, entry_bytes, dir_entry_bytes, A, R. cbn [n_inode n_type n_name n_rec].
    replace (n_rec fin - 8 - zlen (n_name fin) + k) with ((rl - 8 - zlen (n_name fin)) + j) by lia. rewrite zeros_split by lia. by rewrite <- !app_assoc. }
  assert (EA : zlen A = zlen (entries_bytes body) + 4) by (unfold A; rewrite zlen_app; done).
  replace (dir_data body fin k) with (A ++ bytes16 (n_rec fin) ++ R) by (rewrite <- (E (n_rec fin) k) by lia; by destruct fin).
  unfold grow_entry. rewrite (slice_mid _ 2 A (bytes16 (n_rec fin)) R) by done.
  replace (bytes16 (n_rec fin)) with (bytes16 (n_rec fin) ++ []) at 1 by apply app_nil_r. rewrite le16_bytes16 by lia. rewrite (Z.mod_small (n_rec fin + n)) by lia.
  rewrite (store_mid _ A _ (bytes16 (n_rec fin))) by done. f_equal. symmetry. apply E; lia.
Qed.
Lemma put_entry_ok body k ino name ty n : 0 <= ino < 2 ^ 32 -> 0 <= ty < 256 -> zlen name < 256 -> n = rec_of name -> n <= k ->
  (data ← store (zlen (entries_bytes body)) (dir_entry_bytes ino n (zlen name) ty) (entries_bytes body ++ zeros k);
   store (zlen (entries_bytes body) + 8) name data) = Some (dir_data body (Entry ino ty name n) (k - n)) ∧ entry_ok (Entry ino ty name n).
Proof.
  intros Hi Ht Hn -> Hk. pose proof (rec_range name Hn). pose proof (zlen_nonneg name). split; [|split_and!; cbn; try done; lia].
  replace k with (8 + (zlen name + (rec_of name - 8 - zlen name + (k - rec_of name)))) at 1 by lia. rewrite !zeros_split by lia.
  rewrite (store_mid _ (entries_bytes body) _ (zeros 8)) by done. cbn [mbind option_bind]. rewrite app_assoc.
  rewrite (store_mid _ (entries_bytes body ++ dir_entry_bytes ino (rec_of name) (zlen name) ty) name (zeros (zlen name))).
  - unfold dir_data, entry_bytes. cbn [n_inode n_type n_name n_rec]. by rewrite <- !app_assoc.
  - by rewrite zlen_app.
  - unfold zeros, zlen. rewrite length_replicate. lia.
Qed.
(** The entry before is made longer when the next one would cross a block. *)
Lemma make_room body fin k n : Forall entry_ok body -> entry_ok fin -> in_blocks bs 0 (body ++ [fin]) -> 0 < n <= bs ->
  let o := zlen (entries_bytes (body ++ [fin])) in entry_gap o n + n <= k -> o + k < 2 ^ 32 -> let fin1 := grow (entry_gap o n) fin in
  (if negb (o / bs =? u32 (o + n - 1) / bs) then
     data ← grow_entry (zlen (entries_bytes body)) (u32 (o + n - 1) / bs * bs - o) (dir_data body fin k); Some (data, u32 (u32 (o + n - 1) / bs * bs))
   else Some (dir_data body fin k, o)) = Some (dir_data body fin1 (k - entry_gap o n), o + entry_gap o n) ∧
  Forall entry_ok (body ++ [fin1]) ∧ in_blocks bs 0 (body ++ [fin1]) ∧ zlen (entries_bytes (body ++ [fin1])) = o + entry_gap o n ∧ (o + entry_gap o n) mod bs + n <= bs.
Proof.
  intros Hok Hfin Hin Hn o Hk Hmax fin1. assert (Ho : o = zlen (entries_bytes body) + n_rec fin) by (unfold o; rewrite entries_app, zlen_app, entries_one, entry_zlen; done).
  pose proof (zlen_nonneg (entries_bytes body)). pose proof Hfin as (_ & _ & _ & Hfr). pose proof (zlen_nonneg (n_name fin)). pose proof (gap_range o n).
  destruct (gap_spec o n ltac:(lia) ltac:(lia)) as (G1 & G2 & G3 & G4). apply in_blocks_app in Hin as [Hin1 [Hin2 _]]; [|done]. rewrite Z.add_0_l in Hin2.
  pose proof (Z.mod_pos_bound (zlen (entries_bytes body)) bs ltac:(lia)) as Hmb.
  assert (Hgap : zlen (entries_bytes body) mod bs + n_rec fin + entry_gap o n <= bs).
  { destruct (decide (entry_gap o n = 0)) as [->|Hg0]; [lia|]. destruct (G4 ltac:(lia)) as [Hm Hb]. unfold entry_gap in *. rewrite Hb in *. pose proof (Z.div_mod (zlen (entries_bytes body)) bs).
    assert (o mod bs = zlen (entries_bytes body) mod bs + n_rec fin); [|lia].
    destruct (decide (zlen (entries_bytes body) mod bs + n_rec fin = bs)) as [Eb|Nb].
    - exfalso. assert (o mod bs = 0); [|lia]. symmetry. apply (Z.mod_unique _ _ (zlen (entries_bytes body) / bs + 1)); lia.
    - symmetry. apply (Z.mod_unique _ _ (zlen (entries_bytes body) / bs)); lia. }
  destruct (grow_entry_ok body fin k (entry_gap o n) Hfin ltac:(lia) ltac:(lia)) as [Eg Hg1].
  assert (Hok1 : Forall entry_ok (body ++ [fin1])) by (apply Forall_app; split; [done | by constructor]).
  split; [|split; [done|split; [|split; [|done]]]].
  - rewrite (u32_small (o + n - 1)) by lia. rewrite G1. destruct (bs <? o mod bs + n) eqn:Eb.
    + rewrite G2 by done. replace (o + entry_gap o n - o) with (entry_gap o n) by lia. rewrite Eg. cbn [mbind option_bind]. by rewrite (u32_small (o + entry_gap o n)) by lia.
    + assert (Eg0 : entry_gap o n = 0) by (unfold entry_gap; by rewrite Eb). unfold fin1, grow. rewrite Eg0, !Z.add_0_r, Z.sub_0_r. by destruct fin.
  - rewrite in_blocks_app by done. rewrite Z.add_0_l. split; [done|]. split; [cbn; lia | done].
  - rewrite entries_app, zlen_app, entries_one, entry_zlen by done. cbn. lia.
Qed.
Lemma add_dentry_ok body fin k ino name ty : Forall entry_ok body -> entry_ok fin -> in_blocks bs 0 (body ++ [fin]) ->
  0 <= ino < 2 ^ 32 -> 0 <= ty < 256 -> zlen name < 256 ->
  let o := zlen (entries_bytes (body ++ [fin])) in let n := rec_of name in
  entry_gap o n + n <= k -> o + k < 2 ^ 32 ->
  let fin1 := grow (entry_gap o n) fin in let new := Entry ino ty name n in
  add_dentry g (dir_data body fin k) o (Some (zlen (entries_bytes body))) ino name ty =
    Some (dir_data (body ++ [fin1]) new (k - entry_gap o n - n), entry_end o n, o + entry_gap o n) ∧
  Forall entry_ok (body ++ [fin1]) ∧ entry_ok new ∧ in_blocks bs 0 ((body ++ [fin1]) ++ [new]) ∧
  zlen (entries_bytes (body ++ [fin1])) = o + entry_gap o n ∧ zlen (entries_bytes ((body ++ [fin1]) ++ [new])) = entry_end o n.
Proof.
  intros Hok Hfin Hin Hi Ht Hn o n Hk Hmax fin1 new. pose proof (rec_range name Hn) as Hrec. fold n in Hrec. pose proof (zlen_nonneg name). pose proof (gap_range o n).
  destruct (make_room body fin k n Hok Hfin Hin ltac:(lia) Hk Hmax) as (Er & Hok1 & Hin1 & Hz1 & G3). fold o fin1 in Er, Hok1, Hin1, Hz1, G3. assert (Ho : 0 <= o) by apply zlen_nonneg.
  destruct (put_entry_ok (body ++ [fin1]) (k - entry_gap o n) ino name ty n Hi Ht Hn eq_refl ltac:(lia)) as [Ep Hnew].
  split; [|split; [done|split; [done|split; [|split; [done|]]]]].
  - unfold add_dentry. rewrite (Z.mod_small (zlen name)) by lia. fold (rec_of name). fold n. rewrite (Z.mod_small n) by lia. cbn [mbind option_bind]. cbn [mbind option_bind] in Er. rewrite Er. cbn [mbind option_bind].
    replace (take (Z.to_nat (zlen name)) name) with name by (rewrite take_ge; [done | unfold zlen; lia]).
    assert (Ed : dir_data body fin1 (k - entry_gap o n) = entries_bytes (body ++ [fin1]) ++ zeros (k - entry_gap o n)) by (unfold dir_data; by rewrite entries_app, entries_one, <- app_assoc).
    rewrite Hz1 in Ep. rewrite Ed. destruct (store (o + entry_gap o n) _ _) as [d1|]; [|done]. cbn [mbind option_bind] in Ep |- *. rewrite Ep. cbn [mbind option_bind]. unfold entry_end. by rewrite u32_small by lia.
  - rewrite in_blocks_app by done. rewrite Hz1, Z.add_0_l. split; [done|]. split; [exact G3 | done].
  - rewrite entries_app, zlen_app, Hz1, entries_one, entry_zlen by done. done.
Qed.

(** ** All the entries *)
Definition dir_end (o : Z) (ds : list dentry) : Z := foldl (fun o d => entry_end o (rec_of (d_filename d))) o ds.
Definition dentry_ok (d : dentry) : Prop := zlen (d_filename d) < 256 ∧ 0 <= d_file_type d < 256.
Lemma next_range o n : 0 <= n -> o + n <= entry_end o n <= o + bs + n.
Proof. intros Hn. unfold entry_end. pose proof (gap_range o n). lia. Qed.
Lemma dir_end_range o ds : Forall dentry_ok ds -> o <= dir_end o ds <= o + (bs + 264) * zlen ds.
Proof.
  intros H. revert o. induction H as [|d ds [Hd _] _ IH]; intros o; [unfold zlen; cbn; lia|]. cbn [dir_end foldl]. pose proof (rec_range _ Hd). pose proof (zlen_nonneg (d_filename d)).
  pose proof (next_range o (rec_of (d_filename d)) ltac:(lia)). specialize (IH (entry_end o (rec_of (d_filename d)))). unfold dir_end in IH. assert (zlen (d :: ds) = 1 + zlen ds) as -> by (unfold zlen; cbn; lia). lia.
Qed.
Lemma round_next o n : 0 <= o -> 0 <= n -> o + bs + n < 2 ^ 32 -> u32 (round_block g o n + n) = entry_end o n.
Proof.
  intros Ho Hn Hm. pose proof (gap_range o n). pose proof (Z.mod_pos_bound o bs). unfold round_block, entry_end, entry_gap in *. case_match; [rewrite (u32_small (o + _)) by lia|]; rewrite u32_small; lia.
Qed.
Lemma dentry_size_end o ds : 0 <= o -> Forall dentry_ok ds -> o + (bs + 264) * zlen ds < 2 ^ 32 -> dentry_size_from g o ds = dir_end o ds.
Proof.
  intros Ho H. revert o Ho. induction H as [|d ds [Hd Ht] Hds IH]; intros o Ho Hm; [done|]. pose proof (rec_range _ Hd). pose proof (zlen_nonneg (d_filename d)). pose proof (zlen_nonneg ds).
  assert (Hz : zlen (d :: ds) = 1 + zlen ds) by (unfold zlen; cbn; lia). rewrite Hz in Hm. pose proof (next_range o (rec_of (d_filename d)) ltac:(lia)).
  unfold dentry_size_from, dir_end in *. cbn [foldl]. fold (rec_of (d_filename d)). rewrite round_next by lia. apply IH; lia.
Qed.
(** The places that are kept: each is that of an entry. *)
Fixpoint dplaced (p o : Z) (es : list entry) (ds : list dentry) : Prop :=
  match es, ds with
  | [], [] => True
  | e :: es, d :: ds => d_inode d = Some (p, o) ∧ dplaced p (o + n_rec e) es ds
  | _, _ => False
  end.
Definition entry_of (d : dentry) : Z * Z * list Z := (0, d_file_type d, d_filename d).
Lemma shown_grow n e : shown (grow n e) = shown e.
Proof. done. Qed.
Lemma add_dentries_ok ds p len body fin k : Forall dentry_ok ds -> Forall entry_ok body -> entry_ok fin -> in_blocks bs 0 (body ++ [fin]) ->
  let o := zlen (entries_bytes (body ++ [fin])) in
  o + k = len -> dir_end o ds + 8 <= len -> len < 2 ^ 32 ->
  ∃ body' fin' ds' fin1 news, add_dentries g ds p len (dir_data body fin k) o (zlen (entries_bytes body)) =
      Some (dir_data body' fin' (len - dir_end o ds), dir_end o ds, zlen (entries_bytes body'), ds') ∧
    Forall entry_ok body' ∧ entry_ok fin' ∧ in_blocks bs 0 (body' ++ [fin']) ∧ zlen (entries_bytes (body' ++ [fin'])) = dir_end o ds ∧
    body' ++ [fin'] = body ++ fin1 :: news ∧ shown fin1 = shown fin ∧ shown <$> news = entry_of <$> ds ∧
    dplaced p (zlen (entries_bytes (body ++ [fin1]))) news ds'.
Proof.
  intros Hds. revert body fin k. induction Hds as [|d ds [Hd1 Hd2] Hds IH]; intros body fin k Hok Hfin Hin o Hk Hend Hmax.
  - exists body, fin, [], fin, []. cbn [add_dentries dir_end foldl]. replace (len - o) with k by lia. by split_and!.
  - cbn [dir_end foldl] in Hend. set (n := rec_of (d_filename d)) in *. pose proof (rec_range _ Hd1) as Hrec. fold n in Hrec. pose proof (zlen_nonneg (d_filename d)).
    pose proof (dir_end_range (entry_end o n) ds Hds) as Hmono. unfold dir_end in Hmono. assert (Hnx : entry_end o n = o + entry_gap o n + n) by done. assert (Ho : 0 <= o) by apply zlen_nonneg.
    destruct (add_dentry_ok body fin k 0 (d_filename d) (d_file_type d) Hok Hfin Hin ltac:(lia) Hd2 Hd1) as (Ea & Hok1 & Hnew & Hin1 & Hz1 & Hz2); [fold o n; lia | fold o; lia |].
    fold o n in Ea, Hok1, Hnew, Hin1, Hz1, Hz2. set (fin1 := grow (entry_gap o n) fin) in *. set (new := Entry 0 (d_file_type d) (d_filename d) n) in *.
    destruct (IH (body ++ [fin1]) new (k - entry_gap o n - n) Hok1 Hnew Hin1) as (body' & fin' & ds' & new1 & news & E & R1 & R2 & R3 & R4 & R5 & R6 & R7 & R8); [rewrite Hz2; lia | rewrite Hz2; exact Hend | done |].
    rewrite Hz2, Hz1 in E. exists body', fin', (Dentry (d_filename d) (d_file_type d) (Some (p, o + entry_gap o n)) :: ds'), fin1, (new1 :: news).
    split; [|split; [done|split; [done|split; [done|split; [|split; [|split; [done|split]]]]]]].
    + cbn [add_dentries]. rewrite Ea. cbn [mbind option_bind]. rewrite (proj2 (Z.ltb_ge _ _)) by lia. rewrite (proj2 (Z.eqb_neq _ _)) by lia. cbn [andb orb]. rewrite E. done.
    + by rewrite R4, Hz2.
    + rewrite R5. by rewrite <- app_assoc.
    + cbn [fmap list_fmap]. rewrite R6, R7. done.
    + cbn [dplaced d_inode]. rewrite Hz1. split; [done|]. replace (o + entry_gap o n + n_rec new1) with (zlen (entries_bytes ((body ++ [fin1]) ++ [new1]))); [exact R8|].
      assert (Hn1 : entry_ok new1).
      { assert (Hall : Forall entry_ok (body' ++ [fin'])) by (apply Forall_app; split; [done | by constructor]). rewrite R5 in Hall. apply Forall_app in Hall as [_ Hall]. by apply Forall_cons in Hall as [? _]. }
      rewrite entries_app, zlen_app, Hz1, entries_one, entry_zlen by done. done.
Qed.
Lemma end_dentry_ok body fin k len : Forall entry_ok body -> entry_ok fin -> in_blocks bs 0 (body ++ [fin]) ->
  let o := zlen (entries_bytes (body ++ [fin])) in
  o + k = len -> len < 2 ^ 32 -> (bs | len) -> entry_end o 8 <= len < entry_end o 8 + bs ->
  let fin1 := grow (entry_gap o 8) fin in let last := Entry 0 0 [] (len - (o + entry_gap o 8)) in
  end_dentry g (dir_data body fin k) o (zlen (entries_bytes body)) len = Some (entries_bytes ((body ++ [fin1]) ++ [last])) ∧
  Forall entry_ok ((body ++ [fin1]) ++ [last]) ∧ in_blocks bs 0 ((body ++ [fin1]) ++ [last]) ∧ zlen (entries_bytes ((body ++ [fin1]) ++ [last])) = len.
Proof.
  intros Hok Hfin Hin o Hk Hmax Hd Hlen fin1 last. assert (Hnx : entry_end o 8 = o + entry_gap o 8 + 8) by done. assert (Ho : 0 <= o) by apply zlen_nonneg. pose proof (gap_range o 8).
  assert (Hk8 : entry_gap o 8 + 8 <= k) by lia. assert (Hkm : o + k < 2 ^ 32) by lia.
  destruct (make_room body fin k 8 Hok Hfin Hin ltac:(lia) Hk8 Hkm) as (Er & Hok1 & Hin1 & Hz1 & G3). fold o fin1 in Er, Hok1, Hin1, Hz1, G3.
  assert (Hlast : (o + entry_gap o 8) mod bs + (len - (o + entry_gap o 8)) <= bs).
  { destruct Hd as [c ->]. pose proof (Z.div_mod (o + entry_gap o 8) bs). pose proof (Z.mod_pos_bound (o + entry_gap o 8) bs). assert (c = (o + entry_gap o 8) / bs + 1); [nia|lia]. }
  assert (Hlo : entry_ok last) by (pose proof (Z.mod_pos_bound (o + entry_gap o 8) bs ltac:(lia)); split_and!; cbn; change (zlen []) with 0; lia).
  split; [|split; [by apply Forall_app; split; [|constructor]|split]].
  - unfold end_dentry. change REC_LEN_FOR_END with 8. rewrite Er. cbn [mbind option_bind].
    assert (Ed : dir_data body fin1 (k - entry_gap o 8) = entries_bytes (body ++ [fin1]) ++ zeros 8 ++ zeros (len - (o + entry_gap o 8) - 8)).
    { rewrite <- zeros_split by lia. unfold dir_data. rewrite entries_app, entries_one, <- app_assoc. do 3 f_equal. lia. }
    destruct Hlo as (_ & _ & _ & Hlr). cbn in Hlr. change (zlen []) with 0 in Hlr.
    rewrite Ed, (Z.mod_small (len - (o + entry_gap o 8))) by lia. rewrite (store_mid _ (entries_bytes (body ++ [fin1])) _ (zeros 8)) by done. f_equal.
    rewrite (entries_app _ [last]), entries_one. unfold entry_bytes, last. cbn [n_inode n_type n_name n_rec]. change (zlen []) with 0. rewrite Z.sub_0_r. done.
  - rewrite in_blocks_app by done. rewrite Hz1, Z.add_0_l. split; [done|]. split; [exact Hlast | done].
  - rewrite entries_app, zlen_app, Hz1, entries_one, entry_zlen by done. cbn. lia.
Qed.

Lemma list_eq_nil_snoc {A} (l : list A) : l = [] ∨ ∃ l' x, l = l' ++ [x].
Proof. destruct l as [|x l] using rev_ind; [by left | right; by exists l, x]. Qed.
(** ** The directory *)
Definition dir_blocks (ds : list dentry) : Z := u32 (dentry_size g ds + bs - 1) / bs.
Definition dir_entries (inode_num dir_inode_num : Z) (ds : list (Z * Z * list Z)) : list (Z * Z * list Z) :=
  [(inode_num, EXT4_FT_DIR, [46]); (dir_inode_num, EXT4_FT_DIR, [46; 46])] ++ ds ++ [(0, EXT4_FT_UNKNOWN, [])].
Lemma size_end ds : Forall dentry_ok ds -> zlen ds <= 500000 ->
  let o := dir_end 24 ds in dentry_size g ds = entry_end o 8 ∧ 24 <= o ∧ entry_end o 8 + bs < 2 ^ 32 ∧
  entry_end o 8 <= dir_blocks ds * bs < entry_end o 8 + bs ∧ 0 < dir_blocks ds.
Proof.
  intros Hds Hn o. pose proof (dir_end_range 24 ds Hds) as Ho. fold o in Ho. pose proof (zlen_nonneg ds). pose proof (next_range o 8 ltac:(lia)).
  assert (Hm : (bs + 264) * zlen ds <= 4360 * 500000) by (apply Z.mul_le_mono_nonneg; lia).
  assert (E : dentry_size g ds = entry_end o 8) by (unfold dentry_size; rewrite dentry_size_end by (done || lia); fold o; apply round_next; lia).
  split; [done|]. split; [lia|]. split; [lia|]. unfold dir_blocks. rewrite E, u32_small by lia. pose proof (Z.div_mod (entry_end o 8 + bs - 1) bs). pose proof (Z.mod_pos_bound (entry_end o 8 + bs - 1) bs).
  split; [lia|]. apply Z.div_str_pos. lia.
Qed.
Lemma first_entry len n : 12 <= len -> 0 <= n < 2 ^ 32 ->
  add_dentry g (zeros len) 0 None n [46] EXT4_FT_DIR = Some (dir_data [] (Entry n EXT4_FT_DIR [46] 12) (len - 12), 12, 0) ∧ entry_ok (Entry n EXT4_FT_DIR [46] 12).
Proof.
  intros Hl Hn. destruct (put_entry_ok [] len n [46] EXT4_FT_DIR 12) as [Ep Hok]; [lia | done | done | done | done |]. split; [|done].
  change (entries_bytes [] ++ zeros len) with (zeros len) in Ep. change (zlen (entries_bytes [])) with 0 in Ep.
  unfold add_dentry. change (zlen [46] mod 256) with 1. change ((8 + align4 1) mod 2 ^ 16) with 12. change (u32 (0 + 12 - 1)) with 11. change (zlen [46]) with 1 in Ep.
  rewrite (Z.div_small 0), (Z.div_small 11) by lia. cbn [Z.eqb negb mbind option_bind]. destruct (store 0 _ (zeros len)) as [d1|]; [|done]. cbn [mbind option_bind] in Ep |- *.
  change (take (Z.to_nat 1) [46]) with [46]. rewrite Ep. done.
Qed.
Lemma fill_directory_ok p inode_num dir_inode_num ds : Forall dentry_ok ds -> zlen ds <= 500000 -> 0 <= inode_num < 2 ^ 32 -> 0 <= dir_inode_num < 2 ^ 32 ->
  let len := dir_blocks ds * bs in
  ∃ e1 e2 news last ds', fill_directory g p len inode_num dir_inode_num ds (zeros len) = Some (entries_bytes (e1 :: e2 :: news ++ [last]), ds') ∧
    zlen (entries_bytes (e1 :: e2 :: news ++ [last])) = len ∧ Forall entry_ok (e1 :: e2 :: news ++ [last]) ∧ in_blocks bs 0 (e1 :: e2 :: news ++ [last]) ∧
    shown e1 = (inode_num, EXT4_FT_DIR, [46]) ∧ shown e2 = (dir_inode_num, EXT4_FT_DIR, [46; 46]) ∧ shown last = (0, EXT4_FT_UNKNOWN, []) ∧
    shown <$> news = entry_of <$> ds ∧ dplaced p (zlen (entries_bytes [e1; e2])) news ds'.
Proof.
  intros Hds Hn Hi Hdi len. destruct (size_end ds Hds Hn) as (_ & Ho & Hmax & Hlen & _). fold len in Hlen. set (oend := dir_end 24 ds) in *. pose proof (next_range oend 8 ltac:(lia)). pose proof (dir_end_range 24 ds Hds) as Hmono.
  destruct (first_entry len inode_num ltac:(lia) Hi) as [E1 Hok1]. set (e1 := Entry inode_num EXT4_FT_DIR [46] 12) in *.
  assert (Hz1 : zlen (entries_bytes [e1]) = 12) by (rewrite entries_one; by apply entry_zlen).
  assert (Hg2 : entry_gap 12 12 = 0) by (unfold entry_gap; rewrite (Z.mod_small 12) by lia; by rewrite (proj2 (Z.ltb_ge _ _)) by lia).
  assert (Hin1 : in_blocks bs 0 ([] ++ [e1])) by (cbn; rewrite Z.mod_0_l by lia; lia).
  destruct (add_dentry_ok [] e1 (len - 12) dir_inode_num [46; 46] EXT4_FT_DIR) as (E2 & Hb2 & Hok2 & Hin2 & Hz2 & Hz3); [done | done | done | done | done | done | | |].
  { change (rec_of [46; 46]) with 12. cbn [app]. rewrite Hz1, Hg2. unfold entry_end in *. lia. }
  { cbn [app]. rewrite Hz1. lia. }
  change (rec_of [46; 46]) with 12 in *. cbn [app] in E2, Hb2, Hok2, Hin2, Hz2, Hz3. rewrite Hz1, Hg2 in *. unfold entry_end in Hz3, E2 at 1. rewrite Hg2 in *.
  set (f1 := grow 0 e1) in *. set (e2 := Entry dir_inode_num EXT4_FT_DIR [46; 46] 12) in *. change (12 + 0 + 12) with 24 in *. change (12 + 0) with 12 in *.
  destruct (add_dentries_ok ds p len [f1] e2 (len - 12 - 0 - 12) Hds Hb2 Hok2 Hin2) as (body' & fin' & ds' & fin1 & news & E3 & Hb3 & Hok3 & Hin3 & Hz4 & Elist & Hs1 & Hs2 & Hpl); [cbn [app]; rewrite Hz3; lia | cbn [app]; rewrite Hz3; fold oend; lia | lia |].
  cbn [app] in E3, Hz4, Elist. rewrite Hz3 in E3, Hz4. fold oend in E3, Hz4. rewrite Hz2 in E3.
  destruct (end_dentry_ok body' fin' (len - oend) len Hb3 Hok3 Hin3) as (E4 & Hb5 & Hin5 & Hz5); [lia | lia | by apply Z.divide_factor_r | rewrite Hz4; lia |]. rewrite Hz4 in *.
  set (g1 := grow (entry_gap oend 8) fin') in *. set (last := Entry 0 0 [] (len - (oend + entry_gap oend 8))) in *.
  assert (Hfinal : ∃ e2' news', body' ++ [g1] = f1 :: e2' :: news' ∧ shown e2' = shown e2 ∧ shown <$> news' = entry_of <$> ds ∧ dplaced p (zlen (entries_bytes [f1; e2'])) news' ds').
  { destruct (list_eq_nil_snoc news) as [->|(news0 & y & ->)].
    - apply (app_inj_tail _ [f1]) in Elist as [-> ->]. exists g1, []. split; [done|]. split; [exact Hs1|]. split; [done|]. by destruct ds'.
    - rewrite app_comm_cons, (app_comm_cons _ _ f1) in Elist. apply app_inj_tail in Elist as [-> ->]. exists fin1, (news0 ++ [g1]). split; [done|]. split; [done|]. split.
      + rewrite <- Hs2, !fmap_app. done.
      + change ([f1] ++ [fin1]) with [f1; fin1] in Hpl. clear -Hpl. revert Hpl. generalize (zlen (entries_bytes [f1; fin1])) as o. revert ds'. induction news0 as [|z news0 IH]; intros ds' o; destruct ds' as [|d ds']; cbn [app dplaced]; try done.
        intros [Hd Hr]. split; [done|]. by apply IH. }
  destruct Hfinal as (e2' & news' & Efin & S2 & Sn & Pn). rewrite Efin in *. exists f1, e2', news', last, ds'. cbn [app] in *.
  split; [|by split_and!]. unfold fill_directory. rewrite E1. cbn [mbind option_bind]. change (Some 0) with (Some (zlen (entries_bytes []))) at 1. rewrite E2. cbn [mbind option_bind].
  rewrite E3. cbn [mbind option_bind]. rewrite E4. done.
Qed.
End Write.

(** ** The inodes are filled in *)
Fixpoint set_entries (ds : list dentry) (ns : list Z) (m : image_state) : option image_state :=
  match ds, ns with
  | d :: ds, n :: ns => m ← set_entry_inode d n m; set_entries ds ns m
  | _, _ => Some m
  end.
Definition set_inode (n : Z) (e : entry) : entry := Entry n (n_type e) (n_name e) (n_rec e).
Lemma entry_store a e r n : store (zlen a) (bytes32 n) (a ++ entry_bytes e ++ r) = Some (a ++ entry_bytes (set_inode n e) ++ r).
Proof. unfold entry_bytes, dir_entry_bytes. rewrite <- !app_assoc. by rewrite (store_mid _ a _ (bytes32 (n_inode e))). Qed.
Lemma set_entries_ok p news ds pre post ns m : Forall entry_ok pre -> Forall entry_ok news -> dplaced p (zlen (entries_bytes pre)) news ds -> length ns = length news -> Forall (fun n => 0 <= n < 2 ^ 32) ns ->
  bufs m !! p = Some (entries_bytes (pre ++ news ++ post)) ->
  ∃ m', set_entries ds ns m = Some m' ∧ fs m' = fs m ∧ inodes m' = inodes m ∧
    bufs m' = <[p := entries_bytes (pre ++ zip_with (fun e n => set_inode n e) news ns ++ post)]> (bufs m).
Proof.
  intros Hpre Hnews. revert pre ds ns m Hpre. induction Hnews as [|e news He Hnews IH]; intros pre ds ns m Hpre Hpl Hn Hns Hb; destruct ds as [|d ds]; cbn [dplaced] in Hpl; try done.
  - exists m. split; [by destruct ns|]. cbn [app zip_with]. split; [done|]. split; [done|]. by rewrite insert_id.
  - destruct ns as [|n ns]; [done|]. destruct Hpl as [Hd Hpl]. apply Forall_cons in Hns as [Hn0 Hns]. cbn [set_entries]. unfold set_entry_inode. rewrite Hd. cbn [mbind option_bind]. rewrite Hb. cbn [mbind option_bind].
    cbn [app]. rewrite entries_app. change (entries_bytes (e :: ?l)) with (entry_bytes e ++ entries_bytes l). rewrite entry_store. cbn [mbind option_bind].
    assert (Hset : entry_ok (set_inode n e)) by (destruct He as [_ He]; split; [exact Hn0 | exact He]).
    destruct (IH (pre ++ [set_inode n e]) ds ns (put_buf p (entries_bytes pre ++ entry_bytes (set_inode n e) ++ entries_bytes (news ++ post)) m)) as (m' & E & E1 & E2 & E3).
    + apply Forall_app. split; [done|]. by constructor.
    + by rewrite entries_app, zlen_app, entries_one, (entry_zlen _ Hset).
    + cbn in Hn. lia.
    + done.
    + cbn [put_buf bufs]. rewrite lookup_insert_eq. f_equal. rewrite <- app_assoc, !entries_app. by rewrite entries_one.
    + exists m'. split; [done|]. split; [done|]. split; [done|]. rewrite E3. cbn. rewrite insert_insert_eq. by rewrite <- app_assoc.
Qed.

(** The bytes of the directory with its inodes filled in, as a reader sees them. *)
Definition named (d : dentry) (n : Z) : Z * Z * list Z := (n, d_file_type d, d_filename d).
Lemma shown_set news ds ns : shown <$> news = entry_of <$> ds -> shown <$> zip_with (fun e n => set_inode n e) news ns = zip_with named ds ns.
Proof.
  revert ds ns. induction news as [|e news IH]; intros [|d ds] ns; cbn [fmap list_fmap]; try done. intros [= E1 E2 E3 E]. destruct ns as [|n ns]; [done|].
  cbn. f_equal; [unfold shown, set_inode, named; cbn; congruence | by apply IH].
Qed.
Lemma zip_zlen news ns : Forall entry_ok news -> Forall (fun n => 0 <= n < 2 ^ 32) ns -> length ns = length news ->
  Forall entry_ok (zip_with (fun e n => set_inode n e) news ns) ∧ n_rec <$> zip_with (fun e n => set_inode n e) news ns = n_rec <$> news.
Proof.
  intros Hok. revert ns. induction Hok as [|e news [_ He] _ IH]; intros [|n ns] Hns Hl; try done. apply Forall_cons in Hns as [Hn Hns]. injection Hl as Hl. destruct (IH ns Hns Hl) as [I1 I2].
  cbn. split; [constructor; [split; [exact Hn | exact He] | done] | by f_equal].
Qed.
Lemma same_recs bs es es' o : n_rec <$> es = n_rec <$> es' -> Forall entry_ok es -> Forall entry_ok es' ->
  (in_blocks bs o es <-> in_blocks bs o es') ∧ zlen (entries_bytes es) = zlen (entries_bytes es').
Proof.
  revert es' o. induction es as [|e es IH]; intros [|e' es'] o; cbn [fmap list_fmap]; try done. intros [= E1 E2] [H1 H2]%Forall_cons [H1' H2']%Forall_cons.
  destruct (IH es' (o + n_rec e') E2 H2 H2') as [I1 I2]. change (entries_bytes (?x :: ?l)) with (entry_bytes x ++ entries_bytes l). rewrite !zlen_app, !entry_zlen by done. cbn [in_blocks]. rewrite E1, I1, I2. done.
Qed.
Lemma directory_ok g p inode_num dir_inode_num ds : 1024 <= blk_size g <= 4096 -> Forall dentry_ok ds -> zlen ds <= 500000 -> 0 <= inode_num < 2 ^ 32 -> 0 <= dir_inode_num < 2 ^ 32 ->
  let len := dir_blocks g ds * blk_size g in
  ∃ buf ds', fill_directory g p len inode_num dir_inode_num ds (zeros len) = Some (buf, ds') ∧ zlen buf = len ∧
    ∀ m ns, bufs m !! p = Some buf -> length ns = length ds -> Forall (fun n => 0 <= n < 2 ^ 32) ns ->
      ∃ m' buf', set_entries ds' ns m = Some m' ∧ fs m' = fs m ∧ inodes m' = inodes m ∧ bufs m' = <[p := buf']> (bufs m) ∧ zlen buf' = len ∧
        read_dir (length ds + 3) (blk_size g) buf' 0 = Some (dir_entries inode_num dir_inode_num (zip_with named ds ns)).
Proof.
  intros Hbs Hds Hn Hi Hdi len. destruct (fill_directory_ok g Hbs p inode_num dir_inode_num ds Hds Hn Hi Hdi) as (e1 & e2 & news & last & ds' & E & Hz & Hok & Hin & S1 & S2 & S3 & Sn & Hpl).
  eexists _, ds'. split; [exact E|]. split; [exact Hz|]. intros m ns Hb Hl Hns.
  pose proof Hok as (Hok1 & Hok2 & Hok3)%Forall_cons%(fun H => conj (proj1 H) (proj1 (Forall_cons _ _ _) (proj2 H))). apply Forall_app in Hok3 as [Hok3 Hok4].
  assert (Hnews : length ns = length news) by (apply (f_equal length) in Sn; rewrite !length_fmap in Sn; congruence).
  destruct (set_entries_ok p news ds' [e1; e2] [last] ns m) as (m' & Es & F1 & F2 & F3); [by (constructor; [exact Hok1|]; constructor; [exact Hok2|constructor]) | done | done | done | done | done |].
  destruct (zip_zlen news ns Hok3 Hns Hnews) as [Z1 Z2]. set (news' := zip_with (fun e n => set_inode n e) news ns) in *.
  assert (Hok' : Forall entry_ok ([e1; e2] ++ news' ++ [last])) by (constructor; [exact Hok1|]; constructor; [exact Hok2|]; by apply Forall_app).
  destruct (same_recs (blk_size g) ([e1; e2] ++ news' ++ [last]) (e1 :: e2 :: news ++ [last]) 0) as [Hsb Hsz]; [cbn [app fmap list_fmap]; do 2 f_equal; rewrite !fmap_app; by f_equal | done | done |].
  exists m', (entries_bytes ([e1; e2] ++ news' ++ [last])). split; [done|]. split; [done|]. split; [done|]. split; [done|]. split; [by rewrite Hsz|].
  change 0 with (zlen (@nil Z)). change (entries_bytes ([e1; e2] ++ news' ++ [last])) with ([] ++ entries_bytes ([e1; e2] ++ news' ++ [last])).
  rewrite read_entries; [|lia|done|by apply Hsb|].
  - cbn [app fmap list_fmap]. rewrite S1, S2, fmap_app. unfold news'. rewrite (shown_set news ds ns Sn). cbn [fmap list_fmap]. by rewrite S3.
  - rewrite !length_app. unfold news'. rewrite length_zip_with. cbn. lia.
Qed.

(** C18. A directory is read as it was written.  For any names and types, and whatever the inode
    numbers that are filled in later: the size computed first is a number of whole blocks
    and is what the entries take, none of them crosses a block, and going through the
    buffer by the lengths in it gives [.], [..], the entries in order with their inodes, and
    the empty entry at the end. *)
Theorem directory_reads g p inode_num dir_inode_num ds :
  1024 <= blk_size g <= 4096 -> Forall dentry_ok ds -> zlen ds <= 500000 -> 0 <= inode_num < 2 ^ 32 -> 0 <= dir_inode_num < 2 ^ 32 ->
  let len := dir_blocks g ds * blk_size g in
  ∃ buf ds', fill_directory g p len inode_num dir_inode_num ds (zeros len) = Some (buf, ds') ∧ zlen buf = len ∧
    ∀ m ns, bufs m !! p = Some buf -> length ns = length ds -> Forall (fun n => 0 <= n < 2 ^ 32) ns ->
      ∃ m' buf', set_entries ds' ns m = Some m' ∧ bufs m' = <[p := buf']> (bufs m) ∧
        read_dir (length ds + 3) (blk_size g) buf' 0 = Some (dir_entries inode_num dir_inode_num (zip_with named ds ns)).
Proof.
  intros Hbs Hds Hn Hi Hdi len. destruct (directory_ok g p inode_num dir_inode_num ds Hbs Hds Hn Hi Hdi) as (buf & ds' & E & Hz & H).
  exists buf, ds'. split; [done|]. split; [done|]. intros m ns Hb Hl Hns. destruct (H m ns Hb Hl Hns) as (m' & buf' & E1 & _ & _ & E2 & _ & E3). by exists m', buf'.
Qed.
(** Two names, of one letter and of three. *)
Definition geom_dir : geom := Geom 1024 8192 64 256 0 true 1 8193 16 1 1.
Definition dentries_ex : list dentry := [Dentry [97] 1 None; Dentry [98; 99; 100] 2 None].
Lemma directory_reads_witness :
  ∃ buf ds', fill_directory geom_dir 4096 1024 11 2 dentries_ex (zeros 1024) = Some (buf, ds') ∧ zlen buf = 1024 ∧
    ∀ m ns, bufs m !! 4096 = Some buf -> length ns = 2%nat -> Forall (fun n => 0 <= n < 2 ^ 32) ns ->
      ∃ m' buf', set_entries ds' ns m = Some m' ∧ bufs m' = <[4096 := buf']> (bufs m) ∧
        read_dir 5 1024 buf' 0 = Some (dir_entries 11 2 (zip_with named dentries_ex ns)).
Proof. apply (directory_reads geom_dir 4096 11 2 dentries_ex); [done | by repeat constructor | done | done | done]. Defined.
