(* ===== verification/ImageFiles.v ===== *)
(** * Files and directories are read back from the image

    The operations of [Contents] on an image in order, from the inode to the data: each
    fails when there is no inode or no room, and otherwise leaves the image in order and the
    file or directory readable from any image that holds the queued blocks, whatever is
    added later.  The image that is written and unpacked is such an image. *)
From stdpp Require Import base gmap list sorting.
From Stdlib Require Import ZArith Lia.
From S2P Require Import Prelude Crc SparseFormat Backed OutFile OutFileSpec Simg MemFile ImageTrip.
From S2P Require Import Alloc AllocBits AllocInv AllocSafe AllocInit Extent ExtentSpec ExtentFile FileTrip ReadBack ImageOk AllocProps Indirect Contents Dir.
#[local] Open Scope Z_scope.

Section Files.
Context (g : geom) (Hg : geom_ok g) (Hig : 0 < inodes_per_group g <= 8 * blk_size g) (Hcount : groups g * inodes_per_group g < 2 ^ 32 - 1).
Context (fuel : nat) (Hfuel : groups g + 1 < Z.of_nat fuel) (Hcap : 12 * (groups g + 2) <= blk_size g).
Notation bs := (blk_size g).

(** There is no inode, or no room for [n] blocks. *)
Definition full (n : Z) (s : fsys) : Prop := (∀ j bg, bg_at s j = Some bg -> free_inodes bg = 0) ∨ no_room n s.

(** A new inode, and how to get at it. *)
Lemma new_inode m : image_ok g m ->
  (allocate_inode g (fs m) = Some (EXT4_ALLOCATE_FAILED, fs m) ∧ ∀ j bg, bg_at (fs m) j = Some bg -> free_inodes bg = 0) ∨
  ∃ k s1 s2 p, allocate_inode g (fs m) = Some (k, s1) ∧ k <> EXT4_ALLOCATE_FAILED ∧ 1 <= k <= groups g * inodes_per_group g ∧ ¬ inode_taken g (fs m) k ∧
    get_inode g k s1 = Some (p, s2) ∧ image_ok g (set_fs s2 m) ∧ (∃ more, queued_ds s2 = queued_ds (fs m) ++ more) ∧ brk (fs m) <= brk s2 ∧
    (∀ l, no_room l s2 -> no_room l (fs m)).
Proof.
  intros Hm. destruct (allocate_inode_ok g Hg Hig m Hm Hcount) as [H1|(k & s1 & E1 & Hm1 & Hk & Hnt & _ & Hq1 & Hb1 & Hr1)]; [by left|]. right.
  destruct (get_inode_ok g Hg Hig (set_fs s1 m) k Hm1 Hk) as (s2 & p & E2 & Hm2 & (more & Hq2) & Hr2 & Hb2); [lia|]. cbn [set_fs fs] in *.
  exists k, s1, s2, p. split; [done|]. split; [unfold EXT4_ALLOCATE_FAILED; lia|]. split; [done|]. split; [done|]. split; [done|]. split; [exact Hm2|].
  split; [exists more; congruence|]. split; [lia|]. intros l Hl. apply Hr1, Hr2, Hl.
Qed.

Lemma src_file f pos n b : src_of (info_of g) (file_mk f pos n b) = File f pos.
Proof. done. Qed.
Lemma mk_ok_file f : mk_ok (file_mk f).
Proof. done. Qed.
Lemma mk_ok_data a : mk_ok (data_mk a).
Proof. done. Qed.
Lemma inode_at_put_same p i m : inode_at (put_inode p i m) p = i.
Proof. unfold inode_at, put_inode. cbn. by rewrite lookup_insert_eq. Qed.

Lemma make_file_ok m f file : image_ok g m -> 0 < zlen file -> file_blocks g (zlen file) + 1 < 2 ^ 32 ->
  (make_file g fuel f (zlen file) m = None ∧ full (file_blocks g (zlen file) + 1) (fs m)) ∨
  ∃ n m3 p, make_file g fuel f (zlen file) m = Some (n, m3) ∧ ¬ inode_taken g (fs m) n ∧ image_ok g m3 ∧ (∃ more, queued_ds (fs m3) = queued_ds (fs m) ++ more) ∧
    i_mode (inode_at m3 p) = S_IFREG ∧ i_links_count (inode_at m3 p) = 1 ∧
    ∀ load mmap64 m4 img, keeps m m3 m4 p -> maps mmap64 f file -> loads load m4 -> in_place g load mmap64 img (queued_ds (fs m4)) ->
      read_inode g img (inode_at m4 p) = Some file.
Proof.
  intros Hm Hlen Hmax. unfold make_file. destruct (new_inode m Hm) as [[-> Hno]|(n & s1 & s2 & p & -> & Hn1 & Hn2 & Hnt & E2 & Hm2 & (more & Hq2) & Hb2 & Hr)].
  { left. cbn [mbind option_bind]. rewrite Z.eqb_refl. split; [done | by left]. }
  cbn [mbind option_bind]. rewrite (proj2 (Z.eqb_neq _ _)) by done. rewrite E2. cbn [mbind option_bind]. rewrite (proj2 (Z.ltb_lt _ _)) by done.
  destruct (file_op_ok g Hg fuel Hfuel (set_fs s2 m) Hm2 p (zlen file) Hlen Hmax Hcap f) as [[-> Hno]|(m3 & oob & L & -> & Hfi & Hbufs)].
  { left. split; [done|]. right. by apply Hr. }
  right. cbn [mbind option_bind]. set (i := set_mode _ _ _ _). exists n, (put_inode p i m3), p. split; [done|]. split; [done|].
  split; [apply image_ok_inode; [apply Hfi | apply (inode_sized m3 p), (io_sized _ _ (fi_ok _ _ _ _ _ _ _ _ Hfi))]|].
  split; [exists (more ++ oob_blocks g (set_fs s2 m) oob ++ backing g (file_mk f) L (zlen file) 0); cbn [put_inode fs]; rewrite (fi_queued _ _ _ _ _ _ _ _ Hfi); cbn [set_fs fs]; by rewrite Hq2, <- app_assoc|].
  rewrite inode_at_put_same. split; [done|]. split; [done|]. intros load mmap64 m4 img (Hq4 & Hk1 & Hk2 & Hk3 & Hk4) Hmaps Hloads Hin. rewrite inode_at_put_same in Hk1, Hk2, Hk3.
  apply (filed_read g Hg load mmap64 (set_fs s2 m) m3 m4 p oob L (file_mk f) img file Hm2 Hfi); try done; [lia | |].
  - intros pos k b Hp Hk Hle. by apply file_bytes_maps.
  - intros Hne b Hb. apply Hk4; [|exact Hb]. cbn [set_fs fs put_inode] in *. pose proof (fi_tree _ _ _ _ _ _ _ _ Hfi) as Ht. pose proof (blk_range g Hg).
    destruct oob as [|[x r] oob]; [done|]. destruct Ht as [Ht _]. cbn [set_fs fs] in Ht. lia.
Qed.

Lemma dir_inode m n : image_ok g m -> 1 <= n <= groups g * inodes_per_group g ->
  ∃ s1 s2 p, add_directory g n (fs m) = Some s1 ∧ get_inode g n s1 = Some (p, s2) ∧ image_ok g (set_fs s2 m) ∧
    (∃ more, queued_ds s2 = queued_ds (fs m) ++ more) ∧ brk (fs m) <= brk s2 ∧ (∀ l, no_room l s2 -> no_room l (fs m)).
Proof.
  intros Hm Hn. destruct (add_directory_ok g Hig m n Hm Hn ltac:(lia)) as (s1 & E1 & Hm1 & Hq1 & Hb1 & Hr1).
  destruct (get_inode_ok g Hg Hig (set_fs s1 m) n Hm1 Hn ltac:(lia)) as (s2 & p & E2 & Hm2 & (more & Hq2) & Hr2 & Hb2). cbn [set_fs fs] in *.
  exists s1, s2, p. split; [done|]. split; [done|]. split; [exact Hm2|]. split; [exists more; congruence|]. split; [lia|]. intros l Hl. apply Hr1, Hr2, Hl.
Qed.
(** The data of a directory whose inode is there. *)
Definition put_directory (p n parent dirs : Z) (ds : list dentry) (m : image_state) : option (Z * list dentry * image_state) :=
  let len := dir_blocks g ds * bs in
  '(data, m) ← inode_allocate_data_extents g fuel p len len m;
  a ← data;
  let m := put_inode p (set_mode S_IFDIR ((dirs + 2) mod 2 ^ 16) EXT4_NOATIME_FL (inode_at m p)) m in
  buf ← bufs m !! a;
  '(buf, ds) ← fill_directory g a len n parent ds buf;
  Some (n, ds, put_buf a buf m).
Definition dir_readable (m m2 : image_state) (p n parent : Z) (ds : list dentry) (ns : list Z) : Prop :=
  ∀ load mmap64 m4 img, keeps m m2 m4 p -> loads load m4 -> in_place g load mmap64 img (queued_ds (fs m4)) ->
    ∃ data, read_inode g img (inode_at m4 p) = Some data ∧ read_dir (length ds + 3) bs data 0 = Some (dir_entries n parent (zip_with named ds ns)).
Lemma dir_file_blocks ds : Forall dentry_ok ds -> zlen ds <= 500000 ->
  file_blocks g (dir_blocks g ds * bs) = dir_blocks g ds ∧ 0 < dir_blocks g ds ∧ dir_blocks g ds * bs < 2 ^ 32 ∧ dir_blocks g ds + 1 < 2 ^ 32.
Proof.
  intros Hds Hn. pose proof (blk_range g Hg). destruct (size_end g ltac:(lia) ds Hds Hn) as (_ & H1 & H2 & H3 & H4). split; [|split; [done|split; [lia|nia]]].
  unfold file_blocks. symmetry. apply (Z.div_unique _ _ _ (bs - 1)); lia.
Qed.
Lemma put_directory_ok m p n parent dirs ds : image_ok g m -> Forall dentry_ok ds -> zlen ds <= 500000 -> 0 <= n < 2 ^ 32 -> 0 <= parent < 2 ^ 32 ->
  (put_directory p n parent dirs ds m = None ∧ no_room (dir_blocks g ds + 1) (fs m)) ∨
  ∃ ds' m1, put_directory p n parent dirs ds m = Some (n, ds', m1) ∧ image_ok g m1 ∧ (∃ more, queued_ds (fs m1) = queued_ds (fs m) ++ more) ∧
    i_mode (inode_at m1 p) = S_IFDIR ∧ i_links_count (inode_at m1 p) = (dirs + 2) mod 2 ^ 16 ∧
    ∀ ns, length ns = length ds -> Forall (fun n => 0 <= n < 2 ^ 32) ns ->
      ∃ m2, set_entries ds' ns m1 = Some m2 ∧ image_ok g m2 ∧ fs m2 = fs m1 ∧ dir_readable m m2 p n parent ds ns.
Proof.
  intros Hm Hds Hn Hi Hp. pose proof (blk_range g Hg). destruct (dir_file_blocks ds Hds Hn) as (Hfb & Hpos & Hmax & Hmax2). set (len := dir_blocks g ds * bs) in *.
  unfold put_directory. fold len. destruct (data_op_ok g Hg fuel Hfuel m Hm p len ltac:(unfold len; nia) ltac:(lia) Hcap) as [[-> Hno]|(m3 & oob & L & a & -> & Hfi & Hbufs & Ha & Hba & Hbrk & Hne)].
  { left. split; [done|]. by rewrite <- Hfb. }
  right. cbn [mbind option_bind]. set (i := set_mode _ _ _ _). cbn [put_inode bufs]. rewrite Ha. cbn [mbind option_bind].
  destruct (directory_ok g a n parent ds ltac:(lia) Hds Hn Hi Hp) as (buf & ds' & Efill & Hz & Hset). fold len in Efill, Hz, Hset. rewrite Efill. cbn [mbind option_bind]. eexists ds', _. split; [done|].
  assert (Hm1 : image_ok g (put_buf a buf (put_inode p i m3))).
  { apply image_ok_buf, image_ok_inode; [apply Hfi | apply (inode_sized m3 p), (io_sized _ _ (fi_ok _ _ _ _ _ _ _ _ Hfi))]. }
  split; [exact Hm1|]. split; [eexists; cbn [put_buf put_inode fs]; apply (fi_queued _ _ _ _ _ _ _ _ Hfi)|].
  change (inode_at (put_buf a buf (put_inode p i m3)) p) with (inode_at (put_inode p i m3) p). rewrite inode_at_put_same. split; [done|]. split; [done|]. intros ns Hns Hr.
  destruct (Hset (put_buf a buf (put_inode p i m3)) ns) as (m2 & buf' & E2 & F1 & F2 & F3 & Hz' & Hread); [cbn; apply lookup_insert_eq | done | done |].
  exists m2. split; [done|]. split; [|split; [done|]].
  { destruct Hm1 as [I1 I2 I3 I4 I5 I6 I7 I8]. split; rewrite ?F1; try done. intros q j. rewrite F2. apply I3. }
  intros load mmap64 m4 img (Hq4 & Hk1 & Hk2 & Hk3 & Hk4) Hloads Hin. exists buf'. split; [|exact Hread].
  assert (Ei : inode_at m2 p = i) by (unfold inode_at; rewrite F2; cbn; by rewrite lookup_insert_eq). rewrite Ei in Hk1, Hk2, Hk3. rewrite F1 in Hq4, Hk4. cbn [put_buf put_inode fs] in Hq4, Hk4.
  assert (Hb4 : bufs m4 !! a = Some buf') by (apply Hk4; [lia | rewrite F3; apply lookup_insert_eq]).
  apply (filed_read g Hg load mmap64 m m3 m4 p oob L (data_mk a) img buf' Hm); try done; [by rewrite Hz' | rewrite Hz'; lia | |].
  - intros pos k b H1 H2 H3. cbn. by apply (Hloads a buf').
  - intros Ho b Hb. specialize (Hne Ho). apply Hk4; [|rewrite F3; cbn; by rewrite !lookup_insert_ne]. pose proof (fi_tree _ _ _ _ _ _ _ _ Hfi) as Ht.
    destruct oob as [|[x r] oob]; [done|]. destruct Ht as [Ht _]. lia.
Qed.
Lemma make_directory_ok m parent dirs ds : image_ok g m -> Forall dentry_ok ds -> zlen ds <= 500000 -> 0 <= parent < 2 ^ 32 -> 2 <= groups g * inodes_per_group g ->
  let parent' := if parent =? 0 then EXT4_ROOT_INO else parent in
  (make_directory g fuel parent ds dirs m = None ∧ full (dir_blocks g ds + 1) (fs m)) ∨
  ∃ n ds' m1 p, make_directory g fuel parent ds dirs m = Some (n, ds', m1) ∧ (if parent =? 0 then n = EXT4_ROOT_INO else ¬ inode_taken g (fs m) n) ∧
    image_ok g m1 ∧ (∃ more, queued_ds (fs m1) = queued_ds (fs m) ++ more) ∧
    i_mode (inode_at m1 p) = S_IFDIR ∧ i_links_count (inode_at m1 p) = (dirs + 2) mod 2 ^ 16 ∧
    ∀ ns, length ns = length ds -> Forall (fun n => 0 <= n < 2 ^ 32) ns ->
      ∃ m2, set_entries ds' ns m1 = Some m2 ∧ image_ok g m2 ∧ fs m2 = fs m1 ∧ dir_readable m m2 p n parent' ds ns.
Proof.
  intros Hm Hds Hn Hp Hroot parent'. destruct (dir_file_blocks ds Hds Hn) as (_ & Hpos & Hmax & _). pose proof (blk_range g Hg).
  assert (Hp' : 0 <= parent' < 2 ^ 32) by (unfold parent', EXT4_ROOT_INO; case_match; lia).
  (* the rest, once there is an inode *)
  assert (Hrest : ∀ s n, image_ok g (set_fs s m) -> 1 <= n <= groups g * inodes_per_group g -> (∃ more, queued_ds s = queued_ds (fs m) ++ more) -> brk (fs m) <= brk s -> (∀ l, no_room l s -> no_room l (fs m)) ->
    let rest := (s ← add_directory g n s; '(p, s) ← get_inode g n s; put_directory p n parent' dirs ds (set_fs s m)) in
    (rest = None ∧ no_room (dir_blocks g ds + 1) (fs m)) ∨ ∃ ds' m1 p, rest = Some (n, ds', m1) ∧ image_ok g m1 ∧ (∃ more, queued_ds (fs m1) = queued_ds (fs m) ++ more) ∧
    i_mode (inode_at m1 p) = S_IFDIR ∧ i_links_count (inode_at m1 p) = (dirs + 2) mod 2 ^ 16 ∧
    ∀ ns, length ns = length ds -> Forall (fun n => 0 <= n < 2 ^ 32) ns ->
      ∃ m2, set_entries ds' ns m1 = Some m2 ∧ image_ok g m2 ∧ fs m2 = fs m1 ∧ dir_readable m m2 p n parent' ds ns).
  { intros s n Hms Hnr (more & Hq) Hb Hr rest. destruct (dir_inode (set_fs s m) n Hms Hnr) as (s1 & s2 & p & E1 & E2 & Hm2 & (more2 & Hq2) & Hb2 & Hr2). cbn [set_fs fs] in *. unfold rest. rewrite E1. cbn [mbind option_bind]. rewrite E2. cbn [mbind option_bind].
    destruct (put_directory_ok (set_fs s2 m) p n parent' dirs ds Hm2 Hds Hn ltac:(lia) Hp') as [[-> Hno]|(ds' & m1 & -> & Hm1 & (more3 & Hq3) & H1 & H2 & H3)].
    - left. split; [done|]. by apply Hr, Hr2.
    - right. exists ds', m1, p. split; [done|]. split; [done|]. split; [exists (more ++ more2 ++ more3); rewrite Hq3; cbn [set_fs fs]; by rewrite Hq2, Hq, <- !app_assoc|]. split; [done|]. split; [done|].
      intros ns Hl Hns. destruct (H3 ns Hl Hns) as (m2 & Es & Hm2' & Ef & Hrd). exists m2. split; [done|]. split; [done|]. split; [done|]. intros load mmap64 m4 img (K1 & K2 & K3 & K4 & K5) Hloads Hin.
      apply (Hrd load mmap64 m4 img); [|done|done]. split_and!; try done. intros q b Hq' Hbq. apply K5; [|done]. cbn [set_fs fs] in Hq'. lia. }
  assert (Hdir : ∀ n s, (s ← add_directory g n s; '(inode, s) ← get_inode g n s; '(data, m') ← inode_allocate_data_extents g fuel inode (u32 (dir_blocks g ds * bs)) (u32 (dir_blocks g ds * bs)) (set_fs s m); a ← data;
      let m' := put_inode inode (set_mode S_IFDIR ((dirs + 2) mod 2 ^ 16) EXT4_NOATIME_FL (inode_at m' inode)) m' in buf ← bufs m' !! a;
      '(buf, ds) ← fill_directory g a (u32 (dir_blocks g ds * bs)) n parent' ds buf; Some (n, ds, put_buf a buf m')) = (s ← add_directory g n s; '(p, s) ← get_inode g n s; put_directory p n parent' dirs ds (set_fs s m))).
  { intros n s. rewrite u32_small by lia. done. }
  unfold make_directory. fold (dir_blocks g ds). unfold parent' in *. clear parent'. destruct (Z.eqb_spec parent 0) as [->|Hne]; cbn [negb].
  - cbn [mbind option_bind]. change (EXT4_ROOT_INO =? EXT4_ALLOCATE_FAILED) with false. rewrite Hdir.
    destruct (Hrest (fs m) EXT4_ROOT_INO) as [[-> Hno]|(ds' & m1 & p & -> & H1)]; [by destruct m | unfold EXT4_ROOT_INO; lia | exists []; by rewrite app_nil_r | lia | done | |].
    + left. split; [done | by right].
    + right. exists EXT4_ROOT_INO, ds', m1, p. split; [done|]. split; [done|]. exact H1.
  - destruct (allocate_inode_ok g Hg Hig m Hm Hcount) as [[-> Hno]|(k & s1 & -> & Hm1 & Hk & Hnt & _ & Hq1 & Hb1 & Hr1)]; cbn [mbind option_bind].
    + left. rewrite Z.eqb_refl. split; [done | by left].
    + rewrite (proj2 (Z.eqb_neq _ _)) by (unfold EXT4_ALLOCATE_FAILED; lia). rewrite Hdir.
      destruct (Hrest s1 k Hm1 Hk) as [[-> Hno]|(ds' & m1 & p & -> & H1)]; [exists []; by rewrite app_nil_r | lia | done | |].
      * left. split; [done | by right].
      * right. exists k, ds', m1, p. split; [done|]. split; [done|]. exact H1.
Qed.
End Files.

(** ** The theorems *)
Section Theorems.
Context (g : geom) (Hg : geom_ok g) (Hig : 0 < inodes_per_group g <= 8 * blk_size g) (Hcount : groups g * inodes_per_group g < 2 ^ 32 - 1).
Context (fuel : nat) (Hfuel : groups g + 1 < Z.of_nat fuel) (Hcap : 12 * (groups g + 2) <= blk_size g).

(** A file is read back from the image.  On an image in order [make_file] fails only
    when there is no inode left or no room, and otherwise gives an inode that was free and
    leaves the image in order; and however the image is continued, as long as the inode and
    the buffers of the file are left alone, going from the inode through the extents to the
    blocks of any image that holds what is queued gives the file. *)
Theorem file_read_back m f file : image_ok g m -> 0 < zlen file -> file_blocks g (zlen file) + 1 < 2 ^ 32 ->
  (make_file g fuel f (zlen file) m = None ∧ full (file_blocks g (zlen file) + 1) (fs m)) ∨
  ∃ n m3 p, make_file g fuel f (zlen file) m = Some (n, m3) ∧ ¬ inode_taken g (fs m) n ∧ image_ok g m3 ∧ (∃ more, queued_ds (fs m3) = queued_ds (fs m) ++ more) ∧
    i_mode (inode_at m3 p) = S_IFREG ∧ i_links_count (inode_at m3 p) = 1 ∧
    ∀ load mmap64 m4 img, keeps m m3 m4 p -> maps mmap64 f file -> loads load m4 -> in_place g load mmap64 img (queued_ds (fs m4)) ->
      read_inode g img (inode_at m4 p) = Some file.
Proof. by apply make_file_ok. Qed.

(** A directory is read back from the image.  [make_directory] fails only when there is no
    inode left or no room; otherwise, once the inode numbers of the entries are filled in,
    the image is in order and the directory is read from any image that holds what is
    queued, through the extents of its inode, as [.], [..] and the entries. *)
Theorem directory_read_back m parent dirs ds : image_ok g m -> Forall dentry_ok ds -> zlen ds <= 500000 -> 0 <= parent < 2 ^ 32 -> 2 <= groups g * inodes_per_group g ->
  let parent' := if parent =? 0 then EXT4_ROOT_INO else parent in
  (make_directory g fuel parent ds dirs m = None ∧ full (dir_blocks g ds + 1) (fs m)) ∨
  ∃ n ds' m1 p, make_directory g fuel parent ds dirs m = Some (n, ds', m1) ∧ (if parent =? 0 then n = EXT4_ROOT_INO else ¬ inode_taken g (fs m) n) ∧
    image_ok g m1 ∧ (∃ more, queued_ds (fs m1) = queued_ds (fs m) ++ more) ∧
    i_mode (inode_at m1 p) = S_IFDIR ∧ i_links_count (inode_at m1 p) = (dirs + 2) mod 2 ^ 16 ∧
    ∀ ns, length ns = length ds -> Forall (fun n => 0 <= n < 2 ^ 32) ns ->
      ∃ m2, set_entries ds' ns m1 = Some m2 ∧ image_ok g m2 ∧ fs m2 = fs m1 ∧ dir_readable g m m2 p n parent' ds ns.
Proof. by apply make_directory_ok. Qed.
End Theorems.

(** A file of two blocks, the last not full. *)
Definition file_small : list Z := replicate 1500 7.
Lemma file_read_back_witness : ∃ n m3 p, make_file geom_small 3 9 1500 start_small = Some (n, m3) ∧ image_ok geom_small m3 ∧
  ∀ load mmap64 img, maps mmap64 9 file_small -> loads load m3 -> in_place geom_small load mmap64 img (queued_ds (fs m3)) ->
    read_inode geom_small img (inode_at m3 p) = Some file_small.
Proof.
  destruct (file_read_back geom_small geom_small_ok ltac:(cbn; lia) ltac:(cbn; lia) 3 ltac:(cbn; lia) ltac:(cbn; lia) start_small 9 file_small start_small_ok)
    as [[E _]|(n & m3 & p & E & _ & Hm3 & _ & _ & _ & H)]; [done | done | |].
  - exfalso. vm_compute in E. discriminate.
  - exists n, m3, p. split; [exact E|]. split; [exact Hm3|]. intros load mmap64 img Hm Hl Hi. apply (H load mmap64 m3 img); [|done..].
    split; [by exists []; rewrite app_nil_r|]. by split_and!.
Defined.
(** The root directory, with two entries. *)
Lemma directory_read_back_witness : ∃ ds' m1 p m2, make_directory geom_small 3 0 dentries_ex 1 start_small = Some (2, ds', m1) ∧ set_entries ds' [11; 12] m1 = Some m2 ∧
  dir_readable geom_small start_small m2 p 2 2 dentries_ex [11; 12].
Proof.
  destruct (directory_read_back geom_small geom_small_ok ltac:(cbn; lia) ltac:(cbn; lia) 3 ltac:(cbn; lia) ltac:(cbn; lia) start_small 0 1 dentries_ex start_small_ok)
    as [[E _]|(n & ds' & m1 & p & E & Hn & _ & _ & _ & _ & H)]; [by repeat constructor | done | done | done | |].
  - exfalso. vm_compute in E. discriminate.
  - cbn in Hn. subst n. destruct (H [11; 12]) as (m2 & E2 & _ & _ & Hr); [done | by repeat constructor |].
    exists ds', m1, p, m2. split; [exact E|]. split; [exact E2 | exact Hr].
Defined.

(** The image that is written holds what was queued.  For an image in order whose blocks can
    be read when it is written: the sparse file that [write_ext4_image] makes of the queue,
    with or without a checksum, is unpacked by [simg2img] to an image of the size of the
    file system in which every queued block is found at its place. *)
Theorem written_in_place {F FI FO} (ops : output_file_ops F) `{!Appends ops} `{IoLaws FI FO} g load mmap64 fuel m ds (crc : bool) (f : F) :
  geom_ok g -> image_ok g m -> ds.*2 = queued_ds (fs m) -> NoDup ds.*1 -> (∀ x d, (x, d) ∈ ds -> next d = None) -> (length ds <= fuel)%nat ->
  Forall (writable g load mmap64) (queued_ds (fs m)) -> holds f [] ->
  ∃ q out s, push_all fuel ds empty_queue = Some q ∧ write_ext4_image ops load mmap64 (info_of g) fuel f true crc q = Some out ∧ holds (fd out) s ∧
    ∀ (i : FI) (o : FO), rest i = s -> file_contents o = [] -> pos o = 0 ->
      ∃ o', simg2img i o = Some o' ∧ in_place g load mmap64 (file_contents o') (queued_ds (fs m)).
Proof.
  intros Hg Hm Hds Hnd Hnext Hfuel Hw Hf. destruct (queued_ok fuel ds Hnd Hnext Hfuel) as (q & Lq & Eq & Hq & Hl & Hc).
  pose proof (geometry_of g Hg) as Hgeo.
  assert (Hperm : queued ds ≡ₚ queued_ds (fs m)) by (rewrite <- Hds; apply queued_perm).
  assert (Hpl : placed load mmap64 (info_of g) 0 (queued ds)).
  { apply (sorted_placed g Hg).
    - apply queued_sorted.
    - apply (q_apart_perm g (queued_ds (fs m))); [done | apply (io_apart _ _ Hm)].
    - rewrite Hperm. apply (io_in _ _ Hm).
    - by rewrite Hperm.
    - rewrite Hperm. eapply Forall_impl; [apply (io_in _ _ Hm)|]. intros d (_ & Hb & _). pose proof (blk_range g Hg). nia. }
  destruct (write_image_ok ops load mmap64 (info_of g) Hgeo fuel q Lq f crc Hq Hl) as (out & E & Hout); [by rewrite Hc | done |].
  eexists q, out, _. do 2 (split; [done|]). split; [exact Hout|]. intros i o Hi Ho Hp. rewrite Hc in Hi.
  destruct (unpack_ok load mmap64 (info_of g) Hgeo (queued ds) crc i o) as (o' & E' & Ho'); [done..|]. exists o'. split; [done|]. rewrite Ho'.
  destruct (flat_in_place g Hg load mmap64 (queued ds)) as [Hz Hin].
  - rewrite Hperm. apply (io_in _ _ Hm).
  - by rewrite Hperm.
  - apply (q_apart_perm g (queued_ds (fs m))); [done | apply (io_apart _ _ Hm)].
  - split; [done|]. intros d b Hd. apply Hin. by rewrite Hperm.
Qed.

(** The bitmaps of the image at the start, of zeros. *)
Definition load_zeros (a n : Z) : option (list Z) := Some (zeros n).
Definition ds_small : list (nat * data_block) := [(1%nat, bitmap_block geom_small 0 4096 true)].
Lemma written_in_place_witness : ∃ q out, push_all 1 ds_small empty_queue = Some q ∧
  write_ext4_image m_ops load_zeros mmap_ex (info_of geom_small) 1 (MFile [] 0) true true q = Some out.
Proof.
  destruct (written_in_place m_ops geom_small load_zeros mmap_ex 1 start_small ds_small true (MFile [] 0)) as (q & out & s & E1 & E2 & _); [apply geom_small_ok | apply start_small_ok | by vm_compute | | | done | | done |].
  - apply NoDup_singleton.
  - by intros x d [= -> ->]%list_elem_of_singleton.
  - apply Forall_singleton. split; [done|]. split; [|done]. split; [|done]. by exists (zeros 2048).
  - by exists q, out.
Defined.
