(* ===== verification/MakeFs.v ===== *)
(** * The image maker ([ext4_utils/make_ext4fs.c] and the rest of [ext4_utils.c])

    The parameters that are chosen when none are given, the super block and the group
    descriptors, the journal, the walk over the directory that is packed, and the whole of
    [make_ext4fs_internal] up to the writing of the image.  The super block, its copies and
    the descriptors are buffers of bytes, with a store at the offset of each field.  The
    host directory is a tree, in the order [scandir] lists it; SELinux is not built in.
    [error] and [critical_error] leave the program, as does a division by zero: [None]. *)
From stdpp Require Import base gmap list.
From Stdlib Require Import ZArith Lia.
From S2P Require Import Prelude SparseFormat Sha1 Backed Alloc Extent Indirect Contents.
#[local] Open Scope Z_scope.

(** ** The parameters ([struct fs_info]) *)
Record make_info := MakeInfo {
  mi_len : Z; mi_block_size : Z; mi_blocks_per_group : Z; mi_inodes_per_group : Z; mi_inode_size : Z; mi_inodes : Z; mi_journal_blocks : Z;
  mi_feat_ro_compat : Z; mi_feat_compat : Z; mi_feat_incompat : Z; mi_bg_desc_reserve_blocks : Z; mi_label : list Z; mi_no_journal : bool
}.
(** [reset_ext4fs_info], but for the length. *)
Definition reset_ext4fs_info (len : Z) : make_info := MakeInfo len 0 0 0 0 0 0 0 0 0 0 [] false.

Definition EXT4_FEATURE_COMPAT_HAS_JOURNAL : Z := 0x0004.
Definition EXT4_FEATURE_COMPAT_RESIZE_INODE : Z := 0x0010.
Definition EXT4_FEATURE_RO_COMPAT_SPARSE_SUPER : Z := 0x0001.
Definition EXT4_FEATURE_RO_COMPAT_LARGE_FILE : Z := 0x0002.
Definition EXT4_FEATURE_INCOMPAT_FILETYPE : Z := 0x0002.
Definition EXT4_FEATURE_INCOMPAT_EXTENTS : Z := 0x0040.

(** The size of what the image is written to; [None] when it cannot be told. *)
Inductive target := RegularFile (st_size : Z) | BlockDevice (size : Z) | OtherTarget.
Definition s64 (z : Z) : Z := (z + 2 ^ 63) mod 2 ^ 64 - 2 ^ 63.
Definition get_file_size (len : Z) (t : option target) : Z :=
  let reserve_len := if len <? 0 then - len else 1 * 1024 * 1024 in
  match t with
  | None => 0
  | Some t =>
      let computed_size := match t with RegularFile n => s64 (n - reserve_len) | BlockDevice n => s64 (n - reserve_len) | OtherTarget => 0 end in
      if computed_size <? 0 then 0 else computed_size
  end.

Definition compute_block_size : Z := 4096.
Definition compute_journal_blocks (len bs : Z) : Z :=
  let journal_blocks := u32 ((len + bs - 1) / bs / 64) in
  let journal_blocks := if journal_blocks <? 1024 then 1024 else journal_blocks in
  if 32768 <? journal_blocks then 32768 else journal_blocks.
Definition compute_blocks_per_group (bs : Z) : Z := u32 (bs * 8).
Definition compute_inodes (len bs : Z) : Z := u32 ((len + bs - 1) / bs / 4).
(** The number of inodes in a group, and in all. *)
Definition compute_inodes_per_group (len bs bpg isize inodes : Z) : option (Z * Z) :=
  let blocks := u32 ((len + bs - 1) / bs) in
  block_groups ← div_up blocks bpg;
  n ← div_up inodes block_groups;
  if isize =? 0 then None else
  up ← div_up n (bs / isize);
  let n := u32 (bs / isize * up) in
  Some (n, u32 (n * block_groups)).
Definition compute_bg_desc_reserve_blocks (len bs bpg : Z) : option Z :=
  let blocks := u32 ((len + bs - 1) / bs) in
  block_groups ← div_up blocks bpg;
  let bg_desc_blocks := u32 ((block_groups * 32 + bs - 1) / bs) in
  let reserve := u32 ((u32 (block_groups * 1024) * 32 + bs - 1) / bs - bg_desc_blocks) in
  Some (if bs / 4 <? reserve then bs / 4 else reserve).

(** The parameters as [make_ext4fs_internal] completes them. *)
Definition complete_info (i : make_info) (t : option target) : option make_info :=
  let len := if mi_len i <=? 0 then get_file_size (mi_len i) t else mi_len i in
  if len <=? 0 then None else
  let bs := if mi_block_size i =? 0 then compute_block_size else mi_block_size i in
  let len := Z.land len (Z.lnot (bs - 1)) in
  let journal := if mi_journal_blocks i =? 0 then compute_journal_blocks len bs else mi_journal_blocks i in
  let feat_compat := if mi_no_journal i then mi_feat_compat i else EXT4_FEATURE_COMPAT_HAS_JOURNAL in
  let journal := if mi_no_journal i then 0 else journal in
  let bpg := if mi_blocks_per_group i =? 0 then compute_blocks_per_group bs else mi_blocks_per_group i in
  let inodes := if mi_inodes i =? 0 then compute_inodes len bs else mi_inodes i in
  let isize := if mi_inode_size i =? 0 then 256 else mi_inode_size i in
  '(ipg, inodes) ← compute_inodes_per_group len bs bpg isize inodes;
  reserve ← compute_bg_desc_reserve_blocks len bs bpg;
  Some (MakeInfo len bs bpg ipg isize inodes journal
    (Z.lor (mi_feat_ro_compat i) (Z.lor EXT4_FEATURE_RO_COMPAT_SPARSE_SUPER EXT4_FEATURE_RO_COMPAT_LARGE_FILE))
    (Z.lor feat_compat EXT4_FEATURE_COMPAT_RESIZE_INODE)
    (Z.lor (mi_feat_incompat i) (Z.lor EXT4_FEATURE_INCOMPAT_EXTENTS EXT4_FEATURE_INCOMPAT_FILETYPE))
    reserve (mi_label i) (mi_no_journal i)).
Definition layout (i : make_info) : option geom :=
  if (mi_block_size i =? 0) || (mi_blocks_per_group i =? 0) then None else
  create_fs_aux_info (mi_block_size i) (mi_blocks_per_group i) (mi_inodes_per_group i) (mi_inode_size i) (mi_bg_desc_reserve_blocks i) (mi_len i)
    (negb (Z.land (mi_feat_ro_compat i) EXT4_FEATURE_RO_COMPAT_SPARSE_SUPER =? 0)).

(** ** The super block *)
Fixpoint log_loop (fuel : nat) (j i : Z) : Z :=
  match fuel with O => i | S fuel => if 0 <? j then log_loop fuel (j / 2) (i + 1) else i end.
Definition log_2 (j : Z) : Z := log_loop (Z.to_nat j) j 0 - 1.
(** [strncpy] into a field of [n] bytes. *)
Definition name_field (n : Z) (s : list Z) : list Z := take (Z.to_nat n) s ++ zeros (n - zlen (take (Z.to_nat n) s)).
Fixpoint stores (l : list (Z * list Z)) (buf : list Z) : option (list Z) :=
  match l with [] => Some buf | (o, b) :: l => buf ← store o b buf; stores l buf end.

Definition s_free_blocks_count_lo : Z := 12.
Definition s_free_inodes_count : Z := 16.
Definition s_block_group_nr : Z := 90.
Definition s_last_mounted : Z := 136.
Definition s_jnl_blocks : Z := 268.
(** The stores of [ext4_fill_in_sb], in order, with the offsets of [struct ext4_super_block]. *)
Definition sb_stores (i : make_info) (g : geom) (uuid : list Z) : list (Z * list Z) :=
  [(0, bytes32 (inodes_per_group g * groups g)); (4, bytes32 (len_blocks g)); (8, bytes32 0); (s_free_blocks_count_lo, bytes32 0); (s_free_inodes_count, bytes32 0);
   (20, bytes32 (first_data_block g)); (24, bytes32 (log_2 (blk_size g / 1024))); (28, bytes32 (log_2 (blk_size g / 1024)));
   (32, bytes32 (blocks_per_group g)); (36, bytes32 (blocks_per_group g)); (40, bytes32 (inodes_per_group g));
   (44, bytes32 0); (48, bytes32 0); (52, bytes16 0); (54, bytes16 0xFFFF); (56, bytes16 0xEF53); (58, bytes16 0x0001); (60, bytes16 2); (62, bytes16 0);
   (64, bytes32 0); (68, bytes32 0); (72, bytes32 0); (76, bytes32 1); (80, bytes16 0); (82, bytes16 0);
   (84, bytes32 11); (88, bytes16 (inode_size g)); (s_block_group_nr, bytes16 0);
   (92, bytes32 (mi_feat_compat i)); (96, bytes32 (mi_feat_incompat i)); (100, bytes32 (mi_feat_ro_compat i));
   (104, uuid); (120, name_field 16 (mi_label i)); (s_last_mounted, zeros 64); (200, bytes32 0); (206, bytes16 (bg_desc_reserve_blocks g)); (204, [0]); (205, [0])] ++
  (if negb (Z.land (mi_feat_compat i) EXT4_FEATURE_COMPAT_HAS_JOURNAL =? 0) then [(224, bytes32 8)] else []) ++
  [(228, bytes32 0); (232, bytes32 0); (236, bytes32 0); (252, [2]); (253, [1]); (254, bytes16 32); (256, bytes32 0); (260, bytes32 0); (264, bytes32 0);
   (336, bytes32 (len_blocks g / 2 ^ 32)); (340, bytes32 0); (344, bytes32 0); (348, bytes16 (156 - 128)); (350, bytes16 (156 - 128));
   (352, bytes32 0); (356, bytes16 0); (358, bytes16 0); (360, zeros 8); (368, bytes32 0); (372, [0]); (376, zeros 8)].

(** [aux_info]: the layout, and where the super block and the group descriptors are in memory. *)
Record aux := Aux { ax_geom : geom; ax_sb : Z; ax_desc : Z }.
Definition create_aux (g : geom) (m : image_state) : aux * image_state :=
  let '(sb, m) := calloc_buf (blk_size g) m in
  let '(desc, m) := calloc_buf (blk_size g * bg_desc_blocks g) m in
  (Aux g sb desc, m).
Definition edit (p : Z) (l : list (Z * list Z)) (m : image_state) : option image_state :=
  buf ← bufs m !! p; buf ← stores l buf; Some (put_buf p buf m).
Definition field (p o n : Z) (m : image_state) : option (list Z) := buf ← bufs m !! p; Some (slice o n buf).

Definition bg_block_bitmap (i : Z) : Z := 32 * i.
Definition bg_inode_bitmap (i : Z) : Z := 32 * i + 4.
Definition bg_inode_table (i : Z) : Z := 32 * i + 8.
Definition bg_free_blocks_count (i : Z) : Z := 32 * i + 12.
Definition bg_free_inodes_count (i : Z) : Z := 32 * i + 14.
Definition bg_used_dirs_count (i : Z) : Z := 32 * i + 16.

Section Make.
Context (a : aux) (fuel : nat).
Notation g := (ax_geom a).
Notation bs := (blk_size g).

(** The body of the loop over the groups in [ext4_fill_in_sb]. *)
Definition fill_group (i : Z) (m : image_state) : option image_state :=
  let group_start_block := u32 (first_data_block g + u32 (i * blocks_per_group g)) in
  sup ← ext4_bg_has_super_block g i;
  '(header_size, m) ← (if (sup : bool) then
      m ← (if negb (i =? 0) then
          sb ← bufs m !! ax_sb a;
          let '(backup, m) := calloc_buf bs m in
          let m := put_buf backup sb m in
          m ← edit backup [(s_block_group_nr, bytes16 i)] m;
          Some (set_fs (q_data backup bs group_start_block (fs m)) m)
        else Some m);
      Some (u32 (1 + bg_desc_blocks g + bg_desc_reserve_blocks g),
            set_fs (q_data (ax_desc a) (u32 (bg_desc_blocks g * bs)) (u32 (group_start_block + 1)) (fs m)) m)
    else Some (0, m));
  edit (ax_desc a)
    [(bg_block_bitmap i, bytes32 (group_start_block + header_size)); (bg_inode_bitmap i, bytes32 (group_start_block + header_size + 1));
     (bg_inode_table i, bytes32 (group_start_block + header_size + 2)); (bg_free_blocks_count i, bytes16 (blocks_per_group g));
     (bg_free_inodes_count i, bytes16 (inodes_per_group g)); (bg_used_dirs_count i, bytes16 0)] m.
Fixpoint fill_groups (n : nat) (i : Z) (m : image_state) : option image_state :=
  match n with O => Some m | S n => m ← fill_group i m; fill_groups n (i + 1) m end.
Definition ext4_fill_in_sb (i : make_info) (m : image_state) : option image_state :=
  (* "extandroid/make_ext4fs" *)
  uuid ← generate_uuid [101; 120; 116; 97; 110; 100; 114; 111; 105; 100; 47; 109; 97; 107; 101; 95; 101; 120; 116; 52; 102; 115] (mi_label i);
  m ← edit (ax_sb a) (sb_stores i g uuid) m;
  fill_groups (Z.to_nat (groups g)) 0 m.

(** [sprintf] of the mount point, with no look at the 64 bytes of the field. *)
Definition MTK_add_mountpoint (mountpoint : option (list Z)) (m : image_state) : option image_state :=
  match mountpoint with Some s => edit (ax_sb a) [(s_last_mounted, [47] ++ s ++ [0])] m | None => Some m end.

Definition ext4_queue_sb (m : image_state) : option image_state :=
  if 1024 <? bs then
    sb ← field (ax_sb a) 0 1024 m;
    let '(buf, m) := calloc_buf bs m in
    m ← edit buf [(1024, sb)] m;
    Some (set_fs (q_data buf bs 0 (fs m)) m)
  else Some (set_fs (q_data (ax_sb a) 1024 1 (fs m)) m).

(** ** The inodes of the journal and of the blocks kept for resizing *)
Definition S_IRUSR : Z := 0x100.
Definition S_IWUSR : Z := 0x80.
Definition S_IRWXU : Z := 0x1C0.
Definition EXT4_RESIZE_INO : Z := 7.
Definition EXT4_JOURNAL_INO : Z := 8.
Definition htonl (v : Z) : list Z := rev (bytes32 v).
Definition ext4_create_journal_inode (journal_blocks : Z) (m : image_state) : option image_state :=
  '(inode, s) ← get_inode g EXT4_JOURNAL_INO (fs m);
  let len := u32 (journal_blocks * bs) in
  '(data, m) ← inode_allocate_data_extents g fuel inode len len (set_fs s m);
  p ← data;
  let m := put_inode inode (set_mode (Z.lor (Z.lor S_IFREG S_IRUSR) S_IWUSR) 1 0 (inode_at m inode)) m in
  m ← edit p [(0, htonl 0xc03b3998); (4, htonl 4); (12, htonl bs); (16, htonl journal_blocks); (64, htonl 1); (20, htonl 1); (24, htonl 1)] m;
  edit (ax_sb a) [(s_jnl_blocks, i_block (inode_at m inode))] m.

Fixpoint resize_regions (n : nat) (i : Z) (al : block_allocation) (s : fsys) : option (block_allocation * fsys) :=
  match n with
  | O => Some (al, s)
  | S n =>
      sup ← ext4_bg_has_super_block g i;
      '(al, s) ← (if (sup : bool) then
          let group_start_block := u32 (first_data_block g + u32 (i * blocks_per_group g)) in
          append_region al (u32 (group_start_block + 1 + bg_desc_blocks g)) (bg_desc_reserve_blocks g) i s
        else Some (al, s));
      resize_regions n (i + 1) al s
  end.
Definition ext4_create_resize_inode (m : image_state) : option image_state :=
  '(inode, s) ← get_inode g EXT4_RESIZE_INO (fs m);
  '(al, s) ← resize_regions (Z.to_nat (groups g)) 0 create_allocation s;
  '(al, m) ← inode_attach_resize g fuel inode al (set_fs s m);
  let m := put_inode inode (set_mode (Z.lor (Z.lor S_IFREG S_IRUSR) S_IWUSR) 1 0 (inode_at m inode)) m in
  s ← free_alloc fuel al (fs m);
  Some (set_fs s m).

(** ** The counts of what is free *)
Definition add32 (o v : Z) (b : list Z) : Z * list Z := (o, bytes32 (u32 (le32 (slice o 4 b) + v))).
Fixpoint update_free_from (n : nat) (i : Z) (m : image_state) : option image_state :=
  match n with
  | O => Some m
  | S n =>
      free_b ← get_free_blocks (fs m) i;
      free_i ← get_free_inodes (fs m) i;
      dirs ← get_directories (fs m) i;
      sb ← bufs m !! ax_sb a;
      desc ← bufs m !! ax_desc a;
      m ← edit (ax_desc a) [(bg_free_blocks_count i, bytes16 free_b)] m;
      m ← edit (ax_sb a) [add32 s_free_blocks_count_lo free_b sb] m;
      m ← edit (ax_desc a) [(bg_free_inodes_count i, bytes16 free_i)] m;
      m ← edit (ax_sb a) [add32 s_free_inodes_count free_i sb] m;
      m ← edit (ax_desc a) [(bg_used_dirs_count i, bytes16 (le16 (slice (bg_used_dirs_count i) 2 desc) + dirs))] m;
      update_free_from n (i + 1) m
  end.
Definition ext4_update_free (m : image_state) : option image_state := update_free_from (Z.to_nat (groups g)) 0 m.

(** ** The directory that is packed *)
Record perms := Perms { p_mode : Z; p_uid : Z; p_gid : Z; p_mtime : Z }.
(** A file by its number and size, a link by its target; [HSpecial] has the file type of a
    device, FIFO or socket. *)
#[local] Unset Elimination Schemes.
Inductive host_node :=
  | HFile (f : nat) (size : Z)
  | HLink (link : list Z)
  | HDir (entries : list (list Z * perms * host_node))
  | HSpecial (file_type : Z).
#[local] Set Elimination Schemes.
Definition EXT4_FT_REG_FILE : Z := 1.
Definition EXT4_FT_SYMLINK : Z := 7.
Definition file_type_of (t : host_node) : Z :=
  match t with HFile _ _ => EXT4_FT_REG_FILE | HLink _ => EXT4_FT_SYMLINK | HDir _ => EXT4_FT_DIR | HSpecial ty => ty end.
Definition dentry_of (e : list Z * perms * host_node) : dentry := Dentry e.1.1 (file_type_of e.2) None.
Definition is_dir (e : list Z * perms * host_node) : bool := match e.2 with HDir _ => true | _ => false end.
Definition count_dirs (es : list (list Z * perms * host_node)) : Z := zlen (filter is_dir es).

(** The inode of an entry; for a directory this is [build_directory_structure]. *)
Fixpoint build (t : host_node) (dir_inode : Z) (m : image_state) : option (Z * image_state) :=
  match t with
  | HFile f size => make_file g fuel f size m
  | HLink link => make_link g fuel (take (Z.to_nat (bs - 1)) link) m
  | HSpecial _ => None
  | HDir entries =>
      '(inode, ds, m) ← make_directory g fuel dir_inode (dentry_of <$> entries) (count_dirs entries) m;
      m ← (fix loop (es : list (list Z * perms * host_node)) (ds : list dentry) (m : image_state) : option image_state :=
          match es, ds with
          | (_, p, t) :: es, d :: ds =>
              '(entry_inode, m) ← build t inode m;
              m ← set_entry_inode d entry_inode m;
              m ← inode_set_permissions g entry_inode (p_mode p) (p_uid p) (p_gid p) (p_mtime p) m;
              loop es ds m
          | _, _ => Some m
          end) entries ds m;
      Some (inode, m)
  end.
Definition build_directory_structure (entries : list (list Z * perms * host_node)) (dir_inode : Z) : image_state -> option (Z * image_state) :=
  build (HDir entries) dir_inode.
(** "lost+found" *)
Definition build_default_directory_structure (m : image_state) : option (Z * image_state) :=
  let dentries := [Dentry [108; 111; 115; 116; 43; 102; 111; 117; 110; 100] EXT4_FT_DIR None] in
  '(root_inode, ds, m) ← make_directory g fuel 0 dentries 1 m;
  '(inode, _, m) ← make_directory g fuel root_inode [] 0 m;
  d ← head ds;
  m ← set_entry_inode d inode m;
  m ← inode_set_permissions g inode S_IRWXU 0 0 0 m;
  Some (root_inode, m).

(** From the empty groups to the queue of all blocks; [i] is complete. *)
Definition root_mode : Z := 0x1ED.
Definition make_image (i : make_info) (mountpoint : option (list Z)) (directory : option (list (list Z * perms * host_node))) (init_itabs : bool) (m : image_state) : option image_state :=
  s ← block_allocator_init g (fs m);
  m ← ext4_fill_in_sb i (set_fs s m);
  m ← MTK_add_mountpoint mountpoint m;
  '(ret, s) ← reserve_inodes 0 10 (fs m);
  if ret =? EXT4_ALLOCATE_FAILED then None else
  let m := set_fs s m in
  m ← (if negb (Z.land (mi_feat_compat i) EXT4_FEATURE_COMPAT_HAS_JOURNAL =? 0) then ext4_create_journal_inode (mi_journal_blocks i) m else Some m);
  m ← (if negb (Z.land (mi_feat_compat i) EXT4_FEATURE_COMPAT_RESIZE_INODE =? 0) then ext4_create_resize_inode m else Some m);
  '(root, m) ← match directory with Some es => build_directory_structure es 0 m | None => build_default_directory_structure m end;
  m ← inode_set_permissions g root root_mode 0 0 0 m;
  m ← ext4_update_free m;
  s ← (if init_itabs then init_unused_inode_tables g (fs m) else Some (fs m));
  ext4_queue_sb (set_fs s m).
End Make.

(** [make_ext4fs_internal] up to the call of [write_ext4_image]: the parameters, [aux_info]
    and the image, for an empty memory that is handed out from [base]. *)
Definition make_ext4fs_internal (fuel : nat) (base : Z) (i : make_info) (t : option target) (mountpoint : option (list Z))
    (directory : option (list (list Z * perms * host_node))) (init_itabs : bool) : option (make_info * aux * image_state) :=
  i ← complete_info i t;
  g ← layout i;
  let '(a, m) := create_aux g (ImageState (Fsys [] ∅ 0 [] base) ∅ ∅) in
  m ← make_image a fuel i mountpoint directory init_itabs m;
  Some (i, a, m).
