(* ===== verification/TreeRead.v ===== *)
(** * Reading a directory tree from the bytes of an image

    What a kernel does to look at everything in a file system: the inode of a number is
    found in the table of its group, a directory names its entries with their inodes, and
    so on down to the data.  The reader is as strict as a checker: types and link counts
    have to agree, and [.] and [..] to be right.  At the end what the tree should be. *)
From stdpp Require Import base gmap list list_numbers.
From Stdlib Require Import ZArith Lia.
From S2P Require Import Prelude Crc SparseFormat Backed OutFile OutFileSpec ImageTrip.
From S2P Require Import Alloc AllocBits AllocInv AllocSafe Extent ExtentSpec ExtentFile FileTrip ReadBack Indirect Contents Dir Sha1 MakeFs.
#[local] Open Scope Z_scope.

(** ** Inodes as bytes *)
(** [struct ext4_inode], the first 128 bytes; the fields that are never set are zero. *)
Definition inode_bytes (i : ext4_inode) : list Z :=
  bytes16 (i_mode i) ++ bytes16 (i_uid i) ++ bytes32 (i_size_lo i) ++ bytes32 (i_atime i) ++ bytes32 (i_ctime i) ++ bytes32 (i_mtime i) ++ bytes32 0 ++
  bytes16 (i_gid i) ++ bytes16 (i_links_count i) ++ bytes32 (i_blocks_lo i) ++ bytes32 (i_flags i) ++ bytes32 0 ++
  i_block i ++ bytes32 0 ++ bytes32 0 ++ bytes32 (i_size_high i) ++ bytes32 0 ++ bytes16 (l_i_blocks_high i) ++ zeros 10.
Definition inode_of (b : list Z) : ext4_inode :=
  Inode (le16 b) (le16 (drop 2 b)) (le32 (drop 4 b)) (le32 (drop 8 b)) (le32 (drop 12 b)) (le32 (drop 16 b)) (le16 (drop 24 b)) (le16 (drop 26 b))
    (le32 (drop 28 b)) (le32 (drop 32 b)) (take 60 (drop 40 b)) (le32 (drop 108 b)) (le16 (drop 116 b)).
(** The fields that the reader looks at fit. *)
Definition inode_fits (i : ext4_inode) : Prop :=
  0 <= i_mode i < 2 ^ 16 ∧ 0 <= i_uid i < 2 ^ 16 ∧ 0 <= i_gid i < 2 ^ 16 ∧ 0 <= i_links_count i < 2 ^ 16 ∧
  0 <= i_mtime i < 2 ^ 32 ∧ 0 <= i_size_lo i < 2 ^ 32 ∧ 0 <= i_size_high i < 2 ^ 32 ∧ zlen (i_block i) = 60.

Lemma inode_bytes_zlen i : zlen (i_block i) = 60 -> zlen (inode_bytes i) = 128.
Proof. intros H. unfold inode_bytes. rewrite !zlen_app, H. done. Qed.
Lemma inode_read i : inode_fits i -> let j := inode_of (inode_bytes i) in
  i_mode j = i_mode i ∧ i_uid j = i_uid i ∧ i_gid j = i_gid i ∧ i_links_count j = i_links_count i ∧ i_mtime j = i_mtime i ∧
  i_size_lo j = i_size_lo i ∧ i_size_high j = i_size_high i ∧ i_block j = i_block i.
Proof.
  intros (H1 & H2 & H3 & H4 & H5 & H6 & H7 & H8) j.
  assert (Hl : length (i_block i) = 60%nat) by (unfold zlen in H8; lia).
  assert (E : ∃ a b, length a = 40%nat ∧ inode_bytes i = a ++ i_block i ++ b ∧ b = bytes32 0 ++ bytes32 0 ++ bytes32 (i_size_high i) ++ bytes32 0 ++ bytes16 (l_i_blocks_high i) ++ zeros 10).
  { exists (bytes16 (i_mode i) ++ bytes16 (i_uid i) ++ bytes32 (i_size_lo i) ++ bytes32 (i_atime i) ++ bytes32 (i_ctime i) ++ bytes32 (i_mtime i) ++ bytes32 0 ++
      bytes16 (i_gid i) ++ bytes16 (i_links_count i) ++ bytes32 (i_blocks_lo i) ++ bytes32 (i_flags i) ++ bytes32 0).
    eexists. split; [done|]. split; [|done]. unfold inode_bytes. by rewrite <- !app_assoc. }
  destruct E as (a & b & Ha & E & Eb).
  assert (Hmid : drop 40 (inode_bytes i) = i_block i ++ b) by (rewrite E, <- Ha; apply drop_app_length).
  assert (Hend : drop 108 (inode_bytes i) = drop 8 b).
  { rewrite E, app_assoc. replace 108%nat with (length (a ++ i_block i) + 8)%nat by (rewrite length_app; lia). apply drop_app_add. }
  subst j. cbn [inode_of i_mode i_uid i_gid i_links_count i_mtime i_size_lo i_size_high i_block]. rewrite Hmid, Hend, Eb. split_and!.
  - unfold inode_bytes. by apply le16_bytes16.
  - unfold inode_bytes. change (drop 2 (bytes16 ?x ++ ?t)) with t. by apply le16_bytes16.
  - unfold inode_bytes. change (drop 24 (bytes16 ?x1 ++ bytes16 ?x2 ++ bytes32 ?x3 ++ bytes32 ?x4 ++ bytes32 ?x5 ++ bytes32 ?x6 ++ bytes32 0 ++ ?t)) with t. by apply le16_bytes16.
  - unfold inode_bytes. change (drop 26 (bytes16 ?x1 ++ bytes16 ?x2 ++ bytes32 ?x3 ++ bytes32 ?x4 ++ bytes32 ?x5 ++ bytes32 ?x6 ++ bytes32 0 ++ bytes16 ?x7 ++ ?t)) with t. by apply le16_bytes16.
  - unfold inode_bytes. change (drop 16 (bytes16 ?x1 ++ bytes16 ?x2 ++ bytes32 ?x3 ++ bytes32 ?x4 ++ bytes32 ?x5 ++ ?t)) with t. by apply le32_bytes32.
  - unfold inode_bytes. change (drop 4 (bytes16 ?x1 ++ bytes16 ?x2 ++ ?t)) with t. by apply le32_bytes32.
  - change (drop 8 (bytes32 0 ++ bytes32 0 ++ ?t)) with t. by apply le32_bytes32.
  - rewrite <- Hl. apply take_app_length.
Qed.

(** ** The tree *)
#[local] Unset Elimination Schemes.
Inductive node := NFile (data : list Z) | NLink (target : list Z) | NDir (entries : list (list Z * perms * node)).
#[local] Set Elimination Schemes.
Definition is_ndir (e : list Z * perms * node) : bool := match e.2 with NDir _ => true | _ => false end.

Section Reader.
Context (g : geom).
Notation bs := (blk_size g).

(** Where the inode of a number is: the table of its group is behind the bitmaps. *)
Definition inode_place (n : Z) : option Z :=
  sup ← ext4_bg_has_super_block g ((n - 1) / inodes_per_group g);
  Some ((gfirst g ((n - 1) / inodes_per_group g) + gtable g sup) * bs + (n - 1) mod inodes_per_group g * inode_size g).
Definition load_inode (img : list Z) (n : Z) : option ext4_inode := o ← inode_place n; Some (inode_of (slice o 128 img)).
Definition size_of (i : ext4_inode) : Z := i_size_lo i + 2 ^ 32 * i_size_high i.
Definition perms_of (i : ext4_inode) : perms := Perms (i_mode i mod 2 ^ 12) (i_uid i) (i_gid i) (i_mtime i).

Fixpoint read_node (depth : nat) (img : list Z) (n type parent : Z) : option (perms * node) :=
  match depth with
  | O => None
  | S depth =>
      i ← load_inode img n;
      let kind := i_mode i / 2 ^ 12 in
      if (kind =? 8) && (type =? EXT4_FT_REG_FILE) && (i_links_count i =? 1) then
        data ← (if size_of i =? 0 then Some [] else read_inode g img i); Some (perms_of i, NFile data)
      else if (kind =? 10) && (type =? EXT4_FT_SYMLINK) && (i_links_count i =? 1) && (size_of i <? 60) then
        Some (perms_of i, NLink (slice 0 (size_of i) (i_block i)))
      else if (kind =? 4) && (type =? EXT4_FT_DIR) then
        data ← read_inode g img i;
        es ← read_dir (length data) bs data 0;
        match es with
        | (n1, t1, [46]) :: (n2, t2, [46; 46]) :: es =>
            nodes ← mapM (fun e => '(p, t) ← read_node depth img e.1.1 e.1.2 n; Some (e.2, p, t)) (filter (fun e => e.1.1 <> 0) es);
            if (n1 =? n) && (t1 =? EXT4_FT_DIR) && (n2 =? parent) && (t2 =? EXT4_FT_DIR) && (i_links_count i =? (zlen (filter is_ndir nodes) + 2) mod 2 ^ 16)
            then Some (perms_of i, NDir nodes) else None
        | _ => None
        end
      else None
  end.

(** ** What is packed *)
Section Packed.
Context (contents : nat -> list Z).
(** What the tree is to be read as, when it has no special files. *)
Fixpoint node_of (t : host_node) : node :=
  match t with
  | HFile f _ => NFile (contents f)
  | HLink link => NLink link
  | HDir es => NDir (map (fun e => (e.1.1, e.1.2, node_of e.2)) es)
  | HSpecial _ => NLink []
  end.
Definition perms_ok (p : perms) : Prop := 0 <= p_mode p < 2 ^ 12 ∧ 0 <= p_uid p < 2 ^ 16 ∧ 0 <= p_gid p < 2 ^ 16 ∧ 0 <= p_mtime p < 2 ^ 32.
(** Files have their size, links are short enough for the inode, and there is nothing special. *)
Fixpoint packable (t : host_node) : Prop :=
  match t with
  | HFile f size => size = zlen (contents f) ∧ file_blocks g size + 1 < 2 ^ 32
  | HLink link => zlen link < 60
  | HDir es => zlen es <= 500000 ∧ (fix all es := match es with [] => True | (name, p, t) :: es => (zlen name < 256 ∧ perms_ok p ∧ packable t) ∧ all es end) es
  | HSpecial _ => False
  end.
(** What it takes: inodes, blocks at most, and levels. *)
Fixpoint tree_inodes (t : host_node) : Z :=
  match t with HDir es => 1 + foldr (fun e n => tree_inodes e.2 + n) 0 es | _ => 1 end.
Fixpoint tree_blocks (t : host_node) : Z :=
  match t with
  | HFile _ size => if 0 <? size then file_blocks g size + 1 else 0
  | HDir es => dir_blocks g (dentry_of <$> es) + 1 + foldr (fun e n => tree_blocks e.2 + n) 0 es
  | _ => 0
  end.
Fixpoint height (t : host_node) : nat :=
  match t with HDir es => S (foldr (fun e n => Nat.max (height e.2) n) O es) | _ => 1%nat end.
End Packed.
End Reader.

(** Induction on the tree. *)
Lemma host_node_ind' (P : host_node -> Prop) :
  (∀ f size, P (HFile f size)) -> (∀ link, P (HLink link)) -> (∀ ty, P (HSpecial ty)) ->
  (∀ es, Forall (fun e => P e.2) es -> P (HDir es)) -> ∀ t, P t.
Proof.
  intros H1 H2 H3 H4. fix IH 1. intros [f size|link|es|ty]; [apply H1 | apply H2 | | apply H3]. apply H4.
  induction es as [|[[name p] t] es IHes]; constructor; [apply IH | exact IHes].
Qed.
Definition entry_packable (g : geom) (contents : nat -> list Z) (e : list Z * perms * host_node) : Prop :=
  zlen e.1.1 < 256 ∧ perms_ok e.1.2 ∧ packable g contents e.2.
Lemma packable_dir g contents es : packable g contents (HDir es) <-> zlen es <= 500000 ∧ Forall (entry_packable g contents) es.
Proof.
  cbn [packable]. apply and_iff_compat_l. induction es as [|[[name p] t] es IH]; [done|]. rewrite IH. split.
  - intros [H1 H2]. by constructor.
  - by intros [H1 H2]%Forall_cons.
Qed.
