(* ===== verification/TreeFrame.v ===== *)
(** * What the operations on an image leave alone

    The inode tables in memory, and a frame for each operation on an image under
    construction: tables stay where they are, the queue and the memory only grow, inodes
    and buffers that are there are not written, but those named.  Besides, what an
    operation costs of the blocks and inodes that are free. *)
From stdpp Require Import base gmap list list_numbers.
From Stdlib Require Import ZArith Lia.
From S2P Require Import Prelude Crc SparseFormat Backed Alloc AllocBits AllocInv AllocSafe AllocInit Extent ExtentSpec ExtentFile FileTrip ImageOk Indirect Contents.
#[local] Open Scope Z_scope.

Section Frame.
Context (g : geom).
Notation bs := (blk_size g).
Notation ipg := (inodes_per_group g).

(** ** Where inodes are *)
Definition table_at (s : fsys) (i : Z) : option Z := bg ← bg_at s i; inode_table bg.
Definition inode_addr (s : fsys) (n : Z) : option Z := p ← table_at s ((n - 1) / ipg); Some (p + (n - 1) mod ipg * inode_size g).
Definition table_len : Z := inode_table_blocks g * bs.

Record tables_ok (m : image_state) : Prop := TablesOk {
  to_below : ∀ i p, table_at (fs m) i = Some p -> p + table_len <= brk (fs m);
  to_apart : ∀ i j p q, i <> j -> table_at (fs m) i = Some p -> table_at (fs m) j = Some q -> p + table_len <= q ∨ q + table_len <= p;
  to_queued : ∀ i p sup, table_at (fs m) i = Some p -> ext4_bg_has_super_block g i = Some sup -> table_block g i p sup ∈ queued_ds (fs m);
  to_inodes : ∀ q, is_Some (inodes m !! q) -> ∃ n, 1 <= n <= groups g * ipg ∧ inode_taken g (fs m) n ∧ inode_addr (fs m) n = Some q
}.
Definition good (m : image_state) : Prop := image_ok g m ∧ tables_ok m.

(** ** The frame *)
(** Where anything but the headers and bitmaps of the groups is. *)
Definition body (b : Z) : Prop :=
  ∃ i sup, 0 <= i < groups g ∧ ext4_bg_has_super_block g i = Some sup ∧ gfirst g i + gtable g sup <= b < gfirst g i + blocks_per_group g.
Record frame (X B : list Z) (m m' : image_state) : Prop := MkFrame {
  fr_queue : ∃ more, queued_ds (fs m') = queued_ds (fs m) ++ more;
  fr_brk : brk (fs m) <= brk (fs m');
  fr_tables : ∀ i p, table_at (fs m) i = Some p -> table_at (fs m') i = Some p;
  fr_taken : ∀ n, 1 <= n -> inode_taken g (fs m) n -> inode_taken g (fs m') n;
  fr_keep : ∀ q, is_Some (inodes m !! q) -> is_Some (inodes m' !! q);
  fr_inodes : ∀ q i, inodes m !! q = Some i -> q ∉ X -> inodes m' !! q = Some i;
  fr_bufs : ∀ a, a < brk (fs m) -> a ∉ B -> bufs m' !! a = bufs m !! a;
  fr_new : ∀ d b, d ∈ queued_ds (fs m') -> occupies g d b -> d ∈ queued_ds (fs m) ∨ body b
}.
Lemma frame_refl X B m : frame X B m m.
Proof. split; try done; [exists []; by rewrite app_nil_r | by left]. Qed.
Lemma frame_trans X B m1 m2 m3 : frame X B m1 m2 -> frame X B m2 m3 -> frame X B m1 m3.
Proof.
  intros [(q1 & A1) A2 A3 A4 A5 A6 A7 A8] [(q2 & C1) C2 C3 C4 C5 C6 C7 C8]. split; eauto with lia.
  - exists (q1 ++ q2). by rewrite C1, A1, app_assoc.
  - intros a Ha Hb. rewrite C7, A7; by auto with lia.
  - intros d b Hd Hb. destruct (C8 d b Hd Hb); auto.
Qed.
(** What is written may also be new. *)
Lemma frame_step X B X' B' m1 m2 m3 : frame X B m1 m2 -> frame X' B' m2 m3 -> (∀ q, q ∈ X' -> q ∈ X ∨ inodes m1 !! q = None) -> (∀ a, a ∈ B' -> a ∈ B ∨ brk (fs m1) <= a) ->
  frame X B m1 m3.
Proof.
  intros [(q1 & A1) A2 A3 A4 A5 A6 A7 A8] [(q2 & C1) C2 C3 C4 C5 C6 C7 C8] HX HB. split; eauto with lia.
  - exists (q1 ++ q2). by rewrite C1, A1, app_assoc.
  - intros q i E Hq. apply C6; [by apply A6|]. intros Hin. destruct (HX q Hin); [done | congruence].
  - intros a Ha Hb. rewrite C7, A7; [done | done | done | lia |]. intros Hin. destruct (HB a Hin); [done | lia].
  - intros d b Hd Hb. destruct (C8 d b Hd Hb); auto.
Qed.
Lemma frame_sub X B X' B' m m' : frame X B m m' -> X ⊆ X' -> B ⊆ B' -> frame X' B' m m'.
Proof. intros Hf HX HB. apply (frame_step X' B' X B m m m' (frame_refl _ _ _) Hf); [intros q Hq; left; by apply HX | intros a Ha; left; by apply HB]. Qed.
(** An inode that was not there is not in the frame. *)
Lemma frame_fresh X p B m m' : frame (p :: X) B m m' -> inodes m !! p = None -> frame X B m m'.
Proof.
  intros [A1 A2 A3 A4 A5 A6 A7 A8] Hp. split; try done. intros q i E Hq. apply A6; [done|]. apply not_elem_of_cons. split; [congruence | done].
Qed.
Lemma frame_addr X B m m' n q : frame X B m m' -> inode_addr (fs m) n = Some q -> inode_addr (fs m') n = Some q.
Proof.
  intros Hf. unfold inode_addr. destruct (table_at (fs m) _) as [p|] eqn:E; [|done]. by rewrite (fr_tables _ _ _ _ Hf _ _ E).
Qed.

(** What was made from [m] to [m'] is still there in [m4], but for the inodes [X]. *)
Record since (X : list Z) (m m' m4 : image_state) : Prop := Since {
  si_queue : ∃ more, queued_ds (fs m4) = queued_ds (fs m') ++ more;
  si_tables : ∀ i p, table_at (fs m') i = Some p -> table_at (fs m4) i = Some p;
  si_inodes : ∀ q i, inodes m !! q = None -> inodes m' !! q = Some i -> q ∉ X -> inodes m4 !! q = Some i;
  si_bufs : ∀ a, brk (fs m) <= a < brk (fs m') -> bufs m4 !! a = bufs m' !! a
}.
Lemma since_refl X m m' : since X m m' m'.
Proof. split; try done. exists []. by rewrite app_nil_r. Qed.
(** A part of the time. *)
Lemma since_part X m m1 m2 m3 m4 X1 B1 X2 B2 : since X m m3 m4 -> frame X1 B1 m m1 -> frame X2 B2 m2 m3 ->
  brk (fs m1) <= brk (fs m2) -> (∀ a, a ∈ B2 -> a < brk (fs m1)) -> since (X ++ X2) m1 m2 m4.
Proof.
  intros [(qs & S1) S2 S3 S4] F1 F2 Hb HB. destruct (fr_queue _ _ _ _ F2) as (q2 & E2). pose proof (fr_brk _ _ _ _ F1). pose proof (fr_brk _ _ _ _ F2). split.
  - exists (q2 ++ qs). by rewrite S1, E2, app_assoc.
  - intros i p E. apply S2, (fr_tables _ _ _ _ F2), E.
  - intros q i E1 E Hq. rewrite not_elem_of_app in Hq. apply S3; [|apply (fr_inodes _ _ _ _ F2); [done | tauto] | tauto].
    apply eq_None_not_Some. intros H1. apply (fr_keep _ _ _ _ F1) in H1. rewrite E1 in H1. by destruct H1.
  - intros a Ha. rewrite S4 by lia. apply (fr_bufs _ _ _ _ F2); [lia|]. intros Hin. specialize (HB a Hin). lia.
Qed.

(** ** What is used up *)
Definition inodes_left (s : fsys) : Z := foldr Z.add 0 (free_inodes <$> bgs s).
Definition costs (b n : Z) (s s' : fsys) : Prop :=
  (∀ i bg, bg_at s i = Some bg -> ∃ bg', bg_at s' i = Some bg' ∧ free_blocks bg - b <= free_blocks bg') ∧ inodes_left s - n <= inodes_left s'.
Lemma costs_refl b n s : 0 <= b -> 0 <= n -> costs b n s s.
Proof. intros Hb Hn. split; [|lia]. intros i bg E. exists bg. split; [done | lia]. Qed.
Lemma costs_trans b n b' n' s1 s2 s3 : costs b n s1 s2 -> costs b' n' s2 s3 -> costs (b + b') (n + n') s1 s3.
Proof.
  intros [H1 H2] [H3 H4]. split; [|lia]. intros i bg E. destruct (H1 i bg E) as (bg1 & E1 & Hb1). destruct (H3 i bg1 E1) as (bg2 & E2 & Hb2). exists bg2. split; [done | lia].
Qed.
Lemma costs_le b n b' n' s s' : costs b n s s' -> b <= b' -> n <= n' -> costs b' n' s s'.
Proof. intros [H1 H2] Hb Hn. split; [|lia]. intros i bg E. destruct (H1 i bg E) as (bg1 & E1 & Hb1). exists bg1. split; [done | lia]. Qed.
Lemma costs_no_room b n l s s' : costs b n s s' -> no_room l s' -> no_room (l + b) s.
Proof. intros [H _] Hno i bg E. destruct (H i bg E) as (bg' & E' & Hb). specialize (Hno i bg' E'). lia. Qed.
(** There are too few inodes for [n], or no group has room for [b] blocks. *)
Definition short (b n : Z) (s : fsys) : Prop := inodes_left s < n ∨ no_room b s.
Lemma costs_short b n b' n' s s' : costs b n s s' -> short b' n' s' -> short (b' + b) (n' + n) s.
Proof. intros Hc [H|H]; [left; destruct Hc; lia | right; by apply (costs_no_room b n b' s s')]. Qed.
Lemma short_le b n b' n' s : short b n s -> b <= b' -> n <= n' -> short b' n' s.
Proof. intros [H|H] Hb Hn; [left; lia|]. right. intros i bg E. specialize (H i bg E). lia. Qed.
Lemma none_left s : (∀ i bg, bg_at s i = Some bg -> free_inodes bg = 0) -> inodes_left s = 0.
Proof.
  intros H. unfold inodes_left. assert (Hl : ∀ k bg, bgs s !! k = Some bg -> free_inodes bg = 0).
  { intros k bg E. apply (H (Z.of_nat k)). unfold bg_at. rewrite (proj2 (Z.ltb_ge _ _)) by lia. by rewrite Nat2Z.id. }
  clear H. revert Hl. induction (bgs s) as [|bg l IH]; intros Hl; [done|]. cbn. rewrite (Hl O bg) by done. rewrite IH; [done|]. intros k. apply (Hl (S k)).
Qed.
Lemma inodes_left_same s s' : free_inodes <$> bgs s' = free_inodes <$> bgs s -> inodes_left s' = inodes_left s.
Proof. unfold inodes_left. by intros ->. Qed.
Lemma sum_insert l k (x y : Z) : l !! k = Some x -> foldr Z.add 0 (<[k := y]> l) = foldr Z.add 0 l - x + y.
Proof.
  revert k. induction l as [|z l IH]; intros [|k]; cbn [lookup list_lookup]; [done | done | intros [= ->]; cbn; lia |]. intros E. specialize (IH k E).
  change (<[S k := y]> (z :: l)) with (z :: <[k := y]> l). cbn [foldr]. lia.
Qed.

Context (Hg : geom_ok g) (Hig : 0 < ipg <= 8 * bs) (Hcount : groups g * ipg < 2 ^ 32 - 1).
Context (Hsize : 128 <= inode_size g ∧ ipg * inode_size g <= inode_table_blocks g * bs).

Lemma group_range n : 1 <= n <= groups g * ipg -> 0 <= (n - 1) / ipg < groups g ∧ 0 <= (n - 1) mod ipg < ipg ∧ n - 1 = ipg * ((n - 1) / ipg) + (n - 1) mod ipg.
Proof.
  intros Hn. split; [|split; [apply Z.mod_pos_bound; lia | apply Z.div_mod; lia]]. split; [apply Z.div_pos; lia | apply Z.div_lt_upper_bound; nia].
Qed.
(** An inode has an address of its own. *)
Lemma in_table k : 0 <= k < ipg -> 0 <= k * inode_size g ∧ k * inode_size g + 128 <= table_len.
Proof. intros Hk. unfold table_len. nia. Qed.
Lemma inode_addr_inj m n n' q : tables_ok m -> 1 <= n <= groups g * ipg -> 1 <= n' <= groups g * ipg -> inode_addr (fs m) n = Some q -> inode_addr (fs m) n' = Some q -> n = n'.
Proof.
  intros Ht Hn Hn' E E'. destruct (group_range n Hn) as (G1 & G2 & G3), (group_range n' Hn') as (G1' & G2' & G3').
  pose proof (in_table _ G2) as K. pose proof (in_table _ G2') as K'. unfold inode_addr in *.
  destruct (table_at (fs m) ((n - 1) / ipg)) as [p|] eqn:Ep; [|done]. destruct (table_at (fs m) ((n' - 1) / ipg)) as [p'|] eqn:Ep'; [|done].
  injection E as <-. injection E' as E'. destruct (decide ((n - 1) / ipg = (n' - 1) / ipg)) as [Hd|Hd].
  - rewrite Hd in *. assert (p' = p) as -> by congruence. assert ((n' - 1) mod ipg = (n - 1) mod ipg) by (apply (Z.mul_cancel_r _ _ (inode_size g)); lia). lia.
  - destruct (to_apart m Ht _ _ _ _ Hd Ep Ep'); lia.
Qed.

(** ** Changes to one group *)
Lemma put_table s i j bg : groups_ok g (bgs s) -> 0 <= i < groups g -> table_at (put_bg i bg s) j = if decide (i = j) then inode_table bg else table_at s j.
Proof. intros Hs Hi. unfold table_at. rewrite (bg_at_put g s i j bg Hs Hi). by case_decide. Qed.
Lemma put_left s i bg bg' : bg_at s i = Some bg -> inodes_left (put_bg i bg' s) = inodes_left s - free_inodes bg + free_inodes bg'.
Proof.
  unfold bg_at. destruct (Z.ltb_spec i 0); [done|]. intros E. unfold inodes_left, put_bg, set_bgs. cbn [bgs]. rewrite list_fmap_insert. apply sum_insert. by rewrite list_lookup_fmap, E.
Qed.
(** A group is replaced by one with the same table, as many free blocks, and no fewer inodes taken. *)
Definition grows (bg bg' : block_group_info) : Prop :=
  inode_table bg' = inode_table bg ∧ free_blocks bg' = free_blocks bg ∧ ∀ j, 0 <= j < ipg -> bit_at (inode_bitmap bg) j = true -> bit_at (inode_bitmap bg') j = true.
Lemma put_group_ok m i bg bg' : good m -> bg_at (fs m) i = Some bg -> grows bg bg' -> image_ok g (set_fs (put_bg i bg' (fs m)) m) ->
  good (set_fs (put_bg i bg' (fs m)) m) ∧ frame [] [] m (set_fs (put_bg i bg' (fs m)) m) ∧ costs 0 (free_inodes bg - free_inodes bg') (fs m) (put_bg i bg' (fs m)).
Proof.
  intros [Hm Ht] E (G1 & G2 & G3) Hm'. destruct (bg_at_ok g (fs m) i bg (io_groups _ _ Hm) E) as [Hi _]. pose proof (io_groups _ _ Hm) as Hgs.
  assert (Htab : ∀ j, table_at (put_bg i bg' (fs m)) j = table_at (fs m) j).
  { intros j. rewrite put_table by done. case_decide as Hd; [|done]. subst j. unfold table_at. by rewrite E. }
  assert (Haddr : ∀ n, inode_addr (put_bg i bg' (fs m)) n = inode_addr (fs m) n) by (intros n; unfold inode_addr; by rewrite Htab).
  assert (Htak : ∀ n, 1 <= n -> inode_taken g (fs m) n -> inode_taken g (put_bg i bg' (fs m)) n).
  { intros n Hn (bgn & En & Hb). unfold inode_taken. rewrite (bg_at_put g (fs m) i _ bg' Hgs Hi). case_decide as Hd; [|by exists bgn].
    exists bg'. split; [done|]. rewrite Hd, En in E. injection E as <-. apply G3; [apply Z.mod_pos_bound; lia | done]. }
  split; [split; [exact Hm'|] | split].
  - destruct Ht as [T1 T2 T3 T4]. split; cbn [set_fs fs inodes].
    + intros j p. rewrite Htab. apply T1.
    + intros j k p q. rewrite !Htab. apply T2.
    + intros j p sup. rewrite Htab. apply T3.
    + intros q Hq. destruct (T4 q Hq) as (n & Hn & H1 & H2). exists n. rewrite Haddr. split; [done|]. split; [apply Htak; [lia | done] | done].
  - split; cbn [set_fs fs inodes bufs]; try done; [by exists []; rewrite app_nil_r | intros j p; by rewrite Htab | by left].
  - split; [|rewrite (put_left _ _ _ _ E); lia]. intros j bgj Ej. rewrite (bg_at_put g (fs m) i j bg' Hgs Hi). case_decide as Hd; [|exists bgj; split; [done | lia]].
    subst j. exists bg'. split; [done|]. assert (bgj = bg) as -> by congruence. lia.
Qed.

(** ** Inodes *)
Lemma reserve_inodes_ok m i : good m -> 0 <= i < groups g ->
  ∃ bg, bg_at (fs m) i = Some bg ∧
  ((free_inodes bg = 0 ∧ reserve_inodes i 1 (fs m) = Some (EXT4_ALLOCATE_FAILED, fs m)) ∨
   (∃ s', reserve_inodes i 1 (fs m) = Some (first_free_inode bg, s') ∧ 1 <= first_free_inode bg <= ipg ∧ good (set_fs s' m) ∧ frame [] [] m (set_fs s' m) ∧ costs 0 1 (fs m) s')).
Proof.
  intros Hgm Hi. destruct (reserve_one g Hg Hig m i (proj1 Hgm) Hi) as (bg & E & [H|(H1 & bm & (_ & _ & Hbm) & Hc & Er & Hm')]); exists bg; (split; [done|]); [by left | right].
  eexists. split; [exact Er|]. split; [done|]. set (bg' := with_inodes _ _ _ _) in *. assert (Hgr : grows bg bg').
  { split; [done|]. split; [done|]. intros j Hj Hb. cbn [bg' with_inodes inode_bitmap]. rewrite Hbm, Hb by lia. done. }
  destruct (put_group_ok m i bg bg' Hgm E Hgr Hm') as (K1 & K2 & K3). split; [done|]. split; [done|]. cbn [bg' with_inodes free_inodes] in K3. by replace (free_inodes bg - (free_inodes bg - 1)) with 1 in K3 by lia.
Qed.
Lemma inode_from_frame m n i : good m -> 0 <= i -> i + Z.of_nat n <= groups g ->
  ∀ k s', inode_from g n i (fs m) = Some (k, s') -> k <> EXT4_ALLOCATE_FAILED -> good (set_fs s' m) ∧ frame [] [] m (set_fs s' m) ∧ costs 0 1 (fs m) s'.
Proof.
  intros Hm. revert i. induction n as [|n IH]; intros i Hi Hn k s'; cbn [inode_from]; [by intros [= <- <-]|].
  destruct (reserve_inodes_ok m i Hm ltac:(lia)) as (bg & E & [(H0 & ->)|(s1 & -> & H1 & K)]); cbn [mbind option_bind].
  - rewrite Z.eqb_refl. cbn [negb]. apply IH; lia.
  - rewrite (proj2 (Z.eqb_neq _ _)) by (unfold EXT4_ALLOCATE_FAILED; pose proof (blk_range g Hg); lia). cbn [negb]. by intros [= <- <-].
Qed.
(** A new inode: none, or one that has no record yet. *)
Lemma allocate_inode_good m : good m ->
  (allocate_inode g (fs m) = Some (EXT4_ALLOCATE_FAILED, fs m) ∧ short 0 1 (fs m)) ∨
  ∃ n s', allocate_inode g (fs m) = Some (n, s') ∧ n <> EXT4_ALLOCATE_FAILED ∧ 1 <= n <= groups g * ipg ∧ ¬ inode_taken g (fs m) n ∧ inode_taken g s' n ∧
    good (set_fs s' m) ∧ frame [] [] m (set_fs s' m) ∧ costs 0 1 (fs m) s'.
Proof.
  intros Hm. destruct (allocate_inode_ok g Hg Hig m (proj1 Hm) Hcount) as [[E Hno]|(n & s' & E & _ & Hn & Hnt & Htk & _)].
  - left. split; [done|]. left. rewrite none_left by done. lia.
  - right. exists n, s'. assert (n <> EXT4_ALLOCATE_FAILED) by (unfold EXT4_ALLOCATE_FAILED; lia). pose proof (go_groups g Hg).
    destruct (inode_from_frame m (Z.to_nat (groups g)) 0 Hm ltac:(lia) ltac:(lia) n s' E ltac:(done)) as (K1 & K2 & K3). split_and!; try done; try lia. apply Htk; [lia | by right].
Qed.
Lemma add_directory_good m n : good m -> 1 <= n <= groups g * ipg ->
  ∃ s', add_directory g n (fs m) = Some s' ∧ good (set_fs s' m) ∧ frame [] [] m (set_fs s' m) ∧ costs 0 0 (fs m) s'.
Proof.
  intros Hm Hn. destruct (add_directory_ok g Hig m n (proj1 Hm) Hn ltac:(lia)) as (s' & E & Hm' & _). exists s'. split; [done|].
  unfold add_directory in E. rewrite (u32_small (n - 1)) in E by lia. destruct (bg_at (fs m) ((n - 1) / ipg)) as [bg|] eqn:Eb; [|done]. cbn [mbind option_bind] in E. injection E as <-.
  destruct (put_group_ok m _ bg (set_dirs ((used_dirs bg + 1) mod 2 ^ 16) bg) Hm Eb) as (K1 & K2 & K3); [by split_and! | done |]. cbn [set_dirs free_inodes] in K3. by rewrite Z.sub_diag in K3.
Qed.

(** A table that is made. *)
Section Table.
Context (m : image_state) (Hgm : good m) (i : Z) (bg : block_group_info) (E : bg_at (fs m) i = Some bg) (Et : inode_table bg = None).
Lemma add_table_at j : table_at (add_table g i bg (fs m)) j = if decide (i = j) then Some (brk (fs m)) else table_at (fs m) j.
Proof.
  destruct (bg_at_ok g (fs m) i bg (io_groups _ _ (proj1 Hgm)) E) as [Hi _]. pose proof (io_groups _ _ (proj1 Hgm)) as Hgs.
  set (s1 := Fsys (bgs (fs m)) (regs (fs m)) (fresh (fs m)) (queued_ds (fs m)) (brk (fs m) + inode_table_blocks g * bs)).
  change (table_at (put_bg i (with_table (Some (brk (fs m))) bg) s1) j = if decide (i = j) then Some (brk (fs m)) else table_at s1 j).
  by rewrite put_table.
Qed.
Lemma add_table_other j p : table_at (fs m) j = Some p -> j <> i ∧ table_at (add_table g i bg (fs m)) j = Some p.
Proof. intros H. assert (j <> i). { intros ->. unfold table_at in H. rewrite E in H. cbn in H. congruence. } split; [done|]. by rewrite add_table_at, decide_False. Qed.
Lemma add_table_taken n : inode_taken g (add_table g i bg (fs m)) n <-> inode_taken g (fs m) n.
Proof.
  destruct (bg_at_ok g (fs m) i bg (io_groups _ _ (proj1 Hgm)) E) as [Hi _]. pose proof (io_groups _ _ (proj1 Hgm)) as Hgs.
  set (s1 := Fsys (bgs (fs m)) (regs (fs m)) (fresh (fs m)) (queued_ds (fs m)) (brk (fs m) + inode_table_blocks g * bs)).
  unfold inode_taken. change (bg_at (add_table g i bg (fs m))) with (bg_at (put_bg i (with_table (Some (brk (fs m))) bg) s1)).
  rewrite (bg_at_put g s1 i _ (with_table (Some (brk (fs m))) bg) Hgs Hi). change (bg_at s1) with (bg_at (fs m)). case_decide as Hd; [|done]. rewrite <- Hd, E.
  split; intros (b & [= <-] & Hb); [by exists bg | by exists (with_table (Some (brk (fs m))) bg)].
Qed.
Lemma add_table_frame : 0 < table_len -> frame [] [] m (set_fs (add_table g i bg (fs m)) m).
Proof.
  intros Hl. split; cbn [set_fs fs inodes bufs]; try done.
  - by exists [table_block g i (brk (fs m)) (has_superblock bg)].
  - cbn. unfold table_len in Hl. lia.
  - intros j p Hj. by apply add_table_other.
  - intros n _. by rewrite add_table_taken.
  - intros d b. change (queued_ds (add_table g i bg (fs m))) with (queued_ds (fs m) ++ [table_block g i (brk (fs m)) (has_superblock bg)]). rewrite elem_of_app, list_elem_of_singleton.
    intros [Hd| ->] Ho; [by left | right]. destruct (bg_at_ok g (fs m) i bg (io_groups _ _ (proj1 Hgm)) E) as [Hi Hbg]. exists i, (has_superblock bg). split; [done|]. split; [apply (b_super _ _ _ Hbg)|].
    unfold occupies in Ho. rewrite (nblocks_mul g Hg (table_block g i (brk (fs m)) (has_superblock bg)) (inode_table_blocks g)) in Ho by done. cbn [table_block block] in Ho.
    pose proof (bg_bounds g Hg i bg Hi Hbg). unfold gdata in *. lia.
Qed.
Lemma add_table_tables : 0 < table_len -> tables_ok (set_fs (add_table g i bg (fs m)) m).
Proof.
  intros Hl. pose proof Hgm as [_ [T1 T2 T3 T4]]. pose proof (bg_at_ok g (fs m) i bg (io_groups _ _ (proj1 Hgm)) E) as [_ Hbg].
  assert (Hb : brk (add_table g i bg (fs m)) = brk (fs m) + table_len) by done. split; cbn [set_fs fs inodes].
  - intros j p. rewrite add_table_at, Hb. case_decide; [intros [= <-]; lia | intros H1; specialize (T1 _ _ H1); lia].
  - intros j k p q Hjk. rewrite !add_table_at. repeat case_decide; subst; try done.
    + intros [= <-] H2. right. apply (T1 _ _ H2).
    + intros H1 [= <-]. left. apply (T1 _ _ H1).
    + by apply T2.
  - intros j p sup. rewrite add_table_at. change (queued_ds (add_table g i bg (fs m))) with (queued_ds (fs m) ++ [table_block g i (brk (fs m)) (has_superblock bg)]). rewrite elem_of_app.
    case_decide as Hd; [|intros H1 H2; left; by apply T3]. subst j. intros [= <-] Hs. right. apply list_elem_of_singleton. pose proof (b_super _ _ _ Hbg). by assert (sup = has_superblock bg) as -> by congruence.
  - intros q Hq. destruct (T4 q Hq) as (n & Hn & H1 & H2). exists n. split; [done|]. split; [by apply add_table_taken|].
    unfold inode_addr in *. destruct (table_at (fs m) ((n - 1) / ipg)) as [p|] eqn:Ep; [|done]. by rewrite (proj2 (add_table_other _ _ Ep)).
Qed.
Lemma add_table_costs : costs 0 0 (fs m) (add_table g i bg (fs m)).
Proof.
  destruct (bg_at_ok g (fs m) i bg (io_groups _ _ (proj1 Hgm)) E) as [Hi _]. pose proof (io_groups _ _ (proj1 Hgm)) as Hgs.
  set (s1 := Fsys (bgs (fs m)) (regs (fs m)) (fresh (fs m)) (queued_ds (fs m)) (brk (fs m) + inode_table_blocks g * bs)). split.
  - intros j bgj Ej. change (bg_at (add_table g i bg (fs m)) j) with (bg_at (put_bg i (with_table (Some (brk (fs m))) bg) s1) j).
    rewrite (bg_at_put g s1 i j _ Hgs Hi). case_decide as Hd; [subst j; eexists; split; [done|]; assert (bgj = bg) as -> by congruence; cbn; lia | exists bgj; split; [done | lia]].
  - change (inodes_left (add_table g i bg (fs m))) with (inodes_left (put_bg i (with_table (Some (brk (fs m))) bg) s1)). rewrite (put_left s1 i bg) by done. cbn [with_table free_inodes]. change (inodes_left s1) with (inodes_left (fs m)). lia.
Qed.
End Table.

(** The address of an inode; its table may be made on the way. *)
Lemma get_inode_good m n : good m -> 1 <= n <= groups g * ipg ->
  ∃ s' p, get_inode g n (fs m) = Some (p, s') ∧ good (set_fs s' m) ∧ frame [] [] m (set_fs s' m) ∧ costs 0 0 (fs m) s' ∧ inode_addr s' n = Some p.
Proof.
  intros Hgm Hn. pose proof Hgm as [Hm Ht]. destruct (group_range n Hn) as (G1 & G2 & _). pose proof (in_table _ G2) as K. pose proof (io_groups _ _ Hm) as Hgs.
  destruct (bg_at_is_Some g (fs m) _ Hgs G1) as [bg E]. destruct (bg_table_ok g Hg Hig m _ Hm G1) as (s' & p & bg' & E1 & E2 & E3 & Hm' & _).
  destruct (bg_at_ok g (fs m) _ bg Hgs E) as [_ Hbg]. pose proof (bg_bounds g Hg _ bg G1 Hbg). pose proof (go_counts g Hg). pose proof (blk_range g Hg).
  assert (Hlen : 0 < table_len < 2 ^ 32).
  { unfold table_len. assert (inode_table_blocks g <= gdata g (has_superblock bg)) by (unfold gdata, gtable, gmaps; destruct (has_superblock bg); lia). nia. }
  exists s', (p + (n - 1) mod ipg * inode_size g). split; [|split; [|split; [|split]]].
  - unfold get_inode. rewrite (u32_small (n - 1)) by lia. rewrite E1. cbn [mbind option_bind]. rewrite E2. cbn [mbind option_bind]. rewrite E3. cbn [mbind option_bind]. by rewrite u32_small by lia.
  - split; [exact Hm'|]. rewrite (bg_table_eq g Hg Hig (fs m) _ bg Hgs E) in E1. injection E1 as <-. destruct (inode_table bg) as [q|] eqn:Et; [by destruct m|]. apply add_table_tables; [done..|lia].
  - rewrite (bg_table_eq g Hg Hig (fs m) _ bg Hgs E) in E1. injection E1 as <-. destruct (inode_table bg) as [q|] eqn:Et; [destruct m; apply frame_refl|]. apply add_table_frame; [done..|lia].
  - rewrite (bg_table_eq g Hg Hig (fs m) _ bg Hgs E) in E1. injection E1 as <-. destruct (inode_table bg) as [q|] eqn:Et; [by apply costs_refl|]. by apply (add_table_costs m).
  - unfold inode_addr, table_at. rewrite E2. cbn [mbind option_bind]. by rewrite E3.
Qed.

(** ** Files *)
(** Regions have as many blocks as a run that they cover. *)
Lemma covered_count R x k : Forall (fun c => 0 < r_len c.2) R -> (∀ b, x <= b < x + k -> covers R b) -> k <= total_len R.
Proof.
  intros HR Hc. destruct (Z.le_gt_cases k 0) as [Hk|Hk].
  { clear Hc. induction HR as [|[y r] R H1 _ IH]; cbn in *; lia. }
  set (blocks := concat ((fun c => seqZ (r_block c.2) (r_len c.2)) <$> R)).
  assert (Hin : ∀ b, b ∈ blocks <-> covers R b).
  { intros b. unfold blocks. rewrite list_elem_of_In, in_concat. split.
    - intros (l & Hl & Hb). apply list_elem_of_In, list_elem_of_fmap in Hl as ([y r] & -> & Hy). apply list_elem_of_In, elem_of_seqZ in Hb. by exists y, r.
    - intros (y & r & Hy & Hb). exists (seqZ (r_block r) (r_len r)). split; [apply list_elem_of_In, list_elem_of_fmap; by exists (y, r)|]. by apply list_elem_of_In, elem_of_seqZ. }
  assert (Hlen : Z.of_nat (length blocks) = total_len R).
  { unfold blocks. clear -HR. induction HR as [|[y r] R H1 _ IH]; [done|]. cbn [fmap list_fmap concat total_len snd] in *. rewrite length_app, length_seqZ. lia. }
  assert (Hle : (length (seqZ x k) <= length blocks)%nat); [|rewrite length_seqZ in Hle; lia].
  apply submseteq_length, NoDup_submseteq; [apply NoDup_seqZ|]. intros b Hb. apply elem_of_seqZ in Hb. by apply Hin, Hc.
Qed.
Lemma allocated_costs s s1 R k : groups_ok g (bgs s) -> allocated g s s1 R -> total_len R <= k -> costs k 0 s s1.
Proof.
  intros Hs Hal Hk. assert (Hrest : ∀ i bg, bg_at s i = Some bg -> ∃ bg1, bg_at s1 i = Some bg1 ∧ same_rest bg bg1).
  { intros i bg E. pose proof (al_rest _ _ _ _ Hal i) as Hr. rewrite E in Hr. destruct (bg_at s1 i) as [bg1|]; [by exists bg1 | done]. }
  split.
  - intros i bg E. destruct (Hrest i bg E) as (bg1 & E1 & Hr). exists bg1. split; [done|].
    destruct (bg_at_ok g s i bg Hs E) as [Hi Hbg]. destruct (bg_at_ok g s1 i bg1 (al_groups _ _ _ _ Hal) E1) as [_ Hbg1].
    pose proof (bg_bounds g Hg i bg Hi Hbg). pose proof (bg_bounds g Hg i bg1 Hi Hbg1).
    assert (first_free_block bg1 - first_free_block bg <= total_len R); [|lia]. apply (covered_count R (gfirst g i + first_free_block bg)); [apply (al_pos _ _ _ _ Hal)|].
    intros b Hb. assert (Hfree : free_data g s b) by (exists i, bg; split; [done | lia]).
    destruct (decide (Exists (fun c => r_block c.2 <= b < r_block c.2 + r_len c.2) R)) as [Hx|Hx].
    { apply Exists_exists in Hx as ([y r] & Hy & Hb'). by exists y, r. }
    exfalso. assert (Hfree1 : free_data g s1 b).
    { apply (al_free _ _ _ _ Hal). split; [done|]. intros (y & r & Hy & Hb'). apply Hx, Exists_exists. by exists (y, r). }
    destruct Hfree1 as (j & bgj & Ej & Hj). destruct (bg_at_ok g s1 j bgj (al_groups _ _ _ _ Hal) Ej) as [Hj' Hbgj]. pose proof (bg_bounds g Hg j bgj Hj' Hbgj).
    assert (i = j) as <- by (apply (same_group g Hg i j b); lia). assert (bgj = bg1) as -> by congruence. lia.
  - rewrite Z.sub_0_r. apply Z.eq_le_incl. symmetry. apply inodes_left_same. destruct Hs as [Hl _], (al_groups _ _ _ _ Hal) as [Hl1 _]. unfold zlen in *.
    apply list_eq. intros k'. rewrite !list_lookup_fmap. pose proof (al_rest _ _ _ _ Hal (Z.of_nat k')) as Hr. unfold bg_at in Hr. rewrite (proj2 (Z.ltb_ge _ _)), Nat2Z.id in Hr by lia.
    destruct (bgs s !! k') as [bg|], (bgs s1 !! k') as [bg1|]; try done. by destruct Hr as (? & ? & ? & ? & ->).
Qed.
Lemma allocated_tables s s1 R i : allocated g s s1 R -> table_at s1 i = table_at s i.
Proof.
  intros Hal. pose proof (al_rest _ _ _ _ Hal i) as Hr. unfold table_at. destruct (bg_at s i) as [bg|], (bg_at s1 i) as [bg1|]; try done. by destruct Hr as (? & ? & ? & ? & ->).
Qed.
Lemma allocated_taken s s1 R n : allocated g s s1 R -> inode_taken g s1 n <-> inode_taken g s n.
Proof.
  intros Hal. pose proof (al_rest _ _ _ _ Hal ((n - 1) / ipg)) as Hr. unfold inode_taken. destruct (bg_at s _) as [bg|], (bg_at s1 _) as [bg1|]; try done.
  destruct Hr as (bm & u & f & k & ->). split; intros (b & [= <-] & Hb); eexists; (split; [done|]); exact Hb.
Qed.
Lemma tables_bgs s s' : bgs s' = bgs s -> (∀ i, table_at s' i = table_at s i) ∧ (∀ n, inode_taken g s' n <-> inode_taken g s n) ∧ ∀ n, inode_addr s' n = inode_addr s n.
Proof. intros E. assert (H : ∀ i, bg_at s' i = bg_at s i) by (intros i; unfold bg_at; by rewrite E). unfold inode_addr, table_at, inode_taken. split_and!; intros i; by rewrite H. Qed.
(** A record is written. *)
Lemma put_inode_good m n p i : good m -> 1 <= n <= groups g * ipg -> inode_taken g (fs m) n -> inode_addr (fs m) n = Some p -> zlen (i_block i) = 60 ->
  good (put_inode p i m) ∧ frame [p] [] m (put_inode p i m).
Proof.
  intros [Hm [T1 T2 T3 T4]] Hn Htk Ha Hi. split; [split; [by apply image_ok_inode|]|].
  - split; cbn [put_inode fs inodes]; try done. intros q Hq. destruct (decide (q = p)) as [->|Hne]; [by exists n|]. rewrite lookup_insert_ne in Hq by done. by apply T4.
  - split; cbn [put_inode fs inodes bufs]; try done; [by exists []; rewrite app_nil_r | | |by left].
    + intros q Hq. destruct (decide (p = q)) as [->|Hne]; [by rewrite lookup_insert_eq | by rewrite lookup_insert_ne].
    + intros q j E Hq. rewrite lookup_insert_ne; [done|]. intros ->. apply Hq. by left.
Qed.
Lemma put_buf_good m a b : good m -> good (put_buf a b m) ∧ frame [] [a] m (put_buf a b m).
Proof.
  intros [Hm [T1 T2 T3 T4]]. split; [split; [by apply image_ok_buf | by split]|].
  split; cbn [put_buf fs inodes bufs]; try done; [by exists []; rewrite app_nil_r | |by left]. intros q Hq Hb. apply lookup_insert_ne. intros ->. apply Hb. by left.
Qed.
(** A file or directory that was put in, with its record. *)
Lemma free_body s b : groups_ok g (bgs s) -> free_data g s b -> body b.
Proof.
  intros Hs (i & bg & E & Hb). destruct (bg_at_ok g s i bg Hs E) as [Hi Hbg]. pose proof (bg_bounds g Hg i bg Hi Hbg). pose proof (go_counts g Hg). exists i, (has_superblock bg).
  split; [done|]. split; [apply (b_super _ _ _ Hbg)|]. unfold gdata in *. lia.
Qed.
Lemma filed_new m m3 p len oob L mk d b : good m -> mk_ok mk -> filed g m m3 p len oob L (backing g mk L len 0) -> d ∈ queued_ds (fs m3) -> occupies g d b -> d ∈ queued_ds (fs m) ∨ body b.
Proof.
  intros [Hm _] Hmk Hfi Hd Hb. destruct (fi_alloc _ _ _ _ _ _ _ _ Hfi) as (s1 & Hal & _). destruct (fi_fits _ _ _ _ _ _ _ _ Hfi) as [HL _].
  rewrite (fi_queued _ _ _ _ _ _ _ _ Hfi) in Hd. apply elem_of_app in Hd as [Hd|Hd]; [by left | right]. apply (free_body (fs m)); [apply Hm|]. apply (al_in _ _ _ _ Hal). apply covers_app.
  apply elem_of_app in Hd as [Hd|Hd]; [left | right; by apply (backing_covers g Hg mk L len 0 d b)].
  apply list_elem_of_fmap in Hd as ([x r] & -> & Hx). exists x, r. split; [done|]. pose proof (al_pos _ _ _ _ Hal) as Hpos. rewrite Forall_app, !Forall_forall in Hpos. destruct Hpos as [Hpos _]. specialize (Hpos _ Hx). cbn in Hpos.
  unfold occupies in Hb. rewrite (nblocks_mul g Hg (extents_block g (r_block (x, r).2) (brk (fs m))) 1) in Hb by (cbn; lia). cbn in Hb. lia.
Qed.
Lemma filed_good m m3 n p len oob L mk i : good m -> mk_ok mk -> 1 <= n <= groups g * ipg -> inode_taken g (fs m) n -> inode_addr (fs m) n = Some p -> zlen (i_block i) = 60 ->
  filed g m m3 p len oob L (backing g mk L len 0) -> (∀ a, a < brk (fs m) -> bufs m3 !! a = bufs m !! a) ->
  good (put_inode p i m3) ∧ frame [p] [] m (put_inode p i m3) ∧ costs (file_blocks g len + 1) 0 (fs m) (fs m3).
Proof.
  intros Hgm Hmk Hn Htk Ha Hi Hfi Hbufs. pose proof Hgm as [Hm [T1 T2 T3 T4]]. destruct (fi_alloc _ _ _ _ _ _ _ _ Hfi) as (s1 & Hal & Eb). pose proof (fi_queued _ _ _ _ _ _ _ _ Hfi) as Eq. pose proof (fi_brk _ _ _ _ _ _ _ _ Hfi) as Hbrk.
  destruct (fi_inode _ _ _ _ _ _ _ _ Hfi) as (Hoth & _). destruct (tables_bgs _ _ Eb) as (B1 & B2 & B3).
  assert (Htab : ∀ j, table_at (fs m3) j = table_at (fs m) j) by (intros j; rewrite B1; by apply (allocated_tables _ _ (oob ++ L))).
  assert (Htk' : ∀ k, inode_taken g (fs m3) k <-> inode_taken g (fs m) k) by (intros k; rewrite B2; by apply (allocated_taken _ _ (oob ++ L))).
  assert (Haddr : ∀ k, inode_addr (fs m3) k = inode_addr (fs m) k) by (intros k; unfold inode_addr; by rewrite Htab).
  assert (Hput : ∀ q, is_Some (inodes (put_inode p i m3) !! q) <-> q = p ∨ is_Some (inodes m !! q)).
  { intros q. cbn. destruct (decide (p = q)) as [->|Hne]; [rewrite lookup_insert_eq; naive_solver|]. rewrite lookup_insert_ne, Hoth by done. naive_solver. }
  split; [split; [apply image_ok_inode; [apply (fi_ok _ _ _ _ _ _ _ _ Hfi) | done]|] | split].
  - split.
    + intros j q. cbn [put_inode fs]. rewrite Htab. intros H1. specialize (T1 _ _ H1). lia.
    + intros j k q r. cbn [put_inode fs]. rewrite !Htab. apply T2.
    + intros j q sup. cbn [put_inode fs]. rewrite Htab, Eq. intros H1 H2. apply elem_of_app. left. by apply T3.
    + intros q Hq. apply Hput in Hq. cbn [put_inode fs]. destruct Hq as [->|Hq]; [exists n; by rewrite Htk', Haddr|]. destruct (T4 q Hq) as (k & Hk & H1 & H2). exists k. by rewrite Htk', Haddr.
  - split; cbn [put_inode fs bufs]; try done.
    + eexists. exact Eq.
    + intros j q. by rewrite Htab.
    + intros k _. by rewrite Htk'.
    + intros q Hq. apply Hput. by right.
    + intros q j E Hq. cbn. apply not_elem_of_cons in Hq as [Hq _]. by rewrite lookup_insert_ne, Hoth by done.
    + intros a Hlt _. by apply Hbufs.
    + intros d b Hd Hb. by apply (filed_new m m3 p len oob L mk).
  - apply (costs_le (file_blocks g len + 1) 0); [|lia..]. destruct (fi_len _ _ _ _ _ _ _ _ Hfi) as [F1 F2].
    assert (Ht : total_len (oob ++ L) <= file_blocks g len + 1).
    { assert (total_len (oob ++ L) = total_len oob + total_len L); [|lia]. clear. induction oob as [|[x r] oob IH]; cbn in *; lia. }
    destruct (allocated_costs _ _ _ _ (io_groups _ _ Hm) Hal Ht) as [C1 C2]. split.
    + intros j bg E. destruct (C1 j bg E) as (bg1 & E1 & Hle). exists bg1. split; [|done]. unfold bg_at in *. by rewrite Eb.
    + unfold inodes_left in *. by rewrite Eb.
Qed.
End Frame.
