(* ===== verification/TreeBuild.v ===== *)
(** * The tree that is packed is the tree that is read

    Files, links and directories one by one, each with its frame, and then the walk of
    [build_directory_structure] over the host directory, by induction on it: whatever is
    put in is still read at the end. *)
From stdpp Require Import base gmap list list_numbers.
From Stdlib Require Import ZArith Lia.
From S2P Require Import Prelude Crc SparseFormat Backed OutFile OutFileSpec ImageTrip.
From S2P Require Import Alloc AllocBits AllocInv AllocSafe AllocInit Extent ExtentSpec ExtentFile FileTrip ReadBack ImageOk Indirect Contents Dir ImageFiles Sha1 MakeFs TreeRead TreeFrame.
#[local] Open Scope Z_scope.

Section Build.
Context (g : geom) (Hg : geom_ok g) (Hig : 0 < inodes_per_group g <= 8 * blk_size g) (Hcount : groups g * inodes_per_group g < 2 ^ 32 - 1).
Context (Hsize : 128 <= inode_size g ∧ inodes_per_group g * inode_size g <= inode_table_blocks g * blk_size g).
Context (fuel : nat) (Hfuel : groups g + 1 < Z.of_nat fuel) (Hcap : 12 * (groups g + 2) <= blk_size g).
Context (contents : nat -> list Z).
Notation bs := (blk_size g).
Notation ipg := (inodes_per_group g).

(** ** What is in the image when it is read *)
(** The inode tables in memory are the records. *)
Definition tables_loaded (load : Z -> Z -> option (list Z)) (m : image_state) : Prop :=
  ∀ i p, table_at (fs m) i = Some p -> ∃ t, load p (table_len g) = Some t ∧ zlen t = table_len g ∧
    ∀ k, 0 <= k < ipg -> slice (k * inode_size g) 128 t = inode_bytes (inode_at m (p + k * inode_size g)).
(** The image holds what is queued, as it is in memory and in the files. *)
Record viewed (load : Z -> Z -> option (list Z)) (mmap64 : nat -> Z -> Z -> option (list Z)) (img : list Z) (m : image_state) : Prop := Viewed {
  vw_loads : loads load m;
  vw_tables : tables_loaded load m;
  vw_files : ∀ f, maps mmap64 f (contents f);
  vw_place : in_place g load mmap64 img (queued_ds (fs m))
}.
Definition with_perms (p : perms) (i : ext4_inode) : ext4_inode :=
  Inode (Z.lor (i_mode i) (p_mode p)) (p_uid p) (i_size_lo i) (p_mtime p) (p_mtime p) (p_mtime p) (p_gid p) (i_links_count i) (i_blocks_lo i)
    (i_flags i) (i_block i) (i_size_high i) (l_i_blocks_high i).

Lemma mode_bits k p : 0 <= k < 16 -> 0 <= p < 2 ^ 12 -> Z.lor (k * 2 ^ 12) p / 2 ^ 12 = k ∧ Z.lor (k * 2 ^ 12) p mod 2 ^ 12 = p ∧ 0 <= Z.lor (k * 2 ^ 12) p < 2 ^ 16.
Proof.
  intros Hk Hp. rewrite lor_low by lia. split; [|split; [|lia]].
  - symmetry. apply (Z.div_unique _ _ k p); lia.
  - symmetry. apply (Z.mod_unique _ _ k p); lia.
Qed.
(** The record of an inode is read. *)
Lemma table_read m m' m4 X n q load mmap64 img : tables_ok g m' -> 1 <= n <= groups g * ipg -> inode_addr g (fs m') n = Some q -> since X m m' m4 -> viewed load mmap64 img m4 ->
  load_inode g img n = Some (inode_of (inode_bytes (inode_at m4 q))).
Proof.
  intros Ht Hn Ha Hs [_ Hl _ [Hz Hp]]. destruct (group_range g Hig n Hn) as (G1 & G2 & _). pose proof (in_table g Hsize _ G2) as K. unfold inode_addr in Ha.
  destruct (table_at (fs m') ((n - 1) / ipg)) as [p|] eqn:Ep; [|done]. injection Ha as <-. destruct (has_super_ok g ((n - 1) / ipg) ltac:(lia)) as (sup & Esup & _).
  destruct (Hl _ _ (si_tables _ _ _ _ Hs _ _ Ep)) as (t & Et & Htl & Hrec). destruct (si_queue _ _ _ _ Hs) as (more & Eq).
  assert (Hin : slice (block (table_block g ((n - 1) / ipg) p sup) * bs) (table_len g) img = t).
  { apply (Hp (table_block g ((n - 1) / ipg) p sup)); [|exact Et]. rewrite Eq. apply elem_of_app. left. by apply (to_queued _ _ Ht). }
  unfold load_inode, inode_place. rewrite Esup. cbn [mbind option_bind]. do 2 f_equal. rewrite <- (Hrec _ G2), <- Hin. cbn [table_block block].
  pose proof (go_room g Hg _ sup G1 Esup). pose proof (gfirst_range g Hg _ G1). pose proof (go_counts g Hg). pose proof (blk_range g Hg).
  assert (0 <= gtable g sup) by (unfold gtable, gmaps; destruct sup; lia). rewrite slice_slice by nia. done.
Qed.
Lemma record_read m m' m4 X n q p k load mmap64 img : tables_ok g m' -> 1 <= n <= groups g * ipg -> inode_addr g (fs m') n = Some q -> since X m m' m4 -> viewed load mmap64 img m4 ->
  perms_ok p -> inode_at m4 q = with_perms p (inode_at m' q) -> 0 <= k < 16 -> i_mode (inode_at m' q) = k * 2 ^ 12 -> 0 <= i_links_count (inode_at m' q) < 2 ^ 16 ->
  0 <= i_size_lo (inode_at m' q) < 2 ^ 32 -> 0 <= i_size_high (inode_at m' q) < 2 ^ 32 -> zlen (i_block (inode_at m' q)) = 60 ->
  ∃ i, load_inode g img n = Some i ∧ i_mode i / 2 ^ 12 = k ∧ perms_of i = p ∧ i_links_count i = i_links_count (inode_at m' q) ∧
    i_size_lo i = i_size_lo (inode_at m4 q) ∧ i_size_high i = i_size_high (inode_at m4 q) ∧ i_block i = i_block (inode_at m4 q) ∧ size_of i = size_of (inode_at m' q).
Proof.
  intros Ht Hn Ha Hs Hv (P1 & P2 & P3 & P4) Ei Hk Em Hlk Hlo Hhi Hb. eexists. split; [by apply (table_read m m' m4 X n q load mmap64 img)|].
  destruct (mode_bits k (p_mode p) Hk P1) as (M1 & M2 & M3).
  destruct (inode_read (inode_at m4 q)) as (F1 & F2 & F3 & F4 & F5 & F6 & F7 & F8); [rewrite Ei; unfold inode_fits; cbn [with_perms i_mode i_uid i_gid i_links_count i_mtime i_size_lo i_size_high i_block]; rewrite Em; split_and!; lia|].
  unfold perms_of, size_of. rewrite F1, F2, F3, F4, F5, F6, F7, F8. rewrite Ei. cbn [with_perms i_mode i_uid i_gid i_links_count i_mtime i_size_lo i_size_high i_block]. rewrite Em, M1, M2.
  split; [done|]. split; [by destruct p|]. done.
Qed.
Lemma read_inode_ext img i j : i_size_lo i = i_size_lo j -> i_size_high i = i_size_high j -> i_block i = i_block j -> read_inode g img i = read_inode g img j.
Proof. unfold read_inode. by intros -> -> ->. Qed.
Lemma read_node_S depth img n type parent : read_node g (S depth) img n type parent =
  (i ← load_inode g img n;
  if (i_mode i / 2 ^ 12 =? 8) && (type =? EXT4_FT_REG_FILE) && (i_links_count i =? 1) then
    data ← (if size_of i =? 0 then Some [] else read_inode g img i); Some (perms_of i, NFile data)
  else if (i_mode i / 2 ^ 12 =? 10) && (type =? EXT4_FT_SYMLINK) && (i_links_count i =? 1) && (size_of i <? 60) then Some (perms_of i, NLink (slice 0 (size_of i) (i_block i)))
  else if (i_mode i / 2 ^ 12 =? 4) && (type =? EXT4_FT_DIR) then
    data ← read_inode g img i;
    es ← read_dir (length data) bs data 0;
    match es with
    | (n1, t1, [46]) :: (n2, t2, [46; 46]) :: es =>
        nodes ← mapM (fun e => '(p, t) ← read_node g depth img e.1.1 e.1.2 n; Some (e.2, p, t)) (filter (fun e => e.1.1 <> 0) es);
        if (n1 =? n) && (t1 =? EXT4_FT_DIR) && (n2 =? parent) && (t2 =? EXT4_FT_DIR) && (i_links_count i =? (zlen (filter is_ndir nodes) + 2) mod 2 ^ 16)
        then Some (perms_of i, NDir nodes) else None
    | _ => None
    end
  else None).
Proof. done. Qed.

(** ** What is built *)
(** [t] is in the image, made from [m] to [m'], and will be read with any permissions it is given. *)
Definition readable (t : host_node) (n parent q : Z) (m m' : image_state) : Prop :=
  ∀ p load mmap64 m4 img depth, perms_ok p -> since [q] m m' m4 -> inode_at m4 q = with_perms p (inode_at m' q) -> viewed load mmap64 img m4 -> (height t <= depth)%nat ->
    read_node g depth img n (file_type_of t) parent = Some (p, node_of contents t).
Record built (t : host_node) (n parent q b k : Z) (m m' : image_state) : Prop := Built {
  bu_good : good g m';
  bu_frame : frame g [] [] m m';
  bu_range : 1 <= n <= groups g * ipg;
  bu_taken : inode_taken g (fs m') n;
  bu_addr : inode_addr g (fs m') n = Some q;
  bu_new : inodes m !! q = None ∧ is_Some (inodes m' !! q);
  bu_costs : costs b k (fs m) (fs m');
  bu_read : readable t n parent q m m'
}.

(** No record has been made for an inode, and so none is there when its address is known. *)
Definition unused (m : image_state) (n : Z) : Prop := ∀ q, inode_addr g (fs m) n = Some q -> inodes m !! q = None.
Lemma unused_record X B m m2 n q : tables_ok g m -> tables_ok g m2 -> frame g X B m m2 -> 1 <= n <= groups g * ipg -> unused m n -> inode_addr g (fs m2) n = Some q -> inodes m !! q = None.
Proof.
  intros Ht Ht2 Hf Hn Hu Ha. apply eq_None_not_Some. intros Hq. destruct (to_inodes _ _ Ht q Hq) as (n' & Hn' & _ & Ha'). pose proof (frame_addr g _ _ _ _ _ _ Hf Ha') as Ha2.
  assert (n = n') as <- by (by apply (inode_addr_inj g Hig Hsize m2 n n' q)). rewrite (Hu q Ha') in Hq. by destruct Hq.
Qed.
Lemma not_taken_unused m n : tables_ok g m -> 1 <= n <= groups g * ipg -> ¬ inode_taken g (fs m) n -> unused m n.
Proof.
  intros Ht Hn Hnt q Ha. apply eq_None_not_Some. intros Hq. destruct (to_inodes _ _ Ht q Hq) as (n' & Hn' & Ht' & Ha').
  assert (n = n') as <-; [by apply (inode_addr_inj g Hig Hsize m n n' q) | done].
Qed.
(** A new inode has no record yet. *)
Lemma new_inode_good m : good g m ->
  (allocate_inode g (fs m) = Some (EXT4_ALLOCATE_FAILED, fs m) ∧ short 0 1 (fs m)) ∨
  ∃ n s1 s2 q, allocate_inode g (fs m) = Some (n, s1) ∧ n <> EXT4_ALLOCATE_FAILED ∧ get_inode g n s1 = Some (q, s2) ∧ 1 <= n <= groups g * ipg ∧
    good g (set_fs s2 m) ∧ frame g [] [] m (set_fs s2 m) ∧ costs 0 1 (fs m) s2 ∧ inode_taken g s2 n ∧ inode_addr g s2 n = Some q ∧ inodes m !! q = None.
Proof.
  intros Hm. destruct (allocate_inode_good g Hg Hig Hcount m Hm) as [H|(n & s1 & E1 & Hne & Hn & Hnt & Htk & Hm1 & Hf1 & Hc1)]; [by left | right].
  destruct (get_inode_good g Hg Hig Hcount Hsize (set_fs s1 m) n Hm1 Hn) as (s2 & q & E2 & Hm2 & Hf2 & Hc2 & Ha). cbn [set_fs fs] in *.
  exists n, s1, s2, q. assert (Hf : frame g [] [] m (set_fs s2 m)) by (eapply frame_trans; [exact Hf1 | exact Hf2]). split_and!; try done; try lia.
  - apply (costs_trans 0 1 0 0 _ s1); done.
  - apply (fr_taken _ _ _ _ _ Hf2); [lia | done].
  - apply (unused_record [] [] m (set_fs s2 m) n q (proj2 Hm) (proj2 Hm2) Hf Hn); [by apply not_taken_unused; [apply Hm|..] | done].
Qed.

Lemma file_built m f size parent : good g m -> packable g contents (HFile f size) ->
  (make_file g fuel f size m = None ∧ short (tree_blocks g (HFile f size)) 1 (fs m)) ∨
  ∃ n m' q, make_file g fuel f size m = Some (n, m') ∧ built (HFile f size) n parent q (tree_blocks g (HFile f size)) 1 m m'.
Proof.
  intros Hm [Esz Hmax]. unfold make_file. pose proof (blk_range g Hg). pose proof (zlen_nonneg (contents f)). cbn [tree_blocks].
  assert (Hsz64 : 0 <= size < 2 ^ 64) by (pose proof (blocks_enough g Hg size); nia).
  destruct (new_inode_good m Hm) as [[-> Hno]|(n & s1 & s2 & q & -> & Hne & E2 & Hn & Hm2 & Hf2 & Hc2 & Htk & Ha & Hq)]; cbn [mbind option_bind].
  { left. rewrite Z.eqb_refl. split; [done|]. apply (short_le 0 1); [done | | lia]. destruct (Z.ltb_spec 0 size); [|lia]. pose proof (blocks_enough g Hg size). nia. }
  rewrite (proj2 (Z.eqb_neq _ _)) by done. rewrite E2. cbn [mbind option_bind]. destruct (Z.ltb_spec 0 size) as [Hlt|Hle].
  - destruct (file_op_ok g Hg fuel Hfuel (set_fs s2 m) (proj1 Hm2) q size Hlt Hmax Hcap f) as [[-> Hno]|(m3 & oob & L & -> & Hfi & Hbufs)].
    { left. split; [done|]. apply (short_le (file_blocks g size + 1 + 0) (0 + 1)); [|lia..]. apply (costs_short 0 1 _ _ _ s2); [done | by right]. }
    right. cbn [mbind option_bind]. set (i := set_mode _ _ _ _). destruct (fi_inode _ _ _ _ _ _ _ _ Hfi) as (_ & J1 & J2 & _).
    assert (Hib : zlen (i_block i) = 60) by (apply (inode_sized m3 q), (io_sized _ _ (fi_ok _ _ _ _ _ _ _ _ Hfi))).
    destruct (filed_good g Hg Hig Hsize (set_fs s2 m) m3 n q size oob L (file_mk f) i Hm2 (mk_ok_file f) Hn Htk Ha Hib Hfi Hbufs) as (Hm3 & Hf3 & Hc3).
    assert (Hf : frame g [] [] m (put_inode q i m3)) by (eapply frame_trans; [exact Hf2 | apply (frame_fresh g _ q); done]).
    exists n, (put_inode q i m3), q. split; [done|]. split; try done.
    + apply (fr_taken _ _ _ _ _ Hf3); [lia | done].
    + by apply (frame_addr g _ _ _ _ _ _ Hf3).
    + split; [done|]. cbn. by rewrite lookup_insert_eq.
    + apply (costs_le (0 + (file_blocks g size + 1)) (1 + 0)); [|lia..]. by apply (costs_trans 0 1 _ 0 _ s2).
    + intros p load mmap64 m4 img [|depth] Hp Hs Ei Hv Hh; [cbn in Hh; lia|]. rewrite inode_at_put_same in Ei. pose proof (u32_range (size / 2 ^ 32)). pose proof (u32_range size).
      destruct (record_read m (put_inode q i m3) m4 [q] n q p 8 load mmap64 img (proj2 Hm3)) as (j & E & K1 & K2 & K3 & K4 & K5 & K6 & K7);
        try done; try (rewrite ?inode_at_put_same; unfold i; cbn; rewrite ?J1, ?J2; by (lia || done)); [by apply (frame_addr g _ _ _ _ _ _ Hf3)|].
      rewrite inode_at_put_same in K3, K7. assert (Hsz : size_of i = size). { unfold size_of, i. cbn. rewrite J1, J2. by apply size_split. }
      rewrite read_node_S, E. cbn [mbind option_bind]. rewrite K1, K3, K7, Hsz. cbn [file_type_of]. change (8 =? 8) with true. change (EXT4_FT_REG_FILE =? EXT4_FT_REG_FILE) with true. change (i_links_count i =? 1) with true. cbn [andb].
      rewrite (proj2 (Z.eqb_neq size 0)) by lia. rewrite (read_inode_ext img j (inode_at m4 q) K4 K5 K6).
      subst size. destruct (si_queue _ _ _ _ Hs) as (more & Eq). pose proof Hv as [V1 V2 V3 V4].
      rewrite (filed_read g Hg load mmap64 (set_fs s2 m) m3 m4 q oob L (file_mk f) img (contents f) (proj1 Hm2) Hfi); try done; try (rewrite Ei; unfold i; done).
      * cbn [mbind option_bind]. by rewrite K2.
      * lia.
      * intros pos k b Hpo Hk Hle. by apply file_bytes_maps.
      * by exists more.
      * intros Ho b Hb. rewrite (si_bufs _ _ _ _ Hs); [done|]. pose proof (fr_brk _ _ _ _ _ Hf2). cbn [set_fs fs put_inode] in *. pose proof (fi_tree _ _ _ _ _ _ _ _ Hfi) as Ht.
        destruct oob as [|[x r] oob]; [done|]. destruct Ht as [Ht _]. cbn [set_fs fs] in Ht. lia.
  - right. cbn [mbind option_bind]. set (i := set_mode _ _ _ _).
    assert (Ei0 : inode_at (set_fs s2 m) q = zero_inode) by (unfold inode_at; cbn; by rewrite Hq).
    destruct (put_inode_good g (set_fs s2 m) n q i Hm2 Hn Htk Ha) as [Hm3 Hf3]; [unfold i; cbn; by rewrite Ei0|].
    assert (Hf : frame g [] [] m (put_inode q i (set_fs s2 m))) by (eapply frame_trans; [exact Hf2 | apply (frame_fresh g _ q); done]).
    exists n, (put_inode q i (set_fs s2 m)), q. split; [done|]. split; try done.
    + split; [done|]. cbn. by rewrite lookup_insert_eq.
    + intros p load mmap64 m4 img [|depth] Hp Hs Ei Hv Hh; [cbn in Hh; lia|]. 
      destruct (record_read m (put_inode q i (set_fs s2 m)) m4 [q] n q p 8 load mmap64 img (proj2 Hm3)) as (j & E & K1 & K2 & K3 & K4 & K5 & K6 & K7);
        try done; try (rewrite ?inode_at_put_same; unfold i; cbn; rewrite ?Ei0; by (lia || done)).
      rewrite inode_at_put_same in K3, K7. assert (Hsz : size_of i = 0) by (unfold size_of, i; by rewrite Ei0).
      rewrite read_node_S, E. cbn [mbind option_bind]. rewrite K1, K3, K7, Hsz. cbn [file_type_of node_of]. change (8 =? 8) with true. change (EXT4_FT_REG_FILE =? EXT4_FT_REG_FILE) with true. change (i_links_count i =? 1) with true. cbn [andb].
      rewrite Z.eqb_refl. cbn [mbind option_bind]. rewrite K2. destruct (contents f); [done|]. unfold zlen in *. cbn in *. lia.
Qed.
Lemma link_built m link parent : good g m -> zlen link < 60 ->
  (make_link g fuel link m = None ∧ short 0 1 (fs m)) ∨ ∃ n m' q, make_link g fuel link m = Some (n, m') ∧ built (HLink link) n parent q 0 1 m m'.
Proof.
  intros Hm Hlen. unfold make_link. pose proof (zlen_nonneg link).
  destruct (new_inode_good m Hm) as [[-> Hno]|(n & s1 & s2 & q & -> & Hne & E2 & Hn & Hm2 & Hf2 & Hc2 & Htk & Ha & Hq)]; cbn [mbind option_bind].
  { left. by rewrite Z.eqb_refl. }
  right. rewrite (proj2 (Z.eqb_neq _ _)) by done. rewrite E2. cbn [mbind option_bind]. rewrite (proj2 (Z.leb_le _ _)) by lia.
  assert (Ei0 : inode_at (set_fs s2 m) q = zero_inode) by (unfold inode_at; cbn; by rewrite Hq). rewrite Ei0, inode_at_put_same. cbn [set_size_lo set_mode zero_inode i_block].
  change (zlen link + 0) with (zlen link) in *. rewrite store_ok by (change (zlen (zeros 60)) with 60; lia). cbn [mbind option_bind].
  set (i := set_i_block _ _). set (m3 := put_inode q i _). assert (Em3 : m3 = put_inode q i (set_fs s2 m)) by (unfold m3, put_inode; cbn; by rewrite insert_insert_eq).
  assert (Hib : zlen (i_block i) = 60) by (unfold i; cbn; rewrite overlay_len; [done | lia | change (zlen (zeros 60)) with 60; lia]).
  destruct (put_inode_good g (set_fs s2 m) n q i Hm2 Hn Htk Ha Hib) as [Hm3 Hf3]. rewrite <- Em3 in Hm3, Hf3.
  assert (Ei : inode_at m3 q = i) by (rewrite Em3; apply inode_at_put_same).
  exists n, m3, q. split; [done|]. split; try done.
  - eapply frame_trans; [exact Hf2 | apply (frame_fresh g _ q); done].
  - split; [done|]. rewrite Em3. cbn. by rewrite lookup_insert_eq.
  - intros p load mmap64 m4 img [|depth] Hp Hs E4 Hv Hh; [cbn in Hh; lia|]. rewrite Ei in E4. pose proof (u32_range (zlen link)).
    destruct (record_read m m3 m4 [q] n q p 10 load mmap64 img (proj2 Hm3)) as (j & E & K1 & K2 & K3 & K4 & K5 & K6 & K7);
      try done; try (rewrite ?Ei; by (done || unfold i; cbn; lia)).
    rewrite Ei in K3, K7. assert (Hsz : size_of i = zlen link) by (unfold size_of, i; cbn; rewrite u32_small by lia; lia).
    assert (Hj : i_block j = overlay 0 link (zeros 60)) by (rewrite K6, E4; done).
    rewrite read_node_S, E. cbn [mbind option_bind]. rewrite K1, K3, K7, Hsz, Hj. cbn [file_type_of node_of]. change (10 =? 8) with false. change (10 =? 10) with true. change (EXT4_FT_SYMLINK =? EXT4_FT_SYMLINK) with true. change (i_links_count i =? 1) with true. cbn [andb].
    rewrite (proj2 (Z.ltb_lt _ _)) by lia. rewrite K2, slice_overlay_same; [done | lia | change (zlen (zeros 60)) with 60; lia].
Qed.

(** ** Directories *)
Definition in_buf (a : Z) (d : dentry) : Prop := ∃ o, d_inode d = Some (a, o).
Lemma add_dentries_in ds p len data o prev data' o' prev' ds' : add_dentries g ds p len data o prev = Some (data', o', prev', ds') -> Forall (in_buf p) ds' ∧ length ds' = length ds.
Proof.
  revert data o prev data' o' prev' ds'. induction ds as [|d ds IH]; intros data o prev data' o' prev' ds'; cbn [add_dentries]; [by intros [= <- <- <- <-]|].
  destruct (add_dentry _ _ _ _ _ _) as [[[data1 o1] this]|]; [|done]. cbn [mbind option_bind]. case_match; [done|].
  destruct (add_dentries g ds p len data1 o1 this) as [[[[data2 o2] prev2] ds2]|] eqn:E; [|done]. cbn [mbind option_bind]. intros [= <- <- <- <-].
  destruct (IH _ _ _ _ _ _ _ E) as [H1 H2]. split; [constructor; [by exists this | done] | cbn; by rewrite H2].
Qed.
Lemma fill_directory_in a len n parent ds buf buf' ds' : fill_directory g a len n parent ds buf = Some (buf', ds') -> Forall (in_buf a) ds' ∧ length ds' = length ds.
Proof.
  unfold fill_directory. intros H. destruct (add_dentry _ _ 0 _ _ _ _) as [[[d1 o1] p1]|]; [|done]. cbn [mbind option_bind] in H.
  destruct (add_dentry _ _ o1 _ _ _ _) as [[[d2 o2] p2]|]; [|done]. cbn [mbind option_bind] in H.
  destruct (add_dentries g ds a len d2 o2 p2) as [[[[d3 o3] p3] ds3]|] eqn:E; [|done]. cbn [mbind option_bind] in H.
  destruct (end_dentry _ _ _ _) as [d4|]; [|done]. cbn [mbind option_bind] in H. injection H as <- <-. by apply add_dentries_in in E.
Qed.
(** The inode numbers go into one buffer. *)
Fixpoint set_buf (ds : list dentry) (ns : list Z) (buf : list Z) : option (list Z) :=
  match ds, ns with
  | d :: ds, n :: ns => '(_, o) ← d_inode d; buf ← store o (bytes32 n) buf; set_buf ds ns buf
  | _, _ => Some buf
  end.
Lemma set_entries_buf a ds ns m m' buf : Forall (in_buf a) ds -> bufs m !! a = Some buf -> set_entries ds ns m = Some m' ->
  ∃ buf', set_buf ds ns buf = Some buf' ∧ bufs m' !! a = Some buf'.
Proof.
  intros Hds. revert ns m buf. induction Hds as [|d ds [o Hd] _ IH]; intros [|n ns] m buf Hb; cbn [set_entries set_buf]; try (intros [= <-]; by exists buf).
  unfold set_entry_inode. rewrite Hd. cbn [mbind option_bind]. rewrite Hb. cbn [mbind option_bind]. destruct (store o (bytes32 n) buf) as [buf1|]; [|done]. cbn [mbind option_bind].
  apply IH. cbn. apply lookup_insert_eq.
Qed.
(** The entries of a directory are no more than its bytes. *)
Lemma read_dir_fuel n data o es : 0 <= o -> read_dir n bs data o = Some es ->
  o + 8 * zlen es <= zlen data ∧ ∀ k, (length es <= k)%nat -> read_dir k bs data o = Some es.
Proof.
  revert o es. induction n as [|n IH]; intros o es Ho.
  - cbn [read_dir]. destruct (Z.eqb_spec o (zlen data)) as [->|]; [|done]. intros [= <-]. split; [unfold zlen; cbn [length]; lia|]. intros [|k] _; cbn [read_dir]; by rewrite Z.eqb_refl.
  - cbn [read_dir]. destruct (Z.eqb_spec o (zlen data)) as [->|Hne].
    { intros [= <-]. split; [unfold zlen; cbn [length]; lia|]. intros [|k] _; cbn [read_dir]; by rewrite Z.eqb_refl. }
    destruct (entry_at data o) as [[[i ty] name] rec] eqn:Ee. destruct (_ || _) eqn:Ec; [done|]. destruct (read_dir n bs data (o + rec)) as [es'|] eqn:E; [|done]. cbn [mbind option_bind]. intros [= <-].
    pose proof Ec as Ec'. apply orb_false_iff in Ec' as [Ec' _]. apply orb_false_iff in Ec' as [E1 E2]. apply Z.ltb_ge in E1, E2. pose proof (zlen_nonneg name).
    destruct (IH (o + rec) es' ltac:(lia) E) as [H1 H2]. split; [change (zlen (?x :: es')) with (Z.of_nat (S (length es'))); unfold zlen in *; lia|].
    intros [|k] Hk; [cbn in Hk; lia|]. cbn [read_dir]. rewrite (proj2 (Z.eqb_neq _ _)) by done. rewrite Ee, Ec, H2; [done | cbn in Hk; lia].
Qed.
(** What is there of a directory when its entries have yet to be named: [a] is the buffer. *)
Record listed (m m1 : image_state) (n parent q a dirs : Z) (ds ds' : list dentry) (buf : list Z) : Prop := Listed {
  li_good : good g m1;
  li_frame : frame g [q] [] m m1;
  li_costs : costs (dir_blocks g ds + 1) 0 (fs m) (fs m1);
  li_rec : is_Some (inodes m1 !! q) ∧ i_mode (inode_at m1 q) = S_IFDIR ∧ i_links_count (inode_at m1 q) = (dirs + 2) mod 2 ^ 16 ∧
    0 <= i_size_lo (inode_at m1 q) < 2 ^ 32 ∧ 0 <= i_size_high (inode_at m1 q) < 2 ^ 32;
  li_buf : brk (fs m) <= a < brk (fs m1) ∧ bufs m1 !! a = Some buf;
  li_in : Forall (in_buf a) ds' ∧ length ds' = length ds;
  li_read : ∀ ns, length ns = length ds -> Forall (fun n => 0 <= n < 2 ^ 32) ns -> ∃ buf', set_buf ds' ns buf = Some buf' ∧
    ∀ load mmap64 m4 img, viewed load mmap64 img m4 -> (∃ more, queued_ds (fs m4) = queued_ds (fs m1) ++ more) ->
      i_block (inode_at m4 q) = i_block (inode_at m1 q) -> i_size_lo (inode_at m4 q) = i_size_lo (inode_at m1 q) -> i_size_high (inode_at m4 q) = i_size_high (inode_at m1 q) ->
      (∀ b, brk (fs m) <= b < brk (fs m1) -> b <> a -> bufs m4 !! b = bufs m1 !! b) -> bufs m4 !! a = Some buf' ->
      ∃ data, read_inode g img (inode_at m4 q) = Some data ∧ read_dir (length data) bs data 0 = Some (dir_entries n parent (zip_with named ds ns))
}.
Lemma put_directory_good m q n parent dirs ds : good g m -> 1 <= n <= groups g * ipg -> inode_taken g (fs m) n -> inode_addr g (fs m) n = Some q ->
  Forall dentry_ok ds -> zlen ds <= 500000 -> 0 <= parent < 2 ^ 32 ->
  (put_directory g fuel q n parent dirs ds m = None ∧ no_room (dir_blocks g ds + 1) (fs m)) ∨
  ∃ ds' m1 a buf, put_directory g fuel q n parent dirs ds m = Some (n, ds', m1) ∧ listed m m1 n parent q a dirs ds ds' buf.
Proof.
  intros Hm Hn Htk Ha Hds Hlen Hp. pose proof (blk_range g Hg). destruct (dir_file_blocks g Hg Hig fuel ds Hds Hlen) as (Hfb & Hpos & Hmax & Hmax2). set (len := dir_blocks g ds * bs) in *.
  unfold put_directory. fold len. destruct (data_op_ok g Hg fuel Hfuel m (proj1 Hm) q len ltac:(unfold len; nia) ltac:(lia) Hcap) as [[-> Hno]|(m3 & oob & L & a & -> & Hfi & Hbufs & Hba & Ha1 & Ha2 & Hne)].
  { left. split; [done|]. by rewrite <- Hfb. }
  right. cbn [mbind option_bind]. set (i := set_mode _ _ _ _). cbn [put_inode bufs]. rewrite Hba. cbn [mbind option_bind].
  destruct (directory_ok g a n parent ds ltac:(lia) Hds Hlen ltac:(lia) Hp) as (buf & ds' & Efill & Hz & Hset). fold len in Efill, Hz, Hset. rewrite Efill. cbn [mbind option_bind].
  destruct (fill_directory_in _ _ _ _ _ _ _ _ Efill) as [Hin Hlds]. destruct (fi_inode _ _ _ _ _ _ _ _ Hfi) as (_ & J1 & J2 & _).
  assert (Hib : zlen (i_block i) = 60) by (apply (inode_sized m3 q), (io_sized _ _ (fi_ok _ _ _ _ _ _ _ _ Hfi))).
  destruct (filed_good g Hg Hig Hsize m m3 n q len oob L (data_mk a) i Hm (mk_ok_data a) Hn Htk Ha Hib Hfi Hbufs) as (Hm3 & Hf3 & Hc3).
  destruct (put_buf_good g (put_inode q i m3) a buf Hm3) as [Hm1 Hf1]. set (m1 := put_buf a buf (put_inode q i m3)) in *.
  assert (Ei : inode_at m1 q = i) by apply inode_at_put_same. eexists ds', m1, a, buf. split; [done|]. split; try done.
  - eapply frame_step; [exact Hf3 | exact Hf1 | by intros ? ?%elem_of_nil |]. intros b ->%list_elem_of_singleton. by right.
  - by rewrite <- Hfb.
  - rewrite Ei. pose proof (u32_range len). pose proof (u32_range (len / 2 ^ 32)). unfold i. cbn. rewrite J1, J2. split_and!; try done; try lia. by rewrite lookup_insert_eq.
  - split; [|apply lookup_insert_eq]. cbn. rewrite Ha2. unfold len. nia.
  - intros ns Hns Hr. destruct (Hset m1 ns) as (m2 & buf' & E2 & F1 & F2 & F3 & Hz' & Hread); [apply lookup_insert_eq | done | done |].
    destruct (set_entries_buf a ds' ns m1 m2 buf Hin ltac:(apply lookup_insert_eq) E2) as (buf2 & Eb & Eb2). rewrite F3, lookup_insert_eq in Eb2. injection Eb2 as <-.
    exists buf'. split; [done|]. intros load mmap64 m4 img [V1 V2 V3 V4] Hq K1 K2 K3 K4 K5. rewrite Ei in K1, K2, K3. exists buf'. split.
    + apply (filed_read g Hg load mmap64 m m3 m4 q oob L (data_mk a) img buf' (proj1 Hm)); try done; [by rewrite Hz' | rewrite Hz'; lia | |].
      * intros pos k b H1 H2 H3. cbn. by apply (V1 a buf').
      * intros Ho b Hb. specialize (Hne Ho). rewrite K4; [cbn; by rewrite lookup_insert_ne| |done]. pose proof (fi_tree _ _ _ _ _ _ _ _ Hfi) as Ht. destruct oob as [|[x r] oob]; [done|]. destruct Ht as [Ht _]. cbn. lia.
    + apply (read_dir_fuel _ _ 0 _ ltac:(lia)) in Hread as [H1 H2]. apply H2. unfold zlen in H1. lia.
Qed.

(** ** The walk *)
Context (sb desc : Z).
Notation ax := (Aux g sb desc).
Lemma permissions_good m n q p : good g m -> 1 <= n <= groups g * ipg -> inode_taken g (fs m) n -> inode_addr g (fs m) n = Some q ->
  ∃ m', inode_set_permissions g n (p_mode p) (p_uid p) (p_gid p) (p_mtime p) m = Some m' ∧ good g m' ∧ frame g [q] [] m m' ∧
    inodes m' !! q = Some (with_perms p (inode_at m q)) ∧ bufs m' = bufs m ∧ costs 0 0 (fs m) (fs m').
Proof.
  intros Hm Hn Htk Ha. destruct (get_inode_good g Hg Hig Hcount Hsize m n Hm Hn) as (s & q' & E & Hm1 & Hf1 & Hc1 & Ha1).
  pose proof (frame_addr g _ _ _ _ _ _ Hf1 Ha) as Ha2. cbn [set_fs fs] in Ha2. assert (q' = q) as -> by congruence.
  unfold inode_set_permissions. rewrite E. cbn [mbind option_bind]. change (inode_at (set_fs s m) q) with (inode_at m q).
  change (Inode _ _ _ _ _ _ _ _ _ _ _ _ _) with (with_perms p (inode_at m q)).
  destruct (put_inode_good g (set_fs s m) n q (with_perms p (inode_at m q)) Hm1 Hn) as [Hm2 Hf2]; [apply (fr_taken _ _ _ _ _ Hf1); [lia | done] | done | apply (inode_sized m q), (io_sized _ _ (proj1 Hm)) |].
  eexists. split; [done|]. split; [done|]. split; [eapply frame_trans; [eapply frame_sub; [exact Hf1|..]; set_solver | exact Hf2]|].
  split; [apply lookup_insert_eq|]. done.
Qed.
(** The loop over the entries, when the directory has been made. *)
Definition build_entries (inode : Z) := fix build_entries (es : list (list Z * perms * host_node)) (ds : list dentry) (m : image_state) : option image_state :=
  match es, ds with
  | (_, p, t) :: es, d :: ds =>
      '(k, m) ← build ax fuel t inode m;
      m ← set_entry_inode d k m;
      m ← inode_set_permissions g k (p_mode p) (p_uid p) (p_gid p) (p_mtime p) m;
      build_entries es ds m
  | _, _ => Some m
  end.
Lemma build_dir es parent m : build ax fuel (HDir es) parent m =
  '(inode, ds, m) ← make_directory g fuel parent (dentry_of <$> es) (count_dirs es) m;
  m ← build_entries inode es ds m;
  Some (inode, m).
Proof. done. Qed.
Definition sum_blocks (es : list (list Z * perms * host_node)) : Z := foldr (fun e n => tree_blocks g e.2 + n) 0 es.
Definition sum_inodes (es : list (list Z * perms * host_node)) : Z := foldr (fun e n => tree_inodes e.2 + n) 0 es.
Lemma tree_needs t : 0 <= tree_blocks g t ∧ 0 < tree_inodes t.
Proof.
  pose proof (blk_range g Hg). induction t as [f size|link|ty|es IH] using host_node_ind'; cbn [tree_blocks tree_inodes]; try lia.
  - case_match; [|lia]. assert (0 <= file_blocks g size); [|lia]. apply Z.div_pos; lia.
  - assert (0 <= dir_blocks g (dentry_of <$> es)) by (apply Z.div_pos; [apply u32_range | lia]).
    assert (0 <= sum_blocks es ∧ 0 <= sum_inodes es) as [H1 H2]; [|unfold sum_blocks, sum_inodes in *; lia].
    clear -IH. induction IH as [|e es [H1 H2] _ [I1 I2]]; [done|]. unfold sum_blocks, sum_inodes in *. cbn [foldr]. lia.
Qed.
Lemma sum_needs es : 0 <= sum_blocks es ∧ 0 <= sum_inodes es.
Proof. induction es as [|e es [I1 I2]]; [done|]. destruct (tree_needs e.2). unfold sum_blocks, sum_inodes in *. cbn [foldr]. lia. Qed.

(** What [build] promises. *)
Definition builds (t : host_node) : Prop := ∀ m parent, good g m -> 1 <= parent < 2 ^ 32 -> packable g contents t ->
  (build ax fuel t parent m = None ∧ short (tree_blocks g t) (tree_inodes t) (fs m)) ∨
  ∃ n m' q, build ax fuel t parent m = Some (n, m') ∧ built t n parent q (tree_blocks g t) (tree_inodes t) m m'.
Definition heights (es : list (list Z * perms * host_node)) : nat := foldr (fun e n => Nat.max (height e.2) n) O es.

Record entries_built (es : list (list Z * perms * host_node)) (inode a : Z) (ds : list dentry) (buf : list Z) (ns : list Z) (m m' : image_state) : Prop := EntriesBuilt {
  eb_good : good g m';
  eb_frame : frame g [] [a] m m';
  eb_costs : costs (sum_blocks es) (sum_inodes es) (fs m) (fs m');
  eb_names : length ns = length es ∧ Forall (fun k => 1 <= k < 2 ^ 32) ns;
  eb_buf : ∃ buf', set_buf ds ns buf = Some buf' ∧ bufs m' !! a = Some buf';
  eb_read : ∀ load mmap64 m4 img depth, since [] m m' m4 -> viewed load mmap64 img m4 -> (heights es <= depth)%nat ->
    Forall2 (fun e k => read_node g depth img k (file_type_of e.2) inode = Some (e.1.2, node_of contents e.2)) es ns
}.
Definition fillable (ds : list dentry) (buf : list Z) : Prop :=
  ∀ ns, length ns = length ds -> Forall (fun n => 0 <= n < 2 ^ 32) ns -> is_Some (set_buf ds ns buf).
Lemma fillable_cons a o d ds buf k : d_inode d = Some (a, o) -> fillable (d :: ds) buf -> 0 <= k < 2 ^ 32 ->
  ∃ buf1, store o (bytes32 k) buf = Some buf1 ∧ fillable ds buf1 ∧ ∀ ns, set_buf (d :: ds) (k :: ns) buf = set_buf ds ns buf1.
Proof.
  intros Hd Hf Hk. destruct (Hf (k :: replicate (length ds) 1)) as [buf' E].
  { cbn. by rewrite length_replicate. }
  { constructor; [done|]. apply Forall_replicate. lia. }
  cbn [set_buf] in E. rewrite Hd in E. cbn [mbind option_bind] in E. destruct (store o (bytes32 k) buf) as [buf1|] eqn:Es; [|done]. exists buf1. split; [done|].
  assert (Heq : ∀ ns, set_buf (d :: ds) (k :: ns) buf = set_buf ds ns buf1) by (intros ns; cbn [set_buf]; rewrite Hd; cbn [mbind option_bind]; by rewrite Es).
  split; [|done]. intros ns Hns Hr. rewrite <- Heq. apply Hf; [cbn; congruence | by constructor].
Qed.
Lemma one_entry e d m a o buf inode : builds e.2 -> good g m -> entry_packable g contents e -> d_inode d = Some (a, o) -> a < brk (fs m) -> bufs m !! a = Some buf -> 1 <= inode < 2 ^ 32 ->
  (∀ k, 0 <= k < 2 ^ 32 -> ∃ buf1, store o (bytes32 k) buf = Some buf1) ->
  (build ax fuel e.2 inode m = None ∧ short (tree_blocks g e.2) (tree_inodes e.2) (fs m)) ∨
  ∃ k q m1 m3 buf1, build ax fuel e.2 inode m = Some (k, m1) ∧ built e.2 k inode q (tree_blocks g e.2) (tree_inodes e.2) m m1 ∧ store o (bytes32 k) buf = Some buf1 ∧
    (m ← set_entry_inode d k m1; inode_set_permissions g k (p_mode e.1.2) (p_uid e.1.2) (p_gid e.1.2) (p_mtime e.1.2) m) = Some m3 ∧
    good g m3 ∧ frame g [q] [a] m1 m3 ∧ inodes m3 !! q = Some (with_perms e.1.2 (inode_at m1 q)) ∧ bufs m3 !! a = Some buf1 ∧ costs 0 0 (fs m1) (fs m3).
Proof.
  intros IH Hm (_ & Hp & Hpk) Hd Ha Hb Hi Hst. destruct (IH m inode Hm Hi Hpk) as [H|(k & m1 & q & E & Hbu)]; [by left | right].
  pose proof Hbu as [B1 B2 B3 B4 B5 [B6 B6'] B7 B8]. destruct (Hst k ltac:(lia)) as (buf1 & Es).
  assert (Hb1 : bufs m1 !! a = Some buf) by (rewrite (fr_bufs _ _ _ _ _ B2); [done | done | set_solver]).
  destruct (put_buf_good g m1 a buf1 B1) as [Hm2 Hf2]. set (m2 := put_buf a buf1 m1) in *.
  destruct (permissions_good m2 k q e.1.2 Hm2 B3) as (m3 & E3 & Hm3 & Hf3 & Hi3 & Hb3 & Hc3); [done | done |].
  exists k, q, m1, m3, buf1. split; [done|]. split; [done|]. split; [done|]. unfold set_entry_inode. rewrite Hd. cbn [mbind option_bind]. rewrite Hb1. cbn [mbind option_bind]. rewrite Es. cbn [mbind option_bind].
  split; [exact E3|]. split; [done|]. split; [eapply frame_trans; [eapply frame_sub; [exact Hf2|..]; set_solver | eapply frame_sub; [exact Hf3|..]; set_solver]|].
  split; [exact Hi3|]. split; [rewrite Hb3; apply lookup_insert_eq | done].
Qed.
Lemma entries_ok es : Forall (fun e => builds e.2) es -> ∀ m a ds buf inode, good g m -> Forall (entry_packable g contents) es -> length ds = length es -> Forall (in_buf a) ds ->
  a < brk (fs m) -> bufs m !! a = Some buf -> 1 <= inode < 2 ^ 32 -> fillable ds buf ->
  (build_entries inode es ds m = None ∧ short (sum_blocks es) (sum_inodes es) (fs m)) ∨
  ∃ ns m', build_entries inode es ds m = Some m' ∧ entries_built es inode a ds buf ns m m'.
Proof.
  induction 1 as [|e es IHt _ IH]; intros m a ds buf inode Hm Hpk Hl Hin Ha Hb Hi Hf.
  { destruct ds; [|done]. right. exists [], m. split; [done|]. split; [done | apply frame_refl | by apply costs_refl | done | by exists buf |]. intros. constructor. }
  destruct ds as [|d ds]; [done|]. apply Forall_cons in Hpk as [Hpe Hpk]. apply Forall_cons in Hin as [[o Hd] Hin]. injection Hl as Hl.
  destruct (tree_needs e.2) as [N1 N2]. destruct (sum_needs es) as [N3 N4].
  destruct (one_entry e d m a o buf inode IHt Hm Hpe Hd Ha Hb Hi) as [[E Hs]|(k & q & m1 & m3 & buf1 & E & Hbu & Es & E3 & Hm3 & Hf3 & Hi3 & Hb3 & Hc3)].
  { intros k Hk. destruct (fillable_cons a o d ds buf k Hd Hf Hk) as (buf1 & Es & _). by exists buf1. }
  { left. destruct e as [[name p] t]. cbn [build_entries fst snd] in *. rewrite E. split; [done|]. eapply short_le; [exact Hs|..]; unfold sum_blocks, sum_inodes in *; cbn [foldr snd]; lia. }
  pose proof Hbu as [B1 B2 B3 B4 B5 [B6 B6'] B7 B8]. destruct (fillable_cons a o d ds buf k Hd Hf ltac:(lia)) as (buf1' & Es' & Hf1 & Heq). assert (buf1' = buf1) as -> by congruence.
  assert (F03 : frame g [] [a] m m3) by (apply (frame_step g [] [a] [q] [a] m m1 m3); [eapply frame_sub; [exact B2|..]; set_solver | done | intros x ->%list_elem_of_singleton; by right | intros x Hx; by left]).
  assert (Erest : build_entries inode (e :: es) (d :: ds) m = build_entries inode es ds m3).
  { destruct e as [[name p] t]. cbn [build_entries fst snd] in *. rewrite E. cbn [mbind option_bind]. destruct (set_entry_inode d k m1); [|done]. cbn [mbind option_bind] in *. by rewrite E3. }
  assert (C03 : costs (tree_blocks g e.2) (tree_inodes e.2) (fs m) (fs m3)) by (eapply costs_le; [by eapply costs_trans|lia..]).
  rewrite Erest. pose proof (fr_brk _ _ _ _ _ F03) as Hbrk. destruct (IH m3 a ds buf1 inode Hm3 Hpk Hl Hin ltac:(lia) Hb3 Hi Hf1) as [[-> Hs]|(ns & m' & -> & [A1 A2 A3 [A4 A4'] (buf' & A5 & A6) A7])].
  { left. split; [done|]. eapply short_le; [by eapply costs_short|..]; unfold sum_blocks, sum_inodes in *; cbn [foldr]; lia. }
  right. exists (k :: ns), m'. split; [done|]. split; [done | | | | |].
  - eapply frame_trans; [exact F03 | done].
  - eapply costs_le; [by eapply costs_trans|..]; unfold sum_blocks, sum_inodes; cbn [foldr]; lia.
  - split; [cbn; by rewrite A4|]. constructor; [lia | done].
  - exists buf'. by rewrite Heq.
  - intros load mmap64 m4 img depth Hs Hv Hh. cbn [heights foldr] in Hh. fold (heights es) in Hh.
    assert (F1 : frame g [q] [a] m1 m') by (eapply frame_trans; [exact Hf3 | eapply frame_sub; [exact A2|..]; set_solver]). constructor.
    + apply (B8 e.1.2 load mmap64 m4 img depth); [apply Hpe | | | done | lia].
      * change [q] with ([] ++ [q]). eapply (since_part g [] m m m1 m' m4 [] [] [q] [a]); [done | apply frame_refl | exact F1 | apply (fr_brk _ _ _ _ _ B2) |]. by intros x ->%list_elem_of_singleton.
      * unfold inode_at at 1. rewrite (si_inodes _ _ _ _ Hs q (with_perms e.1.2 (inode_at m1 q))); [done | done | | by intros ?%elem_of_nil]. apply (fr_inodes _ _ _ _ _ A2); [done | by intros ?%elem_of_nil].
    + apply (A7 load mmap64 m4 img depth); [|done|lia]. change (@nil Z) with (@nil Z ++ []). eapply (since_part g [] m m3 m' m' m4 [] [a] [] []); [done | exact F03 | apply frame_refl | apply (fr_brk _ _ _ _ _ A2) | by intros x ?%elem_of_nil].
Qed.

(** A directory is read with all that is in it. *)
Lemma entries_read depth img n es ns : Forall2 (fun e k => read_node g depth img k (file_type_of e.2) n = Some (e.1.2, node_of contents e.2)) es ns -> Forall (fun k => 1 <= k < 2 ^ 32) ns ->
  mapM (fun e => '(p, t) ← read_node g depth img e.1.1 e.1.2 n; Some (e.2, p, t)) (filter (fun e => e.1.1 <> 0) (zip_with named (dentry_of <$> es) ns ++ [(0, EXT4_FT_UNKNOWN, [])])) =
  Some (map (fun e => (e.1.1, e.1.2, node_of contents e.2)) es).
Proof.
  intros H Hr. induction H as [|e k es ns He H IH]; [done|]. apply Forall_cons in Hr as [Hk Hr]. specialize (IH Hr). cbn [fmap list_fmap zip_with app].
  rewrite filter_cons_True by (cbn; lia). cbn [mapM named fst snd d_file_type d_filename dentry_of map]. rewrite He. cbn [mbind option_bind].
  change (fmap (M := list) dentry_of es) with (dentry_of <$> es) in *. by rewrite IH.
Qed.
Lemma dirs_counted es : zlen (filter is_ndir (map (fun e => (e.1.1, e.1.2, node_of contents e.2)) es)) = count_dirs es.
Proof.
  unfold count_dirs. induction es as [|[[name p] t] es IH]; [done|]. cbn [map fst snd]. rewrite !filter_cons. unfold zlen in *.
  destruct t; cbn [node_of is_ndir MakeFs.is_dir snd]; repeat case_decide; cbn [length]; try done; lia.
Qed.
Lemma dir_read m m1 m' n parent q a es ds' buf ns : listed m m1 n parent q a (count_dirs es) (dentry_of <$> es) ds' buf -> entries_built es n a ds' buf ns m1 m' -> inodes m !! q = None ->
  1 <= n <= groups g * ipg -> inode_addr g (fs m') n = Some q -> readable (HDir es) n parent q m m'.
Proof.
  intros Hli Heb Hq Hn Ha. pose proof Hli as [L1 L2 _ (L4 & L5 & L6 & L7 & L8) [L9 L10] _ L11]. pose proof Heb as [A1 A2 _ [A4 A4'] (buf' & A5 & A6) A7].
  assert (Ei : inode_at m' q = inode_at m1 q).
  { unfold inode_at. destruct L4 as [i Eq]. rewrite Eq. rewrite (fr_inodes _ _ _ _ _ A2 q i Eq); [done | by intros ?%elem_of_nil]. }
  destruct (L11 ns) as (buf2 & Eb & Hread); [by rewrite length_fmap | by eapply Forall_impl; [exact A4'|]; cbn; intros; lia |]. assert (buf2 = buf') as -> by congruence.
  intros p load mmap64 m4 img [|depth] Hp Hs E4 Hv Hh; [cbn in Hh; lia|]. cbn [height] in Hh. fold (heights es) in Hh. rewrite Ei in E4.
  pose proof (fr_brk _ _ _ _ _ A2) as Hbrk. pose proof (io_sized _ _ (proj1 L1)) as Hsz.
  destruct (record_read m m' m4 [q] n q p 4 load mmap64 img (proj2 A1)) as (j & E & K1 & K2 & K3 & K4 & K5 & K6 & K7); try done; try (rewrite Ei, ?L5, ?L6; (done || by apply inode_sized || by apply Z.mod_pos_bound)).
  destruct (fr_queue _ _ _ _ _ A2) as (q1 & Eq1), (si_queue _ _ _ _ Hs) as (q2 & Eq2).
  destruct (Hread load mmap64 m4 img Hv) as (data & Ed & Er); [exists (q1 ++ q2); by rewrite Eq2, Eq1, app_assoc | by rewrite E4.. | | |].
  { intros b Hb Hne. rewrite (si_bufs _ _ _ _ Hs) by lia. apply (fr_bufs _ _ _ _ _ A2); [lia|]. by intros ->%list_elem_of_singleton. }
  { rewrite (si_bufs _ _ _ _ Hs) by lia. done. }
  rewrite read_node_S, E. cbn [mbind option_bind]. rewrite K1, K3, Ei, L6. cbn [file_type_of]. change (4 =? 8) with false. change (4 =? 10) with false. change (4 =? 4) with true. change (EXT4_FT_DIR =? EXT4_FT_DIR) with true. cbn [andb].
  rewrite (read_inode_ext img j (inode_at m4 q) K4 K5 K6), Ed. cbn [mbind option_bind]. rewrite Er. cbn [mbind option_bind]. unfold dir_entries. cbn [app].
  rewrite (entries_read depth img n es ns); [| |done].
  - cbn [mbind option_bind]. rewrite !Z.eqb_refl, dirs_counted, Z.eqb_refl. cbn [andb]. by rewrite K2.
  - apply (A7 load mmap64 m4 img depth); [|done|lia]. split; [by exists q2 | apply (si_tables _ _ _ _ Hs) | | intros b Hb; apply (si_bufs _ _ _ _ Hs); lia].
    intros q' i H1 H2 _. apply (si_inodes _ _ _ _ Hs); [|done|].
    + apply eq_None_not_Some. intros H3. apply (fr_keep _ _ _ _ _ L2) in H3. rewrite H1 in H3. by destruct H3.
    + intros ->%list_elem_of_singleton. rewrite H1 in L4. by destruct L4.
Qed.
Lemma packable_dentries es : packable g contents (HDir es) -> Forall dentry_ok (dentry_of <$> es) ∧ zlen (dentry_of <$> es) <= 500000.
Proof.
  intros [Hlen Hpk]%packable_dir. split; [|unfold zlen in *; by rewrite length_fmap]. apply Forall_fmap. eapply Forall_impl; [exact Hpk|].
  intros [[name p] t] (H1 & _ & H3). split; [done | by destruct t].
Qed.
Lemma dir_built m n parent q es : Forall (fun e => builds e.2) es -> good g m -> 1 <= n <= groups g * ipg -> inode_taken g (fs m) n -> inode_addr g (fs m) n = Some q -> inodes m !! q = None ->
  packable g contents (HDir es) -> 1 <= parent < 2 ^ 32 ->
  let r := ('(inode, ds, m1) ← put_directory g fuel q n parent (count_dirs es) (dentry_of <$> es) m; m1 ← build_entries inode es ds m1; Some (inode, m1)) in
  (r = None ∧ short (tree_blocks g (HDir es)) (sum_inodes es) (fs m)) ∨ ∃ m', r = Some (n, m') ∧ built (HDir es) n parent q (tree_blocks g (HDir es)) (sum_inodes es) m m'.
Proof.
  intros IH Hm Hn Htk Ha Hq Hpk Hp r. destruct (packable_dentries es Hpk) as [Hds Hlen]. apply packable_dir in Hpk as [_ Hpk].
  assert (Hl : length (dentry_of <$> es) = length es) by apply length_fmap. destruct (sum_needs es) as [N1 N2].
  assert (Hb : tree_blocks g (HDir es) = dir_blocks g (dentry_of <$> es) + 1 + sum_blocks es) by done.
  assert (Hdb : 0 <= dir_blocks g (dentry_of <$> es)) by (pose proof (blk_range g Hg); apply Z.div_pos; [apply u32_range | lia]).
  destruct (put_directory_good m q n parent (count_dirs es) (dentry_of <$> es) Hm Hn Htk Ha Hds Hlen) as [[E Hno]|(ds' & m1 & a & buf & E & Hli)]; [lia | |]; unfold r; rewrite E; cbn [mbind option_bind].
  { left. split; [done|]. right. intros i bg Ebg. specialize (Hno i bg Ebg). lia. }
  pose proof Hli as [L1 L2 L3 L4 [L5 L6] [L7 L8] L9].
  destruct (entries_ok es IH m1 a ds' buf n L1 Hpk) as [[-> Hs]|(ns & m' & -> & Heb)]; [congruence | done | lia | done | lia | | |].
  { intros ns Hns Hr. destruct (L9 ns) as (buf' & Eb & _); [congruence | done | by exists buf']. }
  { left. split; [done|]. eapply short_le; [by eapply costs_short|..]; lia. }
  right. cbn [mbind option_bind]. exists m'. split; [done|]. pose proof Heb as [A1 A2 A3 A4 A5 A6].
  assert (Hf : frame g [] [] m m').
  { apply (frame_step g [] [] [] [a] m m1 m'); [by apply (frame_fresh g [] q) | done | by intros ? ?%elem_of_nil | intros x ->%list_elem_of_singleton; right; lia]. }
  split; try done.
  - apply (fr_taken _ _ _ _ _ Hf); [lia | done].
  - by apply (frame_addr g _ _ _ _ _ _ Hf).
  - split; [done|]. by apply (fr_keep _ _ _ _ _ A2), L4.
  - eapply costs_le; [by eapply costs_trans|..]; lia.
  - eapply dir_read; [done..|]. by apply (frame_addr g _ _ _ _ _ _ Hf).
Qed.

(** The inode of a directory, when it has a number. *)
Lemma dir_record m n : good g m -> 1 <= n <= groups g * ipg -> inode_taken g (fs m) n ->
  ∃ s1 s2 q, add_directory g n (fs m) = Some s1 ∧ get_inode g n s1 = Some (q, s2) ∧ good g (set_fs s2 m) ∧ frame g [] [] m (set_fs s2 m) ∧ costs 0 0 (fs m) s2 ∧
    inode_taken g s2 n ∧ inode_addr g s2 n = Some q.
Proof.
  intros Hm Hn Htk. destruct (add_directory_good g Hig Hcount m n Hm Hn) as (s1 & E1 & Hm1 & Hf1 & Hc1).
  destruct (get_inode_good g Hg Hig Hcount Hsize (set_fs s1 m) n Hm1 Hn) as (s2 & q & E2 & Hm2 & Hf2 & Hc2 & Ha). cbn [set_fs fs] in *.
  exists s1, s2, q. split; [done|]. split; [done|]. split; [done|]. assert (Hf : frame g [] [] m (set_fs s2 m)) by (eapply frame_trans; [exact Hf1 | exact Hf2]).
  split; [done|]. split; [by apply (costs_trans 0 0 0 0 _ s1)|]. split; [apply (fr_taken _ _ _ _ _ Hf); [lia | done] | done].
Qed.
Lemma make_directory_eq m parent dirs ds : dir_blocks g ds * bs < 2 ^ 32 -> 0 <= dir_blocks g ds ->
  make_directory g fuel parent ds dirs m =
  '(n, s) ← (if parent =? 0 then Some (EXT4_ROOT_INO, fs m) else allocate_inode g (fs m));
  if n =? EXT4_ALLOCATE_FAILED then None else
  s ← add_directory g n s;
  '(q, s) ← get_inode g n s;
  put_directory g fuel q n (if parent =? 0 then EXT4_ROOT_INO else parent) dirs ds (set_fs s m).
Proof.
  intros H1 H2. unfold make_directory. fold (dir_blocks g ds). pose proof (blk_range g Hg). rewrite (u32_small (dir_blocks g ds * bs)) by nia.
  destruct (parent =? 0); cbn [negb mbind option_bind]; [done|]. destruct (allocate_inode g (fs m)) as [[n s]|]; done.
Qed.
Lemma readable_earlier t n parent q m s m' : frame g [] [] m (set_fs s m) -> readable t n parent q (set_fs s m) m' -> readable t n parent q m m'.
Proof.
  intros Hf Hr p load mmap64 m4 img depth Hp [S1 S2 S3 S4] Ei Hv Hh. apply (Hr p load mmap64 m4 img depth); try done. pose proof (fr_brk _ _ _ _ _ Hf).
  split; try done. intros a Ha. apply S4. cbn [set_fs fs] in *. lia.
Qed.
Lemma dir_builds es : Forall (fun e => builds e.2) es -> builds (HDir es).
Proof.
  intros IH m parent Hm Hp Hpk. destruct (packable_dentries es Hpk) as [Hds Hlen]. destruct (tree_needs (HDir es)) as [N1 _]. destruct (sum_needs es) as [_ N2]. assert (Hti : tree_inodes (HDir es) = 1 + sum_inodes es) by done.
  destruct (dir_file_blocks g Hg Hig fuel (dentry_of <$> es) Hds Hlen) as (_ & Hpos & Hmax & _).
  rewrite build_dir, make_directory_eq by lia. rewrite (proj2 (Z.eqb_neq parent 0)) by lia.
  destruct (allocate_inode_good g Hg Hig Hcount m Hm) as [[-> Hs]|(n & s1 & -> & Hne & Hn & Hnt & Htk & Hm1 & Hf1 & Hc1)]; cbn [mbind option_bind].
  { left. rewrite Z.eqb_refl. split; [done|]. apply (short_le 0 1); [done | done | lia]. }
  rewrite (proj2 (Z.eqb_neq _ _)) by done. destruct (dir_record (set_fs s1 m) n Hm1 Hn Htk) as (s2 & s3 & q & E2 & E3 & Hm3 & Hf3 & Hc3 & Htk3 & Ha3). cbn [set_fs fs] in *.
  rewrite E2. cbn [mbind option_bind]. rewrite E3. cbn [mbind option_bind].
  assert (Hf : frame g [] [] m (set_fs s3 m)) by (eapply frame_trans; [exact Hf1 | exact Hf3]).
  assert (Hq : inodes m !! q = None) by (apply (unused_record [] [] m (set_fs s3 m) n q (proj2 Hm) (proj2 Hm3) Hf Hn); [by apply not_taken_unused; [apply Hm|..] | done]).
  assert (Hc : costs 0 1 (fs m) s3) by (apply (costs_trans 0 1 0 0 _ s1); done).
  destruct (dir_built (set_fs s3 m) n parent q es IH Hm3 Hn Htk3 Ha3 Hq Hpk Hp) as [[E Hs]|(m' & E & [B1 B2 B3 B4 B5 [B6 B6'] B7 B8])].
  - left. split; [exact E | eapply short_le; [by eapply costs_short|..]; cbn [tree_blocks]; lia].
  - right. exists n, m', q. split; [exact E|]. split; try done.
    + eapply frame_trans; [exact Hf | exact B2].
    + eapply costs_le; [by eapply costs_trans|..]; [|rewrite Hti]; lia.
    + eapply readable_earlier; [exact Hf | done].
Qed.
Lemma build_ok t : builds t.
Proof.
  induction t as [f size|link|ty|es IH] using host_node_ind'.
  - intros m parent Hm _ Hpk. by apply file_built.
  - intros m parent Hm _ Hpk. change (build ax fuel (HLink link) parent m) with (make_link g fuel (take (Z.to_nat (bs - 1)) link) m).
    cbn [packable] in Hpk. rewrite take_ge by (pose proof (blk_range g Hg); unfold zlen in Hpk; lia). by apply link_built.
  - by intros m parent _ _ [].
  - by apply dir_builds.
Qed.
(** The root, whose number is kept for it. *)
Lemma root_ok es m : good g m -> packable g contents (HDir es) -> 2 <= groups g * ipg -> inode_taken g (fs m) EXT4_ROOT_INO -> unused m EXT4_ROOT_INO ->
  (build_directory_structure ax fuel es 0 m = None ∧ short (tree_blocks g (HDir es)) (sum_inodes es) (fs m)) ∨
  ∃ m' q, build_directory_structure ax fuel es 0 m = Some (EXT4_ROOT_INO, m') ∧ built (HDir es) EXT4_ROOT_INO EXT4_ROOT_INO q (tree_blocks g (HDir es)) (sum_inodes es) m m'.
Proof.
  intros Hm Hpk Hroot Htk Hu. destruct (packable_dentries es Hpk) as [Hds Hlen]. destruct (dir_file_blocks g Hg Hig fuel (dentry_of <$> es) Hds Hlen) as (_ & Hpos & Hmax & _).
  unfold build_directory_structure. rewrite build_dir, make_directory_eq by lia. cbn [Z.eqb mbind option_bind]. change (EXT4_ROOT_INO =? EXT4_ALLOCATE_FAILED) with false. cbv match.
  assert (Hn : 1 <= EXT4_ROOT_INO <= groups g * ipg) by (unfold EXT4_ROOT_INO; lia). destruct (dir_record m EXT4_ROOT_INO Hm Hn Htk) as (s2 & s3 & q & E2 & E3 & Hm3 & Hf & Hc & Htk3 & Ha3).
  rewrite E2. cbn [mbind option_bind]. rewrite E3. cbn [mbind option_bind].
  assert (Hq : inodes m !! q = None) by (by apply (unused_record [] [] m (set_fs s3 m) EXT4_ROOT_INO q (proj2 Hm) (proj2 Hm3) Hf Hn)).
  assert (IH : Forall (fun e => builds e.2) es) by (apply Forall_forall; intros e _; apply build_ok).
  destruct (dir_built (set_fs s3 m) EXT4_ROOT_INO EXT4_ROOT_INO q es IH Hm3 Hn Htk3 Ha3 Hq Hpk ltac:(done)) as [[E Hs]|(m' & E & [B1 B2 B3 B4 B5 [B6 B6'] B7 B8])].
  - left. split; [exact E | eapply short_le; [by eapply costs_short|..]; lia].
  - right. exists m', q. split; [exact E|]. split; try done.
    + eapply frame_trans; [exact Hf | exact B2].
    + eapply costs_le; [by eapply costs_trans|..]; lia.
    + eapply readable_earlier; [exact Hf | done].
Qed.
End Build.
