(* ===== verification/TreeStart.v ===== *)
(** * The image at the start of the walk

    The groups when they have just been made, with the inodes that are kept for the file
    system itself taken: an image in order, in which nothing has a record yet. *)
From stdpp Require Import base gmap list.
From Stdlib Require Import ZArith Lia.
From S2P Require Import Prelude Crc SparseFormat Backed Alloc AllocBits AllocInv AllocSafe AllocInit Extent ExtentFile FileTrip ImageOk Indirect Contents TreeFrame.
#[local] Open Scope Z_scope.

Section Start.
Context (g : geom) (Hg : geom_ok g) (Hig : 0 < inodes_per_group g <= 8 * blk_size g) (Hcount : groups g * inodes_per_group g < 2 ^ 32 - 1).
Notation ipg := (inodes_per_group g).

Lemma inode_bits_ok n j bm : bytes bm -> 0 <= j -> j + Z.of_nat n <= 8 * zlen bm -> 8 * zlen bm < 2 ^ 32 -> range_clear bm j (Z.of_nat n) ->
  ∃ bm', inode_bits n j bm = Some bm' ∧ range_set bm bm' j (Z.of_nat n).
Proof.
  revert j bm. induction n as [|n IH]; intros j bm Hb Hj Hn Hmax Hc; [exists bm; split; [done | by apply range_set_nil]|].
  destruct (inode_bits_one bm j Hb ltac:(lia)) as (bm1 & E1 & H1); [apply Hc; lia|]. pose proof H1 as (B1 & L1 & _).
  destruct (IH (j + 1) bm1 B1 ltac:(lia) ltac:(lia) ltac:(lia)) as (bm2 & E2 & H2); [apply (range_clear_after bm bm1 j 1); [done | lia | done | intros k Hk; apply Hc; lia | lia]|].
  exists bm2. split; [|replace (Z.of_nat (S n)) with (1 + Z.of_nat n) by lia; by eapply range_set_app; [lia | lia | exact H1 |]].
  cbn [inode_bits] in E1 |- *. destruct (bm !! Z.to_nat (j / 8)) as [b|]; [|done]. cbn [mbind option_bind] in *. injection E1 as ->. rewrite u32_small by lia. exact E2.
Qed.
(** Inodes from the front of a group. *)
Lemma reserve_front_inodes m i bg num : good g m -> bg_at (fs m) i = Some bg -> 0 <= num <= free_inodes bg ->
  ∃ s', reserve_inodes i num (fs m) = Some (first_free_inode bg, s') ∧ good g (set_fs s' m) ∧ frame g [] [] m (set_fs s' m) ∧ costs 0 num (fs m) s' ∧
    ∀ k, 0 <= k < num -> inode_taken g s' (i * ipg + first_free_inode bg + k).
Proof.
  intros Hgm E Hnum. pose proof Hgm as [Hm _]. pose proof (io_groups _ _ Hm) as Hgs. destruct (bg_at_ok g (fs m) i bg Hgs E) as [Hi Hbg].
  destruct (io_inodes _ _ Hm i bg E) as (N1 & N2 & N3 & N4 & N5 & N6). pose proof (blk_range g Hg). unfold reserve_inodes. rewrite E. cbn [mbind option_bind]. rewrite (proj2 (Z.ltb_ge _ _)) by lia.
  destruct (inode_bits_ok (Z.to_nat num) (first_free_inode bg - 1) (inode_bitmap bg)) as (bm & Ebm & B & Hl & Hbit); [done | lia | lia | lia | |].
  { intros j Hj. rewrite N6 by lia. apply Z.ltb_ge. lia. }
  rewrite !u32_small by lia. rewrite Ebm. cbn [mbind option_bind]. rewrite Z2Nat.id in Hbit by lia. eexists. split; [done|]. set (bg' := with_inodes _ _ _ _).
  assert (Hin : inodes_in g bg').
  { unfold inodes_in. cbn [bg' with_inodes first_free_inode free_inodes inode_bitmap]. split_and!; try lia; [done|].
    intros j Hj. rewrite Hbit, N6 by lia. apply eq_iff_eq_true. rewrite orb_true_iff, in_range_true, !Z.ltb_lt. lia. }
  destruct (put_group_ok g Hig m i bg bg' Hgm E) as (K1 & K2 & K3).
  - split; [done|]. split; [done|]. intros j Hj Hb. cbn [bg' with_inodes inode_bitmap]. by rewrite Hbit, Hb by lia.
  - apply (image_ok_inodes g m i bg); try done. by destruct Hbg; split.
  - split; [done|]. split; [done|]. split; [cbn [bg' with_inodes free_inodes] in K3; by replace (free_inodes bg - (free_inodes bg - num)) with num in K3 by lia|].
    intros k Hk. unfold inode_taken. assert (Hd : (i * ipg + first_free_inode bg + k - 1) / ipg = i ∧ (i * ipg + first_free_inode bg + k - 1) mod ipg = first_free_inode bg - 1 + k).
    { split; [symmetry; apply (Z.div_unique _ _ i (first_free_inode bg - 1 + k)); lia | symmetry; apply (Z.mod_unique _ _ i (first_free_inode bg - 1 + k)); lia]. }
    destruct Hd as [-> ->]. exists bg'. split; [by rewrite (bg_at_put g (fs m) i i bg' Hgs Hi), decide_True|]. cbn [bg' with_inodes inode_bitmap]. rewrite Hbit by lia.
    apply orb_true_iff. right. apply in_range_true. lia.
Qed.
(** What the walk starts from. *)
Record started (m : image_state) : Prop := Started {
  sd_good : good g m;
  sd_kept : ∀ n, 1 <= n <= 10 -> inode_taken g (fs m) n;
  sd_empty : inodes m = ∅ ∧ ∀ i, table_at (fs m) i = None
}.
(** The groups when they have just been made. *)
Definition no_tables_yet (s : fsys) : Prop := ∀ i, table_at s i = None.
Lemma init_good s0 s1 B : bgs s0 = [] -> queued_ds s0 = [] -> regs s0 = ∅ -> block_allocator_init g s0 = Some s1 ->
  good g (ImageState s1 ∅ B) ∧ no_tables_yet s1 ∧ ∃ bg, bg_at s1 0 = Some bg ∧ first_free_inode bg = 1 ∧ free_inodes bg = ipg.
Proof.
  intros Hb Hq Hr E. pose proof (image_ok_init g Hg Hig s0 s1 Hb Hq Hr E) as Hm. destruct (block_allocator_init_ok g Hg s0 Hb) as (l & E' & Hl & Hgs). rewrite E in E'. injection E' as ->.
  set (s1 := Fsys _ _ _ _ _) in *. pose proof (go_groups g Hg).
  assert (Hfresh : ∀ i bg, bg_at s1 i = Some bg -> ∃ sup, fresh_group g i sup bg).
  { intros i b Eb. unfold bg_at in Eb. destruct (Z.ltb_spec i 0); [done|]. destruct (Hgs _ _ Eb) as (sup & Hf). exists sup. by rewrite Z2Nat.id in Hf by lia. }
  assert (Htab : no_tables_yet s1).
  { intros i. unfold table_at. destruct (bg_at s1 i) as [b|] eqn:Eb; [|done]. cbn. destruct (Hfresh i b Eb) as (sup & _ & _ & _ & _ & _ & Ht & _). done. }
  split; [|split; [done|]].
  - split; [by destruct Hm; split|]. split; cbn [fs inodes]; [intros i p; by rewrite Htab | intros i j p q _; by rewrite Htab | intros i p sup; by rewrite Htab | intros q [i Hi]; by rewrite lookup_empty in Hi].
  - destruct (bg_at_is_Some g s1 0 (io_groups _ _ Hm) ltac:(lia)) as [bg Ebg]. destruct (Hfresh 0 bg Ebg) as (sup & _ & _ & _ & _ & _ & _ & Hfi & Hff & _). by exists bg.
Qed.
Lemma reserve_ten m bg : good g m -> 10 <= ipg -> bg_at (fs m) 0 = Some bg -> first_free_inode bg = 1 -> free_inodes bg = ipg ->
  ∃ s2, reserve_inodes 0 10 (fs m) = Some (1, s2) ∧ good g (set_fs s2 m) ∧ frame g [] [] m (set_fs s2 m) ∧ costs 0 10 (fs m) s2 ∧
    (∀ n, 1 <= n <= 10 -> inode_taken g s2 n) ∧ ∀ i, table_at s2 i = table_at (fs m) i.
Proof.
  intros Hm H10 Ebg Hff Hfi. destruct (reserve_front_inodes m 0 bg 10 Hm Ebg ltac:(lia)) as (s' & Er & Hg' & Hf' & Hc & Htk). rewrite Hff in Er, Htk. exists s'. split; [exact Er|]. do 3 (split; [done|]). split.
  - intros n Hn. replace n with (0 * ipg + 1 + (n - 1)) by lia. apply Htk. lia.
  - intros i. unfold reserve_inodes in Er. rewrite Ebg in Er. cbn [mbind option_bind] in Er. case_match; [done|]. destruct (inode_bits _ _ _) as [bm|]; [|done].
    cbn [mbind option_bind] in Er. injection Er as _ <-. rewrite (put_table g (fs m) 0 i) by (apply Hm || (pose proof (go_groups g Hg); lia)). case_decide as Hd; [|done]. subst i. unfold table_at. by rewrite Ebg.
Qed.
Lemma start_ok s0 s1 : bgs s0 = [] -> queued_ds s0 = [] -> regs s0 = ∅ -> 10 <= ipg -> block_allocator_init g s0 = Some s1 ->
  ∃ s2, reserve_inodes 0 10 s1 = Some (1, s2) ∧ started (ImageState s2 ∅ ∅).
Proof.
  intros Hb Hq Hr H10 E. destruct (init_good s0 s1 ∅ Hb Hq Hr E) as (Hm & Ht & bg & Ebg & Hff & Hfi).
  destruct (reserve_ten _ bg Hm H10 Ebg Hff Hfi) as (s2 & E2 & Hm2 & _ & _ & Htk & Ht2). exists s2. split; [exact E2|]. split; [exact Hm2 | exact Htk|]. split; [done|]. intros i. cbn. by rewrite Ht2.
Qed.
End Start.
