(* ===== verification/ImageView.v ===== *)
(** * The memory of the program while the image is written

    The theorems on images speak of a memory that holds the buffers and the inode tables,
    of files, and of an image that holds the queue.  Here they are made: whenever the
    buffers and the tables of a state do not overlap and the blocks of its queue can be
    written, which is checked by computation, there are such a memory, files and image. *)
From stdpp Require Import base gmap list list_numbers.
From Stdlib Require Import ZArith Lia.
From S2P Require Import Prelude Crc SparseFormat Backed OutFile OutFileSpec Simg ImageTrip.
From S2P Require Import Alloc AllocInv Extent ExtentFile FileTrip ReadBack ImageOk Indirect Contents Dir ImageFiles MakeFs TreeRead TreeFrame TreeBuild.
#[local] Open Scope Z_scope.

(** ** A memory of regions *)
Fixpoint mem_byte (rs : list (Z * list Z)) (x : Z) : Z :=
  match rs with
  | [] => 0
  | (a, b) :: rs => if (a <=? x) && (x <? a + zlen b) then byte_at b (Z.to_nat (x - a)) else mem_byte rs x
  end.
(** Every address can be read. *)
Definition load_of (rs : list (Z * list Z)) (a n : Z) : option (list Z) :=
  if n <? 0 then None else Some (mem_byte rs <$> seqZ a n).
Definition mmap_of (contents : nat -> list Z) (f : nat) (o n : Z) : option (list Z) :=
  if n <? 0 then None else Some ((fun x => byte_at (contents f) (Z.to_nat x)) <$> seqZ o n).
(** Regions given by their addresses and sizes that do not overlap. *)
Fixpoint regions_apart (l : list (Z * Z)) : bool :=
  match l with
  | [] => true
  | (a, n) :: l => forallb (fun c => (a + n <=? c.1) || (c.1 + c.2 <=? a)) l && regions_apart l
  end.
Definition sizes (rs : list (Z * list Z)) : list (Z * Z) := (fun c => (c.1, zlen c.2)) <$> rs.

Lemma mem_byte_in rs a b k : regions_apart (sizes rs) = true -> (a, b) ∈ rs -> 0 <= k < zlen b -> mem_byte rs (a + k) = byte_at b (Z.to_nat k).
Proof.
  intros Ha Hin Hk. induction rs as [|[a' b'] rs IH]; [by apply elem_of_nil in Hin|]. cbn [sizes fmap list_fmap regions_apart fst snd] in Ha.
  apply andb_true_iff in Ha as [Ha Har]. cbn [mem_byte]. apply elem_of_cons in Hin as [[= <- <-]|Hin].
  - rewrite (proj2 (Z.leb_le _ _)), (proj2 (Z.ltb_lt _ _)) by lia. cbn [andb]. f_equal. lia.
  - rewrite forallb_forall in Ha. specialize (Ha (a, zlen b)). cbn [fst snd] in Ha.
    assert (Hor : (a' + zlen b' <=? a) || (a + zlen b <=? a') = true).
    { apply Ha, list_elem_of_In, list_elem_of_fmap. by exists (a, b). }
    assert (Eout : (a' <=? a + k) && (a + k <? a' + zlen b') = false).
    { apply orb_true_iff in Hor. rewrite !Z.leb_le in Hor. apply andb_false_iff. rewrite Z.leb_gt, Z.ltb_ge. lia. }
    rewrite Eout. by apply IH.
Qed.
Lemma load_of_zlen rs a n b : load_of rs a n = Some b -> zlen b = n.
Proof. unfold load_of. destruct (Z.ltb_spec n 0); [done|]. intros [= <-]. unfold zlen. rewrite length_fmap, length_seqZ. lia. Qed.
Lemma read_slice (f : Z -> Z) o n (b : list Z) : 0 <= o -> 0 <= n -> o + n <= zlen b -> (∀ k, 0 <= k < n -> f k = byte_at b (Z.to_nat (o + k))) -> f <$> seqZ 0 n = slice o n b.
Proof.
  intros Ho Hn Hl Hf. apply list_eq. intros i. rewrite list_lookup_fmap. destruct (Nat.lt_ge_cases i (Z.to_nat n)) as [Hi|Hi].
  - rewrite lookup_seqZ_lt, slice_lookup by lia. cbn [fmap option_fmap option_map]. rewrite Hf by lia. unfold byte_at.
    replace (Z.to_nat (o + (0 + Z.of_nat i))) with (Z.to_nat o + i)%nat by lia. destruct (lookup_lt_is_Some_2 b (Z.to_nat o + i)) as [x ->]; [unfold zlen in Hl; lia | done].
  - rewrite lookup_seqZ_ge, slice_lookup_ge by lia. done.
Qed.
Lemma seqZ_from (f : Z -> Z) a n : f <$> seqZ a n = (fun k => f (a + k)) <$> seqZ 0 n.
Proof. rewrite <- (Z.add_0_r a) at 1. rewrite <- fmap_add_seqZ, <- list_fmap_compose. done. Qed.
Lemma load_of_in rs a b o n : regions_apart (sizes rs) = true -> (a, b) ∈ rs -> 0 <= o -> 0 <= n -> o + n <= zlen b -> load_of rs (a + o) n = Some (slice o n b).
Proof.
  intros Ha Hin Ho Hn Hl. unfold load_of. rewrite (proj2 (Z.ltb_ge _ _)) by lia. f_equal. rewrite seqZ_from. apply read_slice; [done..|].
  intros k Hk. rewrite <- Z.add_assoc. apply mem_byte_in; [done | done | lia].
Qed.
Lemma mmap_of_maps contents f : maps (mmap_of contents) f (contents f).
Proof. intros o n Ho Hn Hl. unfold mmap_of. rewrite (proj2 (Z.ltb_ge _ _)) by lia. f_equal. rewrite (seqZ_from (fun x => byte_at (contents f) (Z.to_nat x))). by apply read_slice. Qed.

(** ** The regions of a state *)
Section View.
Context (g : geom).
Notation bs := (blk_size g).
Notation ipg := (inodes_per_group g).

Definition slot_bytes (i : ext4_inode) : list Z := inode_bytes i ++ zeros (inode_size g - 128).
Definition table_bytes (m : image_state) (p : Z) : list Z :=
  concat ((fun k => slot_bytes (inode_at m (p + k * inode_size g))) <$> seqZ 0 ipg) ++ zeros (table_len g - ipg * inode_size g).
Definition tables_of (m : image_state) : list Z := omap (table_at (fs m)) (seqZ 0 (groups g)).
Definition memory_of (m : image_state) : list (Z * list Z) := map_to_list (bufs m) ++ ((fun p => (p, table_bytes m p)) <$> tables_of m).

(** What is checked. *)
Definition writable_b (d : data_block) : bool :=
  bool_decide (next d = None) && (len d + bs <? 2 ^ 31) &&
  match src_of (info_of g) d with
  | Data _ => true
  | Fill v => (0 <=? v) && (v <? 2 ^ 32)
  | File _ offset => (0 <=? offset) && (len d + 4096 <? 2 ^ 31) && (block d * bs + len d <? len_blocks g * bs)
  end.
Definition viewable (m : image_state) : bool :=
  regions_apart (sizes (map_to_list (bufs m)) ++ ((fun p => (p, table_len g)) <$> tables_of m)) && forallb writable_b (queued_ds (fs m)).

Context (Hg : geom_ok g) (Hsize : 128 <= inode_size g ∧ ipg * inode_size g <= inode_table_blocks g * blk_size g) (Hipg : 0 < ipg).
Lemma concat_zlen (f : Z -> list Z) n a c : 0 <= c -> (∀ k, zlen (f k) = n) -> zlen (concat (f <$> seqZ a c)) = c * n.
Proof.
  intros Hc Hf. rewrite <- (Z2Nat.id c) by done. generalize (Z.to_nat c) as c'. clear c Hc. intros c. revert a. induction c as [|c IH]; intros a; [done|].
  rewrite Nat2Z.inj_succ, seqZ_cons by lia. cbn [fmap list_fmap concat]. rewrite zlen_app, Hf. replace (Z.pred (Z.succ (Z.of_nat c))) with (Z.of_nat c) by lia. rewrite IH. lia.
Qed.
Lemma slice_concat (f : Z -> list Z) n c k : 0 <= n -> (∀ k, zlen (f k) = n) -> 0 <= k < c -> slice (k * n) n (concat (f <$> seqZ 0 c)) = f k.
Proof.
  intros Hn Hf Hk. replace c with (k + (1 + (c - k - 1))) by lia. rewrite !seqZ_app by lia. rewrite !fmap_app, !concat_app.
  assert (E1 : concat (f <$> seqZ (0 + k) 1) = f k) by (rewrite seqZ_cons by lia; cbn; by rewrite app_nil_r). rewrite E1.
  apply slice_mid; [by rewrite (concat_zlen f n) by (done || lia) | by rewrite Hf].
Qed.
Lemma slot_zlen i : zlen (i_block i) = 60 -> zlen (slot_bytes i) = inode_size g.
Proof. intros Hi. unfold slot_bytes. rewrite zlen_app, inode_bytes_zlen, zeros_zlen by (done || lia). lia. Qed.
Lemma table_bytes_ok m p : inodes_sized m -> zlen (table_bytes m p) = table_len g ∧
  ∀ k, 0 <= k < ipg -> slice (k * inode_size g) 128 (table_bytes m p) = inode_bytes (inode_at m (p + k * inode_size g)).
Proof.
  intros Hs. set (f := fun k => slot_bytes (inode_at m (p + k * inode_size g))). assert (Hf : ∀ k, zlen (f k) = inode_size g).
  { intros k. apply slot_zlen. apply (inode_sized m (p + k * inode_size g) Hs). }
  assert (Hc : zlen (concat (f <$> seqZ 0 ipg)) = ipg * inode_size g) by (apply concat_zlen; [lia | done]). unfold table_bytes. fold f. split.
  - rewrite zlen_app, Hc, zeros_zlen; unfold table_len; lia.
  - intros k Hk. transitivity (slice 0 128 (f k)).
    + rewrite <- (slice_concat f (inode_size g) ipg k) by (done || lia). rewrite slice_slice, Z.add_0_r by nia. unfold slice.
      assert (0 <= k * inode_size g ∧ k * inode_size g + inode_size g <= ipg * inode_size g) by nia.
      rewrite drop_app_le, take_app_le; [done | |]; unfold zlen in *; rewrite ?length_drop; lia.
    + unfold f, slot_bytes. rewrite slice_front by (rewrite inode_bytes_zlen; [lia | apply (inode_sized m _ Hs)]).
      rewrite <- (inode_bytes_zlen (inode_at m (p + k * inode_size g))) at 1 by apply (inode_sized m _ Hs). apply slice_all.
Qed.

(** The memory, the files and the image. *)
Lemma view_exists contents m : image_ok g m -> viewable m = true ->
  let load := load_of (memory_of m) in let mmap64 := mmap_of contents in
  loads load m ∧ tables_loaded g load m ∧ (∀ f, maps mmap64 f (contents f)) ∧ Forall (writable g load mmap64) (queued_ds (fs m)) ∧ (∀ d, d ∈ queued_ds (fs m) -> next d = None) ∧
  in_place g load mmap64 (flat load mmap64 (info_of g) (queued_ds (fs m))) (queued_ds (fs m)).
Proof.
  intros Hm Hv load mmap64. apply andb_true_iff in Hv as [Ha Hw]. pose proof (io_sized _ _ Hm) as Hs.
  assert (Hap : regions_apart (sizes (memory_of m)) = true).
  { unfold memory_of, sizes. rewrite fmap_app, <- list_fmap_compose. rewrite <- Ha. do 2 f_equal. apply list_fmap_ext. intros k p _. cbn. by rewrite (proj1 (table_bytes_ok m p Hs)). }
  assert (Hwr : Forall (writable g load mmap64) (queued_ds (fs m))).
  { apply Forall_forall. intros d Hd. rewrite forallb_forall in Hw. specialize (Hw d (proj1 (list_elem_of_In _ _) Hd)). destruct (proj1 (Forall_forall _ _) (io_in _ _ Hm) d Hd) as (D1 & D2 & D3).
    apply andb_true_iff in Hw as [[_ W1]%andb_true_iff W2]. rewrite Z.ltb_lt in W1. unfold writable, readable. destruct (src_of (info_of g) d) as [a|f o|v] eqn:Es; cbn [data_bytes is_file].
    - split; [done|]. split; [|done]. split; [|done]. unfold data_bytes, load, load_of. rewrite (proj2 (Z.ltb_ge _ _)) by lia. eexists. split; [done|]. unfold zlen. rewrite length_fmap, length_seqZ. lia.
    - rewrite !andb_true_iff, Z.leb_le, !Z.ltb_lt in W2. destruct W2 as [[W2 W3] W4]. split; [done|]. split; [|done]. split; [|done].
      unfold data_bytes, file_bytes. change (4096 - 1) with (2 ^ 12 - 1). rewrite (land_lnot_ones o 12) by lia. change (2 ^ 12) with 4096. pose proof (Z.div_mod o 4096). pose proof (Z.mod_pos_bound o 4096).
      unfold mmap64, mmap_of. rewrite (proj2 (Z.ltb_ge _ _)) by lia. cbn [mbind option_bind]. eexists. split; [done|]. unfold zlen. rewrite length_drop, length_fmap, length_seqZ. lia.
    - rewrite andb_true_iff, Z.leb_le, Z.ltb_lt in W2. split; [done|]. split; [|done]. split; [|lia]. unfold data_bytes. eexists. split; [done|]. pose proof (blk_range g Hg).
      destruct (len_le_span g Hg d D1) as [Hl _]. unfold zlen. rewrite length_take. enough (len d <= zlen (fill_bytes v (round_up_to (len d) bs))) by (unfold zlen in *; cbn [block_size info_of]; lia).
      rewrite fill_bytes_zlen; [|pose proof (round_up_to_bounds (len d) bs ltac:(lia)); lia|]; [pose proof (round_up_to_bounds (len d) bs ltac:(lia)); lia|].
      etrans; [|apply round_up_to_divide]. destruct (go_blk g Hg) as (k & Hk & ->). exists (2 ^ (k - 2)). change 4 with (2 ^ 2). rewrite <- (Z.pow_add_r 2 (k - 2) 2) by lia. f_equal. lia. }
  split; [|split; [|split; [|split; [|split]]]].
  - intros a buf o n Eb Ho Hn Hl. apply load_of_in; [done | | done..]. unfold memory_of. apply elem_of_app. left. by apply elem_of_map_to_list.
  - intros i p Et. exists (table_bytes m p). destruct (table_bytes_ok m p Hs) as [Hz Hk]. split; [|by split]. unfold load.
    pose proof (load_of_in (memory_of m) p (table_bytes m p) 0 (table_len g) Hap) as E. rewrite Z.add_0_r in E. pose proof (zlen_nonneg (table_bytes m p)). rewrite E; [f_equal; rewrite <- Hz; apply slice_all | | lia | lia | lia].
    unfold memory_of. apply elem_of_app. right. apply list_elem_of_fmap. exists p. split; [done|]. unfold tables_of. apply list_elem_of_omap. exists i. split; [|done].
    apply elem_of_seqZ. unfold table_at in Et. destruct (bg_at (fs m) i) as [bg|] eqn:Eb; [|done]. rewrite Z.add_0_l. apply (bg_at_ok g (fs m) i bg (io_groups _ _ Hm) Eb).
  - intros f. apply mmap_of_maps.
  - done.
  - intros d Hd. rewrite forallb_forall in Hw. specialize (Hw d (proj1 (list_elem_of_In _ _) Hd)).
    by apply andb_true_iff in Hw as [[Hn%bool_decide_eq_true _]%andb_true_iff _].
  - apply (flat_in_place g Hg); [apply (io_in _ _ Hm) | done | apply (io_apart _ _ Hm)].
Qed.

(** The reader's view of the image, and the image. *)
Definition image_of (contents : nat -> list Z) (m : image_state) : list Z :=
  flat (load_of (memory_of m)) (mmap_of contents) (info_of g) (queued_ds (fs m)).
Lemma view_viewed contents m : image_ok g m -> viewable m = true ->
  viewed g contents (load_of (memory_of m)) (mmap_of contents) (image_of contents m) m.
Proof. intros Hm Hv. destruct (view_exists contents m Hm Hv) as (H1 & H2 & H3 & _ & _ & H4). by split. Qed.
End View.
