(* ===== verification/Tree.v ===== *)
(** * The directory that is packed is read back from the image

    The theorem on [build_directory_structure], from the host directory to the bytes of
    the image, and the walk on a small image. *)
From stdpp Require Import base gmap list.
From Stdlib Require Import ZArith Lia.
From S2P Require Import Prelude Crc SparseFormat Backed Alloc AllocInv AllocSafe AllocInit AllocProps Extent ExtentFile FileTrip ReadBack ImageOk Indirect Contents Dir ImageFiles Sha1 MakeFs TreeRead TreeFrame TreeBuild TreeStart ImageView.
#[local] Open Scope Z_scope.

(** The layouts for which the program is correct: room for the headers, for the inodes in
    their tables, and for the extents in a block. *)
Record layout_ok (g : geom) (fuel : nat) : Prop := LayoutOk {
  ly_geom : geom_ok g;
  ly_bitmap : 0 < inodes_per_group g <= 8 * blk_size g;
  ly_count : 2 <= groups g * inodes_per_group g < 2 ^ 32 - 1;
  ly_table : 128 <= inode_size g ∧ inodes_per_group g * inode_size g <= inode_table_blocks g * blk_size g;
  ly_extents : 12 * (groups g + 2) <= blk_size g;
  ly_fuel : groups g + 1 < Z.of_nat fuel
}.

Lemma tree_ok g sb desc fuel contents es m :
  layout_ok g fuel -> good g m -> inode_taken g (fs m) EXT4_ROOT_INO -> unused g m EXT4_ROOT_INO -> packable g contents (HDir es) ->
  (build_directory_structure (Aux g sb desc) fuel es 0 m = None ∧ short (tree_blocks g (HDir es)) (tree_inodes (HDir es)) (fs m)) ∨
  ∃ m1 m2, build_directory_structure (Aux g sb desc) fuel es 0 m = Some (EXT4_ROOT_INO, m1) ∧ inode_set_permissions g EXT4_ROOT_INO root_mode 0 0 0 m1 = Some m2 ∧
    good g m2 ∧ frame g [] [] m m2 ∧
    ∀ load mmap64 img m4 depth, since [] m m2 m4 -> viewed g contents load mmap64 img m4 -> (height (HDir es) <= depth)%nat ->
      read_node g depth img EXT4_ROOT_INO EXT4_FT_DIR EXT4_ROOT_INO = Some (Perms root_mode 0 0 0, node_of contents (HDir es)).
Proof.
  intros [Hg Hig Hcount Hsize Hcap Hfuel] Hm Htk Hu Hpk.
  destruct (root_ok g Hg Hig ltac:(lia) Hsize fuel Hfuel Hcap contents sb desc es m Hm Hpk ltac:(lia) Htk Hu) as [[E Hs]|(m1 & q & E & [B1 B2 B3 B4 B5 [B6 B6'] B7 B8])].
  { left. split; [exact E|]. eapply short_le; [exact Hs | lia |]. cbn [tree_inodes]. unfold sum_inodes. lia. }
  right. destruct (permissions_good g Hg Hig ltac:(lia) Hsize fuel Hfuel Hcap m1 EXT4_ROOT_INO q (Perms root_mode 0 0 0) B1 B3 B4 B5) as (m2 & E2 & Hm2 & Hf2 & Hi2 & Hb2 & _).
  exists m1, m2. split; [exact E|]. split; [exact E2|]. split; [done|]. split.
  { apply (frame_step g [] [] [q] [] m m1 m2 B2 Hf2); [intros p ->%list_elem_of_singleton; by right | by intros p ?%elem_of_nil]. }
  intros load mmap64 img m4 depth Hs Hv Hh. apply (B8 (Perms root_mode 0 0 0) load mmap64 m4 img depth); [done | | | done | done].
  - destruct Hs as [(qs & S1) S2 S3 S4]. destruct (fr_queue _ _ _ _ _ Hf2) as (q2 & Eq2). pose proof (fr_brk _ _ _ _ _ Hf2). split.
    + exists (q2 ++ qs). by rewrite S1, Eq2, app_assoc.
    + intros i p E'. apply S2, (fr_tables _ _ _ _ _ Hf2), E'.
    + intros q' i E1' Eq Hq'. apply S3; [done | by apply (fr_inodes _ _ _ _ _ Hf2) | by intros ?%elem_of_nil].
    + intros x Hx. rewrite S4 by lia. apply (fr_bufs _ _ _ _ _ Hf2); [lia | by intros ?%elem_of_nil].
  - unfold inode_at at 1. by rewrite (si_inodes _ _ _ _ Hs q _ B6 Hi2) by (by intros ?%elem_of_nil).
Qed.

(** C15. The directory that is packed is read back, for layouts the program can deal with
    ([layout_ok]: among others no more groups than extents fit in a block, 339 with blocks of
    4 KB) and for directories that are [packable]: regular files, links shorter than 60
    characters and directories, no special files (they make the call fail), names shorter than
    256 characters, at most 500000 entries in a directory, files that block numbers can count,
    and permissions, owners and times that fit in their fields.  From an image in order in
    which the root has no record yet: the walk fails only when there are too few inodes, or
    when no single group has room for as many blocks as all of the directory takes (it may
    fail then although the groups together have room); otherwise the image stays in order,
    and whatever is added or changed later but what was made for the directory, a reader that
    starts at the root inode and has nothing but the bytes of an image that holds the queued
    blocks, as the memory and the files give them, finds the directory, with every name,
    permission, link and byte of the files. *)
Theorem tree_read_back a fuel contents es m :
  let g := ax_geom a in
  layout_ok g fuel -> good g m -> inode_taken g (fs m) EXT4_ROOT_INO -> unused g m EXT4_ROOT_INO -> packable g contents (HDir es) ->
  (build_directory_structure a fuel es 0 m = None ∧ short (tree_blocks g (HDir es)) (tree_inodes (HDir es)) (fs m)) ∨
  ∃ m1 m2, build_directory_structure a fuel es 0 m = Some (EXT4_ROOT_INO, m1) ∧ inode_set_permissions g EXT4_ROOT_INO root_mode 0 0 0 m1 = Some m2 ∧ good g m2 ∧
    ∀ load mmap64 img m4 depth, since [] m m2 m4 -> viewed g contents load mmap64 img m4 -> (height (HDir es) <= depth)%nat ->
      read_node g depth img EXT4_ROOT_INO EXT4_FT_DIR EXT4_ROOT_INO = Some (Perms root_mode 0 0 0, node_of contents (HDir es)).
Proof.
  destruct a as [g sb desc]. intros g' Hl Hm Htk Hu Hpk. destruct (tree_ok g sb desc fuel contents es m Hl Hm Htk Hu Hpk) as [H|(m1 & m2 & E1 & E2 & Hm2 & _ & H)]; [by left | right].
  by exists m1, m2.
Qed.

(** One group of 64 blocks of 1 KB with 16 inodes, and a directory with a file, a link, and a
    directory with an empty file. *)
Definition geom_tree : geom := Geom 1024 64 16 128 0 true 1 65 2 1 1.
Lemma geom_tree_ok : layout_ok geom_tree 3.
Proof.
  split; cbn; try lia. split; unfold gfirst; cbn; try lia; [by exists 10|]. intros i sup Hi. assert (i = 0) as -> by lia. intros [= <-]. done.
Qed.
Definition tree_contents (f : nat) : list Z := match f with 3%nat => replicate 1500 7 | _ => [] end.
Definition tree_ex : list (list Z * perms * host_node) :=
  let p := Perms 0x1A4 1000 1000 77 in
  [([97], p, HFile 3 1500); ([98], p, HLink [97]); ([99], Perms 0x1ED 0 0 78, HDir [([100], p, HFile 4 0)])].
Definition start_tree : image_state :=
  ImageState (default empty_fs (s ← block_allocator_init geom_tree empty_fs; '(_, s) ← reserve_inodes 0 10 s; Some s)) ∅ ∅.
Lemma start_tree_ok : started geom_tree start_tree.
Proof.
  destruct geom_tree_ok as [Hg Hig Hcount _ _ _]. destruct (block_allocator_init geom_tree empty_fs) as [s1|] eqn:E; [|by vm_compute in E].
  destruct (start_ok geom_tree Hg Hig empty_fs s1 eq_refl eq_refl eq_refl ltac:(cbn; lia) E) as (s2 & E2 & H). unfold start_tree. rewrite E. cbn [mbind option_bind]. by rewrite E2.
Qed.
Lemma tree_viewable :
  ('(_, m1) ← build_directory_structure (Aux geom_tree 0 0) 3 tree_ex 0 start_tree;
   m2 ← inode_set_permissions geom_tree EXT4_ROOT_INO root_mode 0 0 0 m1; Some (viewable geom_tree m2)) = Some true.
Proof. vm_compute. reflexivity. Qed.
(** The image of this directory, made of the memory and the files, and read. *)
Lemma tree_read_back_witness : ∃ m1 m2, build_directory_structure (Aux geom_tree 0 0) 3 tree_ex 0 start_tree = Some (2, m1) ∧ inode_set_permissions geom_tree 2 root_mode 0 0 0 m1 = Some m2 ∧
  let img := image_of geom_tree tree_contents m2 in
  viewed geom_tree tree_contents (load_of (memory_of geom_tree m2)) (mmap_of tree_contents) img m2 ∧
  read_node geom_tree 3 img 2 2 2 = Some (Perms root_mode 0 0 0, node_of tree_contents (HDir tree_ex)).
Proof.
  destruct (tree_read_back (Aux geom_tree 0 0) 3 tree_contents tree_ex start_tree) as [[E _]|(m1 & m2 & E1 & E2 & Hm2 & H)].
  - exact geom_tree_ok.
  - exact (sd_good _ _ start_tree_ok).
  - exact (sd_kept _ _ start_tree_ok 2 ltac:(lia)).
  - intros q _. rewrite (proj1 (sd_empty _ _ start_tree_ok)). apply lookup_empty.
  - apply packable_dir. split; [done|]. by repeat constructor.
  - exfalso. vm_compute in E. discriminate.
  - exists m1, m2. split; [exact E1|]. split; [exact E2|].
    assert (Hv : viewable geom_tree m2 = true).
    { pose proof tree_viewable as Hv. cbn [ax_geom] in E2. rewrite E1 in Hv. cbn [mbind option_bind] in Hv. rewrite E2 in Hv. cbn [mbind option_bind] in Hv. by injection Hv. }
    assert (Hview : viewed geom_tree tree_contents (load_of (memory_of geom_tree m2)) (mmap_of tree_contents) (image_of geom_tree tree_contents m2) m2).
    { destruct geom_tree_ok as [Hg [Hi _] _ Hs _ _]. exact (view_viewed geom_tree Hg Hs Hi tree_contents m2 (proj1 Hm2) Hv). }
    split; [exact Hview|]. apply (H _ _ _ m2 3%nat (since_refl _ _ m2) Hview). cbn. lia.
Defined.
