(* ===== verification/MakeSuper.v ===== *)
(** * The super block

    What [ext4_fill_in_sb] stores is read back: the layout of the file system is in the
    super block that is written, and the stores that come later, of the mount point, the
    journal and the counts, leave it there. *)
From stdpp Require Import base gmap list list_numbers.
From Stdlib Require Import ZArith Lia.
From S2P Require Import Prelude Crc SparseFormat Sha1 Backed Alloc AllocInv AllocInit Extent ExtentSpec ExtentFile FileTrip Indirect Contents MakeFs.
#[local] Open Scope Z_scope.

(** ** Stores into a buffer *)
Definition stores_fit (l : list (Z * list Z)) (n : Z) : Prop := Forall (fun e => 0 <= e.1 ∧ e.1 + zlen e.2 <= n) l.
Lemma stores_ok l buf : stores_fit l (zlen buf) -> ∃ buf', stores l buf = Some buf' ∧ zlen buf' = zlen buf ∧
  ∀ o n, 0 <= o -> 0 <= n -> o + n <= zlen buf -> Forall (fun e => e.1 + zlen e.2 <= o ∨ o + n <= e.1) l -> slice o n buf' = slice o n buf.
Proof.
  revert buf. induction l as [|[p b] l IH]; intros buf H; cbn [stores]; [by exists buf|]. apply Forall_cons in H as [[H1 H2] H]. cbn [fst snd] in *.
  rewrite store_ok by done. cbn [mbind option_bind]. assert (Hz : zlen (overlay p b buf) = zlen buf) by (by apply overlay_len).
  destruct (IH (overlay p b buf)) as (buf' & E & Hz' & Hs); [by rewrite Hz|]. exists buf'. split; [done|]. split; [congruence|].
  intros o n Ho Hn Hon [Hd Hl]%Forall_cons. rewrite Hs by (rewrite ?Hz; done). cbn [fst snd] in Hd. apply slice_overlay_other; lia.
Qed.
Lemma stores_app l l' buf : stores (l ++ l') buf = buf ← stores l buf; stores l' buf.
Proof. revert buf. induction l as [|[p b] l IH]; intros buf; cbn [app stores]; [done|]. destruct (store p b buf); [apply IH | done]. Qed.
(** The last store to a place stays. *)
Lemma stores_last l l' o b buf buf' : stores (l ++ (o, b) :: l') buf = Some buf' -> stores_fit (l ++ (o, b) :: l') (zlen buf) -> Forall (fun e => e.1 + zlen e.2 <= o ∨ o + zlen b <= e.1) l' ->
  slice o (zlen b) buf' = b.
Proof.
  intros E [H1 [[H2 H3] H4]%Forall_cons]%Forall_app Hd. cbn [fst snd] in *. rewrite stores_app in E. destruct (stores_ok l buf H1) as (buf1 & E1 & Hz1 & _). rewrite E1 in E. cbn [mbind option_bind stores] in E.
  rewrite store_ok in E by lia. cbn [mbind option_bind] in E. assert (Hz2 : zlen (overlay o b buf1) = zlen buf) by (rewrite overlay_len; lia).
  destruct (stores_ok l' (overlay o b buf1)) as (buf2 & E2 & _ & Hs); [by rewrite Hz2|]. pose proof (zlen_nonneg b). assert (buf2 = buf') as <- by congruence.
  rewrite Hs by (rewrite ?Hz2; lia || done). apply slice_overlay_same; lia.
Qed.

Lemma edit_ok p l m buf buf' : bufs m !! p = Some buf -> stores l buf = Some buf' -> edit p l m = Some (put_buf p buf' m).
Proof. intros Eb E. unfold edit. rewrite Eb. cbn [mbind option_bind]. by rewrite E. Qed.
Lemma bytes16_zlen v : zlen (bytes16 v) = 2.
Proof. done. Qed.

(** A store that nothing later covers. *)
Definition far (o n : Z) (e : Z * list Z) : Prop := e.1 + zlen e.2 <= o ∨ o + n <= e.1.
Fixpoint wrote (o : Z) (b : list Z) (l : list (Z * list Z)) : Prop :=
  match l with [] => False | (p, c) :: l => p = o ∧ c = b ∧ Forall (far o (zlen b)) l ∨ wrote o b l end.
Lemma wrote_split o b l : wrote o b l -> ∃ l1 l2, l = l1 ++ (o, b) :: l2 ∧ Forall (far o (zlen b)) l2.
Proof.
  induction l as [|[p c] l IH]; [done|]. intros [(-> & -> & H)|H]; [by exists [], l|]. destruct (IH H) as (l1 & l2 & -> & H2). by exists ((p, c) :: l1), l2.
Qed.
Lemma stores_wrote o b l buf buf' : stores l buf = Some buf' -> stores_fit l (zlen buf) -> wrote o b l -> slice o (zlen b) buf' = b.
Proof. intros E Hf (l1 & l2 & -> & H)%wrote_split. by apply (stores_last l1 l2 o b buf buf'). Qed.

(** ** The layout in the super block *)
Definition EXT4_SUPER_MAGIC : Z := 0xEF53.
(** The layout as a kernel takes it from the super block. *)
Definition sb_geom (sb : list Z) : option geom :=
  let bs := 1024 * 2 ^ le32 (slice 24 4 sb) in
  let bpg := le32 (slice 32 4 sb) in
  if negb (le16 (slice 56 2 sb) =? EXT4_SUPER_MAGIC) || (bpg =? 0) then None else
  let len := le32 (slice 4 4 sb) in
  let first := le32 (slice 20 4 sb) in
  let ipg := le32 (slice 40 4 sb) in
  let isize := le16 (slice 88 2 sb) in
  let groups := (len - first + bpg - 1) / bpg in
  Some (Geom bs bpg ipg isize (le16 (slice 206 2 sb)) (Z.testbit (le32 (slice 100 4 sb)) 0) first len
    ((ipg * isize + bs - 1) / bs) groups ((groups * 32 + bs - 1) / bs)).
(** Where it is. *)
Definition sb_fields (ro_compat : Z) (g : geom) : list (Z * list Z) :=
  [(4, bytes32 (len_blocks g)); (20, bytes32 (first_data_block g)); (24, bytes32 (log_2 (blk_size g / 1024))); (32, bytes32 (blocks_per_group g));
   (40, bytes32 (inodes_per_group g)); (56, bytes16 EXT4_SUPER_MAGIC); (88, bytes16 (inode_size g)); (100, bytes32 ro_compat); (206, bytes16 (bg_desc_reserve_blocks g))].
Definition says (ro_compat : Z) (g : geom) (sb : list Z) : Prop :=
  zlen sb = blk_size g ∧ Forall (fun e => slice e.1 (zlen e.2) sb = e.2) (sb_fields ro_compat g).
(** The layouts that fit in the super block. *)
Record sb_ok (ro_compat : Z) (g : geom) : Prop := SbOk {
  so_geom : geom_ok g;
  so_inodes : 0 <= inodes_per_group g < 2 ^ 32 ∧ 0 <= inode_size g < 2 ^ 16 ∧ 0 <= bg_desc_reserve_blocks g < 2 ^ 16;
  so_sparse : 0 <= ro_compat < 2 ^ 32 ∧ sparse_super g = Z.testbit ro_compat 0;
  so_table : inode_table_blocks g = (inodes_per_group g * inode_size g + blk_size g - 1) / blk_size g;
  so_desc : bg_desc_blocks g = (groups g * 32 + blk_size g - 1) / blk_size g
}.
Lemma log_block bs : (∃ k, 10 <= k <= 12 ∧ bs = 2 ^ k) -> 0 <= log_2 (bs / 1024) < 2 ^ 32 ∧ 1024 * 2 ^ log_2 (bs / 1024) = bs.
Proof. intros (k & Hk & ->). assert (k = 10 ∨ k = 11 ∨ k = 12) as [->|[->| ->]] by lia; vm_compute; done. Qed.
Lemma group_count g : geom_ok g -> (len_blocks g - first_data_block g + blocks_per_group g - 1) / blocks_per_group g = groups g.
Proof.
  intros Hg. pose proof (go_len g Hg) as Hl. pose proof (go_bpg g Hg). unfold gfirst in Hl. symmetry.
  apply (Z.div_unique _ _ _ (len_blocks g - first_data_block g - (groups g - 1) * blocks_per_group g - 1)); lia.
Qed.
Lemma fields_geom ro g sb : sb_ok ro g -> Forall (fun e => slice e.1 (zlen e.2) sb = e.2) (sb_fields ro g) -> sb_geom sb = Some g.
Proof.
  intros [Hg (I1 & I2 & I3) (R1 & R2) Ht Hd] Hs. pose proof (log_block _ (go_blk g Hg)) as [L1 L2]. pose proof (go_first g Hg). pose proof (go_bpg g Hg). pose proof (go_max g Hg). pose proof (blk_range g Hg).
  pose proof (group_count g Hg) as Egr. pose proof (go_len g Hg) as Hl. pose proof (gfirst_range g Hg (groups g - 1)) as Hr. pose proof (go_groups g Hg).
  unfold sb_fields in Hs. rewrite !Forall_cons in Hs. cbn [fst snd] in Hs. rewrite !bytes32_zlen in Hs. change (zlen (bytes16 ?v)) with 2 in Hs. destruct Hs as (E1 & E2 & E3 & E4 & E5 & E6 & E7 & E8 & E9 & _).
  assert (H32 : ∀ v, 0 <= v < 2 ^ 32 -> le32 (bytes32 v) = v) by (intros v Hv; rewrite <- (app_nil_r (bytes32 v)); by apply le32_bytes32).
  assert (H16 : ∀ v, 0 <= v < 2 ^ 16 -> le16 (bytes16 v) = v) by (intros v Hv; rewrite <- (app_nil_r (bytes16 v)); by apply le16_bytes16).
  unfold sb_geom. rewrite E1, E2, E3, E4, E5, E6, E7, E8, E9, !H32, !H16 by (done || lia). rewrite (proj2 (Z.eqb_neq (blocks_per_group g) 0)) by lia.
  cbn [negb orb]. rewrite L2, Egr, <- Ht, <- Hd, <- R2. by destruct g.
Qed.
Lemma sb_fields_in ro g : Forall (fun e => 0 <= e.1 ∧ e.1 + zlen e.2 <= 1024) (sb_fields ro g).
Proof. unfold sb_fields. repeat (apply Forall_cons; split; [cbn [fst snd]; rewrite ?bytes32_zlen, ?bytes16_zlen; lia|]). constructor. Qed.
(** A kernel reads the first 1024 bytes. *)
Lemma says_geom ro g sb : sb_ok ro g -> says ro g sb -> sb_geom (slice 0 1024 sb) = Some g.
Proof.
  intros Hok [_ Hs]. apply (fields_geom ro); [done|]. rewrite Forall_forall in Hs |- *. intros e He. destruct (proj1 (Forall_forall _ _) (sb_fields_in ro g) e He) as [F1 F2]. pose proof (zlen_nonneg e.2).
  rewrite slice_slice by lia. rewrite Z.add_0_l. by apply Hs.
Qed.
(** Stores away from these fields. *)
Lemma says_stores ro g l sb sb' : says ro g sb -> stores_fit l (blk_size g) -> 1024 <= blk_size g -> Forall (fun e => Forall (fun f => far f.1 (zlen f.2) e) (sb_fields ro g)) l -> stores l sb = Some sb' -> says ro g sb'.
Proof.
  intros [Hz Hs] Hfit Hbs Hfar E. destruct (stores_ok l sb) as (sb2 & E2 & Hz2 & Hk); [by rewrite Hz|]. assert (sb2 = sb') as -> by congruence. split; [congruence|].
  rewrite Forall_forall in Hs |- *. intros f Hf. destruct (proj1 (Forall_forall _ _) (sb_fields_in ro g) f Hf) as [F1 F2].
  rewrite Hk; [by apply Hs | done | apply zlen_nonneg | lia |]. eapply Forall_impl; [exact Hfar|]. intros e He. rewrite Forall_forall in He. by apply (He f).
Qed.

Lemma far_fields ro g e : 8 <= e.1 ∧ e.1 + zlen e.2 <= 20 ∨ 104 <= e.1 ∧ e.1 + zlen e.2 <= 206 ∨ 208 <= e.1 -> Forall (fun f => far f.1 (zlen f.2) e) (sb_fields ro g).
Proof. intros He. unfold sb_fields. repeat (apply Forall_cons; split; [unfold far; cbn [fst snd]; rewrite ?bytes32_zlen, ?bytes16_zlen; lia|]). constructor. Qed.

(** ** The identifier of the file system *)


Lemma generate_uuid_ok namespace name : bytes namespace -> bytes name -> zlen namespace < 2 ^ 29 -> zlen name < 2 ^ 29 -> ∃ uuid, generate_uuid namespace name = Some uuid ∧ zlen uuid = 16.
Proof.
  intros Hn1 Hn2 H1 H2. unfold generate_uuid, sha1_hash.
  destruct (update_ok [] (SHA1Init (zeros 64)) namespace (length namespace)) as (c1 & -> & Hc1); [apply init_ok; [done | by repeat constructor] | done..|]. cbn [mbind option_bind].
  destruct (update_ok ([] ++ namespace) c1 name (length name)) as (c2 & -> & Hc2); [done..|]. cbn [mbind option_bind]. rewrite (final_ok _ _ Hc2). cbn [mbind option_bind]. eexists. split; [done|].
  unfold sha1. destruct (foldl compress _ _) as [[[[a b] c] d] e]. done.
Qed.

(** ** What [ext4_fill_in_sb] stores *)
Lemma name_field_zlen n s : 0 <= n -> zlen (name_field n s) = n.
Proof. intros Hn. unfold name_field, zeros. rewrite zlen_app. unfold zlen. rewrite length_replicate, length_take. lia. Qed.
(** Stores at constant places; the sizes of the identifier and of the name are given. *)
Ltac store_place Hu Hn := cbn [fst snd]; unfold far; cbn [fst snd]; rewrite ?Hu, ?Hn, ?bytes32_zlen, ?bytes16_zlen; change (zlen (zeros 64)) with 64; change (zlen (zeros 8)) with 8; repeat change (zlen [?v]) with 1; lia.
Ltac fit_stores Hu Hn := repeat first [apply Forall_nil_2 | apply Forall_cons; split; [store_place Hu Hn|]].
Ltac find_store Hu Hn := lazymatch goal with |- wrote ?o ?b ((?p, ?c) :: _) =>
  tryif (constr_eq o p) then (left; split; [done|]; split; [done|]; fit_stores Hu Hn) else (right; find_store Hu Hn) end.
Lemma sb_stores_fit i g uuid : zlen uuid = 16 -> 1024 <= blk_size g -> stores_fit (sb_stores i g uuid) (blk_size g).
Proof.
  intros Hu Hbs. unfold sb_stores, s_free_blocks_count_lo, s_free_inodes_count, s_block_group_nr, s_last_mounted, stores_fit.
  pose proof (name_field_zlen 16 (mi_label i) ltac:(lia)) as Hn. destruct (negb _); cbn [app]; fit_stores Hu Hn.
Qed.
Lemma sb_stores_says i g uuid buf : zlen uuid = 16 -> 1024 <= blk_size g -> zlen buf = blk_size g ->
  ∃ sb, stores (sb_stores i g uuid) buf = Some sb ∧ says (mi_feat_ro_compat i) g sb.
Proof.
  intros Hu Hbs Hz. pose proof (sb_stores_fit i g uuid Hu Hbs) as Hfit. destruct (stores_ok (sb_stores i g uuid) buf) as (sb & E & Hz' & _); [by rewrite Hz|]. exists sb. split; [done|]. split; [congruence|].
  pose proof (name_field_zlen 16 (mi_label i) ltac:(lia)) as Hn.
  assert (Hw : ∀ e, e ∈ sb_fields (mi_feat_ro_compat i) g -> wrote e.1 e.2 (sb_stores i g uuid)).
  { apply Forall_forall. unfold sb_fields, sb_stores, s_free_blocks_count_lo, s_free_inodes_count, s_block_group_nr, s_last_mounted.
    destruct (negb _); cbn [app]; repeat first [apply Forall_nil_2 | apply Forall_cons; split; [cbn [fst snd]; find_store Hu Hn|]]. }
  apply Forall_forall. intros e He. apply (stores_wrote e.1 e.2 _ buf sb E); [by rewrite Hz | by apply Hw].
Qed.
