(* ===== verification/Ext2simg.v ===== *)
(** * An ext4 image as a sparse image ([ext4_utils/ext2simg.c])

    The tool reads the super block, the descriptors of the groups and the bitmap of every
    group from an image, and queues every run of blocks in use as a part of the file that the
    image is; what the queue holds is then written as [OutFile] does.  [ext4_parse_sb] is from
    [ext4_utils.c].  [error], [critical_error], a division by 0 and a use of memory outside of
    a buffer are [None].  The calls on the image are an interface. *)
From stdpp Require Import base gmap list list_numbers.
From Stdlib Require Import ZArith Lia.
From S2P Require Import Prelude Crc SparseFormat Backed OutFile OutFileSpec Simg MemFile ImageTrip.
From S2P Require Import Alloc AllocBits AllocInv FileTrip ReadBack MakeSuper.
#[local] Open Scope Z_scope.

Definition off64_t (z : Z) : Z := (z + 2 ^ 63) mod 2 ^ 64 - 2 ^ 63.
(** [lseek64] from the start of the file, and [read]; [None] is a negative result. *)
Class Infd (FD : Type) := {
  in_lseek : FD -> Z -> option FD;
  in_read : FD -> Z -> option (list Z * FD)
}.
(** What both do together on a file with the bytes [img]. *)
Class InfdLaws (FD : Type) `{Infd FD} := {
  in_bytes : FD -> list Z;
  in_pos : FD -> Z;
  lseek_law f off : 0 <= off -> ∃ f', in_lseek f off = Some f' ∧ in_bytes f' = in_bytes f ∧ in_pos f' = off;
  in_read_law f n : 0 <= n -> 0 <= in_pos f ->
    ∃ f', in_read f n = Some (slice (in_pos f) n (in_bytes f), f') ∧ in_bytes f' = in_bytes f
}.

Definition EXT4_VALID_FS : Z := 1.

(** The layout, and [info.len]. *)
Definition ext4_parse_sb (sb : list Z) : option (geom * Z) :=
  if negb (le16 (slice 56 2 sb) =? EXT4_SUPER_MAGIC) then None else
  if negb (Z.land (le16 (slice 58 2 sb)) EXT4_VALID_FS =? EXT4_VALID_FS) then None else
  let log_block_size := le32 (slice 24 4 sb) in
  if 20 <? log_block_size then None else
  let block_size := Z.shiftl 1024 log_block_size in
  let len_blocks := 2 ^ 32 * le32 (slice 336 4 sb) + le32 (slice 4 4 sb) in
  let len := u64 (block_size * len_blocks) in
  let blocks_per_group := le32 (slice 32 4 sb) in
  if blocks_per_group =? 0 then None else
  g ← create_fs_aux_info block_size blocks_per_group (le32 (slice 40 4 sb)) (le16 (slice 88 2 sb))
        (le16 (slice 206 2 sb)) len (Z.testbit (le32 (slice 100 4 sb)) 0);
  if negb (first_data_block g =? le32 (slice 20 4 sb)) then None else Some (g, len).

Definition bitmap_get_bit (bitmap : list Z) (bit : Z) : option bool :=
  b ← bitmap !! Z.to_nat (bit / 8);
  Some (negb (Z.land b (Z.shiftl 1 (bit mod 8)) =? 0)).

Section Ext2simg.
Context {FD : Type} `{Infd FD}.

(** [lseek64] and [read] with their checks: all of the bytes, or the program ends. *)
Definition read_at (f : FD) (off n : Z) : option (list Z * FD) :=
  f ← in_lseek f (off64_t off);
  '(b, f) ← in_read f n;
  if negb (zlen b =? n) then None else Some (b, f).

(** The layout with [info.len], and the bytes of the descriptors. *)
Definition read_ext (f : FD) : option (geom * Z * list Z * FD) :=
  '(sb, f) ← read_at f 1024 1024;
  '(g, len) ← ext4_parse_sb sb;
  f ← in_lseek f (off64_t len);
  '(bg_desc, f) ← read_at f (u32 (blk_size g * (first_data_block g + 1))) (u32 (blk_size g * bg_desc_blocks g));
  Some (g, len, bg_desc, f).

Section Build.
Context (g : geom) (filename : nat).
(** [queue_data_file]: what is queued is kept in the order of the calls. *)
Definition queue_run (start_block len_blocks : Z) (q : list data_block) : list data_block :=
  q ++ [DataBlock start_block (u32 (blk_size g * len_blocks)) 0 (Some filename) (u64 (blk_size g * start_block)) 0 false None].

(** [start] is [start_contiguous_block]. *)
Fixpoint scan_loop (n : nat) (block_bitmap : list Z) (first_block block start : Z) (q : list data_block)
  : option (Z * list data_block) :=
  match n with
  | O => Some (start, q)
  | S n =>
      bit ← bitmap_get_bit block_bitmap block;
      if 0 <=? start then
        if negb bit then scan_loop n block_bitmap first_block (u32 (block + 1)) (-1) (queue_run (u32 (first_block + start)) (u32 (block - start)) q)
        else scan_loop n block_bitmap first_block (u32 (block + 1)) start q
      else
        scan_loop n block_bitmap first_block (u32 (block + 1)) (if (bit : bool) then s32 block else start) q
  end.
Definition scan_group (block_bitmap : list Z) (first_block last_block : Z) (q : list data_block) : option (list data_block) :=
  '(start, q) ← scan_loop (Z.to_nat last_block) block_bitmap first_block 0 (-1) q;
  Some (if 0 <=? start then queue_run (u32 (first_block + start)) (u32 (last_block - start)) q else q).

(** [aux_info.bg_desc[i].bg_block_bitmap]. *)
Definition desc_block_bitmap (bg_desc : list Z) (i : Z) : Z := le32 (slice (i * 32) 4 bg_desc).
Fixpoint groups_loop (n : nat) (bg_desc : list Z) (i : Z) (f : FD) (q : list data_block) : option (list data_block * FD) :=
  match n with
  | O => Some (q, f)
  | S n =>
      let first_block := u32 (first_data_block g + i * blocks_per_group g) in
      let last_block := u32 (Z.min (blocks_per_group g) (u64 (len_blocks g - first_block))) in
      '(block_bitmap, f) ← read_at f (u64 (blk_size g * desc_block_bitmap bg_desc i)) (blk_size g);
      q ← scan_group block_bitmap first_block last_block q;
      groups_loop n bg_desc (i + 1) f q
  end.
Definition build_sparse_ext (bg_desc : list Z) (f : FD) : option (list data_block * FD) :=
  let q := if 0 <? first_data_block g then
      [DataBlock 0 (u32 (blk_size g * first_data_block g)) 0 (Some filename) 0 0 false None] else [] in
  groups_loop (Z.to_nat (groups g)) bg_desc 0 f q.
End Build.

Definition ext2simg {F} (ops : output_file_ops F) (load : Z -> Z -> option (list Z)) (mmap64 : nat -> Z -> Z -> option (list Z))
    (fuel : nat) (infd : FD) (filename : nat) (outfd : F) (sparse crc : bool) : option (output_file F) :=
  '(g, len, bg_desc, infd) ← read_ext infd;
  '(l, _) ← build_sparse_ext g filename bg_desc infd;
  q ← push_all fuel (with_nodes l) empty_queue;
  write_ext4_image ops load mmap64 (FsInfo len (blk_size g)) fuel outfd sparse crc q.
End Ext2simg.

(** ** What is in use *)
Lemma get_bit_ok bm k : 0 <= k < 8 * zlen bm -> bitmap_get_bit bm k = Some (bit_at bm k).
Proof.
  intros Hk. unfold bitmap_get_bit, bit_at. destruct (byte_index bm k Hk) as [b ->]. cbn [mbind option_bind]. f_equal.
  pose proof (Z.mod_pos_bound k 8). destruct (Z.testbit b (k mod 8)) eqn:E.
  - apply negb_true_iff, Z.eqb_neq. intros H0. apply (f_equal (fun z => Z.testbit z (k mod 8))) in H0.
    rewrite Z.land_spec, E, Z.shiftl_spec, Z.sub_diag, Z.bits_0 in H0 by lia. done.
  - apply negb_false_iff, Z.eqb_eq. apply Z.bits_inj'. intros j Hj. rewrite Z.land_spec, Z.bits_0, Z.shiftl_spec by lia.
    destruct (Z.eq_dec j (k mod 8)) as [->|Hne]; [by rewrite E|]. change 1 with (2 ^ 0). rewrite Z.pow2_bits_false by lia. apply andb_false_r.
Qed.

(** The bitmaps of an image say which blocks are in use; the block in front of the first group is. *)
Definition group_bitmap (g : geom) (img : list Z) (bg_desc : list Z) (i : Z) : list Z :=
  slice (blk_size g * desc_block_bitmap bg_desc i) (blk_size g) img.
Definition in_use (g : geom) (img bg_desc : list Z) (b : Z) : bool :=
  (b <? first_data_block g) ||
  bit_at (group_bitmap g img bg_desc ((b - first_data_block g) / blocks_per_group g)) ((b - first_data_block g) mod blocks_per_group g).
(** The image with zeros in the blocks that are not. *)
Definition used_part (g : geom) (img bg_desc : list Z) : list Z :=
  concat ((fun b => if in_use g img bg_desc b then read_block g img b else zeros (blk_size g)) <$> seqZ 0 (len_blocks g)).

Section Scan.
Context (g : geom) (Hg : geom_ok g) (filename : nat) (used : Z -> bool).
Notation bs := (blk_size g).

(** A run of blocks, and the runs of the blocks in use up to [B]. *)
Definition run (s n : Z) : data_block := DataBlock s (bs * n) 0 (Some filename) (bs * s) 0 false None.
Record runs (l : list data_block) (B : Z) : Prop := Runs {
  ru_shape : Forall (fun d => ∃ s n, d = run s n ∧ 0 <= s ∧ 0 < n <= 8 * bs ∧ s + n <= B) l;
  ru_used : ∀ b, 0 <= b < B -> used b = true <-> ∃ d, d ∈ l ∧ occupies g d b;
  ru_apart : q_apart g l;
  ru_count : zlen l <= B
}.
Lemma run_occupies s n b : 0 < n -> occupies g (run s n) b <-> s <= b < s + n.
Proof.
  intros Hn. unfold occupies, nblocks, run. cbn [block len]. pose proof (blk_range g Hg). replace ((bs * n + bs - 1) / bs) with n; [done|].
  apply (Z.div_unique_pos _ _ _ (bs - 1)); lia.
Qed.
Lemma runs_below l B d b : runs l B -> d ∈ l -> occupies g d b -> 0 <= b < B.
Proof.
  intros [Hs _ _ _] Hd Hb. rewrite Forall_forall in Hs. destruct (Hs d Hd) as (s & n & -> & H1 & H2 & H3). rewrite run_occupies in Hb by lia. lia.
Qed.
Lemma runs_nil : runs [] 0.
Proof. split; [constructor | intros b Hb; lia | done | done]. Qed.
Lemma runs_skip l B B' : runs l B -> 0 <= B -> B <= B' -> (∀ b, B <= b < B' -> used b = false) -> runs l B'.
Proof.
  intros Hr HB Hle Hno. pose proof Hr as [Hs Hu Ha Hc]. split; [|intros b Hb|done|lia].
  - eapply Forall_impl; [exact Hs|]. intros d (s & n & -> & H1 & H2 & H3). exists s, n. split; [done|]. lia.
  - destruct (Z.lt_ge_cases b B); [apply Hu; lia|]. rewrite Hno by lia. split; [done|]. intros (d & Hd & Ho).
    exfalso. pose proof (runs_below _ _ _ _ Hr Hd Ho). lia.
Qed.
Lemma runs_snoc l s n : runs l s -> 0 <= s -> 0 < n <= 8 * bs -> (∀ b, s <= b < s + n -> used b = true) -> runs (l ++ [run s n]) (s + n).
Proof.
  intros Hr H0 Hn Hall. pose proof Hr as [Hs Hu Ha Hc]. split.
  - apply Forall_app. split.
    + eapply Forall_impl; [exact Hs|]. intros d (s' & n' & -> & H1 & H2 & H3). exists s', n'. split; [done|]. lia.
    + apply Forall_singleton. exists s, n. split; [done|]. lia.
  - intros b Hb. destruct (Z.lt_ge_cases b s) as [Hlt|Hge].
    + rewrite Hu by lia. split.
      * intros (d & Hd & Ho). exists d. split; [apply elem_of_app; by left | done].
      * intros (d & [Hd| ->%list_elem_of_singleton]%elem_of_app & Ho); [by exists d|]. rewrite run_occupies in Ho by lia. lia.
    + rewrite Hall by lia. split; [|done]. intros _. exists (run s n). split; [apply elem_of_app; right; left|]. rewrite run_occupies by lia. lia.
  - apply q_apart_app. split; [done|]. split; [by split; [intros e b ?%elem_of_nil|]|].
    intros d e b Hd ->%list_elem_of_singleton Ho. rewrite run_occupies by lia. pose proof (runs_below _ _ _ _ Hr Hd Ho). lia.
  - rewrite zlen_app. change (zlen [run s n]) with 1. lia.
Qed.
Lemma queue_run_ok s n q : 0 <= s -> s + n < 2 ^ 32 -> 0 <= n <= 8 * bs -> queue_run g filename s n q = q ++ [run s n].
Proof.
  intros Hs Hl Hn. pose proof (blk_range g Hg). unfold queue_run, run. unfold u64. rewrite u32_small, Z.mod_small by nia. done.
Qed.

(** The loop over the blocks of a group. *)
Definition scanned (q : list data_block) (first block start : Z) : Prop :=
  if 0 <=? start then start < block ∧ runs q (first + start) ∧ ∀ b, first + start <= b < first + block -> used b = true
  else runs q (first + block).
Lemma scan_loop_ok n bm first block start q :
  0 <= first -> first + block + Z.of_nat n < 2 ^ 32 -> 0 <= block -> block + Z.of_nat n <= 8 * bs -> zlen bm = bs ->
  (∀ k, 0 <= k < block + Z.of_nat n -> used (first + k) = bit_at bm k) -> -1 <= start -> scanned q first block start ->
  ∃ start' q', scan_loop g filename n bm first block start q = Some (start', q') ∧ -1 <= start' ∧ scanned q' first (block + Z.of_nat n) start'.
Proof.
  pose proof (blk_range g Hg). revert block start q. induction n as [|n IH]; intros block start q Hf Hmax Hb Hlen Hbm Hbits Hst Hsc.
  { exists start, q. split; [done|]. split; [done|]. by replace (block + Z.of_nat 0) with block by lia. }
  cbn [scan_loop]. rewrite get_bit_ok by lia. cbn [mbind option_bind]. rewrite <- (Hbits block) by lia.
  rewrite (u32_small (block + 1)) by lia. replace (block + Z.of_nat (S n)) with (block + 1 + Z.of_nat n) by lia.
  assert (Hstep : ∀ start2 q2, -1 <= start2 -> scanned q2 first (block + 1) start2 ->
    ∃ start' q', scan_loop g filename n bm first (block + 1) start2 q2 = Some (start', q') ∧ -1 <= start' ∧ scanned q' first (block + 1 + Z.of_nat n) start').
  { intros start2 q2 H2 H3. apply IH; try done; try lia. intros k Hk. apply Hbits. lia. }
  unfold scanned in Hsc. destruct (Z.leb_spec 0 start) as [Hs|Hs].
  - destruct Hsc as (Hsb & Hr & Hall). destruct (used (first + block)) eqn:Eu; cbn [negb]; apply Hstep; try lia; unfold scanned.
    + rewrite (proj2 (Z.leb_le _ _)) by lia. split; [lia|]. split; [done|]. intros b Hbb. destruct (Z.eq_dec b (first + block)) as [->|]; [done|]. apply Hall. lia.
    + cbn [Z.leb Z.compare]. rewrite (u32_small (first + start)), (u32_small (block - start)), queue_run_ok by lia.
      apply (runs_skip _ (first + block)); [|lia|lia|intros b Hbb; by replace b with (first + block) by lia].
      replace (first + block) with (first + start + (block - start)) by lia. apply runs_snoc; [done | lia | lia |]. intros b Hbb. apply Hall. lia.
  - destruct (used (first + block)) eqn:Eu; apply Hstep; try lia; unfold scanned.
    + rewrite s32_small by lia. lia.
    + rewrite s32_small by lia. rewrite (proj2 (Z.leb_le _ _)) by lia. split; [lia|]. split; [done|]. intros b Hbb. by replace b with (first + block) by lia.
    + rewrite (proj2 (Z.leb_gt _ _)) by lia. apply (runs_skip _ (first + block)); [done | lia | lia |]. intros b Hbb. by replace b with (first + block) by lia.
Qed.
Lemma scan_group_ok bm first last q :
  0 <= first -> first + last < 2 ^ 32 -> 0 <= last <= 8 * bs -> zlen bm = bs -> (∀ k, 0 <= k < last -> used (first + k) = bit_at bm k) -> runs q first ->
  ∃ q', scan_group g filename bm first last q = Some q' ∧ runs q' (first + last).
Proof.
  intros Hf Hmax Hl Hbm Hbits Hr. pose proof (blk_range g Hg).
  destruct (scan_loop_ok (Z.to_nat last) bm first 0 (-1) q) as (start & q' & E & Hst & Hsc); try done; try lia.
  { intros k Hk. apply Hbits. lia. }
  { unfold scanned. cbn [Z.leb Z.compare]. by rewrite Z.add_0_r. }
  unfold scan_group. rewrite E. cbn [mbind option_bind]. eexists. split; [done|]. unfold scanned in Hsc.
  replace (0 + Z.of_nat (Z.to_nat last)) with last in Hsc by lia. destruct (Z.leb_spec 0 start); [|done]. destruct Hsc as (Hsb & Hr' & Hall).
  rewrite (u32_small (first + start)), (u32_small (last - start)), queue_run_ok by lia. replace (first + last) with (first + start + (last - start)) by lia.
  apply runs_snoc; [done | lia | lia |]. intros b Hb. apply Hall. lia.
Qed.
End Scan.

(** ** The whole program *)
(** An image the program can deal with.  The last block is not in use: [write_data_file] refuses
    a part of a file that ends where the file system does. *)
Record ext_image (g : geom) (img bg_desc : list Z) : Prop := ExtImage {
  ei_sb : ext4_parse_sb (slice 1024 1024 img) = Some (g, len_blocks g * blk_size g);
  ei_geom : geom_ok g;
  ei_len : len_blocks g * blk_size g <= zlen img;
  ei_desc : bg_desc = slice (blk_size g * (first_data_block g + 1)) (blk_size g * bg_desc_blocks g) img ∧
    blk_size g * (first_data_block g + 1 + bg_desc_blocks g) <= len_blocks g * blk_size g ∧ blk_size g * bg_desc_blocks g < 2 ^ 32;
  ei_bitmaps : ∀ i, 0 <= i < groups g -> 0 <= desc_block_bitmap bg_desc i < len_blocks g;
  ei_last : in_use g img bg_desc (len_blocks g - 1) = false
}.

Section Program.
Context {FD : Type} `{InfdLaws FD}.
Lemma read_at_ok f off n img : in_bytes f = img -> 0 <= off < 2 ^ 63 -> 0 <= n -> off + n <= zlen img ->
  ∃ f', read_at f off n = Some (slice off n img, f') ∧ in_bytes f' = img.
Proof.
  intros Hf Ho Hn Hl. unfold read_at. replace (off64_t off) with off by (unfold off64_t; rewrite Z.mod_small; lia).
  destruct (lseek_law f off ltac:(lia)) as (f1 & -> & E1 & P1). cbn [mbind option_bind].
  destruct (in_read_law f1 n Hn (eq_ind_r (fun p => 0 <= p) (proj1 Ho) P1)) as (f2 & -> & E2). cbn [mbind option_bind]. rewrite P1, E1, Hf, slice_len, Z.eqb_refl by lia. cbn [negb].
  exists f2. split; [done|]. congruence.
Qed.

Section Image.
Context (g : geom) (img bg_desc : list Z) (Hx : ext_image g img bg_desc) (filename : nat).
Notation bs := (blk_size g).
Notation used := (in_use g img bg_desc).
Notation runs := (runs g filename used).
Let Hg : geom_ok g := ei_geom _ _ _ Hx.

Lemma in_use_group i k : 0 <= i -> 0 <= k < blocks_per_group g -> used (gfirst g i + k) = bit_at (group_bitmap g img bg_desc i) k.
Proof.
  intros Hi Hk. pose proof (bpg_range g Hg). unfold in_use, gfirst. rewrite (proj2 (Z.ltb_ge _ _)) by nia. cbn [orb].
  replace (first_data_block g + i * blocks_per_group g + k - first_data_block g) with (k + i * blocks_per_group g) by lia.
  rewrite Z.div_add, Z.mod_add, Z.div_small, Z.mod_small by lia. done.
Qed.
Lemma groups_loop_ok n i f q :
  in_bytes f = img -> 0 <= i -> i + Z.of_nat n = groups g -> runs q (Z.min (gfirst g i) (len_blocks g)) ->
  ∃ q' f', groups_loop g filename n bg_desc i f q = Some (q', f') ∧ runs q' (len_blocks g).
Proof.
  pose proof (blk_range g Hg). pose proof (bpg_range g Hg). pose proof (go_max g Hg). pose proof (go_bpg g Hg).
  revert i f q. induction n as [|n IH]; intros i f q Hf Hi Hn Hr.
  - exists q, f. split; [done|]. replace i with (groups g) in Hr by lia. pose proof (go_len g Hg). by rewrite Z.min_r in Hr by lia.
  - cbn [groups_loop]. destruct (gfirst_range g Hg i ltac:(lia)) as (F1 & F2 & F3). fold (gfirst g i). rewrite (u32_small (gfirst g i)) by lia.
    assert (El : u32 (Z.min (blocks_per_group g) (u64 (len_blocks g - gfirst g i))) = gsize g i).
    { unfold u64. rewrite (Z.mod_small (len_blocks g - gfirst g i)) by lia. fold (gsize g i). apply u32_small. lia. }
    rewrite El. cbv zeta. destruct (ei_bitmaps _ _ _ Hx i ltac:(lia)) as [B1 B2]. pose proof (ei_len _ _ _ Hx).
    assert (Hoff : 0 <= bs * desc_block_bitmap bg_desc i ∧ bs * desc_block_bitmap bg_desc i + bs <= zlen img ∧ bs * desc_block_bitmap bg_desc i < 2 ^ 45).
    { assert (bs * (desc_block_bitmap bg_desc i + 1) <= bs * len_blocks g) by (apply Z.mul_le_mono_nonneg_l; lia).
      assert (bs * desc_block_bitmap bg_desc i <= 4096 * desc_block_bitmap bg_desc i) by (apply Z.mul_le_mono_nonneg_r; lia).
      split; [apply Z.mul_nonneg_nonneg; lia|]. lia. }
    unfold u64. rewrite (Z.mod_small (bs * _)) by lia.
    destruct (read_at_ok f (bs * desc_block_bitmap bg_desc i) bs img Hf) as (f1 & -> & Hf1); [lia | lia | lia |]. cbn [mbind option_bind].
    fold (group_bitmap g img bg_desc i). rewrite Z.min_l in Hr by lia.
    destruct (scan_group_ok g Hg filename used (group_bitmap g img bg_desc i) (gfirst g i) (gsize g i) q) as (q1 & -> & Hr1); [lia | lia | lia | | | done |].
    { unfold group_bitmap. apply slice_len; lia. }
    { intros k Hk. apply in_use_group; lia. }
    cbn [mbind option_bind]. apply IH; [done | lia | lia |]. replace (Z.min (gfirst g (i + 1)) (len_blocks g)) with (gfirst g i + gsize g i); [done|].
    unfold gsize, gfirst. lia.
Qed.
Lemma build_runs f : in_bytes f = img -> ∃ q f', build_sparse_ext g filename bg_desc f = Some (q, f') ∧ runs q (len_blocks g).
Proof.
  intros Hf. pose proof (blk_range g Hg). pose proof (go_first g Hg). pose proof (go_groups g Hg). destruct (gfirst_range g Hg 0 ltac:(lia)) as (F1 & _).
  unfold build_sparse_ext. apply groups_loop_ok; [done | lia | lia |]. rewrite Z.min_l by lia. unfold gfirst. rewrite Z.add_0_r.
  destruct (Z.ltb_spec 0 (first_data_block g)).
  - assert (first_data_block g = 1) as E by lia. rewrite E, Z.mul_1_r, u32_small by lia.
    assert (Er : [DataBlock 0 bs 0 (Some filename) 0 0 false None] = [] ++ [run g filename 0 1]) by (unfold run; by rewrite Z.mul_1_r, Z.mul_0_r).
    rewrite Er. apply (runs_snoc g Hg filename used [] 0 1); [apply runs_nil | lia | lia|].
    intros b Hb. unfold in_use. by rewrite (proj2 (Z.ltb_lt _ _)) by lia.
  - assert (first_data_block g = 0) as -> by lia. apply runs_nil.
Qed.
Lemma read_ext_ok f : in_bytes f = img -> ∃ f', read_ext f = Some (g, len_blocks g * bs, bg_desc, f') ∧ in_bytes f' = img.
Proof.
  intros Hf. pose proof (blk_range g Hg). pose proof (go_first g Hg). pose proof (go_counts g Hg) as (_ & Hd & _). pose proof (go_max g Hg). pose proof (bpg_range g Hg).
  destruct (ei_desc _ _ _ Hx) as (Ed & Hdl & Hd32). pose proof (ei_len _ _ _ Hx). unfold read_ext.
  assert (Hz0 : 0 <= len_blocks g * bs < 2 ^ 45) by nia. destruct (read_at_ok f 1024 1024 img Hf) as (f1 & -> & Hf1); [lia | lia | nia |]. cbn [mbind option_bind].
  rewrite (ei_sb _ _ _ Hx). cbn [mbind option_bind]. replace (off64_t (len_blocks g * bs)) with (len_blocks g * bs) by (unfold off64_t; rewrite Z.mod_small; lia).
  destruct (lseek_law f1 (len_blocks g * bs) ltac:(lia)) as (f2 & -> & E2 & _). cbn [mbind option_bind].
  rewrite !u32_small by nia. destruct (read_at_ok f2 (bs * (first_data_block g + 1)) (bs * bg_desc_blocks g) img) as (f3 & -> & Hf3); [congruence | nia | lia | lia |].
  cbn [mbind option_bind]. rewrite <- Ed. by exists f3.
Qed.

(** What the queue stands for. *)
Context (load : Z -> Z -> option (list Z)) (mmap64 : nat -> Z -> Z -> option (list Z)) (Hmap : maps mmap64 filename img).
Lemma run_data s n : 0 <= s -> 0 <= n -> s + n <= len_blocks g ->
  data_bytes load mmap64 (info_of g) (src_of (info_of g) (run g filename s n)) (len (run g filename s n)) = Some (slice (bs * s) (bs * n) img).
Proof.
  intros Hs Hn Hl. pose proof (blk_range g Hg). pose proof (ei_len _ _ _ Hx). apply file_bytes_maps; [done | nia | nia | nia].
Qed.
Lemma runs_writable q : runs q (len_blocks g) -> Forall (within g) q ∧ Forall (writable g load mmap64) q.
Proof.
  intros [Hs Hu Ha _]. pose proof (blk_range g Hg). pose proof (ei_len _ _ _ Hx). split; apply Forall_forall; intros d Hd; rewrite Forall_forall in Hs;
    destruct (Hs d Hd) as (s & n & -> & S1 & S2 & S3);
    assert (bs * (s + n) <= bs * len_blocks g) by (apply Z.mul_le_mono_nonneg_l; lia);
    assert (0 <= bs * s) by (apply Z.mul_nonneg_nonneg; lia); assert (0 < bs * n) by (apply Z.mul_pos_pos; lia).
  - split; [cbn; lia|]. split; [done|]. replace (nblocks g (run g filename s n)) with n; [done|].
    unfold nblocks. cbn [run len]. apply (Z.div_unique_pos _ _ _ (bs - 1)); lia.
  - assert (Hsz : bs * n + bs < 2 ^ 28) by nia. split; [cbn [run len]; lia|]. split.
    + split; [exists (slice (bs * s) (bs * n) img); split; [apply run_data; lia | cbn [run len]; apply slice_len; lia]|].
      change (src_of (info_of g) (run g filename s n)) with (File filename (bs * s)). cbn [run len]. lia.
    + intros _. cbn [run block len]. enough (s + n < len_blocks g) by nia. destruct (Z.eq_dec (s + n) (len_blocks g)); [exfalso|lia].
      assert (Hlast : used (len_blocks g - 1) = true); [|by rewrite (ei_last _ _ _ Hx) in Hlast].
      apply Hu; [lia|]. exists (run g filename s n). split; [done|]. rewrite run_occupies by (done || lia). lia.
Qed.
Lemma flat_used q ds : runs q (len_blocks g) -> ds.*2 = q -> flat load mmap64 (info_of g) (queued ds) = used_part g img bg_desc.
Proof.
  intros Hr Hds. pose proof Hr as [Hs Hu Ha _]. destruct (runs_writable q Hr) as [Hw Hwr]. pose proof (blk_range g Hg). pose proof (ei_len _ _ _ Hx).
  assert (Hperm : queued ds ≡ₚ q) by (rewrite <- Hds; apply queued_perm). pose proof (go_groups g Hg). destruct (gfirst_range g Hg 0 ltac:(lia)) as (F1 & _).
  assert (Hlb : 0 < len_blocks g) by lia. set (L := flat load mmap64 (info_of g) (queued ds)).
  destruct (flat_in_place g Hg load mmap64 (queued ds)) as [Hz Hin]; [by rewrite Hperm | by rewrite Hperm | by apply (q_apart_perm g q) |]. fold L in Hz, Hin.
  rewrite <- (slice_all L), Hz. replace 0 with (0 * bs) by lia. rewrite <- (Z2Nat.id (len_blocks g)) at 1 by lia. rewrite <- (blocks_slice g Hg) by lia.
  rewrite Z2Nat.id by lia. unfold used_part. f_equal. apply list_fmap_ext. intros j b Hb. apply lookup_seqZ in Hb as [-> Hj]. rewrite !Z.add_0_l. set (b := Z.of_nat j) in *.
  assert (Hbr : 0 <= b < len_blocks g) by lia. destruct (used b) eqn:Eu.
  - apply Hu in Eu as (d & Hd & Ho); [|done]. rewrite Forall_forall in Hs. destruct (Hs d Hd) as (s & n & -> & S1 & S2 & S3). rewrite run_occupies in Ho by (done || lia).
    assert (Hdq : run g filename s n ∈ queued ds) by (by rewrite Hperm). pose proof (Hin _ _ Hdq (run_data s n S1 ltac:(lia) S3)) as Es. cbn [run block len] in Es.
    unfold read_block. replace (b * bs) with (s * bs + (b - s) * bs) by lia. rewrite <- (slice_slice (s * bs) (bs * n) ((b - s) * bs) bs L) by nia.
    rewrite Es. rewrite slice_slice by nia. f_equal. lia.
  - assert (Hl : Forall (laid g load mmap64) (queued ds)).
    { rewrite Hperm. apply Forall_forall. intros d Hd. rewrite Forall_forall in Hw, Hwr. split; [by apply Hw|]. rewrite (bytes_span g Hg) by auto. apply span_nblocks. }
    assert (Hzz : zlen (zeros (len_blocks g * bs)) = len_blocks g * bs) by (apply zeros_zlen; nia).
    assert (En : nblocks g (run g filename b 1) = 1) by (unfold nblocks; cbn [run len]; symmetry; apply (Z.div_unique_pos _ _ _ (bs - 1)); lia).
    destruct (flat_keeps g Hg load mmap64 (queued ds) (zeros (len_blocks g * bs)) (run g filename b 1) Hl Hzz) as [Ek _].
    + split; [cbn; nia|]. rewrite En. cbn [run block]. lia.
    + intros e b' He Ho Ho'. rewrite run_occupies in Ho by (done || lia). assert (b' = b) as -> by lia.
      assert (used b = true) as Et; [|by rewrite Eu in Et]. apply Hu; [done|]. exists e. by rewrite <- Hperm.
    + rewrite En, Z.mul_1_l in Ek. cbn [run block] in Ek. unfold read_block. change L with (foldl (lay g load mmap64) (zeros (len_blocks g * bs)) (queued ds)). rewrite Ek.
      unfold slice, zeros. rewrite drop_replicate, take_replicate. f_equal. nia.
Qed.
End Image.
End Program.

(** ** The theorem *)

(** C3. The sparse image holds what is in use.  For any image whose super block can be parsed and
    gives a layout that is in order, whose descriptors and bitmaps are inside it, which can be
    mapped, and whose last block is not in use (an image whose last block is in use cannot be
    converted: [write_data_file] refuses a part of a file that ends where the file system
    does): [ext2simg] succeeds, with or without a checksum, and what [simg2img] makes of its
    output has every block that a bitmap marks as in use as the image has it, and the block in
    front of the first group, and zeros everywhere else. *)
Theorem ext2simg_keeps {F FI FO FD} `{InfdLaws FD} (ops : output_file_ops F) `{!Appends ops} `{IoLaws FI FO} g img bg_desc load mmap64
    fuel (infd : FD) filename (f : F) (crc : bool) :
  ext_image g img bg_desc -> in_bytes infd = img -> maps mmap64 filename img -> len_blocks g <= Z.of_nat fuel -> holds f [] ->
  ∃ out s, ext2simg ops load mmap64 fuel infd filename f true crc = Some out ∧ holds (fd out) s ∧
    ∀ (i : FI) (o : FO), rest i = s -> file_contents o = [] -> pos o = 0 ->
      ∃ o', simg2img i o = Some o' ∧ file_contents o' = used_part g img bg_desc.
Proof.
  intros Hx Hf Hmap Hfuel Hh. pose proof (ei_geom _ _ _ Hx) as Hg. pose proof (geometry_of g Hg) as Hgeo.
  unfold ext2simg. destruct (read_ext_ok g img bg_desc Hx infd Hf) as (f1 & -> & Hf1). cbn [mbind option_bind].
  destruct (build_runs g img bg_desc Hx filename f1 Hf1) as (l & f2 & -> & Hr). cbn [mbind option_bind].
  destruct (runs_writable g img bg_desc Hx filename load mmap64 Hmap l Hr) as [Hw Hwr].
  pose proof Hr as [Hs _ Ha Hc]. rewrite Forall_forall in Hs.
  destruct (queued_ok fuel (with_nodes l) (with_nodes_nodup l)) as (q & Lq & Eq & Hq & Hl & Hcq).
  { intros x d Hd%with_nodes_in. by destruct (Hs d Hd) as (s & n & -> & _). }
  { rewrite with_nodes_length. unfold zlen in Hc. lia. }
  rewrite Eq. cbn [mbind option_bind]. fold (info_of g).
  assert (Hperm : queued (with_nodes l) ≡ₚ l) by (rewrite <- (with_nodes_snd l) at 2; apply queued_perm).
  assert (Hpl : placed load mmap64 (info_of g) 0 (queued (with_nodes l))).
  { apply (sorted_placed g Hg); [apply queued_sorted | by apply (q_apart_perm g l) | by rewrite Hperm | by rewrite Hperm |].
    rewrite Hperm. eapply Forall_impl; [exact Hw|]. intros d (_ & Hb & _). pose proof (blk_range g Hg). nia. }
  destruct (write_image_ok ops load mmap64 (info_of g) Hgeo fuel q Lq f crc Hq Hl) as (out & E & Hout); [by rewrite Hcq | done |].
  eexists out, _. split; [exact E|]. split; [exact Hout|]. intros i o Hi Ho Hp. rewrite Hcq in Hi.
  destruct (unpack_ok load mmap64 (info_of g) Hgeo (queued (with_nodes l)) crc i o) as (o' & E' & Ho'); [done..|]. exists o'. split; [done|]. rewrite Ho'.
  by apply (flat_used g img bg_desc Hx filename load mmap64 Hmap l); [|apply with_nodes_snd].
Qed.

(** An image of ten blocks: blocks 1 to 5 and block 7 are in use. *)
Definition sb_ex : list Z :=
  bytes32 8 ++ bytes32 10 ++ zeros 12 ++ bytes32 1 ++ bytes32 0 ++ zeros 4 ++ bytes32 8192 ++ zeros 4 ++ bytes32 8 ++ zeros 12 ++
  bytes16 EXT4_SUPER_MAGIC ++ bytes16 1 ++ zeros 28 ++ bytes16 128 ++ zeros 10 ++ bytes32 1 ++ zeros 920.
Definition desc_ex : list Z := bytes32 3 ++ zeros 1020.
Definition img_ex : list Z := zeros 1024 ++ sb_ex ++ desc_ex ++ (0x5F :: zeros 1023) ++ zeros 6144.
Definition geom_ex : geom := Geom 1024 8192 8 128 0 true 1 10 1 1 1.
Definition mem_fd : Type := list Z * Z.
#[local] Instance mem_infd : Infd mem_fd := {
  in_lseek f off := if off <? 0 then None else Some (f.1, off);
  in_read f n := Some (slice f.2 n f.1, (f.1, f.2 + n))
}.
#[local, refine] Instance mem_infd_laws : InfdLaws mem_fd := { in_bytes := fst; in_pos := snd }.
Proof.
  - intros f off Ho. exists (f.1, off). cbn. by rewrite (proj2 (Z.ltb_ge _ _)) by lia.
  - intros f n _ _. by eexists.
Defined.
Lemma ext_image_ex : ext_image geom_ex img_ex desc_ex.
Proof.
  split.
  - vm_compute. reflexivity.
  - split; unfold gfirst, gsize, gdata, gtable, gmaps; cbn; try lia; [by exists 10|]. intros i sup Hi. assert (i = 0) as -> by lia. intros [= <-]. vm_compute. discriminate.
  - vm_compute. discriminate.
  - split; [vm_compute; reflexivity|]. cbn. lia.
  - cbn. intros i Hi. assert (i = 0) as -> by lia. vm_compute. by split.
  - vm_compute. reflexivity.
Qed.
Definition mmap_img (f : nat) (o n : Z) : option (list Z) := Some (slice o n img_ex).
Lemma ext2simg_keeps_witness :
  ∃ out s, ext2simg m_ops load_ex mmap_img 10 (img_ex, 0) 5 (MFile [] 0) true true = Some out ∧ holds (fd out) s ∧
    ∀ (i : list Z) (o : mfile), rest i = s -> file_contents o = [] -> pos o = 0 ->
      ∃ o', simg2img i o = Some o' ∧ file_contents o' = used_part geom_ex img_ex desc_ex.
Proof.
  apply (ext2simg_keeps m_ops geom_ex img_ex desc_ex load_ex mmap_img 10 (img_ex, 0) 5 (MFile [] 0) true).
  - exact ext_image_ex.
  - reflexivity.
  - intros o n _ _ _. reflexivity.
  - cbn. lia.
  - done.
Defined.
