(* ===== verification/MakeHeader.v ===== *)
(** * The headers of the groups

    What [ext4_fill_in_sb] and [ext4_queue_sb] put in front of the groups: copies of the
    super block, the descriptors of the groups, and at the end the super block itself.
    They are put where nothing else is, and the two buffers say what the layout is. *)
From stdpp Require Import base gmap list list_numbers.
From Stdlib Require Import ZArith Lia.
From S2P Require Import Prelude Crc SparseFormat Sha1 Backed Alloc AllocBits AllocInv AllocSafe AllocInit Extent ExtentSpec ExtentFile FileTrip ImageOk Indirect Contents Dir MakeFs TreeFrame TreeStart MakeSuper.
#[local] Open Scope Z_scope.

Section Header.
Context (g : geom) (Hg : geom_ok g) (Hig : 0 < inodes_per_group g <= 8 * blk_size g).
Notation bs := (blk_size g).

(** ** Blocks in front of the bitmaps *)
Definition hdr (b : Z) : Prop :=
  ∃ j, 0 <= j < groups g ∧ ext4_bg_has_super_block g j = Some true ∧ gfirst g j <= b < gfirst g j + gmaps g true.
Definition clear (m : image_state) (b : Z) : Prop := ∀ d, d ∈ queued_ds (fs m) -> ¬ occupies g d b.
Lemma hdr_group b j sup : hdr b -> 0 <= j < groups g -> ext4_bg_has_super_block g j = Some sup -> gfirst g j <= b < gfirst g j + blocks_per_group g ->
  sup = true ∧ b < gfirst g j + gmaps g true ∧ 0 <= b < len_blocks g.
Proof.
  intros (k & Hk & Es & Hb) Hj Ej Hbj. pose proof (gfirst_range g Hg k Hk). pose proof (go_room g Hg k true Hk Es). pose proof (go_counts g Hg). unfold gdata, gtable in *.
  assert (k = j) as -> by (apply (same_group g Hg k j b); lia). assert (sup = true) as -> by congruence. lia.
Qed.
Lemma hdr_body b : hdr b -> ¬ body g b.
Proof.
  intros Hb (i & sup & Hi & Es & Hi'). assert (0 <= gtable g sup) by (pose proof (go_counts g Hg); unfold gtable, gmaps; destruct sup; lia).
  destruct (hdr_group b i sup Hb Hi Es ltac:(lia)) as (-> & H1 & _). unfold gtable in *. lia.
Qed.
Lemma clear_frame X B m m' b : frame g X B m m' -> hdr b -> clear m b -> clear m' b.
Proof. intros Hf Hb Hc d Hd Ho. destruct (fr_new _ _ _ _ _ Hf d b Hd Ho) as [H|H]; [by apply (Hc d) | by apply (hdr_body b)]. Qed.

(** A block is queued in a header. *)
Lemma queue_header m m' d : good g m -> bgs (fs m') = bgs (fs m) -> regs (fs m') = regs (fs m) -> fresh (fs m') = fresh (fs m) -> inodes m' = inodes m -> brk (fs m) <= brk (fs m') ->
  queued_ds (fs m') = queued_ds (fs m) ++ [d] -> 0 < len d -> (∀ b, occupies g d b -> hdr b ∧ clear m b) -> good g m'.
Proof.
  intros [[I1 I2 I3 I4 I5 I6 I7 I8] [T1 T2 T3 T4]] Eb Er Ef Ei Hbrk Eq Hd Ho. pose proof (blk_range g Hg). destruct (tables_bgs g (fs m) (fs m') Eb) as (B1 & B2 & B3).
  assert (Hn : 0 < nblocks g d) by (apply Z.div_str_pos; lia).
  assert (Hin : 0 <= block d ∧ block d + nblocks g d <= len_blocks g).
  { assert (Hr : ∀ b, occupies g d b -> 0 <= b < len_blocks g).
    { intros b Hb. destruct (Ho b Hb) as [(j & Hj & Es & Hbj) _]. pose proof (gfirst_range g Hg j Hj). pose proof (go_room g Hg j true Hj Es). pose proof (go_counts g Hg). unfold gdata, gtable in *. lia. }
    pose proof (Hr (block d) ltac:(unfold occupies; lia)). pose proof (Hr (block d + nblocks g d - 1) ltac:(unfold occupies; lia)). lia. }
  assert (Hfree : ∀ b, free_data g (fs m') b <-> free_data g (fs m) b) by (intros b; by apply free_data_queue). split; [split|split].
  - by rewrite Eb.
  - intros x. rewrite Er, Ef. apply I2.
  - intros q i. rewrite Ei. apply I3.
  - rewrite Eq. apply Forall_app. split; [done|]. constructor; [|constructor]. lia.
  - rewrite Eq. intros e b [He| ->%list_elem_of_singleton]%elem_of_app Hb; rewrite Hfree; [by apply (I5 e)|]. intros Hf. destruct (Ho b Hb) as [Hh _]. apply (hdr_body b Hh), (free_body g Hg (fs m)); done.
  - rewrite Eq, q_apart_app. split_and!; [done | split; [by intros ? ? ?%elem_of_nil | done] |]. intros e f b He ->%list_elem_of_singleton Hb Hb'. destruct (Ho b Hb') as [_ Hc]. by apply (Hc e).
  - rewrite Eq. intros i bg e b Ebg Ht He Ha Hb. assert (Ebg' : bg_at (fs m) i = Some bg) by (unfold bg_at in *; by rewrite Eb in Ebg). apply elem_of_app in He as [He| ->%list_elem_of_singleton]; [by apply (I7 i bg e b)|].
    destruct (Ho b Hb) as [Hh _]. destruct (bg_at_ok g (fs m) i bg I1 Ebg') as [Hi Hbg]. apply (hdr_body b Hh). exists i, (has_superblock bg). split; [done|]. split; [apply (b_super _ _ _ Hbg)|].
    pose proof (bg_bounds g Hg i bg Hi Hbg). pose proof (go_room g Hg i _ Hi (b_super _ _ _ Hbg)). unfold table_area in Ha. lia.
  - intros i bg Ebg. apply (I8 i). unfold bg_at in *. by rewrite Eb in Ebg.
  - intros i p. rewrite B1. intros H1. specialize (T1 _ _ H1). lia.
  - intros i j p q. rewrite !B1. apply T2.
  - intros i p sup. rewrite B1, Eq. intros H1 H2. apply elem_of_app. left. by apply T3.
  - intros q. rewrite Ei. intros Hq. destruct (T4 q Hq) as (n & Hn' & H1 & H2). exists n. by rewrite B2, B3.
Qed.

(** ** The super block and the descriptors in memory *)
Context (sb desc : Z) (Hroom : 32 * groups g <= bs * bg_desc_blocks g) (Hplace : sb <> desc).
Notation a := (Aux g sb desc).
Notation desc_len := (bs * bg_desc_blocks g).
Definition desc_block : data_block := DataBlock (gfirst g 0 + 1) desc_len desc None 0 0 false None.
(** The descriptors of the groups before [i] are there, and of the headers only [P] is queued. *)
Record heading (P : Z -> Prop) (i : Z) (sbuf : list Z) (m : image_state) : Prop := Heading {
  hg_good : good g m;
  hg_below : sb < brk (fs m) ∧ desc < brk (fs m);
  hg_sb : bufs m !! sb = Some sbuf;
  hg_desc : ∃ dbuf, bufs m !! desc = Some dbuf ∧ zlen dbuf = desc_len ∧
    ∀ j sup, 0 <= j < i -> ext4_bg_has_super_block g j = Some sup -> slice (32 * j + 8) 4 dbuf = bytes32 (gfirst g j + gtable g sup);
  hg_clear : ∀ b, hdr b -> ¬ P b -> clear m b;
  hg_first : 0 < i -> desc_block ∈ queued_ds (fs m)
}.
Lemma heading_queue P i sbuf m m' d : heading P i sbuf m -> bgs (fs m') = bgs (fs m) -> regs (fs m') = regs (fs m) -> fresh (fs m') = fresh (fs m) -> inodes m' = inodes m -> brk (fs m) <= brk (fs m') ->
  bufs m' !! sb = bufs m !! sb -> bufs m' !! desc = bufs m !! desc -> queued_ds (fs m') = queued_ds (fs m) ++ [d] -> 0 < len d -> (∀ b, occupies g d b -> hdr b ∧ ¬ P b) ->
  heading (fun b => P b ∨ occupies g d b) i sbuf m'.
Proof.
  intros [H1 H2 H3 H4 H5 H6] Eb Er Ef Ei Hbrk Es Ed Eq Hd Ho. split.
  - apply (queue_header m m' d); try done. intros b Hb. destruct (Ho b Hb) as [Hh Hp]. split; [done | by apply H5].
  - lia.
  - by rewrite Es.
  - by rewrite Ed.
  - intros b Hb Hp e. rewrite Eq, elem_of_app, list_elem_of_singleton. intros [He| ->]; [apply (H5 b); tauto | tauto].
  - intros Hi. rewrite Eq. apply elem_of_app. left. by apply H6.
Qed.
Lemma heading_weaken (P P' : Z -> Prop) i sbuf m : heading P i sbuf m -> (∀ b, hdr b -> P b -> P' b) -> heading P' i sbuf m.
Proof. intros [H1 H2 H3 H4 H5 H6] HP. split; try done. intros b Hb Hp. apply H5; [done|]. intros H. by apply Hp, HP. Qed.

Definition used (i b : Z) : Prop :=
  ∃ j, 0 <= j < i ∧ ext4_bg_has_super_block g j = Some true ∧ (b = gfirst g j ∧ j <> 0 ∨ gfirst g j + 1 <= b <= gfirst g j + bg_desc_blocks g).
Lemma used_group i b k : used i b -> 0 <= i <= groups g -> 0 <= k < groups g -> gfirst g k <= b < gfirst g k + blocks_per_group g ->
  k < i ∧ (b = gfirst g k ∧ k <> 0 ∨ gfirst g k + 1 <= b <= gfirst g k + bg_desc_blocks g).
Proof.
  intros (j & Hj & Es & Hb) Hi Hk Hbk. pose proof (go_room g Hg j true ltac:(lia) Es). pose proof (go_counts g Hg). pose proof (gfirst_range g Hg j ltac:(lia)). unfold gdata, gtable, gmaps in *.
  assert (j = k) as -> by (apply (same_group g Hg j k b); lia). lia.
Qed.
(** A copy of the super block, and one of the descriptors. *)
Definition put_backup (i : Z) (m : image_state) : option image_state :=
  if negb (i =? 0) then
    sb ← bufs m !! sb;
    let '(backup, m) := calloc_buf bs m in
    let m := put_buf backup sb m in
    m ← edit backup [(s_block_group_nr, bytes16 i)] m;
    Some (set_fs (q_data backup bs (gfirst g i) (fs m)) m)
  else Some m.
Definition put_header (i : Z) (sup : bool) (m : image_state) : option image_state :=
  if sup then m ← put_backup i m; Some (set_fs (q_data desc desc_len (gfirst g i + 1) (fs m)) m) else Some m.
(** The groups and the inodes are as they were. *)
Definition same_groups (m m' : image_state) : Prop := bgs (fs m') = bgs (fs m) ∧ inodes m' = inodes m.
Lemma put_backup_ok i sbuf m : 0 <= i < groups g -> ext4_bg_has_super_block g i = Some true -> zlen sbuf = bs -> heading (used i) i sbuf m ->
  ∃ m', put_backup i m = Some m' ∧ heading (fun b => used i b ∨ b = gfirst g i ∧ i <> 0) i sbuf m' ∧ same_groups m m'.
Proof.
  intros Hi Es Hz Hh. pose proof (blk_range g Hg). pose proof (go_counts g Hg). pose proof Hh as [H1 H2 H3 H4 H5 H6]. unfold put_backup. destruct (Z.eqb_spec i 0) as [->|Hne]; cbn [negb].
  { exists m. split; [done|]. split; [|done]. eapply heading_weaken; [exact Hh|]. by left. }
  rewrite H3. cbn [mbind option_bind]. unfold calloc_buf, calloc, edit. cbn [put_buf bufs]. rewrite lookup_insert_eq. cbn [mbind option_bind].
  destruct (stores_ok [(s_block_group_nr, bytes16 i)] sbuf) as (b' & -> & _).
  { constructor; [|constructor]. cbn [fst snd]. change (zlen (bytes16 i)) with 2. unfold s_block_group_nr. lia. }
  cbn [mbind option_bind]. eexists. split; [done|]. split; [|done]. eapply heading_weaken; [eapply (heading_queue (used i) i sbuf m _ (DataBlock (gfirst g i) bs (brk (fs m)) None 0 0 false None)); try done; cbn|].
  - lia.
  - rewrite !lookup_insert_ne by lia. done.
  - rewrite !lookup_insert_ne by lia. done.
  - lia.
  - intros b Hb. unfold occupies in Hb. rewrite (nblocks_mul g Hg _ 1) in Hb by (cbn; lia). cbn in Hb. assert (b = gfirst g i) as -> by lia. split.
    + exists i. split; [done|]. split; [done|]. unfold gmaps. lia.
    + intros Hu. pose proof (bpg_range g Hg). apply (used_group i _ i Hu) in Hi; lia.
  - intros b _ [Hu|Hb]; [by left | right]. unfold occupies in Hb. rewrite (nblocks_mul g Hg _ 1) in Hb by (cbn; lia). cbn in Hb. lia.
Qed.
Lemma put_header_ok i sup sbuf m : 0 <= i < groups g -> ext4_bg_has_super_block g i = Some sup -> zlen sbuf = bs -> heading (used i) i sbuf m ->
  ∃ m', put_header i sup m = Some m' ∧ heading (used (i + 1)) i sbuf m' ∧ (i = 0 -> desc_block ∈ queued_ds (fs m')) ∧ same_groups m m'.
Proof.
  intros Hi Es Hz Hh. pose proof (blk_range g Hg). pose proof (go_counts g Hg). assert (Hmono : ∀ b, used i b -> used (i + 1) b) by (intros b (j & Hj & H3); exists j; split; [lia | done]).
  destruct sup; cbn [put_header].
  2:{ exists m. split; [done|]. split; [eapply heading_weaken; [exact Hh|]; intros b _; apply Hmono|]. split; [|done]. intros ->. exfalso. unfold ext4_bg_has_super_block in Es. destruct (sparse_super g); done. }
  destruct (put_backup_ok i sbuf m Hi Es Hz Hh) as (m1 & -> & Hh1 & Hsame). cbn [mbind option_bind]. eexists. split; [done|].
  assert (Hocc : ∀ b, occupies g (DataBlock (gfirst g i + 1) desc_len desc None 0 0 false None) b <-> gfirst g i + 1 <= b <= gfirst g i + bg_desc_blocks g).
  { intros b. unfold occupies. rewrite (nblocks_mul g Hg _ (bg_desc_blocks g)) by (cbn; lia). cbn. lia. }
  split; [eapply heading_weaken; [eapply (heading_queue _ i sbuf m1 _ (DataBlock (gfirst g i + 1) desc_len desc None 0 0 false None)); try done; cbn|]|split; [|done]].
  - nia.
  - intros b Hb%Hocc. pose proof (go_room g Hg i true Hi Es). pose proof (gfirst_range g Hg i Hi). unfold gdata, gtable, gmaps in *. split.
    + exists i. split; [done|]. split; [done|]. unfold gmaps. lia.
    + intros [Hu|[-> _]]; [|lia]. apply (used_group i b i Hu) in Hi as [? _]; lia.
  - intros b _ [[Hu|[-> Hne]]|Hb%Hocc]; [by apply Hmono | exists i; split; [lia | split; [done | by left]] | exists i; split; [lia | split; [done | by right]]].
  - intros ->. cbn. apply elem_of_app. right. by apply list_elem_of_singleton.
Qed.
Lemma fill_group_ok i sbuf m : 0 <= i < groups g -> zlen sbuf = bs -> heading (used i) i sbuf m -> ∃ m', fill_group a i m = Some m' ∧ heading (used (i + 1)) (i + 1) sbuf m' ∧ same_groups m m'.
Proof.
  intros Hi Hz Hh. destruct (has_super_ok g i ltac:(lia)) as (sup & Es & _). destruct (put_header_ok i sup sbuf m Hi Es Hz Hh) as (m1 & E1 & Hh1 & Hfirst & Hsame).
  pose proof (go_room g Hg i sup Hi Es). pose proof (gfirst_range g Hg i Hi). pose proof (go_counts g Hg). pose proof (bpg_range g Hg). pose proof (go_max g Hg). pose proof (go_first g Hg). pose proof (blk_range g Hg).
  assert (Hgm : 0 <= gmaps g sup ∧ gtable g sup = gmaps g sup + 2) by (unfold gtable, gmaps; destruct sup; lia).
  assert (Estart : u32 (first_data_block g + u32 (i * blocks_per_group g)) = gfirst g i) by (unfold gfirst in *; rewrite !u32_small by (rewrite ?u32_small by nia; nia); done).
  unfold fill_group. cbn [ax_geom ax_sb ax_desc]. rewrite Estart, Es. cbn [mbind option_bind].
  assert (Ehdr : (if sup then m ← put_backup i m; Some (u32 (1 + bg_desc_blocks g + bg_desc_reserve_blocks g), set_fs (q_data desc (u32 (bg_desc_blocks g * bs)) (u32 (gfirst g i + 1)) (fs m)) m) else Some (0, m)) = Some (gmaps g sup, m1)).
  { unfold put_header in E1. destruct sup; [|by injection E1 as ->]. unfold gdata, gtable, gmaps in *. destruct (put_backup i m) as [m2|]; [|done]. cbn [mbind option_bind] in *. injection E1 as <-.
    rewrite (u32_small (bg_desc_blocks g * bs)) by nia. rewrite (u32_small (gfirst g i + 1)) by lia. rewrite (u32_small (1 + bg_desc_blocks g + bg_desc_reserve_blocks g)) by lia. by rewrite (Z.mul_comm (bg_desc_blocks g)). }
  unfold put_backup in Ehdr. rewrite Ehdr. cbn [mbind option_bind]. clear Ehdr E1. pose proof Hh1 as [G1 G2 G3 (dbuf & G4 & G4' & G4'') G5' G6]. unfold edit. rewrite G4. cbn [mbind option_bind].
  set (l := [_; _; _; _; _; _]). assert (Hl : Forall (fun e => 32 * i <= e.1 ∧ e.1 + zlen e.2 <= 32 * i + 32) l).
  { unfold l, bg_block_bitmap, bg_inode_bitmap, bg_inode_table, bg_free_blocks_count, bg_free_inodes_count, bg_used_dirs_count. repeat (constructor; [cbn [fst snd]; rewrite ?bytes32_zlen, ?bytes16_zlen; lia|]). constructor. }
  assert (Hfit : stores_fit l (zlen dbuf)) by (eapply Forall_impl; [exact Hl|]; intros e He; cbn beta in He; rewrite G4'; lia).
  destruct (stores_ok l dbuf Hfit) as (dbuf' & E & Hz' & Hs). rewrite E. cbn [mbind option_bind]. eexists. split; [done|].
  destruct (put_buf_good g m1 desc dbuf' G1) as [Hg' _]. split; [|exact Hsame]. split; try done.
  - cbn. by rewrite lookup_insert_ne.
  - exists dbuf'. split; [apply lookup_insert_eq|]. split; [congruence|]. intros j sup' Hj Esj. destruct (decide (j = i)) as [->|Hne].
    + assert (sup' = sup) as -> by congruence. assert (Hb : bytes32 (gfirst g i + gmaps g sup + 2) = bytes32 (gfirst g i + gtable g sup)) by (f_equal; lia). rewrite <- Hb.
      apply (stores_last [(bg_block_bitmap i, bytes32 (gfirst g i + gmaps g sup)); (bg_inode_bitmap i, bytes32 (gfirst g i + gmaps g sup + 1))]
        [(bg_free_blocks_count i, bytes16 (blocks_per_group g)); (bg_free_inodes_count i, bytes16 (inodes_per_group g)); (bg_used_dirs_count i, bytes16 0)] (bg_inode_table i) _ dbuf dbuf' E Hfit).
      unfold bg_inode_table, bg_free_blocks_count, bg_free_inodes_count, bg_used_dirs_count. repeat (constructor; [cbn [fst snd]; rewrite ?bytes32_zlen, ?bytes16_zlen; lia|]). constructor.
    + rewrite Hs; [apply G4''; [lia | done] | lia | lia | nia |]. eapply Forall_impl; [exact Hl|]. intros e He. cbn beta in He. lia.
  - intros _. cbn. destruct (decide (i = 0)) as [->|Hne]; [by apply Hfirst | apply G6; lia].
Qed.
Lemma fill_groups_ok n i sbuf m : 0 <= i -> i + Z.of_nat n <= groups g -> zlen sbuf = bs -> heading (used i) i sbuf m ->
  ∃ m', fill_groups a n i m = Some m' ∧ heading (used (i + Z.of_nat n)) (i + Z.of_nat n) sbuf m' ∧ same_groups m m'.
Proof.
  revert i m. induction n as [|n IH]; intros i m Hi Hn Hz Hh; cbn [fill_groups].
  { exists m. rewrite Z.add_0_r. split; [done|]. by split. }
  destruct (fill_group_ok i sbuf m ltac:(lia) Hz Hh) as (m1 & -> & Hh1 & S1 & S2). cbn [mbind option_bind]. destruct (IH (i + 1) m1 ltac:(lia) ltac:(lia) Hz Hh1) as (m2 & -> & Hh2 & S3 & S4).
  exists m2. split; [done|]. split; [|split; congruence]. by replace (i + Z.of_nat (S n)) with (i + 1 + Z.of_nat n) by lia.
Qed.

(** ** From the empty groups *)
Lemma init_heading s0 s1 B sbuf dbuf : bgs s0 = [] -> queued_ds s0 = [] -> regs s0 = ∅ -> block_allocator_init g s0 = Some s1 -> sb < brk s0 -> desc < brk s0 ->
  B !! sb = Some sbuf -> B !! desc = Some dbuf -> zlen dbuf = desc_len -> heading (used 0) 0 sbuf (ImageState s1 ∅ B).
Proof.
  intros Hb Hq Hr E Hs Hd Es Ed Hz. destruct (init_good g Hg Hig s0 s1 B Hb Hq Hr E) as [Hm _]. destruct (block_allocator_init_ok g Hg s0 Hb) as (l & E' & _). rewrite E in E'. injection E' as ->.
  pose proof (blk_range g Hg). pose proof (go_groups g Hg). split; cbn [fs bufs brk queued_ds]; try done; [nia | | ].
  - exists dbuf. split; [done|]. split; [done|]. lia.
  - intros b Hh _ d Hin Ho. cbn [fs queued_ds] in Hin. rewrite Hq in Hin. destruct (bitmap_blocks_in g _ 0 _ d ltac:(lia) Hin) as (j & sup & Hj & Esup & Eb & El).
    unfold occupies in Ho. rewrite (nblocks_mul g Hg d 2 El), Eb in Ho. destruct (bitmap_place g Hg j sup b ltac:(lia) Esup Ho) as (H1 & H2 & H3 & _).
    assert (0 <= gmaps g sup) by (pose proof (go_counts g Hg); unfold gmaps; destruct sup; lia).
    destruct (hdr_group b j sup Hh ltac:(lia) Esup ltac:(lia)) as (-> & H5 & _). lia.
Qed.
Lemma edit_sb P i sbuf l m sbuf' : heading P i sbuf m -> stores l sbuf = Some sbuf' -> edit sb l m = Some (put_buf sb sbuf' m) ∧ heading P i sbuf' (put_buf sb sbuf' m).
Proof.
  intros [H1 H2 H3 H4 H5 H6] E. unfold edit. rewrite H3. cbn [mbind option_bind]. rewrite E. split; [done|]. destruct (put_buf_good g m sb sbuf' H1) as [Hg' _]. split; try done.
  - apply lookup_insert_eq.
  - cbn. by rewrite lookup_insert_ne.
Qed.
Lemma fill_in_sb_ok i sbuf m : bytes (mi_label i) -> zlen (mi_label i) < 2 ^ 29 -> heading (used 0) 0 sbuf m -> zlen sbuf = bs ->
  ∃ m' sbuf', ext4_fill_in_sb a i m = Some m' ∧ heading (used (groups g)) (groups g) sbuf' m' ∧ says (mi_feat_ro_compat i) g sbuf' ∧ same_groups m m'.
Proof.
  intros Hb Hl Hh Hz. pose proof (blk_range g Hg). pose proof (go_groups g Hg). unfold ext4_fill_in_sb. set (namespace := [_; _; _; _; _; _; _; _; _; _; _; _; _; _; _; _; _; _; _; _; _; _]).
  destruct (generate_uuid_ok namespace (mi_label i)) as (uuid & -> & Hu); [repeat (constructor; [lia|]); constructor | done..|]. cbn [mbind option_bind].
  destruct (sb_stores_says i g uuid sbuf Hu ltac:(lia) Hz) as (sbuf' & E & Hsay). destruct (edit_sb _ _ _ _ _ _ Hh E) as [E2 Hh2]. cbn [ax_sb ax_geom]. rewrite E2. cbn [mbind option_bind].
  destruct (fill_groups_ok (Z.to_nat (groups g)) 0 sbuf' _ ltac:(lia) ltac:(lia) (proj1 Hsay) Hh2) as (m' & E3 & Hh3 & Hs). exists m', sbuf'. rewrite Z2Nat.id, Z.add_0_l in Hh3 by lia. done.
Qed.
End Header.
