(* ===== verification/MakeInodes.v ===== *)
(** * The journal, and the blocks kept for resizing

    The two inodes that [make_ext4fs_internal] makes before anything is packed.  Either
    there is no room, or the image stays in order and the super block and the descriptors
    are as they were written. *)
From stdpp Require Import base gmap list list_numbers.
From Stdlib Require Import ZArith Lia.
From S2P Require Import Prelude Crc SparseFormat Sha1 Backed Alloc AllocBits AllocInv AllocSafe AllocInit AllocOob Extent ExtentSpec ExtentFile FileTrip ImageOk Indirect Contents Dir MakeFs TreeFrame TreeStart MakeSuper MakeHeader.
#[local] Open Scope Z_scope.

(** ** Chains of regions *)
Lemma nth_block_some fuel s p L k : rchain (regs s) p L -> (length L <= fuel)%nat -> ∃ b, nth_block fuel p k s = Some b.
Proof.
  revert p L k. induction fuel as [|fuel IH]; intros p [|[x r] L] k; cbn [rchain length nth_block]; try lia; [by intros ->; eexists | by intros ->; eexists|].
  intros (-> & Er & Hc) Hl. rewrite Er. cbn [mbind option_bind]. case_match; [by eexists|]. apply (IH _ L); [done | lia].
Qed.
Lemma regions_len_ok fuel s p L : rchain (regs s) p L -> (length L <= fuel)%nat -> Forall (fun c => 0 < r_len c.2) L -> total_len L < 2 ^ 32 -> regions_len fuel p s = Some (total_len L).
Proof.
  revert p L. induction fuel as [|fuel IH]; intros p [|[x r] L]; cbn [rchain length regions_len total_len]; try lia; [by intros -> | by intros ->|].
  intros (-> & Er & Hc) Hl [H1 Hpos]%Forall_cons Ht. cbn [snd] in H1. rewrite Er. cbn [mbind option_bind].
  assert (0 <= total_len L) by (clear -Hpos; induction Hpos as [|[y q] L H1 _ IH]; cbn in *; lia). rewrite (IH _ L) by (done || lia). cbn [mbind option_bind]. rewrite u32_small by lia. by rewrite Z.add_comm.
Qed.
(** The regions [L], all of [n] blocks, have been appended since [s0]. *)
Record grown (n : Z) (s0 s : fsys) (al : block_allocation) (L : list (nat * region)) : Prop := Grown {
  gr_same : bgs s = bgs s0 ∧ queued_ds s = queued_ds s0 ∧ brk s = brk s0;
  gr_fresh : regs_fresh s ∧ fresh s = (fresh s0 + length L)%nat;
  gr_chain : rchain (regs s) (rl_first (a_list al)) L;
  gr_last : rl_last (a_list al) = fst <$> last L;
  gr_iter : rl_iter (a_list al) = rl_first (a_list al) ∧ rl_partial (a_list al) = 0 ∧ a_oob al = no_regions;
  gr_ids : NoDup L.*1 ∧ Forall (fun x => (fresh s0 <= x < fresh s)%nat) L.*1;
  gr_len : Forall (fun c => r_len c.2 = n) L
}.
Lemma append_grown n s0 s al L block i : grown n s0 s al L -> ∃ al' s' L', append_region al block n i s = Some (al', s') ∧ grown n s0 s' al' L' ∧ length L' = S (length L) ∧
  (L = [] -> r_block <$> (snd <$> head L') = Some block) ∧ (∀ b, r_block <$> (snd <$> head L) = Some b -> r_block <$> (snd <$> head L') = Some b).
Proof.
  intros [(A1 & A2 & A3) [B1 B2] C D (E1 & E2 & E3) [F1 F2] G]. unfold append_region, new_region. set (r0 := Region block n i None None). set (x := fresh s) in *.
  assert (Hx : x ∉ L.*1) by (intros Hin; rewrite Forall_forall in F2; specialize (F2 _ Hin); lia).
  destruct (decide (L = [])) as [->|Hne].
  - cbn [rchain] in C. unfold region_list_append. rewrite C. unfold upd_region. cbn [regs]. rewrite lookup_insert_eq. cbn [mbind option_bind set_regs regs]. rewrite lookup_insert_eq. cbn [mbind option_bind].
    eexists _, _, [(x, r0)]. split; [done|]. split; [|split; [done | split; [done|]]; by intros b [=]]. split; cbn; try done.
    + split; [|cbn in B2; lia]. intros y Hy. cbn in Hy |- *. rewrite !lookup_insert_ne by lia. apply B1. lia.
    + split; [done|]. by rewrite lookup_insert_eq.
    + split; [apply NoDup_singleton|]. constructor; [|done]. cbn in B2. lia.
    + by constructor.
  - destruct (exists_last Hne) as (L1 & [y ry] & ->). rewrite last_snoc in D. cbn in D.
    assert (Hf : ∃ z, rl_first (a_list al) = Some z) by (destruct L1 as [|[z rz] L1]; cbn in C; destruct C as [-> _]; by eexists). destruct Hf as [z Hf].
    assert (Ey : regs s !! y = Some ry) by (apply (rchain_lookup _ _ _ y ry C), elem_of_app; right; by left).
    assert (Hy : y ∉ L1.*1) by (rewrite fmap_app, NoDup_app in F1; destruct F1 as (_ & F1 & _); intros Hin; apply (F1 y Hin); by left).
    assert (Hyx : y <> x) by (intros ->; apply Hx; rewrite fmap_app; apply elem_of_app; right; by left).
    unfold region_list_append. rewrite Hf, D. cbn [mbind option_bind]. unfold upd_region. cbn [regs set_regs]. rewrite lookup_insert_ne by done. rewrite Ey. cbn [mbind option_bind regs set_regs]. rewrite lookup_insert_ne by done. rewrite lookup_insert_eq. cbn [mbind option_bind regs set_regs].
    rewrite lookup_insert_eq. cbn [mbind option_bind]. eexists _, _, (L1 ++ [(y, set_next (Some x) ry); (x, set_next None (set_prev (Some y) r0))]). split; [done|]. split; [|split; [rewrite !length_app; cbn; lia | split]].
    + split; cbn; try done.
      * split; [|rewrite !length_app in *; cbn in *; lia]. intros k Hk. cbn in Hk |- *. rewrite !lookup_insert_ne by (try lia; intros ->; rewrite Forall_forall in F2; specialize (F2 k); rewrite fmap_app, elem_of_app in F2; pose proof (F2 ltac:(right; by left)); lia). apply B1. lia.
      * rewrite <- Hf. eapply rchain_frame; [|apply (rchain_snoc _ _ _ y ry x (set_next None (set_prev (Some y) r0)) C Hx Hy eq_refl)]. intros k _. cbn.
        destruct (decide (k = x)) as [->|Hkx]; [by rewrite !lookup_insert_eq|]. rewrite !(lookup_insert_ne _ x k) by done. destruct (decide (k = y)) as [->|Hky]; [by rewrite !lookup_insert_eq|]. by rewrite !(lookup_insert_ne _ y k), ?(lookup_insert_ne _ x k) by done.
      * by rewrite last_app.
      * by rewrite E1, Hf.
      * rewrite fmap_app in *. cbn in *. split; [|apply Forall_app in F2 as [F2 F2']; apply Forall_app; split; [eapply Forall_impl; [exact F2|]; cbn; lia|]; apply Forall_cons in F2' as [F2' _]; constructor; [lia|]; constructor; [lia | done]].
        replace (L1.*1 ++ [y; x]) with ((L1.*1 ++ [y]) ++ [x]) by (by rewrite <- app_assoc). apply NoDup_app. split; [done|]. split; [intros k Hk ->%list_elem_of_singleton; done | apply NoDup_singleton].
      * apply Forall_app in G as [G1 G2]. apply Forall_app. split; [done|]. apply Forall_cons in G2 as [G2 _]. constructor; [exact G2|]. by constructor.
    + intros H. by apply app_eq_nil in H as [_ H].
    + intros b. destruct L1 as [|[k rk] L1]; cbn; done.
Qed.
Lemma grown_create n s : regs_fresh s -> grown n s s create_allocation [].
Proof. intros Hf. split; try done; try (split; [done | cbn; lia]); split; constructor. Qed.

Section Inodes.
Context (g : geom) (Hg : geom_ok g) (Hig : 0 < inodes_per_group g <= 8 * blk_size g) (Hcount : groups g * inodes_per_group g < 2 ^ 32 - 1).
Context (Hsize : 128 <= inode_size g ∧ inodes_per_group g * inode_size g <= inode_table_blocks g * blk_size g).
Notation bs := (blk_size g).
Notation ipg := (inodes_per_group g).
Notation reserve := (bg_desc_reserve_blocks g).
Context (sb desc : Z).
Notation a := (Aux g sb desc).

Lemma regions_grown n i s0 s al L : 0 <= i -> grown reserve s0 s al L ->
  ∃ al' s' L', resize_regions a n i al s = Some (al', s') ∧ grown reserve s0 s' al' L' ∧ (length L' <= length L + n)%nat ∧
    ∀ b, r_block <$> (snd <$> head L) = Some b -> r_block <$> (snd <$> head L') = Some b.
Proof.
  revert i s al L. induction n as [|n IH]; intros i s al L Hi Hgr; cbn [resize_regions ax_geom]; [exists al, s, L; by split_and!; [..|lia|]|].
  destruct (has_super_ok g i Hi) as (sup & -> & _). cbn [mbind option_bind]. destruct sup.
  - destruct (append_grown _ s0 s al L (u32 (u32 (first_data_block g + u32 (i * blocks_per_group g)) + 1 + bg_desc_blocks g)) i Hgr) as (al1 & s1 & L1 & -> & Hgr1 & Hl & _ & Hb). cbn [mbind option_bind].
    destruct (IH (i + 1) s1 al1 L1 ltac:(lia) Hgr1) as (al2 & s2 & L2 & -> & Hgr2 & Hl2 & Hb2). exists al2, s2, L2. split; [done|]. split; [done|]. split; [lia|]. intros b H. by apply Hb2, Hb.
  - cbn [mbind option_bind]. destruct (IH (i + 1) s al L ltac:(lia) Hgr) as (al2 & s2 & L2 & -> & Hgr2 & Hl2 & Hb2). exists al2, s2, L2. split; [done|]. split; [done|]. split; [lia | done].
Qed.
Lemma resize_regions_ok s : regs_fresh s ->
  ∃ al s' L, resize_regions a (Z.to_nat (groups g)) 0 create_allocation s = Some (al, s') ∧ grown reserve s s' al L ∧ zlen L <= groups g ∧
    ∃ x r L1, L = (x, r) :: L1 ∧ r_block r = gfirst g 0 + 1 + bg_desc_blocks g.
Proof.
  intros Hf. pose proof (go_groups g Hg). destruct (Z.to_nat (groups g)) as [|n] eqn:En; [lia|]. cbn [resize_regions ax_geom].
  assert (E0 : ext4_bg_has_super_block g 0 = Some true) by (unfold ext4_bg_has_super_block; by destruct (sparse_super g)). rewrite E0. cbn [mbind option_bind].
  set (b := u32 _). destruct (append_grown reserve s s create_allocation [] b 0 (grown_create _ s Hf)) as (al1 & s1 & L1 & -> & Hgr1 & Hl & Hb & _). cbn [mbind option_bind].
  destruct (regions_grown n (0 + 1) s s1 al1 L1 ltac:(lia) Hgr1) as (al2 & s2 & L2 & E & Hgr2 & Hl2 & Hb2). exists al2, s2, L2. split; [exact E|]. split; [done|]. split; [unfold zlen; cbn in Hl; lia|].
  specialize (Hb2 b (Hb eq_refl)). destruct L2 as [|[x r] L2]; [done|]. exists x, r, L2. split; [done|]. cbn in Hb2. injection Hb2 as ->. unfold b.
  pose proof (go_room g Hg 0 true ltac:(lia) E0). pose proof (gfirst_range g Hg 0 ltac:(lia)). pose proof (go_counts g Hg). pose proof (go_max g Hg). pose proof (go_bpg g Hg). unfold gdata, gtable, gmaps, gfirst in *.
  rewrite Z.mul_0_l, (u32_small 0), Z.add_0_r, (u32_small (first_data_block g)) by lia. by rewrite u32_small by lia.
Qed.

(** Blocks that were free are queued. *)
Lemma grant_good m m' s1 R D : good g m -> allocated g (fs m) s1 R -> bgs (fs m') = bgs s1 -> regs_fresh (fs m') -> inodes m' = inodes m -> brk (fs m) <= brk (fs m') ->
  (∀ k, k < brk (fs m) -> bufs m' !! k = bufs m !! k) -> queued_ds (fs m') = queued_ds (fs m) ++ D -> (∀ d b, d ∈ D -> occupies g d b -> covers R b) -> q_apart g D ->
  Forall (fun d => 0 < len d ∧ 0 <= block d ∧ block d + nblocks g d <= len_blocks g) D ->
  good g m' ∧ frame g [] [] m m' ∧ costs (total_len R) 0 (fs m) (fs m').
Proof.
  intros [Hm [T1 T2 T3 T4]] Hal Eb Hf Ei Hbrk Hbufs Eq Hcov Hap HD. destruct (tables_bgs g s1 (fs m') Eb) as (B1 & B2 & B3).
  assert (Htab : ∀ j, table_at (fs m') j = table_at (fs m) j) by (intros j; rewrite B1; by apply (allocated_tables g _ _ R)).
  assert (Htk : ∀ k, inode_taken g (fs m') k <-> inode_taken g (fs m) k) by (intros k; rewrite B2; by apply (allocated_taken g _ _ R)).
  assert (Haddr : ∀ k, inode_addr g (fs m') k = inode_addr g (fs m) k) by (intros k; unfold inode_addr; by rewrite Htab).
  split; [split|split].
  - apply (image_ok_step g Hg m m' s1 R D); try done. intros q i. rewrite Ei. apply (io_sized g m Hm).
  - split.
    + intros j p. rewrite Htab. intros H1. specialize (T1 _ _ H1). lia.
    + intros j k p q. rewrite !Htab. apply T2.
    + intros j p sup. rewrite Htab, Eq. intros H1 H2. apply elem_of_app. left. by apply T3.
    + intros q. rewrite Ei. intros Hq. destruct (T4 q Hq) as (k & Hk & H1 & H2). exists k. by rewrite Htk, Haddr.
  - split; try done.
    + by eexists.
    + intros j p. by rewrite Htab.
    + intros k _. by rewrite Htk.
    + intros q. by rewrite Ei.
    + intros q i E _. by rewrite Ei.
    + intros a Ha _. by apply Hbufs.
    + intros d b. rewrite Eq. intros [Hd|Hd]%elem_of_app Hb; [by left | right]. apply (free_body g Hg (fs m)); [apply Hm|]. apply (al_in _ _ _ _ Hal). by apply (Hcov d).
  - destruct (allocated_costs g Hg _ _ R (total_len R) (io_groups _ _ Hm) Hal ltac:(lia)) as [C1 C2]. split.
    + intros j bg E. destruct (C1 j bg E) as (bg1 & E1 & Hle). exists bg1. split; [|done]. unfold bg_at in *. by rewrite Eb.
    + unfold inodes_left in *. by rewrite Eb.
Qed.
(** Only the regions, the buffers and the end of the memory change. *)
Lemma aside_good m m' : good g m -> bgs (fs m') = bgs (fs m) -> queued_ds (fs m') = queued_ds (fs m) -> regs_fresh (fs m') -> inodes m' = inodes m -> brk (fs m) <= brk (fs m') ->
  (∀ k, k < brk (fs m) -> bufs m' !! k = bufs m !! k) -> good g m' ∧ frame g [] [] m m' ∧ costs 0 0 (fs m) (fs m').
Proof.
  intros Hm Eb Eq Hf Ei Hbrk Hbufs. apply (grant_good m m' (fs m) [] []); try done; [apply allocated_nil; apply Hm | by rewrite Eq, app_nil_r | by intros ? ? ?%elem_of_nil].
Qed.
End Inodes.
