(* ===== verification/MakeStage.v ===== *)
(** * Up to the walk

    What holds of the image while [make_ext4fs_internal] makes the inodes of the file
    system itself: the super block and the descriptors say what the layout is, the blocks
    in front of the groups are free for them, and nothing else has a record. *)
From stdpp Require Import base gmap list list_numbers.
From Stdlib Require Import ZArith Lia.
From S2P Require Import Prelude Crc SparseFormat Sha1 Backed Alloc AllocBits AllocInv AllocSafe AllocInit AllocOob Extent ExtentSpec ExtentFile FileTrip ImageOk Indirect Contents Dir MakeFs TreeFrame TreeStart MakeSuper MakeHeader MakeInodes.
#[local] Open Scope Z_scope.

Lemma blk_quarter g : geom_ok g -> ∃ k, blk_size g = 4 * k ∧ 256 <= k.
Proof. intros Hg. destruct (go_blk g Hg) as (e & He & ->). assert (e = 10 ∨ e = 11 ∨ e = 12) as [->|[->| ->]] by lia; [exists 256 | exists 512 | exists 1024]; done. Qed.
Section Stage.
Context (g : geom) (Hg : geom_ok g) (Hig : 0 < inodes_per_group g <= 8 * blk_size g) (Hcount : groups g * inodes_per_group g < 2 ^ 32 - 1).
Context (Hsize : 128 <= inode_size g ∧ inodes_per_group g * inode_size g <= inode_table_blocks g * blk_size g).
Context (fuel : nat) (Hfuel : groups g + 1 < Z.of_nat fuel) (Hcap : 12 * (groups g + 2) <= blk_size g) (H10 : 10 <= inodes_per_group g).
Context (sb desc : Z) (Hroom : 32 * groups g <= blk_size g * bg_desc_blocks g) (Hplace : sb <> desc) (ro : Z) (s1 : fsys).
Notation bs := (blk_size g).
Notation ipg := (inodes_per_group g).
Notation reserve := (bg_desc_reserve_blocks g).
Notation a := (Aux g sb desc).
Notation heading := (heading g sb desc).

(** The inodes of the file system itself that get a record. *)
Definition special (s : fsys) (q : Z) : Prop := ∃ n, (n = EXT4_RESIZE_INO ∨ n = EXT4_JOURNAL_INO) ∧ inode_addr g s n = Some q.
Record stage (P : Z -> Prop) (b k : Z) (m : image_state) : Prop := Stage {
  sg_head : ∃ sbuf, heading P (groups g) sbuf m ∧ says ro g sbuf;
  sg_taken : ∀ n, 1 <= n <= 10 -> inode_taken g (fs m) n;
  sg_inodes : ∀ q, is_Some (inodes m !! q) -> special (fs m) q;
  sg_costs : costs b k s1 (fs m)
}.
Lemma stage_good P b k m : stage P b k m -> good g m.
Proof. intros [(sbuf & [H1 _ _ _ _ _] & _) _ _ _]. done. Qed.
Lemma stage_below P b k m : stage P b k m -> sb < brk (fs m) ∧ desc < brk (fs m).
Proof. intros [(sbuf & [_ H1 _ _ _ _] & _) _ _ _]. done. Qed.
Lemma heading_frame P i sbuf X B m m' : heading P i sbuf m -> good g m' -> frame g X B m m' -> sb ∉ B -> desc ∉ B -> heading P i sbuf m'.
Proof.
  intros [H1 [H2 H2'] H3 H4 H5 H6] Hg' Hf Hs Hd. pose proof (fr_brk _ _ _ _ _ Hf). split.
  - done.
  - lia.
  - by rewrite (fr_bufs _ _ _ _ _ Hf).
  - by rewrite (fr_bufs _ _ _ _ _ Hf).
  - intros b Hb Hp. apply (clear_frame g Hg X B m m' b Hf Hb). by apply H5.
  - intros Hi. destruct (fr_queue _ _ _ _ _ Hf) as (more & ->). apply elem_of_app. left. by apply H6.
Qed.
Lemma stage_frame P b k b' k' X B m m' : stage P b k m -> good g m' -> frame g X B m m' -> sb ∉ B -> desc ∉ B -> costs b' k' (fs m) (fs m') ->
  (∀ q, is_Some (inodes m' !! q) -> is_Some (inodes m !! q) ∨ special (fs m') q) -> stage P (b + b') (k + k') m'.
Proof.
  intros [(sbuf & S1 & S1') S2 S3 S4] Hg' Hf Hs Hd Hc Hq. split.
  - exists sbuf. split; [|done]. by apply (heading_frame P _ sbuf X B m m').
  - intros n Hn. apply (fr_taken _ _ _ _ _ Hf); [lia | by apply S2].
  - intros q [H|H]%Hq; [|done]. destruct (S3 q H) as (n & Hn & Ha). exists n. split; [done|]. by apply (frame_addr g _ _ _ _ _ _ Hf).
  - by apply (costs_trans b k b' k' _ (fs m)).
Qed.
Lemma stage_weaken (P P' : Z -> Prop) b k m : stage P b k m -> (∀ x, P x -> P' x) -> stage P' b k m.
Proof. intros [(sbuf & S1 & S1') S2 S3 S4] H. split; try done. exists sbuf. split; [|done]. eapply heading_weaken; [exact S1|]. intros x _. apply H. Qed.
(** What does not fit now did not fit at the start. *)
Lemma stage_short P b k m n : stage P b k m -> short n 0 (fs m) -> short (b + n) k s1.
Proof. intros Hs Hn. rewrite Z.add_comm. replace k with (0 + k) by lia. apply (costs_short b k n 0 s1 (fs m)); [apply Hs | done]. Qed.
(** The address of one of these inodes. *)
Lemma stage_inode P b k m n : stage P b k m -> 1 <= n <= 10 -> ∃ s' q, get_inode g n (fs m) = Some (q, s') ∧ stage P b k (set_fs s' m) ∧
  frame g [] [] m (set_fs s' m) ∧ inode_addr g s' n = Some q ∧ 1 <= n <= groups g * ipg.
Proof.
  intros Hs Hn. pose proof (go_groups g Hg). assert (Hr : 1 <= n <= groups g * ipg) by nia. destruct (get_inode_good g Hg Hig Hcount Hsize m n (stage_good _ _ _ _ Hs) Hr) as (s' & q & E & Hm & Hf & Hc & Ha).
  exists s', q. split; [done|]. split; [|done]. replace b with (b + 0) by lia. replace k with (k + 0) by lia. apply (stage_frame P b k 0 0 [] [] m); try done; [by intros ?%elem_of_nil | by intros ?%elem_of_nil |]. intros p Hp. by left.
Qed.
(** A record of one of these inodes is written. *)
Lemma stage_put P b k m n q i : stage P b k m -> 1 <= n <= 10 -> n = EXT4_RESIZE_INO ∨ n = EXT4_JOURNAL_INO -> inode_addr g (fs m) n = Some q -> zlen (i_block i) = 60 -> stage P b k (put_inode q i m).
Proof.
  intros Hs Hn Hn' Ha Hi. pose proof (go_groups g Hg). destruct (put_inode_good g m n q i (stage_good _ _ _ _ Hs) ltac:(nia) (sg_taken _ _ _ _ Hs n Hn) Ha Hi) as [Hm Hf].
  replace b with (b + 0) by lia. replace k with (k + 0) by lia. apply (stage_frame P b k 0 0 [q] [] m); try done; [by intros ?%elem_of_nil | by intros ?%elem_of_nil | by apply costs_refl |].
  intros p. cbn. destruct (decide (q = p)) as [->|Hne]; [intros _; right; by exists n | rewrite lookup_insert_ne by done; by left].
Qed.
(** Buffers that are not theirs are written. *)
Lemma stage_bufs P b k m m' : stage P b k m -> fs m' = fs m -> inodes m' = inodes m -> bufs m' !! sb = bufs m !! sb -> bufs m' !! desc = bufs m !! desc -> stage P b k m'.
Proof.
  intros [(sbuf & [H1 H2 H3 H4 H5 H6] & S1') S2 S3 S4] Ef Ei Es Ed. destruct m' as [s' i' b']. cbn in Ef, Ei, Es, Ed. subst s' i'. split; cbn [fs inodes]; try done. exists sbuf. split; [|done].
  split; cbn [fs bufs]; try done; [|by rewrite Es | by rewrite Ed]. destruct H1 as [[] []]. by split; split.
Qed.
Lemma stage_buf P b k m p buf : stage P b k m -> p <> sb -> p <> desc -> stage P b k (put_buf p buf m).
Proof. intros Hs H1 H2. apply (stage_bufs P b k m); try done; cbn; by apply lookup_insert_ne. Qed.
(** The super block is written, but for the layout. *)
Lemma stage_edit P b k m l : stage P b k m -> stores_fit l bs -> Forall (fun e => Forall (fun f => far f.1 (zlen f.2) e) (sb_fields ro g)) l ->
  ∃ buf, edit sb l m = Some (put_buf sb buf m) ∧ stage P b k (put_buf sb buf m).
Proof.
  intros [(sbuf & S1 & S1') S2 S3 S4] Hfit Hfar. pose proof (blk_range g Hg). destruct (stores_ok l sbuf) as (buf & E & _ & _); [by rewrite (proj1 S1')|].
  destruct (edit_sb g sb desc Hplace _ _ _ _ _ _ S1 E) as [E2 Hh]. exists buf. split; [done|]. split; try done. exists buf. split; [done|]. apply (says_stores ro g l sbuf); done || lia.
Qed.

(** ** The journal *)
Lemma journal_ok P b k m jb : stage P b k m -> 0 < jb -> jb * bs < 2 ^ 32 ->
  (ext4_create_journal_inode a fuel jb m = None ∧ short (b + (jb + 1)) k s1) ∨ ∃ m', ext4_create_journal_inode a fuel jb m = Some m' ∧ stage P (b + (jb + 1)) k m'.
Proof.
  intros Hs Hj Hmax. pose proof (blk_range g Hg). unfold ext4_create_journal_inode. cbn [ax_geom ax_sb]. destruct (stage_inode P b k m EXT4_JOURNAL_INO Hs ltac:(unfold EXT4_JOURNAL_INO; lia)) as (s' & q & -> & Hs1 & Hf1 & Ha & Hn). cbn [mbind option_bind].
  rewrite !(u32_small (jb * bs)) by nia. assert (Hfb : file_blocks g (jb * bs) = jb) by (unfold file_blocks; symmetry; apply (Z.div_unique _ _ _ (bs - 1)); lia).
  pose proof (stage_good _ _ _ _ Hs1) as Hm1. pose proof (stage_below _ _ _ _ Hs1) as [Hb1 Hb2].
  destruct (data_op_ok g Hg fuel Hfuel (set_fs s' m) (proj1 Hm1) q (jb * bs) ltac:(nia) ltac:(nia) Hcap) as [[-> Hno]|(m3 & oob & L & data & -> & Hfi & Hbufs & Ed & Hd & Hbrk & _)].
  - left. split; [done|]. rewrite Hfb in Hno. apply (stage_short P b k _ _ Hs1). by right.
  - right. cbn [mbind option_bind]. set (i := set_mode _ _ _ _).
    assert (Hib : zlen (i_block i) = 60) by (apply (inode_sized m3 q), (io_sized _ _ (fi_ok _ _ _ _ _ _ _ _ Hfi))).
    destruct (filed_good g Hg Hig Hsize (set_fs s' m) m3 EXT4_JOURNAL_INO q (jb * bs) oob L (data_mk data) i) as (Hm4 & Hf4 & Hc4); try done; [apply (sg_taken _ _ _ _ Hs1); unfold EXT4_JOURNAL_INO; lia|].
    set (m4 := put_inode q i m3) in *. rewrite Hfb in Hc4.
    assert (Hs4 : stage P (b + (jb + 1)) k m4).
    { replace k with (k + 0) by lia. apply (stage_frame P b k (jb + 1) 0 [q] [] (set_fs s' m)); try done; [by intros ?%elem_of_nil | by intros ?%elem_of_nil |].
      intros p. destruct (fi_inode _ _ _ _ _ _ _ _ Hfi) as (Hoth & _). cbn. destruct (decide (q = p)) as [->|Hne]; [|rewrite lookup_insert_ne, Hoth by done; by left].
      intros _. right. exists EXT4_JOURNAL_INO. split; [by right|]. by apply (frame_addr g _ _ _ _ _ _ Hf4). }
    set (l := [(0, _); (4, _); (12, _); (16, _); (64, _); (20, _); (24, _)]).
    destruct (stores_ok l (zeros (jb * bs))) as (jbuf & El & _); [rewrite zlen_zeros by nia; unfold l; repeat first [apply Forall_nil_2 | apply Forall_cons; split; [cbn [fst snd]; change (zlen (htonl _)) with 4; nia|]]|].
    rewrite (edit_ok data l m4 _ jbuf Ed El). cbn [mbind option_bind].
    cbn [set_fs fs] in *. pose proof (stage_buf _ _ _ _ data jbuf Hs4 ltac:(lia) ltac:(lia)) as Hs5.
    destruct (stage_edit _ _ _ _ [(s_jnl_blocks, i_block (inode_at (put_buf data jbuf m4) q))] Hs5) as (buf & -> & Hs6).
    + apply Forall_singleton. cbn [fst snd]. unfold inode_at. cbn. rewrite lookup_insert_eq. cbn [default]. unfold s_jnl_blocks. change (id i) with i. lia.
    + apply Forall_singleton, far_fields. unfold s_jnl_blocks. cbn [fst]. lia.
    + by eexists.
Qed.

(** ** The blocks kept for resizing *)
Lemma store_block_ok p i v m buf : bufs m !! p = Some buf -> 0 <= i -> 4 * i + 4 <= zlen buf -> ∃ buf', store_block p i v m = Some (put_buf p buf' m) ∧ zlen buf' = zlen buf.
Proof.
  intros Eb Hi Hl. unfold store_block. rewrite Eb. cbn [mbind option_bind]. rewrite store_ok by (rewrite ?bytes32_zlen; lia). cbn [mbind option_bind]. eexists. split; [done|]. rewrite overlay_len; rewrite ?bytes32_zlen; lia.
Qed.
(** The buffers [dind] and [ind] are there, and [m'] is [m] but for them. *)
Record two_bufs (dind ind : Z) (m m' : image_state) : Prop := TwoBufs {
  tb_same : fs m' = fs m ∧ inodes m' = inodes m;
  tb_dind : ∃ buf, bufs m' !! dind = Some buf ∧ zlen buf = bs;
  tb_ind : ∃ buf, bufs m' !! ind = Some buf ∧ zlen buf = bs * reserve;
  tb_bufs : ∀ k, k <> dind -> k <> ind -> bufs m' !! k = bufs m !! k
}.
Lemma two_bufs_dind dind ind m m' i v : dind <> ind -> two_bufs dind ind m m' -> 0 <= i -> 4 * i + 4 <= bs -> ∃ m'', store_block dind i v m' = Some m'' ∧ two_bufs dind ind m m''.
Proof.
  intros Hne [(T1 & T1') (b1 & T2 & T2') (b2 & T3 & T3') T4] Hi Hl. destruct (store_block_ok dind i v m' b1 T2 Hi ltac:(lia)) as (buf' & -> & Hz). eexists. split; [done|]. split; cbn.
  - done.
  - exists buf'. split; [apply lookup_insert_eq | lia].
  - exists b2. by rewrite lookup_insert_ne.
  - intros k H1 H2. rewrite lookup_insert_ne by done. by apply T4.
Qed.
Lemma two_bufs_ind dind ind m m' i v : dind <> ind -> two_bufs dind ind m m' -> 0 <= i -> 4 * i + 4 <= bs * reserve -> ∃ m'', store_block ind i v m' = Some m'' ∧ two_bufs dind ind m m''.
Proof.
  intros Hne [(T1 & T1') (b1 & T2 & T2') (b2 & T3 & T3') T4] Hi Hl. destruct (store_block_ok ind i v m' b2 T3 Hi ltac:(lia)) as (buf' & -> & Hz). eexists. split; [done|]. split; cbn.
  - done.
  - exists b1. by rewrite lookup_insert_ne.
  - exists buf'. split; [apply lookup_insert_eq | lia].
  - intros k H1 H2. rewrite lookup_insert_ne by done. by apply T4.
Qed.
Context (Hres : 0 < reserve /\ 4 * reserve <= bs).
Lemma resize_copies_ok n j dind ind r al m m' L : dind <> ind -> rchain (regs (fs m)) (rl_iter (a_list al)) L -> (length L <= fuel)%nat -> two_bufs dind ind m m' ->
  0 <= r < reserve -> 1 <= j -> 4 * (j + Z.of_nat n) <= bs + 4 -> ∃ m'', resize_copies g fuel n j ind r al m' = Some m'' ∧ two_bufs dind ind m m''.
Proof.
  intros Hne Hc Hl. revert j m'. induction n as [|n IH]; intros j m' Ht Hr Hj Hn; cbn [resize_copies]; [by exists m'|].
  unfold get_block, list_block. rewrite (proj1 (tb_same _ _ _ _ Ht)). destruct (nth_block_some fuel (fs m) _ L (u32 (u32 (j * reserve + r) + rl_partial (a_list al))) Hc Hl) as (b & ->). cbn [mbind option_bind].
  destruct (blk_quarter g Hg) as (k & Ek & Hk). assert (Ei : blocks_per_ind g = k) by (unfold blocks_per_ind; rewrite Ek, Z.mul_comm, Z.div_mul; lia).
  destruct (two_bufs_ind dind ind m m' (r * blocks_per_ind g + j - 1) b Hne Ht) as (m2 & -> & Ht2); [nia.. |]. cbn [mbind option_bind]. apply IH; done || lia.
Qed.
Lemma resize_loop_ok n i dind ind sups al m m' L : dind <> ind -> rchain (regs (fs m)) (rl_iter (a_list al)) L -> (length L <= fuel)%nat -> two_bufs dind ind m m' ->
  0 <= i -> i + Z.of_nat n <= reserve -> 1 <= sups -> 4 * sups <= bs -> ∃ m'', resize_loop g fuel n i dind ind sups al m' = Some m'' ∧ two_bufs dind ind m m''.
Proof.
  intros Hne Hc Hl. revert i m'. induction n as [|n IH]; intros i m' Ht Hi Hn H1 Hsup; cbn [resize_loop]; [by exists m'|]. pose proof (blk_range g Hg).
  pose proof (Z.mod_pos_bound (u32 (i - bg_desc_blocks g)) reserve ltac:(lia)) as Hr. set (r := u32 (i - bg_desc_blocks g) mod reserve) in *. rewrite (s32_small r) by lia. rewrite (proj2 (Z.ltb_ge r 0)) by lia.
  unfold get_block, list_block. rewrite (proj1 (tb_same _ _ _ _ Ht)). destruct (nth_block_some fuel (fs m) _ L (u32 (u32 r + rl_partial (a_list al))) Hc Hl) as (b & ->). cbn [mbind option_bind].
  destruct (two_bufs_dind dind ind m m' i b Hne Ht) as (m2 & -> & Ht2); [lia.. |]. cbn [mbind option_bind].
  destruct (resize_copies_ok (Z.to_nat (sups - 1)) 1 dind ind r al m m2 L) as (m3 & -> & Ht3); [done..| lia | lia |]. cbn [mbind option_bind]. apply IH; done || lia.
Qed.
(** One block for the numbers. *)
Definition single (x : nat) : region_list := RegionList (Some x) (Some x) (Some x) 0.
Lemma oob_one s al : groups_ok g (bgs s) -> regs_fresh s -> a_oob al = no_regions ->
  (append_oob_allocation g fuel al 1 s = None ∧ no_room 1 s) ∨
  ∃ x r s3, append_oob_allocation g fuel al 1 s = Some (BlockAllocation (a_list al) (single x), set_regs (<[x := set_next None (set_prev None r)]> (regs s3)) s3) ∧
    allocated g s s3 [(x, r)] ∧ r_len r = 1 ∧ 0 < r_block r < len_blocks g.
Proof.
  intros Hs Hf Ho. unfold append_oob_allocation. assert (Hemp : (empties s < fuel)%nat) by (pose proof (empties_le s); destruct Hs as [Hl _]; unfold zlen in Hl; lia).
  destruct (do_allocate_ok g Hg fuel 1 s Hs Hf ltac:(lia) Hemp) as (res & s3 & L & -> & Hal & [(-> & Hno & _)|[(x & r & L1 & EL & -> & Hc & _) Ht]] & _); cbn [mbind option_bind]; [by left | right].
  assert (L1 = [] ∧ r_len r = 1) as [-> Hr].
  { rewrite EL in Ht. pose proof (al_pos _ _ _ _ Hal) as Hpos. rewrite EL in Hpos. apply Forall_cons in Hpos as [H1 Hpos]. cbn in Ht, H1. destruct L1 as [|[y ry] L1]; [cbn in Ht; split; [done | lia]|].
    exfalso. apply Forall_cons in Hpos as [H2 Hpos]. cbn in Ht, H2. assert (0 <= total_len L1) by (clear -Hpos; induction Hpos as [|[z rz] l H1 _ IH]; cbn in *; lia). lia. }
  subst L. cbn [rchain] in Hc. destruct Hc as (_ & Er & En). destruct fuel as [|n]; [lia|]. cbn [append_all]. rewrite Ho, (append_empty x s3 r Er). cbn [mbind option_bind set_regs regs]. rewrite lookup_insert_eq. cbn [mbind option_bind set_next set_prev r_next].
  assert (En0 : ∀ l t, append_all n l None t = Some (l, t)) by (by destruct n). rewrite En0. cbn [mbind option_bind]. exists x, r, s3. split; [done|]. split; [done|]. split; [done|].
  apply (free_block g Hg s); [done|]. apply (al_in _ _ _ _ Hal). exists x, r. split; [by left | lia].
Qed.
(** The blocks kept in the first group. *)
Definition area (x : Z) : Prop := gfirst g 0 + 1 + bg_desc_blocks g <= x < gfirst g 0 + gmaps g true.
Lemma area_hdr x : area x -> hdr g x.
Proof. intros Hx. pose proof (go_groups g Hg). pose proof (go_counts g Hg). exists 0. split; [lia|]. unfold area in Hx. split; [|lia]. unfold ext4_bg_has_super_block. by destruct (sparse_super g). Qed.
(** The block of numbers is queued where there is room, and the numbers in front of the group. *)
Definition dind_block (r : region) (p : Z) : data_block := DataBlock (r_block r) bs p None 0 0 false None.
Definition ind_block (p : Z) : data_block := DataBlock (gfirst g 0 + 1 + bg_desc_blocks g) (bs * reserve) p None 0 0 false None.
Lemma queue_numbers P b k m s3 x r rs : stage P b k m -> (∀ y, area y -> ¬ P y) -> allocated g (fs m) s3 [(x, r)] -> r_len r = 1 ->
  (∀ y, (fresh s3 <= y)%nat -> rs !! y = None) ->
  let p := brk (fs m) in
  let B := <[p + bs := zeros (bs * reserve)]> (<[p := zeros bs]> (bufs m)) in
  stage (fun y => P y ∨ area y) (b + 1) k
    (ImageState (Fsys (bgs s3) rs (fresh s3) ((queued_ds (fs m) ++ [dind_block r p]) ++ [ind_block (p + bs)]) (p + bs + bs * reserve)) (inodes m) B).
Proof.
  intros Hs Hap Hal Hr Hrs p B. pose proof (blk_range g Hg). pose proof (go_counts g Hg). pose proof (go_groups g Hg). pose proof (stage_good _ _ _ _ Hs) as Hm. pose proof (stage_below _ _ _ _ Hs) as [Hb1 Hb2].
  set (m2 := ImageState (Fsys (bgs s3) rs (fresh s3) (queued_ds (fs m) ++ [dind_block r p]) (p + bs)) (inodes m) (<[p := zeros bs]> (bufs m))).
  assert (Hocc : ∀ y, occupies g (dind_block r p) y <-> y = r_block r) by (intros y; unfold occupies; rewrite (nblocks_mul g Hg _ 1) by (cbn; lia); cbn; lia).
  assert (Hfree : 0 < r_block r < len_blocks g) by (apply (free_block g Hg (fs m)); [apply Hm | apply (al_in _ _ _ _ Hal); exists x, r; split; [by left | lia]]).
  destruct (grant_good g Hg m m2 s3 [(x, r)] [dind_block r p] Hm Hal) as (Hm2 & Hf2 & Hc2); try done.
  - cbn. subst p. lia.
  - intros y Hy. cbn. apply lookup_insert_ne. subst p. lia.
  - intros d y ->%list_elem_of_singleton ->%Hocc. exists x, r. split; [by left | lia].
  - split; [intros e y He; by apply elem_of_nil in He | done].
  - apply Forall_singleton. rewrite (nblocks_mul g Hg _ 1) by (cbn; lia). cbn. lia.
  - assert (Hs2 : stage P (b + 1) k m2).
    { cbn [total_len] in Hc2. rewrite Hr in Hc2. replace k with (k + 0) by lia. apply (stage_frame P b k 1 0 [] [] m m2); try done; [by intros ?%elem_of_nil | by intros ?%elem_of_nil | by left]. }
    destruct Hs2 as [(sbuf & S1 & S1') S2 S3 S4]. split; [|exact S2 | exact S3 | exact S4]. exists sbuf. split; [|done].
    assert (Hocc2 : ∀ y, occupies g (ind_block (p + bs)) y <-> area y) by (intros y; unfold occupies; rewrite (nblocks_mul g Hg _ reserve) by (cbn; lia); unfold area, gmaps; cbn; lia).
    eapply heading_weaken; [apply (heading_queue g Hg Hig sb desc Hplace P _ sbuf m2 _ (ind_block (p + bs)) S1); try done; cbn|].
    + subst p. lia.
    + subst B p. rewrite lookup_insert_ne; [done | lia].
    + subst B p. rewrite lookup_insert_ne; [done | lia].
    + nia.
    + intros y Hy%Hocc2. split; [by apply area_hdr | by apply Hap].
    + intros y _ [Hy|Hy%Hocc2]; [by left | by right].
Qed.
Lemma total_len_mul n L : Forall (fun c : nat * region => r_len c.2 = n) L -> total_len L = n * zlen L.
Proof. intros H. induction H as [|[x r] L H1 _ IH]; [unfold zlen; cbn; lia|]. cbn [total_len]. cbn in H1. rewrite IH, H1. unfold zlen. cbn [length]. lia. Qed.
Lemma attach_ok P b k s0 m al L x r L1 q : grown reserve s0 (fs m) al L -> L = (x, r) :: L1 -> r_block r = gfirst g 0 + 1 + bg_desc_blocks g -> zlen L <= groups g ->
  stage P b k m -> (∀ y, area y -> ¬ P y) -> inode_addr g (fs m) EXT4_RESIZE_INO = Some q ->
  (inode_attach_resize g fuel q al m = None ∧ short (b + 1) k s1) ∨
  ∃ al' m', inode_attach_resize g fuel q al m = Some (al', m') ∧ stage (fun y => P y ∨ area y) (b + 1) k m' ∧ inode_addr g (fs m') EXT4_RESIZE_INO = Some q ∧
    ∃ s', free_alloc fuel al' (fs m') = Some s' ∧ bgs s' = bgs (fs m') ∧ queued_ds s' = queued_ds (fs m') ∧ brk s' = brk (fs m') ∧ regs_fresh s'.
Proof.
  intros Hgr EL Eb Hn Hs Hap Ha. pose proof (blk_range g Hg). pose proof (go_groups g Hg). pose proof (stage_good _ _ _ _ Hs) as Hm. destruct Hgr as [_ [Hf _] Hc _ (Hit & Hpt & Ho) (Hnd & Hids) Hlens].
  assert (Hlf : (length L <= fuel)%nat) by (unfold zlen in Hn; lia). pose proof (total_len_mul reserve L Hlens) as Et. assert (Hz : 1 <= zlen L) by (subst L; unfold zlen; cbn [length]; lia).
  unfold inode_attach_resize, block_allocation_len. rewrite (regions_len_ok fuel (fs m) _ L Hc Hlf) by (nia || (eapply Forall_impl; [exact Hlens|]; cbn; lia)). cbn [mbind option_bind].
  rewrite (proj2 (Z.eqb_neq reserve 0)) by lia. rewrite Et, (Z.mul_comm reserve), Z.mod_mul, Z.div_mul by lia. cbn [negb Z.eqb].
  destruct (oob_one (fs m) al (io_groups _ _ (proj1 Hm)) Hf Ho) as [[-> Hno]|(x' & r' & s3 & -> & Hal & Hr' & Hb')]; cbn [mbind option_bind].
  { left. split; [done|]. apply (stage_short P b k m 1 Hs). by right. }
  right. set (rx := set_next None (set_prev None r')). set (al' := BlockAllocation (a_list al) (single x')).
  pose proof (al_keys _ _ _ _ Hal) as Hk. apply Forall_cons in Hk as [Hk _]. cbn in Hk.
  assert (Hfresh : ∀ y, (fresh s3 <= y)%nat -> <[x' := rx]> (regs s3) !! y = None) by (intros y Hy; rewrite lookup_insert_ne by lia; by apply (al_dom _ _ _ _ Hal)).
  pose proof (queue_numbers P b k m s3 x' r' (<[x' := rx]> (regs s3)) Hs Hap Hal Hr' Hfresh) as Hs5. cbv zeta in Hs5. set (m5 := ImageState _ _ _) in Hs5.
  assert (Hc3 : rchain (<[x' := rx]> (regs s3)) (rl_first (a_list al)) L).
  { apply (rchain_frame (regs (fs m))); [|done]. intros y Hy. rewrite Forall_forall in Hids. specialize (Hids y Hy). rewrite lookup_insert_ne by lia. apply (al_frame _ _ _ _ Hal). lia. }
  assert (Eob : get_oob_block fuel al' 0 (set_regs (<[x' := rx]> (regs s3)) s3) = Some (r_block r')).
  { unfold get_oob_block, list_block. cbn [al' a_oob single rl_iter rl_partial]. destruct fuel as [|n]; [lia|]. cbn [nth_block set_regs regs]. rewrite lookup_insert_eq. cbn [mbind option_bind].
    change (r_len rx) with (r_len r'). change (r_block rx) with (r_block r'). rewrite Hr'. change (u32 (0 + 0)) with 0. change (0 <? 1) with true. cbv iota. pose proof (go_max g Hg). pose proof (go_bpg g Hg). rewrite u32_small by lia. by rewrite Z.add_0_r. }
  rewrite Eob. cbn [mbind option_bind]. unfold numbers_block, calloc_buf, calloc. cbn [set_fs fs inodes bufs set_regs regs brk bgs fresh queued_ds q_data queue_block].
  assert (Eg : ∀ s, regs s = <[x' := rx]> (regs s3) -> get_block fuel al' 0 s = Some (gfirst g 0 + 1 + bg_desc_blocks g)).
  { intros s E. unfold get_block, list_block. cbn [al' a_list]. rewrite Hit, Hpt. subst L. cbn [rchain] in Hc3. destruct Hc3 as (-> & Er & _). destruct fuel as [|n]; [lia|]. cbn [nth_block]. rewrite E, Er. cbn [mbind option_bind].
    change (u32 (0 + 0)) with 0. apply Forall_cons in Hlens as [Hl1 _]. cbn in Hl1. rewrite Hl1, (proj2 (Z.ltb_lt 0 reserve)) by lia. pose proof (go_max g Hg). pose proof (go_bpg g Hg). pose proof (gfirst_range g Hg 0 ltac:(lia)).
    assert (E0 : ext4_bg_has_super_block g 0 = Some true) by (unfold ext4_bg_has_super_block; by destruct (sparse_super g)).
    pose proof (go_room g Hg 0 true ltac:(lia) E0). pose proof (go_counts g Hg). unfold gdata, gtable, gmaps in *. rewrite Z.add_0_r, u32_small by lia. by rewrite Eb. }
  rewrite Eg by done. cbn [mbind option_bind]. rewrite (u32_small (bs * reserve)) by nia. rewrite (al_queued _ _ _ _ Hal), (al_brk _ _ _ _ Hal).
  change (set_fs _ _) with m5. pose proof (stage_below _ _ _ _ Hs) as [Hb1 Hb2].
  destruct (resize_loop_ok (Z.to_nat reserve) 0 (brk (fs m)) (brk (fs m) + bs) (zlen L) al' m5 m5 L) as (m6 & -> & [(F6 & I6) _ _ B6]); try lia.
  { cbn [al' a_list]. rewrite Hit. exact Hc3. }
  { split; [done | exists (zeros bs) | exists (zeros (bs * reserve)) | done]; cbn.
    - rewrite lookup_insert_ne by lia. rewrite lookup_insert_eq. split; [done | by apply zlen_zeros; lia].
    - rewrite lookup_insert_eq. split; [done | by apply zlen_zeros; nia]. }
  cbn [mbind option_bind]. assert (Hs6 : stage (fun y => P y ∨ area y) (b + 1) k m6) by (apply (stage_bufs _ _ _ m5); try done; apply B6; lia).
  assert (Ha6 : inode_addr g (fs m6) EXT4_RESIZE_INO = Some q).
  { rewrite F6. destruct (tables_bgs g s3 (fs m5) eq_refl) as (_ & _ & ->). unfold inode_addr. by rewrite (allocated_tables g _ _ _ _ Hal). }
  unfold store_i_block. pose proof (inode_sized m6 q (io_sized g m6 (proj1 (stage_good _ _ _ _ Hs6)))) as Hib.
  rewrite store_ok by (rewrite ?bytes32_zlen, ?Hib; unfold EXT4_DIND_BLOCK; lia). cbn [mbind option_bind]. set (i1 := set_i_block _ _). set (i2 := set_sizes _ _ _ _ _ _).
  assert (Hi1 : zlen (i_block i1) = 60) by (unfold i1; cbn [i_block set_i_block]; rewrite overlay_len; rewrite ?bytes32_zlen, ?Hib; unfold EXT4_DIND_BLOCK; lia).
  assert (Hi2 : zlen (i_block i2) = 60) by (unfold i2, inode_at; cbn; by rewrite lookup_insert_eq).
  eexists al', _. split; [done|]. split; [|split; [exact Ha6|]].
  - apply (stage_put _ _ _ _ EXT4_RESIZE_INO); [apply (stage_put _ _ _ _ EXT4_RESIZE_INO); try done | ..]; try done; by left || (unfold EXT4_RESIZE_INO; lia).
  - change (fs (put_inode q i2 (put_inode q i1 m6))) with (fs m6). rewrite F6. unfold free_alloc. cbn [al' a_list a_oob single rl_first].
    destruct (free_list_ok fuel (fs m5) _ L Hc3 Hnd Hlf) as (s4 & -> & (G1 & G2 & G3 & G4) & G5). cbn [mbind option_bind].
    assert (Hx' : x' ∉ L.*1) by (intros Hin; rewrite Forall_forall in Hids; specialize (Hids _ Hin); lia).
    destruct (free_list_ok fuel s4 (Some x') [(x', rx)]) as (s5 & -> & (K1 & K2 & K3 & K4) & K5).
    + cbn. split; [done|]. split; [|done]. rewrite G5, decide_False by done. cbn. apply lookup_insert_eq.
    + apply NoDup_singleton.
    + cbn. lia.
    + exists s5. split; [done|]. split; [congruence|]. split; [congruence|]. split; [congruence|]. intros y Hy. rewrite K5. case_decide; [done|]. rewrite G5. case_decide; [done|]. apply Hfresh. rewrite K2, G2 in Hy. exact Hy.
Qed.
Lemma resize_ok P b k m : stage P b k m -> (∀ y, area y -> ¬ P y) ->
  (ext4_create_resize_inode a fuel m = None ∧ short (b + 1) k s1) ∨ ∃ m', ext4_create_resize_inode a fuel m = Some m' ∧ stage (fun y => P y ∨ area y) (b + 1) k m'.
Proof.
  intros Hs Hap. pose proof (go_groups g Hg). unfold ext4_create_resize_inode. cbn [ax_geom]. destruct (stage_inode P b k m EXT4_RESIZE_INO Hs ltac:(unfold EXT4_RESIZE_INO; lia)) as (s' & q & -> & Hs1 & _ & Ha & _). cbn [mbind option_bind].
  destruct (resize_regions_ok g Hg Hig sb desc s') as (al & s2 & L & E & Hgr & Hn & x & r & L1 & EL & Eb); [apply (io_fresh g _ (proj1 (stage_good _ _ _ _ Hs1)))|]. rewrite E. cbn [mbind option_bind].
  pose proof Hgr as [(A1 & A2 & A3) [A4 _] _ _ _ _ _]. change (set_fs s2 (set_fs s' m)) with (set_fs s2 m).
  assert (Hs2 : stage P b k (set_fs s2 m)).
  { destruct (aside_good g Hg (set_fs s' m) (set_fs s2 m)) as (Hm2 & Hf2 & Hc2); try done; [apply (stage_good _ _ _ _ Hs1) | cbn; lia|]. replace b with (b + 0) by lia. replace k with (k + 0) by lia.
    apply (stage_frame P b k 0 0 [] [] (set_fs s' m)); try done; [by intros ?%elem_of_nil | by intros ?%elem_of_nil | by left]. }
  assert (Ha2 : inode_addr g s2 EXT4_RESIZE_INO = Some q) by (destruct (tables_bgs g s' s2 A1) as (_ & _ & ->); done).
  destruct (attach_ok P b k s' (set_fs s2 m) al L x r L1 q) as [[-> Hsh]|(al' & m3 & -> & Hs3 & Ha3 & s4 & E4 & D1 & D2 & D3 & D4)]; try done; [by left | right]. cbn [mbind option_bind].
  set (i := set_mode _ _ _ _). change (fs (put_inode q i m3)) with (fs m3). rewrite E4. cbn [mbind option_bind]. eexists. split; [done|].
  assert (Hs5 : stage (fun y => P y ∨ area y) (b + 1) k (put_inode q i m3)).
  { apply (stage_put _ _ _ _ EXT4_RESIZE_INO); try done; [by left | apply (inode_sized m3 q), (io_sized g m3 (proj1 (stage_good _ _ _ _ Hs3)))]. }
  destruct (aside_good g Hg (put_inode q i m3) (set_fs s4 (put_inode q i m3))) as (Hm6 & Hf6 & Hc6); try done; [apply (stage_good _ _ _ _ Hs5) | cbn; lia|].
  replace (b + 1) with (b + 1 + 0) by lia. replace k with (k + 0) by lia. apply (stage_frame _ (b + 1) k 0 0 [] [] (put_inode q i m3)); try done; [by intros ?%elem_of_nil | by intros ?%elem_of_nil | by left].
Qed.
End Stage.
