(* ===== verification/MakeTrip.v ===== *)
(** * The image that is made is mounted

    The whole of [make_ext4fs_internal]: the counts of what is free and the super block
    after the walk, a reader that begins with the super block, as a kernel does, and the
    theorem that it finds the directory that was packed. *)
From stdpp Require Import base gmap list list_numbers.
From Stdlib Require Import ZArith Lia.
From S2P Require Import Prelude Crc SparseFormat Sha1 Backed OutFile OutFileSpec ImageTrip Alloc AllocBits AllocInv AllocSafe AllocInit AllocOob Extent ExtentSpec ExtentFile FileTrip ReadBack ImageOk Indirect Contents Dir MakeFs TreeRead TreeFrame TreeBuild TreeStart Tree MakeSuper MakeHeader MakeInodes MakeStage.
#[local] Open Scope Z_scope.

(** ** The reader *)
(** The descriptors have to name the places of the inode tables. *)
Definition desc_ok (g : geom) (img : list Z) : bool :=
  forallb (fun i => match ext4_bg_has_super_block g i with
    | Some sup => le32 (slice ((first_data_block g + 1) * blk_size g + bg_inode_table i) 4 img) =? gfirst g i + gtable g sup
    | None => false end) (seqZ 0 (groups g)).
Definition mount_image (depth : nat) (img : list Z) : option (perms * node) :=
  g ← sb_geom (slice 1024 1024 img);
  if desc_ok g img then read_node g depth img EXT4_ROOT_INO EXT4_FT_DIR EXT4_ROOT_INO else None.

Section Trip.
Context (g : geom) (Hg : geom_ok g) (Hig : 0 < inodes_per_group g <= 8 * blk_size g).
Context (sb desc : Z) (Hroom : 32 * groups g <= blk_size g * bg_desc_blocks g) (Hplace : sb <> desc) (ro : Z).
Notation bs := (blk_size g).
Notation ipg := (inodes_per_group g).
Notation a := (Aux g sb desc).

(** The super block and the descriptors say what the layout is, and [P] is used of the headers. *)
Definition ready (P : Z -> Prop) (m : image_state) : Prop := ∃ sbuf, heading g sb desc P (groups g) sbuf m ∧ says ro g sbuf.
(** Only the super block and the descriptors change. *)
Definition touched (m m' : image_state) : Prop := fs m' = fs m ∧ inodes m' = inodes m ∧ ∀ k, k <> sb -> k <> desc -> bufs m' !! k = bufs m !! k.
Lemma touched_trans m1 m2 m3 : touched m1 m2 -> touched m2 m3 -> touched m1 m3.
Proof. intros (A1 & A2 & A3) (B1 & B2 & B3). split; [congruence|]. split; [congruence|]. intros k H1 H2. by rewrite B3, A3. Qed.
Lemma ready_sb P m l : ready P m -> stores_fit l bs -> Forall (fun e => Forall (fun f => far f.1 (zlen f.2) e) (sb_fields ro g)) l ->
  ∃ m', edit sb l m = Some m' ∧ ready P m' ∧ touched m m'.
Proof.
  intros (sbuf & S1 & S1') Hfit Hfar. pose proof (blk_range g Hg). destruct (stores_ok l sbuf) as (buf & E & _ & _); [by rewrite (proj1 S1')|].
  destruct (edit_sb g sb desc Hplace _ _ _ _ _ _ S1 E) as [E2 Hh]. eexists. split; [done|]. split; [exists buf; split; [done|]; apply (says_stores ro g l sbuf); done || lia|].
  split; [done|]. split; [done|]. intros k H1 _. cbn. by apply lookup_insert_ne.
Qed.
Lemma ready_desc P m i l : ready P m -> 0 <= i < groups g -> Forall (fun e => 32 * i + 12 <= e.1 ∧ e.1 + zlen e.2 <= 32 * i + 32) l -> ∃ m', edit desc l m = Some m' ∧ ready P m' ∧ touched m m'.
Proof.
  intros (sbuf & [H1 H2 H3 (dbuf & H4 & H4' & H4'') H5 H6] & S1') Hi Hl. destruct (stores_ok l dbuf) as (buf & E & Hz & Hs); [rewrite H4'; eapply Forall_impl; [exact Hl|]; cbn; nia|].
  exists (put_buf desc buf m). split; [by apply (edit_ok desc l m dbuf)|]. destruct (put_buf_good g m desc buf H1) as [Hg' _]. split.
  - exists sbuf. split; [|done]. split; try done.
    + cbn. by rewrite lookup_insert_ne.
    + exists buf. split; [apply lookup_insert_eq|]. split; [congruence|]. intros j sup Hj Es. rewrite Hs; [by apply H4'' | lia | lia | nia |]. eapply Forall_impl; [exact Hl|]. intros e He. cbn beta in He. lia.
  - split; [done|]. split; [done|]. intros k _ H. cbn. by apply lookup_insert_ne.
Qed.

(** ** The counts of what is free *)
Lemma update_free_ok n i P m : ready P m -> 0 <= i -> i + Z.of_nat n <= groups g -> ∃ m', update_free_from a n i m = Some m' ∧ ready P m' ∧ touched m m'.
Proof.
  revert i m. induction n as [|n IH]; intros i m Hr Hi Hn; cbn [update_free_from]; [by exists m|]. pose proof (blk_range g Hg).
  destruct Hr as (sbuf & Hh & Hsay). pose proof Hh as [H1 H2 H3 (dbuf & H4 & _) H5 H6]. destruct (bg_at_is_Some g (fs m) i (io_groups _ _ (proj1 H1)) ltac:(lia)) as [bg Ebg].
  unfold get_free_blocks, get_free_inodes, get_directories. rewrite Ebg. cbn [mbind option_bind ax_sb ax_desc]. rewrite H3, H4. cbn [mbind option_bind].
  destruct (ready_desc P m i [(bg_free_blocks_count i, bytes16 (free_blocks bg))]) as (m1 & -> & R1 & T1); [by exists sbuf | lia | apply Forall_singleton; cbn [fst snd]; rewrite bytes16_zlen; unfold bg_free_blocks_count; lia |]. cbn [mbind option_bind].
  destruct (ready_sb P m1 [add32 s_free_blocks_count_lo (free_blocks bg) sbuf]) as (m2 & -> & R2 & T2); [done | apply Forall_singleton; cbn [add32 fst snd]; rewrite bytes32_zlen; unfold s_free_blocks_count_lo; lia | apply Forall_singleton, far_fields; cbn [add32 fst snd]; rewrite bytes32_zlen; unfold s_free_blocks_count_lo; lia |]. cbn [mbind option_bind].
  destruct (ready_desc P m2 i [(bg_free_inodes_count i, bytes16 (free_inodes bg))]) as (m3 & -> & R3 & T3); [done | lia | apply Forall_singleton; cbn [fst snd]; rewrite bytes16_zlen; unfold bg_free_inodes_count; lia |]. cbn [mbind option_bind].
  destruct (ready_sb P m3 [add32 s_free_inodes_count (free_inodes bg) sbuf]) as (m4 & -> & R4 & T4); [done | apply Forall_singleton; cbn [add32 fst snd]; rewrite bytes32_zlen; unfold s_free_inodes_count; lia | apply Forall_singleton, far_fields; cbn [add32 fst snd]; rewrite bytes32_zlen; unfold s_free_inodes_count; lia |]. cbn [mbind option_bind].
  destruct (ready_desc P m4 i [(bg_used_dirs_count i, bytes16 (le16 (slice (bg_used_dirs_count i) 2 dbuf) + used_dirs bg))]) as (m5 & -> & R5 & T5); [done | lia | apply Forall_singleton; cbn [fst snd]; rewrite bytes16_zlen; unfold bg_used_dirs_count; lia |]. cbn [mbind option_bind].
  destruct (IH (i + 1) m5 R5 ltac:(lia) ltac:(lia)) as (m6 & -> & R6 & T6). exists m6. split; [done|]. split; [done|]. by repeat (eapply touched_trans; [eassumption|]).
Qed.

(** ** The super block at the end *)
(** The image begins with a super block and descriptors that say what the layout is. *)
Definition headed (img : list Z) : Prop := (∃ sbuf, slice 1024 1024 img = slice 0 1024 sbuf ∧ says ro g sbuf) ∧ desc_ok g img = true.
Lemma desc_read P m load mmap64 img : ready P m -> loads load m -> in_place g load mmap64 img (queued_ds (fs m)) -> desc_ok g img = true.
Proof.
  intros (sbuf & [H1 H2 H3 (dbuf & H4 & H4' & H4'') H5 H6] & _) Hl [_ Hin]. pose proof (go_groups g Hg). pose proof (go_first g Hg). pose proof (blk_range g Hg).
  assert (E : slice (block (desc_block g desc) * bs) (len (desc_block g desc)) img = dbuf).
  { apply Hin; [by apply H6|]. cbn. rewrite <- (Z.add_0_r desc), (Hl desc dbuf 0 _ H4) by lia. f_equal. rewrite <- H4'. apply slice_all. }
  apply forallb_forall. intros i Hi. apply list_elem_of_In, elem_of_seqZ in Hi as [Hi1 Hi2]. destruct (has_super_ok g i Hi1) as (sup & Es & _). rewrite Es. pose proof (go_room g Hg i sup ltac:(lia) Es). pose proof (gfirst_range g Hg i ltac:(lia)). pose proof (go_counts g Hg). pose proof (go_max g Hg). pose proof (bpg_range g Hg).
  specialize (H4'' i sup ltac:(lia) Es). rewrite <- E in H4''. cbn [desc_block block len] in H4''. rewrite slice_slice in H4'' by (unfold gfirst; nia).
  replace (gfirst g 0) with (first_data_block g) in H4'' by (unfold gfirst; lia). unfold bg_inode_table. rewrite Z.add_assoc in H4'' |- *. rewrite H4''. apply Z.eqb_eq. rewrite <- (app_nil_r (bytes32 _)). apply le32_bytes32.
  unfold gdata, gtable, gmaps in *. destruct sup; lia.
Qed.
Lemma queue_sb_ok P m : ready P m -> first_data_block g = (if 1024 <? bs then 0 else 1) -> ¬ P (gfirst g 0) ->
  ∃ m' d, ext4_queue_sb a m = Some m' ∧ good g m' ∧ inodes m' = inodes m ∧ bgs (fs m') = bgs (fs m) ∧ queued_ds (fs m') = queued_ds (fs m) ++ [d] ∧
    (∀ k, k < brk (fs m) -> bufs m' !! k = bufs m !! k) ∧ ∀ load mmap64 img, loads load m' -> in_place g load mmap64 img (queued_ds (fs m')) -> headed img.
Proof.
  intros (sbuf & Hh & Hsay) Efirst Hp. pose proof Hh as [H1 [H2 H2'] H3 H4 H5 H6]. pose proof Hsay as [Hz _]. pose proof (blk_range g Hg). pose proof (go_groups g Hg). pose proof (go_counts g Hg).
  assert (E0 : ext4_bg_has_super_block g 0 = Some true) by (unfold ext4_bg_has_super_block; by destruct (sparse_super g)).
  assert (Hhdr : hdr g (gfirst g 0)) by (exists 0; split; [lia|]; split; [done|]; unfold gmaps; lia). assert (Eg0 : gfirst g 0 = first_data_block g) by (unfold gfirst; lia).
  unfold ext4_queue_sb, field. cbn [ax_sb ax_geom]. rewrite H3. cbn [mbind option_bind]. destruct (Z.ltb_spec 1024 bs) as [Hbs|Hbs]; cbn [mbind option_bind].
  - assert (Hz1 : zlen (slice 0 1024 sbuf) = 1024) by (rewrite slice_len; lia). assert (H2048 : 2048 <= bs) by (destruct (go_blk g Hg) as (e & He & Ee); assert (e = 10 ∨ e = 11 ∨ e = 12) as [->|[->| ->]] by lia; lia).
    unfold calloc_buf, calloc. set (p := brk (fs m)) in *. cbn [mbind option_bind].
    set (m1 := ImageState _ _ (<[p := zeros bs]> (bufs m))). set (buf := overlay 1024 (slice 0 1024 sbuf) (zeros bs)). assert (Hzz : zlen (zeros bs) = bs) by (apply zlen_zeros; lia).
    rewrite (edit_ok p _ m1 (zeros bs) buf); [| apply lookup_insert_eq | cbn [stores]; rewrite store_ok by lia; done]. cbn [mbind option_bind].
    set (d := DataBlock 0 bs p None 0 0 false None). set (m' := set_fs _ _).
    assert (Hocc : ∀ b, occupies g d b -> hdr g b ∧ ¬ P b) by (intros b Hb; unfold occupies in Hb; rewrite (nblocks_mul g Hg _ 1) in Hb by (cbn; lia); cbn in Hb; assert (b = gfirst g 0) as -> by lia; done).
    assert (Hh' : heading g sb desc (fun b => P b ∨ occupies g d b) (groups g) sbuf m').
    { apply (heading_queue g Hg Hig sb desc Hplace P (groups g) sbuf m m' d); try done; [cbn; lia | cbn; by rewrite !lookup_insert_ne by lia | cbn; by rewrite !lookup_insert_ne by lia | cbn; lia]. }
    exists m', d. split; [done|]. split; [by destruct Hh'|]. do 3 (split; [done|]). split; [intros k Hk; cbn; by rewrite !lookup_insert_ne by lia|].
    intros load mmap64 img Hl Hin. split; [|by apply (desc_read (fun b => P b ∨ occupies g d b) m' load mmap64 img); [exists sbuf | |]]. exists sbuf. split; [|done].
    assert (E : slice (block d * bs) (len d) img = buf).
    { destruct Hin as [_ Hin]. apply Hin; [cbn; apply elem_of_app; right; by left|]. assert (Hb : bufs m' !! p = Some buf) by (cbn; apply lookup_insert_eq). assert (Hbz : zlen buf = bs) by (unfold buf; rewrite overlay_len; lia).
      cbn. rewrite <- (Z.add_0_r p), (Hl p buf 0 _ Hb) by lia. f_equal. rewrite <- Hbz. apply slice_all. }
    cbn [d block len] in E. replace (slice 1024 1024 img) with (slice 1024 1024 (slice (0 * bs) bs img)) by (by rewrite slice_slice by lia). rewrite E. unfold buf. pose proof (slice_overlay_same 1024 (slice 0 1024 sbuf) (zeros bs)) as K. rewrite Hz1 in K. apply K; lia.
  - assert (Ebs : bs = 1024) by lia. set (d := DataBlock 1 1024 sb None 0 0 false None). set (m' := set_fs _ _).
    assert (Hocc : ∀ b, occupies g d b -> hdr g b ∧ ¬ P b) by (intros b Hb; unfold occupies in Hb; rewrite (nblocks_mul g Hg _ 1) in Hb by (cbn; lia); cbn in Hb; assert (b = gfirst g 0) as -> by lia; done).
    assert (Hh' : heading g sb desc (fun b => P b ∨ occupies g d b) (groups g) sbuf m') by (apply (heading_queue g Hg Hig sb desc Hplace P (groups g) sbuf m m' d); done || (cbn; lia)).
    exists m', d. split; [done|]. split; [by destruct Hh'|]. do 4 (split; [done|]).
    intros load mmap64 img Hl Hin. split; [|by apply (desc_read (fun b => P b ∨ occupies g d b) m' load mmap64 img); [exists sbuf | |]]. exists sbuf. split; [|done].
    destruct Hin as [_ Hin]. specialize (Hin d (slice 0 1024 sbuf)). cbn [d block len] in Hin. rewrite Ebs in Hin. apply Hin; [cbn; apply elem_of_app; right; by left|]. cbn. rewrite <- (Z.add_0_r sb). apply Hl; [exact H3 | lia..].
Qed.
Lemma headed_mount depth img : sb_ok ro g -> headed img -> mount_image depth img = read_node g depth img EXT4_ROOT_INO EXT4_FT_DIR EXT4_ROOT_INO.
Proof. intros Hok [(sbuf & E & Hs) Hd]. unfold mount_image. rewrite E, (says_geom ro g sbuf Hok Hs). cbn [mbind option_bind]. by rewrite Hd. Qed.
End Trip.

(** ** The conditions *)
(** What the program needs of the parameters to be correct, beyond the layout. *)
Record make_ok (g : geom) (fuel : nat) (i : make_info) (mountpoint : option (list Z)) : Prop := MakeOk {
  mo_layout : layout_ok g fuel;
  mo_super : sb_ok (mi_feat_ro_compat i) g;
  mo_first : first_data_block g = if 1024 <? blk_size g then 0 else 1;
  mo_inodes : 10 <= inodes_per_group g;
  mo_reserve : 0 < bg_desc_reserve_blocks g ∧ 4 * bg_desc_reserve_blocks g <= blk_size g;
  mo_journal : Z.land (mi_feat_compat i) EXT4_FEATURE_COMPAT_HAS_JOURNAL <> 0 -> 0 < mi_journal_blocks i ∧ mi_journal_blocks i * blk_size g < 2 ^ 32;
  mo_label : bytes (mi_label i) ∧ zlen (mi_label i) < 2 ^ 29;
  mo_mount : match mountpoint with Some s => zlen s <= 62 | None => True end
}.
Lemma desc_room g : geom_ok g -> bg_desc_blocks g = (groups g * 32 + blk_size g - 1) / blk_size g -> 32 * groups g <= blk_size g * bg_desc_blocks g.
Proof. intros Hg ->. pose proof (blk_range g Hg). pose proof (Z.div_mod (groups g * 32 + blk_size g - 1) (blk_size g) ltac:(lia)). pose proof (Z.mod_pos_bound (groups g * 32 + blk_size g - 1) (blk_size g) ltac:(lia)). lia. Qed.

(** ** The start *)
Definition empty_image (base : Z) : image_state := ImageState (Fsys [] ∅ 0 [] base) ∅ ∅.
Lemma begin_ok g fuel i mountpoint base : make_ok g fuel i mountpoint ->
  let sb := base in let desc := base + blk_size g in let a := Aux g sb desc in let m0 := (create_aux g (empty_image base)).2 in
  ∃ s1 m1 m2 s2, block_allocator_init g (fs m0) = Some s1 ∧ ext4_fill_in_sb a i (set_fs s1 m0) = Some m1 ∧ MTK_add_mountpoint a mountpoint m1 = Some m2 ∧
    reserve_inodes 0 10 (fs m2) = Some (1, s2) ∧ stage g sb desc (mi_feat_ro_compat i) s1 (used g (groups g)) 0 10 (set_fs s2 m2).
Proof.
  intros [[Hg Hig Hcount Hsize Hcap Hfuel] Hsb Hfirst H10 Hres _ (Hl1 & Hl2) Hmnt] sb desc a m0. pose proof (blk_range g Hg). pose proof (go_counts g Hg). pose proof (desc_room g Hg (so_desc _ _ Hsb)) as Hroom.
  assert (Hplace : sb <> desc) by (unfold sb, desc; lia). destruct (block_allocator_init_ok g Hg (fs m0) eq_refl) as (l & E & _). rewrite E. set (s1 := Fsys _ _ _ _ _) in *.
  destruct (init_good g Hg Hig (fs m0) s1 (bufs m0) eq_refl eq_refl eq_refl E) as (_ & _ & bg & Ebg & Hff & Hfi).
  assert (Hh : heading g sb desc (used g 0) 0 (zeros (blk_size g)) (set_fs s1 m0)).
  { apply (init_heading g Hg Hig sb desc Hplace (fs m0) s1 (bufs m0) _ (zeros (blk_size g * bg_desc_blocks g))); try done; cbn.
    - unfold sb. nia.
    - unfold desc. nia.
    - rewrite lookup_insert_ne by (unfold sb; lia). apply lookup_insert_eq.
    - apply lookup_insert_eq.
    - apply zlen_zeros. nia. }
  destruct (fill_in_sb_ok g Hg Hig sb desc Hroom Hplace i _ _ Hl1 Hl2 Hh) as (m1 & sbuf & E1 & Hh1 & Hsay & Eb1 & Ei1); [apply zlen_zeros; lia|].
  assert (Hr2 : ∃ m2, MTK_add_mountpoint a mountpoint m1 = Some m2 ∧ ready g sb desc (mi_feat_ro_compat i) (used g (groups g)) m2 ∧ touched sb desc m1 m2).
  { unfold MTK_add_mountpoint. destruct mountpoint as [s|]; [|exists m1; split; [done|]; split; [by exists sbuf | done]]. pose proof (zlen_nonneg s).
    assert (Hz : zlen ([47] ++ s ++ [0]) = zlen s + 2) by (rewrite !zlen_app; unfold zlen; cbn; lia).
    apply (ready_sb g Hg sb desc Hplace); [by exists sbuf | apply Forall_singleton; cbn [fst snd]; rewrite Hz; unfold s_last_mounted; lia | apply Forall_singleton, far_fields; cbn [fst snd]; rewrite Hz; unfold s_last_mounted; lia]. }
  destruct Hr2 as (m2 & E2 & (sbuf2 & Hh2 & Hsay2) & Ef2 & Ei2 & _).
  assert (Ebg2 : bg_at (fs m2) 0 = Some bg) by (rewrite Ef2; unfold bg_at in *; by rewrite Eb1).
  destruct (reserve_ten g Hg Hig m2 bg (hg_good _ _ _ _ _ _ _ Hh2) H10 Ebg2 Hff Hfi) as (s2 & E3 & Hm3 & Hf3 & Hc3 & Htk & _).
  exists s1, m1, m2, s2. do 4 (split; [done|]). split.
  - exists sbuf2. split; [|done]. apply (heading_frame g Hg fuel sb desc Hplace _ _ _ [] [] m2); try done; by intros ?%elem_of_nil.
  - exact Htk.
  - intros q [j Hq]. cbn in Hq. rewrite Ei2, Ei1 in Hq. cbn in Hq. by rewrite lookup_empty in Hq.
  - apply (costs_trans 0 0 0 10 _ (fs m2)); [|exact Hc3]. rewrite Ef2. split.
    + intros j b Ej. exists b. split; [unfold bg_at in *; by rewrite Eb1 | lia].
    + unfold inodes_left. rewrite Eb1. cbn. lia.
Qed.

(** ** The walk and the end *)
Lemma stage_unused g sb desc ro s1 P b k m : geom_ok g -> 0 < inodes_per_group g <= 8 * blk_size g -> 10 <= inodes_per_group g ->
  128 <= inode_size g ∧ inodes_per_group g * inode_size g <= inode_table_blocks g * blk_size g -> stage g sb desc ro s1 P b k m -> unused g m EXT4_ROOT_INO.
Proof.
  intros Hg Hig H10 Hsize Hs q Ha. pose proof (go_groups g Hg). apply eq_None_not_Some. intros Hq. destruct (sg_inodes _ _ _ _ _ _ _ _ _ Hs q Hq) as (n & Hn & Ha').
  assert (EXT4_ROOT_INO = n) as En; [|unfold EXT4_ROOT_INO, EXT4_RESIZE_INO, EXT4_JOURNAL_INO in *; lia].
  apply (inode_addr_inj g Hig Hsize m _ _ q); try done; [apply (stage_good _ _ _ _ _ _ _ _ _ Hs) | ..]; unfold EXT4_ROOT_INO, EXT4_RESIZE_INO, EXT4_JOURNAL_INO in *; nia.
Qed.
(** From the walk to the super block. *)
Definition finish (a : aux) (fuel : nat) (es : list (list Z * perms * host_node)) (m : image_state) : option image_state :=
  '(root, m) ← build_directory_structure a fuel es 0 m;
  m ← inode_set_permissions (ax_geom a) root root_mode 0 0 0 m;
  m ← ext4_update_free a m;
  s ← Some (fs m);
  ext4_queue_sb a (set_fs s m).
Lemma finish_image_ok g fuel i mountpoint contents es sb desc s1 P b k m : make_ok g fuel i mountpoint -> sb <> desc -> packable g contents (HDir es) ->
  stage g sb desc (mi_feat_ro_compat i) s1 P b k m -> ¬ P (gfirst g 0) ->
  (finish (Aux g sb desc) fuel es m = None ∧ short (b + tree_blocks g (HDir es)) (k + tree_inodes (HDir es)) s1) ∨
  ∃ m', finish (Aux g sb desc) fuel es m = Some m' ∧ good g m' ∧
    ∀ load mmap64 img depth, viewed g contents load mmap64 img m' -> (height (HDir es) <= depth)%nat -> mount_image depth img = Some (Perms root_mode 0 0 0, node_of contents (HDir es)).
Proof.
  intros [Hlay Hsb Hfirst H10 _ _ _ _] Hplace Hpk Hs HP. pose proof Hlay as [Hg Hig Hcount Hsize _ _]. pose proof (desc_room g Hg (so_desc _ _ Hsb)) as Hroom. pose proof (stage_below _ _ _ _ _ _ _ _ _ Hs) as [Hb1 Hb2]. pose proof (go_groups g Hg).
  unfold finish. destruct (tree_ok g sb desc fuel contents es m Hlay (stage_good _ _ _ _ _ _ _ _ _ Hs) (sg_taken _ _ _ _ _ _ _ _ _ Hs 2 ltac:(lia)) (stage_unused _ _ _ _ _ _ _ _ _ Hg Hig H10 Hsize Hs) Hpk)
    as [[-> Hsh]|(m1 & m2 & -> & E2 & Hm2 & Hf2 & Hread)].
  { left. split; [done|]. rewrite (Z.add_comm b), (Z.add_comm k). by apply (costs_short b k _ _ s1 (fs m)); [apply Hs|]. }
  right. cbn [mbind option_bind ax_geom]. rewrite E2. cbn [mbind option_bind].
  assert (Hr2 : ready g sb desc (mi_feat_ro_compat i) P m2).
  { destruct (sg_head _ _ _ _ _ _ _ _ _ Hs) as (sbuf & Hh & Hsay). exists sbuf. split; [|done]. apply (heading_frame g Hg fuel sb desc Hplace _ _ _ [] [] m m2); try done; by intros ?%elem_of_nil. }
  unfold ext4_update_free. cbn [ax_geom]. destruct (update_free_ok g Hg Hig sb desc Hroom Hplace _ (Z.to_nat (groups g)) 0 P m2 Hr2 ltac:(lia) ltac:(lia)) as (m3 & -> & Hr3 & Ef3 & Ei3 & Eb3). cbn [mbind option_bind]. assert (set_fs (fs m3) m3 = m3) as -> by (by destruct m3).
  destruct (queue_sb_ok g Hg Hig sb desc Hroom Hplace _ P m3 Hr3 Hfirst HP) as (m4 & d & E4 & Hm4 & Ei4 & Eg4 & Eq4 & Eb4 & Hhead). exists m4. split; [done|]. split; [done|].
  intros load mmap64 img depth Hv Hdepth. rewrite (headed_mount g _ depth img Hsb) by (apply (Hhead load mmap64); apply Hv).
  apply (Hread load mmap64 img m4 depth); [|done..]. pose proof (fr_brk _ _ _ _ _ Hf2). split.
  - exists [d]. by rewrite Eq4, Ef3.
  - intros j p. destruct (tables_bgs g (fs m3) (fs m4) Eg4) as (-> & _). by rewrite Ef3.
  - intros q j _ E _. by rewrite Ei4, Ei3.
  - intros x Hx. rewrite Eb4 by (rewrite Ef3; lia). apply Eb3; lia.
Qed.

(** ** The whole *)
Definition journal_flag (i : make_info) : bool := negb (Z.land (mi_feat_compat i) EXT4_FEATURE_COMPAT_HAS_JOURNAL =? 0).
Definition resize_flag (i : make_info) : bool := negb (Z.land (mi_feat_compat i) EXT4_FEATURE_COMPAT_RESIZE_INODE =? 0).
(** The blocks that are asked for, besides those of the headers. *)
Definition asked (g : geom) (i : make_info) (es : list (list Z * perms * host_node)) : Z :=
  (if journal_flag i then mi_journal_blocks i + 1 else 0) + (if resize_flag i then 1 else 0) + tree_blocks g (HDir es).
(** There are too few inodes, or no group is as large as all that is asked for. *)
Definition too_small (g : geom) (b n : Z) : Prop :=
  groups g * inodes_per_group g < n ∨ ∀ j sup, 0 <= j < groups g -> ext4_bg_has_super_block g j = Some sup -> gsize g j - gdata g sup < b.
Lemma init_short g s0 s1 b n : geom_ok g -> bgs s0 = [] -> block_allocator_init g s0 = Some s1 -> short b n s1 -> too_small g b n.
Proof.
  intros Hg Hb E Hs. destruct (block_allocator_init_ok g Hg s0 Hb) as (l & E' & Hl & Hgs). rewrite E in E'. injection E' as ->. destruct Hs as [Hs|Hs]; [left | right].
  - unfold inodes_left in Hs. cbn [bgs] in Hs. assert (Hsum : foldr Z.add 0 (free_inodes <$> l) = zlen l * inodes_per_group g); [|rewrite Hsum, Hl in Hs; exact Hs].
    assert (Hall : Forall (fun bg => free_inodes bg = inodes_per_group g) l).
    { apply Forall_lookup. intros j bg Ej. by destruct (Hgs j bg Ej) as (sup & _ & _ & _ & _ & _ & _ & Hi & _). }
    clear -Hall. induction Hall as [|bg l H1 _ IH]; [done|]. cbn. rewrite H1, IH. unfold zlen. cbn [length]. lia.
  - intros j sup Hj Es. destruct (lookup_lt_is_Some_2 l (Z.to_nat j)) as [bg Ej]; [unfold zlen in Hl; lia|]. destruct (Hgs _ _ Ej) as (sup' & Hok & Hsup & _ & Hfree & _).
    rewrite Z2Nat.id in Hok, Hfree by lia. pose proof (b_super _ _ _ Hok) as Es'. assert (sup = sup') as -> by congruence.
    rewrite <- Hfree. apply (Hs j bg). unfold bg_at. rewrite (proj2 (Z.ltb_ge _ _)) by lia. exact Ej.
Qed.
Lemma header_free g : geom_ok g -> ¬ used g (groups g) (gfirst g 0) ∧ (∀ y, area g y -> ¬ used g (groups g) y) ∧ ¬ area g (gfirst g 0).
Proof.
  intros Hg. pose proof (go_groups g Hg). pose proof (go_counts g Hg). pose proof (bpg_range g Hg). assert (E0 : ext4_bg_has_super_block g 0 = Some true) by (unfold ext4_bg_has_super_block; by destruct (sparse_super g)).
  pose proof (go_room g Hg 0 true ltac:(lia) E0) as Hr. pose proof (gfirst_range g Hg 0 ltac:(lia)). unfold gdata, gtable, gmaps in Hr. split; [|split].
  - intros Hu. destruct (used_group g Hg _ _ 0 Hu) as [_ Hu1]; lia.
  - intros y Hy Hu. unfold area, gmaps in Hy. cbv iota in Hy, Hr. destruct (used_group g Hg _ _ 0 Hu) as [_ Hu1]; lia.
  - unfold area. lia.
Qed.
Lemma make_image_ok g fuel i mountpoint contents es base : make_ok g fuel i mountpoint -> packable g contents (HDir es) ->
  let '(a, m0) := create_aux g (empty_image base) in
  (make_image a fuel i mountpoint (Some es) false m0 = None ∧ too_small g (asked g i es) (10 + tree_inodes (HDir es))) ∨
  ∃ m', make_image a fuel i mountpoint (Some es) false m0 = Some m' ∧ good g m' ∧
    ∀ load mmap64 img depth, viewed g contents load mmap64 img m' -> (height (HDir es) <= depth)%nat -> mount_image depth img = Some (Perms root_mode 0 0 0, node_of contents (HDir es)).
Proof.
  intros Hok Hpk. pose proof Hok as [[Hg Hig Hcount Hsize Hcap Hfuel] Hsb _ H10 Hres Hjb _ _]. pose proof (blk_range g Hg). pose proof (desc_room g Hg (so_desc _ _ Hsb)) as Hroom.
  destruct (header_free g Hg) as (Hf1 & Hf2 & Hf3). destruct (begin_ok g fuel i mountpoint base Hok) as (s1 & m1 & m2 & s2 & E1 & E2 & E3 & E4 & Hs).
  change (create_aux g (empty_image base)) with (Aux g base (base + blk_size g), (create_aux g (empty_image base)).2). cbv iota beta. set (a := Aux _ _ _) in *. set (m0 := (create_aux g (empty_image base)).2) in *.
  assert (Hplace : base <> base + blk_size g) by lia. unfold make_image. change (ax_geom a) with g. rewrite E1. cbn [mbind option_bind]. rewrite E2. cbn [mbind option_bind]. rewrite E3. cbn [mbind option_bind]. rewrite E4. cbn [mbind option_bind].
  change (1 =? EXT4_ALLOCATE_FAILED) with false. cbv iota. set (m3 := set_fs s2 m2) in *. fold (journal_flag i) (resize_flag i).
  assert (Hj : (∃ m4, (if journal_flag i then ext4_create_journal_inode a fuel (mi_journal_blocks i) m3 else Some m3) = Some m4 ∧
      stage g base (base + blk_size g) (mi_feat_ro_compat i) s1 (used g (groups g)) (0 + if journal_flag i then mi_journal_blocks i + 1 else 0) 10 m4) ∨
    (if journal_flag i then ext4_create_journal_inode a fuel (mi_journal_blocks i) m3 else Some m3) = None ∧ short (0 + if journal_flag i then mi_journal_blocks i + 1 else 0) 10 s1).
  { destruct (journal_flag i) eqn:Ej; [|left; by exists m3]. destruct (Hjb ltac:(unfold journal_flag in Ej; by apply negb_true_iff, Z.eqb_neq in Ej)) as [Hj1 Hj2].
    destruct (journal_ok g Hg Hig ltac:(lia) Hsize fuel Hfuel Hcap H10 base _ Hplace _ s1 _ 0 10 m3 _ Hs Hj1 Hj2) as [[E Hsh]|(m4 & E & Hs4)]; [right; by split | left; by exists m4]. }
  destruct (tree_needs g Hg fuel (HDir es)) as [Ht1 Ht2]. assert (Hasked : ∀ b n, short b n s1 -> b <= asked g i es -> n <= 10 + tree_inodes (HDir es) -> too_small g (asked g i es) (10 + tree_inodes (HDir es))).
  { intros b n Hsh Hb Hn. apply (init_short g (fs m0) s1); [done | done | done | by apply (short_le b n)]. }
  destruct Hj as [(m4 & -> & Hs4)|[-> Hsh]]; cbn [mbind option_bind]; [|left; split; [done|]; apply (Hasked _ _ Hsh); unfold asked; destruct (resize_flag i); lia].
  assert (Hr : (∃ P m5, (if resize_flag i then ext4_create_resize_inode a fuel m4 else Some m4) = Some m5 ∧
      stage g base (base + blk_size g) (mi_feat_ro_compat i) s1 P (0 + (if journal_flag i then mi_journal_blocks i + 1 else 0) + if resize_flag i then 1 else 0) 10 m5 ∧ ¬ P (gfirst g 0)) ∨
    (if resize_flag i then ext4_create_resize_inode a fuel m4 else Some m4) = None ∧ short (0 + (if journal_flag i then mi_journal_blocks i + 1 else 0) + if resize_flag i then 1 else 0) 10 s1).
  { destruct (resize_flag i) eqn:Er; [|left; exists (used g (groups g)), m4; rewrite Z.add_0_r; done].
    destruct (resize_ok g Hg Hig ltac:(lia) Hsize fuel Hfuel Hcap H10 base _ Hroom Hplace _ s1 Hres _ _ _ m4 Hs4 Hf2) as [[E Hsh]|(m5 & E & Hs5)]; [right; by split | left; eexists _, m5; split; [exact E|]; split; [exact Hs5 | tauto]]. }
  destruct Hr as [(P & m5 & -> & Hs5 & HP)|[-> Hsh]]; cbn [mbind option_bind]; [|left; split; [done|]; apply (Hasked _ _ Hsh); unfold asked; lia].
  destruct (finish_image_ok g fuel i mountpoint contents es base _ s1 P _ 10 m5 Hok Hplace Hpk Hs5 HP) as [[E Hsh]|(m6 & E & Hm6 & Hread)].
  - left. split; [exact E|]. apply (Hasked _ _ Hsh); unfold asked; lia.
  - right. exists m6. split; [exact E|]. by split.
Qed.

(** ** Without a directory *)
(** What is made when no directory is given is what is made of one with "lost+found". *)
Definition lost_found : list (list Z * perms * host_node) := [([108; 111; 115; 116; 43; 102; 111; 117; 110; 100], Perms S_IRWXU 0 0 0, HDir [])].
Definition packed (directory : option (list (list Z * perms * host_node))) : list (list Z * perms * host_node) := default lost_found directory.
Lemma add_dentries_length g ds p len data offset prev data' offset' prev' ds' : add_dentries g ds p len data offset prev = Some (data', offset', prev', ds') -> length ds' = length ds.
Proof.
  revert data offset prev ds'. induction ds as [|d ds IH]; intros data offset prev ds'; cbn [add_dentries]; [by intros [= <- <- <- <-]|].
  destruct (add_dentry _ _ _ _ _ _ _) as [[[d1 o1] t1]|]; [|done]. cbn [mbind option_bind]. case_match; [done|]. destruct (add_dentries g ds p len d1 o1 t1) as [[[[d2 o2] p2] ds2]|] eqn:E; [|done].
  cbn [mbind option_bind]. intros [= -> -> -> <-]. cbn [length]. f_equal. by apply (IH d1 o1 t1 ds2).
Qed.
Lemma make_directory_length g fuel parent ds dirs m n ds' m' : make_directory g fuel parent ds dirs m = Some (n, ds', m') -> length ds' = length ds.
Proof.
  unfold make_directory, fill_directory. intros E.
  destruct (if negb (parent =? 0) then _ else _) as [[[k par] s1]|]; [|done]. cbn [mbind option_bind] in E. case_match; [done|]. destruct (add_directory g k s1) as [s2|]; [|done]. cbn [mbind option_bind] in E.
  destruct (get_inode g k s2) as [[p s3]|]; [|done]. cbn [mbind option_bind] in E. destruct (inode_allocate_data_extents _ _ _ _ _ _) as [[data m1]|]; [|done]. cbn [mbind option_bind] in E.
  destruct data as [q|]; [|done]. cbn [mbind option_bind] in E. destruct (bufs _ !! q) as [buf|]; [|done]. cbn [mbind option_bind] in E. destruct (add_dentry _ buf _ _ _ _ _) as [[[b1 o1] p1]|]; [|done]. cbn [mbind option_bind] in E.
  destruct (add_dentry _ b1 _ _ _ _ _) as [[[b2 o2] p2]|]; [|done]. cbn [mbind option_bind] in E. destruct (add_dentries _ _ _ _ _ _ _) as [[[[b3 o3] p3] ds3]|] eqn:Ed; [|done]. cbn [mbind option_bind] in E.
  destruct (end_dentry _ _ _ _ _) as [b4|]; [|done]. cbn [mbind option_bind] in E. injection E as _ <- _. by apply add_dentries_length in Ed.
Qed.
Lemma default_directory a fuel m : build_default_directory_structure a fuel m = build_directory_structure a fuel lost_found 0 m.
Proof.
  unfold build_default_directory_structure, build_directory_structure, lost_found. cbn [build fmap list_fmap]. change (count_dirs [_]) with 1.
  change (dentry_of (_, _, _)) with (Dentry [108; 111; 115; 116; 43; 102; 111; 117; 110; 100] EXT4_FT_DIR None).
  destruct (make_directory _ _ _ _ _ m) as [[[root ds] m1]|] eqn:E; cbn [mbind option_bind]; [|done]. apply make_directory_length in E. destruct ds as [|d [|]]; [done | | done].
  change (count_dirs []) with 0. destruct (make_directory _ _ root [] 0 m1) as [[[n ds'] m2]|]; cbn [mbind option_bind head]; [|done].
  destruct (set_entry_inode d n m2) as [m3|]; cbn [mbind option_bind p_mode p_uid p_gid p_mtime]; [|done]. by destruct (inode_set_permissions _ _ _ _ _ _ m3).
Qed.
Lemma make_image_packed a fuel i mountpoint directory init_itabs m : make_image a fuel i mountpoint directory init_itabs m = make_image a fuel i mountpoint (Some (packed directory)) init_itabs m.
Proof.
  destruct directory as [es|]; [done|]. unfold make_image, packed. cbn [default].
  apply option_bind_ext_fun. intros s1. apply option_bind_ext_fun. intros m1. apply option_bind_ext_fun. intros m2. apply option_bind_ext_fun. intros [ret s2]. case_match; [done|].
  apply option_bind_ext_fun. intros m3. apply option_bind_ext_fun. intros m4. by rewrite default_directory.
Qed.
