(* ===== verification/Defaults.v ===== *)
(** * The layout that is chosen when no parameters are given

    The arithmetic of [compute_block_size] to [compute_bg_desc_reserve_blocks] and of
    [ext4_create_fs_aux_info] on the length of the image alone. *)
From stdpp Require Import base gmap list.
From Stdlib Require Import ZArith Lia.
From S2P Require Import Prelude Crc SparseFormat Sha1 Backed Alloc AllocInv AllocInit Indirect MakeFs TreeFrame Tree MakeSuper MakeTrip.
#[local] Open Scope Z_scope.

Lemma div_up_ok x y : 0 < y -> 0 < x -> x + y < 2 ^ 32 -> div_up x y = Some ((x + y - 1) / y).
Proof. intros Hy Hx Hmax. unfold div_up. rewrite (proj2 (Z.eqb_neq y 0)) by lia. rewrite (u32_small (x + y)) by lia. by rewrite u32_small by lia. Qed.
Lemma ceil_bounds x y : 0 < y -> y * ((x + y - 1) / y) - y < x <= y * ((x + y - 1) / y).
Proof. intros Hy. pose proof (Z.div_mod (x + y - 1) y ltac:(lia)). pose proof (Z.mod_pos_bound (x + y - 1) y Hy). lia. Qed.

Section Defaults.
(** The image has [n] blocks; the last group is not nearly filled by its own header. *)
Context (n : Z) (Hn : 64 <= n <= 339 * 32768) (Hlast : n < 32768 ∨ n mod 32768 = 0 ∨ 1600 <= n mod 32768).
Definition d_groups : Z := (n + 32768 - 1) / 32768.
(** Blocks of the inode table of a group. *)
Definition d_table : Z := ((n / 4 + d_groups - 1) / d_groups + 16 - 1) / 16.
Definition d_desc : Z := (d_groups * 32 + 4096 - 1) / 4096.
Definition d_reserve : Z := if 1024 <? 8 * d_groups - d_desc then 1024 else 8 * d_groups - d_desc.
Definition default_geom : geom := Geom 4096 32768 (16 * d_table) 256 d_reserve true 0 n d_table d_groups d_desc.

Lemma d_bounds : 1 <= d_groups <= 339 ∧ (d_groups - 1) * 32768 < n <= d_groups * 32768 ∧ 1 <= d_table <= 512 ∧ 64 * d_table <= n / d_groups + 64 + 64 ∧
  1 <= d_desc <= 3 ∧ (d_groups <= 128 -> d_desc = 1) ∧ 1 <= d_reserve <= 1024 ∧ d_reserve <= 8 * d_groups - d_desc.
Proof.
  pose proof (ceil_bounds n 32768 ltac:(lia)) as H1. fold d_groups in H1. assert (Hg : 1 <= d_groups <= 339) by lia.
  pose proof (ceil_bounds (n / 4) d_groups ltac:(lia)) as H2. set (k := (n / 4 + d_groups - 1) / d_groups) in *.
  pose proof (Z.div_mod n 4 ltac:(lia)). pose proof (Z.mod_pos_bound n 4 ltac:(lia)). assert (Hk : 1 <= k <= 8192) by nia.
  pose proof (ceil_bounds k 16 ltac:(lia)) as H3. change ((k + 16 - 1) / 16) with d_table in H3.
  pose proof (ceil_bounds (d_groups * 32) 4096 ltac:(lia)) as H4. change ((d_groups * 32 + 4096 - 1) / 4096) with d_desc in H4.
  split; [done|]. split; [lia|]. split; [lia|]. split.
  { assert (4 * k <= n / d_groups + 4 + 4); [|lia]. assert (4 * k - 4 - 4 < n / d_groups + 1); [|lia].  pose proof (Z.div_mod n d_groups ltac:(lia)). pose proof (Z.mod_pos_bound n d_groups ltac:(lia)). nia. }
  split; [lia|]. split; [lia|]. unfold d_reserve. destruct (Z.ltb_spec 1024 (8 * d_groups - d_desc)); lia.
Qed.
Lemma default_room sup : gdata default_geom sup + 2 <= Z.min 32768 n ∧ gdata default_geom sup <= 1542.
Proof.
  destruct d_bounds as (H1 & H2 & H3 & H4 & H5 & H6 & H7 & H8). unfold gdata, gtable, gmaps, default_geom; cbn [bg_desc_blocks bg_desc_reserve_blocks inode_table_blocks]. split; [|destruct sup; lia].
  assert (Hs : d_groups = 1 ∨ 2 <= d_groups) by lia. destruct Hs as [Hs|Hs]; [|destruct sup; lia]. rewrite Hs in *. rewrite Z.div_1_r in H4. rewrite H6 in * by lia. destruct sup; lia.
Qed.
Lemma last_group : n - (d_groups - 1) * 32768 = n ∧ d_groups = 1 ∨ 1600 <= n - (d_groups - 1) * 32768 <= 32768.
Proof.
  destruct d_bounds as (H1 & H2 & _). pose proof (Z.div_mod n 32768 ltac:(lia)). pose proof (Z.mod_pos_bound n 32768 ltac:(lia)).
  destruct Hlast as [Hl|[Hl|Hl]]; [left; lia | right; lia | right; lia].
Qed.
Lemma default_geom_ok : geom_ok default_geom.
Proof.
  destruct d_bounds as (H1 & H2 & H3 & H4 & H5 & H6 & H7 & H8). split; unfold gfirst; cbn [default_geom blk_size blocks_per_group first_data_block groups len_blocks inode_table_blocks bg_desc_blocks bg_desc_reserve_blocks]; try lia.
  - by exists 12.
  - intros i sup Hi _. destruct (default_room sup) as [R1 R2]. unfold gsize, gfirst. cbn [default_geom blocks_per_group len_blocks first_data_block] in *. cbn [default_geom groups] in Hi.
    destruct last_group as [[L1 L2]|L]; nia.
Qed.
Lemma default_layout fuel : 340 < Z.of_nat fuel -> layout_ok default_geom fuel.
Proof.
  intros Hf. destruct d_bounds as (H1 & H2 & H3 & _). split; [apply default_geom_ok|..]; cbn [default_geom inodes_per_group blk_size groups inode_size inode_table_blocks]; lia || nia.
Qed.
Lemma default_super : sb_ok 3 default_geom.
Proof.
  destruct d_bounds as (H1 & H2 & H3 & H4 & H5 & H6 & H7 & H8). split; [apply default_geom_ok|..]; cbn [default_geom inodes_per_group blk_size groups inode_size inode_table_blocks bg_desc_reserve_blocks bg_desc_blocks sparse_super].
  - lia.
  - done.
  - apply (Z.div_unique _ _ _ 4095); lia.
  - done.
Qed.

(** ** The parameters that are computed *)
Context (label : list Z) (no_journal : bool) (len : Z) (Hlen : len / 4096 = n).
Definition default_info : make_info :=
  MakeInfo (n * 4096) 4096 32768 (16 * d_table) 256 (16 * d_table * d_groups) (if no_journal then 0 else compute_journal_blocks (n * 4096) 4096) 3
    (if no_journal then 16 else 20) 66 d_reserve label no_journal.
Lemma default_complete t : complete_info (MakeInfo len 0 0 0 0 0 0 0 0 0 0 label no_journal) t = Some default_info.
Proof.
  destruct d_bounds as (H1 & H2 & H3 & H4 & H5 & H6 & H7 & H8). assert (Hpos : 0 < len) by (pose proof (Z.div_mod len 4096 ltac:(lia)); pose proof (Z.mod_pos_bound len 4096 ltac:(lia)); lia).
  unfold complete_info. cbn [mi_len mi_block_size mi_journal_blocks mi_no_journal mi_feat_compat mi_blocks_per_group mi_inodes mi_inode_size mi_feat_ro_compat mi_feat_incompat mi_label].
  rewrite (proj2 (Z.leb_gt len 0)) by lia. cbn [Z.eqb]. change compute_block_size with 4096. change (4096 - 1) with (2 ^ 12 - 1). rewrite land_lnot_ones by lia. change (2 ^ 12) with 4096. rewrite Hlen.
  change (compute_blocks_per_group 4096) with 32768. assert (Eb : (n * 4096 + 4096 - 1) / 4096 = n) by (symmetry; apply (Z.div_unique _ _ _ 4095); lia).
  assert (Hq : 0 < n / 4 < 2 ^ 22) by (split; [apply Z.div_str_pos; lia | apply Z.div_lt_upper_bound; lia]).
  unfold compute_inodes_per_group, compute_inodes, compute_bg_desc_reserve_blocks. rewrite Eb, (u32_small n), (u32_small (n / 4)) by lia.
  rewrite (div_up_ok n 32768) by lia. cbn [mbind option_bind]. change ((n + 32768 - 1) / 32768) with d_groups. rewrite (div_up_ok (n / 4) d_groups) by lia. cbn [mbind option_bind Z.eqb]. change (4096 / 256) with 16.
  pose proof (ceil_bounds (n / 4) d_groups ltac:(lia)) as Hk. set (k := (n / 4 + d_groups - 1) / d_groups) in *. rewrite (div_up_ok k 16) by nia. change ((k + 16 - 1) / 16) with d_table. cbn [mbind option_bind].
  rewrite !(u32_small (16 * d_table)) by lia. rewrite (u32_small (16 * d_table * d_groups)) by nia. rewrite (u32_small (d_groups * 1024)) by lia.
  assert (Ed : (d_groups * 32 + 4096 - 1) / 4096 = d_desc) by done. rewrite Ed, (u32_small d_desc) by lia.
  assert (Er : (d_groups * 1024 * 32 + 4096 - 1) / 4096 = 8 * d_groups) by (symmetry; apply (Z.div_unique _ _ _ 4095); lia). rewrite Er, (u32_small (8 * d_groups - d_desc)) by lia.
  rewrite (proj2 (Z.leb_gt len 0)) by lia. change (4096 / 4) with 1024. fold d_reserve. unfold default_info. by destruct no_journal.
Qed.
Lemma default_layout_of : layout default_info = Some default_geom.
Proof.
  destruct d_bounds as (H1 & H2 & H3 & H4 & H5 & H6 & H7 & H8). unfold layout. cbn [default_info mi_block_size mi_blocks_per_group mi_inodes_per_group mi_inode_size mi_bg_desc_reserve_blocks mi_len mi_feat_ro_compat Z.eqb orb].
  unfold create_fs_aux_info. change (1024 <? 4096) with true. cbv iota zeta. rewrite Z.div_mul by lia. rewrite Z.sub_0_r. change ((n + 32768 - 1) / 32768) with d_groups. rewrite (u32_small d_groups) by lia.
  change ((d_groups * 32 + 4096 - 1) / 4096) with d_desc. rewrite (u32_small d_desc) by lia. unfold DIV_ROUND_UP. rewrite (u32_small (16 * d_table * 256)), (u32_small (16 * d_table * 256 + 4096 - 1)) by lia.
  assert (Et : (16 * d_table * 256 + 4096 - 1) / 4096 = d_table) by (symmetry; apply (Z.div_unique _ _ _ 4095); lia). rewrite Et. change (negb (Z.land 3 EXT4_FEATURE_RO_COMPAT_SPARSE_SUPER =? 0)) with true.
  change (ext4_bg_has_super_block _ _) with (ext4_bg_has_super_block default_geom (s32 (u32 (d_groups - 1)))). rewrite (u32_small (d_groups - 1)), s32_small by lia. destruct (has_super_ok default_geom (d_groups - 1) ltac:(lia)) as (sup & -> & _). cbn [mbind option_bind].
  pose proof (Z.mod_pos_bound n 32768 ltac:(lia)). rewrite (u32_small (n mod 32768)) by lia. set (h := u32 _).
  assert (Hh : h = gdata default_geom sup) by (destruct (default_room sup); unfold h, gdata, gtable, gmaps, default_geom in *; cbn [bg_desc_blocks bg_desc_reserve_blocks inode_table_blocks] in *; destruct sup; rewrite u32_small by lia; lia).
  destruct (default_room sup) as [R1 R2]. rewrite Hh. assert (Hc : (0 <? n mod 32768) && (n mod 32768 <? gdata default_geom sup) = false); [|by rewrite Hc].
  apply andb_false_iff. rewrite !Z.ltb_ge. destruct Hlast as [Hl|[Hl|Hl]]; [right; rewrite Z.mod_small by lia; lia | left; lia | right; lia].
Qed.
Lemma default_make_ok fuel mountpoint : 340 < Z.of_nat fuel -> bytes label -> zlen label < 2 ^ 29 -> match mountpoint with Some s => zlen s <= 62 | None => True end -> make_ok default_geom fuel default_info mountpoint.
Proof.
  intros Hf Hb Hl Hm. destruct d_bounds as (H1 & H2 & H3 & H4 & H5 & H6 & H7 & H8). split; try done.
  - by apply default_layout.
  - apply default_super.
  - cbn. lia.
  - cbn [default_geom bg_desc_reserve_blocks blk_size]. lia.
  - cbn [default_info mi_feat_compat mi_journal_blocks default_geom blk_size]. destruct no_journal; [done|]. intros _. unfold compute_journal_blocks.
    destruct (Z.ltb_spec (u32 ((n * 4096 + 4096 - 1) / 4096 / 64)) 1024); destruct (Z.ltb_spec 32768 (u32 ((n * 4096 + 4096 - 1) / 4096 / 64))); repeat case_match; lia.
Qed.
End Defaults.
