(* ===== verification/MakeImage.v ===== *)
(** * Images for every directory

    The theorems on [make_ext4fs_internal]: from the parameters and a host directory to the
    image that is mounted, also when it has gone through a sparse file, and the layouts
    that are chosen when no parameters are given. *)
From stdpp Require Import base gmap list list_numbers.
From Stdlib Require Import ZArith Lia.
From S2P Require Import Prelude Crc SparseFormat Sha1 Backed OutFile OutFileSpec Simg MemFile ImageTrip.
From S2P Require Import Alloc AllocInv AllocInit Extent FileTrip ReadBack Indirect Contents Dir ImageFiles MakeFs TreeRead TreeFrame TreeBuild ImageView Tree MakeSuper MakeTrip Defaults.
#[local] Open Scope Z_scope.

(** What the writer knows of [info]. *)
Definition written_info (i : make_info) : fs_info := FsInfo (mi_len i) (mi_block_size i).
Lemma layout_blk i g : layout i = Some g -> mi_block_size i = blk_size g.
Proof.
  unfold layout. case_match; [done|]. unfold create_fs_aux_info. destruct (ext4_bg_has_super_block _ _); [|done]. cbn [mbind option_bind].
  case_match; by intros [= <-].
Qed.

(** ** The theorems *)
(** C1. The image that is made can be mounted, for parameters whose layout the program can
    deal with ([make_ok]: among others no more groups than extents fit in a block, 339 with
    blocks of 4 KB, and a mount point of at most 62 characters) and for every directory that
    is [packable], or none, for which an empty "lost+found" is made: regular files, links
    shorter than 60 characters and directories, no special files (they make the call fail),
    names shorter than 256 characters, at most 500000 entries in a directory, files that block
    numbers can count, and permissions, owners and times that fit in their fields.
    [make_ext4fs_internal] then fails only when there are too few inodes, or when no single
    group has room for as many blocks as the journal and all of the directory take (it may
    fail then although the groups together have room); and any image that holds the queued
    blocks, as the memory and the files give them, is mounted by a reader that begins with the
    super block, checks the descriptors against it, and walks from the root inode: it finds
    the directory that was packed, with every name, permission, link and byte. *)
Theorem image_mounts fuel base i t mountpoint contents directory i' g :
  let es := packed directory in
  complete_info i t = Some i' -> layout i' = Some g -> make_ok g fuel i' mountpoint -> packable g contents (HDir es) ->
  (make_ext4fs_internal fuel base i t mountpoint directory false = None ∧ too_small g (asked g i' es) (10 + tree_inodes (HDir es))) ∨
  ∃ a m, make_ext4fs_internal fuel base i t mountpoint directory false = Some (i', a, m) ∧ ax_geom a = g ∧ good g m ∧
    ∀ load mmap64 img depth, viewed g contents load mmap64 img m -> (height (HDir es) <= depth)%nat ->
      mount_image depth img = Some (Perms root_mode 0 0 0, node_of contents (HDir es)).
Proof.
  intros es E1 E2 Hok Hpk. unfold make_ext4fs_internal. rewrite E1. cbn [mbind option_bind]. rewrite E2. cbn [mbind option_bind].
  pose proof (make_image_ok g fuel i' mountpoint contents es base Hok Hpk) as H. unfold empty_image in H. destruct (create_aux g _) as [a m0] eqn:Ea.
  rewrite make_image_packed. fold es. assert (ax_geom a = g) as Eg by (unfold create_aux in Ea; cbn in Ea; by injection Ea as <- _).
  destruct H as [[E H]|(m & E & H)]; rewrite E; cbn [mbind option_bind]; [by left | right]. by exists a, m.
Qed.


(** C19. The parameters that are chosen are right.  For every length from 64 blocks of 4 KB to
    42 GB whose last group, if it is not the only one, has at least 1600 blocks, and
    whatever the image is written to: the parameters are completed, the layout has groups
    for exactly the blocks of the length, no product or sum of it wraps, the layout fits in
    the fields of the super block, every group has room for its header, and the journal and
    the blocks kept for resizing have the sizes that the program can deal with. *)
Theorem default_parameters fuel len label no_journal t mountpoint :
  64 <= len / 4096 <= 339 * 32768 -> len / 4096 < 32768 ∨ len / 4096 mod 32768 = 0 ∨ 1600 <= len / 4096 mod 32768 -> 340 < Z.of_nat fuel ->
  bytes label -> zlen label < 2 ^ 29 -> match mountpoint with Some s => zlen s <= 62 | None => True end ->
  ∃ i g, complete_info (MakeInfo len 0 0 0 0 0 0 0 0 0 0 label no_journal) t = Some i ∧ layout i = Some g ∧ make_ok g fuel i mountpoint ∧
    len_blocks g = len / 4096 ∧ groups g = (len / 4096 + 32767) / 32768 ∧ blk_size g = 4096 ∧ blocks_per_group g = 32768.
Proof.
  intros Hn Hlast Hf Hb Hl Hm. exists (default_info (len / 4096) label no_journal), (default_geom (len / 4096)). split; [by apply default_complete|]. split; [by apply default_layout_of|]. split; [by apply default_make_ok|].
  split; [done|]. split; [|done]. cbn. unfold d_groups. f_equal. lia.
Qed.

(** 160 blocks of 1 KB, with a journal of 4 blocks and the label "ab", mounted at "system". *)
Definition info_ex : make_info := MakeInfo (160 * 1024) 1024 8192 0 128 32 4 0 0 0 0 [97; 98] false.
Definition complete_ex : make_info := MakeInfo (160 * 1024) 1024 8192 32 128 32 4 3 20 66 31 [97; 98] false.
Definition geom_ex : geom := Geom 1024 8192 32 128 31 true 1 160 4 1 1.
Definition mount_ex : option (list Z) := Some [115; 121; 115; 116; 101; 109].
Lemma make_ex_ok : make_ok geom_ex 3 complete_ex mount_ex.
Proof.
  assert (Hg : geom_ok geom_ex).
  { split; unfold gfirst; cbn; try lia; [by exists 10|]. intros i sup Hi. assert (i = 0) as -> by lia. intros [= <-]. done. }
  assert (Hl : layout_ok geom_ex 3) by (split; cbn; try done; lia). assert (Hs : sb_ok 3 geom_ex) by (split; cbn; try done; lia).
  split; cbn; try done; try lia. split; [repeat (constructor; [lia|]); constructor | done].
Qed.
Lemma ex_packable : packable geom_ex tree_contents (HDir tree_ex).
Proof. apply packable_dir. split; [done|]. by repeat constructor. Qed.
Lemma ex_large b : b <= 80 -> ¬ too_small geom_ex b 20.
Proof.
  intros Hb [H|H]; [done|]. specialize (H 0 true ltac:(cbn; lia) eq_refl). unfold gsize, gdata, gtable, gmaps, gfirst in H. cbn in H. lia.
Qed.
Lemma ex_viewable :
  ('(_, _, m) ← make_ext4fs_internal 3 4096 info_ex None mount_ex (Some tree_ex) false; Some (viewable geom_ex m)) = Some true.
Proof. vm_compute. reflexivity. Qed.
Lemma ex_made a m : make_ext4fs_internal 3 4096 info_ex None mount_ex (Some tree_ex) false = Some (complete_ex, a, m) -> viewable geom_ex m = true.
Proof. intros E. pose proof ex_viewable as H. rewrite E in H. cbn [mbind option_bind] in H. by injection H. Qed.
Lemma ex_inodes : 128 <= inode_size geom_ex ∧ inodes_per_group geom_ex * inode_size geom_ex <= inode_table_blocks geom_ex * blk_size geom_ex.
Proof. cbn. lia. Qed.
(** The image, made of the memory and the files, and mounted. *)
Lemma image_mounts_witness : ∃ a m, make_ext4fs_internal 3 4096 info_ex None mount_ex (Some tree_ex) false = Some (complete_ex, a, m) ∧
  let img := image_of geom_ex tree_contents m in
  viewed geom_ex tree_contents (load_of (memory_of geom_ex m)) (mmap_of tree_contents) img m ∧
  mount_image 3 img = Some (Perms root_mode 0 0 0, node_of tree_contents (HDir tree_ex)).
Proof.
  destruct (image_mounts 3 4096 info_ex None mount_ex tree_contents (Some tree_ex) complete_ex geom_ex) as [[_ H]|(a & m & E & _ & Hgood & H)]; [done | done | exact make_ex_ok | exact ex_packable | |].
  - exfalso. revert H. apply (ex_large _). vm_compute. discriminate.
  - exists a, m. split; [exact E|].
    assert (Hview : viewed geom_ex tree_contents (load_of (memory_of geom_ex m)) (mmap_of tree_contents) (image_of geom_ex tree_contents m) m).
    { exact (view_viewed geom_ex (ly_geom _ _ (mo_layout _ _ _ _ make_ex_ok)) ex_inodes eq_refl tree_contents m (proj1 Hgood) (ex_made a m E)). }
    split; [exact Hview|]. apply (H _ _ _ 3%nat Hview). cbn. lia.
Defined.
(** An image of 512 MB. *)
Lemma default_parameters_witness : ∃ i g, complete_info (reset_ext4fs_info (512 * 2 ^ 20)) None = Some i ∧ layout i = Some g ∧ make_ok g 400 i None ∧ groups g = 4.
Proof.
  destruct (default_parameters 400 (512 * 2 ^ 20) [] false None None) as (i & g & E1 & E2 & H & _ & Hg & _); [vm_compute; split; discriminate | right; left; reflexivity | lia | constructor | done | done |].
  exists i, g. split; [exact E1|]. split; [exact E2|]. split; [exact H | exact Hg].
Defined.
